(* ===== verification/_CoqProject ===== *)
-Q . S2P
Prelude.v
Mem.v
Lzf.v
Crc64.v
Rio.v
Intset.v
CStr.v
Sds.v
SdsText.v
Util.v
Double.v
ZSkip.v
Dict.v
Server.v
Object.v
Db.v
TString.v
Heap.v
TSet.v
TSetSpec.v
TSetAlg.v
TSetAlgSpec.v
TList.v
THash.v
Ziplist.v
ZSkipInv.v
ZSkipSpec.v
ZZip.v
ZSet.v
ZSetSpec.v
TZset.v
Multi.v
Watch.v
Proto.v
RdbStr.v
Rdb.v
RdbSave.v
RdbLoad.v
RdbFile.v
KvolveNs.v
KvolveUpd.v
Kvolve.v
KvolveCont.v
KvolveServer.v
KvolveZset.v
