(* ===== verification/Prelude.v ===== *)
(** * KVolve: lazy schema updates in a key-value store

    The program is Redis 2.8.17 with KVolve built in (src/redis-2.8.17/src).
    A client names the namespaces it uses and their versions when it connects
    (CLIENT SETNAME "ns@v,..."); an update file, loaded at run time, says that
    a namespace moves to a new version, possibly under a new name, and gives
    functions that turn an old value into a new one.  Stored data is not
    rewritten then: before each command KVolve looks at the keys the command
    names, and brings those keys and values up to date, so that every client
    sees the store as if it had always been at the current version.

    ** The parts and how they are modelled

    - Prelude.v (this file): outcomes with faults, the state-and-fault monad
      [prog] and its notation, machine integers, byte buffers, tactics.
    - CStr.v: C strings (strlen, strtok, atoi, strtoll, ...) on lists of bytes.
    - Mem.v: blocks of bytes that C code reads and writes by offset.
    - Intset.v: intset.c, the packed sorted integer set, on its bytes.
    - Util.v: util.c, the glob matcher and the conversions between integers
      and decimal text.
    - Dict.v: dict.c, the hash table with incremental rehashing, its
      iterators and hash functions.
    - Server.v: the state of the server.  [robj] (redis.h, with the [vers]
      field that KVolve adds) lives in a heap of addresses with reference
      counts, so aliasing and use after free are visible; databases, clients,
      replies, statistics; the tables of kvolve_internal.c ([version_hash],
      [tmp_vers_store_hash]).  The keyspace of a database is a finite map: that
      dict.c is one is the theorem dict_refines_map.
    - Object.v: object.c.  Db.v: db.c and touchWatchedKey of multi.c.
      TString.v: t_string.c.  TList.v: t_list.c.  THash.v: t_hash.c.
    - t_set.c.  TSet.v: the set type and the commands on single sets; TSetSpec.v:
      the set of strings behind both encodings.  TSetAlg.v: SINTER, SUNION, SDIFF,
      their STORE forms and SRANDMEMBER; TSetAlgSpec.v: loops over members, and
      what the commands compute.
    - Sds.v: sds.c, the dynamic strings as they lie in memory; SdsText.v: its
      functions on text (quoting, splitting, joining).  The other files use the
      values of strings.
    - Multi.v: the command table, processCommand and call of redis.c, and
      multi.c.  A client with its transaction is a [tclient].  Watch.v: WATCH
      against an abstract table of who watches what.
    - Proto.v: networking.c from the socket to a complete request: the query
      buffer, both request formats, protocol errors.
    - Ziplist.v: ziplist.c, the packed list behind small lists and hashes, on
      its bytes; the other files use the list of strings it stands for.
    - Sorted sets, t_zset.c.  Double.v: IEEE doubles, strtod, the formats %.17g
      and %f, and d2string of util.c.  ZSkip.v: the skip list in a heap of its
      nodes; ZSkipInv.v: its invariant; ZSkipSpec.v: the sorted list it stands
      for.  ZZip.v: the ziplist form.  ZSet.v: the operations on a value in
      either encoding and zsetConvert; ZSetSpec.v: the sorted list behind both.
      TZset.v: the commands.
    - Heap.v: ownership in the heap of objects.  [owns] says that every string
      object counts exactly the references that are held, [own_step] that a run of
      code kept every reference that its environment holds; the lemmas of the
      file give both for each operation of object.c.
    - Persistence: Lzf.v (lzf_c.c, lzf_d.c), Crc64.v (crc64.c) and Rio.v
      (rio.c, rio.h); RdbStr.v and Rdb.v: rdb.c, the encodings of lengths,
      integers and strings, then objects, keys and whole files.  RdbSave.v,
      RdbLoad.v and RdbFile.v: what is written, what is read, and that the two
      agree.
    - KvolveNs.v: the namespaces of kvolve_internal.c: connection requests,
      lookup of the namespace of a key, old names of keys, version stamps of
      new keys, loading of updates and disconnection of old clients.
    - KvolveUpd.v: the updates of kvolve_internal.c: renaming at a namespace
      change, the walk from the version of a value to the current one through
      the update functions, set members, list elements, hash fields and members
      of sorted sets.
    - Kvolve.v: kvolve.c, the command table, the handlers, and
      kvolve_process_command, which networking.c calls before each command.
    - KvolveCont.v: the theorems on the updates of lists and hashes;
      KvolveZset.v: those on the updates of sorted sets.
    - KvolveServer.v: the whole path of a request, from bytes through the hook
      to processCommand.

    A C function is a definition of the same name in the monad [M] (state
    passing over [server], or a [Fault] for what C leaves undefined, a failed
    assertion or an exhausted fuel).  A client is a value that commands take
    and return with their replies.

    ** Parameters

    The update functions ([mu]) and the calls of an update file ([dlopen])
    are code of the user.  [Tables] gives the fingerprint of the table of a
    set, whose sizes the server state does not keep; [three_pointers] is the
    size of the block that zmalloc gives for three pointers.  What the
    allocator returns, what realloc leaves in new memory, random(), the time
    and the order in which the keyspace is iterated are parameters or parts of
    the state too.  For dump files: what the compressor's hash table and
    buffers hold at first, the block that stands for a ziplist (any that
    ziplist.c accepts), sorted sets and zipmaps, and the outcome of the calls of
    the file system.  The commands that are not modelled are a parameter of the
    command table ([other]), and what processCommand asks of the rest of the
    server (the password, memory, replication, scripts) is the record [gates].

    ** Theorems

    - What KVolve is for (Kvolve.v): GET of a value at any version, under its
      current or its previous name, replies with the value taken through every
      update in between and leaves it current; SET stamps; SETNX and DEL see
      a value under its old name; sets are updated member by member; current
      data is left alone; the hook does not show in the statistics; which
      commands are handled.
    - Namespaces (KvolveNs.v): the longest declared prefix is found; requests
      are parsed and answered; loading an update extends the versions, keeps
      the tables well-formed, disconnects exactly the other old clients, and
      comes to an end; announced new keys get their version.
    - Lists, hashes and sorted sets (KvolveCont.v, KvolveZset.v): the update of
      a list maps the update functions over it in order, that of a hash over its
      fields, that of a sorted set over its members and scores, under the
      conditions that the code needs; what happens without them.
    - The container types: t_list.c refines a double-ended queue, t_hash.c a
      finite map, t_set.c a set of strings (TSetSpec.v), in both encodings,
      across the conversion between them; for hashes and sets every string object
      counts exactly the references that are held, before and after.
    - The algebra of sets (TSetAlgSpec.v): SINTER, SUNION and SDIFF answer with the
      intersection, the union and the difference, for any encodings, repeated or
      missing keys, order of the sets and algorithm of SDIFF; the STORE forms
      put the result at the key, which may be one of the sources.
    - The data structures: intset.c refines a set, ziplist.c a list of strings
      through every cascade of its size fields, dict.c a finite map under any
      interleaving of rehashing, the glob matcher decides its language,
      integers and their text are inverse, integer encodings keep bytes, INCR and
      its kin add or refuse (but for DECRBY by -2^63), RENAME moves exactly one key
      with its expire time.
    - Sorted sets: the skip list refines the list of its elements in the order
      of score and member, for any random levels and through deletions of
      ranges, with every span right (ZSkipSpec.v); every operation answers the
      same in both encodings, across their conversions, but for lexicographic
      bounds that are written like the sentinels of the code (ZSetSpec.v); the text of
      a score is read back as the same double (Double.v), so that ZSCORE gives
      what ZADD stored (TZset.v).
    - Persistence: rdbSave replaces the dump file as a whole or not at all, and
      a server that loads it holds the same keys, values and expire times, with
      the versions modulo 256 (RdbFile.v); compressed strings come back and the
      decompressor is safe on any input (Lzf.v); the checksum is the division by
      its polynomial and detects every burst of eight bytes (Crc64.v).
    - Commands (KvolveServer.v, Watch.v): a command in a transaction is queued and
      leaves the server as the hook has left it, to the reference counts; the watched keys, the watching
      clients, the dirty flags and the counted key objects implement one set of
      watches in any run of clients, and a transaction whose key was touched runs
      nothing.
    - Requests (Proto.v, Sds.v, SdsText.v): reading survives any bytes in any
      pieces; how the stream of requests is cut does not matter; dynamic strings
      stay well-formed under every operation; what is quoted is read back.
    - Where the code falls short: the search for old names can diverge
      (prev_loop_diverges), and a key last used two namespaces ago is lost
      (two_renames_lose_key); examples evaluate the model on cases in which the
      code loses data, runs past an array or aborts.

    ** Fuel and bounds

    Loops that are not structural take fuel, and run out with [OutOfFuel]:
    [prev_loop] (the number of declared namespaces; when the namespaces form a
    cycle no fuel is enough, prev_loop_diverges), [kill_loop] (one turn per
    random number of the state), the loops over the members of a set (one
    round more than members, which is enough: for_members_ok), the draws of
    SRANDMEMBER until enough members are different (the random numbers of the
    state; the code has no bound), the glob matcher, the number conversions and
    the searches (the length of their input; the theorems show that they
    return).  Dict.v assumes at most 2^29 keys, since bucket indexes pass
    through an int.

    ** Not modelled

    What freeing a client does beyond the event [KillClient] (its watched keys and
    its transaction); the events that are served while a dump file is loaded;
    ZUNIONSTORE and ZINTERSTORE; the blocking list commands; INCRBYFLOAT and
    HINCRBYFLOAT; dictScan and the SCAN commands; the output buffers of clients,
    replication, the append-only file, scripting and the event loop; third-party
    code. *)
From stdpp Require Export base tactics option list gmap strings numbers sorting.
From Stdlib Require Export ZArith Lia.
#[global] Open Scope Z_scope.
#[global] Set Default Proof Using "Type".

(** ** Faults

    What C leaves undefined, and what stops the server, are values: a model
    function that reads outside a buffer, follows a dangling pointer or fails
    a [redisAssert] returns [Fault]. *)
Inductive fault :=
  | NullDeref
  | Dangling
  | OutOfBounds
  | AssertFail
  | Panic
  | OutOfFuel.

#[global] Instance fault_eq_dec : EqDecision fault.
Proof. solve_decision. Defined.

Inductive outcome (A : Type) :=
  | Done (a : A)
  | Fault (f : fault).
Arguments Done {A} a.
Arguments Fault {A} f.

#[global] Instance outcome_ret : MRet outcome := fun A a => Done a.
#[global] Instance outcome_bind : MBind outcome := fun A B f m =>
  match m with Done a => f a | Fault e => Fault e end.

(** [expect e o]: a lookup that the C code performs unchecked. *)
Definition expect {A} (e : fault) (o : option A) : outcome A :=
  match o with Some a => Done a | None => Fault e end.

(** A test the C code makes with [assert] or [redisAssert]. *)
Definition require_b (e : fault) (b : bool) : outcome unit :=
  if b then Done tt else Fault e.

(** ** Stateful programs: state passing with faults *)
Definition prog (S A : Type) : Type := S -> outcome (A * S).

#[global] Instance prog_ret S : MRet (prog S) := fun A a s => Done (a, s).
#[global] Instance prog_bind S : MBind (prog S) := fun A B f m s =>
  match m s with Done (a, s') => f a s' | Fault e => Fault e end.

Definition get_st {S} : prog S S := fun s => Done (s, s).
Definition put_st {S} (s' : S) : prog S unit := fun _ => Done (tt, s').
Definition modify {S} (f : S -> S) : prog S unit := fun s => Done (tt, f s).
Definition gets {S A} (f : S -> A) : prog S A := fun s => Done (f s, s).
Definition lift {S A} (m : outcome A) : prog S A := fun s =>
  match m with Done a => Done (a, s) | Fault e => Fault e end.
Definition throw {S A} (e : fault) : prog S A := fun _ => Fault e.
Definition when {S} (b : bool) (m : prog S unit) : prog S unit :=
  if b then m else mret tt.

(** A [for] loop over a list of loop indices. *)
Fixpoint for_each {S X} (l : list X) (body : X -> prog S unit) : prog S unit :=
  match l with
  | [] => mret tt
  | x :: r => body x ≫= fun _ => for_each r body
  end.

(** ** Machine integers *)
Definition INT16_MIN : Z := -32768.
Definition INT16_MAX : Z := 32767.
Definition INT32_MIN : Z := -2147483648.
Definition INT32_MAX : Z := 2147483647.
Definition INT64_MIN : Z := -9223372036854775808.
Definition INT64_MAX : Z := 9223372036854775807.
Definition UINT32_MAX : Z := 4294967295.
Definition UINT64_MAX : Z := 18446744073709551615.

(** Conversion to an unsigned, a signed type of [w] bits. *)
Definition to_u (w z : Z) : Z := z mod 2 ^ w.
Definition to_s (w z : Z) : Z :=
  let m := z mod 2 ^ w in if m <? 2 ^ (w - 1) then m else m - 2 ^ w.

Definition in_s (w z : Z) : Prop := - 2 ^ (w - 1) <= z < 2 ^ (w - 1).
Definition in_u (w z : Z) : Prop := 0 <= z < 2 ^ w.

Lemma pow_succ_half w : 0 < w -> 2 ^ w = 2 * 2 ^ (w - 1).
Proof. intros. rewrite <- Z.pow_succ_r by lia. f_equal. lia. Qed.

Lemma to_u_small w z : in_u w z -> to_u w z = z.
Proof. unfold in_u, to_u. intros. apply Z.mod_small. lia. Qed.

Lemma to_u_range w z : 0 <= w -> in_u w (to_u w z).
Proof. intros. unfold in_u, to_u. apply Z.mod_pos_bound. apply Z.pow_pos_nonneg; lia. Qed.

Lemma to_s_small w z : 0 < w -> in_s w z -> to_s w z = z.
Proof.
  unfold in_s, to_s. intros Hw Hz. rewrite (pow_succ_half w Hw) in *.
  assert (0 < 2 ^ (w - 1)) by (apply Z.pow_pos_nonneg; lia).
  destruct (Z.ltb_spec (z mod (2 * 2 ^ (w - 1))) (2 ^ (w - 1))) as [Hl|Hl].
  - destruct (Z_lt_dec z 0).
    + rewrite <- (Z.mod_add z 1), Z.mod_small in Hl by lia. lia.
    + rewrite Z.mod_small; lia.
  - destruct (Z_lt_dec z 0).
    + rewrite <- (Z.mod_add z 1), Z.mod_small by lia. lia.
    + rewrite Z.mod_small in Hl; lia.
Qed.

Lemma to_s_range w z : 0 < w -> in_s w (to_s w z).
Proof.
  unfold in_s, to_s. intros Hw. rewrite (pow_succ_half w Hw).
  assert (0 < 2 ^ (w - 1)) by (apply Z.pow_pos_nonneg; lia).
  pose proof (Z.mod_pos_bound z (2 * 2 ^ (w - 1)) ltac:(lia)).
  destruct (Z.ltb_spec (z mod (2 * 2 ^ (w - 1))) (2 ^ (w - 1))); lia.
Qed.

Lemma to_s_mod w z : 0 < w -> to_s w (z mod 2 ^ w) = to_s w z.
Proof. intros. unfold to_s. rewrite Z.mod_mod by (apply Z.pow_nonzero; lia). done. Qed.

(** ** Byte buffers: little-endian values, reads, writes and [memmove] *)
Fixpoint le_bytes (n : nat) (z : Z) : list Z :=
  match n with
  | O => []
  | S n' => z mod 256 :: le_bytes n' (z / 256)
  end.

Fixpoint le_val (bs : list Z) : Z :=
  match bs with
  | [] => 0
  | b :: r => b + 256 * le_val r
  end.

Definition buf_get (b : list Z) (off n : nat) : outcome (list Z) :=
  if decide (off + n <= length b)%nat then Done (take n (drop off b)) else Fault OutOfBounds.

Definition buf_put (b : list Z) (off : nat) (data : list Z) : outcome (list Z) :=
  if decide (off + length data <= length b)%nat
  then Done (take off b ++ data ++ drop (off + length data) b)
  else Fault OutOfBounds.

(** [memmove(b+dst, b+src, n)] *)
Definition buf_move (b : list Z) (dst src n : nat) : outcome (list Z) :=
  data ← buf_get b src n; buf_put b dst data.

(** [realloc] to [n] bytes; what the new bytes hold is unspecified, [fill]
    stands for it. *)
Definition buf_resize (fill : nat -> Z) (b : list Z) (n : nat) : list Z :=
  take n b ++ map fill (seq (length b) (n - length b)).

Lemma length_le_bytes n z : length (le_bytes n z) = n.
Proof. revert z; induction n; intros; simpl; auto. Qed.

Lemma le_val_bytes n z : le_val (le_bytes n z) = z mod 256 ^ Z.of_nat n.
Proof.
  revert z; induction n as [|n IH]; intros z; cbn [le_bytes le_val].
  - rewrite Z.pow_0_r, Z.mod_1_r. done.
  - rewrite IH, Nat2Z.inj_succ, Z.pow_succ_r by lia.
    rewrite Z.rem_mul_r; [lia | lia | apply Z.pow_pos_nonneg; lia].
Qed.

Lemma length_buf_resize fill b n : length (buf_resize fill b n) = n.
Proof. unfold buf_resize. rewrite length_app, length_take, length_map, length_seq. lia. Qed.

Lemma buf_get_mid a d c off n :
  off = length a -> n = length d -> buf_get (a ++ d ++ c) off n = Done d.
Proof.
  intros -> ->. unfold buf_get. rewrite decide_True by (rewrite !length_app; lia).
  rewrite drop_app_length, take_app_length. done.
Qed.

Lemma buf_put_mid a d c off d' :
  off = length a -> length d' = length d ->
  buf_put (a ++ d ++ c) off d' = Done (a ++ d' ++ c).
Proof.
  intros -> Hd. unfold buf_put. rewrite decide_True by (rewrite !length_app; lia).
  rewrite take_app_length, Hd, <- drop_drop, !drop_app_length. done.
Qed.

(** ** Binds *)
Lemma bind_Done {A B} (a : A) (f : A -> outcome B) : (Done a ≫= f) = f a.
Proof. done. Qed.

Lemma bind_mret_o {A B} (a : A) (f : A -> outcome B) : (mret a ≫= f) = f a.
Proof. done. Qed.

Lemma bind_Done_inv {A B} (m : outcome A) (f : A -> outcome B) b :
  m ≫= f = Done b -> exists a, m = Done a /\ f a = Done b.
Proof. destruct m; simpl; [eauto | done]. Qed.

Lemma prog_bind_inv {S A B} (m : prog S A) (f : A -> prog S B) s r :
  (m ≫= f) s = Done r -> exists a s', m s = Done (a, s') /\ f a s' = Done r.
Proof. unfold mbind, prog_bind. destruct (m s) as [[a s']|]; [eauto|done]. Qed.

Lemma prog_bind_step {S A B} (m : prog S A) (f : A -> prog S B) s a s' :
  m s = Done (a, s') -> (m ≫= f) s = f a s'.
Proof. unfold mbind, prog_bind. intros ->. done. Qed.

(** The basic programs under a bind: rewriting with these runs a program. *)
Lemma bind_mret {S A B} (a : A) (f : A -> prog S B) s : (mret a ≫= f) s = f a s.
Proof. done. Qed.
Lemma bind_get_st {S B} (f : S -> prog S B) s : (get_st ≫= f) s = f s s.
Proof. done. Qed.
Lemma bind_put_st {S B} (s' : S) (f : unit -> prog S B) s : (put_st s' ≫= f) s = f tt s'.
Proof. done. Qed.
Lemma bind_gets {S A B} (g : S -> A) (f : A -> prog S B) s : (gets g ≫= f) s = f (g s) s.
Proof. done. Qed.
Lemma bind_modify {S B} (g : S -> S) (f : unit -> prog S B) s : (modify g ≫= f) s = f tt (g s).
Proof. done. Qed.
Lemma bind_lift {S A B} (a : A) (f : A -> prog S B) s : (lift (Done a) ≫= f) s = f a s.
Proof. done. Qed.
Lemma bind_assoc {S A B C} (m : prog S A) (f : A -> prog S B) (g : B -> prog S C) s :
  ((m ≫= f) ≫= g) s = (m ≫= fun x => f x ≫= g) s.
Proof. unfold mbind, prog_bind. by destruct (m s) as [[a s']|]. Qed.

Lemma for_each_app {S X} (l1 l2 : list X) (body : X -> prog S unit) s :
  for_each (l1 ++ l2) body s = (for_each l1 body ≫= fun _ => for_each l2 body) s.
Proof.
  revert s; induction l1 as [|x l1 IH]; intros s; simpl; [done|].
  unfold mbind, prog_bind. destruct (body x s) as [[a s']|]; [|done].
  rewrite IH. done.
Qed.

(** An invariant kept by the body is kept by the loop. *)
Lemma for_each_inv {S X} (P : S -> Prop) (l : list X) (body : X -> prog S unit) s s' :
  (forall x s1 s2, x ∈ l -> P s1 -> body x s1 = Done (tt, s2) -> P s2) ->
  P s -> for_each l body s = Done (tt, s') -> P s'.
Proof.
  revert s; induction l as [|x l IH]; intros s Hb Hs H; simpl in H.
  - by injection H as <-.
  - apply prog_bind_inv in H as ([] & s1 & H1 & H2).
    eapply IH; [|eapply Hb; [left|exact Hs|exact H1]|exact H2].
    intros y ??? Hy. eapply Hb; [right|..]; eauto.
Qed.

(** ** Automation *)
Create HintDb kv discriminated.
Create Rewrite HintDb kv.
Create Rewrite HintDb kv_len.
Create Rewrite HintDb run.
#[export] Hint Rewrite @bind_mret @bind_get_st @bind_put_st @bind_gets @bind_modify @bind_lift @bind_assoc : run.
#[export] Hint Rewrite length_le_bytes length_buf_resize : kv.
#[export] Hint Rewrite @length_app @length_take @length_drop @length_map @length_insert : kv_len.

(** [zify_bool]: turn the boolean comparisons of the code into propositions. *)
Ltac zify_bool :=
  repeat match goal with
  | H : (_ <? _) = true |- _ => apply Z.ltb_lt in H
  | H : (_ <? _) = false |- _ => apply Z.ltb_ge in H
  | H : (_ <=? _) = true |- _ => apply Z.leb_le in H
  | H : (_ <=? _) = false |- _ => apply Z.leb_gt in H
  | H : (_ =? _) = true |- _ => apply Z.eqb_eq in H
  | H : (_ =? _) = false |- _ => apply Z.eqb_neq in H
  | H : (_ >? _) = true |- _ => rewrite Z.gtb_ltb in H
  | H : (_ >? _) = false |- _ => rewrite Z.gtb_ltb in H
  | H : (_ && _)%bool = true |- _ => apply andb_true_iff in H as [? ?]
  | H : (_ || _)%bool = false |- _ => apply orb_false_iff in H as [? ?]
  end.

(** [case_if]: split on the first conditional or match of the goal. *)
Ltac case_if :=
  match goal with
  | |- context [if ?b then _ else _] => destruct b eqn:?
  end; zify_bool.

(** [inv_done]: decompose a hypothesis [m ≫= f = Done r]. *)
Ltac inv_done :=
  repeat match goal with
  | H : Done _ = Done _ |- _ => injection H as H; subst
  | H : Fault _ = Done _ |- _ => discriminate H
  | H : (_ ≫= _) = Done _ |- _ =>
      let a := fresh "a" in let Ha := fresh "Hm" in
      apply bind_Done_inv in H as (a & Ha & H)
  end.

Ltac inv_prog :=
  repeat match goal with
  | H : Done _ = Done _ |- _ => injection H as H; subst
  | H : Fault _ = Done _ |- _ => discriminate H
  | H : (_ ≫= _) _ = Done _ |- _ =>
      let a := fresh "a" in let s := fresh "s" in let Ha := fresh "Hm" in
      apply prog_bind_inv in H as (a & s & Ha & H)
  end.

(** [run]: execute the basic programs at the head of the goal. *)
Ltac run := autorewrite with run; cbn beta iota.
