(* ===== verification/Mem.v ===== *)
(** * Blocks of memory: bytes at offsets

    A block is the list of its bytes, a pointer into it an offset.  A read or a
    write that is not inside the block is a [Fault].  Ziplist.v, Lzf.v and
    Rdb.v work on such blocks. *)
From S2P Require Import Prelude.

Module Mem.

(** ** Bytes at offsets *)
Definition byte (zl : list Z) (p : Z) : outcome Z :=
  if p <? 0 then Fault OutOfBounds else expect OutOfBounds (zl !! Z.to_nat p).
Definition mem_get (zl : list Z) (p n : Z) : outcome (list Z) :=
  if (p <? 0) || (n <? 0) then Fault OutOfBounds else buf_get zl (Z.to_nat p) (Z.to_nat n).
Definition mem_put (zl : list Z) (p : Z) (data : list Z) : outcome (list Z) :=
  if p <? 0 then Fault OutOfBounds else buf_put zl (Z.to_nat p) data.
Definition memmove (zl : list Z) (dst src n : Z) : outcome (list Z) :=
  data ← mem_get zl src n; mem_put zl dst data.

Definition size (bs : list Z) : Z := Z.of_nat (length bs).

Create Rewrite HintDb zsize.

(** ** Reading and writing at a place *)
Lemma size_app a b : size (a ++ b) = size a + size b.
Proof. unfold size. rewrite length_app. lia. Qed.
Lemma size_nonneg a : 0 <= size a.
Proof. unfold size. lia. Qed.
Lemma size_cons x a : size (x :: a) = 1 + size a.
Proof. unfold size. cbn [length]. lia. Qed.
Lemma size_nil : size [] = 0.
Proof. done. Qed.
Lemma size_le_bytes n z : size (le_bytes n z) = Z.of_nat n.
Proof. unfold size. by rewrite length_le_bytes. Qed.
#[export] Hint Rewrite size_app size_cons size_nil size_le_bytes : zsize.

(** [sz]: equalities and bounds on sizes; [assoc]: equalities of lists up to
    the association of [++]. *)
Ltac sz := autorewrite with zsize in *; lia.
Ltac assoc := rewrite <- ?app_assoc; cbn [app]; rewrite <- ?app_assoc; reflexivity.

Lemma byte_at zl p a b c : zl = a ++ b :: c -> p = size a -> byte zl p = Done b.
Proof.
  intros -> ->. unfold byte. rewrite (proj2 (Z.ltb_ge _ _)) by apply size_nonneg. unfold size. rewrite Nat2Z.id.
  by rewrite list_lookup_middle.
Qed.

Lemma mem_get_at zl p n a d c : zl = a ++ d ++ c -> p = size a -> n = size d -> mem_get zl p n = Done d.
Proof.
  intros -> -> ->. unfold mem_get. rewrite !(proj2 (Z.ltb_ge _ _)) by apply size_nonneg. unfold size. rewrite !Nat2Z.id.
  cbn [orb]. by apply buf_get_mid.
Qed.

Lemma mem_put_at zl p a d d' c : zl = a ++ d ++ c -> p = size a -> size d' = size d -> mem_put zl p d' = Done (a ++ d' ++ c).
Proof.
  intros -> -> Hd. unfold mem_put. rewrite (proj2 (Z.ltb_ge _ _)) by apply size_nonneg. unfold size in *. rewrite Nat2Z.id.
  apply buf_put_mid; [done|lia].
Qed.

Lemma memmove_at zl dst src n a d c a' d' c' :
  zl = a ++ d ++ c -> src = size a -> n = size d -> zl = a' ++ d' ++ c' -> dst = size a' -> size d' = n ->
  memmove zl dst src n = Done (a' ++ d ++ c').
Proof.
  intros H1 H2 H3 H4 H5 H6. unfold memmove. rewrite (mem_get_at zl src n a d c) by done. rewrite bind_Done.
  apply (mem_put_at _ _ a' d' d c'); [done|done|lia].
Qed.

(** Splitting a list at a size. *)
Lemma split_size (l : list Z) n : 0 <= n <= size l -> exists a b, l = a ++ b /\ size a = n.
Proof.
  intros Hn. exists (take (Z.to_nat n) l), (drop (Z.to_nat n) l). rewrite take_drop. split; [done|].
  unfold size in *. rewrite length_take. lia.
Qed.

Lemma le_val_small n v : 0 <= v < 256 ^ Z.of_nat n -> le_val (le_bytes n v) = v.
Proof. intros. rewrite le_val_bytes. by apply Z.mod_small. Qed.

(** ** Bits and bytes *)
Lemma lor_add a b n : 0 <= n -> 0 <= b < 2 ^ n -> Z.lor (a * 2 ^ n) b = a * 2 ^ n + b.
Proof.
  intros Hn Hb. symmetry. apply Z.add_nocarry_lor.
  rewrite <- (Z.mod_small b (2 ^ n)), <- Z.land_ones by lia.
  rewrite (Z.land_comm b), Z.land_assoc, Z.land_ones, Z.mod_mul, Z.land_0_l by lia. done.
Qed.

Lemma land_255 n : Z.land n 255 = n mod 256.
Proof. exact (Z.land_ones n 8 ltac:(lia)). Qed.
Lemma land_63 n : Z.land n 63 = n mod 64.
Proof. exact (Z.land_ones n 6 ltac:(lia)). Qed.
End Mem.
