(* ===== verification/Lzf.v ===== *)
(** * lzf_c.c and lzf_d.c: the compression of strings in dump files

    The configuration is the one of lzfP.h: HLOG = 16, VERY_FAST, CHECK_INPUT,
    and a hash table that is not initialised, so that every slot holds an
    arbitrary pointer at first ([garbage]).  Pointers into the input are offsets
    from its first byte; a slot that points elsewhere is an offset outside it.
    The output buffers hold arbitrary bytes at first. *)
From S2P Require Import Prelude Mem.
Import Mem.

Module Lzf.

Definition HLOG : Z := 16.
Definition HSIZE : Z := 65536.
Definition MAX_LIT : Z := 32.
Definition MAX_OFF : Z := 8192.
Definition MAX_REF : Z := 264.

Definition FRST (inp : list Z) (p : Z) : outcome Z :=
  a ← byte inp p; b ← byte inp (p + 1); mret (Z.lor (Z.shiftl a 8) b).
Definition NEXT (v : Z) (inp : list Z) (p : Z) : outcome Z :=
  c ← byte inp (p + 2); mret (to_u 32 (Z.lor (Z.shiftl v 8) c)).
Definition IDX (h : Z) : Z := Z.land (to_u 32 (Z.shiftr h (24 - HLOG) - h * 5)) (HSIZE - 1).

(** ** lzf_compress *)
Record lz := mkLz {
  z_ip : Z;
  z_op : Z;
  z_lit : Z;
  z_hval : Z;
  z_tab : gmap Z Z;
  z_out : list Z
}.

(** How a turn of the loop goes on: [return 0], [break], or the next turn. *)
Inductive turn := Return0 (out : list Z) | Break (st : lz) | Go (st : lz).

(** [op [- lit - 1] = lit - 1] *)
Definition stop_run (out : list Z) (op lit : Z) : outcome (list Z) :=
  mem_put out (op - lit - 1) [to_u 8 (lit - 1)].

(** The sixteen unrolled comparisons; [true] when one of them breaks. *)
Fixpoint unrolled (k : nat) (inp : list Z) (ref ip len : Z) : outcome (bool * Z) :=
  match k with
  | O => mret (false, len)
  | S k' =>
    let len := len + 1 in
    a ← byte inp (ref + len);
    b ← byte inp (ip + len);
    if a =? b then unrolled k' inp ref ip len else mret (true, len)
  end.

(** [do len++; while (len < maxlen && ref[len] == ip[len]);] *)
Fixpoint extend (fuel : nat) (inp : list Z) (ref ip maxlen len : Z) : outcome Z :=
  match fuel with
  | O => Fault OutOfFuel
  | S fuel' =>
    let len := len + 1 in
    if len <? maxlen then
      a ← byte inp (ref + len);
      b ← byte inp (ip + len);
      if a =? b then extend fuel' inp ref ip maxlen len else mret len
    else mret len
  end.

(** The number of equal octets from the third on; MAX_REF bounds the turns. *)
Definition match_len (inp : list Z) (ref ip : Z) : outcome Z :=
  let len := 2 in
  let maxlen := size inp - ip - len in
  let maxlen := if maxlen >? MAX_REF then MAX_REF else maxlen in
  r ← (if maxlen >? 16 then unrolled 16 inp ref ip len else mret (false, len));
  if (fst r : bool) then mret (snd r)
  else extend (Z.to_nat MAX_REF) inp ref ip maxlen (snd r).

Section Compress.
Context (garbage : Z -> Z) (inp : list Z) (out_len : Z).

(** The condition of the match, evaluated from left to right. *)
Definition is_match (ref ip : Z) : outcome bool :=
  let off := to_u 64 (ip - ref - 1) in
  if (off <? MAX_OFF) && (ip + 4 <? size inp) && (ref >? 0) then
    a ← mem_get inp ref 2; b ← mem_get inp ip 2;
    if bool_decide (a = b) then
      c ← byte inp (ref + 2); d ← byte inp (ip + 2); mret (c =? d)
    else mret false
  else mret false.

(** The reference, and [op] behind it. *)
Definition put_ref (out : list Z) (op off len : Z) : outcome (list Z * Z) :=
  r ← (if len <? 7 then
         out ← mem_put out op [to_u 8 (Z.shiftr off 8 + Z.shiftl len 5)]; mret (out, op + 1)
       else
         out ← mem_put out op [to_u 8 (Z.shiftr off 8 + Z.shiftl 7 5)];
         out ← mem_put out (op + 1) [to_u 8 (len - 7)]; mret (out, op + 2));
  let '(out, op) := r in
  out ← mem_put out op [to_u 8 off];
  mret (out, op + 1).

(** The match at [ref]: the run of literals ends, the reference is written,
    and the hash table gets the last two positions. *)
Definition emit_match (st : lz) (ref hval : Z) (tab : gmap Z Z) : outcome turn :=
  let ip := z_ip st in
  let off := to_u 64 (ip - ref - 1) in
  out ← stop_run (z_out st) (z_op st) (z_lit st);
  let op := z_op st - (if z_lit st =? 0 then 1 else 0) in
  if op + 3 + 1 >=? out_len then mret (Return0 out)
  else
    len ← match_len inp ref ip;
    let len := len - 2 in
    let ip := ip + 1 in
    r ← put_ref out op off len;
    let '(out, op) := r in
    let op := op + 1 in
    let ip := ip + len + 1 in
    if ip >=? size inp - 2 then mret (Break (mkLz ip op 0 hval tab out))
    else
      let ip := ip - 2 in
      hval ← FRST inp ip;
      hval ← NEXT hval inp ip;
      let tab := <[IDX hval := ip]> tab in
      let ip := ip + 1 in
      hval ← NEXT hval inp ip;
      let tab := <[IDX hval := ip]> tab in
      mret (Go (mkLz (ip + 1) op 0 hval tab out)).

(** [lit++; *op++ = *ip++;] and the end of a full run. *)
Definition put_literal (st : lz) (hval : Z) (tab : gmap Z Z) : outcome lz :=
  b ← byte inp (z_ip st);
  out ← mem_put (z_out st) (z_op st) [b];
  let lit := z_lit st + 1 in
  let op := z_op st + 1 in
  if lit =? MAX_LIT then
    out ← stop_run out op lit; mret (mkLz (z_ip st + 1) (op + 1) 0 hval tab out)
  else mret (mkLz (z_ip st + 1) op lit hval tab out).

Definition main_turn (st : lz) : outcome turn :=
  if z_ip st <? size inp - 2 then
    hval ← NEXT (z_hval st) inp (z_ip st);
    let ref := default (garbage (IDX hval)) (z_tab st !! IDX hval) in
    let tab := <[IDX hval := z_ip st]> (z_tab st) in
    m ← is_match ref (z_ip st);
    if (m : bool) then emit_match st ref hval tab
    else if z_op st >=? out_len then mret (Return0 (z_out st))
    else st ← put_literal st hval tab; mret (Go st)
  else mret (Break st).

(** Every turn takes at least one byte of the input. *)
Fixpoint main_loop (fuel : nat) (st : lz) : outcome (list Z + lz) :=
  match fuel with
  | O => Fault OutOfFuel
  | S fuel' =>
    t ← main_turn st;
    match t with
    | Return0 out => mret (inl out)
    | Break st => mret (inr st)
    | Go st => main_loop fuel' st
    end
  end.

(** [while (ip < in_end)] at the end. *)
Fixpoint last_loop (fuel : nat) (st : lz) : outcome lz :=
  match fuel with
  | O => Fault OutOfFuel
  | S fuel' =>
    if z_ip st <? size inp then
      st ← put_literal st (z_hval st) (z_tab st); last_loop fuel' st
    else mret st
  end.

(** The length of the compressed data, or 0, and the output buffer [out]. *)
Definition lzf_compress (out : list Z) : outcome (Z * list Z) :=
  if (size inp =? 0) || (out_len =? 0) then mret (0, out)
  else
    hval ← FRST inp 0;
    r ← main_loop (S (length inp)) (mkLz 0 1 0 hval ∅ out);
    match r with
    | inl out => mret (0, out)
    | inr st =>
      if z_op st + 3 >? out_len then mret (0, z_out st)
      else
        st ← last_loop (S (length inp)) st;
        out ← stop_run (z_out st) (z_op st) (z_lit st);
        mret (z_op st - (if z_lit st =? 0 then 1 else 0), out)
    end.
End Compress.

(** ** lzf_decompress *)
(** [do *op++ = *ref++; while (--n);] within the output. *)
Fixpoint copy_ref (n : nat) (out : list Z) (op ref : Z) : outcome (list Z) :=
  match n with
  | O => mret out
  | S n' => b ← byte out ref; out ← mem_put out op [b]; copy_ref n' out (op + 1) (ref + 1)
  end.

(** One turn, from the read of [*ip++]: the buffer and the two positions after
    it, or [None] for the errors of the input, which return 0. *)
Definition decompress_turn (inp : list Z) (out_len : Z) (out : list Z) (ip op : Z)
    : outcome (option (list Z * Z * Z)) :=
  ctrl ← byte inp ip;
  let ip := ip + 1 in
  if ctrl <? 32 then
    let ctrl := ctrl + 1 in
    if op + ctrl >? out_len then mret None
    else if ip + ctrl >? size inp then mret None
    else
      bs ← mem_get inp ip ctrl;
      out ← mem_put out op bs;
      mret (Some (out, ip + ctrl, op + ctrl))
  else
    let len := Z.shiftr ctrl 5 in
    let ref := op - Z.shiftl (Z.land ctrl 31) 8 - 1 in
    if ip >=? size inp then mret None
    else
      q ← (if len =? 7 then
             b ← byte inp ip;
             if ip + 1 >=? size inp then mret None else mret (Some (len + b, ip + 1))
           else mret (Some (len, ip)));
      match q with
      | None => mret None
      | Some (len, ip) =>
        b ← byte inp ip;
        let ref := ref - b in
        let ip := ip + 1 in
        if op + len + 2 >? out_len then mret None
        else if ref <? 0 then mret None
        else
          out ← copy_ref (Z.to_nat (len + 2)) out op ref;
          mret (Some (out, ip, op + len + 2))
      end.

(** [do ... while (ip < in_end)]: every turn takes a byte of the input. *)
Fixpoint decompress_loop (fuel : nat) (inp : list Z) (out_len : Z) (out : list Z) (ip op : Z)
    : outcome (Z * list Z) :=
  match fuel with
  | O => Fault OutOfFuel
  | S fuel' =>
    r ← decompress_turn inp out_len out ip op;
    match r with
    | None => mret (0, out)
    | Some (out, ip, op) =>
      if ip <? size inp then decompress_loop fuel' inp out_len out ip op else mret (op, out)
    end
  end.

(** The number of bytes written, or 0, and the output buffer. *)
Definition lzf_decompress (inp : list Z) (out : list Z) : outcome (Z * list Z) :=
  decompress_loop (S (length inp)) inp (size out) out 0 0.

(** * The format
    [Decodes e d]: the bytes [e] are literal runs and back references that stand
    for the data [d], as the comment of lzf_c.c lays them out. *)
Definition ref_bytes (off len : Z) : list Z :=
  if len - 2 <? 7 then [off / 256 + (len - 2) * 32; off mod 256]
  else [off / 256 + 224; len - 2 - 7; off mod 256].

(** [c] repeats, one byte after the other, what stands [off + 1] bytes before. *)
Definition repeats (d c : list Z) (off : Z) : Prop :=
  forall i : nat, (i < length c)%nat ->
    (d ++ c) !! (length d + i)%nat = (d ++ c) !! (length d + i - Z.to_nat (off + 1))%nat.

(** [Token d tok c]: after the data [d], the bytes [tok] stand for [c]. *)
Inductive Token (d : list Z) : list Z -> list Z -> Prop :=
| tok_lit bs : 1 <= size bs <= MAX_LIT -> Token d ((size bs - 1) :: bs) bs
| tok_ref c off : 3 <= size c <= MAX_REF -> 0 <= off < MAX_OFF -> off < size d -> repeats d c off ->
    Token d (ref_bytes off (size c)) c.

Inductive Decodes : list Z -> list Z -> Prop :=
| dec_nil : Decodes [] []
| dec_token e d tok c : Decodes e d -> Token d tok c -> Decodes (e ++ tok) (d ++ c).

(** ** The decompressor reads the format *)
Lemma gtb_false a b : a <= b -> (a >? b) = false.
Proof. rewrite Z.gtb_ltb. apply Z.ltb_ge. Qed.
Lemma geb_false a b : a < b -> (a >=? b) = false.
Proof. rewrite Z.geb_leb. apply Z.leb_gt. Qed.

Lemma byte_lookup bs p v : 0 <= p -> bs !! Z.to_nat p = Some v -> byte bs p = Done v.
Proof. intros Hp Hv. unfold byte. rewrite (proj2 (Z.ltb_ge _ _)) by lia. by rewrite Hv. Qed.

Lemma copy_ref_repeats c d old rest op off :
  repeats d c off -> 0 <= off < size d -> length old = length c -> op = size d ->
  copy_ref (length c) (d ++ old ++ rest) op (op - off - 1) = Done (d ++ c ++ rest).
Proof.
  intros Hr Ho Hl ->. revert d old Hr Ho Hl.
  induction c as [|x c IH]; intros d old Hr Ho Hl; destruct old as [|y old]; try discriminate; [done|].
  cbn [copy_ref length]. pose proof (Hr 0%nat ltac:(cbn; lia)) as H0. rewrite Nat.add_0_r, list_lookup_middle in H0 by done.
  rewrite lookup_app_l in H0 by (unfold size in *; lia).
  rewrite (byte_lookup _ _ x); [|unfold size in *; lia|].
  2:{ rewrite lookup_app_l by (unfold size in *; lia). rewrite H0. f_equal. unfold size. lia. }
  rewrite bind_Done, (mem_put_at _ _ d [y] [x] (old ++ rest)) by done. rewrite bind_Done.
  pose proof (IH (d ++ [x]) old) as E. rewrite !size_app in E. cbn [length] in Hl.
  replace (size d + 1) with (size d + size [x]) by done.
  replace (size d - off - 1 + 1) with (size d + size [x] - off - 1) by (unfold size; cbn [length]; lia).
  rewrite <- !app_assoc in E. cbn [app] in E |- *. apply E; [|unfold size in *; cbn [length] in *; lia|lia].
  intros i Hi. pose proof (Hr (S i) ltac:(cbn; lia)) as Hs. rewrite length_app. cbn [length app].
  rewrite <- app_assoc. cbn [app]. replace (length d + 1 + i)%nat with (length d + S i)%nat by lia. exact Hs.
Qed.

Lemma turn_lit e bs tail d old rest out_len :
  1 <= size bs <= 32 -> size old = size bs -> size d + size bs <= out_len ->
  decompress_turn (e ++ (size bs - 1) :: bs ++ tail) out_len (d ++ old ++ rest) (size e) (size d)
  = Done (Some (d ++ bs ++ rest, size e + 1 + size bs, size d + size bs)).
Proof.
  intros Hb Ho Hl. unfold decompress_turn. rewrite (byte_at _ (size e) e (size bs - 1) (bs ++ tail)) by done.
  rewrite bind_Done. cbv zeta. rewrite (proj2 (Z.ltb_lt _ _)) by lia.
  replace (size bs - 1 + 1) with (size bs) by lia. rewrite gtb_false by lia.
  pose proof (size_nonneg tail). rewrite gtb_false by sz.
  rewrite (mem_get_at _ _ _ (e ++ [size bs - 1]) bs tail) by first [assoc|sz]. rewrite bind_Done.
  by rewrite (mem_put_at _ _ d old bs rest) by done.
Qed.

Lemma ctrl_fields a l : 0 <= a < 32 -> Z.shiftr (a + l * 32) 5 = l /\ Z.land (a + l * 32) 31 = a.
Proof.
  intros Ha. rewrite Z.shiftr_div_pow2 by lia. change 31 with (Z.ones 5). rewrite Z.land_ones by lia.
  change (2 ^ 5) with 32. rewrite Z.div_add, Z.div_small, Z.mod_add, Z.mod_small by lia. lia.
Qed.

(** The end of a back reference, from its last byte on. *)
Lemma copy_at d c old rest off out_len :
  repeats d c off -> 0 <= off < size d -> size old = size c -> size d + size c <= out_len ->
  let len := size c - 2 in
  let ref := size d - Z.shiftl (off / 256) 8 - 1 - off mod 256 in
  (size d + len + 2 >? out_len) = false /\ (ref <? 0) = false /\
  copy_ref (Z.to_nat (len + 2)) (d ++ old ++ rest) (size d) ref = Done (d ++ c ++ rest).
Proof.
  intros Hr Ho Hl Hb len ref. subst len ref. rewrite Z.shiftl_mul_pow2 by lia. change (2 ^ 8) with 256.
  pose proof (Z.div_mod off 256 ltac:(lia)). split; [apply gtb_false; lia|]. split; [apply Z.ltb_ge; lia|].
  replace (size c - 2 + 2) with (size c) by lia. unfold size at 1. rewrite Nat2Z.id.
  replace (size d - off / 256 * 256 - 1 - off mod 256) with (size d - off - 1) by lia.
  apply copy_ref_repeats; [done..| |done]. unfold size in Hl. lia.
Qed.

Lemma turn_ref e c tail d old rest off out_len :
  3 <= size c <= MAX_REF -> 0 <= off < MAX_OFF -> off < size d -> repeats d c off ->
  size old = size c -> size d + size c <= out_len ->
  decompress_turn (e ++ ref_bytes off (size c) ++ tail) out_len (d ++ old ++ rest) (size e) (size d)
  = Done (Some (d ++ c ++ rest, size e + size (ref_bytes off (size c)), size d + size c)).
Proof.
  intros Hc Ho Hd Hr Hold Hl. unfold MAX_REF, MAX_OFF in *.
  destruct (copy_at d c old rest off out_len) as (E1 & E2 & E3); [done|lia|done|done|].
  assert (0 <= off / 256 < 32) by (split; [apply Z.div_pos; lia|apply Z.div_lt_upper_bound; lia]).
  pose proof (size_nonneg tail). unfold decompress_turn, ref_bytes. destruct (Z.ltb_spec (size c - 2) 7).
  - rewrite (byte_at _ (size e) e (off / 256 + (size c - 2) * 32) (off mod 256 :: tail)) by done. rewrite bind_Done. cbv zeta.
    rewrite (proj2 (Z.ltb_ge _ _)) by lia. destruct (ctrl_fields (off / 256) (size c - 2)) as [-> ->]; [lia|].
    rewrite geb_false by sz. rewrite (proj2 (Z.eqb_neq _ _)) by lia. rewrite bind_mret_o.
    rewrite (byte_at _ (size e + 1) (e ++ [off / 256 + (size c - 2) * 32]) (off mod 256) tail) by first [assoc|sz].
    rewrite bind_Done, E1, E2, E3, bind_Done. unfold mret, outcome_ret. do 3 f_equal; [f_equal|]; sz.
  - rewrite (byte_at _ (size e) e (off / 256 + 224) (size c - 2 - 7 :: off mod 256 :: tail)) by done. rewrite bind_Done. cbv zeta.
    rewrite (proj2 (Z.ltb_ge _ _)) by lia. change 224 with (7 * 32). destruct (ctrl_fields (off / 256) 7) as [-> ->]; [lia|].
    rewrite geb_false by sz. cbn [Z.eqb Pos.eqb].
    rewrite (byte_at _ (size e + 1) (e ++ [off / 256 + 7 * 32]) (size c - 2 - 7) (off mod 256 :: tail)) by first [assoc|sz].
    rewrite bind_Done, geb_false by sz. rewrite bind_mret_o.
    replace (7 + (size c - 2 - 7)) with (size c - 2) by lia.
    rewrite (byte_at _ (size e + 1 + 1) (e ++ [off / 256 + 7 * 32; size c - 2 - 7]) (off mod 256) tail) by first [assoc|sz].
    rewrite bind_Done, E1, E2, E3, bind_Done. unfold mret, outcome_ret. do 3 f_equal; [f_equal|]; sz.
Qed.

Lemma turn_token e tok c tail d old rest out_len :
  Token d tok c -> size old = size c -> size d + size c <= out_len ->
  decompress_turn (e ++ tok ++ tail) out_len (d ++ old ++ rest) (size e) (size d)
  = Done (Some (d ++ c ++ rest, size e + size tok, size d + size c)).
Proof.
  destruct 1 as [bs Hb|c off]; intros Ho Hl; [|by apply turn_ref]. unfold MAX_LIT in Hb.
  change (((size bs - 1) :: bs) ++ tail) with ((size bs - 1) :: bs ++ tail). rewrite turn_lit by done.
  rewrite size_cons. by replace (size e + (1 + size bs)) with (size e + 1 + size bs) by lia.
Qed.

Lemma token_pos d tok c : Token d tok c -> (1 <= length tok)%nat /\ (1 <= length c)%nat.
Proof.
  destruct 1; unfold size in *; [cbn; lia|]. split; [|lia]. unfold ref_bytes. case_if; cbn; lia.
Qed.

(** After a token the loop goes on when more of the input follows. *)
Lemma loop_token fuel e tok c tail d out out_len :
  Token d tok c -> size out = size c + size (drop (length c) out) -> size d + size c <= out_len ->
  decompress_loop (S fuel) (e ++ tok ++ tail) out_len (d ++ out) (size e) (size d)
  = if decide (tail = []) then Done (size d + size c, d ++ c ++ drop (length c) out)
    else decompress_loop fuel (e ++ tok ++ tail) out_len (d ++ c ++ drop (length c) out)
           (size e + size tok) (size d + size c).
Proof.
  intros Ht Ho Hl. cbn [decompress_loop]. rewrite <- (take_drop (length c) out) at 1.
  rewrite (turn_token e tok c) by (try done; rewrite <- (take_drop (length c) out) in Ho at 1; sz).
  rewrite bind_Done. case_decide as Htl.
  - subst tail. rewrite (proj2 (Z.ltb_ge _ _)) by sz. done.
  - rewrite (proj2 (Z.ltb_lt _ _)); [done|]. destruct tail; [done|]. pose proof (size_nonneg tail). sz.
Qed.

Lemma loop_decodes e d : Decodes e d -> forall tail out out_len,
  tail <> [] -> size d <= size out -> size d <= out_len ->
  exists k, (k <= length e)%nat /\ forall fuel,
    decompress_loop (k + fuel) (e ++ tail) out_len out 0 0
    = decompress_loop fuel (e ++ tail) out_len (d ++ drop (length d) out) (size e) (size d).
Proof.
  induction 1 as [|e d tok c Hd IH Ht]; intros tail out out_len Htl Ho Hl; [by exists 0%nat|].
  destruct (IH (tok ++ tail) out out_len) as (k & Hk & E); [by destruct tok|pose proof (size_nonneg c); sz..|].
  exists (S k). rewrite length_app. pose proof (token_pos _ _ _ Ht). split; [lia|]. intros fuel.
  replace (S k + fuel)%nat with (k + S fuel)%nat by lia. rewrite <- !app_assoc, E.
  rewrite (loop_token fuel e tok c); [|done| |sz].
  - rewrite decide_False by done. rewrite drop_drop, length_app, !size_app. done.
  - unfold size in *. rewrite !length_drop. rewrite length_app in Ho. lia.
Qed.

Lemma decompress_decodes e d out :
  Decodes e d -> e <> [] -> size out = size d -> lzf_decompress e out = Done (size d, d).
Proof.
  intros Hd He Ho. destruct Hd as [|e d tok c Hd Ht]; [done|]. pose proof (token_pos _ _ _ Ht) as [Hp _].
  destruct (loop_decodes e d Hd tok out (size out)) as (k & Hk & E); [intros ->; cbn in Hp; lia|pose proof (size_nonneg c); sz..|].
  unfold lzf_decompress. replace (S (length (e ++ tok))) with (k + S (length (e ++ tok) - k))%nat by (rewrite length_app; lia).
  rewrite E. pose proof (loop_token (length (e ++ tok) - k) e tok c [] d) as L. rewrite app_nil_r in L.
  rewrite L; [|done| |sz].
  - rewrite decide_True by done. rewrite drop_drop, (drop_ge out) by (unfold size in Ho; rewrite length_app in Ho; lia).
    rewrite size_app. by rewrite app_nil_r.
  - unfold size in *. rewrite !length_drop. rewrite length_app in Ho. lia.
Qed.

(** ** The compressor writes it *)
Lemma put_next a y rest b p : p = size a -> mem_put (a ++ y :: rest) p [b] = Done ((a ++ [b]) ++ rest).
Proof. intros ->. rewrite (mem_put_at _ _ a [y] [b] rest) by done. by rewrite <- app_assoc. Qed.

Lemma byte_ok l p : 0 <= p < size l -> exists v, byte l p = Done v /\ l !! Z.to_nat p = Some v.
Proof.
  intros Hp. unfold size in Hp. destruct (lookup_lt_is_Some_2 l (Z.to_nat p)) as [v Hv]; [lia|].
  exists v. split; [by apply byte_lookup; [lia|]|done].
Qed.

Section CompressSpec.
Context (garbage : Z -> Z) (inp : list Z) (out_len : Z).

(** The output so far: the encoding [e] of the input [d], the byte that will
    hold the length of the run, and the literals of the run, up to [ip]. *)
Definition Open (out : list Z) (op lit ip : Z) : Prop :=
  exists e d slot lits rest tail,
    out = e ++ slot :: lits ++ rest /\ Decodes e d /\ inp = d ++ lits ++ tail /\
    op = size e + 1 + lit /\ lit = size lits /\ lit <= MAX_LIT /\ ip = size d + lit /\ size out = out_len + 1.

Definition tab_ok (tab : gmap Z Z) : Prop := map_Forall (fun _ p => in_s 64 p) tab.

Definition Inv (st : lz) : Prop :=
  Open (z_out st) (z_op st) (z_lit st) (z_ip st) /\ z_lit st < MAX_LIT /\ tab_ok (z_tab st).

(** A closed run: [e] encodes the input up to [ip]. *)
Definition Closed (e : list Z) (ip : Z) : Prop := exists d tail, Decodes e d /\ inp = d ++ tail /\ ip = size d.

Lemma stop_run_spec out op lit ip : Open out op lit ip ->
  exists e rest, stop_run out op lit = Done (e ++ rest) /\ Closed e ip /\
    size e = op - (if lit =? 0 then 1 else 0) /\ size e + size rest = out_len + 1.
Proof.
  intros (e & d & slot & lits & rest & tail & -> & Hd & Hi & -> & -> & Hl & -> & Hs). unfold stop_run.
  pose proof (size_nonneg lits). rewrite (mem_put_at _ _ e [slot] [to_u 8 (size lits - 1)] (lits ++ rest)) by first [done|sz].
  destruct lits as [|x lits].
  - exists e, (to_u 8 (0 - 1) :: rest). split; [done|]. split; [exists d, tail; split; [done|split; [done|sz]]|].
    rewrite size_nil. cbn [Z.eqb]. sz.
  - rewrite (proj2 (Z.eqb_neq _ _)) by (pose proof (size_nonneg lits); sz).
    rewrite to_u_small by (unfold in_u, MAX_LIT in *; pose proof (size_nonneg lits); rewrite size_cons in *; lia).
    exists (e ++ (size (x :: lits) - 1) :: x :: lits), rest. split; [by rewrite <- app_assoc|]. split; [|sz].
    exists (d ++ x :: lits), tail. split; [|split; [by rewrite <- app_assoc|sz]].
    constructor; [done|]. constructor. unfold MAX_LIT in *. pose proof (size_nonneg lits). sz.
Qed.

Lemma start_run e rest ip op : Closed e ip -> size e + size rest = out_len + 1 -> op = size e + 1 -> op <= out_len + 1 ->
  Open (e ++ rest) op 0 ip.
Proof.
  intros (d & tail & Hd & -> & ->) Hs -> Ho. destruct rest as [|y rest]; [rewrite size_nil in *; lia|].
  exists e, d, y, [], rest, tail. unfold MAX_LIT. repeat split; try done; try sz.
Qed.

Lemma put_literal_spec st hval tab :
  Inv st -> z_ip st < size inp -> z_op st < out_len -> tab_ok tab ->
  exists st', put_literal inp st hval tab = Done st' /\ Inv st' /\ z_ip st' = z_ip st + 1 /\
    if z_lit st + 1 =? MAX_LIT then z_op st' = z_op st + 2 /\ z_lit st' = 0
    else z_op st' = z_op st + 1 /\ z_lit st' = z_lit st + 1.
Proof.
  intros [(e & d & slot & lits & rest & tail & Ho & Hd & Hi & Hop & Hlit & Hl & Hip & Hs) [Hlt Ht]] Hend Hroom Htab.
  destruct tail as [|x tail]; [rewrite Hip, Hi, app_nil_r, size_app, Hlit in Hend; lia|].
  destruct rest as [|y rest]; [rewrite Ho in Hs; sz|]. unfold put_literal.
  rewrite (byte_at inp _ (d ++ lits) x tail) by first [by rewrite Hi, <- app_assoc|rewrite size_app; lia]. rewrite bind_Done.
  rewrite Ho, (mem_put_at _ _ (e ++ slot :: lits) [y] [x] rest) by first [by rewrite <- app_assoc|sz]. rewrite bind_Done.
  assert (HO : Open ((e ++ slot :: lits) ++ [x] ++ rest) (z_op st + 1) (z_lit st + 1) (z_ip st + 1)).
  { exists e, d, slot, (lits ++ [x]), rest, tail. unfold MAX_LIT in *.
    repeat split; [assoc|done|by rewrite Hi; assoc|sz..|]. rewrite Ho in Hs. sz. }
  cbv zeta. case_if.
  - destruct (stop_run_spec _ _ _ _ HO) as (e' & rest' & -> & Hc & He & Hr).
    rewrite (proj2 (Z.eqb_neq _ _)) in He by (unfold MAX_LIT in *; lia).
    eexists. split; [done|]. split; [|cbn; lia]. split; [|cbn; unfold MAX_LIT; split; [lia|done]].
    apply start_run; [done|done|cbn; lia..].
  - eexists. split; [done|]. split; [|done]. split; [done|]. cbn. split; [lia|done].
Qed.

(** The condition of a match: the reference lies before [ip] and shows the same three bytes. *)
Lemma off_small ip ref : 0 <= ip < 2 ^ 32 -> in_s 64 ref -> to_u 64 (ip - ref - 1) < MAX_OFF -> 0 < ref ->
  0 <= ip - ref - 1 < MAX_OFF /\ to_u 64 (ip - ref - 1) = ip - ref - 1.
Proof.
  unfold in_s, to_u, MAX_OFF. intros Hip [Hr1 Hr2] Hoff Hr. change (2 ^ 64) with 18446744073709551616 in *.
  change (2 ^ 32) with 4294967296 in *. change (2 ^ (64 - 1)) with 9223372036854775808 in *.
  destruct (Z.lt_ge_cases (ip - ref - 1) 0) as [Hn|Hn].
  - rewrite <- (Z.mod_add _ 1), Z.mod_small in Hoff by lia. lia.
  - rewrite Z.mod_small in * by lia. lia.
Qed.

(** [n] bytes from [ref] and from [ip] agree. *)
Definition agree (ref ip n : Z) : Prop :=
  forall j : Z, 0 <= j < n -> inp !! Z.to_nat (ref + j) = inp !! Z.to_nat (ip + j).

Lemma agree_step ref ip n a b : agree ref ip n -> inp !! Z.to_nat (ref + n) = Some a -> inp !! Z.to_nat (ip + n) = Some b ->
  (a =? b) = true -> agree ref ip (n + 1).
Proof.
  intros H Ha Hb ->%Z.eqb_eq j Hj. destruct (Z.eq_dec j n) as [->|]; [by rewrite Ha, Hb|apply H; lia].
Qed.

Lemma mem_get_2 l p : 0 <= p -> p + 1 < size l -> exists a b, mem_get l p 2 = Done [a; b] /\
  l !! Z.to_nat p = Some a /\ l !! Z.to_nat (p + 1) = Some b.
Proof.
  intros Hp Hl. destruct (byte_ok l p) as (a & _ & Ha); [lia|]. destruct (byte_ok l (p + 1)) as (b & _ & Hb); [lia|].
  exists a, b. split; [|done]. unfold mem_get, buf_get, size in *. rewrite (proj2 (Z.ltb_ge _ _)) by lia. cbn [orb Z.ltb Z.compare].
  rewrite decide_True by lia. f_equal. change (Z.to_nat 2) with 2%nat. rewrite (drop_S _ a) by done.
  replace (S (Z.to_nat p)) with (Z.to_nat (p + 1)) by lia. by rewrite (drop_S _ b).
Qed.

(** ** The length of the match *)
Lemma unrolled_spec k ref ip len : 0 <= ref < ip -> ip + len + Z.of_nat k < size inp -> 0 <= len -> agree ref ip (len + 1) ->
  exists brk n, unrolled k inp ref ip len = Done (brk, n) /\ len <= n <= len + Z.of_nat k /\ ((1 <= k)%nat -> len < n) /\
    agree ref ip (if (brk : bool) then n else n + 1) /\ (brk = false -> n = len + Z.of_nat k).
Proof.
  revert len. induction k as [|k IH]; intros len Hr Hl H0 Ha; cbn [unrolled].
  - exists false, len. repeat split; try done; lia.
  - destruct (byte_ok inp (ref + (len + 1))) as (x & -> & Hx); [lia|].
    destruct (byte_ok inp (ip + (len + 1))) as (y & -> & Hy); [lia|]. rewrite !bind_Done.
    destruct (x =? y) eqn:E.
    + destruct (IH (len + 1)) as (brk & n & -> & Hn & _ & Hag & Hb); [lia..|by apply (agree_step _ _ _ x y)|].
      exists brk, n. repeat split; try done; try lia. intros ->. rewrite Hb by done. lia.
    + exists true, (len + 1). repeat split; try done; lia.
Qed.

Lemma extend_spec fuel ref ip maxlen len : 0 <= ref < ip -> ip + maxlen <= size inp -> 0 <= len -> agree ref ip (len + 1) ->
  (Z.to_nat (maxlen - len) < fuel)%nat -> (1 <= fuel)%nat ->
  exists n, extend fuel inp ref ip maxlen len = Done n /\ len < n <= Z.max (len + 1) maxlen /\ agree ref ip n.
Proof.
  revert len. induction fuel as [|fuel IH]; intros len Hr Hl H0 Ha Hf H1; [lia|]. cbn [extend]. case_if.
  - destruct (byte_ok inp (ref + (len + 1))) as (x & -> & Hx); [lia|].
    destruct (byte_ok inp (ip + (len + 1))) as (y & -> & Hy); [lia|]. rewrite !bind_Done. destruct (x =? y) eqn:E.
    + destruct (IH (len + 1)) as (n & -> & Hn & Hag); [lia|lia|lia|by apply (agree_step _ _ _ x y)|lia|lia|]. exists n. split; [done|]. split; [lia|done].
    + exists (len + 1). split; [done|]. split; [lia|done].
  - exists (len + 1). split; [done|]. split; [lia|done].
Qed.

Lemma match_len_spec ref ip : 0 <= ref < ip -> ip + 4 < size inp -> agree ref ip 3 ->
  exists n, match_len inp ref ip = Done n /\ 3 <= n <= MAX_REF /\ ip + n <= size inp /\ agree ref ip n.
Proof.
  intros Hr Hi Ha. unfold match_len. cbv zeta. set (m := if _ >? MAX_REF then _ else _).
  assert (Hm : 3 <= m <= MAX_REF /\ ip + m + 2 <= size inp) by (unfold m, MAX_REF; case_if; lia). clearbody m.
  unfold MAX_REF in *. rewrite Z.gtb_ltb. case_if.
  - destruct (unrolled_spec 16 ref ip 2) as (brk & n & -> & Hn & Hlt & Hag & Hb); [lia..|done|].
    rewrite bind_Done. cbn [fst snd]. specialize (Hlt ltac:(lia)). destruct brk.
    + exists n. repeat split; try done; lia.
    + destruct (extend_spec (Z.to_nat 264) ref ip m n) as (n' & -> & Hn' & Hag'); [lia|lia|lia|done|lia|lia|].
      specialize (Hb eq_refl). exists n'. repeat split; try done; lia.
  - rewrite bind_mret_o. cbn [fst snd].
    destruct (extend_spec (Z.to_nat 264) ref ip m 2) as (n' & -> & Hn' & Hag'); [lia|lia|lia|done|lia|lia|].
    exists n'. repeat split; try done; lia.
Qed.

Hypothesis garbage_range : forall h, in_s 64 (garbage h).
Hypothesis inp_range : 2 <= size inp < 2 ^ 32.

Lemma is_match_spec ref ip : 0 <= ip < size inp -> in_s 64 ref ->
  exists m, is_match inp ref ip = Done m /\
    (m = true -> 0 <= ip - ref - 1 < MAX_OFF /\ to_u 64 (ip - ref - 1) = ip - ref - 1 /\ 0 < ref /\ ip + 4 < size inp /\ agree ref ip 3).
Proof using inp_range.
  intros Hip Hr. unfold is_match. case_if; [|by exists false].
  destruct (off_small ip ref) as [Ho He]; [lia|done..|]. unfold MAX_OFF in *.
  destruct (mem_get_2 inp ref) as (a & b & -> & Ha & Hb); [lia..|]. rewrite bind_Done.
  destruct (mem_get_2 inp ip) as (a' & b' & -> & Ha' & Hb'); [lia..|]. rewrite bind_Done.
  case_bool_decide as E; [|by exists false]. injection E as -> ->.
  destruct (byte_ok inp (ref + 2)) as (x & -> & Hx); [lia|]. destruct (byte_ok inp (ip + 2)) as (y & -> & Hy); [lia|].
  rewrite !bind_Done. eexists. split; [done|]. intros Exy. repeat split; try done; try lia.
  apply (agree_step _ _ 2 x y); [|done..]. intros j Hj. assert (j = 0 \/ j = 1) as [-> | ->] by lia.
  - by rewrite !Z.add_0_r, Ha, Ha'.
  - by rewrite Hb, Hb'.
Qed.

(** ** A back reference *)
Lemma put_ref_spec e rest off len : 0 <= off < MAX_OFF -> 1 <= len <= 262 -> 3 <= size rest ->
  exists rest', put_ref (e ++ rest) (size e) off len
    = Done ((e ++ ref_bytes off (len + 2)) ++ rest', size e + size (ref_bytes off (len + 2))) /\
    size (ref_bytes off (len + 2)) + size rest' = size rest.
Proof using Type.
  intros Ho Hl Hr. clear inp_range. unfold MAX_OFF in Ho.
  do 3 (destruct rest as [|? rest]; [exfalso; sz|]). unfold put_ref, ref_bytes.
  rewrite Z.shiftr_div_pow2, !Z.shiftl_mul_pow2 by lia. change (2 ^ 8) with 256. change (2 ^ 5) with 32.
  assert (0 <= off / 256 < 32) by (split; [apply Z.div_pos; lia|apply Z.div_lt_upper_bound; lia]).
  replace (len + 2 - 2) with len by lia. destruct (Z.ltb_spec len 7).
  - rewrite put_next by done. rewrite bind_Done, bind_mret_o, put_next by sz.
    rewrite (to_u_small 8 (_ + _)) by (unfold in_u; lia). rewrite bind_Done. unfold mret, outcome_ret, to_u.
    change (2 ^ 8) with 256. exists (z1 :: rest). split; [|sz]. do 2 f_equal; [assoc|sz].
  - rewrite put_next by done. rewrite bind_Done, put_next by sz. rewrite bind_Done, bind_mret_o, put_next by sz.
    rewrite (to_u_small 8 (_ + _)), (to_u_small 8 (_ - _)) by (unfold in_u; lia). rewrite bind_Done. unfold mret, outcome_ret, to_u.
    change (2 ^ 8) with 256. exists rest. split; [|sz]. do 2 f_equal; [assoc|sz].
Qed.

Lemma closed_ref e ip ref n : Closed e ip -> 0 < ref -> 0 <= ip - ref - 1 < MAX_OFF -> 3 <= n <= MAX_REF -> ip + n <= size inp ->
  agree ref ip n -> Closed (e ++ ref_bytes (ip - ref - 1) n) (ip + n).
Proof using Type.
  intros (d & tail & Hd & Hi & Hip) Hr Ho Hn Hl Ha. clear inp_range.
  destruct (split_size tail n) as (c & tail' & -> & Hc); [rewrite Hi in Hl; unfold MAX_REF in *; sz|].
  exists (d ++ c), tail'. split; [|split; [by rewrite Hi, <- app_assoc|sz]]. rewrite <- Hc.
  constructor; [done|]. constructor; [lia|done|lia|]. intros i Hi'. pose proof (Ha (Z.of_nat i)) as E. rewrite Hi in E.
  unfold size in *. rewrite <- !(lookup_app_l (d ++ c) tail') by (rewrite length_app; lia). rewrite <- app_assoc.
  replace (length d + i)%nat with (Z.to_nat (ip + Z.of_nat i)) by lia.
  replace (Z.to_nat (ip + Z.of_nat i) - Z.to_nat (ip - ref - 1 + 1))%nat with (Z.to_nat (ref + Z.of_nat i)) by lia.
  symmetry. apply E. lia.
Qed.

Lemma FRST_ok p : 0 <= p -> p + 1 < size inp -> exists v, FRST inp p = Done v.
Proof using Type.
  intros Hp Hl. unfold FRST. destruct (byte_ok inp p) as (a & -> & _); [lia|].
  destruct (byte_ok inp (p + 1)) as (b & -> & _); [lia|]. by eexists.
Qed.
Lemma NEXT_ok v p : 0 <= p -> p + 2 < size inp -> exists w, NEXT v inp p = Done w.
Proof using Type. intros Hp Hl. unfold NEXT. destruct (byte_ok inp (p + 2)) as (a & -> & _); [lia|]. by eexists. Qed.

Lemma tab_ok_insert tab h p : tab_ok tab -> 0 <= p < size inp -> tab_ok (<[h := p]> tab).
Proof using inp_range. intros Ht Hp. apply map_Forall_insert_2; [|done]. unfold in_s. lia. Qed.

(** What a turn of the main loop may do. *)
Definition turn_ok (st : lz) (t : turn) : Prop :=
  match t with
  | Return0 _ => True
  | Break st' => Inv st' /\ size inp - 2 <= z_ip st'
  | Go st' => Inv st' /\ z_ip st < z_ip st' <= size inp
  end.

Lemma Inv_range st : Inv st -> 0 <= z_lit st /\ 0 <= z_ip st <= size inp.
Proof using Type.
  intros [(e & d & slot & lits & rest & tail & _ & _ & Hi & _ & -> & _ & -> & _) _]. rewrite Hi, !size_app.
  pose proof (size_nonneg d). pose proof (size_nonneg lits). pose proof (size_nonneg tail). lia.
Qed.

(** The two positions the hash table gets after a match. *)
Lemma rehash_ok p op tab out : 0 <= p -> p + 3 < size inp -> Open out op 0 (p + 2) -> tab_ok tab ->
  exists st', (hval ← FRST inp p;
               hval ← NEXT hval inp p;
               let tab := <[IDX hval := p]> tab in
               let ip := p + 1 in
               hval ← NEXT hval inp ip;
               let tab := <[IDX hval := ip]> tab in
               mret (Go (mkLz (ip + 1) op 0 hval tab out))) = Done (Go st') /\ Inv st' /\ z_ip st' = p + 2.
Proof using inp_range.
  intros Hp Hl Ho Ht. destruct (FRST_ok p) as [v ->]; [lia..|]. rewrite bind_Done.
  destruct (NEXT_ok v p) as [w ->]; [lia..|]. rewrite bind_Done. cbv zeta.
  destruct (NEXT_ok w (p + 1)) as [x ->]; [lia..|]. rewrite bind_Done. eexists. split; [done|]. cbn [z_ip].
  split; [|lia]. unfold Inv. cbn. replace (p + 1 + 1) with (p + 2) by lia. split; [done|]. split; [unfold MAX_LIT; lia|].
  apply tab_ok_insert; [|lia]. apply tab_ok_insert; [done|lia].
Qed.

Lemma emit_match_spec st ref hval tab : Inv st -> z_ip st + 4 < size inp -> 0 < ref ->
  0 <= z_ip st - ref - 1 < MAX_OFF -> to_u 64 (z_ip st - ref - 1) = z_ip st - ref - 1 -> agree ref (z_ip st) 3 -> tab_ok tab ->
  exists t, emit_match inp out_len st ref hval tab = Done t /\ turn_ok st t.
Proof using inp_range.
  intros HI Hi Hr Ho Eo Ha Ht. pose proof HI as [HO [Hlt _]]. unfold emit_match. cbv zeta. rewrite Eo.
  destruct (stop_run_spec _ _ _ _ HO) as (e & rest & -> & Hc & He & Hs). rewrite bind_Done, <- He, Z.geb_leb.
  case_if; [by eexists|]. destruct (match_len_spec ref (z_ip st)) as (n & -> & Hn & Hend & Hag); [lia..|done|]. rewrite bind_Done.
  destruct (put_ref_spec e rest (z_ip st - ref - 1) (n - 2)) as (rest' & -> & Hrest); [done|unfold MAX_REF in *; lia|lia|].
  rewrite bind_Done. replace (n - 2 + 2) with n in * by lia.
  pose proof (closed_ref e (z_ip st) ref n Hc Hr Ho Hn Hend Hag) as Hc'.
  assert (HO' : Open ((e ++ ref_bytes (z_ip st - ref - 1) n) ++ rest')
                  (size e + size (ref_bytes (z_ip st - ref - 1) n) + 1) 0 (z_ip st + n)).
  { apply start_run; [done|sz|sz|]. unfold ref_bytes. destruct (_ <? 7); sz. }
  replace (z_ip st + 1 + (n - 2) + 1) with (z_ip st + n) by lia. rewrite Z.geb_leb. case_if.
  - eexists. split; [done|]. cbn. split; [|lia]. split; [done|]. cbn. unfold MAX_LIT. split; [lia|done].
  - destruct (Inv_range st HI) as [_ Hip].
    destruct (rehash_ok (z_ip st + n - 2) (size e + size (ref_bytes (z_ip st - ref - 1) n) + 1) tab
      ((e ++ ref_bytes (z_ip st - ref - 1) n) ++ rest')) as (st' & E & HI' & Hst); [lia..| |done|].
    + by replace (z_ip st + n - 2 + 2) with (z_ip st + n) by lia.
    + cbv zeta in E. rewrite E. eexists. split; [done|]. cbn. unfold MAX_REF in *. split; [done|lia].
Qed.

Lemma main_turn_spec st : Inv st -> exists t, main_turn garbage inp out_len st = Done t /\ turn_ok st t.
Proof using garbage_range inp_range.
  intros HI. destruct (Inv_range st HI) as [_ Hip]. unfold main_turn. case_if; [|eexists; split; [done|split; [done|lia]]].
  destruct (NEXT_ok (z_hval st) (z_ip st)) as [h ->]; [lia..|]. rewrite bind_Done. cbv zeta.
  set (ref := default _ _). set (tab := <[_ := _]> _).
  assert (Href : in_s 64 ref).
  { unfold ref. destruct (z_tab st !! IDX h) as [p|] eqn:E; [|apply garbage_range]. destruct HI as (_ & _ & Ht). exact (Ht _ _ E). }
  assert (Htab : tab_ok tab) by (apply tab_ok_insert; [apply HI|lia]).
  destruct (is_match_spec ref (z_ip st)) as (m & -> & Hm); [lia|done|]. rewrite bind_Done. destruct m.
  - destruct Hm as (Ho & Eo & Hr & Hl & Ha); [done|]. by apply emit_match_spec.
  - rewrite Z.geb_leb. case_if; [by eexists|].
    destruct (put_literal_spec st h tab) as (st' & -> & HI' & Hip' & _); [done|lia|lia|done|].
    eexists. split; [done|]. cbn. split; [done|lia].
Qed.

Lemma main_loop_spec fuel st : Inv st -> (Z.to_nat (size inp - z_ip st) < fuel)%nat ->
  exists r, main_loop garbage inp out_len fuel st = Done r /\
    match r with inl _ => True | inr st' => Inv st' /\ size inp - 2 <= z_ip st' end.
Proof using garbage_range inp_range.
  revert st. induction fuel as [|fuel IH]; intros st HI Hf; [lia|]. cbn [main_loop].
  destruct (main_turn_spec st HI) as (t & -> & Ht). rewrite bind_Done. destruct t as [out|st'|st']; cbn in Ht.
  - by eexists.
  - eexists. split; [done|]. done.
  - destruct Ht as [HI' Hip]. apply IH; [done|lia].
Qed.

Lemma last_loop_spec fuel st : Inv st -> (Z.to_nat (size inp - z_ip st) < fuel)%nat ->
  size inp - 2 <= z_ip st -> z_op st + (size inp - z_ip st) + (if MAX_LIT <=? z_lit st + (size inp - z_ip st) then 1 else 0) <= out_len ->
  exists st', last_loop inp fuel st = Done st' /\ Inv st' /\ z_ip st' = size inp /\ z_op st' <= out_len.
Proof using Type.
  revert st. induction fuel as [|fuel IH]; intros st HI Hf Hip Hop; [lia|]. cbn [last_loop].
  destruct (Inv_range st HI) as [_ Hr]. case_if.
  - destruct (put_literal_spec st (z_hval st) (z_tab st)) as (st' & -> & HI' & Hip' & Hop'); [done|lia| |apply HI|].
    { destruct (_ <=? _); lia. }
    rewrite bind_Done. apply IH; [done|lia|lia|]. unfold MAX_LIT in *. rewrite Hip'.
    destruct (Z.leb_spec 32 (z_lit st + (size inp - z_ip st))), (Z.eqb_spec (z_lit st + 1) 32), Hop' as [-> ->]; case_if; lia.
  - exists st. split; [done|]. split; [done|]. split; [lia|]. destruct (_ <=? _); lia.
Qed.

Lemma compress_spec out : 0 <= out_len -> size out = out_len + 1 ->
  exists n out', lzf_compress garbage inp out_len out = Done (n, out') /\ 0 <= n <= out_len /\ n <= size out' /\
    (n <> 0 -> Decodes (take (Z.to_nat n) out') inp).
Proof using garbage_range inp_range.
  intros Hl Ho. unfold lzf_compress. pose proof size_nonneg as Hsz. case_if; [by exists 0, out|]. destruct (FRST_ok 0) as [h ->]; [lia..|]. rewrite bind_Done.
  assert (HI : Inv (mkLz 0 1 0 h ∅ out)).
  { split; [|split; [done|apply map_Forall_empty]]. cbn. apply (start_run [] out); [by exists [], inp; repeat constructor|sz|done|lia]. }
  destruct (main_loop_spec (S (length inp)) _ HI) as (r & -> & Hr); [unfold size; cbn; lia|]. rewrite bind_Done.
  destruct r as [out'|st]; [by exists 0, out'|]. destruct Hr as [HI' Hip]. rewrite Z.gtb_ltb. case_if; [by exists 0, (z_out st)|].
  destruct (Inv_range st HI') as [_ Hip'].
  destruct (last_loop_spec (S (length inp)) st HI') as (st' & -> & HI'' & Hend & Hop); [unfold size; lia|done|case_if; lia|].
  rewrite bind_Done. destruct (stop_run_spec _ _ _ _ (proj1 HI'')) as (e & rest & -> & (d & tail & Hd & Hi & Hds) & He & Hs).
  rewrite bind_Done. exists (size e), (e ++ rest). rewrite <- He. split; [done|]. pose proof (size_nonneg e).
  split; [destruct (_ =? 0); lia|]. split; [rewrite size_app; specialize (Hsz rest); lia|]. intros _. unfold size at 1. rewrite Nat2Z.id, take_app_length.
  replace inp with d; [done|]. rewrite Hend, Hi, size_app in Hds. rewrite Hi.
  destruct tail; [by rewrite app_nil_r|]. pose proof (size_nonneg tail). rewrite size_cons in Hds. lia.
Qed.

End CompressSpec.

(** C27: Compressed strings come back.  Whatever the uninitialised hash table
    holds, [lzf_compress] of 2 to 2^32 - 1 bytes into a buffer of [out_len + 1]
    bytes, the allocation of rdb.c, ends without a fault and returns at most
    [out_len]; when it does not give up (0), [lzf_decompress] of what it wrote,
    into a buffer of the length of the input, restores the input. *)
Theorem lzf_roundtrip garbage inp out_len out buf :
  (forall h, in_s 64 (garbage h)) -> 2 <= size inp < 2 ^ 32 -> 0 <= out_len -> size out = out_len + 1 -> size buf = size inp ->
  exists n out', lzf_compress garbage inp out_len out = Done (n, out') /\ 0 <= n <= out_len /\
    (n <> 0 -> lzf_decompress (take (Z.to_nat n) out') buf = Done (size inp, inp)).
Proof.
  intros Hg Hi Hl Ho Hb. destruct (compress_spec garbage inp out_len Hg Hi out Hl Ho) as (n & out' & E & Hn & _ & Hd).
  exists n, out'. split; [done|]. split; [done|]. intros Hnz. specialize (Hd Hnz).
  apply decompress_decodes; [done| |done]. intros E0. rewrite E0 in Hd. inversion Hd as [E1|? ? tok c _ Ht E1].
  - subst. rewrite size_nil in Hi. lia.
  - apply token_pos in Ht. apply app_eq_nil in E1 as [_ ->]. cbn in Ht. lia.
Qed.

Lemma lzf_roundtrip_witness :
  exists n out', lzf_compress (fun h => h mod 64) (replicate 40 97) 36 (replicate 37 0) = Done (n, out') /\ 0 <= n <= 36 /\
    (n <> 0 -> lzf_decompress (take (Z.to_nat n) out') (replicate 40 0) = Done (size (replicate 40 97), replicate 40 97)).
Proof.
  apply lzf_roundtrip; [|vm_compute; done..]. intros h. unfold in_s. pose proof (Z.mod_pos_bound h 64). lia.
Defined.

(** ** Any input *)
Lemma mem_get_ok l p n : 0 <= p -> 0 <= n -> p + n <= size l -> exists d, mem_get l p n = Done d /\ size d = n.
Proof.
  intros Hp Hn Hl. destruct (split_size l p) as (a & l1 & -> & Ha); [lia|].
  destruct (split_size l1 n) as (d & c & -> & Hd); [sz|]. exists d. split; [|done]. by apply (mem_get_at _ _ _ a d c).
Qed.
Lemma mem_put_ok l p d : 0 <= p -> p + size d <= size l -> exists l', mem_put l p d = Done l' /\ size l' = size l.
Proof.
  intros Hp Hl. pose proof (size_nonneg d). destruct (split_size l p) as (a & l1 & -> & Ha); [lia|].
  destruct (split_size l1 (size d)) as (o & c & -> & Hd); [sz|]. exists (a ++ d ++ c). split; [|sz]. by apply (mem_put_at _ _ a o d c).
Qed.

Lemma copy_ref_ok n out op ref : 0 <= ref < op -> op + Z.of_nat n <= size out ->
  exists out', copy_ref n out op ref = Done out' /\ size out' = size out.
Proof.
  revert out op ref. induction n as [|n IH]; intros out op ref Hr Hl; cbn [copy_ref]; [by exists out|].
  destruct (byte_ok out ref) as (v & -> & _); [lia|]. rewrite bind_Done.
  destruct (mem_put_ok out op [v]) as (out1 & -> & H1); [lia|sz|]. rewrite bind_Done.
  destruct (IH out1 (op + 1) (ref + 1)) as (out' & -> & H'); [lia..|]. exists out'. split; [done|lia].
Qed.

Definition progress (inp out : list Z) (ip op : Z) (r : option (list Z * Z * Z)) : Prop :=
  match r with
  | None => True
  | Some (out', ip', op') => size out' = size out /\ ip < ip' <= size inp /\ op <= op' <= size out
  end.

Section AnyInput.
Context (inp : list Z) (inp_bytes : Forall (in_u 8) inp).

Lemma byte_any p : 0 <= p < size inp -> exists v, byte inp p = Done v /\ 0 <= v < 256.
Proof using inp_bytes.
  intros Hp. destruct (byte_ok inp p Hp) as (v & E & Hv). exists v. split; [done|].
  rewrite Forall_forall in inp_bytes. apply (inp_bytes v). by eapply list_elem_of_lookup_2.
Qed.

Lemma turn_any out ip op : 0 <= ip < size inp -> 0 <= op <= size out ->
  exists r, decompress_turn inp (size out) out ip op = Done r /\ progress inp out ip op r.
Proof using inp_bytes.
  intros Hip Hop. unfold decompress_turn. destruct (byte_any ip Hip) as (ctrl & -> & Hc). rewrite bind_Done. cbv zeta. case_if.
  - rewrite !Z.gtb_ltb. case_if; [by exists None|]. case_if; [by exists None|].
    destruct (mem_get_ok inp (ip + 1) (ctrl + 1)) as (bs & -> & Hb); [lia..|]. rewrite bind_Done.
    destruct (mem_put_ok out op bs) as (out' & -> & Ho); [lia..|]. eexists. split; [done|]. cbn. lia.
  - rewrite Z.geb_leb. case_if; [by exists None|]. rewrite Z.shiftr_div_pow2, Z.shiftl_mul_pow2 by lia.
    change 31 with (Z.ones 5). rewrite Z.land_ones by lia. change (2 ^ 5) with 32. change (2 ^ 8) with 256.
    assert (1 <= ctrl / 32) by (apply Z.div_le_lower_bound; lia). pose proof (Z.mod_pos_bound ctrl 32 ltac:(lia)).
    set (q := if ctrl / 32 =? 7 then _ else _).
    assert (Hq : exists r, q = Done r /\ match r with None => True | Some (len, ip') => 1 <= len /\ ip < ip' < size inp end).
    { unfold q. case_if; [|eexists; split; [done|]; cbn; lia]. destruct (byte_any (ip + 1)) as (b & -> & Hb); [lia|].
      rewrite bind_Done, Z.geb_leb. case_if; [by exists None|]. eexists. split; [done|]. cbn. lia. }
    destruct Hq as (r & -> & Hr). rewrite bind_Done. destruct r as [[len ip']|]; [|by exists None].
    destruct (byte_any ip') as (b & -> & Hb); [lia|]. rewrite bind_Done, Z.gtb_ltb. case_if; [by exists None|]. case_if; [by exists None|].
    destruct (copy_ref_ok (Z.to_nat (len + 2)) out op (op - ctrl mod 32 * 256 - 1 - b)) as (out' & -> & Ho); [lia..|].
    eexists. split; [done|]. cbn. lia.
Qed.

Lemma loop_any fuel out ip op : 0 <= ip < size inp -> 0 <= op <= size out -> (Z.to_nat (size inp - ip) < fuel)%nat ->
  exists n out', decompress_loop fuel inp (size out) out ip op = Done (n, out') /\ 0 <= n <= size out /\ size out' = size out.
Proof using inp_bytes.
  revert out ip op. induction fuel as [|fuel IH]; intros out ip op Hip Hop Hf; [lia|]. cbn [decompress_loop].
  destruct (turn_any out ip op Hip Hop) as (r & -> & Hr). rewrite bind_Done. destruct r as [[[out1 ip1] op1]|]; cbn in Hr.
  - destruct Hr as (Ho & Hi & Hp). rewrite <- Ho. case_if; [apply IH; lia|]. exists op1, out1. split; [done|lia].
  - exists 0, out. split; [done|lia].
Qed.
End AnyInput.

(** C40: The decompressor is safe on any input: for every nonempty sequence of
    bytes, a compressed string or not, [lzf_decompress] ends, reads only the
    input, writes only the output buffer and returns at most its length. *)
Theorem lzf_decompress_safe inp out :
  Forall (in_u 8) inp -> inp <> [] ->
  exists n out', lzf_decompress inp out = Done (n, out') /\ 0 <= n <= size out /\ size out' = size out.
Proof.
  intros Hb Hi. unfold lzf_decompress. pose proof (size_nonneg out). apply loop_any; [done| |lia|unfold size; lia].
  destruct inp; [done|]. pose proof (size_nonneg inp). sz.
Qed.

Lemma lzf_decompress_safe_witness :
  exists n out', lzf_decompress [224; 255; 255] [1; 2; 3] = Done (n, out') /\ 0 <= n <= size [1; 2; 3] /\ size out' = size [1; 2; 3].
Proof. apply lzf_decompress_safe; [repeat constructor; vm_compute; done|done]. Defined.

(** A run of literals that fills up at the end of the buffer: the next run
    starts behind it, and the match that follows closes that run before the
    room is checked. *)
Definition full_run : list Z := map Z.of_nat (seq 1 32) ++ [2; 3; 4; 5; 6; 7].

(** [lzf_compress] may write one byte past the [out_len] bytes it is told
    of: a full run that ends at the end of the buffer, then a match, stores the
    length of an empty run at [out_data + out_len] before the check that
    returns 0.  With one byte more, as rdb.c allocates, the same call is fine. *)
Theorem lzf_compress_writes_past_end :
  lzf_compress (fun _ => 0) full_run 33 (replicate 33 0) = Fault OutOfBounds /\
  exists out, lzf_compress (fun _ => 0) full_run 33 (replicate 34 0) = Done (0, out).
Proof. split; [vm_compute; done|]. eexists. vm_compute. done. Qed.

End Lzf.
