(* ===== verification/Crc64.v ===== *)
(** * crc64.c: the checksum of dump files

    The checksum is a table-driven CRC.  The theorems relate it to the division
    by the polynomial, bit by bit, that the header of crc64.c names, and show
    which corruptions it detects. *)
From S2P Require Import Prelude Mem.
Import Mem.

Module Crc64.

Definition crc64_tab : list Z := [
  0x0000000000000000; 0x7ad870c830358979; 0xf5b0e190606b12f2; 0x8f689158505e9b8b;
  0xc038e5739841b68f; 0xbae095bba8743ff6; 0x358804e3f82aa47d; 0x4f50742bc81f2d04;
  0xab28ecb46814fe75; 0xd1f09c7c5821770c; 0x5e980d24087fec87; 0x24407dec384a65fe;
  0x6b1009c7f05548fa; 0x11c8790fc060c183; 0x9ea0e857903e5a08; 0xe478989fa00bd371;
  0x7d08ff3b88be6f81; 0x07d08ff3b88be6f8; 0x88b81eabe8d57d73; 0xf2606e63d8e0f40a;
  0xbd301a4810ffd90e; 0xc7e86a8020ca5077; 0x4880fbd87094cbfc; 0x32588b1040a14285;
  0xd620138fe0aa91f4; 0xacf86347d09f188d; 0x2390f21f80c18306; 0x594882d7b0f40a7f;
  0x1618f6fc78eb277b; 0x6cc0863448deae02; 0xe3a8176c18803589; 0x997067a428b5bcf0;
  0xfa11fe77117cdf02; 0x80c98ebf2149567b; 0x0fa11fe77117cdf0; 0x75796f2f41224489;
  0x3a291b04893d698d; 0x40f16bccb908e0f4; 0xcf99fa94e9567b7f; 0xb5418a5cd963f206;
  0x513912c379682177; 0x2be1620b495da80e; 0xa489f35319033385; 0xde51839b2936bafc;
  0x9101f7b0e12997f8; 0xebd98778d11c1e81; 0x64b116208142850a; 0x1e6966e8b1770c73;
  0x8719014c99c2b083; 0xfdc17184a9f739fa; 0x72a9e0dcf9a9a271; 0x08719014c99c2b08;
  0x4721e43f0183060c; 0x3df994f731b68f75; 0xb29105af61e814fe; 0xc849756751dd9d87;
  0x2c31edf8f1d64ef6; 0x56e99d30c1e3c78f; 0xd9810c6891bd5c04; 0xa3597ca0a188d57d;
  0xec09088b6997f879; 0x96d1784359a27100; 0x19b9e91b09fcea8b; 0x636199d339c963f2;
  0xdf7adabd7a6e2d6f; 0xa5a2aa754a5ba416; 0x2aca3b2d1a053f9d; 0x50124be52a30b6e4;
  0x1f423fcee22f9be0; 0x659a4f06d21a1299; 0xeaf2de5e82448912; 0x902aae96b271006b;
  0x74523609127ad31a; 0x0e8a46c1224f5a63; 0x81e2d7997211c1e8; 0xfb3aa75142244891;
  0xb46ad37a8a3b6595; 0xceb2a3b2ba0eecec; 0x41da32eaea507767; 0x3b024222da65fe1e;
  0xa2722586f2d042ee; 0xd8aa554ec2e5cb97; 0x57c2c41692bb501c; 0x2d1ab4dea28ed965;
  0x624ac0f56a91f461; 0x1892b03d5aa47d18; 0x97fa21650afae693; 0xed2251ad3acf6fea;
  0x095ac9329ac4bc9b; 0x7382b9faaaf135e2; 0xfcea28a2faafae69; 0x8632586aca9a2710;
  0xc9622c4102850a14; 0xb3ba5c8932b0836d; 0x3cd2cdd162ee18e6; 0x460abd1952db919f;
  0x256b24ca6b12f26d; 0x5fb354025b277b14; 0xd0dbc55a0b79e09f; 0xaa03b5923b4c69e6;
  0xe553c1b9f35344e2; 0x9f8bb171c366cd9b; 0x10e3202993385610; 0x6a3b50e1a30ddf69;
  0x8e43c87e03060c18; 0xf49bb8b633338561; 0x7bf329ee636d1eea; 0x012b592653589793;
  0x4e7b2d0d9b47ba97; 0x34a35dc5ab7233ee; 0xbbcbcc9dfb2ca865; 0xc113bc55cb19211c;
  0x5863dbf1e3ac9dec; 0x22bbab39d3991495; 0xadd33a6183c78f1e; 0xd70b4aa9b3f20667;
  0x985b3e827bed2b63; 0xe2834e4a4bd8a21a; 0x6debdf121b863991; 0x1733afda2bb3b0e8;
  0xf34b37458bb86399; 0x8993478dbb8deae0; 0x06fbd6d5ebd3716b; 0x7c23a61ddbe6f812;
  0x3373d23613f9d516; 0x49aba2fe23cc5c6f; 0xc6c333a67392c7e4; 0xbc1b436e43a74e9d;
  0x95ac9329ac4bc9b5; 0xef74e3e19c7e40cc; 0x601c72b9cc20db47; 0x1ac40271fc15523e;
  0x5594765a340a7f3a; 0x2f4c0692043ff643; 0xa02497ca54616dc8; 0xdafce7026454e4b1;
  0x3e847f9dc45f37c0; 0x445c0f55f46abeb9; 0xcb349e0da4342532; 0xb1eceec59401ac4b;
  0xfebc9aee5c1e814f; 0x8464ea266c2b0836; 0x0b0c7b7e3c7593bd; 0x71d40bb60c401ac4;
  0xe8a46c1224f5a634; 0x927c1cda14c02f4d; 0x1d148d82449eb4c6; 0x67ccfd4a74ab3dbf;
  0x289c8961bcb410bb; 0x5244f9a98c8199c2; 0xdd2c68f1dcdf0249; 0xa7f41839ecea8b30;
  0x438c80a64ce15841; 0x3954f06e7cd4d138; 0xb63c61362c8a4ab3; 0xcce411fe1cbfc3ca;
  0x83b465d5d4a0eece; 0xf96c151de49567b7; 0x76048445b4cbfc3c; 0x0cdcf48d84fe7545;
  0x6fbd6d5ebd3716b7; 0x15651d968d029fce; 0x9a0d8ccedd5c0445; 0xe0d5fc06ed698d3c;
  0xaf85882d2576a038; 0xd55df8e515432941; 0x5a3569bd451db2ca; 0x20ed197575283bb3;
  0xc49581ead523e8c2; 0xbe4df122e51661bb; 0x3125607ab548fa30; 0x4bfd10b2857d7349;
  0x04ad64994d625e4d; 0x7e7514517d57d734; 0xf11d85092d094cbf; 0x8bc5f5c11d3cc5c6;
  0x12b5926535897936; 0x686de2ad05bcf04f; 0xe70573f555e26bc4; 0x9ddd033d65d7e2bd;
  0xd28d7716adc8cfb9; 0xa85507de9dfd46c0; 0x273d9686cda3dd4b; 0x5de5e64efd965432;
  0xb99d7ed15d9d8743; 0xc3450e196da80e3a; 0x4c2d9f413df695b1; 0x36f5ef890dc31cc8;
  0x79a59ba2c5dc31cc; 0x037deb6af5e9b8b5; 0x8c157a32a5b7233e; 0xf6cd0afa9582aa47;
  0x4ad64994d625e4da; 0x300e395ce6106da3; 0xbf66a804b64ef628; 0xc5bed8cc867b7f51;
  0x8aeeace74e645255; 0xf036dc2f7e51db2c; 0x7f5e4d772e0f40a7; 0x05863dbf1e3ac9de;
  0xe1fea520be311aaf; 0x9b26d5e88e0493d6; 0x144e44b0de5a085d; 0x6e963478ee6f8124;
  0x21c640532670ac20; 0x5b1e309b16452559; 0xd476a1c3461bbed2; 0xaeaed10b762e37ab;
  0x37deb6af5e9b8b5b; 0x4d06c6676eae0222; 0xc26e573f3ef099a9; 0xb8b627f70ec510d0;
  0xf7e653dcc6da3dd4; 0x8d3e2314f6efb4ad; 0x0256b24ca6b12f26; 0x788ec2849684a65f;
  0x9cf65a1b368f752e; 0xe62e2ad306bafc57; 0x6946bb8b56e467dc; 0x139ecb4366d1eea5;
  0x5ccebf68aecec3a1; 0x2616cfa09efb4ad8; 0xa97e5ef8cea5d153; 0xd3a62e30fe90582a;
  0xb0c7b7e3c7593bd8; 0xca1fc72bf76cb2a1; 0x45775673a732292a; 0x3faf26bb9707a053;
  0x70ff52905f188d57; 0x0a2722586f2d042e; 0x854fb3003f739fa5; 0xff97c3c80f4616dc;
  0x1bef5b57af4dc5ad; 0x61372b9f9f784cd4; 0xee5fbac7cf26d75f; 0x9487ca0fff135e26;
  0xdbd7be24370c7322; 0xa10fceec0739fa5b; 0x2e675fb4576761d0; 0x54bf2f7c6752e8a9;
  0xcdcf48d84fe75459; 0xb71738107fd2dd20; 0x387fa9482f8c46ab; 0x42a7d9801fb9cfd2;
  0x0df7adabd7a6e2d6; 0x772fdd63e7936baf; 0xf8474c3bb7cdf024; 0x829f3cf387f8795d;
  0x66e7a46c27f3aa2c; 0x1c3fd4a417c62355; 0x935745fc4798b8de; 0xe98f353477ad31a7;
  0xa6df411fbfb21ca3; 0xdc0731d78f8795da; 0x536fa08fdfd90e51; 0x29b7d047efec8728].

(** [crc = crc64_tab[(uint8_t)crc ^ byte] ^ (crc >> 8)]; for a byte the index
    is below 256. *)
Definition crc64_step (crc byte : Z) : Z :=
  Z.lxor (nth (Z.to_nat (Z.lxor (to_u 8 crc) byte)) crc64_tab 0) (Z.shiftr crc 8).

Fixpoint crc64 (crc : Z) (s : list Z) : Z :=
  match s with
  | [] => crc
  | byte :: s' => crc64 (crc64_step crc byte) s'
  end.

(** ** The reference: one bit after the other
    The polynomial 0xad93d23594c935a9, reflected; no initial or final xor. *)
Definition POLY : Z := 0x95ac9329ac4bc9b5.
Definition bit_step (x : Z) : Z := if Z.odd x then Z.lxor (Z.shiftr x 1) POLY else Z.shiftr x 1.
Definition bit_steps (n : nat) (x : Z) : Z := Nat.iter n bit_step x.
Definition crc_bitwise (crc : Z) (s : list Z) : Z := fold_left (fun c b => bit_steps 8 (Z.lxor c b)) s crc.

Lemma crc64_app c a b : crc64 c (a ++ b) = crc64 (crc64 c a) b.
Proof. revert c. induction a as [|x a IH]; intros c; cbn [app crc64]; [done|apply IH]. Qed.

Lemma table_bits : forall i : nat, (i < 256)%nat -> nth i crc64_tab 0 = bit_steps 8 (Z.of_nat i).
Proof.
  assert (H : forallb (fun i => nth i crc64_tab 0 =? bit_steps 8 (Z.of_nat i)) (seq 0 256) = true) by (vm_compute; done).
  intros i Hi. rewrite forallb_forall in H. apply Z.eqb_eq, H. apply in_seq. lia.
Qed.

(** [bits]: an equality of words, bit by bit. *)
Ltac bits := apply Z.bits_inj'; intros ? ?; rewrite ?Z.lxor_spec;
  repeat match goal with |- context [Z.testbit ?a ?n] => destruct (Z.testbit a n) end; reflexivity.

Lemma bit_step_lxor a b : bit_step (Z.lxor a b) = Z.lxor (bit_step a) (bit_step b).
Proof.
  unfold bit_step. rewrite !Z.shiftr_lxor, <- !Z.bit0_odd, Z.lxor_spec.
  destruct (Z.testbit a 0), (Z.testbit b 0); cbn [xorb]; bits.
Qed.

Lemma bit_steps_S n x : bit_steps (S n) x = bit_step (bit_steps n x).
Proof. done. Qed.

Lemma bit_steps_add n m x : bit_steps (n + m) x = bit_steps n (bit_steps m x).
Proof. unfold bit_steps. apply Nat.iter_add. Qed.

Lemma bit_steps_lxor n a b : bit_steps n (Z.lxor a b) = Z.lxor (bit_steps n a) (bit_steps n b).
Proof. induction n as [|n IH]; [done|]. rewrite !bit_steps_S, IH. apply bit_step_lxor. Qed.

Lemma bit_step_even x : bit_step (2 * x) = x.
Proof.
  unfold bit_step. rewrite Z.odd_mul. cbn [Z.odd andb]. rewrite Z.shiftr_div_pow2 by lia. change (2 ^ 1) with 2.
  rewrite Z.mul_comm. by apply Z.div_mul.
Qed.

Lemma byte_steps x : bit_steps 8 (256 * x) = x.
Proof.
  rewrite !bit_steps_S. change (bit_steps 0 (256 * x)) with (256 * x). replace (256 * x) with (2 * (2 * (2 * (2 * (2 * (2 * (2 * (2 * x)))))))) by lia.
  by rewrite !bit_step_even.
Qed.

(** A word is its low byte and the rest. *)
Lemma low_byte x : x = Z.lxor (256 * Z.shiftr x 8) (x mod 256).
Proof.
  rewrite Z.shiftr_div_pow2 by lia. change (2 ^ 8) with 256.
  rewrite (Z.div_mod x 256) at 1 by lia. rewrite Z.add_nocarry_lxor; [done|].
  pose proof (Z.mod_pos_bound x 256 ltac:(lia)). rewrite (Z.mul_comm 256).
  rewrite <- (Z.mod_small (x mod 256) 256), <- (Z.land_ones _ 8) by lia.
  rewrite (Z.land_comm (x mod 256)), Z.land_assoc, Z.land_ones by lia. change (2 ^ 8) with 256. by rewrite Z.mod_mul.
Qed.

Lemma lxor_byte a b : 0 <= a < 256 -> 0 <= b < 256 -> 0 <= Z.lxor a b < 256.
Proof.
  intros Ha Hb. assert (Hn : 0 <= Z.lxor a b) by (apply Z.lxor_nonneg; lia). split; [done|].
  destruct (Z.eq_dec (Z.lxor a b) 0) as [->|Hz]; [lia|]. apply (Z.log2_lt_pow2 _ 8); [lia|].
  pose proof (Z.log2_lxor a b ltac:(lia) ltac:(lia)). assert (forall x, 0 <= x < 256 -> Z.log2 x < 8) as Hl.
  { intros x Hx. destruct (Z.eq_dec x 0) as [->|]; [done|]. apply Z.log2_lt_pow2; lia. }
  pose proof (Hl a Ha). pose proof (Hl b Hb). lia.
Qed.

Lemma step_bits crc b : in_u 8 b -> crc64_step crc b = bit_steps 8 (Z.lxor crc b).
Proof.
  intros Hb. unfold crc64_step, to_u. change (2 ^ 8) with 256. assert (Hb' : 0 <= b < 256) by exact Hb.
  pose proof (lxor_byte (crc mod 256) b (Z.mod_pos_bound crc 256 ltac:(lia)) Hb') as Hr.
  rewrite table_bits by lia. rewrite Z2Nat.id by lia. assert (E : Z.lxor crc b = Z.lxor (256 * Z.shiftr crc 8) (Z.lxor (crc mod 256) b)) by (by rewrite <- Z.lxor_assoc, <- low_byte).
  rewrite E, (bit_steps_lxor 8 (256 * _)), byte_steps. apply Z.lxor_comm.
Qed.

(** ** Detection *)
Definition word (x : Z) : Prop := in_u 64 x.

Lemma high_bits x n : word x -> 64 <= n -> Z.testbit x n = false.
Proof. intros Hx Hn. rewrite <- (Z.mod_small x (2 ^ 64)) by exact Hx. apply Z.mod_pow2_bits_high. lia. Qed.

Lemma lxor_word a b : word a -> word b -> word (Z.lxor a b).
Proof.
  intros Ha Hb. assert (E : Z.lxor a b = Z.lxor a b mod 2 ^ 64).
  { apply Z.bits_inj'. intros n Hn. destruct (Z.lt_ge_cases n 64) as [Hl|Hl].
    - by rewrite Z.mod_pow2_bits_low.
    - rewrite Z.mod_pow2_bits_high by lia. by rewrite Z.lxor_spec, !high_bits. }
  rewrite E. apply Z.mod_pos_bound. lia.
Qed.

Lemma half_word x : word x -> word (Z.shiftr x 1).
Proof.
  unfold word, in_u. intros Hx. rewrite Z.shiftr_div_pow2 by lia. change (2 ^ 1) with 2.
  split; [apply Z.div_pos; lia|apply Z.div_lt_upper_bound; lia].
Qed.

Lemma bit_step_word x : word x -> word (bit_step x).
Proof.
  intros Hx. apply half_word in Hx. unfold bit_step. destruct (Z.odd x); [|done]. apply lxor_word; [done|]. by vm_compute.
Qed.

(** The top bit of the polynomial shows which way a step went. *)
Lemma bit_step_top x : word x -> Z.testbit (bit_step x) 63 = Z.odd x.
Proof.
  intros Hx. assert (E : Z.testbit (Z.shiftr x 1) 63 = false) by (rewrite Z.shiftr_spec by lia; by apply high_bits).
  unfold bit_step. destruct (Z.odd x); [|done]. by rewrite Z.lxor_spec, E.
Qed.

Lemma bit_step_inj x y : word x -> word y -> bit_step x = bit_step y -> x = y.
Proof.
  intros Hx Hy E. pose proof (bit_step_top x Hx) as Ex. rewrite E, bit_step_top in Ex by done.
  assert (Es : Z.shiftr x 1 = Z.shiftr y 1).
  { unfold bit_step in E. rewrite <- Ex in E. destruct (Z.odd y); [|done].
    apply (f_equal (fun z => Z.lxor z POLY)) in E. by rewrite !Z.lxor_assoc, !Z.lxor_nilpotent, !Z.lxor_0_r in E. }
  rewrite (Z.div2_odd x), (Z.div2_odd y), Ex, !Z.div2_spec. by rewrite Es.
Qed.

Lemma bit_steps_word n x : word x -> word (bit_steps n x).
Proof. intros Hx. induction n as [|n IH]; [done|]. rewrite bit_steps_S. by apply bit_step_word. Qed.

Lemma bit_steps_inj n x y : word x -> word y -> bit_steps n x = bit_steps n y -> x = y.
Proof.
  intros Hx Hy. induction n as [|n IH]; [done|]. rewrite !bit_steps_S. intros E. apply IH, bit_step_inj; [by apply bit_steps_word..|done].
Qed.

Lemma byte_word b : in_u 8 b -> word b.
Proof. unfold word, in_u. lia. Qed.

Lemma crc64_word c s : word c -> Forall (in_u 8) s -> word (crc64 c s).
Proof.
  intros Hc Hs. revert c Hc. induction Hs as [|b s Hb Hs IH]; intros c Hc; cbn [crc64]; [done|]. apply IH.
  rewrite step_bits by done. apply bit_steps_word, lxor_word; [done|by apply byte_word].
Qed.

(** The checksum of a block is that of its bytes as one number. *)
Lemma crc64_block c s : Forall (in_u 8) s -> crc64 c s = bit_steps (8 * length s) (Z.lxor c (le_val s)).
Proof.
  intros Hs. revert c. induction Hs as [|b s Hb Hs IH]; intros c; cbn [crc64 le_val length].
  { by rewrite Z.lxor_0_r. }
  rewrite IH, step_bits by done. replace (8 * S (length s))%nat with (8 * length s + 8)%nat by lia. rewrite bit_steps_add.
  f_equal. assert (E : b + 256 * le_val s = Z.lxor b (256 * le_val s)).
  { rewrite Z.lxor_comm, (low_byte (b + 256 * le_val s)). assert (0 <= b < 256) by exact Hb. rewrite Z.shiftr_div_pow2 by lia. change (2 ^ 8) with 256.
    rewrite (Z.mul_comm 256 (le_val s)), Z.div_add, Z.mod_add, Z.div_small, Z.mod_small by lia. rewrite Z.add_0_l. f_equal. lia. }
  rewrite E, <- Z.lxor_assoc, (bit_steps_lxor 8 (Z.lxor c b)), byte_steps. done.
Qed.

Lemma le_val_word s : Forall (in_u 8) s -> 0 <= le_val s < 256 ^ Z.of_nat (length s).
Proof.
  induction 1 as [|b s Hb Hs IH]; cbn [le_val length]; [done|]. assert (0 <= b < 256) by exact Hb.
  rewrite Nat2Z.inj_succ, Z.pow_succ_r by lia. lia.
Qed.

Lemma le_val_inj s t : length s = length t -> Forall (in_u 8) s -> Forall (in_u 8) t -> le_val s = le_val t -> s = t.
Proof.
  intros Hl Hs. revert t Hl. induction Hs as [|b s Hb Hs IH]; intros [|d t] Hl Ht; try discriminate; [done|].
  inversion Ht as [|? ? Hd Ht']; subst. cbn [le_val]. intros E. assert (0 <= b < 256) by exact Hb. assert (0 <= d < 256) by exact Hd.
  assert (b = d) as -> by lia. f_equal. apply IH; [by injection Hl|done|lia].
Qed.

Lemma crc64_inj_state s c d : word c -> word d -> Forall (in_u 8) s -> crc64 c s = crc64 d s -> c = d.
Proof.
  intros Hc Hd Hs. revert c d Hc Hd. induction Hs as [|b s Hb Hs IH]; intros c d Hc Hd; cbn [crc64]; [done|].
  rewrite !step_bits by done. pose proof (byte_word b Hb) as Hbw. intros E.
  apply IH in E; [|by apply bit_steps_word, lxor_word..]. apply bit_steps_inj in E; [|by apply lxor_word..].
  apply (f_equal (fun z => Z.lxor z b)) in E. by rewrite !Z.lxor_assoc, !Z.lxor_nilpotent, !Z.lxor_0_r in E.
Qed.

(** C28: The table-driven [crc64] is the division by the polynomial
    0xad93d23594c935a9 (reflected), one bit after the other. *)
Theorem crc64_is_polynomial_division (c : Z) (s : list Z) : Forall (in_u 8) s -> crc64 c s = crc_bitwise c s.
Proof.
  intros Hs. revert c. induction Hs as [|b s Hb Hs IH]; intros c; cbn [crc64]; [done|]. rewrite step_bits by done. apply IH.
Qed.

Lemma crc64_is_polynomial_division_witness : crc64 5 [1; 255] = crc_bitwise 5 [1; 255].
Proof. apply crc64_is_polynomial_division. repeat constructor; vm_compute; done. Defined.

(** The checksum detects every corruption that stays within eight
    consecutive bytes of a file. *)
Theorem crc64_detects_burst (c : Z) (pre a b post : list Z) :
  in_u 64 c -> Forall (in_u 8) pre -> Forall (in_u 8) a -> Forall (in_u 8) b -> Forall (in_u 8) post ->
  length a = length b -> (length a <= 8)%nat -> a <> b -> crc64 c (pre ++ a ++ post) <> crc64 c (pre ++ b ++ post).
Proof.
  intros Hc Hpre Ha Hb Hpost Hl H8 Hne E. apply Hne. rewrite !crc64_app in E.
  pose proof (crc64_word c pre Hc Hpre) as Hw. apply crc64_inj_state in E; [|by apply crc64_word..|done].
  rewrite (crc64_block _ a), (crc64_block _ b), Hl in E by done.
  assert (Hword : forall s, Forall (in_u 8) s -> (length s <= 8)%nat -> word (le_val s)).
  { intros s Hs H. pose proof (le_val_word s Hs) as Hv. pose proof (Z.pow_le_mono_r 256 (Z.of_nat (length s)) 8).
    unfold word, in_u. change (2 ^ 64) with (256 ^ 8). lia. }
  apply bit_steps_inj in E; [|apply lxor_word; [done|apply Hword; [done|lia]]..].
  apply le_val_inj; [done..|]. apply (f_equal (Z.lxor (crc64 c pre))) in E.
  by rewrite <- !Z.lxor_assoc, !Z.lxor_nilpotent, !Z.lxor_0_l in E.
Qed.

Lemma crc64_detects_burst_witness : crc64 0 ([1] ++ [2; 3] ++ [4]) <> crc64 0 ([1] ++ [2; 5] ++ [4]).
Proof. apply crc64_detects_burst; try done; try lia; repeat constructor; vm_compute; done. Defined.

(** The check value in the header of crc64.c is that of the initial value 0;
    with the initial value that the header names it is another one. *)
Lemma crc64_check_value :
  crc64 0 [49; 50; 51; 52; 53; 54; 55; 56; 57] = 0xe9c6d914c4b8d9ca /\
  crc64 0xffffffffffffffff [49; 50; 51; 52; 53; 54; 55; 56; 57] <> 0xe9c6d914c4b8d9ca.
Proof. split; vm_compute; done. Qed.

End Crc64.
