(* ===== verification/Rio.v ===== *)
(** * rio.c: streams on files and buffers, with a checksum

    A stream is the bytes behind it, the position, and the checksum of what has
    passed.  [io_room] is how many bytes the medium takes before a write fails
    (a buffer in memory takes any number); [io_chunk] is max_processing_chunk,
    0 for none. *)
From S2P Require Import Prelude Mem Crc64.
Import Mem Crc64.

Record rio := mkRio {
  io_data : list Z;
  io_pos : Z;
  io_room : Z;
  io_update_cksum : bool;
  io_cksum : Z;
  io_processed : Z;
  io_chunk : Z
}.

Module Rio.

(** [rioInitWithFile] and [rioInitWithBuffer] start at the first byte. *)
Definition rioInit (data : list Z) (room : Z) (update_cksum : bool) (chunk : Z) : rio :=
  mkRio data 0 room update_cksum 0 0 chunk.

(** The backend's write and read: all of the bytes or nothing. *)
Definition io_write (buf : list Z) (r : rio) : option rio :=
  if size buf <=? io_room r then
    Some (mkRio (io_data r ++ buf) (io_pos r + size buf) (io_room r - size buf) (io_update_cksum r) (io_cksum r) (io_processed r) (io_chunk r))
  else None.
Definition io_read (len : Z) (r : rio) : option (list Z * rio) :=
  if size (io_data r) - io_pos r <? len then None
  else Some (take (Z.to_nat len) (drop (Z.to_nat (io_pos r)) (io_data r)),
             mkRio (io_data r) (io_pos r + len) (io_room r) (io_update_cksum r) (io_cksum r) (io_processed r) (io_chunk r)).

Definition rioGenericUpdateChecksum (buf : list Z) (r : rio) : rio :=
  mkRio (io_data r) (io_pos r) (io_room r) (io_update_cksum r) (crc64 (io_cksum r) buf) (io_processed r) (io_chunk r).
Definition update_cksum (buf : list Z) (r : rio) : rio :=
  if io_update_cksum r then rioGenericUpdateChecksum buf r else r.
Definition add_processed (n : Z) (r : rio) : rio :=
  mkRio (io_data r) (io_pos r) (io_room r) (io_update_cksum r) (io_cksum r) (io_processed r + n) (io_chunk r).
Definition chunk (r : rio) (len : Z) : Z := if negb (io_chunk r =? 0) && (io_chunk r <? len) then io_chunk r else len.

(** Every turn takes at least one byte. *)
Fixpoint write_loop (fuel : nat) (buf : list Z) : prog rio bool :=
  match fuel with
  | O => throw OutOfFuel
  | S fuel' =>
    if size buf =? 0 then mret true
    else
      r ← get_st;
      let n := chunk r (size buf) in
      let part := take (Z.to_nat n) buf in
      let r := update_cksum part r in
      match io_write part r with
      | None => put_st r ;; mret false
      | Some r => put_st (add_processed n r) ;; write_loop fuel' (drop (Z.to_nat n) buf)
      end
  end.
Definition rioWrite (buf : list Z) : prog rio bool := write_loop (S (length buf)) buf.

Fixpoint read_loop (fuel : nat) (acc : list Z) (len : Z) : prog rio (option (list Z)) :=
  match fuel with
  | O => throw OutOfFuel
  | S fuel' =>
    if len =? 0 then mret (Some acc)
    else
      r ← get_st;
      let n := chunk r len in
      match io_read n r with
      | None => mret None
      | Some (part, r) => put_st (add_processed n (update_cksum part r)) ;; read_loop fuel' (acc ++ part) (len - n)
      end
  end.
Definition rioRead (len : Z) : prog rio (option (list Z)) := read_loop (S (Z.to_nat len)) [] len.

(** ** What a write and a read do *)
(** The stream after [bs] has been written, or read. *)
Definition wrote (bs : list Z) (r : rio) : rio :=
  mkRio (io_data r ++ bs) (io_pos r + size bs) (io_room r - size bs) (io_update_cksum r)
    (if io_update_cksum r then crc64 (io_cksum r) bs else io_cksum r) (io_processed r + size bs) (io_chunk r).
Definition passed (bs : list Z) (r : rio) : rio :=
  mkRio (io_data r) (io_pos r + size bs) (io_room r) (io_update_cksum r)
    (if io_update_cksum r then crc64 (io_cksum r) bs else io_cksum r) (io_processed r + size bs) (io_chunk r).

Lemma rio_eq d p o u c q k d' p' o' u' c' q' k' :
  d = d' -> p = p' -> o = o' -> u = u' -> c = c' -> q = q' -> k = k' -> mkRio d p o u c q k = mkRio d' p' o' u' c' q' k'.
Proof. by intros -> -> -> -> -> -> ->. Qed.

Lemma wrote_nil r : wrote [] r = r.
Proof. destruct r. apply rio_eq; cbn; rewrite ?app_nil_r, ?size_nil; try done; try lia. by destruct (_ : bool). Qed.
Lemma wrote_app a b r : wrote (a ++ b) r = wrote b (wrote a r).
Proof.
  destruct r as [d p o u c q k]. apply rio_eq; cbn; rewrite ?size_app, ?app_assoc, ?crc64_app; try done; try lia. by destruct u.
Qed.
Lemma passed_nil r : passed [] r = r.
Proof. destruct r. apply rio_eq; cbn; rewrite ?size_nil; try done; try lia. by destruct (_ : bool). Qed.
Lemma passed_app a b r : passed (a ++ b) r = passed b (passed a r).
Proof. destruct r as [d p o u c q k]. apply rio_eq; cbn; rewrite ?size_app, ?crc64_app; try done; try lia. by destruct u. Qed.

Lemma chunk_range r len : 0 <= io_chunk r -> 0 < len -> 0 < chunk r len <= len.
Proof. intros Hc Hl. unfold chunk. case_if; [|lia]. destruct (Z.eqb_spec (io_chunk r) 0); [discriminate|lia]. Qed.

Lemma turn_wrote part r n : n = size part ->
  match io_write part (update_cksum part r) with
  | Some r' => size part <= io_room r /\ add_processed n r' = wrote part r
  | None => io_room r < size part
  end.
Proof.
  intros ->. unfold io_write, update_cksum, rioGenericUpdateChecksum, wrote, add_processed. destruct r as [d p o u c q k]. cbn.
  destruct u; cbn; case_if; try lia; split; try lia; done.
Qed.

(** A stream that can be used: no negative room or chunk. *)
Definition rio_ok (r : rio) : Prop := 0 <= io_chunk r /\ 0 <= io_room r.

Lemma split_take (buf : list Z) n : 0 < n <= size buf ->
  size (take (Z.to_nat n) buf) = n /\ size (drop (Z.to_nat n) buf) = size buf - n /\ (length (drop (Z.to_nat n) buf) < length buf)%nat.
Proof. intros Hn. unfold size in *. rewrite length_take, length_drop. lia. Qed.

Lemma write_loop_ok fuel buf r : (length buf < fuel)%nat -> rio_ok r ->
  exists r', write_loop fuel buf r = Done (size buf <=? io_room r, r') /\ (size buf <= io_room r -> r' = wrote buf r).
Proof.
  revert buf r. induction fuel as [|fuel IH]; intros buf r Hf [Hc Hr]; [lia|]. cbn [write_loop]. pose proof (size_nonneg buf).
  destruct (Z.eqb_spec (size buf) 0) as [E|E].
  - exists r. destruct buf; [|pose proof (size_nonneg buf); rewrite size_cons in E; lia].
    rewrite wrote_nil, E. split; [|done]. by rewrite (proj2 (Z.leb_le _ _)) by lia.
  - rewrite bind_get_st. cbv zeta. pose proof (chunk_range r (size buf) Hc ltac:(lia)) as Hn.
    destruct (split_take buf (chunk r (size buf)) Hn) as (Hp & Hd & Hlt).
    pose proof (turn_wrote (take (Z.to_nat (chunk r (size buf))) buf) r (chunk r (size buf)) (eq_sym Hp)) as T.
    destruct (io_write _ _) as [r1|].
    + destruct T as [T1 T2]. rewrite T2, bind_put_st.
      destruct (IH (drop (Z.to_nat (chunk r (size buf))) buf) (wrote (take (Z.to_nat (chunk r (size buf))) buf) r)) as (r' & E' & Hr').
      { lia. } { split; [done|cbn; lia]. }
      exists r'. rewrite E'. cbn [wrote io_room] in *. rewrite Hd, Hp in *. split.
      * f_equal. f_equal. destruct (Z.leb_spec (size buf - chunk r (size buf)) (io_room r - chunk r (size buf))), (Z.leb_spec (size buf) (io_room r)); lia || done.
      * intros Hfit. rewrite Hr' by lia. rewrite <- wrote_app, take_drop. done.
    + eexists. rewrite bind_put_st, (proj2 (Z.leb_gt _ _)) by lia. split; [done|lia].
Qed.

(** A write appends all of the bytes and sums them up, or fails for want of room. *)
Lemma rioWrite_ok buf r : rio_ok r -> size buf <= io_room r -> rioWrite buf r = Done (true, wrote buf r) /\ rio_ok (wrote buf r).
Proof.
  intros Hr Hb. destruct (write_loop_ok (S (length buf)) buf r) as (r' & E & Hr'); [lia|done|]. unfold rioWrite.
  rewrite E, Hr', (proj2 (Z.leb_le _ _)) by done. split; [done|]. destruct Hr. split; cbn; lia.
Qed.
Lemma rioWrite_full buf r : rio_ok r -> io_room r < size buf -> exists r', rioWrite buf r = Done (false, r').
Proof.
  intros Hr Hb. destruct (write_loop_ok (S (length buf)) buf r) as (r' & E & _); [lia|done|]. exists r'. unfold rioWrite.
  by rewrite E, (proj2 (Z.leb_gt _ _)) by lia.
Qed.

(** What is left to read. *)
Definition ahead (r : rio) (bs : list Z) : Prop := 0 <= io_chunk r /\ exists pre, io_data r = pre ++ bs /\ io_pos r = size pre.

Lemma ahead_passed r a b : ahead r (a ++ b) -> ahead (passed a r) b.
Proof. intros (Hc & pre & Hd & Hp). split; [done|]. exists (pre ++ a). cbn. rewrite Hd, Hp, size_app, <- app_assoc. done. Qed.

Lemma io_read_ok r a b : ahead r (a ++ b) -> io_read (size a) r =
  Some (a, mkRio (io_data r) (io_pos r + size a) (io_room r) (io_update_cksum r) (io_cksum r) (io_processed r) (io_chunk r)).
Proof.
  intros (_ & pre & Hd & Hp). unfold io_read. pose proof (size_nonneg a). pose proof (size_nonneg b).
  rewrite Hd, Hp, (proj2 (Z.ltb_ge _ _)) by sz. unfold size. rewrite !Nat2Z.id, drop_app_length, take_app_length. done.
Qed.

Lemma read_loop_ok fuel acc a b r : (length a < fuel)%nat -> ahead r (a ++ b) ->
  read_loop fuel acc (size a) r = Done (Some (acc ++ a), passed a r).
Proof.
  revert acc a r. induction fuel as [|fuel IH]; intros acc a r Hf Ha; [lia|]. cbn [read_loop]. pose proof (size_nonneg a).
  destruct (Z.eqb_spec (size a) 0) as [E|E].
  - destruct a; [|pose proof (size_nonneg a); rewrite size_cons in E; lia]. by rewrite passed_nil, app_nil_r.
  - rewrite bind_get_st. cbv zeta. pose proof (chunk_range r (size a) (proj1 Ha) ltac:(lia)) as Hn.
    destruct (split_take a (chunk r (size a)) Hn) as (Hp & Hd & Hlt). set (n := chunk r (size a)) in *.
    rewrite <- (take_drop (Z.to_nat n) a), <- app_assoc in Ha. pose proof (io_read_ok r _ _ Ha) as R. rewrite Hp in R. rewrite R.
    assert (E1 : add_processed n (update_cksum (take (Z.to_nat n) a) (mkRio (io_data r) (io_pos r + n) (io_room r) (io_update_cksum r) (io_cksum r) (io_processed r) (io_chunk r)))
                 = passed (take (Z.to_nat n) a) r).
    { unfold add_processed, update_cksum, passed, rioGenericUpdateChecksum. cbn. rewrite Hp. by destruct (io_update_cksum r). }
    rewrite E1, bind_put_st, <- Hd, (IH _ (drop (Z.to_nat n) a) _ ltac:(lia) (ahead_passed _ _ _ Ha)).
    by rewrite <- app_assoc, take_drop, <- passed_app, take_drop.
Qed.

Lemma rioRead_ok a b r n : ahead r (a ++ b) -> n = size a -> rioRead n r = Done (Some a, passed a r).
Proof. intros Ha ->. unfold rioRead. rewrite (read_loop_ok _ [] a b); [done|unfold size; lia|done]. Qed.

End Rio.
