(* ===== verification/Intset.v ===== *)
(** * intset.c: the packed sorted integer set

    [struct intset] is a header (encoding, length) and a byte array in which
    the elements lie packed, little-endian, at the width of the encoding.  The
    model keeps the bytes: an access outside the array is a [Fault], and the
    in-place widening of [intsetUpgradeAndAdd], which reads at the old width
    from the array it writes at the new width, is modelled on the bytes. *)
From S2P Require Import Prelude.

Module Intset.

Record intset := mkIntset {
  encoding : Z;
  length_ : Z;
  contents : list Z
}.

Definition INTSET_ENC_INT16 : Z := 2.
Definition INTSET_ENC_INT32 : Z := 4.
Definition INTSET_ENC_INT64 : Z := 8.

Definition _intsetValueEncoding (v : Z) : Z :=
  if (v <? INT32_MIN) || (v >? INT32_MAX) then INTSET_ENC_INT64
  else if (v <? INT16_MIN) || (v >? INT16_MAX) then INTSET_ENC_INT32
  else INTSET_ENC_INT16.

(** [memcpy(&v, (intN_t* )contents + pos, sizeof v)], for the three widths. *)
Definition _intsetGetEncoded (iset : intset) (pos enc : Z) : outcome Z :=
  if enc =? INTSET_ENC_INT64 then
    bs ← buf_get (contents iset) (Z.to_nat (pos * 8)) 8; mret (to_s 64 (le_val bs))
  else if enc =? INTSET_ENC_INT32 then
    bs ← buf_get (contents iset) (Z.to_nat (pos * 4)) 4; mret (to_s 32 (le_val bs))
  else
    bs ← buf_get (contents iset) (Z.to_nat (pos * 2)) 2; mret (to_s 16 (le_val bs)).

Definition _intsetGet (iset : intset) (pos : Z) : outcome Z :=
  _intsetGetEncoded iset pos (encoding iset).

Definition _intsetSet (iset : intset) (pos value : Z) : outcome intset :=
  c ← (if encoding iset =? INTSET_ENC_INT64 then
         buf_put (contents iset) (Z.to_nat (pos * 8)) (le_bytes 8 value)
       else if encoding iset =? INTSET_ENC_INT32 then
         buf_put (contents iset) (Z.to_nat (pos * 4)) (le_bytes 4 value)
       else
         buf_put (contents iset) (Z.to_nat (pos * 2)) (le_bytes 2 value));
  mret (mkIntset (encoding iset) (length_ iset) c).

Definition intsetNew : intset := mkIntset INTSET_ENC_INT16 0 [].

Section Fill.
(** What the bytes added by [zrealloc] hold. *)
Context (fill : nat -> Z).

Definition intsetResize (iset : intset) (len : Z) : intset :=
  let size := to_u 32 (len * encoding iset) in
  mkIntset (encoding iset) (length_ iset) (buf_resize fill (contents iset) (Z.to_nat size)).

(** The [while(max >= min)] loop; [Done] returns [(min, mid, cur)]. *)
Fixpoint search_loop (fuel : nat) (iset : intset) (value min max mid cur : Z)
  : outcome (Z * Z * Z) :=
  match fuel with
  | O => Fault OutOfFuel
  | S fuel' =>
    if max >=? min then
      let mid := Z.shiftr (to_u 32 (min + max)) 1 in
      cur ← _intsetGet iset mid;
      if value >? cur then search_loop fuel' iset value (mid + 1) max mid cur
      else if value <? cur then search_loop fuel' iset value min (mid - 1) mid cur
      else mret (min, mid, cur)
    else mret (min, mid, cur)
  end.

(** Returns the flag and [*pos].  The loop halves [max - min + 1] on every
    turn: [length + 1] turns of fuel are enough ([search_loop_spec]). *)
Definition intsetSearch (iset : intset) (value : Z) : outcome (bool * Z) :=
  let len := length_ iset in
  if len =? 0 then mret (false, 0)
  else
    last ← _intsetGet iset (len - 1);
    if value >? last then mret (false, len)
    else
      first ← _intsetGet iset 0;
      if value <? first then mret (false, 0)
      else
        r ← search_loop (S (Z.to_nat len)) iset value 0 (to_s 32 (len - 1)) (-1) (-1);
        let '(min, mid, cur) := r in
        if value =? cur then mret (true, mid) else mret (false, min).

(** [while(length--) _intsetSet(iset,length+prepend,_intsetGetEncoded(iset,length,curenc))] *)
Fixpoint upgrade_loop (len : nat) (iset : intset) (prepend curenc : Z) : outcome intset :=
  match len with
  | O => mret iset
  | S len' =>
    v ← _intsetGetEncoded iset (Z.of_nat len') curenc;
    iset' ← _intsetSet iset (Z.of_nat len' + prepend) v;
    upgrade_loop len' iset' prepend curenc
  end.

Definition intsetUpgradeAndAdd (iset : intset) (value : Z) : outcome intset :=
  let curenc := encoding iset in
  let newenc := _intsetValueEncoding value in
  let length := length_ iset in
  let prepend := if value <? 0 then 1 else 0 in
  let iset1 := mkIntset newenc (length_ iset) (contents iset) in
  let iset2 := intsetResize iset1 (length_ iset1 + 1) in
  iset3 ← upgrade_loop (Z.to_nat length) iset2 prepend curenc;
  iset4 ← (if prepend =? 1 then _intsetSet iset3 0 value
         else _intsetSet iset3 (length_ iset3) value);
  mret (mkIntset (encoding iset4) (to_u 32 (length_ iset4 + 1)) (contents iset4)).

Definition intsetMoveTail (iset : intset) (from to : Z) : outcome intset :=
  let n := to_u 32 (length_ iset - from) in
  c ← (if encoding iset =? INTSET_ENC_INT64 then
         buf_move (contents iset) (Z.to_nat (to * 8)) (Z.to_nat (from * 8)) (Z.to_nat (to_u 32 (n * 8)))
       else if encoding iset =? INTSET_ENC_INT32 then
         buf_move (contents iset) (Z.to_nat (to * 4)) (Z.to_nat (from * 4)) (Z.to_nat (to_u 32 (n * 4)))
       else
         buf_move (contents iset) (Z.to_nat (to * 2)) (Z.to_nat (from * 2)) (Z.to_nat (to_u 32 (n * 2))));
  mret (mkIntset (encoding iset) (length_ iset) c).

(** Returns the set and [*success]. *)
Definition intsetAdd (iset : intset) (value : Z) : outcome (intset * bool) :=
  let valenc := _intsetValueEncoding value in
  if valenc >? encoding iset then
    iset' ← intsetUpgradeAndAdd iset value; mret (iset', true)
  else
    r ← intsetSearch iset value;
    let '(found, pos) := r in
    if (found : bool) then mret (iset, false)
    else
      let iset1 := intsetResize iset (length_ iset + 1) in
      iset2 ← (if pos <? length_ iset1 then intsetMoveTail iset1 pos (pos + 1) else mret iset1);
      iset3 ← _intsetSet iset2 pos value;
      mret (mkIntset (encoding iset3) (to_u 32 (length_ iset3 + 1)) (contents iset3), true).

Definition intsetRemove (iset : intset) (value : Z) : outcome (intset * bool) :=
  let valenc := _intsetValueEncoding value in
  if valenc <=? encoding iset then
    r ← intsetSearch iset value;
    let '(found, pos) := r in
    if (found : bool) then
      let len := length_ iset in
      iset1 ← (if pos <? len - 1 then intsetMoveTail iset (pos + 1) pos else mret iset);
      let iset2 := intsetResize iset1 (len - 1) in
      mret (mkIntset (encoding iset2) (len - 1) (contents iset2), true)
    else mret (iset, false)
  else mret (iset, false).

Definition intsetFind (iset : intset) (value : Z) : outcome bool :=
  let valenc := _intsetValueEncoding value in
  if valenc <=? encoding iset then
    r ← intsetSearch iset value; mret (fst r)
  else mret false.

(** [rand()] is the argument [r]. *)
Definition intsetRandom (iset : intset) (r : Z) : outcome Z :=
  if length_ iset =? 0 then Fault Panic else _intsetGet iset (r mod length_ iset).

Definition intsetGet (iset : intset) (pos : Z) : outcome (option Z) :=
  if pos <? length_ iset then v ← _intsetGet iset pos; mret (Some v) else mret None.

Definition intsetLen (iset : intset) : Z := length_ iset.

Definition intsetBlobLen (iset : intset) : Z := 8 + to_u 32 (length_ iset * encoding iset).

End Fill.

(** ** The byte array as a list of elements *)

Definition enc_elems (e : nat) (l : list Z) : list Z := concat (map (le_bytes e) l).

(** [repr s l]: the intset [s] holds the elements [l], in increasing order,
    each within the width of the encoding, with no spare byte. *)
Definition valid_enc (e : Z) : Prop := e = 2 \/ e = 4 \/ e = 8.

Record repr (s : intset) (l : list Z) : Prop := {
  repr_enc : valid_enc (encoding s);
  repr_len : length_ s = Z.of_nat (length l);
  repr_bytes : contents s = enc_elems (Z.to_nat (encoding s)) l;
  repr_range : Forall (in_s (8 * encoding s)) l;
  repr_sorted : StronglySorted Z.lt l
}.

(** One more element still fits: the 32-bit size computed by [intsetResize]
    does not wrap, whatever the encoding. *)
Definition fits (l : list Z) : Prop := (Z.of_nat (length l) + 1) * 8 < 2 ^ 32.

Section Bytes.
Context (e : nat).

Lemma enc_app l1 l2 : enc_elems e (l1 ++ l2) = enc_elems e l1 ++ enc_elems e l2.
Proof. unfold enc_elems. rewrite map_app, concat_app. done. Qed.

Lemma enc_one v : enc_elems e [v] = le_bytes e v.
Proof. unfold enc_elems; simpl. apply app_nil_r. Qed.

Lemma length_enc l : length (enc_elems e l) = (length l * e)%nat.
Proof.
  unfold enc_elems. induction l; simpl; [done|].
  rewrite length_app, length_le_bytes, IHl. lia.
Qed.
End Bytes.

Lemma decode_le_bytes e v :
  valid_enc e -> in_s (8 * e) v -> to_s (8 * e) (le_val (le_bytes (Z.to_nat e) v)) = v.
Proof.
  intros He Hv. rewrite le_val_bytes.
  replace (256 ^ Z.of_nat (Z.to_nat e)) with (2 ^ (8 * e))
    by (destruct He as [->|[->| ->]]; reflexivity).
  assert (0 < 8 * e) by (destruct He as [->|[->| ->]]; lia).
  rewrite to_s_mod by done. by apply to_s_small.
Qed.

(** The three width branches, as one access at stride [enc]. *)
Lemma getEncoded_stride s pos enc : valid_enc enc ->
  _intsetGetEncoded s pos enc =
  (bs ← buf_get (contents s) (Z.to_nat (pos * enc)) (Z.to_nat enc);
   mret (to_s (8 * enc) (le_val bs))).
Proof. intros [->|[->| ->]]; reflexivity. Qed.

Lemma set_stride s pos v : valid_enc (encoding s) ->
  _intsetSet s pos v =
  (c ← buf_put (contents s) (Z.to_nat (pos * encoding s)) (le_bytes (Z.to_nat (encoding s)) v);
   mret (mkIntset (encoding s) (length_ s) c)).
Proof. unfold _intsetSet. intros [->|[->| ->]]; reflexivity. Qed.

Lemma moveTail_stride s from to : valid_enc (encoding s) ->
  intsetMoveTail s from to =
  (c ← buf_move (contents s) (Z.to_nat (to * encoding s)) (Z.to_nat (from * encoding s))
         (Z.to_nat (to_u 32 (to_u 32 (length_ s - from) * encoding s)));
   mret (mkIntset (encoding s) (length_ s) c)).
Proof. unfold intsetMoveTail. intros [->|[->| ->]]; reflexivity. Qed.

Lemma getEncoded_mid s enc l1 v l2 c :
  valid_enc enc -> in_s (8 * enc) v ->
  contents s = enc_elems (Z.to_nat enc) (l1 ++ v :: l2) ++ c ->
  _intsetGetEncoded s (Z.of_nat (length l1)) enc = Done v.
Proof.
  intros He Hv Hc. rewrite getEncoded_stride by done.
  rewrite Hc, (app_assoc l1 [v] l2 : l1 ++ v :: l2 = _), !enc_app, enc_one, <- !app_assoc.
  rewrite buf_get_mid; [simpl|rewrite length_enc; destruct He as [->|[->| ->]]; lia
                       |by rewrite length_le_bytes].
  f_equal. by apply decode_le_bytes.
Qed.

Lemma set_mid s a d c pos v :
  valid_enc (encoding s) -> contents s = a ++ d ++ c ->
  Z.of_nat (length a) = pos * encoding s -> Z.of_nat (length d) = encoding s ->
  _intsetSet s pos v =
  Done (mkIntset (encoding s) (length_ s) (a ++ le_bytes (Z.to_nat (encoding s)) v ++ c)).
Proof.
  intros He Hc Ha Hd. rewrite set_stride, Hc by done.
  rewrite buf_put_mid; [done|lia|rewrite length_le_bytes; lia].
Qed.

Lemma get_lookup s l p v :
  repr s l -> l !! p = Some v -> _intsetGet s (Z.of_nat p) = Done v.
Proof.
  intros [He _ Hc Hr _] Hl. unfold _intsetGet.
  rewrite <- (take_drop_middle l p v Hl) in Hc.
  rewrite <- (length_take_le l p) by (apply lookup_lt_Some in Hl; lia).
  eapply getEncoded_mid with (c := []); [done|..].
  - eapply Forall_lookup_1; eauto.
  - rewrite app_nil_r, Hc. done.
Qed.

(** ** Search *)

(** [p] is where [v] belongs in the increasing list [l]. *)
Definition ins_point (l : list Z) (v : Z) (p : nat) : Prop :=
  (p <= length l)%nat /\
  (forall i a, l !! i = Some a -> (i < p)%nat -> a < v) /\
  (forall i a, l !! i = Some a -> (p <= i)%nat -> v < a).

Lemma sorted_lookup l i j a b :
  StronglySorted Z.lt l -> (i < j)%nat -> l !! i = Some a -> l !! j = Some b -> a < b.
Proof.
  intros Hs Hij Hi Hj. rewrite <- (take_drop_middle l i a Hi) in Hs.
  apply StronglySorted_app_1_r, StronglySorted_cons in Hs as [Hs _].
  rewrite Forall_forall in Hs. apply Hs. apply list_elem_of_lookup.
  exists (j - S i)%nat. rewrite lookup_drop. rewrite <- Hj. f_equal. lia.
Qed.

Lemma lookup_in_range (l : list Z) (z : Z) :
  0 <= z < Z.of_nat (length l) -> exists v, l !! Z.to_nat z = Some v.
Proof. intros. apply lookup_lt_is_Some. lia. Qed.

(** What the binary search returns: the position of the value, or the one
    where it has to be inserted. *)
Definition search_post (l : list Z) (v : Z) (r : bool * Z) : Prop :=
  exists p : nat, snd r = Z.of_nat p /\
    (if fst r then l !! p = Some v else ins_point l v p).

Lemma get_range s l z :
  repr s l -> 0 <= z < Z.of_nat (length l) ->
  exists v, l !! Z.to_nat z = Some v /\ _intsetGet s z = Done v.
Proof.
  intros Hr Hz. destruct (lookup_in_range l z Hz) as [v Hv]. exists v. split; [done|].
  rewrite <- (Z2Nat.id z) by lia. by apply get_lookup with l.
Qed.

Lemma search_loop_spec s l v fuel min max mid cur :
  repr s l -> fits l ->
  0 <= min -> max < Z.of_nat (length l) -> min <= max + 1 ->
  (forall i a, l !! i = Some a -> Z.of_nat i < min -> a < v) ->
  (forall i a, l !! i = Some a -> max < Z.of_nat i -> v < a) ->
  (max < min -> cur <> v) ->
  max - min + 1 < Z.of_nat fuel ->
  exists min' mid' cur', search_loop fuel s v min max mid cur = Done (min', mid', cur') /\
    search_post l v (if v =? cur' then (true, mid') else (false, min')).
Proof.
  intros Hr Hf. revert min max mid cur.
  induction fuel as [|fuel IH]; intros min max mid cur H0 H1 Hmm Hlo Hhi Hcur Hfu; [lia|].
  simpl. rewrite Z.geb_leb. destruct (Z.leb_spec min max) as [Hle|Hgt].
  - unfold fits in Hf. rewrite to_u_small by (unfold in_u; lia).
    rewrite Z.shiftr_div_pow2 by lia. change (2 ^ 1) with 2.
    set (m := (min + max) / 2).
    assert (min <= m <= max) by (subst m; split; [apply Z.div_le_lower_bound|apply Z.div_le_upper_bound]; lia).
    destruct (get_range s l m Hr ltac:(lia)) as (c & Hc & ->). rewrite bind_Done, Z.gtb_ltb.
    destruct (Z.ltb_spec c v); [|destruct (Z.ltb_spec v c)].
    + apply IH; try lia; try done. intros i a Hi Hlt.
      destruct (decide (i = Z.to_nat m)) as [->|]; [congruence|].
      assert (a < c) by (eapply (sorted_lookup l); [apply Hr| |exact Hi|exact Hc]; lia). lia.
    + apply IH; try lia; try done. intros i a Hi Hlt.
      destruct (decide (i = Z.to_nat m)) as [->|]; [congruence|].
      assert (c < a) by (eapply (sorted_lookup l); [apply Hr| |exact Hc|exact Hi]; lia). lia.
    + do 3 eexists. split; [reflexivity|]. rewrite (proj2 (Z.eqb_eq v c)) by lia.
      exists (Z.to_nat m). simpl. split; [lia|]. rewrite Hc. f_equal. lia.
  - do 3 eexists. split; [reflexivity|].
    rewrite (proj2 (Z.eqb_neq v cur)) by (specialize (Hcur Hgt); congruence).
    exists (Z.to_nat min). simpl. split; [lia|]. split; [lia|].
    split; intros i a Hi Hlt; [eapply Hlo|eapply Hhi]; eauto; lia.
Qed.

Lemma search_ok s l v :
  repr s l -> fits l -> exists r, intsetSearch s v = Done r /\ search_post l v r.
Proof.
  intros Hr Hf. unfold intsetSearch. pose proof (repr_len _ _ Hr) as Hlen. rewrite Hlen.
  destruct (Z.eqb_spec (Z.of_nat (length l)) 0) as [H0|H0].
  { eexists; split; [reflexivity|]. exists 0%nat. split; [done|]. split; [lia|].
    destruct l; simpl in *; [|lia]. split; intros ?? H; rewrite lookup_nil in H; done. }
  destruct (get_range s l (Z.of_nat (length l) - 1) Hr ltac:(lia)) as (a & Ha & ->).
  rewrite bind_Done, Z.gtb_ltb. destruct (Z.ltb_spec a v).
  { eexists; split; [reflexivity|]. exists (length l). split; [done|]. split; [lia|].
    split; intros i b Hb ?; [|apply lookup_lt_Some in Hb; lia].
    destruct (decide (i = Z.to_nat (Z.of_nat (length l) - 1))) as [->|]; [congruence|].
    assert (b < a) by (eapply (sorted_lookup l); [apply Hr| |exact Hb|exact Ha]; lia). lia. }
  destruct (get_range s l 0 Hr ltac:(lia)) as (b & Hb & ->). rewrite bind_Done.
  destruct (Z.ltb_spec v b).
  { eexists; split; [reflexivity|]. exists 0%nat. split; [done|]. split; [lia|].
    split; intros i c Hc ?; [lia|]. destruct i; [change (Z.to_nat 0) with 0%nat in Hb; congruence|].
    assert (b < c) by (eapply (sorted_lookup l 0); [apply Hr| |exact Hb|exact Hc]; lia). lia. }
  unfold fits in *. rewrite to_s_small by (unfold in_s; lia).
  edestruct (search_loop_spec s l v (S (Z.to_nat (Z.of_nat (length l)))) 0
    (Z.of_nat (length l) - 1) (-1) (-1)) as (x & y & z & -> & Hp);
    try done; try lia; [intros i c Hc ?; apply lookup_lt_Some in Hc; lia|].
  rewrite bind_Done. destruct (v =? z); eauto.
Qed.

(** At most one insertion point, and none for a member. *)
Lemma found_spec l v r :
  StronglySorted Z.lt l -> search_post l v r -> fst r = true <-> v ∈ l.
Proof.
  intros Hs (p & _ & Hp). destruct (fst r); split; try done.
  - intros _. apply list_elem_of_lookup. eauto.
  - intros Hin. destruct Hp as (_ & Hlo & Hhi). apply list_elem_of_lookup in Hin as [i Hi].
    exfalso. destruct (decide (i < p)%nat); [specialize (Hlo i v Hi)|specialize (Hhi i v Hi)]; lia.
Qed.


(** ** Widening in place *)

(** Before turn [length l1] of the loop the array holds [l1] at the old width,
    then bytes of no interest, then [l2] at the new width: the write of the
    turn never reaches a value that has still to be read. *)
Lemma upgrade_loop_spec ce l1 : forall s l2 mid tail prepend,
  valid_enc (encoding s) -> valid_enc ce -> ce <= encoding s -> 0 <= prepend ->
  Forall (in_s (8 * ce)) l1 ->
  contents s = enc_elems (Z.to_nat ce) l1 ++ mid ++ enc_elems (Z.to_nat (encoding s)) l2 ++ tail ->
  Z.of_nat (length l1) * ce + Z.of_nat (length mid) = (Z.of_nat (length l1) + prepend) * encoding s ->
  exists mid', Z.of_nat (length mid') = prepend * encoding s /\
    upgrade_loop (length l1) s prepend ce =
    Done (mkIntset (encoding s) (length_ s)
           (mid' ++ enc_elems (Z.to_nat (encoding s)) (l1 ++ l2) ++ tail)).
Proof.
  induction l1 as [|v l1 IH] using rev_ind; intros s l2 mid tail prepend He Hce Hlt Hpre Hr Hc Hlen.
  - exists mid. simpl in *. rewrite <- Hc. destruct s. simpl in *. split; [lia|done].
  - rewrite length_app in Hlen |- *. simpl in *.
    replace (length l1 + 1)%nat with (S (length l1)) in * by lia. simpl.
    apply Forall_app in Hr as [Hr1 [Hv _]%Forall_cons].
    set (ne := encoding s) in *.
    rewrite (getEncoded_mid s ce l1 v [] (mid ++ enc_elems (Z.to_nat ne) l2 ++ tail)); [|exact Hce|exact Hv|exact Hc].
    rewrite bind_Done.
    set (a := enc_elems (Z.to_nat ce) (l1 ++ [v]) ++ mid) in *.
    set (k := Z.to_nat ((Z.of_nat (length l1) + prepend) * ne)).
    assert (0 < ce /\ ce <= ne) as [Hce0 _] by (destruct Hce as [->|[->| ->]]; lia).
    assert (Hla : Z.of_nat (length a) = (Z.of_nat (length l1) + 1 + prepend) * ne).
    { subst a. rewrite length_app, length_enc, length_app. simpl length. nia. }
    assert (Hk : (k <= length a)%nat) by nia.
    rewrite (set_mid s (take k a) (drop k a) (enc_elems (Z.to_nat ne) l2 ++ tail)); try done.
    2: { rewrite Hc, (app_assoc _ mid). fold a. rewrite (app_assoc (take k a)), take_drop. done. }
    2: { rewrite length_take_le by done. fold ne. nia. }
    2: { rewrite length_drop. fold ne. nia. }
    rewrite bind_Done. fold ne.
    set (k1 := (length l1 * Z.to_nat ce)%nat).
    assert (Hk1 : (k1 <= k)%nat) by nia.
    assert (Htk : take k a = enc_elems (Z.to_nat ce) l1 ++ drop k1 (take k a)).
    { rewrite <- (take_drop k1 (take k a)) at 1. f_equal.
      rewrite take_take, Nat.min_l by done. subst a.
      rewrite enc_app, <- app_assoc. apply take_app_length'. by rewrite length_enc. }
    destruct (IH (mkIntset ne (length_ s) (take k a ++ le_bytes (Z.to_nat ne) v ++ enc_elems (Z.to_nat ne) l2 ++ tail))
      (v :: l2) (drop k1 (take k a)) tail prepend) as (mid' & Hm & Hup); try done.
    + simpl. rewrite Htk at 1. rewrite <- app_assoc. do 2 f_equal.
      rewrite (app_assoc [v] [] l2 : v :: l2 = [v] ++ l2), enc_app, enc_one, <- app_assoc. done.
    + simpl. rewrite length_drop, length_take_le by done. nia.
    + exists mid'. split; [done|]. simpl in Hup. rewrite Hup. rewrite <- (app_assoc l1). done.
Qed.

Lemma valueEncoding_valid v : valid_enc (_intsetValueEncoding v).
Proof. unfold _intsetValueEncoding, valid_enc. repeat case_if; vm_compute; lia. Qed.

Lemma valueEncoding_range v : in_s 64 v -> in_s (8 * _intsetValueEncoding v) v.
Proof.
  unfold _intsetValueEncoding, in_s, INT16_MIN, INT16_MAX, INT32_MIN, INT32_MAX,
    INTSET_ENC_INT64, INTSET_ENC_INT32, INTSET_ENC_INT16.
  intros. repeat case_if; zify_bool; simpl Z.mul; lia.
Qed.

(** A value needs a wider encoding exactly when it is out of range. *)
Lemma valueEncoding_le e v :
  valid_enc e -> in_s 64 v -> (_intsetValueEncoding v <= e <-> in_s (8 * e) v).
Proof.
  unfold _intsetValueEncoding, in_s, INT16_MIN, INT16_MAX, INT32_MIN, INT32_MAX,
    INTSET_ENC_INT64, INTSET_ENC_INT32, INTSET_ENC_INT16.
  intros He Hv. destruct He as [->|[->| ->]]; simpl Z.mul;
  repeat case_if; zify_bool;
  repeat match goal with
  | H : (_ || _)%bool = true |- _ => apply orb_true_iff in H as [?|?]
  end; zify_bool; lia.
Qed.

Lemma in_s_mono w1 w2 z : 0 < w1 -> w1 <= w2 -> in_s w1 z -> in_s w2 z.
Proof.
  unfold in_s. intros. assert (2 ^ (w1 - 1) <= 2 ^ (w2 - 1)) by (apply Z.pow_le_mono_r; lia). lia.
Qed.

Lemma out_of_range_extreme e l v :
  valid_enc e -> Forall (in_s (8 * e)) l -> ~ in_s (8 * e) v ->
  if v <? 0 then forall a, a ∈ l -> v < a else forall a, a ∈ l -> a < v.
Proof.
  intros He Hl Hv. rewrite Forall_forall in Hl.
  assert (0 < 2 ^ (8 * e - 1)) by (apply Z.pow_pos_nonneg; destruct He as [->|[->| ->]]; lia).
  destruct (Z.ltb_spec v 0); intros a Ha; specialize (Hl a Ha); unfold in_s in *; lia.
Qed.


(** The widened elements with the new value in front, or behind. *)
Lemma repr_front ne l v :
  valid_enc ne -> fits l -> Forall (in_s (8 * ne)) (v :: l) -> StronglySorted Z.lt l -> (forall x, x ∈ l -> v < x) ->
  repr (mkIntset ne (to_u 32 (Z.of_nat (length l) + 1)) (enc_elems (Z.to_nat ne) (v :: l))) (v :: l).
Proof.
  intros Hne Hf Hr Hs Hv. unfold fits in Hf. split; cbn [encoding length_ contents]; try done.
  - rewrite to_u_small by (unfold in_u; lia). simpl. lia.
  - constructor; [done|]. rewrite Forall_forall. done.
Qed.

Lemma repr_back ne l v :
  valid_enc ne -> fits l -> Forall (in_s (8 * ne)) (v :: l) -> StronglySorted Z.lt l -> (forall x, x ∈ l -> x < v) ->
  repr (mkIntset ne (to_u 32 (Z.of_nat (length l) + 1)) (enc_elems (Z.to_nat ne) (l ++ [v]))) (l ++ [v]).
Proof.
  intros Hne Hf [Hv Hr]%Forall_cons Hs Hlt. unfold fits in Hf. split; cbn [encoding length_ contents]; try done.
  - rewrite to_u_small by (unfold in_u; lia). rewrite length_app. simpl. lia.
  - apply Forall_app. split; [done|]. by constructor.
  - apply StronglySorted_app. split; [|split; [done|repeat constructor]].
    intros a b Ha Hb%list_elem_of_singleton. subst. auto.
Qed.

Lemma upgradeAndAdd_ok fill s l v :
  repr s l -> fits l -> in_s 64 v -> encoding s < _intsetValueEncoding v ->
  exists s', intsetUpgradeAndAdd fill s v = Done s' /\
    repr s' (if v <? 0 then v :: l else l ++ [v]) /\ encoding s' = _intsetValueEncoding v.
Proof.
  intros Hr Hf Hv Hlt. unfold intsetUpgradeAndAdd, intsetResize. cbn [encoding length_ contents].
  pose proof (valueEncoding_valid v) as Hne. pose proof (valueEncoding_range v Hv) as Hvr.
  destruct Hr as [He Hlen Hc Hrg Hs]. unfold fits in Hf. set (ne := _intsetValueEncoding v) in *.
  assert (0 < encoding s) as He0 by (destruct He as [->|[->| ->]]; lia).
  assert (2 <= ne <= 8) as Hne8 by (destruct Hne as [->|[->| ->]]; lia).
  assert (Hout : ~ in_s (8 * encoding s) v)
    by (intros H; apply (valueEncoding_le _ v He Hv) in H; fold ne in H; lia).
  pose proof (out_of_range_extreme _ l v He Hrg Hout) as Hext.
  rewrite Hlen, to_u_small by (unfold in_u; nia).
  set (n := Z.to_nat ((Z.of_nat (length l) + 1) * ne)).
  assert (Hcl : length (contents s) = (length l * Z.to_nat (encoding s))%nat)
    by (rewrite Hc, length_enc; done).
  unfold buf_resize. rewrite take_ge by nia.
  set (junk := map fill _).
  assert (Hj : Z.of_nat (length junk) = (Z.of_nat (length l) + 1) * ne - Z.of_nat (length l) * encoding s)
    by (unfold junk; rewrite length_map, length_seq; nia).
  set (pre := if v <? 0 then 1 else 0).
  assert (0 <= pre <= 1) as Hpre by (unfold pre; case_if; lia).
  set (m := Z.to_nat ((Z.of_nat (length l) + pre) * ne - Z.of_nat (length l) * encoding s)).
  assert (m <= length junk)%nat by nia. rewrite Nat2Z.id.
  destruct (upgrade_loop_spec (encoding s) l
    (mkIntset ne (Z.of_nat (length l)) (contents s ++ junk)) [] (take m junk) (drop m junk) pre)
    as (mid' & Hm & ->); cbn [encoding length_ contents]; try done; try lia.
  { by rewrite Hc at 1; unfold enc_elems at 2; simpl; rewrite take_drop. }
  { rewrite length_take_le by done. nia. }
  rewrite bind_Done, app_nil_r. cbn [encoding length_ contents] in *.
  assert (Hrg' : Forall (in_s (8 * ne)) l)
    by (eapply Forall_impl; [exact Hrg|]; intros; eapply in_s_mono; [| |done]; lia).
  unfold pre in *; clear pre; destruct (v <? 0); [rewrite (Z.eqb_refl 1)|rewrite (proj2 (Z.eqb_neq 0 1)) by lia].
  - rewrite (set_mid _ [] mid' (enc_elems (Z.to_nat ne) l ++ drop m junk)); cbn [encoding length_ contents].
    2: done. 2: done. 2: simpl; lia. 2: lia.
    rewrite bind_Done. cbn [encoding length_ contents app]. eexists; split; [reflexivity|].
    split; [|done]. assert (drop m junk = []) as -> by (apply drop_ge; nia).
    rewrite app_nil_r. by apply repr_front; [..|by constructor| |].
  - assert (mid' = []) as -> by (destruct mid'; simpl in *; [done|lia]).
    rewrite (set_mid _ (enc_elems (Z.to_nat ne) l) (drop m junk) []); cbn [encoding length_ contents].
    2: done. 2: by rewrite app_nil_r. 2: rewrite length_enc; lia. 2: rewrite length_drop; nia.
    rewrite bind_Done. cbn [encoding length_ contents app]. eexists; split; [reflexivity|].
    split; [|done]. rewrite app_nil_r, <- enc_one, <- enc_app. by apply repr_back; [..|by constructor| |].
Qed.

(** ** Insertion and removal at a position *)

Lemma insert_sorted l v p :
  StronglySorted Z.lt l -> ins_point l v p -> StronglySorted Z.lt (take p l ++ v :: drop p l).
Proof.
  intros Hs (Hp & Hlo & Hhi). rewrite <- (take_drop p l) in Hs.
  apply StronglySorted_app in Hs as (H12 & H1 & H2). apply StronglySorted_app.
  assert (Hd : forall b, b ∈ drop p l -> v < b).
  { intros b [i Hi]%list_elem_of_lookup. rewrite lookup_drop in Hi. eapply Hhi; eauto. lia. }
  split; [|split; [done|constructor; [done|by rewrite Forall_forall]]].
  intros a b Ha Hb.
  assert (a < v).
  { apply list_elem_of_lookup in Ha as [i Hi]. apply lookup_take_Some in Hi as [Hi ?]. eauto. }
  apply elem_of_cons in Hb as [->|Hb]; [done|]. specialize (Hd b Hb). lia.
Qed.

Lemma moveTail_up s l p d :
  valid_enc (encoding s) -> length_ s = Z.of_nat (length l) -> fits l -> (p <= length l)%nat ->
  contents s = enc_elems (Z.to_nat (encoding s)) l ++ d -> Z.of_nat (length d) = encoding s ->
  exists g, length g = Z.to_nat (encoding s) /\
  intsetMoveTail s (Z.of_nat p) (Z.of_nat p + 1) =
  Done (mkIntset (encoding s) (length_ s)
         (enc_elems (Z.to_nat (encoding s)) (take p l) ++ g ++ enc_elems (Z.to_nat (encoding s)) (drop p l))).
Proof.
  intros He Hlen Hf Hp Hc Hd. unfold fits in Hf. rewrite moveTail_stride by done.
  assert (0 < encoding s <= 8) as He8 by (destruct He as [->|[->| ->]]; lia).
  set (e := encoding s) in *. rewrite Hlen, Hc.
  rewrite !to_u_small by (unfold in_u; repeat rewrite to_u_small by (unfold in_u; lia); nia).
  assert (enc_elems (Z.to_nat e) l = enc_elems (Z.to_nat e) (take p l) ++ enc_elems (Z.to_nat e) (drop p l))
    as Hsp by (rewrite <- enc_app, take_drop; done).
  unfold buf_move. rewrite Hsp, <- app_assoc.
  rewrite buf_get_mid by (rewrite length_enc, ?length_take_le, ?length_drop; nia).
  rewrite bind_Done.
  set (t := enc_elems (Z.to_nat e) (drop p l) ++ d).
  assert (Hlt : length t = ((length l - p + 1) * Z.to_nat e)%nat)
    by (unfold t; rewrite length_app, length_enc, length_drop; nia).
  exists (take (Z.to_nat e) t). split; [rewrite length_take; nia|].
  rewrite <- (take_drop (Z.to_nat e) t) at 1.
  rewrite <- (app_nil_r (drop (Z.to_nat e) t)), app_assoc.
  rewrite buf_put_mid; [by rewrite bind_Done, app_nil_r, <- app_assoc|..].
  - rewrite length_app, length_enc, !length_take_le by nia. nia.
  - rewrite length_enc, !length_drop. nia.
Qed.

Lemma moveTail_down s l1 x l2 :
  valid_enc (encoding s) -> length_ s = Z.of_nat (length (l1 ++ x :: l2)) -> fits (l1 ++ x :: l2) ->
  contents s = enc_elems (Z.to_nat (encoding s)) (l1 ++ x :: l2) ->
  exists g,
  intsetMoveTail s (Z.of_nat (length l1) + 1) (Z.of_nat (length l1)) =
  Done (mkIntset (encoding s) (length_ s) (enc_elems (Z.to_nat (encoding s)) (l1 ++ l2) ++ g)).
Proof.
  intros He Hlen Hf Hc. unfold fits in Hf. rewrite moveTail_stride by done.
  assert (0 < encoding s <= 8) as He8 by (destruct He as [->|[->| ->]]; lia).
  set (e := encoding s) in *. rewrite length_app in Hf, Hlen. simpl in Hf, Hlen. rewrite Hlen, Hc.
  rewrite !to_u_small by (unfold in_u; repeat rewrite to_u_small by (unfold in_u; lia); nia).
  unfold buf_move.
  rewrite (app_assoc l1 [x] l2 : l1 ++ x :: l2 = _), (enc_app _ (l1 ++ [x])).
  rewrite <- (app_nil_r (enc_elems _ l2)).
  rewrite buf_get_mid by (rewrite length_enc, ?length_app; simpl; nia). rewrite bind_Done.
  rewrite enc_app, app_nil_r, <- app_assoc.
  set (t := enc_elems (Z.to_nat e) [x] ++ enc_elems (Z.to_nat e) l2).
  exists (drop (length l2 * Z.to_nat e) t). rewrite <- (take_drop (length l2 * Z.to_nat e) t) at 1.
  rewrite buf_put_mid; [by rewrite bind_Done, app_assoc, <- enc_app|rewrite length_enc; nia|].
  rewrite length_enc, length_take. unfold t. rewrite length_app, !length_enc. simpl. nia.
Qed.


Lemma add_in_place fill s l v p :
  repr s l -> fits l -> in_s (8 * encoding s) v -> ins_point l v p ->
  exists s2 s3,
    (if Z.of_nat p <? length_ (intsetResize fill s (length_ s + 1))
     then intsetMoveTail (intsetResize fill s (length_ s + 1)) (Z.of_nat p) (Z.of_nat p + 1)
     else mret (intsetResize fill s (length_ s + 1))) = Done s2 /\
    _intsetSet s2 (Z.of_nat p) v = Done s3 /\
    repr (mkIntset (encoding s3) (to_u 32 (length_ s3 + 1)) (contents s3)) (take p l ++ v :: drop p l).
Proof.
  intros [He Hlen Hc Hrg Hs] Hf Hv Hip. pose proof (insert_sorted l v p Hs Hip) as Hs'.
  destruct Hip as (Hp & _). unfold fits in Hf.
  assert (0 < encoding s <= 8) as He8 by (destruct He as [->|[->| ->]]; lia).
  unfold intsetResize. cbn [length_]. rewrite Hlen, to_u_small by (unfold in_u; nia).
  unfold buf_resize. rewrite take_ge by (rewrite Hc, length_enc; nia).
  set (junk := map fill _).
  assert (Hj : Z.of_nat (length junk) = encoding s)
    by (unfold junk; rewrite length_map, length_seq, Hc, length_enc; nia).
  set (s1 := mkIntset _ _ _).
  assert (exists g s2, length g = Z.to_nat (encoding s) /\
    (if Z.of_nat p <? Z.of_nat (length l) then intsetMoveTail s1 (Z.of_nat p) (Z.of_nat p + 1) else mret s1) = Done s2 /\
    s2 = mkIntset (encoding s) (Z.of_nat (length l))
          (enc_elems (Z.to_nat (encoding s)) (take p l) ++ g ++ enc_elems (Z.to_nat (encoding s)) (drop p l)))
    as (g & s2 & Hg & Hmv & ->).
  { destruct (Z.ltb_spec (Z.of_nat p) (Z.of_nat (length l))).
    - destruct (moveTail_up s1 l p junk) as (g & Hg & Hm); try done; [by subst s1; simpl; rewrite Hc|].
      rewrite Hm. eauto.
    - exists junk. eexists. split; [lia|]. split; [reflexivity|]. subst s1. rewrite Hc.
      rewrite (take_ge l p), (drop_ge l p) by lia. unfold enc_elems at 3. simpl. rewrite app_nil_r. done. }
  rewrite Hmv. do 2 eexists. split; [reflexivity|].
  rewrite (set_mid _ (enc_elems (Z.to_nat (encoding s)) (take p l)) g (enc_elems (Z.to_nat (encoding s)) (drop p l)));
    cbn [encoding length_ contents]; try done; [|rewrite length_enc, length_take_le by done; nia|lia].
  split; [reflexivity|]. cbn [encoding length_ contents].
  split; cbn [encoding length_ contents]; try done.
  - rewrite to_u_small by (unfold in_u; lia). rewrite length_app, length_take_le by done.
    simpl. rewrite length_drop. lia.
  - rewrite enc_app, (app_assoc [v] [] _ : v :: drop p l = [v] ++ drop p l), enc_app, enc_one. done.
  - apply Forall_app; split; [by apply Forall_take|]. constructor; [done|]. by apply Forall_drop.
Qed.

(** Adding a value to a well-formed intset: no access is out of bounds, the
    result is well formed, its elements are the old ones and the value, and
    [*success] says whether it is new. *)
Lemma add_ok fill s l v :
  repr s l -> fits l -> in_s 64 v ->
  exists s' l' ok, intsetAdd fill s v = Done (s', ok) /\ repr s' l' /\
    (ok = true <-> v ∉ l) /\ (forall x, x ∈ l' <-> x = v \/ x ∈ l).
Proof.
  intros Hr Hf Hv. unfold intsetAdd. rewrite Z.gtb_ltb.
  destruct (Z.ltb_spec (encoding s) (_intsetValueEncoding v)) as [Hlt|Hle].
  - destruct (upgradeAndAdd_ok fill s l v Hr Hf Hv Hlt) as (s' & -> & Hr' & _).
    exists s', (if v <? 0 then v :: l else l ++ [v]), true. split; [done|]. split; [done|].
    assert (~ in_s (8 * encoding s) v) as Hout.
    { intros H. apply valueEncoding_le in H; [lia|apply Hr|done]. }
    split; [split; [|done]|].
    + intros _ Hin. apply Hout. eapply (proj1 (Forall_forall _ _)); [apply Hr|done].
    + intros x. destruct (v <? 0); set_solver.
  - destruct (search_ok s l v Hr Hf) as ([found pos] & -> & Hpost). rewrite bind_Done.
    pose proof (found_spec l v _ (repr_sorted _ _ Hr) Hpost) as Hfd. simpl in Hfd.
    destruct found.
    + exists s, l, false. split; [done|]. split; [done|]. split; [|intros x; set_solver].
      split; [done|]. intros Hn. destruct Hn. by apply Hfd.
    + destruct Hpost as (p & Hp & Hip). simpl in Hp, Hip. subst pos.
      assert (in_s (8 * encoding s) v) as Hin by (apply valueEncoding_le; [apply Hr|done|done]).
      destruct (add_in_place fill s l v p Hr Hf Hin Hip) as (s2 & s3 & -> & Hset & Hr').
      rewrite bind_Done, Hset, bind_Done. do 3 eexists. split; [reflexivity|]. split; [exact Hr'|].
      split; [split; [|done]; intros _ Hn; apply Hfd in Hn; done|].
      intros x. rewrite elem_of_app, elem_of_cons. rewrite <- (take_drop p l) at 3.
      rewrite elem_of_app. tauto.
Qed.

Lemma remove_at fill s l1 x l2 :
  repr s (l1 ++ x :: l2) -> fits (l1 ++ x :: l2) ->
  exists s1, (if Z.of_nat (length l1) <? length_ s - 1
              then intsetMoveTail s (Z.of_nat (length l1) + 1) (Z.of_nat (length l1)) else mret s) = Done s1 /\
    repr (mkIntset (encoding (intsetResize fill s1 (length_ s - 1))) (length_ s - 1)
           (contents (intsetResize fill s1 (length_ s - 1)))) (l1 ++ l2).
Proof.
  intros [He Hlen Hc Hrg Hs] Hf.
  assert (exists s1 g, (if Z.of_nat (length l1) <? length_ s - 1
      then intsetMoveTail s (Z.of_nat (length l1) + 1) (Z.of_nat (length l1)) else mret s) = Done s1 /\
      s1 = mkIntset (encoding s) (length_ s) (enc_elems (Z.to_nat (encoding s)) (l1 ++ l2) ++ g))
    as (s1 & g & Hmv & ->).
  { destruct (Z.ltb_spec (Z.of_nat (length l1)) (length_ s - 1)).
    - destruct (moveTail_down s l1 x l2) as (g & Hm); try done. eauto.
    - assert (l2 = []) as -> by (rewrite Hlen, length_app in *; destruct l2; simpl in *; [done|lia]).
      exists s, (le_bytes (Z.to_nat (encoding s)) x). split; [done|]. rewrite app_nil_r.
      destruct s; simpl in *. rewrite Hc, enc_app, enc_one. done. }
  eexists. split; [exact Hmv|]. unfold intsetResize, fits in *. cbn [encoding length_ contents].
  rewrite length_app in Hlen, Hf. simpl in Hlen, Hf.
  assert (0 < encoding s <= 8) as He8 by (destruct He as [->|[->| ->]]; lia).
  rewrite Hlen, to_u_small by (unfold in_u; nia).
  apply Forall_app in Hrg as [Hr1 [_ Hr2]%Forall_cons].
  apply StronglySorted_app in Hs as (H12 & Hs1 & [Hx Hs2]%StronglySorted_cons).
  split; cbn [encoding length_ contents]; try done.
  - rewrite length_app. lia.
  - unfold buf_resize. rewrite length_app, length_enc, length_app.
    rewrite (take_app_length' _ g) by (rewrite length_enc, length_app; nia).
    match goal with |- _ ++ map _ (seq _ ?k) = _ => assert (k = 0%nat) as -> by nia end.
    apply app_nil_r.
  - by apply Forall_app.
  - apply StronglySorted_app. split; [|done]. intros; apply H12; [done|]. by right.
Qed.

Lemma remove_ok fill s l v :
  repr s l -> fits l -> in_s 64 v ->
  exists s' l' ok, intsetRemove fill s v = Done (s', ok) /\ repr s' l' /\
    (ok = true <-> v ∈ l) /\ (forall x, x ∈ l' <-> x <> v /\ x ∈ l).
Proof.
  intros Hr Hf Hv. unfold intsetRemove.
  assert (Hno : v ∉ l -> forall x, x ∈ l <-> x <> v /\ x ∈ l) by set_solver.
  destruct (Z.leb_spec (_intsetValueEncoding v) (encoding s)) as [Hle|Hlt].
  - destruct (search_ok s l v Hr Hf) as ([found pos] & -> & Hpost). rewrite bind_Done.
    pose proof (found_spec l v _ (repr_sorted _ _ Hr) Hpost) as Hfd. simpl in Hfd.
    destruct found.
    + destruct Hpost as (p & Hp & Hl). simpl in Hp, Hl. subst pos.
      pose proof (take_drop_middle l p v Hl) as Hm.
      assert (Hlp : length (take p l) = p) by (rewrite length_take_le; [done|]; apply lookup_lt_Some in Hl; lia).
      rewrite <- Hm in Hr, Hf. destruct (remove_at fill s _ v _ Hr Hf) as (s1 & Hmv & Hr').
      rewrite Hlp in Hmv. rewrite Hmv, bind_Done. do 3 eexists. split; [reflexivity|].
      split; [exact Hr'|]. split; [done|]. intros x.
      assert (x ∈ l <-> x ∈ take p l \/ x = v \/ x ∈ drop (S p) l) as ->
        by (rewrite <- Hm at 1; rewrite elem_of_app, elem_of_cons; done).
      pose proof (repr_sorted _ _ Hr) as Hs. apply StronglySorted_app in Hs as (H12 & _ & [Hx _]%StronglySorted_cons).
      rewrite Forall_forall in Hx. rewrite elem_of_app. split; [|tauto].
      intros [H|H]; (split; [intros ->|tauto]).
      * specialize (H12 v v H ltac:(by left)). lia.
      * specialize (Hx v H). lia.
    + exists s, l, false. split; [done|]. split; [done|]. split; [done|]. apply Hno.
      intros Hn. apply Hfd in Hn. done.
  - exists s, l, false. split; [done|]. split; [done|].
    assert (v ∉ l) as Hn.
    { intros Hin. eapply (proj1 (Forall_forall _ _)) in Hin; [|apply Hr].
      apply valueEncoding_le in Hin; [lia|apply Hr|done]. }
    split; [done|]. by apply Hno.
Qed.


Lemma find_ok s l v :
  repr s l -> fits l -> in_s 64 v -> exists b, intsetFind s v = Done b /\ (b = true <-> v ∈ l).
Proof.
  intros Hr Hf Hv. unfold intsetFind.
  destruct (Z.leb_spec (_intsetValueEncoding v) (encoding s)).
  - destruct (search_ok s l v Hr Hf) as (r & -> & Hpost). rewrite bind_Done.
    eexists; split; [reflexivity|]. apply found_spec; [apply Hr|done].
  - eexists; split; [reflexivity|]. split; [done|]. intros Hin. exfalso.
    eapply (proj1 (Forall_forall _ _)) in Hin; [|apply Hr].
    apply valueEncoding_le in Hin; [lia|apply Hr|done].
Qed.

Lemma new_repr : repr intsetNew [].
Proof. split; simpl; try constructor. done. Qed.

(** Random choice picks a member. *)
Lemma random_member s l r :
  repr s l -> l <> [] -> exists v, intsetRandom s r = Done v /\ v ∈ l.
Proof.
  intros Hr Hl. unfold intsetRandom. pose proof (repr_len _ _ Hr) as Hlen. rewrite Hlen.
  assert (0 < Z.of_nat (length l)) by (destruct l; simpl; [done|lia]).
  rewrite (proj2 (Z.eqb_neq _ _)) by lia.
  destruct (get_range s l (r mod Z.of_nat (length l)) Hr) as (v & Hv & ->);
    [apply Z.mod_pos_bound; lia|].
  exists v. split; [done|]. apply list_elem_of_lookup. eauto.
Qed.

(** ** The abstract set, and runs of operations *)
Inductive op := OAdd (v : Z) | ORemove (v : Z) | OFind (v : Z).

Definition op_arg (o : op) : Z := match o with OAdd v | ORemove v | OFind v => v end.

Definition step_impl (fill : nat -> Z) (s : intset) (o : op) : outcome (intset * bool) :=
  match o with
  | OAdd v => intsetAdd fill s v
  | ORemove v => intsetRemove fill s v
  | OFind v => b ← intsetFind s v; mret (s, b)
  end.

Definition step_spec (X : gset Z) (o : op) : gset Z * bool :=
  match o with
  | OAdd v => ({[v]} ∪ X, bool_decide (v ∉ X))
  | ORemove v => (X ∖ {[v]}, bool_decide (v ∈ X))
  | OFind v => (X, bool_decide (v ∈ X))
  end.

Fixpoint run_impl (fill : nat -> Z) (s : intset) (os : list op) : outcome (intset * list bool) :=
  match os with
  | [] => mret (s, [])
  | o :: r =>
    p ← step_impl fill s o;
    q ← run_impl fill (fst p) r;
    mret (fst q, snd p :: snd q)
  end.

Fixpoint run_spec (X : gset Z) (os : list op) : gset Z * list bool :=
  match os with
  | [] => (X, [])
  | o :: r => let '(X1, b) := step_spec X o in let '(X2, bs) := run_spec X1 r in (X2, b :: bs)
  end.

(** The simulation relation. *)
Definition denotes (s : intset) (X : gset Z) : Prop :=
  exists l, repr s l /\ (forall x, x ∈ X <-> x ∈ l).

Lemma denotes_fits s (X : gset Z) l :
  repr s l -> (forall x, x ∈ X <-> x ∈ l) -> length l = size X.
Proof.
  intros Hr HX. replace X with (list_to_set l : gset Z)
    by (apply set_eq; intros x; rewrite elem_of_list_to_set; symmetry; apply HX).
  symmetry. apply size_list_to_set. pose proof (repr_sorted _ _ Hr) as Hs.
  clear HX Hr. induction Hs as [|a l Hs IH Ha]; [constructor|]. constructor; [|done].
  intros Hin. rewrite Forall_forall in Ha. specialize (Ha a Hin). lia.
Qed.

Lemma iff_bool_decide (P : Prop) `{!Decision P} b : (b = true <-> P) -> b = bool_decide P.
Proof. intros H. destruct b; [symmetry; apply bool_decide_eq_true|symmetry; apply bool_decide_eq_false]; naive_solver. Qed.

Lemma step_simulation fill s (X : gset Z) o :
  denotes s X -> (Z.of_nat (size X) + 1) * 8 < 2 ^ 32 -> in_s 64 (op_arg o) ->
  exists s', step_impl fill s o = Done (s', snd (step_spec X o)) /\ denotes s' (fst (step_spec X o)).
Proof.
  intros (l & Hr & HX) Hsz Hv. assert (Hf : fits l) by (unfold fits; erewrite denotes_fits; eauto).
  destruct o as [v|v|v]; simpl in *.
  - destruct (add_ok fill s l v Hr Hf Hv) as (s' & l' & ok & -> & Hr' & Hok & Hl'). exists s'.
    split; [|exists l'; split; [done|]; intros x; rewrite Hl', elem_of_union, elem_of_singleton, HX; done].
    do 2 f_equal. apply iff_bool_decide. by rewrite HX.
  - destruct (remove_ok fill s l v Hr Hf Hv) as (s' & l' & ok & -> & Hr' & Hok & Hl'). exists s'.
    split; [|exists l'; split; [done|]; intros x; rewrite Hl', elem_of_difference, elem_of_singleton, HX; tauto].
    do 2 f_equal. apply iff_bool_decide. by rewrite HX.
  - destruct (find_ok s l v Hr Hf Hv) as (b & -> & Hb). exists s. rewrite bind_Done.
    split; [|by exists l]. unfold mret, outcome_ret. do 2 f_equal. apply iff_bool_decide. by rewrite HX.
Qed.

Lemma step_spec_size X o : (size (fst (step_spec X o)) <= size X + 1)%nat.
Proof.
  destruct o as [v|v|v]; simpl; [| |lia].
  - rewrite size_union_alt, size_singleton. pose proof (subseteq_size (X ∖ {[v]}) X). 
    assert (X ∖ {[v]} ⊆ X) by set_solver. naive_solver lia.
  - pose proof (subseteq_size (X ∖ {[v]}) X ltac:(set_solver)). lia.
Qed.

Lemma run_simulation fill os : forall s (X : gset Z),
  denotes s X -> Forall (fun o => in_s 64 (op_arg o)) os ->
  (Z.of_nat (size X) + Z.of_nat (length os)) * 8 < 2 ^ 32 ->
  exists s', run_impl fill s os = Done (s', snd (run_spec X os)) /\ denotes s' (fst (run_spec X os)).
Proof.
  induction os as [|o os IH]; intros s X HX Ho Hsz; simpl.
  - eauto.
  - apply Forall_cons in Ho as [Ho Hos].
    destruct (step_simulation fill s X o HX) as (s1 & -> & H1); [simpl in Hsz; lia|done|].
    rewrite bind_Done. pose proof (step_spec_size X o).
    destruct (step_spec X o) as [X1 b]. simpl in *.
    destruct (IH s1 X1 H1 Hos ltac:(lia)) as (s2 & -> & H2). rewrite bind_Done.
    destruct (run_spec X1 os) as [X2 bs]. simpl in *. eauto.
Qed.

(** C30: A run of intsetAdd, intsetRemove and intsetFind from the empty intset
    answers exactly as a mathematical set does, makes no access outside the
    byte array and never runs out of turns in the binary search; at the end
    the bytes are the elements of that set in increasing order.  The bound
    says that the 32-bit byte size of intsetResize cannot wrap. *)
Theorem intset_refines_set (fill : nat -> Z) (os : list op) :
  Forall (fun o => in_s 64 (op_arg o)) os ->
  Z.of_nat (length os) * 8 < 2 ^ 32 ->
  exists s, run_impl fill intsetNew os = Done (s, snd (run_spec ∅ os)) /\
    exists l, repr s l /\ (forall x, x ∈ fst (run_spec ∅ os) <-> x ∈ l).
Proof.
  intros Hv Hlen. apply (run_simulation fill os intsetNew ∅); [|done|by rewrite size_empty].
  exists []. split; [apply new_repr|]. set_solver.
Qed.

Lemma intset_refines_set_witness :
  exists s, run_impl (fun _ => 9) intsetNew [OAdd 5; OAdd (-70000); OAdd 5; ORemove 5; OFind (-70000)]
    = Done (s, [true; true; false; true; true]).
Proof.
  destruct (intset_refines_set (fun _ => 9) [OAdd 5; OAdd (-70000); OAdd 5; ORemove 5; OFind (-70000)])
    as (s & H & _).
  - repeat constructor; vm_compute; intuition congruence.
  - reflexivity.
  - exists s. exact H.
Defined.

(** intsetSearch on a well-formed intset terminates within its turns and
    returns the position of the value when it is a member, and otherwise the
    position below which every element is smaller and from which every
    element is larger: the place where intsetAdd inserts it. *)
Theorem intsetSearch_correct (s : intset) (l : list Z) (v : Z) :
  repr s l -> fits l ->
  exists found p, intsetSearch s v = Done (found, Z.of_nat p) /\
    (found = true <-> v ∈ l) /\
    (if found then l !! p = Some v
     else (forall i a, l !! i = Some a -> (i < p)%nat -> a < v) /\
          (forall i a, l !! i = Some a -> (p <= i)%nat -> v < a)).
Proof.
  intros Hr Hf. destruct (search_ok s l v Hr Hf) as ([found pos] & -> & Hpost).
  pose proof (found_spec l v _ (repr_sorted _ _ Hr) Hpost) as Hfd.
  destruct Hpost as (p & Hp & H). simpl in *. subst pos. exists found, p. split; [done|].
  split; [done|]. destruct found; [done|]. destruct H as (_ & ? & ?). done.
Qed.

Definition three : intset := mkIntset 2 3 (le_bytes 2 (-3) ++ le_bytes 2 10 ++ le_bytes 2 300).

Lemma intsetSearch_correct_witness :
  exists found p, intsetSearch three 10 = Done (found, Z.of_nat p).
Proof.
  destruct (intsetSearch_correct three [-3; 10; 300] 10) as (f & p & H & _).
  - split; [left; reflexivity|reflexivity|reflexivity| |].
    + repeat constructor; vm_compute; intuition congruence.
    + repeat constructor; lia.
  - vm_compute. reflexivity.
  - exists f, p. exact H.
Defined.

(** intsetUpgradeAndAdd widens the elements in place, back to front,
    without overwriting a value it has not read yet: the result holds the same
    elements at the wider encoding, with the new value in front when it is
    negative and at the end otherwise. *)
Theorem intsetUpgradeAndAdd_correct (fill : nat -> Z) (s : intset) (l : list Z) (v : Z) :
  repr s l -> fits l -> in_s 64 v -> encoding s < _intsetValueEncoding v ->
  exists s', intsetUpgradeAndAdd fill s v = Done s' /\
    repr s' (if v <? 0 then v :: l else l ++ [v]) /\ encoding s' = _intsetValueEncoding v.
Proof. apply upgradeAndAdd_ok. Qed.

Lemma intsetUpgradeAndAdd_correct_witness :
  exists s', intsetUpgradeAndAdd (fun _ => 1) three (-40000) = Done s' /\ repr s' [-40000; -3; 10; 300].
Proof.
  destruct (intsetUpgradeAndAdd_correct (fun _ => 1) three [-3; 10; 300] (-40000)) as (s & H & Hr & _).
  - split; [left; reflexivity|reflexivity|reflexivity| |].
    + repeat constructor; vm_compute; intuition congruence.
    + repeat constructor; lia.
  - vm_compute. reflexivity.
  - vm_compute. intuition congruence.
  - vm_compute. reflexivity.
  - exists s. split; [exact H|exact Hr].
Defined.


Example intset_ex :
  (s ← intsetAdd (fun _ => 7) intsetNew 5; s ← intsetAdd (fun _ => 7) (fst s) (-40000);
   s ← intsetAdd (fun _ => 7) (fst s) 6; s ← intsetAdd (fun _ => 7) (fst s) 4294967296;
   s ← intsetRemove (fun _ => 7) (fst s) 5; mret s)
  = Done (mkIntset 8 3 (le_bytes 8 (-40000) ++ le_bytes 8 6 ++ le_bytes 8 4294967296), true).
Proof. vm_compute. reflexivity. Qed.
End Intset.
