(* ===== verification/CStr.v ===== *)
(** * Byte strings, and the C library functions on them that the server uses

    An [sds] string is a list of bytes; the terminating NUL that every sds
    buffer has after its last byte is not part of the list.  The functions of
    <string.h> see the string up to its first NUL: [cstr]. *)
From S2P Require Import Prelude.
From Stdlib Require Export Ascii.
#[global] Open Scope list_scope.
#[global] Open Scope Z_scope.

Abbreviation sds := (list ascii) (only parsing).

Definition str (s : string) : sds := String.list_ascii_of_string s.

(** [code c]: the byte as an unsigned char; [schar c]: as a (signed) char. *)
Definition code (c : ascii) : Z := Z.of_N (N_of_ascii c).
Definition schar (c : ascii) : Z := to_s 8 (code c).
Definition chr (z : Z) : ascii := Ascii.ascii_of_N (Z.to_N z).

Definition NUL : ascii := "000".

Definition sdslen (s : sds) : Z := Z.of_nat (length s).

Fixpoint cstr (s : sds) : sds :=
  match s with
  | [] => []
  | c :: r => if decide (c = NUL) then [] else c :: cstr r
  end.

Definition strlen (s : sds) : Z := Z.of_nat (length (cstr s)).

Definition is_digit (c : ascii) : bool := (48 <=? code c) && (code c <=? 57).
Definition is_upper (c : ascii) : bool := (65 <=? code c) && (code c <=? 90).
Definition is_lower (c : ascii) : bool := (97 <=? code c) && (code c <=? 122).
Definition is_space (c : ascii) : bool :=
  (code c =? 32) || ((9 <=? code c) && (code c <=? 13)).
Definition tolower (c : ascii) : ascii := if is_upper c then chr (code c + 32) else c.
Definition toupper (c : ascii) : ascii := if is_lower c then chr (code c - 32) else c.

(** [strcmp(a,b) == 0], [strcasecmp(a,b) == 0], [strncasecmp(a,b,n) == 0] *)
Definition strcmp_eq (a b : sds) : bool := bool_decide (cstr a = cstr b).
Definition strcasecmp_eq (a b : sds) : bool :=
  bool_decide (map tolower (cstr a) = map tolower (cstr b)).
Definition strncasecmp_eq (a b : sds) (n : nat) : bool :=
  bool_decide (take n (map tolower (cstr a)) = take n (map tolower (cstr b))).

(** [memcmp] on the common prefix: the difference of the first bytes that differ. *)
Fixpoint memcmp (s t : sds) : Z :=
  match s, t with
  | a :: s', b :: t' => if code a =? code b then memcmp s' t' else code a - code b
  | _, _ => 0
  end.

(** The last occurrence of [c]: the bytes before it, and the bytes from it on. *)
Fixpoint rsplit (c : ascii) (s : sds) : option (sds * sds) :=
  match s with
  | [] => None
  | a :: r =>
    match rsplit c r with
    | Some (p, q) => Some (a :: p, q)
    | None => if decide (a = c) then Some ([], a :: r) else None
    end
  end.

(** [strrchr(s,c)]: the suffix that the returned pointer points to. *)
Definition strrchr (s : sds) (c : ascii) : option sds := snd <$> rsplit c (cstr s).

(** [strtol(s,NULL,10)] and [atoi(s)]: leading white space, a sign, digits;
    out of range saturates, and [atoi] converts the long to an int. *)
Fixpoint skip_space (s : sds) : sds :=
  match s with
  | [] => []
  | c :: r => if is_space c then skip_space r else s
  end.

Fixpoint digits_val (acc : Z) (s : sds) : Z :=
  match s with
  | [] => acc
  | c :: r => if is_digit c then digits_val (acc * 10 + (code c - 48)) r else acc
  end.

Definition strtol (s : sds) : Z :=
  let t := skip_space (cstr s) in
  let v := match t with
           | "-"%char :: r => - digits_val 0 r
           | "+"%char :: r => digits_val 0 r
           | _ => digits_val 0 t
           end in
  Z.max INT64_MIN (Z.min INT64_MAX v).

(** [strtoll(s,&eptr,10)]: the value, the bytes at [eptr] and whether [errno]
    is ERANGE.  With no digit at all, [eptr] is [s]. *)
Definition strtoll (s : sds) : Z * sds * bool :=
  let c := cstr s in
  let t := skip_space c in
  let '(neg, d) := match t with
                   | "-"%char :: r => (true, r)
                   | "+"%char :: r => (false, r)
                   | _ => (false, t)
                   end in
  let k := (fix span (u : sds) : nat := match u with
             | x :: r => if is_digit x then S (span r) else O
             | [] => O end) d in
  if decide (k = O) then (0, c, false)
  else
    let v := digits_val 0 d in
    let v := if (neg : bool) then - v else v in
    (Z.max INT64_MIN (Z.min INT64_MAX v), drop k d, (v <? INT64_MIN) || (v >? INT64_MAX)).

Definition atoi (s : sds) : Z := to_s 32 (strtol s).

(** [strtok] with a one-character delimiter: the token and where the next call
    resumes.  Leading delimiters are skipped; [None] is the NULL result. *)
Fixpoint skip_delim (d : ascii) (s : sds) : sds :=
  match s with
  | [] => []
  | c :: r => if decide (c = d) then skip_delim d r else s
  end.

Fixpoint until_delim (d : ascii) (s : sds) : sds * sds :=
  match s with
  | [] => ([], [])
  | c :: r => if decide (c = d) then ([], r) else
              let '(t, rest) := until_delim d r in (c :: t, rest)
  end.

Definition strtok (d : ascii) (s : sds) : option (sds * sds) :=
  match skip_delim d s with
  | [] => None
  | t => Some (until_delim d t)
  end.

(** ** Lemmas *)

Lemma code_range c : 0 <= code c < 256.
Proof. unfold code. pose proof (N_ascii_bounded c). lia. Qed.

Lemma chr_code c : chr (code c) = c.
Proof. unfold chr, code. rewrite N2Z.id. apply ascii_N_embedding. Qed.

Lemma code_chr z : 0 <= z < 256 -> code (chr z) = z.
Proof. intros. unfold chr, code. rewrite N_ascii_embedding by lia. lia. Qed.

Lemma cstr_id s : NUL ∉ s -> cstr s = s.
Proof.
  induction s as [|c r IH]; intros Hn; simpl; [done|].
  apply not_elem_of_cons in Hn as [? ?]. rewrite decide_False by congruence. by rewrite IH.
Qed.

Lemma cstr_no_nul s : NUL ∉ cstr s.
Proof.
  induction s as [|c r IH]; simpl; [apply not_elem_of_nil|].
  destruct (decide (c = NUL)); [apply not_elem_of_nil|]. apply not_elem_of_cons. done.
Qed.

Lemma rsplit_None c s : rsplit c s = None <-> c ∉ s.
Proof.
  induction s as [|a r IH]; simpl; [split; [intros _; apply not_elem_of_nil|done]|].
  rewrite not_elem_of_cons. destruct (rsplit c r) as [[p q]|].
  - split; [done|]. intros [_ H]. apply IH in H. done.
  - destruct (decide (a = c)); split; naive_solver.
Qed.

Lemma rsplit_Some c s p q :
  rsplit c s = Some (p, q) <-> exists t, q = c :: t /\ s = p ++ q /\ c ∉ t.
Proof.
  revert p q. induction s as [|a r IH]; intros p q; simpl.
  { split; [done|]. intros (t & -> & H & _). by destruct p. }
  destruct (rsplit c r) as [[p' q']|] eqn:Hr.
  - split.
    + intros H. injection H as <- <-. destruct (proj1 (IH p' q') eq_refl) as (t & -> & -> & ?).
      exists t. done.
    + intros (t & -> & Heq & Ht). destruct p as [|x p]; simpl in Heq; injection Heq as -> Heq.
      * subst r. exfalso. destruct (proj1 (IH p' q') eq_refl) as (t' & -> & -> & _).
        apply Ht. apply elem_of_app. right. by left.
      * assert (H := proj2 (IH p (c :: t)) ltac:(eauto)). congruence.
  - assert (Hn : c ∉ r) by (by apply rsplit_None). destruct (decide (a = c)) as [->|Hne].
    + split; [intros [= <- <-]; eauto|]. intros (t & -> & Heq & Ht).
      destruct p as [|x p]; simpl in Heq; [congruence|]. injection Heq as -> ->. exfalso. apply Hn.
      apply elem_of_app. right. by left.
    + split; [done|]. intros (t & -> & Heq & Ht). destruct p as [|x p]; simpl in Heq; [congruence|].
      injection Heq as -> ->. exfalso. apply Hn. apply elem_of_app. right. by left.
Qed.
