(* ===== verification/Sds.v ===== *)
(** * Dynamic strings: sds.c and sds.h

    [sdshdr] is a string as it lies in memory: the two 32-bit fields of the
    header and the block behind it, whose bytes past the terminator are
    whatever they were ([fill] is what a fresh block holds).  The second half
    of the file has the functions on the text of a string (quoting, splitting,
    joining), on the values of CStr.v. *)
From S2P Require Import Prelude Mem CStr.
Import Mem.

Module Sds.

Record sdshdr := mkSds { sh_len : Z; sh_free : Z; sh_buf : list Z }.

Definition SDS_MAX_PREALLOC : Z := 1024 * 1024.

Section Block.
Context (fill : nat -> Z).

(** [sdslen] and [sdsavail] read the fields. *)
Definition sdslen (s : sdshdr) : Z := sh_len s.
Definition sdsavail (s : sdshdr) : Z := sh_free s.

(** [init = None] is the NULL pointer. *)
Definition sdsnewlen (init : option (list Z)) (initlen : Z) : outcome sdshdr :=
  let block := match init with
               | Some _ => buf_resize fill [] (Z.to_nat (initlen + 1))
               | None => replicate (Z.to_nat (initlen + 1)) 0
               end in
  block ← (match init with Some d => if initlen =? 0 then Done block else t ← mem_get d 0 initlen; mem_put block 0 t | None => Done block end);
  block ← mem_put block initlen [0];
  Done (mkSds (to_u 32 initlen) 0 block).

Definition sdsempty : outcome sdshdr := sdsnewlen (Some []) 0.
Definition sdsdup (s : sdshdr) : outcome sdshdr := sdsnewlen (Some (sh_buf s)) (sdslen s).

(** strlen: up to the first zero byte. *)
Fixpoint strlen_at (b : list Z) : outcome Z :=
  match b with
  | [] => Fault OutOfBounds
  | x :: r => if x =? 0 then Done 0 else n ← strlen_at r; Done (1 + n)
  end.
Definition sdsupdatelen (s : sdshdr) : outcome sdshdr :=
  reallen ← strlen_at (sh_buf s);
  let reallen := to_s 32 reallen in
  Done (mkSds (to_u 32 reallen) (to_u 32 (sh_free s + (sh_len s - reallen))) (sh_buf s)).

Definition sdsclear (s : sdshdr) : outcome sdshdr :=
  b ← mem_put (sh_buf s) 0 [0]; Done (mkSds 0 (to_u 32 (sh_free s + sh_len s)) b).

Definition sdsMakeRoomFor (s : sdshdr) (addlen : Z) : sdshdr :=
  if sdsavail s >=? addlen then s
  else
    let len := sdslen s in
    let newlen := len + addlen in
    let newlen := if newlen <? SDS_MAX_PREALLOC then newlen * 2 else newlen + SDS_MAX_PREALLOC in
    mkSds (sh_len s) (to_u 32 (newlen - len)) (buf_resize fill (sh_buf s) (Z.to_nat (newlen + 1))).

Definition sdsRemoveFreeSpace (s : sdshdr) : sdshdr :=
  mkSds (sh_len s) 0 (buf_resize fill (sh_buf s) (Z.to_nat (sh_len s + 1))).

(** The header is two fields of four bytes. *)
Definition sdsAllocSize (s : sdshdr) : Z := 8 + sh_len s + sh_free s + 1.

Definition sdsIncrLen (s : sdshdr) (incr : Z) : outcome sdshdr :=
  _ ← require_b AssertFail (if incr >=? 0 then sh_free s >=? incr else sh_len s >=? - incr);
  let len := to_u 32 (sh_len s + incr) in
  b ← mem_put (sh_buf s) len [0];
  Done (mkSds len (to_u 32 (sh_free s - incr)) b).

Definition sdsgrowzero (s : sdshdr) (len : Z) : outcome sdshdr :=
  let curlen := sh_len s in
  if len <=? curlen then Done s
  else
    let s := sdsMakeRoomFor s (len - curlen) in
    b ← mem_put (sh_buf s) curlen (replicate (Z.to_nat (len - curlen + 1)) 0);
    let totlen := to_u 32 (sh_len s + sh_free s) in
    Done (mkSds (to_u 32 len) (to_u 32 (totlen - to_u 32 len)) b).

(** [t] is the [len] bytes the caller passes. *)
Definition sdscatlen (s : sdshdr) (t : list Z) : outcome sdshdr :=
  let len := size t in
  let curlen := sdslen s in
  let s := sdsMakeRoomFor s len in
  b ← mem_put (sh_buf s) curlen t;
  b ← mem_put b (curlen + len) [0];
  Done (mkSds (to_u 32 (curlen + len)) (to_u 32 (sh_free s - len)) b).
Definition sdscatsds (s t : sdshdr) : outcome sdshdr := d ← mem_get (sh_buf t) 0 (sdslen t); sdscatlen s d.

Definition sdscpylen (s : sdshdr) (t : list Z) : outcome sdshdr :=
  let len := size t in
  let totlen := to_u 32 (sh_free s + sh_len s) in
  let s := if totlen <? len then sdsMakeRoomFor s (len - sh_len s) else s in
  let totlen := to_u 32 (sh_free s + sh_len s) in
  b ← mem_put (sh_buf s) 0 t;
  b ← mem_put b len [0];
  Done (mkSds (to_u 32 len) (to_u 32 (totlen - len)) b).

Definition sdsrange (s : sdshdr) (start end_ : Z) : outcome sdshdr :=
  let len := sdslen s in
  if len =? 0 then Done s
  else
    let start := if start <? 0 then let x := to_s 32 (len + start) in if x <? 0 then 0 else x else start in
    let end_ := if end_ <? 0 then let x := to_s 32 (len + end_) in if x <? 0 then 0 else x else end_ in
    let newlen := if start >? end_ then 0 else (end_ - start) + 1 in
    let '(start, newlen) :=
      if negb (newlen =? 0) then
        if start >=? to_s 32 len then (start, 0)
        else if end_ >=? to_s 32 len then
          let end_ := to_s 32 (len - 1) in (start, if start >? end_ then 0 else (end_ - start) + 1)
        else (start, newlen)
      else (0, newlen) in
    b ← (if negb (start =? 0) && negb (newlen =? 0) then memmove (sh_buf s) 0 start newlen else Done (sh_buf s));
    b ← mem_put b newlen [0];
    Done (mkSds (to_u 32 newlen) (to_u 32 (sh_free s + (sh_len s - newlen))) b).

(** [strchr(cset,c)]: the terminator of [cset] counts as one of its characters. *)
Definition in_cset (cset : list Z) (c : Z) : bool := (c =? 0) || bool_decide (c ∈ cset).
(** [while(sp <= end && strchr(cset, *sp)) sp++], counting the steps. *)
Fixpoint trim_left (cset : list Z) (b : list Z) : Z :=
  match b with [] => 0 | c :: r => if in_cset cset c then 1 + trim_left cset r else 0 end.
(** [while(ep > start && strchr(cset, *ep)) ep--]: [n] is [ep - start]. *)
Fixpoint trim_right (cset : list Z) (b : list Z) (n : nat) : outcome Z :=
  match n with
  | O => Done 0
  | S n' => c ← byte b (Z.of_nat n); if in_cset cset c then trim_right cset b n' else Done (Z.of_nat n)
  end.
Definition sdstrim (s : sdshdr) (cset : list Z) : outcome sdshdr :=
  let len := sdslen s in
  d ← mem_get (sh_buf s) 0 len;
  let sp := trim_left cset d in
  ep ← (if len =? 0 then Done (-1) else trim_right cset (sh_buf s) (Z.to_nat (len - 1)));
  let newlen := if sp >? ep then 0 else (ep - sp) + 1 in
  b ← (if sp =? 0 then Done (sh_buf s) else memmove (sh_buf s) 0 sp newlen);
  b ← mem_put b newlen [0];
  Done (mkSds (to_u 32 newlen) (to_u 32 (sh_free s + (sh_len s - newlen))) b).

(** sdstolower, sdstoupper and sdsmapchars write each byte in place. *)
Definition sds_map (f : Z -> Z) (s : sdshdr) : outcome sdshdr :=
  d ← mem_get (sh_buf s) 0 (sdslen s);
  b ← mem_put (sh_buf s) 0 (map f d);
  Done (mkSds (sh_len s) (sh_free s) b).
Definition sdstolower (s : sdshdr) : outcome sdshdr := sds_map (fun c => code (tolower (chr c))) s.
Definition sdstoupper (s : sdshdr) : outcome sdshdr := sds_map (fun c => code (toupper (chr c))) s.
Fixpoint map_char (from to : list Z) (c : Z) : Z :=
  match from, to with
  | f :: from', t :: to' => if c =? f then t else map_char from' to' c
  | _, _ => c
  end.
Definition sdsmapchars (s : sdshdr) (from to : list Z) : outcome sdshdr := sds_map (map_char from to) s.

(** [s = sdsMakeRoomFor(s, n); nread = read(fd, s+sdslen(s), n); sdsIncrLen(s, nread)],
    where the read delivers [t]. *)
Definition sds_read (s : sdshdr) (n : Z) (t : list Z) : outcome sdshdr :=
  let qblen := sdslen s in
  let s := sdsMakeRoomFor s n in
  b ← mem_put (sh_buf s) qblen t;
  sdsIncrLen (mkSds (sh_len s) (sh_free s) b) (size t).

(** ** The invariant *)
(** [h] holds the string [v]: the length, the terminator behind it and the free
    space behind that are as the header says. *)
Definition holds (h : sdshdr) (v : list Z) : Prop :=
  sh_len h = size v /\ size v + sh_free h < 2 ^ 31 /\ exists rest, sh_buf h = v ++ 0 :: rest /\ size rest = sh_free h.

Lemma holds_make v rest : size v + size rest < 2 ^ 31 -> holds (mkSds (size v) (size rest) (v ++ 0 :: rest)) v.
Proof. intros H. split; [done|]. split; [done|]. by exists rest. Qed.

Lemma u32_small z : 0 <= z < 2 ^ 31 -> to_u 32 z = z.
Proof. intros H. apply to_u_small. unfold in_u. lia. Qed.
Lemma s32_small z : - 2 ^ 31 <= z < 2 ^ 31 -> to_s 32 z = z.
Proof. intros H. apply to_s_small; [lia|]. unfold in_s. lia. Qed.

Lemma size_resize b n : 0 <= n -> size (buf_resize fill b (Z.to_nat n)) = n.
Proof. intros H. unfold size, buf_resize. rewrite length_app, length_take, length_map, length_seq. lia. Qed.

(** The new block starts with the old one. *)
Lemma resize_app v rest n : size v + 1 <= n -> exists rest', buf_resize fill (v ++ 0 :: rest) (Z.to_nat n) = v ++ 0 :: rest' /\ size v + 1 + size rest' = n.
Proof.
  intros Hn. pose proof (size_resize (v ++ 0 :: rest) n ltac:(pose proof (size_nonneg v); lia)) as Hs. unfold buf_resize in *. unfold size in Hn.
  change (v ++ 0 :: rest) with (v ++ [0] ++ rest) in *. rewrite (app_assoc v [0] rest) in *. rewrite take_app_ge in * by (rewrite length_app; cbn; lia).
  rewrite <- !app_assoc in *. eexists. split; [reflexivity|]. revert Hs. rewrite !size_app. cbn [size length]. unfold size. cbn [length]. lia.
Qed.

Lemma sdsMakeRoomFor_ok h v n : holds h v -> 0 <= n -> 2 * (size v + n) + SDS_MAX_PREALLOC < 2 ^ 31 ->
  holds (sdsMakeRoomFor h n) v /\ n <= sh_free (sdsMakeRoomFor h n).
Proof.
  intros (Hl & Hf & rest & Hb & Hr) Hn Hfit. unfold sdsMakeRoomFor, sdsavail, sdslen. destruct (Z.geb_spec (sh_free h) n) as [Hge|Hlt].
  - split; [|done]. split; [done|]. split; [done|]. by exists rest.
  - unfold SDS_MAX_PREALLOC in *. set (m := if _ <? _ then _ else _).
    assert (Hm : size v + n <= m /\ m < 2 ^ 31) by (unfold m; rewrite Hl; pose proof (size_nonneg v); case_match; lia).
    rewrite Hb. destruct (resize_app v rest (m + 1)) as (rest' & -> & Hs); [lia|]. pose proof (size_nonneg v). rewrite Hl, u32_small by lia.
    split; [|cbn; lia]. assert (m - size v = size rest') as -> by lia. apply holds_make. lia.
Qed.

(** A terminator at an offset of the block. *)
Lemma put_nul b d n : n = size d -> (exists r, b = d ++ r /\ 1 <= size r) -> exists r', mem_put b n [0] = Done (d ++ 0 :: r') /\ size d + 1 + size r' = size b.
Proof.
  intros -> (r & -> & Hr). destruct r as [|x r]; [cbn in Hr; unfold size in Hr; cbn in Hr; lia|]. exists r.
  rewrite (mem_put_at _ _ d [x] [0] r) by done. split; [done|]. autorewrite with zsize. lia.
Qed.

(** Writing [t] over the end of the string. *)
Lemma put_end h v t : holds h v -> size t <= sh_free h -> exists r, mem_put (sh_buf h) (size v) t = Done (v ++ t ++ r) /\ size t + size r = 1 + sh_free h.
Proof.
  intros (Hl & Hf & rest & Hb & Hr) Ht. rewrite Hb. destruct (split_size (0 :: rest) (size t)) as (d & r & E & Hd); [rewrite size_cons; pose proof (size_nonneg t); lia|]. rewrite E.
  exists r. rewrite (mem_put_at _ (size v) v d t r) by done. split; [done|]. apply (f_equal size) in E. autorewrite with zsize in E. lia.
Qed.

(** The header after an operation that left [v] and a terminator. *)
Lemma holds_hdr v r len free : size v + size r < 2 ^ 31 -> len = size v -> free = size r -> holds (mkSds (to_u 32 len) (to_u 32 free) (v ++ 0 :: r)) v.
Proof. intros H -> ->. pose proof (size_nonneg v). pose proof (size_nonneg r). rewrite !u32_small by lia. by apply holds_make. Qed.

Definition room (v : list Z) (n : Z) : Prop := 2 * (size v + n) + SDS_MAX_PREALLOC < 2 ^ 31.

Lemma sdscatlen_ok h v t : holds h v -> room v (size t) -> exists h', sdscatlen h t = Done h' /\ holds h' (v ++ t).
Proof.
  intros Hh Hfit. destruct (sdsMakeRoomFor_ok h v (size t) Hh (size_nonneg t) Hfit) as [Hh' Hfree]. destruct (put_end _ _ _ Hh' Hfree) as (r & E & Hr).
  pose proof Hh as (Hl & _). pose proof Hh' as (Hl' & Hf' & _). unfold sdscatlen, sdslen. rewrite Hl, E, bind_Done.
  destruct (put_nul (v ++ t ++ r) (v ++ t) (size v + size t)) as (r' & E' & Hr'); [by rewrite size_app|exists r; rewrite app_assoc; split; [done|lia]|].
  rewrite E', bind_Done. eexists. split; [done|]. autorewrite with zsize in Hr'. pose proof (size_nonneg t). apply holds_hdr; autorewrite with zsize; lia.
Qed.

Lemma sds_read_ok h v n t : holds h v -> room v n -> size t <= n -> exists h', sds_read h n t = Done h' /\ holds h' (v ++ t).
Proof.
  intros Hh Hfit Ht. pose proof (size_nonneg t). destruct (sdsMakeRoomFor_ok h v n Hh ltac:(lia) Hfit) as [Hh' Hfree]. destruct (put_end _ _ t Hh' ltac:(lia)) as (r & E & Hr).
  pose proof Hh as (Hl & _). pose proof Hh' as (Hl' & Hf' & _). unfold sds_read, sdslen. rewrite Hl, E, bind_Done. unfold sdsIncrLen. cbn [sh_len sh_free sh_buf].
  rewrite (proj2 (Z.geb_le _ _)), (proj2 (Z.geb_le _ _)) by lia. cbn [require_b]. rewrite bind_Done, Hl'. pose proof (size_nonneg v). rewrite u32_small by lia.
  destruct (put_nul (v ++ t ++ r) (v ++ t) (size v + size t)) as (r' & E' & Hr'); [by rewrite size_app|exists r; rewrite app_assoc; split; [done|lia]|].
  rewrite E', bind_Done. eexists. split; [done|]. autorewrite with zsize in Hr'. rewrite <- (u32_small (size v + size t)) by lia. apply holds_hdr; autorewrite with zsize; lia.
Qed.

Lemma sdsgrowzero_ok h v n : holds h v -> room v (n - size v) -> exists h', sdsgrowzero h n = Done h' /\ holds h' (v ++ replicate (Z.to_nat n - length v) 0).
Proof.
  intros Hh Hfit. pose proof Hh as (Hl & _). unfold sdsgrowzero. rewrite Hl. destruct (Z.leb_spec n (size v)) as [Hle|Hlt].
  - exists h. split; [done|]. unfold size in Hle. assert (Z.to_nat n - length v = 0)%nat as -> by lia. cbn. by rewrite app_nil_r.
  - destruct (sdsMakeRoomFor_ok h v (n - size v) Hh ltac:(lia) Hfit) as [Hh' Hfree]. pose proof Hh' as (Hl' & Hf' & rest & Hb & Hr).
    pose proof (size_nonneg v). set (z := replicate (Z.to_nat n - length v) 0). assert (Hz : size z = n - size v) by (unfold z, size in *; rewrite length_replicate; lia).
    assert (replicate (Z.to_nat (n - size v + 1)) 0 = z ++ [0]) as ->.
    { unfold z. rewrite <- replicate_S_end. f_equal. unfold size in *. lia. }
    rewrite Hb. destruct (split_size (0 :: rest) (size (z ++ [0]))) as (d & r & E & Hd); [autorewrite with zsize; pose proof (size_nonneg rest); lia|].
    rewrite E, (mem_put_at _ (size v) v d (z ++ [0]) r), bind_Done by done. apply (f_equal size) in E. autorewrite with zsize in E, Hd. rewrite Hl'.
    assert (v ++ (z ++ [0]) ++ r = (v ++ z) ++ 0 :: r) as -> by (by rewrite <- !app_assoc). eexists. split; [done|]. pose proof (size_nonneg r). pose proof (size_nonneg rest).
    apply holds_hdr; rewrite ?u32_small by lia; autorewrite with zsize; lia.
Qed.

Lemma sdscpylen_ok h v t : holds h v -> room [] (size t) -> exists h', sdscpylen h t = Done h' /\ holds h' t.
Proof.
  intros Hh Hfit. pose proof Hh as (Hl & Hf & _). pose proof (size_nonneg v). pose proof (size_nonneg t). unfold sdscpylen. set (s' := if _ <? _ then _ else _).
  assert (Hs : exists w, holds s' w /\ size t <= sh_len s' + sh_free s').
  { pose proof Hh as (_ & _ & rest & _ & Hr). pose proof (size_nonneg rest). unfold s'. rewrite u32_small by lia. destruct (Z.ltb_spec (sh_free h + sh_len h) (size t)) as [Hlt|Hge].
    - destruct (sdsMakeRoomFor_ok h v (size t - sh_len h) Hh) as [Hh' Hfree]; [lia|rewrite Hl; unfold room in Hfit; rewrite size_nil in Hfit; lia|]. exists v. split; [done|]. destruct Hh' as (-> & _). lia.
    - exists v. split; [done|]. lia. }
  destruct Hs as (w & (Hl' & Hf' & rest & Hb & Hr) & Hfree). clearbody s'. rewrite Hb. pose proof (size_nonneg w). pose proof (size_nonneg rest).
  destruct (split_size (w ++ 0 :: rest) (size t)) as (d & r & E & Hd); [autorewrite with zsize; lia|]. rewrite E. apply (f_equal size) in E. autorewrite with zsize in E.
  rewrite (mem_put_at _ 0 [] d t r), bind_Done by done. cbn [app]. destruct (put_nul (t ++ r) t (size t) eq_refl) as (r' & E' & Hr'); [exists r; split; [done|lia]|].
  autorewrite with zsize in Hr'. rewrite E', bind_Done. eexists. split; [done|]. rewrite (u32_small (sh_free s' + sh_len s')) by lia. apply holds_hdr; lia.
Qed.

(** ** Cutting *)
(** [d] moved to the front of the block and terminated. *)
Lemma cut_ok h a d c : holds h (a ++ d ++ c) -> exists h',
  (b ← memmove (sh_buf h) 0 (size a) (size d); b ← mem_put b (size d) [0];
   Done (mkSds (to_u 32 (size d)) (to_u 32 (sh_free h + (sh_len h - size d))) b)) = Done h' /\ holds h' d.
Proof.
  intros (Hl & Hf & rest & Hb & Hr). autorewrite with zsize in *. pose proof (size_nonneg a). pose proof (size_nonneg c). pose proof (size_nonneg d). pose proof (size_nonneg rest).
  destruct (split_size (a ++ d ++ c ++ 0 :: rest) (size d)) as (x & r & E & Hd); [autorewrite with zsize; lia|].
  rewrite Hb, <- !app_assoc. rewrite (memmove_at _ 0 (size a) (size d) a d (c ++ 0 :: rest) [] x r); [|done|done|done|by rewrite E|done|done].
  rewrite bind_Done. cbn [app]. apply (f_equal size) in E. autorewrite with zsize in E. destruct (put_nul (d ++ r) d (size d) eq_refl) as (r' & E' & Hr'); [exists r; split; [done|lia]|].
  autorewrite with zsize in Hr'. rewrite E', bind_Done. eexists. split; [done|]. apply holds_hdr; lia.
Qed.

(** The same at offset 0, where the code does not move. *)
Lemma cut_front_ok h d c : holds h (d ++ c) -> exists h',
  (b ← mem_put (sh_buf h) (size d) [0]; Done (mkSds (to_u 32 (size d)) (to_u 32 (sh_free h + (sh_len h - size d))) b)) = Done h' /\ holds h' d.
Proof.
  intros Hh. destruct (cut_ok h [] d c Hh) as (h' & E & Hh'). exists h'. split; [|done]. rewrite <- E. clear E. destruct Hh as (_ & _ & rest & Hb & _). rewrite Hb, <- app_assoc.
  by rewrite (memmove_at _ 0 0 (size d) [] d (c ++ 0 :: rest) [] d (c ++ 0 :: rest)).
Qed.

(** The indices of sdsrange, -1 the last character: the characters from the
    first to the second, both included. *)
Definition norm (n i : Z) : Z := if i <? 0 then Z.max 0 (n + i) else i.
Definition range_of (start end_ : Z) (v : list Z) : list Z :=
  take (Z.to_nat (Z.min (size v - 1) (norm (size v) end_) - norm (size v) start + 1)) (drop (Z.to_nat (norm (size v) start)) v).

Lemma sdsrange_ok h v start end_ : holds h v -> - 2 ^ 31 <= start < 2 ^ 31 -> - 2 ^ 31 <= end_ < 2 ^ 31 -> exists h', sdsrange h start end_ = Done h' /\ holds h' (range_of start end_ v).
Proof.
  intros Hh Hs He. pose proof Hh as (Hl & Hf & rest & _ & Hr). pose proof (size_nonneg v). pose proof (size_nonneg rest). unfold sdsrange, sdslen. rewrite Hl.
  destruct (Z.eqb_spec (size v) 0) as [E0|E0].
  { exists h. split; [done|]. destruct v; [|rewrite size_cons in E0; pose proof (size_nonneg v); lia]. unfold range_of. by rewrite drop_nil, take_nil. }
  assert (Hn : forall i, - 2 ^ 31 <= i < 2 ^ 31 -> (if i <? 0 then let x := to_s 32 (size v + i) in if x <? 0 then 0 else x else i) = norm (size v) i).
  { intros i Hi. unfold norm. destruct (Z.ltb_spec i 0); [|done]. rewrite s32_small by lia. cbn zeta. destruct (Z.ltb_spec (size v + i) 0); lia. }
  rewrite !Hn by done. unfold range_of. assert (H1 : 0 <= norm (size v) start) by (unfold norm; case_match; lia). assert (H2 : 0 <= norm (size v) end_) by (unfold norm; case_match; lia).
  set (p := norm (size v) start) in *. set (q := norm (size v) end_) in *. clearbody p q. set (n := Z.min (size v - 1) q - p + 1). rewrite !s32_small by lia.
  set (pair := if _ : bool then _ else _). assert (Hpair : pair = (if n <=? 0 then (if p >? q then 0 else p) else p, Z.max 0 n)).
  { unfold pair, n. destruct (Z.gtb_spec p q); [cbn; rewrite (proj2 (Z.leb_le _ _)) by lia; f_equal; lia|]. rewrite (proj2 (Z.eqb_neq _ _)) by lia. cbn [negb].
    destruct (Z.geb_spec p (size v)); [rewrite (proj2 (Z.leb_le _ _)) by lia; f_equal; lia|]. rewrite (proj2 (Z.leb_gt _ _)) by lia.
    destruct (Z.geb_spec q (size v)); [destruct (Z.gtb_spec p (size v - 1)); [lia|]|]; f_equal; lia. }
  rewrite Hpair. clear Hpair pair Hn. destruct (Z.leb_spec n 0) as [Hn|Hn].
  - rewrite Z.max_l, andb_false_r, bind_Done by lia. replace (Z.to_nat n) with 0%nat by lia. rewrite take_0. rewrite <- Hl. apply (cut_front_ok h [] v Hh).
  - rewrite Z.max_r by lia. set (d := take (Z.to_nat n) (drop (Z.to_nat p) v)). set (a := take (Z.to_nat p) v). set (c := drop (Z.to_nat n) (drop (Z.to_nat p) v)).
    assert (Hv : v = a ++ d ++ c) by (unfold a, d, c; by rewrite !take_drop). assert (Hd : n = size d) by (unfold d, size in *; rewrite length_take, length_drop; lia).
    assert (Ha : p = size a) by (unfold a, size in *; rewrite length_take; lia). clearbody a d c. clearbody n. rewrite Hd, <- Hl. destruct (Z.eqb_spec p 0) as [Hp|Hp].
    + cbn [negb andb]. rewrite bind_Done. assert (a = []) as Ha0 by (destruct a; [done|rewrite size_cons in Ha; pose proof (size_nonneg a); lia]). rewrite Ha0 in Hv. apply (cut_front_ok h d c). cbn [app] in Hv. by rewrite <- Hv.
    + rewrite (proj2 (Z.eqb_neq (size d) 0)) by lia. cbn [negb andb]. rewrite Ha. apply (cut_ok h a d c). by rewrite <- Hv.
Qed.

(** The longest prefix in the set, dropped. *)
Fixpoint drop_in (cset : list Z) (v : list Z) : list Z :=
  match v with [] => [] | c :: r => if in_cset cset c then drop_in cset r else v end.
Definition trim_of (cset : list Z) (v : list Z) : list Z := rev (drop_in cset (rev (drop_in cset v))).

Lemma trim_left_ok cset v : exists a, v = a ++ drop_in cset v /\ trim_left cset v = size a /\ Forall (fun c => in_cset cset c = true) a.
Proof.
  induction v as [|c r IH]; [by exists []|]. cbn [trim_left drop_in]. destruct (in_cset cset c) eqn:E; [|by exists []].
  destruct IH as (a & Hv & Hs & Ha). exists (c :: a). rewrite size_cons, Hs. split; [cbn; by rewrite <- Hv|]. split; [done|]. by constructor.
Qed.
Lemma drop_in_app cset a b : Forall (fun c => in_cset cset c = true) a -> drop_in cset (a ++ b) = drop_in cset b.
Proof. induction 1 as [|c a Hc _ IH]; [done|]. cbn. by rewrite Hc. Qed.
Lemma drop_in_head cset v x r : drop_in cset v = x :: r -> in_cset cset x = false.
Proof. induction v as [|c w IH]; [done|]. cbn. destruct (in_cset cset c) eqn:E; [done|]. by intros [= <- <-]. Qed.

(** From the right the loop stops at the last character outside the set, or at
    the first character of the string. *)
Lemma trim_right_ok cset x d b rest : b = x :: d ++ rest ->
  trim_right cset b (length d) = Done (size (rev (drop_in cset (rev d)))).
Proof.
  intros ->. revert rest. induction d as [|c d IH] using rev_ind; intros rest; [done|]. rewrite length_app, Nat.add_1_r. cbn [trim_right].
  rewrite (byte_at _ _ (x :: d) c rest); [|cbn; by rewrite <- app_assoc|unfold size; cbn; lia]. rewrite bind_Done, rev_app_distr. cbn [rev app drop_in].
  destruct (in_cset cset c); [|unfold size; rewrite length_rev; cbn; rewrite length_rev; f_equal; lia]. rewrite <- app_assoc. apply IH.
Qed.

Lemma drop_in_snoc cset l x : size (drop_in cset l) = Z.max 0 (size (drop_in cset (l ++ [x])) - 1).
Proof.
  induction l as [|c l IH]; cbn [drop_in app].
  - destruct (in_cset cset x); unfold size; cbn; lia.
  - destruct (in_cset cset c); [done|]. rewrite !size_cons, size_app. unfold size at 3. cbn. pose proof (size_nonneg l). lia.
Qed.

(** The string as the trimmed part between two runs of the set. *)
Lemma trim_split cset v : exists a c, v = a ++ trim_of cset v ++ c /\ trim_left cset v = size a /\
  (trim_of cset v = [] -> v = a) /\
  size (drop_in cset (rev v)) = if decide (trim_of cset v = []) then 0 else size a + size (trim_of cset v).
Proof.
  destruct (trim_left_ok cset v) as (a & Hv & Hs & Ha). unfold trim_of. pose proof (drop_in_head cset v) as Hhw. set (w := drop_in cset v) in *. clearbody w.
  destruct (trim_left_ok cset (rev w)) as (c & Hw & _ & Hc). pose proof (drop_in_head cset (rev w)) as Hhe. set (e := drop_in cset (rev w)) in *. clearbody e.
  apply (f_equal (@rev Z)) in Hw. rewrite rev_involutive, rev_app_distr in Hw. exists a, (rev c). rewrite <- Hw. split; [done|]. split; [done|].
  assert (He : rev e = [] -> w = []).
  { intros E. rewrite E in Hw. cbn in Hw. destruct w as [|z w']; [done|]. specialize (Hhw z w' eq_refl). apply Forall_rev in Hc. rewrite <- Hw in Hc. apply Forall_inv in Hc. congruence. }
  split; [intros E; rewrite (He E) in Hv; by rewrite app_nil_r in Hv|]. rewrite Hv, rev_app_distr.
  assert (rev w = c ++ e) as -> by (by rewrite Hw, rev_app_distr, !rev_involutive). rewrite <- app_assoc, drop_in_app by done. destruct e as [|y e].
  - cbn [rev app]. rewrite decide_True by done. rewrite <- (app_nil_r (rev a)), drop_in_app by (by apply Forall_rev). done.
  - rewrite decide_False by (cbn; by destruct (rev e)). cbn [app drop_in]. rewrite (Hhe y e eq_refl). unfold size. rewrite length_rev. cbn. rewrite length_app, length_rev. lia.
Qed.

Lemma sdstrim_ok h v cset : holds h v -> exists h', sdstrim h cset = Done h' /\ holds h' (trim_of cset v).
Proof.
  intros Hh. pose proof Hh as (Hl & Hf & rest & Hb & Hr). pose proof (size_nonneg v). unfold sdstrim, sdslen. rewrite Hl.
  rewrite (mem_get_at _ 0 (size v) [] v (0 :: rest)), bind_Done by done. destruct (trim_split cset v) as (a & c & Hv & Hs & Hnil & Hd). rewrite Hs. set (t := trim_of cset v) in *. clearbody t.
  assert (Hep : exists ep, (if size v =? 0 then Done (-1) else trim_right cset (sh_buf h) (Z.to_nat (size v - 1))) = Done ep /\ (if size a >? ep then 0 else ep - size a + 1) = size t).
  { destruct v as [|x d].
    - exists (-1). split; [done|]. symmetry in Hv. apply app_nil in Hv as [-> [-> ->]%app_nil]. done.
    - rewrite size_cons in *. pose proof (size_nonneg d). rewrite (proj2 (Z.eqb_neq _ _)) by lia. replace (Z.to_nat (1 + size d - 1)) with (length d) by (unfold size; lia).
      rewrite Hb, (trim_right_ok cset x d _ (0 :: rest)) by done. eexists. split; [done|]. cbn [rev] in Hd. pose proof (drop_in_snoc cset (rev d) x) as Hsn. rewrite Hd in Hsn.
      replace (size (rev (drop_in cset (rev d)))) with (size (drop_in cset (rev d))) by (unfold size; by rewrite length_rev). rewrite Hsn. pose proof (size_nonneg a).
      destruct (decide (t = [])) as [->|Hne].
      + rewrite size_nil. pose proof (f_equal size (Hnil eq_refl)) as Ha. rewrite size_cons in Ha. destruct (Z.gtb_spec (size a) (Z.max 0 (0 - 1))); lia.
      + assert (0 < size t) by (destruct t; [done|rewrite size_cons; pose proof (size_nonneg t); lia]). destruct (Z.gtb_spec (size a) (Z.max 0 (size a + size t - 1))); lia. }
  destruct Hep as (ep & -> & Hn). rewrite bind_Done. cbn zeta. rewrite Hn, <- Hl. destruct (Z.eqb_spec (size a) 0) as [Ha|Ha].
  - assert (a = []) as -> by (destruct a; [done|rewrite size_cons in Ha; pose proof (size_nonneg a); lia]). rewrite bind_Done. apply (cut_front_ok h t c). cbn [app] in Hv. by rewrite <- Hv.
  - apply (cut_ok h a t c). by rewrite <- Hv.
Qed.

Lemma sdsnewlen_ok d : size d < 2 ^ 31 -> exists h, sdsnewlen (Some d) (size d) = Done h /\ holds h d.
Proof.
  intros Hd. pose proof (size_nonneg d). unfold sdsnewlen. set (b := buf_resize fill [] _). assert (Hb : size b = size d + 1) by (apply size_resize; lia).
  destruct (split_size b (size d)) as (x & r & E & Hx); [lia|]. assert (Hr : size r = 1) by (apply (f_equal size) in E; autorewrite with zsize in E; lia).
  assert (exists y, (if size d =? 0 then Done b else t ← mem_get d 0 (size d); mem_put b 0 t) = Done (d ++ y) /\ size y = 1) as (y & -> & Hy).
  { destruct (Z.eqb_spec (size d) 0) as [E0|E0].
    - destruct d; [|rewrite size_cons in E0; pose proof (size_nonneg d); lia]. exists b. split; [done|]. rewrite size_nil in *. lia.
    - rewrite (mem_get_at _ 0 (size d) [] d []), bind_Done by (by rewrite ?app_nil_r). exists r. split; [|done]. rewrite E. by rewrite (mem_put_at _ 0 [] x d r). }
  rewrite bind_Done. destruct (put_nul (d ++ y) d (size d) eq_refl) as (r' & E' & Hr'); [exists y; split; [done|lia]|]. rewrite E', bind_Done. eexists. split; [done|].
  autorewrite with zsize in Hr'. apply (holds_hdr d r' (size d) 0); lia.
Qed.

Lemma sdsclear_ok h v : holds h v -> exists h', sdsclear h = Done h' /\ holds h' [].
Proof. intros Hh. pose proof (cut_front_ok h [] v Hh) as H. rewrite size_nil, Z.sub_0_r in H. exact H. Qed.

Lemma sdsRemoveFreeSpace_ok h v : holds h v -> holds (sdsRemoveFreeSpace h) v.
Proof.
  intros (Hl & Hf & rest & Hb & Hr). unfold sdsRemoveFreeSpace. rewrite Hb, Hl. destruct (resize_app v rest (size v + 1)) as (rest' & -> & Hs); [lia|].
  replace 0 with (size rest') at 1 by lia. apply holds_make. pose proof (size_nonneg rest). lia.
Qed.

Lemma sdsIncrLen_neg_ok h v n : holds h v -> 0 < n <= size v -> exists h', sdsIncrLen h (- n) = Done h' /\ holds h' (take (Z.to_nat (size v - n)) v).
Proof.
  intros Hh Hn. set (d := take _ v). pose proof Hh as (Hl & Hf & _). assert (Hd : size d = size v - n) by (unfold d, size in *; rewrite length_take; lia).
  unfold sdsIncrLen. rewrite (Z.geb_leb (- n)), (proj2 (Z.leb_gt 0 (- n))) by lia. rewrite (proj2 (Z.geb_le _ _)) by lia. cbn [require_b]. rewrite bind_Done, Hl.
  pose proof (cut_front_ok h d (drop (Z.to_nat (size v - n)) v)) as H. unfold d in H at 1. rewrite take_drop in H. destruct (H Hh) as (h' & E & Hh').
  exists h'. split; [|done]. rewrite <- E. destruct Hh as (_ & _ & rest & _ & Hr). pose proof (size_nonneg rest).
  replace (size v + - n) with (size d) by lia. replace (sh_free h - - n) with (sh_free h + (sh_len h - size d)) by lia. by rewrite (u32_small (size d)) by lia.
Qed.

Lemma sds_map_ok f h v : holds h v -> exists h', sds_map f h = Done h' /\ holds h' (map f v).
Proof.
  intros (Hl & Hf & rest & Hb & Hr). unfold sds_map, sdslen. rewrite Hb, Hl, (mem_get_at _ 0 (size v) [] v (0 :: rest)), bind_Done by done.
  rewrite (mem_put_at _ 0 [] v (map f v) (0 :: rest)), bind_Done by (done || (unfold size; by rewrite length_map)). eexists. split; [done|].
  assert (Hm : size (map f v) = size v) by (unfold size; by rewrite length_map). split; [by rewrite Hm|]. split; [by rewrite Hm|]. by exists rest.
Qed.

(** What strlen sees of a string. *)
Fixpoint cut_nul (v : list Z) : list Z := match v with [] => [] | x :: r => if x =? 0 then [] else x :: cut_nul r end.

Lemma cut_nul_ok v rest : exists r, v ++ 0 :: rest = cut_nul v ++ 0 :: r /\ strlen_at (v ++ 0 :: rest) = Done (size (cut_nul v)).
Proof.
  induction v as [|x v IH]; [by exists rest|]. cbn [app cut_nul strlen_at]. destruct (Z.eqb_spec x 0) as [->|Hx]; [by exists (v ++ 0 :: rest)|].
  destruct IH as (r & Hr & ->). exists r. rewrite Hr. split; [done|]. by rewrite bind_Done, size_cons.
Qed.

Lemma sdsupdatelen_ok h v : holds h v -> exists h', sdsupdatelen h = Done h' /\ holds h' (cut_nul v).
Proof.
  intros (Hl & Hf & rest & Hb & Hr). destruct (cut_nul_ok v rest) as (r & Hc & Hs). unfold sdsupdatelen. rewrite Hb, Hs, bind_Done, Hc. eexists. split; [done|].
  apply (f_equal size) in Hc. autorewrite with zsize in Hc. pose proof (size_nonneg r). pose proof (size_nonneg (cut_nul v)). pose proof (size_nonneg rest).
  rewrite s32_small by lia. apply holds_hdr; lia.
Qed.

(** ** All operations *)
Inductive op :=
  | MakeRoomFor (n : Z)
  | RemoveFreeSpace
  | Clear
  | GrowZero (n : Z)
  | Cat (t : list Z)
  | Cpy (t : list Z)
  | Range (start end_ : Z)
  | Trim (cset : list Z)
  | RightTrim (n : Z)
  | ToLower
  | ToUpper
  | MapChars (from to : list Z)
  | Read (n : Z) (t : list Z)
  | UpdateLen.

Definition run (o : op) (h : sdshdr) : outcome sdshdr :=
  match o with
  | MakeRoomFor n => Done (sdsMakeRoomFor h n)
  | RemoveFreeSpace => Done (sdsRemoveFreeSpace h)
  | Clear => sdsclear h
  | GrowZero n => sdsgrowzero h n
  | Cat t => sdscatlen h t
  | Cpy t => sdscpylen h t
  | Range a b => sdsrange h a b
  | Trim cset => sdstrim h cset
  | RightTrim n => sdsIncrLen h (- n)
  | ToLower => sdstolower h
  | ToUpper => sdstoupper h
  | MapChars from to => sdsmapchars h from to
  | Read n t => sds_read h n t
  | UpdateLen => sdsupdatelen h
  end.

(** The string that an operation leaves. *)
Definition value (o : op) (v : list Z) : list Z :=
  match o with
  | MakeRoomFor _ | RemoveFreeSpace => v
  | Clear => []
  | GrowZero n => v ++ replicate (Z.to_nat n - length v) 0
  | Cat t | Read _ t => v ++ t
  | Cpy t => t
  | Range a b => range_of a b v
  | Trim cset => trim_of cset v
  | RightTrim n => take (Z.to_nat (size v - n)) v
  | ToLower => map (fun c => code (tolower (chr c))) v
  | ToUpper => map (fun c => code (toupper (chr c))) v
  | MapChars from to => map (map_char from to) v
  | UpdateLen => cut_nul v
  end.

(** Its arguments are in range, and what it allocates is below 2^31 bytes. *)
Definition fits (o : op) (v : list Z) : Prop :=
  match o with
  | MakeRoomFor n => 0 <= n /\ room v n
  | GrowZero n => room v (n - size v)
  | Cat t => room v (size t)
  | Cpy t => room [] (size t)
  | Range a b => - 2 ^ 31 <= a < 2 ^ 31 /\ - 2 ^ 31 <= b < 2 ^ 31
  | RightTrim n => 0 < n <= size v
  | Read n t => room v n /\ size t <= n
  | _ => True
  end.

Lemma op_ok o h v : holds h v -> fits o v -> exists h', run o h = Done h' /\ holds h' (value o v).
Proof.
  intros Hh Hf. destruct o; cbn [run value fits] in *.
  - eexists. split; [done|]. destruct Hf as [Hn Hr]. by apply (sdsMakeRoomFor_ok h v n Hh Hn Hr).
  - eexists. split; [done|]. by apply sdsRemoveFreeSpace_ok.
  - by eapply sdsclear_ok.
  - by apply sdsgrowzero_ok.
  - by apply sdscatlen_ok.
  - by eapply sdscpylen_ok.
  - destruct Hf. by apply sdsrange_ok.
  - by apply sdstrim_ok.
  - by apply sdsIncrLen_neg_ok.
  - by apply sds_map_ok.
  - by apply sds_map_ok.
  - by apply sds_map_ok.
  - destruct Hf. by apply sds_read_ok.
  - by apply sdsupdatelen_ok.
Qed.

Fixpoint run_all (os : list op) (h : sdshdr) : outcome sdshdr :=
  match os with [] => Done h | o :: r => h ← run o h; run_all r h end.
Fixpoint value_all (os : list op) (v : list Z) : list Z := match os with [] => v | o :: r => value_all r (value o v) end.
Fixpoint fits_all (os : list op) (v : list Z) : Prop := match os with [] => True | o :: r => fits o v /\ fits_all r (value o v) end.

(** C25: The header of a dynamic string is always true to its block: from a new
    string, any sequence of the operations of sds.c whose sizes stay below 2^31
    writes inside the block only, and leaves a header whose length, terminator
    and free space are as they lie in memory, with the string that the
    operations mean (append, copy, substring, trim, pad, map, read into). *)
Theorem sds_well_formed (d : list Z) (os : list op) :
  size d < 2 ^ 31 -> fits_all os d ->
  exists h0 h, sdsnewlen (Some d) (size d) = Done h0 /\ run_all os h0 = Done h /\ holds h (value_all os d).
Proof.
  intros Hd Hf. destruct (sdsnewlen_ok d Hd) as (h0 & E0 & Hh). exists h0. enough (exists h, run_all os h0 = Done h /\ holds h (value_all os d)) as (h & H) by eauto.
  clear E0 Hd. revert d h0 Hh Hf. induction os as [|o os IH]; intros d h0 Hh Hf; [by exists h0|]. destruct Hf as [Ho Hf]. cbn [run_all value_all].
  destruct (op_ok o h0 d Hh Ho) as (h1 & E & Hh1). rewrite E, bind_Done. by apply IH.
Qed.
End Block.

Definition demo_ops : list op := [Cat [44; 32; 119]; Trim [32; 104]; Range (-5) (-2); GrowZero 6; Read 100 [33]; RightTrim 2].

Lemma sds_well_formed_witness : exists h0 h, sdsnewlen (fun _ => 7) (Some [32; 104; 105]) 3 = Done h0 /\ run_all (fun _ => 7) demo_ops h0 = Done h /\ holds h [105; 44; 32; 0; 0].
Proof.
  destruct (sds_well_formed (fun _ => 7) [32; 104; 105] demo_ops) as (h0 & h & E0 & E & Hh).
  - vm_compute. reflexivity.
  - vm_compute. intuition congruence.
  - exists h0, h. split; [exact E0|]. split; [exact E|exact Hh].
Defined.
End Sds.
