(* ===== verification/SdsText.v ===== *)
(** * Text functions of sds.c: quoting, splitting, joining

    Strings are the values of CStr.v here; Sds.v has their memory. *)
From S2P Require Import Prelude CStr.

Module SdsText.

(** ** Quoting *)
Definition DQUOTE : ascii := "034"%char.
Definition SQUOTE : ascii := "'"%char.
Definition BACKSLASH : ascii := "\"%char.

Definition isprint (c : ascii) : bool := (32 <=? code c) && (code c <=? 126).
(** One digit of [%02x]. *)
Definition hex_char (n : Z) : ascii := chr (if n <? 10 then 48 + n else 87 + n).

(** What sdscatrepr appends for a character. *)
Definition esc (c : ascii) : sds :=
  if bool_decide (c = BACKSLASH) || bool_decide (c = DQUOTE) then [BACKSLASH; c]
  else if code c =? 10 then [BACKSLASH; "n"%char]
  else if code c =? 13 then [BACKSLASH; "r"%char]
  else if code c =? 9 then [BACKSLASH; "t"%char]
  else if code c =? 7 then [BACKSLASH; "a"%char]
  else if code c =? 8 then [BACKSLASH; "b"%char]
  else if isprint c then [c]
  else [BACKSLASH; "x"%char; hex_char (code c / 16); hex_char (code c mod 16)].

Definition sdscatrepr (s p : sds) : sds := s ++ [DQUOTE] ++ flat_map esc p ++ [DQUOTE].

(** ** Splitting a line into arguments *)
Definition is_hex_digit (c : ascii) : bool :=
  is_digit c || ((97 <=? code c) && (code c <=? 102)) || ((65 <=? code c) && (code c <=? 70)).
Definition hex_digit_to_int (c : ascii) : Z :=
  if is_digit c then code c - 48
  else if (97 <=? code c) && (code c <=? 102) then code c - 87
  else if (65 <=? code c) && (code c <=? 70) then code c - 55
  else 0.

Definition unescape (c : ascii) : ascii :=
  if bool_decide (c = "n"%char) then chr 10
  else if bool_decide (c = "r"%char) then chr 13
  else if bool_decide (c = "t"%char) then chr 9
  else if bool_decide (c = "b"%char) then chr 8
  else if bool_decide (c = "a"%char) then chr 7
  else c.

(** After a closing quote: a space or the end of the line. *)
Definition closed (cur rest : sds) : option (sds * sds) :=
  match rest with
  | c :: _ => if is_space c then Some (cur, rest) else None
  | [] => Some (cur, rest)
  end.

(** Inside double quotes, from the character after the opening one: the token
    and what is left, [None] for unbalanced quotes. *)
Fixpoint in_quotes (cur p : sds) : option (sds * sds) :=
  match p with
  | [] => None
  | c :: r =>
    if bool_decide (c = BACKSLASH) then
      match r with
      | [] => in_quotes (cur ++ [c]) r
      | x :: r1 =>
        if bool_decide (x = "x"%char) then
          match r1 with
          | h :: l :: r2 =>
            if is_hex_digit h && is_hex_digit l then in_quotes (cur ++ [chr (hex_digit_to_int h * 16 + hex_digit_to_int l)]) r2
            else in_quotes (cur ++ [unescape x]) r1
          | _ => in_quotes (cur ++ [unescape x]) r1
          end
        else in_quotes (cur ++ [unescape x]) r1
      end
    else if bool_decide (c = DQUOTE) then closed cur r
    else in_quotes (cur ++ [c]) r
  end.

Fixpoint in_single_quotes (cur p : sds) : option (sds * sds) :=
  match p with
  | [] => None
  | c :: r =>
    if bool_decide (c = BACKSLASH) then
      match r with
      | x :: r1 => if bool_decide (x = SQUOTE) then in_single_quotes (cur ++ [x]) r1 else in_single_quotes (cur ++ [c]) r
      | [] => in_single_quotes (cur ++ [c]) r
      end
    else if bool_decide (c = SQUOTE) then closed cur r
    else in_single_quotes (cur ++ [c]) r
  end.

Fixpoint token (cur p : sds) : option (sds * sds) :=
  match p with
  | [] => Some (cur, [])
  | c :: r =>
    if (code c =? 32) || (code c =? 10) || (code c =? 13) || (code c =? 9) then Some (cur, r)
    else if bool_decide (c = DQUOTE) then in_quotes cur r
    else if bool_decide (c = SQUOTE) then in_single_quotes cur r
    else token (cur ++ [c]) r
  end.

(** Every token takes at least one character of the line. *)
Fixpoint split_tokens (fuel : nat) (p : sds) (vector : list sds) : outcome (option (list sds)) :=
  match fuel with
  | O => Fault OutOfFuel
  | S fuel' =>
    match skip_space p with
    | [] => Done (Some vector)
    | p => match token [] p with
           | Some (t, r) => split_tokens fuel' r (vector ++ [t])
           | None => Done None
           end
    end
  end.
Definition sdssplitargs (line : sds) : outcome (option (list sds)) := split_tokens (S (length line)) (cstr line) [].

(** ** Splitting at a separator *)
Definition at_sep (s sep : sds) (j : nat) : bool := bool_decide (take (length sep) (drop j s) = sep).
Fixpoint split_loop (fuel : nat) (s sep : sds) (j start : nat) (tokens : list sds) : list sds * nat :=
  match fuel with
  | O => (tokens, start)
  | S fuel' =>
    if (j + length sep <=? length s)%nat then
      if at_sep s sep j then split_loop fuel' s sep (j + length sep) (j + length sep) (tokens ++ [take (j - start) (drop start s)])
      else split_loop fuel' s sep (j + 1) start tokens
    else (tokens, start)
  end.
Definition sdssplitlen (s sep : sds) : option (list sds) :=
  if (length sep =? 0)%nat then None
  else if (length s =? 0)%nat then Some []
  else let '(tokens, start) := split_loop (length s) s sep 0 0 [] in Some (tokens ++ [drop start s]).

Fixpoint sdsjoin (argv : list sds) (sep : sds) : sds :=
  match argv with
  | [] => []
  | [a] => cstr a
  | a :: r => cstr a ++ cstr sep ++ sdsjoin r sep
  end.

(** ** What is quoted is read back *)
Lemma in_quotes_esc c cur r : in_quotes cur (esc c ++ r) = in_quotes (cur ++ [c]) r.
Proof. destruct c as [[] [] [] [] [] [] [] []]; reflexivity. Qed.

Lemma in_quotes_repr x cur r : in_quotes cur (flat_map esc x ++ DQUOTE :: r) = closed (cur ++ x) r.
Proof.
  revert cur. induction x as [|c x IH]; intros cur; cbn [flat_map]; [by rewrite app_nil_r|].
  rewrite <- app_assoc, in_quotes_esc, IH, <- app_assoc. done.
Qed.

Lemma esc_no_nul c : NUL ∉ esc c.
Proof. destruct c as [[] [] [] [] [] [] [] []]; vm_compute; intros H; repeat (apply elem_of_cons in H as [H|H]; [discriminate H|]); by apply not_elem_of_nil in H. Qed.

(** A line of quoted arguments. *)
Fixpoint quoted_line (args : list sds) : sds :=
  match args with
  | [] => []
  | [a] => sdscatrepr [] a
  | a :: r => sdscatrepr [] a ++ " "%char :: quoted_line r
  end.

Lemma split_step fuel a r v : (r = [] \/ exists r', r = " "%char :: r') -> split_tokens (S fuel) (sdscatrepr [] a ++ r) v = split_tokens fuel r (v ++ [a]).
Proof.
  intros Hr. transitivity (match in_quotes [] (flat_map esc a ++ DQUOTE :: r) with Some (t, r) => split_tokens fuel r (v ++ [t]) | None => Done None end).
  - unfold sdscatrepr. cbn [app]. by rewrite <- app_assoc.
  - rewrite in_quotes_repr. cbn [app]. by destruct Hr as [->|(r' & ->)].
Qed.

Lemma split_quoted args : forall fuel v, (length args < fuel)%nat -> split_tokens fuel (quoted_line args) v = Done (Some (v ++ args)).
Proof.
  assert (Hsp : forall fuel p v, split_tokens fuel (" "%char :: p) v = split_tokens fuel p v) by (intros [|fuel] p v; done).
  induction args as [|a args IH]; intros [|fuel] v Hf; cbn [length] in Hf; try lia; [cbn; by rewrite app_nil_r|]. destruct args as [|b args].
  - cbn [quoted_line]. rewrite <- (app_nil_r (sdscatrepr [] a)), split_step by auto. destruct fuel; [lia|done].
  - change (quoted_line (a :: b :: args)) with (sdscatrepr [] a ++ " "%char :: quoted_line (b :: args)). rewrite split_step by eauto. rewrite Hsp, IH by (cbn [length] in *; lia). by rewrite <- app_assoc.
Qed.

Lemma repr_no_nul a : NUL ∉ sdscatrepr [] a.
Proof.
  unfold sdscatrepr. cbn [app]. rewrite elem_of_cons, elem_of_app, elem_of_cons. intros [H|[H|[H|H]]]; try discriminate; [|by apply not_elem_of_nil in H].
  apply list_elem_of_In, in_flat_map in H as (c & _ & H). by apply (esc_no_nul c), list_elem_of_In.
Qed.
Lemma quoted_line_no_nul args : NUL ∉ quoted_line args.
Proof.
  induction args as [|a [|b args] IH]; [apply not_elem_of_nil|apply repr_no_nul|].
  change (quoted_line (a :: b :: args)) with (sdscatrepr [] a ++ " "%char :: quoted_line (b :: args)).
  rewrite elem_of_app, elem_of_cons. intros [H|[H|H]]; [by apply (repr_no_nul a)|discriminate|done].
Qed.
Lemma quoted_line_length args : (length args <= length (quoted_line args))%nat.
Proof.
  induction args as [|a [|b args] IH]; [done|unfold sdscatrepr; cbn; lia|].
  change (quoted_line (a :: b :: args)) with (sdscatrepr [] a ++ " "%char :: quoted_line (b :: args)). rewrite length_app. unfold sdscatrepr. cbn [length app] in *. lia.
Qed.

(** What sdscatrepr writes, sdssplitargs reads: any arguments, of any bytes
    (zero bytes, quotes and line ends included, and empty ones), quoted and put
    on one line, are split into exactly those arguments. *)
Theorem splitargs_reads_quoted (args : list sds) : sdssplitargs (quoted_line args) = Done (Some args).
Proof.
  unfold sdssplitargs. rewrite cstr_id by apply quoted_line_no_nul. rewrite split_quoted; [done|]. pose proof (quoted_line_length args). lia.
Qed.

(** sdssplitargs ends: the fuel is never used up. *)
Lemma in_quotes_shorter : forall n cur p t r, (length p < n)%nat -> in_quotes cur p = Some (t, r) -> (length r < length p)%nat.
Proof.
  induction n as [|n IH]; intros cur p t r Hn H; [lia|]. destruct p as [|c p]; [done|]. cbn [in_quotes length] in *.
  destruct (bool_decide (c = BACKSLASH)); [|destruct (bool_decide (c = DQUOTE))].
  - destruct p as [|x p]; [apply IH in H; cbn in *; lia|]. destruct (bool_decide (x = "x"%char)); [|apply IH in H; cbn [length] in *; lia].
    destruct p as [|h [|l p]]; [apply IH in H; cbn [length] in *; lia..|]. destruct (is_hex_digit h && is_hex_digit l); apply IH in H; cbn [length] in *; lia.
  - unfold closed in H. destruct p as [|d p]; [simplify_eq; cbn; lia|]. destruct (is_space d); simplify_eq. cbn. lia.
  - apply IH in H; lia.
Qed.
Lemma in_single_quotes_shorter : forall n cur p t r, (length p < n)%nat -> in_single_quotes cur p = Some (t, r) -> (length r < length p)%nat.
Proof.
  induction n as [|n IH]; intros cur p t r Hn H; [lia|]. destruct p as [|c p]; [done|]. cbn [in_single_quotes length] in *.
  destruct (bool_decide (c = BACKSLASH)); [|destruct (bool_decide (c = SQUOTE))].
  - destruct p as [|x p]; [apply IH in H; cbn in *; lia|]. destruct (bool_decide (x = SQUOTE)); apply IH in H; cbn [length] in *; lia.
  - unfold closed in H. destruct p as [|d p]; [simplify_eq; cbn; lia|]. destruct (is_space d); simplify_eq. cbn. lia.
  - apply IH in H; lia.
Qed.
Lemma token_shorter p : forall cur t r, p <> [] -> token cur p = Some (t, r) -> (length r < length p)%nat.
Proof.
  induction p as [|c p IH]; intros cur t r Hp H; [done|]. cbn [token length] in *. destruct (_ || _); [simplify_eq; lia|].
  destruct (bool_decide (c = DQUOTE)); [apply (in_quotes_shorter (S (length p))) in H; lia|].
  destruct (bool_decide (c = SQUOTE)); [apply (in_single_quotes_shorter (S (length p))) in H; lia|]. destruct p as [|d p]; [cbn in H; simplify_eq; cbn; lia|]. apply IH in H; [lia|done].
Qed.
Lemma skip_space_shorter p : (length (skip_space p) <= length p)%nat.
Proof. induction p as [|c p IH]; [done|]. cbn [skip_space]. destruct (is_space c); cbn [length]; lia. Qed.

Lemma sdssplitargs_total line : exists r, sdssplitargs line = Done r.
Proof.
  unfold sdssplitargs. assert (H : (length (cstr line) < S (length line))%nat).
  { enough (length (cstr line) <= length line)%nat by lia. induction line as [|c l IH]; [done|]. cbn [cstr]. destruct (decide _); cbn [length]; lia. }
  revert H. generalize (S (length line)) as fuel. generalize (cstr line) as p. generalize (@nil sds) as v. intros v p fuel. revert v p.
  induction fuel as [|fuel IH]; intros v p Hp; [lia|]. cbn [split_tokens]. pose proof (skip_space_shorter p). destruct (skip_space p) as [|c q] eqn:E; [eauto|].
  destruct (token [] (c :: q)) as [[t r]|] eqn:Et; [|eauto]. apply token_shorter in Et; [|done]. apply IH. lia.
Qed.

(** ** Joining what was split *)
Definition glue (tokens : list sds) (sep : sds) : sds := flat_map (fun t => t ++ sep) tokens.

Lemma split_loop_ok fuel s sep : forall j start tokens, (start <= j)%nat -> (start <= length s)%nat -> glue tokens sep = take start s ->
  let r := split_loop fuel s sep j start tokens in glue (fst r) sep ++ drop (snd r) s = s.
Proof.
  induction fuel as [|fuel IH]; intros j start tokens Hj Hs Hg; cbn [split_loop]; [cbn [fst snd]; by rewrite Hg, take_drop|].
  destruct (Nat.leb_spec (j + length sep) (length s)) as [Hl|Hl]; [|cbn [fst snd]; by rewrite Hg, take_drop]. unfold at_sep. destruct (bool_decide_reflect (take (length sep) (drop j s) = sep)) as [E|E].
  - apply IH; [lia|lia|]. unfold glue in *. rewrite flat_map_app, Hg. cbn [flat_map]. rewrite app_nil_r.
    assert (Hd : drop start s = take (j - start) (drop start s) ++ sep ++ drop (j + length sep) s).
    { rewrite <- (take_drop (j - start) (drop start s)) at 1. f_equal. rewrite drop_drop. replace (start + (j - start))%nat with j by lia.
      rewrite <- (take_drop (length sep) (drop j s)), E, drop_drop at 1. done. }
    assert (Hs' : s = (take start s ++ take (j - start) (drop start s) ++ sep) ++ drop (j + length sep) s) by (rewrite <- !app_assoc, <- Hd; by rewrite take_drop).
    symmetry. rewrite Hs' at 1. apply take_app_length'. rewrite !length_app, !length_take, length_drop. lia.
  - apply IH; [lia|lia|done].
Qed.

Lemma glue_elem tokens sep t c : t ∈ tokens -> c ∈ t -> c ∈ glue tokens sep.
Proof. intros Ht Hc. apply list_elem_of_In, in_flat_map. exists t. split; [by apply list_elem_of_In|]. apply list_elem_of_In, elem_of_app. by left. Qed.

Lemma glue_join tokens last sep : Forall (fun t => NUL ∉ t) (tokens ++ [last]) -> NUL ∉ sep -> sdsjoin (tokens ++ [last]) sep = glue tokens sep ++ last.
Proof.
  intros Ht Hs. induction tokens as [|t tokens IH]; cbn [app] in *.
  - cbn. apply cstr_id. by apply Forall_inv in Ht.
  - apply Forall_cons in Ht as [H1 Ht]. cbn [sdsjoin]. destruct (tokens ++ [last]) as [|x r] eqn:E; [by destruct tokens|]. rewrite IH by done. rewrite !cstr_id by done.
    unfold glue. cbn [flat_map]. by rewrite <- !app_assoc.
Qed.
(** Joining what sdssplitlen split gives the string back. *)
Lemma sdssplitlen_join s sep : s <> [] -> sep <> [] -> NUL ∉ s -> NUL ∉ sep -> exists tokens, sdssplitlen s sep = Some tokens /\ sdsjoin tokens sep = s.
Proof.
  intros Hs Hsep Hns Hnsep. unfold sdssplitlen. destruct sep as [|x sep']; [done|]. destruct s as [|y s']; [done|]. cbn [length Nat.eqb]. set (s := y :: s') in *. set (sep := x :: sep') in *.
  pose proof (split_loop_ok (length s) s sep 0 0 [] (Nat.le_refl 0) (Nat.le_0_l _) eq_refl) as H. change (S (length s')) with (length s). destruct (split_loop (length s) s sep 0 0 []) as [tokens start].
  cbn [fst snd] in H. eexists. split; [done|]. rewrite glue_join; [done| |done]. apply Forall_app. split; [|apply Forall_singleton].
  - apply Forall_forall. intros t Ht Hc. apply Hns. rewrite <- H. apply elem_of_app. left. by eapply glue_elem.
  - intros Hc. apply Hns. rewrite <- H. apply elem_of_app. by right.
Qed.
End SdsText.
