(* ===== verification/Util.v ===== *)
(** * util.c: glob matching and integer/string conversion *)
From S2P Require Import Prelude CStr.

Module Util.

(** ** stringmatchlen

    A pattern pointer is the rest of the pattern, so [patternLen] is its
    length; the string pointer is the rest of the string with [stringLen]
    beside it, because the code can step past the end of an empty string
    ([stringLen] is then negative, and reading faults).  Reading at the end of
    either gives the NUL of the sds buffer. *)
Definition hd0 (s : sds) : ascii := default NUL (head s).

Definition deref (s : sds) (slen : Z) : outcome ascii :=
  if slen <? 0 then Fault OutOfBounds else Done (hd0 s).

Fixpoint skip_stars (p : sds) : sds :=
  match p with
  | [] => []
  | c :: r => if Ascii.eqb c "*" then skip_stars r else p
  end.

Definition same_char (nocase : bool) (a b : ascii) : bool :=
  if nocase then Ascii.eqb (tolower a) (tolower b) else Ascii.eqb a b.

(** [start > end] are swapped before the case folding, as in the code. *)
Definition in_range (nocase : bool) (a z c : ascii) : bool :=
  let (st, en) := if schar a >? schar z then (z, a) else (a, z) in
  let f := fun x => if nocase then schar (tolower x) else schar x in
  (f st <=? f c) && (f c <=? f en).

(** The [while(1)] loop of the '[' case: where [pattern] is left (on the ']',
    or on the last byte of a pattern with no ']') and [match]. *)
Fixpoint bracket (fuel : nat) (nocase : bool) (p prev s : sds) (slen : Z) (m : bool)
  : outcome (sds * bool) :=
  match fuel with
  | O => Fault OutOfFuel
  | S fuel' =>
    match p with
    | [] => mret (prev, m)
    | a :: p1 =>
      if Ascii.eqb a "\" then
        c ← deref s slen;
        let m := if Ascii.eqb (hd0 p1) c then true else m in
        match p1 with
        | [] => Fault OutOfBounds
        | _ :: p2 => bracket fuel' nocase p2 p1 s slen m
        end
      else if Ascii.eqb a "]" then mret (p, m)
      else
        match p1 with
        | d :: z :: p3 =>
          if Ascii.eqb d "-" then
            c ← deref s slen;
            let m := if in_range nocase a z c then true else m in
            bracket fuel' nocase p3 (z :: p3) s slen m
          else
            c ← deref s slen;
            let m := if same_char nocase a c then true else m in
            bracket fuel' nocase p1 p s slen m
        | _ =>
          c ← deref s slen;
          let m := if same_char nocase a c then true else m in
          bracket fuel' nocase p1 p s slen m
        end
    end
  end.

(** The [while(stringLen)] loop of the '*' case; [try] is the recursive call. *)
Fixpoint star_loop (try : sds -> Z -> outcome bool) (s : sds) (slen : Z) : outcome bool :=
  if slen =? 0 then mret false
  else
    b ← try s slen;
    if (b : bool) then mret true
    else match s with
         | [] => Fault OutOfBounds
         | _ :: s' => star_loop try s' (slen - 1)
         end.

(** Every turn of the main loop and every recursive call shortens the
    pattern: [length p + 1] is enough fuel ([stringmatchlen_spec]). *)
Fixpoint stringmatch_loop (fuel : nat) (nocase : bool) (p s : sds) (slen : Z) : outcome bool :=
  match fuel with
  | O => Fault OutOfFuel
  | S fuel' =>
    let next p s slen :=
      if slen =? 0 then mret (bool_decide (skip_stars p = []))
      else stringmatch_loop fuel' nocase p s slen in
    match p with
    | [] => mret (slen =? 0)
    | c :: p1 =>
      if Ascii.eqb c "*" then
        let p' := skip_stars p1 in
        if bool_decide (p' = []) then mret true
        else
          star_loop (stringmatch_loop fuel' nocase p') s slen
      else if Ascii.eqb c "?" then
        if slen =? 0 then mret false else next p1 (tail s) (slen - 1)
      else if Ascii.eqb c "[" then
        let not := Ascii.eqb (hd0 p1) "^" in
        let p2 := if not then tail p1 else p1 in
        let prev := if not then p1 else p in
        r ← bracket (S (length p2)) nocase p2 prev s slen false;
        let '(q, m) := r in
        if (if not then negb m else m) then next (tail q) (tail s) (slen - 1)
        else mret false
      else
        let p' := if Ascii.eqb c "\" && (2 <=? sdslen p) then p1 else p in
        x ← deref s slen;
        if same_char nocase (hd0 p') x then next (tail p') (tail s) (slen - 1)
        else mret false
    end
  end.

Definition stringmatchlen (pattern string : sds) (nocase : bool) : outcome bool :=
  stringmatch_loop (S (length pattern)) nocase pattern string (sdslen string).

Definition stringmatch (pattern string : sds) (nocase : bool) : outcome bool :=
  stringmatchlen (cstr pattern) (cstr string) nocase.

(** ** Number conversion *)

(** [digits10] recurses on [v / 10^12]: three calls are enough for 64 bits. *)
Fixpoint digits10 (fuel : nat) (v : Z) : outcome Z :=
  match fuel with
  | O => Fault OutOfFuel
  | S fuel' =>
    if v <? 10 then mret 1
    else if v <? 100 then mret 2
    else if v <? 1000 then mret 3
    else if v <? 1000000000000 then
      if v <? 100000000 then
        if v <? 1000000 then
          if v <? 10000 then mret 4
          else mret (5 + (if v >=? 100000 then 1 else 0))
        else mret (7 + (if v >=? 10000000 then 1 else 0))
      else if v <? 10000000000 then mret (9 + (if v >=? 1000000000 then 1 else 0))
      else mret (11 + (if v >=? 100000000000 then 1 else 0))
    else
      d ← digits10 fuel' (v / 1000000000000);
      mret (12 + d)
  end.

(** A write [dst[i] = c]. *)
Definition poke (dst : sds) (i : Z) (c : ascii) : outcome sds :=
  if (0 <=? i) && (i <? sdslen dst) then Done (<[Z.to_nat i := c]> dst) else Fault OutOfBounds.

(** [digits[i]] of the table "00010203...99". *)
Definition digits_table : sds :=
  concat (map (fun k => [chr (48 + Z.of_nat k / 10); chr (48 + Z.of_nat k mod 10)]) (seq 0 100)).

Definition digit_at (i : Z) : outcome ascii := expect OutOfBounds (digits_table !! Z.to_nat i).

(** [while (value >= 100)]: two digits a turn, from the right. *)
Fixpoint ll2string_loop (fuel : nat) (dst : sds) (next value : Z) : outcome (sds * Z * Z) :=
  match fuel with
  | O => Fault OutOfFuel
  | S fuel' =>
    if value >=? 100 then
      let i := (value mod 100) * 2 in
      d1 ← digit_at (i + 1);
      d0 ← digit_at i;
      dst ← poke dst next d1;
      dst ← poke dst (next - 1) d0;
      ll2string_loop fuel' dst (next - 2) (value / 100)
    else mret (dst, next, value)
  end.

(** Returns the buffer and the length; [dst] is the caller's buffer, its size
    is [dstlen]. *)
Definition ll2string (dst : sds) (svalue : Z) : outcome (sds * Z) :=
  let '(value, negative) :=
    if svalue <? 0 then
      if negb (svalue =? INT64_MIN) then (- svalue, 1) else (INT64_MAX + 1, 1)
    else (svalue, 0) in
  d ← digits10 3 value;
  let length := d + negative in
  if length >=? sdslen dst then mret (dst, 0)
  else
    let next := length in
    dst ← poke dst next NUL;
    r ← ll2string_loop 11 dst (next - 1) value;
    let '(dst, next, value) := r in
    dst ← (if value <? 10 then poke dst next (chr (48 + value))
           else
             let i := value * 2 in
             d1 ← digit_at (i + 1);
             d0 ← digit_at i;
             dst ← poke dst next d1;
             poke dst (next - 1) d0);
    dst ← (if negative =? 1 then poke dst 0 "-"%char else mret dst);
    mret (dst, length).

(** The digit loop of [string2ll]: [None] on overflow of the 64-bit
    accumulator, else the value and the bytes not consumed. *)
Fixpoint string2ll_loop (v : Z) (p : sds) : option (Z * sds) :=
  match p with
  | [] => Some (v, [])
  | c :: r =>
    if is_digit c then
      if v >? UINT64_MAX / 10 then None
      else
        let v10 := v * 10 in
        if v10 >? UINT64_MAX - (code c - 48) then None
        else string2ll_loop (v10 + (code c - 48)) r
    else Some (v, p)
  end.

Definition string2ll (s : sds) : option Z :=
  match s with
  | [] => None
  | c :: r =>
    if (sdslen s =? 1) && Ascii.eqb c "0" then Some 0
    else
      let '(negative, p) := if Ascii.eqb c "-" then (true, r) else (false, s) in
      match p with
      | [] => None
      | d :: p1 =>
        if (49 <=? code d) && (code d <=? 57) then
          match string2ll_loop (code d - 48) p1 with
          | None => None
          | Some (_, _ :: _) => None
          | Some (v, []) =>
            if (negative : bool) then if v >? INT64_MAX + 1 then None else Some (- v)
            else if v >? INT64_MAX then None else Some v
          end
        else None
      end
  end.

Definition string2l (s : sds) : option Z :=
  match string2ll s with
  | None => None
  | Some v => if (v <? INT64_MIN) || (v >? INT64_MAX) then None else Some v
  end.

(** The digits at the front of a string, and the rest. *)
Fixpoint span_digits (s : sds) : sds * sds :=
  match s with
  | [] => ([], [])
  | c :: r => if is_digit c then let '(d, u) := span_digits r in (c :: d, u) else ([], s)
  end.

(** memtoll: a number with a memory unit; the value, and [*err]. *)
Definition memtoll (p : sds) : Z * bool :=
  let p := cstr p in
  let sign := match p with c :: _ => Ascii.eqb c "-" | [] => false end in
  let body := if sign then tail p else p in
  let '(ds, u) := span_digits body in
  let '(mul, err) :=
    if bool_decide (u = []) || strcasecmp_eq u (str "b") then (1, false)
    else if strcasecmp_eq u (str "k") then (1000, false)
    else if strcasecmp_eq u (str "kb") then (1024, false)
    else if strcasecmp_eq u (str "m") then (1000 * 1000, false)
    else if strcasecmp_eq u (str "mb") then (1024 * 1024, false)
    else if strcasecmp_eq u (str "g") then (1000 * 1000 * 1000, false)
    else if strcasecmp_eq u (str "gb") then (1024 * 1024 * 1024, false)
    else (1, true) in
  let buf := if sign then "-"%char :: ds else ds in
  if sdslen buf >=? 128 then (INT64_MAX, true)
  else (to_s 64 (strtol buf * mul), err).

(** ** What a glob pattern means

    The reference: a pattern is a list of tokens, a token is a star or a
    one-byte class, and the matched strings are defined inductively. *)
Inductive gtok := GStar | GOne (f : ascii -> bool).

Inductive gmatch : list gtok -> sds -> Prop :=
  | gm_nil : gmatch [] []
  | gm_star ts s1 s2 : gmatch ts s2 -> gmatch (GStar :: ts) (s1 ++ s2)
  | gm_one f ts c s : f c = true -> gmatch ts s -> gmatch (GOne f :: ts) (c :: s).

(** Letters without their case, by their place in the alphabet, and bytes as
    they are ordered: from -128 to 127. *)
Definition lower_of (c : ascii) : ascii :=
  match list_find (eq c) (str "ABCDEFGHIJKLMNOPQRSTUVWXYZ") with
  | Some (i, _) => default c (str "abcdefghijklmnopqrstuvwxyz" !! i)
  | None => c
  end.
Definition folded (nocase : bool) (c : ascii) : ascii := if nocase then lower_of c else c.
Definition byte_rank (c : ascii) : Z :=
  let n := Z.of_N (Ascii.N_of_ascii c) in if n <? 128 then n else n - 256.

(** [c] is the character [a] of the pattern. *)
Definition alike (nocase : bool) (a c : ascii) : bool := bool_decide (folded nocase a = folded nocase c).
(** [c] is within the range [a-z] of the pattern, whichever of the two comes
    first. *)
Definition from_to (nocase : bool) (a z c : ascii) : bool :=
  let lo := if decide (byte_rank a <= byte_rank z) then a else z in
  let hi := if decide (byte_rank a <= byte_rank z) then z else a in
  bool_decide (byte_rank (folded nocase lo) <= byte_rank (folded nocase c) <= byte_rank (folded nocase hi)).

Lemma lower_of_tolower c : lower_of c = tolower c.
Proof. destruct c as [[] [] [] [] [] [] [] []]; vm_compute; reflexivity. Qed.
Lemma byte_rank_schar c : byte_rank c = schar c.
Proof. destruct c as [[] [] [] [] [] [] [] []]; vm_compute; reflexivity. Qed.

Lemma same_char_alike nocase a c : same_char nocase a c = alike nocase a c.
Proof.
  unfold same_char, alike, folded. rewrite !lower_of_tolower. destruct nocase; case_bool_decide as E;
    first [by apply Ascii.eqb_eq | by apply Ascii.eqb_neq].
Qed.

Lemma in_range_from_to nocase a z c : in_range nocase a z c = from_to nocase a z c.
Proof.
  assert (H : forall st en : Z, forall x, (st <=? x) && (x <=? en) = bool_decide (st <= x <= en)).
  { intros st en x. apply eq_true_iff_eq. rewrite andb_true_iff, bool_decide_eq_true, !Z.leb_le. done. }
  unfold in_range, from_to, folded. rewrite !byte_rank_schar, Z.gtb_ltb.
  destruct (Z.ltb_spec (schar z) (schar a)); [rewrite !decide_False by lia|rewrite !decide_True by lia];
    destruct nocase; by rewrite H, ?lower_of_tolower.
Qed.

(** The class of a bracket expression; [None] when it ends in a backslash. *)
Fixpoint parse_class (fuel : nat) (nocase : bool) (p prev : sds) (g : ascii -> bool)
  : option (sds * (ascii -> bool)) :=
  match fuel with
  | O => None
  | S fuel' =>
    match p with
    | [] => Some (prev, g)
    | a :: p1 =>
      if Ascii.eqb a "\" then
        match p1 with
        | [] => None
        | x :: p2 => parse_class fuel' nocase p2 p1 (fun c => if Ascii.eqb x c then true else g c)
        end
      else if Ascii.eqb a "]" then Some (p, g)
      else
        match p1 with
        | d :: z :: p3 =>
          if Ascii.eqb d "-" then
            parse_class fuel' nocase p3 (z :: p3) (fun c => if from_to nocase a z c then true else g c)
          else parse_class fuel' nocase p1 p (fun c => if alike nocase a c then true else g c)
        | _ => parse_class fuel' nocase p1 p (fun c => if alike nocase a c then true else g c)
        end
    end
  end.

Fixpoint parse_glob (fuel : nat) (nocase : bool) (p : sds) : option (list gtok) :=
  match fuel with
  | O => None
  | S fuel' =>
    match p with
    | [] => Some []
    | c :: p1 =>
      if Ascii.eqb c "*" then ts ← parse_glob fuel' nocase p1; Some (GStar :: ts)
      else if Ascii.eqb c "?" then
        ts ← parse_glob fuel' nocase p1; Some (GOne (fun _ => true) :: ts)
      else if Ascii.eqb c "[" then
        let not := Ascii.eqb (hd0 p1) "^" in
        let p2 := if not then tail p1 else p1 in
        let prev := if not then p1 else p in
        r ← parse_class (S (length p2)) nocase p2 prev (fun _ => false);
        let '(q, g) := r in
        ts ← parse_glob fuel' nocase (tail q);
        Some (GOne (fun x => if not then negb (g x) else g x) :: ts)
      else
        let p' := if Ascii.eqb c "\" && (2 <=? sdslen p) then p1 else p in
        ts ← parse_glob fuel' nocase (tail p');
        Some (GOne (alike nocase (hd0 p')) :: ts)
    end
  end.

Definition glob_tokens (nocase : bool) (p : sds) : option (list gtok) :=
  parse_glob (S (length p)) nocase p.

Lemma bracket_parse fuel nocase p prev s slen g q g' :
  0 <= slen -> parse_class fuel nocase p prev g = Some (q, g') ->
  bracket fuel nocase p prev s slen (g (hd0 s)) = Done (q, g' (hd0 s)).
Proof.
  intros Hs. revert p prev g. induction fuel as [|fuel IH]; intros p prev g; simpl; [done|].
  assert (deref s slen = Done (hd0 s)) as -> by (unfold deref; case_if; [lia|done]).
  intros H. destruct p as [|a p1]; [by injection H as <- <-|].
  destruct (Ascii.eqb a "\").
  - rewrite bind_Done. destruct p1 as [|x p2]; [done|]. apply (IH _ _ _ H).
  - destruct (Ascii.eqb a "]"); [by injection H as <- <-|].
    destruct p1 as [|d [|z p3]]; try (rewrite bind_Done, same_char_alike; apply (IH _ _ _ H)).
    destruct (Ascii.eqb d "-"); rewrite bind_Done, ?same_char_alike, ?in_range_from_to; apply (IH _ _ _ H).
Qed.

(** The position a class ends at is a proper part of what was read. *)
Lemma parse_class_short fuel nocase : forall p prev g q g',
  parse_class fuel nocase p prev g = Some (q, g') ->
  length prev = S (length p) -> (length q <= S (length p))%nat.
Proof.
  induction fuel as [|fuel IH]; intros p prev g q g' H Hp; simpl in H; [done|].
  destruct p as [|a p1]; [injection H as <- <-; simpl in *; lia|].
  destruct (Ascii.eqb a "\").
  - destruct p1 as [|x p2]; [done|]. apply IH in H; simpl in *; lia.
  - destruct (Ascii.eqb a "]"); [injection H as <- <-; simpl; lia|].
    destruct p1 as [|d [|z p3]]; [apply IH in H; simpl in *; lia..|].
    destruct (Ascii.eqb d "-"); apply IH in H; simpl in *; lia.
Qed.

Lemma skip_stars_le p : (length (skip_stars p) <= length p)%nat.
Proof. induction p as [|c r IH]; simpl; [lia|]. destruct (Ascii.eqb c "*"); simpl; lia. Qed.

Lemma gmatch_star_iff ts s : gmatch (GStar :: ts) s <-> exists k, gmatch ts (drop k s).
Proof.
  split.
  - inversion 1; subst. exists (length s1). by rewrite drop_app_length.
  - intros [k Hk]. rewrite <- (take_drop k s). by constructor.
Qed.

Lemma gmatch_one_iff f ts s :
  gmatch (GOne f :: ts) s <-> exists c s', s = c :: s' /\ f c = true /\ gmatch ts s'.
Proof. split; [inversion 1; subst; eauto|]. intros (c & s' & -> & ? & ?). by constructor. Qed.

Lemma gmatch_star_star ts s : gmatch (GStar :: GStar :: ts) s <-> gmatch (GStar :: ts) s.
Proof.
  rewrite !gmatch_star_iff. setoid_rewrite gmatch_star_iff. split.
  - intros (k & k' & H). rewrite drop_drop in H. eauto.
  - intros (k & H). exists k, 0%nat. by rewrite drop_0.
Qed.

(** Where the class starts, after the '[' and the '^'. *)
Lemma class_start (c : ascii) p1 :
  let not := Ascii.eqb (hd0 p1) "^" in
  length (if not then p1 else c :: p1) = S (length (if not then tail p1 else p1)) /\
  (length (if not then tail p1 else p1) <= length p1)%nat.
Proof. destruct p1 as [|x r]; [done|]. unfold hd0. cbn [head default from_option id tail]. destruct (Ascii.eqb x "^"); simpl; lia. Qed.

Lemma class_end fuel nocase c p1 q g :
  parse_class fuel nocase (if Ascii.eqb (hd0 p1) "^" then tail p1 else p1)
    (if Ascii.eqb (hd0 p1) "^" then p1 else c :: p1) (fun _ => false) = Some (q, g) ->
  (length (tail q) <= length p1)%nat.
Proof.
  destruct (class_start c p1) as [H1 H2]. intros H. apply parse_class_short in H; [|done].
  destruct q; simpl in *; lia.
Qed.

Lemma escape_tail c p1 :
  (length (tail (if Ascii.eqb c "\" && (2 <=? sdslen (c :: p1))%Z then p1 else c :: p1)) <= length p1)%nat.
Proof. destruct (Ascii.eqb c "\" && _); simpl; [destruct p1; simpl; lia|lia]. Qed.

(** With enough fuel the parse does not depend on it. *)
Lemma parse_glob_fuel nocase : forall f1 f2 p, (length p < f1)%nat -> (length p < f2)%nat ->
  parse_glob f1 nocase p = parse_glob f2 nocase p.
Proof.
  induction f1 as [|f1 IH]; intros f2 p H1 H2; [lia|]. destruct f2 as [|f2]; [lia|].
  destruct p as [|c p1]; cbn [parse_glob]; [done|]. simpl in H1, H2.
  destruct (Ascii.eqb c "*"); [by rewrite (IH f2) by lia|].
  destruct (Ascii.eqb c "?"); [by rewrite (IH f2) by lia|].
  destruct (Ascii.eqb c "[").
  - match goal with |- context [parse_class ?n ?nc ?a ?b ?g] =>
      destruct (parse_class n nc a b g) as [[q g']|] eqn:Hc end; [|done]. simpl.
    apply class_end in Hc. by rewrite (IH f2) by lia.
  - pose proof (escape_tail c p1). by rewrite (IH f2) by lia.
Qed.

(** The tokens of a pattern that starts with something else than a star. *)
Lemma parse_one nocase f c p1 ts :
  Ascii.eqb c "*" = false -> parse_glob (S f) nocase (c :: p1) = Some ts ->
  exists g ts', ts = GOne g :: ts'.
Proof.
  intros Hc. cbn [parse_glob]. rewrite Hc. intros H.
  destruct (Ascii.eqb c "?"); [|destruct (Ascii.eqb c "[")].
  - apply bind_Some in H as (? & _ & [= <-]). eauto.
  - apply bind_Some in H as ([q g] & _ & H). apply bind_Some in H as (? & _ & [= <-]). eauto.
  - apply bind_Some in H as (? & _ & [= <-]). eauto.
Qed.

Lemma not_gmatch_one_nil f ts : ~ gmatch (GOne f :: ts) [].
Proof. inversion 1. Qed.

Lemma gmatch_star_nil ts : gmatch (GStar :: ts) [] <-> gmatch ts [].
Proof.
  rewrite gmatch_star_iff. split; [intros [k H]; by rewrite drop_nil in H|].
  intros H. by exists 0%nat.
Qed.

Lemma skip_stars_spec nocase p : forall f ts,
  (length p < f)%nat -> parse_glob f nocase p = Some ts ->
  bool_decide (skip_stars p = []) = true <-> gmatch ts [].
Proof.
  induction p as [|c p1 IH]; intros f ts Hf H; destruct f as [|f]; simpl in Hf; try lia.
  - injection H as <-. split; [constructor|done].
  - simpl skip_stars. destruct (Ascii.eqb c "*") eqn:Hc.
    + cbn [parse_glob] in H. rewrite Hc in H. apply bind_Some in H as (ts' & Ht & [= <-]).
      rewrite gmatch_star_nil. eapply IH; [|exact Ht]. lia.
    + apply parse_one in H as (g & ts' & ->); [|done]. rewrite bool_decide_eq_true.
      split; [done|]. intros []%not_gmatch_one_nil.
Qed.

Lemma parse_skip_stars nocase p : forall f ts,
  (length p < f)%nat -> parse_glob f nocase p = Some ts ->
  exists ts', parse_glob f nocase (skip_stars p) = Some ts' /\
    (forall s, gmatch (GStar :: ts) s <-> gmatch (GStar :: ts') s) /\
    (skip_stars p <> [] -> ~ gmatch ts' []).
Proof.
  induction p as [|c p1 IH]; intros f ts Hf H; simpl in Hf.
  - exists ts. done.
  - simpl skip_stars. destruct (Ascii.eqb c "*") eqn:Hc.
    + destruct f as [|f]; [lia|]. cbn [parse_glob] in H. rewrite Hc in H.
      apply bind_Some in H as (ts0 & Ht & [= <-]).
      destruct (IH f ts0 ltac:(lia) Ht) as (ts' & Hp & Hm & Hn). exists ts'.
      split; [|split; [|done]].
      * rewrite <- Hp. apply parse_glob_fuel; pose proof (skip_stars_le p1); lia.
      * intros s. rewrite gmatch_star_star. apply Hm.
    + exists ts. split; [done|]. split; [done|]. intros _ Hg.
      destruct f as [|f]; [lia|]. apply parse_one in H as (g & ts' & ->); [|done].
      by apply not_gmatch_one_nil in Hg.
Qed.

(** The loop of the '*' case tries every suffix. *)
Lemma star_loop_spec (try : sds -> Z -> outcome bool) ts :
  ~ gmatch ts [] ->
  (forall s, s <> [] -> exists b, try s (sdslen s) = Done b /\ (b = true <-> gmatch ts s)) ->
  forall s, exists b, star_loop try s (sdslen s) = Done b /\ (b = true <-> gmatch (GStar :: ts) s).
Proof.
  intros Hn Ht. induction s as [|y s IHs]; cbn [star_loop].
  - exists false. split; [done|]. rewrite gmatch_star_nil. done.
  - assert (sdslen (y :: s) =? 0 = false) as -> by (unfold sdslen; apply Z.eqb_neq; simpl; lia).
    destruct (Ht (y :: s) ltac:(done)) as (b & -> & Hb). rewrite bind_Done. destruct b.
    + exists true. split; [done|]. split; [intros _|done]. apply gmatch_star_iff. exists 0%nat. by apply Hb.
    + replace (sdslen (y :: s) - 1) with (sdslen s) by (unfold sdslen; simpl; lia).
      destruct IHs as (b & Hr & Hb'). exists b. split; [done|]. rewrite Hb', !gmatch_star_iff.
      split; [intros [k Hk]; by exists (S k)|]. intros [[|k] Hk]; [by apply Hb in Hk|by exists k].
Qed.

Lemma glob_loop_spec nocase : forall fuel p s ts,
  (length p < fuel)%nat -> parse_glob fuel nocase p = Some ts -> s <> [] ->
  exists b, stringmatch_loop fuel nocase p s (sdslen s) = Done b /\ (b = true <-> gmatch ts s).
Proof.
  induction fuel as [|fuel IH]; intros p s ts Hf Hp Hs; [lia|].
  (* what follows the switch: [pattern++], and the test for the end of the string *)
  assert (Hnext : forall p' s' ts', (length p' < fuel)%nat -> parse_glob fuel nocase p' = Some ts' ->
    exists b, (if sdslen s' =? 0 then mret (bool_decide (skip_stars p' = []))
               else stringmatch_loop fuel nocase p' s' (sdslen s')) = Done b /\ (b = true <-> gmatch ts' s')).
  { intros p' s' ts' Hl Hp'. unfold sdslen. destruct s' as [|c' s'].
    - eexists; split; [reflexivity|]. by eapply skip_stars_spec.
    - rewrite (proj2 (Z.eqb_neq _ _)) by (simpl; lia). by apply IH. }
  assert (Hcons : exists x s1, s = x :: s1) by (destruct s; [done|eauto]).
  destruct Hcons as (x & s1 & ->).
  assert (Hlen : sdslen (x :: s1) - 1 = sdslen s1) by (unfold sdslen; simpl; lia).
  assert (Hd : deref (x :: s1) (sdslen (x :: s1)) = Done x)
    by (unfold deref, sdslen; rewrite (proj2 (Z.ltb_ge _ _)) by lia; done).
  assert (H0 : (sdslen (x :: s1) =? 0) = false) by (unfold sdslen; apply Z.eqb_neq; simpl; lia).
  (* a one-byte token *)
  assert (Hone : forall (g : ascii -> bool) p' ts', (length p' < fuel)%nat -> parse_glob fuel nocase p' = Some ts' ->
    exists b, (if g x then (if sdslen s1 =? 0 then mret (bool_decide (skip_stars p' = []))
               else stringmatch_loop fuel nocase p' s1 (sdslen s1)) else mret false) = Done b /\
      (b = true <-> gmatch (GOne g :: ts') (x :: s1))).
  { intros g p' ts' Hl Hp'. setoid_rewrite gmatch_one_iff. destruct (g x) eqn:Hg.
    - destruct (Hnext p' s1 ts' Hl Hp') as (b & -> & Hb). exists b. split; [done|]. naive_solver.
    - exists false. split; [done|]. naive_solver. }
  destruct p as [|c p1].
  { cbn [stringmatch_loop parse_glob] in *. injection Hp as <-. rewrite H0. exists false.
    split; [done|]. split; [done|inversion 1]. }
  simpl in Hf. cbn [stringmatch_loop parse_glob] in *. destruct (Ascii.eqb c "*").
  - apply bind_Some in Hp as (ts1 & Hp1 & [= <-]).
    destruct (parse_skip_stars nocase p1 fuel ts1 ltac:(lia) Hp1) as (ts' & Hp' & Hm & Hn).
    pose proof (skip_stars_le p1) as Hle. setoid_rewrite Hm. clear Hm.
    set (p' := skip_stars p1) in *. case_bool_decide as He.
    + exists true. split; [done|]. split; [intros _|done]. rewrite He in Hp'.
      destruct fuel; [done|]. injection Hp' as <-. apply gmatch_star_iff.
      exists (length (x :: s1)). rewrite drop_all. constructor.
    + apply star_loop_spec; [by apply Hn|]. intros s Hs'. apply IH; [lia|done|done].
  - destruct (Ascii.eqb c "?").
    { apply bind_Some in Hp as (ts1 & Hp1 & [= <-]). rewrite H0, Hlen.
      apply (Hone (fun _ => true)); [lia|done]. }
    rewrite Hlen. destruct (Ascii.eqb c "[").
    + apply bind_Some in Hp as ([q g] & Hc & Hp). apply bind_Some in Hp as (ts1 & Hp1 & [= <-]).
      pose proof (class_end _ _ _ _ _ _ Hc).
      erewrite (bracket_parse _ _ _ _ (x :: s1) _ (fun _ => false));
        [|unfold sdslen; lia|exact Hc].
      rewrite bind_Done. apply (Hone (fun x => if Ascii.eqb (hd0 p1) "^" then negb (g x) else g x)); [lia|done].
    + apply bind_Some in Hp as (ts1 & Hp1 & [= <-]). rewrite Hd, bind_Done.
      rewrite same_char_alike. pose proof (escape_tail c p1). by apply Hone; [lia|].
Qed.


(** ** Decimal representations *)

(** Horner evaluation of digits, starting from [a]. *)
Definition dval (a : Z) (s : sds) : Z := fold_left (fun a c => a * 10 + (code c - 48)) s a.

(** The decimal representation of [n]: no leading zero, "0" for zero. *)
Definition canonical (s : sds) (n : Z) : Prop :=
  exists (neg : bool) c ds,
    s = (if neg then "-"%char :: c :: ds else c :: ds) /\
    Forall (fun d => is_digit d = true) (c :: ds) /\
    n = (if neg then - dval 0 (c :: ds) else dval 0 (c :: ds)) /\
    (c = "0"%char -> ds = [] /\ neg = false).

Lemma is_digit_range c : is_digit c = true <-> 48 <= code c <= 57.
Proof. unfold is_digit. rewrite andb_true_iff, !Z.leb_le. done. Qed.

Lemma dval_cons a c s : dval a (c :: s) = dval (a * 10 + (code c - 48)) s.
Proof. done. Qed.

Lemma dval_app a s t : dval a (s ++ t) = dval (dval a s) t.
Proof. apply fold_left_app. Qed.

Lemma dval_bounds s : forall a, 0 <= a -> Forall (fun d => is_digit d = true) s ->
  a * 10 ^ Z.of_nat (length s) <= dval a s < (a + 1) * 10 ^ Z.of_nat (length s).
Proof.
  induction s as [|c s IH]; intros a Ha Hs.
  - unfold dval; simpl. lia.
  - apply Forall_cons in Hs as [Hc Hs]. apply is_digit_range in Hc. rewrite dval_cons.
    specialize (IH (a * 10 + (code c - 48)) ltac:(lia) Hs). cbn [length].
    rewrite Nat2Z.inj_succ, Z.pow_succ_r by lia.
    assert (0 < 10 ^ Z.of_nat (length s)) by (apply Z.pow_pos_nonneg; lia). nia.
Qed.

Lemma dval_ge a s : 0 <= a -> Forall (fun d => is_digit d = true) s -> a <= dval a s.
Proof.
  intros Ha Hs. pose proof (dval_bounds s a Ha Hs).
  assert (0 < 10 ^ Z.of_nat (length s)) by (apply Z.pow_pos_nonneg; lia). nia.
Qed.

Lemma string2ll_loop_iff p : forall v v',
  0 <= v <= UINT64_MAX ->
  string2ll_loop v p = Some (v', []) <->
  Forall (fun d => is_digit d = true) p /\ v' = dval v p /\ v' <= UINT64_MAX.
Proof.
  induction p as [|c p IH]; intros v v' Hv; cbn [string2ll_loop].
  - split; [intros [= ->]; repeat split; [constructor|lia]|]. intros (_ & -> & _). done.
  - destruct (is_digit c) eqn:Hc.
    + pose proof (proj1 (is_digit_range c) Hc) as Hr. rewrite Z.gtb_ltb.
      assert (UINT64_MAX / 10 = 1844674407370955161) as -> by reflexivity.
      assert (Hno : UINT64_MAX < v * 10 + (code c - 48) ->
        ~ (Forall (fun d => is_digit d = true) (c :: p) /\ v' = dval v (c :: p) /\ v' <= UINT64_MAX)).
      { intros Hov (Hall & -> & Hle). apply Forall_cons in Hall as [_ Hall]. rewrite dval_cons in Hle.
        pose proof (dval_ge (v * 10 + (code c - 48)) p ltac:(lia) Hall). lia. }
      unfold UINT64_MAX in *. destruct (Z.ltb_spec 1844674407370955161 v).
      { split; [done|]. intros Hx. exfalso. apply Hno; [lia|done]. }
      rewrite Z.gtb_ltb. destruct (Z.ltb_spec (18446744073709551615 - (code c - 48)) (v * 10)).
      { split; [done|]. intros H'. exfalso. apply Hno; [lia|done]. }
      rewrite IH by lia. rewrite dval_cons, Forall_cons. naive_solver.
    + split; [done|]. intros (H & _). apply Forall_cons in H as [H _]. congruence.
Qed.

Lemma digit_not_minus c : is_digit c = true -> Ascii.eqb c "-" = false.
Proof.
  intros H. apply is_digit_range in H. apply Ascii.eqb_neq. intros ->.
  change (code "-") with 45 in H. lia.
Qed.

Lemma nonzero_digit c : (49 <=? code c) && (code c <=? 57) = true <-> is_digit c = true /\ c <> "0"%char.
Proof.
  rewrite andb_true_iff, !Z.leb_le, is_digit_range. split.
  - intros [? ?]. split; [lia|]. intros ->. change (code "0") with 48 in *. lia.
  - intros [H Hn]. assert (code c <> 48); [|lia].
    intros He. apply Hn. rewrite <- (chr_code c), He. reflexivity.
Qed.

(** The body of [string2ll] after the sign. *)
Lemma string2ll_body (neg : bool) d p1 n :
  (if (49 <=? code d) && (code d <=? 57) then
     match string2ll_loop (code d - 48) p1 with
     | None => None
     | Some (_, _ :: _) => None
     | Some (v, []) => if neg then if v >? INT64_MAX + 1 then None else Some (- v)
                       else if v >? INT64_MAX then None else Some v
     end
   else None) = Some n <->
  Forall (fun d => is_digit d = true) (d :: p1) /\ d <> "0"%char /\
  n = (if neg then - dval 0 (d :: p1) else dval 0 (d :: p1)) /\ in_s 64 n.
Proof.
  destruct ((49 <=? code d) && (code d <=? 57)) eqn:Hd.
  - pose proof (proj1 (nonzero_digit d) Hd) as [Hdg Hn]. pose proof (proj1 (is_digit_range d) Hdg) as Hr.
    rewrite dval_cons, Forall_cons. replace (0 * 10 + (code d - 48)) with (code d - 48) by lia.
    assert (Hv : 0 <= code d - 48 <= UINT64_MAX) by (unfold UINT64_MAX; lia).
    pose proof (string2ll_loop_iff p1 (code d - 48)) as Hloop.
    split.
    + destruct (string2ll_loop (code d - 48) p1) as [[v [|? ?]]|] eqn:Hl; [|done|done].
      destruct (proj1 (Hloop v Hv) eq_refl) as (Hall & -> & Hle).
      pose proof (dval_ge (code d - 48) p1 ltac:(lia) Hall).
      unfold in_s, INT64_MAX. intros H'. destruct neg; rewrite Z.gtb_ltb in H'; case_match; try done;
        injection H' as <-; zify_bool; split_and!; try done; lia.
    + intros ([_ Hall] & _ & -> & Hin). unfold in_s in Hin. pose proof (dval_ge (code d - 48) p1 ltac:(lia) Hall).
      assert (Hle : dval (code d - 48) p1 <= UINT64_MAX) by (unfold UINT64_MAX; destruct neg; lia).
      rewrite (proj2 (Hloop (dval (code d - 48) p1) Hv) ltac:(done)).
      unfold INT64_MAX. destruct neg; rewrite Z.gtb_ltb, (proj2 (Z.ltb_ge _ _)) by lia; done.
  - split; [done|]. intros (Hall & Hn & _). apply Forall_cons in Hall as [Hdg _].
    rewrite (proj2 (nonzero_digit d) ltac:(done)) in Hd. done.
Qed.

Lemma string2ll_canonical s n : string2ll s = Some n <-> canonical s n /\ in_s 64 n.
Proof.
  unfold string2ll. destruct s as [|c r].
  { split; [done|]. intros ((neg & d & ds & H & _) & _). by destruct neg. }
  destruct ((sdslen (c :: r) =? 1) && Ascii.eqb c "0") eqn:H0.
  { apply andb_true_iff in H0 as [Hl Hc]. apply Ascii.eqb_eq in Hc as ->. unfold sdslen in Hl. zify_bool.
    assert (r = []) as -> by (destruct r; simpl in *; [done|lia]).
    split.
    - intros [= <-]. split; [|vm_compute; intuition congruence]. exists false, "0"%char, [].
      split_and!; try done. by repeat constructor.
    - intros ((neg & d & ds & H & _ & -> & _) & _). destruct neg; [done|]. injection H as <- <-. done. }
  destruct (Ascii.eqb c "-") eqn:Hm.
  - apply Ascii.eqb_eq in Hm as ->. destruct r as [|d p1].
    { split; [done|]. intros ((neg & d & ds & H & Hall & _) & _). destruct neg; [done|]. injection H as <- <-.
      apply Forall_cons in Hall as [H _]. done. }
    etransitivity; [exact (string2ll_body true d p1 n)|]. split.
    + intros (Hall & Hn & -> & Hin). split; [|done]. exists true, d, p1. by split_and!.
    + intros ((neg & d' & ds & H & Hall & -> & Hz) & Hin). destruct neg.
      * injection H as <- <-. split_and!; try done. intros Hd. by destruct (Hz Hd).
      * injection H as <- <-. apply Forall_cons in Hall as [H _]. done.
  - etransitivity; [exact (string2ll_body false c r n)|]. split.
    + intros (Hall & Hn & -> & Hin). split; [|done]. exists false, c, r. by split_and!.
    + intros ((neg & d' & ds & H & Hall & -> & Hz) & Hin). destruct neg.
      * injection H as -> _. done.
      * injection H as <- <-. split_and!; try done. intros ->. destruct (Hz eq_refl) as [-> _]. done.
Qed.


(** [ndig k v]: [v] has [k] decimal digits. *)
Definition ndig (k v : Z) : Prop :=
  0 <= v < 10 ^ k /\ 1 <= k /\ (1 < k -> 10 ^ (k - 1) <= v).

Ltac pow10 :=
  repeat match goal with
  | |- context [10 ^ ?k] => let r := eval vm_compute in (10 ^ k) in
      lazymatch r with Z0 => idtac | Zpos _ => idtac end; change (10 ^ k) with r
  end.

Lemma digits10_step fuel v :
  0 <= v -> (1000000000000 <= v -> exists k, digits10 fuel (v / 1000000000000) = Done k /\
                                    ndig k (v / 1000000000000)) ->
  exists k, digits10 (S fuel) v = Done k /\ ndig k v.
Proof.
  intros Hv Hrec. cbn [digits10]. rewrite !Z.geb_leb.
  repeat match goal with
  | |- context [if ?a <? ?b then _ else _] => destruct (Z.ltb_spec a b)
  | |- context [if ?a <=? ?b then _ else _] => destruct (Z.leb_spec a b)
  end;
  try (eexists; split; [reflexivity|]; unfold ndig; cbn [Z.add Z.sub Pos.add Pos.sub]; pow10; lia).
  destruct Hrec as (k & -> & [Hk1 [Hk2 Hk3]]); [done|]. exists (12 + k). split; [done|].
  unfold ndig. rewrite Z.pow_add_r by lia. change (10 ^ 12) with 1000000000000.
  pose proof (Z.div_mod v 1000000000000 ltac:(lia)).
  pose proof (Z.mod_pos_bound v 1000000000000 ltac:(lia)).
  split; [nia|]. split; [lia|]. intros _. replace (12 + k - 1) with (12 + (k - 1)) by lia.
  rewrite Z.pow_add_r by lia. change (10 ^ 12) with 1000000000000.
  assert (0 < v / 1000000000000) by (apply Z.div_str_pos; lia).
  destruct (Z.eq_dec k 1) as [->|]; [simpl (1 - 1); rewrite Z.pow_0_r; lia|].
  specialize (Hk3 ltac:(lia)). nia.
Qed.

(** Two calls are enough for 64 bits. *)
Lemma digits10_ok v : 0 <= v <= UINT64_MAX -> exists k, digits10 3 v = Done k /\ ndig k v.
Proof.
  unfold UINT64_MAX. intros Hv. apply digits10_step; [lia|]. intros _. apply digits10_step.
  - apply Z.div_pos; lia.
  - intros H. exfalso. assert (v / 1000000000000 < 1000000000000) by (apply Z.div_lt_upper_bound; lia). lia.
Qed.

Lemma poke_mid (a : sds) x b i c :
  i = Z.of_nat (length a) -> poke (a ++ x :: b) i c = Done (a ++ c :: b).
Proof.
  intros ->. unfold poke, sdslen. rewrite length_app. simpl.
  rewrite (proj2 (Z.leb_le _ _)), (proj2 (Z.ltb_lt _ _)) by lia. simpl. f_equal.
  rewrite Nat2Z.id, insert_app_r_alt by lia. rewrite Nat.sub_diag. done.
Qed.

Lemma digit_char d : 0 <= d <= 9 -> is_digit (chr (48 + d)) = true /\ code (chr (48 + d)) - 48 = d.
Proof. intros. rewrite is_digit_range, code_chr by lia. lia. Qed.

Lemma digit_at_ok v : 0 <= v < 100 ->
  digit_at (v * 2) = Done (chr (48 + v / 10)) /\ digit_at (v * 2 + 1) = Done (chr (48 + v mod 10)).
Proof.
  intros Hv. assert (Hall : forallb (fun k => let v := Z.of_nat k in
     match digit_at (v * 2), digit_at (v * 2 + 1) with
     | Done a, Done b => Ascii.eqb a (chr (48 + v / 10)) && Ascii.eqb b (chr (48 + v mod 10))
     | _, _ => false end) (seq 0 100) = true) by (vm_compute; reflexivity).
  rewrite forallb_forall in Hall. specialize (Hall (Z.to_nat v)).
  rewrite Z2Nat.id in Hall by lia. cbv zeta in Hall.
  specialize (Hall ltac:(apply in_seq; lia)).
  destruct (digit_at (v * 2)), (digit_at (v * 2 + 1)); try done.
  apply andb_true_iff in Hall as [->%Ascii.eqb_eq ->%Ascii.eqb_eq]. done.
Qed.

Lemma dval_two v : 0 <= v -> dval (v / 100) [chr (48 + (v mod 100) / 10); chr (48 + (v mod 100) mod 10)] = v.
Proof.
  intros Hv. pose proof (Z.mod_pos_bound v 100 ltac:(lia)).
  rewrite !dval_cons. unfold dval. simpl fold_left.
  rewrite (proj2 (digit_char (v mod 100 / 10) ltac:(split; [apply Z.div_pos|apply Z.lt_succ_r, Z.div_lt_upper_bound]; lia))).
  rewrite (proj2 (digit_char (v mod 100 mod 10) ltac:(pose proof (Z.mod_pos_bound (v mod 100) 10); lia))).
  pose proof (Z.div_mod v 100 ltac:(lia)). pose proof (Z.div_mod (v mod 100) 10 ltac:(lia)). lia.
Qed.

Lemma two_digits v : 0 <= v < 100 ->
  Forall (fun d => is_digit d = true) [chr (48 + v / 10); chr (48 + v mod 10)].
Proof.
  intros. pose proof (Z.mod_pos_bound v 10 ltac:(lia)).
  repeat constructor; apply digit_char; [|lia].
  split; [apply Z.div_pos|apply Z.lt_succ_r, Z.div_lt_upper_bound]; lia.
Qed.

Lemma ndig_div100 k v : ndig k v -> 100 <= v -> 3 <= k /\ ndig (k - 2) (v / 100).
Proof.
  intros (H1 & H2 & H3) Hv.
  assert (3 <= k) as Hk. { assert (~ k <= 2); [|lia]. intros Hk.
    assert (10 ^ k <= 10 ^ 2) by (apply Z.pow_le_mono_r; lia). lia. }
  split; [done|]. specialize (H3 ltac:(lia)).
  assert (10 ^ k = 100 * 10 ^ (k - 2)) as E1 by (replace k with (2 + (k - 2)) at 1 by lia; rewrite Z.pow_add_r by lia; done).
  split; [split; [apply Z.div_pos; lia|apply Z.div_lt_upper_bound; lia]|]. split; [lia|]. intros.
  assert (10 ^ (k - 1) = 100 * 10 ^ (k - 2 - 1)) as E2
    by (replace (k - 1) with (2 + (k - 2 - 1)) by lia; rewrite Z.pow_add_r by lia; done).
  apply Z.div_le_lower_bound; lia.
Qed.

(** The loop fills the last places of the gap with the last digits. *)
Lemma ll2string_loop_spec a : forall fuel gap tl v,
  ndig (Z.of_nat (length gap)) v -> (0 < fuel)%nat -> v < 100 ^ Z.of_nat fuel ->
  exists gap' ds v', ll2string_loop fuel (a ++ gap ++ tl) (Z.of_nat (length (a ++ gap)) - 1) v
      = Done (a ++ gap' ++ ds ++ tl, Z.of_nat (length (a ++ gap')) - 1, v') /\
    v' < 100 /\ ndig (Z.of_nat (length gap')) v' /\ length gap = length (gap' ++ ds) /\
    Forall (fun d => is_digit d = true) ds /\ dval v' ds = v.
Proof.
  induction fuel as [|fuel IH]; intros gap tl v Hn Hf0 Hf; [lia|].
  cbn [ll2string_loop]. rewrite Z.geb_leb. destruct (Z.leb_spec 100 v) as [Hv|Hv].
  - rewrite Nat2Z.inj_succ, Z.pow_succ_r in Hf by lia.
    destruct (ndig_div100 _ _ Hn Hv) as [Hk Hn'].
    pose proof (Z.mod_pos_bound v 100 ltac:(lia)) as Hm.
    destruct (digit_at_ok (v mod 100) Hm) as [-> ->]. rewrite !bind_Done.
    destruct gap as [|y gap _] using rev_ind; [simpl in Hk; lia|].
    destruct gap as [|x gap _] using rev_ind; [simpl in Hk; lia|].
    replace ((gap ++ [x]) ++ [y]) with (gap ++ [x; y]) in * by (by rewrite <- app_assoc).
    rewrite <- (app_assoc gap). rewrite !length_app in *. simpl in *.
    rewrite (app_assoc a gap), (app_assoc _ [x] (y :: tl) : (a ++ gap) ++ x :: y :: tl = _).
    rewrite poke_mid by (rewrite !length_app; simpl; lia). rewrite bind_Done.
    rewrite <- (app_assoc _ [x]). simpl.
    rewrite poke_mid by (rewrite length_app; lia). rewrite bind_Done, <- (app_assoc a).
    destruct (IH gap (chr (48 + v mod 100 / 10) :: chr (48 + (v mod 100) mod 10) :: tl) (v / 100))
      as (gap' & ds & v' & Hl & Hlt & Hnd & Hlen & Hall & Hval).
    { replace (Z.of_nat (length gap)) with (Z.of_nat (length gap + 2) - 2) by lia. done. }
    { destruct fuel; [|lia]. simpl in Hf. lia. }
    { apply Z.div_lt_upper_bound; lia. }
    exists gap', (ds ++ [chr (48 + v mod 100 / 10); chr (48 + (v mod 100) mod 10)]), v'.
    split; [|split; [done|split; [done|]]].
    + rewrite length_app in Hl. rewrite <- (app_assoc ds). simpl.
      replace (Z.of_nat (length a + (length gap + 2)) - 1 - 2) with (Z.of_nat (length a + length gap) - 1) by lia.
      rewrite Hl. rewrite length_app. done.
    + split; [rewrite length_app in Hlen |- *; rewrite length_app; simpl; lia|].
      split; [apply Forall_app; split; [done|by apply two_digits]|].
      rewrite dval_app, Hval. apply dval_two. lia.
  - exists gap, [], v. split; [done|]. rewrite app_nil_r. split_and!; try done.
Qed.

(** The last one or two digits. *)
Definition write_last (dst : sds) (next v : Z) : outcome sds :=
  if v <? 10 then poke dst next (chr (48 + v))
  else
    d1 ← digit_at (v * 2 + 1);
    d0 ← digit_at (v * 2);
    dst ← poke dst next d1;
    poke dst (next - 1) d0.

Lemma ll2string_last (a gap' tl : sds) v' :
  v' < 100 -> ndig (Z.of_nat (length gap')) v' ->
  exists c cs, write_last (a ++ gap' ++ tl) (Z.of_nat (length (a ++ gap')) - 1) v' = Done (a ++ (c :: cs) ++ tl) /\
     length (c :: cs) = length gap' /\ Forall (fun d => is_digit d = true) (c :: cs) /\ dval 0 (c :: cs) = v' /\
     (c = "0"%char -> cs = [] /\ v' = 0).
Proof.
  intros Hlt Hnd. unfold write_last.
  destruct Hnd as (Hr & Hg1 & Hlow). destruct (Z.ltb_spec v' 10).
    - assert (Z.of_nat (length gap') = 1) as Hg'.
      { assert (~ 1 < Z.of_nat (length gap')); [|lia]. intros H1. specialize (Hlow H1).
        assert (10 ^ 1 <= 10 ^ (Z.of_nat (length gap') - 1)) by (apply Z.pow_le_mono_r; lia). lia. }
      destruct gap' as [|y []]; simpl in Hg'; try lia. simpl.
      exists (chr (48 + v')), []. rewrite poke_mid by (rewrite length_app; simpl; lia).
      destruct (digit_char v' ltac:(lia)) as [D1 D2]. split_and!; try done.
      + by repeat constructor.
      + intros E. rewrite E in D2. change (code "0") with 48 in D2. split; [done|lia].
    - assert (Z.of_nat (length gap') = 2) as Hg'.
      { assert (~ 2 < Z.of_nat (length gap')).
        { intros H1. specialize (Hlow ltac:(lia)).
          assert (10 ^ 2 <= 10 ^ (Z.of_nat (length gap') - 1)) by (apply Z.pow_le_mono_r; lia). lia. }
        assert (Z.of_nat (length gap') <> 1); [|lia]. intros H1. rewrite H1 in Hr. simpl in Hr. lia. }
      destruct gap' as [|x [|y []]]; simpl in Hg'; try lia. simpl.
      destruct (digit_at_ok v' ltac:(lia)) as [-> ->]. rewrite !bind_Done.
      rewrite (app_assoc a [x] (y :: tl) : a ++ x :: y :: _ = _).
      rewrite poke_mid by (rewrite !length_app; simpl; lia). rewrite bind_Done, <- (app_assoc a [x]). simpl.
      rewrite poke_mid by (rewrite !length_app; simpl; lia).
      exists (chr (48 + v' / 10)), [chr (48 + v' mod 10)]. split_and!; try done.
      + by apply two_digits.
      + pose proof (dval_two v' ltac:(lia)) as H2. rewrite (Z.mod_small v' 100), (Z.div_small v' 100) in H2 by lia. done.
      + intros E. destruct (digit_char (v' / 10)) as [_ D2].
        { split; [apply Z.div_pos; lia|apply Z.lt_succ_r, Z.div_lt_upper_bound; lia]. }
        rewrite E in D2. change (code "0") with 48 in D2.
        assert (1 <= v' / 10) by (apply Z.div_le_lower_bound; lia). lia.
Qed.

(** The buffer before the digits are written: the place of the sign, the gap
    for the digits, the terminator, and the rest. *)
(** The magnitude and the sign, LLONG_MIN included. *)
Lemma ll_magnitude n :
  (if n <? 0 then if negb (n =? INT64_MIN) then (- n, 1) else (INT64_MAX + 1, 1) else (n, 0))
  = (Z.abs n, if n <? 0 then 1 else 0).
Proof.
  destruct (Z.ltb_spec n 0); [|f_equal; lia].
  destruct (Z.eqb_spec n INT64_MIN) as [->|]; simpl; [done|f_equal; lia].
Qed.

Lemma ndig_20 k v : ndig k v -> v < 10 ^ 20 -> 1 <= k <= 20.
Proof.
  intros (H1 & H2 & H3) Hv. assert (~ 20 < k); [|lia]. intros Hk. specialize (H3 ltac:(lia)).
  assert (10 ^ 20 <= 10 ^ (k - 1)) by (apply Z.pow_le_mono_r; lia). lia.
Qed.

(** The buffer: room for the sign, for the digits, and the rest. *)
Lemma split_buffer (dst : sds) (i k : nat) : (i + k < length dst)%nat ->
  exists a gap z rest, dst = a ++ gap ++ z :: rest /\ length a = i /\ length gap = k.
Proof.
  intros Hl. exists (take i dst), (take k (drop i dst)).
  destruct (drop k (drop i dst)) as [|z rest] eqn:Hd.
  { apply (f_equal length) in Hd. rewrite !length_drop in Hd. simpl in Hd. lia. }
  exists z, rest. rewrite <- Hd, !take_drop. split; [done|]. rewrite !length_take, length_drop. lia.
Qed.

(** Sign, leading digits and the digits the loop wrote make up the text. *)
Lemma assembled_canonical n k c cs ds v' :
  ndig k (Z.abs n) -> k = Z.of_nat (length (c :: cs ++ ds)) ->
  Forall (fun d => is_digit d = true) (c :: cs) -> Forall (fun d => is_digit d = true) ds ->
  dval 0 (c :: cs) = v' -> dval v' ds = Z.abs n -> (c = "0"%char -> cs = [] /\ v' = 0) ->
  canonical ((if n <? 0 then ["-"%char] else []) ++ c :: cs ++ ds) n.
Proof.
  intros Hk Hkl Hcd Hall Hcv Hval Hc0. exists (n <? 0), c, (cs ++ ds). split; [by destruct (n <? 0)|].
  assert (dval 0 (c :: cs ++ ds) = Z.abs n) as Hd by (rewrite (app_comm_cons cs ds c), dval_app, Hcv; done).
  split; [rewrite app_comm_cons; by apply Forall_app|]. rewrite Hd.
  split; [destruct (Z.ltb_spec n 0); lia|]. intros ->. destruct (Hc0 eq_refl) as [-> Hv0]. simpl in Hkl.
  assert (ds = []) as ->.
  { destruct ds as [|d ds]; [done|]. exfalso. destruct Hk as (_ & _ & Hk3).
    specialize (Hk3 ltac:(simpl in Hkl; lia)). pose proof (dval_bounds (d :: ds) 0 ltac:(lia) Hall) as Hb.
    replace (k - 1) with (Z.of_nat (length (d :: ds))) in Hk3 by (simpl in *; lia). rewrite Hv0 in Hval. lia. }
  split; [done|]. rewrite Hv0 in Hval. unfold dval in Hval. simpl in Hval. apply Z.ltb_ge. lia.
Qed.

Lemma ll2string_ok (dst : sds) (n : Z) :
  in_s 64 n -> 21 < sdslen dst ->
  exists s rest, ll2string dst n = Done (s ++ NUL :: rest, sdslen s) /\ canonical s n /\ length (s ++ NUL :: rest) = length dst.
Proof.
  intros Hn Hdst. unfold ll2string, in_s in *. rewrite ll_magnitude.
  destruct (digits10_ok (Z.abs n)) as (k & -> & Hk); [unfold UINT64_MAX; lia|]. rewrite bind_Done.
  pose proof (ndig_20 _ _ Hk ltac:(lia)) as Hk20. set (neg := n <? 0).
  set (ng := if neg then 1 else 0). assert (0 <= ng <= 1) as Hng by (unfold ng; destruct neg; lia).
  rewrite Z.geb_leb, (proj2 (Z.leb_gt _ _)) by lia. unfold sdslen in *.
  destruct (split_buffer dst (Z.to_nat ng) (Z.to_nat k)) as (a & gap & z & rest & -> & Ha & Hg'); [lia|].
  assert (Z.of_nat (length gap) = k) as Hg by lia.
  rewrite (app_assoc a gap), poke_mid by (rewrite length_app; lia). rewrite bind_Done, <- (app_assoc a).
  assert (k + ng - 1 = Z.of_nat (length (a ++ gap)) - 1) as -> by (rewrite length_app; lia).
  rewrite <- Hg in Hk.
  destruct (ll2string_loop_spec a 11 gap (NUL :: rest) (Z.abs n) Hk ltac:(lia)) as
    (gap' & ds & v' & -> & Hlt & Hnd & Hlen & Hall & Hval).
  { transitivity (2 ^ 64); [lia|reflexivity]. }
  rewrite bind_Done.
  destruct (ll2string_last a gap' (ds ++ NUL :: rest) v' Hlt Hnd) as (c & cs & Hw & Hcl & Hcd & Hcv & Hc0).
  unfold write_last in Hw. cbv zeta. rewrite Hw.
  rewrite bind_Done.
  assert (exists sg, (if ng =? 1 then poke (a ++ (c :: cs) ++ ds ++ NUL :: rest) 0 "-"%char
      else mret (a ++ (c :: cs) ++ ds ++ NUL :: rest)) = Done (sg ++ (c :: cs) ++ ds ++ NUL :: rest) /\
      sg = (if neg then ["-"%char] else []) /\ length sg = length a) as (sg & -> & Hsg & Hsl).
  { exists (if neg then ["-"%char] else []). unfold ng in *. destruct neg; simpl in *.
    - destruct a as [|x []]; simpl in *; try lia. split; [|done]. exact (poke_mid [] x (c :: cs ++ ds ++ NUL :: rest) 0 "-"%char eq_refl).
    - destruct a; simpl in *; [done|lia]. }
  rewrite bind_Done. exists (sg ++ c :: cs ++ ds), rest.
  split; [|split].
  - unfold mret, outcome_ret. do 2 f_equal; [by rewrite <- app_assoc; simpl; rewrite <- app_assoc|].
    rewrite length_app. cbn [length]. rewrite length_app. rewrite length_app in Hlen. simpl in Hcl. lia.
  - subst sg. eapply assembled_canonical; try done.
    cbn [length]. rewrite length_app in *. simpl in Hcl. lia.
  - rewrite !length_app, Hsl. cbn [length]. rewrite !length_app. cbn [length]. rewrite length_app in Hlen.
    simpl in Hcl. lia.
Qed.

Lemma dval_inj s : forall t a b, length s = length t ->
  Forall (fun d => is_digit d = true) s -> Forall (fun d => is_digit d = true) t ->
  0 <= a -> 0 <= b -> dval a s = dval b t -> a = b /\ s = t.
Proof.
  induction s as [|c s IH]; intros [|d t] a b Hl Hs Ht Ha Hb He; simpl in Hl; try lia; [done|].
  apply Forall_cons in Hs as [Hc Hs]. apply Forall_cons in Ht as [Hd Ht].
  apply is_digit_range in Hc. apply is_digit_range in Hd. rewrite !dval_cons in He.
  destruct (IH t (a * 10 + (code c - 48)) (b * 10 + (code d - 48)) ltac:(lia) Hs Ht ltac:(lia) ltac:(lia) He) as [He' ->].
  assert (a = b /\ code c = code d) as [-> Hcd] by lia. split; [done|].
  rewrite <- (chr_code c), Hcd, chr_code. done.
Qed.

(** Without a leading zero the length is determined by the value. *)
Lemma dval_length c ds :
  Forall (fun d => is_digit d = true) (c :: ds) -> c <> "0"%char ->
  10 ^ Z.of_nat (length ds) <= dval 0 (c :: ds) < 10 ^ (Z.of_nat (length ds) + 1).
Proof.
  intros Hd Hc. apply Forall_cons in Hd as [H1 H2]. rewrite dval_cons.
  destruct (proj1 (andb_true_iff _ _) (proj2 (nonzero_digit c) (conj H1 Hc))) as [L1 L2]. zify_bool.
  pose proof (dval_bounds ds (0 * 10 + (code c - 48)) ltac:(lia) H2).
  rewrite Z.pow_add_r by lia. assert (0 < 10 ^ Z.of_nat (length ds)) by (apply Z.pow_pos_nonneg; lia). nia.
Qed.

Lemma canonical_sign (neg : bool) c ds n :
  Forall (fun d => is_digit d = true) (c :: ds) ->
  n = (if neg then - dval 0 (c :: ds) else dval 0 (c :: ds)) ->
  (c = "0"%char -> ds = [] /\ neg = false) -> neg = (n <? 0).
Proof.
  intros Hd -> Hz. pose proof (dval_ge 0 (c :: ds) ltac:(lia) Hd).
  destruct neg; symmetry; [|apply Z.ltb_ge; lia]. apply Z.ltb_lt.
  destruct (decide (c = "0"%char)) as [E|E]; [by destruct (Hz E)|].
  pose proof (dval_length c ds Hd E). assert (0 < 10 ^ Z.of_nat (length ds)) by (apply Z.pow_pos_nonneg; lia). lia.
Qed.

Lemma canonical_unique s t n : canonical s n -> canonical t n -> s = t.
Proof.
  intros (n1 & c & ds & -> & Hd & Hn & Hz) (n2 & d & es & -> & He & Hn' & Hz').
  rewrite (canonical_sign _ _ _ _ Hd Hn Hz), (canonical_sign _ _ _ _ He Hn' Hz').
  assert (dval 0 (c :: ds) = dval 0 (d :: es)) as Hv.
  { rewrite (canonical_sign _ _ _ _ Hd Hn Hz) in Hn. rewrite (canonical_sign _ _ _ _ He Hn' Hz') in Hn'.
    destruct (n <? 0); lia. }
  assert (c :: ds = d :: es) as ->; [|done].
  assert (length ds = length es); [|apply (dval_inj _ _ 0 0); simpl; try done; lia].
  assert (Hpos : forall k, 0 < 10 ^ Z.of_nat k) by (intros; apply Z.pow_pos_nonneg; lia).
  destruct (decide (c = "0"%char)) as [E|E], (decide (d = "0"%char)) as [F|F].
  - destruct (Hz E) as [-> _], (Hz' F) as [-> _]. done.
  - destruct (Hz E) as [-> _]. subst c. pose proof (dval_length d es He F). specialize (Hpos (length es)).
    change (dval 0 ["0"%char]) with 0 in Hv. lia.
  - destruct (Hz' F) as [-> _]. subst d. pose proof (dval_length c ds Hd E). specialize (Hpos (length ds)).
    change (dval 0 ["0"%char]) with 0 in Hv. lia.
  - pose proof (dval_length c ds Hd E). pose proof (dval_length d es He F).
    destruct (Nat.lt_trichotomy (length ds) (length es)) as [L|[L|L]]; [|done|]; exfalso.
    + assert (10 ^ (Z.of_nat (length ds) + 1) <= 10 ^ Z.of_nat (length es)) by (apply Z.pow_le_mono_r; lia). lia.
    + assert (10 ^ (Z.of_nat (length es) + 1) <= 10 ^ Z.of_nat (length ds)) by (apply Z.pow_le_mono_r; lia). lia.
Qed.

(** The text that [ll2string] leaves in a 32-byte buffer. *)
Definition ll2string_text (n : Z) : sds :=
  match ll2string (replicate 32 NUL) n with
  | Done (dst, len) => take (Z.to_nat len) dst
  | Fault _ => []
  end.

Lemma ll2string_text_canonical n : in_s 64 n -> canonical (ll2string_text n) n.
Proof.
  intros Hn. unfold ll2string_text.
  destruct (ll2string_ok (replicate 32 NUL) n Hn ltac:(done)) as (s & rest & -> & Hc & _).
  unfold sdslen. rewrite Nat2Z.id, take_app_length. done.
Qed.

Lemma string2ll_text n : in_s 64 n -> string2ll (ll2string_text n) = Some n.
Proof. intros Hn. apply string2ll_canonical. split; [by apply ll2string_text_canonical|done]. Qed.

Lemma text_string2ll s n : string2ll s = Some n -> ll2string_text n = s.
Proof.
  intros H. apply string2ll_canonical in H as [Hc Hn].
  eapply canonical_unique; [by apply ll2string_text_canonical|done].
Qed.

(** C31: The glob matcher behind KEYS decides the language of the pattern:
    for every pattern in which no bracket ends in a backslash and every non-empty
    string, with or without case folding, it returns (reading inside both
    buffers) and answers 1 exactly when the string matches.  The language is
    defined by itself: a star is any string, a character is itself or, with case
    folding, its other case (behind a backslash in brackets only itself), a
    range holds the bytes between its two ends, whichever comes first, in the
    order of signed bytes, all of them folded when case is. *)
Theorem stringmatchlen_correct (nocase : bool) (p s : sds) (ts : list gtok) :
  glob_tokens nocase p = Some ts -> s <> [] ->
  exists b, stringmatchlen p s nocase = Done b /\ (b = true <-> gmatch ts s).
Proof. intros Hp Hs. apply glob_loop_spec; [lia|done|done]. Qed.

Lemma stringmatchlen_correct_witness :
  exists b ts, stringmatchlen (str "user:[a-c]*") (str "user:bob") false = Done b /\ (b = true <-> gmatch ts (str "user:bob")).
Proof.
  destruct (glob_tokens false (str "user:[a-c]*")) as [ts|] eqn:Hg; [|vm_compute in Hg; discriminate Hg].
  destruct (stringmatchlen_correct false (str "user:[a-c]*") (str "user:bob") ts Hg) as (b & H1 & H2).
  - discriminate.
  - exists b, ts. split; [exact H1|exact H2].
Defined.

(** string2ll accepts exactly the canonical decimal representations of
    the 64-bit integers (no leading zero, no "-0", no overflow), with their
    value. *)
Theorem string2ll_correct (s : sds) (n : Z) :
  string2ll s = Some n <-> canonical s n /\ in_s 64 n.
Proof. apply string2ll_canonical. Qed.

(** ll2string writes the canonical decimal representation of any 64-bit
    integer into a buffer of more than 21 bytes, NUL terminated, without
    writing outside it, and returns its length; string2ll reads the integer
    back, and conversely what string2ll accepts is printed back unchanged. *)
Theorem ll2string_string2ll_roundtrip (dst : sds) (n : Z) :
  in_s 64 n -> 21 < sdslen dst ->
  exists s rest, ll2string dst n = Done (s ++ NUL :: rest, sdslen s) /\
    length (s ++ NUL :: rest) = length dst /\
    string2ll s = Some n /\ (forall t, string2ll t = Some n -> t = s).
Proof.
  intros Hn Hd. destruct (ll2string_ok dst n Hn Hd) as (s & rest & -> & Hc & Hl).
  exists s, rest. split; [done|]. split; [done|]. split; [by apply string2ll_canonical|].
  intros t Ht. apply string2ll_canonical in Ht as [Ht _]. by eapply canonical_unique.
Qed.

Lemma ll2string_string2ll_roundtrip_witness :
  exists s rest, ll2string (replicate 32 "x"%char) (-907) = Done (s ++ NUL :: rest, sdslen s) /\ string2ll s = Some (-907).
Proof.
  destruct (ll2string_string2ll_roundtrip (replicate 32 "x"%char) (-907)) as (s & rest & H1 & _ & H2 & _).
  - vm_compute. intuition congruence.
  - reflexivity.
  - exists s, rest. split; [exact H1|exact H2].
Defined.


Example glob_ex1 : stringmatchlen (str "h[a-c]l*o?") (str "hblxxo!") false = Done true.
Proof. reflexivity. Qed.
Example glob_ex2 : stringmatchlen (str "[^a]*") (str "") false = Done true.
Proof. reflexivity. Qed.
Example ll_ex : ll2string (replicate 32 "x"%char) (-1234567) = Done (str "-1234567" ++ NUL :: replicate 23 "x"%char, 8).
Proof. vm_compute. reflexivity. Qed.
Example ll_ex2 : string2ll (str "-9223372036854775808") = Some INT64_MIN /\ string2ll (str "9223372036854775808") = None
  /\ string2ll (str "012") = None /\ memtoll (str "3kb") = (3072, false).
Proof. vm_compute. done. Qed.
End Util.
