(* ===== verification/Double.v ===== *)
(** * Doubles and their text

    A double is a [spec_float] of 53 bits of mantissa and exponents up to 1024.  The
    file has what the server uses of the C library on doubles (strtod, the formats
    %.17g and %f, the conversion of integers) and d2string of util.c.  The text that
    d2string prints is read back by strtod as the same double: [read_back]. *)
From S2P Require Import Prelude CStr Util.
From Stdlib Require Export SpecFloat.
Import Util.

Module Double.

Abbreviation double := spec_float (only parsing).

Definition isnan (x : double) : bool := match x with S754_nan => true | _ => false end.
(** What a double in memory is: a mantissa of 53 bits, or of fewer at the least exponent. *)
Definition valid (x : double) : bool := valid_binary 53 1024 x.

(** ** Rounding *)
(** [a/b] to the nearest integer, a tie to the even one. *)
Definition rhe (a b : Z) : Z :=
  let q := a / b in
  match 2 * (a mod b) ?= b with Lt => q | Gt => q + 1 | Eq => if Z.even q then q else q + 1 end.

(** The fraction [n/d] times [b^k]. *)
Definition times (b k n d : Z) : Z * Z := if 0 <=? k then (n * b ^ k, d) else (n, d * b ^ (- k)).

(** The double nearest to [n/d]; out of range is an infinity. *)
Definition round_double (s : bool) (n d : Z) : double :=
  if n =? 0 then S754_zero s
  else
    let l0 := Z.log2 n - Z.log2 d in
    let '(n1, d1) := times 2 (- l0) n d in
    let l := if n1 <? d1 then l0 - 1 else l0 in
    let e := Z.max (-1074) (l - 52) in
    let '(n2, d2) := times 2 (- e) n d in
    let q := rhe n2 d2 in
    let '(q, e) := if q =? 2 ^ 53 then (2 ^ 52, e + 1) else (q, e) in
    if q =? 0 then S754_zero s else if e >? 971 then S754_infinity s else S754_finite s (Z.to_pos q) e.

(** [(double)v] of a long long. *)
Definition of_Z (v : Z) : double := round_double (v <? 0) (Z.abs v) 1.

(** [(long long)x]: the integer part. *)
Definition to_Z (x : double) : Z :=
  match x with
  | S754_finite s m e =>
    let v := if 0 <=? e then Z.pos m * 2 ^ e else Z.pos m / 2 ^ (- e) in if s then - v else v
  | _ => 0
  end.

(** ** strtod *)
Fixpoint span (p : ascii -> bool) (u : sds) : sds * sds :=
  match u with
  | c :: r => if p c then let (a, b) := span p r in (c :: a, b) else ([], u)
  | [] => ([], [])
  end.

Definition no_case (w u : sds) : bool := bool_decide (take (length w) (map tolower u) = w).

Definition is_hex (c : ascii) : bool := is_digit c || ((97 <=? code (tolower c)) && (code (tolower c) <=? 102)).
Definition hex_val (c : ascii) : Z := if is_digit c then code c - 48 else code (tolower c) - 87.

Definition digits_value (b : Z) (val : ascii -> Z) (ds : sds) : Z := foldl (fun acc c => acc * b + val c) 0 ds.

(** A sign: whether it is a minus, and the rest. *)
Definition sign_of (u : sds) : bool * sds :=
  match u with "-"%char :: r => (true, r) | "+"%char :: r => (false, r) | _ => (false, u) end.

(** Digits with a point: the digits before and behind it, and the rest. *)
Definition mantissa (p : ascii -> bool) (u : sds) : sds * sds * sds :=
  let (ip, r) := span p u in
  match r with
  | "."%char :: r' => let (fp, r2) := span p r' in (ip, fp, r2)
  | _ => (ip, [], r)
  end.

(** An exponent behind the letter [l], if one is there with a digit. *)
Definition exponent (l : ascii) (u : sds) : Z * sds :=
  match u with
  | c :: r =>
    if bool_decide (tolower c = l) then
      let (neg, r1) := sign_of r in
      let (ds, r2) := span is_digit r1 in
      match ds with [] => (0, u) | _ => (let v := digits_value 10 (fun c => code c - 48) ds in if neg then - v else v, r2) end
    else (0, u)
  | [] => (0, u)
  end.

(** [m * b^k] rounded, where [m] has [nd] digits of base [b]; exponents out of any
    range are cut before the power is computed. *)
Definition scaled (s : bool) (b : Z) (m k nd : Z) : double :=
  if m =? 0 then S754_zero s
  else if k >? 5000 then S754_infinity s
  else if nd + k <? -5000 then S754_zero s
  else let (n, d) := times b k m 1 in round_double s n d.

(** [errno] is ERANGE: a number that is not zero became zero or infinite. *)
Definition out_of_range (m : Z) (x : double) : bool :=
  negb (m =? 0) && match x with S754_zero _ | S754_infinity _ => true | _ => false end.

(** [strtod(s,&eptr)]: the value, the bytes at [eptr] and whether errno is ERANGE;
    without a number [eptr] is [s]. *)
Definition strtod (str0 : sds) : double * sds * bool :=
  let c := cstr str0 in
  let (s, u) := sign_of (skip_space c) in
  if no_case (str "infinity") u then (S754_infinity s, drop 8 u, false)
  else if no_case (str "inf") u then (S754_infinity s, drop 3 u, false)
  else if no_case (str "nan") u then
    (S754_nan, match drop 3 u with
               | "("%char :: r => match span (fun c => is_hex c || is_upper c || is_lower c || bool_decide (c = "_"%char)) r with (_, ")"%char :: r2) => r2 | _ => drop 3 u end
               | r => r
               end, false)
  else
    let hex := if no_case (str "0x") u then
                 let '(ip, fp, r) := mantissa is_hex (drop 2 u) in match ip ++ fp with [] => None | _ => Some (ip, fp, r) end
               else None in
    match hex with
    | Some (ip, fp, r) =>
      let m := digits_value 16 hex_val (ip ++ fp) in
      let (e, r2) := exponent "p"%char r in
      let x := scaled s 2 m (e - 4 * sdslen fp) (4 * sdslen (ip ++ fp)) in (x, r2, out_of_range m x)
    | None =>
      let '(ip, fp, r) := mantissa is_digit u in
      match ip ++ fp with
      | [] => (S754_zero false, c, false)
      | ds =>
        let m := digits_value 10 (fun c => code c - 48) ds in
        let (e, r2) := exponent "e"%char r in
        let x := scaled s 10 m (e - sdslen fp) (sdslen ds) in (x, r2, out_of_range m x)
      end
    end.

Definition strtod_val (s : sds) : double := fst (fst (strtod s)).

(** ** Printing *)
(** The decimal digits of [n], at least [w] of them. *)
Fixpoint decimal (w : nat) (fuel : nat) (n : Z) : sds :=
  match fuel with
  | O => []
  | S fuel' => if (w =? 0)%nat && (n =? 0) then [] else decimal (w - 1) fuel' (n / 10) ++ [chr (48 + n mod 10)]
  end.
Definition dec_fuel (n : Z) : nat := S (Z.to_nat (Z.log2 n)).
Definition decimal_of (n : Z) : sds := decimal 1 (S (dec_fuel n)) n.

(** The fraction of a mantissa and an exponent. *)
Definition frac_of (m : positive) (e : Z) : Z * Z := times 2 e (Z.pos m) 1.

(** The exponent of the first decimal digit of [n/d]. *)
Fixpoint down_to (fuel : nat) (k n d : Z) : Z :=
  match fuel with
  | O => k
  | S fuel' => if d <=? n then k else down_to fuel' (k - 1) (n * 10) d
  end.
Definition exp10 (n d : Z) : Z :=
  if d <=? n then sdslen (decimal_of (n / d)) - 1 else down_to 1100 0 n d.

Fixpoint drop_zeros (u : sds) : sds := match u with "0"%char :: r => drop_zeros r | _ => u end.
Definition trim_zeros (s : sds) : sds := rev (drop_zeros (rev s)).
Definition with_point (ip fp : sds) : sds := match trim_zeros fp with [] => ip | t => ip ++ "."%char :: t end.

(** The 17 digits of [n/d] and the exponent of the first. *)
Definition digits17 (n d : Z) : Z * Z :=
  let x := exp10 n d in
  let (n', d') := times 10 (16 - x) n d in
  let q := rhe n' d' in if q =? 10 ^ 17 then (10 ^ 16, x + 1) else (q, x).

(** The format %.17g *)
Definition fmt_g17 (s : bool) (m : positive) (e : Z) : sds :=
  let (n, d) := frac_of m e in
  let (q, x) := digits17 n d in
  let ds := decimal 17 17 q in
  (if s then ["-"%char] else []) ++
  (if (x <? -4) || (17 <=? x) then
     with_point (take 1 ds) (drop 1 ds) ++ "e"%char :: (if x <? 0 then "-"%char else "+"%char) :: decimal 2 (S (dec_fuel (Z.abs x))) (Z.abs x)
   else if x <? 0 then with_point (str "0") (replicate (Z.to_nat (- x - 1)) "0"%char ++ ds)
   else with_point (take (Z.to_nat (x + 1)) ds) (drop (Z.to_nat (x + 1)) ds)).

(** The format %f *)
Definition fmt_f (x : double) : sds :=
  match x with
  | S754_nan => str "nan"
  | S754_infinity s => if s then str "-inf" else str "inf"
  | S754_zero s => (if s then ["-"%char] else []) ++ str "0.000000"
  | S754_finite s m e =>
    let (n, d) := frac_of m e in
    let q := rhe (n * 10 ^ 6) d in
    (if s then ["-"%char] else []) ++ decimal_of (q / 10 ^ 6) ++ "."%char :: decimal 6 6 (q mod 10 ^ 6)
  end.

(** ** Addition *)
(** The signed numerator of a finite double over its denominator. *)
Definition signed (s : bool) (n : Z) : Z := if s then - n else n.
(** [x + y]: the exact sum, rounded. *)
Definition plus (x y : double) : double :=
  match x, y with
  | S754_nan, _ | _, S754_nan => S754_nan
  | S754_infinity s, S754_infinity t => if Bool.eqb s t then x else S754_nan
  | S754_infinity _, _ => x
  | _, S754_infinity _ => y
  | S754_zero s, S754_zero t => S754_zero (s && t)
  | S754_zero _, _ => y
  | _, S754_zero _ => x
  | S754_finite s m e, S754_finite t k f =>
    let (n1, d1) := frac_of m e in
    let (n2, d2) := frac_of k f in
    let v := signed s n1 * d2 + signed t n2 * d1 in
    if v =? 0 then S754_zero false else round_double (v <? 0) (Z.abs v) (d1 * d2)
  end.

(** ** d2string *)
Definition is_ll (x : double) : bool :=
  SFltb (of_Z (-4503599627370495)) x && SFltb x (of_Z 4503599627370496) && SFeqb x (of_Z (to_Z x)).
Definition d2string (x : double) : sds :=
  match x with
  | S754_nan => str "nan"
  | S754_infinity s => if s then str "-inf" else str "inf"
  | S754_zero s => if s then str "-0" else str "0"
  | S754_finite s m e => if is_ll x then ll2string_text (to_Z x) else fmt_g17 s m e
  end.


(** ** Rounding to doubles *)
Lemma rhe_near a b m : 0 < b -> 2 * Z.abs (a - m * b) < b -> rhe a b = m.
Proof.
  intros Hb H. unfold rhe. pose proof (Z.div_mod a b ltac:(lia)) as E. pose proof (Z.mod_pos_bound a b Hb) as Hr.
  set (q := a / b) in *. set (r := a mod b) in *. destruct (Z.compare_spec (2 * r) b) as [Hc|Hc|Hc].
  - exfalso. assert (a - m * b = (q - m) * b + r) as E2 by lia. rewrite E2 in H. clear - H Hc Hr Hb.
    destruct (Z.eq_dec (q - m) 0) as [E|E]; [rewrite E in H; lia|]. assert (q - m <= -1 \/ 1 <= q - m) as [?|?] by lia; nia.
  - assert (q - m = 0); [|lia]. assert (a - m * b = (q - m) * b + r) as E2 by lia. rewrite E2 in H. clear - H Hc Hr Hb. nia.
  - assert (q - m = -1); [|lia]. assert (a - m * b = (q - m) * b + r) as E2 by lia. rewrite E2 in H. clear - H Hc Hr Hb. nia.
Qed.

Lemma times_pos b k n d : 0 < b -> 0 < n -> 0 < d -> 0 < fst (times b k n d) /\ 0 < snd (times b k n d).
Proof.
  intros Hb Hn Hd. unfold times. destruct (Z.leb_spec 0 k); cbn; [|split; [done|]]; [split; [|done]|]; apply Z.mul_pos_pos; try done; apply Z.pow_pos_nonneg; lia.
Qed.

(** The same fraction at two scales. *)
Lemma times_le b k k' n d : 0 < b -> k <= k' ->
  fst (times b k' n d) * snd (times b k n d) = fst (times b k n d) * snd (times b k' n d) * b ^ (k' - k).
Proof.
  intros Hb Hk. unfold times. destruct (Z.leb_spec 0 k), (Z.leb_spec 0 k'); cbn; try lia.
  - replace (b ^ k') with (b ^ k * b ^ (k' - k)) by (rewrite <- Z.pow_add_r by lia; f_equal; lia). ring.
  - replace (b ^ (k' - k)) with (b ^ k' * b ^ (- k)) by (rewrite <- Z.pow_add_r by lia; f_equal; lia). ring.
  - replace (b ^ (- k)) with (b ^ (- k') * b ^ (k' - k)) by (rewrite <- Z.pow_add_r by lia; f_equal; lia). ring.
Qed.

(** [l] is the binary exponent of [n/d]. *)
Definition log_of (n d l : Z) : Prop :=
  snd (times 2 (- l) n d) <= fst (times 2 (- l) n d) /\ fst (times 2 (- (l + 1)) n d) < snd (times 2 (- (l + 1)) n d).

Lemma log_ok n d : 0 < n -> 0 < d ->
  let l0 := Z.log2 n - Z.log2 d in let t := times 2 (- l0) n d in log_of n d (if fst t <? snd t then l0 - 1 else l0).
Proof.
  intros Hn Hd l0 t. pose proof (Z.log2_spec n Hn) as [N1 N2]. pose proof (Z.log2_spec d Hd) as [D1 D2]. unfold Z.succ in *.
  pose proof (Z.log2_nonneg n). pose proof (Z.log2_nonneg d). unfold log_of.
  assert (Hup : fst (times 2 (- (l0 + 1)) n d) < snd (times 2 (- (l0 + 1)) n d)).
  { unfold times. destruct (Z.leb_spec 0 (- (l0 + 1))); cbn.
    - assert (n * 2 ^ (- (l0 + 1)) < 2 ^ (Z.log2 n + 1) * 2 ^ (- (l0 + 1))) by (apply Z.mul_lt_mono_pos_r; [apply Z.pow_pos_nonneg; lia|lia]).
      rewrite <- Z.pow_add_r in H2 by lia. replace (Z.log2 n + 1 + - (l0 + 1)) with (Z.log2 d) in H2 by lia. lia.
    - rewrite Z.opp_involutive. assert (2 ^ Z.log2 d * 2 ^ (l0 + 1) <= d * 2 ^ (l0 + 1)) by (apply Z.mul_le_mono_nonneg_r; [apply Z.pow_nonneg; lia|lia]).
      rewrite <- Z.pow_add_r in H2 by lia. replace (Z.log2 d + (l0 + 1)) with (Z.log2 n + 1) in H2 by lia. lia. }
  assert (Hlo : snd (times 2 (- (l0 - 1)) n d) <= fst (times 2 (- (l0 - 1)) n d)).
  { unfold times. destruct (Z.leb_spec 0 (- (l0 - 1))); cbn.
    - assert (2 ^ Z.log2 n * 2 ^ (- (l0 - 1)) <= n * 2 ^ (- (l0 - 1))) by (apply Z.mul_le_mono_nonneg_r; [apply Z.pow_nonneg; lia|lia]).
      rewrite <- Z.pow_add_r in H2 by lia. replace (Z.log2 n + - (l0 - 1)) with (Z.log2 d + 1) in H2 by lia. lia.
    - rewrite Z.opp_involutive. assert (d * 2 ^ (l0 - 1) <= 2 ^ (Z.log2 d + 1) * 2 ^ (l0 - 1)) by (apply Z.mul_le_mono_nonneg_r; [apply Z.pow_nonneg; lia|lia]).
      rewrite <- Z.pow_add_r in H2 by lia. replace (Z.log2 d + 1 + (l0 - 1)) with (Z.log2 n) in H2 by lia. lia. }
  destruct (Z.ltb_spec (fst t) (snd t)) as [Hlt|Hge].
  - split; [done|]. replace (- (l0 - 1 + 1)) with (- l0) by lia. done.
  - split; [done|done].
Qed.

(** Where the exponent of a fraction lies, read at the scale of [e]. *)
Lemma scale_contra F G c d P : 0 < c -> 0 < d -> 0 < F -> 0 < G -> 0 < P -> F * d = c * G * P -> F < G -> d <= c -> False.
Proof. intros. assert (c * G <= c * G * P) by nia. assert (d * G <= c * G) by nia. assert (F * d < G * d) by nia. lia. Qed.

Lemma log_of_between n d l e k : 0 < n -> 0 < d -> log_of n d l -> 0 <= k ->
  let a := fst (times 2 (- e) n d) in let b := snd (times 2 (- e) n d) in
  (b * 2 ^ k <= a -> e + k <= l) /\ (a < b * 2 ^ k -> l < e + k).
Proof.
  intros Hn Hd [H1 H2] Hk a b. destruct (times_pos 2 (- e) n d ltac:(lia) Hn Hd) as [Pa Pb]. fold a b in Pa, Pb.
  pose proof (times_le 2 (- (e + k)) (- e) n d ltac:(lia) ltac:(lia)) as E2. replace (- e - - (e + k)) with k in E2 by lia.
  destruct (times_pos 2 (- (e + k)) n d ltac:(lia) Hn Hd) as [Pc Pd]. fold a b in E2.
  set (c := fst (times 2 (- (e + k)) n d)) in *. set (g := snd (times 2 (- (e + k)) n d)) in *.
  assert (Hpk : 0 < 2 ^ k) by (apply Z.pow_pos_nonneg; lia). split; intros H.
  - apply Z.nlt_ge. intros Hlt. pose proof (times_le 2 (- (e + k)) (- (l + 1)) n d ltac:(lia) ltac:(lia)) as E1.
    destruct (times_pos 2 (- (l + 1)) n d ltac:(lia) Hn Hd) as [Pe Pf]. fold c g in E1.
    apply (scale_contra _ _ c g _ Pc Pd Pe Pf (Z.pow_pos_nonneg 2 (- (l + 1) - - (e + k)) ltac:(lia) ltac:(lia)) E1 H2).
    assert (b * 2 ^ k * g <= c * b * 2 ^ k) by nia. assert (0 < b * 2 ^ k) by nia. nia.
  - apply Z.nle_gt. intros Hle. pose proof (times_le 2 (- l) (- (e + k)) n d ltac:(lia) ltac:(lia)) as E1.
    destruct (times_pos 2 (- l) n d ltac:(lia) Hn Hd) as [Pe Pf]. fold c g in E1.
    apply (scale_contra c g _ _ _ Pe Pf Pc Pd (Z.pow_pos_nonneg 2 (- (e + k) - - l) ltac:(lia) ltac:(lia)) E1); [|done].
    assert (c * b * 2 ^ k < b * 2 ^ k * g) by nia. assert (0 < b * 2 ^ k) by nia. nia.
Qed.

(** *** A fraction near a double rounds to it *)
(** [n/d] is within half a part in 10^16 of [n0/d0]. *)
Definition close (n d n0 d0 : Z) : Prop := 2 * 10 ^ 16 * Z.abs (n * d0 - n0 * d) <= n0 * d.

Lemma close_scaled n d m e : 0 < n -> 0 < d -> close n d (fst (frac_of m e)) (snd (frac_of m e)) ->
  2 * 10 ^ 16 * Z.abs (fst (times 2 (- e) n d) - Z.pos m * snd (times 2 (- e) n d)) <= Z.pos m * snd (times 2 (- e) n d).
Proof.
  intros Hn Hd. unfold close, frac_of, times. destruct (Z.leb_spec 0 e), (Z.leb_spec 0 (- e)); cbn [fst snd]; [| | |lia]; intros H1.
  - assert (e = 0) as -> by lia. cbn [Z.opp] in *. rewrite !Z.pow_0_r in *. lia.
  - rewrite Z.opp_involutive. replace (n * 1 - Z.pos m * 2 ^ e * d) with (n - Z.pos m * (d * 2 ^ e)) in H1 by ring. lia.
  - rewrite Z.mul_1_l in H1. lia.
Qed.

Lemma digits2_spec m : 2 ^ (Z.pos (digits2_pos m) - 1) <= Z.pos m < 2 ^ Z.pos (digits2_pos m).
Proof.
  induction m as [m IH|m IH|]; cbn [digits2_pos]; [| |cbn; lia]; rewrite Pos2Z.inj_succ, Z.pow_succ_r by lia;
    replace (Z.succ (Z.pos (digits2_pos m)) - 1) with (Z.succ (Z.pos (digits2_pos m) - 1)) by lia; rewrite Z.pow_succ_r by lia; lia.
Qed.

Lemma valid_cases s m e : valid (S754_finite s m e) = true ->
  -1074 <= e <= 971 /\ Z.pos m < 2 ^ 53 /\ (2 ^ 52 <= Z.pos m \/ e = -1074).
Proof.
  unfold valid, valid_binary, bounded, canonical_mantissa, fexp, emin. rewrite andb_true_iff, Z.eqb_eq, Z.leb_le. intros [H1 H2].
  pose proof (digits2_spec m) as [D1 D2]. set (k := Z.pos (digits2_pos m)) in *. assert (0 < k) by (subst k; lia).
  split; [lia|]. split.
  - pose proof (Z.pow_le_mono_r 2 k 53 ltac:(lia) ltac:(lia)). lia.
  - destruct (Z.eq_dec e (-1074)) as [E|E]; [by right|]. left. assert (k = 53) by lia. subst k. rewrite H0 in D1. exact D1.
Qed.

Lemma round_close s m e n d : valid (S754_finite s m e) = true -> 0 < n -> 0 < d -> close n d (fst (frac_of m e)) (snd (frac_of m e)) ->
  round_double s n d = S754_finite s m e.
Proof.
  intros Hv Hn Hd Hc. destruct (valid_cases s m e Hv) as (He & Hm & Hlow). apply close_scaled in Hc; [|done|done].
  destruct (times_pos 2 (- e) n d ltac:(lia) Hn Hd) as [Pa Pb]. unfold round_double. destruct (Z.eqb_spec n 0) as [|_]; [lia|].
  pose proof (log_ok n d Hn Hd) as Hl. cbn zeta in Hl. destruct (times 2 (- (Z.log2 n - Z.log2 d)) n d) as [n1 d1]. cbn [fst snd] in Hl.
  set (l := if n1 <? d1 then _ else _) in *. set (a := fst (times 2 (- e) n d)) in *. set (b := snd (times 2 (- e) n d)) in *.
  assert (Hq : 2 * Z.abs (a - Z.pos m * b) < b) by nia.
  destruct (log_of_between n d l e 52 Hn Hd Hl ltac:(lia)) as [L1 L2]. destruct (log_of_between n d l e 53 Hn Hd Hl ltac:(lia)) as [_ L3].
  fold a b in L1, L2, L3. assert (Hlt : l < e + 53) by (apply L3; nia).
  assert (Hmain : forall k, k = e -> (let '(n2, d2) := times 2 (- k) n d in let q := rhe n2 d2 in let '(q, e0) := if q =? 2 ^ 53 then (2 ^ 52, k + 1) else (q, k) in
    if q =? 0 then S754_zero s else if e0 >? 971 then S754_infinity s else S754_finite s (Z.to_pos q) e0) = S754_finite s m e).
  { intros k ->. clear L1 L2 L3. destruct (times 2 (- e) n d) as [n2 d2]. cbn [fst snd] in *. subst a b. cbn zeta. rewrite (rhe_near n2 d2 (Z.pos m)) by lia.
    rewrite (proj2 (Z.eqb_neq (Z.pos m) (2 ^ 53))) by lia. cbn [Z.eqb]. rewrite Z.gtb_ltb, (proj2 (Z.ltb_ge 971 e)) by lia. done. }
  destruct (Z.le_gt_cases (b * 2 ^ 52) a) as [Hge|Hsm]; [apply Hmain; specialize (L1 Hge); lia|]. specialize (L2 Hsm).
  destruct Hlow as [Hlow|Hlow]; [|apply Hmain; lia]. destruct (Z.eq_dec e (-1074)) as [E|E]; [apply Hmain; lia|].
  assert (Em : Z.pos m = 2 ^ 52) by nia. destruct (log_of_between n d l (e - 1) 52 Hn Hd Hl ltac:(lia)) as [L4 _].
  pose proof (times_le 2 (- e) (- (e - 1)) n d ltac:(lia) ltac:(lia)) as Et. replace (- (e - 1) - - e) with 1 in Et by lia. fold a b in Et.
  destruct (times_pos 2 (- (e - 1)) n d ltac:(lia) Hn Hd) as [Pc Pd]. set (c := fst (times 2 (- (e - 1)) n d)) in *. set (g := snd (times 2 (- (e - 1)) n d)) in *.
  assert (Hcg : 2 * Z.abs (c - 2 ^ 53 * g) < g).
  { assert (2 * 10 ^ 16 * Z.abs (a - 2 ^ 52 * b) <= 2 ^ 52 * b) by (rewrite <- Em; lia).
    assert (Hab : 4 * Z.abs (a - 2 ^ 52 * b) < b) by lia. assert (E1 : (c - 2 ^ 53 * g) * b = 2 * g * (a - 2 ^ 52 * b)) by lia.
    apply (f_equal Z.abs) in E1. rewrite !Z.abs_mul, (Z.abs_eq b), (Z.abs_eq g) in E1 by lia. change (Z.abs 2) with 2 in E1. nia. }
  assert (Hl51 : l = e + 51) by (specialize (L4 ltac:(nia)); lia). rewrite (Z.max_r (-1074) (l - 52)) by lia. replace (l - 52) with (e - 1) by lia.
  clear L1 L2 L3 L4. destruct (times 2 (- (e - 1)) n d) as [n2 d2]. cbn [fst snd] in *. subst c g. rewrite (rhe_near n2 d2 (2 ^ 53)) by lia.
  cbn -[Z.pow Z.add Z.sub Z.gtb Z.to_pos]. change (2 ^ 53 =? 2 ^ 53) with true. cbn -[Z.pow Z.add Z.sub Z.gtb Z.to_pos].
  replace (e - 1 + 1) with e by lia. rewrite Z.gtb_ltb, (proj2 (Z.ltb_ge 971 e)) by lia. by rewrite <- Em.
Qed.

(** ** Decimal digits *)
Definition dval (ds : sds) : Z := digits_value 10 (fun c => code c - 48) ds.
Abbreviation all_digits := (Forall (fun c => is_digit c = true)) (only parsing).

Lemma dval_snoc ds c : dval (ds ++ [c]) = dval ds * 10 + (code c - 48).
Proof. unfold dval, digits_value. by rewrite foldl_snoc. Qed.
Lemma dval_digits_app a b : dval (a ++ b) = dval a * 10 ^ Z.of_nat (length b) + dval b.
Proof.
  induction b as [|c b IH] using rev_ind; [rewrite app_nil_r; cbn; lia|]. rewrite app_assoc, !dval_snoc, IH, length_app.
  replace (Z.of_nat (length b + length [c])) with (Z.of_nat (length b) + 1) by (cbn; lia). rewrite Z.pow_add_r by lia. lia.
Qed.

Lemma digit_char_lt k : 0 <= k < 10 -> is_digit (chr (48 + k)) = true /\ code (chr (48 + k)) - 48 = k.
Proof.
  intros Hk. assert (k = 0 \/ k = 1 \/ k = 2 \/ k = 3 \/ k = 4 \/ k = 5 \/ k = 6 \/ k = 7 \/ k = 8 \/ k = 9) as Hc by lia.
  repeat destruct Hc as [->|Hc]; try subst; done.
Qed.

Lemma decimal_ok fuel : forall w n, 0 <= n < 10 ^ Z.of_nat fuel -> (w <= fuel)%nat ->
  let ds := decimal w fuel n in all_digits ds /\ dval ds = n /\ (w <= length ds)%nat /\ n < 10 ^ Z.of_nat (length ds) /\
  ((w < length ds)%nat -> 10 ^ (Z.of_nat (length ds) - 1) <= n).
Proof.
  induction fuel as [|fuel IH]; intros w n Hn Hw; cbn [decimal].
  - cbn in Hn. assert (n = 0) as -> by lia. assert (w = 0)%nat as -> by lia. cbn. split; [constructor|]. lia.
  - destruct ((w =? 0)%nat && (n =? 0)) eqn:E.
    + apply andb_true_iff in E as [->%Nat.eqb_eq ->%Z.eqb_eq]. cbn. split; [constructor|]. lia.
    + rewrite Nat2Z.inj_succ, Z.pow_succ_r in Hn by lia. pose proof (Z.div_mod n 10 ltac:(lia)) as Ed. pose proof (Z.mod_pos_bound n 10 ltac:(lia)) as Hm.
      destruct (IH (w - 1)%nat (n / 10)) as (H1 & H2 & H3 & H4 & H5); [split; [apply Z.div_pos; lia|apply Z.div_lt_upper_bound; lia]|lia|].
      set (ds := decimal (w - 1) fuel (n / 10)) in *. destruct (digit_char_lt (n mod 10) Hm) as [Hd1 Hd2]. rewrite dval_snoc, length_app, Hd2, H2. cbn [length].
      split; [apply Forall_app; split; [done|by constructor]|]. split; [lia|]. split; [lia|].
      replace (Z.of_nat (length ds + 1)) with (Z.of_nat (length ds) + 1) by lia. rewrite Z.pow_add_r by lia. split; [lia|]. intros Hl.
      rewrite Z.add_simpl_r. destruct (decide (length ds = 0)%nat) as [E0|E0].
      * rewrite E0. cbn. rewrite E0 in Hl, H4. cbn in H4. apply andb_false_iff in E as [E|E]; [apply Nat.eqb_neq in E; lia|]. apply Z.eqb_neq in E. lia.
      * replace (Z.of_nat (length ds)) with (Z.of_nat (length ds) - 1 + 1) by lia. rewrite Z.pow_add_r by lia.
        destruct (decide (w - 1 < length ds)%nat) as [Hw1|Hw1]; [specialize (H5 Hw1); lia|]. lia.
Qed.

Lemma dec_fuel_ok n : 0 <= n -> n < 10 ^ Z.of_nat (dec_fuel n).
Proof.
  intros Hn. unfold dec_fuel. destruct (Z.eq_dec n 0) as [->|Hne]; [done|]. pose proof (Z.log2_spec n ltac:(lia)) as [_ H]. pose proof (Z.log2_nonneg n).
  rewrite Nat2Z.inj_succ, Z2Nat.id by lia. pose proof (Z.pow_le_mono_l 2 10 (Z.succ (Z.log2 n)) ltac:(lia)). lia.
Qed.

Lemma decimal_of_ok w n : 0 <= n -> (w <= 2)%nat ->
  let ds := decimal w (S (dec_fuel n)) n in all_digits ds /\ dval ds = n /\ (w <= length ds)%nat /\ n < 10 ^ Z.of_nat (length ds) /\
  ((w < length ds)%nat -> 10 ^ (Z.of_nat (length ds) - 1) <= n).
Proof.
  intros Hn Hw. apply decimal_ok; [|unfold dec_fuel; lia]. split; [done|]. pose proof (dec_fuel_ok n Hn).
  rewrite Nat2Z.inj_succ, Z.pow_succ_r by lia. lia.
Qed.

(** ** The 17 digits *)
(** [x] is the decimal exponent of [n/d]. *)
Definition log10_of (n d x : Z) : Prop :=
  snd (times 10 (- x) n d) <= fst (times 10 (- x) n d) /\ fst (times 10 (- (x + 1)) n d) < snd (times 10 (- (x + 1)) n d).

Lemma down_to_ok fuel : forall k n d, 0 < n -> n < d -> d <= n * 10 ^ Z.of_nat fuel ->
  exists j, down_to (S fuel) k n d = k - j /\ 0 < j <= Z.of_nat fuel /\ d <= n * 10 ^ j /\ n * 10 ^ (j - 1) < d.
Proof.
  induction fuel as [|fuel IH]; intros k n d Hn Hlt Hd; [rewrite Z.pow_0_r in Hd; lia|]. cbn [down_to]. rewrite (proj2 (Z.leb_gt d n)) by lia.
  destruct (Z.leb_spec d (n * 10)) as [H|H].
  - exists 1. split; [done|]. split; [lia|]. change (1 - 1) with 0. rewrite Z.pow_0_r. lia.
  - destruct (IH (k - 1) (n * 10) d ltac:(lia) H) as (j & E & Hj & H1 & H2).
    { rewrite Nat2Z.inj_succ, Z.pow_succ_r in Hd by lia. lia. }
    exists (j + 1). cbn [down_to] in E. rewrite (proj2 (Z.leb_gt d (n * 10))) in E by lia. split; [lia|]. split; [lia|].
    rewrite Z.add_simpl_r. split; [rewrite Z.pow_add_r by lia; lia|]. replace j with (j - 1 + 1) by lia. rewrite Z.pow_add_r by lia. lia.
Qed.

Lemma exp10_ok n d : 0 < n -> 0 < d -> d <= n * 10 ^ 1099 -> log10_of n d (exp10 n d).
Proof.
  intros Hn Hd Hb. unfold exp10. destruct (Z.leb_spec d n) as [Hle|Hlt].
  - pose proof (Z.div_le_lower_bound n d 1 Hd ltac:(lia)) as Hq. destruct (decimal_of_ok 1 (n / d) ltac:(lia) ltac:(lia)) as (_ & _ & H1 & H2 & H3).
    fold (decimal_of (n / d)) in *. unfold sdslen. set (L := Z.of_nat (length (decimal_of (n / d)))) in *.
    assert (HL : 10 ^ (L - 1) <= n / d).
    { destruct (decide (1 < length (decimal_of (n / d)))%nat) as [Hl|Hl]; [by apply H3|]. assert (L = 1) as -> by lia. cbn. lia. }
    assert (Hn1 : d * 10 ^ (L - 1) <= n) by (pose proof (Z.mul_div_le n d Hd); pose proof (Z.mul_le_mono_nonneg_l _ _ d ltac:(lia) HL); lia).
    assert (Hn2 : n < d * 10 ^ L) by (pose proof (Z.mul_succ_div_gt n d Hd); pose proof (Z.mul_le_mono_nonneg_l (Z.succ (n / d)) (10 ^ L) d ltac:(lia) ltac:(lia)); lia).
    assert (HL1 : 1 <= L) by lia. unfold log10_of, times. replace (L - 1 + 1) with L by lia.
    rewrite (proj2 (Z.leb_gt 0 (- L))) by lia. cbn [fst snd]. rewrite !Z.opp_involutive. split; [|lia].
    destruct (Z.leb_spec 0 (- (L - 1))) as [H|H]; cbn [fst snd]; [|lia]. assert (L = 1) as E by lia. rewrite E in *. cbn in *. lia.
  - destruct (down_to_ok 1099 0 n d Hn Hlt Hb) as (j & E & Hj & H1 & H2). rewrite E. unfold log10_of, times.
    replace (- (0 - j)) with j by lia. replace (- (0 - j + 1)) with (j - 1) by lia.
    rewrite !(proj2 (Z.leb_le 0 _)) by lia. cbn [fst snd]. lia.
Qed.

Lemma rhe_half a b : 0 < b -> 2 * Z.abs (a - rhe a b * b) <= b.
Proof.
  intros Hb. unfold rhe. pose proof (Z.div_mod a b ltac:(lia)). pose proof (Z.mod_pos_bound a b Hb).
  destruct (Z.compare_spec (2 * (a mod b)) b); [destruct (Z.even _)| |]; lia.
Qed.

(** [log10_of] at the scale of 17 digits. *)
Lemma log10_scaled n d x : 0 < n -> 0 < d -> log10_of n d x ->
  let a := fst (times 10 (16 - x) n d) in let b := snd (times 10 (16 - x) n d) in 0 < b /\ b * 10 ^ 16 <= a < b * 10 ^ 17.
Proof.
  intros Hn Hd [H1 H2] a b. destruct (times_pos 10 (16 - x) n d ltac:(lia) Hn Hd) as [Pa Pb]. fold a b in Pa, Pb. split; [done|].
  pose proof (times_le 10 (- x) (16 - x) n d ltac:(lia) ltac:(lia)) as E1. pose proof (times_le 10 (- (x + 1)) (16 - x) n d ltac:(lia) ltac:(lia)) as E2.
  destruct (times_pos 10 (- x) n d ltac:(lia) Hn Hd) as [Pc Pd]. destruct (times_pos 10 (- (x + 1)) n d ltac:(lia) Hn Hd) as [Pe Pf]. fold a b in E1, E2.
  replace (16 - x - - x) with 16 in E1 by lia. replace (16 - x - - (x + 1)) with 17 in E2 by lia.
  set (c := fst (times 10 (- x) n d)) in *. set (g := snd (times 10 (- x) n d)) in *. set (c' := fst (times 10 (- (x + 1)) n d)) in *. set (g' := snd (times 10 (- (x + 1)) n d)) in *.
  clearbody a b c g c' g'. split; nia.
Qed.

Lemma digits17_ok n d : 0 < n -> 0 < d -> d <= n * 10 ^ 1099 ->
  let q := fst (digits17 n d) in let x := snd (digits17 n d) in
  10 ^ 16 <= q < 10 ^ 17 /\ (x = exp10 n d \/ x = exp10 n d + 1) /\
  2 * 10 ^ 16 * Z.abs (fst (times 10 (16 - x) n d) - q * snd (times 10 (16 - x) n d)) <= fst (times 10 (16 - x) n d).
Proof.
  intros Hn Hd Hb. pose proof (exp10_ok n d Hn Hd Hb) as Hx. unfold digits17. set (x := exp10 n d) in *.
  destruct (log10_scaled n d x Hn Hd Hx) as (Pb & H1 & H2). pose proof (times_le 10 (16 - (x + 1)) (16 - x) n d ltac:(lia) ltac:(lia)) as Es.
  destruct (times_pos 10 (16 - (x + 1)) n d ltac:(lia) Hn Hd) as [Pc Pd]. replace (16 - x - (16 - (x + 1))) with 1 in Es by lia.
  destruct (times 10 (16 - x) n d) as [a b] eqn:Et. cbn [fst snd] in *. pose proof (rhe_half a b Pb) as Hr. set (q := rhe a b) in *.
  assert (Hq : 10 ^ 16 <= q <= 10 ^ 17) by (clearbody q; split; nia). destruct (Z.eqb_spec q (10 ^ 17)) as [E|E]; cbn [fst snd].
  - split; [lia|]. split; [by right|]. set (c := fst (times 10 (16 - (x + 1)) n d)) in *. set (g := snd (times 10 (16 - (x + 1)) n d)) in *.
    rewrite E in Hr. clearbody c g. clear - Es Hr Pb Pd Pc H1 H2. rewrite Z.pow_1_r in Es.
    assert (E1 : (c - 10 ^ 16 * g) * b * 10 = (a - 10 ^ 17 * b) * g) by lia. apply (f_equal Z.abs) in E1.
    rewrite !Z.abs_mul, (Z.abs_eq b), (Z.abs_eq g) in E1 by lia. change (Z.abs 10) with 10 in E1.
    assert (Hcg : 20 * Z.abs (c - 10 ^ 16 * g) <= g) by nia. lia.
  - split; [lia|]. split; [by left|]. rewrite Et. cbn [fst snd]. lia.
Qed.

(** The number that the digits are, as strtod reads it. *)
Lemma digits_close n0 d0 q x t m : 0 < n0 -> 0 < d0 -> 0 < m -> 0 <= t -> q = m * 10 ^ t ->
  2 * 10 ^ 16 * Z.abs (fst (times 10 (16 - x) n0 d0) - q * snd (times 10 (16 - x) n0 d0)) <= fst (times 10 (16 - x) n0 d0) ->
  close (fst (times 10 (x - 16 + t) m 1)) (snd (times 10 (x - 16 + t) m 1)) n0 d0.
Proof.
  intros Hn Hd Hm Ht Eq H. assert (Hp : forall k, 0 <= k -> 0 < 10 ^ k) by (intros; apply Z.pow_pos_nonneg; lia). unfold close.
  set (nn := fst (times 10 (x - 16 + t) m 1)). set (dd := snd (times 10 (x - 16 + t) m 1)).
  assert (Hc : exists c, 0 < c /\ nn * d0 * c = q * snd (times 10 (16 - x) n0 d0) /\ n0 * dd * c = fst (times 10 (16 - x) n0 d0)).
  { subst nn dd. unfold times. destruct (Z.leb_spec 0 (16 - x)), (Z.leb_spec 0 (x - 16 + t)); cbn [fst snd].
    - exists (10 ^ (16 - x)). split; [apply Hp; lia|]. split; [|ring]. rewrite Eq. replace (10 ^ t) with (10 ^ (x - 16 + t) * 10 ^ (16 - x)) by (rewrite <- Z.pow_add_r by lia; f_equal; lia). ring.
    - exists (10 ^ t). split; [apply Hp; lia|]. split; [rewrite Eq; ring|]. replace (10 ^ (16 - x)) with (10 ^ (- (x - 16 + t)) * 10 ^ t) by (rewrite <- Z.pow_add_r by lia; f_equal; lia). ring.
    - exists 1. split; [lia|]. split; [|ring]. rewrite Eq. replace (10 ^ (x - 16 + t)) with (10 ^ t * 10 ^ (- (16 - x))) by (rewrite <- Z.pow_add_r by lia; f_equal; lia). ring.
    - lia. }
  destruct Hc as (c & Pc & E1 & E2). rewrite <- E1, <- E2 in H. replace (n0 * dd * c - nn * d0 * c) with ((n0 * dd - nn * d0) * c) in H by ring.
  rewrite Z.abs_mul, (Z.abs_eq c) in H by lia. replace (nn * d0 - n0 * dd) with (- (n0 * dd - nn * d0)) by ring. rewrite Z.abs_opp. nia.
Qed.

(** ** Reading the text back *)
Lemma drop_zeros_spec u : exists t, u = replicate t "0"%char ++ drop_zeros u.
Proof.
  induction u as [|c u (t & IH)]; [by exists 0%nat|]. destruct (decide (c = "0"%char)) as [->|Hne].
  - exists (S t). cbn. by rewrite <- IH.
  - exists 0%nat. destruct c as [[] [] [] [] [] [] [] []]; try reflexivity. done.
Qed.
Lemma trim_zeros_spec s : exists t, s = trim_zeros s ++ replicate t "0"%char.
Proof.
  destruct (drop_zeros_spec (rev s)) as (t & E). exists t. unfold trim_zeros. rewrite <- (rev_involutive s) at 1. rewrite E at 1.
  rewrite rev_app_distr. f_equal. clear E. induction t as [|t IH]; [done|]. cbn [replicate rev]. by rewrite IH, <- replicate_S_end.
Qed.

Lemma dval_zeros t : dval (replicate t "0"%char) = 0.
Proof. induction t as [|t IH]; [done|]. rewrite replicate_S_end, dval_snoc, IH. done. Qed.

Definition stops (p : ascii -> bool) (rest : sds) : Prop := match rest with [] => True | c :: _ => p c = false end.

Lemma span_all p a rest : Forall (fun c => p c = true) a -> stops p rest -> span p (a ++ rest) = (a, rest).
Proof.
  intros Ha Hr. induction Ha as [|c a Hc _ IH]; cbn; [destruct rest; [done|]; cbn in Hr |- *; by rewrite Hr|]. by rewrite Hc, IH.
Qed.

(** What may follow the digits: nothing, or an exponent. *)
Inductive tail_of : Z -> sds -> Prop :=
| tail_none : tail_of 0 []
| tail_exp neg ds : all_digits ds -> ds <> [] -> tail_of (if neg : bool then - dval ds else dval ds) ("e"%char :: (if neg then "-"%char else "+"%char) :: ds).

Lemma exponent_ok e rest : tail_of e rest -> exponent "e" rest = (e, []).
Proof.
  intros [|neg ds Hd Hne]; [done|]. cbn [exponent]. rewrite bool_decide_eq_true_2 by done.
  assert (Hs : span is_digit ds = (ds, [])) by (pose proof (span_all is_digit ds [] Hd I) as Hs; by rewrite app_nil_r in Hs).
  assert (E : sign_of ((if neg then "-"%char else "+"%char) :: ds) = (neg, ds)) by (by destruct neg). rewrite E, Hs. destruct ds; [done|]. by destruct neg.
Qed.

Lemma tail_stops e rest : tail_of e rest -> stops is_digit rest /\ match rest with "."%char :: _ => False | _ => True end.
Proof. by intros []. Qed.

Lemma mantissa_ok ip fp e rest : all_digits ip -> all_digits fp -> tail_of e rest ->
  mantissa is_digit (with_point ip fp ++ rest) = (ip, trim_zeros fp, rest).
Proof.
  intros Hi Hf Ht. destruct (tail_stops e rest Ht) as [Hs Hp]. destruct (trim_zeros_spec fp) as (t & E). unfold with_point, mantissa.
  rewrite E in Hf. apply Forall_app in Hf as [Hf _]. destruct (trim_zeros fp) as [|c u] eqn:Et.
  - rewrite (span_all is_digit ip rest Hi Hs). destruct rest as [|[[] [] [] [] [] [] [] []] r]; done.
  - rewrite <- app_assoc. rewrite (span_all is_digit ip (("."%char :: c :: u) ++ rest) Hi) by done. cbn [app].
    by rewrite (span_all is_digit (c :: u) rest Hf Hs : span is_digit (c :: u ++ rest) = _).
Qed.

(** A text that starts with a digit is read as a decimal number. *)
Lemma digit_head c : is_digit c = true -> is_space c = false /\ tolower c = c /\ c <> NUL /\ c <> "-"%char /\ c <> "+"%char /\ c <> "i"%char /\ c <> "n"%char /\ c <> "."%char /\ c <> "x"%char.
Proof. destruct c as [[] [] [] [] [] [] [] []]; intros H; try discriminate H; repeat split; done. Qed.

Lemma no_case_head w b c u : tolower c <> b -> no_case (b :: w) (c :: u) = false.
Proof. intros H. unfold no_case. apply bool_decide_eq_false. cbn. congruence. Qed.

Definition plain (c : ascii) : bool := is_digit c || bool_decide (c ∈ [".";"e";"+";"-"]%char).

Lemma cstr_plain u : Forall (fun c => plain c = true) u -> cstr u = u.
Proof. induction 1 as [|c u Hc _ IH]; [done|]. cbn. rewrite decide_False; [by rewrite IH|]. intros ->. done. Qed.

Lemma plain_not_x c : plain c = true -> tolower c <> "x"%char.
Proof. destruct c as [[] [] [] [] [] [] [] []]; intros H; try discriminate H; done. Qed.

Lemma no_hex c u : Forall (fun c => plain c = true) u -> no_case (str "0x") (c :: u) = false.
Proof.
  intros H. apply bool_decide_eq_false. destruct u as [|d u]; [done|]. apply Forall_cons in H as [H _]. apply plain_not_x in H. cbn. congruence.
Qed.

Lemma digits_plain ds : all_digits ds -> Forall (fun c => plain c = true) ds.
Proof. intros H. eapply Forall_impl; [exact H|]. intros c Hc. unfold plain. by rewrite Hc. Qed.

Lemma with_point_plain ip fp e rest : all_digits ip -> all_digits fp -> tail_of e rest -> Forall (fun c => plain c = true) (with_point ip fp ++ rest).
Proof.
  intros Hi Hf Ht. apply Forall_app. split.
  - destruct (trim_zeros_spec fp) as (t & E). rewrite E in Hf. apply Forall_app in Hf as [Hf _]. unfold with_point.
    destruct (trim_zeros fp) as [|d u]; [by apply digits_plain|]. apply Forall_app. split; [by apply digits_plain|]. constructor; [done|by apply digits_plain].
  - destruct Ht as [|neg ds Hd _]; [constructor|]. constructor; [done|]. constructor; [by destruct neg|by apply digits_plain].
Qed.

Lemma strtod_text (s : bool) ip fp e rest : all_digits ip -> ip <> [] -> all_digits fp -> tail_of e rest ->
  strtod ((if s then ["-"%char] else []) ++ with_point ip fp ++ rest) =
  let x := scaled s 10 (dval (ip ++ trim_zeros fp)) (e - sdslen (trim_zeros fp)) (sdslen (ip ++ trim_zeros fp)) in
  (x, [], out_of_range (dval (ip ++ trim_zeros fp)) x).
Proof.
  intros Hi Hne Hf Ht. pose proof (with_point_plain ip fp e rest Hi Hf Ht) as Hp. pose proof (mantissa_ok ip fp e rest Hi Hf Ht) as Hm.
  assert (Hc : exists c u, with_point ip fp ++ rest = c :: u /\ is_digit c = true).
  { destruct ip as [|c ip]; [done|]. apply Forall_cons in Hi as [Hc _]. unfold with_point. destruct (trim_zeros fp); eexists _, _; by split. }
  destruct Hc as (c & u & E & Hc). destruct (digit_head c Hc) as (H1 & H2 & H3 & H4 & H5 & H6 & H7 & _).
  unfold strtod. rewrite cstr_plain by (apply Forall_app; split; [destruct s; repeat constructor|done]).
  assert (Hs : sign_of (skip_space ((if s then ["-"%char] else []) ++ with_point ip fp ++ rest)) = (s, with_point ip fp ++ rest)).
  { rewrite E. destruct s; cbn [app]; [done|]. cbn [skip_space]. rewrite H1. unfold sign_of. destruct c as [[] [] [] [] [] [] [] []]; done. }
  rewrite Hs. rewrite E in Hp, Hm |- *. apply Forall_cons in Hp as [_ Hp].
  change (str "infinity") with ("i"%char :: str "nfinity"). change (str "inf") with ("i"%char :: str "nf"). change (str "nan") with ("n"%char :: str "an").
  rewrite !(no_case_head _ _ c u) by congruence. rewrite (no_hex c u Hp), Hm. destruct (ip ++ trim_zeros fp) as [|d ds] eqn:Ed.
  { apply app_eq_nil in Ed as [? _]. done. }
  rewrite <- Ed, (exponent_ok e rest Ht). done.
Qed.

(** *** The range of a double *)
Lemma frac_range s m e : valid (S754_finite s m e) = true -> let n := fst (frac_of m e) in let d := snd (frac_of m e) in
  0 < n /\ 0 < d /\ d <= n * 10 ^ 1099 /\ n < d * 10 ^ 400.
Proof.
  intros Hv n d. destruct (valid_cases s m e Hv) as (He & Hm & _). unfold frac_of, times in n, d.
  assert (H1 : 2 ^ 1074 <= 10 ^ 1099) by (apply Z.leb_le; vm_compute; reflexivity). assert (H2 : 2 ^ 53 * 2 ^ 971 <= 10 ^ 400) by (apply Z.leb_le; vm_compute; reflexivity).
  set (B := 10 ^ 1099) in *. set (C := 10 ^ 400) in *. set (P := 2 ^ 53) in *. assert (HP : 0 < P) by (subst P; lia). subst n d. destruct (Z.leb_spec 0 e); cbn [fst snd].
  - pose proof (Z.pow_pos_nonneg 2 e ltac:(lia) ltac:(lia)). pose proof (Z.pow_le_mono_r 2 e 971 ltac:(lia) ltac:(lia)). set (Q := 2 ^ 971) in *. clearbody B C P Q. nia.
  - pose proof (Z.pow_pos_nonneg 2 (- e) ltac:(lia) ltac:(lia)). pose proof (Z.pow_le_mono_r 2 (- e) 1074 ltac:(lia) ltac:(lia)).
    pose proof (Z.pow_pos_nonneg 2 971 ltac:(lia) ltac:(lia)). set (Q := 2 ^ 971) in *. set (U := 2 ^ 1074) in *. clearbody B C P Q U. nia.
Qed.

Lemma exp10_range n d : 0 < n -> 0 < d -> d <= n * 10 ^ 1099 -> n < d * 10 ^ 400 -> -1100 <= exp10 n d < 400.
Proof.
  intros Hn Hd H1 H2. destruct (exp10_ok n d Hn Hd H1) as [L1 L2]. set (x := exp10 n d) in *. clearbody x. unfold times in L1, L2. split.
  - apply Z.nlt_ge. intros Hx. rewrite (proj2 (Z.leb_le 0 (- (x + 1)))) in L2 by lia. cbn [fst snd] in L2.
    pose proof (Z.pow_le_mono_r 10 1099 (- (x + 1)) ltac:(lia) ltac:(lia)). set (B := 10 ^ 1099) in *. clearbody B. nia.
  - apply Z.nle_gt. intros Hx. rewrite (proj2 (Z.leb_gt 0 (- x))) in L1 by lia. cbn [fst snd] in L1. rewrite Z.opp_involutive in L1.
    pose proof (Z.pow_le_mono_r 10 400 x ltac:(lia) ltac:(lia)). set (C := 10 ^ 400) in *. clearbody C. nia.
Qed.

(** *** The format %.17g is read back *)
Lemma read17 s m e ip fp ex rest q x : valid (S754_finite s m e) = true -> all_digits ip -> ip <> [] -> all_digits fp -> tail_of ex rest ->
  (length fp <= 40)%nat -> dval (ip ++ fp) = q -> 0 < q -> ex - sdslen fp = x - 16 -> -1100 <= x <= 400 ->
  2 * 10 ^ 16 * Z.abs (fst (times 10 (16 - x) (fst (frac_of m e)) (snd (frac_of m e))) - q * snd (times 10 (16 - x) (fst (frac_of m e)) (snd (frac_of m e))))
    <= fst (times 10 (16 - x) (fst (frac_of m e)) (snd (frac_of m e))) ->
  strtod ((if s then ["-"%char] else []) ++ with_point ip fp ++ rest) = (S754_finite s m e, [], false).
Proof.
  intros Hv Hi Hne Hf Ht Hl Hq Hq0 Hx Hxr Hc. destruct (frac_range s m e Hv) as (Hn & Hd & _). rewrite (strtod_text s ip fp ex rest Hi Hne Hf Ht).
  destruct (trim_zeros_spec fp) as (t & E). set (u := trim_zeros fp) in *. assert (Hlen : sdslen fp = sdslen u + Z.of_nat t).
  { unfold sdslen. rewrite E, length_app, length_replicate. lia. }
  assert (Em : q = dval (ip ++ u) * 10 ^ Z.of_nat t).
  { rewrite <- Hq, E, app_assoc, dval_digits_app, dval_zeros, length_replicate. lia. }
  pose proof (Z.pow_pos_nonneg 10 (Z.of_nat t) ltac:(lia) ltac:(lia)) as Hp. assert (Hm : 0 < dval (ip ++ u)) by nia.
  assert (Hu : 0 <= sdslen u) by (unfold sdslen; lia). unfold scaled. rewrite (proj2 (Z.eqb_neq _ 0)) by lia.
  assert (Hfl : sdslen fp <= 40) by (unfold sdslen; lia). rewrite Z.gtb_ltb, (proj2 (Z.ltb_ge 5000 _)) by lia.
  rewrite (proj2 (Z.ltb_ge _ (-5000))) by (unfold sdslen in *; lia).
  replace (ex - sdslen u) with (x - 16 + Z.of_nat t) by lia. pose proof (digits_close _ _ q x (Z.of_nat t) _ Hn Hd Hm ltac:(lia) Em Hc) as Hcl.
  destruct (times_pos 10 (x - 16 + Z.of_nat t) (dval (ip ++ u)) 1 ltac:(lia) Hm ltac:(lia)) as [P1 P2].
  destruct (times 10 (x - 16 + Z.of_nat t) (dval (ip ++ u)) 1) as [nn dd]. cbn [fst snd] in *. rewrite (round_close s m e nn dd) by done. unfold out_of_range. by rewrite andb_false_r.
Qed.

Lemma take_drop_digits k ds : all_digits ds -> all_digits (take k ds) /\ all_digits (drop k ds).
Proof. intros H. apply Forall_app. by rewrite take_drop. Qed.

Lemma g17_read s m e : valid (S754_finite s m e) = true -> strtod (fmt_g17 s m e) = (S754_finite s m e, [], false).
Proof.
  intros Hv. destruct (frac_range s m e Hv) as (Hn & Hd & Hb1 & Hb2). unfold fmt_g17. destruct (frac_of m e) as [n d] eqn:Ef. cbn [fst snd] in *.
  destruct (digits17_ok n d Hn Hd Hb1) as (Hq & Hx & Hc). pose proof (exp10_range n d Hn Hd Hb1 Hb2) as Hr.
  destruct (digits17 n d) as [q x]. cbn [fst snd] in *. destruct (decimal_ok 17 17 q) as (D1 & D2 & D3 & D4 & D5); [change (Z.of_nat 17) with 17; lia|lia|].
  set (ds := decimal 17 17 q) in *. assert (D6 : length ds = 17%nat).
  { destruct (decide (17 < length ds)%nat) as [H|H]; [|lia]. specialize (D5 H). pose proof (Z.pow_le_mono_r 10 17 (Z.of_nat (length ds) - 1) ltac:(lia) ltac:(lia)). lia. }
  clear D3 D4 D5. clearbody ds. assert (Hc' : 2 * 10 ^ 16 * Z.abs (fst (times 10 (16 - x) (fst (frac_of m e)) (snd (frac_of m e))) - q * snd (times 10 (16 - x) (fst (frac_of m e)) (snd (frac_of m e))))
    <= fst (times 10 (16 - x) (fst (frac_of m e)) (snd (frac_of m e)))) by (rewrite Ef; exact Hc).
  destruct ((x <? -4) || (17 <=? x)) eqn:E1; [|destruct (x <? 0) eqn:E2].
  - destruct (take_drop_digits 1 ds D1) as [T1 T2]. destruct (decimal_of_ok 2 (Z.abs x) ltac:(lia) ltac:(lia)) as (X1 & X2 & X3 & _).
    set (xs := decimal 2 (S (dec_fuel (Z.abs x))) (Z.abs x)) in *.
    apply (read17 s m e (take 1 ds) (drop 1 ds) x _ q x); try done; [by destruct ds| |rewrite length_drop; lia|by rewrite take_drop|lia| |lia].
    + pose proof (tail_exp (x <? 0) xs X1 ltac:(intros E; rewrite E in X3; cbn in X3; lia)) as Ht. rewrite X2 in Ht.
      destruct (Z.ltb_spec x 0); [replace (- Z.abs x) with x in Ht by lia|replace (Z.abs x) with x in Ht by lia]; exact Ht.
    + unfold sdslen. rewrite length_drop, D6. cbn. lia.
  - apply orb_false_iff in E1 as [E1%Z.ltb_ge _]. apply Z.ltb_lt in E2. rewrite <- (app_nil_r (with_point _ _)).
    apply (read17 s m e _ _ 0 [] q x); try done; [by repeat constructor| |constructor| | |lia| |lia].
    + apply Forall_app. split; [|done]. apply Forall_replicate. done.
    + rewrite length_app, length_replicate. lia.
    + rewrite dval_digits_app, dval_digits_app, dval_zeros, D2. change (dval (str "0")) with 0. lia.
    + unfold sdslen. rewrite length_app, length_replicate, D6. lia.
  - apply orb_false_iff in E1 as [_ E1%Z.leb_gt]. apply Z.ltb_ge in E2. rewrite <- (app_nil_r (with_point _ _)). destruct (take_drop_digits (Z.to_nat (x + 1)) ds D1) as [T1 T2].
    apply (read17 s m e _ _ 0 [] q x); try done; [|constructor|rewrite length_drop; lia|by rewrite take_drop|lia| |lia].
    + intros E. apply (f_equal length) in E. rewrite length_take in E. cbn in E. lia.
    + unfold sdslen. rewrite length_drop, D6. lia.
Qed.

(** *** Integers *)
Lemma dval_util a ds : Util.dval a ds = foldl (fun acc c => acc * 10 + (code c - 48)) a ds.
Proof. revert a. induction ds as [|c ds IH]; intros a; [done|]. cbn. apply IH. Qed.

Lemma dval_nonneg ds : all_digits ds -> 0 <= dval ds.
Proof.
  induction ds as [|c ds IH] using rev_ind; [done|]. intros [H1 H2]%Forall_app. apply Forall_cons in H2 as [Hc _]. rewrite dval_snoc.
  apply is_digit_range in Hc. specialize (IH H1). lia.
Qed.

Lemma strtod_integer t n : string2ll t = Some n -> strtod t = (of_Z n, [], out_of_range n (of_Z n)).
Proof.
  intros [(neg & c & ds & Et & Hd & En & Hz) _]%string2ll_canonical. unfold dval in *.
  assert (E : t = (if neg then ["-"%char] else []) ++ with_point (c :: ds) [] ++ []) by (rewrite Et, app_nil_r; by destruct neg).
  rewrite E, (strtod_text neg (c :: ds) [] 0 [] Hd ltac:(done) ltac:(constructor) tail_none). change (trim_zeros []) with (@nil ascii). rewrite app_nil_r.
  rewrite dval_util in En. change (foldl _ 0 (c :: ds)) with (dval (c :: ds)) in En. pose proof (dval_nonneg _ Hd) as Hnn. unfold sdslen. cbn [length Z.of_nat].
  remember (dval (c :: ds)) as v eqn:Hv. change (0 - Z.of_nat 0) with 0. assert (Ex : scaled neg 10 v 0 (Z.of_nat (S (length ds))) = of_Z n).
  { unfold scaled, of_Z. destruct (Z.eqb_spec v 0) as [E0|E0].
    - assert (n = 0) as -> by (destruct neg; lia). cbn. destruct neg; [|done]. exfalso.
      change (c :: ds) with ([c] ++ ds) in Hv. rewrite dval_digits_app in Hv. apply Forall_cons in Hd as [Hc Hds]. pose proof (dval_nonneg ds Hds).
      pose proof (Z.pow_pos_nonneg 10 (Z.of_nat (length ds)) ltac:(lia) ltac:(lia)). apply is_digit_range in Hc.
      assert (Hdc : dval [c] = code c - 48) by done. assert (Ec : code c = 48) by nia. destruct Hz as [_ Hz]; [|done]. by rewrite <- (chr_code c), Ec.
    - change (0 >? 5000) with false. cbn iota. rewrite (proj2 (Z.ltb_ge _ (-5000))) by lia. change (times 10 0 v 1) with (v * 1, 1). rewrite Z.mul_1_r.
      assert (Hn : (n <? 0) = neg) by (destruct neg; [apply Z.ltb_lt|apply Z.ltb_ge]; lia). rewrite Hn. f_equal. destruct neg; lia. }
  rewrite Ex. cbn zeta. unfold out_of_range. replace (v =? 0) with (n =? 0); [done|]. destruct (Z.eqb_spec n 0), (Z.eqb_spec v 0); destruct neg; lia.
Qed.

(** The integers that d2string prints as such fit a long long. *)
Lemma to_Z_range s m e : valid (S754_finite s m e) = true -> SFltb (of_Z (-4503599627370495)) (S754_finite s m e) = true ->
  SFltb (S754_finite s m e) (of_Z 4503599627370496) = true -> in_s 64 (to_Z (S754_finite s m e)).
Proof.
  intros Hv Hlo Hhi. destruct (valid_cases s m e Hv) as (_ & Hm & _).
  change (of_Z (-4503599627370495)) with (S754_finite true 9007199254740990 (-1)) in Hlo. change (of_Z 4503599627370496) with (S754_finite false 4503599627370496 0) in Hhi.
  assert (He : e <= 0).
  { destruct s; [clear Hhi; unfold SFltb in Hlo; cbn [SFcompare] in Hlo|clear Hlo; unfold SFltb in Hhi; cbn [SFcompare] in Hhi].
    - destruct (Z.compare_spec (-1) e); [lia|done|lia].
    - destruct (Z.compare_spec e 0); [lia|lia|done]. }
  assert (Hr : 0 <= (if 0 <=? e then Z.pos m * 2 ^ e else Z.pos m / 2 ^ (- e)) < 2 ^ 53).
  { destruct (Z.leb_spec 0 e).
    - assert (e = 0) as -> by lia. rewrite Z.pow_0_r. lia.
    - pose proof (Z.pow_pos_nonneg 2 (- e) ltac:(lia) ltac:(lia)). split; [apply Z.div_pos; lia|]. apply Z.le_lt_trans with (Z.pos m); [|lia].
      apply Z.div_le_upper_bound; [lia|]. nia. }
  unfold to_Z, in_s. change (2 ^ (64 - 1)) with 9223372036854775808. destruct s; lia.
Qed.

(** ** d2string and strtod *)
Lemma read_back x : valid x = true -> isnan x = false -> strtod (d2string x) = (x, [], false).
Proof.
  intros Hv Hn. destruct x as [s|s| |s m e]; [by destruct s|by destruct s|done|]. unfold d2string.
  destruct (is_ll (S754_finite s m e)) eqn:El; [|by apply g17_read]. unfold is_ll in El. apply andb_true_iff in El as [El Heq]. apply andb_true_iff in El as [Hlo Hhi].
  set (n := to_Z (S754_finite s m e)) in *.
  assert (Hr : in_s 64 n) by (by apply (to_Z_range s m e)).
  rewrite (strtod_integer _ n) by (by apply string2ll_text). clearbody n. unfold SFeqb in Heq. clear Hlo Hhi. unfold out_of_range.
  destruct (of_Z n) as [s'|s'| |s' m' e']; [by destruct s|by destruct s'|done|]. cbn in Heq. change (Pos.compare_cont Eq m m') with (Pos.compare m m') in Heq.
  rewrite andb_false_r. destruct s, s'; try done; destruct (Z.compare_spec e e'); try done; destruct (Pos.compare_spec m m'); try done; by subst.
Qed.

(** *** The length of the text *)
Lemma decimal_length fuel : forall w n, (length (decimal w fuel n) <= fuel)%nat.
Proof.
  induction fuel as [|fuel IH]; intros w n; [done|]. cbn [decimal]. destruct (_ && _); [cbn; lia|]. rewrite length_app. cbn. specialize (IH (w - 1)%nat (n / 10)). lia.
Qed.

Lemma trim_zeros_length u : (length (trim_zeros u) <= length u)%nat.
Proof. destruct (trim_zeros_spec u) as (t & E). apply (f_equal length) in E. rewrite length_app in E. lia. Qed.

Lemma with_point_length ip fp : (length (with_point ip fp) <= length ip + 1 + length fp)%nat.
Proof. pose proof (trim_zeros_length fp). unfold with_point. destruct (trim_zeros fp); [lia|]. rewrite length_app. cbn in *. lia. Qed.

Lemma g17_length s m e : valid (S754_finite s m e) = true -> (length (fmt_g17 s m e) < 40)%nat.
Proof.
  intros Hv. destruct (frac_range s m e Hv) as (Hn & Hd & Hb1 & Hb2). unfold fmt_g17. destruct (frac_of m e) as [n d]. cbn [fst snd] in *.
  destruct (digits17_ok n d Hn Hd Hb1) as (_ & Hx & _). pose proof (exp10_range n d Hn Hd Hb1 Hb2) as Hr. destruct (digits17 n d) as [q x]. cbn [fst snd] in Hx.
  pose proof (decimal_length 17 17 q) as Hl. set (ds := decimal 17 17 q) in *. clearbody ds. rewrite length_app.
  assert (Hs : (length (if s then ["-"%char] else []) <= 1)%nat) by (destruct s; cbn; lia).
  destruct (_ || _) eqn:E1; [|apply orb_false_iff in E1 as [E1%Z.ltb_ge _]; destruct (Z.ltb_spec x 0)].
  - rewrite length_app. cbn [length]. pose proof (with_point_length (take 1 ds) (drop 1 ds)). pose proof (decimal_length (S (dec_fuel (Z.abs x))) 2 (Z.abs x)).
    pose proof (Z.log2_le_mono (Z.abs x) 2047 ltac:(lia)). change (Z.log2 2047) with 10 in *. rewrite length_take, length_drop in *. unfold dec_fuel in *. lia.
  - pose proof (with_point_length (str "0") (replicate (Z.to_nat (- x - 1)) "0"%char ++ ds)). rewrite length_app, length_replicate in *. change (length (str "0")) with 1%nat in *. lia.
  - pose proof (with_point_length (take (Z.to_nat (x + 1)) ds) (drop (Z.to_nat (x + 1)) ds)). rewrite length_take, length_drop in *. lia.
Qed.

Lemma d2string_length x : valid x = true -> string2ll (d2string x) = None -> sdslen (d2string x) < 128.
Proof.
  intros Hv Hs. destruct x as [s|s| |s m e]; [by destruct s|by destruct s|done|]. unfold d2string in *. destruct (is_ll (S754_finite s m e)) eqn:El.
  - exfalso. unfold is_ll in El. apply andb_true_iff in El as [El _]. apply andb_true_iff in El as [Hlo Hhi].
    by rewrite string2ll_text in Hs by (by apply (to_Z_range s m e)).
  - pose proof (g17_length s m e Hv). unfold sdslen. lia.
Qed.

(** ** What is computed is a double *)
Lemma valid_mk s m e : -1074 <= e <= 971 -> Z.pos m < 2 ^ 53 -> 2 ^ 52 <= Z.pos m \/ e = -1074 -> valid (S754_finite s m e) = true.
Proof.
  intros He Hm Hlow. unfold valid, valid_binary, bounded, canonical_mantissa, fexp, emin. rewrite andb_true_iff, Z.eqb_eq, Z.leb_le. split; [|lia].
  pose proof (digits2_spec m) as [D1 D2]. set (k := Z.pos (digits2_pos m)) in *. assert (0 < k) by (subst k; lia). clearbody k.
  assert (k <= 53) by (apply Z.nlt_ge; intros Hk; pose proof (Z.pow_le_mono_r 2 53 (k - 1) ltac:(lia) ltac:(lia)); lia).
  destruct Hlow as [Hlow| ->]; [|lia]. assert (53 <= k); [|lia]. apply Z.nlt_ge. intros Hk. pose proof (Z.pow_le_mono_r 2 k 52 ltac:(lia) ltac:(lia)). lia.
Qed.

Lemma rhe_bounds a b m : 0 < b -> (m * b <= a -> m <= rhe a b) /\ (a < m * b -> rhe a b <= m).
Proof.
  intros Hb. pose proof (Z.div_mod a b ltac:(lia)) as E. pose proof (Z.mod_pos_bound a b Hb) as R. set (q := a / b) in *. set (r := a mod b) in *.
  assert (q <= rhe a b <= q + 1) by (unfold rhe; fold q r; destruct (_ ?= _); [destruct (Z.even q)|..]; lia). split; intros H'; nia.
Qed.

Lemma round_valid s n d : 0 <= n -> 0 < d -> valid (round_double s n d) = true.
Proof.
  intros Hn Hd. unfold round_double. destruct (Z.eqb_spec n 0) as [|Hz]; [done|]. assert (Hn' : 0 < n) by lia.
  pose proof (log_ok n d Hn' Hd) as Hl. cbn zeta in Hl. destruct (times 2 (- (Z.log2 n - Z.log2 d)) n d) as [n1 d1]. cbn [fst snd] in Hl.
  set (l := if n1 <? d1 then _ else _) in *. set (e := Z.max (-1074) (l - 52)).
  destruct (times_pos 2 (- e) n d ltac:(lia) Hn' Hd) as [Pa Pb].
  pose proof (proj1 (log_of_between n d l e 53 Hn' Hd Hl ltac:(lia))) as L1. pose proof (proj2 (log_of_between n d l e 52 Hn' Hd Hl ltac:(lia))) as L2.
  destruct (times 2 (- e) n d) as [a b]. cbn [fst snd] in *. destruct (rhe_bounds a b (2 ^ 53) Pb) as [_ B1]. destruct (rhe_bounds a b (2 ^ 52) Pb) as [B2 _].
  destruct (rhe_bounds a b 0 Pb) as [B3 _]. set (q := rhe a b) in *. clearbody q. assert (Hq : q <= 2 ^ 53) by (apply B1, Z.nle_gt; intros H; specialize (L1 ltac:(lia)); lia).
  assert (Hq2 : 2 ^ 52 <= q \/ e = -1074).
  { destruct (Z.eq_dec e (-1074)) as [E|E]; [by right|left]. apply B2, Z.nlt_ge. intros H. specialize (L2 ltac:(lia)). lia. }
  specialize (B3 ltac:(lia)). destruct (Z.eqb_spec q (2 ^ 53)) as [E|E].
  - cbn -[Z.add Z.gtb]. rewrite Z.gtb_ltb. destruct (Z.ltb_spec 971 (e + 1)); [done|]. apply valid_mk; [lia|done|by left].
  - destruct (Z.eqb_spec q 0); [done|]. rewrite Z.gtb_ltb. destruct (Z.ltb_spec 971 e); [done|]. apply valid_mk; rewrite ?Z2Pos.id by lia; lia.
Qed.

Lemma of_Z_valid v : valid (of_Z v) = true.
Proof. apply round_valid; lia. Qed.

Lemma of_Z_num v : isnan (of_Z v) = false.
Proof. unfold of_Z, round_double. repeat (case_match; try done). Qed.

Lemma scaled_valid s b m k nd : 0 < b -> 0 <= m -> valid (scaled s b m k nd) = true.
Proof.
  intros Hb Hm. unfold scaled. destruct (Z.eqb_spec m 0) as [|Hz]; [done|]. destruct (_ >? _); [done|]. destruct (_ <? _); [done|].
  destruct (times_pos b k m 1 Hb ltac:(lia) ltac:(lia)) as [P1 P2]. destruct (times b k m 1) as [n d]. cbn in P1, P2. apply round_valid; lia.
Qed.

Lemma span_class p u : Forall (fun c => p c = true) (fst (span p u)).
Proof. induction u as [|c u IH]; [constructor|]. cbn. destruct (p c) eqn:E; [|constructor]. destruct (span p u). by constructor. Qed.

Lemma mantissa_class p u : Forall (fun c => p c = true) (fst (fst (mantissa p u)) ++ snd (fst (mantissa p u))).
Proof.
  unfold mantissa. pose proof (span_class p u) as H. destruct (span p u) as [ip r]. cbn in H. assert (Hi : Forall (fun c => p c = true) (ip ++ [])) by (by rewrite app_nil_r).
  destruct r as [|c r]; [done|]. destruct (ascii_dec c ".") as [->|Hc].
  - pose proof (span_class p r) as H2. destruct (span p r) as [fp r2]. cbn in *. by apply Forall_app.
  - by destruct c as [[] [] [] [] [] [] [] []].
Qed.

Lemma digits_value_nonneg b val (p : ascii -> bool) ds : 0 < b -> (forall c, p c = true -> 0 <= val c) -> Forall (fun c => p c = true) ds -> 0 <= digits_value b val ds.
Proof.
  intros Hb Hp. unfold digits_value. induction ds as [|c ds IH] using rev_ind; [done|]. intros [H1 H2]%Forall_app. apply Forall_cons in H2 as [Hc _].
  rewrite foldl_snoc. specialize (IH H1). specialize (Hp c Hc). nia.
Qed.

Lemma hex_val_nonneg c : is_hex c = true -> 0 <= hex_val c.
Proof.
  unfold is_hex, hex_val. destruct (is_digit c) eqn:E; [apply is_digit_range in E; lia|]. cbn [orb]. intros [H _]%andb_true_iff. apply Z.leb_le in H. lia.
Qed.

(** strtod computes a double. *)
Lemma strtod_valid t : valid (strtod_val t) = true.
Proof.
  unfold strtod_val, strtod. destruct (sign_of _) as [s u]. destruct (no_case _ u); [done|]. destruct (no_case _ u); [done|]. destruct (no_case _ u); [done|].
  assert (Hdec : forall u, valid (fst (fst (let '(ip, fp, r) := mantissa is_digit u in
      match ip ++ fp with [] => (S754_zero false, cstr t, false) | ds => let m := digits_value 10 (fun c => code c - 48) ds in let (e, r2) := exponent "e"%char r in
        let x := scaled s 10 m (e - sdslen fp) (sdslen ds) in (x, r2, out_of_range m x) end))) = true).
  { intros u'. pose proof (mantissa_class is_digit u') as Hm. destruct (mantissa is_digit u') as [[ip fp] r]. cbn [fst snd] in Hm. destruct (ip ++ fp) as [|c ds]; [done|].
    destruct (exponent _ r). cbn [fst]. apply scaled_valid; [lia|]. apply (digits_value_nonneg _ _ is_digit); [lia| |done]. intros d Hd. apply is_digit_range in Hd. lia. }
  destruct (no_case (str "0x") u); [|apply Hdec]. pose proof (mantissa_class is_hex (drop 2 u)) as Hm. destruct (mantissa is_hex (drop 2 u)) as [[ip fp] r]. cbn [fst snd] in Hm.
  destruct (ip ++ fp) as [|c ds] eqn:E; [apply Hdec|]. rewrite E. destruct (exponent _ r). cbn [fst]. apply scaled_valid; [lia|].
  apply (digits_value_nonneg _ _ is_hex); [lia|apply hex_val_nonneg|done].
Qed.

Lemma plus_valid x y : valid x = true -> valid y = true -> valid (plus x y) = true.
Proof.
  intros Hx Hy. destruct x as [s|s| |s m e], y as [t|t| |t k f]; try done; cbn [plus]; [by destruct (Bool.eqb s t)|].
  destruct (frac_range s m e Hx) as (_ & H1 & _), (frac_range t k f Hy) as (_ & H2 & _). destruct (frac_of m e) as [n1 d1], (frac_of k f) as [n2 d2]. cbn [fst snd] in *.
  cbn zeta. destruct (_ =? 0); [done|]. apply round_valid; [lia|nia].
Qed.
End Double.
