(* ===== verification/ZSkip.v ===== *)
(** * Sorted sets: the skip list of t_zset.c

    Nodes lie in a heap of their own, with the arrays of forward pointers and
    spans of the code; scores are IEEE doubles (SpecFloat), the objects are kept
    as their bytes.  Random numbers are the values that random() returns. *)
From S2P Require Import Prelude CStr Double.

Module ZSkip.

Abbreviation addr := positive (only parsing).
Abbreviation score := spec_float (only parsing).

(** ** Data *)
Definition ZSKIPLIST_MAXLEVEL : nat := 32.

Record zskiplistLevel := mkLevel { forward : option addr; span : Z }.
(** [n_obj = None] is the NULL of the header. *)
Record zskiplistNode := mkNode {
  n_obj : option sds;
  n_score : score;
  n_backward : option addr;
  n_level : list zskiplistLevel
}.
Record zskiplist := mkZsl {
  zsl_nodes : gmap addr zskiplistNode;
  zsl_fresh : addr;
  zsl_header : addr;
  zsl_tail : option addr;
  zsl_length : Z;
  zsl_level : nat
}.

Definition set_n_backward (x : option addr) (n : zskiplistNode) : zskiplistNode := mkNode (n_obj n) (n_score n) x (n_level n).
Definition set_n_level (x : list zskiplistLevel) (n : zskiplistNode) : zskiplistNode := mkNode (n_obj n) (n_score n) (n_backward n) x.
Definition set_zsl_nodes (x : gmap addr zskiplistNode) (z : zskiplist) : zskiplist := mkZsl x (zsl_fresh z) (zsl_header z) (zsl_tail z) (zsl_length z) (zsl_level z).
Definition set_zsl_fresh (x : addr) (z : zskiplist) : zskiplist := mkZsl (zsl_nodes z) x (zsl_header z) (zsl_tail z) (zsl_length z) (zsl_level z).
Definition set_zsl_tail (x : option addr) (z : zskiplist) : zskiplist := mkZsl (zsl_nodes z) (zsl_fresh z) (zsl_header z) x (zsl_length z) (zsl_level z).
Definition set_zsl_length (x : Z) (z : zskiplist) : zskiplist := mkZsl (zsl_nodes z) (zsl_fresh z) (zsl_header z) (zsl_tail z) x (zsl_level z).
Definition set_zsl_level (x : nat) (z : zskiplist) : zskiplist := mkZsl (zsl_nodes z) (zsl_fresh z) (zsl_header z) (zsl_tail z) (zsl_length z) x.

Abbreviation Z_ A := (prog zskiplist A) (only parsing).

(** ** Memory *)
Definition node (a : addr) : Z_ zskiplistNode := fun z => match zsl_nodes z !! a with Some n => Done (n, z) | None => Fault Dangling end.
Definition level_at (n : zskiplistNode) (i : nat) : outcome zskiplistLevel := expect OutOfBounds (n_level n !! i).
Definition upd_node (a : addr) (f : zskiplistNode -> outcome zskiplistNode) : Z_ unit := fun z =>
  match zsl_nodes z !! a with
  | Some n => match f n with Done n' => Done (tt, set_zsl_nodes (<[a := n']> (zsl_nodes z)) z) | Fault e => Fault e end
  | None => Fault Dangling
  end.
(** [a->level[i]] becomes [f] of itself. *)
Definition upd_level (a : addr) (i : nat) (f : zskiplistLevel -> zskiplistLevel) : Z_ unit :=
  upd_node a (fun n => l ← level_at n i; Done (set_n_level (<[i := f l]> (n_level n)) n)).
Definition set_backward (a : addr) (b : option addr) : Z_ unit := upd_node a (fun n => Done (set_n_backward b n)).

(** ** Order *)
(** [a < b], [a <= b] and [a == b] of doubles are SFltb, SFleb and SFeqb. *)
Abbreviation isnan := Double.isnan.

(** compareStringObjects on the bytes of two objects. *)
Definition cmp_obj (a b : sds) : Z := let c := memcmp a b in if c =? 0 then sdslen a - sdslen b else c.

(** [n->score < score || (n->score == score && compareStringObjects(n->obj,obj) < 0)] *)
Definition node_lt (n : zskiplistNode) (sc : score) (o : sds) : bool :=
  SFltb (n_score n) sc || (SFeqb (n_score n) sc && match n_obj n with Some x => cmp_obj x o <? 0 | None => false end).
Definition node_le (n : zskiplistNode) (sc : score) (o : sds) : bool :=
  SFltb (n_score n) sc || (SFeqb (n_score n) sc && match n_obj n with Some x => cmp_obj x o <=? 0 | None => false end).

(** ** Walking *)
(** [while (x->level[i].forward && P) { rank += x->level[i].span; x = x->level[i].forward; }];
    the condition [P] looks at the next node and at the rank it has; ranks are [w]
    bits wide.  The functions that keep no rank do not use it. *)
Fixpoint zwalk (w : Z) (P : Z -> zskiplistNode -> bool) (i : nat) (fuel : nat) (x : addr) (rank : Z) : Z_ (addr * Z) :=
  match fuel with
  | O => throw OutOfFuel
  | S fuel' =>
    n ← node x;
    l ← lift (level_at n i);
    match forward l with
    | None => mret (x, rank)
    | Some y =>
      m ← node y;
      if P (to_u w (rank + span l)) m then zwalk w P i fuel' y (to_u w (rank + span l)) else mret (x, rank)
    end
  end.

(** Each step of a walk is to another node. *)
Definition steps (z : zskiplist) : nat := S (Z.to_nat (zsl_length z)).

(** [for (i = level-1; i >= 0; i--) { walk; update[i] = x; }]: the pairs of
    update[i] and rank[i], from index 0 on. *)
Fixpoint descend (w : Z) (P : Z -> zskiplistNode -> bool) (i : nat) (x : addr) (rank : Z) : Z_ (list (addr * Z)) :=
  match i with
  | O => mret []
  | S i' =>
    z ← get_st;
    r ← zwalk w P i' (steps z) x rank;
    rest ← descend w P i' (fst r) (snd r);
    mret (rest ++ [r])
  end.

Definition upd_at (update : list (addr * Z)) (i : nat) : outcome (addr * Z) := expect OutOfBounds (update !! i).

(** ** Creation *)
Section Junk.
(** What zmalloc leaves in the array of a new node. *)
Context (junk : zskiplistLevel).

Definition zslCreateNode (level : nat) (sc : score) (obj : option sds) : Z_ addr := fun z =>
  let a := zsl_fresh z in
  Done (a, set_zsl_fresh (Pos.succ a) (set_zsl_nodes (<[a := mkNode obj sc None (replicate level junk)]> (zsl_nodes z)) z)).

Definition zslCreate : zskiplist :=
  mkZsl {[1%positive := mkNode None (S754_zero false) None (replicate ZSKIPLIST_MAXLEVEL (mkLevel None 0))]} 2 1 None 0 1.

(** [(random()&0xFFFF) < (ZSKIPLIST_P * 0xFFFF)], with ZSKIPLIST_P * 0xFFFF = 16383.75 *)
Fixpoint random_level (rs : list Z) (level : nat) : outcome nat :=
  match rs with
  | [] => Fault OutOfFuel
  | r :: rs' => if Z.land r 65535 <? 16384 then random_level rs' (level + 1) else Done level
  end.
Definition zslRandomLevel (rs : list Z) : outcome nat :=
  level ← random_level rs 1; Done (if (level <? ZSKIPLIST_MAXLEVEL)%nat then level else ZSKIPLIST_MAXLEVEL).

(** [if (f) f->backward = b; else zsl->tail = b;] *)
Definition zrelink (f : option addr) (b : option addr) : Z_ unit :=
  match f with Some y => set_backward y b | None => modify (set_zsl_tail b) end.

(** ** Insertion *)
(** The bodies of the three loops of zslInsert. *)
Definition grow_level (header : addr) (length : Z) (i : nat) : Z_ unit :=
  upd_level header i (fun l => mkLevel (forward l) (to_u 32 length)).
Definition link_level (x : addr) (update : list (addr * Z)) (rank0 : Z) (i : nat) : Z_ unit :=
  u ← lift (upd_at update i);
  n ← node (fst u);
  l ← lift (level_at n i);
  _ ← upd_level x i (fun _ => mkLevel (forward l) (to_u 32 (span l - to_u 32 (rank0 - snd u))));
  upd_level (fst u) i (fun _ => mkLevel (Some x) (to_u 32 (to_u 32 (rank0 - snd u) + 1))).
Definition bump_level (update : list (addr * Z)) (i : nat) : Z_ unit :=
  u ← lift (upd_at update i);
  upd_level (fst u) i (fun l => mkLevel (forward l) (to_u 32 (span l + 1))).

(** [if (level > zsl->level) { ... }]: the new levels start at the header. *)
Definition grow (level : nat) (update : list (addr * Z)) : Z_ (list (addr * Z)) :=
  z ← get_st;
  if (zsl_level z <? level)%nat then
    _ ← for_each (seq (zsl_level z) (level - zsl_level z)) (grow_level (zsl_header z) (zsl_length z));
    _ ← modify (set_zsl_level level);
    mret (update ++ replicate (level - zsl_level z) (zsl_header z, 0))
  else mret update.

(** The end of zslInsert: the backward pointers and the length. *)
Definition insert_end (x : addr) (b : option addr) : Z_ addr :=
  _ ← set_backward x b;
  n ← node x;
  l ← lift (level_at n 0);
  _ ← zrelink (forward l) (Some x);
  _ ← modify (fun z => set_zsl_length (to_u 64 (zsl_length z + 1)) z);
  mret x.

(** [rs] are the values that random() returns. *)
Definition zslInsert (sc : score) (obj : sds) (rs : list Z) : Z_ addr :=
  _ ← lift (require_b AssertFail (negb (isnan sc)));
  z ← get_st;
  update ← descend 32 (fun _ n => node_lt n sc obj) (zsl_level z) (zsl_header z) 0;
  level ← lift (zslRandomLevel rs);
  update ← grow level update;
  x ← zslCreateNode level sc (Some obj);
  r0 ← lift (upd_at update 0);
  _ ← for_each (seq 0 level) (link_level x update (snd r0));
  z' ← get_st;
  _ ← for_each (seq level (zsl_level z' - level)) (bump_level update);
  insert_end x (if bool_decide (fst r0 = zsl_header z) then None else Some (fst r0)).
End Junk.

(** ** Deletion *)
(** [while(zsl->level > 1 && zsl->header->level[zsl->level-1].forward == NULL) zsl->level--;] *)
Fixpoint shrink (n : zskiplistNode) (level : nat) : outcome nat :=
  match level with
  | S (S _ as level') =>
    l ← level_at n level';
    match forward l with None => shrink n level' | Some _ => Done level end
  | _ => Done level
  end.

(** The body of the loop of zslDeleteNode. *)
Definition unlink_level (x : addr) (update : list (addr * Z)) (i : nat) : Z_ unit :=
  u ← lift (upd_at update i);
  nu ← node (fst u);
  lu ← lift (level_at nu i);
  if bool_decide (forward lu = Some x) then
    nx ← node x;
    lx ← lift (level_at nx i);
    upd_level (fst u) i (fun l => mkLevel (forward lx) (to_u 32 (span l + to_u 32 (span lx - 1))))
  else upd_level (fst u) i (fun l => mkLevel (forward l) (to_u 32 (span l - 1))).

Definition zslDeleteNode (x : addr) (update : list (addr * Z)) : Z_ unit :=
  z ← get_st;
  _ ← for_each (seq 0 (zsl_level z)) (unlink_level x update);
  nx ← node x;
  lx ← lift (level_at nx 0);
  _ ← zrelink (forward lx) (n_backward nx);
  h ← node (zsl_header z);
  level ← lift (shrink h (zsl_level z));
  _ ← modify (set_zsl_level level);
  modify (fun z => set_zsl_length (to_u 64 (zsl_length z - 1)) z).

(** The reference that the node holds on its object is the caller's to release. *)
Definition zslFreeNode (x : addr) : Z_ unit := fun z =>
  match zsl_nodes z !! x with
  | Some _ => Done (tt, set_zsl_nodes (delete x (zsl_nodes z)) z)
  | None => Fault Dangling
  end.

(** [while(node) { next = node->level[0].forward; zslFreeNode(node); node = next; }] *)
Fixpoint free_nodes (fuel : nat) (x : option addr) : Z_ unit :=
  match x, fuel with
  | None, _ => mret tt
  | Some _, O => throw OutOfFuel
  | Some x, S fuel' =>
    n ← node x;
    l ← lift (level_at n 0);
    _ ← zslFreeNode x;
    free_nodes fuel' (forward l)
  end.
Definition zslFree : Z_ unit :=
  z ← get_st;
  h ← node (zsl_header z);
  l ← lift (level_at h 0);
  _ ← zslFreeNode (zsl_header z);
  free_nodes (steps z) (forward l).

Definition first_of (update : list (addr * Z)) : Z_ (option addr) :=
  r0 ← lift (upd_at update 0);
  n ← node (fst r0);
  l ← lift (level_at n 0);
  mret (forward l).

Definition zslDelete (sc : score) (obj : sds) : Z_ bool :=
  z ← get_st;
  update ← descend 64 (fun _ n => node_lt n sc obj) (zsl_level z) (zsl_header z) 0;
  x ← first_of update;
  match x with
  | None => mret false
  | Some x =>
    n ← node x;
    if SFeqb sc (n_score n) && bool_decide (n_obj n = Some obj) then
      _ ← zslDeleteNode x update;
      _ ← zslFreeNode x;
      mret true
    else mret false
  end.

(** The loop of the functions that delete a range: the nodes from [x] on while [Q]
    holds of the rank and the node; the objects are those to delete from the dict. *)
Fixpoint delete_loop (Q : Z -> zskiplistNode -> bool) (update : list (addr * Z)) (fuel : nat) (x : option addr) (rank : Z) : Z_ (list sds) :=
  match x, fuel with
  | None, _ => mret []
  | Some _, O => throw OutOfFuel
  | Some x, S fuel' =>
    n ← node x;
    if Q rank n then
      l ← lift (level_at n 0);
      _ ← zslDeleteNode x update;
      o ← lift (expect NullDeref (n_obj n));
      _ ← zslFreeNode x;
      rest ← delete_loop Q update fuel' (forward l) (to_u 64 (rank + 1));
      mret (o :: rest)
    else mret []
  end.

Definition delete_range (P Q : Z -> zskiplistNode -> bool) : Z_ (list sds) :=
  z ← get_st;
  update ← descend 64 P (zsl_level z) (zsl_header z) 0;
  x ← first_of update;
  r0 ← lift (upd_at update 0);
  delete_loop Q update (steps z) x (to_u 64 (snd r0 + 1)).

Record zrangespec := mkRange { r_min : score; r_max : score; r_minex : bool; r_maxex : bool }.

Definition zslValueGteMin (v : score) (r : zrangespec) : bool := if r_minex r then SFltb (r_min r) v else SFleb (r_min r) v.
Definition zslValueLteMax (v : score) (r : zrangespec) : bool := if r_maxex r then SFltb v (r_max r) else SFleb v (r_max r).

Definition zslDeleteRangeByScore (r : zrangespec) : Z_ (list sds) :=
  delete_range (fun _ n => if r_minex r then SFleb (n_score n) (r_min r) else SFltb (n_score n) (r_min r))
               (fun _ n => if r_maxex r then SFltb (n_score n) (r_max r) else SFleb (n_score n) (r_max r)).
Definition zslDeleteRangeByRank (start end_ : Z) : Z_ (list sds) :=
  delete_range (fun t _ => t <? start) (fun t _ => t <=? end_).

(** ** Queries *)
Fixpoint get_rank (sc : score) (o : sds) (i : nat) (x : addr) (rank : Z) : Z_ Z :=
  match i with
  | O => mret 0
  | S i' =>
    z ← get_st;
    r ← zwalk 64 (fun _ n => node_le n sc o) i' (steps z) x rank;
    n ← node (fst r);
    if bool_decide (n_obj n = Some o) then mret (snd r) else get_rank sc o i' (fst r) (snd r)
  end.
Definition zslGetRank (sc : score) (o : sds) : Z_ Z := z ← get_st; get_rank sc o (zsl_level z) (zsl_header z) 0.

Fixpoint get_by_rank (rank : Z) (i : nat) (x : addr) (traversed : Z) : Z_ (option addr) :=
  match i with
  | O => mret None
  | S i' =>
    z ← get_st;
    r ← zwalk 64 (fun t _ => t <=? rank) i' (steps z) x traversed;
    if snd r =? rank then mret (Some (fst r)) else get_by_rank rank i' (fst r) (snd r)
  end.
Definition zslGetElementByRank (rank : Z) : Z_ (option addr) := z ← get_st; get_by_rank rank (zsl_level z) (zsl_header z) 0.

(** What the range queries share: [gte] and [lte] are the tests of a node against
    the two ends of the range. *)
Definition ends_in_range (gte lte : zskiplistNode -> bool) : Z_ bool :=
  z ← get_st;
  match zsl_tail z with
  | None => mret false
  | Some x =>
    n ← node x;
    if negb (gte n) then mret false
    else
      h ← node (zsl_header z);
      l ← lift (level_at h 0);
      match forward l with
      | None => mret false
      | Some y => m ← node y; mret (lte m)
      end
  end.
Definition first_from (gte lte : zskiplistNode -> bool) : Z_ (option addr) :=
  z ← get_st;
  update ← descend 64 (fun _ n => negb (gte n)) (zsl_level z) (zsl_header z) 0;
  x ← first_of update;
  x ← lift (expect AssertFail x);
  n ← node x;
  mret (if lte n then Some x else None).
Definition last_upto (gte lte : zskiplistNode -> bool) : Z_ (option addr) :=
  z ← get_st;
  update ← descend 64 (fun _ n => lte n) (zsl_level z) (zsl_header z) 0;
  r0 ← lift (upd_at update 0);
  n ← node (fst r0);
  mret (if gte n then Some (fst r0) else None).

(** A range of scores that is always empty. *)
Definition range_empty (r : zrangespec) : bool :=
  SFltb (r_max r) (r_min r) || (SFeqb (r_min r) (r_max r) && (r_minex r || r_maxex r)).
Definition zslIsInRange (r : zrangespec) : Z_ bool :=
  if range_empty r then mret false
  else ends_in_range (fun n => zslValueGteMin (n_score n) r) (fun n => zslValueLteMax (n_score n) r).
Definition zslFirstInRange (r : zrangespec) : Z_ (option addr) :=
  b ← zslIsInRange r;
  if negb b then mret None
  else first_from (fun n => zslValueGteMin (n_score n) r) (fun n => zslValueLteMax (n_score n) r).
Definition zslLastInRange (r : zrangespec) : Z_ (option addr) :=
  b ← zslIsInRange r;
  if negb b then mret None
  else last_upto (fun n => zslValueGteMin (n_score n) r) (fun n => zslValueLteMax (n_score n) r).

(** ** Lexicographic ranges *)
(** An end of the range: the shared objects minstring and maxstring, told from other
    objects by their address, or an object of the client. *)
Inductive lexbound := LexMin | LexMax | LexObj (x : sds).
Definition lex_bytes (b : lexbound) : sds :=
  match b with LexMin => str "minstring" | LexMax => str "maxstring" | LexObj x => x end.
Record zlexrangespec := mkLex { l_min : lexbound; l_max : lexbound; l_minex : bool; l_maxex : bool }.

Definition zslParseLexRangeItem (item : sds) : option (lexbound * bool) :=
  match cstr item with
  | "+"%char :: c => match c with [] => Some (LexMax, false) | _ => None end
  | "-"%char :: c => match c with [] => Some (LexMin, false) | _ => None end
  | "("%char :: _ => Some (LexObj (drop 1 item), true)
  | "["%char :: _ => Some (LexObj (drop 1 item), false)
  | _ => None
  end.
(** Integer encoded arguments are refused: [None]. *)
Definition zslParseLexRange (mn mx : option sds) : option zlexrangespec :=
  match mn, mx with
  | Some mn, Some mx =>
    a ← zslParseLexRangeItem mn;
    b ← zslParseLexRangeItem mx;
    Some (mkLex (fst a) (fst b) (snd a) (snd b))
  | _, _ => None
  end.

Definition compareStringObjectsForLexRange (a b : lexbound) : Z :=
  match a, b with
  | LexMin, LexMin | LexMax, LexMax => 0
  | LexMin, _ | _, LexMax => -1
  | LexMax, _ | _, LexMin => 1
  | LexObj x, LexObj y => cmp_obj x y
  end.
Definition zslLexValueGteMin (v : sds) (r : zlexrangespec) : bool :=
  let c := compareStringObjectsForLexRange (LexObj v) (l_min r) in if l_minex r then 0 <? c else 0 <=? c.
Definition zslLexValueLteMax (v : sds) (r : zlexrangespec) : bool :=
  let c := compareStringObjectsForLexRange (LexObj v) (l_max r) in if l_maxex r then c <? 0 else c <=? 0.

(** The nodes behind the header have an object. *)
Definition lex_gte (r : zlexrangespec) (n : zskiplistNode) : bool :=
  match n_obj n with Some v => zslLexValueGteMin v r | None => false end.
Definition lex_lte (r : zlexrangespec) (n : zskiplistNode) : bool :=
  match n_obj n with Some v => zslLexValueLteMax v r | None => false end.

Definition lex_empty (r : zlexrangespec) : bool :=
  (1 <? compareStringObjectsForLexRange (l_min r) (l_max r)) ||
  ((cmp_obj (lex_bytes (l_min r)) (lex_bytes (l_max r)) =? 0) && (l_minex r || l_maxex r)).
Definition zslIsInLexRange (r : zlexrangespec) : Z_ bool :=
  if lex_empty r then mret false else ends_in_range (lex_gte r) (lex_lte r).
Definition zslFirstInLexRange (r : zlexrangespec) : Z_ (option addr) :=
  b ← zslIsInLexRange r; if negb b then mret None else first_from (lex_gte r) (lex_lte r).
Definition zslLastInLexRange (r : zlexrangespec) : Z_ (option addr) :=
  b ← zslIsInLexRange r; if negb b then mret None else last_upto (lex_gte r) (lex_lte r).
Definition zslDeleteRangeByLex (r : zlexrangespec) : Z_ (list sds) :=
  delete_range (fun _ n => negb (lex_gte r n)) (fun _ n => lex_lte r n).
End ZSkip.
