(* ===== verification/Dict.v ===== *)
(** * dict.c: the hash table with incremental rehashing

    A dict has two tables; while [rehashidx] is not -1 the chains of [ht0]
    below it have been moved to [ht1], and every lookup, insertion and deletion
    moves one more chain.  A table is its address, its three counters and its
    chains.  A chain is the list of its entries, a pointer to an entry that is
    only followed is the rest of the chain from that entry, and a pointer that
    is written through is a [loc].  The value of an entry that [dictAddRaw]
    has allocated and nobody has filled in is [None].  The hash and compare
    functions come from the [dictType]; the global [dict_can_resize] and the
    address the allocator returns are parameters. *)
From S2P Require Import Prelude CStr.

Module Dict.

(** ** dictType *)
Class DictType (K : Type) := {
  hashFunction : K -> Z;
  keyCompare : K -> K -> bool
}.

(** What dict.c relies on: a hash is an [unsigned int], and the compare
    function decides equality of keys. *)
Class DictTypeOk (K : Type) {T : DictType K} : Prop := {
  hash_range : forall k, in_u 32 (hashFunction k);
  compare_true : forall a b, keyCompare a b = true <-> a = b
}.

Definition DICT_HT_INITIAL_SIZE : Z := 4.
Definition dict_force_resize_ratio : Z := 5.
Definition LONG_MAX : Z := INT64_MAX.

(** ** Data *)
Record dictEntry (K V : Type) := mkEntry { e_key : K; e_val : option V }.
Arguments mkEntry {K V} e_key e_val.
Arguments e_key {K V} d.
Arguments e_val {K V} d.

Record dictht (K V : Type) := mkHt {
  table : Z;
  size : Z;
  sizemask : Z;
  used : Z;
  chains : list (list (dictEntry K V))
}.
Arguments mkHt {K V} table size sizemask used chains.
Arguments table {K V} d.
Arguments size {K V} d.
Arguments sizemask {K V} d.
Arguments used {K V} d.
Arguments chains {K V} d.

Record dict (K V : Type) := mkDict {
  ht0 : dictht K V;
  ht1 : dictht K V;
  rehashidx : Z;
  iterators : Z
}.
Arguments mkDict {K V} ht0 ht1 rehashidx iterators.
Arguments ht0 {K V} d.
Arguments ht1 {K V} d.
Arguments rehashidx {K V} d.
Arguments iterators {K V} d.

(** A pointer to an entry: which table, which chain, how far down it. *)
Record loc := mkLoc { l_table : bool; l_idx : Z; l_pos : nat }.

Section Ops.
Context {K V : Type} {T : DictType K}.
Abbreviation entry := (dictEntry K V).
Implicit Types (d : dict K V) (h : dictht K V) (k : K) (v : V).

Variable dict_can_resize : bool.
Variable zcalloc : dict K V -> Z.

Definition dictIsRehashing d : bool := negb (rehashidx d =? -1).
Definition dictSize d : Z := to_u 64 (used (ht0 d) + used (ht1 d)).

(** [d->ht[t]] *)
Definition get_ht d (t : bool) : dictht K V := if t then ht1 d else ht0 d.
Definition set_ht d (t : bool) h : dict K V :=
  if t then mkDict (ht0 d) h (rehashidx d) (iterators d)
  else mkDict h (ht1 d) (rehashidx d) (iterators d).
Definition set_rehashidx d (i : Z) : dict K V := mkDict (ht0 d) (ht1 d) i (iterators d).
Definition set_iterators d (i : Z) : dict K V := mkDict (ht0 d) (ht1 d) (rehashidx d) i.

(** [ht->table[i]], read and written *)
Definition get_chain h (i : Z) : outcome (list entry) :=
  if i <? 0 then Fault OutOfBounds
  else expect (if table h =? 0 then NullDeref else OutOfBounds) (chains h !! Z.to_nat i).
Definition set_chain h (i : Z) (c : list entry) : dictht K V :=
  mkHt (table h) (size h) (sizemask h) (used h) (<[Z.to_nat i := c]> (chains h)).
Definition add_used h (n : Z) : dictht K V :=
  mkHt (table h) (size h) (sizemask h) (to_u 64 (used h + n)) (chains h).

Definition slot h (k : K) : Z := Z.land (hashFunction k) (sizemask h).

(** ** Creation and resizing *)
Definition _dictReset : dictht K V := mkHt 0 0 0 0 [].

Definition _dictInit : dict K V := mkDict _dictReset _dictReset (-1) 0.

Definition dictCreate : dict K V := _dictInit.

(** The [while(1)] loop: [i] doubles until it reaches [size]. *)
Fixpoint next_power_loop (fuel : nat) (sz i : Z) : outcome Z :=
  match fuel with
  | O => Fault OutOfFuel
  | S fuel' => if i >=? sz then Done i else next_power_loop fuel' sz (to_u 64 (i * 2))
  end.

Definition _dictNextPower (sz : Z) : outcome Z :=
  if sz >=? LONG_MAX then Done LONG_MAX else next_power_loop 64 sz DICT_HT_INITIAL_SIZE.

(** [DICT_OK] is [true], [DICT_ERR] is [false]. *)
Definition dictExpand d (sz : Z) : outcome (bool * dict K V) :=
  realsize ← _dictNextPower sz;
  if dictIsRehashing d || (used (ht0 d) >? sz) then Done (false, d)
  else
    let n := mkHt (zcalloc d) realsize (to_u 64 (realsize - 1)) 0
                  (repeat [] (Z.to_nat realsize)) in
    if table (ht0 d) =? 0 then Done (true, set_ht d false n)
    else Done (true, set_rehashidx (set_ht d true n) 0).

Definition dictResize d : outcome (bool * dict K V) :=
  if negb dict_can_resize || dictIsRehashing d then Done (false, d)
  else
    let minimal := to_s 32 (used (ht0 d)) in
    let minimal := if minimal <? DICT_HT_INITIAL_SIZE then DICT_HT_INITIAL_SIZE else minimal in
    dictExpand d minimal.

(** ** Incremental rehashing *)
Fixpoint skip_empty (fuel : nat) h (i : Z) : outcome Z :=
  match fuel with
  | O => Fault OutOfFuel
  | S fuel' => c ← get_chain h i;
               match c with [] => skip_empty fuel' h (i + 1) | _ => Done i end
  end.

Fixpoint move_chain (de : list entry) d : outcome (dict K V) :=
  match de with
  | [] => Done d
  | e :: nextde =>
    let i := slot (ht1 d) (e_key e) in
    c ← get_chain (ht1 d) i;
    let d := set_ht d true (add_used (set_chain (ht1 d) i (e :: c)) 1) in
    let d := set_ht d false (add_used (ht0 d) (-1)) in
    move_chain nextde d
  end.

(** One turn of the [while(n--)] loop: [false] when the table was already
    empty, and rehashing is over. *)
Definition rehash_turn d : outcome (bool * dict K V) :=
  if used (ht0 d) =? 0 then
    Done (false, mkDict (ht1 d) _dictReset (-1) (iterators d))
  else
    _ ← require_b AssertFail (size (ht0 d) >? to_u 64 (rehashidx d));
    i ← skip_empty (S (length (chains (ht0 d)))) (ht0 d) (rehashidx d);
    let d := set_rehashidx d i in
    de ← get_chain (ht0 d) i;
    d ← move_chain de d;
    let d := set_ht d false (set_chain (ht0 d) i []) in
    Done (true, set_rehashidx d (i + 1)).

Fixpoint rehash_loop (n : nat) d : outcome (bool * dict K V) :=
  match n with
  | O => Done (true, d)
  | S n' => r ← rehash_turn d;
            match r with (true, d) => rehash_loop n' d | (false, d) => Done (false, d) end
  end.

Definition dictRehash d (n : nat) : outcome (bool * dict K V) :=
  if negb (dictIsRehashing d) then Done (false, d) else rehash_loop n d.

Definition _dictRehashStep d : outcome (dict K V) :=
  if iterators d =? 0 then r ← dictRehash d 1; Done r.2 else Done d.

(** [if (dictIsRehashing(d)) _dictRehashStep(d);] *)
Definition step_if_rehashing d : outcome (dict K V) :=
  if dictIsRehashing d then _dictRehashStep d else Done d.

(** ** Searching *)
Fixpoint find_in (c : list entry) k : option nat :=
  match c with
  | [] => None
  | e :: r => if keyCompare k (e_key e) then Some O else S <$> find_in r k
  end.

Definition find_at d (t : bool) k : outcome (option loc) :=
  let i := slot (get_ht d t) k in
  c ← get_chain (get_ht d t) i;
  Done (mkLoc t i <$> find_in c k).

(** The [for (table = 0; table <= 1; table++)] search: the second table is
    looked at only while rehashing. *)
Definition find_both d k : outcome (option loc) :=
  r ← find_at d false k;
  match r with
  | Some l => Done (Some l)
  | None => if negb (dictIsRehashing d) then Done None else find_at d true k
  end.

Definition dictFind d k : outcome (option loc * dict K V) :=
  if size (ht0 d) =? 0 then Done (None, d)
  else
    d ← step_if_rehashing d;
    r ← find_both d k;
    Done (r, d).

(** [dictGetVal(he)], and [dictSetVal(d,he,v)] (no dictType of the server has
    a [valDup]) *)
Definition dictGetVal d (l : loc) : outcome (option V) :=
  c ← get_chain (get_ht d (l_table l)) (l_idx l);
  e ← expect Dangling (c !! l_pos l);
  Done (e_val e).

Definition dictSetVal d (l : loc) v : outcome (dict K V) :=
  let h := get_ht d (l_table l) in
  c ← get_chain h (l_idx l);
  e ← expect Dangling (c !! l_pos l);
  Done (set_ht d (l_table l)
          (set_chain h (l_idx l) (<[l_pos l := mkEntry (e_key e) (Some v)]> c))).

Definition dictFetchValue d k : outcome (option V * dict K V) :=
  '(r, d) ← dictFind d k;
  match r with
  | None => Done (None, d)
  | Some l => v ← dictGetVal d l; Done (v, d)
  end.

(** ** Insertion *)
Definition _dictExpandIfNeeded d : outcome (bool * dict K V) :=
  if dictIsRehashing d then Done (true, d)
  else if size (ht0 d) =? 0 then dictExpand d DICT_HT_INITIAL_SIZE
  else if (used (ht0 d) >=? size (ht0 d)) &&
          (dict_can_resize || (used (ht0 d) / size (ht0 d) >? dict_force_resize_ratio))
  then dictExpand d (to_u 64 (used (ht0 d) * 2))
  else Done (true, d).

(** The [int] the function returns: [idx] is unsigned. *)
Definition _dictKeyIndex d k : outcome (Z * dict K V) :=
  '(ok, d) ← _dictExpandIfNeeded d;
  if negb ok then Done (-1, d)
  else
    r ← find_both d k;
    match r with
    | Some _ => Done (-1, d)
    | None => Done (to_s 32 (slot (get_ht d (dictIsRehashing d)) k), d)
    end.

Definition dictAddRaw d k : outcome (option loc * dict K V) :=
  d ← step_if_rehashing d;
  '(index, d) ← _dictKeyIndex d k;
  if index =? -1 then Done (None, d)
  else
    let t := dictIsRehashing d in
    let h := get_ht d t in
    c ← get_chain h index;
    Done (Some (mkLoc t index 0),
          set_ht d t (add_used (set_chain h index (mkEntry k None :: c)) 1)).

Definition dictAdd d k v : outcome (bool * dict K V) :=
  '(entry, d) ← dictAddRaw d k;
  match entry with
  | None => Done (false, d)
  | Some l => d ← dictSetVal d l v; Done (true, d)
  end.

(** The replaced value goes to the [valDestructor]. *)
Definition dictReplace d k v : outcome (bool * list (option V) * dict K V) :=
  '(ok, d) ← dictAdd d k v;
  if (ok : bool) then Done (true, [], d)
  else
    '(entry, d) ← dictFind d k;
    l ← expect NullDeref entry;
    auxentry ← dictGetVal d l;
    d ← dictSetVal d l v;
    Done (false, [auxentry], d).

Definition dictReplaceRaw d k : outcome (option loc * dict K V) :=
  '(entry, d) ← dictFind d k;
  match entry with
  | Some l => Done (Some l, d)
  | None => dictAddRaw d k
  end.

(** ** Deletion: the result, the entry whose key and value are destroyed *)
Definition unlink d (l : loc) : outcome (entry * dict K V) :=
  let h := get_ht d (l_table l) in
  c ← get_chain h (l_idx l);
  he ← expect Dangling (c !! l_pos l);
  Done (he, set_ht d (l_table l) (add_used (set_chain h (l_idx l) (delete (l_pos l) c)) (-1))).

Definition dictGenericDelete d k (nofree : bool) : outcome (bool * list entry * dict K V) :=
  if size (ht0 d) =? 0 then Done (false, [], d)
  else
    d ← step_if_rehashing d;
    r ← find_both d k;
    match r with
    | None => Done (false, [], d)
    | Some l => '(he, d) ← unlink d l;
                Done (true, if nofree then [] else [he], d)
    end.

Definition dictDelete d k : outcome (bool * list entry * dict K V) := dictGenericDelete d k false.

Definition dictDeleteNoFree d k : outcome (bool * list entry * dict K V) := dictGenericDelete d k true.

(** [_dictClear]: the entries that are destroyed, in order; the loop stops
    once [used] entries are gone.  The callback is left out. *)
Fixpoint clear_loop (cs : list (list entry)) (u : Z) : list entry :=
  match cs with
  | [] => []
  | he :: r => if u >? 0 then he ++ clear_loop r (u - Z.of_nat (length he)) else []
  end.

Definition _dictClear h : list entry * dictht K V := (clear_loop (chains h) (used h), _dictReset).

Definition dictEmpty d : list entry * dict K V :=
  let '(f0, h0) := _dictClear (ht0 d) in
  let '(f1, h1) := _dictClear (ht1 d) in
  (f0 ++ f1, mkDict h0 h1 (-1) 0).

Definition dictRelease d : list entry :=
  (_dictClear (ht0 d)).1 ++ (_dictClear (ht1 d)).1.

(** ** Iterators *)
(** Tomas Wang's 64 bit mix; [>>] on a [long long] is arithmetic. *)
Definition fp_mix (hash : Z) : Z :=
  let hash := to_s 64 (Z.lnot hash + Z.shiftl hash 21) in
  let hash := Z.lxor hash (Z.shiftr hash 24) in
  let hash := to_s 64 (hash + Z.shiftl hash 3 + Z.shiftl hash 8) in
  let hash := Z.lxor hash (Z.shiftr hash 14) in
  let hash := to_s 64 (hash + Z.shiftl hash 2 + Z.shiftl hash 4) in
  let hash := Z.lxor hash (Z.shiftr hash 28) in
  to_s 64 (hash + Z.shiftl hash 31).

Definition fp_ints d : list Z :=
  [table (ht0 d); size (ht0 d); used (ht0 d); table (ht1 d); size (ht1 d); used (ht1 d)].

Definition fp_hash (ints : list Z) : Z :=
  fold_left (fun hash n => fp_mix (to_s 64 (hash + n))) ints 0.

Definition dictFingerprint d : Z := fp_hash (fp_ints d).

Record dictIterator := mkIter {
  i_index : Z;
  i_table : bool;
  i_safe : bool;
  i_entry : list entry;
  i_nextEntry : list entry;
  i_fingerprint : Z
}.

Definition dictGetIterator : dictIterator := mkIter (-1) false false [] [] 0.

Definition dictGetSafeIterator : dictIterator := mkIter (-1) false true [] [] 0.

(** One turn of the [while (1)] of [dictNext], up to the test on [entry];
    [true] is the [break]. *)
Definition next_turn (it : dictIterator) d : outcome (bool * dictIterator * dict K V) :=
  match i_entry it with
  | _ :: _ =>
    Done (false, mkIter (i_index it) (i_table it) (i_safe it) (i_nextEntry it) (i_nextEntry it)
                        (i_fingerprint it), d)
  | [] =>
    let first := (i_index it =? -1) && negb (i_table it) in
    let d' := if first && i_safe it then set_iterators d (iterators d + 1) else d in
    let fp := if first && negb (i_safe it) then dictFingerprint d else i_fingerprint it in
    let index := i_index it + 1 in
    if index >=? to_s 64 (size (get_ht d' (i_table it))) then
      if dictIsRehashing d' && negb (i_table it) then
        c ← get_chain (ht1 d') 0;
        Done (false, mkIter 0 true (i_safe it) c (i_nextEntry it) fp, d')
      else Done (true, mkIter index (i_table it) (i_safe it) [] (i_nextEntry it) fp, d')
    else
      c ← get_chain (get_ht d' (i_table it)) index;
      Done (false, mkIter index (i_table it) (i_safe it) c (i_nextEntry it) fp, d')
  end.

Fixpoint next_loop (fuel : nat) (it : dictIterator) d
  : outcome (option entry * dictIterator * dict K V) :=
  match fuel with
  | O => Fault OutOfFuel
  | S fuel' =>
    '(stop, it, d) ← next_turn it d;
    if (stop : bool) then Done (None, it, d)
    else match i_entry it with
         | [] => next_loop fuel' it d
         | e :: next =>
           Done (Some e, mkIter (i_index it) (i_table it) (i_safe it) (e :: next) next
                                (i_fingerprint it), d)
         end
  end.

(** Each turn after the first moves to the next chain of one of the tables. *)
Definition dictNext (it : dictIterator) d : outcome (option entry * dictIterator * dict K V) :=
  next_loop (3 + length (chains (ht0 d)) + length (chains (ht1 d))) it d.

Definition dictReleaseIterator (it : dictIterator) d : outcome (dict K V) :=
  if negb ((i_index it =? -1) && negb (i_table it)) then
    if i_safe it then Done (set_iterators d (iterators d - 1))
    else _ ← require_b AssertFail (i_fingerprint it =? dictFingerprint d); Done d
  else Done d.

(** The loop of an iterator's user: [while ((de = dictNext(di)) != NULL)]. *)
Fixpoint drain (fuel : nat) (it : dictIterator) d
  : outcome (list entry * dictIterator * dict K V) :=
  match fuel with
  | O => Fault OutOfFuel
  | S fuel' =>
    '(e, it, d) ← dictNext it d;
    match e with
    | None => Done ([], it, d)
    | Some e => '(l, it, d) ← drain fuel' it d; Done (e :: l, it, d)
    end
  end.

End Ops.
Arguments dictEntry : clear implicits.

(** ** Hash functions *)
Definition dictIntHashFunction (key : Z) : Z :=
  let u := to_u 32 in
  let key := u (key + Z.lnot (Z.shiftl key 15)) in
  let key := Z.lxor key (Z.shiftr key 10) in
  let key := u (key + u (Z.shiftl key 3)) in
  let key := Z.lxor key (Z.shiftr key 6) in
  let key := u (key + Z.lnot (Z.shiftl key 11)) in
  Z.lxor key (Z.shiftr key 16).

Definition murmur_m : Z := 1540483477.

Fixpoint murmur_loop (fuel : nat) (h : Z) (data : list Z) : Z * list Z :=
  match fuel, data with
  | S fuel', a :: b :: c :: d :: rest =>
    let k := le_val [a; b; c; d] in
    let k := to_u 32 (k * murmur_m) in
    let k := Z.lxor k (Z.shiftr k 24) in
    let k := to_u 32 (k * murmur_m) in
    murmur_loop fuel' (Z.lxor (to_u 32 (h * murmur_m)) k) rest
  | _, _ => (h, data)
  end.

(** The fall-through [switch(len)] on the last bytes. *)
Definition murmur_tail (h : Z) (data : list Z) : Z :=
  match data with
  | [a; b; c] => to_u 32 (Z.lxor (Z.lxor (Z.lxor h (Z.shiftl c 16)) (Z.shiftl b 8)) a * murmur_m)
  | [a; b] => to_u 32 (Z.lxor (Z.lxor h (Z.shiftl b 8)) a * murmur_m)
  | [a] => to_u 32 (Z.lxor h a * murmur_m)
  | _ => h
  end.

Definition dictGenHashFunction (seed : Z) (key : sds) : Z :=
  let h := to_u 32 (Z.lxor seed (Z.of_nat (length key))) in
  let '(h, data) := murmur_loop (length key) h (map code key) in
  let h := murmur_tail h data in
  let h := Z.lxor h (Z.shiftr h 13) in
  let h := to_u 32 (h * murmur_m) in
  Z.lxor h (Z.shiftr h 15).

Definition dictGenCaseHashFunction (seed : Z) (buf : sds) : Z :=
  fold_left (fun hash c => to_u 32 (to_u 32 (Z.shiftl hash 5) + hash + code (tolower c))) buf seed.

(** ** The dictType of the keyspace (redis.c: [dbDictType]) *)
Definition dictSdsKeyCompare (key1 key2 : sds) : bool :=
  if negb (length key1 =? length key2)%nat then false else bool_decide (key1 = key2).

Definition dictSdsHash (seed : Z) (key : sds) : Z := dictGenHashFunction seed key.

#[global] Instance dbDictType : DictType sds := {|
  hashFunction := dictSdsHash 5381;
  keyCompare := dictSdsKeyCompare
|}.

(** ** The invariant, and the finite map a dict stands for *)
Section Spec.
Context {K V : Type} {T : DictType K} `{!DictTypeOk K} `{!EqDecision K, !Countable K}.
Implicit Types (d : dict K V) (h : dictht K V) (k : K) (v : V).
#[local] Set Default Proof Using "Type*".

Definition entries h : list (dictEntry K V) := concat (chains h).
Definition all_entries d : list (dictEntry K V) := entries (ht0 d) ++ entries (ht1 d).

(** The largest number of keys for which the [int] bucket indexes are exact. *)
Definition max_keys : Z := 2 ^ 29.

Record ht_wf h : Prop := {
  hw_size : exists n, 0 <= n <= 31 /\ size h = 2 ^ n;
  hw_mask : sizemask h = size h - 1;
  hw_chains : Z.of_nat (length (chains h)) = size h;
  hw_table : table h <> 0;
  hw_used : used h = Z.of_nat (length (entries h));
  hw_slot : forall i c e, chains h !! i = Some c -> e ∈ c -> slot h (e_key e) = Z.of_nat i
}.

Definition idle d : Prop := rehashidx d = -1 /\ ht1 d = _dictReset.

Record moving d : Prop := {
  mv_ht0 : ht_wf (ht0 d);
  mv_ht1 : ht_wf (ht1 d);
  mv_idx : 0 <= rehashidx d <= size (ht0 d);
  mv_done : forall i c, chains (ht0 d) !! i = Some c -> Z.of_nat i < rehashidx d -> c = []
}.

Record wf d : Prop := {
  wf_ht0 : ht0 d = _dictReset \/ ht_wf (ht0 d);
  wf_state : idle d \/ moving d;
  wf_nodup : NoDup (e_key <$> all_entries d);
  wf_small : Z.of_nat (length (all_entries d)) <= max_keys
}.

Definition pair_of (e : dictEntry K V) : K * option V := (e_key e, e_val e).
Definition abs d : gmap K (option V) := list_to_map (pair_of <$> all_entries d).

(** *** Chains *)
Lemma get_chain_inv h i c :
  get_chain h i = Done c -> 0 <= i /\ chains h !! Z.to_nat i = Some c.
Proof using Type.
  unfold get_chain. destruct (Z.ltb_spec i 0); [done|].
  destruct (chains h !! Z.to_nat i); simpl; [|done]. intros [= ->]. auto.
Qed.

Lemma get_chain_ok h i c : 0 <= i -> chains h !! Z.to_nat i = Some c -> get_chain h i = Done c.
Proof using Type.
  intros Hi Hc. unfold get_chain. destruct (Z.ltb_spec i 0); [lia|]. by rewrite Hc.
Qed.

(** Overwriting a chain changes that stretch of the entries only. *)
Lemma entries_split h i c :
  chains h !! i = Some c ->
  exists a b, entries h = a ++ c ++ b /\
              forall c', concat (<[i := c']> (chains h)) = a ++ c' ++ b.
Proof using Type.
  intros Hc. pose proof (lookup_lt_Some _ _ _ Hc).
  exists (concat (take i (chains h))), (concat (drop (S i) (chains h))). split.
  - unfold entries. rewrite <- (take_drop_middle _ _ _ Hc) at 1.
    by rewrite concat_app.
  - intros c'. rewrite insert_take_drop by done. by rewrite concat_app.
Qed.

Lemma elem_of_entries h e : e ∈ entries h -> exists i c, chains h !! i = Some c /\ e ∈ c.
Proof using Type.
  unfold entries. rewrite list_elem_of_In, in_concat. intros (c & Hc & He).
  apply list_elem_of_In, list_elem_of_lookup in Hc as [i Hi].
  exists i, c. by rewrite list_elem_of_In.
Qed.

Lemma concat_all_nil {A} (l : list (list A)) :
  (forall i c, l !! i = Some c -> c = []) -> concat l = [].
Proof using Type.
  induction l as [|c l IH]; intros Hl; [done|]. simpl.
  rewrite (Hl 0%nat c) by done. apply IH. intros i. apply (Hl (S i)).
Qed.

Lemma slot_bound h k : ht_wf h -> 0 <= slot h k < size h.
Proof.
  intros Hh. destruct (hw_size _ Hh) as (n & Hn & Hs). unfold slot.
  rewrite (hw_mask _ Hh), Hs, Z.sub_1_r, <- Z.ones_equiv, Z.land_ones by lia.
  apply Z.mod_pos_bound. apply Z.pow_pos_nonneg; lia.
Qed.

Lemma slot_chain h k : ht_wf h -> exists c, get_chain h (slot h k) = Done c.
Proof.
  intros Hh. pose proof (slot_bound h k Hh). pose proof (hw_chains _ Hh).
  destruct (lookup_lt_is_Some_2 (chains h) (Z.to_nat (slot h k))) as [c Hc]; [lia|].
  exists c. apply get_chain_ok; [lia|done].
Qed.

(** Rewriting one chain of a good table with entries of that slot. *)
Lemma ht_wf_chain h i c c' u :
  ht_wf h -> get_chain h i = Done c ->
  (forall e, e ∈ c' -> slot h (e_key e) = i) ->
  u = used h - Z.of_nat (length c) + Z.of_nat (length c') ->
  ht_wf (mkHt (table h) (size h) (sizemask h) u (<[Z.to_nat i := c']> (chains h))).
Proof using Type.
  intros Hh Hc Hs ->. apply get_chain_inv in Hc as [Hi Hc].
  destruct (entries_split _ _ _ Hc) as (a & b & Hab & Hins).
  split; simpl; try apply Hh.
  - rewrite length_insert. apply Hh.
  - unfold entries at 1. simpl. rewrite Hins, (hw_used _ Hh), Hab, !length_app. lia.
  - intros j cj e Hj He. unfold slot. simpl. fold (slot h (e_key e)).
    destruct (decide (Z.to_nat i = j)) as [<-|Hne].
    + rewrite list_lookup_insert_eq in Hj by (eapply lookup_lt_Some; eauto).
      injection Hj as <-. rewrite Hs by done. lia.
    + rewrite list_lookup_insert_ne in Hj by done. by eapply (hw_slot _ Hh).
Qed.

Lemma hw_chain_slot h i c e :
  ht_wf h -> get_chain h i = Done c -> e ∈ c -> slot h (e_key e) = i.
Proof using Type.
  intros Hh Hc He. apply get_chain_inv in Hc as [Hi Hc].
  rewrite (hw_slot _ Hh _ _ _ Hc He). lia.
Qed.

(** *** Searching *)
Definition points d (l : loc) (e : dictEntry K V) : Prop :=
  exists c, get_chain (get_ht d (l_table l)) (l_idx l) = Done c /\ c !! l_pos l = Some e.

Lemma find_in_spec (c : list (dictEntry K V)) k :
  match find_in c k with
  | Some p => exists e, c !! p = Some e /\ e_key e = k
  | None => k ∉ e_key <$> c
  end.
Proof.
  induction c as [|e c IH]; simpl; [apply not_elem_of_nil|].
  destruct (keyCompare k (e_key e)) eqn:Hk.
  - apply compare_true in Hk. eauto.
  - destruct (find_in c k); simpl; [done|]. rewrite not_elem_of_cons. split; [|done].
    intros ->. by rewrite (proj2 (compare_true _ _) eq_refl) in Hk.
Qed.

Lemma find_at_spec d t k :
  ht_wf (get_ht d t) ->
  (exists l e, find_at d t k = Done (Some l) /\ points d l e /\ e_key e = k) \/
  (find_at d t k = Done None /\ k ∉ e_key <$> entries (get_ht d t)).
Proof.
  intros Hh. unfold find_at. destruct (slot_chain _ k Hh) as [c Hc]. rewrite Hc. simpl.
  pose proof (find_in_spec c k) as Hf. destruct (find_in c k) as [p|]; simpl.
  - destruct Hf as (e & He & Hk). left. eexists _, e. split; [done|]. split; [|done].
    exists c. auto.
  - right. split; [done|]. intros (e & -> & He)%list_elem_of_fmap.
    apply elem_of_entries in He as (i & c' & Hi & He).
    assert (c' = c) as ->; [|apply Hf; by apply list_elem_of_fmap_2].
    apply get_chain_inv in Hc as [_ Hc].
    rewrite (hw_slot _ Hh _ _ _ Hi He), Nat2Z.id, Hi in Hc. by injection Hc.
Qed.

Lemma moving_rehashing d : moving d -> dictIsRehashing d = true.
Proof using Type. intros Hm. unfold dictIsRehashing. pose proof (mv_idx _ Hm). destruct (Z.eqb_spec (rehashidx d) (-1)); [lia|done]. Qed.

Lemma idle_rehashing d : idle d -> dictIsRehashing d = false.
Proof using Type. intros [Hr _]. unfold dictIsRehashing. by rewrite Hr. Qed.

Lemma idle_entries d : idle d -> all_entries d = entries (ht0 d).
Proof using Type. intros [_ H1]. unfold all_entries. rewrite H1. apply app_nil_r. Qed.

Lemma find_both_spec d k :
  wf d -> ht_wf (ht0 d) ->
  (exists l e, find_both d k = Done (Some l) /\ points d l e /\ e_key e = k) \/
  (find_both d k = Done None /\ k ∉ e_key <$> all_entries d).
Proof.
  intros Hd Hh. unfold find_both.
  destruct (find_at_spec d false k Hh) as [(l & e & -> & ?)|[-> H0]]; simpl; [eauto 6|].
  destruct (wf_state _ Hd) as [Hi|Hm].
  - rewrite (idle_rehashing _ Hi), (idle_entries _ Hi). auto.
  - rewrite (moving_rehashing _ Hm). simpl.
    destruct (find_at_spec d true k (mv_ht1 _ Hm)) as [(l & e & -> & ?)|[-> H1]]; [eauto 6|].
    right. split; [done|]. unfold all_entries. rewrite fmap_app, not_elem_of_app. auto.
Qed.

(** *** The abstraction *)
Lemma pair_of_keys (l : list (dictEntry K V)) : (pair_of <$> l).*1 = e_key <$> l.
Proof using Type. rewrite <- list_fmap_compose. done. Qed.

Lemma abs_perm d d' :
  NoDup (e_key <$> all_entries d) -> all_entries d ≡ₚ all_entries d' -> abs d = abs d'.
Proof using Type.
  intros Hn Hp. apply list_to_map_proper; [by rewrite pair_of_keys|]. by rewrite Hp.
Qed.

Lemma abs_entries d l :
  wf d -> all_entries d ≡ₚ l -> abs d = list_to_map (pair_of <$> l).
Proof using Type.
  intros Hd Hp. apply list_to_map_proper; [rewrite pair_of_keys; apply Hd|]. by rewrite Hp.
Qed.

Lemma abs_None d k : k ∉ e_key <$> all_entries d -> abs d !! k = None.
Proof using Type. intros Hk. apply not_elem_of_list_to_map_1. by rewrite pair_of_keys. Qed.

Lemma points_elem d l e : points d l e -> e ∈ all_entries d.
Proof using Type.
  intros (c & Hc & He). apply get_chain_inv in Hc as [_ Hc].
  assert (e ∈ entries (get_ht d (l_table l))) as Hin.
  { apply list_elem_of_In, in_concat. exists c.
    split; apply list_elem_of_In; eapply list_elem_of_lookup_2; eauto. }
  unfold all_entries. apply elem_of_app. destruct (l_table l); auto.
Qed.

Lemma abs_points d l e :
  wf d -> points d l e -> abs d !! e_key e = Some (e_val e).
Proof using Type.
  intros Hd Hp. apply elem_of_list_to_map_1; [rewrite pair_of_keys; apply Hd|].
  apply list_elem_of_fmap. exists e. split; [done|]. by eapply points_elem.
Qed.

(** *** Rehashing *)
(** [d'] has the entries of [d], and is as good. *)
Definition same d d' : Prop :=
  wf d' /\ all_entries d ≡ₚ all_entries d' /\ iterators d' = iterators d.

Lemma skip_empty_spec h fuel i :
  ht_wf h -> used h <> 0 -> 0 <= i ->
  (forall j c, chains h !! j = Some c -> Z.of_nat j < i -> c = []) ->
  size h - i < Z.of_nat fuel ->
  i < size h /\
  exists j c, skip_empty fuel h i = Done j /\ i <= j < size h /\ get_chain h j = Done c /\
  (forall j' c, chains h !! j' = Some c -> Z.of_nat j' < j -> c = []).
Proof using Type.
  intros Hh Hu. revert i. induction fuel as [|fuel IH]; intros i Hi Hb Hf.
  - exfalso. apply Hu. rewrite (hw_used _ Hh). unfold entries.
    rewrite concat_all_nil; [done|]. intros j c Hj. apply (Hb j c Hj).
    pose proof (lookup_lt_Some _ _ _ Hj). pose proof (hw_chains _ Hh). lia.
  - assert (i < size h) as Hlt.
    { destruct (Z.lt_ge_cases i (size h)) as [|Hge]; [done|]. exfalso. apply Hu.
      rewrite (hw_used _ Hh). unfold entries. rewrite concat_all_nil; [done|].
      intros j c Hj. apply (Hb j c Hj).
      pose proof (lookup_lt_Some _ _ _ Hj). pose proof (hw_chains _ Hh). lia. }
    split; [done|]. simpl.
    destruct (lookup_lt_is_Some_2 (chains h) (Z.to_nat i)) as [c Hc].
    { pose proof (hw_chains _ Hh). lia. }
    rewrite (get_chain_ok _ _ _ Hi Hc). simpl. destruct c as [|e c].
    + destruct (IH (i + 1)) as (_ & j & c & Hs & Hj & Hrest); [lia| |lia|].
      * intros j c Hj Hlt'. destruct (decide (Z.of_nat j = i)) as [<-|]; [|eapply Hb; eauto; lia].
        rewrite Nat2Z.id, Hj in Hc. by injection Hc.
      * exists j, c. split; [done|]. split; [lia|done].
    + exists i, (e :: c). repeat split; try lia; [by apply get_chain_ok|]. eauto.
Qed.

Lemma move_chain_spec de d :
  ht_wf (ht1 d) ->
  Z.of_nat (length de) <= used (ht0 d) ->
  used (ht0 d) + Z.of_nat (length (entries (ht1 d))) <= max_keys ->
  exists h1, move_chain de d =
    Done (mkDict (mkHt (table (ht0 d)) (size (ht0 d)) (sizemask (ht0 d))
                       (used (ht0 d) - Z.of_nat (length de)) (chains (ht0 d)))
                 h1 (rehashidx d) (iterators d)) /\
  ht_wf h1 /\ entries h1 ≡ₚ de ++ entries (ht1 d).
Proof.
  unfold max_keys. revert d. induction de as [|e de IH]; intros d Hh Hl Hs; cbn [move_chain length].
  - exists (ht1 d). rewrite Z.sub_0_r. destruct d as [[] h1 ??]. auto.
  - destruct (slot_chain _ (e_key e) Hh) as [c Hc]. rewrite Hc. cbn [mbind outcome_bind].
    pose proof (hw_used _ Hh) as Hu.
    assert (to_u 64 (used (ht1 d) + 1) = used (ht1 d) + 1) as E1.
    { apply to_u_small. unfold in_u. simpl length in Hl. lia. }
    assert (to_u 64 (used (ht0 d) + -1) = used (ht0 d) - 1) as E0.
    { apply to_u_small. unfold in_u. simpl length in Hl. lia. }
    pose proof Hc as [_ Hc']%get_chain_inv.
    destruct (entries_split _ _ _ Hc') as (a & b & Hab & Hins).
    match goal with |- context [move_chain de ?d'] => destruct (IH d') as (h1 & -> & Hh1 & Hp) end.
    + simpl. unfold add_used, set_chain. simpl. rewrite E1. eapply ht_wf_chain; eauto.
      * intros e' [->|He']%elem_of_cons; [done|]. by eapply hw_chain_slot.
      * simpl length. lia.
    + simpl in *. rewrite E0. lia.
    + simpl in *. rewrite E0. unfold entries at 1. simpl. rewrite Hins.
      rewrite Hab in Hs. rewrite !length_app in *. simpl length. lia.
    + exists h1. split; [|split; [done|]].
      * simpl. rewrite E0. do 3 f_equal. lia.
      * rewrite Hp. unfold entries at 1. simpl. rewrite Hins, Hab. solve_Permutation.
Qed.

Lemma same_refl d : wf d -> same d d.
Proof using Type. split; auto. Qed.

Lemma same_trans d1 d2 d3 : same d1 d2 -> same d2 d3 -> same d1 d3.
Proof using Type.
  intros (?&Hp&Hi) (?&Hp'&Hi'). split; [done|split; [by rewrite Hp|congruence]].
Qed.

Lemma same_abs d d' : wf d -> same d d' -> abs d' = abs d.
Proof using Type. intros Hd (?&Hp&?). symmetry. apply abs_perm; [apply Hd|done]. Qed.

Lemma wf_perm d d' :
  wf d -> all_entries d ≡ₚ all_entries d' -> idle d' \/ moving d' ->
  ht0 d' = _dictReset \/ ht_wf (ht0 d') -> wf d'.
Proof using Type.
  intros Hd Hp Hs Hh. split; [done|done| |]; rewrite <- Hp; apply Hd.
Qed.

(** A turn of the rehash loop neither faults nor loses an entry; it ends the
    rehashing or moves on. *)
Lemma rehash_turn_spec d :
  wf d -> moving d ->
  exists b d', rehash_turn d = Done (b, d') /\ same d d' /\ ht_wf (ht0 d') /\
  if b then moving d' /\ size (ht0 d') = size (ht0 d) /\ rehashidx d < rehashidx d' else idle d'.
Proof.
  intros Hd Hm. pose proof (mv_ht0 _ Hm) as H0. pose proof (mv_ht1 _ Hm) as H1.
  unfold rehash_turn. destruct (Z.eqb_spec (used (ht0 d)) 0) as [Hu|Hu].
  - eexists _, _. split; [done|]. split; [|by split]. split; [|split; [|done]].
    + apply (wf_perm d); [done| |by left|by right]. unfold all_entries. simpl.
      rewrite (hw_used _ H0) in Hu. destruct (entries (ht0 d)); [|simpl in Hu; lia].
      simpl. by rewrite app_nil_r.
    + unfold all_entries. simpl. rewrite (hw_used _ H0) in Hu.
      destruct (entries (ht0 d)); [|simpl in Hu; lia]. simpl. by rewrite app_nil_r.
  - destruct (skip_empty_spec (ht0 d) (S (length (chains (ht0 d)))) (rehashidx d))
      as (Hlt & i & c & Hsk & Hi & Hc & Hb); try done; try apply Hm.
    { rewrite Nat2Z.inj_succ, (hw_chains _ H0). pose proof (mv_idx _ Hm). lia. }
    pose proof (mv_idx _ Hm) as Hix. destruct (hw_size _ H0) as (n & Hn & Hsz).
    assert (2 ^ n <= 2 ^ 31) by (apply Z.pow_le_mono_r; lia).
    rewrite to_u_small by (unfold in_u; lia).
    rewrite Z.gtb_ltb, (proj2 (Z.ltb_lt _ _)) by lia. cbn [require_b mbind outcome_bind].
    rewrite Hsk. cbn [mbind outcome_bind ht0 set_rehashidx]. rewrite Hc. cbn [mbind outcome_bind].
    pose proof Hc as [Hi0 Hc']%get_chain_inv.
    destruct (entries_split _ _ _ Hc') as (a & b & Hab & Hins).
    pose proof (wf_small _ Hd) as Hsm. unfold all_entries in Hsm. rewrite length_app in Hsm.
    destruct (move_chain_spec c (set_rehashidx d i)) as (h1 & -> & Hh1 & Hp); simpl; [done| | |].
    { rewrite (hw_used _ H0), Hab, !length_app. lia. }
    { rewrite (hw_used _ H0). lia. }
    eexists _, _. split; [reflexivity|].
    assert (ht_wf (mkHt (table (ht0 d)) (size (ht0 d)) (sizemask (ht0 d))
                        (used (ht0 d) - Z.of_nat (length c)) (<[Z.to_nat i:=[]]> (chains (ht0 d))))) as Hw.
    { eapply ht_wf_chain; eauto; [by intros e ?%elem_of_nil|]. simpl length. lia. }
    assert (all_entries d ≡ₚ
            concat (<[Z.to_nat i:=[]]> (chains (ht0 d))) ++ entries h1) as HP.
    { unfold all_entries. rewrite Hp, Hins, Hab. simpl. solve_Permutation. }
    match goal with |- same _ ?d' /\ _ => assert (moving d') as Hmv end.
    { split; simpl; [done|done|lia|]. intros j c' Hj Hlt'.
      destruct (decide (j = Z.to_nat i)) as [->|Hne].
      - rewrite list_lookup_insert_eq in Hj by (eapply lookup_lt_Some; eauto). by injection Hj.
      - rewrite list_lookup_insert_ne in Hj by done. eapply Hb; eauto. lia. }
    split; [split; [|split; [exact HP|done]]|].
    + apply (wf_perm d); [done|exact HP|by right|by right].
    + split; [done|]. split; [done|]. simpl. split; [done|lia].
Qed.

Lemma rehash_loop_spec n d :
  wf d -> moving d ->
  exists b d', rehash_loop n d = Done (b, d') /\ same d d' /\ ht_wf (ht0 d') /\
  if b then moving d' /\ rehashidx d + Z.of_nat n <= rehashidx d' <= size (ht0 d) else idle d'.
Proof.
  revert d. induction n as [|n IH]; intros d Hd Hm; cbn [rehash_loop].
  - exists true, d. pose proof (mv_idx _ Hm).
    split; [done|]. split; [by apply same_refl|]. split; [apply Hm|]. split; [done|lia].
  - destruct (rehash_turn_spec d Hd Hm) as ([] & d1 & -> & Hs & Hw & Hb); cbn [mbind outcome_bind].
    + destruct Hb as (Hm1 & Hz & Hr). destruct (IH d1 (proj1 Hs) Hm1) as (b & d2 & -> & Hs2 & Hw2 & Hb2).
      exists b, d2. split; [done|]. split; [by eapply same_trans|]. split; [done|].
      destruct b; [|done]. rewrite <- Hz. split; [apply Hb2|]. destruct Hb2. lia.
    + exists false, d1. auto.
Qed.

Lemma step_spec d : wf d -> exists d', step_if_rehashing d = Done d' /\ same d d' /\
  (ht_wf (ht0 d) -> ht_wf (ht0 d')) /\ (idle d -> d' = d).
Proof.
  intros Hd. unfold step_if_rehashing, _dictRehashStep, dictRehash.
  destruct (wf_state _ Hd) as [Hi|Hm].
  - rewrite (idle_rehashing _ Hi). exists d. split; [done|]. split; [by apply same_refl|]. auto.
  - rewrite (moving_rehashing _ Hm). assert (idle d -> False) as Hni.
    { intros [Hr _]. pose proof (mv_idx _ Hm). lia. }
    destruct (iterators d =? 0).
    + destruct (rehash_loop_spec 1 d Hd Hm) as (b & d' & E & Hs & Hw & Hb).
      cbn [negb]. rewrite E. exists d'. split; [done|]. split; [done|]. split; [|done]. done.
    + exists d. split; [done|]. split; [by apply same_refl|]. auto.
Qed.

(** *** Resizing *)
Lemma next_power_loop_spec fuel sz n B :
  sz <= 2 ^ B -> 0 <= n <= B -> B <= 63 -> B - n < Z.of_nat fuel ->
  exists m, next_power_loop fuel sz (2 ^ n) = Done (2 ^ m) /\ sz <= 2 ^ m /\ n <= m <= B.
Proof using Type.
  revert n. induction fuel as [|fuel IH]; intros n Hs Hn HB Hf; [lia|]. simpl.
  rewrite Z.geb_leb. destruct (Z.leb_spec sz (2 ^ n)); [exists n; split; [done|lia]|].
  assert (n < B). { destruct (Z.eq_dec n B) as [->|]; lia. }
  rewrite Z.mul_comm, <- Z.pow_succ_r by lia. rewrite to_u_small.
  - destruct (IH (Z.succ n)) as (m & Hm & ? & ?); try lia. exists m. split; [done|lia].
  - unfold in_u. split; [apply Z.pow_nonneg; lia|].
    apply Z.pow_lt_mono_r; lia.
Qed.

Lemma next_power_spec sz :
  sz <= 2 ^ 31 -> exists m, _dictNextPower sz = Done (2 ^ m) /\ sz <= 2 ^ m /\ 2 <= m <= 31.
Proof using Type.
  intros Hs. unfold _dictNextPower. rewrite Z.geb_leb.
  rewrite (proj2 (Z.leb_gt _ _)) by (unfold LONG_MAX, INT64_MAX; lia).
  apply (next_power_loop_spec 64 sz 2 31); lia.
Qed.

Lemma concat_repeat_nil {A} n : concat (repeat (@nil A) n) = [].
Proof using Type. induction n; simpl; auto. Qed.

Lemma fresh_ht_wf a n :
  a <> 0 -> 0 <= n <= 31 ->
  ht_wf (mkHt a (2 ^ n) (2 ^ n - 1) 0 (repeat [] (Z.to_nat (2 ^ n))) : dictht K V).
Proof using Type.
  intros Ha Hn. assert (0 < 2 ^ n) by (apply Z.pow_pos_nonneg; lia).
  split; simpl; [eauto|done|rewrite repeat_length; lia|done| |].
  - unfold entries. simpl. by rewrite concat_repeat_nil.
  - intros i c e Hc He. apply list_elem_of_lookup_2, list_elem_of_In, repeat_spec in Hc as ->.
    by apply elem_of_nil in He.
Qed.

(** *** Writing one chain of a dict *)
Lemma chain_written d t i c c' u :
  wf d -> ht_wf (get_ht d t) -> get_chain (get_ht d t) i = Done c ->
  (forall e, e ∈ c' -> slot (get_ht d t) (e_key e) = i) ->
  u = used (get_ht d t) - Z.of_nat (length c) + Z.of_nat (length c') ->
  (t = false -> moving d -> c = [] -> c' = []) ->
  let h := get_ht d t in
  let d' := set_ht d t (mkHt (table h) (size h) (sizemask h) u (<[Z.to_nat i := c']> (chains h))) in
  exists r, all_entries d ≡ₚ c ++ r /\ all_entries d' ≡ₚ c' ++ r /\
  (NoDup (e_key <$> c' ++ r) -> Z.of_nat (length (c' ++ r)) <= max_keys -> wf d').
Proof using Type.
  intros Hd Hh Hc Hs Hu Hmv h d'.
  pose proof (ht_wf_chain _ _ _ _ _ Hh Hc Hs Hu) as Hh'. fold h in Hh'.
  apply get_chain_inv in Hc as [Hi Hc].
  destruct (entries_split _ _ _ Hc) as (a & b & Hab & Hins).
  assert (exists r, all_entries d ≡ₚ c ++ r /\ all_entries d' ≡ₚ c' ++ r) as (r & Hp & Hp').
  { destruct t; simpl in *; [exists (entries (ht0 d) ++ a ++ b)|exists (a ++ b ++ entries (ht1 d))];
      unfold all_entries, d', h; simpl; (split; [rewrite Hab; solve_Permutation|]);
      [unfold entries at 2|unfold entries at 1]; simpl; rewrite Hins; solve_Permutation. }
  exists r. split; [done|]. split; [done|]. intros Hn Hl.
  split; [| |by rewrite Hp'|by rewrite Hp'].
  - destruct t; [|by right]. simpl. apply Hd.
  - destruct (wf_state _ Hd) as [[Hr H1]|Hm].
    + destruct t; [simpl in Hc; by rewrite H1 in Hc|]. left. by split.
    + right. destruct t; [split; try apply Hm; done|].
      split; [done|apply Hm|apply Hm|]. intros j cj Hj Hlt. simpl in *.
      destruct (decide (j = Z.to_nat i)) as [->|Hne].
      * rewrite list_lookup_insert_eq in Hj by (eapply lookup_lt_Some; eauto).
        injection Hj as <-. apply Hmv; [done|done|]. by eapply (mv_done _ Hm).
      * rewrite list_lookup_insert_ne in Hj by done. by eapply (mv_done _ Hm).
Qed.

Lemma points_ht d l e : wf d -> points d l e -> ht_wf (get_ht d (l_table l)).
Proof using Type.
  intros Hd (c & Hc & _). apply get_chain_inv in Hc as [_ Hc].
  destruct (l_table l); simpl in *.
  - destruct (wf_state _ Hd) as [[_ H1]|Hm]; [by rewrite H1 in Hc|apply Hm].
  - destruct (wf_ht0 _ Hd) as [H0|]; [by rewrite H0 in Hc|done].
Qed.

Lemma dictGetVal_spec d l e : points d l e -> dictGetVal d l = Done (e_val e).
Proof using Type. intros (c & Hc & He). unfold dictGetVal. rewrite Hc. simpl. by rewrite He. Qed.

Lemma dictSetVal_spec d l e v :
  wf d -> points d l e ->
  exists d', dictSetVal d l v = Done d' /\ wf d' /\ iterators d' = iterators d /\
  abs d' = <[e_key e := Some v]> (abs d) /\ length (all_entries d') = length (all_entries d).
Proof using Type.
  intros Hd Hp. pose proof (points_ht _ _ _ Hd Hp) as Hh. destruct Hp as (c & Hc & He).
  unfold dictSetVal. rewrite Hc. simpl. rewrite He. simpl.
  eexists. split; [reflexivity|]. set (e' := mkEntry (e_key e) (Some v)).
  pose proof (lookup_lt_Some _ _ _ He) as Hlt.
  assert (c ≡ₚ e :: delete (l_pos l) c) as Hc1 by (by apply delete_Permutation).
  assert (<[l_pos l := e']> c ≡ₚ e' :: delete (l_pos l) c) as Hc2.
  { rewrite insert_take_drop, delete_take_drop by done. solve_Permutation. }
  destruct (chain_written d (l_table l) (l_idx l) c (<[l_pos l := e']> c) (used (get_ht d (l_table l))))
    as (r & Hp & Hp' & Hw); try done.
  - intros x Hx. rewrite Hc2 in Hx. apply elem_of_cons in Hx as [->|Hx].
    + eapply (hw_chain_slot _ _ _ e); eauto. by eapply list_elem_of_lookup_2.
    + eapply hw_chain_slot; eauto. rewrite Hc1. by right.
  - rewrite length_insert. lia.
  - intros _ _ ->. done.
  - pose proof (Permutation_app_tail r Hc1) as Hr. pose proof (Permutation_app_tail r Hc2) as Hr2.
    rewrite <- Hp in Hr. rewrite <- Hp' in Hr2. pose proof (wf_nodup _ Hd) as Hn.
    rewrite Hr in Hn. assert (length (all_entries d) = length (c ++ r)) as El by by rewrite Hp.
    match goal with |- wf ?d' /\ _ => assert (wf d') as Hwf end.
    { apply Hw; [by rewrite <- Hp', Hr2|]. pose proof (wf_small _ Hd).
      rewrite length_app, length_insert, <- length_app. lia. }
    split; [done|]. split; [by destruct (l_table l)|]. split.
    + rewrite (abs_entries _ _ Hwf Hr2), (abs_entries _ _ Hd Hr). simpl.
      by rewrite insert_insert_eq.
    + unfold set_chain. rewrite Hp', El, !length_app, length_insert. done.
Qed.

Lemma unlink_spec d l e :
  wf d -> points d l e ->
  exists d', unlink d l = Done (e, d') /\ wf d' /\ iterators d' = iterators d /\
  abs d' = delete (e_key e) (abs d).
Proof using Type.
  intros Hd Hp. pose proof (points_ht _ _ _ Hd Hp) as Hh. destruct Hp as (c & Hc & He).
  unfold unlink. rewrite Hc. simpl. rewrite He. simpl. eexists. split; [reflexivity|].
  pose proof (lookup_lt_Some _ _ _ He) as Hlt. pose proof (hw_used _ Hh) as Hu.
  assert (c ≡ₚ e :: delete (l_pos l) c) as Hc1 by (by apply delete_Permutation).
  pose proof Hc as [_ Hc']%get_chain_inv.
  destruct (entries_split _ _ _ Hc') as (a & b & Hab & _).
  pose proof (wf_small _ Hd) as Hl. unfold max_keys in Hl.
  assert (to_u 64 (used (get_ht d (l_table l)) + -1) = used (get_ht d (l_table l)) - 1) as Eu.
  { assert (length (entries (get_ht d (l_table l))) <= length (all_entries d))%nat.
    { unfold all_entries. rewrite length_app. destruct (l_table l); simpl; lia. }
    apply to_u_small. unfold in_u. rewrite Hu in *. rewrite Hab, Hc1, !length_app in *. simpl in *. lia. }
  unfold add_used, set_chain. cbn [table size sizemask used chains]. rewrite Eu.
  destruct (chain_written d (l_table l) (l_idx l) c (delete (l_pos l) c)
              (used (get_ht d (l_table l)) - 1)) as (r & Hp & Hp' & Hw); try done.
  - intros x Hx. eapply hw_chain_slot; eauto. rewrite Hc1. by right.
  - pose proof (Permutation_length Hc1) as El. simpl in El. lia.
  - intros _ _ ->. done.
  - pose proof (Permutation_app_tail r Hc1) as Hr. rewrite <- Hp in Hr.
    pose proof (wf_nodup _ Hd) as Hn. rewrite Hr in Hn, Hl. apply NoDup_cons in Hn as [Hk Hn].
    match goal with |- wf ?d' /\ _ => assert (wf d') as Hwf end.
    { apply Hw; [done|]. unfold max_keys. simpl in Hl. lia. }
    split; [done|]. split; [by destruct (l_table l)|].
    rewrite (abs_entries _ _ Hwf Hp'), (abs_entries _ _ Hd Hr). simpl.
    rewrite delete_insert_id; [done|].
    apply not_elem_of_list_to_map_1. by rewrite pair_of_keys.
Qed.

(** *** Iteration *)
Abbreviation iter := (@dictIterator K V).
Implicit Types it : iter.

(** The entries of the chains the iterator has not reached. *)
Definition ahead it d : list (dictEntry K V) :=
  concat (drop (Z.to_nat (i_index it + 1)) (chains (get_ht d (i_table it)))) ++
  if i_table it then [] else entries (ht1 d).

(** What [dictNext] will return, and (once [entry] is set) that entry and the rest. *)
Definition pending it d : list (dictEntry K V) :=
  match i_entry it with [] => ahead it d | _ => i_nextEntry it ++ ahead it d end.

Definition chains_left it d : nat :=
  length (drop (Z.to_nat (i_index it + 1)) (chains (get_ht d (i_table it)))) +
  if i_table it then 0 else length (chains (ht1 d)).

(** [dictNext] runs for the first time: it takes the fingerprint, or counts
    itself as a safe iterator. *)
Definition at_start it : bool := (i_index it =? -1) && negb (i_table it).
Definition begun it d : dict K V :=
  if at_start it && i_safe it then set_iterators d (iterators d + 1) else d.
Definition begun_fp it d : Z :=
  if at_start it && negb (i_safe it) then dictFingerprint d else i_fingerprint it.

Lemma begun_same it d :
  ht0 (begun it d) = ht0 d /\ ht1 (begun it d) = ht1 d /\ rehashidx (begun it d) = rehashidx d.
Proof using Type. unfold begun. by destruct (_ && _). Qed.

Lemma ahead_begun it it' d : ahead it (begun it' d) = ahead it d.
Proof using Type.
  unfold ahead. destruct (begun_same it' d) as (E0 & E1 & _).
  unfold get_ht. by rewrite E0, E1.
Qed.

Lemma wf_chains d t :
  wf d -> to_s 64 (size (get_ht d t)) = Z.of_nat (length (chains (get_ht d t))).
Proof using Type.
  intros Hd. assert (get_ht d t = _dictReset \/ ht_wf (get_ht d t)) as [->|Hh].
  { destruct t; [|apply Hd]. destruct (wf_state _ Hd) as [[_ H1]|Hm]; [by left|right; apply Hm]. }
  - done.
  - destruct (hw_size _ Hh) as (n & Hn & Hs).
    assert (0 < 2 ^ n <= 2 ^ 31) by (split; [apply Z.pow_pos_nonneg|apply Z.pow_le_mono_r]; lia).
    rewrite to_s_small by (unfold in_s; lia). by rewrite (hw_chains _ Hh).
Qed.

Definition turns it d : nat := chains_left it d + match i_entry it with [] => 0 | _ => 1 end.

(** One turn either ends the iteration with nothing left, or puts the next
    chain (possibly empty) in [entry]. *)
Lemma next_turn_spec it d :
  wf d -> -1 <= i_index it -> i_entry it = [] \/ 0 <= i_index it ->
  exists stop it', next_turn it d = Done (stop, it', begun it d) /\
  i_safe it' = i_safe it /\ 0 <= i_index it' /\ i_fingerprint it' = begun_fp it d /\
  pending it d = i_entry it' ++ ahead it' d /\
  if (stop : bool) then i_entry it' = [] /\ ahead it' d = []
  else i_entry it' = [] -> (chains_left it' d < turns it d)%nat.
Proof using Type.
  intros Hd Hix He. unfold next_turn. destruct (i_entry it) as [|e c] eqn:Eent.
  - fold (at_start it). fold (begun it d). fold (begun_fp it d).
    destruct (begun_same it d) as (E0 & E1 & Er).
    assert (get_ht (begun it d) (i_table it) = get_ht d (i_table it)) as Eg
      by (unfold get_ht; by rewrite E0, E1).
    assert (dictIsRehashing (begun it d) = dictIsRehashing d) as Ere by (unfold dictIsRehashing; by rewrite Er).
    rewrite Eg, Ere, (wf_chains _ _ Hd), Z.geb_leb. unfold pending, turns. rewrite Eent.
    destruct (Z.leb_spec (Z.of_nat (length (chains (get_ht d (i_table it))))) (i_index it + 1)) as [Hge|Hlt].
    + assert (drop (Z.to_nat (i_index it + 1)) (chains (get_ht d (i_table it))) = []) as Edr
        by (apply drop_ge; lia).
      destruct (dictIsRehashing d && negb (i_table it)) eqn:Hr.
      * apply andb_true_iff in Hr as [Hr Ht%negb_true_iff].
        destruct (wf_state _ Hd) as [Hi|Hm]; [by rewrite (idle_rehashing _ Hi) in Hr|].
        pose proof (hw_chains _ (mv_ht1 _ Hm)) as Hl.
        destruct (hw_size _ (mv_ht1 _ Hm)) as (n & Hn & Hs).
        assert (0 < 2 ^ n) by (apply Z.pow_pos_nonneg; lia).
        rewrite E1. destruct (chains (ht1 d)) as [|c cs] eqn:Ec; [simpl in Hl; lia|].
        rewrite (get_chain_ok _ 0 c) by (try lia; by rewrite Ec). cbn [mbind outcome_bind].
        eexists _, _. split; [done|]. simpl. do 3 (split; [done|]).
        unfold ahead, chains_left. simpl. rewrite Edr, Ht. unfold entries. rewrite Ec. simpl.
        rewrite drop_0, app_nil_r. split; [done|]. lia.
      * eexists true, _. split; [done|]. simpl. split; [done|]. split; [lia|]. split; [done|].
        assert (ahead it d = []) as Ea.
        { unfold ahead. rewrite Edr. simpl. destruct (i_table it) eqn:Ht; [done|].
          rewrite andb_true_r in Hr. destruct (wf_state _ Hd) as [[_ H1]|Hm]; [by rewrite H1|].
          by rewrite (moving_rehashing _ Hm) in Hr. }
        assert (ahead (mkIter (i_index it + 1) (i_table it) (i_safe it) [] (i_nextEntry it) (begun_fp it d)) d = []) as Ea'.
        { unfold ahead in *. simpl. rewrite Edr in Ea. rewrite drop_ge by lia. done. }
        by rewrite Ea, Ea'.
    + destruct (lookup_lt_is_Some_2 (chains (get_ht d (i_table it))) (Z.to_nat (i_index it + 1))) as [c Hc]; [lia|].
      rewrite (get_chain_ok _ _ c) by (try lia; done). cbn [mbind outcome_bind].
      eexists false, _. split; [done|]. simpl. split; [done|]. split; [lia|]. split; [done|].
      unfold ahead, chains_left. simpl. rewrite (drop_S _ _ _ Hc).
      replace (Z.to_nat (i_index it + 1 + 1)) with (S (Z.to_nat (i_index it + 1))) by lia.
      split; [simpl; by rewrite app_assoc|]. simpl. lia.
  - destruct He as [|He]; [done|].
    assert (at_start it = false) as Est.
    { unfold at_start. destruct (Z.eqb_spec (i_index it) (-1)); [lia|done]. }
    unfold begun, begun_fp. rewrite Est. simpl. eexists false, _. split; [done|]. simpl.
    split; [done|]. split; [done|]. split; [done|]. unfold pending, turns, ahead, chains_left. rewrite Eent. simpl.
    split; [done|]. lia.
Qed.

Lemma wf_iterators d n : wf d -> wf (set_iterators d n).
Proof using Type.
  intros Hd. apply (wf_perm d); [done|done| |apply Hd].
  destruct (wf_state _ Hd) as [Hi|[]]; [by left|by right].
Qed.

Lemma wf_begun it d : wf d -> wf (begun it d).
Proof using Type. intros Hd. unfold begun. destruct (_ && _); [by apply wf_iterators|done]. Qed.

Lemma started it d : 0 <= i_index it -> begun it d = d /\ begun_fp it d = i_fingerprint it.
Proof using Type.
  intros Hi. unfold begun, begun_fp, at_start. destruct (Z.eqb_spec (i_index it) (-1)); [lia|done].
Qed.

Lemma turns_begun it it' d : turns it (begun it' d) = turns it d.
Proof using Type.
  unfold turns, chains_left. destruct (begun_same it' d) as (E0 & E1 & _).
  unfold get_ht. by rewrite E0, E1.
Qed.

Lemma pending_begun it it' d : pending it (begun it' d) = pending it d.
Proof using Type. unfold pending. by rewrite ahead_begun. Qed.

Lemma next_loop_spec fuel it d :
  wf d -> -1 <= i_index it -> i_entry it = [] \/ 0 <= i_index it -> (turns it d < fuel)%nat ->
  exists it', next_loop fuel it d = Done (head (pending it d), it', begun it d) /\
  i_safe it' = i_safe it /\ 0 <= i_index it' /\ i_fingerprint it' = begun_fp it d /\
  (pending it d <> [] -> pending it' d = tail (pending it d)).
Proof using Type.
  revert it d. induction fuel as [|fuel IH]; intros it d Hd Hix He Hf; [lia|]. cbn [next_loop].
  destruct (next_turn_spec it d Hd Hix He) as (stop & it1 & -> & Hsf & Hi1 & Hfp & Hp & Hst).
  cbn [mbind outcome_bind]. destruct stop.
  - destruct Hst as [E1 E2]. rewrite Hp, E1, E2. exists it1. do 4 (split; [done|]). done.
  - destruct (i_entry it1) as [|e c] eqn:Ee.
    + specialize (Hst eq_refl). simpl in Hp.
      destruct (IH it1 (begun it d)) as (it2 & -> & Hsf2 & Hi2 & Hfp2 & Hp2).
      * by apply wf_begun.
      * lia.
      * by right.
      * rewrite turns_begun. unfold turns at 1. rewrite Ee. lia.
      * destruct (started it1 (begun it d) Hi1) as [Eb Efp]. rewrite !pending_begun, Eb in *.
        assert (pending it1 d = pending it d) as Epd by (unfold pending at 1; by rewrite Ee).
        rewrite Epd in *. exists it2. split; [done|]. split; [congruence|]. split; [done|].
        split; [congruence|done].
    + rewrite Hp. eexists. split; [done|]. simpl. do 3 (split; [done|]). done.
Qed.

Lemma dictNext_spec it d :
  wf d -> -1 <= i_index it -> i_entry it = [] \/ 0 <= i_index it ->
  exists it', dictNext it d = Done (head (pending it d), it', begun it d) /\
  i_safe it' = i_safe it /\ 0 <= i_index it' /\ i_fingerprint it' = begun_fp it d /\
  (pending it d <> [] -> pending it' d = tail (pending it d)).
Proof using Type.
  intros Hd Hix He. apply next_loop_spec; [done|done|done|].
  unfold turns, chains_left. rewrite length_drop.
  destruct (i_table it), (i_entry it); simpl; lia.
Qed.

Lemma drain_spec l fuel it d :
  wf d -> -1 <= i_index it -> i_entry it = [] \/ 0 <= i_index it ->
  pending it d = l -> (length l < fuel)%nat ->
  exists it', drain fuel it d = Done (l, it', begun it d) /\
  i_safe it' = i_safe it /\ 0 <= i_index it' /\ i_fingerprint it' = begun_fp it d.
Proof using Type.
  revert fuel it d. induction l as [|e l IH]; intros [|fuel] it d Hd Hix He Hp Hf; try (simpl in Hf; lia);
    cbn [drain]; destruct (dictNext_spec it d Hd Hix He) as (it1 & -> & Hsf & Hi1 & Hfp & Hnx);
    rewrite Hp in *; cbn [mbind outcome_bind head].
  - exists it1. auto.
  - simpl in Hf. destruct (started it1 (begun it d) Hi1) as [Eb Efp].
    destruct (IH fuel it1 (begun it d)) as (it2 & -> & Hsf2 & Hi2 & Hfp2); try done.
    + by apply wf_begun.
    + lia.
    + by right.
    + rewrite pending_begun. by apply Hnx.
    + lia.
    + cbn [mbind outcome_bind]. rewrite Eb. exists it2. split; [done|]. split; [congruence|].
      split; [done|congruence].
Qed.


Section Alloc.
Variable dict_can_resize : bool.
Variable zcalloc : dict K V -> Z.
Hypothesis zcalloc_nonnull : forall d, zcalloc d <> 0.

Lemma dictExpand_spec d sz :
  wf d -> idle d -> used (ht0 d) <= sz <= 2 ^ 31 ->
  exists d', dictExpand zcalloc d sz = Done (true, d') /\ same d d' /\ ht_wf (ht0 d').
Proof.
  intros Hd Hi Hs. unfold dictExpand. destruct (next_power_spec sz) as (m & -> & Hm & Hm31); [lia|].
  cbn [mbind outcome_bind]. rewrite (idle_rehashing _ Hi). simpl orb.
  rewrite Z.gtb_ltb, (proj2 (Z.ltb_ge _ _)) by lia.
  assert (4 <= 2 ^ m) as Hm4 by (apply (Z.pow_le_mono_r 2 2 m); lia).
  assert (2 ^ m <= 2 ^ 31) as Hmx by (apply Z.pow_le_mono_r; lia).
  rewrite to_u_small by (unfold in_u; lia).
  pose proof (fresh_ht_wf (zcalloc d) m (zcalloc_nonnull d) ltac:(lia)) as Hn.
  assert (entries (mkHt (zcalloc d) (2 ^ m) (2 ^ m - 1) 0 (repeat [] (Z.to_nat (2 ^ m))) : dictht K V) = [])
    as He by apply concat_repeat_nil.
  pose proof (idle_entries _ Hi) as Hall.
  destruct (wf_ht0 _ Hd) as [H0|H0].
  - rewrite H0. simpl. eexists. split; [done|]. split; [|done]. destruct Hi as [Hr H1].
    assert (all_entries d ≡ₚ all_entries (set_ht d false (mkHt (zcalloc d) (2 ^ m) (2 ^ m - 1) 0 (repeat [] (Z.to_nat (2 ^ m)))))) as Hp.
    { rewrite Hall, H0. unfold all_entries. simpl. by rewrite He, H1. }
    split; [|by split]. apply (wf_perm d); [done|done|left; by split|by right].
  - destruct (Z.eqb_spec (table (ht0 d)) 0) as [Ht|]; [by apply H0 in Ht|].
    eexists. split; [done|]. split; [|done].
    assert (all_entries d ≡ₚ all_entries (set_rehashidx (set_ht d true (mkHt (zcalloc d) (2 ^ m) (2 ^ m - 1) 0 (repeat [] (Z.to_nat (2 ^ m))))) 0)) as Hp.
    { rewrite Hall. unfold all_entries. simpl. by rewrite He, app_nil_r. }
    split; [|by split]. apply (wf_perm d); [done|done| |by right]. right.
    split; simpl; [done|done| |intros; lia].
    destruct (hw_size _ H0) as (nn & ? & ->). split; [lia|]. apply Z.pow_nonneg; lia.
Qed.

Lemma dictExpand_busy d sz :
  sz <= 2 ^ 31 -> dictIsRehashing d = true \/ sz < used (ht0 d) ->
  dictExpand zcalloc d sz = Done (false, d).
Proof using Type.
  intros Hs Hb. unfold dictExpand. destruct (next_power_spec sz Hs) as (m & -> & _).
  cbn [mbind outcome_bind]. destruct Hb as [->|Hb]; [done|].
  rewrite Z.gtb_ltb, (proj2 (Z.ltb_lt _ _)) by lia. by rewrite orb_true_r.
Qed.

Lemma used0_le d : wf d -> 0 <= used (ht0 d) <= Z.of_nat (length (all_entries d)).
Proof using Type.
  intros Hd. unfold all_entries. rewrite length_app.
  destruct (wf_ht0 _ Hd) as [->|H0]; [simpl|rewrite (hw_used _ H0)]; lia.
Qed.

Lemma dictResize_spec d :
  wf d -> exists b d', dictResize dict_can_resize zcalloc d = Done (b, d') /\ same d d'.
Proof.
  intros Hd. unfold dictResize. destruct (wf_state _ Hd) as [Hi|Hm].
  - rewrite (idle_rehashing _ Hi), orb_false_r.
    destruct dict_can_resize; simpl; [|exists false, d; split; [done|by apply same_refl]].
    pose proof (used0_le _ Hd) as Hul. pose proof (wf_small _ Hd) as Hsl. unfold max_keys in *.
    rewrite to_s_small by (unfold in_s; lia). unfold DICT_HT_INITIAL_SIZE.
    match goal with |- context [dictExpand _ _ ?sz] =>
      destruct (dictExpand_spec d sz Hd Hi) as (d' & -> & Hs & _) end.
    + destruct (Z.ltb_spec (used (ht0 d)) 4); lia.
    + eauto.
  - rewrite (moving_rehashing _ Hm), orb_true_r. exists false, d.
    split; [done|by apply same_refl].
Qed.

Lemma expandIfNeeded_spec d :
  wf d -> exists d', _dictExpandIfNeeded dict_can_resize zcalloc d = Done (true, d') /\
  same d d' /\ ht_wf (ht0 d').
Proof.
  intros Hd. unfold _dictExpandIfNeeded. destruct (wf_state _ Hd) as [Hi|Hm].
  - rewrite (idle_rehashing _ Hi). pose proof (used0_le _ Hd) as Hul. pose proof (wf_small _ Hd) as Hsl.
    unfold max_keys in *. destruct (wf_ht0 _ Hd) as [H0|H0].
    + replace (size (ht0 d)) with 0 by (by rewrite H0). simpl.
      apply dictExpand_spec; [done|done|]. rewrite H0. unfold DICT_HT_INITIAL_SIZE. simpl. lia.
    + destruct (hw_size _ H0) as (n & Hn & Hs).
      assert (0 < 2 ^ n) by (apply Z.pow_pos_nonneg; lia).
      destruct (Z.eqb_spec (size (ht0 d)) 0); [lia|].
      destruct (_ && _) eqn:Hc; [|exists d; split; [done|]; split; [by apply same_refl|done]].
      rewrite to_u_small by (unfold in_u; lia). apply dictExpand_spec; [done|done|lia].
  - rewrite (moving_rehashing _ Hm). exists d. split; [done|].
    split; [by apply same_refl|apply Hm].
Qed.

(** *** The operations against the finite map *)
Lemma dictFind_spec d k :
  wf d -> exists r d', dictFind d k = Done (r, d') /\ same d d' /\
  match r with
  | Some l => exists e, points d' l e /\ e_key e = k
  | None => k ∉ e_key <$> all_entries d'
  end.
Proof using DictTypeOk0 EqDecision0 Countable0.
  intros Hd. unfold dictFind. destruct (wf_ht0 _ Hd) as [H0|H0].
  - replace (size (ht0 d)) with 0 by (by rewrite H0). exists None, d. split; [done|].
    split; [by apply same_refl|].
    destruct (wf_state _ Hd) as [Hi|Hm].
    + rewrite (idle_entries _ Hi), H0. apply not_elem_of_nil.
    + destruct (hw_table _ (mv_ht0 _ Hm)). by rewrite H0.
  - destruct (Z.eqb_spec (size (ht0 d)) 0) as [Hz|_].
    { destruct (hw_size _ H0) as (n & ? & Hn). rewrite Hn in Hz.
      apply Z.pow_eq_0 in Hz; lia. }
    destruct (step_spec d Hd) as (d' & -> & Hs & Hh & _). cbn [mbind outcome_bind].
    destruct (find_both_spec d' k (proj1 Hs) (Hh H0)) as [(l & e & -> & ?)|[-> ?]];
      cbn [mbind outcome_bind]; eexists _, d'; eauto.
Qed.

Lemma dictFetchValue_spec d k :
  wf d -> exists d', dictFetchValue d k = Done (mjoin (abs d !! k), d') /\ same d d'.
Proof using DictTypeOk0 EqDecision0 Countable0.
  intros Hd. unfold dictFetchValue.
  destruct (dictFind_spec d k Hd) as (r & d' & -> & Hs & Hr). cbn [mbind outcome_bind].
  rewrite <- (same_abs _ _ Hd Hs). exists d'. split; [|done]. destruct r as [l|].
  - destruct Hr as (e & Hp & <-). rewrite (dictGetVal_spec _ _ _ Hp). simpl.
    by rewrite (abs_points _ _ _ (proj1 Hs) Hp).
  - by rewrite abs_None.
Qed.

Lemma dictGenericDelete_spec d k nofree :
  wf d -> exists d', wf d' /\ iterators d' = iterators d /\ abs d' = delete k (abs d) /\
  dictGenericDelete d k nofree =
    Done (match abs d !! k with
          | Some v => (true, if nofree then [] else [mkEntry k v], d')
          | None => (false, [], d')
          end).
Proof using DictTypeOk0 EqDecision0 Countable0.
  intros Hd. pose proof (dictFind_spec d k Hd) as (r & d1 & Hf & Hs & Hr).
  unfold dictFind in Hf. unfold dictGenericDelete.
  destruct (size (ht0 d) =? 0).
  - injection Hf as <- <-. exists d. rewrite (abs_None _ _ Hr), delete_id by by apply abs_None. auto.
  - apply bind_Done_inv in Hf as (d0 & -> & Hf). cbn [mbind outcome_bind].
    apply bind_Done_inv in Hf as (r0 & Hf & [= -> ->]). rewrite Hf. cbn [mbind outcome_bind].
    rewrite <- (same_abs _ _ Hd Hs). destruct Hs as (Hw & _ & Hit). destruct r as [l|].
    + destruct Hr as (e & Hp & <-). rewrite (abs_points _ _ _ Hw Hp).
      destruct (unlink_spec _ _ _ Hw Hp) as (d2 & -> & Hw2 & Hit2 & Ha2).
      exists d2. rewrite <- Hit. destruct e. auto.
    + rewrite (abs_None _ _ Hr). exists d1. rewrite delete_id by by apply abs_None. auto.
Qed.

(** Where [dictAddRaw] puts the new entry. *)
Lemma push_spec d k c (t := dictIsRehashing d) :
  wf d -> ht_wf (ht0 d) -> k ∉ e_key <$> all_entries d ->
  Z.of_nat (length (all_entries d)) < max_keys ->
  get_chain (get_ht d t) (slot (get_ht d t) k) = Done c ->
  let d' := set_ht d t (add_used (set_chain (get_ht d t) (slot (get_ht d t) k) (mkEntry k None :: c)) 1) in
  wf d' /\ iterators d' = iterators d /\ abs d' = <[k := None]> (abs d) /\
  points d' (mkLoc t (slot (get_ht d t) k) 0) (mkEntry k None).
Proof using DictTypeOk0 EqDecision0 Countable0.
  intros Hd H0 Hk Hl Hc. assert (ht_wf (get_ht d t)) as Hh.
  { unfold t. destruct (wf_state _ Hd) as [Hi|Hm];
      [rewrite (idle_rehashing _ Hi)|rewrite (moving_rehashing _ Hm)]; [done|apply Hm]. }
  pose proof (hw_used _ Hh) as Hu.
  assert (length (entries (get_ht d t)) <= length (all_entries d))%nat.
  { unfold all_entries. rewrite length_app. destruct t; simpl; lia. }
  assert (to_u 64 (used (get_ht d t) + 1) = used (get_ht d t) + 1) as Eu.
  { apply to_u_small. unfold in_u, max_keys in *. lia. }
  unfold add_used, set_chain. cbn [table size sizemask used chains]. rewrite Eu.
  destruct (chain_written d t (slot (get_ht d t) k) c (mkEntry k None :: c) (used (get_ht d t) + 1))
    as (r & Hp & Hp' & Hw); try done.
  - intros e [->|He]%elem_of_cons; [done|]. by eapply hw_chain_slot.
  - simpl length. lia.
  - intros Ht Hm _. unfold t in Ht. by rewrite (moving_rehashing _ Hm) in Ht.
  - simpl in Hp'. rewrite <- Hp in Hp'.
    match goal with |- wf ?x /\ _ => assert (wf x) as Hwf end.
    { apply Hw; cbn [app fmap list_fmap length]; [|pose proof (Permutation_length Hp) as El; lia].
      apply NoDup_cons. fold (e_key <$> (c ++ r)). rewrite <- Hp. split; [done|apply Hd]. }
    cbv zeta. split; [done|]. split; [by destruct t|]. split.
    + rewrite (abs_entries _ _ Hwf Hp'). done.
    + exists (mkEntry k None :: c). split; [|done]. apply get_chain_inv in Hc as [Hi Hc].
      assert (forall d h, get_ht (set_ht d t h) t = h) as E by by destruct t.
      cbn [l_table l_idx]. rewrite E. apply get_chain_ok; [done|]. cbn [chains].
      apply list_lookup_insert_eq. by eapply lookup_lt_Some.
Qed.

Lemma dictAddRaw_spec d k :
  wf d -> Z.of_nat (length (all_entries d)) < max_keys ->
  exists d', wf d' /\ iterators d' = iterators d /\
  match abs d !! k with
  | Some _ => dictAddRaw dict_can_resize zcalloc d k = Done (None, d') /\ abs d' = abs d
  | None => exists l, dictAddRaw dict_can_resize zcalloc d k = Done (Some l, d') /\
                      points d' l (mkEntry k None) /\ abs d' = <[k := None]> (abs d)
  end.
Proof.
  intros Hd Hl. unfold dictAddRaw, _dictKeyIndex.
  destruct (step_spec d Hd) as (d1 & -> & Hs1 & _). cbn [mbind outcome_bind].
  destruct (expandIfNeeded_spec d1 (proj1 Hs1)) as (d2 & -> & Hs2 & H0). cbn [mbind outcome_bind negb].
  pose proof (same_trans _ _ _ Hs1 Hs2) as Hs. clear d1 Hs1 Hs2.
  pose proof (same_abs _ _ Hd Hs) as Ha. destruct Hs as (Hw & Hp & Hit). rewrite <- Ha.
  destruct (find_both_spec d2 k Hw H0) as [(l & e & -> & Hpt & <-)|[-> Hk]]; cbn [mbind outcome_bind].
  - exists d2. rewrite (abs_points _ _ _ Hw Hpt). auto.
  - rewrite (abs_None _ _ Hk). set (t := dictIsRehashing d2).
    assert (ht_wf (get_ht d2 t)) as Hh.
    { unfold t. destruct (wf_state _ Hw) as [Hi|Hm];
        [rewrite (idle_rehashing _ Hi)|rewrite (moving_rehashing _ Hm)]; [done|apply Hm]. }
    pose proof (slot_bound _ k Hh) as Hsb. destruct (hw_size _ Hh) as (n & Hn & Hsz).
    assert (2 ^ n <= 2 ^ 31) by (apply Z.pow_le_mono_r; lia).
    rewrite to_s_small by (unfold in_s; lia).
    destruct (Z.eqb_spec (slot (get_ht d2 t) k) (-1)); [lia|].
    destruct (slot_chain _ k Hh) as [c Hc]. rewrite Hc. cbn [mbind outcome_bind].
    rewrite Hp in Hl. destruct (push_spec d2 k c Hw H0 Hk Hl Hc) as (Hw' & Hi' & Ha' & Hp').
    eexists. split; [exact Hw'|]. split; [congruence|]. eauto.
Qed.

Lemma dictAdd_spec d k v :
  wf d -> Z.of_nat (length (all_entries d)) < max_keys ->
  exists d', wf d' /\ iterators d' = iterators d /\
  match abs d !! k with
  | Some _ => dictAdd dict_can_resize zcalloc d k v = Done (false, d') /\ abs d' = abs d
  | None => dictAdd dict_can_resize zcalloc d k v = Done (true, d') /\ abs d' = <[k := Some v]> (abs d)
  end.
Proof.
  intros Hd Hl. unfold dictAdd. destruct (dictAddRaw_spec d k Hd Hl) as (d1 & Hw & Hit & Hr).
  destruct (abs d !! k).
  - destruct Hr as [-> Ha]. exists d1. auto.
  - destruct Hr as (l & -> & Hp & Ha). cbn [mbind outcome_bind].
    destruct (dictSetVal_spec _ _ _ v Hw Hp) as (d2 & -> & Hw2 & Hi2 & Ha2 & _).
    exists d2. split; [done|]. split; [congruence|]. split; [done|].
    by rewrite Ha2, Ha, insert_insert_eq.
Qed.

Lemma dictReplace_spec d k v :
  wf d -> Z.of_nat (length (all_entries d)) < max_keys ->
  exists d', wf d' /\ iterators d' = iterators d /\ abs d' = <[k := Some v]> (abs d) /\
  dictReplace dict_can_resize zcalloc d k v =
    Done (match abs d !! k with Some old => (false, [old], d') | None => (true, [], d') end).
Proof.
  intros Hd Hl. unfold dictReplace. destruct (dictAdd_spec d k v Hd Hl) as (d1 & Hw & Hit & Hr).
  destruct (abs d !! k) as [old|] eqn:Hk.
  - destruct Hr as [-> Ha]. cbn [mbind outcome_bind].
    destruct (dictFind_spec d1 k Hw) as (r & d2 & -> & Hs & Hf). cbn [mbind outcome_bind].
    pose proof (same_abs _ _ Hw Hs) as Ha2. destruct Hs as (Hw2 & _ & Hit2). destruct r as [l|].
    + destruct Hf as (e & Hp & <-). cbn [mbind outcome_bind expect].
      rewrite (dictGetVal_spec _ _ _ Hp). cbn [mbind outcome_bind].
      destruct (dictSetVal_spec _ _ _ v Hw2 Hp) as (d3 & -> & Hw3 & Hit3 & Ha3 & _).
      exists d3. split; [done|]. split; [congruence|]. split; [congruence|].
      pose proof (abs_points _ _ _ Hw2 Hp) as E. rewrite Ha2, Ha, Hk in E. by injection E as ->.
    + apply abs_None in Hf. congruence.
  - destruct Hr as [-> Ha]. exists d1. auto.
Qed.

(** *** Runs of operations *)
Inductive dict_op :=
  | OpAdd (k : K) (v : V)
  | OpReplace (k : K) (v : V)
  | OpDelete (k : K)
  | OpFetch (k : K)
  | OpSize
  | OpRehash (n : nat)
  | OpResize.

Inductive dict_ans := AnsBool (b : bool) | AnsVal (v : option V) | AnsInt (z : Z) | AnsNone.

Definition exec_op (o : dict_op) d : outcome (dict_ans * dict K V) :=
  match o with
  | OpAdd k v => '(b, d) ← dictAdd dict_can_resize zcalloc d k v; Done (AnsBool b, d)
  | OpReplace k v => '(b, _, d) ← dictReplace dict_can_resize zcalloc d k v; Done (AnsBool b, d)
  | OpDelete k => '(b, _, d) ← dictDelete d k; Done (AnsBool b, d)
  | OpFetch k => '(v, d) ← dictFetchValue d k; Done (AnsVal v, d)
  | OpSize => Done (AnsInt (dictSize d), d)
  | OpRehash n => '(_, d) ← dictRehash d n; Done (AnsNone, d)
  | OpResize => '(_, d) ← dictResize dict_can_resize zcalloc d; Done (AnsNone, d)
  end.

(** What a finite map answers; the rehashing operations do nothing to it. *)
Definition map_op (o : dict_op) (m : gmap K V) : dict_ans * gmap K V :=
  match o with
  | OpAdd k v => match m !! k with
                 | Some _ => (AnsBool false, m)
                 | None => (AnsBool true, <[k := v]> m)
                 end
  | OpReplace k v => (AnsBool (bool_decide (m !! k = None)), <[k := v]> m)
  | OpDelete k => (AnsBool (bool_decide (is_Some (m !! k))), delete k m)
  | OpFetch k => (AnsVal (m !! k), m)
  | OpSize => (AnsInt (Z.of_nat (base.size m)), m)
  | OpRehash _ | OpResize => (AnsNone, m)
  end.

Fixpoint exec_ops (os : list dict_op) d : outcome (list dict_ans * dict K V) :=
  match os with
  | [] => Done ([], d)
  | o :: os => '(a, d) ← exec_op o d; '(l, d) ← exec_ops os d; Done (a :: l, d)
  end.

Fixpoint map_ops (os : list dict_op) (m : gmap K V) : list dict_ans * gmap K V :=
  match os with
  | [] => ([], m)
  | o :: os => let (a, m) := map_op o m in let (l, m) := map_ops os m in (a :: l, m)
  end.

(** The dict [d] stands for the map [m]. *)
Definition stands_for d (m : gmap K V) : Prop := wf d /\ abs d = Some <$> m.

Lemma stands_size d m : stands_for d m -> length (all_entries d) = base.size m.
Proof using Type.
  intros [Hd Ha]. transitivity (base.size (abs d)).
  - unfold abs. rewrite map_size_list_to_map by (rewrite pair_of_keys; apply Hd).
    by rewrite length_fmap.
  - by rewrite Ha, map_size_fmap.
Qed.

Lemma stands_dictSize d m : stands_for d m -> dictSize d = Z.of_nat (base.size m).
Proof using Type.
  intros Hs. rewrite <- (stands_size _ _ Hs). destruct Hs as [Hd _]. unfold dictSize.
  assert (used (ht0 d) + used (ht1 d) = Z.of_nat (length (all_entries d))) as ->.
  { unfold all_entries. rewrite length_app. destruct (wf_state _ Hd) as [[_ H1]|Hm].
    - rewrite H1. destruct (wf_ht0 _ Hd) as [->|H0]; [done|]. rewrite (hw_used _ H0). simpl. lia.
    - rewrite (hw_used _ (mv_ht0 _ Hm)), (hw_used _ (mv_ht1 _ Hm)). lia. }
  pose proof (wf_small _ Hd) as Hl. unfold max_keys in Hl. apply to_u_small. unfold in_u. lia.
Qed.

Lemma stands_same d d' m : stands_for d m -> same d d' -> stands_for d' m.
Proof using Type.
  intros [Hd Ha] Hs. split; [apply Hs|]. by rewrite (same_abs _ _ Hd Hs).
Qed.

Lemma dictRehash_spec d n :
  wf d -> exists b d', dictRehash d n = Done (b, d') /\ same d d' /\
  (size (ht0 d) < Z.of_nat n -> b = false /\ dictIsRehashing d' = false).
Proof using DictTypeOk0 EqDecision0 Countable0.
  intros Hd. unfold dictRehash. destruct (wf_state _ Hd) as [Hi|Hm].
  - rewrite (idle_rehashing _ Hi). exists false, d. split; [done|].
    split; [by apply same_refl|]. by rewrite (idle_rehashing _ Hi).
  - rewrite (moving_rehashing _ Hm). cbn [negb].
    destruct (rehash_loop_spec n d Hd Hm) as (b & d' & E & Hs & _ & Hb).
    exists b, d'. split; [done|]. split; [done|]. intros Hn. destruct b.
    + pose proof (mv_idx _ Hm). lia.
    + by rewrite (idle_rehashing _ Hb).
Qed.

Lemma exec_op_refines o d m :
  stands_for d m -> Z.of_nat (base.size m) < max_keys ->
  exists d', exec_op o d = Done ((map_op o m).1, d') /\ stands_for d' (map_op o m).2.
Proof.
  intros Hs Hl. pose proof Hs as [Hd Ha]. pose proof (stands_size _ _ Hs) as Hsz.
  assert (forall k, abs d !! k = Some <$> m !! k) as Hk by (intros k; by rewrite Ha, lookup_fmap).
  rewrite <- Hsz in Hl. destruct o as [k v|k v|k|k| |n|]; cbn [exec_op map_op].
  - destruct (dictAdd_spec d k v Hd Hl) as (d' & Hw & _ & Hr). rewrite Hk in Hr.
    exists d'. destruct (m !! k); simpl in Hr; destruct Hr as [-> Hr]; (split; [done|split; [done|]]).
    + by rewrite Hr.
    + cbn [snd]; by rewrite Hr, Ha, fmap_insert.
  - destruct (dictReplace_spec d k v Hd Hl) as (d' & Hw & _ & Hr & ->). rewrite Hk.
    exists d'. split; [by destruct (m !! k)|]. split; [done|]. cbn [snd]; by rewrite Hr, Ha, fmap_insert.
  - destruct (dictGenericDelete_spec d k false Hd) as (d' & Hw & _ & Hr & E). unfold dictDelete.
    rewrite E, Hk. exists d'. split; [by destruct (m !! k)|]. split; [done|].
    cbn [snd]; by rewrite Hr, Ha, fmap_delete.
  - destruct (dictFetchValue_spec d k Hd) as (d' & -> & Hsm). exists d'.
    split; [|by eapply stands_same]. rewrite Hk. by destruct (m !! k).
  - exists d. by rewrite (stands_dictSize _ _ Hs).
  - destruct (dictRehash_spec d n Hd) as (b & d' & -> & Hsm & _). exists d'.
    split; [done|by eapply stands_same].
  - destruct (dictResize_spec d Hd) as (b & d' & -> & Hsm). exists d'.
    split; [done|by eapply stands_same].
Qed.

Lemma map_op_size o (m : gmap K V) : (base.size (map_op o m).2 <= S (base.size m))%nat.
Proof using Type.
  destruct o as [k v|k v|k|k| |n|]; simpl; try lia.
  - destruct (m !! k) eqn:E; simpl; [lia|]. by rewrite map_size_insert_None.
  - rewrite map_size_insert. destruct (m !! k); simpl; lia.
  - rewrite map_size_delete. destruct (m !! k); simpl; lia.
Qed.

Lemma exec_ops_refines os d m :
  stands_for d m -> Z.of_nat (base.size m + length os) <= max_keys ->
  exists d', exec_ops os d = Done ((map_ops os m).1, d') /\ stands_for d' (map_ops os m).2.
Proof.
  revert d m. induction os as [|o os IH]; intros d m Hs Hl; cbn [exec_ops map_ops].
  - exists d. auto.
  - simpl in Hl. destruct (exec_op_refines o d m Hs) as (d1 & -> & Hs1); [lia|].
    pose proof (map_op_size o m). destruct (map_op o m) as [a m1]. cbn [fst snd mbind outcome_bind] in *.
    destruct (IH d1 m1 Hs1) as (d2 & -> & Hs2); [lia|].
    destruct (map_ops os m1) as [l m2]. exists d2. auto.
Qed.

Lemma stands_create : stands_for dictCreate ∅.
Proof using Type.
  split; [|done]. split; [by left|left; by split|constructor|]. unfold max_keys. simpl. lia.
Qed.

End Alloc.

End Spec.


(** ** The keyspace's dictType meets the contract *)
Lemma lxor_u32 a b : in_u 32 a -> in_u 32 b -> in_u 32 (Z.lxor a b).
Proof.
  unfold in_u. intros Ha Hb. split; [apply Z.lxor_nonneg; lia|].
  destruct (Z.eq_dec (Z.lxor a b) 0) as [->|Hne]; [lia|].
  assert (0 <= Z.lxor a b) by (apply Z.lxor_nonneg; lia).
  apply Z.log2_lt_pow2; [lia|]. eapply Z.le_lt_trans; [apply Z.log2_lxor; lia|].
  assert (forall x, 0 <= x < 2 ^ 32 -> Z.log2 x < 32) as Hx.
  { intros x Hx. destruct (Z.eq_dec x 0) as [->|]; [simpl; lia|]. apply Z.log2_lt_pow2; lia. }
  apply Z.max_lub_lt; apply Hx; lia.
Qed.

#[global] Instance dbDictType_ok : DictTypeOk sds.
Proof.
  split.
  - intros k. simpl. unfold dictSdsHash, dictGenHashFunction.
    destruct (murmur_loop _ _ _) as [h rest]. cbv zeta.
    match goal with |- in_u 32 (Z.lxor (to_u 32 ?x) _) => pose proof (to_u_range 32 x ltac:(lia)) as Hx end.
    apply lxor_u32; [done|]. unfold in_u in *. rewrite Z.shiftr_div_pow2 by lia.
    match goal with |- 0 <= ?x / _ < _ => set (y := x) in * end.
    split; [apply Z.div_pos; lia|]. apply Z.div_lt_upper_bound; lia.
  - intros a b. simpl. unfold dictSdsKeyCompare.
    destruct (Nat.eqb_spec (length a) (length b)) as [_|Hne]; simpl.
    + by rewrite bool_decide_eq_true.
    + split; [done|]. by intros ->.
Qed.

(** ** Theorems *)

(** C5: Any run of dictAdd, dictReplace, dictDelete, dictFetchValue, dictSize,
    dictRehash and dictResize from an empty dict answers exactly as a finite
    map does, whatever the hash function and whether or not resizing is
    allowed: no lookup misses a key while the tables are being rehashed, none
    reads outside a table or fails the assertion, every loop ends, and the
    dict at the end stands for the map at the end. *)
Theorem dict_refines_map {K V : Type} {T : DictType K} `{!EqDecision K, !Countable K}
    (Hok : DictTypeOk K) (dict_can_resize : bool) (zcalloc : dict K V -> Z) (os : list dict_op) :
  (forall d, zcalloc d <> 0) -> Z.of_nat (length os) <= max_keys ->
  exists d, exec_ops dict_can_resize zcalloc os dictCreate = Done ((map_ops os ∅).1, d) /\
    wf d /\ abs d = Some <$> (map_ops os ∅).2.
Proof.
  intros Hz Hl. apply exec_ops_refines; [done|apply stands_create|]. by rewrite map_size_empty.
Qed.

Definition demo_alloc (d : dict sds Z) : Z := 65536 + 4096 * Z.abs (size (ht0 d)).
Definition demo_key (n : nat) : sds := str "key" ++ [chr (48 + Z.of_nat n)].
(** Eight insertions (one expansion), with lookups and deletions in between. *)
Definition demo_ops : list (@dict_op sds Z) :=
  ((fun n => OpAdd (demo_key n) (Z.of_nat n)) <$> seq 0 5) ++
  [OpFetch (demo_key 4); OpDelete (demo_key 1); OpFetch (demo_key 1); OpReplace (demo_key 2) 77;
   OpFetch (demo_key 2); OpSize; OpRehash 9; OpAdd (demo_key 0) 5].

Lemma dict_refines_map_witness :
  exists d, exec_ops true demo_alloc demo_ops dictCreate =
    Done ([AnsBool true; AnsBool true; AnsBool true; AnsBool true; AnsBool true; AnsVal (Some 4);
           AnsBool true; AnsVal None; AnsBool false; AnsVal (Some 77); AnsInt 4; AnsNone; AnsBool false], d) /\ wf d.
Proof.
  destruct (dict_refines_map dbDictType_ok true demo_alloc demo_ops) as (d & H & Hw & _).
  - intros d. unfold demo_alloc. lia.
  - vm_compute. discriminate.
  - exists d. split; [|exact Hw]. rewrite H. vm_compute. reflexivity.
Defined.

(** C34: Rehashing terminates and loses nothing: dictRehash of [n] steps on a
    dict in any state reached by the operations returns, keeps every key and
    value, and with [n] above the size of the old table it completes: the
    result is 0 and the dict is no longer rehashing. *)
Theorem dictRehash_completes {K V : Type} {T : DictType K} `{!EqDecision K, !Countable K}
    (Hok : DictTypeOk K) (d : dict K V) (n : nat) :
  wf d ->
  exists b d', dictRehash d n = Done (b, d') /\ wf d' /\ abs d' = abs d /\
    (size (ht0 d) < Z.of_nat n -> b = false /\ dictIsRehashing d' = false).
Proof.
  intros Hd. destruct (dictRehash_spec d n Hd) as (b & d' & H & Hs & Hn).
  exists b, d'. split; [done|]. split; [apply Hs|]. split; [by apply same_abs|done].
Qed.

(** A dict of five keys, rehashing from 4 buckets to 8. *)
Definition demo_dict : dict sds Z :=
  match exec_ops true demo_alloc (take 5 demo_ops) dictCreate with Done (_, d) => d | Fault _ => dictCreate end.

Lemma demo_dict_wf : wf demo_dict.
Proof.
  destruct (exec_ops_refines true demo_alloc ltac:(intros d; unfold demo_alloc; lia) (take 5 demo_ops) dictCreate ∅)
    as (d & H & Hw & _); [apply stands_create|vm_compute; discriminate|].
  unfold demo_dict. by rewrite H.
Qed.

Lemma dictRehash_completes_witness :
  dictIsRehashing demo_dict = true /\
  exists d', dictRehash demo_dict 5 = Done (false, d') /\ abs d' = abs demo_dict.
Proof.
  split; [vm_compute; reflexivity|].
  destruct (dictRehash_completes dbDictType_ok demo_dict 5 demo_dict_wf) as (b & d' & H & _ & Ha & Hb).
  destruct Hb as [-> _]; [vm_compute; reflexivity|]. exists d'. auto.
Defined.

(** Iterating over an unchanged dict with dictNext, with a safe or an
    unsafe iterator, in the middle of a rehash or not, returns every entry
    exactly once and then NULL, and releasing the iterator passes the
    fingerprint check and leaves the dict as it was. *)
Theorem dict_iteration_visits_all {K V : Type} {T : DictType K} `{!EqDecision K, !Countable K}
    (Hok : DictTypeOk K) (d : dict K V) (safe : bool) :
  wf d ->
  exists it d', drain (S (length (all_entries d))) (if safe then dictGetSafeIterator else dictGetIterator) d
                = Done (all_entries d, it, d') /\
    dictReleaseIterator it d' = Done d.
Proof.
  intros Hd. set (it0 := if safe then dictGetSafeIterator else dictGetIterator).
  assert (pending it0 d = all_entries d) as Hp by (by destruct safe).
  destruct (drain_spec (all_entries d) (S (length (all_entries d))) it0 d) as (it & H & Hs & Hi & Hf); try done.
  { by destruct safe. } { by destruct safe; left. } { lia. }
  exists it, (begun it0 d). split; [done|]. unfold dictReleaseIterator.
  destruct (Z.eqb_spec (i_index it) (-1)); [lia|]. cbn [andb negb]. rewrite Hs, Hf.
  unfold begun, begun_fp. destruct safe; cbn [it0 dictGetSafeIterator dictGetIterator i_safe at_start i_index i_table andb negb].
  - destruct d. unfold set_iterators. cbn. do 2 f_equal. lia.
  - change (at_start dictGetIterator) with true. cbn [andb]. by rewrite Z.eqb_refl.
Qed.

Lemma dict_iteration_visits_all_witness :
  exists it d', drain 6 dictGetIterator demo_dict = Done (all_entries demo_dict, it, d') /\
    dictReleaseIterator it d' = Done demo_dict.
Proof. apply (dict_iteration_visits_all dbDictType_ok demo_dict false demo_dict_wf). Defined.

(** The keys of a set, added one after the other to an empty dict. *)
Definition set_of (n : nat) : outcome (dict sds Z) :=
  '(_, d) ← exec_ops true demo_alloc ((fun i => OpAdd (demo_key i) 0) <$> seq 0 n) dictCreate; Done d.

(** Walk the set with an unsafe iterator, as setTypeInitIterator does, then
    add a new member and delete an old one for each, then release it. *)
Definition walk_then_replace (n : nat) : outcome (dict sds Z) :=
  d ← set_of n;
  '(es, it, d) ← drain (S n) dictGetIterator d;
  '(_, d) ← exec_ops true demo_alloc
              (concat ((fun e => [OpAdd (e_key e ++ str "UPDATED") 0; OpDelete (e_key e)]) <$> es)) d;
  dictReleaseIterator it d.

(** The way kvolve_update_all_set walks a set (an unsafe iterator, kept
    open while every member is replaced) passes the iterator's check for
    three members, and fails the assertion for four: the fifth key makes the
    table of four buckets grow, so the fingerprint differs. *)
Theorem unsafe_walk_of_four_asserts :
  (exists d, walk_then_replace 3 = Done d) /\ walk_then_replace 4 = Fault AssertFail /\
  walk_then_replace 8 = Fault AssertFail.
Proof. split; [eexists|split]; vm_compute; reflexivity. Qed.

End Dict.
