(* ===== verification/Server.v ===== *)
(** * The server state: objects, databases, clients and kvolve's globals

    The C heap is a finite map from addresses to Redis objects ([robj]); the
    value stored under a key, the arguments of a client and the elements of a
    hash-table encoded set are addresses, so two holders of one pointer see
    each other's writes, and a freed object is gone from the map.  Addresses
    are never reused.  The keyspace of a database is a finite map (Dict.v
    shows that dict.c implements one).  The fields that only the eviction,
    networking and replication code reads are left out. *)
From S2P Require Import Prelude CStr Intset ZSkip.
Export Intset(intset, mkIntset).

Abbreviation addr := positive (only parsing).

(** ** Redis objects (redis.h) *)
Inductive otype := REDIS_STRING | REDIS_LIST | REDIS_SET | REDIS_ZSET | REDIS_HASH.
Inductive oenc := ENC_RAW | ENC_INT | ENC_HT | ENC_LINKEDLIST | ENC_ZIPLIST | ENC_INTSET | ENC_SKIPLIST.

#[global] Instance otype_eq_dec : EqDecision otype.
Proof. solve_decision. Defined.
#[global] Instance oenc_eq_dec : EqDecision oenc.
Proof. solve_decision. Defined.

(** What [ptr] points to, per type and encoding: an sds string, the integer
    kept in the pointer itself, an intset, the keys of a set's dict (in
    iteration order), the nodes of a linked list, the entries of a ziplist
    (Ziplist.v shows that ziplist.c keeps a list of byte strings), the
    fields and values of a hash's dict (in iteration order), and the dict and
    the skip list of a sorted set. *)
(** The dict of a sorted set gives the node of a member; the score is read in
    the node.  Members are kept as their bytes: the references that the dict
    and the skip list hold on one shared object are not counted. *)
Record zset := mkZset { zs_dict : gmap sds addr; zs_zsl : ZSkip.zskiplist }.

Inductive optr :=
  | PSds (s : sds)
  | PLong (v : Z)
  | PIntset (i : intset)
  | PSetDict (l : list addr)
  | PLinked (l : list addr)
  | PZiplist (l : list sds)
  | PHashDict (l : list (addr * addr))
  | PZset (zs : zset).

Record robj := mkObj {
  o_type : otype;
  o_encoding : oenc;
  o_refcount : Z;
  o_vers : Z;
  o_ptr : optr
}.

Definition set_o_type (x : otype) (s : robj) : robj :=
  mkObj x (o_encoding s) (o_refcount s) (o_vers s) (o_ptr s).
Definition set_o_encoding (x : oenc) (s : robj) : robj :=
  mkObj (o_type s) x (o_refcount s) (o_vers s) (o_ptr s).
Definition set_o_refcount (x : Z) (s : robj) : robj :=
  mkObj (o_type s) (o_encoding s) x (o_vers s) (o_ptr s).
Definition set_o_vers (x : Z) (s : robj) : robj :=
  mkObj (o_type s) (o_encoding s) (o_refcount s) x (o_ptr s).
Definition set_o_ptr (x : optr) (s : robj) : robj :=
  mkObj (o_type s) (o_encoding s) (o_refcount s) (o_vers s) x.


(** ** Databases *)
(** The keyspace, the expire times, and for each watched key the object that
    names it in the table and the clients watching it. *)
Record redisDb := mkDb {
  db_dict : gmap sds addr;
  db_expires : gmap sds Z;
  db_watched : gmap sds (addr * list Z)
}.

Definition set_db_dict (x : gmap sds addr) (s : redisDb) : redisDb :=
  mkDb x (db_expires s) (db_watched s).
Definition set_db_expires (x : gmap sds Z) (s : redisDb) : redisDb :=
  mkDb (db_dict s) x (db_watched s).
Definition set_db_watched (x : gmap sds (addr * list Z)) (s : redisDb) : redisDb :=
  mkDb (db_dict s) (db_expires s) x.


(** ** Clients *)
Inductive reply :=
  | ROk
  | RStatus (s : sds)
  | RErr (msg : string)
  | RInt (n : Z)
  | RBulk (s : sds)
  | RNull
  | RNullMulti
  | RMultiLen (n : Z).

(** [argv] is an array of pointers; a slot that was never written is [None]. *)
Record client := mkClient {
  cl_id : Z;
  cl_db : nat;
  cl_argc : Z;
  cl_argv : list (option addr);
  cl_replies : list reply
}.

Definition set_cl_id (x : Z) (s : client) : client :=
  mkClient x (cl_db s) (cl_argc s) (cl_argv s) (cl_replies s).
Definition set_cl_db (x : nat) (s : client) : client :=
  mkClient (cl_id s) x (cl_argc s) (cl_argv s) (cl_replies s).
Definition set_cl_argc (x : Z) (s : client) : client :=
  mkClient (cl_id s) (cl_db s) x (cl_argv s) (cl_replies s).
Definition set_cl_argv (x : list (option addr)) (s : client) : client :=
  mkClient (cl_id s) (cl_db s) (cl_argc s) x (cl_replies s).
Definition set_cl_replies (x : list reply) (s : client) : client :=
  mkClient (cl_id s) (cl_db s) (cl_argc s) (cl_argv s) x.


(** ** kvolve (kvolve_internal.h) *)
(** A user's update function is a code address. *)
Abbreviation fptr := Z (only parsing).

Record kvolve_upd_info := mkInfo {
  from_ns : sds;
  to_ns : sds;
  from_vers : Z;
  to_vers : Z;
  funs : list fptr;
  num_funs : Z
}.

(** [versions] and [info] are arrays of KV_INIT_SZ slots. *)
Record version_hash := mkVh {
  vh_ns : sds;
  prev_ns : option sds;
  next_ns : option sds;
  versions : list Z;
  info : list (option kvolve_upd_info);
  num_versions : Z;
  ids : intset
}.

Definition set_vh_ns (x : sds) (s : version_hash) : version_hash :=
  mkVh x (prev_ns s) (next_ns s) (versions s) (info s) (num_versions s) (ids s).
Definition set_prev_ns (x : option sds) (s : version_hash) : version_hash :=
  mkVh (vh_ns s) x (next_ns s) (versions s) (info s) (num_versions s) (ids s).
Definition set_next_ns (x : option sds) (s : version_hash) : version_hash :=
  mkVh (vh_ns s) (prev_ns s) x (versions s) (info s) (num_versions s) (ids s).
Definition set_versions (x : list Z) (s : version_hash) : version_hash :=
  mkVh (vh_ns s) (prev_ns s) (next_ns s) x (info s) (num_versions s) (ids s).
Definition set_info (x : list (option kvolve_upd_info)) (s : version_hash) : version_hash :=
  mkVh (vh_ns s) (prev_ns s) (next_ns s) (versions s) x (num_versions s) (ids s).
Definition set_num_versions (x : Z) (s : version_hash) : version_hash :=
  mkVh (vh_ns s) (prev_ns s) (next_ns s) (versions s) (info s) x (ids s).
Definition set_ids (x : intset) (s : version_hash) : version_hash :=
  mkVh (vh_ns s) (prev_ns s) (next_ns s) (versions s) (info s) (num_versions s) x.


Record tmp_vers_store_hash := mkTmp {
  tv_key : sds;
  tv_vers : Z;
  tv_prev_db : nat
}.

Record kvolve_state := mkKv {
  vers_list : list version_hash;
  tmp_store : list tmp_vers_store_hash;
  upd_fun_running : Z;
  loading_id : Z
}.

Definition set_vers_list (x : list version_hash) (s : kvolve_state) : kvolve_state :=
  mkKv x (tmp_store s) (upd_fun_running s) (loading_id s).
Definition set_tmp_store (x : list tmp_vers_store_hash) (s : kvolve_state) : kvolve_state :=
  mkKv (vers_list s) x (upd_fun_running s) (loading_id s).
Definition set_upd_fun_running (x : Z) (s : kvolve_state) : kvolve_state :=
  mkKv (vers_list s) (tmp_store s) x (loading_id s).
Definition set_loading_id (x : Z) (s : kvolve_state) : kvolve_state :=
  mkKv (vers_list s) (tmp_store s) (upd_fun_running s) x.


(** ** The server *)
Inductive event :=
  | Notify (what : string) (key : sds) (dbid : nat)
  | PropagateDel (key : sds) (dbid : nat)
  | Propagate (cmd : string) (dbid : nat) (argv : list addr)
  | KillClient (id : Z).

Record server_stats := mkStats {
  stat_numcommands : Z;
  stat_keyspace_hits : Z;
  stat_keyspace_misses : Z;
  stat_expiredkeys : Z
}.

Definition set_stat_numcommands (x : Z) (s : server_stats) : server_stats :=
  mkStats x (stat_keyspace_hits s) (stat_keyspace_misses s) (stat_expiredkeys s).
Definition set_stat_keyspace_hits (x : Z) (s : server_stats) : server_stats :=
  mkStats (stat_numcommands s) x (stat_keyspace_misses s) (stat_expiredkeys s).
Definition set_stat_keyspace_misses (x : Z) (s : server_stats) : server_stats :=
  mkStats (stat_numcommands s) (stat_keyspace_hits s) x (stat_expiredkeys s).
Definition set_stat_expiredkeys (x : Z) (s : server_stats) : server_stats :=
  mkStats (stat_numcommands s) (stat_keyspace_hits s) (stat_keyspace_misses s) x.


(** [lua_caller]: the start time of the running script, if any;
    [maxmemory_lru]: the policy is volatile-lru or allkeys-lru. *)
Record server_conf := mkConf {
  mstime : Z;
  loading : bool;
  masterhost : bool;
  lua_caller : option Z;
  maxmemory : Z;
  maxmemory_lru : bool;
  set_max_intset_entries : Z;
  list_max_ziplist_entries : Z;
  list_max_ziplist_value : Z;
  hash_max_ziplist_entries : Z;
  hash_max_ziplist_value : Z;
  zset_max_ziplist_entries : Z;
  zset_max_ziplist_value : Z;
  (** The pointers that fit into the block that zmalloc gives for three. *)
  three_pointers : nat
}.

Record server := mkServer {
  heap : gmap addr robj;
  next_addr : addr;
  dbs : list redisDb;
  dirty : Z;
  stats : server_stats;
  conf : server_conf;
  dirty_cas : gset Z;
  events : list event;
  next_client_id : Z;
  rnd : list Z;
  kv : kvolve_state
}.

Definition set_heap (x : gmap addr robj) (s : server) : server :=
  mkServer x (next_addr s) (dbs s) (dirty s) (stats s) (conf s) (dirty_cas s) (events s) (next_client_id s) (rnd s) (kv s).
Definition set_next_addr (x : addr) (s : server) : server :=
  mkServer (heap s) x (dbs s) (dirty s) (stats s) (conf s) (dirty_cas s) (events s) (next_client_id s) (rnd s) (kv s).
Definition set_dbs (x : list redisDb) (s : server) : server :=
  mkServer (heap s) (next_addr s) x (dirty s) (stats s) (conf s) (dirty_cas s) (events s) (next_client_id s) (rnd s) (kv s).
Definition set_dirty (x : Z) (s : server) : server :=
  mkServer (heap s) (next_addr s) (dbs s) x (stats s) (conf s) (dirty_cas s) (events s) (next_client_id s) (rnd s) (kv s).
Definition set_stats (x : server_stats) (s : server) : server :=
  mkServer (heap s) (next_addr s) (dbs s) (dirty s) x (conf s) (dirty_cas s) (events s) (next_client_id s) (rnd s) (kv s).
Definition set_conf (x : server_conf) (s : server) : server :=
  mkServer (heap s) (next_addr s) (dbs s) (dirty s) (stats s) x (dirty_cas s) (events s) (next_client_id s) (rnd s) (kv s).
Definition set_dirty_cas (x : gset Z) (s : server) : server :=
  mkServer (heap s) (next_addr s) (dbs s) (dirty s) (stats s) (conf s) x (events s) (next_client_id s) (rnd s) (kv s).
Definition set_events (x : list event) (s : server) : server :=
  mkServer (heap s) (next_addr s) (dbs s) (dirty s) (stats s) (conf s) (dirty_cas s) x (next_client_id s) (rnd s) (kv s).
Definition set_next_client_id (x : Z) (s : server) : server :=
  mkServer (heap s) (next_addr s) (dbs s) (dirty s) (stats s) (conf s) (dirty_cas s) (events s) x (rnd s) (kv s).
Definition set_rnd (x : list Z) (s : server) : server :=
  mkServer (heap s) (next_addr s) (dbs s) (dirty s) (stats s) (conf s) (dirty_cas s) (events s) (next_client_id s) x (kv s).
Definition set_kv (x : kvolve_state) (s : server) : server :=
  mkServer (heap s) (next_addr s) (dbs s) (dirty s) (stats s) (conf s) (dirty_cas s) (events s) (next_client_id s) (rnd s) x.


(** ** Memory *)
Abbreviation M := (prog server).

Definition deref (a : addr) : M robj := fun s =>
  match heap s !! a with Some o => Done (o, s) | None => Fault Dangling end.

(** A write through the pointer: [f] changes the fields. *)
Definition upd_obj (a : addr) (f : robj -> robj) : M unit := fun s =>
  match heap s !! a with
  | Some o => Done (tt, set_heap (<[a := f o]> (heap s)) s)
  | None => Fault Dangling
  end.

Definition alloc (o : robj) : M addr := fun s =>
  let a := next_addr s in
  Done (a, set_next_addr (Pos.succ a) (set_heap (<[a := o]> (heap s)) s)).

(** [zfree] of an object. *)
Definition zfree (a : addr) : M unit := fun s =>
  match heap s !! a with
  | Some _ => Done (tt, set_heap (delete a (heap s)) s)
  | None => Fault Dangling
  end.

Definition empty_db : redisDb := mkDb ∅ ∅ ∅.
Definition get_db (s : server) (i : nat) : redisDb := default empty_db (dbs s !! i).
Definition upd_db (i : nat) (f : redisDb -> redisDb) : M unit :=
  modify (fun s => set_dbs (<[i := f (get_db s i)]> (dbs s)) s).

Definition argv (c : client) (i : nat) : outcome addr :=
  match cl_argv c !! i with
  | Some (Some a) => Done a
  | Some None => Fault Dangling
  | None => Fault OutOfBounds
  end.

(** [c->argv[i] = a] *)
Definition put_argv (i : nat) (a : addr) (c : client) : outcome client :=
  if decide (i < length (cl_argv c))%nat
  then Done (set_cl_argv (<[i := Some a]> (cl_argv c)) c) else Fault OutOfBounds.

Definition add_reply (r : reply) (c : client) : client := set_cl_replies (cl_replies c ++ [r]) c.

(** The bytes of a string object used as an argument: [(sds)o->ptr]. *)
Definition sds_of (o : robj) : outcome sds :=
  match o_ptr o with PSds s => Done s | _ => Fault Panic end.

(** [(char* )c->argv[i]->ptr] *)
Definition arg_str (c : client) (i : nat) : M sds :=
  a ← lift (argv c i); o ← deref a; lift (sds_of o).

Definition log_event (e : event) : M unit := modify (fun s => set_events (events s ++ [e]) s).
Definition incr_dirty (n : Z) : M unit := modify (fun s => set_dirty (dirty s + n) s).

(** A client of the server itself, [createClient(-1)]: it is on database 0
    and has no argument vector yet; [n] slots are then allocated. *)
Definition createClient (n : nat) : M client := fun s =>
  Done (mkClient (next_client_id s) 0 0 (replicate n None) [],
        set_next_client_id (next_client_id s + 1) s).

(** The next value of random(), from the sequence [rnd]. *)
Definition draw : M Z := fun s =>
  match rnd s with
  | r :: rest => Done (r, set_rnd rest s)
  | [] => Fault OutOfFuel
  end.

Definition upd_kv (f : kvolve_state -> kvolve_state) : M unit :=
  modify (fun s => set_kv (f (kv s)) s).

(** What realloc leaves in the bytes an intset grows by; intset.c overwrites
    them all (Intset.v, for every content). *)
Definition fresh : nat -> Z := fun _ => 0.

(** ** Running the memory operations *)
Lemma bind_deref {B} a o (f : robj -> M B) s :
  heap s !! a = Some o -> (deref a ≫= f) s = f o s.
Proof. intros H. apply prog_bind_step. unfold deref. by rewrite H. Qed.

Lemma upd_obj_Done a o g s :
  heap s !! a = Some o -> upd_obj a g s = Done (tt, set_heap (<[a := g o]> (heap s)) s).
Proof. intros H. unfold upd_obj. by rewrite H. Qed.

Lemma bind_upd_obj {B} a o g (f : unit -> M B) s :
  heap s !! a = Some o -> (upd_obj a g ≫= f) s = f tt (set_heap (<[a := g o]> (heap s)) s).
Proof. intros H. apply prog_bind_step. by apply upd_obj_Done. Qed.

Lemma bind_alloc {B} o (f : addr -> M B) s :
  (alloc o ≫= f) s =
  f (next_addr s) (set_next_addr (Pos.succ (next_addr s)) (set_heap (<[next_addr s := o]> (heap s)) s)).
Proof. done. Qed.

Lemma zfree_Done a o s :
  heap s !! a = Some o -> zfree a s = Done (tt, set_heap (delete a (heap s)) s).
Proof. intros H. unfold zfree. by rewrite H. Qed.

(** [str_arg s c i x]: argument [i] of [c] is a string object with bytes [x]. *)
Definition str_arg (s : server) (c : client) (i : nat) (x : sds) : Prop :=
  exists a o, cl_argv c !! i = Some (Some a) /\ heap s !! a = Some o /\ o_ptr o = PSds x.

Lemma arg_str_Done s c i x : str_arg s c i x -> arg_str c i s = Done (x, s).
Proof.
  intros (a & o & Ha & Ho & Hp). unfold arg_str, argv, sds_of, lift, deref, mbind, prog_bind.
  by rewrite Ha, Ho, Hp.
Qed.

Lemma bind_arg_str {B} c i x (f : sds -> M B) s : str_arg s c i x -> (arg_str c i ≫= f) s = f x s.
Proof. intros H. apply prog_bind_step. by apply arg_str_Done. Qed.

Lemma argv_Done c i a : cl_argv c !! i = Some (Some a) -> argv c i = Done a.
Proof. unfold argv. by intros ->. Qed.

Lemma put_argv_Done i a c : (i < length (cl_argv c))%nat ->
  put_argv i a c = Done (set_cl_argv (<[i := Some a]> (cl_argv c)) c).
Proof. intros H. unfold put_argv. by rewrite decide_True. Qed.

#[export] Hint Rewrite @bind_alloc : run.


(** No object lies at or above [next_addr]. *)
Definition heap_fresh (s : server) : Prop := forall a, (next_addr s <= a)%positive -> heap s !! a = None.

Lemma heap_fresh_lt s a o : heap_fresh s -> heap s !! a = Some o -> (a < next_addr s)%positive.
Proof. intros Hf Ha. destruct (decide (a < next_addr s)%positive); [done|]. rewrite Hf in Ha by lia. done. Qed.

(** ** A small server for evaluations: two databases, nothing stored; the
    addresses below 20000 are left to the shared integers and to the objects
    that an evaluation puts there. *)
Definition conf0 : server_conf := mkConf 1000 false false None 0 false 512 512 64 512 64 128 64 4.
Definition server0 : server :=
  mkServer ∅ 20000 [empty_db; empty_db] 0 (mkStats 0 0 0 0) conf0 ∅ [] 1 [] (mkKv [] [] 0 0).

Definition str_obj (x : string) (vers : Z) : robj := mkObj REDIS_STRING ENC_RAW 1 vers (PSds (str x)).
Definition put_obj (a : addr) (o : robj) (s : server) : server := set_heap (<[a := o]> (heap s)) s.
Definition put_key (i : nat) (k : string) (a : addr) (s : server) : server :=
  set_dbs (<[i := set_db_dict (<[str k := a]> (db_dict (get_db s i))) (get_db s i)]> (dbs s)) s.
Definition with_ns (l : list version_hash) (s : server) : server := set_kv (set_vers_list l (kv s)) s.
Definition client_of (db : nat) (args : list addr) : client :=
  mkClient 7 db (Z.of_nat (length args)) (map Some args) [].
