(* ===== verification/Object.v ===== *)
(** * object.c: creating, sharing, encoding and comparing Redis objects *)
From S2P Require Import Prelude CStr Intset Util Double ZSkip Server.

Module Object.

Definition REDIS_SHARED_INTEGERS : Z := 10000.

(** [shared.integers[v]]: the first addresses of the heap. *)
Definition shared_integers (v : Z) : addr := Z.to_pos (v + 1).

Definition createObject (t : otype) (p : optr) : M addr := alloc (mkObj t ENC_RAW 1 0 p).

Definition createStringObject (s : sds) : M addr := createObject REDIS_STRING (PSds s).

Definition incrRefCount (a : addr) : M unit :=
  upd_obj a (fun o => set_o_refcount (o_refcount o + 1) o).

(** The elements that [freeSetObject] and [freeListObject] release with the
    container; [redisPanic] for an encoding the type cannot have. *)
Definition freeStringObject (o : robj) : outcome (list addr) := Done [].
Definition freeListObject (o : robj) : outcome (list addr) :=
  match o_encoding o, o_ptr o with
  | ENC_LINKEDLIST, PLinked l => Done l
  | ENC_ZIPLIST, _ => Done []
  | _, _ => Fault Panic
  end.
Definition freeSetObject (o : robj) : outcome (list addr) :=
  match o_encoding o, o_ptr o with
  | ENC_HT, PSetDict l => Done l
  | ENC_INTSET, _ => Done []
  | _, _ => Fault Panic
  end.
Definition freeHashObject (o : robj) : outcome (list addr) :=
  match o_encoding o, o_ptr o with
  | ENC_HT, PHashDict l => Done (concat (map (fun p => [p.1; p.2]) l))
  | ENC_ZIPLIST, _ => Done []
  | _, _ => Fault Panic
  end.
(** dictRelease and zslFree: every node of the skip list is freed. *)
Definition freeZsetObject (o : robj) : outcome (list addr) :=
  match o_encoding o, o_ptr o with
  | ENC_SKIPLIST, PZset zs => _ ← ZSkip.zslFree (zs_zsl zs); Done []
  | ENC_ZIPLIST, _ => Done []
  | _, _ => Fault Panic
  end.

(** [decrRefCount]; [depth] bounds the nesting (the elements of a container
    are strings, so two levels are enough). *)
Fixpoint decrRefCount_at (depth : nat) (a : addr) : M unit :=
  match depth with
  | O => throw OutOfFuel
  | S depth' =>
    o ← deref a;
    if o_refcount o <=? 0 then throw Panic
    else if o_refcount o =? 1 then
      l ← lift (match o_type o with
                | REDIS_STRING => freeStringObject o
                | REDIS_LIST => freeListObject o
                | REDIS_SET => freeSetObject o
                | REDIS_ZSET => freeZsetObject o
                | REDIS_HASH => freeHashObject o
                end);
      _ ← for_each l (decrRefCount_at depth');
      zfree a
    else upd_obj a (fun o => set_o_refcount (o_refcount o - 1) o)
  end.

Definition decrRefCount (a : addr) : M unit := decrRefCount_at 2 a.

Definition createStringObjectFromLongLong (v : Z) : M addr :=
  if (0 <=? v) && (v <? REDIS_SHARED_INTEGERS) then
    _ ← incrRefCount (shared_integers v);
    mret (shared_integers v)
  else if (INT64_MIN <=? v) && (v <=? INT64_MAX) then
    alloc (mkObj REDIS_STRING ENC_INT 1 0 (PLong v))
  else createObject REDIS_STRING (PSds (Util.ll2string_text v)).

Definition dupStringObject (a : addr) : M addr :=
  o ← deref a;
  _ ← lift (require_b AssertFail (bool_decide (o_encoding o = ENC_RAW)));
  s ← lift (sds_of o);
  createStringObject s.

Definition createListObject : M addr := alloc (mkObj REDIS_LIST ENC_LINKEDLIST 1 0 (PLinked [])).
Definition createZiplistObject : M addr := alloc (mkObj REDIS_LIST ENC_ZIPLIST 1 0 (PZiplist [])).
Definition createSetObject : M addr := alloc (mkObj REDIS_SET ENC_HT 1 0 (PSetDict [])).
Definition createIntsetObject : M addr :=
  alloc (mkObj REDIS_SET ENC_INTSET 1 0 (PIntset Intset.intsetNew)).

Definition createHashObject : M addr := alloc (mkObj REDIS_HASH ENC_ZIPLIST 1 0 (PZiplist [])).

Definition createZsetObject : M addr := alloc (mkObj REDIS_ZSET ENC_SKIPLIST 1 0 (PZset (mkZset ∅ ZSkip.zslCreate))).
Definition createZsetZiplistObject : M addr := alloc (mkObj REDIS_ZSET ENC_ZIPLIST 1 0 (PZiplist [])).

(** [checkType]: 1 and a wrong-type reply, or 0. *)
Definition wrongtypeerr : reply := RErr "WRONGTYPE Operation against a key holding the wrong kind of value".
Definition checkType (c : client) (o : robj) (t : otype) : client * bool :=
  if bool_decide (o_type o = t) then (c, false) else (add_reply wrongtypeerr c, true).

(** [None] is REDIS_ERR. *)
Definition isObjectRepresentableAsLongLong (o : robj) : outcome (option Z) :=
  if bool_decide (o_type o = REDIS_STRING) then
    match o_encoding o, o_ptr o with
    | ENC_INT, PLong v => Done (Some v)
    | ENC_RAW, PSds s => Done (Util.string2ll s)
    | _, _ => Fault Panic
    end
  else Fault AssertFail.

Definition tryObjectEncoding (a : addr) : M addr :=
  o ← deref a;
  if negb (bool_decide (o_encoding o = ENC_RAW)) then mret a
  else if o_refcount o >? 1 then mret a
  else
    _ ← lift (require_b AssertFail (bool_decide (o_type o = REDIS_STRING)));
    s ← lift (sds_of o);
    match (if sdslen s >? 21 then None else Util.string2l s) with
    | None => mret a   (* sdsRemoveFreeSpace changes no byte of the string *)
    | Some value =>
      cf ← gets conf;
      if ((maxmemory cf =? 0) || negb (maxmemory_lru cf)) &&
         (0 <=? value) && (value <? REDIS_SHARED_INTEGERS) then
        _ ← decrRefCount a;
        _ ← incrRefCount (shared_integers value);
        mret (shared_integers value)
      else
        _ ← upd_obj a (fun o => set_o_ptr (PLong value) (set_o_encoding ENC_INT o));
        mret a
    end.

Definition getDecodedObject (a : addr) : M addr :=
  o ← deref a;
  if bool_decide (o_encoding o = ENC_RAW) then _ ← incrRefCount a; mret a
  else
    match o_type o, o_encoding o, o_ptr o with
    | REDIS_STRING, ENC_INT, PLong v => createStringObject (Util.ll2string_text v)
    | _, _, _ => throw Panic
    end.

(** The bytes a string object stands for, whatever its encoding. *)
Definition string_bytes (o : robj) : outcome sds :=
  match o_ptr o with
  | PSds s => Done s
  | PLong v => Done (Util.ll2string_text v)
  | _ => Fault Panic
  end.

(** REDIS_COMPARE_BINARY: memcmp on the common prefix, then the difference of the lengths. *)
Definition compareStringObjects (a b : addr) (oa ob : robj) : outcome Z :=
  if bool_decide (o_type oa = REDIS_STRING /\ o_type ob = REDIS_STRING) then
    if decide (a = b) then Done 0
    else
      s ← string_bytes oa;
      t ← string_bytes ob;
      let cmp := memcmp s t in
      mret (if cmp =? 0 then sdslen s - sdslen t else cmp)
  else Fault AssertFail.

Definition equalStringObjects (a b : addr) (oa ob : robj) : outcome bool :=
  match o_encoding oa, o_ptr oa, o_encoding ob, o_ptr ob with
  | ENC_INT, PLong x, ENC_INT, PLong y => Done (x =? y)
  | _, _, _, _ => r ← compareStringObjects a b oa ob; mret (r =? 0)
  end.

Definition stringObjectLen (o : robj) : outcome Z :=
  if bool_decide (o_type o = REDIS_STRING) then
    s ← string_bytes o; mret (sdslen s)
  else Fault AssertFail.

(** [None] for the object is the NULL pointer, which reads as 0; [None] as
    the result is REDIS_ERR. *)
Definition getLongLongFromObject (o : option robj) : outcome (option Z) :=
  match o with
  | None => Done (Some 0)
  | Some o =>
    if bool_decide (o_type o = REDIS_STRING) then
      match o_encoding o, o_ptr o with
      | ENC_RAW, PSds s =>
        let '(value, rest, erange) := strtoll s in
        if match s with ch :: _ => is_space ch | [] => false end ||
           negb (bool_decide (rest = [])) || erange
        then Done None else Done (Some value)
      | ENC_INT, PLong v => Done (Some v)
      | _, _ => Fault Panic
      end
    else Fault AssertFail
  end.

Definition getLongLongFromObjectOrReply (c : client) (o : option robj) : outcome (client * option Z) :=
  r ← getLongLongFromObject o;
  match r with
  | None => mret (add_reply (RErr "value is not an integer or out of range") c, None)
  | Some v => mret (c, Some v)
  end.

(** long is 64 bits wide, so the range test of the code never fails. *)
Definition getLongFromObjectOrReply (c : client) (o : option robj) : outcome (client * option Z) :=
  r ← getLongLongFromObjectOrReply c o;
  match r with
  | (c, None) => mret (c, None)
  | (c, Some v) =>
    if (v <? INT64_MIN) || (v >? INT64_MAX)
    then mret (add_reply (RErr "value is out of range") c, None)
    else mret (c, Some v)
  end.

(** [addReplyBulk(c,obj)] *)
Definition addReplyBulk (c : client) (o : robj) : outcome client :=
  s ← string_bytes o; mret (add_reply (RBulk s) c).

End Object.
