(* ===== verification/Db.v ===== *)
(** * db.c: the keyspace API, expiry, and the type-agnostic commands

    A key argument ([robj *key]) is used only through [key->ptr]: it is passed
    as its bytes.  Commands take the client and return it with the replies
    appended. *)
From S2P Require Import Prelude CStr Intset Util Server Object.
Import Object.

Module Db.

Definition lookupKey (s : server) (i : nat) (key : sds) : option addr :=
  db_dict (get_db s i) !! key.

Definition dbExists (s : server) (i : nat) (key : sds) : bool :=
  bool_decide (is_Some (db_dict (get_db s i) !! key)).

(** dictDelete on the keyspace releases the value (dictRedisObjectDestructor). *)
Definition dbDelete (i : nat) (key : sds) : M bool :=
  _ ← upd_db i (fun d => set_db_expires (delete key (db_expires d)) d);
  r ← gets (fun s => lookupKey s i key);
  match r with
  | Some a =>
    _ ← upd_db i (fun d => set_db_dict (delete key (db_dict d)) d);
    _ ← decrRefCount a;
    mret true
  | None => mret false
  end.

(** -1 when the key has no expire. *)
Definition getExpire (i : nat) (key : sds) : M Z :=
  s ← get_st;
  match db_expires (get_db s i) !! key with
  | None => mret (-1)
  | Some t => _ ← lift (require_b AssertFail (dbExists s i key)); mret t
  end.

Definition setExpire (i : nat) (key : sds) (t : Z) : M unit :=
  s ← get_st;
  _ ← lift (require_b AssertFail (dbExists s i key));
  upd_db i (fun d => set_db_expires (<[key := t]> (db_expires d)) d).

Definition removeExpire (i : nat) (key : sds) : M bool :=
  s ← get_st;
  _ ← lift (require_b AssertFail (dbExists s i key));
  _ ← upd_db i (fun d => set_db_expires (delete key (db_expires d)) d);
  mret (bool_decide (is_Some (db_expires (get_db s i) !! key))).

Definition propagateExpire (i : nat) (key : sds) : M unit := log_event (PropagateDel key i).

Definition expireIfNeeded (i : nat) (key : sds) : M bool :=
  t ← getExpire i key;
  cf ← gets conf;
  if t <? 0 then mret false
  else if loading cf then mret false
  else
    let now := match lua_caller cf with Some st => st | None => mstime cf end in
    if masterhost cf then mret (now >? t)
    else if now <=? t then mret false
    else
      _ ← modify (fun s => set_stats (set_stat_expiredkeys (stat_expiredkeys (stats s) + 1) (stats s)) s);
      _ ← propagateExpire i key;
      _ ← log_event (Notify "expired" key i);
      dbDelete i key.

Definition lookupKeyRead (i : nat) (key : sds) : M (option addr) :=
  _ ← expireIfNeeded i key;
  val ← gets (fun s => lookupKey s i key);
  _ ← modify (fun s =>
        match val with
        | None => set_stats (set_stat_keyspace_misses (stat_keyspace_misses (stats s) + 1) (stats s)) s
        | Some _ => set_stats (set_stat_keyspace_hits (stat_keyspace_hits (stats s) + 1) (stats s)) s
        end);
  mret val.

Definition lookupKeyWrite (i : nat) (key : sds) : M (option addr) :=
  _ ← expireIfNeeded i key;
  gets (fun s => lookupKey s i key).

Definition lookupKeyReadOrReply (c : client) (key : sds) (r : reply) : M (client * option addr) :=
  o ← lookupKeyRead (cl_db c) key;
  mret (match o with None => (add_reply r c, None) | Some a => (c, Some a) end).

Definition lookupKeyWriteOrReply (c : client) (key : sds) (r : reply) : M (client * option addr) :=
  o ← lookupKeyWrite (cl_db c) key;
  mret (match o with None => (add_reply r c, None) | Some a => (c, Some a) end).

(** dictAdd fails, and the assertion aborts, when the key is present.  (A list
    value also wakes blocked clients: signalListAsReady is not modelled.) *)
Definition dbAdd (i : nat) (key : sds) (val : addr) : M unit :=
  s ← get_st;
  _ ← lift (require_b AssertFail (negb (dbExists s i key)));
  upd_db i (fun d => set_db_dict (<[key := val]> (db_dict d)) d).

(** dictReplace releases the value it replaces. *)
Definition dbOverwrite (i : nat) (key : sds) (val : addr) : M unit :=
  s ← get_st;
  match lookupKey s i key with
  | None => throw AssertFail
  | Some old =>
    _ ← upd_db i (fun d => set_db_dict (<[key := val]> (db_dict d)) d);
    decrRefCount old
  end.

(** multi.c: every client watching the key is marked REDIS_DIRTY_CAS. *)
Definition touchWatchedKey (i : nat) (key : sds) : M unit :=
  modify (fun s => match db_watched (get_db s i) !! key with
                   | None => s
                   | Some (_, cs) => set_dirty_cas (list_to_set cs ∪ dirty_cas s) s
                   end).

Definition signalModifiedKey (i : nat) (key : sds) : M unit := touchWatchedKey i key.

Definition setKey (i : nat) (key : sds) (val : addr) : M unit :=
  r ← lookupKeyWrite i key;
  _ ← (match r with None => dbAdd i key val | Some _ => dbOverwrite i key val end);
  _ ← incrRefCount val;
  _ ← removeExpire i key;
  signalModifiedKey i key.

Definition dbUnshareStringValue (i : nat) (key : sds) (a : addr) : M addr :=
  o ← deref a;
  _ ← lift (require_b AssertFail (bool_decide (o_type o = REDIS_STRING)));
  if negb (o_refcount o =? 1) || negb (bool_decide (o_encoding o = ENC_RAW)) then
    dec ← getDecodedObject a;
    od ← deref dec;
    s ← lift (sds_of od);
    a' ← createStringObject s;
    _ ← decrRefCount dec;
    _ ← dbOverwrite i key a';
    mret a'
  else mret a.

Definition selectDb (c : client) (id : Z) (s : server) : option client :=
  if (id <? 0) || (Z.of_nat (length (dbs s)) <=? id) then None
  else Some (set_cl_db (Z.to_nat id) c).

(** ** Commands *)

Definition flushdb_touch (i : nat) : M unit :=
  modify (fun s =>
    let d := get_db s i in
    set_dirty_cas (list_to_set (concat (map (snd ∘ snd) (map_to_list
      (filter (fun kv => is_Some (db_dict d !! fst kv)) (db_watched d))))) ∪ dirty_cas s) s).

Definition flushdbCommand (c : client) : M client :=
  s ← get_st;
  let d := get_db s (cl_db c) in
  _ ← incr_dirty (Z.of_nat (size (db_dict d)));
  _ ← flushdb_touch (cl_db c);
  _ ← for_each (map snd (map_to_list (db_dict d))) decrRefCount;
  _ ← upd_db (cl_db c) (fun d => set_db_expires ∅ (set_db_dict ∅ d));
  mret (add_reply ROk c).

Fixpoint del_loop (c : client) (js : list nat) (deleted : Z) : M Z :=
  match js with
  | [] => mret deleted
  | j :: r =>
    key ← arg_str c j;
    _ ← expireIfNeeded (cl_db c) key;
    b ← dbDelete (cl_db c) key;
    if (b : bool) then
      _ ← signalModifiedKey (cl_db c) key;
      _ ← log_event (Notify "del" key (cl_db c));
      _ ← incr_dirty 1;
      del_loop c r (deleted + 1)
    else del_loop c r deleted
  end.

Definition delCommand (c : client) : M client :=
  n ← del_loop c (seq 1 (Z.to_nat (cl_argc c - 1))) 0;
  mret (add_reply (RInt n) c).

Definition existsCommand (c : client) : M client :=
  key ← arg_str c 1;
  _ ← expireIfNeeded (cl_db c) key;
  b ← gets (fun s => dbExists s (cl_db c) key);
  mret (add_reply (RInt (if (b : bool) then 1 else 0)) c).

Definition selectCommand (c : client) : M client :=
  a ← lift (argv c 1);
  o ← deref a;
  r ← lift (getLongFromObjectOrReply c (Some o));
  match r with
  | (c, None) => mret c
  | (c, Some id) =>
    s ← get_st;
    match selectDb c id s with
    | None => mret (add_reply (RErr "invalid DB index") c)
    | Some c => mret (add_reply ROk c)
    end
  end.

Definition dbsizeCommand (c : client) : M client :=
  s ← get_st; mret (add_reply (RInt (Z.of_nat (size (db_dict (get_db s (cl_db c)))))) c).

Definition typeCommand (c : client) : M client :=
  key ← arg_str c 1;
  r ← lookupKeyRead (cl_db c) key;
  match r with
  | None => mret (add_reply (RStatus (str "none")) c)
  | Some a =>
    o ← deref a;
    mret (add_reply (RStatus (match o_type o with
      | REDIS_STRING => str "string" | REDIS_LIST => str "list" | REDIS_SET => str "set"
      | REDIS_ZSET => str "zset" | REDIS_HASH => str "hash" end)) c)
  end.

Definition nokeyerr : reply := RErr "no such key".
Definition sameobjecterr : reply := RErr "source and destination objects are the same".

Definition renameGenericCommand (c : client) (nx : bool) : M client :=
  src ← arg_str c 1;
  dst ← arg_str c 2;
  let i := cl_db c in
  if bool_decide (src = dst) then mret (add_reply sameobjecterr c)
  else
    r ← lookupKeyWriteOrReply c src nokeyerr;
    match r with
    | (c, None) => mret c
    | (c, Some o) =>
      _ ← incrRefCount o;
      expire ← getExpire i src;
      d ← lookupKeyWrite i dst;
      match d, nx with
      | Some _, true =>
        _ ← decrRefCount o;
        mret (add_reply (RInt 0) c)
      | _, _ =>
        _ ← (match d with Some _ => _ ← dbDelete i dst; mret tt | None => mret tt end);
        _ ← dbAdd i dst o;
        _ ← when (negb (expire =? -1)) (setExpire i dst expire);
        _ ← dbDelete i src;
        _ ← signalModifiedKey i src;
        _ ← signalModifiedKey i dst;
        _ ← log_event (Notify "rename_from" src i);
        _ ← log_event (Notify "rename_to" dst i);
        _ ← incr_dirty 1;
        mret (add_reply (if nx then RInt 1 else ROk) c)
      end
    end.

Definition renameCommand (c : client) : M client := renameGenericCommand c false.
Definition renamenxCommand (c : client) : M client := renameGenericCommand c true.

Definition moveCommand (c : client) : M client :=
  let src := cl_db c in
  a ← lift (argv c 2);
  o2 ← deref a;
  r ← lift (getLongLongFromObject (Some o2));
  s ← get_st;
  match match r with
        | None => None
        | Some dbid => if (dbid <? INT32_MIN) || (dbid >? INT32_MAX) then None else selectDb c dbid s
        end with
  | None => mret (add_reply (RErr "index out of range") c)
  | Some cd =>
    let dst := cl_db cd in
    if decide (src = dst) then mret (add_reply sameobjecterr c)
    else
      key ← arg_str c 1;
      o ← lookupKeyWrite src key;
      match o with
      | None => mret (add_reply (RInt 0) c)
      | Some o =>
        d ← lookupKeyWrite dst key;
        match d with
        | Some _ => mret (add_reply (RInt 0) c)
        | None =>
          _ ← dbAdd dst key o;
          _ ← incrRefCount o;
          _ ← dbDelete src key;
          _ ← incr_dirty 1;
          mret (add_reply (RInt 1) c)
        end
      end
  end.

Definition expireGenericCommand (c : client) (basetime : Z) (seconds : bool) : M client :=
  let i := cl_db c in
  key ← arg_str c 1;
  a ← lift (argv c 2);
  o ← deref a;
  r ← lift (getLongLongFromObjectOrReply c (Some o));
  match r with
  | (c, None) => mret c
  | (c, Some t) =>
    let t := to_s 64 ((if seconds then to_s 64 (t * 1000) else t) + basetime) in
    v ← lookupKeyRead i key;
    match v with
    | None => mret (add_reply (RInt 0) c)
    | Some _ =>
      cf ← gets conf;
      if (t <=? mstime cf) && negb (loading cf) && negb (masterhost cf) then
        b ← dbDelete i key;
        _ ← lift (require_b AssertFail b);
        _ ← incr_dirty 1;
        _ ← signalModifiedKey i key;
        _ ← log_event (Notify "del" key i);
        mret (add_reply (RInt 1) c)
      else
        _ ← setExpire i key t;
        _ ← signalModifiedKey i key;
        _ ← log_event (Notify "expire" key i);
        _ ← incr_dirty 1;
        mret (add_reply (RInt 1) c)
    end
  end.

Definition expireCommand (c : client) : M client :=
  s ← get_st; expireGenericCommand c (mstime (conf s)) true.
Definition expireatCommand (c : client) : M client := expireGenericCommand c 0 true.
Definition pexpireCommand (c : client) : M client :=
  s ← get_st; expireGenericCommand c (mstime (conf s)) false.
Definition pexpireatCommand (c : client) : M client := expireGenericCommand c 0 false.

Definition ttlGenericCommand (c : client) (output_ms : bool) : M client :=
  key ← arg_str c 1;
  r ← lookupKeyRead (cl_db c) key;
  match r with
  | None => mret (add_reply (RInt (-2)) c)
  | Some _ =>
    expire ← getExpire (cl_db c) key;
    s ← get_st;
    let ttl := if negb (expire =? -1) then Z.max 0 (expire - mstime (conf s)) else -1 in
    if ttl =? -1 then mret (add_reply (RInt (-1)) c)
    else mret (add_reply (RInt (if output_ms then ttl else Z.quot (ttl + 500) 1000)) c)
  end.

Definition ttlCommand (c : client) : M client := ttlGenericCommand c false.
Definition pttlCommand (c : client) : M client := ttlGenericCommand c true.

Definition persistCommand (c : client) : M client :=
  key ← arg_str c 1;
  s ← get_st;
  if dbExists s (cl_db c) key then
    b ← removeExpire (cl_db c) key;
    if (b : bool) then
      _ ← incr_dirty 1;
      mret (add_reply (RInt 1) c)
    else mret (add_reply (RInt 0) c)
  else mret (add_reply (RInt 0) c).

(** ** Lemmas *)

Definition valid_db (s : server) (i : nat) : Prop := (i < length (dbs s))%nat.

Lemma get_db_set s i j d :
  valid_db s i -> get_db (set_dbs (<[i := d]> (dbs s)) s) j = if decide (i = j) then d else get_db s j.
Proof.
  intros Hi. unfold get_db. cbn [dbs set_dbs]. destruct (decide (i = j)) as [->|Hne].
  - by rewrite list_lookup_insert_eq.
  - by rewrite list_lookup_insert_ne.
Qed.

(** The time that expiry compares with. *)
Definition now (s : server) : Z :=
  match lua_caller (conf s) with Some st => st | None => mstime (conf s) end.

(** The key is not due: [expireIfNeeded] does nothing. *)
Definition live (s : server) (i : nat) (key : sds) : Prop :=
  match db_expires (get_db s i) !! key with
  | None => True
  | Some t => is_Some (db_dict (get_db s i) !! key) /\
              (t < 0 \/ loading (conf s) = true \/ masterhost (conf s) = true \/ now s <= t)
  end.

Lemma getExpire_Done s i key :
  live s i key -> getExpire i key s = Done (default (-1) (db_expires (get_db s i) !! key), s).
Proof.
  unfold live, getExpire. intros H. rewrite bind_get_st.
  destruct (db_expires (get_db s i) !! key) as [t|]; [|done]. destruct H as [H _].
  unfold dbExists. rewrite bool_decide_true by done. done.
Qed.

Lemma expireIfNeeded_live s i key : live s i key -> exists b, expireIfNeeded i key s = Done (b, s).
Proof.
  intros H. unfold expireIfNeeded. rewrite (prog_bind_step _ _ _ _ _ (getExpire_Done _ _ _ H)), bind_gets.
  unfold live in H. destruct (db_expires (get_db s i) !! key) as [t|]; cbn [from_option id]; [|by exists false].
  destruct H as [_ H]. destruct (Z.ltb_spec t 0); [by exists false|].
  destruct (loading (conf s)) eqn:E1; [by exists false|]. destruct (masterhost (conf s)) eqn:E2; [by eexists|].
  fold (now s). destruct (Z.leb_spec (now s) t); [by exists false|]. exfalso. destruct_or! H; try done; lia.
Qed.

Lemma lookupKeyWrite_live s i key :
  live s i key -> lookupKeyWrite i key s = Done (lookupKey s i key, s).
Proof.
  intros H. unfold lookupKeyWrite. destruct (expireIfNeeded_live _ _ _ H) as [b Hb].
  by rewrite (prog_bind_step _ _ _ _ _ Hb).
Qed.

Lemma live_ext s s' i key :
  get_db s' i = get_db s i -> conf s' = conf s -> live s i key -> live s' i key.
Proof. unfold live, now. by intros -> ->. Qed.

Lemma lookupKey_ext s s' i key : get_db s' i = get_db s i -> lookupKey s' i key = lookupKey s i key.
Proof. unfold lookupKey. by intros ->. Qed.

(** [decrRefCount] of an object that is held elsewhere too. *)
Lemma decrRefCount_shared s a o : heap s !! a = Some o -> 1 < o_refcount o ->
  decrRefCount a s = Done (tt, set_heap (<[a := set_o_refcount (o_refcount o - 1) o]> (heap s)) s).
Proof.
  intros Ha Hr. unfold decrRefCount. cbn [decrRefCount_at]. rewrite (bind_deref _ _ _ _ Ha).
  rewrite (proj2 (Z.leb_gt _ _)), (proj2 (Z.eqb_neq _ _)) by lia. by rewrite (upd_obj_Done _ _ _ _ Ha).
Qed.

(** [decrRefCount] of the last reference to a string frees it. *)
Lemma decrRefCount_last s a o : heap s !! a = Some o -> o_refcount o = 1 -> o_type o = REDIS_STRING ->
  decrRefCount a s = Done (tt, set_heap (delete a (heap s)) s).
Proof.
  intros Ha Hr Ht. unfold decrRefCount. cbn [decrRefCount_at]. rewrite (bind_deref _ _ _ _ Ha), Hr, Ht.
  cbn [Z.leb Z.eqb Z.compare Pos.eqb]. unfold freeStringObject. rewrite bind_lift. cbn [for_each].
  rewrite bind_mret. by apply zfree_Done with o.
Qed.

Lemma touchWatchedKey_frame i key s :
  exists s', touchWatchedKey i key s = Done (tt, s') /\ heap s' = heap s /\ next_addr s' = next_addr s /\
    dbs s' = dbs s /\ conf s' = conf s /\ kv s' = kv s /\ stats s' = stats s /\ dirty s' = dirty s.
Proof.
  unfold touchWatchedKey, modify. eexists. split; [reflexivity|].
  destruct (db_watched (get_db s i) !! key) as [[? ?]|]; done.
Qed.


(** The operations on the keyspace as updates of the database. *)
Definition put_db (i : nat) (d : redisDb) (s : server) : server := set_dbs (<[i := d]> (dbs s)) s.

Lemma put_db_twice i d d' s : put_db i d' (put_db i d s) = put_db i d' s.
Proof. unfold put_db. cbn [dbs set_dbs]. by rewrite list_insert_insert_eq. Qed.

Lemma get_db_put s i j d : valid_db s i -> get_db (put_db i d s) j = if decide (i = j) then d else get_db s j.
Proof. apply get_db_set. Qed.

Lemma get_db_put_eq s i d : valid_db s i -> get_db (put_db i d s) i = d.
Proof. intros H. rewrite get_db_put by done. by rewrite decide_True. Qed.

Lemma valid_put s i j d : valid_db s i -> valid_db (put_db j d s) i.
Proof. unfold valid_db. cbn. by rewrite length_insert. Qed.

Definition add_key (key : sds) (a : addr) (d : redisDb) : redisDb := set_db_dict (<[key := a]> (db_dict d)) d.
Definition del_key (key : sds) (d : redisDb) : redisDb :=
  set_db_dict (delete key (db_dict d)) (set_db_expires (delete key (db_expires d)) d).
Definition put_expire (key : sds) (t : Z) (d : redisDb) : redisDb :=
  set_db_expires (<[key := t]> (db_expires d)) d.

Lemma dbExists_lookup s i key : dbExists s i key = bool_decide (is_Some (lookupKey s i key)).
Proof. done. Qed.

Lemma dbAdd_Done s i key a : lookupKey s i key = None ->
  dbAdd i key a s = Done (tt, put_db i (add_key key a (get_db s i)) s).
Proof.
  intros H. unfold dbAdd. rewrite bind_get_st, dbExists_lookup, H. cbn [negb]. rewrite bool_decide_false by (by intros [? ?]).
  done.
Qed.

Lemma setExpire_Done s i key t : is_Some (lookupKey s i key) ->
  setExpire i key t s = Done (tt, put_db i (put_expire key t (get_db s i)) s).
Proof. intros H. unfold setExpire. rewrite bind_get_st, dbExists_lookup, bool_decide_true by done. done. Qed.

Lemma bind_upd_db {B} i g (f : unit -> M B) s :
  (upd_db i g ≫= f) s = f tt (put_db i (g (get_db s i)) s).
Proof. done. Qed.

Lemma dbDelete_found s i key a : valid_db s i -> lookupKey s i key = Some a ->
  dbDelete i key s = (decrRefCount a ≫= fun _ => mret true) (put_db i (del_key key (get_db s i)) s).
Proof.
  intros Hv H. unfold dbDelete. rewrite bind_upd_db, bind_gets. unfold lookupKey in *.
  rewrite get_db_put_eq by done. cbn [db_dict set_db_expires].
  by rewrite H, bind_upd_db, get_db_put_eq, put_db_twice by done.
Qed.

(** ** RENAME *)
Definition rename_db (src dst : sds) (a : addr) (d : redisDb) : redisDb :=
  let e := default (-1) (db_expires d !! src) in
  del_key src (if e =? -1 then add_key dst a d else put_expire dst e (add_key dst a d)).

(** What a rename from [src] to [dst] of the value at [a] leaves. *)
Record renamed (i : nat) (src dst : sds) (a : addr) (s s' : server) : Prop := {
  rn_heap : heap s' = heap s;
  rn_next : next_addr s' = next_addr s;
  rn_dbs : dbs s' = <[i := rename_db src dst a (get_db s i)]> (dbs s);
  rn_conf : conf s' = conf s;
  rn_kv : kv s' = kv s;
  rn_stats : stats s' = stats s
}.

Lemma finish_rename i src dst (r : client) s :
  exists s', (_ ← signalModifiedKey i src; _ ← signalModifiedKey i dst;
              _ ← log_event (Notify "rename_from" src i); _ ← log_event (Notify "rename_to" dst i);
              _ ← incr_dirty 1; mret r) s = Done (r, s') /\
    heap s' = heap s /\ next_addr s' = next_addr s /\ dbs s' = dbs s /\ conf s' = conf s /\
    kv s' = kv s /\ stats s' = stats s.
Proof.
  unfold signalModifiedKey.
  destruct (touchWatchedKey_frame i src s) as (s1 & E1 & A1 & A2 & A3 & A4 & A5 & A6 & _).
  destruct (touchWatchedKey_frame i dst s1) as (s2 & E2 & B1 & B2 & B3 & B4 & B5 & B6 & _).
  rewrite (prog_bind_step _ _ _ _ _ E1), (prog_bind_step _ _ _ _ _ E2). unfold log_event, incr_dirty. run.
  eexists. split; [reflexivity|]. cbn. split_and!; congruence.
Qed.


Lemma put_expire_step i dst a e s : valid_db s i ->
  when (negb (e =? -1)) (setExpire i dst e) (put_db i (add_key dst a (get_db s i)) s) =
  Done (tt, put_db i (if e =? -1 then add_key dst a (get_db s i)
                      else put_expire dst e (add_key dst a (get_db s i))) s).
Proof.
  intros Hv. destruct (e =? -1); cbn [negb when]; [done|].
  rewrite setExpire_Done; unfold lookupKey; rewrite get_db_put_eq by done.
  - by rewrite put_db_twice.
  - cbn. rewrite lookup_insert_eq. eauto.
Qed.

(** Adding the new name, copying the expire and deleting the old name. *)
Lemma move_entry {B} i src dst a o s (f : M B) :
  let e := default (-1) (db_expires (get_db s i) !! src) in
  valid_db s i -> src <> dst -> lookupKey s i src = Some a -> lookupKey s i dst = None ->
  heap s !! a = Some o -> 1 < o_refcount o ->
  (_ ← dbAdd i dst a; _ ← when (negb (e =? -1)) (setExpire i dst e); _ ← dbDelete i src; f) s =
  f (set_heap (<[a := set_o_refcount (o_refcount o - 1) o]> (heap s)) (put_db i (rename_db src dst a (get_db s i)) s)).
Proof.
  intros e Hv Hne Hsrc Hdst Ha Hr.
  rewrite (prog_bind_step _ _ _ _ _ (dbAdd_Done _ _ _ a Hdst)), (prog_bind_step _ _ _ _ _ (put_expire_step i dst a e s Hv)).
  set (d := if e =? -1 then _ else _).
  assert (Hs : lookupKey (put_db i d s) i src = Some a).
  { unfold lookupKey. rewrite get_db_put_eq by done. subst d. destruct (e =? -1); cbn; by rewrite lookup_insert_ne. }
  pose proof (dbDelete_found _ _ _ _ (valid_put s i i d Hv) Hs) as Hd.
  rewrite get_db_put_eq, put_db_twice in Hd by done.
  rewrite (prog_bind_step _ _ _ _ _ (decrRefCount_shared (put_db _ _ _) _ _ Ha Hr)) in Hd.
  by rewrite (prog_bind_step _ _ _ _ _ Hd).
Qed.

Lemma set_refcount_back o :
  o = set_o_refcount (o_refcount (set_o_refcount (o_refcount o + 1) o) - 1) (set_o_refcount (o_refcount o + 1) o).
Proof. destruct o as [t e r v p]. unfold set_o_refcount. cbn [o_type o_encoding o_refcount o_vers o_ptr]. f_equal. lia. Qed.

Lemma rename_ok c src dst a o s :
  str_arg s c 1 src -> str_arg s c 2 dst -> src <> dst -> valid_db s (cl_db c) ->
  lookupKey s (cl_db c) src = Some a -> heap s !! a = Some o -> 1 <= o_refcount o ->
  lookupKey s (cl_db c) dst = None -> live s (cl_db c) src -> live s (cl_db c) dst ->
  exists s', renameCommand c s = Done (add_reply ROk c, s') /\ renamed (cl_db c) src dst a s s'.
Proof.
  intros H1 H2 Hne Hv Hsrc Ha Hr Hdst L1 L2. unfold renameCommand, renameGenericCommand.
  rewrite (bind_arg_str _ _ _ _ _ H1), (bind_arg_str _ _ _ _ _ H2), bool_decide_false by done.
  unfold lookupKeyWriteOrReply. rewrite bind_assoc, (prog_bind_step _ _ _ _ _ (lookupKeyWrite_live _ _ _ L1)), Hsrc.
  rewrite bind_mret. unfold incrRefCount. rewrite (bind_upd_obj _ _ _ _ _ Ha).
  set (o' := set_o_refcount _ o). set (s1 := set_heap _ s).
  assert (L1' : live s1 (cl_db c) src) by done. assert (L2' : live s1 (cl_db c) dst) by done.
  rewrite (prog_bind_step _ _ _ _ _ (getExpire_Done _ _ _ L1')), (prog_bind_step _ _ _ _ _ (lookupKeyWrite_live _ _ _ L2')).
  assert (Hd1 : lookupKey s1 (cl_db c) dst = None) by done. rewrite Hd1, bind_mret.
  rewrite (move_entry (cl_db c) src dst a o' s1); [|try done..].
  2:{ subst s1. cbn. apply lookup_insert_eq. } 2:{ subst o'. cbn. lia. }
  destruct (finish_rename (cl_db c) src dst (add_reply ROk c)
    (set_heap (<[a := set_o_refcount (o_refcount o' - 1) o']> (heap s1))
       (put_db (cl_db c) (rename_db src dst a (get_db s1 (cl_db c))) s1))) as (s' & E & A1 & A2 & A3 & A4 & A5 & A6).
  exists s'. split; [exact E|]. split; try done. rewrite A1. subst s1 o'. cbn.
  rewrite insert_insert_eq. rewrite insert_id; [done|]. rewrite Ha. f_equal. apply set_refcount_back.
Qed.


Lemma renamed_get_db i src dst a s s' j : renamed i src dst a s s' -> valid_db s i ->
  get_db s' j = if decide (i = j) then rename_db src dst a (get_db s i) else get_db s j.
Proof. intros [_ _ H _ _ _] Hv. unfold get_db at 1. rewrite H. by apply (get_db_put s i j). Qed.

Lemma lookup_rename_db s s' i src dst a k : get_db s' i = rename_db src dst a (get_db s i) -> src <> dst ->
  lookupKey s' i k = if decide (k = dst) then Some a else if decide (k = src) then None else lookupKey s i k.
Proof.
  intros H Hne. unfold lookupKey. rewrite H.
  assert (db_dict (rename_db src dst a (get_db s i)) = delete src (<[dst := a]> (db_dict (get_db s i)))) as ->
    by (unfold rename_db; by destruct (_ =? -1)).
  destruct (decide (k = dst)) as [->|Hd]; [by rewrite lookup_delete_ne, lookup_insert_eq|].
  destruct (decide (k = src)) as [->|Hs]; [by rewrite lookup_delete_eq|]. by rewrite lookup_delete_ne, lookup_insert_ne.
Qed.

Lemma renamed_lookup i src dst a s s' k : renamed i src dst a s s' -> valid_db s i -> src <> dst ->
  lookupKey s' i k = if decide (k = dst) then Some a else if decide (k = src) then None else lookupKey s i k.
Proof.
  intros H Hv Hne. apply lookup_rename_db; [|done]. by rewrite (renamed_get_db _ _ _ _ _ _ _ H Hv), decide_True.
Qed.

(** Only the two names change their expire times. *)
Lemma rename_db_expires src dst a d k : k <> dst ->
  db_expires (rename_db src dst a d) !! k = if decide (k = src) then None else db_expires d !! k.
Proof.
  intros Hd. unfold rename_db. destruct (decide (k = src)) as [->|Hs]; destruct (_ =? -1); cbn.
  1-2: apply lookup_delete_eq.
  all: by rewrite lookup_delete_ne, ?lookup_insert_ne.
Qed.

(** A name that was free gets the expire time of the old name. *)
Lemma rename_db_expire src dst a s i : src <> dst -> lookupKey s i dst = None -> live s i dst ->
  db_expires (get_db s i) !! src <> Some (-1) ->
  db_expires (rename_db src dst a (get_db s i)) !! dst = db_expires (get_db s i) !! src.
Proof.
  intros Hne Hl HL He. unfold live, lookupKey in *. rewrite Hl in HL. unfold rename_db.
  destruct (db_expires (get_db s i) !! src) as [t|] eqn:E; cbn [from_option id].
  - rewrite (proj2 (Z.eqb_neq _ _)) by congruence. cbn. by rewrite lookup_delete_ne, lookup_insert_eq.
  - cbn. rewrite lookup_delete_ne by done. destruct (db_expires (get_db s i) !! dst); [|done]. by destruct HL as [[? ?] _].
Qed.

(** The new name is as live as the old one was. *)
Lemma live_moved i src dst a s s' :
  valid_db s i -> src <> dst -> lookupKey s i dst = None -> live s i src -> live s i dst ->
  dbs s' = <[i := rename_db src dst a (get_db s i)]> (dbs s) -> conf s' = conf s ->
  live s' i dst /\ lookupKey s' i dst = Some a.
Proof.
  intros Hv Hne Hdst L1 L2 Hdbs Hc. assert (get_db s' i = rename_db src dst a (get_db s i)) as Hg.
  { unfold get_db at 1. rewrite Hdbs. by apply (get_db_put_eq s i). }
  assert (lookupKey s' i dst = Some a) as Hl.
  { unfold lookupKey. rewrite Hg. unfold rename_db. destruct (_ =? -1); cbn; by rewrite lookup_delete_ne, lookup_insert_eq. }
  split; [|done]. unfold live, now. unfold lookupKey in Hl. rewrite Hl, Hg, Hc.
  assert (db_expires (get_db s i) !! dst = None) as Hx.
  { unfold live in L2. destruct (db_expires (get_db s i) !! dst); [|done]. destruct L2 as [[? L2] _].
    unfold lookupKey in Hdst. congruence. }
  unfold rename_db, live in *. destruct (db_expires (get_db s i) !! src) as [t|]; cbn [from_option id].
  - destruct (t =? -1); cbn; rewrite lookup_delete_ne by done; [by rewrite Hx|]. rewrite lookup_insert_eq.
    destruct L1 as [_ L1]. eauto.
  - cbn. by rewrite lookup_delete_ne, Hx.
Qed.

Lemma str_arg_heap s s' c i x : (forall a o, heap s !! a = Some o -> heap s' !! a = Some o) ->
  str_arg s c i x -> str_arg s' c i x.
Proof. intros Hh (a & o & H1 & H2 & H3). exists a, o. eauto. Qed.

(** ** Storing a value *)

(** The value under [key], if any, is a string that nothing else refers to,
    and not one of the objects [bs]. *)
Definition sole_string (s : server) (i : nat) (key : sds) (bs : list addr) : Prop :=
  forall a, lookupKey s i key = Some a ->
    exists o, heap s !! a = Some o /\ o_type o = REDIS_STRING /\ o_refcount o = 1 /\ a ∉ bs.

Lemma del_key_absent key d :
  db_dict d !! key = None -> del_key key d = set_db_expires (delete key (db_expires d)) d.
Proof. intros H. unfold del_key, set_db_dict. cbn. by rewrite delete_id. Qed.

(** Deleting such a key frees its value and touches nothing else. *)
Lemma dbDelete_sole s i key bs : valid_db s i -> sole_string s i key bs ->
  exists b s', dbDelete i key s = Done (b, s') /\
    (forall x, x ∈ bs -> heap s' !! x = heap s !! x) /\
    (forall x o, heap s' !! x = Some o -> heap s !! x = Some o) /\
    dbs s' = <[i := del_key key (get_db s i)]> (dbs s) /\ conf s' = conf s /\ kv s' = kv s /\ stats s' = stats s.
Proof.
  intros Hv Hs. destruct (lookupKey s i key) as [a|] eqn:Hl.
  - destruct (Hs a Hl) as (o & Ha & Ht & Hr & Hb). rewrite (dbDelete_found _ _ _ _ Hv Hl).
    rewrite (prog_bind_step _ _ _ _ _ (decrRefCount_last (put_db _ _ _) _ _ Ha Hr Ht)).
    eexists true, _. split; [reflexivity|]. cbn. split_and!; try done.
    + intros x Hx. rewrite lookup_delete_ne; [done|]. by intros ->.
    + intros x o'. rewrite lookup_delete_Some. by intros [_ ?].
  - unfold dbDelete. rewrite bind_upd_db, bind_gets. unfold lookupKey in *. rewrite get_db_put_eq by done.
    cbn [db_dict set_db_expires]. rewrite Hl. eexists false, _. split; [reflexivity|]. split_and!; try done.
    by rewrite del_key_absent.
Qed.

(** What setKey leaves: the key has the value, retained, and no expire. *)
Record stored (i : nat) (key : sds) (b : addr) (ob : robj) (s s' : server) : Prop := {
  st_val : heap s' !! b = Some (set_o_refcount (o_refcount ob + 1) ob);
  st_heap : forall x o, x <> b -> heap s' !! x = Some o -> heap s !! x = Some o;
  st_dbs : dbs s' = <[i := set_db_expires (delete key (db_expires (get_db s i)))
                             (add_key key b (get_db s i))]> (dbs s);
  st_conf : conf s' = conf s;
  st_kv : kv s' = kv s
}.

Lemma setKey_tail s i key b ob : valid_db s i -> heap s !! b = Some ob -> is_Some (lookupKey s i key) ->
  exists s', (_ ← incrRefCount b; _ ← removeExpire i key; signalModifiedKey i key) s = Done (tt, s') /\
    heap s' = <[b := set_o_refcount (o_refcount ob + 1) ob]> (heap s) /\
    dbs s' = <[i := set_db_expires (delete key (db_expires (get_db s i))) (get_db s i)]> (dbs s) /\
    conf s' = conf s /\ kv s' = kv s.
Proof.
  intros Hv Hb Hl. unfold incrRefCount. rewrite (bind_upd_obj _ _ _ _ _ Hb). unfold removeExpire.
  rewrite !bind_assoc, bind_get_st, !bind_assoc. rewrite dbExists_lookup, (bool_decide_true (is_Some (lookupKey _ i key))) by exact Hl.
  cbn [require_b]. rewrite bind_lift, bind_assoc, bind_upd_db, bind_mret. unfold signalModifiedKey.
  match goal with |- context [touchWatchedKey _ _ ?st] =>
    destruct (touchWatchedKey_frame i key st) as (s2 & E & A1 & A2 & A3 & A4 & A5 & A6 & _) end.
  exists s2. split; [exact E|]. rewrite A1, A3, A4, A5. done.
Qed.

Lemma setKey_ok s i key b ob : valid_db s i -> live s i key -> heap s !! b = Some ob ->
  sole_string s i key [b] -> exists s', setKey i key b s = Done (tt, s') /\ stored i key b ob s s'.
Proof.
  intros Hv HL Hb Hs. unfold setKey. rewrite (prog_bind_step _ _ _ _ _ (lookupKeyWrite_live _ _ _ HL)).
  assert (H : exists s1, (match lookupKey s i key with None => dbAdd i key b | Some _ => dbOverwrite i key b end) s
      = Done (tt, s1) /\ heap s1 !! b = Some ob /\ (forall x o, heap s1 !! x = Some o -> heap s !! x = Some o) /\
      dbs s1 = <[i := add_key key b (get_db s i)]> (dbs s) /\ conf s1 = conf s /\ kv s1 = kv s).
  { destruct (lookupKey s i key) as [a|] eqn:Hl.
    - destruct (Hs a Hl) as (o & Ha & Ht & Hr & Hab). unfold dbOverwrite. rewrite bind_get_st, Hl, bind_upd_db.
      rewrite (decrRefCount_last (put_db _ _ _) _ _ Ha Hr Ht). eexists. split; [reflexivity|]. cbn. split_and!; try done.
      + rewrite lookup_delete_ne; [done|]. set_solver.
      + intros x o'. rewrite lookup_delete_Some. by intros [_ ?].
    - rewrite dbAdd_Done by done. eexists. split; [reflexivity|]. done. }
  destruct H as (s1 & E1 & Hb1 & Hh1 & Hd1 & Hc1 & Hk1). rewrite (prog_bind_step _ _ _ _ _ E1).
  assert (Hg : get_db s1 i = add_key key b (get_db s i)) by (unfold get_db at 1; rewrite Hd1; by apply (get_db_put_eq s i)).
  destruct (setKey_tail s1 i key b ob) as (s2 & E2 & A1 & A2 & A3 & A4); [|done| |].
  { unfold valid_db. rewrite Hd1, length_insert. done. }
  { unfold lookupKey. rewrite Hg. cbn. rewrite lookup_insert_eq. eauto. }
  exists s2. split; [exact E2|]. split; [| | |congruence|congruence].
  - rewrite A1. apply lookup_insert_eq.
  - intros x o Hx Ho. rewrite A1, lookup_insert_ne in Ho by done. eauto.
  - rewrite A2, Hd1, Hg, list_insert_insert_eq. done.
Qed.

(** C32: RENAME of an existing key that is not due to expire, to a name that
    is not in use: the reply is OK, the new name has the value object itself
    (with its version and its references as before) and the expire time, the
    old name and its expire time are gone, and no other key, expire time,
    database or object changes. *)
Theorem rename_correct (c : client) (src dst : sds) (a : positive) (o : robj) (s : server) :
  let i := cl_db c in
  str_arg s c 1 src -> str_arg s c 2 dst -> src <> dst -> valid_db s i ->
  lookupKey s i src = Some a -> heap s !! a = Some o -> 1 <= o_refcount o ->
  lookupKey s i dst = None -> live s i src -> live s i dst ->
  exists s', renameCommand c s = Done (add_reply ROk c, s') /\
    heap s' = heap s /\ (forall j, j <> i -> get_db s' j = get_db s j) /\
    (forall k, lookupKey s' i k =
       if decide (k = dst) then Some a else if decide (k = src) then None else lookupKey s i k) /\
    (forall t, t <> -1 -> db_expires (get_db s i) !! src = Some t ->
       db_expires (get_db s' i) !! dst = Some t) /\
    (forall k, k <> dst -> db_expires (get_db s' i) !! k = if decide (k = src) then None else db_expires (get_db s i) !! k).
Proof.
  intros i H1 H2 Hne Hv Hsrc Ha Hr Hdst L1 L2.
  destruct (rename_ok c src dst a o s H1 H2 Hne Hv Hsrc Ha Hr Hdst L1 L2) as (s' & E & H). fold i in H.
  exists s'. split; [done|]. split; [apply H|]. split_and!.
  - intros j Hj. rewrite (renamed_get_db _ _ _ _ _ _ _ H Hv). by rewrite decide_False.
  - intros k. by apply renamed_lookup.
  - intros t Ht He. rewrite (renamed_get_db _ _ _ _ _ _ _ H Hv), decide_True by done.
    unfold rename_db. rewrite He. cbn [from_option id]. rewrite (proj2 (Z.eqb_neq _ _)) by done.
    cbn. by rewrite lookup_delete_ne, lookup_insert_eq.
  - intros k Hk. rewrite (renamed_get_db _ _ _ _ _ _ _ H Hv), decide_True by done. by apply rename_db_expires.
Qed.

Definition rename_server : server :=
  put_key 0 "k1" 13 (put_obj 13 (str_obj "v" 5)
    (put_obj 12 (str_obj "k2" 0) (put_obj 11 (str_obj "k1" 0) server0))).

Lemma rename_correct_witness :
  exists s', renameCommand (client_of 0 [10; 11; 12]%positive) rename_server
    = Done (add_reply ROk (client_of 0 [10; 11; 12]%positive), s').
Proof.
  destruct (rename_correct (client_of 0 [10; 11; 12]%positive) (str "k1") (str "k2") 13%positive (str_obj "v" 5)
    rename_server) as (s' & H & _).
  - exists 11%positive, (str_obj "k1" 0). vm_compute. repeat split.
  - exists 12%positive, (str_obj "k2" 0). vm_compute. repeat split.
  - discriminate.
  - vm_compute. lia.
  - vm_compute. reflexivity.
  - vm_compute. reflexivity.
  - vm_compute. discriminate.
  - vm_compute. reflexivity.
  - vm_compute. exact I.
  - vm_compute. exact I.
  - exists s'. exact H.
Defined.


End Db.
