(* ===== verification/TString.v ===== *)
(** * t_string.c: the string commands *)
From S2P Require Import Prelude CStr Intset Util Server Object Db.
Import Object Db.

Module TString.

Definition checkStringLength (c : client) (size : Z) : client * bool :=
  if size >? 512 * 1024 * 1024
  then (add_reply (RErr "string exceeds maximum allowed size (512MB)") c, false) else (c, true).

(** The two-letter options of SET: [a[0]], [a[1]] in either case and
    [a[2] == '\0']; [l] is the first letter, in lower case. *)
Definition opt_is (l : ascii) (a : sds) : bool :=
  match a with
  | x :: y :: r => Ascii.eqb (tolower x) l && Ascii.eqb (tolower y) "x" && Ascii.eqb (Util.hd0 r) NUL
  | _ => false
  end.

Record set_opts := mkOpts {
  opt_nx : bool;
  opt_xx : bool;
  opt_expire : option addr;
  opt_seconds : bool
}.

(** The option loop of [setCommand]; [None] is the syntax error. *)
Fixpoint set_options (c : client) (fuel : nat) (j : nat) (o : set_opts) : M (option set_opts) :=
  match fuel with
  | O => mret (Some o)
  | S fuel' =>
    if Z.of_nat j <? cl_argc c then
      a ← arg_str c j;
      next ← (if Z.of_nat j =? cl_argc c - 1 then mret None
              else n ← lift (argv c (S j)); mret (Some n));
      if opt_is "n" a then
        set_options c fuel' (S j) (mkOpts true (opt_xx o) (opt_expire o) (opt_seconds o))
      else if opt_is "x" a then
        set_options c fuel' (S j) (mkOpts (opt_nx o) true (opt_expire o) (opt_seconds o))
      else
        match next with
        | Some n =>
          if opt_is "e" a then
            set_options c fuel' (S (S j)) (mkOpts (opt_nx o) (opt_xx o) (Some n) true)
          else if opt_is "p" a then
            set_options c fuel' (S (S j)) (mkOpts (opt_nx o) (opt_xx o) (Some n) false)
          else mret None
        | None => mret None
        end
    else mret (Some o)
  end.

Definition no_opts : set_opts := mkOpts false false None true.

Definition setGenericCommand (c : client) (o : set_opts) (key : sds) (val : addr)
    (ok_reply abort_reply : option reply) : M client :=
  let i := cl_db c in
  r ← (match opt_expire o with
       | None => mret (c, Some 0)
       | Some e =>
         oe ← deref e;
         r ← lift (getLongLongFromObjectOrReply c (Some oe));
         match r with
         | (c, None) => mret (c, None)
         | (c, Some ms) =>
           if ms <=? 0 then mret (add_reply (RErr "invalid expire time") c, None)
           else mret (c, Some (if opt_seconds o then to_s 64 (ms * 1000) else ms))
         end
       end);
  match r with
  | (c, None) => mret c
  | (c, Some milliseconds) =>
    nxfail ← (if opt_nx o then v ← lookupKeyWrite i key; mret (bool_decide (is_Some v)) else mret false);
    fail ← (if (nxfail : bool) then mret true
            else if opt_xx o then v ← lookupKeyWrite i key; mret (bool_decide (v = None)) else mret false);
    if (fail : bool) then mret (add_reply (default RNull abort_reply) c)
    else
      _ ← setKey i key val;
      _ ← incr_dirty 1;
      s ← get_st;
      _ ← (match opt_expire o with
           | Some _ => setExpire i key (to_s 64 (mstime (conf s) + milliseconds))
           | None => mret tt end);
      _ ← log_event (Notify "set" key i);
      _ ← (match opt_expire o with Some _ => log_event (Notify "expire" key i) | None => mret tt end);
      mret (add_reply (default ROk ok_reply) c)
  end.

(** [c->argv[j] = tryObjectEncoding(c->argv[j])] *)
Definition encode_arg (c : client) (j : nat) : M (client * addr) :=
  a ← lift (argv c j);
  a' ← tryObjectEncoding a;
  c' ← lift (put_argv j a' c);
  mret (c', a').

Definition setCommand (c : client) : M client :=
  r ← set_options c (Z.to_nat (cl_argc c)) 3 no_opts;
  match r with
  | None => mret (add_reply (RErr "syntax error") c)
  | Some o =>
    p ← encode_arg c 2;
    key ← arg_str (fst p) 1;
    setGenericCommand (fst p) o key (snd p) None None
  end.

Definition setnxCommand (c : client) : M client :=
  p ← encode_arg c 2;
  key ← arg_str (fst p) 1;
  setGenericCommand (fst p) (mkOpts true false None true) key (snd p) (Some (RInt 1)) (Some (RInt 0)).

Definition setexCommand (c : client) : M client :=
  p ← encode_arg c 3;
  key ← arg_str (fst p) 1;
  e ← lift (argv (fst p) 2);
  setGenericCommand (fst p) (mkOpts false false (Some e) true) key (snd p) None None.

Definition psetexCommand (c : client) : M client :=
  p ← encode_arg c 3;
  key ← arg_str (fst p) 1;
  e ← lift (argv (fst p) 2);
  setGenericCommand (fst p) (mkOpts false false (Some e) false) key (snd p) None None.

(** The flag is [REDIS_OK]. *)
Definition getGenericCommand (c : client) : M (client * bool) :=
  key ← arg_str c 1;
  r ← lookupKeyReadOrReply c key RNull;
  match r with
  | (c, None) => mret (c, true)
  | (c, Some a) =>
    o ← deref a;
    if negb (bool_decide (o_type o = REDIS_STRING)) then mret (add_reply wrongtypeerr c, false)
    else c ← lift (addReplyBulk c o); mret (c, true)
  end.

Definition getCommand (c : client) : M client := r ← getGenericCommand c; mret (fst r).

Definition getsetCommand (c : client) : M client :=
  r ← getGenericCommand c;
  let '(c, ok) := r in
  if negb ok then mret c
  else
    p ← encode_arg c 2;
    let c := fst p in
    key ← arg_str c 1;
    _ ← setKey (cl_db c) key (snd p);
    _ ← log_event (Notify "set" key (cl_db c));
    _ ← incr_dirty 1;
    mret c.

(** [sdsgrowzero(s,len)], and [memcpy(s+offset,value,len)]. *)
Definition sdsgrowzero (s : sds) (len : nat) : sds := s ++ replicate (len - length s) NUL.
Definition sdsblit (s : sds) (off : nat) (v : sds) : sds := take off s ++ v ++ drop (off + length v) s.

Definition setrange_write (c : client) (key : sds) (a : addr) (offset : Z) (value : sds) : M client :=
  o ← deref a;
  s ← lift (sds_of o);
  let s' := if sdslen value >? 0
            then sdsblit (sdsgrowzero s (Z.to_nat (offset + sdslen value))) (Z.to_nat offset) value else s in
  _ ← (if sdslen value >? 0 then
         _ ← upd_obj a (set_o_ptr (PSds s'));
         _ ← signalModifiedKey (cl_db c) key;
         _ ← log_event (Notify "setrange" key (cl_db c));
         incr_dirty 1
       else mret tt);
  mret (add_reply (RInt (sdslen s')) c).

Definition setrangeCommand (c : client) : M client :=
  let i := cl_db c in
  value ← arg_str c 3;
  a2 ← lift (argv c 2);
  o2 ← deref a2;
  r ← lift (getLongFromObjectOrReply c (Some o2));
  match r with
  | (c, None) => mret c
  | (c, Some offset) =>
    if offset <? 0 then mret (add_reply (RErr "offset is out of range") c)
    else
      key ← arg_str c 1;
      v ← lookupKeyWrite i key;
      match v with
      | None =>
        if sdslen value =? 0 then mret (add_reply (RInt 0) c)
        else
          let '(c, ok) := checkStringLength c (offset + sdslen value) in
          if negb ok then mret c
          else
            a ← createObject REDIS_STRING (PSds []);
            _ ← dbAdd i key a;
            setrange_write c key a offset value
      | Some a =>
        o ← deref a;
        let '(c, bad) := checkType c o REDIS_STRING in
        if (bad : bool) then mret c
        else
          olen ← lift (stringObjectLen o);
          if sdslen value =? 0 then mret (add_reply (RInt olen) c)
          else
            let '(c, ok) := checkStringLength c (offset + sdslen value) in
            if negb ok then mret c
            else
              a' ← dbUnshareStringValue i key a;
              setrange_write c key a' offset value
      end
  end.

(** The clamping of the two indices, [strlen] being unsigned: [None] when
    nothing is returned. *)
Definition range_bounds (start en len : Z) : option (Z * Z) :=
  let start := if start <? 0 then len + start else start in
  let en := if en <? 0 then len + en else en in
  let start := if start <? 0 then 0 else start in
  let en := if en <? 0 then 0 else en in
  let en := if en >=? len then len - 1 else en in
  if (start >? en) || (len =? 0) then None else Some (start, en).

Definition getrangeCommand (c : client) : M client :=
  a2 ← lift (argv c 2);
  o2 ← deref a2;
  r ← lift (getLongLongFromObjectOrReply c (Some o2));
  match r with
  | (c, None) => mret c
  | (c, Some start) =>
    a3 ← lift (argv c 3);
    o3 ← deref a3;
    r ← lift (getLongLongFromObjectOrReply c (Some o3));
    match r with
    | (c, None) => mret c
    | (c, Some en) =>
      key ← arg_str c 1;
      r ← lookupKeyReadOrReply c key (RBulk []);
      match r with
      | (c, None) => mret c
      | (c, Some a) =>
        o ← deref a;
        let '(c, bad) := checkType c o REDIS_STRING in
        if (bad : bool) then mret c
        else
          s ← lift (string_bytes o);
          match range_bounds start en (sdslen s) with
          | None => mret (add_reply (RBulk []) c)
          | Some (b, e) => mret (add_reply (RBulk (take (Z.to_nat (e - b + 1)) (drop (Z.to_nat b) s))) c)
          end
      end
    end
  end.

Fixpoint mget_loop (c : client) (js : list nat) : M client :=
  match js with
  | [] => mret c
  | j :: r =>
    key ← arg_str c j;
    v ← lookupKeyRead (cl_db c) key;
    match v with
    | None => mget_loop (add_reply RNull c) r
    | Some a =>
      o ← deref a;
      if bool_decide (o_type o = REDIS_STRING)
      then c ← lift (addReplyBulk c o); mget_loop c r
      else mget_loop (add_reply RNull c) r
    end
  end.

Definition mgetCommand (c : client) : M client :=
  mget_loop (add_reply (RMultiLen (cl_argc c - 1)) c) (seq 1 (Z.to_nat (cl_argc c - 1))).

(** The keys of MSET are at 1, 3, 5, ... *)
Definition mset_keys (c : client) : list nat :=
  map (fun k => (2 * k + 1)%nat) (seq 0 (Z.to_nat ((cl_argc c - 1) / 2))).

Fixpoint mset_busy (c : client) (js : list nat) (n : Z) : M Z :=
  match js with
  | [] => mret n
  | j :: r =>
    key ← arg_str c j;
    v ← lookupKeyWrite (cl_db c) key;
    mset_busy c r (match v with Some _ => n + 1 | None => n end)
  end.

Fixpoint mset_loop (c : client) (js : list nat) : M client :=
  match js with
  | [] => mret c
  | j :: r =>
    p ← encode_arg c (S j);
    key ← arg_str (fst p) j;
    _ ← setKey (cl_db c) key (snd p);
    _ ← log_event (Notify "set" key (cl_db c));
    mset_loop (fst p) r
  end.

Definition msetGenericCommand (c : client) (nx : bool) : M client :=
  if Z.even (cl_argc c) then mret (add_reply (RErr "wrong number of arguments for MSET") c)
  else
    busy ← (if nx then mset_busy c (mset_keys c) 0 else mret 0);
    if negb (busy =? 0) then mret (add_reply (RInt 0) c)
    else
      c' ← mset_loop c (mset_keys c);
      _ ← incr_dirty ((cl_argc c - 1) / 2);
      mret (add_reply (if nx then RInt 1 else ROk) c').

Definition msetCommand (c : client) : M client := msetGenericCommand c false.
Definition msetnxCommand (c : client) : M client := msetGenericCommand c true.

Definition incr_overflows (incr oldvalue : Z) : bool :=
  ((incr <? 0) && (oldvalue <? 0) && (incr <? INT64_MIN - oldvalue)) ||
  ((incr >? 0) && (oldvalue >? 0) && (incr >? INT64_MAX - oldvalue)).

Definition incrDecrCommand (c : client) (incr : Z) : M client :=
  let i := cl_db c in
  key ← arg_str c 1;
  v ← lookupKeyWrite i key;
  ob ← (match v with None => mret None | Some a => o ← deref a; mret (Some o) end);
  match ob with
  | Some o =>
    if negb (bool_decide (o_type o = REDIS_STRING)) then mret (add_reply wrongtypeerr c)
    else
      r ← lift (getLongLongFromObjectOrReply c ob);
      match r with
      | (c, None) => mret c
      | (c, Some value) =>
        if incr_overflows incr value then mret (add_reply (RErr "increment or decrement would overflow") c)
        else
          new ← createStringObjectFromLongLong (value + incr);
          _ ← dbOverwrite i key new;
          _ ← signalModifiedKey i key;
          _ ← log_event (Notify "incrby" key i);
          _ ← incr_dirty 1;
          mret (add_reply (RInt (value + incr)) c)
      end
  | None =>
    if incr_overflows incr 0 then mret (add_reply (RErr "increment or decrement would overflow") c)
    else
      new ← createStringObjectFromLongLong incr;
      _ ← dbAdd i key new;
      _ ← signalModifiedKey i key;
      _ ← log_event (Notify "incrby" key i);
      _ ← incr_dirty 1;
      mret (add_reply (RInt incr) c)
  end.

Definition incrCommand (c : client) : M client := incrDecrCommand c 1.
Definition decrCommand (c : client) : M client := incrDecrCommand c (-1).

Definition incrby_arg (c : client) : M (client * option Z) :=
  a ← lift (argv c 2);
  o ← deref a;
  lift (getLongLongFromObjectOrReply c (Some o)).

Definition incrbyCommand (c : client) : M client :=
  r ← incrby_arg c;
  match r with (c, None) => mret c | (c, Some incr) => incrDecrCommand c incr end.

(** [-incr] wraps at LLONG_MIN. *)
Definition decrbyCommand (c : client) : M client :=
  r ← incrby_arg c;
  match r with (c, None) => mret c | (c, Some incr) => incrDecrCommand c (to_s 64 (- incr)) end.

Definition append_finish (c : client) (key : sds) (totlen : Z) : M client :=
  _ ← signalModifiedKey (cl_db c) key;
  _ ← log_event (Notify "append" key (cl_db c));
  _ ← incr_dirty 1;
  mret (add_reply (RInt totlen) c).

Definition appendCommand (c : client) : M client :=
  let i := cl_db c in
  key ← arg_str c 1;
  v ← lookupKeyWrite i key;
  match v with
  | None =>
    p ← encode_arg c 2;
    _ ← dbAdd i key (snd p);
    _ ← incrRefCount (snd p);
    o ← deref (snd p);
    totlen ← lift (stringObjectLen o);
    append_finish (fst p) key totlen
  | Some a =>
    o ← deref a;
    let '(c, bad) := checkType c o REDIS_STRING in
    if (bad : bool) then mret c
    else
      app ← arg_str c 2;
      olen ← lift (stringObjectLen o);
      let '(c, ok) := checkStringLength c (olen + sdslen app) in
      if negb ok then mret c
      else
        a' ← dbUnshareStringValue i key a;
        o' ← deref a';
        s ← lift (sds_of o');
        _ ← upd_obj a' (set_o_ptr (PSds (s ++ app)));
        append_finish c key (sdslen (s ++ app))
  end.

Definition strlenCommand (c : client) : M client :=
  key ← arg_str c 1;
  r ← lookupKeyReadOrReply c key (RInt 0);
  match r with
  | (c, None) => mret c
  | (c, Some a) =>
    o ← deref a;
    let '(c, bad) := checkType c o REDIS_STRING in
    if (bad : bool) then mret c
    else n ← lift (stringObjectLen o); mret (add_reply (RInt n) c)
  end.

(** ** Lemmas *)

Lemma lookupKeyRead_live s i key : live s i key ->
  exists s', lookupKeyRead i key s = Done (lookupKey s i key, s') /\
    heap s' = heap s /\ dbs s' = dbs s /\ kv s' = kv s /\ conf s' = conf s /\ next_addr s' = next_addr s.
Proof.
  intros H. unfold lookupKeyRead. destruct (expireIfNeeded_live _ _ _ H) as [b Hb].
  rewrite (prog_bind_step _ _ _ _ _ Hb), bind_gets, bind_modify. eexists. split; [reflexivity|].
  by destruct (lookupKey s i key).
Qed.

(** What GET, which reads only, may change: the statistics. *)
Record read_only (s s' : server) : Prop := {
  ro_heap : heap s' = heap s;
  ro_dbs : dbs s' = dbs s;
  ro_kv : kv s' = kv s;
  ro_conf : conf s' = conf s
}.

Lemma getCommand_string c key a o x s :
  str_arg s c 1 key -> live s (cl_db c) key -> lookupKey s (cl_db c) key = Some a ->
  heap s !! a = Some o -> o_type o = REDIS_STRING -> o_ptr o = PSds x ->
  exists s', getCommand c s = Done (add_reply (RBulk x) c, s') /\ read_only s s'.
Proof.
  intros Harg HL Hl Ha Ht Hx. unfold getCommand, getGenericCommand. rewrite bind_assoc.
  rewrite (bind_arg_str _ _ _ _ _ Harg). unfold lookupKeyReadOrReply. rewrite !bind_assoc.
  destruct (lookupKeyRead_live _ _ _ HL) as (s1 & E1 & A1 & A2 & A3 & A4 & A5). rewrite (prog_bind_step _ _ _ _ _ E1), Hl.
  rewrite bind_mret, bind_assoc. rewrite (bind_deref a o) by (by rewrite A1).
  unfold checkType. rewrite Ht, bool_decide_true by done. unfold addReplyBulk, string_bytes. rewrite Hx.
  exists s1. split; [done|]. by split.
Qed.

Lemma getCommand_absent c key s :
  str_arg s c 1 key -> live s (cl_db c) key -> lookupKey s (cl_db c) key = None ->
  exists s', getCommand c s = Done (add_reply RNull c, s') /\ read_only s s'.
Proof.
  intros Harg HL Hl. unfold getCommand, getGenericCommand. rewrite bind_assoc.
  rewrite (bind_arg_str _ _ _ _ _ Harg). unfold lookupKeyReadOrReply. rewrite !bind_assoc.
  destruct (lookupKeyRead_live _ _ _ HL) as (s1 & E1 & A1 & A2 & A3 & A4 & A5). rewrite (prog_bind_step _ _ _ _ _ E1), Hl.
  exists s1. split; [done|]. by split.
Qed.


(** [x] is not the text of an integer, so the object keeps its bytes. *)
Definition not_integer (x : sds) : Prop := 21 < sdslen x \/ Util.string2l x = None.

Lemma tryObjectEncoding_text a o x s :
  heap s !! a = Some o -> o_type o = REDIS_STRING -> o_encoding o = ENC_RAW -> o_refcount o <= 1 ->
  o_ptr o = PSds x -> not_integer x -> tryObjectEncoding a s = Done (a, s).
Proof.
  intros Ha Ht He Hr Hx Hn. unfold tryObjectEncoding. rewrite (bind_deref _ _ _ _ Ha), He, Ht.
  rewrite !bool_decide_true by done. cbn [negb]. rewrite Z.gtb_ltb, (proj2 (Z.ltb_ge _ _)) by done.
  cbn [require_b]. rewrite bind_lift. unfold sds_of. rewrite Hx, bind_lift, Z.gtb_ltb.
  destruct (Z.ltb_spec 21 (sdslen x)); [done|]. destruct Hn as [|Hn]; [lia|]. by rewrite Hn.
Qed.

Lemma put_argv_same c i a : cl_argv c !! i = Some (Some a) -> put_argv i a c = Done c.
Proof.
  intros H. rewrite put_argv_Done by (by eapply lookup_lt_Some). rewrite list_insert_id by done. by destruct c.
Qed.

(** [a] is an argument that the command may keep: a string object, raw, that
    only the client refers to, with bytes [x] that are no integer. *)
Record text_arg (s : server) (c : client) (i : nat) (a : addr) (o : robj) (x : sds) : Prop := {
  ta_argv : cl_argv c !! i = Some (Some a);
  ta_heap : heap s !! a = Some o;
  ta_type : o_type o = REDIS_STRING;
  ta_enc : o_encoding o = ENC_RAW;
  ta_refs : o_refcount o = 1;
  ta_ptr : o_ptr o = PSds x;
  ta_text : not_integer x
}.

Lemma encode_text_arg s c i a o x : text_arg s c i a o x -> encode_arg c i s = Done ((c, a), s).
Proof.
  intros [Hv Ha Ht He Hr Hp Hx]. unfold encode_arg. rewrite (argv_Done _ _ _ Hv), bind_lift.
  rewrite (prog_bind_step _ _ _ _ _ (tryObjectEncoding_text a o x s Ha Ht He ltac:(lia) Hp Hx)).
  by rewrite (put_argv_same _ _ _ Hv).
Qed.

Lemma set_options_end c fuel j o s : cl_argc c <= Z.of_nat j -> set_options c fuel j o s = Done (Some o, s).
Proof. intros H. destruct fuel; cbn [set_options]; [done|]. by rewrite (proj2 (Z.ltb_ge _ _)). Qed.

Lemma setCommand_plain s c key b ob x :
  cl_argc c = 3 -> str_arg s c 1 key -> text_arg s c 2 b ob x ->
  valid_db s (cl_db c) -> live s (cl_db c) key -> sole_string s (cl_db c) key [b] ->
  exists s', setCommand c s = Done (add_reply ROk c, s') /\ stored (cl_db c) key b ob s s'.
Proof.
  intros Hc Hk Hb Hv HL Hs. unfold setCommand.
  rewrite (prog_bind_step _ _ _ _ _ (set_options_end c _ 3 no_opts s ltac:(lia))).
  rewrite (prog_bind_step _ _ _ _ _ (encode_text_arg _ _ _ _ _ _ Hb)). cbn [fst snd].
  rewrite (bind_arg_str _ _ _ _ _ Hk). unfold setGenericCommand, no_opts. cbn [opt_expire opt_nx opt_xx].
  rewrite !bind_mret. destruct (setKey_ok s (cl_db c) key b ob Hv HL (ta_heap _ _ _ _ _ _ Hb) Hs) as (s1 & E1 & H1).
  rewrite (prog_bind_step _ _ _ _ _ E1). unfold incr_dirty, log_event. run.
  eexists. split; [reflexivity|]. destruct H1. by split.
Qed.


(** ** Integer encodings *)

(** The shared object of [w], when [w] is small enough to have one. *)
Definition shared_int (s : server) (w : Z) : Prop :=
  0 <= w < REDIS_SHARED_INTEGERS ->
  exists rc vers, heap s !! shared_integers w = Some (mkObj REDIS_STRING ENC_INT rc vers (PLong w)).

Lemma string2l_text x w : Util.string2l x = Some w -> Util.ll2string_text w = x /\ in_s 64 w.
Proof.
  unfold Util.string2l. destruct (Util.string2ll x) as [v|] eqn:E; [|done].
  intros H. assert (w = v) as -> by (repeat case_match; congruence).
  split; [by apply Util.text_string2ll|]. by apply Util.string2ll_canonical in E as [_ ?].
Qed.

(** What encoding the string object [b] leaves: no other object than [b] and the
    reference count of a shared integer has changed, and nothing outside the heap. *)
Record encoded (b : addr) (s s' : server) : Prop := {
  en_heap : s' = set_heap (heap s') s;
  en_same : forall a, a <> b -> REDIS_SHARED_INTEGERS < Z.pos a -> heap s' !! a = heap s !! a;
  en_others : forall a o, heap s !! a = Some o -> o_type o <> REDIS_STRING -> heap s' !! a = Some o;
  en_ints : forall w, shared_int s w -> shared_int s' w
}.

Lemma encoded_refl b s : encoded b s s.
Proof. split; try done. by destruct s. Qed.

Lemma try_encoding_ok (a : positive) (o : robj) (x : sds) (s : server) :
  heap s !! a = Some o -> o_type o = REDIS_STRING -> 0 < o_refcount o ->
  (o_encoding o = ENC_RAW /\ o_ptr o = PSds x) \/ (o_encoding o = ENC_INT /\ string_bytes o = Done x) ->
  (forall w, Util.string2l x = Some w -> shared_int s w) ->
  exists a' s' o', tryObjectEncoding a s = Done (a', s') /\
    heap s' !! a' = Some o' /\ o_type o' = REDIS_STRING /\ string_bytes o' = Done x /\
    (forall b, b <> a -> b <> a' -> heap s' !! b = heap s !! b) /\ encoded a s s'.
Proof.
  intros Ha Ht Hr He Hsh. unfold tryObjectEncoding. rewrite (bind_deref _ _ _ _ Ha).
  assert (Hsame : exists a' s' o', (mret a : M positive) s = Done (a', s') /\ heap s' !! a' = Some o' /\
    o_type o' = REDIS_STRING /\ string_bytes o' = Done x /\
    (forall b, b <> a -> b <> a' -> heap s' !! b = heap s !! b) /\ encoded a s s').
  { exists a, s, o. split_and!; try done; [|apply encoded_refl]. destruct He as [[_ E]|[_ E]]; [unfold string_bytes; by rewrite E|done]. }
  destruct He as [[He Hp]|[He _]]; [|rewrite He; rewrite bool_decide_false by done; exact Hsame].
  rewrite He, bool_decide_true by done. cbn [negb]. rewrite Z.gtb_ltb.
  destruct (Z.ltb_spec 1 (o_refcount o)); [exact Hsame|]. assert (o_refcount o = 1) as Hr1 by lia.
  rewrite Ht, bool_decide_true by done. cbn [require_b]. rewrite bind_lift.
  unfold sds_of. rewrite Hp, bind_lift, Z.gtb_ltb. destruct (Z.ltb_spec 21 (sdslen x)); [exact Hsame|].
  destruct (Util.string2l x) as [w|] eqn:Hw; [|exact Hsame].
  destruct (string2l_text _ _ Hw) as [Htx Hin]. rewrite bind_gets. destruct (_ && _) eqn:Hc.
  - assert (0 <= w < REDIS_SHARED_INTEGERS) as Hrange by (zify_bool; lia).
    destruct (Hsh w eq_refl Hrange) as (rc & vers & Hs).
    assert (shared_integers w <> a) as Hne by (intros E; rewrite E, Ha in Hs; injection Hs as ->; done).
    rewrite (prog_bind_step _ _ _ _ _ (decrRefCount_last _ _ _ Ha Hr1 Ht)). unfold incrRefCount.
    rewrite (bind_upd_obj _ (mkObj REDIS_STRING ENC_INT rc vers (PLong w)))
      by (cbn; by rewrite lookup_delete_ne).
    assert (Hk : forall b, b <> a -> b <> shared_integers w ->
      <[shared_integers w := set_o_refcount (rc + 1) (mkObj REDIS_STRING ENC_INT rc vers (PLong w))]> (delete a (heap s)) !! b = heap s !! b)
      by (intros b Hb Hb'; by rewrite lookup_insert_ne, lookup_delete_ne).
    eexists _, _, _. split; [reflexivity|]. cbn. rewrite lookup_insert_eq. split_and!; try done.
    + cbn. by rewrite Htx.
    + split; cbn; [done| | |]; [intros b Hb Hb'; rewrite Hk; try done|intros b ob Hob Hto; rewrite Hk; try done|intros w' Hw' Hr'].
      * intros ->. unfold shared_integers in Hb'. lia.
      * intros ->. congruence.
      * intros ->. rewrite Hs in Hob. by injection Hob as <-.
      * destruct (Hw' Hr') as (rc' & vers' & Hs'). cbn. destruct (decide (shared_integers w' = shared_integers w)) as [E|E].
        { rewrite E in Hs' |- *. rewrite Hs in Hs'. injection Hs' as <- <- <-. rewrite lookup_insert_eq. eauto. }
        rewrite Hk; [eauto| |done]. intros E'. rewrite E', Ha in Hs'. injection Hs' as ->. done.
  - rewrite (bind_upd_obj _ _ _ _ _ Ha). eexists _, _, _. split; [reflexivity|]. cbn.
    rewrite lookup_insert_eq. split_and!; try done.
    + unfold string_bytes. cbn. by rewrite Htx.
    + intros b Hb _. by rewrite lookup_insert_ne.
    + split; cbn; [done| | |]; [intros b Hb _|intros b ob Hob Hto|intros w' Hw' Hr'; destruct (Hw' Hr') as (rc' & vers' & Hs'); exists rc', vers'; cbn];
        rewrite lookup_insert_ne; try done; intros ->; [congruence|]. rewrite Ha in Hs'. by injection Hs' as ->.
Qed.

(** tryObjectEncoding never changes what a string object says: whichever
    branch it takes (too long, no integer, shared by several holders, replaced
    by a shared integer, or turned into an integer in place) the object it
    returns stands for the same bytes, and no object other than the argument
    and a shared integer is touched. *)
Theorem tryObjectEncoding_keeps_bytes (a : positive) (o : robj) (x : sds) (s : server) :
  heap s !! a = Some o -> o_type o = REDIS_STRING -> 0 < o_refcount o ->
  (o_encoding o = ENC_RAW /\ o_ptr o = PSds x) \/ (o_encoding o = ENC_INT /\ string_bytes o = Done x) ->
  (forall w, Util.string2l x = Some w -> shared_int s w) ->
  exists a' s' o', tryObjectEncoding a s = Done (a', s') /\
    heap s' !! a' = Some o' /\ o_type o' = REDIS_STRING /\ string_bytes o' = Done x /\
    (forall b, b <> a -> b <> a' -> heap s' !! b = heap s !! b) /\
    dbs s' = dbs s /\ kv s' = kv s.
Proof.
  intros Ha Ht Hr He Hsh. destruct (try_encoding_ok a o x s Ha Ht Hr He Hsh) as (a' & s' & o' & E & H1 & H2 & H3 & H4 & [H5 _ _ _]).
  exists a', s', o'. split_and!; try done; by rewrite H5.
Qed.

Lemma tryObjectEncoding_keeps_bytes_witness :
  let s := put_obj 43 (mkObj REDIS_STRING ENC_INT 1 0 (PLong 42)) (put_obj 11 (str_obj "42" 3) server0) in
  exists a' s' o', tryObjectEncoding 11%positive s = Done (a', s') /\ heap s' !! a' = Some o' /\
    string_bytes o' = Done (str "42").
Proof.
  intros s. destruct (tryObjectEncoding_keeps_bytes 11%positive (str_obj "42" 3) (str "42") s)
    as (a' & s' & o' & H1 & H2 & _ & H3 & _).
  - reflexivity.
  - reflexivity.
  - reflexivity.
  - left. split; reflexivity.
  - intros w Hw. assert (Util.string2l (str "42") = Some 42) as E by (vm_compute; reflexivity).
    rewrite E in Hw. injection Hw as <-. intros _. exists 1, 0. vm_compute. reflexivity.
  - exists a', s', o'. auto.
Defined.

(** The argument [i] is a raw string object, as the client sent it; if it is a
    small integer, the shared object of this integer is there. *)
Record bytes_arg (s : server) (c : client) (i : nat) (a : addr) (o : robj) (x : sds) : Prop := {
  ba_argv : cl_argv c !! i = Some (Some a);
  ba_heap : heap s !! a = Some o;
  ba_type : o_type o = REDIS_STRING;
  ba_enc : o_encoding o = ENC_RAW;
  ba_refs : 0 < o_refcount o;
  ba_ptr : o_ptr o = PSds x;
  ba_ints : forall w, Util.string2l x = Some w -> shared_int s w
}.

Lemma encode_bytes_arg s c i a o x : bytes_arg s c i a o x ->
  exists a' s' e, encode_arg c i s = Done ((set_cl_argv (<[i := Some a']> (cl_argv c)) c, a'), s') /\
    heap s' !! a' = Some e /\ string_bytes e = Done x /\ encoded a s s'.
Proof.
  intros [H1 H2 H3 H4 H5 H6 H7]. unfold encode_arg. rewrite (argv_Done _ _ _ H1), bind_lift.
  destruct (try_encoding_ok a o x s H2 H3 H5 ltac:(by left) H7) as (a' & s' & e & E & Ha & _ & Hx & _ & HE).
  rewrite (prog_bind_step _ _ _ _ _ E), put_argv_Done, bind_lift by (by eapply lookup_lt_Some). by exists a', s', e.
Qed.

(** ** INCR and its kin *)

(** The overflow test, which computes no sum, is exact. *)
Lemma incr_overflows_exact incr v : in_s 64 incr -> in_s 64 v ->
  incr_overflows incr v = negb ((INT64_MIN <=? v + incr) && (v + incr <=? INT64_MAX)).
Proof.
  unfold in_s, incr_overflows, INT64_MIN, INT64_MAX. cbn [Z.sub Z.pow Z.pow_pos]. intros.
  apply eq_true_iff_eq. rewrite negb_true_iff, andb_false_iff, orb_true_iff, !andb_true_iff.
  rewrite !Z.ltb_lt, !Z.gtb_lt, !Z.leb_gt. lia.
Qed.

(** The object of an integer that fits a long, new or shared. *)
Lemma createFromLongLong_ok w s :
  in_s 64 w -> shared_int s w -> heap s !! next_addr s = None ->
  exists b ob s', createStringObjectFromLongLong w s = Done (b, s') /\ heap s' !! b = Some ob /\
    o_type ob = REDIS_STRING /\ string_bytes ob = Done (Util.ll2string_text w) /\
    (forall a o, heap s !! a = Some o -> a <> b -> heap s' !! a = Some o) /\
    (forall o, heap s !! b = Some o -> o_refcount ob = o_refcount o + 1) /\
    dbs s' = dbs s /\ conf s' = conf s /\ kv s' = kv s.
Proof.
  intros Hw Hs Hf. unfold createStringObjectFromLongLong, incrRefCount.
  destruct ((0 <=? w) && (w <? REDIS_SHARED_INTEGERS)) eqn:Hc.
  - destruct (Hs ltac:(zify_bool; lia)) as (rc & vers & Hh). rewrite (bind_upd_obj _ _ _ _ _ Hh).
    eexists _, _, _. split; [reflexivity|]. cbn. rewrite lookup_insert_eq. split_and!; try done.
    + intros a o Ha Hne. by rewrite lookup_insert_ne.
    + intros o. rewrite Hh. by intros [= <-].
  - replace ((INT64_MIN <=? w) && (w <=? INT64_MAX)) with true.
    + unfold alloc. eexists _, _, _. split; [reflexivity|]. cbn. rewrite lookup_insert_eq. split_and!; try done.
      * intros a o Ha Hne. by rewrite lookup_insert_ne.
      * intros o. by rewrite Hf.
    + symmetry. unfold in_s in Hw. cbn in Hw. apply andb_true_iff. unfold INT64_MIN, INT64_MAX.
      rewrite !Z.leb_le. lia.
Qed.

(** Dropping one reference to [a] keeps every other object, and [a] itself
    when there was more than one. *)
Lemma decrRefCount_frame s a o : heap s !! a = Some o -> 0 < o_refcount o -> o_type o = REDIS_STRING ->
  exists h, decrRefCount a s = Done (tt, set_heap h s) /\
    (forall b, b <> a -> h !! b = heap s !! b) /\
    (1 < o_refcount o -> h !! a = Some (set_o_refcount (o_refcount o - 1) o)).
Proof.
  intros Ha Hr Ht. destruct (Z.eq_dec (o_refcount o) 1) as [E|E].
  - rewrite (decrRefCount_last _ _ _ Ha E Ht). eexists. split; [reflexivity|]. split; [|lia].
    intros b Hb. by rewrite lookup_delete_ne.
  - rewrite (decrRefCount_shared _ _ _ Ha) by lia. eexists. split; [reflexivity|].
    split; [intros b Hb; by rewrite lookup_insert_ne|]. intros _. apply lookup_insert_eq.
Qed.

Lemma dbOverwrite_ok s i key a o b ob :
  valid_db s i -> lookupKey s i key = Some a -> heap s !! a = Some o -> o_type o = REDIS_STRING ->
  0 < o_refcount o -> heap s !! b = Some ob -> (b = a -> 1 < o_refcount o) ->
  exists s', dbOverwrite i key b s = Done (tt, s') /\ dbs s' = <[i := add_key key b (get_db s i)]> (dbs s) /\
    exists ob', heap s' !! b = Some ob' /\ o_type ob' = o_type ob /\ o_ptr ob' = o_ptr ob.
Proof.
  intros Hv Hl Ha Ht Hr Hb Hba. unfold dbOverwrite. rewrite bind_get_st, Hl, bind_upd_db.
  destruct (decrRefCount_frame (put_db i (add_key key b (get_db s i)) s) a o Ha Hr Ht) as (h & E & Hh & Hh1).
  exists (set_heap h (put_db i (add_key key b (get_db s i)) s)). split; [exact E|]. split; [done|].
  destruct (decide (b = a)) as [->|Hne]; cbn [heap set_heap].
  - rewrite Ha in Hb. injection Hb as <-. rewrite Hh1 by auto. eexists. by split.
  - rewrite Hh by done. exists ob. by split.
Qed.

Lemma incrDecr_ok (c : client) (key : sds) (a : positive) (o : robj) (v incr : Z) (s : server) :
  let i := cl_db c in
  str_arg s c 1 key -> valid_db s i -> live s i key -> lookupKey s i key = Some a ->
  heap s !! a = Some o -> o_type o = REDIS_STRING -> 0 < o_refcount o ->
  getLongLongFromObject (Some o) = Done (Some v) -> in_s 64 v -> in_s 64 incr ->
  shared_int s (v + incr) -> heap s !! next_addr s = None ->
  (in_s 64 (v + incr) ->
   exists s' b ob, incrDecrCommand c incr s = Done (add_reply (RInt (v + incr)) c, s') /\
     lookupKey s' i key = Some b /\ heap s' !! b = Some ob /\ o_type ob = REDIS_STRING /\
     string_bytes ob = Done (Util.ll2string_text (v + incr)) /\
     (forall j k, j <> i \/ k <> key -> lookupKey s' j k = lookupKey s j k)) /\
  (~ in_s 64 (v + incr) ->
   incrDecrCommand c incr s = Done (add_reply (RErr "increment or decrement would overflow") c, s)).
Proof.
  intros i Harg Hv HL Hl Ha Ht Hr Hg Hiv Hii Hsh Hf.
  assert (Hov : incr_overflows incr v = false <-> in_s 64 (v + incr)).
  { rewrite incr_overflows_exact by done. rewrite negb_false_iff, andb_true_iff, !Z.leb_le.
    unfold in_s, INT64_MIN, INT64_MAX. cbn. lia. }
  unfold incrDecrCommand. fold i. rewrite (bind_arg_str _ _ _ _ _ Harg), (prog_bind_step _ _ _ _ _ (lookupKeyWrite_live _ _ _ HL)), Hl.
  rewrite bind_assoc, (bind_deref _ _ _ _ Ha), bind_mret, Ht, bool_decide_true by done. cbn [negb].
  unfold getLongLongFromObjectOrReply. rewrite Hg, bind_Done. unfold mret at 1 3, outcome_ret. rewrite !bind_lift.
  split; intros Hw; [|destruct (incr_overflows incr v); [done|by destruct Hw; apply Hov]].
  rewrite (proj2 Hov Hw).
  destruct (createFromLongLong_ok (v + incr) s Hw Hsh Hf) as (b & ob & s1 & E1 & Hb & Hbt & Hbs & Hfr & Hrc & D1 & _).
  rewrite (prog_bind_step _ _ _ _ _ E1).
  assert (exists o1, heap s1 !! a = Some o1 /\ o_type o1 = REDIS_STRING /\ 0 < o_refcount o1 /\
    (b = a -> 1 < o_refcount o1)) as (o1 & Ha1 & Ht1 & Hr1 & Hba).
  { destruct (decide (b = a)) as [->|Hne].
    - exists ob. rewrite (Hrc _ Ha). split_and!; try done; lia.
    - exists o. split_and!; auto; done. }
  assert (Hg1 : forall j, get_db s1 j = get_db s j) by (intros j; unfold get_db; by rewrite D1).
  destruct (dbOverwrite_ok s1 i key a o1 b ob) as (s2 & E2 & D2 & ob' & Hb2 & Ht2 & Hp2); try done.
  { unfold valid_db. by rewrite D1. } { unfold lookupKey. by rewrite Hg1. }
  rewrite (prog_bind_step _ _ _ _ _ E2). unfold signalModifiedKey.
  destruct (touchWatchedKey_frame i key s2) as (s3 & E3 & H3 & _ & D3 & _).
  rewrite (prog_bind_step _ _ _ _ _ E3). unfold incr_dirty, log_event. run.
  eexists _, b, ob'. split; [reflexivity|].
  match goal with |- lookupKey ?st _ _ = _ /\ _ => assert (forall j, get_db st j =
    if decide (i = j) then add_key key b (get_db s i) else get_db s j) as Hgd end.
  { intros j. unfold get_db at 1. cbn [dbs set_dirty set_events]. rewrite D3, D2, D1, Hg1.
    by apply (get_db_put s). }
  unfold lookupKey. rewrite Hgd, decide_True by done. cbn. rewrite lookup_insert_eq, H3.
  split_and!; [done|done|congruence|unfold string_bytes; by rewrite Hp2|].
  intros j k Hjk. rewrite Hgd. destruct (decide (i = j)) as [<-|]; [|done].
  cbn. rewrite lookup_insert_ne; [done|]. destruct Hjk; congruence.
Qed.

(** The four commands, and what each adds to the value. *)
Inductive counter := Incr | Decr | Incrby | Decrby.

Definition counter_command (k : counter) (c : client) : M client :=
  match k with Incr => incrCommand c | Decr => decrCommand c | Incrby => incrbyCommand c | Decrby => decrbyCommand c end.

Definition third_arg (s : server) (c : client) (n : Z) : Prop :=
  exists b ob, cl_argv c !! 2%nat = Some (Some b) /\ heap s !! b = Some ob /\ getLongLongFromObject (Some ob) = Done (Some n) /\ in_s 64 n.

Definition adds (s : server) (c : client) (k : counter) (d : Z) : Prop :=
  match k with
  | Incr => d = 1
  | Decr => d = -1
  | Incrby => third_arg s c d
  | Decrby => exists n, third_arg s c n /\ d = (if n =? INT64_MIN then INT64_MIN else - n)
  end.

Lemma incrby_arg_ok s c n : third_arg s c n -> incrby_arg c s = Done ((c, Some n), s).
Proof.
  intros (b & ob & H1 & H2 & H3 & _). unfold incrby_arg. rewrite (argv_Done _ _ _ H1), bind_lift, (bind_deref _ _ _ _ H2).
  unfold getLongLongFromObjectOrReply. by rewrite H3.
Qed.

Lemma neg_wraps n : in_s 64 n -> to_s 64 (- n) = if n =? INT64_MIN then INT64_MIN else - n.
Proof.
  unfold in_s, INT64_MIN. intros H. destruct (Z.eqb_spec n (-9223372036854775808)) as [->|Hne]; [done|].
  apply to_s_small; [lia|]. unfold in_s. cbn in *. lia.
Qed.

Lemma counter_command_adds s c k d : adds s c k d -> in_s 64 d /\ counter_command k c s = incrDecrCommand c d s.
Proof.
  destruct k; cbn [adds counter_command].
  - intros ->. done.
  - intros ->. done.
  - intros H. split; [by destruct H as (? & ? & _ & _ & _ & ?)|]. unfold incrbyCommand. by rewrite (prog_bind_step _ _ _ _ _ (incrby_arg_ok _ _ _ H)).
  - intros (n & H & ->). assert (Hn : in_s 64 n) by (by destruct H as (? & ? & _ & _ & _ & ?)). split.
    + unfold in_s, INT64_MIN in *. destruct (Z.eqb_spec n (-9223372036854775808)); cbn in *; lia.
    + unfold decrbyCommand. by rewrite (prog_bind_step _ _ _ _ _ (incrby_arg_ok _ _ _ H)), neg_wraps.
Qed.

(** C33: INCR, DECR, INCRBY and DECRBY of a key that holds an integer and is not
    due to expire.  Let [d] be what the command adds: 1, -1, the argument, or the
    argument negated; only for DECRBY by -2^63, which has no negation in 64 bits,
    it is -2^63 itself, so that this command lowers the value which it should
    raise (t_string.c:372).  When the sum is a 64-bit integer, it is the reply, and
    the key now holds a string object that says the sum in decimal, every other
    key being as it was; when it is not, the reply is the overflow error and
    nothing changes.  The addition itself never overflows. *)
Theorem incr_correct (k : counter) (c : client) (key : sds) (a : positive) (o : robj) (v d : Z) (s : server) :
  let i := cl_db c in
  adds s c k d -> str_arg s c 1 key -> valid_db s i -> live s i key -> lookupKey s i key = Some a ->
  heap s !! a = Some o -> o_type o = REDIS_STRING -> 0 < o_refcount o ->
  getLongLongFromObject (Some o) = Done (Some v) -> in_s 64 v ->
  shared_int s (v + d) -> heap s !! next_addr s = None ->
  (in_s 64 (v + d) ->
   exists s' b ob, counter_command k c s = Done (add_reply (RInt (v + d)) c, s') /\
     lookupKey s' i key = Some b /\ heap s' !! b = Some ob /\ o_type ob = REDIS_STRING /\
     string_bytes ob = Done (Util.ll2string_text (v + d)) /\
     (forall j x, j <> i \/ x <> key -> lookupKey s' j x = lookupKey s j x)) /\
  (~ in_s 64 (v + d) ->
   counter_command k c s = Done (add_reply (RErr "increment or decrement would overflow") c, s)).
Proof.
  intros i Hd Hk Hv HL Hl Ha Ht Hr Hg Hiv Hsh Hf. destruct (counter_command_adds _ _ _ _ Hd) as [Hdr ->].
  by apply (incrDecr_ok c key a o v d s Hk Hv HL Hl Ha Ht Hr Hg Hiv Hdr Hsh Hf).
Qed.

Definition incr_server (x : string) : server :=
  put_key 0 "n" 13 (put_obj 13 (str_obj x 0) (put_obj 11 (str_obj "n" 0) (put_obj 14 (str_obj "5" 0) server0))).

Lemma incr_correct_witness :
  incrCommand (client_of 0 [10; 11]%positive) (incr_server "9223372036854775807") =
    Done (add_reply (RErr "increment or decrement would overflow") (client_of 0 [10; 11]%positive),
          incr_server "9223372036854775807") /\
  exists s', decrbyCommand (client_of 0 [10; 11; 14]%positive) (incr_server "-20000") =
    Done (add_reply (RInt (-20005)) (client_of 0 [10; 11; 14]%positive), s').
Proof.
  split.
  - apply (incr_correct Incr (client_of 0 [10; 11]%positive) (str "n") 13%positive (str_obj "9223372036854775807" 0)
             9223372036854775807 1 (incr_server "9223372036854775807")); try (vm_compute; (reflexivity || exact I)).
    + exists 11%positive, (str_obj "n" 0). vm_compute. repeat split.
    + vm_compute. lia.
    + vm_compute. split; [discriminate|reflexivity].
    + intros [_ H]. by vm_compute in H.
    + vm_compute. intros [_ H]. discriminate H.
  - destruct (incr_correct Decrby (client_of 0 [10; 11; 14]%positive) (str "n") 13%positive (str_obj "-20000" 0)
             (-20000) (-5) (incr_server "-20000")) as [H _];
      [exists 5; split; [exists 14%positive, (str_obj "5" 0); vm_compute; repeat split; discriminate|reflexivity]|..];
      try (vm_compute; (reflexivity || exact I)).
    + exists 11%positive, (str_obj "n" 0). vm_compute. repeat split.
    + vm_compute. lia.
    + vm_compute. split; [discriminate|reflexivity].
    + intros [H _]. by vm_compute in H.
    + destruct H as (s' & b & ob & H & _); [vm_compute; split; [discriminate|reflexivity]|].
      exists s'. exact H.
Defined.

End TString.
