(* ===== verification/Heap.v ===== *)
(** * String objects in the heap: what the container types rely on

    Lists and hashes hold string objects, raw or integer encoded, some of them
    shared.  [holds s a x] says that [a] is such an object with bytes [x];
    [grows a s s'] that a step may create objects and change reference counts
    but takes no string object away and writes no other container than [a]. *)
From S2P Require Import Prelude CStr Intset Util Server Object Db TString.
Import Object Db TString.

Module Heap.

Definition str_obj_ok (o : robj) (x : sds) : Prop :=
  o_type o = REDIS_STRING /\ 0 < o_refcount o /\
  ((o_encoding o = ENC_RAW /\ o_ptr o = PSds x) \/
   (o_encoding o = ENC_INT /\ exists n, in_s 64 n /\ o_ptr o = PLong n /\ x = Util.ll2string_text n)).

Definition holds (s : server) (a : addr) (x : sds) : Prop :=
  exists o, heap s !! a = Some o /\ str_obj_ok o x.

(** New addresses are free, and every small integer has its shared object. *)
Record store_ok (s : server) : Prop := {
  st_fresh : heap_fresh s;
  st_ints : forall w, 0 <= w < REDIS_SHARED_INTEGERS ->
    exists rc vers, 0 < rc /\ heap s !! shared_integers w = Some (mkObj REDIS_STRING ENC_INT rc vers (PLong w))
}.

Record grows (a : addr) (s s' : server) : Prop := {
  gr_strings : forall b x, holds s b x -> holds s' b x;
  gr_others : forall b o, b <> a -> heap s !! b = Some o -> o_type o <> REDIS_STRING -> heap s' !! b = Some o;
  gr_store : store_ok s -> store_ok s';
  gr_dbs : dbs s' = dbs s;
  gr_conf : conf s' = conf s;
  gr_kv : kv s' = kv s
}.

(** A step that rewrites no container at all. *)
Definition keeps (s s' : server) : Prop := forall a, grows a s s'.

Lemma grows_refl a s : grows a s s.
Proof. by split. Qed.

Lemma grows_trans a s1 s2 s3 : grows a s1 s2 -> grows a s2 s3 -> grows a s1 s3.
Proof.
  intros [A1 A2 A3 A4 A5 A6] [B1 B2 B3 B4 B5 B6]. split; try congruence; eauto.
Qed.

(** Steps that leave the heap alone. *)
Lemma keeps_refl s : keeps s s.
Proof. intros a. apply grows_refl. Qed.

Lemma keeps_trans s1 s2 s3 : keeps s1 s2 -> keeps s2 s3 -> keeps s1 s3.
Proof. intros A B a. by eapply grows_trans. Qed.

Lemma keeps_store s s' : keeps s s' -> store_ok s -> store_ok s'.
Proof. intros H. apply (gr_store _ _ _ (H xH)). Qed.

Lemma keeps_heap s s' : heap s' = heap s -> next_addr s' = next_addr s ->
  dbs s' = dbs s -> conf s' = conf s -> kv s' = kv s -> keeps s s'.
Proof.
  intros H1 H2 H3 H4 H5 a. split; try done.
  - unfold holds. by rewrite H1.
  - by rewrite H1.
  - intros [F I]. split; [unfold heap_fresh in *; by rewrite H1, H2|by rewrite H1].
Qed.

Lemma string_bytes_ok o x : str_obj_ok o x -> string_bytes o = Done x.
Proof. intros (_ & _ & [[_ E]|(_ & n & _ & E & ->)]); unfold string_bytes; by rewrite E. Qed.

Lemma holds_fun s a x y : holds s a x -> holds s a y -> x = y.
Proof.
  intros (o & Ho & Hx) (o' & Ho' & Hy). assert (o = o') as <- by congruence.
  apply string_bytes_ok in Hx, Hy. congruence.
Qed.

Lemma holds_fresh s a x : heap_fresh s -> holds s a x -> (a < next_addr s)%positive.
Proof. intros Hf (o & Ho & _). by eapply heap_fresh_lt. Qed.

(** A write to a string object that keeps its bytes. *)
Lemma keeps_touch b o o' x s :
  heap s !! b = Some o -> str_obj_ok o x -> str_obj_ok o' x -> o_encoding o' = o_encoding o -> o_ptr o' = o_ptr o ->
  keeps s (set_heap (<[b := o']> (heap s)) s).
Proof.
  intros Hb Ho Ho' He Hp a. split; try done.
  - intros c y Hy. destruct (decide (b = c)) as [<-|Hne].
    + exists o'. cbn. rewrite lookup_insert_eq. split; [done|]. by rewrite <- (holds_fun s b x y ltac:(by exists o) Hy).
    + destruct Hy as (oc & Hc & Hy). exists oc. cbn. by rewrite lookup_insert_ne.
  - intros c oc Hc Hoc Ht. cbn. rewrite lookup_insert_ne; [done|]. intros <-. destruct Ho as [Hto _]. congruence.
  - intros [F I]. split.
    + intros c Hc. cbn. rewrite lookup_insert_ne; [by apply F|]. intros <-. by rewrite F in Hb.
    + intros w Hw. destruct (I w Hw) as (rc & vr & Hrc & Hs). cbn. destruct (decide (b = shared_integers w)) as [E|E].
      * rewrite E, lookup_insert_eq. rewrite E, Hs in Hb. injection Hb as <-. cbn in *.
        destruct Ho' as (Ht' & Hr' & _). exists (o_refcount o'), (o_vers o'). split; [done|]. destruct o'; cbn in *. by subst.
      * rewrite lookup_insert_ne by done. eauto.
Qed.

Lemma str_obj_ok_refs o x n : str_obj_ok o x -> 0 < n -> str_obj_ok (set_o_refcount n o) x.
Proof. intros (Ht & Hr & He) Hn. by split. Qed.

Lemma incrRefCount_ok b x s : holds s b x ->
  exists s', incrRefCount b s = Done (tt, s') /\ keeps s s' /\ next_addr s' = next_addr s /\
    exists o, heap s !! b = Some o /\ heap s' = <[b := set_o_refcount (o_refcount o + 1) o]> (heap s).
Proof.
  intros (o & Hb & Ho). unfold incrRefCount. rewrite (upd_obj_Done _ _ _ _ Hb). eexists. split; [reflexivity|].
  split; [|split; [done|by exists o]]. eapply keeps_touch; [done|done| |done|done].
  apply str_obj_ok_refs; [done|]. destruct Ho as (_ & ? & _). lia.
Qed.

(** A container is rewritten. *)
Lemma grows_container a o g s : heap s !! a = Some o -> o_type o <> REDIS_STRING ->
  grows a s (set_heap (<[a := g o]> (heap s)) s).
Proof.
  intros Ha Ht. split; try done.
  - intros b x (ob & Hb & Hx). exists ob. cbn. rewrite lookup_insert_ne; [done|].
    intros <-. destruct Hx as [Htb _]. congruence.
  - intros b ob Hne Hb _. cbn. by rewrite lookup_insert_ne.
  - intros [F I]. split.
    + intros b Hb. cbn. rewrite lookup_insert_ne; [by apply F|]. intros <-. by rewrite F in Ha.
    + intros w Hw. destruct (I w Hw) as (rc & vr & Hrc & Hs). exists rc, vr. split; [done|]. cbn.
      rewrite lookup_insert_ne; [done|]. intros E. rewrite <- E, Ha in Hs. injection Hs as ->. done.
Qed.

Lemma alloc_keeps o s : store_ok s ->
  keeps s (set_next_addr (Pos.succ (next_addr s)) (set_heap (<[next_addr s := o]> (heap s)) s)).
Proof.
  intros HS. assert (Hk : forall b ob, heap s !! b = Some ob -> <[next_addr s := o]> (heap s) !! b = Some ob).
  { intros b ob Hb. rewrite lookup_insert_ne; [done|]. intros <-. rewrite (st_fresh _ HS) in Hb by lia. done. }
  intros a. split; try done.
  - intros b x (ob & Hb & Hx). exists ob. split; [by apply Hk|done].
  - intros b ob _ Hb _. by apply Hk.
  - intros [F I]. split.
    + intros b Hb. cbn in *. rewrite lookup_insert_ne by lia. apply F. lia.
    + intros w Hw. destruct (I w Hw) as (rc & vr & Hrc & Hs). exists rc, vr. split; [done|]. by apply Hk.
Qed.

Lemma shared_holds s w : store_ok s -> 0 <= w < REDIS_SHARED_INTEGERS ->
  holds s (shared_integers w) (Util.ll2string_text w).
Proof.
  intros HS Hw. destruct (st_ints _ HS w Hw) as (rc & vr & Hrc & Hs). eexists. split; [exact Hs|].
  split; [done|]. split; [done|]. right. split; [done|]. exists w. split; [|done].
  unfold in_s. cbn. unfold REDIS_SHARED_INTEGERS in Hw. lia.
Qed.

Lemma createFromLongLong_holds w s : store_ok s -> in_s 64 w ->
  exists b s', createStringObjectFromLongLong w s = Done (b, s') /\ holds s' b (Util.ll2string_text w) /\ keeps s s'.
Proof.
  intros HS Hw. unfold createStringObjectFromLongLong. destruct ((0 <=? w) && _) eqn:E.
  - assert (0 <= w < REDIS_SHARED_INTEGERS) as Hr by (zify_bool; lia).
    pose proof (shared_holds s w HS Hr) as Hh.
    destruct (incrRefCount_ok _ _ _ Hh) as (s1 & E1 & G & _). rewrite (prog_bind_step _ _ _ _ _ E1).
    eexists _, s1. split; [reflexivity|]. split; [by apply (G xH)|done].
  - replace ((INT64_MIN <=? w) && (w <=? INT64_MAX)) with true.
    + eexists _, _. split; [reflexivity|]. split; [|by apply alloc_keeps].
      eexists. cbn. rewrite lookup_insert_eq. split; [reflexivity|]. split; [done|]. split; [done|]. right. eauto.
    + symmetry. unfold in_s in Hw. cbn in Hw. apply andb_true_iff. unfold INT64_MIN, INT64_MAX. rewrite !Z.leb_le. lia.
Qed.

Lemma createString_holds x s : store_ok s ->
  exists b s', createStringObject x s = Done (b, s') /\ holds s' b x /\ keeps s s' /\ b = next_addr s /\
    heap s' = <[b := mkObj REDIS_STRING ENC_RAW 1 0 (PSds x)]> (heap s).
Proof.
  intros HS. eexists _, _. split; [reflexivity|]. split; [|by split; [apply alloc_keeps|]].
  eexists. cbn. rewrite lookup_insert_eq. split; [reflexivity|]. split; [done|]. split; [done|]. by left.
Qed.

(** A string object has been retained, used and released again. *)
Lemma decr_after_incr b o s : heap s !! b = Some (set_o_refcount (o_refcount o + 1) o) -> 0 < o_refcount o ->
  decrRefCount b s = Done (tt, set_heap (<[b := o]> (heap s)) s).
Proof.
  intros Hb Hr. rewrite (decrRefCount_shared _ _ _ Hb) by (cbn; lia). by rewrite <- set_refcount_back.
Qed.

(** What the getDecodedObject of a holder leaves: either the object itself,
    retained, or a fresh raw copy. *)
Lemma getDecoded_ok b x s : store_ok s -> holds s b x ->
  exists d s', getDecodedObject b s = Done (d, s') /\ keeps s s' /\
    (exists o, heap s' !! d = Some o /\ o_type o = REDIS_STRING /\ o_encoding o = ENC_RAW /\ o_ptr o = PSds x) /\
    exists s2, decrRefCount d s' = Done (tt, s2) /\ keeps s s2 /\ heap s2 = heap s.
Proof.
  intros HS (o & Hb & Ho). unfold getDecodedObject. rewrite (bind_deref _ _ _ _ Hb).
  destruct Ho as (Ht & Hr & [[He Hp]|(He & n & Hn & Hp & ->)]).
  - rewrite He, bool_decide_true by done. unfold incrRefCount. rewrite (bind_upd_obj _ _ _ _ _ Hb).
    eexists b, _. split; [reflexivity|]. assert (Ho : str_obj_ok o x) by (split; [done|]; split; [done|]; by left).
    split; [eapply keeps_touch; [done|done| |done|done]; apply str_obj_ok_refs; [done|lia]|].
    split; [eexists; cbn; rewrite lookup_insert_eq; by split_and!|].
    rewrite (decr_after_incr b o) by (cbn; rewrite ?lookup_insert_eq; done). eexists. split; [reflexivity|]. cbn.
    rewrite insert_insert_eq, insert_id by done. split; [by apply keeps_heap|done].
  - rewrite He, Ht, Hp. rewrite bool_decide_false by done.
    destruct (createString_holds (Util.ll2string_text n) s HS) as (d & s1 & E1 & Hh & G & Hd & Hheap).
    rewrite E1. exists d, s1. split; [done|]. split; [done|].
    assert (Hl : heap s1 !! d = Some (mkObj REDIS_STRING ENC_RAW 1 0 (PSds (Util.ll2string_text n))))
      by (rewrite Hheap; apply lookup_insert_eq).
    split; [eexists; split; [exact Hl|done]|]. rewrite (decrRefCount_last _ _ _ Hl) by done. eexists. split; [reflexivity|].
    assert (Hdel : delete d (heap s1) = heap s).
    { rewrite Hheap, delete_insert_id; [done|]. rewrite Hd. apply (st_fresh _ HS). lia. }
    split; [|done]. intros a. split; cbn [set_heap dbs conf kv heap]; try apply (G a).
    + intros c y (oc & Hc & Hy). exists oc. cbn. by rewrite Hdel.
    + intros c oc _ Hc _. by rewrite Hdel.
    + intros _. split; [|cbn; rewrite Hdel; apply HS]. intros c Hc. cbn in *. rewrite Hdel.
      apply (st_fresh _ HS). assert (next_addr s <= next_addr s1)%positive; [|lia].
      unfold createStringObject, createObject, alloc in E1. injection E1 as _ <-. cbn. lia.
Qed.

(** ** Ownership of references *)

(** The references to [b] in [l], and the permanent one of a shared integer. *)
Definition refs (l : list addr) (b : addr) : Z :=
  Z.of_nat (count_occ Pos.eq_dec l b) + (if decide (Z.pos b <= REDIS_SHARED_INTEGERS) then 1 else 0).

(** Every reference of [l] is to a string object, and every string object
    counts exactly the references that [l] holds: none is missing, so that no
    object in use is freed, and none is left over, so that none leaks.  What is
    referred to from elsewhere has these references in [l] too. *)
Record owns (s : server) (l : list addr) : Prop := {
  ow_fresh : heap_fresh s;
  ow_ints : forall w, 0 <= w < REDIS_SHARED_INTEGERS ->
    exists rc vers, heap s !! shared_integers w = Some (mkObj REDIS_STRING ENC_INT rc vers (PLong w));
  ow_count : forall b o, heap s !! b = Some o -> o_type o = REDIS_STRING -> refs l b = o_refcount o;
  ow_in : forall b, b ∈ l -> exists x, holds s b x
}.

(** The string objects of [l] keep their bytes, only their reference counts
    change, and no container changes but [a], if any. *)
Record own_step (l : list addr) (a : option addr) (s s' : server) : Prop := {
  os_strings : forall b x, b ∈ l -> holds s b x -> holds s' b x;
  os_others : forall b o, Some b <> a -> heap s !! b = Some o -> o_type o <> REDIS_STRING -> heap s' !! b = Some o;
  os_objs : forall b o, b ∈ l -> heap s !! b = Some o -> o_type o = REDIS_STRING -> exists n, heap s' !! b = Some (set_o_refcount n o);
  os_dbs : dbs s' = dbs s;
  os_conf : conf s' = conf s;
  os_kv : kv s' = kv s
}.

Lemma own_step_refl l a s : own_step l a s s.
Proof. split; try done. intros b o _ Hb _. exists (o_refcount o). by destruct o. Qed.

Lemma own_step_trans l a s1 s2 s3 : own_step l a s1 s2 -> own_step l a s2 s3 -> own_step l a s1 s3.
Proof.
  intros [A1 A2 A3 A4 A5 A6] [B1 B2 B3 B4 B5 B6]. split; try congruence; eauto.
  intros b o Hb Ho Ht. destruct (A3 b o Hb Ho Ht) as (n1 & H1). destruct (B3 b _ Hb H1 Ht) as (n2 & H2). by exists n2.
Qed.

Lemma own_step_mono l l' a s s' : own_step l a s s' -> l' ⊆ l -> own_step l' a s s'.
Proof.
  intros [A1 A2 A3 A4 A5 A6] H. split; try done.
  - intros b x Hb. apply A1. set_solver.
  - intros b o Hb. apply A3. set_solver.
Qed.

Lemma own_step_at l a s s' : own_step l None s s' -> own_step l a s s'.
Proof. intros [A1 A2 A3 A4 A5 A6]. split; try done. intros b o _. by apply A2. Qed.

Lemma own_step_holds l a s s' xs ys : own_step l a s s' -> xs ⊆ l -> Forall2 (holds s) xs ys -> Forall2 (holds s') xs ys.
Proof.
  intros H Hl Hf. induction Hf as [|x y xs ys Hxy Hf IH]; constructor.
  - apply (os_strings _ _ _ _ H); [set_solver|done].
  - apply IH. set_solver.
Qed.

Lemma refs_cons l b c : refs (c :: l) b = refs l b + (if decide (c = b) then 1 else 0).
Proof.
  unfold refs. destruct (decide (c = b)) as [E|E].
  - rewrite count_occ_cons_eq by done. lia.
  - rewrite count_occ_cons_neq by done. lia.
Qed.

Lemma refs_nonneg l b : 0 <= refs l b.
Proof. unfold refs. case_decide; lia. Qed.

Lemma refs_in l b : b ∈ l -> 1 <= refs l b.
Proof.
  intros H. unfold refs. assert (0 < count_occ Pos.eq_dec l b)%nat; [|case_decide; lia].
  apply count_occ_In. by apply list_elem_of_In.
Qed.

Lemma refs_zero l b : refs l b = 0 -> b ∉ l /\ REDIS_SHARED_INTEGERS < Z.pos b.
Proof.
  intros H. split; [intros Hb; apply refs_in in Hb; lia|]. unfold refs in H. case_decide; lia.
Qed.

Lemma owns_perm s l l' : l ≡ₚ l' -> owns s l -> owns s l'.
Proof.
  intros HP [F I C N]. split; try done.
  - intros b o Hb Ht. unfold refs. rewrite <- (proj1 (Permutation_count_occ Pos.eq_dec l l') HP b). by apply C.
  - intros b Hb. apply N. by rewrite HP.
Qed.

Lemma owns_store s l : owns s l -> store_ok s.
Proof.
  intros [F I C N]. split; [done|]. intros w Hw. destruct (I w Hw) as (rc & vr & Hs). exists rc, vr. split; [|done].
  pose proof (C _ _ Hs eq_refl) as H. cbn in H. unfold refs in H. rewrite decide_True in H by (unfold shared_integers; lia). lia.
Qed.

(** A step that keeps all strings with their reference counts. *)
Lemma owns_heap s s' l : heap s' = heap s -> next_addr s' = next_addr s -> owns s l -> owns s' l.
Proof.
  intros H1 H2 [F I C N]. split.
  - unfold heap_fresh in *. by rewrite H1, H2.
  - by rewrite H1.
  - by rewrite H1.
  - intros b Hb. destruct (N b Hb) as (x & o & Ho & Hx). exists x, o. by rewrite H1.
Qed.


Lemma keeps_own l a s s' : keeps s s' ->
  (forall b o, heap s !! b = Some o -> o_type o = REDIS_STRING -> heap s' !! b = Some o) ->
  own_step l a s s'.
Proof.
  intros H Hv. pose proof (H xH) as [G1 _ _ G4 G5 G6]. split; try done; [by intros b x _; apply G1| |].
  2:{ intros b o _ Hb Ht. exists (o_refcount o). rewrite (Hv b o Hb Ht). by destruct o. }
  intros b o _ Hb Ht. apply (gr_others _ _ _ (H (Pos.succ b))); [lia|done..].
Qed.

(** A string object is rewritten, its bytes staying the same. *)
Lemma owns_write s l l' b o o' x : heap s !! b = Some o -> str_obj_ok o x -> str_obj_ok o' x ->
  (Z.pos b <= REDIS_SHARED_INTEGERS -> o_encoding o' = o_encoding o /\ o_ptr o' = o_ptr o) ->
  owns s l -> (forall c, c <> b -> refs l' c = refs l c) -> refs l' b = o_refcount o' -> (forall c, c ∈ l' -> c = b \/ c ∈ l) ->
  let s' := set_heap (<[b := o']> (heap s)) s in
  owns s' l' /\ forall l0, o' = set_o_refcount (o_refcount o') o \/ b ∉ l0 -> own_step l0 None s s'.
Proof.
  intros Hb Ho Ho' Hsh [F I C N] Hc Hr Hin s'.
  assert (Hk : forall c y, holds s c y -> holds s' c y).
  { intros c y Hy. destruct (decide (b = c)) as [<-|Hne].
    - exists o'. cbn. rewrite lookup_insert_eq. split; [done|]. by rewrite <- (holds_fun s b x y ltac:(by exists o) Hy).
    - destruct Hy as (oc & Hoc & Hy). exists oc. cbn. by rewrite lookup_insert_ne. }
  split.
  - split.
    + intros c Hcn. cbn. rewrite lookup_insert_ne; [by apply F|]. intros <-. by rewrite F in Hb.
    + intros w Hw. destruct (I w Hw) as (rc & vr & Hs). cbn. destruct (decide (b = shared_integers w)) as [E|E].
      * rewrite E, lookup_insert_eq. rewrite E, Hs in Hb. injection Hb as <-. destruct Hsh as [He Hp]; [rewrite E; unfold shared_integers; lia|].
        exists (o_refcount o'), (o_vers o'). destruct Ho' as [Ht' _]. destruct o'; cbn in *. by subst.
      * rewrite lookup_insert_ne by done. eauto.
    + intros c oc. cbn. destruct (decide (b = c)) as [<-|Hne].
      * rewrite lookup_insert_eq. by intros [= <-] _.
      * rewrite lookup_insert_ne by done. intros Hoc Ht. rewrite Hc by congruence. by apply C.
    + intros c Hcl. destruct (Hin c Hcl) as [->|Hl]; [exists x; apply Hk; by exists o|]. destruct (N c Hl) as [y Hy]. exists y. by apply Hk.
  - intros l0 Hv. split; try done; [intros c y _; apply Hk| |].
    + intros c oc _ Hoc Ht. cbn. rewrite lookup_insert_ne; [done|]. intros <-. destruct Ho as [Hto _]. congruence.
    + intros c oc Hcl Hoc Ht. cbn. destruct (decide (b = c)) as [<-|Hne].
      * rewrite lookup_insert_eq. destruct Hv as [Hv|Hv]; [|done]. exists (o_refcount o'). congruence.
      * rewrite lookup_insert_ne by done. exists (o_refcount oc). rewrite Hoc. by destruct oc.
Qed.

Lemma own_incr s l b x : owns s l -> holds s b x ->
  exists s', incrRefCount b s = Done (tt, s') /\ owns s' (b :: l) /\ forall l0, own_step l0 None s s'.
Proof.
  intros HO (o & Hb & Ho). unfold incrRefCount. rewrite (upd_obj_Done _ _ _ _ Hb). eexists. split; [reflexivity|].
  pose proof (ow_count _ _ HO b o Hb (proj1 Ho)) as Hc. pose proof (refs_nonneg l b).
  destruct (owns_write s l (b :: l) b o (set_o_refcount (o_refcount o + 1) o) x) as [HO' HS']; try done.
  - apply str_obj_ok_refs; [done|lia].
  - intros c Hne. rewrite refs_cons, decide_False by congruence. lia.
  - rewrite refs_cons, decide_True by done. cbn. lia.
  - intros c Hcl. apply elem_of_cons in Hcl as [->|?]; [by left|by right].
  - split; [done|]. intros l0. apply HS'. by left.
Qed.

(** Releasing a reference frees the object only when nobody else has one. *)
Lemma own_decr s l b : owns s (b :: l) ->
  exists s', decrRefCount b s = Done (tt, s') /\ owns s' l /\ own_step l None s s'.
Proof.
  intros HO. destruct (ow_in _ _ HO b ltac:(left)) as (x & o & Hb & Ho). pose proof (proj1 Ho) as Ht.
  pose proof (ow_count _ _ HO b o Hb Ht) as Hc. rewrite refs_cons, decide_True in Hc by done. pose proof (refs_nonneg l b).
  destruct (Z.eq_dec (o_refcount o) 1) as [E|E].
  - rewrite (decrRefCount_last _ _ _ Hb E Ht). eexists. split; [reflexivity|].
    destruct (refs_zero l b ltac:(lia)) as [Hnl Hns]. destruct HO as [F I C N].
    assert (Hk : forall c, c <> b -> delete b (heap s) !! c = heap s !! c) by (intros c Hne; by rewrite lookup_delete_ne).
    split.
    + split.
      * intros c Hcn. cbn. destruct (decide (b = c)) as [<-|Hne]; [by rewrite lookup_delete_eq|]. rewrite Hk by done. by apply F.
      * intros w Hw. cbn. rewrite Hk by (unfold shared_integers; lia). by apply I.
      * intros c oc. cbn. destruct (decide (b = c)) as [<-|Hne]; [by rewrite lookup_delete_eq|]. rewrite Hk by done. intros Hoc Hto.
        rewrite <- (C c oc Hoc Hto), refs_cons, decide_False by done. lia.
      * intros c Hcl. destruct (N c ltac:(by right)) as (y & oc & Hoc & Hy). exists y, oc. cbn. rewrite Hk by (by intros ->). done.
    + split; try done.
      * intros c y Hcl (oc & Hoc & Hy). exists oc. cbn. rewrite Hk by (by intros ->). done.
      * intros c oc _ Hoc Hto. cbn. rewrite Hk; [done|]. intros ->. congruence.
      * intros c oc Hcl Hoc Hto. cbn. rewrite Hk by (by intros ->). exists (o_refcount oc). rewrite Hoc. by destruct oc.
  - assert (Hlt : 1 < o_refcount o) by lia.
    rewrite (decrRefCount_shared _ _ _ Hb Hlt). eexists. split; [reflexivity|].
    destruct (owns_write s (b :: l) l b o (set_o_refcount (o_refcount o - 1) o) x) as [HO' HS']; try done.
    + apply str_obj_ok_refs; [done|lia].
    + intros c Hne. rewrite refs_cons, decide_False by congruence. lia.
    + cbn. lia.
    + intros c Hcl. right. by right.
    + split; [done|]. apply HS'. by left.
Qed.

Lemma next_not_shared s l : owns s l -> REDIS_SHARED_INTEGERS < Z.pos (next_addr s).
Proof.
  intros [F I _ _]. destruct (I 9999 ltac:(unfold REDIS_SHARED_INTEGERS; lia)) as (rc & vr & Hs).
  pose proof (heap_fresh_lt _ _ _ F Hs). unfold shared_integers, REDIS_SHARED_INTEGERS in *. lia.
Qed.

(** A new string object, owned once. *)
Lemma own_alloc s l o x : owns s l -> str_obj_ok o x -> o_refcount o = 1 ->
  let n := next_addr s in
  let s' := set_next_addr (Pos.succ n) (set_heap (<[n := o]> (heap s)) s) in
  owns s' (n :: l) /\ holds s' n x /\ (forall l0, own_step l0 None s s') /\ n ∉ l.
Proof.
  intros HO Ho Hr n s'. pose proof (next_not_shared _ _ HO) as Hns. pose proof (owns_store _ _ HO) as HS. destruct HO as [F I C N].
  assert (Hnl : n ∉ l). { intros Hn. destruct (N n Hn) as (y & on & Hon & _). rewrite F in Hon by (subst n; lia). done. }
  pose proof (alloc_keeps o s HS) as HK. assert (Hh : holds s' n x) by (exists o; cbn; by rewrite lookup_insert_eq).
  assert (Hstep : forall l0, own_step l0 None s s').
  { intros l0. apply keeps_own; [done|]. intros b ob Hb Ht. cbn. rewrite lookup_insert_ne; [done|].
    intros <-. rewrite F in Hb by lia. done. }
  split; [|split; [done|split; [done|done]]]. split.
  - apply (st_fresh s'), (gr_store _ _ _ (HK xH) HS).
  - intros w Hw. destruct (I w Hw) as (rc & vr & Hs). exists rc, vr. cbn. rewrite lookup_insert_ne; [done|].
    intros E. rewrite <- E in Hs. rewrite F in Hs by (subst n; lia). done.
  - intros c oc. cbn. destruct (decide (n = c)) as [<-|Hne].
    + rewrite lookup_insert_eq. intros [= <-] _. rewrite refs_cons, decide_True by done. rewrite Hr. unfold refs.
      rewrite (proj1 (count_occ_not_In Pos.eq_dec l n)) by (by rewrite <- list_elem_of_In).
      rewrite decide_False by (subst n; lia). lia.
    + rewrite lookup_insert_ne by done. intros Hoc Ht. rewrite refs_cons, decide_False by done. rewrite Z.add_0_r. by apply C.
  - intros c Hcl. apply elem_of_cons in Hcl as [->|Hl]; [by exists x|]. destruct (N c Hl) as [y Hy]. exists y. by apply (HK xH).
Qed.


Lemma own_createString s l x : owns s l ->
  exists b s', createStringObject x s = Done (b, s') /\ owns s' (b :: l) /\ holds s' b x /\
    (forall l0, own_step l0 None s s') /\ b ∉ l.
Proof.
  intros HO. unfold createStringObject, createObject, alloc. eexists _, _. split; [reflexivity|].
  apply own_alloc; [done| |done]. split; [done|]. split; [done|]. by left.
Qed.

Lemma own_createFromLongLong s l w : owns s l -> in_s 64 w ->
  exists b s', createStringObjectFromLongLong w s = Done (b, s') /\ owns s' (b :: l) /\
    holds s' b (Util.ll2string_text w) /\ forall l0, own_step l0 None s s'.
Proof.
  intros HO Hw. unfold createStringObjectFromLongLong. destruct ((0 <=? w) && _) eqn:E.
  - assert (0 <= w < REDIS_SHARED_INTEGERS) as Hr by (zify_bool; lia).
    pose proof (shared_holds s w (owns_store _ _ HO) Hr) as Hh.
    destruct (own_incr _ _ _ _ HO Hh) as (s1 & E1 & HO1 & HS1). rewrite (prog_bind_step _ _ _ _ _ E1).
    eexists _, s1. split; [reflexivity|]. split; [done|]. split; [|done].
    apply (os_strings _ _ _ _ (HS1 [shared_integers w])); [by left|done].
  - replace ((INT64_MIN <=? w) && (w <=? INT64_MAX)) with true.
    + unfold alloc. eexists _, _. split; [reflexivity|].
      destruct (own_alloc s l (mkObj REDIS_STRING ENC_INT 1 0 (PLong w)) (Util.ll2string_text w) HO) as (A & B & C & _); try done.
      split; [done|]. split; [done|]. right. eauto.
    + symmetry. unfold in_s in Hw. cbn in Hw. apply andb_true_iff. unfold INT64_MIN, INT64_MAX. rewrite !Z.leb_le. lia.
Qed.

(** The encoded object takes over the reference. *)
Lemma own_tryEncoding s l b x : owns s (b :: l) -> holds s b x ->
  exists b' s', tryObjectEncoding b s = Done (b', s') /\ owns s' (b' :: l) /\ holds s' b' x /\ own_step l None s s'.
Proof.
  intros HO Hx. pose proof Hx as (o & Hb & Ho). unfold tryObjectEncoding. rewrite (bind_deref _ _ _ _ Hb).
  assert (Hsame : exists b' s', (mret b : M positive) s = Done (b', s') /\ owns s' (b' :: l) /\ holds s' b' x /\ own_step l None s s').
  { exists b, s. split; [done|]. split; [done|]. split; [done|apply own_step_refl]. }
  pose proof Ho as (Ht & Hr & He). destruct He as [[He Hp]|(He & _)]; rewrite He; [|by rewrite bool_decide_false].
  rewrite bool_decide_true by done. cbn [negb]. rewrite Z.gtb_ltb.
  destruct (Z.ltb_spec 1 (o_refcount o)); [exact Hsame|].
  rewrite Ht, bool_decide_true by done. cbn [require_b]. rewrite bind_lift. unfold sds_of. rewrite Hp, bind_lift, Z.gtb_ltb.
  destruct (Z.ltb_spec 21 (sdslen x)); [exact Hsame|]. destruct (Util.string2l x) as [w|] eqn:Hw; [|exact Hsame].
  destruct (string2l_text _ _ Hw) as [Htx Hin]. rewrite bind_gets. destruct (_ && _) eqn:Hc.
  - assert (0 <= w < REDIS_SHARED_INTEGERS) as Hrange by (zify_bool; lia).
    destruct (own_decr s l b HO) as (s1 & E1 & HO1 & HS1). rewrite (prog_bind_step _ _ _ _ _ E1).
    pose proof (shared_holds s1 w (owns_store _ _ HO1) Hrange) as Hh.
    destruct (own_incr _ _ _ _ HO1 Hh) as (s2 & E2 & HO2 & HS2). rewrite (prog_bind_step _ _ _ _ _ E2).
    eexists _, s2. split; [reflexivity|]. split; [done|]. rewrite Htx in Hh. split.
    + apply (os_strings _ _ _ _ (HS2 [shared_integers w])); [by left|done].
    + by eapply own_step_trans.
  - rewrite (bind_upd_obj _ _ _ _ _ Hb). eexists b, _. split; [reflexivity|].
    pose proof (ow_count _ _ HO b o Hb Ht) as Hcnt.
    assert (Ho' : str_obj_ok (set_o_ptr (PLong w) (set_o_encoding ENC_INT o)) x).
    { split; [done|]. split; [done|]. right. split; [done|]. by exists w. }
    destruct (owns_write s (b :: l) (b :: l) b o (set_o_ptr (PLong w) (set_o_encoding ENC_INT o)) x) as [HO' HS']; try done.
    + intros Hsh. exfalso. destruct (ow_ints _ _ HO (Z.pos b - 1) ltac:(lia)) as (rc & vr & Hs).
      replace (shared_integers (Z.pos b - 1)) with b in Hs by (unfold shared_integers; lia). rewrite Hb in Hs. by injection Hs as ->.
    + intros c Hcl. right. done.
    + split; [done|]. split; [eexists; cbn; rewrite lookup_insert_eq; by split|]. apply HS'. right.
      rewrite refs_cons, decide_True in Hcnt by done. pose proof (refs_nonneg l b). apply refs_zero. lia.
Qed.

(** A decoded copy, owned; the other objects keep what they point to. *)
Lemma own_getDecoded s l b x : owns s l -> holds s b x ->
  exists d s' o, getDecodedObject b s = Done (d, s') /\ owns s' (d :: l) /\ heap s' !! d = Some o /\ o_ptr o = PSds x /\
    (forall l0, own_step l0 None s s') /\
    forall c oc, heap s !! c = Some oc -> exists oc', heap s' !! c = Some oc' /\ o_ptr oc' = o_ptr oc.
Proof.
  intros HO Hx. pose proof Hx as (o & Hb & Ho). unfold getDecodedObject. rewrite (bind_deref _ _ _ _ Hb).
  destruct Ho as (Ht & Hr & [[He Hp]|(He & n & Hn & Hp & ->)]).
  - rewrite He, bool_decide_true by done. destruct (own_incr _ _ _ _ HO Hx) as (s1 & E1 & HO1 & HS1).
    rewrite (prog_bind_step _ _ _ _ _ E1). unfold incrRefCount in E1. rewrite (upd_obj_Done _ _ _ _ Hb) in E1. injection E1 as <-.
    eexists b, _, _. split; [reflexivity|]. split; [done|]. cbn. rewrite lookup_insert_eq. split; [done|]. split; [done|]. split; [done|].
    intros c oc Hc. destruct (decide (b = c)) as [<-|Hne].
    + rewrite lookup_insert_eq. eexists. split; [done|]. by assert (oc = o) as -> by congruence.
    + rewrite lookup_insert_ne by done. eauto.
  - rewrite He, Ht, Hp. rewrite bool_decide_false by done.
    destruct (own_createString s l (Util.ll2string_text n) HO) as (d & s1 & E1 & HO1 & Hh & HS1 & _).
    rewrite E1. unfold createStringObject, createObject, alloc in E1. injection E1 as <- <-.
    eexists _, _, _. split; [reflexivity|]. split; [done|]. cbn. rewrite lookup_insert_eq. split; [done|]. split; [done|]. split; [done|].
    intros c oc Hc. rewrite lookup_insert_ne; [eauto|]. intros <-. rewrite (ow_fresh _ _ HO) in Hc by lia. done.
Qed.

(** A container is rewritten. *)
Lemma own_container s l a o g : owns s l -> heap s !! a = Some o -> o_type o <> REDIS_STRING -> o_type (g o) = o_type o ->
  let s' := set_heap (<[a := g o]> (heap s)) s in owns s' l /\ forall l0, own_step l0 (Some a) s s'.
Proof.
  intros [F I C N] Ha Ht Hg s'.
  assert (Hk : forall c y, holds s c y -> holds s' c y).
  { intros c y (oc & Hoc & Hy). exists oc. cbn. rewrite lookup_insert_ne; [done|]. intros <-. destruct Hy as [? _]. congruence. }
  split; [split|].
  - intros c Hc. cbn. rewrite lookup_insert_ne; [by apply F|]. intros <-. by rewrite F in Ha.
  - intros w Hw. destruct (I w Hw) as (rc & vr & Hs). exists rc, vr. cbn. rewrite lookup_insert_ne; [done|].
    intros E. rewrite <- E, Ha in Hs. by injection Hs as ->.
  - intros c oc. cbn. destruct (decide (a = c)) as [<-|Hne].
    + rewrite lookup_insert_eq. intros [= <-] Htc. congruence.
    + rewrite lookup_insert_ne by done. apply C.
  - intros c Hc. destruct (N c Hc) as [y Hy]. exists y. by apply Hk.
  - intros l0. split; try done; [intros c y _; apply Hk| |].
    + intros c oc Hne Hc _. cbn. rewrite lookup_insert_ne; [done|congruence].
    + intros c oc _ Hc Htc. cbn. rewrite lookup_insert_ne by congruence. exists (o_refcount oc). rewrite Hc. by destruct oc.
Qed.


(** ** Steps that keep what stands *)
(** A container survives a step that does not touch it. *)
Lemma step_obj l s s' b o : own_step l None s s' -> heap s !! b = Some o -> o_type o <> REDIS_STRING -> heap s' !! b = Some o.
Proof. intros H Hb Ht. by apply (os_others _ _ _ _ H). Qed.

(** A step on a new container touches nothing that was there before. *)
Lemma step_new l a s s1 s2 : heap s !! a = None -> own_step l None s s1 -> own_step l (Some a) s1 s2 -> own_step l None s s2.
Proof.
  intros Ha H1 H2. pose proof (own_step_trans _ (Some a) _ _ _ (own_step_at _ _ _ _ H1) H2) as [A1 A2 A3 A4 A5 A6].
  split; try done. intros b o _ Hb. apply A2; [|done]. congruence.
Qed.

Lemma own_alloc_container s l o : owns s l -> o_type o <> REDIS_STRING ->
  let s' := set_next_addr (Pos.succ (next_addr s)) (set_heap (<[next_addr s := o]> (heap s)) s) in
  owns s' l /\ (forall l0, own_step l0 None s s') /\ heap s !! next_addr s = None.
Proof.
  intros HO Ht s'. pose proof (ow_fresh _ _ HO) as F. assert (Hn : heap s !! next_addr s = None) by (apply F; lia).
  pose proof (alloc_keeps o s (owns_store _ _ HO)) as HK.
  assert (Hk : forall b ob, heap s !! b = Some ob -> heap s' !! b = Some ob) by (intros b ob Hb; cbn; rewrite lookup_insert_ne by congruence; done).
  split; [|split; [|done]].
  - split.
    + apply (st_fresh s'), (gr_store _ _ _ (HK xH)), (owns_store _ _ HO).
    + intros w Hw. destruct (ow_ints _ _ HO w Hw) as (rc & vr & Hs). exists rc, vr. by apply Hk.
    + intros b ob. cbn. destruct (decide (next_addr s = b)) as [<-|Hne].
      * rewrite lookup_insert_eq. by intros [= <-].
      * rewrite lookup_insert_ne by done. apply (ow_count _ _ HO).
    + intros b Hb. destruct (ow_in _ _ HO b Hb) as [x Hx]. exists x. by apply (HK xH).
  - intros l0. apply keeps_own; [done|]. intros b ob Hb _. by apply Hk.
Qed.

(** The shared integers as a heap, for evaluations. *)
Definition int_obj (w : Z) : robj := mkObj REDIS_STRING ENC_INT 1 0 (PLong w).
Definition int_heap : gmap addr robj :=
  list_to_map (map (fun w => (shared_integers w, int_obj w)) (seqZ 0 REDIS_SHARED_INTEGERS)).

Lemma shared_integers_inj v w : 0 <= v -> 0 <= w -> shared_integers v = shared_integers w -> v = w.
Proof. unfold shared_integers. lia. Qed.

Lemma int_heap_lookup a :
  int_heap !! a = if decide (Z.pos a <= REDIS_SHARED_INTEGERS) then Some (int_obj (Z.pos a - 1)) else None.
Proof.
  unfold int_heap. case_decide as Ha.
  - apply elem_of_list_to_map_1.
    + rewrite <- list_fmap_compose. apply NoDup_fmap_2_strong; [|apply NoDup_seqZ].
      intros v w Hv Hw. apply elem_of_seqZ in Hv, Hw. cbn. apply shared_integers_inj; lia.
    + apply list_elem_of_fmap. exists (Z.pos a - 1). split; [|apply elem_of_seqZ; unfold REDIS_SHARED_INTEGERS in *; lia].
      f_equal. unfold shared_integers. lia.
  - apply not_elem_of_list_to_map_1. rewrite <- list_fmap_compose, list_elem_of_fmap. intros (w & -> & Hw).
    apply elem_of_seqZ in Hw. cbn in *. unfold shared_integers in Ha. lia.
Qed.

#[global] Opaque int_heap.

(** The objects of [h] above the shared integers. *)
Definition store_of (h : gmap addr robj) (s : server) : server := set_heap (h ∪ int_heap) s.

Lemma store_of_ok h s : next_addr s = 20000%positive ->
  map_Forall (fun a _ => (10000 < a < 20000)%positive) h -> store_ok (store_of h s).
Proof.
  intros Hn Hh. split.
  - intros a Ha. cbn. apply lookup_union_None. split.
    + destruct (h !! a) eqn:E; [|done]. apply Hh in E. change (next_addr (store_of h s)) with (next_addr s) in Ha. lia.
    + rewrite int_heap_lookup. change (next_addr (store_of h s)) with (next_addr s) in Ha.
      rewrite decide_False; [done|]. unfold REDIS_SHARED_INTEGERS. lia.
  - intros w Hw. exists 1, 0. split; [done|]. cbn. rewrite lookup_union_r.
    + rewrite int_heap_lookup, decide_True by (unfold shared_integers; lia). unfold int_obj, shared_integers.
      do 3 f_equal. lia.
    + destruct (h !! shared_integers w) eqn:E; [|done]. apply Hh in E. unfold shared_integers, REDIS_SHARED_INTEGERS in *. lia.
Qed.

Lemma store_of_lookup h s a o : h !! a = Some o -> heap (store_of h s) !! a = Some o.
Proof. intros H. cbn. by apply lookup_union_Some_l. Qed.

Lemma store_of_int h s w : 0 <= w < REDIS_SHARED_INTEGERS -> h !! shared_integers w = None ->
  heap (store_of h s) !! shared_integers w = Some (int_obj w).
Proof.
  intros Hw Hh. cbn. rewrite lookup_union_r, int_heap_lookup, decide_True by (done || (unfold shared_integers; lia)).
  unfold shared_integers. do 2 f_equal. lia.
Qed.

(** The references of [l], all different: one for each string object of [h]. *)
Lemma store_of_owns h s l : next_addr s = 20000%positive ->
  map_Forall (fun a o => (10000 < a < 20000)%positive /\
    (o_type o = REDIS_STRING -> o_refcount o = 1 /\ a ∈ l)) h -> NoDup l ->
  Forall (fun b => exists o x, h !! b = Some o /\ str_obj_ok o x) l -> owns (store_of h s) l.
Proof.
  intros Hn Hh Hl Hin. assert (HS : store_ok (store_of h s)).
  { apply store_of_ok; [done|]. intros a o Ha. by apply (Hh a o Ha). }
  split; [apply HS| | |].
  - intros w Hw. destruct (st_ints _ HS w Hw) as (rc & vr & _ & H). eauto.
  - intros b o Hb Hto. cbn in Hb. assert (Hc : (count_occ Pos.eq_dec l b <= 1)%nat).
    { by apply NoDup_count_occ, NoDup_ListNoDup. }
    apply lookup_union_Some_raw in Hb as [Hb|[Hb1 Hb2]].
    + destruct (Hh b o Hb) as [Hr Hrc]. destruct (Hrc Hto) as [-> Hbl].
      apply list_elem_of_In, (count_occ_In Pos.eq_dec) in Hbl.
      unfold refs. rewrite decide_False by (unfold REDIS_SHARED_INTEGERS; lia). lia.
    + rewrite int_heap_lookup in Hb2. case_decide as Hd; [|done]. injection Hb2 as <-. unfold refs. rewrite decide_True by done.
      assert (b ∉ l) as Hnl.
      { intros Hbl. apply (proj1 (Forall_forall _ _) Hin) in Hbl as (o & x & Ho & _). congruence. }
      rewrite (proj1 (count_occ_not_In Pos.eq_dec l b)) by (by rewrite <- list_elem_of_In). cbn. lia.
  - intros b Hb. apply (proj1 (Forall_forall _ _) Hin) in Hb as (o & x & Ho & Hx). exists x, o. split; [by apply store_of_lookup|done].
Qed.


End Heap.
