(* ===== verification/TSet.v ===== *)
(** * t_set.c: the set type in its two encodings, and the set commands

    The hash table of a set is the list of its key objects in iteration
    order; two key objects are the same key when they stand for the same bytes
    (dictEncObjKeyCompare), whatever their encodings.  dictAdd puts a new key
    last: the order of a real table depends on the hash seed, and nothing
    proved below depends on it. *)
From S2P Require Import Prelude CStr Intset Util Server Object Db TString.
Import Intset Object Db TString.

Module TSet.

(** ** The set's dict *)
Fixpoint dict_find (l : list addr) (b : sds) : M (option (list addr * addr * list addr)) :=
  match l with
  | [] => mret None
  | a :: r =>
    o ← deref a;
    k ← lift (string_bytes o);
    if bool_decide (k = b) then mret (Some ([], a, r))
    else
      f ← dict_find r b;
      mret (match f with
            | Some (l1, x, l2) => Some (a :: l1, x, l2)
            | None => None
            end)
  end.

Definition obj_bytes (a : addr) : M sds := o ← deref a; lift (string_bytes o).

Definition set_dict (o : robj) : outcome (list addr) :=
  match o_ptr o with PSetDict l => Done l | _ => Fault Panic end.
Definition set_intset (o : robj) : outcome intset :=
  match o_ptr o with PIntset i => Done i | _ => Fault Panic end.

(** dictAdd: [false] is DICT_ERR. *)
Definition dictAdd (subject value : addr) : M bool :=
  o ← deref subject;
  l ← lift (set_dict o);
  b ← obj_bytes value;
  f ← dict_find l b;
  match f with
  | Some _ => mret false
  | None => _ ← upd_obj subject (set_o_ptr (PSetDict (l ++ [value]))); mret true
  end.

(** dictDelete releases the key object. *)
Definition dictDelete (subject value : addr) : M bool :=
  o ← deref subject;
  l ← lift (set_dict o);
  b ← obj_bytes value;
  f ← dict_find l b;
  match f with
  | Some (l1, x, l2) =>
    _ ← upd_obj subject (set_o_ptr (PSetDict (l1 ++ l2)));
    _ ← decrRefCount x;
    mret true
  | None => mret false
  end.

(** ** The set type *)
Definition setTypeCreate (value : addr) : M addr :=
  o ← deref value;
  r ← lift (isObjectRepresentableAsLongLong o);
  match r with Some _ => createIntsetObject | None => createSetObject end.

(** The elements of the intset, by intsetGet at 0, 1, ... until it fails. *)
Fixpoint intset_elems (fuel : nat) (i : intset) (ii : Z) : outcome (list Z) :=
  match fuel with
  | O => Fault OutOfFuel
  | S fuel' =>
    r ← intsetGet i ii;
    match r with
    | None => mret []
    | Some v => rest ← intset_elems fuel' i (ii + 1); mret (v :: rest)
    end
  end.

(** The conversion loop: every element is a new object in the dict [d]. *)
Fixpoint convert_loop (vs : list Z) (d : list addr) : M (list addr) :=
  match vs with
  | [] => mret d
  | v :: r =>
    element ← createStringObjectFromLongLong v;
    b ← obj_bytes element;
    f ← dict_find d b;
    _ ← lift (require_b AssertFail (bool_decide (f = None)));
    convert_loop r (d ++ [element])
  end.

Definition setTypeConvert (setobj : addr) : M unit :=
  o ← deref setobj;
  _ ← lift (require_b AssertFail
        (bool_decide (o_type o = REDIS_SET /\ o_encoding o = ENC_INTSET)));
  i ← lift (set_intset o);
  vs ← lift (intset_elems (S (Z.to_nat (intsetLen i))) i 0);
  d ← convert_loop vs [];
  upd_obj setobj (fun o => set_o_ptr (PSetDict d) (set_o_encoding ENC_HT o)).

Definition setTypeAdd (subject value : addr) : M bool :=
  o ← deref subject;
  match o_encoding o with
  | ENC_HT =>
    ok ← dictAdd subject value;
    if (ok : bool) then _ ← incrRefCount value; mret true else mret false
  | ENC_INTSET =>
    ov ← deref value;
    r ← lift (isObjectRepresentableAsLongLong ov);
    match r with
    | Some llval =>
      i ← lift (set_intset o);
      x ← lift (intsetAdd fresh i llval);
      _ ← upd_obj subject (set_o_ptr (PIntset (fst x)));
      if (snd x : bool) then
        cf ← gets conf;
        _ ← when (intsetLen (fst x) >? set_max_intset_entries cf) (setTypeConvert subject);
        mret true
      else mret false
    | None =>
      _ ← setTypeConvert subject;
      ok ← dictAdd subject value;
      _ ← lift (require_b AssertFail ok);
      _ ← incrRefCount value;
      mret true
    end
  | _ => throw Panic
  end.

(** (htNeedsResize and dictResize change the size of the table only.) *)
Definition setTypeRemove (setobj value : addr) : M bool :=
  o ← deref setobj;
  match o_encoding o with
  | ENC_HT => dictDelete setobj value
  | ENC_INTSET =>
    ov ← deref value;
    r ← lift (isObjectRepresentableAsLongLong ov);
    match r with
    | Some llval =>
      i ← lift (set_intset o);
      x ← lift (intsetRemove fresh i llval);
      _ ← upd_obj setobj (set_o_ptr (PIntset (fst x)));
      mret (snd x)
    | None => mret false
    end
  | _ => throw Panic
  end.

Definition setTypeIsMember (subject value : addr) : M bool :=
  o ← deref subject;
  match o_encoding o with
  | ENC_HT =>
    l ← lift (set_dict o);
    b ← obj_bytes value;
    f ← dict_find l b;
    mret (bool_decide (is_Some f))
  | ENC_INTSET =>
    ov ← deref value;
    r ← lift (isObjectRepresentableAsLongLong ov);
    match r with
    | Some llval => i ← lift (set_intset o); lift (intsetFind i llval)
    | None => mret false
    end
  | _ => throw Panic
  end.

(** [si_di]: the keys that the dict iterator has still to visit. *)
Record setTypeIterator := mkSi {
  si_subject : addr;
  si_encoding : oenc;
  si_ii : Z;
  si_di : list addr
}.

Definition setTypeInitIterator (subject : addr) : M setTypeIterator :=
  o ← deref subject;
  match o_encoding o with
  | ENC_HT => l ← lift (set_dict o); mret (mkSi subject ENC_HT 0 l)
  | ENC_INTSET => mret (mkSi subject ENC_INTSET 0 [])
  | _ => throw Panic
  end.

(** [None] is the -1 that ends the iteration. *)
Definition setTypeNext (si : setTypeIterator) : M (option (addr + Z) * setTypeIterator) :=
  match si_encoding si with
  | ENC_HT =>
    mret (match si_di si with
          | [] => (None, si)
          | a :: r => (Some (inl a), mkSi (si_subject si) ENC_HT 0 r)
          end)
  | _ =>
    o ← deref (si_subject si);
    i ← lift (set_intset o);
    r ← lift (intsetGet i (si_ii si));
    mret (inr <$> r, mkSi (si_subject si) (si_encoding si) (si_ii si + 1) [])
  end.

Definition setTypeNextObject (si : setTypeIterator) : M (option addr * setTypeIterator) :=
  r ← setTypeNext si;
  match r with
  | (None, si') => mret (None, si')
  | (Some (inr intele), si') => e ← createStringObjectFromLongLong intele; mret (Some e, si')
  | (Some (inl objele), si') => _ ← incrRefCount objele; mret (Some objele, si')
  end.

(** dictGetRandomKey on a set's dict: the key that one value of random()
    selects. *)
Definition setTypeRandomElement (setobj : addr) : M (addr + Z) :=
  o ← deref setobj;
  match o_encoding o with
  | ENC_HT =>
    l ← lift (set_dict o);
    r ← draw;
    a ← lift (expect NullDeref (l !! Z.to_nat (r mod Z.of_nat (length l))));
    mret (inl a)
  | ENC_INTSET =>
    i ← lift (set_intset o);
    r ← draw;
    v ← lift (intsetRandom i r);
    mret (inr v)
  | _ => throw Panic
  end.

Definition setTypeSize (o : robj) : outcome Z :=
  match o_encoding o with
  | ENC_HT => l ← set_dict o; mret (Z.of_nat (length l))
  | ENC_INTSET => i ← set_intset o; mret (intsetLen i)
  | _ => Fault Panic
  end.

(** ** Commands *)
Fixpoint sadd_loop (c : client) (set : addr) (js : list nat) (added : Z) : M (client * Z) :=
  match js with
  | [] => mret (c, added)
  | j :: r =>
    p ← encode_arg c j;
    ok ← setTypeAdd set (snd p);
    sadd_loop (fst p) set r (if (ok : bool) then added + 1 else added)
  end.

Definition saddCommand (c : client) : M client :=
  let i := cl_db c in
  key ← arg_str c 1;
  r ← lookupKeyWrite i key;
  set ← (match r with
         | None =>
           a2 ← lift (argv c 2);
           set ← setTypeCreate a2;
           _ ← dbAdd i key set;
           mret (Some set)
         | Some set =>
           o ← deref set;
           mret (if bool_decide (o_type o = REDIS_SET) then Some set else None)
         end);
  match set with
  | None => mret (add_reply wrongtypeerr c)
  | Some set =>
    p ← sadd_loop c set (seq 2 (Z.to_nat (cl_argc c - 2))) 0;
    let '(c, added) := p in
    _ ← when (negb (added =? 0))
          (_ ← signalModifiedKey i key; log_event (Notify "sadd" key i));
    _ ← incr_dirty added;
    mret (add_reply (RInt added) c)
  end.

(** Returns the number of removed members and whether the key went too. *)
Fixpoint srem_loop (c : client) (key : sds) (set : addr) (js : list nat) (deleted : Z)
    : M (Z * bool) :=
  match js with
  | [] => mret (deleted, false)
  | j :: r =>
    a ← lift (argv c j);
    ok ← setTypeRemove set a;
    if (ok : bool) then
      o ← deref set;
      n ← lift (setTypeSize o);
      if n =? 0 then _ ← dbDelete (cl_db c) key; mret (deleted + 1, true)
      else srem_loop c key set r (deleted + 1)
    else srem_loop c key set r deleted
  end.

Definition sremCommand (c : client) : M client :=
  let i := cl_db c in
  key ← arg_str c 1;
  r ← lookupKeyWriteOrReply c key (RInt 0);
  match r with
  | (c, None) => mret c
  | (c, Some set) =>
    o ← deref set;
    match checkType c o REDIS_SET with
    | (c, true) => mret c
    | (c, false) =>
      p ← srem_loop c key set (seq 2 (Z.to_nat (cl_argc c - 2))) 0;
      let '(deleted, keyremoved) := p in
      _ ← when (negb (deleted =? 0))
            (_ ← signalModifiedKey i key;
             _ ← log_event (Notify "srem" key i);
             _ ← when keyremoved (log_event (Notify "del" key i));
             incr_dirty deleted);
      mret (add_reply (RInt deleted) c)
    end
  end.

(** The part of SMOVE after the element has left the source set. *)
Definition smove_finish (c : client) (src dst : sds) (srcset : addr) (dstset : option addr)
    (ele : addr) : M client :=
  let i := cl_db c in
  _ ← log_event (Notify "srem" src i);
  o ← deref srcset;
  n ← lift (setTypeSize o);
  _ ← when (n =? 0) (_ ← dbDelete i src; log_event (Notify "del" src i));
  _ ← signalModifiedKey i src;
  _ ← signalModifiedKey i dst;
  _ ← incr_dirty 1;
  d ← (match dstset with
       | Some d => mret d
       | None => d ← setTypeCreate ele; _ ← dbAdd i dst d; mret d
       end);
  ok ← setTypeAdd d ele;
  _ ← when ok (_ ← incr_dirty 1; log_event (Notify "sadd" dst i));
  mret (add_reply (RInt 1) c).

Definition smoveCommand (c : client) : M client :=
  let i := cl_db c in
  src ← arg_str c 1;
  dst ← arg_str c 2;
  srcset ← lookupKeyWrite i src;
  dstset ← lookupKeyWrite i dst;
  p ← encode_arg c 3;
  let '(c, ele) := p in
  match srcset with
  | None => mret (add_reply (RInt 0) c)
  | Some srcset =>
    o ← deref srcset;
    match checkType c o REDIS_SET with
    | (c, true) => mret c
    | (c, false) =>
      bad ← (match dstset with
             | Some d => od ← deref d; mret (checkType c od REDIS_SET)
             | None => mret (c, false)
             end);
      match bad with
      | (c, true) => mret c
      | (c, false) =>
        if bool_decide (Some srcset = dstset) then mret (add_reply (RInt 1) c)
        else
          ok ← setTypeRemove srcset ele;
          if negb ok then mret (add_reply (RInt 0) c)
          else smove_finish c src dst srcset dstset ele
      end
    end
  end.

Definition sismemberCommand (c : client) : M client :=
  key ← arg_str c 1;
  r ← lookupKeyReadOrReply c key (RInt 0);
  match r with
  | (c, None) => mret c
  | (c, Some set) =>
    o ← deref set;
    match checkType c o REDIS_SET with
    | (c, true) => mret c
    | (c, false) =>
      p ← encode_arg c 2;
      b ← setTypeIsMember set (snd p);
      mret (add_reply (RInt (if (b : bool) then 1 else 0)) (fst p))
    end
  end.

Definition scardCommand (c : client) : M client :=
  key ← arg_str c 1;
  r ← lookupKeyReadOrReply c key (RInt 0);
  match r with
  | (c, None) => mret c
  | (c, Some set) =>
    o ← deref set;
    match checkType c o REDIS_SET with
    | (c, true) => mret c
    | (c, false) => n ← lift (setTypeSize o); mret (add_reply (RInt n) c)
    end
  end.

(** rewriteClientCommandVector (networking.c): the new arguments are retained,
    the old ones released. *)
Definition rewriteClientCommandVector (c : client) (args : list addr) : M client :=
  _ ← for_each args incrRefCount;
  _ ← for_each (seq 0 (Z.to_nat (cl_argc c))) (fun j => a ← lift (argv c j); decrRefCount a);
  mret (set_cl_argc (Z.of_nat (length args)) (set_cl_argv (map Some args) c)).

Definition spopCommand (c : client) : M client :=
  let i := cl_db c in
  key ← arg_str c 1;
  r ← lookupKeyWriteOrReply c key RNull;
  match r with
  | (c, None) => mret c
  | (c, Some set) =>
    o ← deref set;
    match checkType c o REDIS_SET with
    | (c, true) => mret c
    | (c, false) =>
      x ← setTypeRandomElement set;
      ele ← (match x with
             | inr llele =>
               ele ← createStringObjectFromLongLong llele;
               iset ← lift (set_intset o);
               y ← lift (intsetRemove fresh iset llele);
               _ ← upd_obj set (set_o_ptr (PIntset (fst y)));
               mret ele
             | inl ele => _ ← incrRefCount ele; _ ← setTypeRemove set ele; mret ele
             end);
      _ ← log_event (Notify "spop" key i);
      aux ← createStringObject (str "SREM");
      a1 ← lift (argv c 1);
      c ← rewriteClientCommandVector c [aux; a1; ele];
      _ ← decrRefCount ele;
      _ ← decrRefCount aux;
      oe ← deref ele;
      c ← lift (addReplyBulk c oe);
      o' ← deref set;
      n ← lift (setTypeSize o');
      _ ← when (n =? 0) (_ ← dbDelete i key; log_event (Notify "del" key i));
      _ ← signalModifiedKey i key;
      _ ← incr_dirty 1;
      mret c
    end
  end.

(** ** Members of a hash-table set

    [elem s r p]: the address and bytes [p] are a raw string object with at
    least [r] references. *)
Definition elem (s : server) (r : Z) (p : addr * sds) : Prop :=
  exists rc vr, heap s !! p.1 = Some (mkObj REDIS_STRING ENC_RAW rc vr (PSds p.2)) /\ r <= rc.

Lemma elem_weaken s r r' p : r' <= r -> elem s r p -> elem s r' p.
Proof. intros H (rc & vr & ? & ?). exists rc, vr. split; [done|lia]. Qed.

Lemma elems_weaken s r r' ps : r' <= r -> Forall (elem s r) ps -> Forall (elem s r') ps.
Proof. intros H Hp. eapply Forall_impl; [exact Hp|]. intros p. by apply elem_weaken. Qed.

(** Elements at other addresses survive a write. *)
Lemma elem_frame s s' r p : heap s' !! p.1 = heap s !! p.1 -> elem s r p -> elem s' r p.
Proof. intros H (rc & vr & ? & ?). exists rc, vr. by rewrite H. Qed.

Lemma dict_find_none ps y s : Forall (elem s 1) ps -> y ∉ map snd ps -> dict_find (map fst ps) y s = Done (None, s).
Proof.
  induction ps as [|[e x] ps IH]; intros Hp Hy; [done|]. apply Forall_cons in Hp as [(rc & vr & He & _) Hp].
  cbn [map fst snd] in *. cbn [dict_find]. rewrite (bind_deref _ _ _ _ He). cbn [string_bytes o_ptr]. rewrite bind_lift.
  rewrite bool_decide_false by set_solver. rewrite (prog_bind_step _ _ _ _ _ (IH Hp ltac:(set_solver))). done.
Qed.

Lemma dict_find_some p1 e y p2 s : Forall (elem s 1) p1 -> elem s 1 (e, y) -> y ∉ map snd p1 ->
  dict_find (map fst (p1 ++ (e, y) :: p2)) y s = Done (Some (map fst p1, e, map fst p2), s).
Proof.
  induction p1 as [|[e' x] p1 IH]; intros Hp He Hy; cbn [map app fst snd dict_find] in *.
  - destruct He as (rc & vr & He & _). rewrite (bind_deref _ _ _ _ He). cbn [string_bytes o_ptr]. rewrite bind_lift.
    by rewrite bool_decide_true.
  - apply Forall_cons in Hp as [(rc & vr & He' & _) Hp]. rewrite (bind_deref _ _ _ _ He'). cbn [string_bytes o_ptr].
    rewrite bind_lift, bool_decide_false by set_solver.
    by rewrite (prog_bind_step _ _ _ _ _ (IH Hp He ltac:(set_solver))).
Qed.

(** The object [so] is a set with the members [ps], with distinct bytes. *)
Record ht_set (s : server) (so : addr) (os : robj) (ps : list (addr * sds)) : Prop := {
  hs_obj : heap s !! so = Some os;
  hs_type : o_type os = REDIS_SET;
  hs_enc : o_encoding os = ENC_HT;
  hs_ptr : o_ptr os = PSetDict (map fst ps);
  hs_elems : Forall (elem s 1) ps;
  hs_nodup : NoDup (map snd ps);
  hs_not : so ∉ map fst ps
}.

(** What a set command leaves besides the objects [h]. *)
Record set_frame (h : gmap addr robj) (s s' : server) : Prop := {
  sf_heap : heap s' = h;
  sf_next : next_addr s' = next_addr s;
  sf_dbs : dbs s' = dbs s;
  sf_conf : conf s' = conf s;
  sf_kv : kv s' = kv s
}.

Lemma set_tail i key what n r (c : client) s :
  exists s', (_ ← when (negb (n =? 0)) (_ ← signalModifiedKey i key; log_event (Notify what key i));
              _ ← incr_dirty n; mret (add_reply r c)) s = Done (add_reply r c, s') /\
    set_frame (heap s) s s'.
Proof.
  destruct (negb (n =? 0)); cbn [when].
  - unfold signalModifiedKey. destruct (touchWatchedKey_frame i key s) as (s1 & E1 & A1 & A2 & A3 & A4 & A5 & _).
    rewrite bind_assoc, (prog_bind_step _ _ _ _ _ E1). unfold log_event, incr_dirty. run.
    eexists. split; [reflexivity|]. by split.
  - run. unfold incr_dirty. run. eexists. split; [reflexivity|]. by split.
Qed.

(** SADD of one new member, not an integer, to an existing set. *)
Lemma sadd_one c key so os ps b ob y s :
  cl_argc c = 3 -> str_arg s c 1 key -> text_arg s c 2 b ob y -> live s (cl_db c) key ->
  lookupKey s (cl_db c) key = Some so -> ht_set s so os ps -> so <> b -> y ∉ map snd ps ->
  exists s', saddCommand c s = Done (add_reply (RInt 1) c, s') /\
    set_frame (<[b := set_o_refcount 2 ob]> (<[so := set_o_ptr (PSetDict (map fst ps ++ [b])) os]> (heap s))) s s'.
Proof.
  intros Hc Hk Hb HL Hl [H1 H2 H3 H4 H5 H6 H7] Hne Hy. unfold saddCommand. rewrite (bind_arg_str _ _ _ _ _ Hk).
  rewrite (prog_bind_step _ _ _ _ _ (lookupKeyWrite_live _ _ _ HL)), Hl, bind_assoc, (bind_deref _ _ _ _ H1), bind_mret.
  rewrite H2, bool_decide_true by done. rewrite Hc. change (seq 2 (Z.to_nat (3 - 2))) with [2%nat]. cbn [sadd_loop].
  rewrite bind_assoc, (prog_bind_step _ _ _ _ _ (encode_text_arg _ _ _ _ _ _ Hb)). cbn [fst snd]. rewrite bind_assoc.
  destruct Hb as [B1 B2 B3 B4 B5 B6 B7]. unfold setTypeAdd. rewrite bind_assoc, (bind_deref _ _ _ _ H1), H3, bind_assoc.
  unfold dictAdd. rewrite bind_assoc, (bind_deref _ _ _ _ H1). unfold set_dict. rewrite H4, bind_assoc, bind_lift, bind_assoc.
  unfold obj_bytes. rewrite bind_assoc, (bind_deref _ _ _ _ B2). unfold string_bytes. rewrite B6, bind_lift, bind_assoc.
  rewrite (prog_bind_step _ _ _ _ _ (dict_find_none ps y s H5 Hy)), bind_assoc, (bind_upd_obj _ _ _ _ _ H1), bind_mret.
  rewrite bind_assoc. unfold incrRefCount. rewrite (bind_upd_obj b ob) by (cbn; by rewrite lookup_insert_ne).
  rewrite !bind_mret. cbn [heap set_heap]. rewrite B5.
  destruct (set_tail (cl_db c) key "sadd" (0 + 1) (RInt (0 + 1)) c
    (set_heap (<[b := set_o_refcount (1 + 1) ob]> (<[so := set_o_ptr (PSetDict (map fst ps ++ [b])) os]> (heap s))) s))
    as (s' & E & [F1 F2 F3 F4 F5]).
  exists s'. split; [exact E|]. by split.
Qed.

Lemma setTypeSize_ht os l : o_encoding os = ENC_HT ->
  setTypeSize (set_o_ptr (PSetDict l) os) = Done (Z.of_nat (length l)).
Proof. intros H. unfold setTypeSize. cbn. by rewrite H. Qed.

(** SREM of one member that is also held elsewhere, from a set of several. *)
Lemma srem_one c key so os p1 e x p2 a oa s :
  cl_argc c = 3 -> str_arg s c 1 key -> cl_argv c !! 2%nat = Some (Some a) -> heap s !! a = Some oa ->
  o_ptr oa = PSds x -> live s (cl_db c) key -> lookupKey s (cl_db c) key = Some so ->
  ht_set s so os (p1 ++ (e, x) :: p2) -> elem s 2 (e, x) -> p1 ++ p2 <> [] ->
  exists s' oe, sremCommand c s = Done (add_reply (RInt 1) c, s') /\ heap s !! e = Some oe /\
    set_frame (<[e := set_o_refcount (o_refcount oe - 1) oe]>
      (<[so := set_o_ptr (PSetDict (map fst (p1 ++ p2))) os]> (heap s))) s s'.
Proof.
  intros Hc Hk Ha Hoa Hx HL Hl [H1 H2 H3 H4 H5 H6 H7] (rc & vr & He & Hrc) Hn. cbn [fst snd] in He.
  assert (Hso : so <> e) by (rewrite map_app in H7; set_solver).
  assert (Hx1 : x ∉ map snd p1) by (rewrite map_app in H6; apply NoDup_app in H6 as (_ & H6 & _); set_solver).
  unfold sremCommand. rewrite (bind_arg_str _ _ _ _ _ Hk). unfold lookupKeyWriteOrReply.
  rewrite bind_assoc, (prog_bind_step _ _ _ _ _ (lookupKeyWrite_live _ _ _ HL)), Hl, bind_mret, (bind_deref _ _ _ _ H1).
  unfold checkType. rewrite H2, bool_decide_true by done. rewrite Hc. change (seq 2 (Z.to_nat (3 - 2))) with [2%nat].
  cbn [srem_loop]. rewrite bind_assoc, (argv_Done _ _ _ Ha), bind_lift, bind_assoc.
  unfold setTypeRemove. rewrite bind_assoc, (bind_deref _ _ _ _ H1), H3. unfold dictDelete.
  rewrite bind_assoc, (bind_deref _ _ _ _ H1). unfold set_dict. rewrite H4, bind_assoc, bind_lift, bind_assoc.
  unfold obj_bytes. rewrite bind_assoc, (bind_deref _ _ _ _ Hoa). unfold string_bytes. rewrite Hx, bind_lift, bind_assoc.
  apply Forall_app in H5 as [H5 H5']. apply Forall_cons in H5' as [H5' _].
  rewrite (prog_bind_step _ _ _ _ _ (dict_find_some p1 e x p2 s H5 H5' Hx1)), bind_assoc, (bind_upd_obj _ _ _ _ _ H1).
  set (s1 := set_heap _ s). rewrite bind_assoc.
  assert (He1 : heap s1 !! e = Some (mkObj REDIS_STRING ENC_RAW rc vr (PSds x))) by (cbn; by rewrite lookup_insert_ne).
  rewrite (prog_bind_step _ _ _ _ _ (decrRefCount_shared s1 e _ He1 ltac:(cbn; lia))), bind_mret, bind_assoc.
  set (s2 := set_heap _ s1). assert (Hs2 : heap s2 !! so = Some (set_o_ptr (PSetDict (map fst p1 ++ map fst p2)) os)).
  { cbn. by rewrite lookup_insert_ne, lookup_insert_eq by done. }
  rewrite (bind_deref _ _ _ _ Hs2), setTypeSize_ht, bind_assoc, bind_lift by done.
  rewrite (proj2 (Z.eqb_neq _ _)) by (rewrite <- map_app, length_map; destruct (p1 ++ p2); simpl; [done|lia]).
  rewrite bind_mret. change (negb (0 + 1 =? 0)) with true. cbn [when]. rewrite bind_assoc. unfold signalModifiedKey.
  destruct (touchWatchedKey_frame (cl_db c) key s2) as (s3 & E3 & A1 & A2 & A3 & A4 & A5 & _).
  rewrite (prog_bind_step _ _ _ _ _ E3). unfold log_event, incr_dirty. run.
  eexists _, _. split; [reflexivity|]. split; [exact He|]. rewrite map_app. by split.
Qed.


(** The set after an allocation elsewhere, an added and a removed member. *)
Lemma ht_set_frame s s' so os ps : ht_set s so os ps ->
  (forall a o, heap s !! a = Some o -> heap s' !! a = Some o) -> ht_set s' so os ps.
Proof.
  intros [H1 H2 H3 H4 H5 H6 H7] Hh. split; try done; [by apply Hh|]. eapply Forall_impl; [exact H5|].
  intros p (rc & vr & Hp & ?). exists rc, vr. split; [by apply Hh|done].
Qed.

Lemma ht_set_added s s' so os ps n y rc vr :
  ht_set s so os ps -> n <> so -> n ∉ map fst ps -> y ∉ map snd ps -> 1 <= rc ->
  heap s' = <[n := mkObj REDIS_STRING ENC_RAW rc vr (PSds y)]>
              (<[so := set_o_ptr (PSetDict (map fst ps ++ [n])) os]> (heap s)) ->
  ht_set s' so (set_o_ptr (PSetDict (map fst ps ++ [n])) os) (ps ++ [(n, y)]).
Proof.
  intros [H1 H2 H3 H4 H5 H6 H7] Hn Hnp Hy Hrc Hh. split; try done.
  - rewrite Hh, lookup_insert_ne, lookup_insert_eq by done. done.
  - cbn. by rewrite map_app.
  - apply Forall_app. split.
    + apply Forall_forall. intros p Hp. eapply elem_frame; [|exact (proj1 (Forall_forall _ _) H5 p Hp)].
      assert (p.1 ∈ map fst ps) by (by apply list_elem_of_fmap_2). rewrite Hh, !lookup_insert_ne by set_solver. done.
    + constructor; [|constructor]. exists rc, vr. rewrite Hh. cbn [fst snd]. by rewrite lookup_insert_eq.
  - rewrite map_app. apply NoDup_app. split; [done|]. split; [set_solver|]. apply NoDup_singleton.
  - rewrite map_app, elem_of_app. cbn. set_solver.
Qed.

Lemma ht_set_addr_ne s so os p1 e x p2 p : ht_set s so os (p1 ++ (e, x) :: p2) -> p ∈ p1 ++ p2 -> p.1 <> e.
Proof.
  intros [_ _ _ _ H5 H6 _] Hp <-. rewrite map_app in H6. cbn [map] in H6.
  apply NoDup_app in H6 as (_ & H6 & H6'). apply NoDup_cons in H6' as [H6' _].
  apply Forall_app in H5 as [H5 H5']. apply Forall_cons in H5' as [(rc & vr & He & _) H5'].
  assert (Hb : p.2 = x).
  { apply elem_of_app in Hp as [Hp|Hp]; [pose proof (proj1 (Forall_forall _ _) H5 _ Hp) as Hq|
      pose proof (proj1 (Forall_forall _ _) H5' _ Hp) as Hq]; destruct Hq as (? & ? & Hq & _); cbn in *; congruence. }
  apply elem_of_app in Hp as [Hp|Hp]; apply (list_elem_of_fmap_2 snd) in Hp; cbn in Hp; rewrite Hb in Hp; set_solver.
Qed.

Lemma ht_set_removed s s' so os p1 e x p2 oe :
  ht_set s so os (p1 ++ (e, x) :: p2) -> so <> e ->
  heap s' = <[e := oe]> (<[so := set_o_ptr (PSetDict (map fst (p1 ++ p2))) os]> (heap s)) ->
  ht_set s' so (set_o_ptr (PSetDict (map fst (p1 ++ p2))) os) (p1 ++ p2).
Proof.
  intros HS Hne Hh. pose proof (fun p => ht_set_addr_ne _ _ _ _ _ _ _ p HS) as Hse. destruct HS as [H1 H2 H3 H4 H5 H6 H7].
  assert (Hsub : forall p, p ∈ p1 ++ p2 -> p ∈ p1 ++ (e, x) :: p2) by set_solver.
  split; try done.
  - rewrite Hh, lookup_insert_ne, lookup_insert_eq by done. done.
  - apply Forall_forall. intros p Hp. eapply elem_frame; [|exact (proj1 (Forall_forall _ _) H5 p (Hsub p Hp))].
    assert (p.1 <> so) by (intros E; apply H7; rewrite <- E; by apply list_elem_of_fmap_2, Hsub).
    rewrite Hh, !lookup_insert_ne by (try done; intros E; by apply (Hse p Hp)). done.
  - rewrite !map_app in *. cbn [map] in H6. apply NoDup_app in H6 as (A & B & C). apply NoDup_cons in C as [_ C].
    apply NoDup_app. set_solver.
  - rewrite !map_app in *. set_solver.
Qed.


End TSet.
