(* ===== verification/TSetSpec.v ===== *)
(** * The set type refines a set of strings

    [set_obj s o X rs] says that the object [o], in either encoding, is a set with
    the members [X] and holds the references [rs] to string objects.  Adding,
    removing, testing and iterating do to [X] what they should, whichever the
    encodings of the set and of the string, and keep the counts of references. *)
From S2P Require Import Prelude CStr Intset Util Server Object Db TString Heap TSet.
Import Object Db TString Heap TSet.

Module TSetSpec.

Abbreviation text := Util.ll2string_text (only parsing).

Definition set_obj (s : server) (o : robj) (X : gset sds) (rs : list addr) : Prop :=
  o_type o = REDIS_SET /\
  ((o_encoding o = ENC_INTSET /\ rs = [] /\ exists i zs, o_ptr o = PIntset i /\ Intset.repr i zs /\ X = list_to_set (map text zs)) \/
   (o_encoding o = ENC_HT /\ o_ptr o = PSetDict rs /\ exists xs, Forall2 (holds s) rs xs /\ NoDup xs /\ X = list_to_set xs)).

Lemma sorted_text zs : Forall (in_s 64) zs -> StronglySorted Z.lt zs -> NoDup (map text zs).
Proof.
  intros Hr Hs. induction Hs as [|z zs Hs IH Hz]; cbn; [constructor|]. apply Forall_cons in Hr as [Hz64 Hr]. constructor; [|by apply IH].
  intros Hin. apply list_elem_of_In, in_map_iff in Hin as (y & Ey & Hy). apply list_elem_of_In in Hy.
  rewrite Forall_forall in Hz, Hr. specialize (Hz y Hy). specialize (Hr y Hy).
  apply (f_equal Util.string2ll) in Ey. rewrite !Util.string2ll_text in Ey by done. injection Ey. lia.
Qed.

Lemma intset_range i zs : Intset.repr i zs -> Forall (in_s 64) zs.
Proof.
  intros [He _ _ Hr _]. eapply Forall_impl; [exact Hr|]. intros z Hz. eapply Intset.in_s_mono; [| |exact Hz]; destruct He as [-> |[-> | ->]]; lia.
Qed.

Lemma find_absent y s : forall l xs, Forall2 (holds s) l xs -> y ∉ xs -> dict_find l y s = Done (None, s).
Proof.
  induction 1 as [|a x l xs (o & Ho & Hx) HF IH]; intros Hy; [done|]. cbn [dict_find]. rewrite (bind_deref _ _ _ _ Ho).
  rewrite (string_bytes_ok _ _ Hx), bind_lift, bool_decide_false by set_solver.
  by rewrite (prog_bind_step _ _ _ _ _ (IH ltac:(set_solver))).
Qed.

Lemma obj_bytes_ok a x s : holds s a x -> obj_bytes a s = Done (x, s).
Proof. intros (o & Ho & Hx). unfold obj_bytes. rewrite (bind_deref _ _ _ _ Ho), (string_bytes_ok _ _ Hx). done. Qed.

Lemma intset_elems_ok i zs : Intset.repr i zs -> Z.of_nat (length zs) < 2 ^ 32 -> forall fuel p, (length zs - p < fuel)%nat -> (p <= length zs)%nat ->
  intset_elems fuel i (Z.of_nat p) = Done (drop p zs).
Proof.
  intros HR Hmax. induction fuel as [|fuel IH]; intros p Hf Hp; [lia|]. cbn [intset_elems]. unfold Intset.intsetGet.
  rewrite (Intset.repr_len _ _ HR). destruct (decide (p < length zs)%nat) as [Hlt|Hge].
  - destruct (lookup_lt_is_Some_2 zs p Hlt) as [v Hv]. rewrite (proj2 (Z.ltb_lt _ _)) by lia.
    rewrite (Intset.get_lookup _ _ _ _ HR Hv), !bind_Done. replace (Z.of_nat p + 1) with (Z.of_nat (S p)) by lia.
    rewrite IH by lia. by rewrite bind_Done, (drop_S _ _ _ Hv).
  - rewrite (proj2 (Z.ltb_ge _ _)) by lia. rewrite drop_ge by lia. done.
Qed.

Lemma own_set_convert ext : forall zs d ds s, owns s (d ++ ext) -> Forall2 (holds s) d ds -> Forall (in_s 64) zs -> NoDup (ds ++ map text zs) ->
  exists d' s', convert_loop zs d s = Done (d', s') /\ Forall2 (holds s') d' (ds ++ map text zs) /\ owns s' (d' ++ ext) /\ own_step ext None s s'.
Proof.
  induction zs as [|z zs IH]; intros d ds s HO HF Hz HN; cbn [convert_loop map] in *.
  - exists d, s. rewrite app_nil_r. repeat (split; [done|]). apply own_step_refl.
  - apply Forall_cons in Hz as [Hz Hzs]. destruct (own_createFromLongLong s (d ++ ext) z HO Hz) as (e & s1 & E1 & HO1 & He & HS1).
    rewrite (prog_bind_step _ _ _ _ _ E1), (prog_bind_step _ _ _ _ _ (obj_bytes_ok _ _ _ He)).
    assert (HF1 : Forall2 (holds s1) d ds) by (eapply own_step_holds; [apply (HS1 d)|done|done]).
    rewrite (prog_bind_step _ _ _ _ _ (find_absent (text z) s1 d ds HF1 ltac:(apply NoDup_app in HN; set_solver))).
    rewrite bool_decide_true by done. cbn [require_b]. rewrite bind_lift.
    destruct (IH (d ++ [e]) (ds ++ [text z]) s1) as (d' & s2 & E2 & HF2 & HO2 & HS2); [| |done| |].
    + eapply owns_perm; [|exact HO1]. rewrite <- app_assoc. cbn. solve_Permutation.
    + apply Forall2_app; [done|by repeat constructor].
    + by rewrite <- app_assoc.
    + exists d', s2. rewrite <- app_assoc in HF2. repeat (split; [done|]). eapply own_step_trans; [apply HS1|done].
Qed.

Lemma own_setConvert ext a o X s : heap s !! a = Some o -> set_obj s o X [] -> o_encoding o = ENC_INTSET -> Z.of_nat (base.size X) < 2 ^ 32 -> owns s ext ->
  exists s' o' rs, setTypeConvert a s = Done (tt, s') /\ heap s' !! a = Some o' /\ set_obj s' o' X rs /\ o_encoding o' = ENC_HT /\
    o_refcount o' = o_refcount o /\ owns s' (rs ++ ext) /\ own_step ext (Some a) s s'.
Proof.
  intros Ha (Ht & HE) He Hmax HO. destruct HE as [(_ & _ & i & zs & Hp & HR & ->)|(He' & _)]; [|congruence].
  pose proof (sorted_text zs (intset_range _ _ HR) (Intset.repr_sorted _ _ HR)) as HN. rewrite size_list_to_set, length_map in Hmax by done.
  unfold setTypeConvert. rewrite (bind_deref _ _ _ _ Ha), bool_decide_true by done. cbn [require_b]. rewrite bind_lift.
  unfold set_intset. rewrite Hp, bind_lift. pose proof (Intset.repr_len _ _ HR) as Hlen.
  rewrite (intset_elems_ok i zs HR ltac:(lia) _ 0) by (unfold Intset.intsetLen; lia). rewrite drop_0, bind_lift.
  destruct (own_set_convert ext zs [] [] s HO ltac:(constructor) (intset_range _ _ HR) HN) as (d & s1 & E1 & HF1 & HO1 & HS1).
  rewrite (prog_bind_step _ _ _ _ _ E1). assert (Hns : o_type o <> REDIS_STRING) by congruence.
  pose proof (step_obj _ _ _ _ _ HS1 Ha Hns) as Ha1. rewrite (upd_obj_Done _ _ _ _ Ha1).
  destruct (own_container s1 _ a o (fun o => set_o_ptr (PSetDict d) (set_o_encoding ENC_HT o)) HO1 Ha1 Hns eq_refl) as [HO2 HS2].
  eexists _, _, d. split; [reflexivity|]. cbn [heap set_heap]. rewrite lookup_insert_eq. split; [reflexivity|].
  split; [|split; [done|split; [done|split; [done|eapply own_step_trans; [by apply own_step_at|apply HS2]]]]].
  split; [done|]. right. split; [done|]. split; [done|]. exists (map text zs). split; [|done]. eapply own_step_holds; [apply (HS2 d)|done|done].
Qed.

Lemma set_obj_keep s s' o X rs l m : own_step l m s s' -> rs ⊆ l -> set_obj s o X rs -> set_obj s' o X rs.
Proof.
  intros HS Hl (Ht & HE). split; [done|]. destruct HE as [HE|(He & Hp & xs & HF & HN)]; [by left|right]. split; [done|]. split; [done|].
  exists xs. split; [|done]. by eapply own_step_holds.
Qed.

Lemma set_obj_step s s' o X rs l : own_step l None s s' -> rs ⊆ l -> set_obj s o X rs -> set_obj s' o X rs.
Proof. apply set_obj_keep. Qed.

Lemma representable_ok o x : str_obj_ok o x -> isObjectRepresentableAsLongLong o = Done (Util.string2ll x).
Proof.
  intros (Ht & _ & [[He Hp]|(He & n & Hn & Hp & ->)]); unfold isObjectRepresentableAsLongLong; rewrite Ht, He, Hp, bool_decide_true by done; [done|].
  by rewrite Util.string2ll_text.
Qed.

(** The members fit in an intset, with one more. *)
Definition small (X : gset sds) : Prop := (Z.of_nat (base.size X) + 1) * 8 < 2 ^ 32.
Definition set_ok (X : gset sds) (x : sds) : Prop := x ∉ X /\ small X.

(** A string that is an integer is a member as its value is. *)
Lemma text_elem zs x v : Forall (in_s 64) zs -> Util.string2ll x = Some v -> x ∈ (list_to_set (map text zs) : gset sds) <-> v ∈ zs.
Proof.
  intros Hr Hv. rewrite elem_of_list_to_set. change (map text zs) with (text <$> zs). rewrite list_elem_of_fmap. split.
  - intros (z & -> & Hz). rewrite Util.string2ll_text in Hv by (by apply (proj1 (Forall_forall _ _) Hr)). by injection Hv as <-.
  - intros Hz. exists v. by rewrite (Util.text_string2ll _ _ Hv).
Qed.

Lemma text_not_elem i zs x : Intset.repr i zs -> Util.string2ll x = None -> x ∉ (list_to_set (map text zs) : gset sds).
Proof.
  intros HR Hv. rewrite elem_of_list_to_set. intros (z & -> & Hz)%list_elem_of_fmap. rewrite Util.string2ll_text in Hv; [done|].
  by apply (proj1 (Forall_forall _ _) (intset_range _ _ HR)).
Qed.

Lemma set_add_int s a o X l i zs x v : heap s !! a = Some o -> o_type o = REDIS_SET -> o_encoding o = ENC_INTSET -> o_ptr o = PIntset i -> Intset.repr i zs ->
  X = list_to_set (map text zs) -> small X -> Util.string2ll x = Some v -> owns s l ->
  exists j, Intset.intsetAdd fresh i v = Done j /\ (snd j = true <-> x ∉ X) /\
    let o' := set_o_ptr (PIntset (fst j)) o in let s' := set_heap (<[a := o']> (heap s)) s in
    set_obj s' o' (X ∪ {[x]}) [] /\ owns s' l /\ forall l0, own_step l0 (Some a) s s'.
Proof.
  intros Ha Ht He Hp HR -> Hsz Hv HO. unfold small in Hsz.
  pose proof (sorted_text zs (intset_range _ _ HR) (Intset.repr_sorted _ _ HR)) as HN. rewrite size_list_to_set, length_map in Hsz by done.
  pose proof (proj1 (Util.string2ll_canonical _ _) Hv) as [_ Hv64].
  destruct (Intset.add_ok fresh i zs v HR Hsz Hv64) as (i' & zs' & ok & E & HR' & Hok & Hin). exists (i', ok). split; [done|]. cbn [fst snd].
  split; [by rewrite Hok, (text_elem zs x v (intset_range _ _ HR) Hv)|].
  assert (Hns : o_type o <> REDIS_STRING) by congruence.
  destruct (own_container s l a o (set_o_ptr (PIntset i')) HO Ha Hns eq_refl) as [HO2 HS2]. split; [|done].
  split; [done|]. left. split; [done|]. split; [done|]. exists i', zs'. split; [done|]. split; [done|].
  apply set_eq. intros y. rewrite elem_of_union, !elem_of_list_to_set, elem_of_singleton.
  change (map text zs) with (text <$> zs). change (map text zs') with (text <$> zs'). rewrite !list_elem_of_fmap.
  pose proof (Util.text_string2ll _ _ Hv) as Hx. split.
  - intros [(z & -> & Hz)| ->]; [exists z|exists v]; (split; [done|]); apply Hin; auto.
  - intros (z & -> & Hz). apply Hin in Hz as [->|Hz]; [by right|left; eauto].
Qed.

(** ** The operations *)
Lemma set_type s o X rs : set_obj s o X rs -> o_type o <> REDIS_STRING.
Proof. intros [Ht _]. congruence. Qed.

Lemma size_ok s o X rs : set_obj s o X rs -> setTypeSize o = Done (Z.of_nat (base.size X)).
Proof.
  intros (Ht & [(He & _ & i & zs & Hp & HR & ->)|(He & Hp & xs & HF & HN & ->)]); unfold setTypeSize; rewrite He.
  - unfold set_intset. rewrite Hp, bind_Done. unfold Intset.intsetLen. rewrite (Intset.repr_len _ _ HR), size_list_to_set, length_map; [done|].
    apply sorted_text; [exact (intset_range _ _ HR)|exact (Intset.repr_sorted _ _ HR)].
  - unfold set_dict. rewrite Hp, bind_Done, size_list_to_set, (Forall2_length _ _ _ HF) by done. done.
Qed.

Lemma intset_fits i zs : Intset.repr i zs -> small (list_to_set (map text zs)) -> Intset.fits zs.
Proof.
  intros HR H. unfold small in H. rewrite size_list_to_set, length_map in H; [done|].
  apply sorted_text; [exact (intset_range _ _ HR)|exact (Intset.repr_sorted _ _ HR)].
Qed.

Lemma find_present y s : forall l xs, Forall2 (holds s) l xs -> y ∈ xs -> exists l1 e l2 x1 x2, l = l1 ++ e :: l2 /\ xs = x1 ++ y :: x2 /\
  Forall2 (holds s) l1 x1 /\ Forall2 (holds s) l2 x2 /\ dict_find l y s = Done (Some (l1, e, l2), s).
Proof.
  induction 1 as [|a x l xs (o & Ho & Hx) HF IH]; intros Hy; [by apply not_elem_of_nil in Hy|]. cbn [dict_find].
  rewrite (bind_deref _ _ _ _ Ho), (string_bytes_ok _ _ Hx), bind_lift. case_bool_decide as E.
  - subst y. exists [], a, l, [], xs. repeat split; try done; constructor.
  - apply elem_of_cons in Hy as [->|Hy]; [done|]. destruct (IH Hy) as (l1 & e & l2 & x1 & x2 & -> & -> & H1 & H2 & E2).
    rewrite (prog_bind_step _ _ _ _ _ E2). exists (a :: l1), e, l2, (x :: x1), x2. repeat split; try done. constructor; [by exists o|done].
Qed.

Lemma isMember_ok s a o X rs e x : heap s !! a = Some o -> set_obj s o X rs -> small X -> holds s e x ->
  setTypeIsMember a e s = Done (bool_decide (x ∈ X), s).
Proof.
  intros Ha (Ht & [(He & _ & i & zs & Hp & HR & ->)|(He & Hp & xs & HF & HN & ->)]) Hs Hx; unfold setTypeIsMember;
    rewrite (bind_deref _ _ _ _ Ha), He.
  - pose proof Hx as (oe & Hoe & Hox). rewrite (bind_deref _ _ _ _ Hoe), (representable_ok _ _ Hox), bind_lift.
    destruct (Util.string2ll x) as [v|] eqn:Hv.
    + unfold set_intset. rewrite Hp, bind_lift. pose proof (proj1 (Util.string2ll_canonical _ _) Hv) as [_ Hv64].
      destruct (Intset.find_ok i zs v HR (intset_fits _ _ HR Hs) Hv64) as (b & E & Hb). rewrite E. unfold lift.
      do 2 f_equal. apply Intset.iff_bool_decide. by rewrite Hb, (text_elem zs x v (intset_range _ _ HR) Hv).
    + rewrite bool_decide_false by (by apply (text_not_elem i zs)). done.
  - unfold set_dict. rewrite Hp, bind_lift, (prog_bind_step _ _ _ _ _ (obj_bytes_ok _ _ _ Hx)). destruct (decide (x ∈ xs)) as [Hin|Hout].
    + destruct (find_present x s _ _ HF Hin) as (l1 & y & l2 & x1 & x2 & _ & _ & _ & _ & E). rewrite (prog_bind_step _ _ _ _ _ E).
      rewrite bool_decide_true by done. by rewrite bool_decide_true by (by rewrite elem_of_list_to_set).
    + rewrite (prog_bind_step _ _ _ _ _ (find_absent x s _ _ HF Hout)). rewrite bool_decide_false by (by intros [? ?]).
      by rewrite bool_decide_false by (by rewrite elem_of_list_to_set).
Qed.

(** The object at [a], with [r] references, is a set with the members [X]; it
    holds its own references, besides those of [l]. *)
Definition set_at (s : server) (a : addr) (r : Z) (X : gset sds) (l : list addr) : Prop :=
  exists o rs, heap s !! a = Some o /\ o_refcount o = r /\ set_obj s o X rs /\ owns s (rs ++ l).

Lemma set_at_intro s a o X rs l : heap s !! a = Some o -> set_obj s o X rs -> owns s (rs ++ l) -> set_at s a (o_refcount o) X l.
Proof. intros. by exists o, rs. Qed.

(** The dict of a set gets another key. *)
Lemma ht_grow s a o X rs l e x : heap s !! a = Some o -> set_obj s o X rs -> o_encoding o = ENC_HT -> owns s (rs ++ l) -> holds s e x -> x ∉ X ->
  let s' := set_heap (<[a := set_o_ptr (PSetDict (rs ++ [e])) o]> (heap s)) s in
  dictAdd a e s = Done (true, s') /\ set_obj s' (set_o_ptr (PSetDict (rs ++ [e])) o) ({[x]} ∪ X) (rs ++ [e]) /\ owns s' (rs ++ l) /\
  (forall l0, own_step l0 (Some a) s s').
Proof.
  intros Ha (Ht & HE) He HO Hx Hn s'. destruct HE as [(He' & _)|(_ & Hp & xs & HF & HN & ->)]; [congruence|]. rewrite elem_of_list_to_set in Hn.
  assert (Hns : o_type o <> REDIS_STRING) by congruence.
  destruct (own_container s _ a o (set_o_ptr (PSetDict (rs ++ [e]))) HO Ha Hns eq_refl) as [HO2 HS2].
  split; [|split; [|by split]].
  - unfold dictAdd. rewrite (bind_deref _ _ _ _ Ha). unfold set_dict. rewrite Hp, bind_lift.
    rewrite (prog_bind_step _ _ _ _ _ (obj_bytes_ok _ _ _ Hx)), (prog_bind_step _ _ _ _ _ (find_absent x s rs xs HF Hn)).
    by rewrite (bind_upd_obj _ _ _ _ _ Ha).
  - split; [done|]. right. split; [done|]. split; [done|]. exists (xs ++ [x]). split; [|split].
    + apply Forall2_app; [eapply own_step_holds; [apply (HS2 rs)|done|done]|]. constructor; [|constructor].
      apply (os_strings _ _ _ _ (HS2 [e])); [by left|done].
    + apply NoDup_app. split; [done|]. split; [set_solver|]. apply NoDup_singleton.
    + rewrite list_to_set_app_L. cbn. set_solver.
Qed.

(** The same, when the dict takes over a reference, as in rdb.c. *)
Lemma set_add_ht s a o X rs l ele x : heap s !! a = Some o -> set_obj s o X rs -> o_encoding o = ENC_HT ->
  owns s (ele :: rs ++ l) -> holds s ele x -> x ∉ X ->
  exists s' o' rs', (_ ← dictAdd a ele; mret tt : M unit) s = Done (tt, s') /\
    heap s' !! a = Some o' /\ set_obj s' o' (X ∪ {[x]}) rs' /\ owns s' (rs' ++ l) /\ own_step l (Some a) s s'.
Proof.
  intros Ha HR He HO Hx Hn. assert (HP : ele :: rs ++ l ≡ₚ rs ++ ele :: l) by solve_Permutation.
  destruct (ht_grow s a o X rs (ele :: l) ele x Ha HR He (owns_perm _ _ _ HP HO) Hx Hn) as (E & HR' & HO' & HS').
  rewrite (prog_bind_step _ _ _ _ _ E). eexists _, _, (rs ++ [ele]). split; [reflexivity|]. cbn [heap set_heap]. rewrite lookup_insert_eq.
  split; [reflexivity|]. rewrite (comm_L (∪) X). split; [done|]. split; [|apply HS'].
  eapply owns_perm; [|exact HO']. rewrite <- app_assoc. done.
Qed.

Lemma union_member (x : sds) (X : gset sds) : x ∈ X -> {[x]} ∪ X = X.
Proof. set_solver. Qed.

(** dictAdd, which refuses a key that is there, and the reference it takes. *)
Definition ht_add (a e : addr) : M bool :=
  ok ← dictAdd a e; if (ok : bool) then _ ← incrRefCount e; mret true else mret false.

Lemma ht_add_ok s a o X rs l e x : heap s !! a = Some o -> set_obj s o X rs -> o_encoding o = ENC_HT -> owns s (rs ++ l) -> holds s e x ->
  exists s', ht_add a e s = Done (bool_decide (x ∉ X), s') /\ set_at s' a (o_refcount o) ({[x]} ∪ X) l /\ own_step l (Some a) s s'.
Proof.
  intros Ha HR He HO Hx. unfold ht_add. destruct (decide (x ∈ X)) as [Hin|Hout].
  - rewrite bool_decide_false by (by intros ?). rewrite union_member by done. exists s. split; [|split; [by eapply set_at_intro|apply own_step_refl]].
    pose proof HR as (Ht & [(He' & _)|(_ & Hp & xs & HF & HN & ->)]); [congruence|]. rewrite elem_of_list_to_set in Hin.
    unfold dictAdd. rewrite !bind_assoc, (bind_deref _ _ _ _ Ha). unfold set_dict. rewrite Hp, bind_assoc, bind_lift, bind_assoc.
    rewrite (prog_bind_step _ _ _ _ _ (obj_bytes_ok _ _ _ Hx)), bind_assoc.
    destruct (find_present x s _ _ HF Hin) as (l1 & y & l2 & x1 & x2 & _ & _ & _ & _ & E). by rewrite (prog_bind_step _ _ _ _ _ E).
  - rewrite bool_decide_true by done. destruct (ht_grow s a o X rs l e x Ha HR He HO Hx Hout) as (E1 & HR1 & HO1 & HS1).
    rewrite (prog_bind_step _ _ _ _ _ E1). set (s1 := set_heap _ s) in *.
    assert (Hx1 : holds s1 e x) by (apply (os_strings _ _ _ _ (HS1 [e])); [by left|done]).
    destruct (own_incr _ _ _ _ HO1 Hx1) as (s2 & E2 & HO2 & HS2). rewrite (prog_bind_step _ _ _ _ _ E2). exists s2. split; [done|]. split.
    + exists (set_o_ptr (PSetDict (rs ++ [e])) o), (rs ++ [e]). split; [apply (step_obj [] s1); [done|cbn; by rewrite lookup_insert_eq|by apply (set_type s1 _ _ _ HR1)]|].
      split; [done|]. split; [eapply set_obj_step; [apply (HS2 (rs ++ [e]))|done|done]|].
      eapply owns_perm; [|exact HO2]. rewrite <- app_assoc. cbn. solve_Permutation.
    + eapply own_step_trans; [apply HS1|apply own_step_at, HS2].
Qed.

(** setTypeAdd adds the string, and says whether it was new. *)
Lemma setTypeAdd_ok s a r X l e x : set_at s a r X l -> small X -> e ∈ l -> holds s e x ->
  exists s', setTypeAdd a e s = Done (bool_decide (x ∉ X), s') /\ set_at s' a r ({[x]} ∪ X) l /\ own_step l (Some a) s s'.
Proof.
  intros (o & rs & Ha & <- & HR & HO) Hs Hl Hx. unfold setTypeAdd. rewrite (bind_deref _ _ _ _ Ha).
  pose proof HR as (Ht & [(He & -> & i & zs & Hp & HI & HX)|(He & _)]); rewrite He; [|by eapply (ht_add_ok s a o X rs l e x)].
  pose proof Hx as (oe & Hoe & Hox). rewrite (bind_deref _ _ _ _ Hoe), (representable_ok _ _ Hox), bind_lift.
  destruct (Util.string2ll x) as [v|] eqn:Hv.
  - destruct (set_add_int s a o X _ i zs x v Ha Ht He Hp HI HX Hs Hv HO) as (j & Ej & Hj & HR2 & HO2 & HS2).
    unfold set_intset. rewrite Hp, bind_lift, Ej, bind_lift, (bind_upd_obj _ _ _ _ _ Ha). rewrite (comm_L (∪) X) in HR2.
    set (o2 := set_o_ptr _ o) in *. set (s2 := set_heap _ s) in *.
    assert (Ha2 : heap s2 !! a = Some o2) by (cbn; by rewrite lookup_insert_eq).
    destruct (snd j) eqn:Hsj; [|rewrite bool_decide_false by (rewrite <- Hj; done); exists s2; split; [done|]; split; [by apply (set_at_intro s2 a o2 _ [])|apply HS2]].
    rewrite bool_decide_true by (by apply Hj). rewrite bind_gets. destruct (_ >? _); cbn [when].
    + assert (Hs2 : Z.of_nat (base.size ({[x]} ∪ X)) < 2 ^ 32).
      { rewrite size_union_alt, size_singleton. pose proof (subseteq_size (X ∖ {[x]}) X ltac:(set_solver)). unfold small in Hs. lia. }
      destruct (own_setConvert l a o2 _ s2 Ha2 HR2 He Hs2 HO2) as (s3 & o3 & rs3 & E3 & Ha3 & HR3 & He3 & Hr3 & HO3 & HS3).
      rewrite (prog_bind_step _ _ _ _ _ E3). exists s3. split; [done|]. split; [exists o3, rs3; by rewrite Hr3|].
      by eapply own_step_trans.
    + rewrite bind_mret. exists s2. split; [done|]. split; [by apply (set_at_intro s2 a o2 _ [])|apply HS2].
  - assert (Hn : x ∉ X) by (rewrite HX; by apply (text_not_elem i zs)).
    destruct (own_setConvert l a o X s Ha HR He ltac:(unfold small in Hs; lia) HO) as (s1 & o1 & rs1 & E1 & Ha1 & HR1 & He1 & Hr1 & HO1 & HS1).
    rewrite (prog_bind_step _ _ _ _ _ E1). assert (Hx1 : holds s1 e x) by (by apply (os_strings _ _ _ _ HS1)).
    destruct (ht_add_ok s1 a o1 X rs1 l e x Ha1 HR1 He1 HO1 Hx1) as (s2 & E2 & HA2 & HS2).
    destruct (ht_grow s1 a o1 X rs1 l e x Ha1 HR1 He1 HO1 Hx1 Hn) as (E3 & _). unfold ht_add in E2.
    rewrite (prog_bind_step _ _ _ _ _ E3) in E2. rewrite (prog_bind_step _ _ _ _ _ E3). cbn [require_b]. rewrite bind_lift. exists s2. split; [done|].
    rewrite <- Hr1. split; [done|by eapply own_step_trans].
Qed.

Lemma nodup_mid (y : sds) x1 x2 : NoDup (x1 ++ y :: x2) ->
  NoDup (x1 ++ x2) /\ (list_to_set (x1 ++ x2) : gset sds) = list_to_set (x1 ++ y :: x2) ∖ {[y]}.
Proof.
  intros HN. assert (HP : x1 ++ y :: x2 ≡ₚ y :: x1 ++ x2) by solve_Permutation. rewrite HP in HN. apply NoDup_cons in HN as [Hy HN].
  split; [done|]. rewrite !list_to_set_app_L. cbn. rewrite elem_of_app in Hy. apply set_eq. intros z.
  rewrite elem_of_difference, !elem_of_union, !elem_of_list_to_set, elem_of_singleton. naive_solver.
Qed.

Lemma ht_remove_ok s a o X rs l e x : heap s !! a = Some o -> set_obj s o X rs -> o_encoding o = ENC_HT -> owns s (rs ++ l) -> holds s e x ->
  exists s', dictDelete a e s = Done (bool_decide (x ∈ X), s') /\ set_at s' a (o_refcount o) (X ∖ {[x]}) l /\ own_step l (Some a) s s'.
Proof.
  intros Ha HR He HO Hx. pose proof HR as (Ht & [(He' & _)|(_ & Hp & xs & HF & HN & ->)]); [congruence|]. unfold dictDelete.
  rewrite (bind_deref _ _ _ _ Ha). unfold set_dict. rewrite Hp, bind_lift, (prog_bind_step _ _ _ _ _ (obj_bytes_ok _ _ _ Hx)).
  destruct (decide (x ∈ xs)) as [Hin|Hout].
  - destruct (find_present x s _ _ HF Hin) as (l1 & y & l2 & x1 & x2 & -> & -> & HF1 & HF2 & E). rewrite (prog_bind_step _ _ _ _ _ E).
    rewrite (bind_upd_obj _ _ _ _ _ Ha). pose proof (set_type _ _ _ _ HR) as Hns.
    destruct (own_container s _ a o (set_o_ptr (PSetDict (l1 ++ l2))) HO Ha Hns eq_refl) as [HO2 HS2].
    assert (HP : (l1 ++ y :: l2) ++ l ≡ₚ y :: (l1 ++ l2) ++ l) by solve_Permutation.
    destruct (own_decr _ ((l1 ++ l2) ++ l) y (owns_perm _ _ _ HP HO2)) as (s3 & E3 & HO3 & HS3).
    rewrite (prog_bind_step _ _ _ _ _ E3), bool_decide_true by (by rewrite elem_of_list_to_set). destruct (nodup_mid _ _ _ HN) as [HN' Heq].
    exists s3. split; [done|]. split.
    + exists (set_o_ptr (PSetDict (l1 ++ l2)) o), (l1 ++ l2). split; [eapply (step_obj _ _ _ _ _ HS3); [cbn; by rewrite lookup_insert_eq|done]|].
      split; [done|]. split; [|done]. eapply set_obj_step; [exact HS3|set_solver|]. split; [done|]. right. split; [done|]. split; [done|].
      exists (x1 ++ x2). split; [|done]. eapply own_step_holds; [apply (HS2 (l1 ++ l2))|done|]. by apply Forall2_app.
    + eapply own_step_trans; [apply HS2|]. apply own_step_at. eapply own_step_mono; [exact HS3|set_solver].
  - rewrite (prog_bind_step _ _ _ _ _ (find_absent x s _ _ HF Hout)), bool_decide_false by (by rewrite elem_of_list_to_set). exists s.
    split; [done|]. split; [|apply own_step_refl]. replace (list_to_set xs ∖ {[x]}) with (list_to_set xs : gset sds); [by eapply set_at_intro|].
    apply set_eq. intros z. rewrite elem_of_difference, elem_of_singleton, !elem_of_list_to_set. split; [|tauto]. intros Hz. split; [done|]. by intros ->.
Qed.

(** setTypeRemove takes the string out, and says whether it was there. *)
Lemma setTypeRemove_ok s a r X l e x : set_at s a r X l -> small X -> holds s e x ->
  exists s', setTypeRemove a e s = Done (bool_decide (x ∈ X), s') /\ set_at s' a r (X ∖ {[x]}) l /\ own_step l (Some a) s s'.
Proof.
  intros (o & rs & Ha & <- & HR & HO) Hs Hx. unfold setTypeRemove. rewrite (bind_deref _ _ _ _ Ha).
  pose proof HR as (Ht & [(He & -> & i & zs & Hp & HI & HX)|(He & _)]); rewrite He; [|by eapply (ht_remove_ok s a o X rs l e x)].
  pose proof Hx as (oe & Hoe & Hox). rewrite (bind_deref _ _ _ _ Hoe), (representable_ok _ _ Hox), bind_lift.
  destruct (Util.string2ll x) as [v|] eqn:Hv.
  - pose proof (proj1 (Util.string2ll_canonical _ _) Hv) as [_ Hv64]. rewrite HX in Hs.
    destruct (Intset.remove_ok fresh i zs v HI (intset_fits _ _ HI Hs) Hv64) as (i' & zs' & ok & E & HI' & Hok & Hin).
    unfold set_intset. rewrite Hp, bind_lift, E, bind_lift, (bind_upd_obj _ _ _ _ _ Ha). cbn [fst snd].
    destruct (own_container s _ a o (set_o_ptr (PIntset i')) HO Ha (set_type _ _ _ _ HR) eq_refl) as [HO2 HS2].
    eexists. split; [|split; [|apply HS2]].
    + unfold mret, prog_ret. do 2 f_equal. apply Intset.iff_bool_decide. by rewrite Hok, HX, (text_elem zs x v (intset_range _ _ HI) Hv).
    + exists (set_o_ptr (PIntset i') o), []. split; [cbn; by rewrite lookup_insert_eq|]. split; [done|]. split; [|done].
      split; [done|]. left. split; [done|]. split; [done|]. exists i', zs'. split; [done|]. split; [done|]. rewrite HX.
      apply set_eq. intros y. rewrite elem_of_difference, elem_of_singleton, !elem_of_list_to_set.
      change (map text zs) with (text <$> zs). change (map text zs') with (text <$> zs'). rewrite !list_elem_of_fmap.
      pose proof (Util.text_string2ll _ _ Hv) as Hxv. split.
      * intros [(z & -> & Hz) Hne]. exists z. split; [done|]. apply Hin. split; [|done]. by intros ->.
      * intros (z & -> & Hz). apply Hin in Hz as [Hzv Hz]. split; [by exists z|]. intros Heq. apply Hzv.
        assert (in_s 64 z) as Hz64 by (by apply (proj1 (Forall_forall _ _) (intset_range _ _ HI))).
        apply Util.string2ll_text in Hz64. rewrite Heq, Hv in Hz64. by injection Hz64.
  - assert (Hn : x ∉ X) by (rewrite HX; by apply (text_not_elem i zs)).
    rewrite bool_decide_false by done. exists s. split; [done|]. split; [|apply own_step_refl].
    replace (X ∖ {[x]}) with X by set_solver. by apply (set_at_intro s a o X []).
Qed.

(** ** Sequences of operations *)
Inductive op := OpAdd (e : addr) | OpRem (e : addr) | OpMem (e : addr).

Definition op_run (a : addr) (o : op) : M bool :=
  match o with
  | OpAdd e => setTypeAdd a e
  | OpRem e => setTypeRemove a e
  | OpMem e => setTypeIsMember a e
  end.
Fixpoint set_run (a : addr) (ops : list op) : M (list bool) :=
  match ops with
  | [] => mret []
  | o :: r => b ← op_run a o; bs ← set_run a r; mret (b :: bs)
  end.

(** The same on a set of strings, [str_of] being the bytes of the objects. *)
Definition op_elem (o : op) : addr := match o with OpAdd e | OpRem e | OpMem e => e end.
Definition op_spec (str_of : addr -> sds) (X : gset sds) (o : op) : gset sds * bool :=
  match o with
  | OpAdd e => ({[str_of e]} ∪ X, bool_decide (str_of e ∉ X))
  | OpRem e => (X ∖ {[str_of e]}, bool_decide (str_of e ∈ X))
  | OpMem e => (X, bool_decide (str_of e ∈ X))
  end.
Fixpoint set_spec (str_of : addr -> sds) (X : gset sds) (ops : list op) : gset sds * list bool :=
  match ops with
  | [] => (X, [])
  | o :: r =>
    let '(X1, b) := op_spec str_of X o in
    let '(X2, bs) := set_spec str_of X1 r in (X2, b :: bs)
  end.

Lemma op_run_ok s a r X l str_of o : set_at s a r X l -> small X -> op_elem o ∈ l -> holds s (op_elem o) (str_of (op_elem o)) ->
  exists s', op_run a o s = Done (snd (op_spec str_of X o), s') /\ set_at s' a r (fst (op_spec str_of X o)) l /\ own_step l (Some a) s s'.
Proof.
  intros HA Hs Hl Hx. destruct o as [e|e|e]; cbn [op_run op_spec op_elem fst snd] in *.
  - by apply setTypeAdd_ok.
  - by apply setTypeRemove_ok.
  - exists s. split; [|split; [done|apply own_step_refl]]. destruct HA as (o & rs & Ha & _ & HR & _). by eapply isMember_ok.
Qed.

Lemma op_spec_size str_of X o : (base.size (fst (op_spec str_of X o)) <= base.size X + 1)%nat.
Proof.
  destruct o as [e|e|e]; cbn; [|rewrite (subseteq_size (X ∖ {[str_of e]}) X) by set_solver; lia|lia].
  rewrite size_union_alt, size_singleton. pose proof (subseteq_size (X ∖ {[str_of e]}) X ltac:(set_solver)). lia.
Qed.

Lemma set_run_ok a r l str_of : forall ops s X, set_at s a r X l -> (Z.of_nat (base.size X + length ops) + 1) * 8 < 2 ^ 32 ->
  Forall (fun o => op_elem o ∈ l /\ holds s (op_elem o) (str_of (op_elem o))) ops ->
  exists s', set_run a ops s = Done (snd (set_spec str_of X ops), s') /\ set_at s' a r (fst (set_spec str_of X ops)) l /\ own_step l (Some a) s s'.
Proof.
  induction ops as [|o ops IH]; intros s X HA Hs HF; cbn [set_run set_spec length] in *.
  - exists s. split; [done|]. split; [done|apply own_step_refl].
  - apply Forall_cons in HF as [[Hl Hx] HF]. destruct (op_run_ok s a r X l str_of o HA ltac:(unfold small; lia) Hl Hx) as (s1 & E1 & HA1 & HS1).
    rewrite (prog_bind_step _ _ _ _ _ E1). pose proof (op_spec_size str_of X o) as Hsz. destruct (op_spec str_of X o) as [X1 b]. cbn [fst snd] in *.
    destruct (IH s1 X1 HA1 ltac:(lia)) as (s2 & E2 & HA2 & HS2).
    + eapply Forall_impl; [exact HF|]. intros o' [Hl' Hx']. split; [done|]. by apply (os_strings _ _ _ _ HS1).
    + rewrite (prog_bind_step _ _ _ _ _ E2). destruct (set_spec str_of X1 ops) as [X2 bs]. cbn [fst snd] in *.
      exists s2. split; [done|]. split; [done|by eapply own_step_trans].
Qed.

(** C13: the set type refines a set of strings.  Any sequence of additions,
    removals and membership tests, on a set object in either encoding and with
    string objects in either encoding, returns what the operations on the set of
    strings return, and leaves an object that stands for the resulting set; the
    conversions from intset to hash table, whatever the limit in force, cannot be
    observed, and no string object is lost or freed while it is in use. *)
Theorem set_type_refines_set a r l str_of ops s X :
  set_at s a r X l -> (Z.of_nat (base.size X + length ops) + 1) * 8 < 2 ^ 32 ->
  Forall (fun o => op_elem o ∈ l /\ holds s (op_elem o) (str_of (op_elem o))) ops ->
  exists s', set_run a ops s = Done (snd (set_spec str_of X ops), s') /\ set_at s' a r (fst (set_spec str_of X ops)) l /\
    own_step l (Some a) s s'.
Proof. apply set_run_ok. Qed.

(** An intset with 2 and 7, and the strings 7 and x. *)
Definition two_ints : intset := Intset.mkIntset 2 2 [2; 0; 7; 0].
Lemma two_ints_repr : Intset.repr two_ints [2; 7].
Proof. split; [by left|done|done|repeat constructor; lia|repeat constructor; lia]. Qed.

Definition raw (x : string) : robj := mkObj REDIS_STRING ENC_RAW 1 0 (PSds (str x)).
Definition set_heap_demo : gmap addr robj :=
  <[10001%positive := mkObj REDIS_SET ENC_INTSET 1 0 (PIntset two_ints)]> (<[10002%positive := raw "7"]> (<[10003%positive := raw "x"]> ∅)).
Definition set_server : server := store_of set_heap_demo (set_next_addr 20000 server0).

Lemma set_server_owns : owns set_server [10002; 10003]%positive.
Proof.
  apply store_of_owns; [reflexivity| | |].
  - intros b o. unfold set_heap_demo. rewrite !lookup_insert_Some. intros [[<- <-]|[_ [[<- <-]|[_ [[<- <-]|[_ Hb]]]]]]; [..|by rewrite lookup_empty in Hb];
      (split; [lia|]); cbn; intros [=]; rewrite !elem_of_cons; auto.
  - apply NoDup_cons. split; [by rewrite list_elem_of_singleton|apply NoDup_singleton].
  - repeat constructor; eexists _, _; (split; [reflexivity|]); (split; [reflexivity|]); (split; [reflexivity|]); left; split; reflexivity.
Qed.

Lemma set_type_refines_set_witness :
  exists s', set_run 10001 [OpMem 10002; OpRem 10002; OpAdd 10003; OpAdd 10003; OpMem 10002] set_server
    = Done ([true; true; true; false; false], s') /\
    set_at s' 10001 1 ({[str "x"]} ∪ ({[str "x"]} ∪ ({[str "2"; str "7"]} ∖ {[str "7"]}))) [10002; 10003]%positive.
Proof.
  destruct (set_type_refines_set 10001 1 [10002; 10003]%positive (fun e => if decide (e = 10002%positive) then str "7" else str "x")
    [OpMem 10002; OpRem 10002; OpAdd 10003; OpAdd 10003; OpMem 10002] set_server {[str "2"; str "7"]}) as (s' & H1 & H2 & _).
  - exists (mkObj REDIS_SET ENC_INTSET 1 0 (PIntset two_ints)), []. split; [apply store_of_lookup; reflexivity|]. split; [reflexivity|].
    split; [|exact set_server_owns]. split; [reflexivity|]. left. split; [reflexivity|]. split; [reflexivity|].
    exists two_ints, [2; 7]. split; [reflexivity|]. split; [exact two_ints_repr|]. vm_compute. reflexivity.
  - vm_compute. reflexivity.
  - repeat constructor; try (rewrite !elem_of_cons; auto); eexists; (split; [apply store_of_lookup; reflexivity|]); cbn;
      (split; [reflexivity|]); (split; [reflexivity|]); left; split; reflexivity.
  - exists s'. split; [exact H1|exact H2].
Defined.

End TSetSpec.
