(* ===== verification/TSetAlg.v ===== *)
(** * t_set.c: random members and the algebra of sets

    SINTER, SUNION and SDIFF with their STORE forms, and SRANDMEMBER.  Whatever
    the encodings, the order of the keys, repeated keys and the algorithm that
    SDIFF picks, the commands answer with the intersection, the union and the
    difference of the sets that the keys stand for. *)
From S2P Require Import Prelude CStr Intset Util Server Object Db TString Heap TSet TSetSpec.
Import Intset Object Db TString Heap TSet TSetSpec.

Module TSetAlg.

(** ** qsort of the C library

    It puts the elements in an order that agrees with the comparison; elements
    that compare equal keep their order, as in glibc.  What is proved below uses
    only that it permutes the array. *)
Fixpoint qsort_insert {A} (cmp : A -> A -> M Z) (x : A) (l : list A) : M (list A) :=
  match l with
  | [] => mret [x]
  | y :: r =>
    d ← cmp x y;
    if d <=? 0 then mret (x :: y :: r)
    else r' ← qsort_insert cmp x r; mret (y :: r')
  end.
Fixpoint qsort {A} (cmp : A -> A -> M Z) (l : list A) : M (list A) :=
  match l with
  | [] => mret []
  | x :: r => r' ← qsort cmp r; qsort_insert cmp x r'
  end.

Definition size_at (a : addr) : M Z := o ← deref a; lift (setTypeSize o).
Definition size_or_zero (a : option addr) : M Z :=
  match a with Some a => size_at a | None => mret 0 end.

(** The difference of two unsigned longs, as an int. *)
Definition qsortCompareSetsByCardinality (s1 s2 : addr) : M Z :=
  n1 ← size_at s1; n2 ← size_at s2; mret (to_s 32 (n1 - n2)).
(** The null pointers of SDIFF stand for empty sets. *)
Definition qsortCompareSetsByRevCardinality (o1 o2 : option addr) : M Z :=
  n2 ← size_or_zero o2; n1 ← size_or_zero o1; mret (to_s 32 (n2 - n1)).

(** ** Loops over the members of a set *)

(** One more round than there are members sees the end of the iteration. *)
Definition rounds (a : addr) : M nat := n ← size_at a; mret (S (Z.to_nat n)).

(** while ((encoding = setTypeNext(si,&ele,&llele)) != -1) body *)
Fixpoint while_next {A} (fuel : nat) (body : addr + Z -> A -> M A) (si : setTypeIterator) (x : A) : M A :=
  match fuel with
  | O => throw OutOfFuel
  | S fuel' =>
    r ← setTypeNext si;
    match r with
    | (None, _) => mret x
    | (Some e, si') => x' ← body e x; while_next fuel' body si' x'
    end
  end.
(** while ((ele = setTypeNextObject(si)) != NULL) body *)
Fixpoint while_object {A} (fuel : nat) (body : addr -> A -> M A) (si : setTypeIterator) (x : A) : M A :=
  match fuel with
  | O => throw OutOfFuel
  | S fuel' =>
    r ← setTypeNextObject si;
    match r with
    | (None, _) => mret x
    | (Some e, si') => x' ← body e x; while_object fuel' body si' x'
    end
  end.
Definition for_members {A} (a : addr) (body : addr + Z -> A -> M A) (x : A) : M A :=
  n ← rounds a; si ← setTypeInitIterator a; while_next n body si x.
Definition for_objects {A} (a : addr) (body : addr -> A -> M A) (x : A) : M A :=
  n ← rounds a; si ← setTypeInitIterator a; while_object n body si x.

(** ** Replies (networking.c) *)
Definition addReplyBulkLongLong (c : client) (v : Z) : client := add_reply (RBulk (Util.ll2string_text v)) c.
(** The place of a length that is known only later. *)
Definition addDeferredMultiBulkLength (c : client) : nat := length (cl_replies c).
Definition setDeferredMultiBulkLength (c : client) (node : nat) (n : Z) : client :=
  set_cl_replies (take node (cl_replies c) ++ RMultiLen n :: drop node (cl_replies c)) c.

(** addReplyBulk of an object of the heap. *)
Definition reply_object (c : client) (a : addr) : M client := o ← deref a; lift (addReplyBulk c o).
Definition reply_member (c : client) (e : addr + Z) : M client :=
  match e with
  | inl a => reply_object c a
  | inr v => mret (addReplyBulkLongLong c v)
  end.

(** ** SINTER and SINTERSTORE *)
Inductive sources := Missing | WrongType | Sources (sets : list addr).

Definition lookup_source (c : client) (store : bool) (key : sds) : M (option addr) :=
  if store then lookupKeyWrite (cl_db c) key else lookupKeyRead (cl_db c) key.

Fixpoint sinter_sources (c : client) (store : bool) (setkeys : list nat) : M (client * sources) :=
  match setkeys with
  | [] => mret (c, Sources [])
  | j :: r =>
    key ← arg_str c j;
    so ← lookup_source c store key;
    match so with
    | None => mret (c, Missing)
    | Some a =>
      o ← deref a;
      match checkType c o REDIS_SET with
      | (c, true) => mret (c, WrongType)
      | (c, false) =>
        q ← sinter_sources c store r;
        mret (fst q, match snd q with Sources l => Sources (a :: l) | x => x end)
      end
    end
  end.

(** A key is missing: the intersection is empty. *)
Definition sinter_missing (c : client) (dstkey : option sds) : M client :=
  match dstkey with
  | Some dstkey =>
    deleted ← dbDelete (cl_db c) dstkey;
    _ ← when deleted (_ ← signalModifiedKey (cl_db c) dstkey; incr_dirty 1);
    mret (add_reply (RInt 0) c)
  | None => mret (add_reply (RMultiLen 0) c)
  end.

(** One round of the inner loop: [false] is the break. *)
Definition sinter_test (set0 : addr) (e : addr + Z) (setj : addr) : M bool :=
  if decide (setj = set0) then mret true
  else
    oj ← deref setj;
    match e with
    | inr intobj =>
      match o_encoding oj with
      | ENC_INTSET => i ← lift (set_intset oj); lift (intsetFind i intobj)
      | ENC_HT =>
        eleobj ← createStringObjectFromLongLong intobj;
        b ← setTypeIsMember setj eleobj;
        _ ← decrRefCount eleobj;
        mret b
      | _ => mret true
      end
    | inl eleobj =>
      oe ← deref eleobj;
      fast ← (match o_encoding oe, o_ptr oe, o_encoding oj with
              | ENC_INT, PLong v, ENC_INTSET => i ← lift (set_intset oj); lift (intsetFind i v)
              | _, _, _ => mret true
              end);
      if negb fast then mret false else setTypeIsMember setj eleobj
    end.
Fixpoint sinter_in_all (set0 : addr) (e : addr + Z) (sets : list addr) : M bool :=
  match sets with
  | [] => mret true
  | setj :: r => b ← sinter_test set0 e setj; if (b : bool) then sinter_in_all set0 e r else mret false
  end.

(** What is done with a member of all sets. *)
Definition sinter_take (dstset : option addr) (e : addr + Z) (x : client * Z) : M (client * Z) :=
  match dstset with
  | None => c ← reply_member (fst x) e; mret (c, snd x + 1)
  | Some dstset =>
    match e with
    | inr intobj =>
      eleobj ← createStringObjectFromLongLong intobj;
      _ ← setTypeAdd dstset eleobj;
      _ ← decrRefCount eleobj;
      mret x
    | inl eleobj => _ ← setTypeAdd dstset eleobj; mret x
    end
  end.

(** Both STORE forms end in the same way. *)
Definition store_result (c : client) (dstkey : sds) (dstset : addr) (event : string) : M client :=
  let i := cl_db c in
  deleted ← dbDelete i dstkey;
  n ← size_at dstset;
  c ← (if n >? 0 then
         _ ← dbAdd i dstkey dstset;
         _ ← log_event (Notify event dstkey i);
         mret (add_reply (RInt n) c)
       else
         _ ← decrRefCount dstset;
         _ ← when deleted (log_event (Notify "del" dstkey i));
         mret (add_reply (RInt 0) c));
  _ ← signalModifiedKey i dstkey;
  _ ← incr_dirty 1;
  mret c.

Definition sinterGenericCommand (c : client) (setkeys : list nat) (dstkey : option sds) : M client :=
  q ← sinter_sources c (bool_decide (is_Some dstkey)) setkeys;
  let '(c, src) := q in
  match src with
  | Missing => sinter_missing c dstkey
  | WrongType => mret c
  | Sources sets =>
    sets ← qsort qsortCompareSetsByCardinality sets;
    let replylen := addDeferredMultiBulkLength c in
    dstset ← (match dstkey with None => mret None | Some _ => d ← createIntsetObject; mret (Some d) end);
    set0 ← lift (expect NullDeref (head sets));
    x ← for_members set0 (fun e x =>
          b ← sinter_in_all set0 e (tail sets);
          if (b : bool) then sinter_take dstset e x else mret x) (c, 0);
    let '(c, cardinality) := x in
    match dstkey, dstset with
    | Some dstkey, Some dstset => store_result c dstkey dstset "sinterstore"
    | _, _ => mret (setDeferredMultiBulkLength c replylen cardinality)
    end
  end.

(** The indices of argv from [from] on. *)
Definition args_from (c : client) (from : nat) : list nat := seq from (Z.to_nat (cl_argc c) - from).

Definition sinterCommand (c : client) : M client := sinterGenericCommand c (args_from c 1) None.
Definition sinterstoreCommand (c : client) : M client :=
  dstkey ← arg_str c 1; sinterGenericCommand c (args_from c 2) (Some dstkey).

(** ** SUNION, SDIFF and their STORE forms *)
Inductive set_op := REDIS_OP_UNION | REDIS_OP_DIFF.

(** [None]: a key of another type, and the client has its error. *)
Fixpoint sunion_sources (c : client) (store : bool) (setkeys : list nat) : M (client * option (list (option addr))) :=
  match setkeys with
  | [] => mret (c, Some [])
  | j :: r =>
    key ← arg_str c j;
    so ← lookup_source c store key;
    bad ← (match so with
           | None => mret (c, false)
           | Some a => o ← deref a; mret (checkType c o REDIS_SET)
           end);
    match bad with
    | (c, true) => mret (c, None)
    | (c, false) => q ← sunion_sources c store r; mret (fst q, cons so <$> snd q)
    end
  end.

(** The work of both algorithms, over the sets that exist. *)
Fixpoint diff_work (set0 : addr) (sets : list (option addr)) (one two : Z) : M (Z * Z) :=
  match sets with
  | [] => mret (one, two)
  | None :: r => diff_work set0 r one two
  | Some a :: r => n0 ← size_at set0; n ← size_at a; diff_work set0 r (one + n0) (two + n)
  end.
(** The algorithm for SDIFF (1 or 2), and the sets in the order it uses. *)
Definition choose_diff (op : set_op) (sets : list (option addr)) : M (Z * list (option addr)) :=
  match op, sets with
  | REDIS_OP_DIFF, Some set0 :: rest =>
    w ← diff_work set0 sets 0 0;
    if (Z.quot (fst w) 2 <=? snd w) then rest' ← qsort qsortCompareSetsByRevCardinality rest; mret (1, Some set0 :: rest')
    else mret (2, sets)
  | _, _ => mret (1, sets)
  end.

Definition add_counted (dstset ele : addr) (cardinality : Z) : M Z :=
  ok ← setTypeAdd dstset ele;
  _ ← decrRefCount ele;
  mret (if (ok : bool) then cardinality + 1 else cardinality).
Definition remove_counted (dstset ele : addr) (cardinality : Z) : M Z :=
  ok ← setTypeRemove dstset ele;
  _ ← decrRefCount ele;
  mret (if (ok : bool) then cardinality - 1 else cardinality).

Fixpoint union_loop (dstset : addr) (sets : list (option addr)) (cardinality : Z) : M Z :=
  match sets with
  | [] => mret cardinality
  | None :: r => union_loop dstset r cardinality
  | Some a :: r => n ← for_objects a (add_counted dstset) cardinality; union_loop dstset r n
  end.

(** The inner loop of algorithm 1: [true] when it ends with j == setnum. *)
Fixpoint diff_in_none (set0 ele : addr) (sets : list (option addr)) : M bool :=
  match sets with
  | [] => mret true
  | None :: r => diff_in_none set0 ele r
  | Some a :: r =>
    if decide (a = set0) then mret false
    else b ← setTypeIsMember a ele; if (b : bool) then mret false else diff_in_none set0 ele r
  end.
Definition diff_algorithm1 (dstset set0 : addr) (rest : list (option addr)) : M Z :=
  for_objects set0 (fun ele cardinality =>
    b ← diff_in_none set0 ele rest;
    n ← (if (b : bool) then _ ← setTypeAdd dstset ele; mret (cardinality + 1) else mret cardinality);
    _ ← decrRefCount ele;
    mret n) 0.

Fixpoint diff_remove (dstset : addr) (sets : list (option addr)) (cardinality : Z) : M Z :=
  match sets with
  | [] => mret cardinality
  | None :: r => diff_remove dstset r cardinality
  | Some a :: r =>
    n ← for_objects a (remove_counted dstset) cardinality;
    if n =? 0 then mret n else diff_remove dstset r n
  end.
Definition diff_algorithm2 (dstset set0 : addr) (rest : list (option addr)) : M Z :=
  n ← for_objects set0 (add_counted dstset) 0;
  if n =? 0 then mret n else diff_remove dstset rest n.

(** The set of the result, and the number of its members. *)
Definition sunion_compute (op : set_op) (sets : list (option addr)) : M (addr * Z) :=
  w ← choose_diff op sets;
  let '(diff_algo, sets) := w in
  dstset ← createIntsetObject;
  cardinality ← (match op, sets with
                 | REDIS_OP_UNION, _ => union_loop dstset sets 0
                 | REDIS_OP_DIFF, Some set0 :: rest =>
                   if diff_algo =? 1 then diff_algorithm1 dstset set0 rest else diff_algorithm2 dstset set0 rest
                 | REDIS_OP_DIFF, _ => mret 0
                 end);
  mret (dstset, cardinality).

Definition sunionDiffGenericCommand (c : client) (setkeys : list nat) (dstkey : option sds) (op : set_op) : M client :=
  q ← sunion_sources c (bool_decide (is_Some dstkey)) setkeys;
  match q with
  | (c, None) => mret c
  | (c, Some sets) =>
    w ← sunion_compute op sets;
    let '(dstset, cardinality) := w in
    match dstkey with
    | None =>
      c ← for_objects dstset (fun ele c => c ← reply_object c ele; _ ← decrRefCount ele; mret c) (add_reply (RMultiLen cardinality) c);
      _ ← decrRefCount dstset;
      mret c
    | Some dstkey =>
      store_result c dstkey dstset (match op with REDIS_OP_UNION => "sunionstore" | REDIS_OP_DIFF => "sdiffstore" end)
    end
  end.

Definition sunionCommand (c : client) : M client := sunionDiffGenericCommand c (args_from c 1) None REDIS_OP_UNION.
Definition sunionstoreCommand (c : client) : M client :=
  dstkey ← arg_str c 1; sunionDiffGenericCommand c (args_from c 2) (Some dstkey) REDIS_OP_UNION.
Definition sdiffCommand (c : client) : M client := sunionDiffGenericCommand c (args_from c 1) None REDIS_OP_DIFF.
Definition sdiffstoreCommand (c : client) : M client :=
  dstkey ← arg_str c 1; sunionDiffGenericCommand c (args_from c 2) (Some dstkey) REDIS_OP_DIFF.

(** ** SRANDMEMBER *)
Definition SRANDMEMBER_SUB_STRATEGY_MUL : Z := 3.

(** A copy of the member for the auxiliary dict. *)
Definition member_copy (e : addr + Z) : M addr :=
  match e with
  | inr llele => createStringObjectFromLongLong llele
  | inl ele =>
    o ← deref ele;
    match o_encoding o, o_ptr o with
    | ENC_RAW, _ => dupStringObject ele
    | ENC_INT, PLong v => createStringObjectFromLongLong v
    | _, _ => throw AssertFail
    end
  end.
(** dictAdd on the auxiliary dict: [None] is DICT_ERR. *)
Definition aux_add (d : list addr) (a : addr) : M (option (list addr)) :=
  b ← obj_bytes a;
  f ← dict_find d b;
  mret (match f with Some _ => None | None => Some (d ++ [a]) end).

(** Case 1: a member drawn at random [count] times. *)
Fixpoint srand_repeat (count : nat) (set : addr) (c : client) : M client :=
  match count with
  | O => mret c
  | S count' => e ← setTypeRandomElement set; c ← reply_member c e; srand_repeat count' set c
  end.
(** Case 3: all members, then members drawn at random are removed. *)
Definition srand_copy (set : addr) : M (list addr) :=
  for_members set (fun e d =>
    a ← member_copy e;
    r ← aux_add d a;
    lift (expect AssertFail r)) [].
Fixpoint srand_remove (n : nat) (d : list addr) : M (list addr) :=
  match n with
  | O => mret d
  | S n' =>
    r ← draw;
    let k := Z.to_nat (r mod Z.of_nat (length d)) in
    a ← lift (expect NullDeref (d !! k));
    _ ← decrRefCount a;
    srand_remove n' (delete k d)
  end.
(** Case 4: members drawn at random until there are enough different ones.
    The loop can go on for ever; every round draws a number, so the numbers
    that are left bound it. *)
Fixpoint srand_collect (fuel : nat) (set : addr) (count : Z) (d : list addr) : M (list addr) :=
  match fuel with
  | O => throw OutOfFuel
  | S fuel' =>
    if Z.of_nat (length d) <? count then
      e ← setTypeRandomElement set;
      a ← member_copy e;
      r ← aux_add d a;
      match r with
      | Some d' => srand_collect fuel' set count d'
      | None => _ ← decrRefCount a; srand_collect fuel' set count d
      end
    else mret d
  end.
(** dictRelease of the auxiliary dict, after its keys were sent. *)
Fixpoint srand_reply (d : list addr) (c : client) : M client :=
  match d with
  | [] => mret c
  | a :: r => c ← reply_object c a; srand_reply r c
  end.

Definition srandmemberWithCountCommand (c : client) : M client :=
  a2 ← lift (argv c 2);
  o2 ← deref a2;
  p ← lift (getLongFromObjectOrReply c (Some o2));
  match p with
  | (c, None) => mret c
  | (c, Some l) =>
    let uniq := l >=? 0 in
    let count := if uniq then to_u 32 l else to_u 64 (- l) in
    key ← arg_str c 1;
    r ← lookupKeyReadOrReply c key (RMultiLen 0);
    match r with
    | (c, None) => mret c
    | (c, Some set) =>
      o ← deref set;
      match checkType c o REDIS_SET with
      | (c, true) => mret c
      | (c, false) =>
        size ← lift (setTypeSize o);
        if count =? 0 then mret (add_reply (RMultiLen 0) c)
        else if negb uniq then srand_repeat (Z.to_nat count) set (add_reply (RMultiLen count) c)
        else if count >=? size then sunionDiffGenericCommand c [1%nat] None REDIS_OP_UNION
        else
          d ← (if count * SRANDMEMBER_SUB_STRATEGY_MUL >? size then
                 d ← srand_copy set;
                 _ ← lift (require_b AssertFail (Z.of_nat (length d) =? size));
                 srand_remove (Z.to_nat (size - count)) d
               else
                 n ← gets (fun s => length (rnd s));
                 srand_collect (S n) set count []);
          c ← srand_reply d (add_reply (RMultiLen count) c);
          _ ← for_each d decrRefCount;
          mret c
      end
    end
  end.

Definition srandmemberCommand (c : client) : M client :=
  if cl_argc c =? 3 then srandmemberWithCountCommand c
  else if cl_argc c >? 3 then mret (add_reply (RErr "syntax error") c)
  else
    key ← arg_str c 1;
    r ← lookupKeyReadOrReply c key RNull;
    match r with
    | (c, None) => mret c
    | (c, Some set) =>
      o ← deref set;
      match checkType c o REDIS_SET with
      | (c, true) => mret c
      | (c, false) => e ← setTypeRandomElement set; reply_member c e
      end
    end.

End TSetAlg.
