(* ===== verification/TSetAlgSpec.v ===== *)
(** * The set commands compute intersections, unions and differences

    The sets that the keys stand for are given by a function [W] on their objects;
    [L] is what is owned besides, so that the objects of members are neither lost
    nor freed twice.  The loops over members are dealt with once ([for_members_ok]),
    with an invariant on the members seen so far. *)
From S2P Require Import Prelude CStr Intset Util Server Object Db TString Heap TSet TSetSpec TSetAlg.
Import Object Db TString Heap TSet TSetSpec TSetAlg.

Module TSetAlgSpec.

(** ** Iteration *)

(** The members of a set in the order of iteration. *)
Definition listed (s : server) (o : robj) (xs : list sds) (rs : list addr) : Prop :=
  (o_encoding o = ENC_INTSET /\ rs = [] /\ exists i zs, o_ptr o = PIntset i /\ Intset.repr i zs /\ xs = map text zs) \/
  (o_encoding o = ENC_HT /\ o_ptr o = PSetDict rs /\ Forall2 (holds s) rs xs).

Lemma set_obj_listed s o X rs : set_obj s o X rs -> exists xs, listed s o xs rs /\ NoDup xs /\ X = list_to_set xs.
Proof.
  intros (Ht & [(He & -> & i & zs & Hp & HR & ->)|(He & Hp & xs & HF & HN & ->)]).
  - exists (map text zs). split; [left; split; [done|]; split; [done|]; by exists i, zs|]. split; [|done].
    apply sorted_text; [exact (intset_range _ _ HR)|exact (Intset.repr_sorted _ _ HR)].
  - exists xs. split; [by right|done].
Qed.

Lemma listed_step s s' o xs rs l : own_step l None s s' -> rs ⊆ l -> listed s o xs rs -> listed s' o xs rs.
Proof.
  intros HS Hl [H|(He & Hp & HF)]; [by left|right]. split; [done|]. split; [done|]. by eapply own_step_holds.
Qed.

(** What setTypeNext gives for the member [x]. *)
Definition stands (s : server) (rs : list addr) (e : addr + Z) (x : sds) : Prop :=
  match e with
  | inl b => b ∈ rs /\ holds s b x
  | inr v => in_s 64 v /\ x = text v
  end.

Lemma stands_step s s' rs l e x : own_step l None s s' -> rs ⊆ l -> stands s rs e x -> stands s' rs e x.
Proof.
  intros HS Hl. destruct e as [b|v]; cbn; [|done]. intros [Hb Hx]. split; [done|]. apply (os_strings _ _ _ _ HS); [set_solver|done].
Qed.

(** The iterator before the member number [p]. *)
Definition si_at (a : addr) (o : robj) (rs : list addr) (p : nat) : setTypeIterator :=
  match o_encoding o with
  | ENC_HT => mkSi a ENC_HT 0 (drop p rs)
  | enc => mkSi a enc (Z.of_nat p) []
  end.

Lemma init_ok s a o xs rs : heap s !! a = Some o -> listed s o xs rs -> setTypeInitIterator a s = Done (si_at a o rs 0, s).
Proof.
  intros Ha [(He & -> & i & zs & Hp & HR & ->)|(He & Hp & HF)]; unfold setTypeInitIterator, si_at; rewrite (bind_deref _ _ _ _ Ha), He; [done|].
  unfold set_dict. by rewrite Hp, bind_lift, drop_0.
Qed.

Lemma rounds_ok s a o xs rs : heap s !! a = Some o -> listed s o xs rs -> rounds a s = Done (S (length xs), s).
Proof.
  intros Ha [(He & -> & i & zs & Hp & HR & ->)|(He & Hp & HF)]; unfold rounds, size_at; rewrite bind_assoc, (bind_deref _ _ _ _ Ha); unfold setTypeSize; rewrite He.
  - unfold set_intset. rewrite Hp, bind_Done, bind_lift. unfold Intset.intsetLen. by rewrite (Intset.repr_len _ _ HR), length_map, Nat2Z.id.
  - unfold set_dict. rewrite Hp, bind_Done, bind_lift, (Forall2_length _ _ _ HF). by rewrite Nat2Z.id.
Qed.

Lemma setTypeNext_ok s a o xs rs p : heap s !! a = Some o -> listed s o xs rs -> Z.of_nat (length xs) < 2 ^ 32 -> (p <= length xs)%nat ->
  match xs !! p with
  | Some x => exists e, setTypeNext (si_at a o rs p) s = Done ((Some e, si_at a o rs (S p)), s) /\ stands s rs e x
  | None => exists si, setTypeNext (si_at a o rs p) s = Done ((None, si), s)
  end.
Proof.
  intros Ha [(He & -> & i & zs & Hp & HR & ->)|(He & Hp & HF)] Hm Hle; unfold setTypeNext, si_at; rewrite He; cbn [si_encoding si_subject si_ii si_di].
  - rewrite (bind_deref _ _ _ _ Ha). unfold set_intset. rewrite Hp, bind_lift, length_map in *. unfold Intset.intsetGet. rewrite (Intset.repr_len _ _ HR).
    change (map text zs) with (text <$> zs). rewrite list_lookup_fmap. destruct (zs !! p) as [v|] eqn:Hv; cbn [fmap option_fmap option_map].
    + rewrite (proj2 (Z.ltb_lt _ _)) by (apply lookup_lt_Some in Hv; lia). rewrite (Intset.get_lookup _ _ _ _ HR Hv), bind_Done, bind_lift.
      exists (inr v). replace (Z.of_nat p + 1) with (Z.of_nat (S p)) by lia. split; [done|]. split; [|done].
      apply list_elem_of_lookup_2 in Hv. by apply (proj1 (Forall_forall _ _) (intset_range _ _ HR)).
    + apply lookup_ge_None in Hv. rewrite (proj2 (Z.ltb_ge _ _)) by lia. by eexists.
  - destruct (xs !! p) as [x|] eqn:Hx.
    + destruct (Forall2_lookup_r _ _ _ _ _ HF Hx) as (b & Hb & Hh). rewrite (drop_S _ _ _ Hb). exists (inl b). split; [done|].
      split; [by eapply list_elem_of_lookup_2|done].
    + apply lookup_ge_None in Hx. rewrite drop_ge by (rewrite (Forall2_length _ _ _ HF); lia). by eexists.
Qed.

(** A loop over the members of a set that the loop does not change. *)
Section Loop.
Context {A : Type} (a : addr) (o : robj) (xs : list sds) (rs : list addr) (body : addr + Z -> A -> M A) (P : list sds -> A -> server -> Prop).
Hypothesis kept : forall d x s, P d x s -> heap s !! a = Some o /\ listed s o xs rs.
Hypothesis round : forall d y d' x s e, xs = d ++ y :: d' -> P d x s -> stands s rs e y -> exists x' s', body e x s = Done (x', s') /\ P (d ++ [y]) x' s'.
Hypothesis few : Z.of_nat (length xs) < 2 ^ 32.

Lemma while_next_ok : forall d' d x s, xs = d ++ d' -> P d x s ->
  exists x' s', while_next (S (length d')) body (si_at a o rs (length d)) x s = Done (x', s') /\ P xs x' s'.
Proof using kept round few.
  induction d' as [|y d' IH]; intros d x s E HP; destruct (kept _ _ _ HP) as [Ha HL]; cbn [while_next length].
  - pose proof (setTypeNext_ok s a o xs rs (length d) Ha HL few) as H. rewrite app_nil_r in E. subst d.
    rewrite lookup_ge_None_2 in H by lia. destruct (H (Nat.le_refl _)) as (si & E1). rewrite (prog_bind_step _ _ _ _ _ E1). by exists x, s.
  - pose proof (setTypeNext_ok s a o xs rs (length d) Ha HL few) as H. assert (Hy : xs !! length d = Some y).
    { rewrite E, lookup_app_r, Nat.sub_diag by lia. done. }
    rewrite Hy in H. destruct H as (e & E1 & Hst); [apply lookup_lt_Some in Hy; lia|]. rewrite (prog_bind_step _ _ _ _ _ E1).
    destruct (round d y d' x s e E HP Hst) as (x1 & s1 & E2 & HP1). rewrite (prog_bind_step _ _ _ _ _ E2).
    replace (S (length d)) with (length (d ++ [y])) by (rewrite length_app; cbn; lia). apply IH; [by rewrite <- app_assoc|done].
Qed.

Lemma for_members_ok x s : P [] x s -> exists x' s', for_members a body x s = Done (x', s') /\ P xs x' s'.
Proof using kept round few.
  intros HP. destruct (kept _ _ _ HP) as [Ha HL]. unfold for_members.
  rewrite (prog_bind_step _ _ _ _ _ (rounds_ok _ _ _ _ _ Ha HL)), (prog_bind_step _ _ _ _ _ (init_ok _ _ _ _ _ Ha HL)).
  by apply (while_next_ok xs [] x s).
Qed.
End Loop.

(** The loops that take the members as objects. *)
Definition to_object (e : addr + Z) : M addr :=
  match e with
  | inl b => _ ← incrRefCount b; mret b
  | inr v => createStringObjectFromLongLong v
  end.

Lemma while_object_eq {A} (body : addr -> A -> M A) : forall fuel si x s,
  while_object fuel body si x s = while_next fuel (fun e x => b ← to_object e; body b x) si x s.
Proof.
  induction fuel as [|fuel IH]; intros si x s; [done|]. cbn [while_object while_next]. unfold setTypeNextObject, mbind, prog_bind.
  destruct (setTypeNext si s) as [[[[[b|v]|] si'] s1]|]; try done; unfold to_object, mret, prog_ret, mbind, prog_bind.
  - destruct (incrRefCount b s1) as [[u s2]|]; [|done]. destruct (body b x s2) as [[x' s3]|]; [|done]. apply IH.
  - destruct (createStringObjectFromLongLong v s1) as [[b s2]|]; [|done]. destruct (body b x s2) as [[x' s3]|]; [|done]. apply IH.
Qed.

Lemma for_objects_eq {A} a (body : addr -> A -> M A) x s : for_objects a body x s = for_members a (fun e x => b ← to_object e; body b x) x s.
Proof.
  unfold for_objects, for_members, mbind, prog_bind. destruct (rounds a s) as [[n s1]|]; [|done].
  destruct (setTypeInitIterator a s1) as [[si s2]|]; [|done]. apply while_object_eq.
Qed.

(** ** Ownership *)
Lemma own_to_object s l rs e y : owns s l -> stands s rs e y ->
  exists b s', to_object e s = Done (b, s') /\ owns s' (b :: l) /\ holds s' b y /\ forall l0, own_step l0 None s s'.
Proof.
  intros HO Hst. destruct e as [b|v]; cbn [to_object stands] in *.
  - destruct Hst as [_ Hx]. destruct (own_incr s l b y HO Hx) as (s1 & E1 & HO1 & HS1). rewrite (prog_bind_step _ _ _ _ _ E1).
    exists b, s1. split; [done|]. split; [done|]. split; [|done]. apply (os_strings _ _ _ _ (HS1 [b])); [by left|done].
  - destruct Hst as [Hv ->]. by apply own_createFromLongLong.
Qed.

(** The result set, while a member is held. *)
Lemma set_at_object s d r Y L rs e y : set_at s d r Y L -> stands s rs e y ->
  exists b s', to_object e s = Done (b, s') /\ set_at s' d r Y (b :: L) /\ holds s' b y /\ own_step L None s s'.
Proof.
  intros (o & ds & Hd & Hr & HR & HO) Hst. destruct (own_to_object _ _ _ _ _ HO Hst) as (b & s1 & E1 & HO1 & Hb & HS1).
  exists b, s1. split; [done|]. split; [|split; [done|apply HS1]]. exists o, ds. split; [eapply (step_obj _ _ _ _ _ (HS1 [])); [done|by eapply set_type]|].
  split; [done|]. split; [by eapply set_obj_step; [apply (HS1 ds)|done|]|]. eapply owns_perm; [|exact HO1]. solve_Permutation.
Qed.

Lemma set_at_decr s d r Y L b : set_at s d r Y (b :: L) ->
  exists s', decrRefCount b s = Done (tt, s') /\ set_at s' d r Y L /\ own_step L None s s'.
Proof.
  intros (o & ds & Hd & Hr & HR & HO). assert (HP : ds ++ b :: L ≡ₚ b :: ds ++ L) by solve_Permutation.
  destruct (own_decr _ _ _ (owns_perm _ _ _ HP HO)) as (s1 & E1 & HO1 & HS1). exists s1. split; [done|].
  split; [|eapply own_step_mono; [exact HS1|set_solver]]. exists o, ds. split; [eapply (step_obj _ _ _ _ _ HS1); [done|by eapply set_type]|].
  split; [done|]. split; [eapply set_obj_step; [exact HS1|set_solver|done]|done].
Qed.

(** The result set under construction: new since [s0], where the sources are. *)
Definition building (s0 : server) (L : list addr) (d : addr) (Y : gset sds) (s : server) : Prop :=
  set_at s d 1 Y L /\ own_step L None s0 s /\ heap s0 !! d = None.

Lemma building_step s0 L d Y Y' s s' : building s0 L d Y s -> set_at s' d 1 Y' L -> own_step L (Some d) s s' -> building s0 L d Y' s'.
Proof. intros (_ & HS & Hd) HA HS'. split; [done|]. split; [by eapply step_new|done]. Qed.

(** Adding a member to the result, or taking it out. *)
Lemma add_object s L d Y b y : set_at s d 1 Y (b :: L) -> holds s b y -> small Y ->
  exists s', setTypeAdd d b s = Done (bool_decide (y ∉ Y), s') /\ set_at s' d 1 ({[y]} ∪ Y) (b :: L) /\ own_step L (Some d) s s'.
Proof.
  intros HA Hb Hs. destruct (setTypeAdd_ok s d 1 Y (b :: L) b y HA Hs ltac:(by left) Hb) as (s1 & E1 & HA1 & HS1).
  exists s1. split; [done|]. split; [done|]. eapply own_step_mono; [exact HS1|set_solver].
Qed.

Lemma add_counted_ok s0 L d Y s b y n : building s0 L d Y s -> forall s1, set_at s1 d 1 Y (b :: L) -> holds s1 b y -> own_step L None s s1 -> small Y ->
  n = Z.of_nat (base.size Y) ->
  exists s', add_counted d b n s1 = Done (Z.of_nat (base.size ({[y]} ∪ Y)), s') /\ building s0 L d ({[y]} ∪ Y) s'.
Proof.
  intros HB s1 HA Hb HS Hs ->. destruct (add_object s1 L d Y b y HA Hb Hs) as (s2 & E2 & HA2 & HS2). unfold add_counted.
  rewrite (prog_bind_step _ _ _ _ _ E2). destruct (set_at_decr _ _ _ _ _ _ HA2) as (s3 & E3 & HA3 & HS3). rewrite (prog_bind_step _ _ _ _ _ E3).
  exists s3. split.
  - unfold mret, prog_ret. do 2 f_equal. case_bool_decide as Hy.
    + rewrite size_union by set_solver. rewrite size_singleton. lia.
    + by rewrite union_member.
  - eapply building_step; [exact HB|done|]. eapply own_step_trans; [by apply own_step_at|]. eapply own_step_trans; [exact HS2|by apply own_step_at].
Qed.

Lemma remove_counted_ok s0 L d Y s b y n : building s0 L d Y s -> forall s1, set_at s1 d 1 Y (b :: L) -> holds s1 b y -> own_step L None s s1 -> small Y ->
  n = Z.of_nat (base.size Y) ->
  exists s', remove_counted d b n s1 = Done (Z.of_nat (base.size (Y ∖ {[y]})), s') /\ building s0 L d (Y ∖ {[y]}) s'.
Proof.
  intros HB s1 HA Hb HS Hs ->. destruct (setTypeRemove_ok s1 d 1 Y (b :: L) b y HA Hs Hb) as (s2 & E2 & HA2 & HS2). unfold remove_counted.
  rewrite (prog_bind_step _ _ _ _ _ E2). destruct (set_at_decr _ _ _ _ _ _ HA2) as (s3 & E3 & HA3 & HS3). rewrite (prog_bind_step _ _ _ _ _ E3).
  exists s3. split.
  - unfold mret, prog_ret. do 2 f_equal. case_bool_decide as Hy.
    + rewrite size_difference by set_solver. rewrite size_singleton. 
      pose proof (subseteq_size ({[y]} : gset sds) Y ltac:(set_solver)) as H1. rewrite size_singleton in H1. lia.
    + by replace (Y ∖ {[y]}) with Y by set_solver.
  - eapply building_step; [exact HB|done|]. eapply own_step_trans; [by apply own_step_at|].
    eapply own_step_trans; [eapply own_step_mono; [exact HS2|set_solver]|by apply own_step_at].
Qed.

(** ** The sources *)

(** The object [a] is a set with the members [W a]; its references are owned. *)
Definition src_ok (s : server) (L : list addr) (W : addr -> gset sds) (a : addr) : Prop :=
  exists o rs, heap s !! a = Some o /\ set_obj s o (W a) rs /\ rs ⊆ L /\ small (W a).

Lemma src_step s s' L W a : own_step L None s s' -> src_ok s L W a -> src_ok s' L W a.
Proof.
  intros HS (o & rs & Ha & HR & Hl & Hs). exists o, rs. split; [eapply (step_obj _ _ _ _ _ HS); [done|by eapply set_type]|].
  split; [by eapply set_obj_step|done].
Qed.

Lemma size_at_ok s L W a : src_ok s L W a -> size_at a s = Done (Z.of_nat (base.size (W a)), s).
Proof. intros (o & rs & Ha & HR & _). unfold size_at. by rewrite (bind_deref _ _ _ _ Ha), (size_ok _ _ _ _ HR). Qed.

Lemma member_ok s L W a b x : src_ok s L W a -> holds s b x -> setTypeIsMember a b s = Done (bool_decide (x ∈ W a), s).
Proof. intros (o & rs & Ha & HR & _ & Hs) Hx. by eapply isMember_ok. Qed.

Lemma small_sub X Y : X ⊆ Y -> small Y -> small X.
Proof. intros H. unfold small. apply subseteq_size in H. lia. Qed.

(** A loop over a source that builds the result: [F done] is the result when
    the members [done] have been seen, and the loop counts its members. *)
Lemma for_source (s0 s : server) (L : list addr) (W : addr -> gset sds) (a d : addr) (body : addr -> Z -> M Z) (F : list sds -> gset sds) :
  src_ok s0 L W a ->
  (forall (done : list sds) (y : sds) (s s1 : server) (b : addr), y ∈ W a -> y ∉ done -> list_to_set done ⊆ W a -> building s0 L d (F done) s ->
    set_at s1 d 1 (F done) (b :: L) -> holds s1 b y -> own_step L None s s1 ->
    exists s', body b (Z.of_nat (base.size (F done))) s1 = Done (Z.of_nat (base.size (F (done ++ [y]))), s') /\ building s0 L d (F (done ++ [y])) s') ->
  building s0 L d (F []) s ->
  exists xs s', for_objects a body (Z.of_nat (base.size (F []))) s = Done (Z.of_nat (base.size (F xs)), s') /\ NoDup xs /\ W a = list_to_set xs /\
    building s0 L d (F xs) s'.
Proof.
  intros (o & rs & Ha & HR & Hl & Hs) Hbody HB. destruct (set_obj_listed _ _ _ _ HR) as (xs & HL & HN & HW). rewrite for_objects_eq.
  destruct (for_members_ok a o xs rs (fun e x => b ← to_object e; body b x)
    (fun done n s => n = Z.of_nat (base.size (F done)) /\ building s0 L d (F done) s)) with (x := Z.of_nat (base.size (F []))) (s := s)
    as (x' & s' & E & -> & HB'); [| | |done|by exists xs, s'].
  - intros done n s1 [_ (_ & HS & _)]. split; [eapply (step_obj _ _ _ _ _ HS); [done|by eapply set_type]|by eapply listed_step].
  - intros done y d' n s1 e Hxs [-> HB1] Hst. pose proof HB1 as (HA & _). destruct (set_at_object _ _ _ _ _ _ _ _ HA Hst) as (b & s2 & E2 & HA2 & Hb & HS2).
    rewrite (prog_bind_step _ _ _ _ _ E2). rewrite Hxs in HN, HW. apply NoDup_app in HN as (_ & HN & _).
    destruct (Hbody done y s1 s2 b) as (s3 & E3 & HB3); try done.
    + rewrite HW. set_solver.
    + intros Hy. by apply (HN y Hy); left.
    + rewrite HW, list_to_set_app_L. set_solver.
    + by exists (Z.of_nat (base.size (F (done ++ [y])))), s3.
  - unfold small in Hs. rewrite HW, size_list_to_set in Hs by done. lia.
Qed.

Lemma to_set_snoc (xs : list sds) x : (list_to_set (xs ++ [x]) : gset sds) = {[x]} ∪ list_to_set xs.
Proof. rewrite list_to_set_app_L. cbn. set_solver. Qed.

Lemma add_source s0 L W a d Y s : src_ok s0 L W a -> small (Y ∪ W a) -> building s0 L d Y s ->
  exists s', for_objects a (add_counted d) (Z.of_nat (base.size Y)) s = Done (Z.of_nat (base.size (Y ∪ W a)), s') /\ building s0 L d (Y ∪ W a) s'.
Proof.
  intros HW Hs HB. assert (H0 : Y ∪ list_to_set [] = Y) by (cbn; set_solver).
  destruct (for_source s0 s L W a d (add_counted d) (fun done => Y ∪ list_to_set done) HW) as (xs & s' & E & _ & Hxs & HB'); [|by rewrite H0|].
  - intros done y s1 s2 b Hy Hd Hsub HB1 HA Hb HS. rewrite to_set_snoc.
    replace (Y ∪ ({[y]} ∪ list_to_set done)) with ({[y]} ∪ (Y ∪ list_to_set done)) by set_solver.
    eapply add_counted_ok; try done. eapply small_sub; [|exact Hs]. set_solver.
  - exists s'. rewrite H0 in E. by rewrite Hxs.
Qed.

Lemma remove_source s0 L W a d Y s : src_ok s0 L W a -> small Y -> building s0 L d Y s ->
  exists s', for_objects a (remove_counted d) (Z.of_nat (base.size Y)) s = Done (Z.of_nat (base.size (Y ∖ W a)), s') /\ building s0 L d (Y ∖ W a) s'.
Proof.
  intros HW Hs HB. assert (H0 : Y ∖ list_to_set [] = Y) by (cbn; set_solver).
  destruct (for_source s0 s L W a d (remove_counted d) (fun done => Y ∖ list_to_set done) HW) as (xs & s' & E & _ & Hxs & HB'); [|by rewrite H0|].
  - intros done y s1 s2 b Hy Hd Hsub HB1 HA Hb HS. rewrite to_set_snoc.
    replace (Y ∖ ({[y]} ∪ list_to_set done)) with ((Y ∖ list_to_set done) ∖ {[y]}) by set_solver.
    eapply remove_counted_ok; try done. eapply small_sub; [|exact Hs]. set_solver.
  - exists s'. rewrite H0 in E. by rewrite Hxs.
Qed.

(** ** Union and difference *)
Definition val (W : addr -> gset sds) (oa : option addr) : gset sds := match oa with Some a => W a | None => ∅ end.
Definition all_of (W : addr -> gset sds) (oas : list (option addr)) : gset sds := ⋃ (val W <$> oas).

Lemma union_loop_ok s0 L W d : forall oas Y s, (forall a, Some a ∈ oas -> src_ok s0 L W a) -> small (Y ∪ all_of W oas) -> building s0 L d Y s ->
  exists s', union_loop d oas (Z.of_nat (base.size Y)) s = Done (Z.of_nat (base.size (Y ∪ all_of W oas)), s') /\ building s0 L d (Y ∪ all_of W oas) s'.
Proof.
  induction oas as [|[a|] oas IH]; intros Y s Hsrc Hs HB; unfold all_of in *; cbn [fmap list_fmap union_list foldr val union_loop] in *.
  - exists s. by replace (Y ∪ ∅) with Y by set_solver.
  - destruct (add_source s0 L W a d Y s) as (s1 & E1 & HB1); [by apply Hsrc; left|eapply small_sub; [|exact Hs]; set_solver|done|].
    rewrite (prog_bind_step _ _ _ _ _ E1), (assoc_L (∪)) in *. apply IH; [|done|done]. intros b Hb. apply Hsrc. by right.
  - rewrite (left_id_L ∅ (∪)) in *. apply IH; [|done|done]. intros b Hb. apply Hsrc. by right.
Qed.

Lemma diff_remove_ok s0 L W d : forall oas Y s, (forall a, Some a ∈ oas -> src_ok s0 L W a) -> small Y -> building s0 L d Y s ->
  exists s', diff_remove d oas (Z.of_nat (base.size Y)) s = Done (Z.of_nat (base.size (Y ∖ all_of W oas)), s') /\ building s0 L d (Y ∖ all_of W oas) s'.
Proof.
  induction oas as [|[a|] oas IH]; intros Y s Hsrc Hs HB; unfold all_of in *; cbn [fmap list_fmap union_list foldr val diff_remove] in *.
  - exists s. by replace (Y ∖ ∅) with Y by set_solver.
  - destruct (remove_source s0 L W a d Y s) as (s1 & E1 & HB1); [by apply Hsrc; left|done|done|]. rewrite (prog_bind_step _ _ _ _ _ E1).
    replace (Y ∖ (W a ∪ ⋃ (val W <$> oas))) with ((Y ∖ W a) ∖ ⋃ (val W <$> oas)) by set_solver.
    case_match eqn:Ez.
    + apply Z.eqb_eq in Ez. assert (HE : Y ∖ W a = ∅) by (apply leibniz_equiv, size_empty_inv; lia).
      exists s1. rewrite HE in *. by replace (∅ ∖ ⋃ (val W <$> oas)) with (∅ : gset sds) by set_solver.
    + apply IH; [|eapply small_sub; [|exact Hs]; set_solver|done]. intros b Hb. apply Hsrc. by right.
  - rewrite (left_id_L ∅ (∪)). apply IH; [|done|done]. intros b Hb. apply Hsrc. by right.
Qed.

Lemma elem_all_of W oas x : x ∈ all_of W oas <-> exists oa, oa ∈ oas /\ x ∈ val W oa.
Proof.
  unfold all_of. rewrite elem_of_union_list. split.
  - intros (X & HX & Hx). apply list_elem_of_fmap in HX as (oa & -> & Hoa). by exists oa.
  - intros (oa & Hoa & Hx). exists (val W oa). split; [by apply list_elem_of_fmap_2|done].
Qed.

Lemma all_of_perm W l l' : l ≡ₚ l' -> all_of W l = all_of W l'.
Proof. intros HP. apply set_eq. intros x. rewrite !elem_all_of. by setoid_rewrite HP. Qed.

Lemma diff_in_none_ok s L W set0 e y : forall oas, (forall a, Some a ∈ oas -> src_ok s L W a) -> holds s e y -> y ∈ W set0 ->
  diff_in_none set0 e oas s = Done (bool_decide (y ∉ all_of W oas), s).
Proof.
  induction oas as [|[a|] oas IH]; intros Hsrc He Hy; unfold all_of in *; cbn [fmap list_fmap union_list foldr val diff_in_none] in *.
  - rewrite bool_decide_true by set_solver. done.
  - destruct (decide (a = set0)) as [->|E]; [rewrite bool_decide_false by set_solver; done|].
    rewrite (prog_bind_step _ _ _ _ _ (member_ok s L W a e y (Hsrc a ltac:(by left)) He)). destruct (decide (y ∈ W a)) as [Hm|Hm].
    + rewrite (bool_decide_true (y ∈ W a)), bool_decide_false by set_solver. done.
    + rewrite (bool_decide_false (y ∈ W a)), IH by (done || (intros b Hb; apply Hsrc; by right)). do 2 f_equal. apply bool_decide_ext. set_solver.
  - rewrite (left_id_L ∅ (∪)). apply IH; [|done|done]. intros b Hb. apply Hsrc. by right.
Qed.

Lemma filter_snoc (R : gset sds) xs x :
  (list_to_set (filter (fun y => y ∉ R) (xs ++ [x])) : gset sds) = (if bool_decide (x ∉ R) then {[x]} else ∅) ∪ list_to_set (filter (fun y => y ∉ R) xs).
Proof. rewrite filter_app, list_to_set_app_L, filter_cons, filter_nil. case_bool_decide; case_decide; cbn; try done; set_solver. Qed.

(** Algorithm 1 keeps the members of the first set that no other has. *)
Lemma diff_algorithm1_ok s0 L W d set0 rest s : src_ok s0 L W set0 -> (forall a, Some a ∈ rest -> src_ok s0 L W a) -> building s0 L d ∅ s ->
  exists s', diff_algorithm1 d set0 rest s = Done (Z.of_nat (base.size (W set0 ∖ all_of W rest)), s') /\ building s0 L d (W set0 ∖ all_of W rest) s'.
Proof.
  intros H0 Hsrc HB. set (R := all_of W rest). set (F := fun done : list sds => list_to_set (filter (fun y => y ∉ R) done) : gset sds).
  destruct (for_source s0 s L W set0 d (fun ele cardinality => b ← diff_in_none set0 ele rest;
    n ← (if (b : bool) then _ ← setTypeAdd d ele; mret (cardinality + 1) else mret cardinality); _ ← decrRefCount ele; mret n) F H0)
    as (xs & s' & E & _ & Hxs & HB'); [|done|].
  - intros done y s1 s2 b Hy Hd Hsub HB1 HA Hb HS. assert (HS2 : own_step L None s0 s2) by (destruct HB1 as (_ & ? & _); by eapply own_step_trans).
    rewrite (prog_bind_step _ _ _ _ _ (diff_in_none_ok s2 L W set0 b y rest (fun a Ha => src_step _ _ _ _ _ HS2 (Hsrc a Ha)) Hb Hy)).
    assert (HF : F (done ++ [y]) = (if bool_decide (y ∉ R) then {[y]} else ∅) ∪ F done) by apply filter_snoc. rewrite HF. fold R. case_bool_decide as HR.
    + assert (HyF : y ∉ F done) by (unfold F; rewrite elem_of_list_to_set, list_elem_of_filter; tauto).
      assert (Hsm : small (F done)). { destruct H0 as (_ & _ & _ & _ & _ & Hs). eapply small_sub; [|exact Hs]. intros z Hz. apply Hsub.
        unfold F in Hz. rewrite elem_of_list_to_set, list_elem_of_filter in *. tauto. }
      destruct (add_object s2 L d _ b y HA Hb Hsm) as (s3 & E3 & HA3 & HS3). rewrite bind_assoc, (prog_bind_step _ _ _ _ _ E3), bind_mret.
      destruct (set_at_decr _ _ _ _ _ _ HA3) as (s4 & E4 & HA4 & HS4). rewrite (prog_bind_step _ _ _ _ _ E4). exists s4. split.
      * unfold mret, prog_ret. do 2 f_equal. rewrite size_union by set_solver. rewrite size_singleton. lia.
      * eapply building_step; [exact HB1|done|]. eapply own_step_trans; [by apply own_step_at|]. eapply own_step_trans; [exact HS3|by apply own_step_at].
    + rewrite bind_mret, (left_id_L ∅ (∪)). destruct (set_at_decr _ _ _ _ _ _ HA) as (s4 & E4 & HA4 & HS4). rewrite (prog_bind_step _ _ _ _ _ E4).
      exists s4. split; [done|]. eapply building_step; [exact HB1|done|]. apply own_step_at. by eapply own_step_trans.
  - exists s'. replace (W set0 ∖ R) with (F xs); [done|]. unfold F. rewrite Hxs. apply set_eq. intros z.
    rewrite elem_of_difference, !elem_of_list_to_set, list_elem_of_filter. tauto.
Qed.

(** Algorithm 2 takes the other sets out of a copy of the first. *)
Lemma diff_algorithm2_ok s0 L W d set0 rest s : src_ok s0 L W set0 -> (forall a, Some a ∈ rest -> src_ok s0 L W a) -> building s0 L d ∅ s ->
  exists s', diff_algorithm2 d set0 rest s = Done (Z.of_nat (base.size (W set0 ∖ all_of W rest)), s') /\ building s0 L d (W set0 ∖ all_of W rest) s'.
Proof.
  intros H0 Hsrc HB. pose proof H0 as (_ & _ & _ & _ & _ & Hs). unfold diff_algorithm2.
  destruct (add_source s0 L W set0 d ∅ s H0) as (s1 & E1 & HB1); [by rewrite (left_id_L ∅ (∪))|done|]. rewrite size_empty in E1.
  rewrite (left_id_L ∅ (∪)) in *. rewrite (prog_bind_step _ _ _ _ _ E1). case_match eqn:Ez.
  - apply Z.eqb_eq in Ez. assert (HE : W set0 = ∅) by (apply leibniz_equiv, size_empty_inv; lia). exists s1. rewrite HE in *.
    by replace (∅ ∖ all_of W rest) with (∅ : gset sds) by set_solver.
  - by apply diff_remove_ok.
Qed.

(** ** Sorting *)
Lemma qsort_insert_perm {A} (cmp : A -> A -> M Z) s x : forall l, (forall y, y ∈ l -> exists d, cmp x y s = Done (d, s)) ->
  exists l', qsort_insert cmp x l s = Done (l', s) /\ l' ≡ₚ x :: l.
Proof.
  induction l as [|y l IH]; intros Hc; cbn [qsort_insert]; [by exists [x]|]. destruct (Hc y ltac:(by left)) as (d & E). rewrite (prog_bind_step _ _ _ _ _ E).
  case_match; [by exists (x :: y :: l)|]. destruct IH as (l' & E' & HP); [intros z Hz; apply Hc; by right|].
  rewrite (prog_bind_step _ _ _ _ _ E'). exists (y :: l'). split; [done|]. rewrite HP. apply perm_swap.
Qed.

Lemma qsort_perm {A} (cmp : A -> A -> M Z) s : forall l, (forall x y, x ∈ l -> y ∈ l -> exists d, cmp x y s = Done (d, s)) ->
  exists l', qsort cmp l s = Done (l', s) /\ l' ≡ₚ l.
Proof.
  induction l as [|x l IH]; intros Hc; cbn [qsort]; [by exists []|].
  destruct IH as (l1 & E1 & HP1); [intros y z Hy Hz; apply Hc; by right|]. rewrite (prog_bind_step _ _ _ _ _ E1).
  destruct (qsort_insert_perm cmp s x l1) as (l2 & E2 & HP2); [|exists l2; split; [done|by rewrite HP2, HP1]].
  intros y Hy. apply Hc; [by left|right; by rewrite <- HP1].
Qed.

Lemma size_or_zero_ok s L W oa : (forall a, oa = Some a -> src_ok s L W a) -> size_or_zero oa s = Done (Z.of_nat (base.size (val W oa)), s).
Proof. intros H. destruct oa as [a|]; [by apply (size_at_ok s L), H|done]. Qed.

(** ** The computation of SUNION and SDIFF *)
Definition result_of (op : set_op) (W : addr -> gset sds) (oas : list (option addr)) : gset sds :=
  match op, oas with
  | REDIS_OP_UNION, _ => all_of W oas
  | REDIS_OP_DIFF, oa :: rest => val W oa ∖ all_of W rest
  | REDIS_OP_DIFF, [] => ∅
  end.

Lemma diff_work_ok s L W set0 : forall oas one two, src_ok s L W set0 -> (forall a, Some a ∈ oas -> src_ok s L W a) ->
  exists w, diff_work set0 oas one two s = Done (w, s).
Proof.
  induction oas as [|[a|] oas IH]; intros one two H0 Hsrc; cbn [diff_work]; [by eexists| |].
  - rewrite (prog_bind_step _ _ _ _ _ (size_at_ok _ _ _ _ H0)), (prog_bind_step _ _ _ _ _ (size_at_ok _ _ _ _ (Hsrc a ltac:(by left)))).
    apply IH; [done|]. intros b Hb. apply Hsrc. by right.
  - apply IH; [done|]. intros b Hb. apply Hsrc. by right.
Qed.

(** The sets to subtract may come in another order. *)
Lemma choose_diff_ok s L W op oas : (forall a, Some a ∈ oas -> src_ok s L W a) ->
  exists algo oas', choose_diff op oas s = Done ((algo, oas'), s) /\ head oas' = head oas /\ tail oas' ≡ₚ tail oas /\ (algo = 1 \/ algo = 2).
Proof.
  intros Hsrc. unfold choose_diff. destruct op, oas as [|[set0|] rest]; try (eexists _, _; by split_and!; [| | |left]).
  destruct (diff_work_ok s L W set0 (Some set0 :: rest) 0 0 (Hsrc set0 ltac:(by left)) Hsrc) as (w & E). rewrite (prog_bind_step _ _ _ _ _ E).
  case_match; [|eexists _, _; by split_and!; [| | |right]].
  destruct (qsort_perm qsortCompareSetsByRevCardinality s rest) as (rest' & E' & HP).
  - intros x y Hx Hy. unfold qsortCompareSetsByRevCardinality.
    rewrite (prog_bind_step _ _ _ _ _ (size_or_zero_ok s L W y ltac:(intros a ->; apply Hsrc; by right))).
    rewrite (prog_bind_step _ _ _ _ _ (size_or_zero_ok s L W x ltac:(intros a ->; apply Hsrc; by right))). by eexists.
  - rewrite (prog_bind_step _ _ _ _ _ E'). eexists _, _. by split_and!; [| | |left].
Qed.

(** A new, empty set. *)
Lemma new_result s L : owns s L -> exists d s', createIntsetObject s = Done (d, s') /\ building s L d ∅ s'.
Proof.
  intros HO. unfold createIntsetObject. set (o := mkObj _ _ _ _ _). assert (Ht : o_type o <> REDIS_STRING) by done.
  destruct (own_alloc_container s L o HO Ht) as (HO' & HS' & Hn). eexists _, _. split; [reflexivity|]. split; [|split; [apply HS'|done]].
  exists o, []. split; [cbn; by rewrite lookup_insert_eq|]. split; [done|]. split; [|done]. split; [done|]. left. split; [done|]. split; [done|].
  exists Intset.intsetNew, []. split; [done|]. by split; [apply Intset.new_repr|].
Qed.

Lemma sunion_compute_ok s L W op oas : owns s L -> (forall a, Some a ∈ oas -> src_ok s L W a) -> small (all_of W oas) ->
  exists d s', sunion_compute op oas s = Done ((d, Z.of_nat (base.size (result_of op W oas))), s') /\ building s L d (result_of op W oas) s'.
Proof.
  intros HO Hsrc Hs. unfold sunion_compute. destruct (choose_diff_ok s L W op oas Hsrc) as (algo & oas' & E & Hh & HP & Ha).
  rewrite (prog_bind_step _ _ _ _ _ E). destruct (new_result s L HO) as (d & s1 & E1 & HB). rewrite (prog_bind_step _ _ _ _ _ E1). exists d.
  assert (HPa : oas' ≡ₚ oas) by (destruct oas, oas'; cbn in *; try done; injection Hh as ->; by rewrite HP).
  assert (Hsrc' : forall a, Some a ∈ oas' -> src_ok s L W a) by (intros a Hin; apply Hsrc; by rewrite <- HPa). destruct op.
  - rewrite <- (all_of_perm W _ _ HPa) in Hs. destruct (union_loop_ok s L W d oas' ∅ s1 Hsrc') as (s2 & E2 & HB2); [by rewrite (left_id_L ∅ (∪))|done|].
    rewrite (left_id_L ∅ (∪)), size_empty in *. rewrite (prog_bind_step _ _ _ _ _ E2). exists s2. cbn [result_of]. by rewrite <- (all_of_perm W _ _ HPa).
  - destruct oas' as [|oa rest']; destruct oas as [|oa' rest]; cbn [head tail] in *; try done.
    { exists s1. by rewrite bind_mret. }
    injection Hh as ->. cbn [result_of]. rewrite <- (all_of_perm W _ _ HP). destruct oa' as [set0|]; cbn [val].
    + assert (H0 : src_ok s L W set0) by (apply Hsrc'; by left). assert (Hr : forall a, Some a ∈ rest' -> src_ok s L W a) by (intros a Hin; apply Hsrc'; by right).
      destruct Ha as [-> | ->]; cbn [Z.eqb Pos.eqb].
      * destruct (diff_algorithm1_ok s L W d set0 rest' s1 H0 Hr HB) as (s2 & E2 & HB2). rewrite (prog_bind_step _ _ _ _ _ E2). by exists s2.
      * destruct (diff_algorithm2_ok s L W d set0 rest' s1 H0 Hr HB) as (s2 & E2 & HB2). rewrite (prog_bind_step _ _ _ _ _ E2). by exists s2.
    + rewrite bind_mret. exists s1. by replace (∅ ∖ all_of W rest') with (∅ : gset sds) by set_solver.
Qed.

(** ** Releasing a set *)
Lemma release_string s l b : owns s (b :: l) -> decrRefCount_at 1 b s = decrRefCount b s.
Proof.
  intros HO. destruct (ow_in _ _ HO b ltac:(left)) as (x & o & Hb & (Ht & _)). unfold decrRefCount. cbn [decrRefCount_at].
  rewrite !(bind_deref _ _ _ _ Hb), Ht. by repeat case_match.
Qed.

(** Releasing makes no object. *)
Definition shrinks (s s' : server) : Prop := forall c, heap s !! c = None -> heap s' !! c = None.

Lemma decr_shrinks s l b s' : owns s (b :: l) -> decrRefCount b s = Done (tt, s') -> shrinks s s'.
Proof.
  intros HO. destruct (ow_in _ _ HO b ltac:(left)) as (x & o & Hb & (Ht & Hr & _)). destruct (Z.eq_dec (o_refcount o) 1) as [E|E].
  - rewrite (decrRefCount_last _ _ _ Hb E Ht). intros [= <-] c Hc. cbn. by rewrite lookup_delete_None; right.
  - rewrite (decrRefCount_shared _ _ _ Hb) by lia. intros [= <-] c Hc. cbn. rewrite lookup_insert_ne; [done|congruence].
Qed.

Lemma release_strings : forall rs s l, owns s (rs ++ l) ->
  exists s', for_each rs (decrRefCount_at 1) s = Done (tt, s') /\ owns s' l /\ own_step l None s s' /\ shrinks s s'.
Proof.
  induction rs as [|b rs IH]; intros s l HO; cbn [for_each]; [exists s; split; [done|]; split; [done|split; [apply own_step_refl|by intros c]]|].
  destruct (own_decr _ _ _ HO) as (s1 & E1 & HO1 & HS1). pose proof (decr_shrinks _ _ _ _ HO E1) as HK1.
  rewrite <- (release_string _ _ _ HO) in E1. rewrite (prog_bind_step _ _ _ _ _ E1).
  destruct (IH s1 l HO1) as (s2 & E2 & HO2 & HS2 & HK2). exists s2. split; [done|]. split; [done|].
  split; [eapply own_step_trans; [eapply own_step_mono; [exact HS1|set_solver]|done]|]. intros c Hc. by apply HK2, HK1.
Qed.

Lemma own_free s l a o : owns s l -> heap s !! a = Some o -> o_type o <> REDIS_STRING ->
  let s' := set_heap (delete a (heap s)) s in owns s' l /\ own_step l (Some a) s s'.
Proof.
  intros [F I C N] Ha Ht s'.
  assert (Hk : forall c oc, heap s !! c = Some oc -> o_type oc = REDIS_STRING -> heap s' !! c = Some oc).
  { intros c oc Hc Htc. cbn. rewrite lookup_delete_ne; [done|]. intros <-. congruence. }
  assert (Hh : forall c y, holds s c y -> holds s' c y) by (intros c y (oc & Hc & Hy); exists oc; split; [apply Hk; [done|by destruct Hy]|done]).
  split; [split|split; try done].
  - intros c Hc. cbn. destruct (decide (a = c)) as [<-|Hne]; [apply lookup_delete_eq|]. rewrite lookup_delete_ne by done. by apply F.
  - intros w Hw. destruct (I w Hw) as (rc & vr & Hs). exists rc, vr. by apply Hk.
  - intros c oc. cbn. rewrite lookup_delete_Some. intros [_ Hc]. by apply C.
  - intros c Hc. destruct (N c Hc) as [y Hy]. exists y. by apply Hh.
  - intros c y _. apply Hh.
  - intros c oc Hne Hc _. cbn. rewrite lookup_delete_ne; [done|congruence].
  - intros c oc _ Hc Htc. exists (o_refcount oc). rewrite (Hk c oc Hc Htc). by destruct oc.
Qed.

(** The last reference to a set frees it with its members. *)
Lemma release_set s d X L : set_at s d 1 X L -> exists s', decrRefCount d s = Done (tt, s') /\ owns s' L /\ own_step L (Some d) s s' /\
  heap s' !! d = None /\ shrinks s s'.
Proof.
  intros (o & rs & Hd & Hr & HR & HO). unfold decrRefCount. cbn [decrRefCount_at]. rewrite (bind_deref _ _ _ _ Hd), Hr. cbn [Z.leb Z.eqb Z.compare Pos.eqb].
  pose proof HR as (Ht & _). rewrite Ht. replace (freeSetObject o) with (Done rs).
  2:{ destruct HR as (_ & [(He & -> & i & zs & Hp & _)|(He & Hp & _)]); unfold freeSetObject; rewrite He, ?Hp; done. }
  rewrite bind_lift. destruct (release_strings rs s L HO) as (s1 & E1 & HO1 & HS1 & HK1). rewrite (prog_bind_step _ _ _ _ _ E1).
  assert (Hns : o_type o <> REDIS_STRING) by congruence. pose proof (step_obj _ _ _ _ _ HS1 Hd Hns) as Hd1.
  rewrite (zfree_Done _ _ _ Hd1). eexists. split; [reflexivity|]. destruct (own_free s1 L d o HO1 Hd1 Hns) as [HO2 HS2]. split; [done|].
  split; [eapply own_step_trans; [by apply own_step_at|done]|]. cbn. rewrite lookup_delete_eq. split; [done|].
  intros c Hc. cbn. rewrite lookup_delete_None. right. by apply HK1.
Qed.

(** ** The keys of a command *)

(** A step that changes neither objects nor keys. *)
Definition quiet (s s' : server) : Prop :=
  heap s' = heap s /\ dbs s' = dbs s /\ kv s' = kv s /\ conf s' = conf s /\ next_addr s' = next_addr s.

Lemma quiet_trans s1 s2 s3 : quiet s1 s2 -> quiet s2 s3 -> quiet s1 s3.
Proof. unfold quiet. intuition congruence. Qed.

Lemma quiet_step s s' l : quiet s s' -> own_step l None s s'.
Proof. intros (H1 & H2 & H3 & H4 & H5). apply keeps_own; [by apply keeps_heap|]. intros b o Hb _. by rewrite H1. Qed.

Lemma quiet_owns s s' l : quiet s s' -> owns s l -> owns s' l.
Proof. intros (H1 & H2 & H3 & H4 & H5). by apply owns_heap. Qed.

(** The argument [j] is a key that is not due, with the value [oa]. *)
Definition key_arg (s : server) (c : client) (j : nat) (oa : option addr) : Prop :=
  exists k, str_arg s c j k /\ live s (cl_db c) k /\ lookupKey s (cl_db c) k = oa.

Lemma key_arg_quiet s s' c j oa : quiet s s' -> key_arg s c j oa -> key_arg s' c j oa.
Proof.
  intros (H1 & H2 & H3 & H4 & H5) (k & Hk & HL & Hl). assert (Hd : get_db s' (cl_db c) = get_db s (cl_db c)) by (unfold get_db; by rewrite H2).
  exists k. split; [|split]; [|by eapply live_ext|by rewrite (lookupKey_ext s)]. eapply str_arg_heap; [|exact Hk]. intros a o. by rewrite H1.
Qed.

(** What the commands work on: keys with sets, or without a value. *)
Record operands (s : server) (c : client) (L : list addr) (W : addr -> gset sds) (js : list nat) (oas : list (option addr)) : Prop := {
  op_owns : owns s L;
  op_keys : Forall2 (key_arg s c) js oas;
  op_sets : forall a, Some a ∈ oas -> src_ok s L W a
}.

Lemma operands_quiet s s' c L W js oas : quiet s s' -> operands s c L W js oas -> operands s' c L W js oas.
Proof.
  intros HQ [HO HK HS]. split; [by eapply quiet_owns| |].
  - eapply Forall2_impl; [exact HK|]. intros j oa. by apply key_arg_quiet.
  - intros a Ha. eapply src_step; [by apply quiet_step|by apply HS].
Qed.

Lemma lookup_source_ok s c st k : live s (cl_db c) k -> exists s', lookup_source c st k s = Done (lookupKey s (cl_db c) k, s') /\ quiet s s'.
Proof.
  intros HL. unfold lookup_source. destruct st.
  - exists s. split; [by apply lookupKeyWrite_live|done].
  - destruct (lookupKeyRead_live s _ _ HL) as (s' & E & H). exists s'. split; [done|]. unfold quiet. intuition congruence.
Qed.

Lemma src_type s L W a : src_ok s L W a -> exists o, heap s !! a = Some o /\ o_type o = REDIS_SET.
Proof. intros (o & rs & Ha & [Ht _] & _). by exists o. Qed.

Lemma operands_tail s c L W j js oa oas : operands s c L W (j :: js) (oa :: oas) -> operands s c L W js oas.
Proof. intros [HO HK HS]. apply Forall2_cons in HK as [_ HK]. split; [done|done|]. intros a Ha. apply HS. by right. Qed.

Lemma sunion_sources_ok L W st : forall js oas c s, operands s c L W js oas ->
  exists s', sunion_sources c st js s = Done ((c, Some oas), s') /\ quiet s s'.
Proof.
  induction js as [|j js IH]; intros oas c s HO; pose proof (op_keys _ _ _ _ _ _ HO) as HK; cbn [sunion_sources].
  - apply Forall2_nil_inv_l in HK as ->. by exists s.
  - destruct oas as [|oa oas]; [by inversion HK|]. apply Forall2_cons in HK as [(k & Hk & HL & Hl) _].
    rewrite (bind_arg_str _ _ _ _ _ Hk). destruct (lookup_source_ok s c st k HL) as (s1 & E1 & HQ1). rewrite (prog_bind_step _ _ _ _ _ E1), Hl.
    pose proof (operands_quiet _ _ _ _ _ _ _ HQ1 HO) as HO1. destruct (IH oas c s1 (operands_tail _ _ _ _ _ _ _ _ HO1)) as (s2 & E2 & HQ2).
    destruct oa as [a|].
    + destruct (src_type _ _ _ _ (op_sets _ _ _ _ _ _ HO1 a ltac:(by left))) as (o & Ha & Ht). rewrite bind_assoc, (bind_deref _ _ _ _ Ha), bind_mret.
      unfold checkType. rewrite bool_decide_true by done. rewrite (prog_bind_step _ _ _ _ _ E2). exists s2. split; [done|by eapply quiet_trans].
    + rewrite bind_mret, (prog_bind_step _ _ _ _ _ E2). exists s2. split; [done|by eapply quiet_trans].
Qed.

Lemma sinter_sources_ok L W st : forall js oas c s, operands s c L W js oas ->
  exists r s', sinter_sources c st js s = Done ((c, r), s') /\ quiet s s' /\
    match r with Missing => None ∈ oas | Sources l => oas = Some <$> l | WrongType => False end.
Proof.
  induction js as [|j js IH]; intros oas c s HO; pose proof (op_keys _ _ _ _ _ _ HO) as HK; cbn [sinter_sources].
  - apply Forall2_nil_inv_l in HK as ->. by exists (Sources []), s.
  - destruct oas as [|oa oas]; [by inversion HK|]. apply Forall2_cons in HK as [(k & Hk & HL & Hl) _].
    rewrite (bind_arg_str _ _ _ _ _ Hk). destruct (lookup_source_ok s c st k HL) as (s1 & E1 & HQ1). rewrite (prog_bind_step _ _ _ _ _ E1), Hl.
    destruct oa as [a|]; [|exists Missing, s1; split; [done|]; split; [done|by left]].
    pose proof (operands_quiet _ _ _ _ _ _ _ HQ1 HO) as HO1. destruct (IH oas c s1 (operands_tail _ _ _ _ _ _ _ _ HO1)) as (r & s2 & E2 & HQ2 & Hr).
    destruct (src_type _ _ _ _ (op_sets _ _ _ _ _ _ HO1 a ltac:(by left))) as (o & Ha & Ht). rewrite (bind_deref _ _ _ _ Ha).
    unfold checkType. rewrite bool_decide_true by done. rewrite (prog_bind_step _ _ _ _ _ E2). cbn [fst snd].
    eexists _, s2. split; [reflexivity|]. split; [by eapply quiet_trans|]. destruct r; [by right|done|cbn; by rewrite Hr].
Qed.

(** ** Replies *)
Definition reply_bulks (c : client) (xs : list sds) : client := set_cl_replies (cl_replies c ++ map RBulk xs) c.
(** The length and the members [xs]. *)
Definition replied (c : client) (xs : list sds) : client :=
  set_cl_replies (cl_replies c ++ RMultiLen (Z.of_nat (length xs)) :: map RBulk xs) c.

Lemma reply_bulks_snoc c xs x : add_reply (RBulk x) (reply_bulks c xs) = reply_bulks c (xs ++ [x]).
Proof. unfold add_reply, reply_bulks. cbn. by rewrite map_app, app_assoc. Qed.

Lemma reply_object_ok s c b x : holds s b x -> reply_object c b s = Done (add_reply (RBulk x) c, s).
Proof. intros (o & Hb & Ho). unfold reply_object, addReplyBulk. by rewrite (bind_deref _ _ _ _ Hb), (string_bytes_ok _ _ Ho). Qed.

Lemma reply_member_ok s c rs e x : stands s rs e x -> reply_member c e s = Done (add_reply (RBulk x) c, s).
Proof. destruct e as [b|v]; cbn; [intros [_ Hx]; by apply reply_object_ok|]. by intros [_ ->]. Qed.

(** The members of the result are sent. *)
Lemma reply_set_ok s d Y L c : set_at s d 1 Y L -> small Y ->
  exists xs s', for_objects d (fun ele c => c ← reply_object c ele; _ ← decrRefCount ele; mret c) c s = Done (reply_bulks c xs, s') /\
    NoDup xs /\ Y = list_to_set xs /\ set_at s' d 1 Y L /\ own_step L None s s'.
Proof.
  intros (o & rs & Hd & Hr & HR & HO) Hs. destruct (set_obj_listed _ _ _ _ HR) as (xs & HL & HN & HY). rewrite for_objects_eq.
  destruct (for_members_ok d o xs rs (fun e c => b ← to_object e; c ← reply_object c b; _ ← decrRefCount b; mret c)
    (fun done c' s' => c' = reply_bulks c done /\ owns s' (rs ++ L) /\ own_step (rs ++ L) None s s')) with (x := c) (s := s)
    as (c' & s' & E & -> & HO' & HS'); [| | | |].
  - intros done c' s1 (_ & _ & HS). split; [eapply (step_obj _ _ _ _ _ HS); [done|by eapply set_type]|eapply listed_step; [exact HS|set_solver|done]].
  - intros done y d' c' s1 e Hxs (-> & HO1 & HS1) Hst. destruct (own_to_object _ _ _ _ _ HO1 Hst) as (b & s2 & E2 & HO2 & Hb & HS2).
    rewrite (prog_bind_step _ _ _ _ _ E2), (prog_bind_step _ _ _ _ _ (reply_object_ok _ _ _ _ Hb)).
    destruct (own_decr _ _ _ HO2) as (s3 & E3 & HO3 & HS3). rewrite (prog_bind_step _ _ _ _ _ E3). eexists _, s3. split; [reflexivity|].
    split; [apply reply_bulks_snoc|]. split; [done|]. eapply own_step_trans; [exact HS1|]. eapply own_step_trans; [apply HS2|done].
  - unfold small in Hs. rewrite HY, size_list_to_set in Hs by done. lia.
  - split; [unfold reply_bulks; cbn; rewrite app_nil_r; by destruct c|]. split; [done|apply own_step_refl].
  - exists xs, s'. split; [done|]. split; [done|]. split; [done|]. split; [|eapply own_step_mono; [exact HS'|set_solver]].
    exists o, rs. split; [eapply (step_obj _ _ _ _ _ HS'); [done|by eapply set_type]|]. split; [done|].
    split; [eapply set_obj_step; [exact HS'|set_solver|done]|done].
Qed.

Lemma replied_bulks c xs n : n = length xs -> reply_bulks (add_reply (RMultiLen (Z.of_nat n)) c) xs = replied c xs.
Proof. intros ->. unfold reply_bulks, replied, add_reply. cbn. by rewrite <- app_assoc. Qed.

Lemma result_small op W oas : small (all_of W oas) -> small (result_of op W oas).
Proof.
  apply small_sub. destruct op; [done|]. destruct oas as [|oa rest]; cbn; [set_solver|]. unfold all_of. cbn. set_solver.
Qed.

Lemma sunion_reply op s c L W js oas : operands s c L W js oas -> small (all_of W oas) ->
  exists xs s', sunionDiffGenericCommand c js None op s = Done (replied c xs, s') /\ NoDup xs /\ list_to_set xs = result_of op W oas /\
    owns s' L /\ own_step L None s s'.
Proof.
  intros HO Hs. unfold sunionDiffGenericCommand. destruct (sunion_sources_ok L W (bool_decide (is_Some (@None sds))) js oas c s HO) as (s1 & E1 & HQ1).
  rewrite (prog_bind_step _ _ _ _ _ E1). destruct (operands_quiet _ _ _ _ _ _ _ HQ1 HO) as [HO1 _ HS1].
  destruct (sunion_compute_ok s1 L W op oas HO1 HS1 Hs) as (d & s2 & E2 & HA2 & HS2 & Hd). rewrite (prog_bind_step _ _ _ _ _ E2).
  pose proof (result_small op W oas Hs) as Hr.
  destruct (reply_set_ok s2 d _ L (add_reply (RMultiLen (Z.of_nat (base.size (result_of op W oas)))) c) HA2 Hr) as (xs & s3 & E3 & HN & HY & HA3 & HS3).
  rewrite (prog_bind_step _ _ _ _ _ E3). destruct (release_set _ _ _ _ HA3) as (s4 & E4 & HO4 & HS4 & _). rewrite (prog_bind_step _ _ _ _ _ E4).
  exists xs, s4. split; [|split; [done|split; [done|split; [done|]]]].
  - rewrite replied_bulks; [done|]. rewrite HY. by apply size_list_to_set.
  - eapply own_step_trans; [by apply quiet_step|]. eapply (step_new L d s1 s3 s4); [done|by eapply own_step_trans|done].
Qed.

(** ** Intersection *)
Lemma find_int s L W a o v : src_ok s L W a -> heap s !! a = Some o -> o_encoding o = ENC_INTSET -> in_s 64 v ->
  exists i, set_intset o = Done i /\ Intset.intsetFind i v = Done (bool_decide (text v ∈ W a)).
Proof.
  intros (o' & rs & Ha & (Ht & HE) & _ & Hs) Ho He Hv. assert (o' = o) as -> by congruence.
  destruct HE as [(_ & _ & i & zs & Hp & HR & HX)|(He' & _)]; [|congruence]. exists i. unfold set_intset. rewrite Hp. split; [done|]. rewrite HX in Hs.
  destruct (Intset.find_ok i zs v HR (intset_fits _ _ HR Hs) Hv) as (b & E & Hb). rewrite E. f_equal. apply Intset.iff_bool_decide.
  by rewrite Hb, HX, (text_elem zs (text v) v (intset_range _ _ HR) (Util.string2ll_text _ Hv)).
Qed.

Lemma src_encoding s L W a o : src_ok s L W a -> heap s !! a = Some o -> o_encoding o = ENC_INTSET \/ o_encoding o = ENC_HT.
Proof. intros (o' & rs & Ha & (_ & HE) & _) Ho. assert (o' = o) as -> by congruence. destruct HE as [[? _]|[? _]]; auto. Qed.

Lemma sinter_test_ok s l L W set0 rs e y setj : owns s l -> L ⊆ l -> src_ok s L W setj -> rs ⊆ L -> stands s rs e y -> y ∈ W set0 ->
  exists s', sinter_test set0 e setj s = Done (bool_decide (y ∈ W setj), s') /\ owns s' l /\ own_step l None s s'.
Proof.
  intros HO Hl Hsrc Hrs Hst Hy. unfold sinter_test. destruct (decide (setj = set0)) as [->|Hne].
  { rewrite bool_decide_true by done. exists s. split; [done|]. split; [done|apply own_step_refl]. }
  destruct (src_type _ _ _ _ Hsrc) as (oj & Hoj & _). rewrite (bind_deref _ _ _ _ Hoj). destruct e as [b|v]; cbn [stands] in Hst.
  - destruct Hst as [_ Hx]. pose proof Hx as (ob & Hb & Hob). rewrite (bind_deref _ _ _ _ Hb).
    assert (Hfast : exists f, (match o_encoding ob, o_ptr ob, o_encoding oj with
              | ENC_INT, PLong v, ENC_INTSET => i ← lift (set_intset oj); lift (Intset.intsetFind i v)
              | _, _, _ => mret true end : M bool) s = Done (f, s) /\ (f = true \/ f = bool_decide (y ∈ W setj))).
    { destruct Hob as (_ & _ & [[He _]|(He & n & Hn & Hp & ->)]); rewrite He; [eexists; split; [done|by left]|]. rewrite Hp.
      destruct (src_encoding _ _ _ _ _ Hsrc Hoj) as [Hj|Hj]; rewrite Hj; [|eexists; split; [done|by left]].
      destruct (find_int s L W setj oj n Hsrc Hoj Hj Hn) as (i & Ei & Ef). rewrite Ei, bind_lift, Ef. eexists. split; [done|by right]. }
    destruct Hfast as (f & Ef & Hf). rewrite (prog_bind_step _ _ _ _ _ Ef).
    exists s. split; [|split; [done|apply own_step_refl]]. destruct f; cbn [negb]; [by apply (member_ok s L W)|].
    destruct Hf as [Hf|Hf]; [done|by rewrite <- Hf].
  - destruct Hst as [Hv ->]. destruct (src_encoding _ _ _ _ _ Hsrc Hoj) as [Hj|Hj]; rewrite Hj.
    + destruct (find_int s L W setj oj v Hsrc Hoj Hj Hv) as (i & Ei & Ef). rewrite Ei, bind_lift, Ef. exists s. split; [done|]. split; [done|apply own_step_refl].
    + destruct (own_createFromLongLong s l v HO Hv) as (b & s1 & E1 & HO1 & Hb & HS1). rewrite (prog_bind_step _ _ _ _ _ E1).
      rewrite (prog_bind_step _ _ _ _ _ (member_ok s1 L W setj b _ (src_step _ _ _ _ _ (HS1 L) Hsrc) Hb)).
      destruct (own_decr _ _ _ HO1) as (s2 & E2 & HO2 & HS2). rewrite (prog_bind_step _ _ _ _ _ E2). exists s2. split; [done|]. split; [done|].
      eapply own_step_trans; [apply HS1|done].
Qed.

Lemma in_all_ok l L W set0 rs e y : forall sets s, owns s l -> L ⊆ l -> (forall a, a ∈ sets -> src_ok s L W a) -> rs ⊆ L -> stands s rs e y -> y ∈ W set0 ->
  exists s', sinter_in_all set0 e sets s = Done (bool_decide (Forall (fun a => y ∈ W a) sets), s') /\ owns s' l /\ own_step l None s s'.
Proof.
  induction sets as [|a sets IH]; intros s HO Hl Hsrc Hrs Hst Hy; cbn [sinter_in_all].
  - rewrite bool_decide_true by done. exists s. split; [done|]. split; [done|apply own_step_refl].
  - destruct (sinter_test_ok s l L W set0 rs e y a HO Hl (Hsrc a ltac:(by left)) Hrs Hst Hy) as (s1 & E1 & HO1 & HS1).
    rewrite (prog_bind_step _ _ _ _ _ E1). destruct (decide (y ∈ W a)) as [Ha|Ha].
    + rewrite (bool_decide_true (y ∈ W a)) by done. destruct (IH s1) as (s2 & E2 & HO2 & HS2); try done.
      * intros b Hb. eapply src_step; [eapply own_step_mono; [exact HS1|done]|]. apply Hsrc. by right.
      * eapply stands_step; [exact HS1|set_solver|done].
      * exists s2. rewrite E2. split; [|split; [done|by eapply own_step_trans]]. do 2 f_equal. apply bool_decide_ext. rewrite Forall_cons. tauto.
    + rewrite (bool_decide_false (y ∈ W a)), bool_decide_false by (done || (rewrite Forall_cons; tauto)). by exists s1.
Qed.

(** The loop of SINTER, for any use [take] of the members it finds: [P] holds
    of those taken so far, with the references that are owned then. *)
Section Inter.
Context {A : Type} (s0 : server) (L : list addr) (W : addr -> gset sds) (set0 : addr) (rest : list addr).
Context (take : addr + Z -> A -> M A) (P : list sds -> A -> server -> list addr -> Prop).
Hypothesis src0 : src_ok s0 L W set0.
Hypothesis srcs : forall a, a ∈ rest -> src_ok s0 L W a.
Hypothesis P_owns : forall xs x s l, P xs x s l -> owns s l /\ L ⊆ l /\ own_step L None s0 s.
Hypothesis P_step : forall xs x s s' l, P xs x s l -> owns s' l -> own_step l None s s' -> P xs x s' l.
Hypothesis P_take : forall xs x s l rs e y, P xs x s l -> rs ⊆ L -> stands s rs e y -> y ∈ W set0 ->
  exists x' s' l', take e x s = Done (x', s') /\ P (xs ++ [y]) x' s' l'.

Lemma sinter_loop x s l : P [] x s l ->
  exists xs x' s' l', for_members set0 (fun e x => b ← sinter_in_all set0 e rest; if (b : bool) then take e x else mret x) x s = Done (x', s') /\
    NoDup xs /\ (forall y, y ∈ xs <-> y ∈ W set0 /\ Forall (fun a => y ∈ W a) rest) /\ P xs x' s' l'.
Proof using src0 srcs P_owns P_step P_take.
  intros HP. destruct src0 as (o & rs & Ho & HR & Hrs & Hs). destruct (set_obj_listed _ _ _ _ HR) as (ms & HL & HN & HW).
  destruct (for_members_ok set0 o ms rs (fun e x => b ← sinter_in_all set0 e rest; if (b : bool) then take e x else mret x)
    (fun done x s => exists l, P (filter (fun y => Forall (fun a => y ∈ W a) rest) done) x s l)) with (x := x) (s := s) as (x' & s' & E & l' & HP').
  - intros done x1 s1 (l1 & HP1). destruct (P_owns _ _ _ _ HP1) as (_ & _ & HS).
    split; [eapply (step_obj _ _ _ _ _ HS); [done|by eapply set_type]|by eapply listed_step].
  - intros done y d' x1 s1 e Hms (l1 & HP1) Hst. destruct (P_owns _ _ _ _ HP1) as (HO1 & Hl1 & HS1).
    assert (Hy : y ∈ W set0) by (rewrite HW, Hms; set_solver).
    destruct (in_all_ok l1 L W set0 rs e y rest s1 HO1 Hl1 (fun a Ha => src_step _ _ _ _ _ HS1 (srcs a Ha)) Hrs Hst Hy) as (s2 & E2 & HO2 & HS2).
    rewrite (prog_bind_step _ _ _ _ _ E2). pose proof (P_step _ _ _ _ _ HP1 HO2 HS2) as HP2.
    rewrite filter_app, filter_cons, filter_nil. case_bool_decide as Hall; [|exists x1, s2; split; [done|]; exists l1; rewrite decide_False by done; by rewrite app_nil_r].
    rewrite decide_True by done. destruct (P_take _ _ _ _ rs e y HP2 Hrs) as (x3 & s3 & l3 & E3 & HP3); [by eapply stands_step; [exact HS2|set_solver|]|done|].
    exists x3, s3. split; [done|by exists l3].
  - unfold small in Hs. rewrite HW, size_list_to_set in Hs by done. lia.
  - by exists l.
  - exists (filter (fun y => Forall (fun a => y ∈ W a) rest) ms), x', s', l'. split; [exact E|]. split; [by apply NoDup_filter|]. split; [|exact HP'].
    intros y. rewrite list_elem_of_filter, HW, elem_of_list_to_set. tauto.
Qed.
End Inter.

(** Sorting by size does not change which sets are intersected. *)
Lemma sort_sources s L W sets : (forall a, a ∈ sets -> src_ok s L W a) -> sets <> [] ->
  exists set0 rest, qsort qsortCompareSetsByCardinality sets s = Done (set0 :: rest, s) /\ set0 :: rest ≡ₚ sets.
Proof.
  intros Hsrc Hne. destruct (qsort_perm qsortCompareSetsByCardinality s sets) as (l & E & HP).
  - intros x y Hx Hy. unfold qsortCompareSetsByCardinality.
    rewrite (prog_bind_step _ _ _ _ _ (size_at_ok s L W x (Hsrc x Hx))), (prog_bind_step _ _ _ _ _ (size_at_ok s L W y (Hsrc y Hy))). by eexists.
  - destruct l as [|set0 rest]; [by apply Permutation_nil_l in HP|]. by exists set0, rest.
Qed.

(** What all of them have. *)
Definition common (W : addr -> gset sds) (oas : list (option addr)) (y : sds) : Prop := forall oa, oa ∈ oas -> y ∈ val W oa.

Lemma common_sets W sets set0 rest y : set0 :: rest ≡ₚ sets -> (y ∈ W set0 /\ Forall (fun a => y ∈ W a) rest) <-> common W (Some <$> sets) y.
Proof.
  intros HP. rewrite <- (Forall_cons (fun a => y ∈ W a)), HP, Forall_forall. unfold common. split.
  - intros H oa (a & -> & Ha)%list_elem_of_fmap. by apply H.
  - intros H a Ha. apply (H (Some a)). by apply list_elem_of_fmap_2.
Qed.

Lemma deferred_reply c xs : setDeferredMultiBulkLength (reply_bulks c xs) (addDeferredMultiBulkLength c) (Z.of_nat (length xs)) = replied c xs.
Proof.
  unfold setDeferredMultiBulkLength, addDeferredMultiBulkLength, reply_bulks, replied. cbn. by rewrite take_app_length, drop_app_length.
Qed.

Lemma sinter_reply s c L W js oas : operands s c L W js oas -> oas <> [] ->
  exists xs s', sinterGenericCommand c js None s = Done (replied c xs, s') /\ NoDup xs /\ (forall y, y ∈ xs <-> common W oas y) /\
    owns s' L /\ own_step L None s s'.
Proof.
  intros HO Hne. unfold sinterGenericCommand. destruct (sinter_sources_ok L W (bool_decide (is_Some (@None sds))) js oas c s HO) as (r & s1 & E1 & HQ1 & Hr).
  rewrite (prog_bind_step _ _ _ _ _ E1). destruct (operands_quiet _ _ _ _ _ _ _ HQ1 HO) as [HO1 _ HS1]. destruct r as [| |sets]; [|done|].
  { exists [], s1. split; [done|]. split; [constructor|]. split; [|split; [done|by apply quiet_step]].
    intros y. split; [by intros ?%not_elem_of_nil|]. intros H. by specialize (H None Hr). }
  subst oas. assert (Hsrc : forall a, a ∈ sets -> src_ok s1 L W a) by (intros a Ha; by apply HS1, list_elem_of_fmap_2).
  destruct (sort_sources s1 L W sets Hsrc ltac:(by intros ->)) as (set0 & rest & E2 & HP). rewrite (prog_bind_step _ _ _ _ _ E2), bind_mret.
  cbn [head tail expect]. rewrite bind_lift.
  destruct (sinter_loop s1 L W set0 rest (sinter_take None)
    (fun xs x s l => l = L /\ x = (reply_bulks c xs, Z.of_nat (length xs)) /\ owns s L /\ own_step L None s1 s)) with (x := (c, 0)) (s := s1) (l := L)
    as (xs & x' & s' & l' & E & HN & Hxs & -> & -> & HO' & HS').
  - apply Hsrc. rewrite <- HP. by left.
  - intros a Ha. apply Hsrc. rewrite <- HP. by right.
  - intros xs x s2 l (-> & _ & ? & ?). done.
  - intros xs x s2 s3 l (-> & -> & _ & ?) ? ?. split; [done|]. split; [done|]. split; [done|by eapply own_step_trans].
  - intros xs x s2 l rs e y (-> & -> & HO2 & HS2) _ Hst _. cbn [sinter_take fst snd]. rewrite (prog_bind_step _ _ _ _ _ (reply_member_ok _ _ _ _ _ Hst)).
    eexists _, s2, L. split; [reflexivity|]. split; [done|]. split; [|done]. rewrite reply_bulks_snoc, length_app. cbn. do 2 f_equal. lia.
  - split; [done|]. split; [unfold reply_bulks; cbn; rewrite app_nil_r; by destruct c|]. split; [done|apply own_step_refl].
  - rewrite (prog_bind_step _ _ _ _ _ E). rewrite deferred_reply. exists xs, s'. split; [done|]. split; [done|].
    split; [intros y; by rewrite Hxs, <- (common_sets W _ _ _ y HP)|]. split; [done|]. eapply own_step_trans; [by apply quiet_step|done].
Qed.

(** ** The STORE forms *)

(** The key that gets the result is free, or has a set of its own, whose
    references are among [L]; [L'] is what stays when it is released. *)
Definition target (s : server) (i : nat) (k : sds) (L L' : list addr) : Prop :=
  match lookupKey s i k with
  | None => L' = L
  | Some a => exists o X rs, heap s !! a = Some o /\ o_refcount o = 1 /\ set_obj s o X rs /\ L ≡ₚ rs ++ L'
  end.

Lemma target_step s s' i k L L' : own_step L None s s' -> target s i k L L' -> target s' i k L L'.
Proof.
  intros HS. assert (Hl : lookupKey s' i k = lookupKey s i k) by (apply lookupKey_ext; unfold get_db; by rewrite (os_dbs _ _ _ _ HS)).
  unfold target. rewrite Hl. destruct (lookupKey s i k) as [a|]; [|done]. intros (o & X & rs & Ha & Hr & HR & HP). exists o, X, rs.
  split; [eapply (step_obj _ _ _ _ _ HS); [done|by eapply set_type]|]. split; [done|]. split; [|done]. eapply set_obj_step; [exact HS| |done].
  intros b Hb. rewrite HP. set_solver.
Qed.

(** A step but for the keys. *)
Definition step_but_keys (l : list addr) (m : option addr) (s s' : server) : Prop := own_step l m s (set_dbs (dbs s) s').

Lemma step_but_keys_trans l m s1 s2 s3 : step_but_keys l m s1 s2 -> own_step l m s2 s3 -> step_but_keys l m s1 s3.
Proof.
  intros [A1 A2 A3 A4 A5 A6] [B1 B2 B3 B4 B5 B6]. split; cbn in *; try congruence; eauto.
  intros b o Hb Ho Ht. destruct (A3 b o Hb Ho Ht) as (n1 & H1). destruct (B3 b _ Hb H1 Ht) as (n2 & H2). by exists n2.
Qed.

Lemma step_then_keys l l1 l2 m s1 s2 s3 : own_step l1 None s1 s2 -> l ⊆ l1 -> step_but_keys l2 m s2 s3 -> l ⊆ l2 -> step_but_keys l m s1 s3.
Proof.
  intros [A1 A2 A3 A4 A5 A6] H1 [B1 B2 B3 B4 B5 B6] H2. split; cbn in *; try congruence.
  - intros b x Hb Hx. apply B1; [by apply H2|]. apply A1; [by apply H1|done].
  - intros b o Hb Ho Ht. apply B2; [done| |done]. by apply A2.
  - intros b o Hb Ho Ht. destruct (A3 b o (H1 b Hb) Ho Ht) as (n1 & E1). destruct (B3 b _ (H2 b Hb) E1 Ht) as (n2 & E2). by exists n2.
Qed.

(** A later step on an object that was not there. *)
Lemma step_keys_new l m d s1 s2 s3 : step_but_keys l m s1 s2 -> heap s1 !! d = None -> own_step l (Some d) s2 s3 -> step_but_keys l m s1 s3.
Proof.
  intros [A1 A2 A3 A4 A5 A6] Hd [B1 B2 B3 B4 B5 B6]. split; cbn in *; try congruence; eauto.
  - intros b o Hb Ho Ht. apply B2; [congruence|by apply A2|done].
  - intros b o Hb Ho Ht. destruct (A3 b o Hb Ho Ht) as (n1 & H1). destruct (B3 b _ Hb H1 Ht) as (n2 & H2). by exists n2.
Qed.

Lemma put_db_step l m i d s : step_but_keys l m s (put_db i d s).
Proof. split; try done. intros b o _ Ho _. exists (o_refcount o). cbn. rewrite Ho. by destruct o. Qed.

Lemma dbDelete_absent s i k : valid_db s i -> lookupKey s i k = None -> dbDelete i k s = Done (false, put_db i (del_key k (get_db s i)) s).
Proof.
  intros Hv Hl. unfold dbDelete. rewrite bind_upd_db, bind_gets. unfold lookupKey in *. rewrite get_db_put_eq by done.
  cbn [db_dict set_db_expires]. rewrite Hl. unfold mret, prog_ret. do 2 f_equal. by rewrite del_key_absent.
Qed.

Lemma delete_target s i k L L' ds : owns s (ds ++ L) -> target s i k L L' -> valid_db s i ->
  exists b s', dbDelete i k s = Done (b, s') /\ owns s' (ds ++ L') /\ dbs s' = <[i := del_key k (get_db s i)]> (dbs s) /\
    step_but_keys (ds ++ L') (lookupKey s i k) s s' /\ (forall a, lookupKey s i k = Some a -> heap s' !! a = None).
Proof.
  intros HO HT Hv. unfold target in HT. destruct (lookupKey s i k) as [a|] eqn:Hl.
  - destruct HT as (o & X & rs & Ha & Hr & HR & HP). rewrite (dbDelete_found _ _ _ _ Hv Hl). set (s1 := put_db _ _ s).
    destruct (release_set s1 a X (ds ++ L')) as (s2 & E2 & HO2 & HS2 & HG2 & _).
    { exists o, rs. split; [done|]. split; [done|]. split; [done|]. eapply (owns_heap s s1); [done|done|]. eapply owns_perm; [|exact HO]. rewrite HP. solve_Permutation. }
    rewrite (prog_bind_step _ _ _ _ _ E2). exists true, s2. split; [done|]. split; [done|]. split; [apply (os_dbs _ _ _ _ HS2)|].
    split; [eapply step_but_keys_trans; [apply put_db_step|done]|]. by intros a' [= <-].
  - subst L'. rewrite (dbDelete_absent _ _ _ Hv Hl). eexists false, _. split; [reflexivity|]. split; [by apply (owns_heap s)|]. split; [done|]. split; [apply put_db_step|done].
Qed.

(** The key [k] has the set [Y]: a new object, or no value when [Y] is empty.
    What the key had is freed, and the reference counts are those of [L'] and of
    the members of the new set, exactly. *)
Definition stored_set (s : server) (i : nat) (k : sds) (Y : gset sds) (L' : list addr) (s' : server) : Prop :=
  step_but_keys L' (lookupKey s i k) s s' /\ (forall a, lookupKey s i k = Some a -> heap s' !! a = None) /\
  ((Y = ∅ /\ dbs s' = <[i := del_key k (get_db s i)]> (dbs s) /\ owns s' L') \/
   (Y <> ∅ /\ exists d, heap s !! d = None /\ dbs s' = <[i := add_key k d (del_key k (get_db s i))]> (dbs s) /\ set_at s' d 1 Y L')).

(** What the last steps of the commands leave alone. *)
Lemma finish_store i k (c : client) s : exists s', (_ ← signalModifiedKey i k; _ ← incr_dirty 1; mret c) s = Done (c, s') /\ quiet s s'.
Proof.
  unfold signalModifiedKey. destruct (touchWatchedKey_frame i k s) as (s1 & E1 & A1 & A2 & A3 & A4 & A5 & _).
  rewrite (prog_bind_step _ _ _ _ _ E1). unfold incr_dirty. run. eexists. split; [reflexivity|]. by split_and!.
Qed.

Lemma stored_quiet s i k Y L' s1 s2 : quiet s1 s2 -> stored_set s i k Y L' s1 -> stored_set s i k Y L' s2.
Proof.
  intros HQ (HS & HG & H). pose proof HQ as (H1 & H2 & _). split; [|split; [by rewrite H1|]].
  - eapply step_but_keys_trans; [exact HS|]. by apply own_step_at, quiet_step.
  - rewrite H2. destruct H as [(? & ? & ?)|(? & d & ? & ? & o & rs & Hd & Hr & HR & HO)]; [left|right].
    + split; [done|]. split; [done|by eapply quiet_owns].
    + split; [done|]. exists d. split; [done|]. split; [done|]. exists o, rs. rewrite H1. split; [done|]. split; [done|].
      split; [by eapply set_obj_step; [apply (quiet_step _ _ rs HQ)|done|]|by eapply quiet_owns].
Qed.

Lemma quiet_log s e : quiet s (set_events (events s ++ [e]) s).
Proof. by split_and!. Qed.

Lemma log_event_done s e : log_event e s = Done (tt, set_events (events s ++ [e]) s).
Proof. done. Qed.

(** The result takes the place of what the key had. *)
Lemma store_result_ok c k d event s0 s Y L L' : building s0 L d Y s -> target s0 (cl_db c) k L L' -> valid_db s0 (cl_db c) ->
  exists s', store_result c k d event s = Done (add_reply (RInt (Z.of_nat (base.size Y))) c, s') /\ stored_set s0 (cl_db c) k Y L' s'.
Proof.
  intros ((o & ds & Hd & Hr & HR & HO) & HS & Hnew) HT Hv. pose proof (os_dbs _ _ _ _ HS) as Hdbs. unfold store_result. set (i := cl_db c) in *.
  assert (Hl : lookupKey s i k = lookupKey s0 i k) by (apply lookupKey_ext; unfold get_db; by rewrite Hdbs).
  assert (Hg : get_db s i = get_db s0 i) by (unfold get_db; by rewrite Hdbs). assert (Hv' : valid_db s i) by (unfold valid_db; by rewrite Hdbs).
  destruct (delete_target s i k L L' ds HO (target_step _ _ _ _ _ _ HS HT) Hv') as (b & s1 & E1 & HO1 & Hdb1 & HS1 & HG1).
  rewrite (prog_bind_step _ _ _ _ _ E1). rewrite Hg, Hdbs in Hdb1. rewrite Hl in HS1, HG1.
  assert (HL : L' ⊆ L) by (unfold target in HT; destruct (lookupKey s0 i k); [destruct HT as (? & ? & ? & _ & _ & _ & HP); intros y Hy; rewrite HP; set_solver|by subst]).
  assert (Hda : Some d <> lookupKey s0 i k) by (intros E; unfold target in HT; rewrite <- E in HT; destruct HT as (? & ? & ? & ? & _); congruence).
  assert (Hd1 : heap s1 !! d = Some o) by (apply (os_others _ _ _ _ HS1); [done|done|by eapply set_type]).
  assert (HR1 : set_obj s1 o Y ds).
  { assert (HR1 : set_obj (set_dbs (dbs s) s1) o Y ds) by (eapply set_obj_keep; [exact HS1|set_solver|done]). exact HR1. }
  assert (HK : step_but_keys L' (lookupKey s0 i k) s0 s1).
  { eapply step_then_keys; [exact HS|done|exact HS1|set_solver]. }
  unfold size_at. rewrite bind_assoc, (bind_deref _ _ _ _ Hd1), (size_ok _ _ _ _ HR1), bind_lift, Z.gtb_ltb. destruct (Z.ltb_spec 0 (Z.of_nat (base.size Y))) as [Hp|Hz].
  - assert (Hne : Y <> ∅) by (intros ->; rewrite size_empty in Hp; lia).
    assert (Hno : lookupKey s1 i k = None).
    { unfold lookupKey, get_db. rewrite Hdb1, list_lookup_insert_eq by done. cbn. by rewrite lookup_delete_eq. }
    rewrite bind_assoc, (prog_bind_step _ _ _ _ _ (dbAdd_Done _ _ _ _ Hno)), bind_assoc, (prog_bind_step _ _ _ _ _ (log_event_done _ _)), bind_mret.
    destruct (finish_store i k (add_reply (RInt (Z.of_nat (base.size Y))) c) (set_events (events (put_db i (add_key k d (get_db s1 i)) s1) ++ [Notify event k i])
      (put_db i (add_key k d (get_db s1 i)) s1))) as (s3 & E3 & HQ3). exists s3. split; [exact E3|].
    eapply stored_quiet; [exact HQ3|]. eapply stored_quiet; [apply quiet_log|]. split; [|split; [exact HG1|]].
    + destruct HK as [C1 C2 C3 C4 C5 C6]. by split.
    + right. split; [done|]. exists d. split; [done|]. cbn [dbs set_dbs put_db]. unfold get_db at 1. rewrite Hdb1, list_insert_insert_eq, list_lookup_insert_eq by done.
      split; [done|]. exists o, ds. split; [done|]. split; [done|]. split; [exact HR1|]. by apply (owns_heap s1).
  - assert (HE : Y = ∅) by (apply leibniz_equiv, size_empty_inv; lia). subst Y. rewrite size_empty.
    destruct (release_set s1 d ∅ L') as (s2 & E2 & HO2 & HS2 & _ & HK2); [by exists o, ds|]. rewrite bind_assoc, (prog_bind_step _ _ _ _ _ E2), bind_assoc.
    assert (HSt : stored_set s0 i k ∅ L' s2).
    { split; [by eapply step_keys_new|]. split; [intros a Ha; by apply HK2, HG1|].
      left. split; [done|split; [by rewrite (os_dbs _ _ _ _ HS2)|done]]. }
    assert (HW : exists s3, when b (log_event (Notify "del" k i)) s2 = Done (tt, s3) /\ quiet s2 s3).
    { destruct b; cbn [when]; [rewrite log_event_done; eexists; split; [done|apply quiet_log]|by exists s2]. }
    destruct HW as (s3 & E3 & HQ3). rewrite (prog_bind_step _ _ _ _ _ E3), bind_mret.
    destruct (finish_store i k (add_reply (RInt 0) c) s3) as (s4 & E4 & HQ4). exists s4. split; [exact E4|]. eapply stored_quiet; [exact HQ4|]. by eapply stored_quiet.
Qed.

Lemma stored_from s s1 i k Y L' s' : quiet s s1 -> stored_set s1 i k Y L' s' -> stored_set s i k Y L' s'.
Proof.
  intros HQ (HS & HG & H). pose proof HQ as (H1 & H2 & _). assert (Hg : get_db s1 i = get_db s i) by (unfold get_db; by rewrite H2).
  rewrite (lookupKey_ext s s1 i k Hg) in HS, HG. rewrite Hg, H1, H2 in H. split; [|done].
  eapply step_then_keys; [apply (quiet_step _ _ L' HQ)|done|exact HS|done].
Qed.

Lemma sunion_store op s c L L' W js oas k : operands s c L W js oas -> small (all_of W oas) -> target s (cl_db c) k L L' -> valid_db s (cl_db c) ->
  exists s', sunionDiffGenericCommand c js (Some k) op s = Done (add_reply (RInt (Z.of_nat (base.size (result_of op W oas)))) c, s') /\
    stored_set s (cl_db c) k (result_of op W oas) L' s'.
Proof.
  intros HO Hs HT Hv. unfold sunionDiffGenericCommand. destruct (sunion_sources_ok L W (bool_decide (is_Some (Some k))) js oas c s HO) as (s1 & E1 & HQ1).
  rewrite (prog_bind_step _ _ _ _ _ E1). destruct (operands_quiet _ _ _ _ _ _ _ HQ1 HO) as [HO1 _ HS1].
  destruct (sunion_compute_ok s1 L W op oas HO1 HS1 Hs) as (d & s2 & E2 & HB2). rewrite (prog_bind_step _ _ _ _ _ E2).
  assert (Hv1 : valid_db s1 (cl_db c)) by (unfold valid_db; destruct HQ1 as (_ & -> & _); done).
  destruct (store_result_ok c k d (match op with REDIS_OP_UNION => "sunionstore" | REDIS_OP_DIFF => "sdiffstore" end) s1 s2 _ L L' HB2
    (target_step _ _ _ _ _ _ (quiet_step _ _ _ HQ1) HT) Hv1) as (s3 & E3 & HST). exists s3. split; [exact E3|by eapply stored_from].
Qed.

(** A member of all sets goes into the result. *)
Lemma take_store (s0 : server) (L : list addr) (W : addr -> gset sds) (set0 d : addr) (c : client) : small (W set0) -> forall xs s o ds rs e y,
  heap s !! d = Some o -> o_refcount o = 1 -> set_obj s o (list_to_set xs) ds -> owns s (ds ++ L) -> own_step L None s0 s -> heap s0 !! d = None ->
  list_to_set xs ⊆ W set0 -> rs ⊆ L -> stands s rs e y ->
  exists s' o' ds', sinter_take (Some d) e (c, 0) s = Done ((c, 0), s') /\ heap s' !! d = Some o' /\ o_refcount o' = 1 /\
    set_obj s' o' (list_to_set (xs ++ [y])) ds' /\ owns s' (ds' ++ L) /\ own_step L None s0 s'.
Proof.
  intros Hs xs s o ds rs e y Hd Hr HR HO HS Hnew Hsub Hrs Hst. assert (HA : set_at s d 1 (list_to_set xs) L) by (by exists o, ds).
  assert (HB : building s0 L d (list_to_set xs) s) by done. pose proof (small_sub _ _ Hsub Hs) as Hsm. rewrite to_set_snoc.
  assert (Hend : forall s', set_at s' d 1 ({[y]} ∪ list_to_set xs) L -> own_step L (Some d) s s' ->
    exists o' ds', heap s' !! d = Some o' /\ o_refcount o' = 1 /\ set_obj s' o' ({[y]} ∪ list_to_set xs) ds' /\ owns s' (ds' ++ L) /\ own_step L None s0 s').
  { intros s' HA' HS'. destruct (building_step _ _ _ _ _ _ _ HB HA' HS') as ((o' & ds' & H1 & H2 & H3 & H4) & H5 & _). exists o', ds'. done. }
  destruct e as [b|v]; cbn [sinter_take].
  - destruct Hst as [Hb Hx]. destruct (setTypeAdd_ok s d 1 _ L b y HA Hsm (Hrs b Hb) Hx) as (s1 & E1 & HA1 & HS1). rewrite (prog_bind_step _ _ _ _ _ E1).
    destruct (Hend s1 HA1 HS1) as (o' & ds' & H). by exists s1, o', ds'.
  - destruct (set_at_object s d 1 _ L rs (inr v) y HA Hst) as (b & s1 & E1 & HA1 & Hb & HS1). cbn [to_object] in E1. rewrite (prog_bind_step _ _ _ _ _ E1).
    destruct (add_object s1 L d _ b y HA1 Hb Hsm) as (s2 & E2 & HA2 & HS2). rewrite (prog_bind_step _ _ _ _ _ E2).
    destruct (set_at_decr _ _ _ _ _ _ HA2) as (s3 & E3 & HA3 & HS3). rewrite (prog_bind_step _ _ _ _ _ E3).
    destruct (Hend s3 HA3) as (o' & ds' & H); [|by exists s3, o', ds'].
    eapply own_step_trans; [by apply own_step_at|]. eapply own_step_trans; [exact HS2|by apply own_step_at].
Qed.

Lemma sinter_missing_store s c k L L' : owns s L -> target s (cl_db c) k L L' -> valid_db s (cl_db c) ->
  exists s', sinter_missing c (Some k) s = Done (add_reply (RInt 0) c, s') /\ stored_set s (cl_db c) k ∅ L' s'.
Proof.
  intros HO HT Hv. destruct (delete_target s (cl_db c) k L L' [] HO HT Hv) as (b & s2 & E2 & HO2 & Hdb & HS2 & HG2). unfold sinter_missing.
  rewrite (prog_bind_step _ _ _ _ _ E2). assert (HST : stored_set s (cl_db c) k ∅ L' s2) by (split; [done|split; [done|by left]]).
  destruct b; cbn [when]; [|by exists s2]. unfold signalModifiedKey.
  destruct (touchWatchedKey_frame (cl_db c) k s2) as (s3 & E3 & A1 & A2 & A3 & A4 & A5 & _). rewrite bind_assoc, (prog_bind_step _ _ _ _ _ E3).
  eexists. split; [reflexivity|]. eapply stored_quiet; [|exact HST]. by split_and!.
Qed.

Lemma sinter_store s c L L' W js oas k : operands s c L W js oas -> oas <> [] -> target s (cl_db c) k L L' -> valid_db s (cl_db c) ->
  exists Y s', sinterGenericCommand c js (Some k) s = Done (add_reply (RInt (Z.of_nat (base.size Y))) c, s') /\
    (forall y, y ∈ Y <-> common W oas y) /\ stored_set s (cl_db c) k Y L' s'.
Proof.
  intros HO Hne HT Hv. unfold sinterGenericCommand. destruct (sinter_sources_ok L W (bool_decide (is_Some (Some k))) js oas c s HO) as (r & s1 & E1 & HQ1 & Hr).
  rewrite (prog_bind_step _ _ _ _ _ E1). destruct (operands_quiet _ _ _ _ _ _ _ HQ1 HO) as [HO1 _ HS1].
  assert (Hv1 : valid_db s1 (cl_db c)) by (unfold valid_db; destruct HQ1 as (_ & -> & _); done).
  pose proof (target_step _ _ _ _ _ _ (quiet_step _ _ _ HQ1) HT) as HT1. destruct r as [| |sets]; [|done|].
  - destruct (sinter_missing_store s1 c k L L' HO1 HT1 Hv1) as (s2 & E2 & HST). exists ∅, s2. split; [by rewrite size_empty|].
    split; [|by eapply stored_from]. intros y. split; [set_solver|]. intros H. by specialize (H None Hr).
  - subst oas. assert (Hsrc : forall a, a ∈ sets -> src_ok s1 L W a) by (intros a Ha; by apply HS1, list_elem_of_fmap_2).
    destruct (sort_sources s1 L W sets Hsrc ltac:(by intros ->)) as (set0 & rest & E2 & HP). rewrite (prog_bind_step _ _ _ _ _ E2).
    destruct (new_result s1 L HO1) as (d & s2 & E3 & (od & dd & Hd2 & Hr2 & HR2 & HO2) & HS2 & Hnew). rewrite bind_assoc, (prog_bind_step _ _ _ _ _ E3), bind_mret.
    cbn [head tail expect]. rewrite bind_lift. assert (H0 : src_ok s1 L W set0) by (apply Hsrc; rewrite <- HP; by left).
    destruct (sinter_loop s1 L W set0 rest (sinter_take (Some d))
      (fun xs x s l => x = (c, 0) /\ list_to_set xs ⊆ W set0 /\ exists o ds, l = ds ++ L /\ heap s !! d = Some o /\ o_refcount o = 1 /\
        set_obj s o (list_to_set xs) ds /\ owns s (ds ++ L) /\ own_step L None s1 s)) with (x := (c, 0)) (s := s2) (l := dd ++ L)
      as (xs & x' & s' & l' & E & HN & Hxs & -> & Hsub & o & ds & -> & Hd & Hr1 & HR & HO' & HS').
    + done.
    + intros a Ha. apply Hsrc. rewrite <- HP. by right.
    + intros xs x s3 l (_ & _ & o & ds & -> & _ & _ & _ & ? & ?). split; [done|]. split; [set_solver|done].
    + intros xs x s3 s4 l (-> & Hsub & o & ds & -> & Hd & Hr1 & HR & HO3 & HS3) HO4 HS4. split; [done|]. split; [done|]. exists o, ds.
      split; [done|]. split; [eapply (step_obj _ _ _ _ _ HS4); [done|by eapply set_type]|]. split; [done|].
      split; [eapply set_obj_step; [exact HS4|set_solver|done]|]. split; [done|]. eapply own_step_trans; [exact HS3|eapply own_step_mono; [exact HS4|set_solver]].
    + intros xs x s3 l rs e y (-> & Hsub & o & ds & -> & Hd & Hr1 & HR & HO3 & HS3) Hrs Hst Hy. pose proof H0 as (_ & _ & _ & _ & _ & Hsm).
      destruct (take_store s1 L W set0 d c Hsm xs s3 o ds rs e y Hd Hr1 HR HO3 HS3 Hnew Hsub Hrs Hst) as (s4 & o4 & ds4 & E4 & H).
      exists (c, 0), s4, (ds4 ++ L). split; [done|]. split; [done|]. split; [rewrite to_set_snoc; set_solver|]. exists o4, ds4. by split.
    + split; [done|]. split; [cbn; set_solver|]. by exists od, dd.
    + rewrite (prog_bind_step _ _ _ _ _ E). assert (HB : building s1 L d (list_to_set xs) s') by (split; [by exists o, ds|done]).
      destruct (store_result_ok c k d "sinterstore" s1 s' _ L L' HB HT1 Hv1) as (s5 & E5 & HST). exists (list_to_set xs), s5. split; [exact E5|].
      split; [|by eapply stored_from]. intros y. by rewrite elem_of_list_to_set, Hxs, <- (common_sets W _ _ _ y HP).
Qed.

(** ** The commands *)

(** C14: SINTER, SUNION and SDIFF answer with the intersection, the union and the
    difference of the sets at their keys, each member once and after the right
    length; a key without a value is an empty set.  This holds for every mix of
    the two encodings, for repeated keys, for every order that sorting by size
    gives the sets and for both algorithms of SDIFF.  No string object is lost or
    freed while it is in use, and the keyspace stays as it is. *)
Theorem set_algebra_correct s c L W oas :
  operands s c L W (args_from c 1) oas -> oas <> [] -> small (all_of W oas) ->
  (exists xs s', sinterCommand c s = Done (replied c xs, s') /\ NoDup xs /\
     (forall y, y ∈ xs <-> common W oas y) /\ owns s' L /\ own_step L None s s') /\
  (exists xs s', sunionCommand c s = Done (replied c xs, s') /\ NoDup xs /\
     list_to_set xs = ⋃ (val W <$> oas) /\ owns s' L /\ own_step L None s s') /\
  (exists xs s', sdiffCommand c s = Done (replied c xs, s') /\ NoDup xs /\
     list_to_set xs = (from_option (val W) ∅ (head oas) : gset sds) ∖ ⋃ (val W <$> tail oas) /\ owns s' L /\ own_step L None s s').
Proof.
  intros HO Hne Hs. split; [by apply (sinter_reply s c L W (args_from c 1) oas)|].
  split; [by apply (sunion_reply REDIS_OP_UNION)|]. destruct oas as [|oa rest]; [done|]. by apply (sunion_reply REDIS_OP_DIFF _ _ _ _ _ _ HO).
Qed.

(** C15: SINTERSTORE, SUNIONSTORE and SDIFFSTORE give the key a new set with the
    intersection, the union or the difference, without the time to live that it had,
    and answer with its size; an empty result leaves the key without a value.  No
    source key is due to expire, the sources are sets or missing, and together they fit
    into an intset.  The key is free before, or has a set that only this key refers to: that set is
    freed, even when it is one of the sources, and the references of its members
    are given back: the string objects count exactly the references [L'] that are
    held elsewhere and, once each, those of the new set's members.  No other
    container is touched. *)
Theorem set_store_correct s c L L' W oas k :
  str_arg s c 1 k -> operands s c L W (args_from c 2) oas -> oas <> [] -> small (all_of W oas) ->
  target s (cl_db c) k L L' -> valid_db s (cl_db c) ->
  (exists Y s', sinterstoreCommand c s = Done (add_reply (RInt (Z.of_nat (base.size Y))) c, s') /\
     (forall y, y ∈ Y <-> common W oas y) /\ stored_set s (cl_db c) k Y L' s') /\
  (forall op, exists s', (match op with REDIS_OP_UNION => sunionstoreCommand c | REDIS_OP_DIFF => sdiffstoreCommand c end) s
     = Done (add_reply (RInt (Z.of_nat (base.size (result_of op W oas)))) c, s') /\ stored_set s (cl_db c) k (result_of op W oas) L' s').
Proof.
  intros Hk HO Hne Hs HT Hv. split.
  - unfold sinterstoreCommand. rewrite (bind_arg_str _ _ _ _ _ Hk). by apply (sinter_store s c L L' W (args_from c 2) oas k).
  - intros op. destruct op; unfold sunionstoreCommand, sdiffstoreCommand; rewrite (bind_arg_str _ _ _ _ _ Hk); by apply (sunion_store _ s c L L' W (args_from c 2) oas k).
Qed.

(** A server with the intset 2, 7 at k1, the table 7, x at k2 and nothing at k3. *)
Definition alg_heap : gmap addr robj :=
  list_to_map [(10001, mkObj REDIS_SET ENC_INTSET 1 0 (PIntset two_ints)); (10002, raw "7"); (10003, raw "x");
    (10004, mkObj REDIS_SET ENC_HT 1 0 (PSetDict [10002; 10003])); (10005, raw "k1"); (10006, raw "k2"); (10007, raw "k3")]%positive.
Definition alg_server : server :=
  store_of alg_heap (put_key 0 "k1" 10001 (put_key 0 "k2" 10004 server0)).
Definition alg_sets (a : addr) : gset sds := if decide (a = 10001%positive) then {[str "2"; str "7"]} else {[str "7"; str "x"]}.
Definition alg_client : client := client_of 0 [10005; 10005; 10006; 10007]%positive.
Definition alg_store : client := client_of 0 [10005; 10006; 10006; 10005]%positive.

(** The members of the table, and the arguments of the clients. *)
Definition alg_refs : list addr := [10002; 10003; 10005; 10006; 10007]%positive.

Lemma alg_owns : owns alg_server alg_refs.
Proof.
  apply store_of_owns; [reflexivity| | |].
  - intros b o Hb. apply elem_of_list_to_map_2 in Hb. rewrite !elem_of_cons, elem_of_nil in Hb. unfold alg_refs.
    destruct_or! Hb; try done; injection Hb as -> ->; (split; [lia|]); cbn; intros [=]; rewrite !elem_of_cons; auto 10.
  - apply (bool_decide_unpack _). vm_compute. exact I.
  - repeat constructor; eexists _, _; (split; [reflexivity|]); (split; [reflexivity|]); (split; [reflexivity|]); left; split; reflexivity.
Qed.

Lemma alg_str j c a x : cl_argv c !! j = Some (Some a) -> alg_heap !! a = Some (raw x) -> str_arg alg_server c j (str x).
Proof. intros Hj Ha. exists a, (raw x). split; [done|]. split; [by apply store_of_lookup|done]. Qed.

Lemma alg_key j c a x oa : cl_db c = 0%nat -> cl_argv c !! j = Some (Some a) -> alg_heap !! a = Some (raw x) -> lookupKey alg_server 0 (str x) = oa ->
  key_arg alg_server c j oa.
Proof.
  intros Hc Hj Ha Hl. exists (str x). split; [by eapply alg_str|]. rewrite Hc. split; [|done]. unfold live.
  assert (E : db_expires (get_db alg_server 0) = ∅) by reflexivity. rewrite E, lookup_empty. exact I.
Qed.

Lemma alg_table : set_obj alg_server (mkObj REDIS_SET ENC_HT 1 0 (PSetDict [10002; 10003]%positive)) {[str "7"; str "x"]} [10002; 10003]%positive.
Proof.
  split; [done|]. right. split; [done|]. split; [done|]. exists [str "7"; str "x"]. split; [|split; [|vm_compute; reflexivity]].
  - repeat constructor; eexists; (split; [apply store_of_lookup; reflexivity|]); (split; [reflexivity|]); (split; [reflexivity|]); left; split; reflexivity.
  - apply NoDup_cons. split; [by rewrite list_elem_of_singleton|apply NoDup_singleton].
Qed.

Lemma alg_src a : a = 10001%positive \/ a = 10004%positive -> src_ok alg_server alg_refs alg_sets a.
Proof.
  intros [-> | ->].
  - eexists _, []. split; [apply store_of_lookup; reflexivity|]. split; [|split; [set_solver|vm_compute; reflexivity]].
    split; [done|]. left. split; [done|]. split; [done|]. exists two_ints, [2; 7]. split; [done|]. split; [exact two_ints_repr|]. vm_compute. reflexivity.
  - eexists _, [10002; 10003]%positive. split; [apply store_of_lookup; reflexivity|]. split; [exact alg_table|]. split; [unfold alg_refs; set_solver|vm_compute; reflexivity].
Qed.

Lemma set_algebra_correct_witness :
  exists xs s', sdiffCommand alg_client alg_server = Done (replied alg_client xs, s') /\
    list_to_set xs = ({[str "2"; str "7"]} ∖ ⋃ [{[str "7"; str "x"]}; ∅] : gset sds).
Proof.
  destruct (set_algebra_correct alg_server alg_client alg_refs alg_sets [Some 10001; Some 10004; None]%positive)
    as (_ & _ & xs & s' & H1 & _ & H2 & _).
  - split; [exact alg_owns| |].
    + repeat constructor; [by eapply (alg_key _ _ _ "k1")|by eapply (alg_key _ _ _ "k2")|by eapply (alg_key _ _ _ "k3")].
    + intros a Ha. apply alg_src. rewrite !elem_of_cons, elem_of_nil in Ha. destruct_or! Ha; try done; injection Ha; auto.
  - done.
  - vm_compute. reflexivity.
  - exists xs, s'. split; [exact H1|exact H2].
Defined.

Lemma set_store_correct_witness :
  exists s', sdiffstoreCommand alg_store alg_server = Done (add_reply (RInt 1) alg_store, s') /\ heap s' !! 10004%positive = None.
Proof.
  destruct (set_store_correct alg_server alg_store alg_refs [10005; 10006; 10007]%positive alg_sets [Some 10004; Some 10001]%positive (str "k2"))
    as (_ & H).
  - by eapply alg_str.
  - split; [exact alg_owns| |].
    + repeat constructor; [by eapply (alg_key _ _ _ "k2")|by eapply (alg_key _ _ _ "k1")].
    + intros a Ha. apply alg_src. rewrite !elem_of_cons, elem_of_nil in Ha. destruct_or! Ha; try done; injection Ha; auto.
  - done.
  - vm_compute. reflexivity.
  - exists (mkObj REDIS_SET ENC_HT 1 0 (PSetDict [10002; 10003]%positive)), {[str "7"; str "x"]}, [10002; 10003]%positive.
    split; [apply store_of_lookup; reflexivity|]. split; [reflexivity|]. split; [exact alg_table|reflexivity].
  - vm_compute. lia.
  - destruct (H REDIS_OP_DIFF) as (s' & E & _ & HG & _). exists s'. split; [exact E|]. apply HG. reflexivity.
Defined.

(** SRANDMEMBER keeps the 32 low bits of its count: asked for 2^32 + 1 members
    of a set of two, it sends one of them, not both. *)
Definition rand_server : server :=
  set_heap (<[10008%positive := raw "4294967297"]> alg_heap) (set_rnd [5] (put_key 0 "k2" 10004 server0)).
Definition rand_replies (count : addr) : option (list reply) :=
  match srandmemberCommand (client_of 0 [10005; 10006; count]%positive) rand_server with
  | Done (c, _) => Some (cl_replies c)
  | Fault _ => None
  end.

Example srandmember_count_wraps : rand_replies 10008 = Some [RMultiLen 1; RBulk (str "7")].
Proof. vm_compute. reflexivity. Qed.

End TSetAlgSpec.
