(* ===== verification/TList.v ===== *)
(** * t_list.c: the list type in its two encodings, and the list commands

    A ziplist is the list of its entries (Ziplist.v), a linked list the list
    of the objects in its nodes.  A pointer to an entry or to a node is its
    index; in a ziplist the index may be the length of the list, which is the
    end marker (ZIP_END).  The blocking commands are left out. *)
From S2P Require Import Prelude CStr Intset Util Server Object Db TString Heap.
Import Object Db TString Heap.

Module TList.

Inductive where_ := REDIS_HEAD | REDIS_TAIL.

#[global] Instance where_eq_dec : EqDecision where_.
Proof. solve_decision. Defined.

Definition zl_of (o : robj) : outcome (list sds) :=
  match o_ptr o with PZiplist l => Done l | _ => Fault Panic end.
Definition ll_of (o : robj) : outcome (list addr) :=
  match o_ptr o with PLinked l => Done l | _ => Fault Panic end.

(** What both ziplistIndex and listIndex compute: a negative index counts
    from the end. *)
Definition list_index (n : nat) (index : Z) : option nat :=
  let i := if index <? 0 then Z.of_nat n + index else index in
  if (0 <=? i) && (i <? Z.of_nat n) then Some (Z.to_nat i) else None.

(** The index parameter of ziplistIndex is an int, and its callers pass a
    long. *)
Definition index_of (enc : oenc) (n : nat) (index : Z) : option nat :=
  list_index n (if decide (enc = ENC_ZIPLIST) then to_s 32 index else index).

(** The object for a ziplist entry: an entry whose text is an integer is
    kept, and returned by ziplistGet, as an integer. *)
Definition zl_object (x : sds) : M addr :=
  match Util.string2ll x with
  | Some v => createStringObjectFromLongLong v
  | None => createStringObject x
  end.

(** ** The list type *)
Record listTypeIterator := mkLi {
  li_subject : addr;
  li_encoding : oenc;
  li_direction : where_;
  li_pos : option nat
}.

Definition set_li_pos (p : option nat) (li : listTypeIterator) : listTypeIterator :=
  mkLi (li_subject li) (li_encoding li) (li_direction li) p.

Definition listTypeLength (o : robj) : outcome Z :=
  match o_encoding o with
  | ENC_ZIPLIST => l ← zl_of o; mret (Z.of_nat (length l))
  | ENC_LINKEDLIST => l ← ll_of o; mret (Z.of_nat (length l))
  | _ => Fault Panic
  end.

Definition listTypeInitIterator (subject : addr) (index : Z) (direction : where_) : M listTypeIterator :=
  o ← deref subject;
  n ← lift (listTypeLength o);
  mret (mkLi subject (o_encoding o) direction (index_of (o_encoding o) (Z.to_nat n) index)).

(** The entry before or after position [i] of a list of [n] entries. *)
Definition step_pos (direction : where_) (n i : nat) : option nat :=
  match direction with
  | REDIS_TAIL => if (S i <? n)%nat then Some (S i) else None
  | REDIS_HEAD => match i with O => None | S i' => Some i' end
  end.

(** [None] is the 0 that ends the loop; an entry is its position. *)
Definition listTypeNext (li : listTypeIterator) : M (option nat * listTypeIterator) :=
  o ← deref (li_subject li);
  _ ← lift (require_b AssertFail (bool_decide (o_encoding o = li_encoding li)));
  match li_pos li with
  | None => mret (None, li)
  | Some i =>
    n ← lift (listTypeLength o);
    mret (Some i, set_li_pos (step_pos (li_direction li) (Z.to_nat n) i) li)
  end.

(** NULL for an entry at the end marker of a ziplist. *)
Definition listTypeGet (li : listTypeIterator) (entry : nat) : M (option addr) :=
  o ← deref (li_subject li);
  match li_encoding li with
  | ENC_ZIPLIST =>
    l ← lift (zl_of o);
    match l !! entry with
    | Some x => a ← zl_object x; mret (Some a)
    | None => mret None
    end
  | ENC_LINKEDLIST =>
    l ← lift (ll_of o);
    a ← lift (expect Dangling (l !! entry));
    _ ← incrRefCount a;
    mret (Some a)
  | _ => throw Panic
  end.

(** The loop of listTypeConvert over the entries. *)
Fixpoint listTypeConvert_loop (xs : list sds) (l : list addr) : M (list addr) :=
  match xs with
  | [] => mret l
  | x :: r => a ← zl_object x; listTypeConvert_loop r (l ++ [a])
  end.

(** To REDIS_ENCODING_LINKEDLIST; the callers have checked that the list is
    a ziplist. *)
Definition listTypeConvert (subject : addr) : M unit :=
  o ← deref subject;
  _ ← lift (require_b AssertFail (bool_decide (o_type o = REDIS_LIST)));
  xs ← lift (zl_of o);
  l ← listTypeConvert_loop xs [];
  upd_obj subject (fun o => set_o_ptr (PLinked l) (set_o_encoding ENC_LINKEDLIST o)).

Definition listTypeTryConversion (subject value : addr) : M unit :=
  o ← deref subject;
  if negb (bool_decide (o_encoding o = ENC_ZIPLIST)) then mret tt
  else
    v ← deref value;
    cf ← gets conf;
    match o_encoding v, o_ptr v with
    | ENC_RAW, PSds x => when (sdslen x >? list_max_ziplist_value cf) (listTypeConvert subject)
    | _, _ => mret tt
    end.

(** The bytes of [getDecodedObject(value)], which is then released. *)
Definition decoded_bytes (value : addr) : M sds :=
  d ← getDecodedObject value;
  o ← deref d;
  x ← lift (sds_of o);
  _ ← decrRefCount d;
  mret x.

Definition listTypePush (subject value : addr) (where_ : where_) : M unit :=
  _ ← listTypeTryConversion subject value;
  o ← deref subject;
  cf ← gets conf;
  _ ← (match o_encoding o with
       | ENC_ZIPLIST =>
         l ← lift (zl_of o);
         when (Z.of_nat (length l) >=? list_max_ziplist_entries cf) (listTypeConvert subject)
       | _ => mret tt
       end);
  o ← deref subject;
  match o_encoding o with
  | ENC_ZIPLIST =>
    l ← lift (zl_of o);
    x ← decoded_bytes value;
    upd_obj subject (set_o_ptr (PZiplist (if decide (where_ = REDIS_HEAD) then x :: l else l ++ [x])))
  | ENC_LINKEDLIST =>
    l ← lift (ll_of o);
    _ ← upd_obj subject (set_o_ptr (PLinked (if decide (where_ = REDIS_HEAD) then value :: l else l ++ [value])));
    incrRefCount value
  | _ => throw Panic
  end.

(** The index of the first or the last element. *)
Definition end_index (where_ : where_) : Z := if decide (where_ = REDIS_HEAD) then 0 else -1.

Definition listTypePop (subject : addr) (where_ : where_) : M (option addr) :=
  o ← deref subject;
  match o_encoding o with
  | ENC_ZIPLIST =>
    l ← lift (zl_of o);
    match list_index (length l) (end_index where_) with
    | None => mret None
    | Some p =>
      x ← lift (expect Dangling (l !! p));
      a ← zl_object x;
      _ ← upd_obj subject (set_o_ptr (PZiplist (delete p l)));
      mret (Some a)
    end
  | ENC_LINKEDLIST =>
    l ← lift (ll_of o);
    match list_index (length l) (end_index where_) with
    | None => mret None
    | Some p =>
      a ← lift (expect Dangling (l !! p));
      _ ← incrRefCount a;
      _ ← upd_obj subject (set_o_ptr (PLinked (delete p l)));
      _ ← decrRefCount a;
      mret (Some a)
    end
  | _ => throw Panic
  end.

Definition insert_at {A} (i : nat) (x : A) (l : list A) : list A := take i l ++ x :: drop i l.

Definition listTypeInsert (li : listTypeIterator) (entry : nat) (value : addr) (where_ : where_) : M unit :=
  let i := if decide (where_ = REDIS_TAIL) then S entry else entry in
  match li_encoding li with
  | ENC_ZIPLIST =>
    x ← decoded_bytes value;
    o ← deref (li_subject li);
    l ← lift (zl_of o);
    upd_obj (li_subject li) (set_o_ptr (PZiplist (insert_at i x l)))
  | ENC_LINKEDLIST =>
    o ← deref (li_subject li);
    l ← lift (ll_of o);
    _ ← upd_obj (li_subject li) (set_o_ptr (PLinked (insert_at i value l)));
    incrRefCount value
  | _ => throw Panic
  end.

Definition listTypeEqual (li : listTypeIterator) (entry : nat) (o : addr) : M bool :=
  ob ← deref o;
  subj ← deref (li_subject li);
  match li_encoding li with
  | ENC_ZIPLIST =>
    _ ← lift (require_b AssertFail (bool_decide (o_encoding ob = ENC_RAW)));
    x ← lift (sds_of ob);
    l ← lift (zl_of subj);
    mret (bool_decide (l !! entry = Some x))
  | ENC_LINKEDLIST =>
    l ← lift (ll_of subj);
    a ← lift (expect Dangling (l !! entry));
    oa ← deref a;
    lift (equalStringObjects o a ob oa)
  | _ => throw Panic
  end.

(** The iterator moves on to the entry after or before the deleted one. *)
Definition listTypeDelete (li : listTypeIterator) (entry : nat) : M listTypeIterator :=
  o ← deref (li_subject li);
  match li_encoding li with
  | ENC_ZIPLIST =>
    l ← lift (zl_of o);
    _ ← upd_obj (li_subject li) (set_o_ptr (PZiplist (delete entry l)));
    mret (set_li_pos (match li_direction li with
                      | REDIS_TAIL => Some entry
                      | REDIS_HEAD => match entry with O => None | S e => Some e end
                      end) li)
  | ENC_LINKEDLIST =>
    l ← lift (ll_of o);
    a ← lift (expect Dangling (l !! entry));
    _ ← upd_obj (li_subject li) (set_o_ptr (PLinked (delete entry l)));
    _ ← decrRefCount a;
    mret (set_li_pos (match li_direction li with
                      | REDIS_TAIL => if (entry <? length l - 1)%nat then Some entry else None
                      | REDIS_HEAD => match entry with O => None | S e => Some e end
                      end) li)
  | _ => throw Panic
  end.

(** ** Commands *)
(** [if ((o = lookupKey...OrReply(c,key,r)) == NULL || checkType(c,o,t)) return;] *)
Definition typed_or_reply (lookup : client -> sds -> reply -> M (client * option addr))
    (c : client) (key : sds) (r : reply) (t : otype) : M (client * option addr) :=
  p ← lookup c key r;
  match p with
  | (c, None) => mret (c, None)
  | (c, Some a) =>
    o ← deref a;
    mret (match checkType c o t with
          | (c, true) => (c, None)
          | (c, false) => (c, Some a)
          end)
  end.

Definition get_long (c : client) (j : nat) : M (client * option Z) :=
  a ← lift (argv c j); o ← deref a; lift (getLongFromObjectOrReply c (Some o)).

Definition list_length (lobj : addr) : M Z := o ← deref lobj; lift (listTypeLength o).

Definition push_event (w : where_) : string := if decide (w = REDIS_HEAD) then "lpush" else "rpush".
Definition pop_event (w : where_) : string := if decide (w = REDIS_HEAD) then "lpop" else "rpop".

Fixpoint push_loop (c : client) (key : sds) (lobj : option addr) (w : where_) (js : list nat)
    : M (client * option addr) :=
  match js with
  | [] => mret (c, lobj)
  | j :: r =>
    p ← encode_arg c j;
    l ← (match lobj with
         | Some l => mret l
         | None => l ← createZiplistObject; _ ← dbAdd (cl_db c) key l; mret l
         end);
    _ ← listTypePush l (snd p) w;
    push_loop (fst p) key (Some l) w r
  end.

Definition pushGenericCommand (c : client) (w : where_) : M client :=
  let i := cl_db c in
  key ← arg_str c 1;
  lobj ← lookupKeyWrite i key;
  bad ← (match lobj with
         | Some a => o ← deref a; mret (negb (bool_decide (o_type o = REDIS_LIST)))
         | None => mret false
         end);
  if (bad : bool) then mret (add_reply wrongtypeerr c)
  else
    let js := seq 2 (Z.to_nat (cl_argc c - 2)) in
    p ← push_loop c key lobj w js;
    n ← (match snd p with Some l => list_length l | None => mret 0 end);
    _ ← when (0 <? length js)%nat
          (_ ← signalModifiedKey i key; log_event (Notify (push_event w) key i));
    _ ← incr_dirty (Z.of_nat (length js));
    mret (add_reply (RInt n) (fst p)).

Definition lpushCommand (c : client) : M client := pushGenericCommand c REDIS_HEAD.
Definition rpushCommand (c : client) : M client := pushGenericCommand c REDIS_TAIL.

(** The search of LINSERT, from head to tail; [fuel] bounds the entries. *)
Fixpoint insert_search (fuel : nat) (li : listTypeIterator) (refval val : addr) (w : where_) : M bool :=
  match fuel with
  | O => throw OutOfFuel
  | S fuel' =>
    p ← listTypeNext li;
    match p with
    | (None, _) => mret false
    | (Some entry, li) =>
      eq ← listTypeEqual li entry refval;
      if (eq : bool) then _ ← listTypeInsert li entry val w; mret true
      else insert_search fuel' li refval val w
    end
  end.

Definition pushxGenericCommand (c : client) (refval : option addr) (val : addr) (w : where_) : M client :=
  let i := cl_db c in
  key ← arg_str c 1;
  p ← typed_or_reply lookupKeyReadOrReply c key (RInt 0) REDIS_LIST;
  match p with
  | (c, None) => mret c
  | (c, Some subject) =>
    inserted ←
      (match refval with
       | Some refval =>
         _ ← listTypeTryConversion subject val;
         n ← list_length subject;
         li ← listTypeInitIterator subject 0 REDIS_TAIL;
         inserted ← insert_search (S (Z.to_nat n)) li refval val w;
         if (inserted : bool) then
           o ← deref subject;
           cf ← gets conf;
           n ← list_length subject;
           _ ← when (bool_decide (o_encoding o = ENC_ZIPLIST) && (n >? list_max_ziplist_entries cf))
                 (listTypeConvert subject);
           _ ← signalModifiedKey i key;
           _ ← log_event (Notify "linsert" key i);
           _ ← incr_dirty 1;
           mret true
         else mret false
       | None =>
         _ ← listTypePush subject val w;
         _ ← signalModifiedKey i key;
         _ ← log_event (Notify (push_event w) key i);
         _ ← incr_dirty 1;
         mret true
       end);
    if (inserted : bool) then n ← list_length subject; mret (add_reply (RInt n) c)
    else mret (add_reply (RInt (-1)) c)
  end.

Definition lpushxCommand (c : client) : M client :=
  p ← encode_arg c 2; pushxGenericCommand (fst p) None (snd p) REDIS_HEAD.
Definition rpushxCommand (c : client) : M client :=
  p ← encode_arg c 2; pushxGenericCommand (fst p) None (snd p) REDIS_TAIL.

Definition linsertCommand (c : client) : M client :=
  p ← encode_arg c 4;
  where_arg ← arg_str (fst p) 2;
  refval ← lift (argv (fst p) 3);
  if strcasecmp_eq where_arg (str "after") then
    pushxGenericCommand (fst p) (Some refval) (snd p) REDIS_TAIL
  else if strcasecmp_eq where_arg (str "before") then
    pushxGenericCommand (fst p) (Some refval) (snd p) REDIS_HEAD
  else mret (add_reply (RErr "syntax error") (fst p)).

Definition llenCommand (c : client) : M client :=
  key ← arg_str c 1;
  p ← typed_or_reply lookupKeyReadOrReply c key (RInt 0) REDIS_LIST;
  match p with
  | (c, None) => mret c
  | (c, Some o) => n ← list_length o; mret (add_reply (RInt n) c)
  end.

Definition lindexCommand (c : client) : M client :=
  key ← arg_str c 1;
  p ← typed_or_reply lookupKeyReadOrReply c key RNull REDIS_LIST;
  match p with
  | (c, None) => mret c
  | (c, Some a) =>
    q ← get_long c 2;
    match q with
    | (c, None) => mret c
    | (c, Some index) =>
      o ← deref a;
      match o_encoding o with
      | ENC_ZIPLIST =>
        l ← lift (zl_of o);
        match index_of ENC_ZIPLIST (length l) index ≫= (l !!.) with
        | Some x =>
          value ← zl_object x;
          ov ← deref value;
          c ← lift (addReplyBulk c ov);
          _ ← decrRefCount value;
          mret c
        | None => mret (add_reply RNull c)
        end
      | ENC_LINKEDLIST =>
        l ← lift (ll_of o);
        match index_of ENC_LINKEDLIST (length l) index ≫= (l !!.) with
        | Some value => ov ← deref value; lift (addReplyBulk c ov)
        | None => mret (add_reply RNull c)
        end
      | _ => throw Panic
      end
    end
  end.

Definition lset_done (c : client) (key : sds) : M client :=
  let i := cl_db c in
  _ ← signalModifiedKey i key;
  _ ← log_event (Notify "lset" key i);
  _ ← incr_dirty 1;
  mret (add_reply ROk c).

Definition outofrangeerr : reply := RErr "index out of range".

Definition lsetCommand (c : client) : M client :=
  key ← arg_str c 1;
  p ← typed_or_reply lookupKeyWriteOrReply c key nokeyerr REDIS_LIST;
  match p with
  | (c, None) => mret c
  | (c, Some a) =>
    e ← encode_arg c 3;
    let value := snd e in
    q ← get_long (fst e) 2;
    match q with
    | (c, None) => mret c
    | (c, Some index) =>
      _ ← listTypeTryConversion a value;
      o ← deref a;
      match o_encoding o with
      | ENC_ZIPLIST =>
        l ← lift (zl_of o);
        match index_of ENC_ZIPLIST (length l) index with
        | None => mret (add_reply outofrangeerr c)
        | Some p =>
          _ ← upd_obj a (set_o_ptr (PZiplist (delete p l)));
          x ← decoded_bytes value;
          _ ← upd_obj a (set_o_ptr (PZiplist (insert_at p x (delete p l))));
          lset_done c key
        end
      | ENC_LINKEDLIST =>
        l ← lift (ll_of o);
        match index_of ENC_LINKEDLIST (length l) index with
        | None => mret (add_reply outofrangeerr c)
        | Some p =>
          old ← lift (expect Dangling (l !! p));
          _ ← decrRefCount old;
          _ ← upd_obj a (set_o_ptr (PLinked (<[p := value]> l)));
          _ ← incrRefCount value;
          lset_done c key
        end
      | _ => throw Panic
      end
    end
  end.

Definition popGenericCommand (c : client) (w : where_) : M client :=
  let i := cl_db c in
  key ← arg_str c 1;
  p ← typed_or_reply lookupKeyWriteOrReply c key RNull REDIS_LIST;
  match p with
  | (c, None) => mret c
  | (c, Some o) =>
    value ← listTypePop o w;
    match value with
    | None => mret (add_reply RNull c)
    | Some value =>
      ov ← deref value;
      c ← lift (addReplyBulk c ov);
      _ ← decrRefCount value;
      _ ← log_event (Notify (pop_event w) key i);
      n ← list_length o;
      _ ← when (n =? 0) (_ ← log_event (Notify "del" key i); _ ← dbDelete i key; mret tt);
      _ ← signalModifiedKey i key;
      _ ← incr_dirty 1;
      mret c
    end
  end.

Definition lpopCommand (c : client) : M client := popGenericCommand c REDIS_HEAD.
Definition rpopCommand (c : client) : M client := popGenericCommand c REDIS_TAIL.

(** The negative indexes of LRANGE and LTRIM converted; [None] is the empty
    range. *)
Definition clip_range (llen start end_ : Z) : option (Z * Z) :=
  let start := if start <? 0 then llen + start else start in
  let end_ := if end_ <? 0 then llen + end_ else end_ in
  let start := if start <? 0 then 0 else start in
  if (start >? end_) || (start >=? llen) then None
  else Some (start, if end_ >=? llen then llen - 1 else end_).

(** The reply loop over the objects of a linked list. *)
Fixpoint reply_objects (c : client) (l : list addr) : M client :=
  match l with
  | [] => mret c
  | a :: r => o ← deref a; c ← lift (addReplyBulk c o); reply_objects c r
  end.

Definition range (start n : Z) {A} (l : list A) : list A := take (Z.to_nat n) (drop (Z.to_nat start) l).

Definition lrangeCommand (c : client) : M client :=
  q ← get_long c 2;
  match q with
  | (c, None) => mret c
  | (c, Some start) =>
    q ← get_long c 3;
    match q with
    | (c, None) => mret c
    | (c, Some end_) =>
      key ← arg_str c 1;
      p ← typed_or_reply lookupKeyReadOrReply c key (RMultiLen 0) REDIS_LIST;
      match p with
      | (c, None) => mret c
      | (c, Some a) =>
        llen ← list_length a;
        match clip_range llen start end_ with
        | None => mret (add_reply (RMultiLen 0) c)
        | Some (start, end_) =>
          let rangelen := end_ - start + 1 in
          let c := add_reply (RMultiLen rangelen) c in
          o ← deref a;
          match o_encoding o with
          | ENC_ZIPLIST =>
            l ← lift (zl_of o);
            mret (foldl (fun c x => add_reply (RBulk x) c) c (range start rangelen l))
          | ENC_LINKEDLIST => l ← lift (ll_of o); reply_objects c (range start rangelen l)
          | _ => throw Panic
          end
        end
      end
    end
  end.

(** The two loops of LTRIM over a linked list: listDelNode releases the
    object of the node. *)
Fixpoint trim_loop (a : addr) (w : where_) (n : nat) : M unit :=
  match n with
  | O => mret tt
  | S n' =>
    o ← deref a;
    l ← lift (ll_of o);
    let p := if decide (w = REDIS_HEAD) then 0%nat else (length l - 1)%nat in
    x ← lift (expect NullDeref (l !! p));
    _ ← upd_obj a (set_o_ptr (PLinked (delete p l)));
    _ ← decrRefCount x;
    trim_loop a w n'
  end.

(** [ltrim] and [rtrim] *)
Definition trim_counts (llen start end_ : Z) : Z * Z :=
  match clip_range llen start end_ with
  | None => (llen, 0)
  | Some (start, end_) => (start, llen - end_ - 1)
  end.

Definition ltrimCommand (c : client) : M client :=
  let i := cl_db c in
  q ← get_long c 2;
  match q with
  | (c, None) => mret c
  | (c, Some start) =>
    q ← get_long c 3;
    match q with
    | (c, None) => mret c
    | (c, Some end_) =>
      key ← arg_str c 1;
      p ← typed_or_reply lookupKeyWriteOrReply c key ROk REDIS_LIST;
      match p with
      | (c, None) => mret c
      | (c, Some a) =>
        llen ← list_length a;
        let '(ltrim, rtrim) := trim_counts llen start end_ in
        o ← deref a;
        _ ← (match o_encoding o with
             | ENC_ZIPLIST =>
               l ← lift (zl_of o);
               upd_obj a (set_o_ptr (PZiplist (range ltrim (llen - ltrim - rtrim) l)))
             | ENC_LINKEDLIST =>
               _ ← trim_loop a REDIS_HEAD (Z.to_nat ltrim);
               trim_loop a REDIS_TAIL (Z.to_nat rtrim)
             | _ => throw Panic
             end);
        _ ← log_event (Notify "ltrim" key i);
        n ← list_length a;
        _ ← when (n =? 0) (_ ← dbDelete i key; log_event (Notify "del" key i));
        _ ← signalModifiedKey i key;
        _ ← incr_dirty 1;
        mret (add_reply ROk c)
      end
    end
  end.

Fixpoint lrem_loop (fuel : nat) (li : listTypeIterator) (obj : addr) (toremove removed : Z) : M Z :=
  match fuel with
  | O => throw OutOfFuel
  | S fuel' =>
    p ← listTypeNext li;
    match p with
    | (None, _) => mret removed
    | (Some entry, li) =>
      eq ← listTypeEqual li entry obj;
      if (eq : bool) then
        li ← listTypeDelete li entry;
        _ ← incr_dirty 1;
        if negb (toremove =? 0) && (removed + 1 =? toremove) then mret (removed + 1)
        else lrem_loop fuel' li obj toremove (removed + 1)
      else lrem_loop fuel' li obj toremove removed
    end
  end.

Definition lremCommand (c : client) : M client :=
  let i := cl_db c in
  e ← encode_arg c 3;
  q ← get_long (fst e) 2;
  match q with
  | (c, None) => mret c
  | (c, Some toremove) =>
    key ← arg_str c 1;
    p ← typed_or_reply lookupKeyWriteOrReply c key (RInt 0) REDIS_LIST;
    match p with
    | (c, None) => mret c
    | (c, Some subject) =>
      o ← deref subject;
      let zl := bool_decide (o_encoding o = ENC_ZIPLIST) in
      obj ← (if zl then getDecodedObject (snd e) else mret (snd e));
      n ← list_length subject;
      li ← (if toremove <? 0 then listTypeInitIterator subject (-1) REDIS_HEAD
            else listTypeInitIterator subject 0 REDIS_TAIL);
      removed ← lrem_loop (S (S (Z.to_nat n))) li obj (to_s 64 (Z.abs toremove)) 0;
      _ ← when zl (decrRefCount obj);
      n ← list_length subject;
      _ ← when (n =? 0) (_ ← dbDelete i key; mret tt);
      _ ← when (negb (removed =? 0)) (signalModifiedKey i key);
      mret (add_reply (RInt removed) c)
    end
  end.

Definition rpoplpushHandlePush (c : client) (dstkey : sds) (dstobj : option addr) (value : addr) : M client :=
  let i := cl_db c in
  d ← (match dstobj with
       | Some d => mret d
       | None => d ← createZiplistObject; _ ← dbAdd i dstkey d; mret d
       end);
  _ ← signalModifiedKey i dstkey;
  _ ← listTypePush d value REDIS_HEAD;
  _ ← log_event (Notify "lpush" dstkey i);
  ov ← deref value;
  lift (addReplyBulk c ov).

Definition rpoplpushCommand (c : client) : M client :=
  let i := cl_db c in
  src ← arg_str c 1;
  p ← typed_or_reply lookupKeyWriteOrReply c src RNull REDIS_LIST;
  match p with
  | (c, None) => mret c
  | (c, Some sobj) =>
    n ← list_length sobj;
    if n =? 0 then mret (add_reply RNull c)
    else
      dst ← arg_str c 2;
      dobj ← lookupKeyWrite i dst;
      bad ← (match dobj with
             | Some d => od ← deref d; mret (checkType c od REDIS_LIST)
             | None => mret (c, false)
             end);
      match bad with
      | (c, true) => mret c
      | (c, false) =>
        value ← listTypePop sobj REDIS_TAIL;
        value ← lift (expect NullDeref value);
        c ← rpoplpushHandlePush c dst dobj value;
        _ ← decrRefCount value;
        _ ← log_event (Notify "rpop" src i);
        n ← list_length sobj;
        _ ← when (n =? 0) (_ ← dbDelete i src; log_event (Notify "del" src i));
        _ ← signalModifiedKey i src;
        _ ← incr_dirty 1;
        mret c
      end
  end.

(** ** Lists of byte strings *)

(** The list object [a] stands for [l], in either encoding. *)
Definition list_rep (s : server) (a : addr) (l : list sds) : Prop :=
  exists o, heap s !! a = Some o /\ o_type o = REDIS_LIST /\
    ((o_encoding o = ENC_ZIPLIST /\ o_ptr o = PZiplist l) \/
     (o_encoding o = ENC_LINKEDLIST /\ exists xs, o_ptr o = PLinked xs /\ Forall2 (holds s) xs l)).

Definition push (w : where_) {A} (x : A) (l : list A) : list A :=
  match w with REDIS_HEAD => x :: l | REDIS_TAIL => l ++ [x] end.

Lemma push_if w {A} (x : A) l : (if decide (w = REDIS_HEAD) then x :: l else l ++ [x]) = push w x l.
Proof. by destruct w. Qed.

Lemma list_rep_frame a b s s' l : grows b s s' -> b <> a -> list_rep s a l -> list_rep s' a l.
Proof.
  intros G Hne (o & Ho & Ht & He). exists o. split; [apply (gr_others _ _ _ G); congruence|]. split; [done|].
  destruct He as [He|(He & xs & Hp & Hx)]; [by left|right]. split; [done|]. exists xs. split; [done|].
  eapply Forall2_impl; [exact Hx|]. apply G.
Qed.

Lemma zl_object_holds x s : store_ok s ->
  exists b s', zl_object x s = Done (b, s') /\ holds s' b x /\ keeps s s'.
Proof.
  intros HS. unfold zl_object. destruct (Util.string2ll x) as [n|] eqn:E.
  - pose proof (proj1 (Util.string2ll_canonical _ _) E) as [_ Hn].
    destruct (createFromLongLong_holds n s HS Hn) as (b & s1 & E1 & Hh & G). rewrite (Util.text_string2ll _ _ E) in Hh. eauto.
  - destruct (createString_holds x s HS) as (b & s1 & E1 & Hh & G & _). eauto.
Qed.

Lemma decoded_bytes_ok v x s : store_ok s -> holds s v x ->
  exists s', decoded_bytes v s = Done (x, s') /\ keeps s s' /\ heap s' = heap s.
Proof.
  intros HS Hv. destruct (getDecoded_ok v x s HS Hv) as (d & s1 & E1 & G1 & (o & Ho & Ht & He & Hp) & s2 & E2 & G2 & Hh).
  unfold decoded_bytes. rewrite (prog_bind_step _ _ _ _ _ E1), (bind_deref _ _ _ _ Ho). unfold sds_of. rewrite Hp, bind_lift.
  rewrite (prog_bind_step _ _ _ _ _ E2). eauto.
Qed.

Lemma convert_loop_ok : forall xs l l0 s, store_ok s -> Forall2 (holds s) l l0 ->
  exists s' l', listTypeConvert_loop xs l s = Done (l', s') /\ Forall2 (holds s') l' (l0 ++ xs) /\ keeps s s'.
Proof.
  induction xs as [|x xs IH]; intros l l0 s HS Hl; cbn [listTypeConvert_loop].
  - exists s, l. rewrite app_nil_r. split; [done|]. split; [done|apply keeps_refl].
  - destruct (zl_object_holds x s HS) as (b & s1 & E1 & Hb & G1). rewrite (prog_bind_step _ _ _ _ _ E1).
    destruct (IH (l ++ [b]) (l0 ++ [x]) s1) as (s2 & l' & E2 & Hl' & G2).
    + by apply (G1 xH).
    + apply Forall2_app; [|by repeat constructor]. eapply Forall2_impl; [exact Hl|]. apply (G1 xH).
    + exists s2, l'. split; [done|]. rewrite <- app_assoc in Hl'. split; [done|]. by eapply keeps_trans.
Qed.

(** A ziplist and its conversion stand for the same list. *)
Lemma listTypeConvert_ok a o l s : store_ok s -> heap s !! a = Some o -> o_type o = REDIS_LIST -> o_ptr o = PZiplist l ->
  exists s' xs, listTypeConvert a s = Done (tt, s') /\ grows a s s' /\ Forall2 (holds s') xs l /\
    heap s' !! a = Some (set_o_ptr (PLinked xs) (set_o_encoding ENC_LINKEDLIST o)).
Proof.
  intros HS Ha Ht Hp. unfold listTypeConvert. rewrite (bind_deref _ _ _ _ Ha), Ht, bool_decide_true by done. cbn [require_b].
  rewrite bind_lift. unfold zl_of. rewrite Hp, bind_lift.
  destruct (convert_loop_ok l [] [] s HS ltac:(constructor)) as (s1 & xs & E1 & Hx & G1).
  rewrite (prog_bind_step _ _ _ _ _ E1).
  assert (Hto : o_type o <> REDIS_STRING) by congruence.
  assert (Ha1 : heap s1 !! a = Some o) by (apply (gr_others _ _ _ (G1 (Pos.succ a))); [lia|done..]).
  pose proof (grows_container a o (fun o => set_o_ptr (PLinked xs) (set_o_encoding ENC_LINKEDLIST o)) s1 Ha1 Hto) as G2.
  rewrite (upd_obj_Done _ _ _ _ Ha1). eexists _, xs. split; [reflexivity|]. split; [by eapply grows_trans; [apply G1|]|].
  split; [|cbn; by rewrite lookup_insert_eq]. eapply Forall2_impl; [exact Hx|]. apply G2.
Qed.

Lemma convert_rep a o l s : store_ok s -> list_rep s a l -> heap s !! a = Some o -> o_encoding o = ENC_ZIPLIST ->
  exists s', listTypeConvert a s = Done (tt, s') /\ grows a s s' /\ list_rep s' a l.
Proof.
  intros HS (o' & Ho & Ht & He) Ha Hz. assert (o' = o) as -> by congruence.
  destruct He as [[_ Hp]|[He _]]; [|congruence].
  destruct (listTypeConvert_ok a o l s HS Ha Ht Hp) as (s1 & xs & E & G & Hx & H1). exists s1. split; [done|]. split; [done|].
  eexists. split; [exact H1|]. split; [done|]. right. split; [done|]. eauto.
Qed.

(** [when] a condition that holds for ziplists only, convert. *)
Lemma when_convert_rep (b : bool) a l s : store_ok s -> list_rep s a l ->
  (b = true -> exists o, heap s !! a = Some o /\ o_encoding o = ENC_ZIPLIST) ->
  exists s', when b (listTypeConvert a) s = Done (tt, s') /\ grows a s s' /\ list_rep s' a l.
Proof.
  intros HS HR Hb. destruct b; cbn [when].
  - destruct (Hb eq_refl) as (o & Ho & He). by eapply convert_rep.
  - exists s. split; [done|]. split; [apply grows_refl|done].
Qed.

Lemma tryConversion_rep a v x l s : store_ok s -> list_rep s a l -> holds s v x ->
  exists s', listTypeTryConversion a v s = Done (tt, s') /\ grows a s s' /\ list_rep s' a l.
Proof.
  intros HS HR (ov & Hv & Hx). pose proof HR as (o & Ho & Ht & He). unfold listTypeTryConversion.
  rewrite (bind_deref _ _ _ _ Ho). case_bool_decide as Hz; cbn [negb].
  - rewrite (bind_deref _ _ _ _ Hv), bind_gets. destruct Hx as (_ & _ & [[-> ->]|(-> & _)]).
    + apply when_convert_rep; [done|done|eauto].
    + exists s. split; [done|]. split; [apply grows_refl|done].
  - exists s. split; [done|]. split; [apply grows_refl|done].
Qed.

Lemma list_not_string a o l s : list_rep s a l -> heap s !! a = Some o -> o_type o <> REDIS_STRING.
Proof. intros (o' & Ho & Ht & _) Ha. congruence. Qed.

(** Writing the new contents of either encoding. *)
Lemma write_zl a o l s : heap s !! a = Some o -> o_type o = REDIS_LIST -> o_encoding o = ENC_ZIPLIST ->
  exists s', upd_obj a (set_o_ptr (PZiplist l)) s = Done (tt, s') /\ grows a s s' /\ list_rep s' a l.
Proof.
  intros Ha Ht He. rewrite (upd_obj_Done _ _ _ _ Ha). eexists. split; [reflexivity|].
  split; [apply grows_container; congruence|]. eexists. cbn. rewrite lookup_insert_eq. split; [reflexivity|].
  split; [done|]. by left.
Qed.

Lemma write_ll a o xs l s : heap s !! a = Some o -> o_type o = REDIS_LIST -> o_encoding o = ENC_LINKEDLIST ->
  Forall2 (holds s) xs l ->
  exists s', upd_obj a (set_o_ptr (PLinked xs)) s = Done (tt, s') /\ grows a s s' /\ list_rep s' a l /\
    heap s' = <[a := set_o_ptr (PLinked xs) o]> (heap s).
Proof.
  intros Ha Ht He Hx. rewrite (upd_obj_Done _ _ _ _ Ha). eexists. split; [reflexivity|].
  assert (Hs : o_type o <> REDIS_STRING) by congruence.
  pose proof (grows_container a o (set_o_ptr (PLinked xs)) s Ha Hs) as G. split; [done|]. split; [|done].
  eexists. cbn. rewrite lookup_insert_eq. split; [reflexivity|]. split; [done|]. right. split; [done|].
  eexists. split; [done|]. eapply Forall2_impl; [exact Hx|]. apply G.
Qed.

Lemma Forall2_push (P : addr -> sds -> Prop) w a x xs l : P a x -> Forall2 P xs l -> Forall2 P (push w a xs) (push w x l).
Proof. intros Hp Hf. destruct w; cbn; [by constructor|]. apply Forall2_app; [done|]. by repeat constructor. Qed.

Lemma listTypePush_rep a v x l w s : store_ok s -> list_rep s a l -> holds s v x ->
  exists s', listTypePush a v w s = Done (tt, s') /\ grows a s s' /\ list_rep s' a (push w x l).
Proof.
  intros HS HR Hv. unfold listTypePush.
  destruct (tryConversion_rep a v x l s HS HR Hv) as (s1 & E1 & G1 & HR1). rewrite (prog_bind_step _ _ _ _ _ E1).
  pose proof (gr_store _ _ _ G1 HS) as HS1. pose proof HR1 as (o1 & Ho1 & Ht1 & He1).
  rewrite (bind_deref _ _ _ _ Ho1), bind_gets.
  assert (exists s2, (match o_encoding o1 with
       | ENC_ZIPLIST => l ← lift (zl_of o1); when (Z.of_nat (length l) >=? list_max_ziplist_entries (conf s1)) (listTypeConvert a)
       | _ => mret tt end) s1 = Done (tt, s2) /\ grows a s1 s2 /\ list_rep s2 a l) as (s2 & E2 & G2 & HR2).
  { destruct He1 as [[-> Hp]|(-> & _)].
    - unfold zl_of. rewrite Hp, bind_lift. apply when_convert_rep; [done|done|].
      intros _. exists o1. split; [done|]. destruct HR1 as (o' & Ho' & _ & [[? _]|(_ & ? & ? & _)]); congruence.
    - exists s1. split; [done|]. split; [apply grows_refl|done]. }
  rewrite (prog_bind_step _ _ _ _ _ E2). pose proof (gr_store _ _ _ G2 HS1) as HS2.
  pose proof (grows_trans _ _ _ _ G1 G2) as G12. pose proof (gr_strings _ _ _ G12 _ _ Hv) as Hv2.
  pose proof HR2 as (o2 & Ho2 & Ht2 & He2). rewrite (bind_deref _ _ _ _ Ho2).
  assert (Hns : o_type o2 <> REDIS_STRING) by congruence. destruct He2 as [[He Hp]|(He & xs & Hp & Hx)]; rewrite He.
  - unfold zl_of. rewrite Hp, bind_lift. destruct (decoded_bytes_ok v x s2 HS2 Hv2) as (s3 & E3 & G3 & H3).
    rewrite (prog_bind_step _ _ _ _ _ E3), push_if.
    destruct (write_zl a o2 (push w x l) s3) as (s4 & E4 & G4 & HR4); [by rewrite H3|done|done|].
    exists s4. split; [done|]. split; [|done]. eapply grows_trans; [exact G12|]. eapply grows_trans; [apply G3|done].
  - unfold ll_of. rewrite Hp, bind_lift, push_if.
    destruct (write_ll a o2 (push w v xs) (push w x l) s2) as (s3 & E3 & G3 & HR3 & _); try done; [by apply Forall2_push|].
    rewrite (prog_bind_step _ _ _ _ _ E3). destruct (incrRefCount_ok v x s3) as (s4 & E4 & G4 & _ & ov & Hov & Hh4); [by apply G3|].
    exists s4. split; [done|]. split; [by eapply grows_trans; [exact G12|]; eapply grows_trans; [|apply G4]|].
    destruct (decide (v = a)) as [->|Hne].
    + exfalso. destruct Hv2 as (o' & Ho' & (Hts & _)). congruence.
    + by apply (list_rep_frame a v s3 s4 _ (G4 v)).
Qed.

(** The end of a list that [w] names. *)
Definition end_pos (w : where_) (n : nat) : nat := match w with REDIS_HEAD => 0%nat | REDIS_TAIL => n end.

Lemma end_index_push w {A} (x : A) l :
  list_index (length (push w x l)) (end_index w) = Some (end_pos w (length l)) /\
  push w x l !! end_pos w (length l) = Some x /\ delete (end_pos w (length l)) (push w x l) = l.
Proof.
  unfold list_index, end_index. destruct w; cbn [push end_pos length decide].
  - rewrite (decide_True (P := REDIS_HEAD = REDIS_HEAD)) by done. cbn [Z.ltb Z.compare Z.leb andb]. done.
  - rewrite decide_False by done. rewrite length_app. cbn [length]. split; [|split].
    + replace ((0 <=? _) && _) with true; [f_equal; cbn; lia|]. symmetry. cbn. apply andb_true_iff.
      rewrite Z.leb_le, Z.ltb_lt. lia.
    + by apply list_lookup_middle.
    + rewrite delete_middle. by rewrite app_nil_r.
Qed.

Lemma list_index_nil w : list_index 0 (end_index w) = None.
Proof. by destruct w. Qed.

Lemma Forall2_unpush (P : addr -> sds -> Prop) w x xs l : Forall2 P xs (push w x l) ->
  exists a xs', xs = push w a xs' /\ P a x /\ Forall2 P xs' l.
Proof.
  destruct w; cbn.
  - intros H. apply Forall2_cons_inv_r in H as (a & xs' & Ha & Hx & ->). eauto.
  - intros H. apply Forall2_app_inv_r in H as (xs' & ys & Hx & Hy & ->).
    apply Forall2_cons_inv_r in Hy as (a & zs & Ha & Hz & ->). apply Forall2_nil_inv_r in Hz as ->. eauto.
Qed.

Lemma Forall2_length_r {A B} (P : A -> B -> Prop) l k : Forall2 P l k -> length k = length l.
Proof. intros H. symmetry. by eapply Forall2_length. Qed.

Lemma listTypePop_rep a x l w s : store_ok s -> list_rep s a (push w x l) ->
  exists v s', listTypePop a w s = Done (Some v, s') /\ holds s' v x /\ grows a s s' /\ list_rep s' a l.
Proof.
  intros HS (o & Ho & Ht & He). unfold listTypePop. rewrite (bind_deref _ _ _ _ Ho).
  destruct He as [[He Hp]|(He & xs & Hp & Hx)]; rewrite He.
  - unfold zl_of. rewrite Hp, bind_lift. destruct (end_index_push w x l) as (-> & Hl & Hd). rewrite Hl. cbn [expect].
    rewrite bind_lift. destruct (zl_object_holds x s HS) as (v & s1 & E1 & Hv & G1). rewrite (prog_bind_step _ _ _ _ _ E1), Hd.
    destruct (write_zl a o l s1) as (s2 & E2 & G2 & HR2); try done.
    { apply (gr_others _ _ _ (G1 (Pos.succ a))); [lia|done|congruence]. }
    rewrite (prog_bind_step _ _ _ _ _ E2). exists v, s2. split; [done|]. split; [by apply G2|].
    split; [by eapply grows_trans; [apply G1|]|done].
  - unfold ll_of. rewrite Hp, bind_lift. apply Forall2_unpush in Hx as (v & xs' & -> & Hv & Hx).
    destruct (end_index_push w v xs') as (-> & Hl & Hd). rewrite Hl. cbn [expect]. rewrite bind_lift.
    destruct Hv as (ov & Hov & Hok). unfold incrRefCount. rewrite (bind_upd_obj _ _ _ _ _ Hov).
    assert (Hva : v <> a) by (intros ->; destruct Hok as [? _]; congruence).
    rewrite Hd. set (s1 := set_heap _ s). rewrite (bind_upd_obj a o) by (subst s1; cbn; by rewrite lookup_insert_ne).
    set (s2 := set_heap _ s1).
    rewrite (prog_bind_step _ _ _ _ _ (decr_after_incr v ov s2 ltac:(subst s2 s1; cbn; by rewrite lookup_insert_ne, lookup_insert_eq)
      ltac:(destruct Hok as (_ & ? & _); done))). 
    assert (Hs3 : set_heap (<[v := ov]> (heap s2)) s2 = set_heap (<[a := set_o_ptr (PLinked xs') o]> (heap s)) s).
    { subst s2 s1. unfold set_heap. cbn. f_equal. rewrite (insert_insert_ne _ a v) by done.
      rewrite insert_insert_eq, insert_insert_ne by done. f_equal. by rewrite insert_id. }
    rewrite Hs3. destruct (write_ll a o xs' l s Ho Ht He Hx) as (s4 & E4 & G4 & HR4 & _).
    rewrite (upd_obj_Done _ _ _ _ Ho) in E4. injection E4 as <-. eexists v, _. split; [reflexivity|].
    split; [apply G4; by exists ov|]. done.
Qed.

Lemma listTypePop_empty a w s : list_rep s a [] -> listTypePop a w s = Done (None, s).
Proof.
  intros (o & Ho & Ht & He). unfold listTypePop. rewrite (bind_deref _ _ _ _ Ho).
  destruct He as [[He Hp]|(He & xs & Hp & Hx)]; rewrite He.
  - unfold zl_of. rewrite Hp, bind_lift. cbn [length]. by rewrite list_index_nil.
  - apply Forall2_nil_inv_r in Hx as ->. unfold ll_of. rewrite Hp, bind_lift. cbn [length]. by rewrite list_index_nil.
Qed.

Lemma listTypeLength_rep a o l s : list_rep s a l -> heap s !! a = Some o -> listTypeLength o = Done (Z.of_nat (length l)).
Proof.
  intros (o' & Ho & Ht & He) Ha. assert (o' = o) as -> by congruence. unfold listTypeLength.
  destruct He as [[-> Hp]|(-> & xs & Hp & Hx)].
  - unfold zl_of. by rewrite Hp.
  - unfold ll_of. rewrite Hp. cbn. by rewrite (Forall2_length_r _ _ _ Hx).
Qed.

(** ** The list type as a double-ended queue *)

Inductive list_op := OpPush (w : where_) (v : addr) | OpPop (w : where_) | OpLen.
Inductive list_out := OutDone | OutPop (x : option sds) | OutLen (n : Z).

(** One operation of the list API on the object [a]. *)
Definition list_step (a : addr) (op : list_op) : M list_out :=
  match op with
  | OpPush w v => _ ← listTypePush a v w; mret OutDone
  | OpPop w =>
    r ← listTypePop a w;
    match r with
    | None => mret (OutPop None)
    | Some v => o ← deref v; x ← lift (string_bytes o); mret (OutPop (Some x))
    end
  | OpLen => n ← list_length a; mret (OutLen n)
  end.

Fixpoint list_run (a : addr) (ops : list list_op) : M (list list_out) :=
  match ops with
  | [] => mret []
  | op :: r => x ← list_step a op; xs ← list_run a r; mret (x :: xs)
  end.

Definition take_end (w : where_) (l : list sds) : option (sds * list sds) :=
  match w with
  | REDIS_HEAD => match l with [] => None | x :: r => Some (x, r) end
  | REDIS_TAIL => match last l with None => None | Some x => Some (x, take (length l - 1) l) end
  end.

(** The specification: the same operations on a list of byte strings;
    [val v] is what the argument [v] says. *)
Definition spec_step (val : addr -> sds) (op : list_op) (l : list sds) : list_out * list sds :=
  match op with
  | OpPush w v => (OutDone, push w (val v) l)
  | OpPop w => match take_end w l with
               | None => (OutPop None, l)
               | Some (x, r) => (OutPop (Some x), r)
               end
  | OpLen => (OutLen (Z.of_nat (length l)), l)
  end.

Fixpoint spec_run (val : addr -> sds) (ops : list list_op) (l : list sds) : list list_out * list sds :=
  match ops with
  | [] => ([], l)
  | op :: r => let '(x, l') := spec_step val op l in
               let '(xs, l'') := spec_run val r l' in (x :: xs, l'')
  end.

Lemma take_end_push w l : match take_end w l with
  | None => l = []
  | Some (x, r) => l = push w x r
  end.
Proof.
  destruct w; cbn; [by destruct l|]. destruct l as [|y l _] using rev_ind; [done|].
  rewrite last_snoc, length_app. cbn. rewrite take_app_le by lia. by rewrite firstn_all2 by lia.
Qed.

Lemma list_step_ok val op a l s : store_ok s -> list_rep s a l ->
  (forall w v, op = OpPush w v -> holds s v (val v)) ->
  exists s', list_step a op s = Done (fst (spec_step val op l), s') /\ grows a s s' /\
    list_rep s' a (snd (spec_step val op l)).
Proof.
  intros HS HR Hv. destruct op as [w v|w|]; cbn [list_step spec_step].
  - destruct (listTypePush_rep a v (val v) l w s HS HR (Hv w v eq_refl)) as (s1 & E1 & G1 & HR1).
    rewrite (prog_bind_step _ _ _ _ _ E1). by exists s1.
  - pose proof (take_end_push w l) as Hte. destruct (take_end w l) as [[x r]|]; subst l; cbn [fst snd].
    + destruct (listTypePop_rep a x r w s HS HR) as (v & s1 & E1 & (o & Ho & Hx) & G1 & HR1).
      rewrite (prog_bind_step _ _ _ _ _ E1), (bind_deref _ _ _ _ Ho), (string_bytes_ok _ _ Hx), bind_lift. by exists s1.
    + rewrite (prog_bind_step _ _ _ _ _ (listTypePop_empty a w s HR)). exists s. split; [done|]. split; [apply grows_refl|done].
  - unfold list_length. rewrite bind_assoc. pose proof HR as (o & Ho & _). rewrite (bind_deref _ _ _ _ Ho).
    rewrite (listTypeLength_rep a o l s HR Ho), bind_lift. exists s. split; [done|]. split; [apply grows_refl|done].
Qed.

(** C11: the list type refines a double-ended queue of byte strings: any
    sequence of pushes and pops at either end and of length queries gives the
    replies of the specification and leaves a list object that stands for the
    specification's list, whichever encoding the list has, whether or not a push
    converts the ziplist into a linked list on the way (for the size of an
    element or the number of elements), and whether the values pushed are raw,
    integer or shared objects; no string object is freed, no other container is
    written, and the keyspace and kvolve's state stay as they are. *)
Theorem list_type_refines_deque (val : positive -> sds) (ops : list list_op) (a : positive) (l : list sds) (s : server) :
  store_ok s -> list_rep s a l -> (forall w v, OpPush w v ∈ ops -> holds s v (val v)) ->
  exists s', list_run a ops s = Done (fst (spec_run val ops l), s') /\
    list_rep s' a (snd (spec_run val ops l)) /\ grows a s s'.
Proof.
  revert l s. induction ops as [|op ops IH]; intros l s HS HR Hv; cbn [list_run spec_run].
  - exists s. split; [done|]. split; [done|apply grows_refl].
  - destruct (list_step_ok val op a l s HS HR) as (s1 & E1 & G1 & HR1).
    { intros w v ->. apply (Hv w v). left. }
    rewrite (prog_bind_step _ _ _ _ _ E1). destruct (spec_step val op l) as [x l1]. cbn [fst snd] in *.
    destruct (IH l1 s1 (gr_store _ _ _ G1 HS) HR1) as (s2 & E2 & HR2 & G2).
    { intros w v Hwv. apply G1, (Hv w v). by right. }
    rewrite (prog_bind_step _ _ _ _ _ E2). destruct (spec_run val ops l1) as [xs l2]. cbn [fst snd] in *.
    exists s2. split; [done|]. split; [done|]. by eapply grows_trans.
Qed.

(** A list at its limits: two entries at most in a ziplist, of two bytes. *)
Definition small_limits : server_conf := mkConf 1000 false false None 0 false 512 2 2 512 64 128 64 4.
Definition deque_server : server :=
  store_of (<[10001%positive := mkObj REDIS_LIST ENC_ZIPLIST 1 0 (PZiplist [str "a"])]>
            (<[10002%positive := str_obj "long" 0]> ∅)) (set_conf small_limits server0).

Lemma list_type_refines_deque_witness :
  exists s', list_run 10001 [OpPush REDIS_TAIL 8; OpPush REDIS_HEAD 10002; OpPop REDIS_TAIL; OpLen] deque_server
    = Done ([OutDone; OutDone; OutPop (Some (str "7")); OutLen 2], s') /\
  list_rep s' 10001 [str "long"; str "a"].
Proof.
  destruct (list_type_refines_deque (fun v => if decide (v = 8%positive) then str "7" else str "long")
    [OpPush REDIS_TAIL 8; OpPush REDIS_HEAD 10002; OpPop REDIS_TAIL; OpLen] 10001 [str "a"] deque_server) as (s' & H1 & H2 & _).
  - apply store_of_ok; [reflexivity|]. intros b o. cbn. rewrite !lookup_insert_Some.
    intros [[<- _]|[_ [[<- _]|[_ Hb]]]]; [lia|lia|]. by rewrite lookup_empty in Hb.
  - exists (mkObj REDIS_LIST ENC_ZIPLIST 1 0 (PZiplist [str "a"])). split; [apply store_of_lookup; reflexivity|]. split; [reflexivity|].
    left. split; reflexivity.
  - intros w v Hv. rewrite !elem_of_cons, elem_of_nil in Hv. destruct_or! Hv; simplify_eq; cbn.
    + exists (int_obj 7). split; [|split; [done|split; [done|right; split; [done|exists 7; done]]]].
      apply (store_of_int _ _ 7); [done|reflexivity].
    + exists (str_obj "long" 0). split; [apply store_of_lookup; reflexivity|]. split; [done|]. split; [done|]. by left.
  - exists s'. split; [exact H1|exact H2].
Defined.

(** ** LINSERT and LREM on a ziplist *)

(** The state after the list object [a] was rewritten as [o]. *)
Record rewrote (a : addr) (o : robj) (s s' : server) : Prop := {
  rw_heap : heap s' = <[a := o]> (heap s);
  rw_next : next_addr s' = next_addr s;
  rw_dbs : dbs s' = dbs s;
  rw_conf : conf s' = conf s;
  rw_kv : kv s' = kv s
}.

(** What the steps around the list operations leave alone. *)
Record same_store (s s' : server) : Prop := {
  sm_heap : heap s' = heap s;
  sm_next : next_addr s' = next_addr s;
  sm_dbs : dbs s' = dbs s;
  sm_conf : conf s' = conf s;
  sm_kv : kv s' = kv s
}.

Lemma same_store_refl s : same_store s s.
Proof. by split. Qed.

Lemma same_store_trans s1 s2 s3 : same_store s1 s2 -> same_store s2 s3 -> same_store s1 s3.
Proof. intros [A1 A2 A3 A4 A5] [B1 B2 B3 B4 B5]. split; congruence. Qed.

Lemma rewrote_after a o s1 s2 s3 : rewrote a o s1 s2 -> same_store s2 s3 -> rewrote a o s1 s3.
Proof. intros [A1 A2 A3 A4 A5] [B1 B2 B3 B4 B5]. split; congruence. Qed.

Lemma rewrote_before a o s1 s2 s3 : same_store s1 s2 -> rewrote a o s2 s3 -> rewrote a o s1 s3.
Proof. intros [A1 A2 A3 A4 A5] [B1 B2 B3 B4 B5]. split; congruence. Qed.

Lemma signal_same i key s : exists s', signalModifiedKey i key s = Done (tt, s') /\ same_store s s'.
Proof.
  destruct (touchWatchedKey_frame i key s) as (s' & E & H1 & H2 & H3 & H4 & H5 & _). exists s'. split; [exact E|]. by split.
Qed.

Lemma decoded_raw v o x s : heap s !! v = Some o -> o_encoding o = ENC_RAW -> o_ptr o = PSds x -> 0 < o_refcount o ->
  decoded_bytes v s = Done (x, s).
Proof.
  intros Hv He Hp Hr. unfold decoded_bytes, getDecodedObject. rewrite bind_assoc, (bind_deref _ _ _ _ Hv), He, bool_decide_true by done.
  unfold incrRefCount. rewrite bind_assoc, (bind_upd_obj _ _ _ _ _ Hv), bind_mret.
  rewrite (bind_deref v (set_o_refcount (o_refcount o + 1) o)) by (cbn; apply lookup_insert_eq).
  unfold sds_of. cbn [o_ptr set_o_refcount]. rewrite Hp, bind_lift.
  erewrite prog_bind_step by (apply decr_after_incr; [cbn; apply lookup_insert_eq|exact Hr]).
  cbn [heap set_heap]. rewrite insert_insert_eq, insert_id by done. by destruct s.
Qed.

Section Ziplists.
Context (lo : addr) (ol : robj).
Context (Ht : o_type ol = REDIS_LIST) (He : o_encoding ol = ENC_ZIPLIST).

(** The list object with the entries [L]. *)
Definition zl (L : list sds) : robj := set_o_ptr (PZiplist L) ol.

Lemma index_head (L : list sds) : L <> [] -> index_of ENC_ZIPLIST (length L) 0 = Some 0%nat.
Proof. destruct L; [done|]. intros _. done. Qed.

Lemma zl_length L : listTypeLength (zl L) = Done (Z.of_nat (length L)).
Proof using He. unfold listTypeLength. cbn [zl o_encoding set_o_ptr]. by rewrite He. Qed.

Lemma init_head L s : heap s !! lo = Some (zl L) -> L <> [] ->
  listTypeInitIterator lo 0 REDIS_TAIL s = Done (mkLi lo ENC_ZIPLIST REDIS_TAIL (Some 0%nat), s).
Proof using He.
  intros Hl Hn. unfold listTypeInitIterator. rewrite (bind_deref _ _ _ _ Hl), zl_length, bind_lift.
  cbn [zl o_encoding set_o_ptr]. by rewrite He, Nat2Z.id, index_head.
Qed.

Lemma next_tail L k s : heap s !! lo = Some (zl L) ->
  listTypeNext (mkLi lo ENC_ZIPLIST REDIS_TAIL (Some k)) s =
  Done ((Some k, mkLi lo ENC_ZIPLIST REDIS_TAIL (if (S k <? length L)%nat then Some (S k) else None)), s).
Proof using He.
  intros Hl. unfold listTypeNext. cbn [li_subject li_pos li_encoding]. rewrite (bind_deref _ _ _ _ Hl).
  cbn [zl o_encoding set_o_ptr]. rewrite He, bool_decide_true by done. cbn [require_b]. rewrite bind_lift.
  fold (zl L). rewrite zl_length, bind_lift. unfold set_li_pos, step_pos. cbn. by rewrite Nat2Z.id.
Qed.

Lemma equal_zl L k e oe x p s : heap s !! lo = Some (zl L) -> heap s !! e = Some oe -> o_encoding oe = ENC_RAW -> o_ptr oe = PSds x ->
  listTypeEqual (mkLi lo ENC_ZIPLIST REDIS_TAIL p) k e s = Done (bool_decide (L !! k = Some x), s).
Proof.
  intros Hl Hoe Hen Hp. unfold listTypeEqual. rewrite (bind_deref _ _ _ _ Hoe). cbn [li_subject li_encoding].
  rewrite (bind_deref _ _ _ _ Hl), Hen, bool_decide_true by done. cbn [require_b]. rewrite bind_lift.
  unfold sds_of. by rewrite Hp, bind_lift.
Qed.

(** The loops stop at the first entry that is [x]. *)
Lemma insert_search_zl L1 L2 e oe x v ov y w s : heap s !! lo = Some (zl (L1 ++ x :: L2)) -> x ∉ L1 ->
  heap s !! e = Some oe -> o_encoding oe = ENC_RAW -> o_ptr oe = PSds x ->
  heap s !! v = Some ov -> o_encoding ov = ENC_RAW -> o_ptr ov = PSds y -> 0 < o_refcount ov ->
  forall m k, (k + m = length L1)%nat -> forall fuel, (m < fuel)%nat ->
  insert_search fuel (mkLi lo ENC_ZIPLIST REDIS_TAIL (Some k)) e v w s =
  Done (true, set_heap (<[lo := zl (insert_at (match w with REDIS_HEAD => length L1 | REDIS_TAIL => S (length L1) end) y (L1 ++ x :: L2))]> (heap s)) s).
Proof using He.
  intros Hl Hx Hoe He1 Hp1 Hov He2 Hp2 Hr. set (L := L1 ++ x :: L2).
  induction m as [|m IH]; intros k Hk [|fuel] Hf; try lia; cbn [insert_search].
  all: rewrite (prog_bind_step _ _ _ _ _ (next_tail L k s Hl)), (prog_bind_step _ _ _ _ _ (equal_zl L k e oe x _ s Hl Hoe He1 Hp1)).
  - rewrite Nat.add_0_r in Hk. subst k. rewrite bool_decide_true by (by apply list_lookup_middle).
    unfold listTypeInsert. cbn [li_encoding li_subject]. rewrite bind_assoc.
    rewrite (prog_bind_step _ _ _ _ _ (decoded_raw v ov y s Hov He2 Hp2 Hr)), bind_assoc, (bind_deref _ _ _ _ Hl).
    unfold zl_of. cbn [zl o_ptr set_o_ptr]. rewrite bind_assoc, bind_lift, (bind_upd_obj _ _ _ _ _ Hl). by destruct w.
  - rewrite bool_decide_false.
    2:{ intros HL. apply Hx. unfold L in HL. rewrite lookup_app_l in HL by lia. by eapply list_elem_of_lookup_2. }
    replace (S k <? length L)%nat with true; [apply IH; lia|]. symmetry. apply Nat.ltb_lt. unfold L. rewrite length_app. cbn [length]. lia.
Qed.

Lemma lrem_one_zl L1 L2 e oe x s : heap s !! lo = Some (zl (L1 ++ x :: L2)) -> x ∉ L1 ->
  heap s !! e = Some oe -> o_encoding oe = ENC_RAW -> o_ptr oe = PSds x ->
  forall m k, (k + m = length L1)%nat -> forall fuel, (m < fuel)%nat ->
  exists s', lrem_loop fuel (mkLi lo ENC_ZIPLIST REDIS_TAIL (Some k)) e 1 0 s = Done (1, s') /\ rewrote lo (zl (L1 ++ L2)) s s'.
Proof using He.
  intros Hl Hx Hoe He1 Hp1. set (L := L1 ++ x :: L2).
  induction m as [|m IH]; intros k Hk [|fuel] Hf; try lia; cbn [lrem_loop].
  all: rewrite (prog_bind_step _ _ _ _ _ (next_tail L k s Hl)), (prog_bind_step _ _ _ _ _ (equal_zl L k e oe x _ s Hl Hoe He1 Hp1)).
  - rewrite Nat.add_0_r in Hk. subst k. rewrite bool_decide_true by (by apply list_lookup_middle).
    unfold listTypeDelete. cbn [li_encoding li_subject li_direction]. rewrite bind_assoc, (bind_deref _ _ _ _ Hl).
    unfold zl_of. cbn [zl o_ptr set_o_ptr]. rewrite bind_assoc, bind_lift, bind_assoc, (bind_upd_obj _ _ _ _ _ Hl), bind_mret.
    unfold incr_dirty. rewrite bind_modify. eexists. split; [reflexivity|]. unfold L. rewrite delete_middle. by split.
  - rewrite bool_decide_false.
    2:{ intros HL. apply Hx. unfold L in HL. rewrite lookup_app_l in HL by lia. by eapply list_elem_of_lookup_2. }
    replace (S k <? length L)%nat with true; [apply IH; lia|]. symmetry. apply Nat.ltb_lt. unfold L. rewrite length_app. cbn [length]. lia.
Qed.

End Ziplists.

Lemma typed_read c key r t a o s : live s (cl_db c) key -> lookupKey s (cl_db c) key = Some a ->
  heap s !! a = Some o -> o_type o = t ->
  exists s', typed_or_reply lookupKeyReadOrReply c key r t s = Done ((c, Some a), s') /\ same_store s s'.
Proof.
  intros HL Hl Ha Ht. unfold typed_or_reply, lookupKeyReadOrReply. rewrite !bind_assoc.
  destruct (lookupKeyRead_live _ _ _ HL) as (s1 & E1 & A1 & A2 & A3 & A4 & A5). rewrite (prog_bind_step _ _ _ _ _ E1), Hl.
  rewrite bind_mret, (bind_deref a o) by (by rewrite A1). unfold checkType. rewrite bool_decide_true by done.
  exists s1. split; [done|]. by split.
Qed.

Lemma typed_write c key r t a o s : live s (cl_db c) key -> lookupKey s (cl_db c) key = Some a ->
  heap s !! a = Some o -> o_type o = t -> typed_or_reply lookupKeyWriteOrReply c key r t s = Done ((c, Some a), s).
Proof.
  intros HL Hl Ha Ht. unfold typed_or_reply, lookupKeyWriteOrReply. rewrite !bind_assoc.
  rewrite (prog_bind_step _ _ _ _ _ (lookupKeyWrite_live _ _ _ HL)), Hl.
  rewrite bind_mret, (bind_deref _ _ _ _ Ha). unfold checkType. by rewrite bool_decide_true.
Qed.

Lemma insert_before (L1 L2 : list sds) x y : insert_at (length L1) y (L1 ++ x :: L2) = L1 ++ y :: x :: L2.
Proof. unfold insert_at. by rewrite take_app_length, drop_app_length. Qed.

Section ListCommands.
#[local] Set Default Proof Using "Type*".
Context (lo : addr) (ol : robj).
Context (Ht : o_type ol = REDIS_LIST) (He : o_encoding ol = ENC_ZIPLIST).
Local Abbreviation zl := (zl ol).

Lemma list_length_zl L s : heap s !! lo = Some (zl L) -> list_length lo s = Done (Z.of_nat (length L), s).
Proof. intros Hl. unfold list_length. by rewrite (bind_deref _ _ _ _ Hl), zl_length. Qed.

(** No conversion: the value is short. *)
Lemma tryConversion_short L v ov y s : heap s !! lo = Some (zl L) -> heap s !! v = Some ov -> o_encoding ov = ENC_RAW ->
  o_ptr ov = PSds y -> sdslen y <= list_max_ziplist_value (conf s) -> listTypeTryConversion lo v s = Done (tt, s).
Proof.
  intros Hl Hv Hen Hp Hy. unfold listTypeTryConversion. rewrite (bind_deref _ _ _ _ Hl). cbn [zl o_encoding set_o_ptr].
  rewrite He, bool_decide_true by done. cbn [negb]. rewrite (bind_deref _ _ _ _ Hv), bind_gets, Hen, Hp.
  rewrite Z.gtb_ltb, (proj2 (Z.ltb_ge _ _)) by lia. done.
Qed.

Lemma linsert_zl c key w wtext L1 L2 e oe x v ov y s :
  str_arg s c 1 key -> str_arg s c 2 wtext -> strcasecmp_eq wtext (str "after") = false ->
  strcasecmp_eq wtext (str "before") = true -> w = REDIS_HEAD ->
  cl_argv c !! 3%nat = Some (Some e) -> heap s !! e = Some oe -> o_encoding oe = ENC_RAW -> o_ptr oe = PSds x ->
  text_arg s c 4 v ov y -> live s (cl_db c) key -> lookupKey s (cl_db c) key = Some lo ->
  heap s !! lo = Some (zl (L1 ++ x :: L2)) -> x ∉ L1 ->
  sdslen y <= list_max_ziplist_value (conf s) ->
  Z.of_nat (length (L1 ++ x :: L2)) < list_max_ziplist_entries (conf s) ->
  exists s' r, linsertCommand c s = Done (add_reply r c, s') /\ rewrote lo (zl (L1 ++ y :: x :: L2)) s s'.
Proof.
  intros Hk Hw Hna Hb -> He3 Hoe Hen Hp Hv HL Hlk Hlo Hx Hy Hlen. unfold linsertCommand.
  rewrite (prog_bind_step _ _ _ _ _ (encode_text_arg _ _ _ _ _ _ Hv)). cbn [fst snd].
  rewrite (bind_arg_str _ _ _ _ _ Hw), (argv_Done _ _ _ He3), bind_lift, Hna, Hb.
  unfold pushxGenericCommand. rewrite (bind_arg_str _ _ _ _ _ Hk).
  destruct (typed_read c key (RInt 0) REDIS_LIST lo _ s HL Hlk Hlo Ht) as (s1 & E1 & S1). rewrite (prog_bind_step _ _ _ _ _ E1).
  destruct Hv as [Hv1 Hv2 Hv3 Hv4 Hv5 Hv6 Hv7]. pose proof S1 as [A1 A2 A3 A4 A5]. rewrite <- A1 in Hlo, Hoe, Hv2.
  rewrite bind_assoc, (prog_bind_step _ _ _ _ _ (tryConversion_short _ v ov y s1 Hlo Hv2 Hv4 Hv6 ltac:(by rewrite A4))).
  rewrite bind_assoc, (prog_bind_step _ _ _ _ _ (list_length_zl _ _ Hlo)), bind_assoc.
  rewrite (prog_bind_step _ _ _ _ _ (init_head lo ol He _ s1 Hlo ltac:(by destruct L1))), bind_assoc.
  erewrite prog_bind_step by (eapply (insert_search_zl lo ol He L1 L2 e oe x v ov y REDIS_HEAD s1); try done; [lia|];
    rewrite Nat2Z.id, length_app; lia).
  rewrite insert_before. set (s2 := set_heap _ s1). assert (Hlo2 : heap s2 !! lo = Some (zl (L1 ++ y :: x :: L2)))
    by (cbn; apply lookup_insert_eq).
  rewrite bind_assoc, (bind_deref _ _ _ _ Hlo2), bind_assoc, bind_gets, bind_assoc, (prog_bind_step _ _ _ _ _ (list_length_zl _ _ Hlo2)).
  cbn [zl o_encoding set_o_ptr]. rewrite He, bool_decide_true by done. cbn [andb].
  rewrite Z.gtb_ltb, (proj2 (Z.ltb_ge _ _)) by (change (conf s2) with (conf s1); rewrite A4; rewrite length_app in *; cbn [length] in *; lia).
  cbn [when]. rewrite bind_assoc, bind_mret, bind_assoc. destruct (signal_same (cl_db c) key s2) as (s3 & E3 & S3).
  rewrite (prog_bind_step _ _ _ _ _ E3). unfold log_event, incr_dirty. run.
  set (s4 := set_dirty _ _). assert (Hlo4 : heap s4 !! lo = Some (zl (L1 ++ y :: x :: L2))) by (cbn; by rewrite (sm_heap _ _ S3)).
  rewrite (prog_bind_step _ _ _ _ _ (list_length_zl _ _ Hlo4)). eexists _, _. split; [reflexivity|].
  eapply rewrote_before; [exact S1|]. eapply rewrote_after; [|eapply same_store_trans; [exact S3|]]; by split.
Qed.

Lemma lrem_zl c key L1 L2 n rc vr e oe x s :
  str_arg s c 1 key -> cl_argv c !! 2%nat = Some (Some n) -> heap s !! n = Some (mkObj REDIS_STRING ENC_INT rc vr (PLong 1)) ->
  text_arg s c 3 e oe x -> live s (cl_db c) key -> lookupKey s (cl_db c) key = Some lo ->
  heap s !! lo = Some (zl (L1 ++ x :: L2)) -> x ∉ L1 -> L1 ++ L2 <> [] ->
  exists s' r, lremCommand c s = Done (add_reply r c, s') /\ rewrote lo (zl (L1 ++ L2)) s s'.
Proof.
  intros Hk Hn Hon Hv HL Hlk Hlo Hx Hne. unfold lremCommand.
  rewrite (prog_bind_step _ _ _ _ _ (encode_text_arg _ _ _ _ _ _ Hv)). cbn [fst snd].
  unfold get_long. rewrite bind_assoc, (argv_Done _ _ _ Hn), bind_lift, bind_assoc, (bind_deref _ _ _ _ Hon).
  change (getLongFromObjectOrReply c (Some (mkObj REDIS_STRING ENC_INT rc vr (PLong 1)))) with (Done (A := client * option Z) (c, Some 1)).
  rewrite bind_lift, (bind_arg_str _ _ _ _ _ Hk), (prog_bind_step _ _ _ _ _ (typed_write c key (RInt 0) REDIS_LIST lo _ s HL Hlk Hlo Ht)).
  rewrite (bind_deref _ _ _ _ Hlo). cbn [zl o_encoding set_o_ptr]. rewrite He, bool_decide_true by done.
  destruct Hv as [Hv1 Hv2 Hv3 Hv4 Hv5 Hv6 Hv7]. unfold getDecodedObject. rewrite bind_assoc, (bind_deref _ _ _ _ Hv2), Hv4, bool_decide_true by done.
  unfold incrRefCount. rewrite bind_assoc, (bind_upd_obj _ _ _ _ _ Hv2), bind_mret. set (s1 := set_heap _ s).
  assert (Hel : e <> lo) by (intros ->; rewrite Hlo in Hv2; injection Hv2 as <-; cbn in Hv3; congruence).
  assert (Hlo1 : heap s1 !! lo = Some (zl (L1 ++ x :: L2))) by (cbn; by rewrite lookup_insert_ne).
  rewrite (prog_bind_step _ _ _ _ _ (list_length_zl _ _ Hlo1)). cbn [Z.ltb Z.compare].
  rewrite (prog_bind_step _ _ _ _ _ (init_head lo ol He _ s1 Hlo1 ltac:(by destruct L1))).
  destruct (lrem_one_zl lo ol He L1 L2 e (set_o_refcount (o_refcount oe + 1) oe) x s1 Hlo1 Hx) with (m := length L1) (k := 0%nat)
    (fuel := S (S (Z.to_nat (Z.of_nat (length (L1 ++ x :: L2)))))) as (s2 & E2 & [B1 B2 B3 B4 B5]); try done;
    [cbn; apply lookup_insert_eq|rewrite length_app; lia|].
  change (to_s 64 (Z.abs 1)) with 1. rewrite (prog_bind_step _ _ _ _ _ E2). cbn [when].
  erewrite prog_bind_step by (apply (decr_after_incr e oe); [rewrite B1, lookup_insert_ne by done; apply lookup_insert_eq|lia]).
  set (s3 := set_heap _ s2). assert (Hlo3 : heap s3 !! lo = Some (zl (L1 ++ L2))) by (cbn; by rewrite lookup_insert_ne, B1, lookup_insert_eq).
  rewrite (prog_bind_step _ _ _ _ _ (list_length_zl _ _ Hlo3)). rewrite (proj2 (Z.eqb_neq (Z.of_nat (length (L1 ++ L2))) 0)) by (destruct (L1 ++ L2); [done|cbn; lia]).
  cbn [when]. rewrite bind_mret. cbn [Z.eqb negb when]. destruct (signal_same (cl_db c) key s3) as (s4 & E4 & S4).
  rewrite (prog_bind_step _ _ _ _ _ E4). eexists _, _. split; [reflexivity|]. eapply rewrote_after; [|exact S4].
  split; cbn; try done. rewrite B1. cbn. rewrite (insert_insert_ne _ e lo), insert_insert_eq by done.
  by rewrite (insert_id _ e).
Qed.
End ListCommands.

End TList.
