(* ===== verification/THash.v ===== *)
(** * t_hash.c: the hash type in its two encodings, and the hash commands

    A ziplist encoded hash is the list of its entries, field and value in
    turn; the dict of a hash is the list of its (field, value) objects in
    iteration order, a new field last.  A pointer into a ziplist is the index
    of the entry. *)
From S2P Require Import Prelude CStr Intset Util Server Object Db TString Heap TList.
Import Object Db TString Heap TList.

Module THash.

Definition REDIS_HASH_KEY : Z := 1.
Definition REDIS_HASH_VALUE : Z := 2.

Definition dict_of (o : robj) : outcome (list (addr * addr)) :=
  match o_ptr o with PHashDict l => Done l | _ => Fault Panic end.

(** ziplistFind with skip = 1: the index of the first entry [x] among the
    entries at even positions; [i] is that of the head of [l]. *)
Fixpoint find_field (l : list sds) (x : sds) (i : nat) : option nat :=
  match l with
  | [] => None
  | y :: r =>
    if bool_decide (y = x) then Some i
    else match r with [] => None | _ :: r' => find_field r' x (S (S i)) end
  end.

(** The entry of a dict for the field [b], with the entries around it. *)
Fixpoint dict_field (l : list (addr * addr)) (b : sds) :
    M (option (list (addr * addr) * (addr * addr) * list (addr * addr))) :=
  match l with
  | [] => mret None
  | p :: r =>
    o ← deref p.1;
    k ← lift (string_bytes o);
    if bool_decide (k = b) then mret (Some ([], p, r))
    else
      f ← dict_field r b;
      mret (match f with
            | Some (l1, x, l2) => Some (p :: l1, x, l2)
            | None => None
            end)
  end.

Definition field_bytes (a : addr) : M sds := o ← deref a; lift (string_bytes o).

(** ** The hash type *)
Definition hashTypeLength (o : robj) : outcome Z :=
  match o_encoding o with
  | ENC_ZIPLIST => l ← zl_of o; mret (Z.of_nat (length l) / 2)
  | ENC_HT => d ← dict_of o; mret (Z.of_nat (length d))
  | _ => Fault Panic
  end.

(** [hi_fptr]: the index of the current field of a ziplist (its value is the
    next entry); [hi_di]: what the dict iterator has still to visit. *)
Record hashTypeIterator := mkHi {
  hi_subject : addr;
  hi_encoding : oenc;
  hi_fptr : option nat;
  hi_di : list (addr * addr);
  hi_de : option (addr * addr)
}.

Definition hashTypeInitIterator (subject : addr) : M hashTypeIterator :=
  o ← deref subject;
  match o_encoding o with
  | ENC_ZIPLIST => mret (mkHi subject ENC_ZIPLIST None [] None)
  | ENC_HT => d ← lift (dict_of o); mret (mkHi subject ENC_HT None d None)
  | _ => throw Panic
  end.

(** [None] is REDIS_ERR. *)
Definition hashTypeNext (hi : hashTypeIterator) : M (option hashTypeIterator) :=
  match hi_encoding hi with
  | ENC_ZIPLIST =>
    o ← deref (hi_subject hi);
    l ← lift (zl_of o);
    let fptr := match hi_fptr hi with None => 0%nat | Some i => S (S i) end in
    if (fptr <? length l)%nat then
      _ ← lift (require_b AssertFail (S fptr <? length l)%nat);
      mret (Some (mkHi (hi_subject hi) ENC_ZIPLIST (Some fptr) [] None))
    else mret None
  | ENC_HT =>
    match hi_di hi with
    | [] => mret None
    | de :: r => mret (Some (mkHi (hi_subject hi) ENC_HT None r (Some de)))
    end
  | _ => throw Panic
  end.

Definition hashTypeCurrentFromZiplist (hi : hashTypeIterator) (what : Z) : M sds :=
  _ ← lift (require_b AssertFail (bool_decide (hi_encoding hi = ENC_ZIPLIST)));
  o ← deref (hi_subject hi);
  l ← lift (zl_of o);
  i ← lift (expect NullDeref (hi_fptr hi));
  lift (expect AssertFail (l !! (if Z.testbit what 0 then i else S i))).

Definition hashTypeCurrentFromHashTable (hi : hashTypeIterator) (what : Z) : M addr :=
  _ ← lift (require_b AssertFail (bool_decide (hi_encoding hi = ENC_HT)));
  de ← lift (expect NullDeref (hi_de hi));
  mret (if Z.testbit what 0 then de.1 else de.2).

Definition hashTypeCurrentObject (hi : hashTypeIterator) (what : Z) : M addr :=
  match hi_encoding hi with
  | ENC_ZIPLIST => x ← hashTypeCurrentFromZiplist hi what; zl_object x
  | ENC_HT => dst ← hashTypeCurrentFromHashTable hi what; _ ← incrRefCount dst; mret dst
  | _ => throw Panic
  end.

(** The loop of hashTypeConvertZiplist; [fuel] bounds the entries. *)
Fixpoint convert_entries (fuel : nat) (hi : hashTypeIterator) (d : list (addr * addr))
    : M (list (addr * addr)) :=
  match fuel with
  | O => throw OutOfFuel
  | S fuel' =>
    r ← hashTypeNext hi;
    match r with
    | None => mret d
    | Some hi =>
      field ← hashTypeCurrentObject hi REDIS_HASH_KEY;
      field ← tryObjectEncoding field;
      value ← hashTypeCurrentObject hi REDIS_HASH_VALUE;
      value ← tryObjectEncoding value;
      b ← field_bytes field;
      f ← dict_field d b;
      _ ← lift (require_b AssertFail (bool_decide (f = None)));
      convert_entries fuel' hi (d ++ [(field, value)])
    end
  end.

(** To REDIS_ENCODING_HT. *)
Definition hashTypeConvertZiplist (a : addr) : M unit :=
  o ← deref a;
  _ ← lift (require_b AssertFail (bool_decide (o_encoding o = ENC_ZIPLIST)));
  l ← lift (zl_of o);
  hi ← hashTypeInitIterator a;
  d ← convert_entries (S (length l)) hi [];
  upd_obj a (fun o => set_o_ptr (PHashDict d) (set_o_encoding ENC_HT o)).

Definition hashTypeConvert (a : addr) : M unit :=
  o ← deref a;
  match o_encoding o with
  | ENC_ZIPLIST => hashTypeConvertZiplist a
  | _ => throw Panic
  end.

(** The loop of hashTypeTryConversion over the arguments [args]. *)
Fixpoint try_conversion (a : addr) (args : list addr) : M unit :=
  match args with
  | [] => mret tt
  | x :: r =>
    o ← deref x;
    cf ← gets conf;
    match o_encoding o, o_ptr o with
    | ENC_RAW, PSds v =>
      if sdslen v >? hash_max_ziplist_value cf then hashTypeConvert a else try_conversion a r
    | _, _ => try_conversion a r
    end
  end.

Fixpoint args_of (c : client) (js : list nat) : outcome (list addr) :=
  match js with
  | [] => mret []
  | j :: r => a ← argv c j; l ← args_of c r; mret (a :: l)
  end.

(** The arguments from [start] to [end_], both included. *)
Definition hashTypeTryConversion (a : addr) (c : client) (start end_ : nat) : M unit :=
  o ← deref a;
  match o_encoding o with
  | ENC_ZIPLIST => args ← lift (args_of c (seq start (S end_ - start))); try_conversion a args
  | _ => mret tt
  end.

(** The arguments [js] are encoded in place when the hash is a dict. *)
Fixpoint encode_args (c : client) (js : list nat) : M client :=
  match js with
  | [] => mret c
  | j :: r => p ← encode_arg c j; encode_args (fst p) r
  end.

Definition hashTypeTryObjectEncoding (subject : addr) (c : client) (js : list nat) : M client :=
  o ← deref subject;
  match o_encoding o with
  | ENC_HT => encode_args c js
  | _ => mret c
  end.

(** [None] is the -1 for a field that is not found. *)
Definition hashTypeGetFromZiplist (o : robj) (field : addr) : M (option sds) :=
  _ ← lift (require_b AssertFail (bool_decide (o_encoding o = ENC_ZIPLIST)));
  l ← lift (zl_of o);
  x ← decoded_bytes field;
  match find_field l x 0 with
  | None => mret None
  | Some i => v ← lift (expect AssertFail (l !! S i)); mret (Some v)
  end.

Definition hashTypeGetFromHashTable (o : robj) (field : addr) : M (option addr) :=
  _ ← lift (require_b AssertFail (bool_decide (o_encoding o = ENC_HT)));
  d ← lift (dict_of o);
  b ← field_bytes field;
  f ← dict_field d b;
  mret (match f with Some (_, p, _) => Some p.2 | None => None end).

Definition hashTypeGetObject (a field : addr) : M (option addr) :=
  o ← deref a;
  match o_encoding o with
  | ENC_ZIPLIST =>
    r ← hashTypeGetFromZiplist o field;
    match r with Some x => v ← zl_object x; mret (Some v) | None => mret None end
  | ENC_HT =>
    r ← hashTypeGetFromHashTable o field;
    match r with Some v => _ ← incrRefCount v; mret (Some v) | None => mret None end
  | _ => throw Panic
  end.

Definition hashTypeExists (a field : addr) : M bool :=
  o ← deref a;
  match o_encoding o with
  | ENC_ZIPLIST => r ← hashTypeGetFromZiplist o field; mret (bool_decide (is_Some r))
  | ENC_HT => r ← hashTypeGetFromHashTable o field; mret (bool_decide (is_Some r))
  | _ => throw Panic
  end.

(** dictReplace on the dict of [a]: [true] when the field is new.  The old
    value is released after the new one is in place. *)
Definition dictReplace (a field value : addr) : M bool :=
  o ← deref a;
  d ← lift (dict_of o);
  b ← field_bytes field;
  f ← dict_field d b;
  match f with
  | None => _ ← upd_obj a (set_o_ptr (PHashDict (d ++ [(field, value)]))); mret true
  | Some (d1, p, d2) =>
    _ ← upd_obj a (set_o_ptr (PHashDict (d1 ++ (p.1, value) :: d2)));
    _ ← decrRefCount p.2;
    mret false
  end.

(** The new entries of a ziplist, and whether the field was there. *)
Definition zl_set (l : list sds) (f v : sds) : list sds * bool :=
  match find_field l f 0 with
  | Some i => (insert_at (S i) v (delete (S i) l), true)
  | None => ((l ++ [f]) ++ [v], false)
  end.

(** 0 (false) on insert and 1 (true) on update. *)
Definition hashTypeSet (a field value : addr) : M bool :=
  o ← deref a;
  match o_encoding o with
  | ENC_ZIPLIST =>
    f ← getDecodedObject field;
    v ← getDecodedObject value;
    fo ← deref f;
    vo ← deref v;
    fs ← lift (sds_of fo);
    vs ← lift (sds_of vo);
    l ← lift (zl_of o);
    _ ← lift (require_b AssertFail (match find_field l fs 0 with
                                    | Some i => (S i <? length l)%nat
                                    | None => true
                                    end));
    _ ← upd_obj a (set_o_ptr (PZiplist (fst (zl_set l fs vs))));
    _ ← decrRefCount f;
    _ ← decrRefCount v;
    o ← deref a;
    n ← lift (hashTypeLength o);
    cf ← gets conf;
    _ ← when (n >? hash_max_ziplist_entries cf) (hashTypeConvert a);
    mret (snd (zl_set l fs vs))
  | ENC_HT =>
    ins ← dictReplace a field value;
    _ ← when ins (incrRefCount field);
    _ ← incrRefCount value;
    mret (negb ins)
  | _ => throw Panic
  end.

(** dictDelete releases the field and the value. *)
Definition hashTypeDelete (a field : addr) : M bool :=
  o ← deref a;
  match o_encoding o with
  | ENC_ZIPLIST =>
    x ← decoded_bytes field;
    l ← lift (zl_of o);
    match find_field l x 0 with
    | Some i => _ ← upd_obj a (set_o_ptr (PZiplist (delete i (delete i l)))); mret true
    | None => mret false
    end
  | ENC_HT =>
    d ← lift (dict_of o);
    b ← field_bytes field;
    f ← dict_field d b;
    match f with
    | Some (d1, p, d2) =>
      _ ← upd_obj a (set_o_ptr (PHashDict (d1 ++ d2)));
      _ ← decrRefCount p.1;
      _ ← decrRefCount p.2;
      mret true
    | None => mret false
    end
  | _ => throw Panic
  end.

Definition hash_length (a : addr) : M Z := o ← deref a; lift (hashTypeLength o).

Definition hashTypeLookupWriteOrCreate (c : client) (key : sds) : M (client * option addr) :=
  r ← lookupKeyWrite (cl_db c) key;
  match r with
  | None => a ← createHashObject; _ ← dbAdd (cl_db c) key a; mret (c, Some a)
  | Some a =>
    o ← deref a;
    mret (if bool_decide (o_type o = REDIS_HASH) then (c, Some a) else (add_reply wrongtypeerr c, None))
  end.

(** ** Commands *)
Definition hset_done (c : client) (key : sds) (what : string) : M unit :=
  let i := cl_db c in
  _ ← signalModifiedKey i key;
  _ ← log_event (Notify what key i);
  incr_dirty 1.

Definition hsetCommand (c : client) : M client :=
  key ← arg_str c 1;
  p ← hashTypeLookupWriteOrCreate c key;
  match p with
  | (c, None) => mret c
  | (c, Some o) =>
    _ ← hashTypeTryConversion o c 2 3;
    c ← hashTypeTryObjectEncoding o c [2; 3]%nat;
    f ← lift (argv c 2);
    v ← lift (argv c 3);
    update ← hashTypeSet o f v;
    _ ← hset_done c key "hset";
    mret (add_reply (RInt (if (update : bool) then 0 else 1)) c)
  end.

Definition hsetnxCommand (c : client) : M client :=
  key ← arg_str c 1;
  p ← hashTypeLookupWriteOrCreate c key;
  match p with
  | (c, None) => mret c
  | (c, Some o) =>
    _ ← hashTypeTryConversion o c 2 3;
    f ← lift (argv c 2);
    ex ← hashTypeExists o f;
    if (ex : bool) then mret (add_reply (RInt 0) c)
    else
      c ← hashTypeTryObjectEncoding o c [2; 3]%nat;
      f ← lift (argv c 2);
      v ← lift (argv c 3);
      _ ← hashTypeSet o f v;
      _ ← hset_done c key "hset";
      mret (add_reply (RInt 1) c)
  end.

(** The pairs at [i], [i+1], ...: [n] of them. *)
Fixpoint hmset_loop (c : client) (o : addr) (i n : nat) : M client :=
  match n with
  | O => mret c
  | S n' =>
    c ← hashTypeTryObjectEncoding o c [i; S i];
    f ← lift (argv c i);
    v ← lift (argv c (S i));
    _ ← hashTypeSet o f v;
    hmset_loop c o (S (S i)) n'
  end.

Definition hmsetCommand (c : client) : M client :=
  if Z.rem (cl_argc c) 2 =? 1 then mret (add_reply (RErr "wrong number of arguments for HMSET") c)
  else
    key ← arg_str c 1;
    p ← hashTypeLookupWriteOrCreate c key;
    match p with
    | (c, None) => mret c
    | (c, Some o) =>
      _ ← hashTypeTryConversion o c 2 (Z.to_nat (cl_argc c - 1));
      c ← hmset_loop c o 2 (Z.to_nat ((cl_argc c - 2) / 2));
      _ ← hset_done c key "hset";
      mret (add_reply ROk c)
    end.

(** The value that HINCRBY starts from; [None]: the reply is an error. *)
Definition hincrby_current (c : client) (o f : addr) : M (client * option Z) :=
  cur ← hashTypeGetObject o f;
  match cur with
  | None => mret (c, Some 0)
  | Some current =>
    oc ← deref current;
    r ← lift (getLongLongFromObject (Some oc));
    _ ← decrRefCount current;
    mret (match r with
          | None => (add_reply (RErr "hash value is not an integer") c, None)
          | Some value => (c, Some value)
          end)
  end.

Definition hincrbyCommand (c : client) : M client :=
  a3 ← lift (argv c 3);
  o3 ← deref a3;
  r ← lift (getLongLongFromObjectOrReply c (Some o3));
  match r with
  | (c, None) => mret c
  | (c, Some incr) =>
    key ← arg_str c 1;
    p ← hashTypeLookupWriteOrCreate c key;
    match p with
    | (c, None) => mret c
    | (c, Some o) =>
      f ← lift (argv c 2);
      q ← hincrby_current c o f;
      match q with
      | (c, None) => mret c
      | (c, Some oldvalue) =>
        if incr_overflows incr oldvalue
        then mret (add_reply (RErr "increment or decrement would overflow") c)
        else
          new ← createStringObjectFromLongLong (oldvalue + incr);
          c ← hashTypeTryObjectEncoding o c [2%nat];
          f ← lift (argv c 2);
          _ ← hashTypeSet o f new;
          _ ← decrRefCount new;
          _ ← hset_done c key "hincrby";
          mret (add_reply (RInt (oldvalue + incr)) c)
      end
    end
  end.

Definition addHashFieldToReply (c : client) (o : option addr) (field : addr) : M client :=
  match o with
  | None => mret (add_reply RNull c)
  | Some a =>
    o ← deref a;
    match o_encoding o with
    | ENC_ZIPLIST =>
      r ← hashTypeGetFromZiplist o field;
      mret (add_reply (match r with None => RNull | Some x => RBulk x end) c)
    | ENC_HT =>
      r ← hashTypeGetFromHashTable o field;
      match r with
      | None => mret (add_reply RNull c)
      | Some value => ov ← deref value; lift (addReplyBulk c ov)
      end
    | _ => throw Panic
    end
  end.

Definition hgetCommand (c : client) : M client :=
  key ← arg_str c 1;
  p ← typed_or_reply lookupKeyReadOrReply c key RNull REDIS_HASH;
  match p with
  | (c, None) => mret c
  | (c, Some o) => f ← lift (argv c 2); addHashFieldToReply c (Some o) f
  end.

Fixpoint hmget_loop (c : client) (o : option addr) (js : list nat) : M client :=
  match js with
  | [] => mret c
  | j :: r => f ← lift (argv c j); c ← addHashFieldToReply c o f; hmget_loop c o r
  end.

Definition hmgetCommand (c : client) : M client :=
  key ← arg_str c 1;
  r ← lookupKeyRead (cl_db c) key;
  bad ← (match r with
         | Some a => o ← deref a; mret (negb (bool_decide (o_type o = REDIS_HASH)))
         | None => mret false
         end);
  if (bad : bool) then mret (add_reply wrongtypeerr c)
  else hmget_loop (add_reply (RMultiLen (cl_argc c - 2)) c) r (seq 2 (Z.to_nat (cl_argc c - 2))).

(** Returns the number of deleted fields and whether the key went too. *)
Fixpoint hdel_loop (c : client) (key : sds) (o : addr) (js : list nat) (deleted : Z) : M (Z * bool) :=
  match js with
  | [] => mret (deleted, false)
  | j :: r =>
    f ← lift (argv c j);
    ok ← hashTypeDelete o f;
    if (ok : bool) then
      n ← hash_length o;
      if n =? 0 then _ ← dbDelete (cl_db c) key; mret (deleted + 1, true)
      else hdel_loop c key o r (deleted + 1)
    else hdel_loop c key o r deleted
  end.

Definition hdelCommand (c : client) : M client :=
  let i := cl_db c in
  key ← arg_str c 1;
  p ← typed_or_reply lookupKeyWriteOrReply c key (RInt 0) REDIS_HASH;
  match p with
  | (c, None) => mret c
  | (c, Some o) =>
    q ← hdel_loop c key o (seq 2 (Z.to_nat (cl_argc c - 2))) 0;
    let '(deleted, keyremoved) := q in
    _ ← when (negb (deleted =? 0))
          (_ ← signalModifiedKey i key;
           _ ← log_event (Notify "hdel" key i);
           _ ← when keyremoved (log_event (Notify "del" key i));
           incr_dirty deleted);
    mret (add_reply (RInt deleted) c)
  end.

Definition hlenCommand (c : client) : M client :=
  key ← arg_str c 1;
  p ← typed_or_reply lookupKeyReadOrReply c key (RInt 0) REDIS_HASH;
  match p with
  | (c, None) => mret c
  | (c, Some o) => n ← hash_length o; mret (add_reply (RInt n) c)
  end.

Definition addHashIteratorCursorToReply (c : client) (hi : hashTypeIterator) (what : Z) : M client :=
  match hi_encoding hi with
  | ENC_ZIPLIST => x ← hashTypeCurrentFromZiplist hi what; mret (add_reply (RBulk x) c)
  | ENC_HT => v ← hashTypeCurrentFromHashTable hi what; o ← deref v; lift (addReplyBulk c o)
  | _ => throw Panic
  end.

(** The loop of genericHgetallCommand; returns the number of replies. *)
Fixpoint hgetall_loop (fuel : nat) (c : client) (hi : hashTypeIterator) (flags : Z) (count : Z)
    : M (client * Z) :=
  match fuel with
  | O => throw OutOfFuel
  | S fuel' =>
    r ← hashTypeNext hi;
    match r with
    | None => mret (c, count)
    | Some hi =>
      p ← (if Z.testbit flags 0
           then c ← addHashIteratorCursorToReply c hi REDIS_HASH_KEY; mret (c, count + 1)
           else mret (c, count));
      q ← (if Z.testbit flags 1
           then c ← addHashIteratorCursorToReply (fst p) hi REDIS_HASH_VALUE; mret (c, snd p + 1)
           else mret p);
      hgetall_loop fuel' (fst q) hi flags (snd q)
    end
  end.

Definition genericHgetallCommand (c : client) (flags : Z) : M client :=
  key ← arg_str c 1;
  p ← typed_or_reply lookupKeyReadOrReply c key (RMultiLen 0) REDIS_HASH;
  match p with
  | (c, None) => mret c
  | (c, Some o) =>
    n ← hash_length o;
    let length := n * (Z.b2z (Z.testbit flags 0) + Z.b2z (Z.testbit flags 1)) in
    hi ← hashTypeInitIterator o;
    q ← hgetall_loop (S (Z.to_nat n)) (add_reply (RMultiLen length) c) hi flags 0;
    _ ← lift (require_b AssertFail (snd q =? length));
    mret (fst q)
  end.

Definition hkeysCommand (c : client) : M client := genericHgetallCommand c REDIS_HASH_KEY.
Definition hvalsCommand (c : client) : M client := genericHgetallCommand c REDIS_HASH_VALUE.
Definition hgetallCommand (c : client) : M client :=
  genericHgetallCommand c (Z.lor REDIS_HASH_KEY REDIS_HASH_VALUE).

Definition hexistsCommand (c : client) : M client :=
  key ← arg_str c 1;
  p ← typed_or_reply lookupKeyReadOrReply c key (RInt 0) REDIS_HASH;
  match p with
  | (c, None) => mret c
  | (c, Some o) =>
    f ← lift (argv c 2);
    ex ← hashTypeExists o f;
    mret (add_reply (RInt (if (ex : bool) then 1 else 0)) c)
  end.


(** ** Hashes as finite maps *)
Fixpoint unpair {A} (l : list (A * A)) : list A :=
  match l with [] => [] | (x, y) :: r => x :: y :: unpair r end.

Lemma unpair_app {A} (l1 l2 : list (A * A)) : unpair (l1 ++ l2) = unpair l1 ++ unpair l2.
Proof. induction l1 as [|[x y] l1 IH]; cbn; [done|]. by rewrite IH. Qed.

Lemma unpair_length {A} (l : list (A * A)) : length (unpair l) = (2 * length l)%nat.
Proof. induction l as [|[x y] l IH]; cbn; [done|]. rewrite IH. lia. Qed.

Lemma find_field_absent x : forall ps i, x ∉ map fst ps -> find_field (unpair ps) x i = None.
Proof.
  induction ps as [|[k v] ps IH]; intros i Hx; cbn; [done|]. cbn in Hx. apply not_elem_of_cons in Hx as [Hk Hx].
  rewrite bool_decide_false by congruence. by apply IH.
Qed.

Lemma find_field_present x v p2 : forall p1 i, x ∉ map fst p1 ->
  find_field (unpair (p1 ++ (x, v) :: p2)) x i = Some (i + length (unpair p1))%nat.
Proof.
  induction p1 as [|[k w] p1 IH]; intros i Hx; cbn.
  - rewrite bool_decide_true by done. f_equal. lia.
  - cbn in Hx. apply not_elem_of_cons in Hx as [Hk Hx]. rewrite bool_decide_false by congruence.
    rewrite IH by done. f_equal. cbn. lia.
Qed.

(** A field is absent, or splits the pairs. *)
Lemma field_cases {A} (ps : list (sds * A)) x :
  x ∉ map fst ps \/ exists p1 v p2, ps = p1 ++ (x, v) :: p2 /\ x ∉ map fst p1.
Proof.
  induction ps as [|[k v] ps IH]; [left; apply not_elem_of_nil|]. destruct (decide (k = x)) as [->|Hne].
  - right. exists [], v, ps. split; [done|apply not_elem_of_nil].
  - destruct IH as [Hx|(p1 & w & p2 & -> & Hx)].
    + left. cbn. apply not_elem_of_cons. split; [congruence|done].
    + right. exists ((k, v) :: p1), w, p2. split; [done|]. cbn. apply not_elem_of_cons. split; [congruence|done].
Qed.

Section Dicts.
Context (P : addr -> sds -> Prop).

Lemma unpair_split x v p2 : forall p1 d, Forall2 P (unpair d) (unpair (p1 ++ (x, v) :: p2)) ->
  exists d1 fa va d2, d = d1 ++ (fa, va) :: d2 /\ Forall2 P (unpair d1) (unpair p1) /\ P fa x /\ P va v /\
    Forall2 P (unpair d2) (unpair p2).
Proof.
  induction p1 as [|[k w] p1 IH]; intros [|[fa va] d] H; cbn in H; inversion_clear H as [|? ? ? ? Hf H'];
    inversion_clear H' as [|? ? ? ? Hv H].
  - exists [], fa, va, d. split; [done|]. split; [constructor|done].
  - destruct (IH d H) as (d1 & fb & vb & d2 & -> & H1 & H2). exists ((fa, va) :: d1), fb, vb, d2.
    split; [done|]. split; [cbn; by repeat constructor|done].
Qed.

Lemma unpair_put x v' fa va' (d1 d2 : list (addr * addr)) p1 p2 :
  Forall2 P (unpair d1) (unpair p1) -> P fa x -> P va' v' -> Forall2 P (unpair d2) (unpair p2) ->
  Forall2 P (unpair (d1 ++ (fa, va') :: d2)) (unpair (p1 ++ (x, v') :: p2)).
Proof. intros H1 Hf Hv H2. rewrite !unpair_app. apply Forall2_app; [done|]. cbn. by repeat constructor. Qed.

Lemma unpair_cons_inv k v ps (d : list (addr * addr)) : Forall2 P (unpair d) (unpair ((k, v) :: ps)) ->
  exists fa va d', d = (fa, va) :: d' /\ P fa k /\ P va v /\ Forall2 P (unpair d') (unpair ps).
Proof.
  intros H. destruct d as [|[fa va] d]; cbn in H; inversion_clear H as [|? ? ? ? Hf H'];
    inversion_clear H' as [|? ? ? ? Hv H]. eauto 8.
Qed.
End Dicts.

Lemma bind_bytes {B} a x (f : sds -> M B) s : holds s a x -> (o ← deref a; k ← lift (string_bytes o); f k) s = f x s.
Proof. intros (o & Ho & Hx). by rewrite (bind_deref _ _ _ _ Ho), (string_bytes_ok _ _ Hx), bind_lift. Qed.

Lemma field_bytes_ok a x s : holds s a x -> field_bytes a s = Done (x, s).
Proof. intros (o & Ho & Hx). unfold field_bytes. by rewrite (bind_deref _ _ _ _ Ho), (string_bytes_ok _ _ Hx). Qed.

Lemma dict_field_absent x s : forall ps d, Forall2 (holds s) (unpair d) (unpair ps) -> x ∉ map fst ps ->
  dict_field d x s = Done (None, s).
Proof.
  induction ps as [|[k v] ps IH]; intros d HF Hx.
  - destruct d as [|[fa va] d]; [done|]. inversion HF.
  - apply unpair_cons_inv in HF as (fa & va & d' & -> & Hf & Hv & HF). cbn in Hx. apply not_elem_of_cons in Hx as [Hk Hx].
    cbn [dict_field fst]. rewrite (bind_bytes _ _ _ _ Hf), bool_decide_false by congruence.
    by rewrite (prog_bind_step _ _ _ _ _ (IH d' HF Hx)).
Qed.

Lemma dict_field_present x fa va d2 s : forall p1 d1, Forall2 (holds s) (unpair d1) (unpair p1) -> x ∉ map fst p1 ->
  holds s fa x -> dict_field (d1 ++ (fa, va) :: d2) x s = Done (Some (d1, (fa, va), d2), s).
Proof.
  induction p1 as [|[k v] p1 IH]; intros d1 HF Hx Hfa.
  - destruct d1 as [|[fb vb] d1]; [|inversion HF]. cbn [app dict_field fst].
    rewrite (bind_bytes _ _ _ _ Hfa). by rewrite bool_decide_true.
  - apply unpair_cons_inv in HF as (fb & vb & d' & -> & Hf & Hv & HF). cbn in Hx. apply not_elem_of_cons in Hx as [Hk Hx].
    cbn [app dict_field fst]. rewrite (bind_bytes _ _ _ _ Hf), bool_decide_false by congruence.
    by rewrite (prog_bind_step _ _ _ _ _ (IH d' HF Hx Hfa)).
Qed.


(** The hash [a] has the fields and values [ps]; the references in [ext] are
    held by the caller. *)
Definition hash_state (s : server) (a : addr) (ext : list addr) (ps : list (sds * sds)) : Prop :=
  exists o, heap s !! a = Some o /\ o_type o = REDIS_HASH /\ NoDup (map fst ps) /\
    ((o_encoding o = ENC_ZIPLIST /\ o_ptr o = PZiplist (unpair ps) /\ owns s ext) \/
     (o_encoding o = ENC_HT /\ exists d, o_ptr o = PHashDict d /\ owns s (unpair d ++ ext) /\
        Forall2 (holds s) (unpair d) (unpair ps))).

Lemma own_zl_object s l x : owns s l ->
  exists b s', zl_object x s = Done (b, s') /\ owns s' (b :: l) /\ holds s' b x /\ forall l0, own_step l0 None s s'.
Proof.
  intros HO. unfold zl_object. destruct (Util.string2ll x) as [n|] eqn:E.
  - pose proof (proj1 (Util.string2ll_canonical _ _) E) as [_ Hn].
    destruct (own_createFromLongLong s l n HO Hn) as (b & s1 & E1 & HO1 & Hh & HS1). rewrite (Util.text_string2ll _ _ E) in Hh. by exists b, s1.
  - destruct (own_createString s l x HO) as (b & s1 & E1 & HO1 & Hh & HS1 & _). by exists b, s1.
Qed.

(** Reading an entry of the ziplist as an object in its best encoding. *)
Lemma current_encoded a o hi what i x l s : heap s !! a = Some o -> hi_subject hi = a -> hi_encoding hi = ENC_ZIPLIST ->
  hi_fptr hi = Some i -> (exists zl, o_ptr o = PZiplist zl /\ zl !! (if Z.testbit what 0 then i else S i) = Some x) -> owns s l ->
  exists b s', (v ← hashTypeCurrentObject hi what; tryObjectEncoding v) s = Done (b, s') /\
    owns s' (b :: l) /\ holds s' b x /\ own_step l None s s'.
Proof.
  intros Ha Hs He Hi (zl & Hp & Hx) HO. unfold hashTypeCurrentObject, hashTypeCurrentFromZiplist.
  rewrite He, Hs, bool_decide_true by done. cbn [require_b]. rewrite !bind_assoc, bind_lift, bind_assoc, (bind_deref _ _ _ _ Ha).
  unfold zl_of. rewrite Hp, bind_assoc, bind_lift, Hi. cbn [expect]. rewrite bind_assoc, bind_lift, Hx. cbn [expect]. rewrite bind_lift.
  destruct (own_zl_object s l x HO) as (b & s1 & E1 & HO1 & Hb & HS1). rewrite (prog_bind_step _ _ _ _ _ E1).
  destruct (own_tryEncoding s1 l b x HO1 Hb) as (b' & s2 & E2 & HO2 & Hb' & HS2). exists b', s2.
  split; [done|]. split; [done|]. split; [done|]. by eapply own_step_trans.
Qed.

Lemma os_container l a s s' b o : own_step l a s s' -> heap s !! b = Some o -> o_type o <> REDIS_STRING -> Some b <> a ->
  heap s' !! b = Some o.
Proof. intros H Hb Ht Hn. by apply (os_others _ _ _ _ H). Qed.

Lemma convert_entries_ok a o ext (ps : list (sds * sds)) : o_type o = REDIS_HASH -> o_ptr o = PZiplist (unpair ps) -> NoDup (map fst ps) ->
  forall todo done d fuel hi s, ps = done ++ todo -> (length todo < fuel)%nat ->
  hi_subject hi = a -> hi_encoding hi = ENC_ZIPLIST ->
  match hi_fptr hi with None => 0%nat | Some i => S (S i) end = length (unpair done) ->
  heap s !! a = Some o -> owns s (unpair d ++ ext) -> Forall2 (holds s) (unpair d) (unpair done) ->
  exists d' s', convert_entries fuel hi d s = Done (d', s') /\ owns s' (unpair d' ++ ext) /\
    Forall2 (holds s') (unpair d') (unpair ps) /\ own_step ext None s s'.
Proof.
  intros Ht Hp HN. induction todo as [|[k v] todo IH]; intros done d fuel hi s Hps Hf Hsu He Hi Ha HO HF;
    (destruct fuel as [|fuel]; [cbn in Hf; lia|]); cbn [convert_entries]; unfold hashTypeNext at 1; rewrite He, Hsu;
    rewrite !bind_assoc, (bind_deref _ _ _ _ Ha); unfold zl_of; rewrite Hp, bind_assoc, bind_lift, Hi.
  - rewrite app_nil_r in Hps. subst done. rewrite (proj2 (Nat.ltb_ge _ _)), bind_mret by lia. exists d, s.
    split; [done|]. split; [done|]. split; [done|apply own_step_refl].
  - assert (Hlen : length (unpair ps) = (length (unpair done) + S (S (length (unpair todo))))%nat)
      by (rewrite Hps, unpair_app, length_app; cbn; lia).
    rewrite !(proj2 (Nat.ltb_lt _ _)) by lia. cbn [require_b]. rewrite bind_assoc, bind_lift, bind_mret.
    set (hi' := mkHi _ _ _ _ _). assert (Hk : unpair ps !! length (unpair done) = Some k)
      by (rewrite Hps, unpair_app; cbn; by apply list_lookup_middle).
    assert (Hv : unpair ps !! S (length (unpair done)) = Some v).
    { rewrite Hps, unpair_app. cbn. rewrite cons_middle, app_assoc. apply list_lookup_middle. rewrite length_app. cbn. lia. }
    destruct (current_encoded a o hi' REDIS_HASH_KEY _ k _ s Ha eq_refl eq_refl eq_refl ltac:(eauto) HO) as (b & s1 & E1 & HO1 & Hb & HS1).
    rewrite <- bind_assoc, (prog_bind_step _ _ _ _ _ E1).
    assert (Hns : o_type o <> REDIS_STRING) by congruence. assert (Ha1 : heap s1 !! a = Some o) by (by eapply os_container).
    destruct (current_encoded a o hi' REDIS_HASH_VALUE _ v _ s1 Ha1 eq_refl eq_refl eq_refl ltac:(eauto) HO1) as (c & s2 & E2 & HO2 & Hc & HS2).
    rewrite <- bind_assoc, (prog_bind_step _ _ _ _ _ E2). apply (os_strings _ _ _ _ HS2) in Hb; [|by left].
    rewrite (prog_bind_step _ _ _ _ _ (field_bytes_ok b k s2 Hb)).
    assert (HF2 : Forall2 (holds s2) (unpair d) (unpair done)).
    { eapply own_step_holds; [exact HS2|set_solver|]. eapply own_step_holds; [exact HS1|set_solver|done]. }
    assert (Hkd : k ∉ map fst done).
    { rewrite Hps, map_app in HN. apply NoDup_app in HN as (_ & HN & _). intros Hin. apply (HN k Hin). left. }
    rewrite (prog_bind_step _ _ _ _ _ (dict_field_absent k s2 done d HF2 Hkd)), bool_decide_true by done. cbn [require_b]. rewrite bind_lift.
    destruct (IH (done ++ [(k, v)]) (d ++ [(b, c)]) fuel hi' s2) as (d' & s3 & E3 & HO3 & HF3 & HS3); try done.
    + by rewrite <- app_assoc.
    + cbn in Hf. lia.
    + rewrite unpair_app, length_app. cbn. lia.
    + by eapply os_container.
    + eapply owns_perm; [|exact HO2]. rewrite unpair_app. cbn. solve_Permutation.
    + by apply unpair_put; [| | |constructor].
    + exists d', s3. split; [done|]. split; [done|]. split; [done|]. eapply own_step_trans; [|exact HS3].
      eapply own_step_trans; [eapply own_step_mono; [exact HS1|set_solver]|eapply own_step_mono; [exact HS2|set_solver]].
Qed.

Definition encoding_of (s : server) (a : addr) : option oenc := o_encoding <$> heap s !! a.

Lemma hashTypeConvert_ok a o ext ps s : heap s !! a = Some o -> o_type o = REDIS_HASH -> NoDup (map fst ps) ->
  o_encoding o = ENC_ZIPLIST -> o_ptr o = PZiplist (unpair ps) -> owns s ext ->
  exists s', hashTypeConvert a s = Done (tt, s') /\ hash_state s' a ext ps /\ own_step ext (Some a) s s' /\
    (encoding_of s' a = Some ENC_HT).
Proof.
  intros Ha Ht HN He Hp HO. unfold hashTypeConvert, hashTypeConvertZiplist. rewrite (bind_deref _ _ _ _ Ha), He.
  rewrite (bind_deref _ _ _ _ Ha), He, bool_decide_true by done. cbn [require_b]. rewrite bind_lift. unfold zl_of. rewrite Hp, bind_lift.
  unfold hashTypeInitIterator. rewrite bind_assoc, (bind_deref _ _ _ _ Ha), He, bind_mret.
  destruct (convert_entries_ok a o ext ps Ht Hp HN ps [] [] (S (length (unpair ps))) (mkHi a ENC_ZIPLIST None [] None) s)
    as (d & s1 & E1 & HO1 & HF1 & HS1); try done; [rewrite unpair_length; lia|].
  rewrite (prog_bind_step _ _ _ _ _ E1). assert (Hns : o_type o <> REDIS_STRING) by congruence.
  assert (Ha1 : heap s1 !! a = Some o) by (by eapply os_container). rewrite (upd_obj_Done _ _ _ _ Ha1).
  destruct (own_container s1 _ a o (fun o => set_o_ptr (PHashDict d) (set_o_encoding ENC_HT o)) HO1 Ha1 Hns eq_refl) as [HO2 HS2].
  eexists. split; [reflexivity|].
  split; [|split; [eapply own_step_trans; [by apply own_step_at|apply HS2]|unfold encoding_of; cbn; by rewrite lookup_insert_eq]].
  eexists. cbn [heap set_heap]. rewrite lookup_insert_eq. split; [reflexivity|]. split; [done|]. split; [done|]. right. split; [done|].
  exists d. split; [done|]. split; [done|]. eapply own_step_holds; [apply (HS2 (unpair d))|done|done].
Qed.


Definition hmap (ps : list (sds * sds)) : gmap sds sds := list_to_map ps.

Lemma hmap_absent f ps : f ∉ map fst ps -> hmap ps !! f = None.
Proof. apply not_elem_of_list_to_map_1. Qed.

(** The pairs around a field. *)
Lemma hmap_middle p1 f v p2 : NoDup (map fst (p1 ++ (f, v) :: p2)) ->
  hmap (p1 ++ (f, v) :: p2) = <[f := v]> (hmap (p1 ++ p2)) /\ f ∉ map fst (p1 ++ p2) /\ NoDup (map fst (p1 ++ p2)).
Proof.
  intros HN. assert (HP : p1 ++ (f, v) :: p2 ≡ₚ (f, v) :: p1 ++ p2) by solve_Permutation.
  split.
  - unfold hmap. rewrite (list_to_map_proper _ ((f, v) :: p1 ++ p2) HN HP). done.
  - pose proof (fmap_Permutation fst _ _ HP) as HP'. rewrite HP' in HN. cbn in HN. by apply NoDup_cons in HN.
Qed.

Lemma hmap_snoc f v ps : f ∉ map fst ps -> hmap (ps ++ [(f, v)]) = <[f := v]> (hmap ps).
Proof. apply list_to_map_snoc. Qed.

Lemma NoDup_snoc_field f (v : sds) (ps : list (sds * sds)) : f ∉ map fst ps -> NoDup (map fst ps) -> NoDup (map fst (ps ++ [(f, v)])).
Proof.
  intros Hf HN. rewrite map_app. apply NoDup_app. split; [done|]. split; [|apply NoDup_singleton].
  intros x Hx Hx'. cbn in Hx'. apply list_elem_of_singleton in Hx' as ->. done.
Qed.

Lemma NoDup_swap p1 (f v v' : sds) p2 : NoDup (map fst (p1 ++ (f, v) :: p2)) -> NoDup (map fst (p1 ++ (f, v') :: p2)).
Proof. by rewrite !map_app. Qed.

Lemma hmap_size ps : NoDup (map fst ps) -> base.size (hmap ps) = length ps.
Proof. intros H. unfold hmap. by rewrite map_size_list_to_map. Qed.

Lemma hash_not_string s a ext ps o : hash_state s a ext ps -> heap s !! a = Some o -> o_type o <> REDIS_STRING.
Proof. intros (o' & Ho & Ht & _) Ha. congruence. Qed.

Lemma hash_length_ok s a ext ps : hash_state s a ext ps -> hash_length a s = Done (Z.of_nat (length ps), s).
Proof.
  intros (o & Ha & Ht & HN & He). unfold hash_length. rewrite (bind_deref _ _ _ _ Ha). unfold hashTypeLength.
  destruct He as [(-> & Hp & _)|(-> & d & Hp & _ & HF)].
  - unfold zl_of. rewrite Hp. unfold lift. cbn. rewrite unpair_length. do 3 f_equal.
    rewrite Nat2Z.inj_mul, Z.mul_comm. by apply Z.div_mul.
  - unfold dict_of. rewrite Hp. unfold lift. cbn. apply Forall2_length in HF. rewrite !unpair_length in HF. do 3 f_equal. lia.
Qed.

(** The same entries with the value of [f] replaced or added. *)
Lemma zl_set_ok ps f v : NoDup (map fst ps) ->
  exists ps', zl_set (unpair ps) f v = (unpair ps', bool_decide (is_Some (hmap ps !! f))) /\
    NoDup (map fst ps') /\ hmap ps' = <[f := v]> (hmap ps) /\
    match find_field (unpair ps) f 0 with Some i => (S i <? length (unpair ps))%nat | None => true end = true.
Proof.
  intros HN. unfold zl_set. destruct (field_cases ps f) as [Hf|(p1 & w & p2 & -> & Hf)].
  - rewrite (find_field_absent f ps 0 Hf), (hmap_absent f ps Hf), bool_decide_false by (by intros [? ?]).
    exists (ps ++ [(f, v)]). rewrite unpair_app, <- app_assoc. split; [done|].
    split; [by apply NoDup_snoc_field|]. split; [by apply hmap_snoc|done].
  - rewrite (find_field_present f w p2 p1 0 Hf). cbn [Nat.add]. destruct (hmap_middle _ _ _ _ HN) as (-> & _ & _).
    rewrite lookup_insert_eq, bool_decide_true by (by eexists). exists (p1 ++ (f, v) :: p2). rewrite !unpair_app. cbn [unpair].
    split; [|split; [by eapply NoDup_swap|split]].
    + f_equal. set (u := unpair p1). set (t := unpair p2). change (u ++ f :: w :: t) with (u ++ [f] ++ w :: t). rewrite app_assoc.
      replace (S (length u)) with (length (u ++ [f])) by (rewrite length_app; cbn; lia). rewrite delete_middle.
      unfold insert_at. rewrite take_app_length, drop_app_length. by rewrite <- app_assoc.
    + destruct (hmap_middle p1 f v p2 (NoDup_swap _ _ _ _ _ HN)) as (-> & _ & _). by rewrite insert_insert_eq.
    + apply Nat.ltb_lt. rewrite length_app. cbn. lia.
Qed.


Lemma hash_state_zl s a o ext ps : owns s ext -> heap s !! a = Some o -> o_type o = REDIS_HASH -> o_encoding o = ENC_ZIPLIST ->
  o_ptr o = PZiplist (unpair ps) -> NoDup (map fst ps) -> hash_state s a ext ps.
Proof. intros HO Ha Ht He Hp HN. exists o. split; [done|]. split; [done|]. split; [done|]. by left. Qed.

Lemma hash_state_ht s a o ext ps d : owns s (unpair d ++ ext) -> heap s !! a = Some o -> o_type o = REDIS_HASH ->
  o_encoding o = ENC_HT -> o_ptr o = PHashDict d -> NoDup (map fst ps) -> Forall2 (holds s) (unpair d) (unpair ps) ->
  hash_state s a ext ps.
Proof. intros HO Ha Ht He Hp HN HF. exists o. split; [done|]. split; [done|]. split; [done|]. right. eauto. Qed.

(** The conversion at the end of hashTypeSet. *)
Lemma set_converts s a o ext ps : owns s ext -> heap s !! a = Some o -> o_type o = REDIS_HASH -> o_encoding o = ENC_ZIPLIST ->
  o_ptr o = PZiplist (unpair ps) -> NoDup (map fst ps) -> forall b : bool,
  exists s', when b (hashTypeConvert a) s = Done (tt, s') /\ hash_state s' a ext ps /\ own_step ext (Some a) s s'.
Proof.
  intros HO Ha Ht He Hp HN [|]; cbn [when].
  - destruct (hashTypeConvert_ok a o ext ps s) as (s' & E & HS & HT & _); try done. by exists s'.
  - exists s. split; [done|]. split; [by eapply hash_state_zl|apply own_step_refl].
Qed.

Lemma hashTypeSet_zl s a o ext ps f fx v vx :
  heap s !! a = Some o -> o_type o = REDIS_HASH -> NoDup (map fst ps) -> o_encoding o = ENC_ZIPLIST ->
  o_ptr o = PZiplist (unpair ps) -> owns s ext -> holds s f fx -> holds s v vx ->
  exists s' ps', hashTypeSet a f v s = Done (bool_decide (is_Some (hmap ps !! fx)), s') /\ hash_state s' a ext ps' /\
    hmap ps' = <[fx := vx]> (hmap ps) /\ own_step ext (Some a) s s'.
Proof.
  intros Ha Ht HN He Hp HO Hf Hv. unfold hashTypeSet. rewrite (bind_deref _ _ _ _ Ha), He.
  assert (Hns : o_type o <> REDIS_STRING) by congruence.
  destruct (own_getDecoded s ext f fx HO Hf) as (df & s1 & fo & E1 & HO1 & Hof & Hpf & HS1 & _). rewrite (prog_bind_step _ _ _ _ _ E1).
  apply (os_strings _ _ _ _ (HS1 [v])) in Hv; [|by left].
  destruct (own_getDecoded s1 _ v vx HO1 Hv) as (dv & s2 & ov & E2 & HO2 & Hov & Hpv & HS2 & Hptr). rewrite (prog_bind_step _ _ _ _ _ E2).
  destruct (Hptr df fo Hof) as (fo' & Hof' & Hpf'). rewrite (bind_deref _ _ _ _ Hof'), (bind_deref _ _ _ _ Hov). unfold sds_of.
  rewrite Hpf', Hpf, bind_lift, Hpv, bind_lift. unfold zl_of. rewrite Hp, bind_lift.
  destruct (zl_set_ok ps fx vx HN) as (ps' & Hz & HN' & Hm & ->). rewrite Hz. cbn [require_b fst snd]. rewrite bind_lift.
  assert (Ha2 : heap s2 !! a = Some o).
  { eapply (os_container [] None); [apply HS2| |done|done]. eapply (os_container [] None); [apply HS1|done|done|done]. }
  rewrite (bind_upd_obj _ _ _ _ _ Ha2). set (o3 := set_o_ptr _ o).
  destruct (own_container s2 _ a o (fun _ => o3) HO2 Ha2 Hns eq_refl) as [HO3 HS3].
  destruct (own_decr _ (dv :: ext) df (owns_perm _ _ _ (Permutation_swap _ _ _) HO3)) as (s4 & E4 & HO4 & HS4). rewrite (prog_bind_step _ _ _ _ _ E4).
  destruct (own_decr _ ext dv HO4) as (s5 & E5 & HO5 & HS5). rewrite (prog_bind_step _ _ _ _ _ E5).
  assert (Ha5 : heap s5 !! a = Some o3).
  { eapply (os_container ext None); [exact HS5| |done|done]. eapply (os_container _ None); [exact HS4| |done|done]. cbn. apply lookup_insert_eq. }
  rewrite (bind_deref _ _ _ _ Ha5). pose proof (hash_state_zl s5 a o3 ext ps' HO5 Ha5 Ht He eq_refl HN') as HR5.
  pose proof (hash_length_ok _ _ _ _ HR5) as HL. unfold hash_length in HL. rewrite (bind_deref _ _ _ _ Ha5) in HL.
  rewrite (prog_bind_step _ _ _ _ _ HL), bind_gets.
  destruct (set_converts s5 a o3 ext ps' HO5 Ha5 Ht He eq_refl HN' (Z.of_nat (length ps') >? hash_max_ziplist_entries (conf s5)))
    as (s6 & E6 & HR6 & HS6). rewrite (prog_bind_step _ _ _ _ _ E6).
  exists s6, ps'. split; [done|]. split; [done|]. split; [done|]. eapply own_step_trans; [|exact HS6].
  eapply own_step_trans; [apply own_step_at, (HS1 ext)|]. eapply own_step_trans; [apply own_step_at, (HS2 ext)|].
  eapply own_step_trans; [apply (HS3 ext)|]. eapply own_step_trans; [|by apply own_step_at].
  apply own_step_at. eapply own_step_mono; [exact HS4|set_solver].
Qed.


Lemma hashTypeSet_ht_new s a o ext ps d f fx v vx :
  heap s !! a = Some o -> o_type o = REDIS_HASH -> NoDup (map fst ps) -> o_encoding o = ENC_HT ->
  o_ptr o = PHashDict d -> owns s (unpair d ++ ext) -> Forall2 (holds s) (unpair d) (unpair ps) ->
  f ∈ ext -> holds s f fx -> v ∈ ext -> holds s v vx ->
  fx ∉ map fst ps ->
  exists s' ps', hashTypeSet a f v s = Done (bool_decide (is_Some (hmap ps !! fx)), s') /\ hash_state s' a ext ps' /\
    hmap ps' = <[fx := vx]> (hmap ps) /\ own_step ext (Some a) s s'.
Proof.
  intros Ha Ht HN He Hp HO HF Hfe Hf Hve Hv Hx. unfold hashTypeSet, dictReplace. rewrite (bind_deref _ _ _ _ Ha), He.
  assert (Hns : o_type o <> REDIS_STRING) by congruence.
  rewrite bind_assoc, (bind_deref _ _ _ _ Ha). unfold dict_of. rewrite Hp, bind_assoc, bind_lift.
  rewrite bind_assoc, (prog_bind_step _ _ _ _ _ (field_bytes_ok f fx s Hf)), bind_assoc.
  rewrite (prog_bind_step _ _ _ _ _ (dict_field_absent fx s ps d HF Hx)), bind_assoc, (bind_upd_obj _ _ _ _ _ Ha), bind_mret.
  rewrite (hmap_absent fx ps Hx), bool_decide_false by (by intros [? ?]). set (o1 := set_o_ptr _ o).
  destruct (own_container s _ a o (fun _ => o1) HO Ha Hns eq_refl) as [HO1 HS1]. set (s1 := set_heap _ s) in *.
  pose proof (os_strings _ _ _ _ (HS1 ext) _ _ Hfe Hf) as Hf1. pose proof (os_strings _ _ _ _ (HS1 ext) _ _ Hve Hv) as Hv1.
  cbn [when negb]. destruct (own_incr s1 _ f fx HO1 Hf1) as (s2 & E2 & HO2 & HS2). rewrite (prog_bind_step _ _ _ _ _ E2).
  pose proof (os_strings _ _ _ _ (HS2 ext) _ _ Hfe Hf1) as Hf2. pose proof (os_strings _ _ _ _ (HS2 ext) _ _ Hve Hv1) as Hv2.
  destruct (own_incr s2 _ v vx HO2 Hv2) as (s3 & E3 & HO3 & HS3). rewrite (prog_bind_step _ _ _ _ _ E3).
  exists s3, (ps ++ [(fx, vx)]). split; [done|]. split; [|split; [by apply hmap_snoc|]].
  + apply (hash_state_ht s3 a o1 ext _ (d ++ [(f, v)])); try done.
    * eapply owns_perm; [|exact HO3]. rewrite unpair_app. cbn. solve_Permutation.
    * eapply (os_container [] None); [apply HS3| |done|done]. eapply (os_container [] None); [apply HS2| |done|done].
      cbn. apply lookup_insert_eq.
    * by apply NoDup_snoc_field.
    * eapply own_step_holds; [apply (HS3 (unpair (d ++ [(f, v)])))|done|]. apply unpair_put; [|done|done|constructor].
      eapply own_step_holds; [apply (HS2 (unpair d))|done|]. by eapply own_step_holds; [apply (HS1 (unpair d))|done|].
  + eapply own_step_trans; [apply HS1|]. eapply own_step_trans; [apply own_step_at, HS2|apply own_step_at, HS3].
Qed.

Lemma hashTypeSet_ht_old s a o ext p1 w p2 d f fx v vx :
  heap s !! a = Some o -> o_type o = REDIS_HASH -> NoDup (map fst (p1 ++ (fx, w) :: p2)) -> o_encoding o = ENC_HT ->
  o_ptr o = PHashDict d -> owns s (unpair d ++ ext) -> Forall2 (holds s) (unpair d) (unpair (p1 ++ (fx, w) :: p2)) ->
  f ∈ ext -> holds s f fx -> v ∈ ext -> holds s v vx ->
  fx ∉ map fst p1 ->
  exists s' ps', hashTypeSet a f v s = Done (bool_decide (is_Some (hmap (p1 ++ (fx, w) :: p2) !! fx)), s') /\ hash_state s' a ext ps' /\
    hmap ps' = <[fx := vx]> (hmap (p1 ++ (fx, w) :: p2)) /\ own_step ext (Some a) s s'.
Proof.
  intros Ha Ht HN He Hp HO HF Hfe Hf Hve Hv Hx. unfold hashTypeSet, dictReplace. rewrite (bind_deref _ _ _ _ Ha), He.
  assert (Hns : o_type o <> REDIS_STRING) by congruence.
  rewrite bind_assoc, (bind_deref _ _ _ _ Ha). unfold dict_of. rewrite Hp, bind_assoc, bind_lift.
  rewrite bind_assoc, (prog_bind_step _ _ _ _ _ (field_bytes_ok f fx s Hf)), bind_assoc.
  apply unpair_split in HF as (d1 & fa & va & d2 & -> & HF1 & Hfa & Hva & HF2).
  rewrite (prog_bind_step _ _ _ _ _ (dict_field_present fx fa va d2 s p1 d1 HF1 Hx Hfa)). cbn [fst snd].
  rewrite bind_assoc, (bind_upd_obj _ _ _ _ _ Ha). destruct (hmap_middle _ _ _ _ HN) as (-> & _ & _).
  rewrite lookup_insert_eq, bool_decide_true by (by eexists). set (o1 := set_o_ptr _ o).
  destruct (own_container s _ a o (fun _ => o1) HO Ha Hns eq_refl) as [HO1 HS1]. set (s1 := set_heap _ s) in *.
  set (rest := unpair d1 ++ fa :: unpair d2 ++ ext).
  assert (HP : unpair (d1 ++ (fa, va) :: d2) ++ ext ≡ₚ va :: rest) by (subst rest; rewrite unpair_app; cbn; solve_Permutation).
  destruct (own_decr s1 rest va (owns_perm _ _ _ HP HO1)) as (s2 & E2 & HO2 & HS2).
  rewrite bind_assoc, (prog_bind_step _ _ _ _ _ E2), bind_mret. cbn [when negb]. rewrite bind_mret.
  pose proof (os_strings _ _ _ _ (HS1 ext) _ _ Hve Hv) as Hv1.
  pose proof (os_strings _ _ _ _ HS2 v vx ltac:(subst rest; set_solver) Hv1) as Hv2.
  destruct (own_incr s2 _ v vx HO2 Hv2) as (s3 & E3 & HO3 & HS3). rewrite (prog_bind_step _ _ _ _ _ E3).
  exists s3, (p1 ++ (fx, vx) :: p2). split; [done|]. split; [|split].
  + apply (hash_state_ht s3 a o1 ext _ (d1 ++ (fa, v) :: d2)); try done.
    * eapply owns_perm; [|exact HO3]. subst rest. rewrite unpair_app. cbn. solve_Permutation.
    * eapply (os_container [] None); [apply HS3| |done|done]. eapply (os_container _ None); [exact HS2| |done|done].
      cbn. apply lookup_insert_eq.
    * by eapply NoDup_swap.
    * eapply own_step_holds; [apply (HS3 (unpair (d1 ++ (fa, v) :: d2)))|done|].
      assert (Hk : forall b x, b ∈ rest -> holds s b x -> holds s2 b x)
        by (intros b x Hb Hbx; apply HS2; [done|]; by apply (os_strings _ _ _ _ (HS1 rest))).
      assert (HFk : forall l k, l ⊆ rest -> Forall2 (holds s) l k -> Forall2 (holds s2) l k).
      { intros l k Hl Hlk. induction Hlk; constructor; [apply Hk; [set_solver|done]|apply IHHlk; set_solver]. }
      apply unpair_put; [apply HFk; [subst rest; set_solver|done]|apply Hk; [subst rest; set_solver|done]|done|
        apply HFk; [subst rest; set_solver|done]].
  + destruct (hmap_middle p1 fx vx p2 (NoDup_swap _ _ _ _ _ HN)) as (-> & _ & _). by rewrite insert_insert_eq.
  + eapply own_step_trans; [apply HS1|]. eapply own_step_trans; [|apply own_step_at, HS3].
    apply own_step_at. eapply own_step_mono; [exact HS2|subst rest; set_solver].
Qed.

Lemma hashTypeSet_ht s a o ext ps d f fx v vx :
  heap s !! a = Some o -> o_type o = REDIS_HASH -> NoDup (map fst ps) -> o_encoding o = ENC_HT ->
  o_ptr o = PHashDict d -> owns s (unpair d ++ ext) -> Forall2 (holds s) (unpair d) (unpair ps) ->
  f ∈ ext -> holds s f fx -> v ∈ ext -> holds s v vx ->
  exists s' ps', hashTypeSet a f v s = Done (bool_decide (is_Some (hmap ps !! fx)), s') /\ hash_state s' a ext ps' /\
    hmap ps' = <[fx := vx]> (hmap ps) /\ own_step ext (Some a) s s'.
Proof.
  intros Ha Ht HN He Hp HO HF Hfe Hf Hve Hv. destruct (field_cases ps fx) as [Hx|(p1 & w & p2 & -> & Hx)].
  - by eapply hashTypeSet_ht_new.
  - by eapply hashTypeSet_ht_old.
Qed.


Lemma own_decoded_bytes s l b x : owns s l -> holds s b x ->
  exists s', decoded_bytes b s = Done (x, s') /\ owns s' l /\ own_step l None s s'.
Proof.
  intros HO Hb. unfold decoded_bytes. destruct (own_getDecoded s l b x HO Hb) as (d & s1 & o & E1 & HO1 & Ho & Hp & HS1 & _).
  rewrite (prog_bind_step _ _ _ _ _ E1), (bind_deref _ _ _ _ Ho). unfold sds_of. rewrite Hp, bind_lift.
  destruct (own_decr s1 l d HO1) as (s2 & E2 & HO2 & HS2). rewrite (prog_bind_step _ _ _ _ _ E2).
  exists s2. split; [done|]. split; [done|]. eapply own_step_trans; [apply HS1|done].
Qed.

Lemma hashTypeFromZiplist_ok s o ext ps f fx : o_encoding o = ENC_ZIPLIST -> o_ptr o = PZiplist (unpair ps) -> NoDup (map fst ps) ->
  owns s ext -> holds s f fx ->
  exists s', hashTypeGetFromZiplist o f s = Done (hmap ps !! fx, s') /\ owns s' ext /\ own_step ext None s s'.
Proof.
  intros He Hp HN HO Hf. unfold hashTypeGetFromZiplist. rewrite He, bool_decide_true by done. cbn [require_b]. rewrite bind_lift.
  unfold zl_of. rewrite Hp, bind_lift. destruct (own_decoded_bytes s ext f fx HO Hf) as (s1 & E1 & HO1 & HS1).
  rewrite (prog_bind_step _ _ _ _ _ E1). exists s1. split; [|done]. destruct (field_cases ps fx) as [Hx|(p1 & w & p2 & -> & Hx)].
  - by rewrite (find_field_absent fx ps 0 Hx), (hmap_absent fx ps Hx).
  - rewrite (find_field_present fx w p2 p1 0 Hx), unpair_app. cbn [unpair Nat.add].
    rewrite cons_middle, app_assoc, list_lookup_middle by (rewrite length_app; cbn; lia). cbn [expect]. rewrite bind_lift.
    destruct (hmap_middle _ _ _ _ HN) as (-> & _ & _). by rewrite lookup_insert_eq.
Qed.

Lemma hashTypeFromTable_ok s o ps d f fx : o_encoding o = ENC_HT -> o_ptr o = PHashDict d -> NoDup (map fst ps) ->
  Forall2 (holds s) (unpair d) (unpair ps) -> holds s f fx ->
  exists r, hashTypeGetFromHashTable o f s = Done (r, s) /\
    match r with Some v => v ∈ unpair d /\ exists vx, hmap ps !! fx = Some vx /\ holds s v vx | None => hmap ps !! fx = None end.
Proof.
  intros He Hp HN HF Hf. unfold hashTypeGetFromHashTable. rewrite He, bool_decide_true by done. cbn [require_b]. rewrite bind_lift.
  unfold dict_of. rewrite Hp, bind_lift, (prog_bind_step _ _ _ _ _ (field_bytes_ok f fx s Hf)).
  destruct (field_cases ps fx) as [Hx|(p1 & w & p2 & -> & Hx)].
  - rewrite (prog_bind_step _ _ _ _ _ (dict_field_absent fx s ps d HF Hx)). exists None. split; [done|]. by apply hmap_absent.
  - apply unpair_split in HF as (d1 & fa & va & d2 & -> & HF1 & Hfa & Hva & HF2).
    rewrite (prog_bind_step _ _ _ _ _ (dict_field_present fx fa va d2 s p1 d1 HF1 Hx Hfa)). exists (Some va). split; [done|].
    split; [rewrite unpair_app; cbn; set_solver|]. exists w. split; [|done].
    destruct (hmap_middle _ _ _ _ HN) as (-> & _ & _). by rewrite lookup_insert_eq.
Qed.

Lemma hashTypeGetObject_ok s a ext ps f fx : hash_state s a ext ps -> holds s f fx ->
  exists r s', hashTypeGetObject a f s = Done (r, s') /\ own_step ext None s s' /\
    match r with
    | Some v => exists vx, hmap ps !! fx = Some vx /\ holds s' v vx /\ hash_state s' a (v :: ext) ps
    | None => hmap ps !! fx = None /\ hash_state s' a ext ps
    end.
Proof.
  intros HR Hf. pose proof HR as (o & Ha & Ht & HN & He). assert (Hns : o_type o <> REDIS_STRING) by congruence.
  unfold hashTypeGetObject. rewrite (bind_deref _ _ _ _ Ha). destruct He as [(He & Hp & HO)|(He & d & Hp & HO & HF)]; rewrite He.
  - destruct (hashTypeFromZiplist_ok s o ext ps f fx He Hp HN HO Hf) as (s1 & E1 & HO1 & HS1). rewrite (prog_bind_step _ _ _ _ _ E1).
    assert (Ha1 : heap s1 !! a = Some o) by (by eapply os_container). destruct (hmap ps !! fx) as [vx|] eqn:Hm.
    + destruct (own_zl_object s1 ext vx HO1) as (v & s2 & E2 & HO2 & Hv & HS2). rewrite (prog_bind_step _ _ _ _ _ E2).
      exists (Some v), s2. split; [done|]. split; [eapply own_step_trans; [done|apply HS2]|]. exists vx. split; [done|]. split; [done|].
      eapply hash_state_zl; try done. eapply (os_container [] None); [apply HS2|done|done|done].
    + exists None, s1. split; [done|]. split; [done|]. split; [done|]. by eapply hash_state_zl.
  - destruct (hashTypeFromTable_ok s o ps d f fx He Hp HN HF Hf) as (r & E1 & Hr). rewrite (prog_bind_step _ _ _ _ _ E1).
    destruct r as [v|].
    + destruct Hr as (Hvd & vx & Hm & Hv). destruct (own_incr s _ v vx HO Hv) as (s2 & E2 & HO2 & HS2).
      rewrite (prog_bind_step _ _ _ _ _ E2). exists (Some v), s2. split; [done|]. split; [apply HS2|].
      exists vx. split; [done|]. split; [apply (os_strings _ _ _ _ (HS2 [v])); [by left|done]|].
      eapply hash_state_ht; try done.
      * eapply owns_perm; [|exact HO2]. solve_Permutation.
      * eapply (os_container [] None); [apply HS2|done|done|done].
      * eapply own_step_holds; [apply (HS2 (unpair d))|done|done].
    + exists None, s. split; [done|]. split; [apply own_step_refl|]. by split.
Qed.

Lemma hash_state_decr s a v ext ps : hash_state s a (v :: ext) ps ->
  exists s', decrRefCount v s = Done (tt, s') /\ hash_state s' a ext ps /\ own_step ext None s s'.
Proof.
  intros HR. pose proof HR as (o & Ha & Ht & HN & [(He & Hp & HO)|(He & d & Hp & HO & HF)]).
  - destruct (own_decr s ext v HO) as (s1 & E1 & HO1 & HS1). exists s1. split; [done|]. split; [|done].
    eapply hash_state_zl; try done. eapply (os_container _ None); [exact HS1|done|congruence|done].
  - destruct (own_decr s (unpair d ++ ext) v) as (s1 & E1 & HO1 & HS1); [eapply owns_perm; [|exact HO]; solve_Permutation|].
    exists s1. split; [done|]. split; [|eapply own_step_mono; [exact HS1|set_solver]]. eapply hash_state_ht; try done.
    + eapply (os_container _ None); [exact HS1|done|congruence|done].
    + eapply own_step_holds; [exact HS1|set_solver|done].
Qed.


Lemma hashTypeDelete_absent s a ext ps f fx : hash_state s a ext ps -> holds s f fx -> fx ∉ map fst ps ->
  exists s', hashTypeDelete a f s = Done (false, s') /\ hash_state s' a ext ps /\ own_step ext (Some a) s s'.
Proof.
  intros HR Hf Hx. pose proof HR as (o & Ha & Ht & HN & He). assert (Hns : o_type o <> REDIS_STRING) by congruence.
  unfold hashTypeDelete. rewrite (bind_deref _ _ _ _ Ha).
  destruct He as [(He & Hp & HO)|(He & d & Hp & HO & HF)]; rewrite He.
  - destruct (own_decoded_bytes s ext f fx HO Hf) as (s1 & E1 & HO1 & HS1). rewrite (prog_bind_step _ _ _ _ _ E1).
    unfold zl_of. rewrite Hp, bind_lift, (find_field_absent fx ps 0 Hx). exists s1. split; [done|].
    split; [by eapply hash_state_zl; try done; eapply os_container|]. by apply own_step_at.
  - unfold dict_of. rewrite Hp, bind_lift, (prog_bind_step _ _ _ _ _ (field_bytes_ok f fx s Hf)).
    rewrite (prog_bind_step _ _ _ _ _ (dict_field_absent fx s ps d HF Hx)). exists s. split; [done|]. split; [done|].
    apply own_step_refl.
Qed.

Lemma hashTypeDelete_present s a ext p1 w p2 f fx : hash_state s a ext (p1 ++ (fx, w) :: p2) -> holds s f fx -> fx ∉ map fst p1 ->
  exists s', hashTypeDelete a f s = Done (true, s') /\ hash_state s' a ext (p1 ++ p2) /\ own_step ext (Some a) s s'.
Proof.
  intros HR Hf Hx. pose proof HR as (o & Ha & Ht & HN & He). assert (Hns : o_type o <> REDIS_STRING) by congruence.
  unfold hashTypeDelete. rewrite (bind_deref _ _ _ _ Ha).
  destruct (hmap_middle _ _ _ _ HN) as (_ & _ & HN2).
  destruct He as [(He & Hp & HO)|(He & d & Hp & HO & HF)]; rewrite He.
  + destruct (own_decoded_bytes s ext f fx HO Hf) as (s1 & E1 & HO1 & HS1). rewrite (prog_bind_step _ _ _ _ _ E1).
    unfold zl_of. rewrite Hp, bind_lift, (find_field_present fx w p2 p1 0 Hx). cbn [Nat.add].
    assert (Ha1 : heap s1 !! a = Some o) by (by eapply os_container). rewrite (bind_upd_obj _ _ _ _ _ Ha1).
    rewrite unpair_app. cbn [unpair]. rewrite !delete_middle, <- unpair_app.
    destruct (own_container s1 _ a o (set_o_ptr (PZiplist (unpair (p1 ++ p2)))) HO1 Ha1 Hns eq_refl) as [HO2 HS2].
    eexists. split; [reflexivity|]. split;
      [apply (hash_state_zl _ _ (set_o_ptr (PZiplist (unpair (p1 ++ p2))) o)); try done; cbn; apply lookup_insert_eq|].
    eapply own_step_trans; [by apply own_step_at|apply HS2].
  + unfold dict_of. rewrite Hp, bind_lift, (prog_bind_step _ _ _ _ _ (field_bytes_ok f fx s Hf)).
    apply unpair_split in HF as (d1 & fa & va & d2 & -> & HF1 & Hfa & Hva & HF2).
    rewrite (prog_bind_step _ _ _ _ _ (dict_field_present fx fa va d2 s p1 d1 HF1 Hx Hfa)). cbn [fst snd].
    rewrite (bind_upd_obj _ _ _ _ _ Ha). destruct (own_container s _ a o (set_o_ptr (PHashDict (d1 ++ d2))) HO Ha Hns eq_refl) as [HO1 HS1].
    set (s1 := set_heap _ s) in *. set (rest := unpair (d1 ++ d2) ++ ext).
    assert (HP : unpair (d1 ++ (fa, va) :: d2) ++ ext ≡ₚ fa :: va :: rest) by (subst rest; rewrite !unpair_app; cbn; solve_Permutation).
    destruct (own_decr s1 (va :: rest) fa (owns_perm _ _ _ HP HO1)) as (s2 & E2 & HO2 & HS2). rewrite (prog_bind_step _ _ _ _ _ E2).
    destruct (own_decr s2 rest va HO2) as (s3 & E3 & HO3 & HS3). rewrite (prog_bind_step _ _ _ _ _ E3).
    assert (HS : own_step rest (Some a) s s3).
    { eapply own_step_trans; [apply HS1|]. apply own_step_at. eapply own_step_trans; [eapply own_step_mono; [exact HS2|set_solver]|done]. }
    exists s3. split; [done|]. split; [|eapply own_step_mono; [exact HS|subst rest; set_solver]].
    apply (hash_state_ht s3 a (set_o_ptr (PHashDict (d1 ++ d2)) o) ext (p1 ++ p2) (d1 ++ d2)); try done.
    * eapply (os_container _ None); [exact HS3| |done|done]. eapply (os_container _ None); [exact HS2| |done|done]. cbn. apply lookup_insert_eq.
    * eapply own_step_holds; [exact HS|subst rest; set_solver|]. rewrite !unpair_app. by apply Forall2_app.
Qed.

Lemma hashTypeDelete_ok s a ext ps f fx : hash_state s a ext ps -> holds s f fx ->
  exists s' ps', hashTypeDelete a f s = Done (bool_decide (is_Some (hmap ps !! fx)), s') /\ hash_state s' a ext ps' /\
    hmap ps' = delete fx (hmap ps) /\ own_step ext (Some a) s s'.
Proof.
  intros HR Hf. destruct (field_cases ps fx) as [Hx|(p1 & w & p2 & -> & Hx)].
  - destruct (hashTypeDelete_absent s a ext ps f fx HR Hf Hx) as (s1 & E1 & HR1 & HS1). exists s1, ps. pose proof (hmap_absent fx ps Hx) as Hm.
    rewrite Hm, bool_decide_false by (by intros [? ?]). by rewrite delete_id.
  - destruct (hashTypeDelete_present s a ext p1 w p2 f fx HR Hf Hx) as (s1 & E1 & HR1 & HS1). exists s1, (p1 ++ p2).
    destruct HR as (o & _ & _ & HN & _). destruct (hmap_middle _ _ _ _ HN) as (-> & Hx2 & _).
    rewrite lookup_insert_eq, bool_decide_true, delete_insert_id by (by eexists) || by apply hmap_absent. done.
Qed.

(** ** The hash type as a finite map *)
Inductive hash_op := OpHSet (f v : addr) | OpHGet (f : addr) | OpHDel (f : addr) | OpHExists (f : addr) | OpHLen.
Inductive hash_out := OutFlag (b : bool) | OutGet (x : option sds) | OutHLen (n : Z).

(** One operation of the hash API on the object [a]; the object that
    hashTypeGetObject returns is released after use, as its callers do. *)
Definition hash_step (a : addr) (op : hash_op) : M hash_out :=
  match op with
  | OpHSet f v => b ← hashTypeSet a f v; mret (OutFlag b)
  | OpHGet f =>
    r ← hashTypeGetObject a f;
    match r with
    | None => mret (OutGet None)
    | Some v => x ← field_bytes v; _ ← decrRefCount v; mret (OutGet (Some x))
    end
  | OpHDel f => b ← hashTypeDelete a f; mret (OutFlag b)
  | OpHExists f => b ← hashTypeExists a f; mret (OutFlag b)
  | OpHLen => n ← hash_length a; mret (OutHLen n)
  end.

Fixpoint hash_run (a : addr) (ops : list hash_op) : M (list hash_out) :=
  match ops with
  | [] => mret []
  | op :: r => x ← hash_step a op; xs ← hash_run a r; mret (x :: xs)
  end.

(** The specification: the same operations on a finite map. *)
Definition map_step (val : addr -> sds) (op : hash_op) (m : gmap sds sds) : hash_out * gmap sds sds :=
  match op with
  | OpHSet f v => (OutFlag (bool_decide (is_Some (m !! val f))), <[val f := val v]> m)
  | OpHGet f => (OutGet (m !! val f), m)
  | OpHDel f => (OutFlag (bool_decide (is_Some (m !! val f))), delete (val f) m)
  | OpHExists f => (OutFlag (bool_decide (is_Some (m !! val f))), m)
  | OpHLen => (OutHLen (Z.of_nat (base.size m)), m)
  end.

Fixpoint map_run (val : addr -> sds) (ops : list hash_op) (m : gmap sds sds) : list hash_out * gmap sds sds :=
  match ops with
  | [] => ([], m)
  | op :: r => let '(x, m') := map_step val op m in
               let '(xs, m'') := map_run val r m' in (x :: xs, m'')
  end.

(** The objects that an operation is given. *)
Definition op_args (op : hash_op) : list addr :=
  match op with OpHSet f v => [f; v] | OpHGet f | OpHDel f | OpHExists f => [f] | OpHLen => [] end.

Definition hash_rep (s : server) (a : addr) (ext : list addr) (m : gmap sds sds) : Prop :=
  exists ps, hash_state s a ext ps /\ hmap ps = m.


Lemma hashTypeExists_ok s a ext ps f fx : hash_state s a ext ps -> holds s f fx ->
  exists s', hashTypeExists a f s = Done (bool_decide (is_Some (hmap ps !! fx)), s') /\ hash_state s' a ext ps /\ own_step ext None s s'.
Proof.
  intros HR Hf. pose proof HR as (o & Ha & Ht & HN & He). assert (Hns : o_type o <> REDIS_STRING) by congruence.
  unfold hashTypeExists. rewrite (bind_deref _ _ _ _ Ha). destruct He as [(He & Hp & HO)|(He & d & Hp & HO & HF)]; rewrite He.
  - destruct (hashTypeFromZiplist_ok s o ext ps f fx He Hp HN HO Hf) as (s1 & E1 & HO1 & HS1). rewrite (prog_bind_step _ _ _ _ _ E1).
    exists s1. split; [done|]. split; [|done]. eapply hash_state_zl; try done. by eapply os_container.
  - destruct (hashTypeFromTable_ok s o ps d f fx He Hp HN HF Hf) as (r & E1 & Hr). rewrite (prog_bind_step _ _ _ _ _ E1).
    exists s. split; [|split; [done|apply own_step_refl]]. destruct r as [v|].
    + destruct Hr as (_ & vx & -> & _). by rewrite !bool_decide_true by (by eexists).
    + rewrite Hr. done.
Qed.

Lemma hashTypeSet_ok s a ext ps f fx v vx : hash_state s a ext ps -> f ∈ ext -> holds s f fx -> v ∈ ext -> holds s v vx ->
  exists s' ps', hashTypeSet a f v s = Done (bool_decide (is_Some (hmap ps !! fx)), s') /\ hash_state s' a ext ps' /\
    hmap ps' = <[fx := vx]> (hmap ps) /\ own_step ext (Some a) s s'.
Proof.
  intros (o & Ha & Ht & HN & [(He & Hp & HO)|(He & d & Hp & HO & HF)]) Hfe Hf Hve Hv.
  - by eapply hashTypeSet_zl.
  - by eapply hashTypeSet_ht.
Qed.

Lemma hash_step_ok val op s a ext m : hash_rep s a ext m ->
  (forall b, b ∈ op_args op -> b ∈ ext /\ holds s b (val b)) ->
  exists s', hash_step a op s = Done (fst (map_step val op m), s') /\ hash_rep s' a ext (snd (map_step val op m)) /\
    own_step ext (Some a) s s'.
Proof.
  intros (ps & HR & <-) Hargs. destruct op as [f v|f|f|f|]; cbn [hash_step map_step op_args fst snd] in *.
  1: destruct (Hargs f ltac:(left)) as [Hfe Hf], (Hargs v ltac:(right; left)) as [Hve Hv].
  2, 3, 4: destruct (Hargs f ltac:(left)) as [Hfe Hf].
  - destruct (hashTypeSet_ok s a ext ps f _ v _ HR Hfe Hf Hve Hv) as (s1 & ps1 & E1 & HR1 & Hm1 & HS1).
    rewrite (prog_bind_step _ _ _ _ _ E1). exists s1. split; [done|]. split; [by exists ps1|done].
  - destruct (hashTypeGetObject_ok s a ext ps f _ HR Hf) as (r & s1 & E1 & HS1 & Hr). rewrite (prog_bind_step _ _ _ _ _ E1).
    destruct r as [v|].
    + destruct Hr as (vx & Hm & Hv & HR1). rewrite (prog_bind_step _ _ _ _ _ (field_bytes_ok v vx s1 Hv)).
      destruct (hash_state_decr s1 a v ext ps HR1) as (s2 & E2 & HR2 & HS2). rewrite (prog_bind_step _ _ _ _ _ E2), Hm.
      exists s2. split; [done|]. split; [by exists ps|]. apply own_step_at. by eapply own_step_trans.
    + destruct Hr as (-> & HR1). exists s1. split; [done|]. split; [by exists ps|]. by apply own_step_at.
  - destruct (hashTypeDelete_ok s a ext ps f _ HR Hf) as (s1 & ps1 & E1 & HR1 & Hm1 & HS1).
    rewrite (prog_bind_step _ _ _ _ _ E1). exists s1. split; [done|]. split; [by exists ps1|done].
  - destruct (hashTypeExists_ok s a ext ps f _ HR Hf) as (s1 & E1 & HR1 & HS1).
    rewrite (prog_bind_step _ _ _ _ _ E1). exists s1. split; [done|]. split; [by exists ps|]. by apply own_step_at.
  - rewrite (prog_bind_step _ _ _ _ _ (hash_length_ok _ _ _ _ HR)). exists s. rewrite hmap_size by (by destruct HR as (? & ? & ? & ? & ?)).
    split; [done|]. split; [by exists ps|apply own_step_refl].
Qed.

(** C12: the hash type refines a finite map from byte strings to byte strings:
    any sequence of sets, gets, deletions, membership tests and length queries
    gives the replies of the specification and leaves a hash object that stands
    for the specification's map, in either encoding, across the conversion of a
    ziplist into a dict.  Before and after, every string object counts exactly the
    references of the hash and those held outside, which are [ext]: so a value
    that is replaced or deleted is released exactly once and never leaks, an
    object that is also held outside (an argument of the operations, which are in
    [ext], a shared integer, the same object as field and value) survives, and no
    freed object is touched. *)
Theorem hash_type_refines_map (val : positive -> sds) (ops : list hash_op) (a : positive) (ext : list positive)
    (m : gmap sds sds) (s : server) :
  hash_rep s a ext m -> (forall op b, op ∈ ops -> b ∈ op_args op -> b ∈ ext /\ holds s b (val b)) ->
  exists s', hash_run a ops s = Done (fst (map_run val ops m), s') /\
    hash_rep s' a ext (snd (map_run val ops m)) /\ own_step ext (Some a) s s'.
Proof.
  revert m s. induction ops as [|op ops IH]; intros m s HR Hargs; cbn [hash_run map_run].
  - exists s. split; [done|]. split; [done|apply own_step_refl].
  - destruct (hash_step_ok val op s a ext m HR) as (s1 & E1 & HR1 & HS1); [intros b; apply Hargs; left|].
    rewrite (prog_bind_step _ _ _ _ _ E1). destruct (map_step val op m) as [x m1]. cbn [fst snd] in *.
    destruct (IH m1 s1 HR1) as (s2 & E2 & HR2 & HS2).
    { intros op' b Hop Hb. destruct (Hargs op' b ltac:(by right) Hb) as [He Hh]. split; [done|]. by apply HS1. }
    rewrite (prog_bind_step _ _ _ _ _ E2). destruct (map_run val ops m1) as [xs m2]. cbn [fst snd] in *.
    exists s2. split; [done|]. split; [done|]. by eapply own_step_trans.
Qed.


(** A hash of one field, at its limit. *)
Definition one_field : server_conf := mkConf 1000 false false None 0 false 512 512 64 1 64 128 64 4.
Definition hash_heap : gmap addr robj :=
  <[10001%positive := mkObj REDIS_HASH ENC_ZIPLIST 1 0 (PZiplist [str "k"; str "old"])]>
  (<[10002%positive := str_obj "g" 0]> (<[10003%positive := str_obj "7" 0]> ∅)).
Definition hash_server : server := store_of hash_heap (set_conf one_field server0).

Lemma hash_type_refines_map_witness :
  exists s', hash_run 10001 [OpHSet 10002 10003; OpHGet 10002; OpHSet 10002 10002; OpHDel 10003; OpHLen] hash_server
    = Done ([OutFlag false; OutGet (Some (str "7")); OutFlag true; OutFlag false; OutHLen 2], s') /\
  hash_rep s' 10001 [10002; 10003]%positive (<[str "g" := str "g"]> (<[str "k" := str "old"]> ∅)).
Proof.
  destruct (hash_type_refines_map (fun v => if decide (v = 10002%positive) then str "g" else str "7")
    [OpHSet 10002 10003; OpHGet 10002; OpHSet 10002 10002; OpHDel 10003; OpHLen] 10001 [10002; 10003]%positive
    (<[str "k" := str "old"]> ∅) hash_server) as (s' & H1 & H2 & _).
  - exists [(str "k", str "old")]. split; [|reflexivity].
    exists (mkObj REDIS_HASH ENC_ZIPLIST 1 0 (PZiplist [str "k"; str "old"])).
    split; [apply store_of_lookup; reflexivity|]. split; [reflexivity|]. split; [apply NoDup_singleton|].
    left. split; [reflexivity|]. split; [reflexivity|]. apply store_of_owns; [reflexivity| | |].
    + intros b o. unfold hash_heap. rewrite !lookup_insert_Some. intros [[<- <-]|[_ [[<- <-]|[_ [[<- <-]|[_ Hb]]]]]]; [..|by rewrite lookup_empty in Hb];
        (split; [lia|]); cbn; intros [=]; rewrite !elem_of_cons; auto.
    + apply NoDup_cons. split; [by rewrite list_elem_of_singleton|apply NoDup_singleton].
    + repeat constructor; eexists _, _; (split; [reflexivity|]); (split; [reflexivity|]); (split; [reflexivity|]); left; split; reflexivity.
  - intros op b Hop Hb. assert (b = 10002%positive \/ b = 10003%positive) as [-> | ->].
    { rewrite !elem_of_cons, elem_of_nil in Hop. destruct_or! Hop; subst op; cbn in Hb;
        rewrite ?elem_of_cons, ?elem_of_nil in Hb; destruct_or! Hb; subst; auto; done. }
    all: split; [rewrite !elem_of_cons; auto|]; eexists; (split; [apply store_of_lookup; reflexivity|]); cbn;
      (split; [reflexivity|]); (split; [reflexivity|]); left; split; reflexivity.
  - exists s'. split.
    + exact H1.
    + match type of H2 with hash_rep _ _ _ ?m =>
        replace (<[str "g" := str "g"]> (<[str "k" := str "old"]> ∅)) with m by (vm_compute; reflexivity)
      end. exact H2.
Defined.


(** ** HSET and HDEL on a ziplist *)
Section Ziplists.
#[local] Set Default Proof Using "Type*".
Context (ho : addr) (oh : robj).
Context (Ht : o_type oh = REDIS_HASH) (He : o_encoding oh = ENC_ZIPLIST).

(** The hash object with the pairs [ps]. *)
Definition zh (ps : list (sds * sds)) : robj := set_o_ptr (PZiplist (unpair ps)) oh.

(** A raw string object that is referenced. *)
Definition raw (s : server) (a : addr) (x : sds) : Prop :=
  exists o, heap s !! a = Some o /\ o_type o = REDIS_STRING /\ o_encoding o = ENC_RAW /\ o_ptr o = PSds x /\ 0 < o_refcount o.

Lemma zh_length ps : hashTypeLength (zh ps) = Done (Z.of_nat (length ps)).
Proof.
  unfold hashTypeLength. cbn [zh set_o_ptr o_encoding]. rewrite He. unfold zl_of. cbn. rewrite unpair_length. f_equal.
  rewrite Nat2Z.inj_mul, Z.mul_comm. by apply Z.div_mul.
Qed.

Lemma raw_ne_hash s a x ps : heap s !! ho = Some (zh ps) -> raw s a x -> a <> ho.
Proof. intros Hh (o & Ho & Hto & _) ->. rewrite Hh in Ho. injection Ho as <-. cbn in Hto. congruence. Qed.

Lemma hashTypeSet_exact s ps ps' b f fx v vx : heap s !! ho = Some (zh ps) -> raw s f fx -> raw s v vx -> f <> v ->
  zl_set (unpair ps) fx vx = (unpair ps', b) -> NoDup (map fst ps) ->
  Z.of_nat (length ps') <= hash_max_ziplist_entries (conf s) ->
  exists s', hashTypeSet ho f v s = Done (b, s') /\ rewrote ho (zh ps') s s'.
Proof.
  intros Hh Hf Hv Hfv Hz HN Hlen. pose proof (raw_ne_hash _ _ _ _ Hh Hf) as Hfh. pose proof (raw_ne_hash _ _ _ _ Hh Hv) as Hvh.
  destruct Hf as (fo & Hfo & Hft & Hfe & Hfp & Hfr), Hv as (vo & Hvo & Hvt & Hve & Hvp & Hvr).
  unfold hashTypeSet, getDecodedObject, incrRefCount. rewrite (bind_deref _ _ _ _ Hh). cbn [zh set_o_ptr o_encoding]. rewrite He.
  rewrite bind_assoc, (bind_deref _ _ _ _ Hfo), Hfe, bool_decide_true, bind_assoc, (bind_upd_obj _ _ _ _ _ Hfo), bind_mret by done.
  set (s1 := set_heap _ s). assert (Hvo1 : heap s1 !! v = Some vo) by (cbn; by rewrite lookup_insert_ne).
  rewrite bind_assoc, (bind_deref _ _ _ _ Hvo1), Hve, bool_decide_true, bind_assoc, (bind_upd_obj _ _ _ _ _ Hvo1), bind_mret by done.
  set (s2 := set_heap _ s1). rewrite (bind_deref f (set_o_refcount (o_refcount fo + 1) fo)) by (cbn; by rewrite lookup_insert_ne, lookup_insert_eq).
  rewrite (bind_deref v (set_o_refcount (o_refcount vo + 1) vo)) by (cbn; by rewrite lookup_insert_eq). unfold sds_of. cbn [set_o_refcount o_ptr].
  rewrite Hfp, bind_lift, Hvp, bind_lift. unfold zl_of. cbn [zh set_o_ptr o_ptr]. rewrite bind_lift.
  destruct (zl_set_ok ps fx vx HN) as (ps1 & Hz1 & _ & _ & ->). rewrite Hz. cbn [require_b fst snd]. rewrite bind_lift.
  rewrite (bind_upd_obj ho (zh ps)) by (cbn; by rewrite !lookup_insert_ne). cbn [set_o_ptr zh o_type o_encoding o_refcount o_vers]. fold (zh ps').
  set (s3 := set_heap _ s2).
  erewrite prog_bind_step by (apply (decr_after_incr f fo); [cbn; by rewrite !lookup_insert_ne, lookup_insert_eq by done|done]).
  set (s4 := set_heap _ s3).
  erewrite prog_bind_step by (apply (decr_after_incr v vo); [cbn; by rewrite !lookup_insert_ne, lookup_insert_eq by done|done]).
  set (s5 := set_heap _ s4). assert (H5 : heap s5 !! ho = Some (zh ps')) by (cbn; by rewrite !lookup_insert_ne, lookup_insert_eq by done).
  rewrite (bind_deref _ _ _ _ H5), zh_length, bind_lift, bind_gets. rewrite Z.gtb_ltb, (proj2 (Z.ltb_ge _ _)) by done. cbn [when].
  rewrite bind_mret. eexists. split; [reflexivity|]. split; try done. cbn.
  apply map_eq. intros a. destruct (decide (a = ho)) as [->|Hah]; [by rewrite !lookup_insert_ne, !lookup_insert_eq by done|].
  rewrite (lookup_insert_ne _ ho a) by done. destruct (decide (a = v)) as [->|Hav]; [by rewrite lookup_insert_eq|].
  rewrite lookup_insert_ne by done. destruct (decide (a = f)) as [->|Haf]; [by rewrite lookup_insert_eq|]. by rewrite !lookup_insert_ne by done.
Qed.

Lemma hashTypeDelete_exact s p1 x w p2 f : heap s !! ho = Some (zh (p1 ++ (x, w) :: p2)) -> raw s f x -> x ∉ map fst p1 ->
  hashTypeDelete ho f s = Done (true, set_heap (<[ho := zh (p1 ++ p2)]> (heap s)) s).
Proof.
  intros Hh Hf Hx. destruct Hf as (fo & Hfo & Hft & Hfe & Hfp & Hfr). unfold hashTypeDelete. rewrite (bind_deref _ _ _ _ Hh).
  cbn [zh set_o_ptr o_encoding]. rewrite He, (prog_bind_step _ _ _ _ _ (decoded_raw f fo x s Hfo Hfe Hfp Hfr)).
  unfold zl_of. cbn [zh set_o_ptr o_ptr]. rewrite bind_lift, (find_field_present x w p2 p1 0 Hx). cbn [Nat.add].
  rewrite (bind_upd_obj _ _ _ _ _ Hh), unpair_app. cbn [unpair]. by rewrite !delete_middle, <- unpair_app.
Qed.

Lemma no_conversion s c f fx v vx ps : heap s !! ho = Some (zh ps) -> cl_argv c !! 2%nat = Some (Some f) -> raw s f fx ->
  cl_argv c !! 3%nat = Some (Some v) -> raw s v vx -> sdslen fx <= hash_max_ziplist_value (conf s) ->
  sdslen vx <= hash_max_ziplist_value (conf s) -> hashTypeTryConversion ho c 2 3 s = Done (tt, s).
Proof.
  intros Hh H2 (fo & Hfo & Hft & Hfe & Hfp & _) H3 (vo & Hvo & Hvt & Hve & Hvp & _) Hf Hv. unfold hashTypeTryConversion.
  rewrite (bind_deref _ _ _ _ Hh). cbn [zh set_o_ptr o_encoding]. rewrite He. cbn [seq Nat.sub].
  assert (args_of c [2; 3]%nat = Done [f; v]) as -> by (cbn; by rewrite (argv_Done _ _ _ H2), (argv_Done _ _ _ H3)).
  rewrite bind_lift. cbn [try_conversion].
  rewrite (bind_deref _ _ _ _ Hfo), bind_gets, Hfe, Hfp, Z.gtb_ltb, (proj2 (Z.ltb_ge _ _)) by done.
  by rewrite (bind_deref _ _ _ _ Hvo), bind_gets, Hve, Hvp, Z.gtb_ltb, (proj2 (Z.ltb_ge _ _)) by done.
Qed.

Lemma hset_zl c key s ps ps' b f fx v vx :
  str_arg s c 1 key -> cl_argv c !! 2%nat = Some (Some f) -> raw s f fx -> cl_argv c !! 3%nat = Some (Some v) -> raw s v vx -> f <> v ->
  live s (cl_db c) key -> lookupKey s (cl_db c) key = Some ho -> heap s !! ho = Some (zh ps) -> NoDup (map fst ps) ->
  zl_set (unpair ps) fx vx = (unpair ps', b) -> Z.of_nat (length ps') <= hash_max_ziplist_entries (conf s) ->
  sdslen fx <= hash_max_ziplist_value (conf s) -> sdslen vx <= hash_max_ziplist_value (conf s) ->
  exists s' r, hsetCommand c s = Done (add_reply r c, s') /\ rewrote ho (zh ps') s s'.
Proof.
  intros Hk H2 Hf H3 Hv Hfv HL Hl Hh HN Hz Hlen Hfl Hvl. unfold hsetCommand. rewrite (bind_arg_str _ _ _ _ _ Hk).
  unfold hashTypeLookupWriteOrCreate. rewrite bind_assoc, (prog_bind_step _ _ _ _ _ (lookupKeyWrite_live _ _ _ HL)), Hl.
  rewrite bind_assoc, (bind_deref _ _ _ _ Hh). cbn [zh set_o_ptr o_type]. rewrite Ht, bool_decide_true, bind_mret by done.
  rewrite (prog_bind_step _ _ _ _ _ (no_conversion s c f fx v vx ps Hh H2 Hf H3 Hv Hfl Hvl)).
  unfold hashTypeTryObjectEncoding. rewrite bind_assoc, (bind_deref _ _ _ _ Hh). cbn [zh set_o_ptr o_encoding]. rewrite He, bind_mret.
  rewrite (argv_Done _ _ _ H2), bind_lift, (argv_Done _ _ _ H3), bind_lift.
  destruct (hashTypeSet_exact s ps ps' b f fx v vx Hh Hf Hv Hfv Hz HN Hlen) as (s1 & E1 & R1). rewrite (prog_bind_step _ _ _ _ _ E1).
  unfold hset_done. rewrite bind_assoc. destruct (signal_same (cl_db c) key s1) as (s2 & E2 & S2). rewrite (prog_bind_step _ _ _ _ _ E2).
  unfold log_event, incr_dirty. run. eexists _, _. split; [reflexivity|]. eapply rewrote_after; [exact R1|].
  eapply same_store_trans; [exact S2|]. by split.
Qed.

Lemma hdel_zl c key s p1 x w p2 f :
  str_arg s c 1 key -> cl_argc c = 3 -> cl_argv c !! 2%nat = Some (Some f) -> raw s f x ->
  live s (cl_db c) key -> lookupKey s (cl_db c) key = Some ho -> heap s !! ho = Some (zh (p1 ++ (x, w) :: p2)) ->
  x ∉ map fst p1 -> p1 ++ p2 <> [] ->
  exists s' r, hdelCommand c s = Done (add_reply r c, s') /\ rewrote ho (zh (p1 ++ p2)) s s'.
Proof.
  intros Hk Hc H2 Hf HL Hl Hh Hx Hne. unfold hdelCommand. rewrite (bind_arg_str _ _ _ _ _ Hk).
  rewrite (prog_bind_step _ _ _ _ _ (typed_write c key (RInt 0) REDIS_HASH ho _ s HL Hl Hh Ht)), Hc.
  change (seq 2 (Z.to_nat (3 - 2))) with [2%nat]. cbn [hdel_loop]. rewrite bind_assoc, (argv_Done _ _ _ H2), bind_lift.
  rewrite bind_assoc, (prog_bind_step _ _ _ _ _ (hashTypeDelete_exact s p1 x w p2 f Hh Hf Hx)). set (s1 := set_heap _ s).
  assert (H1 : heap s1 !! ho = Some (zh (p1 ++ p2))) by (cbn; apply lookup_insert_eq).
  unfold hash_length. rewrite bind_assoc, bind_assoc, (bind_deref _ _ _ _ H1), zh_length, bind_lift.
  rewrite (proj2 (Z.eqb_neq (Z.of_nat (length (p1 ++ p2))) 0)) by (destruct (p1 ++ p2); [done|cbn; lia]).
  cbn [hdel_loop]. rewrite bind_mret. change (negb (0 + 1 =? 0)) with true. cbn [when]. rewrite bind_assoc. destruct (signal_same (cl_db c) key s1) as (s2 & E2 & S2). rewrite (prog_bind_step _ _ _ _ _ E2).
  unfold log_event, incr_dirty. run. eexists _, _. split; [reflexivity|]. eapply rewrote_after; [|eapply same_store_trans; [exact S2|]]; by split.
Qed.

End Ziplists.


End THash.
