(* ===== verification/Ziplist.v ===== *)
(** * ziplist.c: the packed list of strings and integers, on its bytes

    A ziplist is one block of bytes: a header (total size, offset of the last
    entry, number of entries), the entries, and the byte ZIP_END.  An entry
    starts with the size of the entry before it, in one byte or in five, so
    the list can be walked both ways; then come its encoding, its length and
    its content.  Inserting or deleting an entry changes the size that the
    next one records, which may make that one grow, and so on
    ([__ziplistCascadeUpdate]).

    A pointer is an offset into the block; a read or a write outside it is a
    [Fault].  TList.v and THash.v take a ziplist to be the list of its strings:
    the theorem of this file says when that is right. *)
From S2P Require Import Prelude Mem CStr Util TList THash.
Import Mem.

Module Ziplist.

Definition ZIP_END : Z := 255.
Definition ZIP_BIGLEN : Z := 254.
Definition ZIP_STR_MASK : Z := 192.
Definition ZIP_STR_06B : Z := 0.
Definition ZIP_STR_14B : Z := 64.
Definition ZIP_STR_32B : Z := 128.
Definition ZIP_INT_16B : Z := 192.
Definition ZIP_INT_32B : Z := 208.
Definition ZIP_INT_64B : Z := 224.
Definition ZIP_INT_24B : Z := 240.
Definition ZIP_INT_8B : Z := 254.
Definition ZIP_INT_IMM_MASK : Z := 15.
Definition ZIP_INT_IMM_MIN : Z := 241.
Definition ZIP_INT_IMM_MAX : Z := 253.
Definition UINT16_MAX : Z := 65535.

Definition ZIP_IS_STR (enc : Z) : bool := Z.land enc ZIP_STR_MASK <? ZIP_STR_MASK.

(** ** The header *)
Definition ZIPLIST_HEADER_SIZE : Z := 10.
Definition ZIPLIST_BYTES (zl : list Z) : outcome Z := bs ← mem_get zl 0 4; mret (le_val bs).
Definition ZIPLIST_TAIL_OFFSET (zl : list Z) : outcome Z := bs ← mem_get zl 4 4; mret (le_val bs).
Definition ZIPLIST_LENGTH (zl : list Z) : outcome Z := bs ← mem_get zl 8 2; mret (le_val bs).
Definition set_ZIPLIST_BYTES (zl : list Z) (v : Z) : outcome (list Z) := mem_put zl 0 (le_bytes 4 v).
Definition set_ZIPLIST_TAIL_OFFSET (zl : list Z) (v : Z) : outcome (list Z) := mem_put zl 4 (le_bytes 4 v).
Definition set_ZIPLIST_LENGTH (zl : list Z) (v : Z) : outcome (list Z) := mem_put zl 8 (le_bytes 2 v).
Definition ZIPLIST_ENTRY_END (zl : list Z) : outcome Z := b ← ZIPLIST_BYTES zl; mret (b - 1).

Definition ZIPLIST_INCR_LENGTH (zl : list Z) (incr : Z) : outcome (list Z) :=
  n ← ZIPLIST_LENGTH zl;
  if n <? UINT16_MAX then set_ZIPLIST_LENGTH zl (n + incr) else mret zl.

Record zlentry := mkZlentry {
  prevrawlensize : Z;
  prevrawlen : Z;
  lensize : Z;
  len : Z;
  headersize : Z;
  encoding : Z;
  e_p : Z
}.

(** ** Encodings *)
Definition ZIP_ENTRY_ENCODING (zl : list Z) (ptr : Z) : outcome Z :=
  e ← byte zl ptr; mret (if e <? ZIP_STR_MASK then Z.land e ZIP_STR_MASK else e).

Definition zipIntSize (encoding : Z) : Z :=
  if encoding =? ZIP_INT_8B then 1
  else if encoding =? ZIP_INT_16B then 2
  else if encoding =? ZIP_INT_24B then 3
  else if encoding =? ZIP_INT_32B then 4
  else if encoding =? ZIP_INT_64B then 8
  else 0.

(** The bytes that are written; with a NULL pointer the C function returns
    their number. *)
Definition zipEncodeLength (encoding rawlen : Z) : list Z :=
  if ZIP_IS_STR encoding then
    if rawlen <=? 63 then [Z.lor ZIP_STR_06B rawlen]
    else if rawlen <=? 16383 then
      [Z.lor ZIP_STR_14B (Z.land (Z.shiftr rawlen 8) 63); Z.land rawlen 255]
    else
      [ZIP_STR_32B; Z.land (Z.shiftr rawlen 24) 255; Z.land (Z.shiftr rawlen 16) 255;
       Z.land (Z.shiftr rawlen 8) 255; Z.land rawlen 255]
  else [encoding].

(** The encoding, [lensize] and [len]. *)
Definition ZIP_DECODE_LENGTH (zl : list Z) (ptr : Z) : outcome (Z * Z * Z) :=
  encoding ← ZIP_ENTRY_ENCODING zl ptr;
  if encoding <? ZIP_STR_MASK then
    if encoding =? ZIP_STR_06B then
      b ← byte zl ptr; mret (encoding, 1, Z.land b 63)
    else if encoding =? ZIP_STR_14B then
      b0 ← byte zl ptr; b1 ← byte zl (ptr + 1);
      mret (encoding, 2, Z.lor (Z.shiftl (Z.land b0 63) 8) b1)
    else if encoding =? ZIP_STR_32B then
      b1 ← byte zl (ptr + 1); b2 ← byte zl (ptr + 2);
      b3 ← byte zl (ptr + 3); b4 ← byte zl (ptr + 4);
      mret (encoding, 5, to_u 32 (Z.lor (Z.lor (Z.lor (Z.shiftl b1 24) (Z.shiftl b2 16)) (Z.shiftl b3 8)) b4))
    else Fault AssertFail
  else mret (encoding, 1, zipIntSize encoding).

Definition zipPrevEncodeLength (len : Z) : list Z :=
  if len <? ZIP_BIGLEN then [len] else ZIP_BIGLEN :: le_bytes 4 len.
Definition zipPrevEncodeLengthForceLarge (len : Z) : list Z := ZIP_BIGLEN :: le_bytes 4 len.

Definition ZIP_DECODE_PREVLENSIZE (zl : list Z) (ptr : Z) : outcome Z :=
  b ← byte zl ptr; mret (if b <? ZIP_BIGLEN then 1 else 5).

Definition ZIP_DECODE_PREVLEN (zl : list Z) (ptr : Z) : outcome (Z * Z) :=
  s ← ZIP_DECODE_PREVLENSIZE zl ptr;
  if s =? 1 then b ← byte zl ptr; mret (s, b)
  else bs ← mem_get zl (ptr + 1) 4; mret (s, le_val bs).

Definition zipPrevLenByteDiff (zl : list Z) (p len : Z) : outcome Z :=
  s ← ZIP_DECODE_PREVLENSIZE zl p; mret (size (zipPrevEncodeLength len) - s).

Definition zipRawEntryLength (zl : list Z) (p : Z) : outcome Z :=
  s ← ZIP_DECODE_PREVLENSIZE zl p;
  d ← ZIP_DECODE_LENGTH zl (p + s);
  let '(_, lensize, len) := d in mret (s + lensize + len).

(** The value and its encoding. *)
Definition zipTryEncoding (entry : sds) : option (Z * Z) :=
  if (sdslen entry >=? 32) || (sdslen entry =? 0) then None
  else
    match Util.string2ll entry with
    | Some value =>
      Some (value,
        if (value >=? 0) && (value <=? 12) then ZIP_INT_IMM_MIN + value
        else if (value >=? -128) && (value <=? 127) then ZIP_INT_8B
        else if (value >=? INT16_MIN) && (value <=? INT16_MAX) then ZIP_INT_16B
        else if (value >=? -8388608) && (value <=? 8388607) then ZIP_INT_24B
        else if (value >=? INT32_MIN) && (value <=? INT32_MAX) then ZIP_INT_32B
        else ZIP_INT_64B)
    | None => None
    end.

(** The bytes that are written.  A 24-bit integer is the upper three bytes of
    the value shifted left in an int. *)
Definition zipSaveInteger (value encoding : Z) : outcome (list Z) :=
  if encoding =? ZIP_INT_8B then mret (le_bytes 1 value)
  else if encoding =? ZIP_INT_16B then mret (le_bytes 2 value)
  else if encoding =? ZIP_INT_24B then mret (drop 1 (le_bytes 4 (Z.shiftl value 8)))
  else if encoding =? ZIP_INT_32B then mret (le_bytes 4 value)
  else if encoding =? ZIP_INT_64B then mret (le_bytes 8 value)
  else if (encoding >=? ZIP_INT_IMM_MIN) && (encoding <=? ZIP_INT_IMM_MAX) then mret []
  else Fault AssertFail.

Definition zipLoadInteger (zl : list Z) (p encoding : Z) : outcome Z :=
  if encoding =? ZIP_INT_8B then bs ← mem_get zl p 1; mret (to_s 8 (le_val bs))
  else if encoding =? ZIP_INT_16B then bs ← mem_get zl p 2; mret (to_s 16 (le_val bs))
  else if encoding =? ZIP_INT_32B then bs ← mem_get zl p 4; mret (to_s 32 (le_val bs))
  else if encoding =? ZIP_INT_24B then
    bs ← mem_get zl p 3; mret (Z.shiftr (to_s 32 (le_val (0 :: bs))) 8)
  else if encoding =? ZIP_INT_64B then bs ← mem_get zl p 8; mret (to_s 64 (le_val bs))
  else if (encoding >=? ZIP_INT_IMM_MIN) && (encoding <=? ZIP_INT_IMM_MAX) then
    mret (Z.land encoding ZIP_INT_IMM_MASK - 1)
  else Fault AssertFail.

Definition zipEntry (zl : list Z) (p : Z) : outcome zlentry :=
  a ← ZIP_DECODE_PREVLEN zl p;
  let '(prevrawlensize, prevrawlen) := a in
  d ← ZIP_DECODE_LENGTH zl (p + prevrawlensize);
  let '(encoding, lensize, len) := d in
  mret (mkZlentry prevrawlensize prevrawlen lensize len (prevrawlensize + lensize) encoding p).

(** ** The list *)
Definition ziplistNew : list Z :=
  le_bytes 4 (ZIPLIST_HEADER_SIZE + 1) ++ le_bytes 4 ZIPLIST_HEADER_SIZE ++ le_bytes 2 0 ++ [ZIP_END].

Section Fill.
(** What the bytes added by [zrealloc] hold. *)
Context (fill : nat -> Z).

(** [len] is an unsigned int. *)
Definition ziplistResize (zl : list Z) (len : Z) : outcome (list Z) :=
  let len := to_u 32 len in
  let zl := buf_resize fill zl (Z.to_nat len) in
  zl ← set_ZIPLIST_BYTES zl len;
  mem_put zl (len - 1) [ZIP_END].

(** The [while (p[0] != ZIP_END)] loop. *)
Fixpoint cascade_loop (fuel : nat) (zl : list Z) (p curlen : Z) : outcome (list Z) :=
  match fuel with
  | O => Fault OutOfFuel
  | S fuel' =>
    b ← byte zl p;
    if b =? ZIP_END then mret zl
    else
      cur ← zipEntry zl p;
      let rawlen := headersize cur + len cur in
      let rawlensize := size (zipPrevEncodeLength rawlen) in
      b ← byte zl (p + rawlen);
      if b =? ZIP_END then mret zl
      else
        next ← zipEntry zl (p + rawlen);
        if prevrawlen next =? rawlen then mret zl
        else if prevrawlensize next <? rawlensize then
          let extra := rawlensize - prevrawlensize next in
          zl ← ziplistResize zl (curlen + extra);
          let np := p + rawlen in
          t ← ZIPLIST_TAIL_OFFSET zl;
          zl ← (if negb (t =? np) then set_ZIPLIST_TAIL_OFFSET zl (t + extra) else mret zl);
          zl ← memmove zl (np + rawlensize) (np + prevrawlensize next)
                 (curlen - np - prevrawlensize next - 1);
          zl ← mem_put zl np (zipPrevEncodeLength rawlen);
          cascade_loop fuel' zl (p + rawlen) (curlen + extra)
        else if prevrawlensize next >? rawlensize then
          mem_put zl (p + rawlen) (zipPrevEncodeLengthForceLarge rawlen)
        else mem_put zl (p + rawlen) (zipPrevEncodeLength rawlen)
  end.

(** Every turn moves [p] past an entry. *)
Definition __ziplistCascadeUpdate (zl : list Z) (p : Z) : outcome (list Z) :=
  curlen ← ZIPLIST_BYTES zl;
  cascade_loop (S (Z.to_nat curlen)) zl p curlen.

(** The [for] loop over the entries to delete: the pointer after them and
    [deleted]. *)
Fixpoint skip_loop (fuel : nat) (zl : list Z) (p i num : Z) : outcome (Z * Z) :=
  match fuel with
  | O => Fault OutOfFuel
  | S fuel' =>
    b ← byte zl p;
    if negb (b =? ZIP_END) && (i <? num) then
      n ← zipRawEntryLength zl p;
      skip_loop fuel' zl (p + n) (i + 1) num
    else mret (p, i)
  end.

Definition __ziplistDelete (zl : list Z) (p num : Z) : outcome (list Z) :=
  first ← zipEntry zl p;
  r ← skip_loop (S (length zl)) zl p 0 num;
  let '(p, deleted) := r in
  let totlen := to_u 32 (p - e_p first) in
  if totlen >? 0 then
    b ← byte zl p;
    r ← (if negb (b =? ZIP_END) then
           nextdiff ← zipPrevLenByteDiff zl p (prevrawlen first);
           let p := p - nextdiff in
           zl ← mem_put zl p (zipPrevEncodeLength (prevrawlen first));
           t ← ZIPLIST_TAIL_OFFSET zl;
           zl ← set_ZIPLIST_TAIL_OFFSET zl (t - totlen);
           tail ← zipEntry zl p;
           b ← byte zl (p + headersize tail + len tail);
           zl ← (if negb (b =? ZIP_END) then
                   t ← ZIPLIST_TAIL_OFFSET zl; set_ZIPLIST_TAIL_OFFSET zl (t + nextdiff)
                 else mret zl);
           n ← ZIPLIST_BYTES zl;
           zl ← memmove zl (e_p first) p (n - p - 1);
           mret (zl, nextdiff)
         else
           zl ← set_ZIPLIST_TAIL_OFFSET zl (e_p first - prevrawlen first);
           mret (zl, 0));
    let '(zl, nextdiff) := r in
    n ← ZIPLIST_BYTES zl;
    zl ← ziplistResize zl (n - totlen + nextdiff);
    zl ← ZIPLIST_INCR_LENGTH zl (- deleted);
    if negb (nextdiff =? 0) then __ziplistCascadeUpdate zl (e_p first) else mret zl
  else mret zl.

Definition __ziplistInsert (zl : list Z) (p : Z) (s : sds) : outcome (list Z) :=
  curlen ← ZIPLIST_BYTES zl;
  b ← byte zl p;
  prevlen ← (if negb (b =? ZIP_END) then r ← ZIP_DECODE_PREVLEN zl p; mret (snd r)
             else
               ptail ← ZIPLIST_TAIL_OFFSET zl;
               b ← byte zl ptail;
               if negb (b =? ZIP_END) then zipRawEntryLength zl ptail else mret 0);
  let slen := sdslen s in
  let '(value, encoding) := default (123456789, 0) (zipTryEncoding s) in
  let reqlen := (if zipTryEncoding s then zipIntSize encoding else slen) +
                size (zipPrevEncodeLength prevlen) + size (zipEncodeLength encoding slen) in
  nextdiff ← (if negb (b =? ZIP_END) then zipPrevLenByteDiff zl p reqlen else mret 0);
  zl ← ziplistResize zl (curlen + reqlen + nextdiff);
  b ← byte zl p;
  zl ← (if negb (b =? ZIP_END) then
          zl ← memmove zl (p + reqlen) (p - nextdiff) (curlen - p - 1 + nextdiff);
          zl ← mem_put zl (p + reqlen) (zipPrevEncodeLength reqlen);
          t ← ZIPLIST_TAIL_OFFSET zl;
          zl ← set_ZIPLIST_TAIL_OFFSET zl (t + reqlen);
          tail ← zipEntry zl (p + reqlen);
          b ← byte zl (p + reqlen + headersize tail + len tail);
          if negb (b =? ZIP_END) then
            t ← ZIPLIST_TAIL_OFFSET zl; set_ZIPLIST_TAIL_OFFSET zl (t + nextdiff)
          else mret zl
        else set_ZIPLIST_TAIL_OFFSET zl p);
  zl ← (if negb (nextdiff =? 0) then __ziplistCascadeUpdate zl (p + reqlen) else mret zl);
  zl ← mem_put zl p (zipPrevEncodeLength prevlen);
  let p := p + size (zipPrevEncodeLength prevlen) in
  zl ← mem_put zl p (zipEncodeLength encoding slen);
  let p := p + size (zipEncodeLength encoding slen) in
  zl ← (if ZIP_IS_STR encoding then mem_put zl p (map code s)
        else bs ← zipSaveInteger value encoding; mem_put zl p bs);
  ZIPLIST_INCR_LENGTH zl 1.

Definition ziplistPush (zl : list Z) (s : sds) (head : bool) : outcome (list Z) :=
  p ← (if head then mret ZIPLIST_HEADER_SIZE else ZIPLIST_ENTRY_END zl);
  __ziplistInsert zl p s.

Definition ziplistInsert (zl : list Z) (p : Z) (s : sds) : outcome (list Z) := __ziplistInsert zl p s.

(** The list, and the pointer to what follows the deleted entry. *)
Definition ziplistDelete (zl : list Z) (p : Z) : outcome (list Z * Z) :=
  zl ← __ziplistDelete zl p 1; mret (zl, p).

(** [while (prevlen > 0 && index--)] *)
Fixpoint back_loop (fuel : nat) (zl : list Z) (p prevlen index : Z) : outcome (Z * Z) :=
  match fuel with
  | O => Fault OutOfFuel
  | S fuel' =>
    if prevlen >? 0 then
      if index =? 0 then mret (p, -1)
      else
        r ← ZIP_DECODE_PREVLEN zl (p - prevlen);
        back_loop fuel' zl (p - prevlen) (snd r) (index - 1)
    else mret (p, index)
  end.

(** [while (p[0] != ZIP_END && index--)] *)
Fixpoint forth_loop (fuel : nat) (zl : list Z) (p index : Z) : outcome (Z * Z) :=
  match fuel with
  | O => Fault OutOfFuel
  | S fuel' =>
    b ← byte zl p;
    if b =? ZIP_END then mret (p, index)
    else if index =? 0 then mret (p, -1)
    else n ← zipRawEntryLength zl p; forth_loop fuel' zl (p + n) (index - 1)
  end.

(** [index] is an int. *)
Definition ziplistIndex (zl : list Z) (index : Z) : outcome (option Z) :=
  r ← (if index <? 0 then
         let index := to_s 32 (- index) - 1 in
         p ← ZIPLIST_TAIL_OFFSET zl;
         b ← byte zl p;
         if negb (b =? ZIP_END) then
           r ← ZIP_DECODE_PREVLEN zl p; back_loop (S (length zl)) zl p (snd r) index
         else mret (p, index)
       else forth_loop (S (length zl)) zl ZIPLIST_HEADER_SIZE index);
  b ← byte zl (fst r);
  mret (if (b =? ZIP_END) || (snd r >? 0) then None else Some (fst r)).

Definition ziplistNext (zl : list Z) (p : Z) : outcome (option Z) :=
  b ← byte zl p;
  if b =? ZIP_END then mret None
  else
    n ← zipRawEntryLength zl p;
    b ← byte zl (p + n);
    mret (if b =? ZIP_END then None else Some (p + n)).

Definition ziplistPrev (zl : list Z) (p : Z) : outcome (option Z) :=
  b ← byte zl p;
  if b =? ZIP_END then
    t ← ZIPLIST_TAIL_OFFSET zl;
    b ← byte zl t;
    mret (if b =? ZIP_END then None else Some t)
  else if p =? ZIPLIST_HEADER_SIZE then mret None
  else
    r ← ZIP_DECODE_PREVLEN zl p;
    _ ← require_b AssertFail (snd r >? 0);
    mret (Some (p - snd r)).

(** [*sstr] with its length, or [*sval]. *)
Inductive zval := ZStr (s : sds) | ZInt (v : Z).

Definition ziplistGet (zl : list Z) (p : option Z) : outcome (option zval) :=
  match p with
  | None => mret None
  | Some p =>
    b ← byte zl p;
    if b =? ZIP_END then mret None
    else
      entry ← zipEntry zl p;
      if ZIP_IS_STR (encoding entry) then
        bs ← mem_get zl (p + headersize entry) (len entry); mret (Some (ZStr (map chr bs)))
      else
        v ← zipLoadInteger zl (p + headersize entry) (encoding entry); mret (Some (ZInt v))
  end.

(** [index] and [num] are unsigned ints. *)
Definition ziplistDeleteRange (zl : list Z) (index num : Z) : outcome (list Z) :=
  p ← ziplistIndex zl (to_s 32 index);
  match p with None => mret zl | Some p => __ziplistDelete zl p (to_u 32 num) end.

(** [len == vlen && memcmp(q, vstr, vlen) == 0] *)
Definition same_bytes (zl : list Z) (q len : Z) (vstr : sds) : outcome bool :=
  if len =? sdslen vstr then
    bs ← mem_get zl q (sdslen vstr); mret (bool_decide (bs = map code vstr))
  else mret false.

Definition ziplistCompare (zl : list Z) (p : Z) (sstr : sds) : outcome bool :=
  b ← byte zl p;
  if b =? ZIP_END then mret false
  else
    entry ← zipEntry zl p;
    if ZIP_IS_STR (encoding entry) then same_bytes zl (p + headersize entry) (len entry) sstr
    else
      match zipTryEncoding sstr with
      | Some (sval, _) =>
        zval ← zipLoadInteger zl (p + headersize entry) (encoding entry); mret (zval =? sval)
      | None => mret false
      end.

(** The [while] loop; [vencoding] caches the encoding of what is searched,
    with its value [vll]. *)
Fixpoint find_loop (fuel : nat) (zl : list Z) (p : Z) (vstr : sds) (skip skipcnt vencoding vll : Z)
    : outcome (option Z) :=
  match fuel with
  | O => Fault OutOfFuel
  | S fuel' =>
    b ← byte zl p;
    if b =? ZIP_END then mret None
    else
      s ← ZIP_DECODE_PREVLENSIZE zl p;
      d ← ZIP_DECODE_LENGTH zl (p + s);
      let '(encoding, lensize, len) := d in
      let q := p + s + lensize in
      if skipcnt =? 0 then
        r ← (if ZIP_IS_STR encoding then
               eq ← same_bytes zl q len vstr; mret (eq, vencoding, vll)
             else
               let '(vencoding, vll) :=
                 if vencoding =? 0 then
                   match zipTryEncoding vstr with Some (v, e) => (e, v) | None => (255, vll) end
                 else (vencoding, vll) in
               if vencoding =? 255 then mret (false, vencoding, vll)
               else ll ← zipLoadInteger zl q encoding; mret (ll =? vll, vencoding, vll));
        let '(found, vencoding, vll) := r in
        if (found : bool) then mret (Some p)
        else find_loop fuel' zl (q + len) vstr skip skip vencoding vll
      else find_loop fuel' zl (q + len) vstr skip (skipcnt - 1) vencoding vll
  end.

Definition ziplistFind (zl : list Z) (p : Z) (vstr : sds) (skip : Z) : outcome (option Z) :=
  find_loop (S (length zl)) zl p vstr skip 0 0 0.

Fixpoint len_loop (fuel : nat) (zl : list Z) (p n : Z) : outcome Z :=
  match fuel with
  | O => Fault OutOfFuel
  | S fuel' =>
    b ← byte zl p;
    if b =? ZIP_END then mret n
    else k ← zipRawEntryLength zl p; len_loop fuel' zl (p + k) (n + 1)
  end.

(** The list too, whose length field may be restored. *)
Definition ziplistLen (zl : list Z) : outcome (list Z * Z) :=
  n ← ZIPLIST_LENGTH zl;
  if n <? UINT16_MAX then mret (zl, n)
  else
    n ← len_loop (S (length zl)) zl ZIPLIST_HEADER_SIZE 0;
    zl ← (if n <? UINT16_MAX then set_ZIPLIST_LENGTH zl n else mret zl);
    mret (zl, n).

Definition ziplistBlobLen (zl : list Z) : outcome Z := ZIPLIST_BYTES zl.
End Fill.

(** ** The header *)
Definition hdr (b t h : Z) : list Z := le_bytes 4 b ++ le_bytes 4 t ++ le_bytes 2 h.

Lemma size_hdr b t h : size (hdr b t h) = 10.
Proof. unfold hdr. by autorewrite with zsize. Qed.
Hint Rewrite size_hdr : zsize.

Lemma bytes_hdr b t h X : 0 <= b < 2 ^ 32 -> ZIPLIST_BYTES (hdr b t h ++ X) = Done b.
Proof.
  intros. unfold ZIPLIST_BYTES. rewrite (mem_get_at _ _ _ [] (le_bytes 4 b) (le_bytes 4 t ++ le_bytes 2 h ++ X)); [|unfold hdr; assoc|done|done].
  rewrite bind_Done, le_val_small; [done|]. lia.
Qed.
Lemma tail_hdr b t h X : 0 <= t < 2 ^ 32 -> ZIPLIST_TAIL_OFFSET (hdr b t h ++ X) = Done t.
Proof.
  intros. unfold ZIPLIST_TAIL_OFFSET. rewrite (mem_get_at _ _ _ (le_bytes 4 b) (le_bytes 4 t) (le_bytes 2 h ++ X)); [|unfold hdr; assoc|done|done].
  rewrite bind_Done, le_val_small; [done|]. lia.
Qed.
Lemma length_hdr b t h X : 0 <= h < 65536 -> ZIPLIST_LENGTH (hdr b t h ++ X) = Done h.
Proof.
  intros. unfold ZIPLIST_LENGTH. rewrite (mem_get_at _ _ _ (le_bytes 4 b ++ le_bytes 4 t) (le_bytes 2 h) X); [|unfold hdr; assoc|done|done].
  rewrite bind_Done, le_val_small; [done|]. lia.
Qed.
Lemma set_bytes_hdr b t h X v : set_ZIPLIST_BYTES (hdr b t h ++ X) v = Done (hdr v t h ++ X).
Proof.
  unfold set_ZIPLIST_BYTES. rewrite (mem_put_at _ _ [] (le_bytes 4 b) _ (le_bytes 4 t ++ le_bytes 2 h ++ X)); [|unfold hdr; assoc|done|done].
  unfold hdr; f_equal; assoc.
Qed.
Lemma set_tail_hdr b t h X v : set_ZIPLIST_TAIL_OFFSET (hdr b t h ++ X) v = Done (hdr b v h ++ X).
Proof.
  unfold set_ZIPLIST_TAIL_OFFSET. rewrite (mem_put_at _ _ (le_bytes 4 b) (le_bytes 4 t) _ (le_bytes 2 h ++ X)); [|unfold hdr; assoc|done|done].
  unfold hdr; f_equal; assoc.
Qed.
Lemma set_length_hdr b t h X v : set_ZIPLIST_LENGTH (hdr b t h ++ X) v = Done (hdr b t v ++ X).
Proof.
  unfold set_ZIPLIST_LENGTH. rewrite (mem_put_at _ _ (le_bytes 4 b ++ le_bytes 4 t) (le_bytes 2 h) _ X); [|unfold hdr; assoc|done|done].
  unfold hdr; f_equal; assoc.
Qed.
#[local] Opaque hdr.

(** ** Resizing *)
Lemma resize_grow fill b t h Y k : 0 <= k -> 11 + size Y + k < 2 ^ 32 ->
  exists J, size J = k /\ (exists J', J ++ [255] = 255 :: J') /\
    ziplistResize fill (hdr b t h ++ Y ++ [255]) (11 + size Y + k) = Done (hdr (11 + size Y + k) t h ++ Y ++ J ++ [255]).
Proof.
  intros Hk Hb. pose proof (size_nonneg Y). unfold ziplistResize. rewrite to_u_small by (unfold in_u; lia).
  set (n := 11 + size Y + k).
  assert (buf_resize fill (hdr b t h ++ Y ++ [255]) (Z.to_nat n)
    = hdr b t h ++ Y ++ [255] ++ map fill (seq (length (hdr b t h ++ Y ++ [255])) (Z.to_nat k))) as ->.
  { assert (length (hdr b t h ++ Y ++ [255]) = Z.to_nat (11 + size Y)) as Hl.
    { enough (size (hdr b t h ++ Y ++ [255]) = 11 + size Y) by (unfold size in *; lia). sz. }
    unfold buf_resize. rewrite take_ge by (rewrite Hl; lia). replace (Z.to_nat n - _)%nat with (Z.to_nat k) by (rewrite Hl; lia). assoc. }
  set (F := map fill _). assert (size F = k) as HF by (unfold size, F; rewrite length_map, length_seq; lia).
  rewrite set_bytes_hdr, bind_Done.
  destruct (split_size ([255] ++ F) k) as (J & K & HJ & HsJ); [sz|]. assert (size ([255] ++ F) = size (J ++ K)) as Hs by (by rewrite HJ).
  exists J. split; [done|]. split.
  - destruct J as [|j J]; [by exists []|]. injection HJ as <- _. by exists (J ++ [255]).
  - rewrite (mem_put_at _ _ (hdr n t h ++ Y ++ J) K [255] []).
    + f_equal; assoc.
    + rewrite HJ. rewrite app_nil_r. assoc.
    + unfold n. sz.
    + sz.
Qed.

Lemma resize_shrink fill b t h Y Z1 : 1 <= size Z1 -> 11 + size Y < 2 ^ 32 ->
  ziplistResize fill (hdr b t h ++ Y ++ Z1) (11 + size Y) = Done (hdr (11 + size Y) t h ++ Y ++ [255]).
Proof.
  intros HZ Hb. pose proof (size_nonneg Y). unfold ziplistResize. rewrite to_u_small by (unfold in_u; lia).
  destruct Z1 as [|z Z1]; [rewrite size_nil in HZ; lia|].
  assert (buf_resize fill (hdr b t h ++ Y ++ z :: Z1) (Z.to_nat (11 + size Y)) = hdr b t h ++ Y ++ [z]) as ->.
  { assert (length (hdr b t h ++ Y ++ [z]) = Z.to_nat (11 + size Y)) as Hl.
    { enough (size (hdr b t h ++ Y ++ [z]) = 11 + size Y) by (unfold size in *; lia). sz. }
    unfold buf_resize. replace (hdr b t h ++ Y ++ z :: Z1) with ((hdr b t h ++ Y ++ [z]) ++ Z1) by assoc.
    rewrite take_app_length' by done. rewrite length_app, Hl. replace (_ - _)%nat with O by lia. by rewrite app_nil_r. }
  rewrite set_bytes_hdr, bind_Done. rewrite (mem_put_at _ _ (hdr (11 + size Y) t h ++ Y) [z] [255] []).
  - f_equal; assoc.
  - assoc.
  - sz.
  - sz.
Qed.


(** ** Entries: the part of an entry that depends on its string only *)
Lemma land_192 b : 0 <= b < 256 -> Z.land b 192 = 64 * (b / 64).
Proof.
  intros Hb. assert (Forall (fun n => Z.land (Z.of_nat n) 192 = 64 * (Z.of_nat n / 64)) (seq 0 256)) as H.
  { apply (bool_decide_unpack _). vm_compute. exact I. }
  rewrite Forall_forall in H. specialize (H (Z.to_nat b)). rewrite Z2Nat.id in H by lia. apply H. apply elem_of_seq. lia.
Qed.

Definition int_bytes (v e : Z) : list Z :=
  match zipSaveInteger v e with Done bs => bs | Fault _ => [] end.
Definition code_of (x : sds) : Z := match zipTryEncoding x with Some (_, e) => e | None => 0 end.
Definition payload (x : sds) : list Z :=
  match zipTryEncoding x with Some (v, e) => int_bytes v e | None => map code x end.
Definition head (x : sds) : list Z := zipEncodeLength (code_of x) (sdslen x).
Definition body (x : sds) : list Z := head x ++ payload x.

(** An integer is as long as its text is short. *)
Lemma string2ll_short x v : Util.string2ll x = Some v -> 0 < sdslen x < 32 /\ in_s 64 v.
Proof.
  intros H. pose proof (Util.text_string2ll _ _ H) as Ht. apply Util.string2ll_canonical in H as [Hc Hv]. split; [|done].
  destruct (Util.ll2string_ok (replicate 32 NUL) v Hv ltac:(done)) as (s & rest & _ & Hs & Hl).
  rewrite (Util.canonical_unique _ _ _ Hc Hs). rewrite length_app, length_replicate in Hl. cbn [length] in Hl. unfold sdslen.
  split; [|lia]. destruct Hs as (neg & c & ds & -> & _). destruct neg; cbn [length]; lia.
Qed.

Definition int_enc (v : Z) : Z :=
  if (v >=? 0) && (v <=? 12) then ZIP_INT_IMM_MIN + v
  else if (v >=? -128) && (v <=? 127) then ZIP_INT_8B
  else if (v >=? INT16_MIN) && (v <=? INT16_MAX) then ZIP_INT_16B
  else if (v >=? -8388608) && (v <=? 8388607) then ZIP_INT_24B
  else if (v >=? INT32_MIN) && (v <=? INT32_MAX) then ZIP_INT_32B
  else ZIP_INT_64B.

Lemma tryEncoding_eq x : zipTryEncoding x = (fun v => (v, int_enc v)) <$> Util.string2ll x.
Proof.
  unfold zipTryEncoding. destruct (Util.string2ll x) as [v|] eqn:E; [|by destruct (_ || _)].
  apply string2ll_short in E as [E _]. rewrite Z.geb_leb, (proj2 (Z.leb_gt _ _)), (proj2 (Z.eqb_neq _ _)) by lia. done.
Qed.

(** The six integer encodings. *)
Lemma int_enc_cases v :
  (0 <= v <= 12 /\ int_enc v = 241 + v) \/ (-128 <= v <= 127 /\ int_enc v = 254) \/ (-32768 <= v <= 32767 /\ int_enc v = 192) \/
  (-8388608 <= v <= 8388607 /\ int_enc v = 240) \/ (-2147483648 <= v <= 2147483647 /\ int_enc v = 208) \/ int_enc v = 224.
Proof.
  unfold int_enc, ZIP_INT_IMM_MIN, ZIP_INT_8B, ZIP_INT_16B, ZIP_INT_24B, ZIP_INT_32B, ZIP_INT_64B, INT16_MIN, INT16_MAX, INT32_MIN, INT32_MAX.
  rewrite !Z.geb_leb. repeat (case_if; [lia|]). lia.
Qed.

Lemma int_enc_not_str v : 192 <= int_enc v < 255 /\ ZIP_IS_STR (int_enc v) = false.
Proof.
  assert (192 <= int_enc v < 255) as H by (destruct (int_enc_cases v) as [[? ->]|[[? ->]|[[? ->]|[[? ->]|[[? ->]| ->]]]]]; lia).
  split; [done|]. unfold ZIP_IS_STR, ZIP_STR_MASK. rewrite land_192 by lia. apply Z.ltb_ge.
  assert (3 <= int_enc v / 64) by (apply Z.div_le_lower_bound; lia). lia.
Qed.

(** ** Decoding *)
Lemma head_str x : Util.string2ll x = None -> head x = zipEncodeLength 0 (sdslen x) /\ payload x = map code x.
Proof. intros H. unfold head, code_of, payload. rewrite tryEncoding_eq, H. done. Qed.
Lemma head_int x v : Util.string2ll x = Some v -> head x = [int_enc v] /\ payload x = int_bytes v (int_enc v).
Proof.
  intros H. unfold head, code_of, payload. rewrite tryEncoding_eq, H. cbn [fmap option_fmap option_map].
  unfold zipEncodeLength. by rewrite (proj2 (int_enc_not_str v)).
Qed.

Lemma int_bytes_size v : size (int_bytes v (int_enc v)) = zipIntSize (int_enc v) /\
  zipSaveInteger v (int_enc v) = Done (int_bytes v (int_enc v)).
Proof.
  destruct (int_enc_cases v) as [[? ->]|[[? ->]|[[? ->]|[[? ->]|[[? ->]| ->]]]]]; try (split; reflexivity).
  unfold int_bytes, zipSaveInteger, zipIntSize, ZIP_INT_8B, ZIP_INT_16B, ZIP_INT_24B, ZIP_INT_32B, ZIP_INT_64B, ZIP_INT_IMM_MIN, ZIP_INT_IMM_MAX.
  rewrite !(proj2 (Z.eqb_neq _ _)) by lia. rewrite Z.geb_leb, !(proj2 (Z.leb_le _ _)) by lia. done.
Qed.

(** What the decoder finds in an entry. *)
Definition dec_enc (x : sds) : Z :=
  match Util.string2ll x with
  | Some v => int_enc v
  | None => if sdslen x <=? 63 then ZIP_STR_06B else if sdslen x <=? 16383 then ZIP_STR_14B else ZIP_STR_32B
  end.

Lemma dec_enc_str x : ZIP_IS_STR (dec_enc x) = bool_decide (Util.string2ll x = None).
Proof. unfold dec_enc. destruct (Util.string2ll x); [apply int_enc_not_str|]. by repeat case_if. Qed.

Lemma entry_encoding_str zl ptr a b c : zl = a ++ b :: c -> ptr = size a -> 0 <= b < 192 ->
  ZIP_ENTRY_ENCODING zl ptr = Done (64 * (b / 64)).
Proof.
  intros. unfold ZIP_ENTRY_ENCODING. rewrite (byte_at zl ptr a b c) by done. rewrite bind_Done.
  unfold ZIP_STR_MASK. rewrite (proj2 (Z.ltb_lt _ _)), land_192 by lia. done.
Qed.


Lemma size_map_code x : size (map code x) = sdslen x.
Proof. unfold size, sdslen. by rewrite length_map. Qed.

Lemma decode_str_06 zl ptr a n c : zl = a ++ Z.lor ZIP_STR_06B n :: c -> ptr = size a -> 0 <= n <= 63 ->
  ZIP_DECODE_LENGTH zl ptr = Done (ZIP_STR_06B, 1, n).
Proof.
  unfold ZIP_STR_06B. rewrite Z.lor_0_l. intros Hz Hp Hn. unfold ZIP_DECODE_LENGTH.
  rewrite (entry_encoding_str zl ptr a n c), bind_Done by (done || lia). rewrite Z.div_small by lia. cbn -[Z.land byte].
  rewrite (byte_at zl ptr a n c), bind_Done, land_63, Z.mod_small by (done || lia). done.
Qed.

Lemma decode_str_14 zl ptr a n c :
  zl = a ++ Z.lor ZIP_STR_14B (Z.land (Z.shiftr n 8) 63) :: Z.land n 255 :: c -> ptr = size a -> 63 < n <= 16383 ->
  ZIP_DECODE_LENGTH zl ptr = Done (ZIP_STR_14B, 2, n).
Proof.
  rewrite land_63, land_255, Z.shiftr_div_pow2 by lia. change (2 ^ 8) with 256. unfold ZIP_STR_14B.
  intros Hz Hp Hn. assert (0 <= n / 256 < 64) by (split; [apply Z.div_pos; lia|apply Z.div_lt_upper_bound; lia]).
  rewrite (Z.mod_small (n / 256)) in Hz by lia. change 64 with (1 * 2 ^ 6) in Hz at 1. rewrite lor_add in Hz by lia.
  unfold ZIP_DECODE_LENGTH. rewrite (entry_encoding_str zl ptr a (1 * 2 ^ 6 + n / 256) (n mod 256 :: c)), bind_Done by (done || lia).
  replace (64 * ((1 * 2 ^ 6 + n / 256) / 64)) with 64 by (rewrite Z.div_add_l, (Z.div_small (n / 256)) by lia; lia).
  cbn -[Z.land byte Z.lor Z.shiftl Z.div Z.modulo Z.pow].
  rewrite (byte_at zl ptr a (1 * 2 ^ 6 + n / 256) (n mod 256 :: c)), bind_Done by done.
  rewrite (byte_at zl (ptr + 1) (a ++ [1 * 2 ^ 6 + n / 256]) (n mod 256) c), bind_Done by (sz || (rewrite Hz; assoc)).
  rewrite land_63, Z.add_comm, Z.mod_add, Z.mod_small, Z.shiftl_mul_pow2 by lia.
  rewrite lor_add by (pose proof (Z.mod_pos_bound n 256); lia). do 2 f_equal. change (2 ^ 8) with 256.
  rewrite (Z.div_mod n 256) at 3 by lia. lia.
Qed.

Lemma decode_str_32 zl ptr a n c :
  zl = a ++ ZIP_STR_32B :: Z.land (Z.shiftr n 24) 255 :: Z.land (Z.shiftr n 16) 255 :: Z.land (Z.shiftr n 8) 255 :: Z.land n 255 :: c ->
  ptr = size a -> 16383 < n < 2 ^ 32 -> ZIP_DECODE_LENGTH zl ptr = Done (ZIP_STR_32B, 5, n).
Proof.
  rewrite !land_255, !Z.shiftr_div_pow2 by lia. change (2 ^ 24) with 16777216. change (2 ^ 16) with 65536. change (2 ^ 8) with 256.
  unfold ZIP_STR_32B. intros Hz Hp Hn.
  set (b1 := n / 16777216 mod 256) in *. set (b2 := n / 65536 mod 256) in *. set (b3 := n / 256 mod 256) in *. set (b4 := n mod 256) in *.
  assert (n = ((b1 * 256 + b2) * 256 + b3) * 256 + b4) as Hb.
  { unfold b1, b2, b3, b4. rewrite (Z.mod_small (n / 16777216)) by (split; [apply Z.div_pos; lia|apply Z.div_lt_upper_bound; lia]).
    replace (n / 16777216) with (n / 256 / 256 / 256) by (rewrite !Z.div_div by lia; done).
    replace (n / 65536) with (n / 256 / 256) by (rewrite !Z.div_div by lia; done).
    pose proof (Z.div_mod n 256). pose proof (Z.div_mod (n / 256) 256). pose proof (Z.div_mod (n / 256 / 256) 256). lia. }
  assert (0 <= b1 < 256 /\ 0 <= b2 < 256 /\ 0 <= b3 < 256 /\ 0 <= b4 < 256) by (repeat split; apply Z.mod_pos_bound; lia).
  clearbody b1 b2 b3 b4. unfold ZIP_DECODE_LENGTH.
  rewrite (entry_encoding_str zl ptr a 128 (b1 :: b2 :: b3 :: b4 :: c)), bind_Done by (done || lia).
  change (64 * (128 / 64)) with 128. cbn -[Z.land byte Z.lor Z.shiftl Z.div Z.modulo Z.pow to_u].
  rewrite (byte_at zl (ptr + 1) (a ++ [128]) b1 (b2 :: b3 :: b4 :: c)), bind_Done by (sz || (rewrite Hz; assoc)).
  rewrite (byte_at zl (ptr + 2) (a ++ [128; b1]) b2 (b3 :: b4 :: c)), bind_Done by (sz || (rewrite Hz; assoc)).
  rewrite (byte_at zl (ptr + 3) (a ++ [128; b1; b2]) b3 (b4 :: c)), bind_Done by (sz || (rewrite Hz; assoc)).
  rewrite (byte_at zl (ptr + 4) (a ++ [128; b1; b2; b3]) b4 c), bind_Done by (sz || (rewrite Hz; assoc)).
  rewrite !Z.shiftl_mul_pow2 by lia. rewrite (lor_add b1 (b2 * 2 ^ 16) 24) by lia.
  replace (b1 * 2 ^ 24 + b2 * 2 ^ 16) with ((b1 * 256 + b2) * 2 ^ 16) by lia. rewrite (lor_add _ (b3 * 2 ^ 8) 16) by lia.
  replace ((b1 * 256 + b2) * 2 ^ 16 + b3 * 2 ^ 8) with (((b1 * 256 + b2) * 256 + b3) * 2 ^ 8) by lia. rewrite lor_add by lia.
  rewrite to_u_small by (unfold in_u; lia). do 2 f_equal. lia.
Qed.

Lemma decode_length_ok zl ptr a x c : zl = a ++ body x ++ c -> ptr = size a -> sdslen x < 2 ^ 32 ->
  ZIP_DECODE_LENGTH zl ptr = Done (dec_enc x, size (head x), size (payload x)).
Proof.
  intros Hz Hp Hl. unfold dec_enc, body in *. assert (0 <= sdslen x) by (unfold sdslen; lia).
  destruct (Util.string2ll x) as [v|] eqn:E.
  - destruct (head_int x v E) as [Hh Hy]. rewrite Hh, Hy in Hz. rewrite Hh, Hy, (proj1 (int_bytes_size v)). cbn [app] in Hz.
    destruct (int_enc_not_str v) as [Hr _]. unfold ZIP_DECODE_LENGTH, ZIP_ENTRY_ENCODING.
    rewrite (byte_at _ _ _ _ _ Hz Hp), !bind_Done. unfold ZIP_STR_MASK. rewrite (proj2 (Z.ltb_ge (int_enc v) 192)) by lia.
    cbn [mbind outcome_bind mret outcome_ret]. rewrite (proj2 (Z.ltb_ge (int_enc v) 192)) by lia. done.
  - destruct (head_str x E) as [Hh Hy]. rewrite Hh, Hy in *. rewrite size_map_code. unfold zipEncodeLength in *.
    change (ZIP_IS_STR 0) with true in *. cbn iota in *. destruct (Z.leb_spec (sdslen x) 63); [|destruct (Z.leb_spec (sdslen x) 16383)].
    + eapply decode_str_06; [exact Hz|done|lia].
    + eapply decode_str_14; [exact Hz|done|lia].
    + eapply decode_str_32; [exact Hz|done|lia].
Qed.


(** ** The layout of the entries

    An entry of the model is its string and whether the size of the entry
    before it takes five bytes.  The wide form may also hold a small size: the
    code grows the field and never shrinks it in a cascade. *)
Abbreviation zent := (bool * sds)%type (only parsing).
Definition psize (L : bool) : Z := if L then 5 else 1.
Definition pfield (L : bool) (n : Z) : list Z := if L then ZIP_BIGLEN :: le_bytes 4 n else [n].
Definition rawlen (e : zent) : Z := psize (fst e) + size (body (snd e)).
Definition big (n : Z) : bool := ZIP_BIGLEN <=? n.

Fixpoint lay (prev : Z) (es : list zent) : list Z :=
  match es with
  | [] => []
  | e :: r => pfield (fst e) prev ++ body (snd e) ++ lay (rawlen e) r
  end.

(** The one-byte fields hold what is stored in them. *)
Fixpoint fits (prev : Z) (es : list zent) : Prop :=
  match es with
  | [] => True
  | e :: r => (fst e = false -> prev < 254) /\ fits (rawlen e) r
  end.

Fixpoint total (es : list zent) : Z :=
  match es with [] => 0 | e :: r => rawlen e + total r end.
Fixpoint last_len (prev : Z) (es : list zent) : Z :=
  match es with [] => prev | e :: r => last_len (rawlen e) r end.

Lemma size_pfield L n : size (pfield L n) = psize L.
Proof. by destruct L. Qed.
Hint Rewrite size_pfield : zsize.
Lemma prevEncode_eq n : zipPrevEncodeLength n = pfield (big n) n.
Proof. unfold zipPrevEncodeLength, big, pfield, ZIP_BIGLEN. destruct (Z.ltb_spec n 254), (Z.leb_spec 254 n); (lia || done). Qed.
Lemma big_false n : big n = false -> n < 254.
Proof. unfold big, ZIP_BIGLEN. intros. zify_bool. lia. Qed.

Lemma size_head x : 1 <= size (head x).
Proof. unfold head, zipEncodeLength. repeat case_match; rewrite ?size_cons; pose proof (size_nonneg []); try sz. Qed.
Lemma rawlen_ge e : 2 <= rawlen e.
Proof. unfold rawlen, body, psize. rewrite size_app. pose proof (size_head (snd e)). pose proof (size_nonneg (payload (snd e))). destruct (fst e); lia. Qed.
Lemma sdslen_rawlen e : sdslen (snd e) < Z.max 32 (rawlen e).
Proof.
  unfold rawlen, body. rewrite size_app. pose proof (size_head (snd e)). pose proof (size_nonneg (payload (snd e))).
  assert (1 <= psize (fst e)) by (unfold psize; destruct (fst e); lia).
  destruct (Util.string2ll (snd e)) as [v|] eqn:E; [apply string2ll_short in E; lia|].
  destruct (head_str _ E) as [_ Hp]. rewrite Hp, size_map_code in *. lia.
Qed.

Lemma size_lay m es : size (lay m es) = total es.
Proof. revert m. induction es as [|e es IH]; intros m; cbn [lay total]; [done|]. autorewrite with zsize. rewrite IH. unfold rawlen. lia. Qed.
Hint Rewrite size_lay : zsize.
Lemma total_nonneg es : 0 <= total es.
Proof. induction es as [|e es IH]; cbn [total]; [lia|]. pose proof (rawlen_ge e). lia. Qed.
Lemma total_length es : 2 * Z.of_nat (length es) <= total es.
Proof. induction es as [|e es IH]; cbn [total length]; [lia|]. pose proof (rawlen_ge e). lia. Qed.
Lemma total_app es fs : total (es ++ fs) = total es + total fs.
Proof. induction es as [|e es IH]; cbn [total app]; lia. Qed.
Lemma lay_app m es fs : lay m (es ++ fs) = lay m es ++ lay (last_len m es) fs.
Proof. revert m. induction es as [|e es IH]; intros m; cbn [lay last_len app]; [done|]. rewrite IH. assoc. Qed.
Lemma fits_app m es fs : fits m (es ++ fs) <-> fits m es /\ fits (last_len m es) fs.
Proof. revert m. induction es as [|e es IH]; intros m; cbn [fits last_len app]; [tauto|]. rewrite IH. tauto. Qed.
Lemma last_len_app m es fs : last_len m (es ++ fs) = last_len (last_len m es) fs.
Proof. revert m. induction es as [|e es IH]; intros m; cbn [last_len app]; auto. Qed.
Lemma last_len_bounds m es : 0 <= m -> 0 <= last_len m es <= m + total es.
Proof. revert m. induction es as [|e es IH]; intros m Hm; cbn [last_len total]; [lia|]. pose proof (rawlen_ge e). specialize (IH (rawlen e)). lia. Qed.
Lemma last_len_total m es : es <> [] -> last_len m es <= total es.
Proof. destruct es as [|e es]; [done|]. intros _. cbn [last_len total]. pose proof (rawlen_ge e). pose proof (last_len_bounds (rawlen e) es). lia. Qed.

(** Reading the entry at a place. *)
Section Entry.
Context (zl : list Z) (p : Z) (a c : list Z) (L : bool) (n : Z).
Hypotheses (Hz : zl = a ++ pfield L n ++ c) (Hp : p = size a) (HL : L = false -> n < 254) (Hn : 0 <= n < 2 ^ 32).

Lemma entry_byte : exists b, byte zl p = Done b /\ (b =? ZIP_END) = false.
Proof using All.
  unfold pfield in Hz. destruct L.
  - exists 254. split; [|done]. by apply (byte_at zl p a 254 (le_bytes 4 n ++ c)).
  - exists n. split; [by apply (byte_at zl p a n c)|]. specialize (HL eq_refl). unfold ZIP_END. apply Z.eqb_neq. lia.
Qed.

Lemma prevlensize_ok : ZIP_DECODE_PREVLENSIZE zl p = Done (psize L).
Proof using All.
  unfold ZIP_DECODE_PREVLENSIZE, ZIP_BIGLEN, pfield in *. destruct L.
  - rewrite (byte_at zl p a 254 (le_bytes 4 n ++ c)) by done. done.
  - rewrite (byte_at zl p a n c) by done. rewrite bind_Done, (proj2 (Z.ltb_lt _ _)) by (by apply HL). done.
Qed.

Lemma prevlen_ok : ZIP_DECODE_PREVLEN zl p = Done (psize L, n).
Proof using All.
  unfold ZIP_DECODE_PREVLEN. rewrite prevlensize_ok, bind_Done. unfold pfield, psize in *. destruct L; cbn [Z.eqb Pos.eqb].
  - rewrite (mem_get_at zl (p + 1) 4 (a ++ [ZIP_BIGLEN]) (le_bytes 4 n) c); [|rewrite Hz; assoc|sz|done].
    rewrite bind_Done, le_val_small by lia. done.
  - rewrite (byte_at zl p a n c) by done. done.
Qed.
End Entry.

Section Entry2.
Context (zl : list Z) (p : Z) (a c : list Z) (L : bool) (n : Z) (x : sds).
Hypotheses (Hz : zl = a ++ pfield L n ++ body x ++ c) (Hp : p = size a) (HL : L = false -> n < 254) (Hn : 0 <= n < 2 ^ 32)
  (Hx : sdslen x < 2 ^ 32).

Lemma decode_at : ZIP_DECODE_LENGTH zl (p + psize L) = Done (dec_enc x, size (head x), size (payload x)).
Proof using Hz Hp Hx. apply (decode_length_ok _ _ (a ++ pfield L n) x c); [rewrite Hz; assoc|sz|done]. Qed.

Lemma entry_ok : zipEntry zl p = Done (mkZlentry (psize L) n (size (head x)) (size (payload x)) (psize L + size (head x)) (dec_enc x) p).
Proof using All.
  unfold zipEntry. rewrite (prevlen_ok zl p a (body x ++ c) L n), bind_Done by done. cbn iota beta.
  rewrite decode_at, bind_Done. done.
Qed.

Lemma raw_ok : zipRawEntryLength zl p = Done (rawlen (L, x)).
Proof using All.
  unfold zipRawEntryLength. rewrite (prevlensize_ok zl p a (body x ++ c) L n), bind_Done by done.
  rewrite decode_at, bind_Done. unfold rawlen, body. cbn [fst snd]. rewrite size_app, Z.add_assoc. done.
Qed.
End Entry2.


(** ** The cascade

    What it makes of the entries [r] that were laid out after an entry of size
    [m], whose size is now [n]. *)
Fixpoint fix_up (m n : Z) (r : list zent) : list zent :=
  match r with
  | [] => []
  | (L, x) :: r' =>
    if m =? n then (L, x) :: r'
    else if L || negb (big n) then (L, x) :: r'
    else (true, x) :: fix_up (rawlen (false, x)) (rawlen (true, x)) r'
  end.

Lemma fix_up_strings m n r : map snd (fix_up m n r) = map snd r.
Proof. revert m n. induction r as [|[L x] r IH]; intros m n; cbn [fix_up]; [done|]. repeat case_match; cbn [map]; rewrite ?IH; done. Qed.
Lemma fix_up_fits m n r : fits m r -> fits n (fix_up m n r).
Proof.
  revert m n. induction r as [|[L x] r IH]; intros m n; cbn [fix_up fits]; [done|]. intros [H1 H2].
  destruct (Z.eqb_spec m n) as [->|Hne]; [done|]. destruct L; cbn [orb fits fst]; [done|].
  destruct (big n) eqn:B; cbn [negb fits fst]; [|split; [intros; by apply big_false|done]]. split; [done|]. by apply IH.
Qed.
Lemma rawlen_grow x : rawlen (true, x) = rawlen (false, x) + 4.
Proof. unfold rawlen. cbn [fst snd psize]. lia. Qed.
Lemma fix_up_total m n r : total r <= total (fix_up m n r).
Proof.
  revert m n. induction r as [|[L x] r IH]; intros m n; cbn [fix_up total]; [lia|]. destruct (m =? n); [done|].
  destruct L; cbn [orb]; [done|]. destruct (big n); cbn [negb total]; [|done].
  specialize (IH (rawlen (false, x)) (rawlen (true, x))). rewrite rawlen_grow in *. lia.
Qed.
Lemma fix_up_same n r : fix_up n n r = r.
Proof. destruct r as [|[L x] r]; cbn [fix_up]; [done|]. by rewrite Z.eqb_refl. Qed.
Lemma lay_end m r c : match r with [] => lay m r ++ [ZIP_END] ++ c = ZIP_END :: c
  | e :: r' => lay m r ++ [ZIP_END] ++ c = pfield (fst e) m ++ body (snd e) ++ (lay (rawlen e) r' ++ [ZIP_END] ++ c) end.
Proof. destruct r; cbn [lay]; [done|]. assoc. Qed.

(** A turn that makes the next entry grow. *)
Lemma cascade_grow {R} (K : list Z -> outcome R) fill b t h a n x T :
  254 <= n -> size a + n + 5 + size (body x) + size T + 11 < 2 ^ 32 -> forall A m,
  size A = n -> b = 11 + size a + n + 1 + size (body x) + size T ->
  0 <= t < 2 ^ 32 -> let np := 10 + size a + n in
  (zl ← ziplistResize fill (hdr b t h ++ a ++ A ++ [m] ++ body x ++ T ++ [255]) (b + 4);
   t ← ZIPLIST_TAIL_OFFSET zl;
   zl ← (if negb (t =? np) then set_ZIPLIST_TAIL_OFFSET zl (t + 4) else mret zl);
   zl ← memmove zl (np + 5) (np + 1) (b - np - 1 - 1);
   zl ← mem_put zl np (zipPrevEncodeLength n);
   K zl)
  = K (hdr (b + 4) (if t =? np then t else t + 4) h ++ a ++ A ++ pfield true n ++ body x ++ T ++ [255]).
Proof.
  intros Hn Hs A m HA Hb Ht np. pose proof (size_nonneg a). pose proof (size_nonneg (body x)). pose proof (size_nonneg T).
  destruct (resize_grow fill b t h (a ++ A ++ [m] ++ body x ++ T) 4) as (J & HJ & _ & E); [lia|sz|].
  replace (11 + size (a ++ A ++ [m] ++ body x ++ T) + 4) with (b + 4) in E by sz.
  replace (hdr b t h ++ a ++ A ++ [m] ++ body x ++ T ++ [255]) with (hdr b t h ++ (a ++ A ++ [m] ++ body x ++ T) ++ [255]) by assoc.
  rewrite E, bind_Done. rewrite tail_hdr, bind_Done by lia. set (t' := if t =? np then t else t + 4).
  match goal with |- (?e ≫= _) = _ => replace e with (Done (hdr (b + 4) t' h ++ (a ++ A ++ [m] ++ body x ++ T) ++ J ++ [255])) end.
  2:{ unfold t'. destruct (t =? np); cbn [negb]; [done|]. by rewrite set_tail_hdr. }
  rewrite bind_Done.
  destruct (split_size ([m] ++ (body x ++ T) ++ J) 5) as (P & Q & HPQ & HP); [sz|].
  assert (size ([m] ++ (body x ++ T) ++ J) = size (P ++ Q)) as HQ by (by rewrite HPQ).
  rewrite (memmove_at _ _ _ _ (hdr (b + 4) t' h ++ a ++ A ++ [m]) (body x ++ T) (J ++ [255]) (hdr (b + 4) t' h ++ a ++ A ++ P) Q [255]);
    [|assoc|unfold np; sz|unfold np; sz| |unfold np; sz|unfold np; sz].
  2:{ transitivity (hdr (b + 4) t' h ++ a ++ A ++ ([m] ++ (body x ++ T) ++ J) ++ [255]); [assoc|]. rewrite HPQ. assoc. }
  rewrite bind_Done, prevEncode_eq. assert (big n = true) as -> by (unfold big, ZIP_BIGLEN; apply Z.leb_le; lia).
  rewrite (mem_put_at _ _ (hdr (b + 4) t' h ++ a ++ A) P (pfield true n) ((body x ++ T) ++ [255])); [|assoc|unfold np; sz|by rewrite HP].
  rewrite bind_Done. f_equal; assoc.
Qed.


Lemma last_len_cons m n e r : last_len m (e :: r) = last_len n (e :: r).
Proof. done. Qed.

Lemma done_hdr b t h X b' t' X' : b = b' -> t = t' -> X = X' -> Done (hdr b t h ++ X) = Done (hdr b' t' h ++ X').
Proof. by intros -> -> ->. Qed.

Lemma cascade_ok fill fuel : forall a L pc x m r b t h,
  (length r < fuel)%nat -> (L = false -> pc < 254) -> 0 <= pc < 2 ^ 32 -> fits m r -> 0 <= m < 2 ^ 32 ->
  let n := rawlen (L, x) in let r' := fix_up m n r in
  11 + size a + n + total r' < 2 ^ 32 -> b = 11 + size a + n + total r -> t = 10 + size a + n + total r - last_len n r ->
  cascade_loop fill fuel (hdr b t h ++ a ++ (pfield L pc ++ body x) ++ lay m r ++ [255]) (10 + size a) b
  = Done (hdr (11 + size a + n + total r') (10 + size a + n + total r' - last_len n r') h ++ a ++ (pfield L pc ++ body x) ++ lay n r' ++ [255]).
Proof.
  induction fuel as [|fuel IH]; intros a L pc x m r b t h Hf HL Hpc Hr Hm n r' Hs Hb Ht; [lia|].
  pose proof (size_nonneg a). pose proof (rawlen_ge (L, x)) as Hn2. fold n in Hn2. pose proof (total_nonneg r).
  pose proof (fix_up_total m n r) as Htot. fold r' in Htot. pose proof (sdslen_rawlen (L, x)) as Hx. cbn [snd] in Hx. fold n in Hx.
  assert (size (pfield L pc ++ body x) = n) as HA by (unfold n, rawlen; cbn [fst snd]; sz).
  cbn [cascade_loop]. set (zl := hdr b t h ++ _).
  destruct (entry_byte zl (10 + size a) (hdr b t h ++ a) (body x ++ lay m r ++ [255]) L pc) as (b0 & E0 & Hb0); [unfold zl; assoc|sz|done|done|].
  rewrite E0, bind_Done, Hb0.
  rewrite (entry_ok zl (10 + size a) (hdr b t h ++ a) (lay m r ++ [255]) L pc x), bind_Done; [|unfold zl; assoc|sz|done|done|lia].
  cbn [headersize len]. replace (psize L + size (head x) + size (payload x)) with n by (unfold n, rawlen, body; cbn [fst snd]; sz).
  destruct r as [|[L1 y] r].
  - rewrite (byte_at zl _ (hdr b t h ++ a ++ pfield L pc ++ body x) 255 []); [|unfold zl; cbn [lay]; assoc|sz]. rewrite bind_Done.
    cbn [Z.eqb Pos.eqb ZIP_END]. unfold zl, r'. rewrite Hb, Ht. done.
  - cbn [fits fst] in Hr. destruct Hr as [Hr1 Hr2]. pose proof (rawlen_ge (L1, y)) as Hy2. pose proof (total_nonneg r).
    cbn [total] in *. pose proof (sdslen_rawlen (L1, y)) as Hy. cbn [snd] in Hy.
    destruct (entry_byte zl (10 + size a + n) (hdr b t h ++ a ++ pfield L pc ++ body x) (body y ++ lay (rawlen (L1, y)) r ++ [255]) L1 m)
      as (b1 & E1 & Hb1); [unfold zl; cbn [lay fst snd]; assoc|sz|done|done|].
    rewrite E1, bind_Done, Hb1.
    rewrite (entry_ok zl (10 + size a + n) (hdr b t h ++ a ++ pfield L pc ++ body x) (lay (rawlen (L1, y)) r ++ [255]) L1 m y), bind_Done;
      [|unfold zl; cbn [lay fst snd]; assoc|sz|done|done|lia].
    cbn [prevrawlen prevrawlensize]. rewrite !prevEncode_eq, size_pfield. unfold r' in *. cbn [fix_up] in *.
    destruct (Z.eqb_spec m n) as [Hmn|Hmn]; [unfold zl; rewrite Hb, Ht, Hmn; done|].
    (* the field of the next entry is wide enough *)
    assert (forall L', L' = L1 -> mem_put zl (10 + size a + n) (pfield L' n)
      = Done (hdr (11 + size a + n + total ((L1, y) :: r)) (10 + size a + n + total ((L1, y) :: r) - last_len n ((L1, y) :: r)) h
          ++ a ++ (pfield L pc ++ body x) ++ lay n ((L1, y) :: r) ++ [255])) as Hput.
    { intros L' ->. rewrite (mem_put_at _ _ (hdr b t h ++ a ++ pfield L pc ++ body x) (pfield L1 m) _ (body y ++ lay (rawlen (L1, y)) r ++ [255]));
        [|unfold zl; cbn [lay fst snd]; assoc|sz|by rewrite !size_pfield]. cbn [total]. rewrite Hb, Ht. f_equal. cbn [lay fst snd]. assoc. }
    destruct L1; cbn [orb] in *.
    + cbn [psize]. destruct (big n) eqn:Bn; cbn [Z.ltb Z.compare Pos.compare Pos.compare_cont psize Z.gtb]; [by apply Hput|].
      change (zipPrevEncodeLengthForceLarge n) with (pfield true n). by apply Hput.
    + destruct (big n) eqn:Bn; cbn [negb psize Z.ltb Z.compare Pos.compare Pos.compare_cont Z.gtb] in *; [|by apply Hput].
      change (5 - 1) with 4. clear Hput E0 E1. replace (pfield true n) with (zipPrevEncodeLength n) by (by rewrite prevEncode_eq, Bn).
      cbn [total] in Hs. set (X := pfield L pc ++ body x) in *.
      replace zl with (hdr b t h ++ a ++ X ++ [m] ++ body y ++ lay (rawlen (false, y)) r ++ [255])
        by (unfold zl; cbn [lay fst snd pfield]; assoc).
      assert (254 <= n) as Hn by (unfold big, ZIP_BIGLEN in Bn; zify_bool; lia). pose proof (rawlen_grow y) as Hg.
      assert (rawlen (false, y) = 1 + size (body y)) as Hy1 by (unfold rawlen; cbn [fst snd psize]; lia).
      pose proof (fix_up_total (rawlen (false, y)) (rawlen (true, y)) r) as Htr.
      pose proof (last_len_bounds (rawlen (false, y)) r ltac:(lia)) as Hlb.
      rewrite (cascade_grow (fun zl => cascade_loop fill fuel zl (10 + size a + n) (b + 4)) fill b t h a n y (lay (rawlen (false, y)) r)
        Hn ltac:(sz) X m HA); [|sz|cbn [last_len] in Ht; lia].
      cbv beta. replace (10 + size a + n) with (10 + size (a ++ X)) by sz.
      replace (hdr (b + 4) _ h ++ a ++ X ++ pfield true n ++ body y ++ lay (rawlen (false, y)) r ++ [255])
        with (hdr (b + 4) (if t =? 10 + size (a ++ X) then t else t + 4) h ++ (a ++ X) ++ (pfield true n ++ body y) ++ lay (rawlen (false, y)) r ++ [255]) by assoc.
      rewrite (IH (a ++ X) true n y (rawlen (false, y)) r); [|cbn [length] in Hf; lia|done|lia|done|lia|sz|sz|].
      * unfold r'. apply done_hdr; [cbn [total]; sz| |cbn [lay fst snd]; unfold X; assoc]. cbn [total last_len].
        rewrite size_app, HA. lia.
      * rewrite size_app, HA. cbn [last_len] in Ht. destruct r as [|e r].
        -- cbn [last_len total] in *. rewrite (proj2 (Z.eqb_eq _ _)) by lia. lia.
        -- rewrite (proj2 (Z.eqb_neq _ _)); [rewrite (last_len_cons _ (rawlen (false, y))); lia|].
           pose proof (last_len_total (rawlen (false, y)) (e :: r) ltac:(done)). pose proof (rawlen_ge (false, y)). lia.
Qed.


(** ** Insertion *)

(** The block [zl] holds the entries [es].  The length field counts them, or
    is at its maximum and counts nothing. *)
Record repr (zl : list Z) (es : list zent) (h : Z) : Prop := {
  rp_bytes : zl = hdr (11 + total es) (10 + total es - last_len 0 es) h ++ lay 0 es ++ [255];
  rp_fits : fits 0 es;
  rp_size : 11 + total es < 2 ^ 32;
  rp_count : h = UINT16_MAX \/ h = Z.of_nat (length es);
  rp_h : 0 <= h < 65536
}.

(** The entries after a change of the size before them to [m]: the first one
    gets a field of just the right width, and the change spreads from there. *)
Definition relink (m : Z) (es : list zent) : list zent :=
  match es with
  | [] => []
  | (L, y) :: r => (big m, y) :: fix_up (rawlen (L, y)) (rawlen (big m, y)) r
  end.

Lemma relink_strings m es : map snd (relink m es) = map snd es.
Proof. destruct es as [|[L y] r]; cbn [relink map]; [done|]. by rewrite fix_up_strings. Qed.
Lemma relink_length m es : length (relink m es) = length es.
Proof. rewrite <- (@length_map zent sds snd (relink m es)), relink_strings. by rewrite length_map. Qed.
Lemma relink_fits m k es : fits k es -> fits m (relink m es).
Proof.
  destruct es as [|[L y] r]; cbn [relink fits fst]; [done|]. intros [_ H]. split; [apply big_false|]. by apply fix_up_fits.
Qed.

(** The insertion in terms of the parts of the entry. *)
Lemma insert_eq fill zl p s : __ziplistInsert fill zl p s =
  (curlen ← ZIPLIST_BYTES zl;
   b ← byte zl p;
   prevlen ← (if negb (b =? ZIP_END) then r ← ZIP_DECODE_PREVLEN zl p; mret (snd r)
              else
                ptail ← ZIPLIST_TAIL_OFFSET zl;
                b ← byte zl ptail;
                if negb (b =? ZIP_END) then zipRawEntryLength zl ptail else mret 0);
   let reqlen := rawlen (big prevlen, s) in
   nextdiff ← (if negb (b =? ZIP_END) then zipPrevLenByteDiff zl p reqlen else mret 0);
   zl ← ziplistResize fill zl (curlen + reqlen + nextdiff);
   b ← byte zl p;
   zl ← (if negb (b =? ZIP_END) then
           zl ← memmove zl (p + reqlen) (p - nextdiff) (curlen - p - 1 + nextdiff);
           zl ← mem_put zl (p + reqlen) (zipPrevEncodeLength reqlen);
           t ← ZIPLIST_TAIL_OFFSET zl;
           zl ← set_ZIPLIST_TAIL_OFFSET zl (t + reqlen);
           tail ← zipEntry zl (p + reqlen);
           b ← byte zl (p + reqlen + headersize tail + len tail);
           if negb (b =? ZIP_END) then
             t ← ZIPLIST_TAIL_OFFSET zl; set_ZIPLIST_TAIL_OFFSET zl (t + nextdiff)
           else mret zl
         else set_ZIPLIST_TAIL_OFFSET zl p);
   zl ← (if negb (nextdiff =? 0) then __ziplistCascadeUpdate fill zl (p + reqlen) else mret zl);
   zl ← mem_put zl p (pfield (big prevlen) prevlen);
   zl ← mem_put zl (p + psize (big prevlen)) (head s);
   zl ← mem_put zl (p + psize (big prevlen) + size (head s)) (payload s);
   ZIPLIST_INCR_LENGTH zl 1).
Proof.
  unfold __ziplistInsert. destruct (ZIPLIST_BYTES zl) as [curlen|]; [|done]. rewrite !bind_Done.
  destruct (byte zl p) as [b|]; [|done]. rewrite !bind_Done. set (E := if negb (b =? ZIP_END) then _ else _).
  destruct E as [prevlen|]; [|done]. rewrite !bind_Done. rewrite prevEncode_eq, size_pfield.
  assert (match zipTryEncoding s with Some _ => zipIntSize (snd (default (123456789, 0) (zipTryEncoding s))) | None => sdslen s end = size (payload s)) as Hp.
  { unfold payload. rewrite tryEncoding_eq. destruct (Util.string2ll s) as [v|]; cbn [fmap option_fmap option_map default snd].
    - symmetry. apply int_bytes_size.
    - by rewrite size_map_code. }
  assert (snd (default (123456789, 0) (zipTryEncoding s)) = code_of s) as Hc by (unfold code_of; by destruct (zipTryEncoding s) as [[??]|]).
  destruct (default (123456789, 0) (zipTryEncoding s)) as [v e] eqn:D. cbn [snd] in *. subst e.
  replace ((if zipTryEncoding s then zipIntSize (code_of s) else sdslen s) + psize (big prevlen) + size (zipEncodeLength (code_of s) (sdslen s)))
    with (rawlen (big prevlen, s)) by (rewrite Hp; unfold rawlen, body, head; cbn [fst snd]; rewrite size_app; lia).
  assert (forall zl p, (if ZIP_IS_STR (code_of s) then mem_put zl p (map code s) else bs ← zipSaveInteger v (code_of s); mem_put zl p bs)
    = mem_put zl p (payload s)) as Hw.
  { intros zl' p'. unfold code_of, payload in *. rewrite tryEncoding_eq in *. destruct (Util.string2ll s) as [w|]; cbn [fmap option_fmap option_map default snd] in *.
    - injection D as ->. rewrite (proj2 (int_enc_not_str v)), (proj2 (int_bytes_size v)). done.
    - done. }
  repeat (match goal with |- (?m ≫= _) = (?m ≫= _) => destruct m; [|done]; rewrite !bind_Done end).
  fold (head s). destruct (mem_put _ _ (head s)); [|done]. rewrite !bind_Done, Hw. done.
Qed.


(** The bytes from the next entry on move away, and its field is rewritten. *)
Lemma open_gap A L m B J n L' b t h dst src k :
  0 <= n -> size J = n + psize L' - psize L -> dst = 10 + size A + n -> src = 10 + size A - (psize L' - psize L) -> k = size B + psize L' ->
  exists G zl, size G = n /\
    memmove (hdr b t h ++ (A ++ pfield L m ++ B) ++ J ++ [255]) dst src k = Done zl /\
    mem_put zl dst (pfield L' n) = Done (hdr b t h ++ A ++ G ++ pfield L' n ++ B ++ [255]).
Proof.
  intros Hn HJ -> -> ->. pose proof (size_nonneg A). pose proof (size_nonneg B).
  assert (1 <= psize L <= 5 /\ 1 <= psize L' <= 5) as [HpL HpL'] by (destruct L, L'; cbn; lia).
  destruct (split_size (hdr b t h ++ A ++ pfield L m) (10 + size A + psize L - psize L')) as (P1 & P2 & HP & HP1); [sz|].
  assert (size (hdr b t h ++ A ++ pfield L m) = size (P1 ++ P2)) as HP2 by (by rewrite HP).
  destruct (split_size (pfield L m ++ B ++ J) n) as (G & V & HG & HsG); [sz|].
  assert (size (pfield L m ++ B ++ J) = size (G ++ V)) as HV by (by rewrite HG).
  assert (hdr b t h ++ (A ++ pfield L m ++ B) ++ J ++ [255] = P1 ++ (P2 ++ B) ++ J ++ [255]) as E1.
  { transitivity ((hdr b t h ++ A ++ pfield L m) ++ B ++ J ++ [255]); [assoc|]. rewrite HP. assoc. }
  assert (hdr b t h ++ (A ++ pfield L m ++ B) ++ J ++ [255] = (hdr b t h ++ A ++ G) ++ V ++ [255]) as E2.
  { transitivity (hdr b t h ++ A ++ (pfield L m ++ B ++ J) ++ [255]); [assoc|]. rewrite HG. assoc. }
  exists G, ((hdr b t h ++ A ++ G) ++ (P2 ++ B) ++ [255]). split; [done|]. split.
  - apply (memmove_at _ _ _ _ P1 (P2 ++ B) (J ++ [255]) (hdr b t h ++ A ++ G) V [255] E1); [lia|sz|exact E2|sz|sz].
  - rewrite (mem_put_at _ _ (hdr b t h ++ A ++ G) P2 (pfield L' n) (B ++ [255])); [f_equal; assoc|assoc|sz|sz].
Qed.

(** Writing the entry into the gap. *)
Lemma write_entry {R} (K : list Z -> outcome R) (H A G C : list Z) L m x p :
  size G = rawlen (L, x) -> p = size H + size A ->
  (zl ← mem_put (H ++ A ++ G ++ C) p (pfield L m); zl ← mem_put zl (p + psize L) (head x);
   zl ← mem_put zl (p + psize L + size (head x)) (payload x); K zl)
  = K (H ++ A ++ (pfield L m ++ body x) ++ C).
Proof.
  intros HG ->. pose proof (size_nonneg (head x)). pose proof (size_nonneg (payload x)).
  assert (1 <= psize L) by (destruct L; cbn; lia). unfold rawlen, body in HG. cbn [fst snd] in HG.
  destruct (split_size G (psize L)) as (G1 & G' & -> & HG1); [sz|].
  destruct (split_size G' (size (head x))) as (G2 & G3 & -> & HG2); [sz|].
  rewrite (mem_put_at _ _ (H ++ A) G1 _ (G2 ++ G3 ++ C)), bind_Done; [|assoc|sz|sz].
  rewrite (mem_put_at _ _ (H ++ A ++ pfield L m) G2 _ (G3 ++ C)), bind_Done; [|assoc|sz|sz].
  rewrite (mem_put_at _ _ (H ++ A ++ pfield L m ++ head x) G3 _ C), bind_Done; [|assoc|sz|sz].
  f_equal. unfold body. assoc.
Qed.

Lemma incr_length_ok b t h X k : 0 <= h < 65536 ->
  ZIPLIST_INCR_LENGTH (hdr b t h ++ X) k = Done (hdr b t (if h <? UINT16_MAX then h + k else h) ++ X).
Proof.
  intros. unfold ZIPLIST_INCR_LENGTH. rewrite length_hdr, bind_Done by done. destruct (h <? UINT16_MAX); [|done]. apply set_length_hdr.
Qed.

(** The size of the entry before the insertion point. *)
Lemma insert_prevlen zl es1 es2 h b :
  repr zl (es1 ++ es2) h -> byte zl (10 + total es1) = Done b ->
  (if negb (b =? ZIP_END) then r ← ZIP_DECODE_PREVLEN zl (10 + total es1); mret (snd r)
   else
     ptail ← ZIPLIST_TAIL_OFFSET zl;
     b ← byte zl ptail;
     if negb (b =? ZIP_END) then zipRawEntryLength zl ptail else mret 0) = Done (last_len 0 es1).
Proof.
  intros [-> Hf Hs _ _]. pose proof (last_len_bounds 0 (es1 ++ es2) ltac:(lia)) as Hll.
  assert (forall X, ZIPLIST_TAIL_OFFSET (hdr (11 + total (es1 ++ es2)) (10 + total (es1 ++ es2) - last_len 0 (es1 ++ es2)) h ++ X)
    = Done (10 + total (es1 ++ es2) - last_len 0 (es1 ++ es2))) as HT by (intros X; apply tail_hdr; lia).
  set (H := hdr _ _ _) in *. assert (size H = 10) as HH by apply size_hdr. clearbody H.
  rewrite lay_app, total_app in *. pose proof (total_nonneg es1). pose proof (total_nonneg es2).
  pose proof (last_len_bounds 0 es1 ltac:(lia)). apply fits_app in Hf as [Hf1 Hf2].
  destruct es2 as [|e r].
  - rewrite (byte_at _ _ (H ++ lay 0 es1) 255 []); [|cbn [lay]; assoc|sz]. intros [= <-]. cbn [Z.eqb Pos.eqb negb ZIP_END].
    rewrite HT, bind_Done. clear HT. rewrite !app_nil_r in *. cbn [lay total] in *.
    destruct es1 as [|e es1 _] using rev_ind.
    + rewrite (byte_at _ _ H 255 []); [|cbn [lay]; assoc|cbn [total last_len app]; lia]. done.
    + rewrite lay_app in *. apply fits_app in Hf1 as [Hf0 [Hf1 _]]. pose proof (last_len_bounds 0 es1 ltac:(lia)).
      pose proof (rawlen_ge e). pose proof (sdslen_rawlen e). pose proof (total_nonneg es1).
      rewrite last_len_app, !total_app in *. cbn [lay last_len total fst snd] in *.
      match goal with |- (byte ?z ?q ≫= _) = _ =>
        assert (z = (H ++ lay 0 es1) ++ pfield (fst e) (last_len 0 es1) ++ body (snd e) ++ [255]) as E by (rewrite ?app_nil_r; assoc);
        set (zl := z) in *; assert (q = size (H ++ lay 0 es1)) as Hq by sz; rewrite Hq end.
      destruct (entry_byte _ _ _ _ _ _ E eq_refl) as (b0 & E0 & Hb0); [done|lia|].
      rewrite E0, bind_Done, Hb0. cbn [negb]. rewrite (raw_ok _ _ _ _ _ _ _ E eq_refl); [|done|lia|lia]. by destruct e.
  - cbn [fits lay total] in *. destruct Hf2 as [Hf2 _]. pose proof (rawlen_ge e). pose proof (total_nonneg r).
    match goal with |- byte ?z _ = _ -> _ =>
      assert (z = (H ++ lay 0 es1) ++ pfield (fst e) (last_len 0 es1) ++ (body (snd e) ++ lay (rawlen e) r ++ [255])) as E by assoc end.
    assert (10 + total es1 = size (H ++ lay 0 es1)) as -> by sz.
    destruct (entry_byte _ _ _ _ _ _ E eq_refl) as (b0 & E0 & Hb0); [done|lia|].
    rewrite E0. intros [= <-]. rewrite Hb0. cbn [negb]. rewrite (prevlen_ok _ _ _ _ _ _ E eq_refl), bind_Done; [done|done|lia].
Qed.


(** The entry that takes the place fits in front of what follows: the block
    never becomes smaller. *)
Definition has_room (n : Z) (es : list zent) : Prop :=
  match es with [] => True | (L, _) :: _ => psize L <= n + psize (big n) end.

Definition next_count (h : Z) : Z := if h <? UINT16_MAX then h + 1 else h.

Lemma repr_built b t h es1 e es2 : fits 0 (es1 ++ e :: es2) -> 11 + total (es1 ++ e :: es2) < 2 ^ 32 ->
  (h = UINT16_MAX \/ h = Z.of_nat (length (es1 ++ e :: es2))) -> 0 <= h < 65536 ->
  b = 11 + total es1 + rawlen e + total es2 -> t = 10 + total es1 + rawlen e + total es2 - last_len (rawlen e) es2 ->
  repr (hdr b t h ++ lay 0 es1 ++ (pfield (fst e) (last_len 0 es1) ++ body (snd e)) ++ lay (rawlen e) es2 ++ [255]) (es1 ++ e :: es2) h.
Proof.
  intros Hf Hs Hc Hh -> ->. split; try done. rewrite lay_app, last_len_app, total_app. cbn [lay last_len total].
  f_equal; [f_equal; lia|assoc].
Qed.

Lemma count_next h n : (h = UINT16_MAX \/ h = Z.of_nat n) -> 0 <= h < 65536 ->
  (next_count h = UINT16_MAX \/ next_count h = Z.of_nat (S n)) /\ 0 <= next_count h < 65536.
Proof. unfold next_count, UINT16_MAX. intros. destruct (Z.ltb_spec h 65535); lia. Qed.

Lemma insert_tail_ok fill zl es x h : repr zl es h ->
  let e := (big (last_len 0 es), x) in 11 + total (es ++ [e]) < 2 ^ 32 ->
  exists zl', __ziplistInsert fill zl (10 + total es) x = Done zl' /\ repr zl' (es ++ [e]) (next_count h).
Proof.
  intros HR e Hs. rewrite insert_eq. pose proof HR as [Hz Hf Hb Hc Hh]. pose proof (last_len_bounds 0 es ltac:(lia)) as Hll.
  set (m := last_len 0 es) in *. rewrite total_app in Hs. cbn [total] in Hs. pose proof (total_nonneg es). pose proof (rawlen_ge e).
  assert (byte zl (10 + total es) = Done 255) as Hbyte.
  { rewrite Hz. apply (byte_at _ _ (hdr (11 + total es) (10 + total es - m) h ++ lay 0 es) 255 []); [assoc|sz]. }
  assert (ZIPLIST_BYTES zl = Done (11 + total es)) as -> by (rewrite Hz; apply bytes_hdr; lia). rewrite bind_Done, Hbyte, bind_Done.
  rewrite <- (app_nil_r es) in HR. rewrite (insert_prevlen zl es [] h 255 HR Hbyte), bind_Done.
  cbn [negb Z.eqb Pos.eqb ZIP_END]. rewrite bind_mret_o. fold m e.
  destruct (resize_grow fill (11 + total es) (10 + total es - m) h (lay 0 es) (rawlen e)) as (J & HJ & (J' & HJ') & E); [lia|sz|].
  rewrite size_lay in E. rewrite (Z.add_0_r (11 + total es + rawlen e)), Hz, E, bind_Done.
  rewrite (byte_at _ _ (hdr (11 + total es + rawlen e) (10 + total es - m) h ++ lay 0 es) 255 J'); [|rewrite HJ'; assoc|sz].
  rewrite bind_Done. cbn [negb Z.eqb Pos.eqb ZIP_END]. rewrite set_tail_hdr, bind_Done, bind_mret_o.
  rewrite (write_entry _ _ (lay 0 es) J [255] (big m) m x); [|done|sz]. rewrite incr_length_ok by done.
  eexists. split; [reflexivity|]. fold (next_count h). destruct (count_next h (length es) Hc Hh) as [Hc' Hh'].
  apply (repr_built _ _ _ es e []); [|rewrite total_app; cbn [total]; lia| |done|cbn [total]; lia|cbn [total last_len]; lia].
  - apply fits_app. split; [done|]. cbn. split; [|done]. apply big_false.
  - rewrite length_app. cbn [length]. by replace (length es + 1)%nat with (S (length es)) by lia.
Qed.


(** Whether there is an entry after a place. *)
Lemma after_byte zl q a m r : zl = a ++ lay m r ++ [255] -> q = size a -> fits m r -> 0 <= m < 2 ^ 32 ->
  exists b, byte zl q = Done b /\ negb (b =? ZIP_END) = match r with [] => false | _ => true end.
Proof.
  intros Hz Hq Hf Hm. destruct r as [|e r].
  - exists 255. split; [|done]. by apply (byte_at _ _ a 255 []).
  - cbn [fits lay] in *. destruct Hf as [Hf _]. rewrite <- !app_assoc in Hz.
    destruct (entry_byte _ _ _ _ _ _ Hz Hq Hf Hm) as (b & Hb & E). exists b. by rewrite E.
Qed.

(** The cascade that follows when the entry [y] has changed its size. *)
Lemma recascade fill a L L' pc y r b t h :
  (L' = false -> pc < 254) -> 0 <= pc < 2 ^ 32 -> fits (rawlen (L, y)) r ->
  let r' := fix_up (rawlen (L, y)) (rawlen (L', y)) r in
  11 + size a + rawlen (L', y) + total r' < 2 ^ 32 -> rawlen (L, y) < 2 ^ 32 ->
  b = 11 + size a + rawlen (L', y) + total r -> t = 10 + size a + rawlen (L', y) + total r - last_len (rawlen (L', y)) r ->
  let zl := hdr b t h ++ a ++ (pfield L' pc ++ body y) ++ lay (rawlen (L, y)) r ++ [255] in
  (if negb (psize L' - psize L =? 0) then __ziplistCascadeUpdate fill zl (10 + size a) else mret zl)
  = Done (hdr (11 + size a + rawlen (L', y) + total r') (10 + size a + rawlen (L', y) + total r' - last_len (rawlen (L', y)) r') h ++
      a ++ (pfield L' pc ++ body y) ++ lay (rawlen (L', y)) r' ++ [255]).
Proof.
  intros HL Hpc Hf r' Hs Hm Hb Ht zl. pose proof (rawlen_ge (L, y)). pose proof (rawlen_ge (L', y)). pose proof (size_nonneg a).
  pose proof (fix_up_total (rawlen (L, y)) (rawlen (L', y)) r) as Htot. fold r' in Htot. pose proof (total_length r).
  destruct (bool_decide (L = L')) eqn:E.
  - apply bool_decide_eq_true in E as ->. rewrite Z.sub_diag. cbn [Z.eqb negb]. unfold zl, r'. rewrite fix_up_same, Hb, Ht. done.
  - apply bool_decide_eq_false in E. assert (negb (psize L' - psize L =? 0) = true) as -> by (by destruct L, L').
    unfold __ziplistCascadeUpdate, zl. rewrite bytes_hdr, bind_Done by lia.
    apply cascade_ok; [lia|done|done|done|lia|done|done|done].
Qed.

(** The block grows, the entries from the insertion point on move, and the
    first of them records the size [n] of the entry to come. *)
Lemma shift_entries fill A L m y r n T0 h :
  (L = false -> m < 254) -> 0 <= m < 2 ^ 32 -> fits (rawlen (L, y)) r -> 2 <= n -> has_room n ((L, y) :: r) ->
  let L' := big n in let d := psize L' - psize L in let p := 10 + size A in
  let B0 := 11 + size A + rawlen (L, y) + total r in
  T0 = 10 + size A + rawlen (L, y) + total r - last_len (rawlen (L, y)) r ->
  15 + size A + n + rawlen (L', y) + total r < 2 ^ 32 -> B0 < 2 ^ 32 ->
  exists G, size G = n /\ forall R (K : list Z -> outcome R),
  (zl ← ziplistResize fill (hdr B0 T0 h ++ A ++ lay m ((L, y) :: r) ++ [255]) (B0 + n + d);
   b ← byte zl p;
   zl ← (if negb (b =? ZIP_END) then
           zl ← memmove zl (p + n) (p - d) (B0 - p - 1 + d);
           zl ← mem_put zl (p + n) (zipPrevEncodeLength n);
           t ← ZIPLIST_TAIL_OFFSET zl;
           zl ← set_ZIPLIST_TAIL_OFFSET zl (t + n);
           tail ← zipEntry zl (p + n);
           b ← byte zl (p + n + headersize tail + len tail);
           if negb (b =? ZIP_END) then
             t ← ZIPLIST_TAIL_OFFSET zl; set_ZIPLIST_TAIL_OFFSET zl (t + d)
           else mret zl
         else set_ZIPLIST_TAIL_OFFSET zl p);
   K zl)
  = K (hdr (11 + size (A ++ G) + rawlen (L', y) + total r) (10 + size (A ++ G) + rawlen (L', y) + total r - last_len (rawlen (L', y)) r) h ++
      (A ++ G) ++ (pfield L' n ++ body y) ++ lay (rawlen (L, y)) r ++ [255]).
Proof.
  intros HL Hm Hfr Hn Hroom L' d p B0 HT Hs HB0. cbn [has_room] in Hroom. fold L' in Hroom. cbn [lay fst snd].
  set (B := body y ++ lay (rawlen (L, y)) r). pose proof (size_nonneg A). pose proof (total_nonneg r).
  pose proof (rawlen_ge (L, y)). pose proof (sdslen_rawlen (L, y)) as Hy. cbn [snd] in Hy.
  assert (1 <= psize L <= 5 /\ 1 <= psize L' <= 5) as [HpL HpL'] by (destruct L, L'; cbn; lia).
  assert (rawlen (L', y) = rawlen (L, y) + d) as Hraw by (unfold d, rawlen; cbn [fst snd]; lia).
  assert (size B = rawlen (L, y) - psize L + total r) as HB by (unfold B, rawlen; cbn [fst snd]; sz).
  pose proof (last_len_bounds (rawlen (L, y)) r ltac:(lia)) as Hlr.
  destruct (resize_grow fill B0 T0 h (A ++ pfield L m ++ B) (n + d)) as (J & HJ & _ & E); [unfold d; lia|sz|].
  set (B1 := 11 + _ + (n + d)) in E. assert (B1 = 11 + size A + n + rawlen (L', y) + total r) as HB1 by (unfold B1; sz).
  destruct (open_gap A L m B J n L' B1 T0 h (p + n) (p - d) (B0 - p - 1 + d)) as (G & zl2 & HG & E1 & E2);
    [lia|unfold d in *; lia|done|done|unfold B0, p, d; lia|].
  exists G. split; [done|]. intros R K.
  replace (hdr B0 T0 h ++ A ++ (pfield L m ++ B) ++ [255]) with (hdr B0 T0 h ++ (A ++ pfield L m ++ B) ++ [255]) by assoc.
  replace (B0 + n + d) with B1 by (rewrite HB1; unfold B0; lia). rewrite E, bind_Done.
  destruct (entry_byte (hdr B1 T0 h ++ (A ++ pfield L m ++ B) ++ J ++ [255]) p (hdr B1 T0 h ++ A) (B ++ J ++ [255]) L m) as (b1 & -> & Hb1);
    [assoc|unfold p; sz|done|lia|].
  rewrite bind_Done, Hb1. cbn [negb]. rewrite E1, bind_Done, prevEncode_eq. fold L'. rewrite E2, bind_Done.
  rewrite tail_hdr, bind_Done, set_tail_hdr, bind_Done by lia. set (zl3 := hdr B1 (T0 + n) h ++ _).
  rewrite (entry_ok zl3 (p + n) (hdr B1 (T0 + n) h ++ A ++ G) (lay (rawlen (L, y)) r ++ [255]) L' n y), bind_Done;
    [|unfold zl3, B; assoc|unfold p; sz|apply big_false|lia|lia].
  cbn [headersize len].
  destruct (after_byte zl3 (p + n + (psize L' + size (head y)) + size (payload y)) (hdr B1 (T0 + n) h ++ A ++ G ++ pfield L' n ++ body y) (rawlen (L, y)) r)
    as (b2 & E3 & Hne); [unfold zl3, B; assoc|unfold p, body; sz|done|lia|].
  rewrite E3, bind_Done, Hne. unfold zl3.
  assert (forall t, t = 10 + size (A ++ G) + rawlen (L', y) + total r - last_len (rawlen (L', y)) r ->
    hdr B1 t h ++ A ++ G ++ pfield L' n ++ B ++ [255] =
    hdr (11 + size (A ++ G) + rawlen (L', y) + total r) (10 + size (A ++ G) + rawlen (L', y) + total r - last_len (rawlen (L', y)) r) h ++
      (A ++ G) ++ (pfield L' n ++ body y) ++ lay (rawlen (L, y)) r ++ [255]) as Hfin.
  { intros t ->. f_equal; [f_equal; rewrite HB1; sz|]. unfold B. assoc. }
  destruct r as [|e r].
  - rewrite bind_mret_o. f_equal. apply Hfin. rewrite HT. cbn [total last_len]. sz.
  - rewrite tail_hdr, bind_Done, set_tail_hdr, bind_Done by lia. f_equal. apply Hfin.
    rewrite HT, (last_len_cons _ (rawlen (L', y))), size_app. unfold d in *. lia.
Qed.

Lemma insert_mid_ok fill zl es1 L y r x h : repr zl (es1 ++ (L, y) :: r) h ->
  let e := (big (last_len 0 es1), x) in let es2 := relink (rawlen e) ((L, y) :: r) in
  has_room (rawlen e) ((L, y) :: r) -> 15 + total (es1 ++ e :: es2) < 2 ^ 32 ->
  exists zl', __ziplistInsert fill zl (10 + total es1) x = Done zl' /\ repr zl' (es1 ++ e :: es2) (next_count h).
Proof.
  intros HR e es2 Hroom Hs. rewrite insert_eq. pose proof HR as [Hz Hf Hb Hc Hh]. pose proof (last_len_bounds 0 es1 ltac:(lia)) as Hll.
  set (m := last_len 0 es1) in *. set (n := rawlen e) in *. unfold es2 in *. cbn [relink] in *.
  set (r' := fix_up (rawlen (L, y)) (rawlen (big n, y)) r) in *.
  pose proof (fix_up_total (rawlen (L, y)) (rawlen (big n, y)) r) as Htot. fold r' in Htot.
  rewrite total_app in Hs, Hb. cbn [total] in Hs, Hb. fold n in Hs.
  pose proof (total_nonneg es1). pose proof (total_nonneg r). pose proof (rawlen_ge e) as Hn2. fold n in Hn2.
  pose proof (rawlen_ge (L, y)) as Hy2. pose proof (rawlen_ge (big n, y)) as Hy2'.
  apply fits_app in Hf as Hf'. destruct Hf' as [Hf1 [HfL Hfr]]. fold m in HfL. cbn [fst] in HfL.
  rewrite last_len_app, lay_app, total_app in Hz. fold m in Hz. cbn [last_len total] in Hz.
  set (B0 := 11 + _) in Hz. set (T0 := _ - _) in Hz.
  destruct (after_byte zl (10 + total es1) (hdr B0 T0 h ++ lay 0 es1) m ((L, y) :: r)) as (b0 & Hb0 & Hne); [rewrite Hz; assoc|sz|by cbn|lia|].
  assert (ZIPLIST_BYTES zl = Done B0) as -> by (rewrite Hz; apply bytes_hdr; unfold B0; lia). rewrite bind_Done, Hb0, bind_Done.
  rewrite (insert_prevlen zl es1 _ h b0 HR Hb0), bind_Done, Hne. fold m e n.
  unfold zipPrevLenByteDiff. rewrite (prevlensize_ok zl (10 + total es1) (hdr B0 T0 h ++ lay 0 es1) (body y ++ lay (rawlen (L, y)) r ++ [255]) L m);
    [|rewrite Hz; cbn [lay fst snd]; assoc|sz|done|lia].
  rewrite !bind_Done, prevEncode_eq, size_pfield, <- (prevEncode_eq n).
  destruct (shift_entries fill (lay 0 es1) L m y r n T0 h) as (G & HG & E); [done|lia|done|done|done|unfold T0; sz|sz|sz|].
  replace (11 + size (lay 0 es1) + rawlen (L, y) + total r) with B0 in E by (unfold B0; sz). rewrite size_lay in E.
  rewrite <- (app_assoc _ _ [255]) in Hz. rewrite Hz, E. clear E.
  replace (10 + total es1 + n) with (10 + size (lay 0 es1 ++ G)) by sz.
  rewrite recascade, bind_Done; [|apply big_false|lia|done|fold r'; sz|lia|done|done]. fold r'.
  rewrite <- (app_assoc (lay 0 es1) G).
  rewrite (write_entry _ _ (lay 0 es1) G _ (big m) m x); [|done|sz]. rewrite incr_length_ok by done. fold (next_count h).
  destruct (count_next h _ Hc Hh) as [Hc' Hh'].
  replace ((pfield (big n) n ++ body y) ++ lay (rawlen (big n, y)) r' ++ [255]) with (lay n ((big n, y) :: r') ++ [255]) by (cbn [lay fst snd]; assoc).
  eexists. split; [reflexivity|]. apply (repr_built _ _ _ es1 e ((big n, y) :: r')).
  - apply fits_app. split; [done|]. cbn [fits fst]. split; [apply big_false|]. apply (relink_fits n m ((L, y) :: r)). by cbn.
  - rewrite total_app. cbn [total]. fold n. lia.
  - destruct Hc' as [Hc'|Hc']; [by left|right]. rewrite Hc'. f_equal.
    pose proof (relink_length n ((L, y) :: r)) as Hl. cbn [relink length] in Hl. fold r' in Hl. rewrite !length_app. cbn [length]. lia.
  - done.
  - cbn [total]. fold n. sz.
  - cbn [total last_len]. fold n. sz.
Qed.


(** ** Deletion *)
Lemma skip_loop_ok fuel zl num es2 : forall a m ds i,
  zl = a ++ lay m (ds ++ es2) ++ [255] -> fits m (ds ++ es2) -> 0 <= m < 2 ^ 32 -> total ds < 2 ^ 32 ->
  i + Z.of_nat (length ds) = num \/ (es2 = [] /\ i + Z.of_nat (length ds) <= num) -> (length ds < fuel)%nat ->
  skip_loop fuel zl (size a) i num = Done (size a + total ds, i + Z.of_nat (length ds)).
Proof.
  induction fuel as [|fuel IH]; intros a m ds i Hz Hf Hm Ht Hn Hl; [lia|]. cbn [skip_loop].
  destruct (after_byte zl (size a) a m (ds ++ es2)) as (b & -> & Hb); [done|done|done|done|]. rewrite bind_Done, Hb.
  destruct ds as [|e ds]; cbn [app total length] in *.
  - rewrite Z.add_0_r. replace ((match es2 with [] => false | _ => true end && (i <? num))%bool) with false; [by rewrite Z.add_0_r|].
    destruct es2; [done|]. symmetry. cbn. apply Z.ltb_ge. destruct Hn as [?|[? ?]]; [lia|done].
  - rewrite (proj2 (Z.ltb_lt i num)) by (destruct Hn as [?|[? ?]]; lia). cbn [andb fits lay] in *. destruct Hf as [Hf1 Hf2].
    pose proof (rawlen_ge e). pose proof (sdslen_rawlen e). pose proof (total_nonneg ds).
    rewrite (raw_ok zl (size a) a (lay (rawlen e) (ds ++ es2) ++ [255]) (fst e) m (snd e)), bind_Done; [|rewrite Hz; assoc|done|done|lia|lia].
    rewrite <- surjective_pairing.
    replace (size a + rawlen e) with (size (a ++ pfield (fst e) m ++ body (snd e))) by (unfold rawlen; sz).
    rewrite (IH _ (rawlen e) ds); [|rewrite Hz; assoc|done|lia|lia| |lia].
    + do 2 f_equal; unfold rawlen; sz.
    + destruct Hn as [?|[? ?]]; [left; lia|right; split; [done|lia]].
Qed.

(** The entry after the deleted ones records the size [m] of the one before
    them, and the rest moves down. *)
Lemma drop_entries A P L k m y r b t h :
  (L = false -> k < 254) -> 0 <= k < 2 ^ 32 -> 0 <= m < 2 ^ 32 -> fits (rawlen (L, y)) r -> (big m = true -> 5 <= size P) -> 1 <= size P ->
  let zl := hdr b t h ++ A ++ P ++ lay k ((L, y) :: r) ++ [255] in
  let L' := big m in let p := 10 + size A + size P in
  b = 11 + size A + size P + rawlen (L, y) + total r -> t = 10 + size A + size P + rawlen (L, y) + total r - last_len (rawlen (L, y)) r ->
  b < 2 ^ 32 ->
  exists R, 1 <= size R /\
  (nextdiff ← zipPrevLenByteDiff zl p m;
   let p := p - nextdiff in
   zl ← mem_put zl p (zipPrevEncodeLength m);
   t ← ZIPLIST_TAIL_OFFSET zl;
   zl ← set_ZIPLIST_TAIL_OFFSET zl (t - size P);
   tail ← zipEntry zl p;
   b ← byte zl (p + headersize tail + len tail);
   zl ← (if negb (b =? ZIP_END) then
           t ← ZIPLIST_TAIL_OFFSET zl; set_ZIPLIST_TAIL_OFFSET zl (t + nextdiff)
         else mret zl);
   n ← ZIPLIST_BYTES zl;
   zl ← memmove zl (10 + size A) p (n - p - 1);
   mret (zl, nextdiff))
  = Done (hdr b (10 + size A + rawlen (L', y) + total r - last_len (rawlen (L', y)) r) h ++
      (A ++ pfield L' m ++ body y ++ lay (rawlen (L, y)) r) ++ R, psize L' - psize L).
Proof.
  intros HL Hk Hm Hfr HP5 HP1 zl L' p Hb Ht Hbs. pose proof (size_nonneg A). pose proof (total_nonneg r). pose proof (size_nonneg (body y)).
  pose proof (rawlen_ge (L, y)). pose proof (sdslen_rawlen (L, y)) as Hy. cbn [snd] in Hy.
  assert (1 <= psize L <= 5) as HpL by (destruct L; cbn; lia). set (d := psize L' - psize L).
  assert (rawlen (L', y) = rawlen (L, y) + d) as Hraw by (unfold d, rawlen; cbn [fst snd]; lia).
  assert (psize L' <= size P) as HpL' by (destruct L' eqn:E; [by apply HP5|cbn; lia]).
  assert (1 <= psize L') as HpL1 by (destruct L'; cbn; lia).
  unfold zipPrevLenByteDiff.
  rewrite (prevlensize_ok zl p (hdr b t h ++ A ++ P) (body y ++ lay (rawlen (L, y)) r ++ [255]) L k), !bind_Done;
    [|unfold zl; cbn [lay fst snd]; assoc|unfold p; sz|done|lia].
  rewrite prevEncode_eq, size_pfield. fold L' d. cbv zeta.
  destruct (split_size (P ++ pfield L k) (size P - d)) as (P1 & P2 & HP & HsP1); [unfold d; sz|].
  assert (size (P ++ pfield L k) = size (P1 ++ P2)) as HP2 by (by rewrite HP).
  set (B := body y ++ lay (rawlen (L, y)) r).
  assert (zl = (hdr b t h ++ A ++ P1) ++ P2 ++ B ++ [255]) as Hz.
  { transitivity (hdr b t h ++ A ++ (P ++ pfield L k) ++ B ++ [255]); [unfold zl, B; cbn [lay fst snd]; assoc|]. rewrite HP. assoc. }
  rewrite (mem_put_at zl (p - d) _ P2 (pfield L' m) _ Hz), bind_Done; [|unfold p; sz|unfold d in *; sz].
  rewrite <- !(app_assoc (hdr b t h)). pose proof (last_len_bounds (rawlen (L, y)) r ltac:(lia)).
  rewrite tail_hdr, bind_Done, set_tail_hdr, bind_Done by lia. set (zl3 := hdr b (t - size P) h ++ _).
  rewrite (entry_ok zl3 (p - d) (hdr b (t - size P) h ++ A ++ P1) (lay (rawlen (L, y)) r ++ [255]) L' m y), bind_Done;
    [|unfold zl3, B; assoc|unfold p; sz|apply big_false|lia|lia].
  cbn [headersize len].
  destruct (after_byte zl3 (p - d + (psize L' + size (head y)) + size (payload y)) (hdr b (t - size P) h ++ A ++ P1 ++ pfield L' m ++ body y) (rawlen (L, y)) r)
    as (b2 & E3 & Hne); [unfold zl3, B; assoc|unfold p, body; sz|done|lia|].
  rewrite E3, bind_Done, Hne. set (t' := 10 + size A + rawlen (L', y) + total r - last_len (rawlen (L', y)) r).
  match goal with |- exists R, _ /\ (?e ≫= _) = _ => assert (e = Done (hdr b t' h ++ (A ++ P1) ++ pfield L' m ++ B ++ [255])) as -> end.
  { unfold zl3, t'. destruct r as [|e r].
    - cbn [total last_len] in *. apply done_hdr; [done|lia|done].
    - rewrite (last_len_cons _ (rawlen (L, y))). rewrite tail_hdr, bind_Done, set_tail_hdr by lia. apply done_hdr; [done|lia|done]. }
  rewrite bind_Done, bytes_hdr, bind_Done by lia.
  assert (size B = rawlen (L, y) - psize L + total r) as HB by (unfold B, rawlen; cbn [fst snd]; sz).
  destruct (split_size (P1 ++ pfield L' m ++ B) (size (pfield L' m ++ B))) as (Q & R & HQ & HsQ); [pose proof (size_nonneg P1); pose proof (size_nonneg B); sz|].
  assert (size (P1 ++ pfield L' m ++ B) = size (Q ++ R)) as HR by (by rewrite HQ).
  exists (R ++ [255]). split; [pose proof (size_nonneg R); sz|].
  rewrite (memmove_at _ _ _ _ (hdr b t' h ++ A ++ P1) (pfield L' m ++ B) [255] (hdr b t' h ++ A) Q (R ++ [255])), bind_Done;
    [|assoc|unfold p; sz|unfold p; sz| |sz|unfold p; sz].
  - unfold mret, outcome_ret. do 2 f_equal. unfold B. assoc.
  - transitivity (hdr b t' h ++ A ++ (P1 ++ pfield L' m ++ B) ++ [255]); [assoc|]. rewrite HQ. assoc.
Qed.


Definition less_count (h k : Z) : Z := if h <? UINT16_MAX then h + - k else h.

Lemma count_less h n k : (h = UINT16_MAX \/ h = Z.of_nat (n + k)) -> 0 <= h < 65536 ->
  (less_count h (Z.of_nat k) = UINT16_MAX \/ less_count h (Z.of_nat k) = Z.of_nat n) /\ 0 <= less_count h (Z.of_nat k) < 65536.
Proof. unfold less_count, UINT16_MAX. intros. destruct (Z.ltb_spec h 65535); lia. Qed.

(** The wide field that the first deleted entry had leaves room for one. *)
Lemma wide_room m ds : ds <> [] -> fits m ds -> (big m = true -> 5 <= total ds) /\ 1 <= total ds.
Proof.
  destruct ds as [|[L x] ds]; [done|]. intros _ [Hf _]. cbn [total fst] in *. pose proof (total_nonneg ds). pose proof (rawlen_ge (L, x)).
  split; [|lia]. unfold big, ZIP_BIGLEN. intros Hb. zify_bool. destruct L; [|specialize (Hf eq_refl); lia].
  unfold rawlen in *. cbn [fst snd psize] in *. pose proof (size_nonneg (body x)). lia.
Qed.

(** What the deletion finds: the first entry with the size [m] before it, the
    entries that go, and whether others follow. *)
Lemma delete_scan zl es1 ds es2 h num : repr zl (es1 ++ ds ++ es2) h -> ds <> [] ->
  Z.of_nat (length ds) = num \/ (es2 = [] /\ Z.of_nat (length ds) <= num) ->
  let p := 10 + total es1 in
  exists first, zipEntry zl p = Done first /\ e_p first = p /\ prevrawlen first = last_len 0 es1 /\
    skip_loop (S (length zl)) zl p 0 num = Done (p + total ds, Z.of_nat (length ds)) /\
    exists b, byte zl (p + total ds) = Done b /\ negb (b =? ZIP_END) = match es2 with [] => false | _ => true end.
Proof.
  intros [Hz Hf Hb Hc Hh] Hne Hnum p. set (m := last_len 0 es1) in *.
  rewrite last_len_app, !lay_app, !total_app in *. fold m in Hz. set (k := last_len m ds) in *.
  pose proof (total_nonneg es1). pose proof (total_nonneg ds). pose proof (total_nonneg es2).
  pose proof (last_len_bounds 0 es1 ltac:(lia)) as Hll. fold m in Hll. pose proof (last_len_bounds m ds ltac:(lia)) as Hlk. fold k in Hlk.
  apply fits_app in Hf as [_ Hf]. fold m in Hf. apply fits_app in Hf as Hf'. destruct Hf' as [Hfd Hf2]. fold k in Hf2.
  pose proof (total_length ds) as Hdl. set (H3 := hdr _ _ _) in Hz. assert (size H3 = 10) as HH by apply size_hdr. clearbody H3.
  assert (exists L0 x0, zipEntry zl p = Done (mkZlentry (psize L0) m (size (head x0)) (size (payload x0)) (psize L0 + size (head x0)) (dec_enc x0) p)) as (L0 & x0 & E).
  { destruct ds as [|[L0 x0] ds0]; [done|]. exists L0, x0. cbn [fits total app lay fst snd] in *. destruct Hfd as [Hfd _].
    pose proof (rawlen_ge (L0, x0)). pose proof (sdslen_rawlen (L0, x0)) as Hx0. cbn [snd] in Hx0. pose proof (total_nonneg ds0).
    apply (entry_ok _ _ (H3 ++ lay 0 es1) (lay (rawlen (L0, x0)) ds0 ++ lay k es2 ++ [255])); [rewrite Hz; assoc|unfold p; sz|done|lia|lia]. }
  eexists. split; [exact E|]. split; [done|]. split; [done|].
  assert (p = size (H3 ++ lay 0 es1)) as Hp by (unfold p; sz). split.
  - rewrite Hp. apply (skip_loop_ok _ zl num es2 _ m ds 0); [rewrite Hz, lay_app; fold k; assoc|done|lia|lia|done|].
    enough (Z.of_nat (length ds) <= size zl) by (unfold size in *; lia). rewrite Hz. sz.
  - apply (after_byte zl _ (H3 ++ lay 0 es1 ++ lay m ds) k es2); [rewrite Hz; assoc|unfold p; sz|done|lia].
Qed.

Lemma delete_tail_ok fill zl es1 ds h num : repr zl (es1 ++ ds) h -> ds <> [] -> Z.of_nat (length ds) <= num ->
  exists zl', __ziplistDelete fill zl (10 + total es1) num = Done zl' /\ repr zl' es1 (less_count h (Z.of_nat (length ds))).
Proof.
  intros HR Hne Hnum. rewrite <- (app_nil_r ds) in HR.
  destruct (delete_scan zl es1 ds [] h num HR Hne ltac:(right; split; [done|lia])) as (first & E1 & Ep & Em & E2 & b & E3 & Hb).
  rewrite app_nil_r in HR. destruct HR as [Hz Hf Hbs Hc Hh]. rewrite total_app, lay_app in *.
  apply fits_app in Hf as [Hf1 Hfd]. destruct (wide_room _ ds Hne Hfd) as [_ HP1]. pose proof (total_nonneg es1).
  pose proof (last_len_bounds 0 es1 ltac:(lia)).
  unfold __ziplistDelete. rewrite E1, bind_Done, E2, bind_Done. cbv beta iota. rewrite Ep, Em.
  replace (to_u 32 (10 + total es1 + total ds - (10 + total es1))) with (total ds) by (rewrite to_u_small; unfold in_u; lia).
  rewrite Z.gtb_ltb, (proj2 (Z.ltb_lt 0 (total ds))) by lia. rewrite E3, bind_Done, Hb, Hz, set_tail_hdr, bind_Done, bind_mret_o.
  rewrite bytes_hdr, bind_Done by lia. rewrite <- (app_assoc (lay 0 es1)).
  replace (11 + (total es1 + total ds) - total ds + 0) with (11 + size (lay 0 es1)) by sz. rewrite resize_shrink, bind_Done; [|sz|sz].
  rewrite incr_length_ok, bind_Done by done. cbn [Z.eqb negb]. eexists. split; [reflexivity|].
  destruct (count_less h (length es1) (length ds)) as [Hc' Hh']; [by rewrite length_app in Hc|done|].
  split; [|done|lia|done|done]. fold (less_count h (Z.of_nat (length ds))). by rewrite size_lay.
Qed.

Lemma delete_mid_ok fill zl es1 ds L y r h num : repr zl (es1 ++ ds ++ (L, y) :: r) h -> ds <> [] -> Z.of_nat (length ds) = num ->
  let es2 := relink (last_len 0 es1) ((L, y) :: r) in 11 + total (es1 ++ es2) < 2 ^ 32 ->
  exists zl', __ziplistDelete fill zl (10 + total es1) num = Done zl' /\
    repr zl' (es1 ++ es2) (less_count h (Z.of_nat (length ds))).
Proof.
  intros HR Hne Hnum es2 Hs.
  destruct (delete_scan zl es1 ds _ h num HR Hne ltac:(by left)) as (first & E1 & Ep & Em & E2 & b & E3 & Hb).
  destruct HR as [Hz Hf Hbs Hc Hh]. set (m := last_len 0 es1) in *. unfold es2 in *. cbn [relink] in *.
  set (r' := fix_up (rawlen (L, y)) (rawlen (big m, y)) r) in *.
  pose proof (fix_up_total (rawlen (L, y)) (rawlen (big m, y)) r) as Htot. fold r' in Htot.
  rewrite !last_len_app, !lay_app, !total_app in *. fold m in Hz. set (k := last_len m ds) in *. cbn [total last_len] in *.
  apply fits_app in Hf as [Hf1 Hf]. fold m in Hf. apply fits_app in Hf as [Hfd [HfL Hfr]]. fold k in HfL. cbn [fst] in HfL.
  destruct (wide_room _ ds Hne Hfd) as [HP5 HP1]. pose proof (total_nonneg es1). pose proof (total_nonneg r).
  pose proof (last_len_bounds 0 es1 ltac:(lia)) as Hll. fold m in Hll. pose proof (last_len_bounds m ds ltac:(lia)) as Hlk. fold k in Hlk.
  assert (k <= total ds) as Hkd by (by apply last_len_total). pose proof (rawlen_ge (L, y)). pose proof (rawlen_ge (big m, y)).
  unfold __ziplistDelete. rewrite E1, bind_Done, E2, bind_Done. cbv beta iota. rewrite Ep, Em.
  replace (to_u 32 (10 + total es1 + total ds - (10 + total es1))) with (total ds) by (rewrite to_u_small; unfold in_u; lia).
  rewrite Z.gtb_ltb, (proj2 (Z.ltb_lt 0 (total ds))) by lia. rewrite E3, bind_Done, Hb, Hz. fold m.
  set (B0 := 11 + _). set (T0 := 10 + _ - _).
  destruct (drop_entries (lay 0 es1) (lay m ds) L k m y r B0 T0 h) as (R & HR & E);
    [done|lia|lia|done|by rewrite size_lay|by rewrite size_lay|unfold B0; sz|unfold T0; sz|unfold B0; lia|].
  rewrite !size_lay in E. cbv zeta in E.
  replace (hdr B0 T0 h ++ (lay 0 es1 ++ lay m ds ++ lay k ((L, y) :: r)) ++ [255])
    with (hdr B0 T0 h ++ lay 0 es1 ++ lay m ds ++ lay k ((L, y) :: r) ++ [255]) by assoc.
  rewrite E, bind_Done. clear E. cbv beta iota. rewrite bytes_hdr, bind_Done by (unfold B0; lia).
  set (Y := lay 0 es1 ++ pfield (big m) m ++ body y ++ lay (rawlen (L, y)) r).
  replace (B0 - total ds + (psize (big m) - psize L)) with (11 + size Y) by (unfold B0, Y, rawlen; cbn [fst snd]; sz).
  assert (size Y = total es1 + rawlen (big m, y) + total r) as HY by (unfold Y, rawlen; cbn [fst snd]; sz).
  rewrite resize_shrink, bind_Done by lia. rewrite incr_length_ok, bind_Done by done. fold (less_count h (Z.of_nat (length ds))).
  destruct (count_less h (length es1 + S (length r)) (length ds)) as [Hc' Hh'];
    [rewrite !length_app in Hc; cbn [length] in Hc; destruct Hc; [by left|right; lia]|done|].
  set (h' := less_count h _) in *. cbn [negb].
  replace (hdr (11 + size Y) (10 + total es1 + rawlen (big m, y) + total r - last_len (rawlen (big m, y)) r) h' ++ Y ++ [255])
    with (hdr (11 + size (lay 0 es1) + rawlen (big m, y) + total r) (10 + size (lay 0 es1) + rawlen (big m, y) + total r - last_len (rawlen (big m, y)) r) h'
      ++ lay 0 es1 ++ (pfield (big m) m ++ body y) ++ lay (rawlen (L, y)) r ++ [255])
    by (rewrite size_lay, HY; f_equal; [f_equal; lia|unfold Y; assoc]).
  replace (10 + total es1) with (10 + size (lay 0 es1)) by sz.
  rewrite recascade; [|apply big_false|lia|done|fold r'; sz|lia|done|done]. fold r'.
  eexists. split; [reflexivity|]. rewrite size_lay. apply (repr_built _ _ _ es1 (big m, y) r').
  - apply fits_app. split; [done|]. apply (relink_fits m k ((L, y) :: r)). by cbn.
  - rewrite total_app. cbn [total]. lia.
  - replace (length (es1 ++ (big m, y) :: r')) with (length es1 + S (length r))%nat; [done|].
    pose proof (relink_length m ((L, y) :: r)) as Hl. cbn [relink length] in Hl. fold r' in Hl. rewrite length_app. cbn [length]. lia.
  - done.
  - lia.
  - lia.
Qed.


(** ** Reading *)
Lemma load_wide zl p a w n v c : zl = a ++ le_bytes n v ++ c -> p = size a -> w = 8 * Z.of_nat n -> 0 < w -> in_s w v ->
  (bs ← mem_get zl p (Z.of_nat n); mret (to_s w (le_val bs))) = Done v.
Proof.
  intros Hz Hp Hw Hw0 Hv. rewrite (mem_get_at _ _ _ _ _ _ Hz Hp), bind_Done by (by rewrite size_le_bytes). unfold mret, outcome_ret. f_equal.
  rewrite le_val_bytes. replace (256 ^ Z.of_nat n) with (2 ^ w) by (rewrite Hw, Z.pow_mul_r by lia; done).
  rewrite to_s_mod by done. by apply to_s_small.
Qed.

Lemma load_24 zl p a v c : zl = a ++ drop 1 (le_bytes 4 (Z.shiftl v 8)) ++ c -> p = size a -> -8388608 <= v <= 8388607 ->
  (bs ← mem_get zl p 3; mret (Z.shiftr (to_s 32 (le_val (0 :: bs))) 8)) = Done v.
Proof.
  intros Hz Hp Hv. rewrite (mem_get_at _ _ _ _ _ _ Hz Hp), bind_Done by done. unfold mret, outcome_ret. f_equal.
  rewrite Z.shiftl_mul_pow2 by lia. change (2 ^ 8) with 256. cbn [le_bytes drop].
  rewrite !Z.div_mul by lia.
  assert (le_val (0 :: v mod 256 :: v / 256 mod 256 :: [v / 256 / 256 mod 256]) = (v * 256) mod 2 ^ 32) as Hlv.
  { change (2 ^ 32) with (256 ^ Z.of_nat 4). rewrite <- le_val_bytes. cbn [le_bytes]. rewrite Z.mod_mul, !Z.div_mul by lia. done. }
  rewrite Hlv, to_s_mod, to_s_small, Z.shiftr_div_pow2, Z.div_mul by (unfold in_s; lia). done.
Qed.

Lemma load_integer zl p a v c : zl = a ++ int_bytes v (int_enc v) ++ c -> p = size a -> in_s 64 v ->
  zipLoadInteger zl p (int_enc v) = Done v.
Proof.
  intros Hz Hp Hv. destruct (int_enc_cases v) as [[Hr He]|[[Hr He]|[[Hr He]|[[Hr He]|[[Hr He]|He]]]]]; rewrite He in *.
  - unfold zipLoadInteger, ZIP_INT_8B, ZIP_INT_16B, ZIP_INT_24B, ZIP_INT_32B, ZIP_INT_64B, ZIP_INT_IMM_MIN, ZIP_INT_IMM_MAX, ZIP_INT_IMM_MASK.
    rewrite !(proj2 (Z.eqb_neq _ _)) by lia. rewrite Z.geb_leb, !(proj2 (Z.leb_le _ _)) by lia. cbn [andb].
    change 15 with (Z.ones 4). rewrite Z.land_ones by lia. unfold mret, outcome_ret. f_equal. replace (241 + v) with (1 + v + 15 * 2 ^ 4) by lia.
    rewrite Z.mod_add, Z.mod_small by lia. lia.
  - apply (load_wide zl p a 8 1 v c); [exact Hz|done|done|done|unfold in_s; lia].
  - apply (load_wide zl p a 16 2 v c); [exact Hz|done|done|done|unfold in_s; lia].
  - apply (load_24 zl p a v c); [exact Hz|done|lia].
  - apply (load_wide zl p a 32 4 v c); [exact Hz|done|done|done|unfold in_s; lia].
  - apply (load_wide zl p a 64 8 v c); [exact Hz|done|done|done|done].
Qed.

(** What TList.v and THash.v read from an entry. *)
Definition zget (x : sds) : zval := match Util.string2ll x with Some v => ZInt v | None => ZStr x end.

Lemma chr_codes x : map chr (map code x) = x.
Proof. rewrite map_map. rewrite <- (map_id x) at 2. apply map_ext. apply chr_code. Qed.
Lemma codes_inj x y : map code x = map code y -> x = y.
Proof. intros H. rewrite <- (chr_codes x), <- (chr_codes y). by rewrite H. Qed.

(** The block around an entry. *)
Record around (zl : list Z) (p : Z) (a : list Z) (m : Z) (e : zent) (r : list zent) : Prop := {
  ar_zl : zl = a ++ pfield (fst e) m ++ body (snd e) ++ lay (rawlen e) r ++ [255];
  ar_p : p = size a;
  ar_fits : fst e = false -> m < 254;
  ar_m : 0 <= m < 2 ^ 32;
  ar_str : sdslen (snd e) < 2 ^ 32;
  ar_next : fits (rawlen e) r;
  ar_len : 0 <= rawlen e < 2 ^ 32
}.

Lemma repr_around zl es1 e es2 h : repr zl (es1 ++ e :: es2) h ->
  exists a, around zl (10 + total es1) a (last_len 0 es1) e es2.
Proof.
  intros [Hz Hf Hb _ _]. rewrite lay_app, total_app in *. cbn [lay total] in *. apply fits_app in Hf as [Hf1 [Hfe Hf2]].
  pose proof (total_nonneg es1). pose proof (total_nonneg es2). pose proof (rawlen_ge e). pose proof (sdslen_rawlen e).
  pose proof (last_len_bounds 0 es1 ltac:(lia)). set (HD := hdr _ _ _) in Hz.
  exists (HD ++ lay 0 es1). split; [rewrite Hz; assoc|unfold HD; sz|done|lia|lia|done|lia].
Qed.

Section Around.
Context (zl : list Z) (p : Z) (a : list Z) (m : Z) (e : zent) (r : list zent).
Hypothesis HA : around zl p a m e r.

Lemma around_byte : exists b, byte zl p = Done b /\ (b =? ZIP_END) = false.
Proof using HA. destruct HA. by apply (entry_byte zl p a (body (snd e) ++ lay (rawlen e) r ++ [255]) (fst e) m). Qed.
Lemma around_entry : zipEntry zl p = Done (mkZlentry (psize (fst e)) m (size (head (snd e))) (size (payload (snd e)))
  (psize (fst e) + size (head (snd e))) (dec_enc (snd e)) p).
Proof using HA. destruct HA. by apply (entry_ok zl p a (lay (rawlen e) r ++ [255])). Qed.
Lemma around_raw : zipRawEntryLength zl p = Done (rawlen e).
Proof using HA. destruct HA. rewrite (raw_ok zl p a (lay (rawlen e) r ++ [255]) (fst e) m (snd e)); [by destruct e|done..]. Qed.
Lemma around_prev : ZIP_DECODE_PREVLEN zl p = Done (psize (fst e), m).
Proof using HA. destruct HA. by apply (prevlen_ok zl p a (body (snd e) ++ lay (rawlen e) r ++ [255])). Qed.
Lemma around_next_byte : exists b, byte zl (p + rawlen e) = Done b /\ negb (b =? ZIP_END) = match r with [] => false | _ => true end.
Proof using HA.
  destruct HA as [Hz Hp ? ? ? ? ?]. apply (after_byte zl _ (a ++ pfield (fst e) m ++ body (snd e)) (rawlen e) r); [rewrite Hz; assoc|unfold rawlen; sz|done|done].
Qed.
Lemma around_payload : zl = (a ++ pfield (fst e) m ++ head (snd e)) ++ payload (snd e) ++ lay (rawlen e) r ++ [255] /\
  size (a ++ pfield (fst e) m ++ head (snd e)) = p + (psize (fst e) + size (head (snd e))).
Proof using HA. destruct HA as [Hz Hp ? ? ? ? ?]. split; [rewrite Hz; unfold body; assoc|sz]. Qed.

Lemma next_ok : ziplistNext zl p = Done (match r with [] => None | _ => Some (p + rawlen e) end).
Proof using HA.
  unfold ziplistNext. destruct around_byte as (b & -> & Hb). rewrite bind_Done, Hb, around_raw, bind_Done.
  destruct around_next_byte as (b' & -> & Hb'). rewrite bind_Done. destruct r; destruct (b' =? ZIP_END); done.
Qed.

Lemma get_ok : ziplistGet zl (Some p) = Done (Some (zget (snd e))).
Proof using HA.
  unfold ziplistGet. destruct around_byte as (b & -> & Hb). rewrite bind_Done, Hb, around_entry, bind_Done. cbn [encoding headersize len].
  destruct around_payload as [Hz Hs]. rewrite dec_enc_str. unfold zget, dec_enc. destruct (Util.string2ll (snd e)) as [v|] eqn:E.
  - rewrite bool_decide_eq_false_2 by done. destruct (head_int _ _ E) as [_ Hy]. rewrite Hy in Hz.
    rewrite (load_integer _ _ _ v _ Hz); [done|done|by destruct (string2ll_short _ _ E)].
  - rewrite bool_decide_eq_true_2 by done. destruct (head_str _ E) as [_ Hy]. rewrite Hy in *.
    rewrite (mem_get_at _ _ _ _ _ _ Hz), bind_Done, chr_codes by done. done.
Qed.

(** The comparisons of ziplistCompare and ziplistFind. *)
Lemma same_bytes_ok s : Util.string2ll (snd e) = None ->
  same_bytes zl (p + (psize (fst e) + size (head (snd e)))) (size (payload (snd e))) s = Done (bool_decide (snd e = s)).
Proof using HA.
  intros E. destruct around_payload as [Hz Hs]. destruct (head_str _ E) as [_ Hy]. rewrite Hy in *. unfold same_bytes. rewrite size_map_code.
  destruct (Z.eqb_spec (sdslen (snd e)) (sdslen s)) as [Hl|Hl].
  - rewrite (mem_get_at _ _ _ _ _ _ Hz), bind_Done; [|done|by rewrite size_map_code]. unfold mret, outcome_ret. f_equal.
    apply bool_decide_ext. split; [apply codes_inj|by intros ->].
  - rewrite bool_decide_eq_false_2; [done|]. intros He. by rewrite He in Hl.
Qed.
Lemma load_ok v : Util.string2ll (snd e) = Some v ->
  zipLoadInteger zl (p + (psize (fst e) + size (head (snd e)))) (dec_enc (snd e)) = Done v.
Proof using HA.
  intros E. destruct around_payload as [Hz Hs]. destruct (head_int _ _ E) as [_ Hy]. rewrite Hy in *. unfold dec_enc. rewrite E.
  apply (load_integer _ _ _ v _ Hz); [done|by destruct (string2ll_short _ _ E)].
Qed.

Lemma compare_ok s : ziplistCompare zl p s = Done (bool_decide (snd e = s)).
Proof using HA.
  unfold ziplistCompare. destruct around_byte as (b & -> & Hb). rewrite bind_Done, Hb, around_entry, bind_Done. cbn [encoding headersize len].
  rewrite dec_enc_str. destruct (Util.string2ll (snd e)) as [v|] eqn:E.
  - rewrite bool_decide_eq_false_2 by done. rewrite tryEncoding_eq. destruct (Util.string2ll s) as [w|] eqn:Es; cbn [fmap option_fmap option_map].
    + rewrite (load_ok v E), bind_Done. unfold mret, outcome_ret. f_equal. destruct (Z.eqb_spec v w) as [->|Hvw].
      * symmetry. apply bool_decide_eq_true. by rewrite <- (Util.text_string2ll _ _ E), <- (Util.text_string2ll _ _ Es).
      * symmetry. apply bool_decide_eq_false. congruence.
    + rewrite bool_decide_eq_false_2; [done|congruence].
  - rewrite bool_decide_eq_true_2 by done. by apply same_bytes_ok.
Qed.
End Around.


(** *** Walking *)
(** The offset of the entry of index [j]. *)
Definition pos (es : list zent) (j : nat) : Z := 10 + total (take j es).

Lemma pos_mid es1 es2 : pos (es1 ++ es2) (length es1) = 10 + total es1.
Proof. unfold pos. by rewrite take_app_length. Qed.

Lemma repr_end zl es h : repr zl es h -> byte zl (10 + total es) = Done 255.
Proof. intros [Hz _ _ _ _]. apply (byte_at _ _ (hdr (11 + total es) (10 + total es - last_len 0 es) h ++ lay 0 es) 255 []); [rewrite Hz; assoc|sz]. Qed.

Lemma repr_length zl es h : repr zl es h -> (length es < length zl)%nat.
Proof. intros [Hz _ _ _ _]. pose proof (total_length es). enough (Z.of_nat (length es) < size zl) by (unfold size in *; lia). rewrite Hz. sz. Qed.

Lemma forth_loop_ok zl h fuel : forall es1 es2 i, repr zl (es1 ++ es2) h -> 0 <= i -> (length es2 < fuel)%nat ->
  forth_loop fuel zl (10 + total es1) i
  = Done (if i <? Z.of_nat (length es2) then (pos (es1 ++ es2) (length es1 + Z.to_nat i), -1)
          else (10 + total (es1 ++ es2), i - Z.of_nat (length es2))).
Proof.
  induction fuel as [|fuel IH]; intros es1 es2 i HR Hi Hl; [lia|]. cbn [forth_loop]. destruct es2 as [|e r].
  - rewrite app_nil_r in *. rewrite (repr_end _ _ _ HR), bind_Done. rewrite (proj2 (Z.ltb_ge _ _)) by (cbn; lia).
    cbn. by rewrite Z.sub_0_r.
  - destruct (repr_around _ _ _ _ _ HR) as (a & HA). destruct (around_byte _ _ _ _ _ _ HA) as (b & -> & Hb). rewrite bind_Done, Hb.
    cbn [length] in *. destruct (Z.eqb_spec i 0) as [->|Hi0].
    + rewrite (proj2 (Z.ltb_lt _ _)) by lia. rewrite Nat.add_0_r, pos_mid. done.
    + rewrite (around_raw _ _ _ _ _ _ HA), bind_Done. rewrite cons_middle, app_assoc in HR.
      replace (10 + total es1 + rawlen e) with (10 + total (es1 ++ [e])) by (rewrite total_app; cbn [total]; lia).
      rewrite (IH _ _ _ HR) by lia. rewrite <- app_assoc. cbn [app].
      destruct (Z.ltb_spec (i - 1) (Z.of_nat (length r))), (Z.ltb_spec i (Z.of_nat (S (length r)))); try lia.
      * do 3 f_equal. rewrite length_app. cbn [length]. lia.
      * do 2 f_equal. lia.
Qed.

Lemma back_loop_ok zl h fuel : forall es1 e r k, repr zl (es1 ++ e :: r) h -> 0 <= k -> (length es1 < fuel)%nat ->
  back_loop fuel zl (10 + total es1) (last_len 0 es1) k
  = Done (if k <? Z.of_nat (length es1) then (pos (es1 ++ e :: r) (length es1 - Z.to_nat k), -1) else (10, k - Z.of_nat (length es1))).
Proof.
  induction fuel as [|fuel IH]; intros es1 e r k HR Hk Hl; [lia|]. cbn [back_loop].
  destruct es1 as [|e0 es0 _] using rev_ind.
  - cbn [last_len total]. rewrite (proj2 (Z.ltb_ge k _)) by (cbn; lia). cbn. by rewrite Z.sub_0_r.
  - rewrite last_len_app, total_app. cbn [last_len total]. pose proof (rawlen_ge e0). rewrite Z.gtb_ltb, (proj2 (Z.ltb_lt _ _)) by lia.
    rewrite length_app. cbn [length]. destruct (Z.eqb_spec k 0) as [->|Hk0].
    + rewrite (proj2 (Z.ltb_lt _ _)) by lia. rewrite Nat.sub_0_r.
      pose proof (pos_mid (es0 ++ [e0]) (e :: r)) as Hp. rewrite length_app, total_app in Hp. cbn [length total] in Hp. by rewrite Hp.
    + rewrite <- app_assoc in *. cbn [app] in *. replace (10 + (total es0 + (rawlen e0 + 0)) - rawlen e0) with (10 + total es0) by lia.
      destruct (repr_around _ _ _ _ _ HR) as (a & HA). rewrite (around_prev _ _ _ _ _ _ HA), bind_Done. cbn [snd].
      rewrite (IH _ _ _ _ HR); [|lia|rewrite length_app in Hl; cbn [length] in Hl; lia].
      destruct (Z.ltb_spec (k - 1) (Z.of_nat (length es0))), (Z.ltb_spec k (Z.of_nat (length es0 + 1))); try lia.
      * do 3 f_equal. lia.
      * do 2 f_equal. lia.
Qed.

Lemma pos_byte zl es h j : repr zl es h -> (j < length es)%nat -> exists b, byte zl (pos es j) = Done b /\ (b =? ZIP_END) = false.
Proof.
  intros HR Hj. destruct (lookup_lt_is_Some_2 es j Hj) as [e He]. pose proof (take_drop_middle es j e He) as Hs. rewrite <- Hs in HR.
  destruct (repr_around _ _ _ _ _ HR) as (a & HA). exact (around_byte _ _ _ _ _ _ HA).
Qed.

Lemma index_ok zl es h i : repr zl es h -> -2147483648 < i < 2147483648 ->
  ziplistIndex zl i = Done (pos es <$> TList.list_index (length es) i).
Proof.
  intros HR Hi. unfold ziplistIndex, TList.list_index. pose proof (repr_length _ _ _ HR) as Hl. destruct (Z.ltb_spec i 0) as [Hn|Hn].
  - rewrite to_s_small by (unfold in_s; lia). pose proof HR as [Hz _ Hb _ _]. pose proof (total_nonneg es).
    pose proof (last_len_bounds 0 es ltac:(lia)). assert (ZIPLIST_TAIL_OFFSET zl = Done (10 + total es - last_len 0 es)) as ->
      by (rewrite Hz; apply tail_hdr; lia). rewrite bind_Done.
    destruct es as [|e es _] using rev_ind.
    + cbn [total last_len length Z.of_nat]. change (10 + 0 - 0) with (10 + total []). rewrite (repr_end _ _ _ HR), bind_Done. cbn [negb Z.eqb Pos.eqb ZIP_END].
      rewrite bind_mret_o. cbn [fst snd]. rewrite (repr_end _ _ _ HR), bind_Done. cbn [Z.eqb Pos.eqb ZIP_END orb].
      rewrite (proj2 (Z.leb_gt _ _)) by lia. done.
    + rewrite total_app, last_len_app, length_app in *. cbn [total last_len length] in *.
      replace (10 + (total es + (rawlen e + 0)) - rawlen e) with (10 + total es) by lia.
      destruct (repr_around _ _ _ _ _ HR) as (a & HA). destruct (around_byte _ _ _ _ _ _ HA) as (b & -> & Hb0). rewrite bind_Done, Hb0. cbn [negb].
      rewrite (around_prev _ _ _ _ _ _ HA), bind_Done. cbn [snd]. rewrite (back_loop_ok _ _ _ _ _ _ _ HR) by lia.
      destruct (Z.ltb_spec (- i - 1) (Z.of_nat (length es))) as [Hk|Hk].
      * rewrite bind_Done. cbn [fst snd]. destruct (pos_byte _ _ _ (length es - Z.to_nat (- i - 1)) HR) as (b1 & -> & Hb1); [rewrite length_app; cbn; lia|].
        rewrite bind_Done, Hb1. cbn. rewrite (proj2 (Z.leb_le _ _)), (proj2 (Z.ltb_lt _ _)) by lia. cbn. do 3 f_equal. lia.
      * rewrite bind_Done. cbn [fst snd]. destruct (pos_byte _ _ _ 0 HR) as (b1 & E1 & Hb1); [rewrite length_app; cbn; lia|].
        change (byte zl 10) with (byte zl (pos (es ++ [e]) 0)). rewrite E1, bind_Done, Hb1. cbn [orb]. rewrite Z.gtb_ltb.
        destruct (Z.ltb_spec 0 (- i - 1 - Z.of_nat (length es))); [rewrite (proj2 (Z.leb_gt 0 _)) by lia; done|].
        rewrite (proj2 (Z.leb_le 0 _)), (proj2 (Z.ltb_lt _ _)) by lia. cbn. replace (Z.to_nat _) with 0%nat by lia. done.
  - change ZIPLIST_HEADER_SIZE with (10 + total []). rewrite (forth_loop_ok _ h _ [] es) by (done || lia). cbn [app length Nat.add].
    rewrite (proj2 (Z.leb_le 0 i)) by lia. destruct (Z.ltb_spec i (Z.of_nat (length es))) as [Hk|Hk]; rewrite bind_Done; cbn [fst snd].
    + destruct (pos_byte _ _ _ (Z.to_nat i) HR) as (b1 & -> & Hb1); [lia|]. rewrite bind_Done, Hb1. done.
    + rewrite (repr_end _ _ _ HR), bind_Done. done.
Qed.


Lemma prev_ok zl es h j : repr zl es h -> (j < length es)%nat ->
  ziplistPrev zl (pos es j) = Done (match j with O => None | S j' => Some (pos es j') end).
Proof.
  intros HR Hj. destruct (lookup_lt_is_Some_2 es j Hj) as [e He]. pose proof (take_drop_middle es j e He) as Hs. rewrite <- Hs in HR.
  destruct (repr_around _ _ _ _ _ HR) as (a & HA). unfold ziplistPrev, pos. destruct (around_byte _ _ _ _ _ _ HA) as (b & -> & Hb).
  rewrite bind_Done, Hb. destruct j as [|j].
  - cbn [take total]. done.
  - destruct (lookup_lt_is_Some_2 es j ltac:(lia)) as [e0 He0]. rewrite (take_S_r _ _ _ He0) in *.
    pose proof (rawlen_ge e0). pose proof (total_nonneg (take j es)). rewrite (proj2 (Z.eqb_neq _ _)).
    2:{ unfold ZIPLIST_HEADER_SIZE. rewrite total_app. cbn [total]. lia. }
    rewrite (around_prev _ _ _ _ _ _ HA), bind_Done, last_len_app. cbn [last_len snd]. rewrite Z.gtb_ltb, (proj2 (Z.ltb_lt _ _)) by lia.
    cbn [require_b]. rewrite bind_Done, total_app. cbn [total]. unfold mret, outcome_ret. do 2 f_equal. lia.
Qed.

(** ziplistFind, on the list of the strings. *)
Fixpoint find_skip (skip cnt : nat) (l : list sds) (x : sds) (i : nat) : option nat :=
  match l with
  | [] => None
  | y :: r =>
    match cnt with
    | O => if bool_decide (y = x) then Some i else find_skip skip skip r x (S i)
    | S c => find_skip skip c r x (S i)
    end
  end.

Lemma find_field_skip l x i : THash.find_field l x i = find_skip 1 0 l x i.
Proof.
  revert i. induction l as [l IH] using (well_founded_induction (Wf_nat.well_founded_ltof _ (@length sds))); intros i.
  destruct l as [|y [|z l]]; cbn [THash.find_field find_skip]; [done|by destruct (bool_decide (y = x))|].
  destruct (bool_decide (y = x)); [done|]. apply IH. unfold Wf_nat.ltof. cbn. lia.
Qed.

(** What [vencoding] and [vll] may hold. *)
Definition cached (x : sds) (vencoding vll : Z) : Prop :=
  vencoding = 0 \/ zipTryEncoding x = Some (vll, vencoding) \/ (zipTryEncoding x = None /\ vencoding = 255).

Lemma find_compare zl p a m e r x ve vl : around zl p a m e r -> cached x ve vl ->
  exists ve' vl', cached x ve' vl' /\
  (if ZIP_IS_STR (dec_enc (snd e)) then
     eq ← same_bytes zl (p + psize (fst e) + size (head (snd e))) (size (payload (snd e))) x; mret (eq, ve, vl)
   else
     let '(ve, vl) :=
       if ve =? 0 then match zipTryEncoding x with Some (v, e) => (e, v) | None => (255, vl) end else (ve, vl) in
     if ve =? 255 then mret (false, ve, vl)
     else ll ← zipLoadInteger zl (p + psize (fst e) + size (head (snd e))) (dec_enc (snd e)); mret (ll =? vl, ve, vl))
  = Done (bool_decide (snd e = x), ve', vl').
Proof.
  intros HA Hc. rewrite <- (Z.add_assoc p), dec_enc_str. destruct (Util.string2ll (snd e)) as [v|] eqn:E.
  - rewrite bool_decide_eq_false_2 by done. rewrite (load_ok _ _ _ _ _ _ HA v E).
    assert (forall w, Util.string2ll x = Some w -> (v =? w) = bool_decide (snd e = x)) as Heq.
    { intros w Ew. destruct (Z.eqb_spec v w) as [->|Hvw]; symmetry.
      - apply bool_decide_eq_true. by rewrite <- (Util.text_string2ll _ _ E), <- (Util.text_string2ll _ _ Ew).
      - apply bool_decide_eq_false. congruence. }
    assert (Util.string2ll x = None -> bool_decide (snd e = x) = false) as Hno by (intros Ex; apply bool_decide_eq_false; congruence).
    unfold cached in Hc. rewrite tryEncoding_eq in *. destruct (Util.string2ll x) as [w|] eqn:Ex; cbn [fmap option_fmap option_map] in *.
    + pose proof (int_enc_not_str w) as [Hw _]. exists (int_enc w), w. split; [right; left; by rewrite tryEncoding_eq, Ex|].
      destruct Hc as [->|[[= <- <-]|[? _]]]; [|rewrite (proj2 (Z.eqb_neq (int_enc w) 0)) by lia|done]; cbn [Z.eqb];
        rewrite (proj2 (Z.eqb_neq (int_enc w) 255)), bind_Done, (Heq w) by (done || lia); done.
    + exists 255, vl. split; [right; right; by rewrite tryEncoding_eq, Ex|]. rewrite Hno by done.
      destruct Hc as [->|[?|[_ ->]]]; done.
  - rewrite bool_decide_eq_true_2 by done. exists ve, vl. split; [done|]. by rewrite (same_bytes_ok _ _ _ _ _ _ HA), bind_Done.
Qed.

Lemma find_loop_ok zl h x skip fuel : forall es1 es2 cnt ve vl, repr zl (es1 ++ es2) h -> cached x ve vl -> (length es2 < fuel)%nat ->
  find_loop fuel zl (10 + total es1) x (Z.of_nat skip) (Z.of_nat cnt) ve vl
  = Done (pos (es1 ++ es2) <$> find_skip skip cnt (map snd es2) x (length es1)).
Proof.
  induction fuel as [|fuel IH]; intros es1 es2 cnt ve vl HR Hc Hl; [lia|]. cbn [find_loop]. destruct es2 as [|e r].
  - rewrite app_nil_r in *. rewrite (repr_end _ _ _ HR), bind_Done. done.
  - destruct (repr_around _ _ _ _ _ HR) as (a & HA). destruct (around_byte _ _ _ _ _ _ HA) as (b & -> & Hb). rewrite bind_Done, Hb.
    pose proof HA as [Hz Hp Hf Hm Hx Hn Hlen].
    rewrite (prevlensize_ok _ _ _ _ _ _ Hz), bind_Done by done. rewrite (decode_at _ _ _ _ _ _ _ Hz), bind_Done by done. cbv beta iota.
    assert (forall cnt ve vl, cached x ve vl ->
      find_loop fuel zl (10 + total es1 + psize (fst e) + size (head (snd e)) + size (payload (snd e))) x (Z.of_nat skip) (Z.of_nat cnt) ve vl
      = Done (pos (es1 ++ e :: r) <$> find_skip skip cnt (map snd r) x (S (length es1)))) as Hnext.
    { intros cnt' ve' vl' Hc'. replace (_ + _ + _ + size (payload (snd e))) with (10 + total (es1 ++ [e]))
        by (rewrite total_app; cbn [total]; unfold rawlen, body; sz).
      replace (es1 ++ e :: r) with ((es1 ++ [e]) ++ r) in * by assoc. rewrite (IH _ _ _ _ _ HR Hc') by (cbn in Hl; lia).
      rewrite length_app. cbn [length]. by rewrite Nat.add_1_r. }
    cbn [map find_skip]. destruct cnt as [|cnt].
    + cbn [Z.of_nat Z.eqb]. destruct (find_compare _ _ _ _ _ _ x ve vl HA Hc) as (ve' & vl' & Hc' & ->). rewrite bind_Done. cbv beta iota.
      destruct (bool_decide (snd e = x)); [|by apply Hnext]. cbn. by rewrite pos_mid.
    + rewrite (proj2 (Z.eqb_neq _ _)) by lia. replace (Z.of_nat (S cnt) - 1) with (Z.of_nat cnt) by lia. by apply Hnext.
Qed.

Lemma len_loop_ok zl h fuel : forall es1 es2 n, repr zl (es1 ++ es2) h -> (length es2 < fuel)%nat ->
  len_loop fuel zl (10 + total es1) n = Done (n + Z.of_nat (length es2)).
Proof.
  induction fuel as [|fuel IH]; intros es1 es2 n HR Hl; [lia|]. cbn [len_loop]. destruct es2 as [|e r].
  - rewrite app_nil_r in *. rewrite (repr_end _ _ _ HR), bind_Done. cbn. by rewrite Z.add_0_r.
  - destruct (repr_around _ _ _ _ _ HR) as (a & HA). destruct (around_byte _ _ _ _ _ _ HA) as (b & -> & Hb). rewrite bind_Done, Hb.
    rewrite (around_raw _ _ _ _ _ _ HA), bind_Done. rewrite cons_middle, app_assoc in HR. cbn [length] in *.
    replace (10 + total es1 + rawlen e) with (10 + total (es1 ++ [e])) by (rewrite total_app; cbn [total]; lia).
    rewrite (IH _ _ _ HR) by lia. f_equal. lia.
Qed.

Lemma len_ok zl es h : repr zl es h -> exists zl' h', ziplistLen zl = Done (zl', Z.of_nat (length es)) /\ repr zl' es h'.
Proof.
  intros HR. pose proof HR as [Hz Hf Hb Hc Hh]. unfold ziplistLen.
  assert (ZIPLIST_LENGTH zl = Done h) as -> by (rewrite Hz; by apply length_hdr). rewrite bind_Done. unfold UINT16_MAX in *.
  destruct (Z.ltb_spec h 65535) as [Hl|Hl].
  - exists zl, h. destruct Hc as [?|Hc]; [lia|]. by rewrite <- Hc.
  - change ZIPLIST_HEADER_SIZE with (10 + total []). rewrite (len_loop_ok _ h _ [] es) by (done || pose proof (repr_length _ _ _ HR); lia).
    rewrite bind_Done, Z.add_0_l. destruct (Z.ltb_spec (Z.of_nat (length es)) 65535).
    + rewrite Hz, set_length_hdr, bind_Done. eexists _, _. split; [done|]. split; [done|done|done|by right|lia].
    + exists zl, h. by rewrite bind_mret_o.
Qed.


(** ** The refinement *)
Fixpoint weight (l : list sds) : Z := match l with [] => 0 | x :: r => 18 + sdslen x + weight r end.

Lemma weight_app l k : weight (l ++ k) = weight l + weight k.
Proof. induction l as [|x l IH]; cbn [weight app]; lia. Qed.
Lemma weight_nonneg l : 0 <= weight l.
Proof. induction l as [|x l IH]; cbn [weight]; unfold sdslen in *; lia. Qed.
Lemma payload_size x : 0 <= size (payload x) <= sdslen x + 8.
Proof.
  split; [apply size_nonneg|]. assert (0 <= sdslen x) by (unfold sdslen; lia). destruct (Util.string2ll x) as [v|] eqn:E.
  - destruct (head_int _ _ E) as [_ ->]. rewrite (proj1 (int_bytes_size v)). unfold zipIntSize. repeat case_match; lia.
  - destruct (head_str _ E) as [_ ->]. rewrite size_map_code. lia.
Qed.
Lemma head_size x : 1 <= size (head x) <= 5 /\ (sdslen x <= 16383 -> size (head x) <= 2).
Proof.
  split; [split; [apply size_head|]|]; unfold head, zipEncodeLength; destruct (ZIP_IS_STR _);
    destruct (Z.leb_spec (sdslen x) 63); destruct (Z.leb_spec (sdslen x) 16383); rewrite ?size_cons, size_nil; lia.
Qed.
Lemma total_weight es : total es <= weight (map snd es).
Proof.
  induction es as [|[L x] es IH]; cbn [total weight map snd]; [lia|]. pose proof (payload_size x). pose proof (proj1 (head_size x)).
  unfold rawlen, body. cbn [fst snd]. rewrite size_app. assert (psize L <= 5) by (destruct L; cbn; lia). lia.
Qed.

(** Entries so short that no size field is ever wide. *)
Definition short (x : sds) : Prop := sdslen x <= 240.
Definition calm (e : zent) : Prop := fst e = false /\ short (snd e).

(** Strings that take at least two bytes: not integers of one byte, not
    strings of fewer than two. *)
Definition roomy (x : sds) : Prop :=
  match Util.string2ll x with Some v => v < -128 \/ 127 < v | None => 2 <= sdslen x end.

Lemma short_big x : short x -> big (rawlen (false, x)) = false.
Proof.
  unfold short. intros H. pose proof (payload_size x) as Hp. destruct (head_size x) as [_ Hh]. specialize (Hh ltac:(lia)).
  unfold rawlen, body, big, ZIP_BIGLEN. cbn [fst snd psize]. rewrite size_app. apply Z.leb_gt. lia.
Qed.
Lemma calm_last es : Forall calm es -> big (last_len 0 es) = false.
Proof.
  intros H. destruct es as [|[L x] es _] using rev_ind; [done|]. rewrite Forall_app, Forall_singleton in H. destruct H as [_ [Hf Hs]]. cbn in *. subst.
  rewrite last_len_app. cbn [last_len]. by apply short_big.
Qed.
Lemma calm_fix m n r : big n = false -> Forall calm r -> Forall calm (fix_up m n r).
Proof. intros Hn H. destruct r as [|[L x] r]; [done|]. cbn [fix_up]. rewrite Hn. rewrite orb_true_r. by destruct (m =? n). Qed.
Lemma calm_relink m es : big m = false -> Forall calm es -> Forall calm (relink m es).
Proof.
  intros Hm H. destruct es as [|[L y] r]; [done|]. cbn [relink]. apply Forall_cons in H as [[HL Hs] Hr]. cbn [fst snd] in *. rewrite Hm.
  constructor; [done|]. apply calm_fix; [by apply short_big|done].
Qed.
Lemma roomy_size L x : roomy x -> 4 <= rawlen (L, x).
Proof.
  unfold roomy. intros H. unfold rawlen, body. cbn [fst snd]. rewrite size_app. pose proof (proj1 (head_size x)). assert (1 <= psize L) by (destruct L; cbn; lia).
  enough (2 <= size (payload x)) by lia. destruct (Util.string2ll x) as [v|] eqn:E.
  - destruct (head_int _ _ E) as [_ ->]. rewrite (proj1 (int_bytes_size v)).
    destruct (int_enc_cases v) as [[? ->]|[[? ->]|[[? ->]|[[? ->]|[[? ->]| ->]]]]]; (lia || done).
  - destruct (head_str _ E) as [_ ->]. rewrite size_map_code. done.
Qed.
Lemma has_room_ok L x es : roomy x \/ Forall calm es -> has_room (rawlen (L, x)) es.
Proof.
  destruct es as [|[L' y] es]; [done|]. cbn [has_room]. pose proof (rawlen_ge (L, x)).
  assert (1 <= psize (big (rawlen (L, x)))) by (destruct (big _); cbn; lia). intros [H'|H'].
  - pose proof (roomy_size L x H'). destruct L'; cbn [psize] in *; lia.
  - apply Forall_cons in H' as [[HL _] _]. cbn [fst] in HL. subst. cbn [psize] in *. lia.
Qed.

Lemma insert_at_ok fill zl es h j x : repr zl es h -> (j <= length es)%nat -> 15 + weight (map snd es) + weight [x] < 2 ^ 32 ->
  roomy x \/ Forall calm es \/ j = length es ->
  exists zl' es' h', __ziplistInsert fill zl (pos es j) x = Done zl' /\ repr zl' es' h' /\
    map snd es' = TList.insert_at j x (map snd es) /\ (Forall calm es -> short x -> Forall calm es').
Proof.
  intros HR Hj Hw Hroom. pose proof (take_drop j es) as Hs. set (es1 := take j es) in *. set (es2 := drop j es) in *.
  set (e := (big (last_len 0 es1), x)). set (es2' := relink (rawlen e) es2).
  assert (map snd (es1 ++ e :: es2') = TList.insert_at j x (map snd es)) as Hmap.
  { rewrite map_app. cbn [map]. unfold es2'. rewrite relink_strings. unfold TList.insert_at, es1, es2. by rewrite firstn_map, skipn_map. }
  assert (15 + total (es1 ++ e :: es2') < 2 ^ 32) as Ht.
  { pose proof (total_weight (es1 ++ e :: es2')) as H. rewrite Hmap in H. unfold TList.insert_at in H. rewrite weight_app in H.
    rewrite <- (take_drop j (map snd es)), weight_app in Hw. cbn [weight] in *. lia. }
  assert (Forall calm es -> short x -> Forall calm (es1 ++ e :: es2')) as Hcalm.
  { intros Hc Hx. rewrite <- Hs in Hc. apply Forall_app in Hc as [Hc1 Hc2]. apply Forall_app. split; [done|]. unfold es2', e. rewrite (calm_last es1 Hc1).
    constructor; [done|]. apply calm_relink; [by apply short_big|done]. }
  assert (exists zl', __ziplistInsert fill zl (pos es j) x = Done zl' /\ repr zl' (es1 ++ e :: es2') (next_count h)) as (zl' & E & HR').
  { unfold pos. fold es1. rewrite <- Hs in HR. unfold es2' in *. destruct es2 as [|[L y] r] eqn:E2.
    - rewrite app_nil_r in HR. apply insert_tail_ok; [done|]. cbn [relink] in Ht. fold e. lia.
    - apply insert_mid_ok; [done| |done]. apply has_room_ok. destruct Hroom as [?|[Hc| ->]]; [by left|right|].
      + rewrite <- Hs in Hc. apply Forall_app in Hc as [_ Hc]. done.
      + unfold es2 in E2. rewrite drop_all in E2. done. }
  exists zl', (es1 ++ e :: es2'), (next_count h). done.
Qed.


Lemma delete_none fill zl es h j : repr zl es h -> (j < length es)%nat -> __ziplistDelete fill zl (pos es j) 0 = Done zl.
Proof.
  intros HR Hj. destruct (lookup_lt_is_Some_2 es j Hj) as [e He]. rewrite <- (take_drop_middle es j e He) in HR.
  destruct (repr_around _ _ _ _ _ HR) as (a & HA). unfold __ziplistDelete, pos. rewrite (around_entry _ _ _ _ _ _ HA), bind_Done.
  cbn [skip_loop]. destruct (around_byte _ _ _ _ _ _ HA) as (b & -> & Hb). rewrite bind_Done, Hb. cbn [negb andb Z.ltb Z.compare].
  rewrite bind_mret_o. cbv beta iota. cbn [e_p]. rewrite Z.sub_diag. done.
Qed.

Lemma delete_at_ok fill zl es h j n : repr zl es h -> (j < length es)%nat -> 15 + weight (map snd es) < 2 ^ 32 ->
  exists zl' es' h', __ziplistDelete fill zl (pos es j) (Z.of_nat n) = Done zl' /\ repr zl' es' h' /\
    map snd es' = take j (map snd es) ++ drop (j + n) (map snd es) /\ (Forall calm es -> Forall calm es') /\ pos es' j = pos es j.
Proof.
  intros HR Hj Hw. destruct n as [|n].
  { exists zl, es, h. rewrite (delete_none _ _ _ _ _ HR Hj), Nat.add_0_r, take_drop. done. }
  pose proof (take_drop j es) as Hs. pose proof (take_drop (S n) (drop j es)) as Hs2. rewrite drop_drop in Hs2.
  set (es1 := take j es) in *. set (ds := take (S n) (drop j es)) in *. set (es2 := drop (j + S n) es) in *. rewrite <- Hs2 in Hs.
  set (es2' := relink (last_len 0 es1) es2).
  assert (map snd (es1 ++ es2') = take j (map snd es) ++ drop (j + S n) (map snd es)) as Hmap.
  { rewrite map_app. unfold es2'. rewrite relink_strings. unfold es1, es2. by rewrite firstn_map, skipn_map. }
  assert (11 + total (es1 ++ es2') < 2 ^ 32) as Ht.
  { pose proof (total_weight (es1 ++ es2')) as H. rewrite Hmap, weight_app in H. pose proof (weight_nonneg (map snd ds)).
    rewrite <- Hs, !map_app, !weight_app in Hw. unfold es1, es2 in *. rewrite <- firstn_map, <- skipn_map in Hw. lia. }
  assert (length es1 = j) as Hj1 by (unfold es1; rewrite length_take; lia).
  assert (Forall calm es -> Forall calm (es1 ++ es2')) as Hcalm.
  { intros Hc. rewrite <- Hs in Hc. apply Forall_app in Hc as [Hc1 Hc2]. apply Forall_app in Hc2 as [_ Hc2]. apply Forall_app. split; [done|].
    apply calm_relink; [by apply calm_last|done]. }
  assert (ds <> []) as Hne.
  { intros Hd. apply (f_equal length) in Hd. unfold ds in Hd. rewrite length_take, length_drop in Hd. cbn [length] in Hd. lia. }
  assert (length ds <= S n)%nat as Hdn by (unfold ds; rewrite length_take; lia).
  assert (exists zl' h', __ziplistDelete fill zl (pos es j) (Z.of_nat (S n)) = Done zl' /\ repr zl' (es1 ++ es2') h') as (zl' & h' & E & HR').
  { unfold pos. fold es1. rewrite <- Hs in HR. unfold es2' in *. destruct es2 as [|[L y] r] eqn:E2.
    - rewrite app_nil_r in HR. cbn [relink] in *. rewrite app_nil_r.
      destruct (delete_tail_ok fill zl es1 ds h (Z.of_nat (S n)) HR Hne ltac:(lia)) as (zl' & H1 & H2). by exists zl', (less_count h (Z.of_nat (length ds))).
    - assert (length ds = S n) as Hl.
      { assert (length es2 > 0)%nat by (rewrite E2; cbn; lia). unfold es2 in *. rewrite length_drop in *. unfold ds. rewrite length_take, length_drop. lia. }
      destruct (delete_mid_ok fill zl es1 ds L y r h (Z.of_nat (S n)) HR Hne ltac:(lia) Ht) as (zl' & H1 & H2).
      by exists zl', (less_count h (Z.of_nat (length ds))). }
  exists zl', (es1 ++ es2'), h'. split; [done|]. split; [done|]. split; [done|]. split; [done|].
  unfold pos. rewrite take_app_length' by done. done.
Qed.

(** Collecting the values along a direction. *)
Fixpoint walk (fuel : nat) (zl : list Z) (step : list Z -> Z -> outcome (option Z)) (p : option Z) : outcome (list (option zval)) :=
  match p with
  | None => mret []
  | Some q =>
    match fuel with
    | O => Fault OutOfFuel
    | S fuel' =>
      v ← ziplistGet zl p;
      n ← step zl q;
      r ← walk fuel' zl step n;
      mret (v :: r)
    end
  end.

Lemma get_pos zl es h j e : repr zl es h -> es !! j = Some e -> ziplistGet zl (Some (pos es j)) = Done (Some (zget (snd e))).
Proof.
  intros HR He. rewrite <- (take_drop_middle es j e He) in HR. destruct (repr_around _ _ _ _ _ HR) as (a & HA). by apply (get_ok _ _ _ _ _ _ HA).
Qed.
Lemma next_pos zl es h j e : repr zl es h -> es !! j = Some e ->
  ziplistNext zl (pos es j) = Done (if decide (S j < length es)%nat then Some (pos es (S j)) else None).
Proof.
  intros HR He. pose proof (take_drop_middle es j e He) as Hs. pose proof HR as HR'. rewrite <- Hs in HR'. destruct (repr_around _ _ _ _ _ HR') as (a & HA).
  unfold pos at 1. rewrite (next_ok _ _ _ _ _ _ HA). assert (pos es (S j) = 10 + total (take j es) + rawlen e) as ->.
  { unfold pos. rewrite (take_S_r _ _ _ He), total_app. cbn [total]. lia. }
  destruct (drop (S j) es) as [|e' r] eqn:E; apply (f_equal length) in E; rewrite length_drop in E; cbn [length] in E.
  - rewrite decide_False by lia. done.
  - rewrite decide_True by lia. done.
Qed.

Lemma walk_forth zl es h fuel : repr zl es h -> forall j, (length es - j < fuel)%nat -> (j < length es)%nat ->
  walk fuel zl ziplistNext (Some (pos es j)) = Done (map (fun e => Some (zget (snd e))) (drop j es)).
Proof.
  intros HR. induction fuel as [|fuel IH]; intros j Hf Hj; [lia|]. cbn [walk]. destruct (lookup_lt_is_Some_2 es j Hj) as [e He].
  rewrite (get_pos _ _ _ _ _ HR He), bind_Done, (next_pos _ _ _ _ _ HR He), bind_Done, (drop_S _ _ _ He). cbn [map].
  destruct (decide (S j < length es)%nat) as [Hn|Hn].
  - rewrite IH, bind_Done by lia. done.
  - rewrite (drop_ge es (S j)) by lia. destruct fuel; done.
Qed.
Lemma walk_back zl es h fuel : repr zl es h -> forall j, (j < fuel)%nat -> (j < length es)%nat ->
  walk fuel zl ziplistPrev (Some (pos es j)) = Done (rev (map (fun e => Some (zget (snd e))) (take (S j) es))).
Proof.
  intros HR. induction fuel as [|fuel IH]; intros j Hf Hj; [lia|]. cbn [walk]. destruct (lookup_lt_is_Some_2 es j Hj) as [e He].
  rewrite (get_pos _ _ _ _ _ HR He), bind_Done, (prev_ok _ _ _ _ HR Hj), bind_Done, (take_S_r _ _ _ He), map_app, rev_app_distr. cbn [map rev app].
  destruct j as [|j]; [cbn [take map rev]; by destruct fuel|]. rewrite IH, bind_Done by lia. done.
Qed.


(** *** Operations, on the bytes and on a list of strings *)
Inductive zop :=
  | ZPush (head : bool) (x : sds)
  | ZInsert (i : Z) (x : sds)
  | ZDelete (i : Z)
  | ZDeleteRange (i n : Z)
  | ZGet (i : Z)
  | ZCompare (i : Z) (x : sds)
  | ZField (x : sds)
  | ZLen
  | ZForth
  | ZBack.
Inductive zout := OUnit | OVal (v : option zval) | OBool (b : bool) | ONum (n : Z) | OVals (l : list (option zval)).

(** An index goes through ziplistIndex, as in t_list.c; [ZDelete] answers with
    the entry that the returned pointer is at; [ZField] is the search of
    t_hash.c for the value of a field. *)
Definition zexec (fill : nat -> Z) (op : zop) (zl : list Z) : outcome (zout * list Z) :=
  match op with
  | ZPush head x => zl ← ziplistPush fill zl x head; mret (OUnit, zl)
  | ZInsert i x =>
    p ← ziplistIndex zl i;
    match p with None => mret (OUnit, zl) | Some p => zl ← ziplistInsert fill zl p x; mret (OUnit, zl) end
  | ZDelete i =>
    p ← ziplistIndex zl i;
    match p with
    | None => mret (OVal None, zl)
    | Some p => r ← ziplistDelete fill zl p; v ← ziplistGet (fst r) (Some (snd r)); mret (OVal v, fst r)
    end
  | ZDeleteRange i n => zl ← ziplistDeleteRange fill zl i n; mret (OUnit, zl)
  | ZGet i => p ← ziplistIndex zl i; v ← ziplistGet zl p; mret (OVal v, zl)
  | ZCompare i x =>
    p ← ziplistIndex zl i;
    match p with None => mret (OBool false, zl) | Some p => b ← ziplistCompare zl p x; mret (OBool b, zl) end
  | ZField x =>
    p ← ziplistIndex zl 0;
    f ← (match p with None => mret None | Some p => ziplistFind zl p x 1 end);
    match f with
    | None => mret (OVal None, zl)
    | Some f => q ← ziplistNext zl f; v ← ziplistGet zl q; mret (OVal v, zl)
    end
  | ZLen => r ← ziplistLen zl; mret (ONum (snd r), fst r)
  | ZForth => p ← ziplistIndex zl 0; l ← walk (length zl) zl ziplistNext p; mret (OVals l, zl)
  | ZBack => p ← ziplistIndex zl (-1); l ← walk (length zl) zl ziplistPrev p; mret (OVals l, zl)
  end.

Definition zspec (op : zop) (l : list sds) : zout * list sds :=
  let at_ i := TList.list_index (length l) i in
  match op with
  | ZPush head x => (OUnit, if head then x :: l else l ++ [x])
  | ZInsert i x => (OUnit, match at_ i with Some j => TList.insert_at j x l | None => l end)
  | ZDelete i =>
    match at_ i with
    | Some j => (OVal (zget <$> delete j l !! j), delete j l)
    | None => (OVal None, l)
    end
  | ZDeleteRange i n =>
    (OUnit, match at_ (to_s 32 i) with Some j => take j l ++ drop (j + Z.to_nat n) l | None => l end)
  | ZGet i => (OVal (zget <$> (at_ i ≫= (l !!.))), l)
  | ZCompare i x => (OBool (bool_decide ((at_ i ≫= (l !!.)) = Some x)), l)
  | ZField x => (OVal (zget <$> (THash.find_field l x 0 ≫= fun j => l !! S j)), l)
  | ZLen => (ONum (Z.of_nat (length l)), l)
  | ZForth => (OVals (map (Some ∘ zget) l), l)
  | ZBack => (OVals (rev (map (Some ∘ zget) l)), l)
  end.

Fixpoint zrun (fill : nat -> Z) (ops : list zop) (zl : list Z) : outcome (list zout * list Z) :=
  match ops with
  | [] => mret ([], zl)
  | op :: r => a ← zexec fill op zl; b ← zrun fill r (snd a); mret (fst a :: fst b, snd b)
  end.
Fixpoint zspec_run (ops : list zop) (l : list sds) : list zout * list sds :=
  match ops with
  | [] => ([], l)
  | op :: r => let '(x, l) := zspec op l in let '(xs, l) := zspec_run r l in (x :: xs, l)
  end.

(** The strings an operation adds, and those it puts in front of others. *)
Definition added (op : zop) : list sds := match op with ZPush _ x | ZInsert _ x => [x] | _ => [] end.
Definition placed (op : zop) : list sds := match op with ZPush true x | ZInsert _ x => [x] | _ => [] end.

(** Indices are ints (the least one has no opposite), and a count and an
    index of ziplistDeleteRange are unsigned ints. *)
Definition int_index (i : Z) : Prop := -2147483648 < i < 2147483648.
Definition good_args (op : zop) : Prop :=
  match op with
  | ZInsert i _ | ZDelete i | ZGet i | ZCompare i _ => int_index i
  | ZDeleteRange i n => int_index (to_s 32 i) /\ 0 <= n < 2 ^ 32
  | _ => True
  end.

(** The block holds the strings [l]; when [c] is set, without a wide field. *)
Definition stands (c : bool) (zl : list Z) (l : list sds) : Prop :=
  exists es h, repr zl es h /\ map snd es = l /\ (c = true -> Forall calm es).

Lemma list_index_lt n i j : TList.list_index n i = Some j -> (j < n)%nat.
Proof. unfold TList.list_index. case_match eqn:E; [|done]. intros [= <-]. apply andb_true_iff in E as [E1 E2]. zify_bool. lia. Qed.

Lemma stands_index c zl l i : stands c zl l -> int_index i ->
  exists es h, repr zl es h /\ map snd es = l /\ (c = true -> Forall calm es) /\
    ziplistIndex zl i = Done (pos es <$> TList.list_index (length l) i).
Proof. intros (es & h & HR & <- & Hc) Hi. exists es, h. rewrite length_map. split; [done|]. split; [done|]. split; [done|]. by apply (index_ok _ _ h). Qed.

Lemma stands_insert fill c zl es h l j x : repr zl es h -> map snd es = l -> (c = true -> Forall calm es) -> (j <= length es)%nat ->
  15 + weight l + weight [x] < 2 ^ 32 -> (c = true -> short x) -> (c = false -> roomy x \/ j = length es) ->
  exists zl', __ziplistInsert fill zl (pos es j) x = Done zl' /\ stands c zl' (TList.insert_at j x l).
Proof.
  intros HR <- Hc Hj Hw Hs Hr. destruct (insert_at_ok fill zl es h j x HR Hj Hw) as (zl' & es' & h' & E & HR' & Hm & Hc').
  { destruct c; [right; left; by apply Hc|]. destruct (Hr eq_refl); tauto. }
  exists zl'. split; [done|]. exists es', h'. split; [done|]. split; [done|]. intros ->. apply Hc'; auto.
Qed.


Lemma list_index_0 n : TList.list_index n 0 = match n with O => None | S _ => Some 0%nat end.
Proof. destruct n; [done|]. unfold TList.list_index. cbn [Z.ltb Z.compare]. by rewrite (proj2 (Z.ltb_lt _ _)) by lia. Qed.
Lemma list_index_last n : TList.list_index n (-1) = match n with O => None | S k => Some k end.
Proof.
  destruct n; [done|]. unfold TList.list_index. cbn [Z.ltb Z.compare]. rewrite (proj2 (Z.leb_le _ _)), (proj2 (Z.ltb_lt _ _)) by lia.
  cbn [andb]. f_equal. lia.
Qed.

Lemma lookup_map_snd (es : list zent) j : map snd es !! j = snd <$> es !! j.
Proof. exact (list_lookup_fmap snd es j). Qed.

Lemma get_at zl es h j : repr zl es h -> (j <= length es)%nat -> ziplistGet zl (Some (pos es j)) = Done (zget <$> map snd es !! j).
Proof.
  intros HR Hj. destruct (es !! j) as [e|] eqn:He.
  - rewrite (get_pos _ _ _ _ _ HR He), lookup_map_snd, He. done.
  - apply lookup_ge_None in He. unfold pos, ziplistGet. rewrite take_ge, (repr_end _ _ _ HR), bind_Done by lia. cbn [Z.eqb Pos.eqb ZIP_END].
    by rewrite (lookup_ge_None_2 (map snd es)) by (rewrite length_map; lia).
Qed.

Lemma find_skip_lt skip cnt l x i j : find_skip skip cnt l x i = Some j -> (i <= j < i + length l)%nat.
Proof.
  revert cnt i. induction l as [|y l IH]; intros cnt i; cbn [find_skip length]; [done|]. destruct cnt as [|cnt].
  - case_bool_decide; [intros [= <-]; lia|]. intros H'. apply IH in H'. lia.
  - intros H'. apply IH in H'. lia.
Qed.

Lemma zexec_insert fill c op zl l : stands c zl l -> 15 + weight l + weight (added op) < 2 ^ 32 -> good_args op ->
  (if c then Forall short (added op) else Forall roomy (placed op)) -> added op <> [] ->
  exists zl', zexec fill op zl = Done (fst (zspec op l), zl') /\ stands c zl' (snd (zspec op l)).
Proof.
  intros HS Hw Hg Hm Ha. destruct op as [head x|i x| | | | | | | |]; try done; cbn [zexec zspec fst snd added placed] in *.
  - assert (c = true -> short x) as Hs by (intros ->; rewrite Forall_singleton in Hm; done).
    destruct HS as (es & h & HR & Hl & Hc). unfold ziplistPush. destruct head.
    + rewrite bind_mret_o. destruct (stands_insert fill c zl es h l 0 x HR Hl Hc ltac:(lia) Hw Hs) as (zl' & E & HS').
      { intros ->. left. rewrite Forall_singleton in Hm. done. }
      unfold pos in E. cbn [take total] in E. change ZIPLIST_HEADER_SIZE with 10. rewrite Z.add_0_r in E. rewrite E, bind_Done. by exists zl'.
    + unfold ZIPLIST_ENTRY_END. assert (ZIPLIST_BYTES zl = Done (11 + total es)) as ->.
      { destruct HR as [Hz ? ? ? ?]. rewrite Hz. apply bytes_hdr. pose proof (total_nonneg es). lia. }
      destruct (stands_insert fill c zl es h l (length es) x HR Hl Hc ltac:(lia) Hw Hs ltac:(by right)) as (zl' & E & HS').
      rewrite bind_Done, bind_mret_o. unfold pos in E. rewrite take_ge in E by lia. replace (11 + total es - 1) with (10 + total es) by lia.
      rewrite E, bind_Done. exists zl'. split; [done|]. unfold TList.insert_at in HS'. subst l. by rewrite take_ge, drop_ge in HS' by (rewrite length_map; lia).
  - assert (c = true -> short x) as Hs by (intros ->; rewrite Forall_singleton in Hm; done).
    destruct (stands_index _ _ _ _ HS Hg) as (es & h & HR & Hl & Hc & ->). rewrite bind_Done.
    destruct (TList.list_index (length l) i) as [j|] eqn:Ej; cbn [fmap option_fmap option_map]; [|by exists zl].
    apply list_index_lt in Ej. assert (j <= length es)%nat as Hj by (subst l; rewrite length_map in Ej; lia).
    destruct (stands_insert fill c zl es h l j x HR Hl Hc Hj Hw Hs) as (zl' & E & HS').
    { intros ->. left. rewrite Forall_singleton in Hm. done. }
    unfold ziplistInsert. rewrite E, bind_Done. by exists zl'.
Qed.

Lemma zexec_delete fill c op zl l : stands c zl l -> 15 + weight l < 2 ^ 32 -> good_args op ->
  match op with ZDelete _ | ZDeleteRange _ _ => True | _ => False end ->
  exists zl', zexec fill op zl = Done (fst (zspec op l), zl') /\ stands c zl' (snd (zspec op l)).
Proof.
  intros HS Hw Hg Hop. destruct op as [| |i|i n| | | | | |]; try done; cbn [zexec zspec good_args] in *.
  - destruct (stands_index _ _ _ _ HS Hg) as (es & h & HR & Hl & Hc & ->). rewrite bind_Done.
    destruct (TList.list_index (length l) i) as [j|] eqn:Ej; cbn [fmap option_fmap option_map]; [|by exists zl].
    apply list_index_lt in Ej. subst l. rewrite length_map in Ej.
    destruct (delete_at_ok fill zl es h j 1 HR Ej Hw) as (zl' & es' & h' & E & HR' & Hm & Hc' & Hp). unfold ziplistDelete. change (Z.of_nat 1) with 1 in E. rewrite E, !bind_Done. cbn [fst snd]. rewrite <- Hp. rewrite Nat.add_1_r, <- delete_take_drop in Hm.
    rewrite (get_at _ _ _ _ HR'), bind_Done, Hm.
    + exists zl'. split; [done|]. exists es', h'. auto.
    + apply (f_equal length) in Hm. rewrite length_map, length_delete, length_map in Hm; [lia|]. apply lookup_lt_is_Some. by rewrite length_map.
  - destruct Hg as [Hi Hn]. unfold ziplistDeleteRange. destruct (stands_index _ _ _ _ HS Hi) as (es & h & HR & Hl & Hc & ->). rewrite bind_Done.
    destruct (TList.list_index (length l) (to_s 32 i)) as [j|] eqn:Ej; cbn [fmap option_fmap option_map]; [|rewrite bind_mret_o; by exists zl].
    apply list_index_lt in Ej. subst l. rewrite length_map in Ej. rewrite to_u_small by done.
    destruct (delete_at_ok fill zl es h j (Z.to_nat n) HR Ej Hw) as (zl' & es' & h' & E & HR' & Hm & Hc' & Hp).
    rewrite Z2Nat.id in E by lia. rewrite E, bind_Done. exists zl'. split; [done|]. exists es', h'. auto.
Qed.

Lemma zexec_read fill c op zl l : stands c zl l -> good_args op -> added op = [] ->
  match op with ZDelete _ | ZDeleteRange _ _ => False | _ => True end ->
  exists zl', zexec fill op zl = Done (fst (zspec op l), zl') /\ stands c zl' (snd (zspec op l)).
Proof.
  intros HS Hg Ha Hop. destruct op as [| | | |i|i x|x| | |]; try done; cbn [zexec zspec good_args fst snd] in *.
  - destruct (stands_index _ _ _ _ HS Hg) as (es & h & HR & Hl & Hc & ->). rewrite bind_Done.
    destruct (TList.list_index (length l) i) as [j|] eqn:Ej; cbn [fmap option_fmap option_map]; [|by exists zl].
    apply list_index_lt in Ej. subst l. rewrite length_map in Ej. rewrite (get_at _ _ _ _ HR), bind_Done by lia. by exists zl.
  - destruct (stands_index _ _ _ _ HS Hg) as (es & h & HR & Hl & Hc & ->). rewrite bind_Done.
    destruct (TList.list_index (length l) i) as [j|] eqn:Ej; cbn [fmap option_fmap option_map]; [|by exists zl].
    apply list_index_lt in Ej. subst l. rewrite length_map in Ej. destruct (lookup_lt_is_Some_2 es j Ej) as [e He].
    pose proof HR as HR'. rewrite <- (take_drop_middle es j e He) in HR'. destruct (repr_around _ _ _ _ _ HR') as (a & HA). unfold pos.
    rewrite (compare_ok _ _ _ _ _ _ HA), bind_Done. exists zl. split; [|done]. unfold mret, outcome_ret. do 3 f_equal.
    apply bool_decide_ext. cbn. rewrite lookup_map_snd, He. cbn. split; congruence.
  - destruct (stands_index _ _ _ 0 HS ltac:(done)) as (es & h & HR & Hl & Hc & ->). rewrite bind_Done. subst l.
    exists zl. split; [|done]. destruct es as [|e es]; [done|].
    rewrite list_index_0, length_map. cbn [length].
    cbn [fmap option_fmap option_map]. set (es' := e :: es) in *. unfold ziplistFind.
    pose proof (repr_length _ _ _ HR). pose proof (find_loop_ok zl h x 1 (S (length zl)) [] es' 0 0 0 HR ltac:(by left) ltac:(lia)) as Hf.
    change (10 + total []) with 10 in Hf. change (Z.of_nat 1) with 1 in Hf. change (Z.of_nat 0) with 0 in Hf. cbn [app length] in Hf. change (pos es' 0) with 10. rewrite Hf, bind_Done.
    rewrite find_field_skip. destruct (find_skip 1 0 (map snd es') x 0) as [j|] eqn:Ej; cbn [fmap option_fmap option_map mbind option_bind]; [|done].
    apply find_skip_lt in Ej. rewrite length_map in Ej. destruct (lookup_lt_is_Some_2 es' j ltac:(lia)) as [e1 He1].
    rewrite (next_pos _ _ _ _ _ HR He1), bind_Done. destruct (decide (S j < length es')%nat) as [Hj|Hj].
    + rewrite (get_at _ _ _ _ HR), bind_Done by lia. done.
    + rewrite (lookup_ge_None_2 (map snd es')) by (rewrite length_map; lia). done.
  - destruct HS as (es & h & HR & <- & Hc). destruct (len_ok _ _ _ HR) as (zl' & h' & -> & HR'). rewrite bind_Done, length_map. exists zl'.
    split; [done|]. by exists es, h'.
  - destruct (stands_index _ _ _ 0 HS ltac:(done)) as (es & h & HR & Hl & Hc & ->). rewrite bind_Done. subst l. exists zl. split; [|done].
    pose proof (repr_length _ _ _ HR) as Hz. rewrite list_index_0, length_map. destruct es as [|e es]; [by destruct (length zl)|]. cbn [length] in *.
    cbn [fmap option_fmap option_map]. rewrite (walk_forth _ _ _ _ HR), bind_Done by (cbn [length]; lia). by rewrite drop_0, map_map.
  - destruct (stands_index _ _ _ (-1) HS ltac:(done)) as (es & h & HR & Hl & Hc & ->). rewrite bind_Done. subst l. exists zl. split; [|done].
    pose proof (repr_length _ _ _ HR) as Hz. rewrite list_index_last, length_map. destruct (length es) as [|k] eqn:Ek.
    + apply nil_length_inv in Ek. subst. by destruct (length zl).
    + cbn [fmap option_fmap option_map]. rewrite (walk_back _ _ _ _ HR), bind_Done by lia. by rewrite take_ge, map_map by lia.
Qed.


Lemma zexec_ok fill c op zl l : stands c zl l -> 15 + weight l + weight (added op) < 2 ^ 32 -> good_args op ->
  (if c then Forall short (added op) else Forall roomy (placed op)) ->
  exists zl', zexec fill op zl = Done (fst (zspec op l), zl') /\ stands c zl' (snd (zspec op l)).
Proof.
  intros HS Hw Hg Hm. pose proof (weight_nonneg (added op)).
  destruct op; try (apply zexec_insert; done); try (apply zexec_delete; (done || lia)); apply zexec_read; done.
Qed.

Lemma weight_take_drop j k l : weight (take j l ++ drop (j + k) l) <= weight l.
Proof.
  rewrite weight_app. rewrite <- (take_drop j l) at 3. rewrite weight_app, <- drop_drop. set (d := drop j l). rewrite <- (take_drop k d) at 2.
  rewrite weight_app. pose proof (weight_nonneg (take k d)). lia.
Qed.
Lemma zspec_weight op l : weight (snd (zspec op l)) <= weight l + weight (added op).
Proof.
  pose proof (weight_nonneg (added op)). destruct op as [[] x|i x|i|i n| | | | | |]; cbn [zspec snd added] in *; try lia.
  - cbn [weight]. lia.
  - rewrite weight_app. lia.
  - destruct (TList.list_index _ _) as [j|]; [|lia]. unfold TList.insert_at. rewrite weight_app. rewrite <- (take_drop j l) at 3. rewrite weight_app. cbn [weight]. lia.
  - destruct (TList.list_index _ _) as [j|]; cbn [snd]; [|lia]. rewrite delete_take_drop, <- Nat.add_1_r. pose proof (weight_take_drop j 1 l). lia.
  - destruct (TList.list_index _ _) as [j|]; [|lia]. pose proof (weight_take_drop j (Z.to_nat n) l). lia.
Qed.

Lemma zrun_ok fill c ops : forall zl l, stands c zl l -> 15 + weight l + weight (concat (map added ops)) < 2 ^ 32 -> Forall good_args ops ->
  (if c then Forall short (concat (map added ops)) else Forall roomy (concat (map placed ops))) ->
  exists zl', zrun fill ops zl = Done (fst (zspec_run ops l), zl') /\ stands c zl' (snd (zspec_run ops l)).
Proof.
  induction ops as [|op ops IH]; intros zl l HS Hw Hg Hm; cbn [zrun zspec_run map concat] in *; [by exists zl|].
  rewrite weight_app in Hw. pose proof (weight_nonneg (concat (map added ops))). apply Forall_cons in Hg as [Hg1 Hg2].
  destruct (zexec_ok fill c op zl l) as (zl1 & E1 & HS1); [done|lia|done|by destruct c; apply Forall_app in Hm as [Hm _]|].
  pose proof (zspec_weight op l). rewrite E1, bind_Done. cbn [fst snd]. destruct (zspec op l) as [x l1]. cbn [fst snd] in *.
  destruct (IH zl1 l1) as (zl2 & E2 & HS2); [done|lia|done|by destruct c; apply Forall_app in Hm as [_ Hm]|].
  rewrite E2, bind_Done. destruct (zspec_run ops l1) as [xs l2]. by exists zl2.
Qed.

Lemma stands_new c : stands c ziplistNew [].
Proof. exists [], 0. split; [|by intros; constructor]. split; [reflexivity|done|done|by right|done]. Qed.

(** C16: ziplist.c implements a list of strings: any run of pushes at both ends,
    insertions and deletions at an index (from either end), deletions of a
    range, reads, comparisons, searches for the value of a field, length queries
    and walks in both directions, from the empty ziplist, gives the answers of
    the specification, on the bytes, through every encoding of lengths and
    integers and every cascade of growing size fields, whatever realloc leaves
    in new memory.  No access is outside the block and every loop ends.  It holds
    when the block stays below 4 GB and when either the strings put in front of
    others take at least two bytes each, or all strings have at most 240 bytes
    (the limit of the server is 64 by default). *)
Theorem ziplist_refines_list (fill : nat -> Z) (ops : list zop) :
  Forall good_args ops -> 15 + weight (concat (map added ops)) < 2 ^ 32 ->
  Forall roomy (concat (map placed ops)) \/ Forall short (concat (map added ops)) ->
  exists zl, zrun fill ops ziplistNew = Done (fst (zspec_run ops []), zl) /\ stands false zl (snd (zspec_run ops [])).
Proof.
  intros Hg Hw [Hm|Hm].
  - by apply zrun_ok; [apply stands_new| |done|].
  - destruct (zrun_ok fill true ops ziplistNew []) as (zl & E & es & h & HR & Hl & _); [apply stands_new|done|done|done|].
    exists zl. split; [done|]. by exists es, h.
Qed.

(** A long entry in front makes the entries after it grow in turn. *)
Definition cascade_ops : list zop :=
  let x := repeat "c"%char 250 in
  [ZPush false x; ZPush false x; ZPush false (str "-70000"); ZPush true (repeat "b"%char 300); ZInsert 1 (str "1234567890123");
   ZDelete (-1); ZField (repeat "b"%char 300); ZDeleteRange 0 1; ZCompare 0 (str "1234567890123"); ZLen; ZForth; ZBack].

Lemma ziplist_refines_list_witness :
  exists zl, zrun (fun _ => 0) cascade_ops ziplistNew = Done (fst (zspec_run cascade_ops []), zl) /\ stands false zl (snd (zspec_run cascade_ops [])).
Proof.
  apply (ziplist_refines_list (fun _ => 0) cascade_ops).
  - unfold cascade_ops. repeat constructor; vm_compute; discriminate.
  - vm_compute. reflexivity.
  - left. constructor; [vm_compute; discriminate|]. constructor; [right; vm_compute; reflexivity|constructor].
Defined.

(** Where the hypothesis on the strings fails, the insertion corrupts the
    list.  After the deletion of the long entry, the entry of 248 bytes has shrunk
    to 251 bytes in all, and the one after it keeps a wide field for this small
    size.  To insert "0" there takes two bytes and frees four: the block is first
    cut by two bytes, which destroys the end of the last entry, and then moved
    from beyond its end. *)
Theorem ziplist_insert_cuts_block :
  let ops := [ZPush false (str "first"); ZPush false (repeat "b"%char 300); ZPush false (repeat "c"%char 248); ZPush false (str "last"); ZDelete 1] in
  (exists zl, zrun (fun _ => 0) ops ziplistNew = Done ([OUnit; OUnit; OUnit; OUnit; OVal (Some (ZStr (repeat "c"%char 248)))], zl)) /\
  zrun (fun _ => 0) (ops ++ [ZInsert (-1) (str "0")]) ziplistNew = Fault OutOfBounds.
Proof. split; [eexists|]; vm_compute; reflexivity. Qed.

End Ziplist.
