(* ===== verification/ZSkipInv.v ===== *)
(** * The skip list of t_zset.c: its invariant

    [rep z L] says that the heap of [z] is the skip list of the cells [L]: at every
    level, the entry of a node points to the next node that is tall enough and its
    span is the distance to it, or to the end of the list.  The lemmas give, for the
    walk that the operations start with and for the insertion and deletion of one
    node, the result in terms of [L]. *)
From S2P Require Import Prelude CStr Object ZSkip.
From Stdlib Require Import SpecFloat.
Import Object ZSkip.

Module ZSkipInv.

Record cell := mkCell { c_addr : positive; c_score : spec_float; c_obj : sds; c_h : nat }.

(** ** Levels of a list of cells *)
(** The level entry of a node that is followed by the cells [S]. *)
Fixpoint lv (i : nat) (S : list cell) : zskiplistLevel :=
  match S with
  | [] => mkLevel None 0
  | c :: S' => if (i <? c_h c)%nat then mkLevel (Some (c_addr c)) 1 else mkLevel (forward (lv i S')) (span (lv i S') + 1)
  end.

Abbreviation low i := (fun c => (c_h c <= i)%nat) (only parsing).

(** The prefix of [A] up to its last cell of level [i]. *)
Fixpoint upto (i : nat) (A : list cell) : list cell :=
  match A with
  | [] => []
  | c :: A' => match upto i A' with [] => if (i <? c_h c)%nat then [c] else [] | r => c :: r end
  end.
Definition tall (i : nat) (X : list cell) : Prop := match last X with Some c => (i < c_h c)%nat | None => True end.
Definition here (hd : positive) (X : list cell) : positive := match last X with Some c => c_addr c | None => hd end.
Abbreviation addrs L := (map c_addr L) (only parsing).

Lemma first_tall i S : Forall (low i) S \/ exists S1 c S2, S = S1 ++ c :: S2 /\ Forall (low i) S1 /\ (i < c_h c)%nat.
Proof.
  induction S as [|c S IH]; [by left|]. destruct (decide (i < c_h c)%nat) as [H|H]; [right; by exists [], c, S|].
  destruct IH as [IH|(S1 & d & S2 & -> & H1 & H2)]; [left; constructor; [lia|done]|].
  right. exists (c :: S1), d, S2. split; [done|]. split; [constructor; [lia|done]|done].
Qed.

Lemma lv_low i Z S : Forall (low i) Z -> lv i (Z ++ S) = mkLevel (forward (lv i S)) (span (lv i S) + Z.of_nat (length Z)).
Proof.
  induction 1 as [|c Z Hc _ IH]; [cbn; rewrite Z.add_0_r; by destruct (lv i S)|]. cbn [app lv length].
  destruct (Nat.ltb_spec i (c_h c)); [lia|]. rewrite IH. cbn. f_equal. lia.
Qed.

Lemma lv_end i Z : Forall (low i) Z -> lv i Z = mkLevel None (Z.of_nat (length Z)).
Proof. intros H. rewrite <- (app_nil_r Z) at 1. by rewrite lv_low. Qed.

Lemma lv_at i Z c S : Forall (low i) Z -> (i < c_h c)%nat -> lv i (Z ++ c :: S) = mkLevel (Some (c_addr c)) (Z.of_nat (length Z) + 1).
Proof. intros H Hc. rewrite lv_low by done. cbn [lv]. destruct (Nat.ltb_spec i (c_h c)); [|lia]. cbn. f_equal. lia. Qed.

(** What lies behind a tall cell does not matter. *)
Lemma lv_tail i Z c S S' : (i < c_h c)%nat -> lv i (Z ++ c :: S) = lv i (Z ++ c :: S').
Proof.
  intros Hc. induction Z as [|d Z IH]; cbn [app lv]; [destruct (Nat.ltb_spec i (c_h c)); [done|lia]|]. by rewrite IH.
Qed.

Lemma lv_span i S : 0 <= span (lv i S) <= Z.of_nat (length S).
Proof. induction S as [|c S IH]; cbn [lv length]; [cbn; lia|]. destruct (i <? c_h c)%nat; cbn; lia. Qed.

Lemma lv_forward_None i S : forward (lv i S) = None -> Forall (low i) S.
Proof.
  intros H. destruct (first_tall i S) as [?|(S1 & c & S2 & -> & H1 & H2)]; [done|]. by rewrite lv_at in H.
Qed.

Lemma lv_forward_in i S a : forward (lv i S) = Some a -> a ∈ addrs S.
Proof.
  intros H. destruct (first_tall i S) as [Hl|(S1 & c & S2 & -> & H1 & H2)]; [by rewrite lv_end in H|].
  rewrite lv_at in H by done. injection H as <-. rewrite map_app. cbn. set_solver.
Qed.

Lemma upto_low i A : Forall (low i) A -> upto i A = [].
Proof. induction 1 as [|c A Hc _ IH]; [done|]. cbn [upto]. rewrite IH. destruct (Nat.ltb_spec i (c_h c)); [lia|done]. Qed.

Lemma upto_app i A1 c A2 : (i < c_h c)%nat -> upto i (A1 ++ c :: A2) = A1 ++ c :: upto i A2.
Proof.
  intros Hc. induction A1 as [|d A1 IH]; cbn [app upto].
  - destruct (upto i A2); [|done]. destruct (Nat.ltb_spec i (c_h c)); [done|lia].
  - rewrite IH. by destruct A1.
Qed.

Lemma tall_snoc i A c : tall i (A ++ [c]) <-> (i < c_h c)%nat.
Proof. unfold tall. by rewrite last_snoc. Qed.
Lemma here_snoc hd A c : here hd (A ++ [c]) = c_addr c.
Proof. unfold here. by rewrite last_snoc. Qed.

Lemma tall_nil i : tall i [].
Proof. done. Qed.

Lemma upto_prefix i A0 M : tall i A0 -> upto i (A0 ++ M) = A0 ++ upto i M.
Proof.
  destruct A0 as [|c A0 _] using rev_ind; [done|]. intros H%tall_snoc.
  rewrite <- app_assoc. cbn. rewrite upto_app by done. by rewrite <- app_assoc.
Qed.

(** [A] is the part up to its last cell of level [i], and lower cells. *)
Lemma upto_split i A : exists R, A = upto i A ++ R /\ Forall (low i) R /\ tall i (upto i A).
Proof.
  induction A as [|c A IH] using rev_ind; [by exists []|]. destruct (decide (i < c_h c)%nat) as [H|H].
  - exists []. rewrite upto_app, app_nil_r by done. cbn. split; [done|]. split; [constructor|by apply tall_snoc].
  - destruct IH as (R & E & HR & HT). assert (Hu : upto i (A ++ [c]) = upto i A).
    { rewrite E at 1. rewrite <- app_assoc, upto_prefix, (upto_low _ (R ++ [c])); [by rewrite app_nil_r| |done].
      apply Forall_app; split; [done|]. repeat constructor. lia. }
    rewrite Hu. exists (R ++ [c]). split; [by rewrite app_assoc, <- E|]. split; [|done].
    apply Forall_app; split; [done|]. repeat constructor. lia.
Qed.

Lemma upto_tall i A : tall i (upto i A).
Proof. by destruct (upto_split i A) as (R & _ & _ & H). Qed.

Lemma tall_le i j X : (i <= j)%nat -> tall j X -> tall i X.
Proof. unfold tall. destruct (last X); [lia|done]. Qed.

(** A tall prefix of [A] is the last one, or another tall cell follows. *)
Lemma tall_prefix i X Z : tall i X -> (Forall (low i) Z /\ upto i (X ++ Z) = X) \/ exists Z1 c Z2, Z = Z1 ++ c :: Z2 /\ (i < c_h c)%nat.
Proof.
  intros HX. destruct (first_tall i Z) as [H|(Z1 & c & Z2 & -> & _ & H)]; [left|right; eauto].
  split; [done|]. by rewrite upto_prefix, upto_low, app_nil_r by done.
Qed.

Lemma last_in {A} (l : list A) (x : A) : last l = Some x -> x ∈ l.
Proof. intros H. apply last_Some in H as (l' & ->). apply elem_of_app. right. by left. Qed.

(** Different prefixes end at different nodes. *)
Lemma here_inj hd X1 Y1 X2 Y2 : NoDup (hd :: addrs (X1 ++ Y1)) -> X1 ++ Y1 = X2 ++ Y2 -> here hd X1 = here hd X2 -> X1 = X2.
Proof.
  intros Hnd E Hh. assert (Hn : forall X Y, NoDup (hd :: addrs (X ++ Y)) -> here hd X = hd -> X = []).
  { intros X Y Hd. destruct X as [|c X _] using rev_ind; [done|]. rewrite here_snoc. intros <-.
    apply NoDup_cons in Hd as [Hd _]. exfalso. apply Hd. rewrite !map_app. cbn. set_solver. }
  destruct X1 as [|c X1 _] using rev_ind; [symmetry; apply (Hn X2 Y2); [by rewrite <- E|]; rewrite <- Hh; done|].
  destruct X2 as [|d X2 _] using rev_ind; [exfalso; pose proof (Hn _ _ Hnd Hh); by destruct X1|].
  rewrite !here_snoc in Hh. apply NoDup_cons in Hnd as [_ Hnd].
  assert (Hi : length X1 = length X2).
  { apply (NoDup_lookup (addrs ((X1 ++ [c]) ++ Y1)) _ _ (c_addr c) Hnd).
    - rewrite list_lookup_fmap, <- app_assoc. cbn. by rewrite list_lookup_middle.
    - rewrite E, list_lookup_fmap, <- app_assoc. cbn. rewrite list_lookup_middle by done. cbn. by rewrite Hh. }
  apply app_inj_1 in E as [-> _]; [done|]. rewrite !length_app. cbn. lia.
Qed.

(** ** The heap of a skip list *)
Definition meta (n : zskiplistNode) := (n_obj n, n_score n, n_backward n, length (n_level n)).
Definition meta_at (z : zskiplist) (a : positive) := meta <$> zsl_nodes z !! a.
Definition entry (z : zskiplist) (a : positive) (i : nat) : option zskiplistLevel := zsl_nodes z !! a ≫= fun n => n_level n !! i.

(** Level [i] of the heap is that of the cells [L]. *)
Definition lvl_ok (z : zskiplist) (i : nat) (L : list cell) : Prop :=
  forall X Y, L = X ++ Y -> tall i X -> entry z (here (zsl_header z) X) i = Some (lv i Y).

(** The cells [L], the first with backward pointer [b]; [back b L] is the pointer of
    what follows them. *)
Fixpoint cells_ok (z : zskiplist) (b : option positive) (L : list cell) : Prop :=
  match L with
  | [] => True
  | c :: L' => meta_at z (c_addr c) = Some (Some (c_obj c), c_score c, b, c_h c) /\ cells_ok z (Some (c_addr c)) L'
  end.
Fixpoint back (b : option positive) (L : list cell) : option positive := match L with [] => b | c :: L' => back (Some (c_addr c)) L' end.

Record rep (z : zskiplist) (L : list cell) : Prop := {
  rp_head : meta_at z (zsl_header z) = Some (None, S754_zero false, None, ZSKIPLIST_MAXLEVEL);
  rp_cells : cells_ok z None L;
  rp_lvl : forall i, (i < zsl_level z)%nat -> lvl_ok z i L;
  rp_above : forall i, (zsl_level z <= i < ZSKIPLIST_MAXLEVEL)%nat -> forward <$> entry z (zsl_header z) i = Some None;
  rp_nodup : NoDup (zsl_header z :: addrs L);
  rp_fresh : forall a, (zsl_fresh z <= a)%positive -> zsl_nodes z !! a = None;
  rp_tail : zsl_tail z = back None L;
  rp_len : zsl_length z = Z.of_nat (length L);
  rp_bound : Z.of_nat (length L) < 2 ^ 32;
  rp_heights : Forall (fun c => 1 <= c_h c <= zsl_level z)%nat L;
  rp_level : (1 <= zsl_level z <= ZSKIPLIST_MAXLEVEL)%nat
}.

(** Nothing else is allocated. *)
Definition exact (z : zskiplist) (L : list cell) : Prop :=
  forall a, is_Some (zsl_nodes z !! a) -> a ∈ zsl_header z :: addrs L.

Lemma meta_node z a m : meta_at z a = Some m -> exists n, zsl_nodes z !! a = Some n /\ meta n = m.
Proof. unfold meta_at. destruct (zsl_nodes z !! a) as [n|]; [|done]. intros [= <-]. eauto. Qed.

Lemma cells_app z b L1 L2 : cells_ok z b (L1 ++ L2) <-> cells_ok z b L1 /\ cells_ok z (back b L1) L2.
Proof. revert b. induction L1 as [|c L1 IH]; intros b; cbn; [tauto|]. rewrite IH. tauto. Qed.
Lemma back_app b L1 L2 : back b (L1 ++ L2) = back (back b L1) L2.
Proof. revert b. induction L1 as [|c L1 IH]; intros b; cbn; [done|apply IH]. Qed.
Lemma cells_frame z z' b L : (forall a, a ∈ addrs L -> meta_at z' a = meta_at z a) -> cells_ok z b L -> cells_ok z' b L.
Proof.
  revert b. induction L as [|c L IH]; intros b Hm; cbn; [done|]. intros [H1 H2]. split; [rewrite Hm by (by left); done|].
  apply IH; [|done]. intros a Ha. apply Hm. by right.
Qed.

Lemma rep_node z A c B : rep z (A ++ c :: B) ->
  exists n, zsl_nodes z !! c_addr c = Some n /\ meta n = (Some (c_obj c), c_score c, back None A, c_h c).
Proof. intros H. pose proof (rp_cells _ _ H) as Hc. apply cells_app in Hc as [_ [Hc _]]. by apply meta_node. Qed.

Lemma entry_read z a i l : entry z a i = Some l -> exists n, node a z = Done (n, z) /\ level_at n i = Done l.
Proof.
  unfold entry, node, level_at. destruct (zsl_nodes z !! a) as [n|]; [|done]. cbn. intros H. exists n. by rewrite H.
Qed.

(** [z'] is [z] with one level entry written. *)
Record wrote (a : positive) (i : nat) (l : zskiplistLevel) (z z' : zskiplist) : Prop := {
  wr_entry : entry z' a i = Some l;
  wr_others : forall b j, (b, j) <> (a, i) -> entry z' b j = entry z b j;
  wr_meta : forall b, meta_at z' b = meta_at z b;
  wr_rest : z' = set_zsl_nodes (zsl_nodes z') z
}.

Lemma upd_level_ok a i f z l : entry z a i = Some l ->
  exists z', upd_level a i f z = Done (tt, z') /\ wrote a i (f l) z z'.
Proof.
  unfold entry, upd_level, upd_node, level_at. destruct (zsl_nodes z !! a) as [n|] eqn:En; [|done]. cbn. intros Hl. rewrite Hl. cbn.
  eexists. split; [reflexivity|]. split; [| | |done].
  - unfold entry. cbn. rewrite lookup_insert_eq. cbn. by rewrite list_lookup_insert_eq by (by eapply lookup_lt_Some).
  - intros b j Hb. unfold entry. cbn. destruct (decide (b = a)) as [->|Hne]; [|by rewrite lookup_insert_ne].
    rewrite lookup_insert_eq, En. cbn. rewrite list_lookup_insert_ne; [done|]. congruence.
  - intros b. unfold meta_at. cbn. destruct (decide (b = a)) as [->|Hne]; [|by rewrite lookup_insert_ne].
    rewrite lookup_insert_eq, En. unfold meta. cbn. by rewrite length_insert.
Qed.

(** ** Searching *)
Definition update_of (z : zskiplist) (k : nat) (A : list cell) : list (positive * Z) :=
  map (fun i => (here (zsl_header z) (upto i A), Z.of_nat (length (upto i A)))) (seq 0 k).

Lemma update_of_at z k A i : (i < k)%nat ->
  upd_at (update_of z k A) i = Done (here (zsl_header z) (upto i A), Z.of_nat (length (upto i A))).
Proof.
  intros H. unfold upd_at, update_of. rewrite list_lookup_fmap, lookup_seq_lt by done. done.
Qed.

Section Cut.
(** The condition of the walk holds of the cells [A], which are the first of the list. *)
Context (z : zskiplist) (A B : list cell) (w : Z) (P : Z -> zskiplistNode -> bool).
Hypothesis Hrep : rep z (A ++ B).
Hypothesis Hw : 32 <= w.
Hypothesis HP : forall X c Y n, A ++ B = X ++ c :: Y -> zsl_nodes z !! c_addr c = Some n ->
  P (Z.of_nat (S (length X))) n = bool_decide (length X < length A)%nat.

Lemma cut_node X c Y : A ++ B = X ++ c :: Y -> exists n, node (c_addr c) z = Done (n, z) /\
  P (to_u w (Z.of_nat (S (length X)))) n = bool_decide (length X < length A)%nat.
Proof using Hrep Hw HP.
  intros E. pose proof Hrep as Hr. rewrite E in Hr. destruct (rep_node _ _ _ _ Hr) as (n & Hn & _). exists n.
  split; [unfold node; by rewrite Hn|]. rewrite to_u_small; [by eapply HP|].
  pose proof (rp_bound _ _ Hrep) as Hb. rewrite E, length_app in Hb. cbn [length] in Hb.
  pose proof (Z.pow_le_mono_r 2 32 w ltac:(lia) Hw). unfold in_u. lia.
Qed.

Lemma walk_ok i fuel A0 M : (i < zsl_level z)%nat -> A = A0 ++ M -> tall i A0 -> (length M < fuel)%nat ->
  zwalk w P i fuel (here (zsl_header z) A0) (Z.of_nat (length A0)) z =
  Done ((here (zsl_header z) (A0 ++ upto i M), Z.of_nat (length (A0 ++ upto i M))), z).
Proof using Hrep Hw HP.
  intros Hi. revert A0 M. induction fuel as [|fuel IH]; intros A0 M EA HT Hf; [lia|]. cbn [zwalk].
  assert (He : entry z (here (zsl_header z) A0) i = Some (lv i (M ++ B))) by (apply (rp_lvl _ _ Hrep i Hi); [by rewrite EA, app_assoc|done]).
  destruct (entry_read _ _ _ _ He) as (n & Hn & Hl). rewrite (prog_bind_step _ _ _ _ _ Hn), Hl, bind_lift.
  destruct (first_tall i M) as [HM|(M1 & c & M2 & -> & H1 & Hc)].
  - rewrite upto_low, app_nil_r, lv_low by done. cbn [forward span].
    destruct (first_tall i B) as [HB|(B1 & c & B2 & EB & H1 & Hc)]; [by rewrite lv_end|].
    rewrite EB, lv_at by done. cbn [forward span]. destruct (cut_node (A0 ++ M ++ B1) c B2) as (m & Hm & HPm).
    { rewrite EA, EB. by rewrite <- !app_assoc. }
    rewrite (prog_bind_step _ _ _ _ _ Hm), !length_app in *.
    replace (Z.of_nat (length A0) + (Z.of_nat (length B1) + 1 + Z.of_nat (length M))) with (Z.of_nat (S (length A0 + (length M + length B1)))) by lia.
    rewrite HPm, bool_decide_eq_false_2; [done|]. rewrite EA, length_app. lia.
  - rewrite <- app_assoc. cbn [app]. rewrite lv_at by done. cbn [forward span]. destruct (cut_node (A0 ++ M1) c (M2 ++ B)) as (m & Hm & HPm).
    { rewrite EA. by rewrite <- !app_assoc. }
    rewrite (prog_bind_step _ _ _ _ _ Hm). rewrite length_app in HPm.
    replace (Z.of_nat (length A0) + (Z.of_nat (length M1) + 1)) with (Z.of_nat (S (length A0 + length M1))) by lia.
    rewrite HPm, bool_decide_eq_true_2; [|rewrite EA, !length_app; cbn; lia].
    rewrite length_app in Hf. cbn in Hf. rewrite to_u_small.
    + rewrite upto_app by done. rewrite <- (here_snoc (zsl_header z) (A0 ++ M1) c).
      replace (Z.of_nat (S (length A0 + length M1))) with (Z.of_nat (length ((A0 ++ M1) ++ [c]))) by (rewrite !length_app; cbn; lia).
      rewrite (IH _ M2); [by rewrite <- !app_assoc|by rewrite EA, <- !app_assoc|by apply tall_snoc|lia].
    + pose proof (rp_bound _ _ Hrep) as Hb. rewrite EA, !length_app in Hb. cbn in Hb.
      pose proof (Z.pow_le_mono_r 2 32 w ltac:(lia) Hw). unfold in_u. lia.
Qed.

Lemma descend_ok k A0 M : (k <= zsl_level z)%nat -> A = A0 ++ M -> (forall i, (i < k)%nat -> tall i A0) ->
  descend w P k (here (zsl_header z) A0) (Z.of_nat (length A0)) z = Done (update_of z k A, z).
Proof using Hrep Hw HP.
  revert A0 M. induction k as [|k IH]; intros A0 M Hk EA HT; [done|]. cbn [descend].
  rewrite bind_get_st. rewrite (prog_bind_step _ _ _ _ _ (walk_ok k (steps z) A0 M ltac:(lia) EA (HT k ltac:(lia)) ltac:(unfold steps; rewrite (rp_len _ _ Hrep), Nat2Z.id, EA, !length_app; lia))).
  cbn [fst snd]. destruct (upto_split k M) as (R & ER & _ & HTM). rewrite <- (upto_prefix k A0 M) by (apply HT; lia). rewrite <- EA.
  assert (EA' : A = upto k A ++ R) by (rewrite EA, upto_prefix, <- app_assoc, <- ER by (apply HT; lia); done).
  rewrite (prog_bind_step _ _ _ _ _ (IH (upto k A) R ltac:(lia) EA' (fun i Hi => tall_le i k _ ltac:(lia) (upto_tall k A)))).
  unfold update_of. by rewrite seq_S, map_app.
Qed.

Lemma zsl_search_ok : descend w P (zsl_level z) (zsl_header z) 0 z = Done (update_of z (zsl_level z) A, z).
Proof using Hrep Hw HP. by apply (descend_ok (zsl_level z) [] A). Qed.
End Cut.

Lemma upto_0 n A : Forall (fun c => 1 <= c_h c <= n)%nat A -> upto 0 A = A.
Proof.
  intros H. destruct A as [|c A _] using rev_ind; [done|]. apply Forall_app in H as [_ H]. apply Forall_cons in H as [H _].
  rewrite upto_app by lia. done.
Qed.

Lemma rep_heights_app z A B : rep z (A ++ B) -> Forall (fun c => 1 <= c_h c <= zsl_level z)%nat A /\ Forall (fun c => 1 <= c_h c <= zsl_level z)%nat B.
Proof. intros H. apply Forall_app. by apply rp_heights. Qed.

Lemma lv_0 n B : Forall (fun c => 1 <= c_h c <= n)%nat B -> forward (lv 0 B) = c_addr <$> head B.
Proof. destruct 1 as [|c B Hc _]; [done|]. cbn [lv]. by destruct (Nat.ltb_spec 0 (c_h c)); [|lia]. Qed.

Lemma entry_0 z A B : rep z (A ++ B) -> entry z (here (zsl_header z) A) 0 = Some (lv 0 B).
Proof.
  intros H. destruct (rep_heights_app _ _ _ H) as [HA _]. apply (rp_lvl _ _ H 0); [pose proof (rp_level _ _ H); lia|done|].
  rewrite <- (upto_0 _ _ HA). apply upto_tall.
Qed.

Lemma first_of_ok z k A B : rep z (A ++ B) -> (0 < k)%nat -> first_of (update_of z k A) z = Done (c_addr <$> head B, z).
Proof.
  intros H Hk. destruct (rep_heights_app _ _ _ H) as [HA HB]. unfold first_of. rewrite update_of_at, bind_lift by done. cbn [fst].
  rewrite (upto_0 _ _ HA). destruct (entry_read _ _ _ _ (entry_0 _ _ _ H)) as (n & Hn & Hl).
  rewrite (prog_bind_step _ _ _ _ _ Hn), Hl, bind_lift, (lv_0 _ _ HB). done.
Qed.

(** ** Replacing some cells *)
Lemma here_in hd X : here hd X ∈ hd :: addrs X.
Proof. destruct X as [|c X _] using rev_ind; [by left|]. rewrite here_snoc, map_app. cbn. set_solver. Qed.

Lemma here_upto hd i A : here hd (upto i A) ∈ hd :: addrs A.
Proof.
  destruct (upto_split i A) as (R & ER & _). pose proof (here_in hd (upto i A)) as H. rewrite ER at 2. rewrite map_app. set_solver.
Qed.

Lemma here_app hd A Z : Z <> [] -> here hd (A ++ Z) = here hd Z.
Proof. destruct Z as [|c Z _] using rev_ind; [done|]. intros _. by rewrite app_assoc, !here_snoc. Qed.
Lemma tall_app i A Z : Z <> [] -> tall i (A ++ Z) <-> tall i Z.
Proof. destruct Z as [|c Z _] using rev_ind; [done|]. intros _. by rewrite app_assoc, !tall_snoc. Qed.
Lemma here_cells hd Z : Z <> [] -> here hd Z ∈ addrs Z.
Proof. destruct Z as [|c Z _] using rev_ind; [done|]. intros _. rewrite here_snoc, map_app. cbn. set_solver. Qed.

Lemma nodup_parts hd A M B : NoDup (hd :: addrs (A ++ M ++ B)) ->
  (forall a, a ∈ hd :: addrs A -> a ∉ addrs M /\ a ∉ addrs B) /\ (forall a, a ∈ addrs B -> a ∉ addrs M).
Proof.
  rewrite !map_app. intros [Hh H]%NoDup_cons. apply NoDup_app in H as (_ & HA & H). apply NoDup_app in H as (_ & HM & _).
  split; [intros a [->|Ha]%elem_of_cons|intros a Ha Hm; by apply (HM a)].
  - set_solver.
  - specialize (HA a Ha). set_solver.
Qed.

(** The cells [M] become [M']: at each level one entry changes, that of the last tall
    node in front of them. *)
Lemma splice z z' i A M M' B : zsl_header z' = zsl_header z ->
  NoDup (zsl_header z :: addrs (A ++ M ++ B)) -> NoDup (zsl_header z :: addrs (A ++ M' ++ B)) -> lvl_ok z i (A ++ M ++ B) ->
  (forall R, A = upto i A ++ R -> Forall (low i) R -> entry z' (here (zsl_header z) (upto i A)) i = Some (lv i (R ++ M' ++ B))) ->
  (forall a, a <> here (zsl_header z) (upto i A) -> a ∉ addrs M' -> entry z' a i = entry z a i) ->
  (forall X1 X2, M' = X1 ++ X2 -> X1 <> [] -> tall i X1 -> entry z' (here (zsl_header z) X1) i = Some (lv i (X2 ++ B))) ->
  lvl_ok z' i (A ++ M' ++ B).
Proof.
  intros Eh Hnd Hnd' Hlv Hu Hoth Hnew. destruct (nodup_parts _ _ _ _ Hnd') as [HA HB].
  assert (HinA : forall X Z, A = X ++ Z -> tall i X -> entry z' (here (zsl_header z) X) i = Some (lv i (Z ++ M' ++ B))).
  { intros X Z E HT. destruct (tall_prefix i X Z HT) as [[HZ HX]|(Z1 & c & Z2 & -> & Hc)].
    - rewrite <- E in HX. rewrite <- HX. apply Hu; [by rewrite HX|done].
    - assert (Hf : A ++ M ++ B = X ++ (Z1 ++ c :: Z2) ++ M ++ B) by (rewrite E; by rewrite <- !app_assoc). rewrite Hoth.
      + rewrite (Hlv X ((Z1 ++ c :: Z2) ++ M ++ B)); [|done|done].
        rewrite <- !app_assoc. cbn. f_equal. by apply lv_tail.
      + intros Hh. assert (Hl : X = upto i A).
        { destruct (upto_split i A) as (R & ER & _). apply (here_inj (zsl_header z) X ((Z1 ++ c :: Z2) ++ M ++ B) _ (R ++ M ++ B)); [by rewrite <- Hf| |done].
          rewrite <- Hf. rewrite ER at 1. by rewrite <- app_assoc. }
        rewrite E, app_assoc, upto_app in Hl by done. apply (f_equal length) in Hl. rewrite !length_app in Hl. cbn in Hl. lia.
      + apply HA. rewrite E. pose proof (here_in (zsl_header z) X) as Hx. rewrite map_app. set_solver. }
  intros X Y E HT. rewrite Eh. apply app_eq_inv in E as [(Z & E & ->)|(Z & -> & E)]; [by apply HinA|].
  destruct (decide (Z = [])) as [->|HZ]; [cbn in E; rewrite <- E; rewrite app_nil_r in *; apply (HinA A []); [by rewrite app_nil_r|done]|].
  apply tall_app in HT; [|done]. rewrite here_app by done.
  apply app_eq_inv in E as [(Z' & E & ->)|(Z' & -> & E)]; [by apply Hnew|].
  destruct (decide (Z' = [])) as [->|HZ']; [cbn in E; subst Y; rewrite app_nil_r in *; apply (Hnew M' []); [by rewrite app_nil_r|done|done]|].
  apply tall_app in HT; [|done]. rewrite here_app by done. assert (Hin : here (zsl_header z) Z' ∈ addrs B).
  { rewrite E, map_app. apply elem_of_app. left. by apply here_cells. }
  rewrite Hoth; [|intros Hh|by apply HB].
  - rewrite <- (here_app _ (A ++ M) Z') by done. apply Hlv; [by rewrite E, !app_assoc|]. by apply tall_app.
  - rewrite Hh in Hin. apply (HA (here (zsl_header z) (upto i A))); [apply here_upto|done].
Qed.

(** ** Steps that write level entries *)
(** Only entries of the levels [D] are written. *)
Record changed (D : nat -> Prop) (z z' : zskiplist) : Prop := {
  ch_entry : forall a i, ~ D i -> entry z' a i = entry z a i;
  ch_meta : forall a, meta_at z' a = meta_at z a;
  ch_rest : z' = set_zsl_nodes (zsl_nodes z') z
}.

Lemma changed_refl D z : changed D z z.
Proof. split; [done|done|by destruct z]. Qed.
Lemma changed_trans (D1 D2 D : nat -> Prop) z1 z2 z3 : changed D1 z1 z2 -> changed D2 z2 z3 -> (forall i, D1 i \/ D2 i -> D i) -> changed D z1 z3.
Proof.
  intros [A1 A2 A3] [B1 B2 B3] HD. split.
  - intros a i Hi. rewrite B1, A1; [done| |]; intros ?; apply Hi, HD; tauto.
  - intros a. by rewrite B2, A2.
  - rewrite B3. rewrite A3 at 1. done.
Qed.
Lemma wrote_changed a i l z z' : wrote a i l z z' -> changed (eq i) z z'.
Proof. intros [H1 H2 H3 H4]. split; [|done|done]. intros b j Hj. apply H2. congruence. Qed.

Lemma changed_header D z z' : changed D z z' -> zsl_header z' = zsl_header z.
Proof. intros H. by rewrite (ch_rest _ _ _ H). Qed.
Lemma changed_level D z z' : changed D z z' -> zsl_level z' = zsl_level z.
Proof. intros H. by rewrite (ch_rest _ _ _ H). Qed.

Lemma lvl_ok_eq z z' i L : zsl_header z' = zsl_header z -> (forall a, a ∈ zsl_header z :: addrs L -> entry z' a i = entry z a i) -> lvl_ok z i L -> lvl_ok z' i L.
Proof.
  intros Hh He H X Y E HT. rewrite Hh, He; [by apply H|]. rewrite E, map_app. pose proof (here_in (zsl_header z) X). set_solver.
Qed.
Lemma lvl_ok_changed D z z' i L : changed D z z' -> ~ D i -> lvl_ok z i L -> lvl_ok z' i L.
Proof. intros H Hi. apply lvl_ok_eq; [by eapply changed_header|]. intros a _. by apply (ch_entry _ _ _ H). Qed.

(** A loop over levels whose body writes at its own level. *)
Lemma levels_loop (body : nat -> prog zskiplist unit) (Old New : nat -> zskiplist -> Prop) s k z :
  (forall D z z', changed D z z' -> forall j, ~ D j -> (Old j z -> Old j z') /\ (New j z -> New j z')) ->
  (forall i z1, (s <= i < s + k)%nat -> changed (fun j => s <= j < i)%nat z z1 -> Old i z1 -> exists z2, body i z1 = Done (tt, z2) /\ changed (eq i) z1 z2 /\ New i z2) ->
  (forall i, (s <= i < s + k)%nat -> Old i z) ->
  exists z', for_each (seq s k) body z = Done (tt, z') /\ changed (fun j => s <= j < s + k)%nat z z' /\ forall i, (s <= i < s + k)%nat -> New i z'.
Proof.
  intros Hst. revert s z. induction k as [|k IH]; intros s z Hb HO.
  { exists z. split; [done|]. split; [apply changed_refl|]. intros i Hi. lia. }
  destruct (Hb s z ltac:(lia)) as (z1 & E1 & C1 & N1); [split; [done|done|by destruct z]|apply HO; lia|].
  destruct (IH (S s) z1) as (z2 & E2 & C2 & N2).
  - intros i z2 Hi C2 Ho. apply Hb; [lia| |done]. eapply changed_trans; [exact C1|exact C2|]. cbn. lia.
  - intros i Hi. apply (Hst _ z z1 C1 i); [lia|]. apply HO. lia.
  - exists z2. cbn [seq for_each]. rewrite (prog_bind_step _ _ _ _ _ E1). split; [done|]. split.
    + eapply changed_trans; [exact C1|exact C2|]. cbn. lia.
    + intros i Hi. destruct (decide (i = s)) as [->|Hne]; [|apply N2; lia].
      apply (Hst _ z1 z2 C2 s); [lia|done].
Qed.

(** ** One level of an insertion and of a deletion *)
Section Level.
Context (z : zskiplist) (i : nat) (A : list cell) (x : cell) (B : list cell) (update : list (positive * Z)).
Hypothesis Hnd : NoDup (zsl_header z :: addrs (A ++ [x] ++ B)).
Hypothesis Hlen : Z.of_nat (length (A ++ [x] ++ B)) < 2 ^ 32.
Hypothesis Hupd : upd_at update i = Done (here (zsl_header z) (upto i A), Z.of_nat (length (upto i A))).

Lemma nodup_without : NoDup (zsl_header z :: addrs (A ++ [] ++ B)).
Proof using Hnd.
  pose proof Hnd as Hn. clear - Hn. rewrite !map_app in *. cbn in *. apply NoDup_cons in Hn as [Hh H]. apply NoDup_cons. split; [set_solver|].
  apply NoDup_app in H as (H1 & H2 & H3). apply NoDup_cons in H3 as [H3 H4]. apply NoDup_app. split; [done|]. split; [set_solver|done].
Qed.

Lemma upto_not_x : here (zsl_header z) (upto i A) <> c_addr x.
Proof using Hnd.
  destruct (nodup_parts _ _ _ _ Hnd) as [HA _].
  intros E. destruct (HA (c_addr x)) as [Hx _]; [rewrite <- E; apply here_upto|apply Hx; by left].
Qed.

(** The entry in front of the place, before and after. *)
Lemma upto_entry M : lvl_ok z i (A ++ M ++ B) -> exists R, A = upto i A ++ R /\ Forall (low i) R /\
  entry z (here (zsl_header z) (upto i A)) i = Some (mkLevel (forward (lv i (M ++ B))) (span (lv i (M ++ B)) + Z.of_nat (length R))).
Proof using Type.
  intros H. destruct (upto_split i A) as (R & ER & HR & HT). exists R. split; [done|]. split; [done|].
  rewrite <- lv_low by done. apply H; [|done]. rewrite ER at 1. by rewrite <- app_assoc.
Qed.

Lemma rest_len R : A = upto i A ++ R -> Z.of_nat (length A) - Z.of_nat (length (upto i A)) = Z.of_nat (length R) /\
  0 <= Z.of_nat (length R) + Z.of_nat (length B) < 2 ^ 32 - 1.
Proof using Hlen. intros ER. apply (f_equal length) in ER. rewrite !length_app in *. cbn in Hlen. lia. Qed.

Lemma same_rest R R' : A = upto i A ++ R -> A = upto i A ++ R' -> R = R'.
Proof using Type. intros E1 E2. rewrite E1 in E2 at 1. by apply app_inv_head in E2. Qed.

Lemma link_ok l0 : (i < c_h x)%nat -> lvl_ok z i (A ++ B) -> entry z (c_addr x) i = Some l0 ->
  exists z', link_level (c_addr x) update (Z.of_nat (length A)) i z = Done (tt, z') /\ changed (eq i) z z' /\ lvl_ok z' i (A ++ [x] ++ B).
Proof using Hnd Hlen Hupd.
  intros Hi Hlv Hx. destruct (upto_entry [] Hlv) as (R & ER & HR & He). destruct (rest_len R ER) as [El Hl]. pose proof (lv_span i B) as Hs.
  unfold link_level. rewrite Hupd, bind_lift. cbn [fst snd]. destruct (entry_read _ _ _ _ He) as (n & Hn & Hlu).
  rewrite (prog_bind_step _ _ _ _ _ Hn), Hlu, bind_lift. cbn [app forward span] in *. rewrite El, !(to_u_small 32 (Z.of_nat (length R))) by (unfold in_u; lia).
  destruct (upd_level_ok (c_addr x) i (fun _ => mkLevel (forward (lv i B)) (to_u 32 (span (lv i B) + Z.of_nat (length R) - Z.of_nat (length R)))) z l0 Hx) as (z1 & E1 & W1).
  rewrite (prog_bind_step _ _ _ _ _ E1). pose proof upto_not_x as Hne.
  rewrite <- (wr_others _ _ _ _ _ W1) in He by congruence.
  destruct (upd_level_ok _ i (fun _ => mkLevel (Some (c_addr x)) (to_u 32 (Z.of_nat (length R) + 1))) z1 _ He) as (z2 & E2 & W2).
  exists z2. split; [exact E2|]. pose proof (wrote_changed _ _ _ _ _ W1) as C1. pose proof (wrote_changed _ _ _ _ _ W2) as C2.
  split; [by eapply changed_trans; [exact C1|exact C2|naive_solver]|].
  apply (splice z z2 i A [] [x] B); [by rewrite (changed_header _ _ _ C2), (changed_header _ _ _ C1)|by apply nodup_without|done|done| | |].
  - intros R' ER' HR'. rewrite <- (same_rest _ _ ER ER'), (wr_entry _ _ _ _ _ W2), to_u_small by (unfold in_u; lia). cbn. by rewrite lv_at.
  - intros a Ha Hax. rewrite (wr_others _ _ _ _ _ W2), (wr_others _ _ _ _ _ W1) by (cbn in Hax; set_solver). done.
  - intros [|c X1] X2 EX HX _; [done|]. injection EX as <- EX. symmetry in EX. apply app_nil in EX as [-> ->]. cbn.
    rewrite (wr_others _ _ _ _ _ W2), (wr_entry _ _ _ _ _ W1), to_u_small by (unfold in_u; lia || congruence).
    destruct (lv i B). cbn. do 2 f_equal. lia.
Qed.

Lemma bump_ok : (c_h x <= i)%nat -> lvl_ok z i (A ++ B) ->
  exists z', bump_level update i z = Done (tt, z') /\ changed (eq i) z z' /\ lvl_ok z' i (A ++ [x] ++ B).
Proof using Hnd Hlen Hupd.
  intros Hi Hlv. destruct (upto_entry [] Hlv) as (R & ER & HR & He). destruct (rest_len R ER) as [El Hl]. pose proof (lv_span i B) as Hs.
  unfold bump_level. rewrite Hupd, bind_lift. cbn [fst snd app] in *.
  destruct (upd_level_ok _ i (fun l => mkLevel (forward l) (to_u 32 (span l + 1))) z _ He) as (z1 & E1 & W1).
  exists z1. split; [exact E1|]. pose proof (wrote_changed _ _ _ _ _ W1) as C1. split; [done|].
  apply (splice z z1 i A [] [x] B); [by rewrite (changed_header _ _ _ C1)|by apply nodup_without|done|done| | |].
  - intros R' ER' HR'. rewrite <- (same_rest _ _ ER ER'), (wr_entry _ _ _ _ _ W1). cbn [forward span]. rewrite to_u_small by (unfold in_u; lia).
    rewrite app_assoc, lv_low by (apply Forall_app; split; [done|by constructor]). rewrite length_app. cbn. do 2 f_equal. lia.
  - intros a Ha _. rewrite (wr_others _ _ _ _ _ W1) by congruence. done.
  - intros [|c X1] X2 EX HX HT; [done|]. injection EX as <- EX. symmetry in EX. apply app_nil in EX as [-> ->]. unfold tall in HT. cbn in HT. lia.
Qed.

Lemma unlink_ok : lvl_ok z i (A ++ [x] ++ B) ->
  exists z', unlink_level (c_addr x) update i z = Done (tt, z') /\ changed (eq i) z z' /\ lvl_ok z' i (A ++ B) /\
    entry z' (c_addr x) i = entry z (c_addr x) i.
Proof using Hnd Hlen Hupd.
  intros Hlv. destruct (upto_entry [x] Hlv) as (R & ER & HR & He). destruct (rest_len R ER) as [El Hl]. pose proof (lv_span i B) as Hs.
  unfold unlink_level. rewrite Hupd, bind_lift. cbn [fst snd]. destruct (entry_read _ _ _ _ He) as (n & Hn & Hlu).
  rewrite (prog_bind_step _ _ _ _ _ Hn), Hlu, bind_lift. cbn [forward].
  assert (Hfin : forall l z1, wrote (here (zsl_header z) (upto i A)) i l z z1 -> l = lv i (R ++ B) -> changed (eq i) z z1 /\ lvl_ok z1 i (A ++ B) /\ entry z1 (c_addr x) i = entry z (c_addr x) i).
  { intros l z1 W1 ->. pose proof (wrote_changed _ _ _ _ _ W1) as C1. pose proof upto_not_x as Hne.
    split; [done|]. split; [|apply (wr_others _ _ _ _ _ W1); congruence].
    apply (splice z z1 i A [x] [] B); [by rewrite (changed_header _ _ _ C1)|done|by apply nodup_without|done| | |].
    - intros R' ER' HR'. by rewrite <- (same_rest _ _ ER ER'), (wr_entry _ _ _ _ _ W1).
    - intros a Ha _. rewrite (wr_others _ _ _ _ _ W1) by congruence. done.
    - intros [|c X1] X2 EX HX HT; done. }
  destruct (decide (i < c_h x)%nat) as [Hi|Hi].
  - assert (Hx : entry z (c_addr x) i = Some (lv i B)).
    { rewrite <- (here_snoc (zsl_header z) A x). apply Hlv; [by rewrite <- app_assoc|by apply tall_snoc]. }
    cbn [app lv] in *. destruct (Nat.ltb_spec i (c_h x)) as [_|]; [|lia]. cbn [forward span] in *. rewrite bool_decide_eq_true_2 by done.
    destruct (entry_read _ _ _ _ Hx) as (m & Hm & Hlm). rewrite (prog_bind_step _ _ _ _ _ Hm), Hlm, bind_lift.
    destruct (upd_level_ok _ i (fun l => mkLevel (forward (lv i B)) (to_u 32 (span l + to_u 32 (span (lv i B) - 1)))) z _ He) as (z1 & E1 & W1).
    exists z1. split; [exact E1|]. apply (Hfin _ _ W1). rewrite lv_low by done. f_equal. cbn [span].
    unfold to_u. rewrite Zplus_mod_idemp_r, Z.mod_small; lia.
  - cbn [app lv] in *. destruct (Nat.ltb_spec i (c_h x)) as [|_]; [lia|]. cbn [forward span] in *. rewrite bool_decide_eq_false_2.
    2:{ intros E%lv_forward_in. destruct (nodup_parts _ A [x] B Hnd) as [_ HB]. apply (HB _ E). by left. }
    destruct (upd_level_ok _ i (fun l => mkLevel (forward l) (to_u 32 (span l - 1))) z _ He) as (z1 & E1 & W1).
    exists z1. split; [exact E1|]. apply (Hfin _ _ W1). rewrite lv_low by done. cbn [forward span]. f_equal. rewrite to_u_small; [lia|unfold in_u; lia].
Qed.
End Level.

(** ** Backward pointers *)
Lemma set_backward_ok a b z o s b0 h : meta_at z a = Some (o, s, b0, h) -> exists z', set_backward a b z = Done (tt, z') /\
  (forall c i, entry z' c i = entry z c i) /\ meta_at z' a = Some (o, s, b, h) /\ (forall c, c <> a -> meta_at z' c = meta_at z c) /\
  z' = set_zsl_nodes (zsl_nodes z') z.
Proof.
  intros (n & Hn & Hm)%meta_node. injection Hm as <- <- <- <-. unfold set_backward, upd_node. rewrite Hn. eexists. split; [reflexivity|].
  unfold entry, meta_at. cbn. split; [|split; [|split; [|done]]].
  - intros c i. destruct (decide (c = a)) as [->|Hne]; [by rewrite lookup_insert_eq, Hn|by rewrite lookup_insert_ne].
  - by rewrite lookup_insert_eq.
  - intros c Hne. by rewrite lookup_insert_ne.
Qed.

Lemma relink_ok z b b0 B t : NoDup (addrs B) -> cells_ok z b0 B -> zsl_tail z = back t B ->
  exists z', zrelink (c_addr <$> head B) b z = Done (tt, z') /\ (forall c i, entry z' c i = entry z c i) /\ cells_ok z' b B /\
    (forall a, a ∉ addrs B -> meta_at z' a = meta_at z a) /\ zsl_tail z' = back b B /\
    z' = set_zsl_tail (zsl_tail z') (set_zsl_nodes (zsl_nodes z') z).
Proof.
  destruct B as [|y B]; intros Hnd Hc Ht; [by exists (set_zsl_tail b z)|]. apply NoDup_cons in Hnd as [Hy Hnd]. destruct Hc as [Hc HB].
  destruct (set_backward_ok (c_addr y) b z _ _ _ _ Hc) as (z' & E & He & Hm & Ho & Hr). exists z'. split; [exact E|]. split; [done|].
  split; [|split; [|split]].
  - split; [done|]. eapply cells_frame; [|exact HB]. intros a Ha. apply Ho. by intros ->.
  - intros a Ha. apply Ho. intros ->. apply Ha. by left.
  - rewrite Hr. done.
  - rewrite Hr. reflexivity.
Qed.

(** ** zslDeleteNode *)
Lemma shrink_ok n L k : (forall i, (i < k)%nat -> n_level n !! i = Some (lv i L)) -> (1 <= k)%nat ->
  exists k', shrink n k = Done k' /\ (1 <= k' <= k)%nat /\ forall i, (k' <= i < k)%nat -> forward (lv i L) = None.
Proof.
  induction k as [|k IH]; intros Hn Hk; [lia|]. destruct k as [|k]; [exists 1%nat; repeat split; [lia|lia|intros; lia]|].
  cbn [shrink]. unfold level_at. rewrite (Hn (S k)) by lia. cbn. destruct (forward (lv (S k) L)) eqn:E.
  - exists (S (S k)). repeat split; [lia|lia|intros; lia].
  - destruct IH as (k' & Ek & Hk' & HN); [intros i Hi; apply Hn; lia|lia|]. exists k'. split; [exact Ek|]. split; [lia|].
    intros i Hi. destruct (decide (i = S k)) as [->|Hne]; [done|apply HN; lia].
Qed.

Definition good_update (z : zskiplist) (update : list (positive * Z)) (A : list cell) : Prop :=
  forall i, (i < zsl_level z)%nat -> upd_at update i = Done (here (zsl_header z) (upto i A), Z.of_nat (length (upto i A))).

Lemma unlink_loop z A x B update : rep z (A ++ [x] ++ B) -> good_update z update A ->
  exists z', for_each (seq 0 (zsl_level z)) (unlink_level (c_addr x) update) z = Done (tt, z') /\
    changed (fun j => 0 <= j < 0 + zsl_level z)%nat z z' /\ (forall i, (i < zsl_level z)%nat -> lvl_ok z' i (A ++ B)) /\
    entry z' (c_addr x) 0 = Some (lv 0 B).
Proof.
  intros Hr Hu. pose proof (rp_level _ _ Hr) as Hl.
  assert (Hx : forall i z1, lvl_ok z1 i (A ++ [x] ++ B) -> (i < c_h x)%nat -> entry z1 (c_addr x) i = Some (lv i B)).
  { intros i z1 H Hi. rewrite <- (here_snoc (zsl_header z1) A x). apply H; [by rewrite <- app_assoc|by apply tall_snoc]. }
  destruct (levels_loop (unlink_level (c_addr x) update) (fun i z => lvl_ok z i (A ++ [x] ++ B))
    (fun i z => lvl_ok z i (A ++ B) /\ ((i < c_h x)%nat -> entry z (c_addr x) i = Some (lv i B))) 0 (zsl_level z) z) as (z' & E & C & N).
  - intros D z1 z2 C j Hj. split; [by eapply lvl_ok_changed|]. intros [H1 H2]. split; [by eapply lvl_ok_changed|].
    intros H. rewrite (ch_entry _ _ _ C) by done; auto.
  - intros i z1 Hi C Ho. destruct (unlink_ok z1 i A x B update) as (z2 & E & C2 & H2 & Hx2); [| | |done|].
    + rewrite (changed_header _ _ _ C). apply (rp_nodup _ _ Hr).
    + apply (rp_bound _ _ Hr).
    + rewrite (changed_header _ _ _ C). apply Hu. lia.
    + exists z2. split; [done|]. split; [done|]. split; [done|]. intros H. rewrite Hx2. by apply Hx.
  - intros i Hi. apply (rp_lvl _ _ Hr). lia.
  - exists z'. split; [done|]. split; [done|]. split; [intros i Hi; apply N; lia|]. apply N; [lia|].
    destruct (rep_heights_app _ _ _ Hr) as [_ HB]. apply Forall_cons in HB as [? _]. lia.
Qed.

Definition same_dom (z z' : zskiplist) : Prop := forall a, is_Some (meta_at z' a) <-> is_Some (meta_at z a).

Lemma is_Some_meta z a : is_Some (meta_at z a) <-> is_Some (zsl_nodes z !! a).
Proof. unfold meta_at. by rewrite fmap_is_Some. Qed.

Lemma cells_in z b L a : cells_ok z b L -> a ∈ addrs L -> is_Some (meta_at z a).
Proof.
  revert b. induction L as [|c L IH]; intros b H Ha; [by apply elem_of_nil in Ha|]. destruct H as [H1 H2].
  apply elem_of_cons in Ha as [->|Ha]; [by rewrite H1|by eapply IH].
Qed.

Lemma cells_dom z z' b b' L : cells_ok z b L -> cells_ok z' b' L -> (forall a, a ∉ addrs L -> meta_at z' a = meta_at z a) -> same_dom z z'.
Proof.
  intros H H' Ho a. destruct (decide (a ∈ addrs L)) as [Ha|Ha]; [|by rewrite Ho].
  split; intros _; [by eapply cells_in; [exact H|]|by eapply cells_in; [exact H'|]].
Qed.

Lemma same_dom_trans z1 z2 z3 : same_dom z1 z2 -> same_dom z2 z3 -> same_dom z1 z3.
Proof. intros H1 H2 a. by rewrite (H2 a), (H1 a). Qed.

Lemma fresh_dom z z' : same_dom z z' -> zsl_fresh z' = zsl_fresh z ->
  (forall a, (zsl_fresh z <= a)%positive -> zsl_nodes z !! a = None) -> forall a, (zsl_fresh z' <= a)%positive -> zsl_nodes z' !! a = None.
Proof.
  intros Hd Hf H a Ha. rewrite Hf in Ha. specialize (H a Ha). apply eq_None_not_Some. intros Hs%is_Some_meta%Hd%is_Some_meta. rewrite H in Hs. by destruct Hs.
Qed.

Lemma nodup_cells hd A M B : NoDup (hd :: addrs (A ++ M ++ B)) -> NoDup (addrs B) /\ hd ∉ addrs B /\ (forall a, a ∈ addrs A -> a ∉ addrs B).
Proof.
  rewrite !map_app. intros [Hh H]%NoDup_cons. apply NoDup_app in H as (_ & HA & H). apply NoDup_app in H as (_ & _ & H).
  split; [done|]. split; [set_solver|]. intros a Ha. specialize (HA a Ha). set_solver.
Qed.

Lemma low_heights (m k : nat) L : (m <= k)%nat -> Forall (fun c => 1 <= c_h c <= k)%nat L -> (forall i, (m <= i < k)%nat -> forward (lv i L) = None) ->
  Forall (fun c => 1 <= c_h c <= m)%nat L.
Proof.
  intros Hm H HN. destruct (decide (m = k)) as [->|Hne]; [done|]. pose proof (lv_forward_None _ _ (HN m ltac:(lia))) as Hl.
  rewrite Forall_forall in *. intros c Hc. specialize (H c Hc). specialize (Hl c Hc). cbn in Hl. lia.
Qed.

Lemma zslDeleteNode_ok z A x B update : rep z (A ++ [x] ++ B) -> good_update z update A ->
  exists z', zslDeleteNode (c_addr x) update z = Done (tt, z') /\ rep z' (A ++ B) /\ same_dom z z' /\
    zsl_header z' = zsl_header z /\ zsl_fresh z' = zsl_fresh z /\ (zsl_level z' <= zsl_level z)%nat.
Proof.
  intros Hr Hu. destruct (unlink_loop z A x B update Hr Hu) as (z1 & E1 & C1 & H1 & Hx1).
  pose proof (rp_cells _ _ Hr) as Hc. apply cells_app in Hc as [HcA [Hcx HcB]]. cbn [app] in HcB.
  pose proof (rp_nodup _ _ Hr) as Hnd. destruct (nodup_cells _ _ _ _ Hnd) as (HndB & HhB & HAB).
  destruct (rep_heights_app _ _ _ Hr) as [HhA HhX]. apply Forall_cons in HhX as [Hhx HhB']. pose proof (rp_level _ _ Hr) as Hl.
  unfold zslDeleteNode. run. rewrite (prog_bind_step _ _ _ _ _ E1). rewrite <- (ch_meta _ _ _ C1) in Hcx.
  destruct (entry_read _ _ _ _ Hx1) as (n & Hn & Hln). destruct (meta_node _ _ _ Hcx) as (n' & Hn' & Hm).
  assert (n' = n) as -> by (unfold node in Hn; rewrite Hn' in Hn; congruence). injection Hm as _ _ Hbk _.
  rewrite (prog_bind_step _ _ _ _ _ Hn), Hln, bind_lift, (lv_0 _ _ HhB'), Hbk.
  destruct (relink_ok z1 (back None A) (Some (c_addr x)) B (Some (c_addr x))) as (z2 & E2 & He2 & Hc2 & Hm2 & Ht2 & Hr2); [done| | |].
  { eapply cells_frame; [|exact HcB]. intros a _. apply (ch_meta _ _ _ C1). }
  { rewrite (ch_rest _ _ _ C1). cbn. rewrite (rp_tail _ _ Hr), back_app. done. }
  rewrite (prog_bind_step _ _ _ _ _ E2). assert (Hh2 : zsl_header z2 = zsl_header z) by (rewrite Hr2, (ch_rest _ _ _ C1); done).
  assert (Hlv2 : forall i, (i < zsl_level z)%nat -> lvl_ok z2 i (A ++ B)).
  { intros i Hi. eapply lvl_ok_eq; [|intros a _; apply He2|by apply H1]. by rewrite Hh2, (changed_header _ _ _ C1). }
  assert (Hmh : meta_at z2 (zsl_header z) = meta_at z (zsl_header z)) by (rewrite Hm2, (ch_meta _ _ _ C1) by done; done).
  rewrite (rp_head _ _ Hr) in Hmh. destruct (meta_node _ _ _ Hmh) as (h & Hh & Hmeta).
  rewrite (prog_bind_step (node (zsl_header z)) _ z2 h z2) by (unfold node; by rewrite Hh).
  destruct (shrink_ok h (A ++ B) (zsl_level z)) as (k & Ek & Hk & HkN); [|lia|].
  { intros i Hi. pose proof (Hlv2 i Hi [] (A ++ B) eq_refl I) as He. unfold entry in He. rewrite Hh2 in He. cbn in He. by rewrite Hh in He. }
  rewrite Ek. run. eexists. split; [reflexivity|]. pose proof (rp_bound _ _ Hr) as Hb. rewrite !length_app in Hb. cbn [length] in Hb.
  assert (Hlen : zsl_length z2 = Z.of_nat (length (A ++ [x] ++ B))) by (rewrite Hr2, (ch_rest _ _ _ C1); apply (rp_len _ _ Hr)).
  assert (HcA2 : cells_ok z2 None A).
  { eapply cells_frame; [|exact HcA]. intros a Ha. rewrite Hm2, (ch_meta _ _ _ C1); [done|by apply HAB]. }
  assert (Hdom : same_dom z z2).
  { eapply (cells_dom z z2 _ _ B HcB Hc2). intros a Ha. rewrite Hm2, (ch_meta _ _ _ C1) by done. done. }
  assert (Hf2 : zsl_fresh z2 = zsl_fresh z) by (rewrite Hr2, (ch_rest _ _ _ C1); done).
  split; [|split; [exact Hdom|split; [done|split; [done|cbn; lia]]]]. split; cbn [zsl_nodes zsl_fresh zsl_header zsl_tail zsl_length zsl_level set_zsl_length set_zsl_level].
  - rewrite Hh2. exact Hmh.
  - apply cells_app. split; (eapply cells_frame; [|eassumption]; done).
  - intros i Hi. apply (Hlv2 i). lia.
  - intros i Hi. rewrite Hh2. change (forward <$> entry z2 (zsl_header z) i = Some None). destruct (decide (i < zsl_level z)%nat) as [Hlt|Hge].
    + pose proof (Hlv2 i Hlt [] (A ++ B) eq_refl I) as He. rewrite Hh2 in He. cbn in He. rewrite He. cbn. by rewrite HkN by lia.
    + rewrite He2, (ch_entry _ _ _ C1) by lia. apply (rp_above _ _ Hr). lia.
  - rewrite Hh2. by apply (nodup_without z A x B).
  - apply (fresh_dom z z2 Hdom Hf2), (rp_fresh _ _ Hr).
  - rewrite Ht2, back_app. done.
  - rewrite Hlen, !length_app. cbn [length]. rewrite to_u_small by (unfold in_u; lia). lia.
  - rewrite length_app. lia.
  - apply (low_heights k (zsl_level z)); [lia| |done]. apply Forall_app. done.
  - lia.
Qed.

(** A step that leaves the list and its nodes alone. *)
Lemma rep_frame z z' L : zsl_header z' = zsl_header z -> zsl_tail z' = zsl_tail z -> zsl_length z' = zsl_length z -> zsl_level z' = zsl_level z ->
  (forall a, a ∈ zsl_header z :: addrs L -> zsl_nodes z' !! a = zsl_nodes z !! a) ->
  (forall a, (zsl_fresh z' <= a)%positive -> zsl_nodes z' !! a = None) -> rep z L -> rep z' L.
Proof.
  intros E1 E2 E3 E4 Hn Hf [R1 R2 R3 R4 R5 R6 R7 R8 R9 R10 R11].
  assert (Hm : forall a, a ∈ zsl_header z :: addrs L -> meta_at z' a = meta_at z a) by (intros a Ha; unfold meta_at; by rewrite Hn).
  assert (He : forall a i, a ∈ zsl_header z :: addrs L -> entry z' a i = entry z a i) by (intros a i Ha; unfold entry; by rewrite Hn).
  split; rewrite ?E1, ?E2, ?E3, ?E4; try done.
  - rewrite Hm by (by left). done.
  - eapply cells_frame; [|done]. intros a Ha. apply Hm. by right.
  - intros i Hi. eapply lvl_ok_eq; [done| |by apply R3]. intros a Ha. by apply He.
  - intros i Hi. rewrite He by (by left). by apply R4.
Qed.

Lemma delete_and_free z A x B update : rep z (A ++ [x] ++ B) -> exact z (A ++ [x] ++ B) -> good_update z update A ->
  exists z1 z', zslDeleteNode (c_addr x) update z = Done (tt, z1) /\ zslFreeNode (c_addr x) z1 = Done (tt, z') /\ rep z' (A ++ B) /\ exact z' (A ++ B) /\
    good_update z' update A /\ zsl_header z' = zsl_header z.
Proof.
  intros Hr Hx Hu. destruct (zslDeleteNode_ok z A x B update Hr Hu) as (z1 & E1 & Hr1 & Hd & Hh & Hf & Hl).
  pose proof (rp_cells _ _ Hr) as Hc. apply cells_app in Hc as [_ [Hcx _]]. pose proof (rp_nodup _ _ Hr) as Hnd.
  destruct (proj1 (is_Some_meta z1 (c_addr x)) (proj2 (Hd _) (mk_is_Some _ _ Hcx))) as [n Hn].
  exists z1, (set_zsl_nodes (delete (c_addr x) (zsl_nodes z1)) z1). split; [done|]. split; [unfold zslFreeNode; by rewrite Hn|].
  assert (Hnx : c_addr x ∉ zsl_header z1 :: addrs (A ++ B)).
  { rewrite Hh, map_app. destruct (nodup_parts _ _ _ _ Hnd) as [HA HB]. intros Hin. rewrite app_comm_cons in Hin. apply elem_of_app in Hin as [Hin|Hin].
    - destruct (HA _ Hin) as [Hi _]. apply Hi. by left.
    - apply (HB _ Hin). by left. }
  split; [|split; [|split; [|done]]].
  - eapply rep_frame; [..|exact Hr1]; try done; cbn.
    + intros a Ha. rewrite lookup_delete_ne; [done|]. by intros <-.
    + intros a Ha. rewrite lookup_delete_None. right. by apply (rp_fresh _ _ Hr1).
  - intros a Ha. cbn in Ha. apply lookup_delete_is_Some in Ha as [Hne Ha]. cbn. rewrite Hh.
    specialize (Hx a (proj1 (is_Some_meta _ _) (proj1 (Hd a) (proj2 (is_Some_meta _ _) Ha)))). rewrite !map_app in *. cbn in *. set_solver.
  - intros i Hi. cbn in Hi |- *. rewrite Hh. apply Hu. lia.
Qed.

(** ** Insertion *)
Lemma random_level_ge rs k level : random_level rs k = Done level -> (k <= level)%nat.
Proof. revert k. induction rs as [|r rs IH]; intros k; cbn; [done|]. destruct (_ <? _); [intros ?%IH; lia|by intros [= ->]]. Qed.
Lemma zslRandomLevel_range rs level : zslRandomLevel rs = Done level -> (1 <= level <= ZSKIPLIST_MAXLEVEL)%nat.
Proof.
  unfold zslRandomLevel. destruct (random_level rs 1) as [k|] eqn:E; [|done]. cbn -[ZSKIPLIST_MAXLEVEL Nat.ltb]. intros [= <-].
  apply random_level_ge in E. destruct (Nat.ltb_spec k ZSKIPLIST_MAXLEVEL); unfold ZSKIPLIST_MAXLEVEL in *; lia.
Qed.

Lemma good_update_search z A : good_update z (update_of z (zsl_level z) A) A.
Proof. intros i Hi. by apply update_of_at. Qed.

Lemma rep_low z L i : rep z L -> (zsl_level z <= i)%nat -> Forall (low i) L.
Proof. intros H Hi. eapply Forall_impl; [apply (rp_heights _ _ H)|]. cbn. lia. Qed.

Lemma lvl_ok_empty z i L : Forall (low i) L -> entry z (zsl_header z) i = Some (mkLevel None (Z.of_nat (length L))) -> lvl_ok z i L.
Proof.
  intros Hl He X Y E HT. destruct X as [|c X _] using rev_ind; [cbn in E; subst Y; cbn; rewrite He, lv_end by done; done|].
  apply tall_snoc in HT. rewrite E, !Forall_app in Hl. destruct Hl as [[_ Hl] _]. apply Forall_cons in Hl as [Hl _]. lia.
Qed.

Lemma grow_loop z L k : rep z L -> (zsl_level z + k <= ZSKIPLIST_MAXLEVEL)%nat ->
  exists z', for_each (seq (zsl_level z) k) (grow_level (zsl_header z) (zsl_length z)) z = Done (tt, z') /\
    changed (fun j => zsl_level z <= j < zsl_level z + k)%nat z z' /\ (forall i, (zsl_level z <= i < zsl_level z + k)%nat -> lvl_ok z' i L).
Proof.
  intros Hr Hk. pose proof (rp_bound _ _ Hr) as Hb.
  apply (levels_loop (grow_level (zsl_header z) (zsl_length z)) (fun i z => forward <$> entry z (zsl_header z) i = Some None) (fun i z => lvl_ok z i L)).
  - intros D z1 z2 C j Hj. split; [|by eapply lvl_ok_changed]. by rewrite (changed_header _ _ _ C), (ch_entry _ _ _ C).
  - intros i z1 Hi C Ho. destruct (entry z1 (zsl_header z1) i) as [l|] eqn:E; [|done]. injection Ho as Hf.
    rewrite (changed_header _ _ _ C) in E.
    destruct (upd_level_ok _ _ (fun l => mkLevel (forward l) (to_u 32 (zsl_length z))) _ _ E) as (z2 & E2 & W2).
    exists z2. split; [exact E2|]. pose proof (wrote_changed _ _ _ _ _ W2) as C2. split; [done|].
    apply lvl_ok_empty; [by eapply rep_low; [exact Hr|lia]|].
    rewrite (changed_header _ _ _ C2), (changed_header _ _ _ C), (wr_entry _ _ _ _ _ W2), Hf, (rp_len _ _ Hr), to_u_small; [done|unfold in_u; lia].
  - intros i Hi. apply (rp_above _ _ Hr). lia.
Qed.

Lemma grow_ok z A B level : rep z (A ++ B) -> (level <= ZSKIPLIST_MAXLEVEL)%nat ->
  exists z' update, grow level (update_of z (zsl_level z) A) z = Done (update, z') /\ rep z' (A ++ B) /\ good_update z' update A /\
    (level <= zsl_level z')%nat /\ zsl_header z' = zsl_header z /\ zsl_fresh z' = zsl_fresh z /\ same_dom z z'.
Proof.
  intros Hr Hl. unfold grow. run. destruct (Nat.ltb_spec (zsl_level z) level) as [Hlt|Hge].
  2:{ exists z, (update_of z (zsl_level z) A). do 2 (split; [done|]). split; [apply good_update_search|]. by split. }
  destruct (grow_loop z (A ++ B) (level - zsl_level z) Hr ltac:(lia)) as (z1 & E1 & C1 & N1).
  rewrite (prog_bind_step _ _ _ _ _ E1). run. do 2 eexists. split; [reflexivity|].
  pose proof (ch_rest _ _ _ C1) as Er. assert (Hd : same_dom z z1) by (intros a; by rewrite (ch_meta _ _ _ C1)).
  split; [|split; [|split; [cbn; lia|split; [|split; [|exact Hd]]]]]; [| |by rewrite Er|by rewrite Er].
  - pose proof (changed_header _ _ _ C1) as Hh. destruct Hr as [R1 R2 R3 R4 R5 R6 R7 R8 R9 R10 R11].
    split; cbn [zsl_nodes zsl_fresh zsl_header zsl_tail zsl_length zsl_level set_zsl_level]; rewrite ?Hh; try done; [| | | | |by rewrite Er|by rewrite Er| |].
    + by rewrite <- (ch_meta _ _ _ C1) in R1.
    + eapply cells_frame; [|exact R2]. intros a _. apply (ch_meta _ _ _ C1).
    + intros i Hi. destruct (decide (zsl_level z <= i)%nat); [apply (N1 i); lia|].
      apply (lvl_ok_changed _ _ _ _ _ C1); [lia|]. apply R3. lia.
    + intros i Hi. change (forward <$> entry z1 (zsl_header z) i = Some None). rewrite (ch_entry _ _ _ C1) by lia. apply R4. lia.
    + apply (fresh_dom z z1 Hd); [by rewrite Er|done].
    + eapply Forall_impl; [exact R10|]. cbn. lia.
    + lia.
  - intros i Hi. cbn in Hi |- *. rewrite (changed_header _ _ _ C1). destruct (decide (i < zsl_level z)%nat) as [H|H].
    + pose proof (good_update_search z A i H) as Hg. unfold upd_at in *. by rewrite lookup_app_l by (unfold update_of; rewrite length_map, length_seq; lia).
    + destruct (rep_heights_app _ _ _ Hr) as [HA _]. rewrite upto_low by (eapply Forall_impl; [exact HA|cbn; lia]).
      unfold upd_at. rewrite lookup_app_r by (unfold update_of; rewrite length_map, length_seq; lia).
      rewrite lookup_replicate_2 by (unfold update_of; rewrite length_map, length_seq; lia). done.
Qed.

(** The two loops that put [x] in. *)
Lemma insert_loops z A x B update : NoDup (zsl_header z :: addrs (A ++ [x] ++ B)) -> Z.of_nat (length (A ++ [x] ++ B)) < 2 ^ 32 ->
  good_update z update A -> (c_h x <= zsl_level z)%nat -> (forall i, (i < zsl_level z)%nat -> lvl_ok z i (A ++ B)) ->
  (forall i, (i < c_h x)%nat -> is_Some (entry z (c_addr x) i)) ->
  exists z1 z2, for_each (seq 0 (c_h x)) (link_level (c_addr x) update (Z.of_nat (length A))) z = Done (tt, z1) /\
    for_each (seq (c_h x) (zsl_level z1 - c_h x)) (bump_level update) z1 = Done (tt, z2) /\
    changed (fun j => j < zsl_level z)%nat z z2 /\ (forall i, (i < zsl_level z)%nat -> lvl_ok z2 i (A ++ [x] ++ B)).
Proof.
  intros Hnd Hlen Hu Hx Hlv Hxe.
  destruct (levels_loop (link_level (c_addr x) update (Z.of_nat (length A))) (fun i z => lvl_ok z i (A ++ B) /\ is_Some (entry z (c_addr x) i))
    (fun i z => lvl_ok z i (A ++ [x] ++ B)) 0 (c_h x) z) as (z1 & E1 & C1 & N1).
  - intros D za zb C j Hj. split; [|by eapply lvl_ok_changed]. intros [H1 H2]. split; [by eapply lvl_ok_changed|].
    by rewrite (ch_entry _ _ _ C).
  - intros i za Hi C [Ho [l0 Hl0]]. apply (link_ok za i A x B update) with (l0 := l0); [| | |lia|done|done]; rewrite ?(changed_header _ _ _ C); [done|done|].
    apply Hu. lia.
  - intros i Hi. split; [apply Hlv; lia|apply Hxe; lia].
  - destruct (levels_loop (bump_level update) (fun i z => lvl_ok z i (A ++ B)) (fun i z => lvl_ok z i (A ++ [x] ++ B)) (c_h x) (zsl_level z1 - c_h x) z1)
      as (z2 & E2 & C2 & N2).
    + intros D za zb C j Hj. split; by eapply lvl_ok_changed.
    + pose proof (changed_level _ _ _ C1) as El. intros i za Hi C Ho.
      apply (bump_ok za i A x B update); rewrite ?(changed_header _ _ _ C), ?(changed_header _ _ _ C1); [done|done|apply Hu; lia|lia|done].
    + intros i Hi. apply (lvl_ok_changed _ _ _ _ _ C1); [lia|]. apply Hlv. rewrite (changed_level _ _ _ C1) in Hi. lia.
    + rewrite (changed_level _ _ _ C1) in *. exists z1, z2. rewrite (changed_level _ _ _ C1). split; [done|]. split; [done|]. split.
      * eapply changed_trans; [exact C1|exact C2|]. cbn. lia.
      * intros i Hi. destruct (decide (c_h x <= i)%nat); [apply N2; lia|]. apply (lvl_ok_changed _ _ _ _ _ C2); [lia|]. apply N1. lia.
Qed.

Lemma here_back hd A B : NoDup (hd :: addrs (A ++ B)) ->
  (if bool_decide (here hd A = hd) then None else Some (here hd A)) = back None A.
Proof.
  destruct A as [|c A _] using rev_ind; intros H; [by rewrite bool_decide_eq_true_2|]. rewrite here_snoc, back_app. cbn.
  rewrite bool_decide_eq_false_2; [done|]. intros <-. apply NoDup_cons in H as [H _]. apply H. rewrite !map_app. cbn. set_solver.
Qed.

(** The state in front of [insert_end]. *)
Record linked (z : zskiplist) (A : list cell) (x : cell) (B : list cell) : Prop := {
  li_head : meta_at z (zsl_header z) = Some (None, S754_zero false, None, ZSKIPLIST_MAXLEVEL);
  li_A : cells_ok z None A;
  li_x : exists b, meta_at z (c_addr x) = Some (Some (c_obj x), c_score x, b, c_h x);
  li_B : cells_ok z (back None A) B;
  li_lvl : forall i, (i < zsl_level z)%nat -> lvl_ok z i (A ++ [x] ++ B);
  li_above : forall i, (zsl_level z <= i < ZSKIPLIST_MAXLEVEL)%nat -> forward <$> entry z (zsl_header z) i = Some None;
  li_nodup : NoDup (zsl_header z :: addrs (A ++ [x] ++ B));
  li_fresh : forall a, (zsl_fresh z <= a)%positive -> zsl_nodes z !! a = None;
  li_tail : zsl_tail z = back None (A ++ B);
  li_len : zsl_length z + 1 = Z.of_nat (length (A ++ [x] ++ B));
  li_bound : Z.of_nat (length (A ++ [x] ++ B)) < 2 ^ 32;
  li_heights : Forall (fun c => 1 <= c_h c <= zsl_level z)%nat (A ++ [x] ++ B);
  li_level : (1 <= zsl_level z <= ZSKIPLIST_MAXLEVEL)%nat
}.

Lemma insert_end_ok z A x B : linked z A x B ->
  exists z', insert_end (c_addr x) (back None A) z = Done (c_addr x, z') /\ rep z' (A ++ [x] ++ B) /\ same_dom z z' /\ zsl_header z' = zsl_header z.
Proof.
  intros [K1 K2 [b0 K3] K4 K5 K6 K7 K8 K9 K10 K11 K12 K13]. destruct (nodup_cells _ _ _ _ K7) as (HndB & HhB & HAB). destruct (nodup_parts _ _ _ _ K7) as [HA HB].
  assert (HxB : c_addr x ∉ addrs B) by (intros H; apply (HB _ H); by left).
  assert (Hxn : forall a, a ∈ zsl_header z :: addrs A -> a <> c_addr x) by (intros a Ha ->; destruct (HA _ Ha) as [H _]; apply H; by left).
  destruct (set_backward_ok (c_addr x) (back None A) z _ _ _ _ K3) as (z1 & E1 & He1 & Hm1 & Ho1 & Hr1).
  unfold insert_end. rewrite (prog_bind_step _ _ _ _ _ E1). apply Forall_app in K12 as [K12 K14]. apply Forall_cons in K14 as [K14 K15].
  assert (Hx0 : entry z1 (c_addr x) 0 = Some (lv 0 B)).
  { rewrite He1, <- (here_snoc (zsl_header z) A x). apply K5; [lia|by rewrite <- app_assoc|apply tall_snoc; lia]. }
  destruct (entry_read _ _ _ _ Hx0) as (n & Hn & Hl). rewrite (prog_bind_step _ _ _ _ _ Hn), Hl, bind_lift, (lv_0 _ _ K15).
  destruct (relink_ok z1 (Some (c_addr x)) (back None A) B (back None A)) as (z2 & E2 & He2 & Hc2 & Hm2 & Ht2 & Hr2); [done| | |].
  { eapply cells_frame; [|exact K4]. intros a Ha. apply Ho1. by intros ->. }
  { rewrite Hr1. cbn. by rewrite K9, back_app. }
  rewrite (prog_bind_step _ _ _ _ _ E2). run. eexists. split; [reflexivity|].
  assert (Hh2 : zsl_header z2 = zsl_header z) by (by rewrite Hr2, Hr1). assert (Hl2 : zsl_level z2 = zsl_level z) by (by rewrite Hr2, Hr1).
  assert (Hlen : zsl_length z2 = zsl_length z) by (by rewrite Hr2, Hr1).
  assert (HxM : meta_at z2 (c_addr x) = Some (Some (c_obj x), c_score x, back None A, c_h x)) by (by rewrite Hm2).
  assert (Hd : same_dom z z2).
  { apply (same_dom_trans z z1 z2).
    - intros a. destruct (decide (a = c_addr x)) as [->|Hne]; [by rewrite Hm1, K3|by rewrite Ho1].
    - apply (cells_dom z1 z2 (back None A) (Some (c_addr x)) B); [|done|done]. eapply cells_frame; [|exact K4]. intros a Ha. apply Ho1. by intros ->. }
  assert (HcA : cells_ok z2 None A).
  { eapply cells_frame; [|exact K2]. intros a Ha. rewrite Hm2 by (by apply HAB). apply Ho1, Hxn. by right. }
  split; [|by split]. split; cbn [zsl_nodes zsl_fresh zsl_header zsl_tail zsl_length zsl_level set_zsl_length]; rewrite ?Hh2, ?Hl2; try done.
  - change (meta_at z2 (zsl_header z) = Some (None, S754_zero false, None, ZSKIPLIST_MAXLEVEL)). by rewrite Hm2, Ho1 by (done || apply Hxn; by left).
  - apply cells_app. split; [by eapply cells_frame; [|exact HcA]|]. split; [done|]. by eapply cells_frame; [|exact Hc2].
  - intros i Hi. eapply lvl_ok_eq; [|intros a _|by apply K5]; [done|]. cbn. by rewrite <- He1, <- He2.
  - intros i Hi. change (forward <$> entry z2 (zsl_header z) i = Some None). rewrite He2, He1. by apply K6.
  - apply (fresh_dom z z2 Hd); [by rewrite Hr2, Hr1|done].
  - by rewrite Ht2, !back_app.
  - rewrite Hlen, K10, to_u_small; [done|unfold in_u; lia].
  - apply Forall_app. split; [done|]. by constructor.
Qed.

Definition with_node (x : positive) (n : zskiplistNode) (z : zskiplist) : zskiplist :=
  set_zsl_fresh (Pos.succ x) (set_zsl_nodes (<[x := n]> (zsl_nodes z)) z).

Lemma fresh_new z L : rep z L -> zsl_fresh z ∉ zsl_header z :: addrs L.
Proof.
  intros Hr Hin. pose proof (rp_fresh _ _ Hr (zsl_fresh z) ltac:(lia)) as Hf.
  assert (Hs : is_Some (meta_at z (zsl_fresh z))).
  { apply elem_of_cons in Hin as [->|Hin]; [by rewrite (rp_head _ _ Hr)|]. eapply cells_in; [apply (rp_cells _ _ Hr)|done]. }
  apply is_Some_meta in Hs. rewrite Hf in Hs. by destruct Hs.
Qed.

Lemma nodup_with hd A x B : NoDup (hd :: addrs (A ++ B)) -> c_addr x ∉ hd :: addrs (A ++ B) -> NoDup (hd :: addrs (A ++ [x] ++ B)).
Proof.
  rewrite !map_app. cbn. intros [Hh H]%NoDup_cons Hx. apply NoDup_app in H as (H1 & H2 & H3). apply NoDup_cons. split; [set_solver|].
  apply NoDup_app. split; [done|]. split; [set_solver|]. apply NoDup_cons. split; [set_solver|done].
Qed.

Section Insert.
Context (junk : zskiplistLevel) (z : zskiplist) (A B : list cell) (update : list (positive * Z)) (x : cell).
Hypothesis Hrep : rep z (A ++ B).
Hypothesis Hu : good_update z update A.
Hypothesis Hx : c_addr x = zsl_fresh z.
Hypothesis Hh : (1 <= c_h x <= zsl_level z)%nat.
Hypothesis Hlen : Z.of_nat (length (A ++ B)) + 1 < 2 ^ 32.

Let z0 := with_node (c_addr x) (mkNode (Some (c_obj x)) (c_score x) None (replicate (c_h x) junk)) z.

Lemma with_node_old a : a ∈ zsl_header z :: addrs (A ++ B) -> zsl_nodes z0 !! a = zsl_nodes z !! a.
Proof using Hrep Hx.
  intros Ha. cbn. rewrite lookup_insert_ne; [done|]. intros <-. rewrite Hx in Ha. by apply (fresh_new _ _ Hrep) in Ha.
Qed.

Lemma insert_linked : exists z1 z2, for_each (seq 0 (c_h x)) (link_level (c_addr x) update (Z.of_nat (length A))) z0 = Done (tt, z1) /\
  for_each (seq (c_h x) (zsl_level z1 - c_h x)) (bump_level update) z1 = Done (tt, z2) /\ linked z2 A x B /\
  zsl_header z2 = zsl_header z /\ (forall a, is_Some (meta_at z2 a) <-> a = c_addr x \/ is_Some (meta_at z a)).
Proof using Hrep Hu Hx Hh Hlen.
  assert (Hnd : NoDup (zsl_header z :: addrs (A ++ [x] ++ B))).
  { apply nodup_with; [apply (rp_nodup _ _ Hrep)|]. rewrite Hx. by apply fresh_new. }
  assert (Hl : Z.of_nat (length (A ++ [x] ++ B)) = Z.of_nat (length (A ++ B)) + 1) by (rewrite !length_app; cbn; lia).
  assert (Hm : forall a, a ∈ zsl_header z :: addrs (A ++ B) -> meta_at z0 a = meta_at z a) by (intros a Ha; unfold meta_at; by rewrite with_node_old).
  assert (Hmx : meta_at z0 (c_addr x) = Some (Some (c_obj x), c_score x, None, c_h x)).
  { unfold meta_at, meta. cbn. rewrite lookup_insert_eq. cbn. by rewrite length_replicate. }
  destruct (insert_loops z0 A x B update) as (z1 & z2 & E1 & E2 & C & N); [done|by rewrite Hl|done|cbn; lia| | |].
  { intros i Hi. eapply lvl_ok_eq; [| |by apply (rp_lvl _ _ Hrep)]; [done|]. intros a Ha. unfold entry. by rewrite with_node_old. }
  { intros i Hi. unfold entry. cbn. rewrite lookup_insert_eq. cbn. rewrite lookup_replicate_2 by done. done. }
  exists z1, z2. split; [done|]. split; [done|]. pose proof (ch_rest _ _ _ C) as Er. pose proof (ch_meta _ _ _ C) as Em.
  assert (Hh2 : zsl_header z2 = zsl_header z) by (by rewrite Er). assert (Hl2 : zsl_level z2 = zsl_level z) by (by rewrite Er).
  split; [|split; [done|]].
  - pose proof (rp_cells _ _ Hrep) as Hc. apply cells_app in Hc as [HcA HcB]. split; rewrite ?Hh2, ?Hl2; try done.
    + rewrite Em, Hm by (by left). apply (rp_head _ _ Hrep).
    + eapply cells_frame; [|exact HcA]. intros a Ha. rewrite Em. apply Hm. rewrite map_app. set_solver.
    + exists None. by rewrite Em.
    + eapply cells_frame; [|exact HcB]. intros a Ha. rewrite Em. apply Hm. rewrite map_app. set_solver.
    + intros i Hi. rewrite (ch_entry _ _ _ C) by (cbn; lia). unfold entry. rewrite with_node_old by (by left). by apply (rp_above _ _ Hrep).
    + intros a Ha. rewrite Er in Ha. cbn in Ha. apply eq_None_not_Some. intros Hs. apply is_Some_meta in Hs. rewrite Em in Hs. apply is_Some_meta in Hs.
      cbn in Hs. rewrite lookup_insert_ne, (rp_fresh _ _ Hrep) in Hs by lia. by destruct Hs.
    + rewrite Er. apply (rp_tail _ _ Hrep).
    + rewrite Er, Hl. cbn. by rewrite (rp_len _ _ Hrep).
    + by rewrite Hl.
    + destruct (rep_heights_app _ _ _ Hrep) as [H1 H2]. apply Forall_app. split; [done|]. by constructor.
    + apply (rp_level _ _ Hrep).
  - intros a. rewrite Em, !is_Some_meta. cbn. rewrite lookup_insert_is_Some. destruct (decide (c_addr x = a)) as [->|]; [|naive_solver]. naive_solver.
Qed.
End Insert.

Lemma zslInsert_ok junk z A B sc obj rs level : rep z (A ++ B) -> exact z (A ++ B) -> isnan sc = false -> zslRandomLevel rs = Done level ->
  Z.of_nat (length (A ++ B)) + 1 < 2 ^ 32 ->
  (forall X c Y n, A ++ B = X ++ c :: Y -> zsl_nodes z !! c_addr c = Some n -> node_lt n sc obj = bool_decide (length X < length A)%nat) ->
  let x := mkCell (zsl_fresh z) sc obj level in
  exists z', zslInsert junk sc obj rs z = Done (c_addr x, z') /\ rep z' (A ++ [x] ++ B) /\ exact z' (A ++ [x] ++ B).
Proof.
  intros Hr Hx Hnan Hrs Hlen HP x. pose proof (zslRandomLevel_range _ _ Hrs) as Hlv. unfold zslInsert. rewrite Hnan. change (require_b AssertFail (negb false)) with (Done tt). run.
  rewrite (prog_bind_step _ _ _ _ _ (zsl_search_ok z A B 32 (fun _ n => node_lt n sc obj) Hr ltac:(lia) HP)), Hrs, bind_lift.
  destruct (grow_ok z A B level Hr ltac:(lia)) as (z1 & update & E1 & Hr1 & Hu1 & Hl1 & Hh1 & Hf1 & Hd1).
  rewrite (prog_bind_step _ _ _ _ _ E1). unfold zslCreateNode at 1. rewrite (prog_bind_step _ _ _ _ _ eq_refl).
  pose proof (rp_level _ _ Hr1) as Hlv1. rewrite (Hu1 0%nat ltac:(lia)), bind_lift. cbn [fst snd].
  destruct (rep_heights_app _ _ _ Hr) as [HA _]. rewrite (upto_0 _ _ HA).
  destruct (insert_linked junk z1 A B update x Hr1 Hu1) as (z2 & z3 & E2 & E3 & Hl3 & Hh3 & Hd3); [by rewrite Hf1|cbn; lia|done|].
  cbn [c_addr c_h c_obj c_score x] in E2, E3. unfold with_node in E2. rewrite Hf1. rewrite (prog_bind_step _ _ _ _ _ E2). run.
  rewrite (prog_bind_step _ _ _ _ _ E3), Hh1, (here_back _ A B) by apply (rp_nodup _ _ Hr).
  destruct (insert_end_ok z3 A x B Hl3) as (z4 & E4 & Hr4 & Hd4 & Hh4). exists z4. split; [exact E4|]. split; [done|].
  intros a Ha. apply is_Some_meta, Hd4, Hd3 in Ha. rewrite Hh4, Hh3, Hh1. destruct Ha as [->|Ha]; [rewrite !map_app; set_solver|].
  apply Hd1, is_Some_meta, Hx in Ha. rewrite !map_app in *. cbn. set_solver.
Qed.
End ZSkipInv.
