(* ===== verification/ZSkipSpec.v ===== *)
(** * The skip list of t_zset.c refines a sorted list

    The abstract state is the list of the (score, member) pairs in the order of the
    code: by score, members of equal score by their bytes.  The order is total on
    scores that are no NaN; what the operations do to the list and answer is given by
    [zs_spec]. *)
From S2P Require Import Prelude CStr Object ZSkip ZSkipInv.
From Stdlib Require Import SpecFloat Sorting.Sorted.
Import Object ZSkip ZSkipInv.

Module ZSkipSpec.

(** ** The order of scores *)
(** Doubles that are no NaN compare as triples of integers do. *)
Definition key (x : spec_float) : Z * Z * Z :=
  match x with
  | S754_zero _ => (0, 0, 0)
  | S754_infinity b => (if b then -2 else 2, 0, 0)
  | S754_finite b m e => if b then (-1, - e, - Z.pos m) else (1, e, Z.pos m)
  | S754_nan => (3, 0, 0)
  end.
Definition key_lt (a b : Z * Z * Z) : Prop :=
  let '(a1, a2, a3) := a in let '(b1, b2, b3) := b in a1 < b1 \/ a1 = b1 /\ (a2 < b2 \/ a2 = b2 /\ a3 < b3).

Lemma SFcompare_key a b : isnan a = false -> isnan b = false ->
  match SFcompare a b with
  | Some Lt => key_lt (key a) (key b) | Some Eq => key a = key b | Some Gt => key_lt (key b) (key a) | None => False
  end.
Proof.
  destruct a as [sa|sa| |sa ma ea], b as [sb|sb| |sb mb eb]; try done; intros _ _; cbn;
    repeat match goal with
    | |- context [if ?s then _ else _] => is_var s; destruct s
    end; cbn; try lia; try done.
  all: destruct (Z.compare_spec ea eb); cbn; [|lia|lia]; subst.
  all: try change (Pos.compare_cont Eq ma mb) with (Pos.compare ma mb).
  all: destruct (Pos.compare_spec ma mb); cbn; subst; try lia; done.
Qed.

Lemma SFltb_key a b : isnan a = false -> isnan b = false -> SFltb a b = true <-> key_lt (key a) (key b).
Proof.
  intros Ha Hb. unfold SFltb. pose proof (SFcompare_key a b Ha Hb) as H. destruct (key a) as [[? ?] ?], (key b) as [[? ?] ?].
  destruct (SFcompare a b) as [[]|]; cbn in *; split; intros; try done; try lia. injection H as; lia.
Qed.
Lemma SFeqb_key a b : isnan a = false -> isnan b = false -> SFeqb a b = true <-> key a = key b.
Proof.
  intros Ha Hb. unfold SFeqb. pose proof (SFcompare_key a b Ha Hb) as H. destruct (key a) as [[? ?] ?], (key b) as [[? ?] ?].
  destruct (SFcompare a b) as [[]|]; cbn in *; split; intros E; try done; try (injection E as; lia).
Qed.
Lemma SFleb_key a b : isnan a = false -> isnan b = false -> SFleb a b = true <-> ~ key_lt (key b) (key a).
Proof.
  intros Ha Hb. unfold SFleb. pose proof (SFcompare_key a b Ha Hb) as H. destruct (key a) as [[? ?] ?], (key b) as [[? ?] ?].
  destruct (SFcompare a b) as [[]|]; cbn in *; split; intros E; try done; try lia. injection H as; lia.
Qed.

(** ** The order of members *)
Lemma cmp_obj_cons b c x y : cmp_obj (b :: x) (c :: y) = if code b =? code c then cmp_obj x y else code b - code c.
Proof.
  unfold cmp_obj, sdslen. cbn. destruct (Z.eqb_spec (code b) (code c)) as [E|E].
  - destruct (_ =? 0); [|done]. lia.
  - destruct (Z.eqb_spec (code b - code c) 0); [lia|done].
Qed.

Lemma cmp_obj_nil_l y : cmp_obj [] y = - sdslen y.
Proof. done. Qed.
Lemma cmp_obj_nil_r x : cmp_obj x [] = sdslen x.
Proof. destruct x; [done|]. unfold cmp_obj, sdslen. cbn. lia. Qed.

Ltac cmp_nil := intros; rewrite ?cmp_obj_nil_l, ?cmp_obj_nil_r in *; unfold sdslen in *; cbn [length] in *; lia.

Lemma cmp_obj_refl x : cmp_obj x x = 0.
Proof. induction x as [|b x IH]; [done|]. by rewrite cmp_obj_cons, Z.eqb_refl. Qed.

Lemma cmp_obj_eq x y : cmp_obj x y = 0 <-> x = y.
Proof.
  split; [|intros ->; apply cmp_obj_refl]. revert y. induction x as [|b x IH]; intros [|c y]; [done|cmp_nil|cmp_nil|].
  rewrite cmp_obj_cons. destruct (Z.eqb_spec (code b) (code c)) as [E|E]; [|lia]. intros H. f_equal; [|by apply IH].
  by rewrite <- (chr_code b), E, chr_code.
Qed.

Lemma cmp_obj_flip x y : cmp_obj y x = - cmp_obj x y.
Proof.
  revert y. induction x as [|b x IH]; intros [|c y]; [done|cmp_nil|cmp_nil|]. rewrite !cmp_obj_cons, (Z.eqb_sym (code c)).
  destruct (_ =? _); [apply IH|lia].
Qed.

Lemma cmp_obj_trans x y w : cmp_obj x y < 0 -> cmp_obj y w < 0 -> cmp_obj x w < 0.
Proof.
  revert y w. induction x as [|b x IH]; intros [|c y] [|d w]; try cmp_nil. rewrite !cmp_obj_cons.
  destruct (Z.eqb_spec (code b) (code c)), (Z.eqb_spec (code c) (code d)), (Z.eqb_spec (code b) (code d)); try lia. apply IH.
Qed.

(** ** The order of elements *)
Abbreviation elt := (spec_float * sds)%type (only parsing).
Definition elt_of (c : cell) : elt := (c_score c, c_obj c).
Definition elt_lt (a b : elt) : bool :=
  SFltb (fst a) (fst b) || (SFeqb (fst a) (fst b) && (cmp_obj (snd a) (snd b) <? 0)).
Definition elt_le (a b : elt) : bool :=
  SFltb (fst a) (fst b) || (SFeqb (fst a) (fst b) && (cmp_obj (snd a) (snd b) <=? 0)).
Definition num (a : elt) : Prop := isnan (fst a) = false.
Definition sorted (l : list elt) : Prop := StronglySorted (fun a b => elt_lt a b = true) l.

Lemma elt_lt_key a b : num a -> num b ->
  elt_lt a b = true <-> key_lt (key (fst a)) (key (fst b)) \/ key (fst a) = key (fst b) /\ cmp_obj (snd a) (snd b) < 0.
Proof.
  intros Ha Hb. unfold elt_lt. rewrite orb_true_iff, andb_true_iff, SFltb_key, SFeqb_key, Z.ltb_lt by done. tauto.
Qed.
Lemma elt_le_key a b : num a -> num b ->
  elt_le a b = true <-> key_lt (key (fst a)) (key (fst b)) \/ key (fst a) = key (fst b) /\ cmp_obj (snd a) (snd b) <= 0.
Proof.
  intros Ha Hb. unfold elt_le. rewrite orb_true_iff, andb_true_iff, SFltb_key, SFeqb_key, Z.leb_le by done. tauto.
Qed.

Lemma key_lt_trans a b c : key_lt a b -> key_lt b c -> key_lt a c.
Proof. destruct a as [[? ?] ?], b as [[? ?] ?], c as [[? ?] ?]. cbn. lia. Qed.
Lemma key_lt_irrefl a : ~ key_lt a a.
Proof. destruct a as [[? ?] ?]. cbn. lia. Qed.
Lemma key_lt_total a b : key_lt a b \/ a = b \/ key_lt b a.
Proof.
  destruct a as [[a1 a2] a3], b as [[b1 b2] b3]. cbn. destruct (decide ((a1, a2, a3) = (b1, b2, b3))) as [E|E]; [by right; left|].
  assert (a1 <> b1 \/ a2 <> b2 \/ a3 <> b3); [|lia].
  destruct (decide (a1 = b1)), (decide (a2 = b2)), (decide (a3 = b3)); subst; try tauto.
Qed.

Lemma elt_lt_trans a b c : num a -> num b -> num c -> elt_lt a b = true -> elt_lt b c = true -> elt_lt a c = true.
Proof.
  intros Ha Hb Hc. rewrite !elt_lt_key by done. intros [H1|[E1 H1]] [H2|[E2 H2]].
  - left. by eapply key_lt_trans.
  - left. by rewrite <- E2.
  - left. by rewrite E1.
  - right. split; [congruence|]. by eapply cmp_obj_trans.
Qed.

Lemma elt_lt_score a b : num a -> num b -> elt_lt a b = true -> ~ key_lt (key (fst b)) (key (fst a)).
Proof.
  intros Ha Hb. rewrite elt_lt_key by done. intros [H|[H _]] H'; [|rewrite H in H'; by apply key_lt_irrefl in H'].
  apply (key_lt_irrefl (key (fst a))). by eapply key_lt_trans.
Qed.

(** [p] holds of a first part of every sorted list. *)
Definition down (p : elt -> bool) : Prop := forall a b, num a -> num b -> elt_lt a b = true -> p b = true -> p a = true.

Lemma down_lt e : num e -> down (fun a => elt_lt a e).
Proof. intros He a b Ha Hb H1 H2. by eapply (elt_lt_trans a b e). Qed.
Lemma down_le e : num e -> down (fun a => elt_le a e).
Proof.
  intros He a b Ha Hb H1. apply elt_lt_key in H1; [|done|done]. rewrite !elt_le_key by done. intros [H2|[E2 H2]].
  - left. destruct H1 as [H1|[E1 _]]; [by eapply key_lt_trans|by rewrite E1].
  - destruct H1 as [H1|[E1 H1]]; [left; by rewrite <- E2|]. right. split; [congruence|]. destruct (Z.eq_dec (cmp_obj (snd b) (snd e)) 0) as [E|E].
    + apply cmp_obj_eq in E. rewrite <- E. lia.
    + pose proof (cmp_obj_trans _ _ (snd e) H1 ltac:(lia)). lia.
Qed.
Lemma down_score_lt m : isnan m = false -> down (fun a => SFltb (fst a) m).
Proof.
  intros Hm a b Ha Hb H1. rewrite !SFltb_key by done. intros H2. apply elt_lt_score in H1; [|done|done].
  destruct (key_lt_total (key (fst a)) (key (fst b))) as [H|[H|H]]; [by eapply key_lt_trans|by rewrite H|done].
Qed.
Lemma down_score_le m : isnan m = false -> down (fun a => SFleb (fst a) m).
Proof.
  intros Hm a b Ha Hb H1. rewrite !SFleb_key by done. intros H2 H3. apply H2. apply elt_lt_score in H1; [|done|done].
  destruct (key_lt_total (key (fst a)) (key (fst b))) as [H|[H|H]]; [by eapply key_lt_trans|by rewrite <- H|done].
Qed.

(** The same on the elements of one list. *)
Definition down_on (l : list elt) (p : elt -> bool) : Prop := forall a b, a ∈ l -> b ∈ l -> elt_lt a b = true -> p b = true -> p a = true.

Lemma down_down_on l p : Forall num l -> down p -> down_on l p.
Proof. intros Hn Hp a b Ha Hb. rewrite Forall_forall in Hn. apply Hp; auto. Qed.

Lemma sorted_split p L : down_on (map elt_of L) p -> sorted (map elt_of L) ->
  L = List.filter (fun c => p (elt_of c)) L ++ List.filter (fun c => negb (p (elt_of c))) L.
Proof.
  induction L as [|c L IH]; intros Hp Hs; [done|]. apply StronglySorted_inv in Hs as [Hs Hall].
  cbn. destruct (p (elt_of c)) eqn:E; cbn.
  { rewrite <- IH; [done| |done]. intros a b Ha Hb. apply Hp; by right. }
  assert (HF : Forall (fun d => p (elt_of d) = false) L).
  { apply Forall_forall. intros d Hd. apply not_true_is_false. intros Hpd. rewrite (Hp (elt_of c) (elt_of d)) in E; [done|by left| | |done].
    - right. by apply list_elem_of_fmap_2.
    - rewrite Forall_forall in Hall. apply Hall. by apply list_elem_of_fmap_2. }
  clear - HF. assert (List.filter (fun c => p (elt_of c)) L = [] /\ List.filter (fun c => negb (p (elt_of c))) L = L) as [-> ->]; [|done].
  induction HF as [|d L Hd _ [IH1 IH2]]; [done|]. cbn. rewrite Hd. cbn. by rewrite IH1, IH2.
Qed.

(** ** Skip lists that hold sorted elements *)
(** The members are unique: the caller keeps them in a dict. *)
Record zsl_ok (z : zskiplist) (L : list cell) : Prop := {
  zo_rep : rep z L;
  zo_exact : exact z L;
  zo_num : Forall num (map elt_of L);
  zo_sorted : sorted (map elt_of L);
  zo_objs : NoDup (map c_obj L)
}.

Lemma cut_pos p (A B : list cell) : Forall (fun c => p (elt_of c) = true) A -> Forall (fun c => p (elt_of c) = false) B ->
  forall X c Y, A ++ B = X ++ c :: Y -> p (elt_of c) = bool_decide (length X < length A)%nat.
Proof.
  intros HA HB X c Y E. assert (Hc : (A ++ B) !! length X = Some c) by (rewrite E; by apply list_lookup_middle).
  destruct (decide (length X < length A)%nat) as [H|H].
  - rewrite bool_decide_eq_true_2 by done. rewrite lookup_app_l in Hc by done. rewrite Forall_lookup in HA. by eapply HA.
  - rewrite bool_decide_eq_false_2 by done. rewrite lookup_app_r in Hc by lia. rewrite Forall_lookup in HB. by eapply HB.
Qed.

Lemma filter_all (f : cell -> bool) L : Forall (fun c => f c = true) (List.filter f L).
Proof. apply Forall_forall. intros c Hc. apply list_elem_of_In, filter_In in Hc. tauto. Qed.

(** What a search reads of a node is the cell of it. *)
Definition reads (P : Z -> zskiplistNode -> bool) (p : elt -> bool) : Prop :=
  forall t n c, n_obj n = Some (c_obj c) -> n_score n = c_score c -> P t n = p (elt_of c).

Lemma rep_cell z A c B n : rep z (A ++ c :: B) -> zsl_nodes z !! c_addr c = Some n -> n_obj n = Some (c_obj c) /\ n_score n = c_score c.
Proof. intros Hr Hn. destruct (rep_node _ _ _ _ Hr) as (m & Hm & E). rewrite Hn in Hm. injection Hm as <-. by injection E as -> -> _ _. Qed.

Lemma reads_cut z A B P p : reads P p -> rep z (A ++ B) -> Forall (fun c => p (elt_of c) = true) A -> Forall (fun c => p (elt_of c) = false) B ->
  forall X c Y n, A ++ B = X ++ c :: Y -> zsl_nodes z !! c_addr c = Some n -> P (Z.of_nat (S (length X))) n = bool_decide (length X < length A)%nat.
Proof.
  intros HP Hr HA HB X c Y n E Hn. rewrite <- (cut_pos p A B HA HB X c Y E). rewrite E in Hr. destruct (rep_cell _ _ _ _ _ Hr Hn). by apply HP.
Qed.

(** The cells before and behind the place that a search finds. *)
Abbreviation below p L := (List.filter (fun c => p (elt_of c)) L) (only parsing).
Abbreviation above p L := (List.filter (fun c => negb (p (elt_of c))) L) (only parsing).

Lemma zsl_down z L p : zsl_ok z L -> down p -> down_on (map elt_of L) p.
Proof. intros H. apply down_down_on, (zo_num _ _ H). Qed.

Lemma zsl_split z L p : zsl_ok z L -> down_on (map elt_of L) p -> L = below p L ++ above p L.
Proof. intros H Hp. apply sorted_split; [done|apply (zo_sorted _ _ H)]. Qed.

Lemma above_all p (L : list cell) : Forall (fun c => p (elt_of c) = false) (above p L).
Proof. eapply Forall_impl; [apply filter_all|]. intros c H. by apply negb_true_iff in H. Qed.

Lemma zsl_cut z L p P : zsl_ok z L -> down_on (map elt_of L) p -> reads P p -> rep z (below p L ++ above p L) /\
  forall X c Y n, below p L ++ above p L = X ++ c :: Y -> zsl_nodes z !! c_addr c = Some n ->
    P (Z.of_nat (S (length X))) n = bool_decide (length X < length (below p L))%nat.
Proof.
  intros H Hp HP. assert (Hr : rep z (below p L ++ above p L)) by (rewrite <- (zsl_split z L p H Hp); apply (zo_rep _ _ H)).
  split; [done|]. apply reads_cut with p; [done|done|apply filter_all|apply above_all].
Qed.

Lemma reads_lt sc o : reads (fun _ n => node_lt n sc o) (fun a => elt_lt a (sc, o)).
Proof. intros t n c Ho Hs. unfold node_lt, elt_lt. by rewrite Ho, Hs. Qed.
Lemma reads_le sc o : reads (fun _ n => node_le n sc o) (fun a => elt_le a (sc, o)).
Proof. intros t n c Ho Hs. unfold node_le, elt_le. by rewrite Ho, Hs. Qed.

(** ** Insertion *)
Definition spec_insert (e : elt) (l : list elt) : list elt := List.filter (fun a => elt_lt a e) l ++ e :: List.filter (fun a => negb (elt_lt a e)) l.

Lemma map_filter_elt p (L : list cell) : map elt_of (below p L) = List.filter p (map elt_of L).
Proof. induction L as [|c L IH]; [done|]. cbn. destruct (p (elt_of c)); cbn; by rewrite IH. Qed.

Lemma elt_total a b : num a -> num b -> snd a <> snd b -> elt_lt a b = false -> elt_lt b a = true.
Proof.
  intros Ha Hb Hs H. apply not_true_iff_false in H. rewrite elt_lt_key in H |- * by done.
  destruct (key_lt_total (key (fst a)) (key (fst b))) as [H'|[H'|H']]; [tauto| |tauto]. right. split; [done|].
  rewrite cmp_obj_flip. assert (cmp_obj (snd a) (snd b) <> 0) by (by rewrite cmp_obj_eq). assert (~ cmp_obj (snd a) (snd b) < 0) by tauto. lia.
Qed.

Lemma sorted_app A B : sorted (A ++ B) <-> sorted A /\ sorted B /\ forall a b, a ∈ A -> b ∈ B -> elt_lt a b = true.
Proof.
  unfold sorted. induction A as [|x A IH]; cbn; [split; [intros H; repeat split; [constructor|done|by intros ?? ?%elem_of_nil]|tauto]|].
  split.
  - intros [H1 H2]%StronglySorted_inv. apply IH in H1 as (H1 & H3 & H4). apply Forall_app in H2 as [H2 H5].
    split; [by constructor|]. split; [done|]. intros a b [->|Ha]%elem_of_cons Hb; [|by apply H4]. rewrite Forall_forall in H5. by apply H5.
  - intros (H1 & H2 & H3). apply StronglySorted_inv in H1 as [H1 H4]. constructor; [apply IH; repeat split; try done|].
    + intros a b Ha Hb. apply H3; [by right|done].
    + apply Forall_app. split; [done|]. apply Forall_forall. intros b Hb. apply H3; [by left|done].
Qed.

Lemma sorted_insert e l : num e -> Forall num l -> sorted l -> snd e ∉ map snd l -> sorted (spec_insert e l).
Proof.
  intros He Hn Hs Hne.
  assert (HB : forall b, b ∈ List.filter (fun a => negb (elt_lt a e)) l -> elt_lt e b = true).
  { intros b Hb. apply list_elem_of_In, filter_In in Hb as [Hb1 Hb2]. apply list_elem_of_In in Hb1. apply elt_total; [by rewrite Forall_forall in Hn; apply Hn|done| |by apply negb_true_iff].
    intros E. apply Hne. rewrite <- E. by apply list_elem_of_fmap_2. }
  assert (HA : forall a, a ∈ List.filter (fun a => elt_lt a e) l -> elt_lt a e = true /\ num a).
  { intros a Ha. apply list_elem_of_In, filter_In in Ha as [Ha1 Ha2]. split; [done|]. rewrite Forall_forall in Hn. apply Hn. by apply list_elem_of_In. }
  assert (Hnb : forall b, b ∈ List.filter (fun a => negb (elt_lt a e)) l -> num b).
  { intros b Hb. apply list_elem_of_In, filter_In in Hb as [Hb1 _]. rewrite Forall_forall in Hn. apply Hn. by apply list_elem_of_In. }
  assert (Hfs : forall f, sorted (List.filter f l)).
  { intros f. clear - Hs. induction Hs as [|a l Hs IH Ha]; cbn; [constructor|]. destruct (f a); [|done]. constructor; [done|].
    apply Forall_forall. intros b Hb. apply list_elem_of_In, filter_In in Hb as [Hb _]. rewrite Forall_forall in Ha. apply Ha. by apply list_elem_of_In. }
  apply sorted_app. split; [apply Hfs|]. split; [constructor; [apply Hfs|by apply Forall_forall]|].
  intros a b Ha [->|Hb]%elem_of_cons; [by apply HA|]. destruct (HA a Ha). apply (elt_lt_trans a e b); auto.
Qed.

Lemma map_obj L : map c_obj L = map snd (map elt_of L).
Proof. by rewrite map_map. Qed.

(** Where the members are: what a dict of the nodes holds. *)
Definition slots (L : list cell) : list (sds * positive) := map (fun c => (c_obj c, c_addr c)) L.

Lemma insert_ok junk z L sc o rs level : zsl_ok z L -> isnan sc = false -> o ∉ map c_obj L -> zslRandomLevel rs = Done level ->
  Z.of_nat (length L) + 1 < 2 ^ 32 ->
  exists z' L', zslInsert junk sc o rs z = Done (zsl_fresh z, z') /\ zsl_ok z' L' /\ map elt_of L' = spec_insert (sc, o) (map elt_of L) /\
    slots L' ≡ₚ (o, zsl_fresh z) :: slots L.
Proof.
  intros H Hsc Ho Hrs Hlen. pose (p := fun a => elt_lt a (sc, o)). destruct (zsl_cut z L p _ H (zsl_down _ _ _ H (down_lt (sc, o) Hsc)) (reads_lt sc o)) as [Hr HP].
  pose proof (zsl_split z L p H (zsl_down _ _ _ H (down_lt (sc, o) Hsc))) as EL. pose proof (zo_exact _ _ H) as Hx. rewrite EL in Hx, Hlen at 1.
  destruct (zslInsert_ok junk z (below p L) (above p L) sc o rs level Hr Hx Hsc Hrs Hlen HP) as (z' & E & Hr' & Hx').
  set (x := mkCell (zsl_fresh z) sc o level) in *. exists z', (below p L ++ [x] ++ above p L).
  assert (Em : map elt_of (below p L ++ [x] ++ above p L) = spec_insert (sc, o) (map elt_of L)).
  { rewrite map_app. cbn [app map]. rewrite (map_filter_elt p), (map_filter_elt (fun a => negb (p a))). done. }
  split; [done|]. split; [|split; [done|]].
  2: { unfold slots. rewrite EL at 3. rewrite !map_app. cbn. by rewrite <- Permutation_middle. }
  split; [done|done| | |].
  - rewrite Em. unfold spec_insert. pose proof (zo_num _ _ H) as Hn. rewrite EL, map_app in Hn. apply Forall_app in Hn as [Hn1 Hn2].
    rewrite (map_filter_elt p) in Hn1. rewrite (map_filter_elt (fun a => negb (p a))) in Hn2. apply Forall_app. split; [done|]. by constructor.
  - rewrite Em. apply sorted_insert; [done|apply (zo_num _ _ H)|apply (zo_sorted _ _ H)|]. by rewrite <- map_obj.
  - pose proof (zo_objs _ _ H) as Hn. rewrite EL in Hn, Ho. rewrite !map_app in *. cbn. rewrite <- Permutation_middle. by apply NoDup_cons.
Qed.

(** ** Deletion *)
Lemma zsl_ok_sub z A M B z' : zsl_ok z (A ++ M ++ B) -> rep z' (A ++ B) -> exact z' (A ++ B) -> zsl_ok z' (A ++ B).
Proof.
  intros [_ _ Hn Hs Ho] Hr Hx. rewrite !map_app in *. split; [done|done| | |]; rewrite ?map_app.
  - rewrite !Forall_app in *. tauto.
  - apply sorted_app in Hs as (H1 & H2 & H3). apply sorted_app in H2 as (H4 & H5 & H6). apply sorted_app. split; [done|]. split; [done|].
    intros a b Ha Hb. apply H3; [done|]. apply elem_of_app. by right.
  - apply NoDup_app in Ho as (H1 & H2 & H3). apply NoDup_app in H3 as (H4 & H5 & H6). apply NoDup_app. split; [done|]. split; [|done].
    intros a Ha Hb. apply (H2 a Ha). apply elem_of_app. by right.
Qed.

Definition spec_delete (sc : spec_float) (o : sds) (l : list elt) : list elt := List.filter (fun a => negb (SFeqb sc (fst a) && bool_decide (snd a = o))) l.
Definition spec_member (sc : spec_float) (o : sds) (l : list elt) : bool := existsb (fun a => SFeqb sc (fst a) && bool_decide (snd a = o)) l.

Lemma bind_node {X} z a n (f : zskiplistNode -> prog zskiplist X) : zsl_nodes z !! a = Some n -> (node a ≫= f) z = f n z.
Proof. intros H. apply prog_bind_step. unfold node. by rewrite H. Qed.

(** An element with this score and member is the first that is not below it. *)
Lemma found_first (e : elt) l : num e -> Forall num l -> sorted l -> forall a, a ∈ l -> elt_lt a e = false -> SFeqb (fst e) (fst a) = true -> snd a = snd e ->
  head (List.filter (fun a => negb (elt_lt a e)) l) = Some a.
Proof.
  intros He Hn Hs a Ha Hae Hk Ho. induction Hs as [|x l Hs IH Hx]; [by apply elem_of_nil in Ha|]. apply Forall_cons in Hn as [Hnx Hn].
  apply elem_of_cons in Ha as [->|Ha]; [cbn; by rewrite Hae|]. cbn.
  assert (Hxe : elt_lt x e = true); [|rewrite Hxe; by apply IH].
  rewrite Forall_forall in Hx, Hn. pose proof (Hn a Ha) as Hna. pose proof (Hx a Ha) as Hxa. apply SFeqb_key in Hk; [|done|done].
  apply elt_lt_key in Hxa; [|done|done]. apply elt_lt_key; [done|done|]. by rewrite Hk, <- Ho.
Qed.

Definition is_elt (sc : spec_float) (o : sds) (a : elt) : bool := SFeqb sc (fst a) && bool_decide (snd a = o).

Lemma is_elt_not_lt sc o a : isnan sc = false -> num a -> is_elt sc o a = true -> elt_lt a (sc, o) = false.
Proof.
  intros Hs Ha [H1 H2%bool_decide_eq_true]%andb_true_iff. apply SFeqb_key in H1; [|done|done]. apply not_true_iff_false.
  rewrite elt_lt_key by done. cbn. rewrite H1, H2, cmp_obj_refl. pose proof (key_lt_irrefl (key (fst a))). clear H1 H2.
  intros [?|[_ ?]]; [done|lia].
Qed.

Lemma delete_no_elt sc o l : (forall a, a ∈ l -> is_elt sc o a = false) -> spec_delete sc o l = l /\ spec_member sc o l = false.
Proof.
  unfold spec_delete, spec_member, is_elt. induction l as [|a l IH]; intros H; [done|]. cbn. rewrite (H a) by (by left). cbn.
  destruct IH as [-> ->]; [|done]. intros b Hb. apply H. by right.
Qed.

Lemma delete_one sc o A x B : (forall a, a ∈ A ++ B -> is_elt sc o a = false) -> is_elt sc o x = true ->
  spec_delete sc o (A ++ x :: B) = A ++ B /\ spec_member sc o (A ++ x :: B) = true.
Proof.
  intros H Hx. destruct (delete_no_elt sc o A) as [HA1 HA2]; [intros a Ha; apply H, elem_of_app; by left|].
  destruct (delete_no_elt sc o B) as [HB1 HB2]; [intros a Ha; apply H, elem_of_app; by right|].
  unfold spec_delete, spec_member in *. rewrite List.filter_app, existsb_app, HA1. cbn. unfold is_elt in Hx. rewrite Hx. cbn.
  rewrite HB1. split; [done|]. apply orb_true_r.
Qed.

Lemma delete_ok z L sc o : zsl_ok z L -> isnan sc = false -> exists z' L', zslDelete sc o z = Done (spec_member sc o (map elt_of L), z') /\ zsl_ok z' L' /\
  map elt_of L' = spec_delete sc o (map elt_of L) /\ L' ⊆ L.
Proof.
  intros H Hsc. pose (p := fun a => elt_lt a (sc, o)). destruct (zsl_cut z L p _ H (zsl_down _ _ _ H (down_lt (sc, o) Hsc)) (reads_lt sc o)) as [Hr HP].
  pose proof (zsl_split z L p H (zsl_down _ _ _ H (down_lt (sc, o) Hsc))) as EL. pose proof (rp_level _ _ Hr) as Hl.
  pose proof (zo_num _ _ H) as Hn. pose proof (zo_sorted _ _ H) as Hs.
  assert (HB : forall a, a ∈ map elt_of L -> is_elt sc o a = true -> head (map elt_of (above p L)) = Some a).
  { intros a Ha Hm. rewrite (map_filter_elt (fun a => negb (p a))). pose proof (proj1 (Forall_forall _ _) Hn a Ha) as Hna.
    pose proof (is_elt_not_lt _ _ _ Hsc Hna Hm). apply andb_true_iff in Hm as [H1 H2%bool_decide_eq_true]. by apply found_first. }
  unfold zslDelete. run. rewrite (prog_bind_step _ _ _ _ _ (zsl_search_ok z (below p L) (above p L) 64 _ Hr ltac:(lia) HP)).
  rewrite (prog_bind_step _ _ _ _ _ (first_of_ok z (zsl_level z) _ _ Hr ltac:(lia))).
  destruct (above p L) as [|x B] eqn:EB; cbn [head fmap option_fmap option_map].
  - exists z, L. destruct (delete_no_elt sc o (map elt_of L)) as [-> ->]; [|by split].
    intros a Ha. apply not_true_iff_false. intros Hm. by specialize (HB a Ha Hm).
  - destruct (rep_node _ _ _ _ Hr) as (n & Hnx & _). rewrite (bind_node _ _ _ _ Hnx). destruct (rep_cell _ _ _ _ _ Hr Hnx) as [-> ->].
    rewrite (bool_decide_ext (Some (c_obj x) = Some o) (c_obj x = o)) by (split; congruence). fold (is_elt sc o (elt_of x)).
    change (SFeqb sc (c_score x) && bool_decide (c_obj x = o))%bool with (is_elt sc o (elt_of x)).
    destruct (is_elt sc o (elt_of x)) eqn:Ex.
    + rewrite EL in H at 1. change (below p L ++ x :: B) with (below p L ++ [x] ++ B) in *.
      destruct (delete_and_free z (below p L) x B (update_of z (zsl_level z) (below p L)) Hr (zo_exact _ _ H) (good_update_search _ _)) as (z1 & z2 & E1 & E2 & Hr2 & Hx2 & _).
      rewrite (prog_bind_step _ _ _ _ _ E1), (prog_bind_step _ _ _ _ _ E2). exists z2, (below p L ++ B).
      destruct (delete_one sc o (map elt_of (below p L)) (elt_of x) (map elt_of B)) as [Hd1 Hd2]; [|done|].
      * intros a Ha. apply not_true_iff_false. intros [_ Ho%bool_decide_eq_true]%andb_true_iff.
        apply andb_true_iff in Ex as [_ Ex%bool_decide_eq_true]. pose proof (zo_objs _ _ H) as Hd. rewrite map_app in Hd. cbn in Hd.
        rewrite <- Permutation_middle in Hd. apply NoDup_cons in Hd as [Hd _]. apply Hd. cbn in Ex. rewrite <- map_app, map_obj, Ex, <- Ho.
        rewrite <- map_app in Ha. by apply list_elem_of_fmap_2.
      * assert (EM : map elt_of L = map elt_of (below p L) ++ elt_of x :: map elt_of B) by (rewrite EL at 1; by rewrite map_app).
        rewrite EM, Hd1, Hd2, map_app. split; [done|]. split; [exact (zsl_ok_sub z _ [x] _ z2 H Hr2 Hx2)|]. split; [done|].
        intros d Hd. rewrite EL. apply elem_of_app in Hd as [Hd|Hd]; apply elem_of_app; [by left|right; by right].
    + exists z, L. destruct (delete_no_elt sc o (map elt_of L)) as [-> ->]; [|by split].
      intros a Ha. apply not_true_iff_false. intros Hm. specialize (HB a Ha Hm). injection HB as <-. congruence.
Qed.

(** ** Deletion of ranges *)
Definition of_cell (c : cell) (n : zskiplistNode) : Prop := n_obj n = Some (c_obj c) /\ n_score n = c_score c.

Lemma delete_loop_ok Q A E update D : forall z fuel rank, rep z (A ++ D ++ E) -> exact z (A ++ D ++ E) -> good_update z update A ->
  (length D < fuel)%nat -> 0 <= rank -> rank + Z.of_nat (length D) < 2 ^ 64 ->
  (forall j c n, D !! j = Some c -> of_cell c n -> Q (rank + Z.of_nat j) n = true) ->
  (forall c n, head E = Some c -> of_cell c n -> Q (rank + Z.of_nat (length D)) n = false) ->
  exists z', delete_loop Q update fuel (c_addr <$> head (D ++ E)) rank z = Done (map c_obj D, z') /\ rep z' (A ++ E) /\ exact z' (A ++ E).
Proof.
  induction D as [|x D IH]; intros z fuel rank Hr Hx Hu Hf H0 Hb HD HE.
  - destruct E as [|y E]; [destruct fuel; by exists z|]. destruct fuel as [|fuel]; [lia|]. cbn [app head fmap option_fmap option_map delete_loop].
    destruct (rep_node _ _ _ _ Hr) as (n & Hn & _). rewrite (bind_node _ _ _ _ Hn). pose proof (rep_cell _ _ _ _ _ Hr Hn) as Hc.
    specialize (HE y n eq_refl Hc). rewrite Z.add_0_r in HE. rewrite HE. by exists z.
  - destruct fuel as [|fuel]; [cbn in Hf; lia|]. cbn [app head fmap option_fmap option_map delete_loop length] in *.
    destruct (rep_node _ _ _ _ Hr) as (n & Hn & _). rewrite (bind_node _ _ _ _ Hn). pose proof (rep_cell _ _ _ _ _ Hr Hn) as Hc.
    pose proof (HD 0%nat x n eq_refl Hc) as HQ. rewrite Z.add_0_r in HQ. rewrite HQ. destruct Hc as [Hco _].
    assert (He : entry z (c_addr x) 0 = Some (lv 0 (D ++ E))).
    { rewrite <- (here_snoc (zsl_header z) A x). apply entry_0. by rewrite <- app_assoc. }
    destruct (entry_read _ _ _ _ He) as (n' & Hn' & Hl). unfold node in Hn'. rewrite Hn in Hn'. injection Hn' as <-. rewrite Hl, bind_lift.
    destruct (rep_heights_app _ _ _ Hr) as [_ HhB]. apply Forall_cons in HhB as [_ HhB]. rewrite (lv_0 _ _ HhB).
    destruct (delete_and_free z A x (D ++ E) update Hr Hx Hu) as (z1 & z2 & E1 & E2 & Hr2 & Hx2 & Hu2 & _).
    rewrite (prog_bind_step _ _ _ _ _ E1), Hco. cbn [expect]. rewrite bind_lift, (prog_bind_step _ _ _ _ _ E2), to_u_small by (unfold in_u; lia).
    destruct (IH z2 fuel (rank + 1) Hr2 Hx2 Hu2) as (z3 & E3 & Hr3 & Hx3); [lia|lia|lia| | |].
    + intros j c m Hj Hm. replace (rank + 1 + Z.of_nat j) with (rank + Z.of_nat (S j)) by lia. by apply HD with c.
    + intros c m Hh Hm. replace (rank + 1 + Z.of_nat (length D)) with (rank + Z.of_nat (S (length D))) by lia. by apply HE with c.
    + exists z3. rewrite (prog_bind_step _ _ _ _ _ E3). done.
Qed.

Lemma delete_range_ok P Q z A D E : zsl_ok z (A ++ D ++ E) ->
  (forall X c Y n, A ++ D ++ E = X ++ c :: Y -> zsl_nodes z !! c_addr c = Some n -> P (Z.of_nat (S (length X))) n = bool_decide (length X < length A)%nat) ->
  (forall j c n, D !! j = Some c -> of_cell c n -> Q (Z.of_nat (length A) + 1 + Z.of_nat j) n = true) ->
  (forall c n, head E = Some c -> of_cell c n -> Q (Z.of_nat (length A) + 1 + Z.of_nat (length D)) n = false) ->
  exists z', delete_range P Q z = Done (map c_obj D, z') /\ zsl_ok z' (A ++ E).
Proof.
  intros H HP HD HE. pose proof (zo_rep _ _ H) as Hr. pose proof (rp_level _ _ Hr) as Hl. pose proof (rp_bound _ _ Hr) as Hb. rewrite !length_app in Hb.
  unfold delete_range. run. rewrite (prog_bind_step _ _ _ _ _ (zsl_search_ok z A (D ++ E) 64 _ Hr ltac:(lia) HP)).
  rewrite (prog_bind_step _ _ _ _ _ (first_of_ok z (zsl_level z) _ _ Hr ltac:(lia))), update_of_at, bind_lift by lia. cbn [snd].
  destruct (rep_heights_app _ _ _ Hr) as [HA _]. rewrite (upto_0 _ _ HA), to_u_small by (unfold in_u; lia).
  destruct (delete_loop_ok Q A E (update_of z (zsl_level z) A) D z (steps z) (Z.of_nat (length A) + 1) Hr (zo_exact _ _ H) (good_update_search _ _))
    as (z' & E' & Hr' & Hx'); [|lia|lia|done|done|].
  - unfold steps. rewrite (rp_len _ _ Hr), Nat2Z.id, !length_app. lia.
  - exists z'. split; [done|]. by eapply zsl_ok_sub.
Qed.

Lemma filter_filter_c (f g : cell -> bool) L : List.filter f (List.filter g L) = List.filter (fun c => g c && f c) L.
Proof. induction L as [|c L IH]; [done|]. cbn. destruct (g c); cbn; [destruct (f c); by rewrite IH|done]. Qed.
Lemma filter_ext_c (f g : cell -> bool) L : (forall c, c ∈ L -> f c = g c) -> List.filter f L = List.filter g L.
Proof. intros H. apply filter_ext_in. intros c Hc. apply H. by apply list_elem_of_In. Qed.
Lemma filter_id_c {X} (f : X -> bool) L : (forall c, c ∈ L -> f c = true) -> List.filter f L = L.
Proof.
  induction L as [|c L IH]; intros H; [done|]. cbn. rewrite (H c) by (by left). f_equal. apply IH. intros d Hd. apply H. by right.
Qed.

(** The elements [gte] and [lte] go. *)
Section Between.
Context (P Q : Z -> zskiplistNode -> bool) (gte lte : elt -> bool) (z : zskiplist) (L : list cell).
Hypothesis Hok : zsl_ok z L.
Hypothesis Hgte : down_on (map elt_of L) (fun a => negb (gte a)).
Hypothesis Hlte : down_on (map elt_of L) lte.
Hypothesis HP : reads P (fun a => negb (gte a)).
Hypothesis HQ : reads Q lte.
Abbreviation lo := (fun a => negb (gte a)) (only parsing).
Abbreviation inr := (fun a => gte a && lte a) (only parsing).

Lemma between_split : L = below lo L ++ below inr L ++ List.filter (fun c => gte (elt_of c) && negb (lte (elt_of c))) L.
Proof using Hok Hgte Hlte.
  pose proof (zsl_split z L _ Hok Hgte) as E. rewrite E at 1. f_equal.
  assert (HS : sorted (map elt_of (above lo L))).
  { pose proof (zo_sorted _ _ Hok) as Hs. rewrite E, map_app in Hs. by apply sorted_app in Hs as (_ & Hs & _). }
  assert (HD : down_on (map elt_of (above lo L)) lte).
  { assert (Hsub : forall a, a ∈ map elt_of (above lo L) -> a ∈ map elt_of L) by (intros a Ha; rewrite E, map_app; apply elem_of_app; by right).
    intros a b Ha Hb. apply Hlte; auto. }
  rewrite (sorted_split lte (above lo L) HD HS), !filter_filter_c. f_equal; apply filter_ext_c; intros c _; by rewrite negb_involutive.
Qed.

Lemma between_ok : exists z' L', delete_range P Q z = Done (map snd (List.filter inr (map elt_of L)), z') /\ zsl_ok z' L' /\
  map elt_of L' = List.filter (fun a => negb (inr a)) (map elt_of L) /\ L' ⊆ L.
Proof using Hok Hgte Hlte HP HQ.
  pose proof between_split as E. destruct (zsl_cut z L _ P Hok Hgte HP) as [_ Hcut]. rewrite <- (zsl_split z L _ Hok Hgte) in Hcut.
  pose proof Hok as H. rewrite E in H. destruct (delete_range_ok P Q z _ _ _ H) as (z' & Ed & Hz').
  - intros X c Y n EX. apply Hcut with Y. by rewrite E.
  - intros j c n Hj [Ho Hs]. rewrite (HQ _ n c Ho Hs). pose proof (proj1 (Forall_lookup _ _) (filter_all (fun c => gte (elt_of c) && lte (elt_of c)) L) j c Hj) as Hc.
    by apply andb_true_iff in Hc as [_ Hc].
  - intros c n Hj [Ho Hs]. rewrite (HQ _ n c Ho Hs). pose proof (filter_all (fun c => gte (elt_of c) && negb (lte (elt_of c))) L) as HF.
    destruct (List.filter (fun c => gte (elt_of c) && negb (lte (elt_of c))) L) as [|d l]; [done|]. injection Hj as ->. apply Forall_cons in HF as [Hc _]. apply andb_true_iff in Hc as [_ Hc]. by apply negb_true_iff.
  - exists z', (below lo L ++ List.filter (fun c => gte (elt_of c) && negb (lte (elt_of c))) L). split; [|split; [done|split]].
    3: { intros c Hc. apply elem_of_app in Hc as [Hc|Hc]; apply list_elem_of_In, filter_In in Hc as [Hc _]; by apply list_elem_of_In. }
    + rewrite Ed, map_obj, (map_filter_elt (fun a => gte a && lte a)). done.
    + rewrite <- (map_filter_elt (fun a => negb (gte a && lte a))). f_equal.
      symmetry. rewrite (zsl_split z L _ Hok Hgte) at 1. rewrite List.filter_app, !filter_filter_c. f_equal; apply filter_ext_c; intros c _;
        destruct (gte (elt_of c)), (lte (elt_of c)); done.
Qed.
End Between.

(** *** By score *)
Definition in_range (r : zrangespec) (a : elt) : bool := zslValueGteMin (fst a) r && zslValueLteMax (fst a) r.

Lemma SFleb_negb a b : isnan a = false -> isnan b = false -> SFleb a b = negb (SFltb b a).
Proof. intros Ha Hb. apply eq_true_iff_eq. by rewrite negb_true_iff, <- not_true_iff_false, SFleb_key, SFltb_key. Qed.

(** The test of the walk is that of [zslValueGteMin], the other way round. *)
Definition below_min (r : zrangespec) (v : spec_float) : bool := if r_minex r then SFleb v (r_min r) else SFltb v (r_min r).

Lemma below_min_gte r v : isnan (r_min r) = false -> isnan v = false -> below_min r v = negb (zslValueGteMin v r).
Proof.
  intros Hm Hv. unfold below_min, zslValueGteMin. destruct (r_minex r); [by apply SFleb_negb|]. by rewrite SFleb_negb, negb_involutive.
Qed.

Lemma down_below_min r : isnan (r_min r) = false -> down (fun a => below_min r (fst a)).
Proof. intros Hm. unfold below_min. destruct (r_minex r); [by apply down_score_le|by apply down_score_lt]. Qed.
Lemma down_lte r : isnan (r_max r) = false -> down (fun a => zslValueLteMax (fst a) r).
Proof. intros Hm. unfold zslValueLteMax. destruct (r_maxex r); [by apply down_score_lt|by apply down_score_le]. Qed.

Lemma filter_num (f g : elt -> bool) l : Forall num l -> (forall a, num a -> f a = g a) -> List.filter f l = List.filter g l.
Proof. intros Hn H. apply filter_ext_in. intros a Ha. apply H. rewrite Forall_forall in Hn. apply Hn. by apply list_elem_of_In. Qed.

Lemma range_by_score_ok z L r : zsl_ok z L -> isnan (r_min r) = false -> isnan (r_max r) = false ->
  exists z' L', zslDeleteRangeByScore r z = Done (map snd (List.filter (in_range r) (map elt_of L)), z') /\ zsl_ok z' L' /\
    map elt_of L' = List.filter (fun a => negb (in_range r a)) (map elt_of L) /\ L' ⊆ L.
Proof.
  intros H Hmin Hmax. pose (gte := fun a : elt => negb (below_min r (fst a))).
  assert (Hin : forall a, num a -> gte a && zslValueLteMax (fst a) r = in_range r a).
  { intros a Ha. unfold gte, in_range. by rewrite (below_min_gte r (fst a) Hmin Ha), negb_involutive. }
  destruct (between_ok (fun _ n => below_min r (n_score n)) (fun _ n => zslValueLteMax (n_score n) r) gte (fun a => zslValueLteMax (fst a) r) z L H)
    as (z' & L' & E & Hz & El & Hsub).
  - apply (zsl_down _ _ _ H). intros a b Ha Hb. unfold gte. rewrite !negb_involutive. by apply down_below_min.
  - apply (zsl_down _ _ _ H), down_lte, Hmax.
  - intros t n c _ Hs. unfold gte. by rewrite negb_involutive, Hs.
  - intros t n c _ Hs. by rewrite Hs.
  - exists z', L'. pose proof (zo_num _ _ H) as Hn. rewrite (filter_num _ _ _ Hn Hin) in E. split; [exact E|]. split; [done|]. split; [|done].
    rewrite El. apply filter_num; [done|]. intros a Ha. by rewrite Hin.
Qed.

(** *** By rank *)
(** The elements of the ranks from [start] to [stop], counted from 1. *)
Definition rank_from (start : Z) : nat := Z.to_nat (start - 1).
Definition rank_count (start stop : Z) : nat := Z.to_nat (stop - Z.of_nat (rank_from start)).

Lemma range_by_rank_ok z L start stop : zsl_ok z L -> 0 <= start -> 0 <= stop ->
  exists z' L', zslDeleteRangeByRank start stop z = Done (map snd (take (rank_count start stop) (drop (rank_from start) (map elt_of L))), z') /\ zsl_ok z' L' /\
    map elt_of L' = take (rank_from start) (map elt_of L) ++ drop (rank_count start stop) (drop (rank_from start) (map elt_of L)) /\ L' ⊆ L.
Proof.
  intros H Hs0 He0. set (a := rank_from start). set (b := rank_count start stop). assert (EL : L = take a L ++ take b (drop a L) ++ drop b (drop a L)).
  { by rewrite (take_drop b), take_drop. }
  pose proof H as H'. rewrite EL in H'. unfold zslDeleteRangeByRank. destruct (delete_range_ok (fun t _ => t <? start) (fun t _ => t <=? stop) z _ _ _ H') as (z' & E & Hz).
  - intros X c Y n EX _. rewrite <- EL in EX. assert (Hlen : (length X < length L)%nat) by (rewrite EX, length_app; cbn; lia).
    apply eq_true_iff_eq. rewrite bool_decide_eq_true, length_take, Z.ltb_lt. unfold a, rank_from. lia.
  - intros j c n Hj _. apply Z.leb_le. apply lookup_lt_Some in Hj. rewrite !length_take, length_drop in *. unfold b, rank_count, a in *. lia.
  - intros c n Hc _. apply Z.leb_gt. assert (Hn : (b < length (drop a L))%nat).
    { apply Nat.nle_gt. intros Hle. by rewrite (drop_ge (drop a L)) in Hc. }
    rewrite length_drop in Hn. rewrite !length_take, length_drop. unfold b, rank_count, a in *. lia.
  - exists z', (take a L ++ drop b (drop a L)). rewrite map_obj in E. rewrite map_app, !fmap_take, !fmap_drop in *. do 3 (split; [done|]).
    intros c Hc. rewrite EL. apply elem_of_app in Hc as [Hc|Hc]; apply elem_of_app; [by left|right; apply elem_of_app; by right].
Qed.

(** ** Ranks *)
Lemma here_node z X R : rep z (X ++ R) -> exists n, zsl_nodes z !! here (zsl_header z) X = Some n /\ n_obj n = c_obj <$> last X /\ (forall c, last X = Some c -> of_cell c n).
Proof.
  intros Hr. destruct X as [|c X _] using rev_ind.
  - destruct (meta_node _ _ _ (rp_head _ _ Hr)) as (n & Hn & E). exists n. injection E as E _ _ _. by split.
  - rewrite here_snoc, last_snoc. rewrite <- app_assoc in Hr. destruct (rep_node _ _ _ _ Hr) as (n & Hn & _). exists n.
    destruct (rep_cell _ _ _ _ _ Hr Hn) as [Ho Hs]. split; [done|]. split; [done|]. by intros ? [= <-].
Qed.

(** One level of a search, from a node on the way. *)
Lemma walk_step z A B P k A0 M : rep z (A ++ B) ->
  (forall X c Y n, A ++ B = X ++ c :: Y -> zsl_nodes z !! c_addr c = Some n -> P (Z.of_nat (S (length X))) n = bool_decide (length X < length A)%nat) ->
  (k < zsl_level z)%nat -> A = A0 ++ M -> (forall i, (i < S k)%nat -> tall i A0) ->
  zwalk 64 P k (steps z) (here (zsl_header z) A0) (Z.of_nat (length A0)) z = Done ((here (zsl_header z) (upto k A), Z.of_nat (length (upto k A))), z).
Proof.
  intros Hr HP Hk EA HT. rewrite (walk_ok z A B 64 P Hr ltac:(lia) HP k (steps z) A0 M Hk EA (HT k ltac:(lia))).
  - by rewrite EA, upto_prefix by (apply HT; lia).
  - unfold steps. rewrite (rp_len _ _ Hr), Nat2Z.id, EA, !length_app. lia.
Qed.

Lemma upto_next k A : forall i, (i < k)%nat -> tall i (upto k A).
Proof. intros i Hi. eapply tall_le; [|apply upto_tall]. lia. Qed.

Section Rank.
Context (z : zskiplist) (A B : list cell) (sc : spec_float) (o : sds).
Hypothesis Hr : rep z (A ++ B).
Hypothesis HP : forall X c Y n, A ++ B = X ++ c :: Y -> zsl_nodes z !! c_addr c = Some n -> node_le n sc o = bool_decide (length X < length A)%nat.

Lemma get_rank_none k A0 M : o ∉ map c_obj A -> (k <= zsl_level z)%nat -> A = A0 ++ M -> (forall i, (i < k)%nat -> tall i A0) ->
  get_rank sc o k (here (zsl_header z) A0) (Z.of_nat (length A0)) z = Done (0, z).
Proof using Hr HP.
  intros Ho. revert A0 M. induction k as [|k IH]; intros A0 M Hk EA HT; [done|]. cbn [get_rank]. run.
  rewrite (prog_bind_step _ _ _ _ _ (walk_step z A B _ k A0 M Hr HP ltac:(lia) EA HT)). cbn [fst snd].
  destruct (upto_split k A) as (R & ER & _). pose proof Hr as Hr'. rewrite ER, <- app_assoc in Hr'.
  destruct (here_node z _ _ Hr') as (n & Hn & Hno & _). rewrite (bind_node _ _ _ _ Hn), Hno, bool_decide_eq_false_2.
  - apply (IH _ R); [lia|done|apply upto_next].
  - intros E. apply Ho. destruct (last (upto k A)) as [c|] eqn:El; [|done]. injection E as <-. apply last_in in El.
    rewrite ER, map_app. apply elem_of_app. left. by apply list_elem_of_fmap_2.
Qed.

Lemma get_rank_some k A0 M A' x : A = A' ++ [x] -> c_obj x = o -> NoDup (map c_obj A) -> (1 <= k <= zsl_level z)%nat -> A = A0 ++ M -> (forall i, (i < k)%nat -> tall i A0) ->
  get_rank sc o k (here (zsl_header z) A0) (Z.of_nat (length A0)) z = Done (Z.of_nat (length A), z).
Proof using Hr HP.
  intros Ex Hx Hnd. revert A0 M. induction k as [|k IH]; intros A0 M Hk EA HT; [lia|]. cbn [get_rank]. run.
  rewrite (prog_bind_step _ _ _ _ _ (walk_step z A B _ k A0 M Hr HP ltac:(lia) EA HT)). cbn [fst snd].
  destruct (upto_split k A) as (R & ER & _). pose proof Hr as Hr'. rewrite ER, <- app_assoc in Hr'.
  destruct (here_node z _ _ Hr') as (n & Hn & Hno & _). rewrite (bind_node _ _ _ _ Hn), Hno.
  destruct R as [|d R].
  - rewrite app_nil_r in ER. rewrite <- ER, Ex, last_snoc. cbn. by rewrite bool_decide_eq_true_2 by congruence.
  - rewrite bool_decide_eq_false_2.
    + destruct k as [|k]; [destruct (rep_heights_app _ _ _ Hr) as [HA _]; rewrite (upto_0 _ _ HA) in ER; apply (f_equal length) in ER; rewrite length_app in ER; cbn in ER; lia|].
      apply (IH _ (d :: R)); [lia|done|apply upto_next].
    + intros E. destruct (last (upto k A)) as [c|] eqn:El; [|done]. injection E as E. apply last_Some in El as (U & EU). rewrite EU in ER.
      assert (Hlen : length U = length A').
      { apply (NoDup_lookup (map c_obj A) _ _ o Hnd).
        - rewrite ER, <- app_assoc. cbn. rewrite list_lookup_fmap, list_lookup_middle by done. cbn. by rewrite E.
        - rewrite Ex, list_lookup_fmap, list_lookup_middle by done. cbn. by rewrite Hx. }
      rewrite Ex in ER. apply (f_equal length) in ER. rewrite !length_app in ER. cbn in ER. lia.
Qed.
End Rank.

(** The rank of a member, counted from 1. *)
Definition spec_rank (o : sds) (l : list elt) : Z :=
  match list_find (fun a => snd a = o) l with Some (i, _) => Z.of_nat i + 1 | None => 0 end.

Lemma filter_none_c {X} (f : X -> bool) L : (forall c, c ∈ L -> f c = false) -> List.filter f L = [].
Proof.
  induction L as [|c L IH]; intros H; [done|]. cbn. rewrite (H c) by (by left). apply IH. intros d Hd. apply H. by right.
Qed.

(** The elements up to one of this score and member. *)
Lemma below_here e L1 x L2 : num e -> Forall num (map elt_of (L1 ++ x :: L2)) -> sorted (map elt_of (L1 ++ x :: L2)) ->
  SFeqb (c_score x) (fst e) = true -> c_obj x = snd e -> below (fun a => elt_le a e) (L1 ++ x :: L2) = L1 ++ [x].
Proof.
  intros He Hn Hs Hk Ho. rewrite map_app in Hn, Hs. apply Forall_app in Hn as [Hn1 Hn2]. apply Forall_cons in Hn2 as [Hnx Hn2].
  apply sorted_app in Hs as (_ & Hs2 & Hs1). apply StronglySorted_inv in Hs2 as [_ Hs2]. rewrite Forall_forall in Hn1, Hn2, Hs2.
  apply SFeqb_key in Hk; [|done|done].
  assert (Hx : elt_le (elt_of x) e = true).
  { apply elt_le_key; [done|done|]. right. split; [done|]. cbn. rewrite Ho, cmp_obj_refl. lia. }
  rewrite List.filter_app. cbn. rewrite Hx, filter_id_c, filter_none_c; [done| |].
  - intros c Hc. apply (list_elem_of_fmap_2 elt_of) in Hc. specialize (Hs2 _ Hc). apply elt_lt_key in Hs2; [|done|by apply Hn2].
    apply not_true_iff_false. rewrite elt_le_key by (done || by apply Hn2). cbn [elt_of fst snd] in *. rewrite Hk, Ho in Hs2. rewrite cmp_obj_flip.
    intros [H1|[E1 H1]]; destruct Hs2 as [H2|[E2 H2]].
    + apply (key_lt_irrefl (key (c_score c))). by eapply key_lt_trans.
    + rewrite E2 in H1. by apply key_lt_irrefl in H1.
    + rewrite E1 in H2. by apply key_lt_irrefl in H2.
    + lia.
  - intros c Hc. apply (list_elem_of_fmap_2 elt_of) in Hc. apply (down_le e He _ (elt_of x)); [by apply Hn1|done| |done]. apply Hs1; [done|by left].
Qed.

Lemma rank_ok z L sc o : zsl_ok z L -> isnan sc = false -> (forall c, c ∈ L -> c_obj c = o -> SFeqb (c_score c) sc = true) ->
  zslGetRank sc o z = Done (spec_rank o (map elt_of L), z).
Proof.
  intros H Hsc Hm. pose (p := fun a => elt_le a (sc, o)). pose proof (zsl_down _ _ _ H (down_le (sc, o) Hsc)) as Hd.
  destruct (zsl_cut z L p _ H Hd (reads_le sc o)) as [Hr HP]. pose proof (zsl_split z L p H Hd) as EL. unfold zslGetRank. run.
  pose proof (rp_level _ _ Hr) as Hl. unfold spec_rank.
  destruct (list_find (fun a => snd a = o) (map elt_of L)) as [[i a]|] eqn:Ef.
  - apply list_find_Some in Ef as (Hi & Ho & _). rewrite list_lookup_fmap in Hi. destruct (L !! i) as [x|] eqn:Hx; [|done]. injection Hi as <-. cbn in Ho.
    pose proof (Hm x (list_elem_of_lookup_2 _ _ _ Hx) Ho) as Hk.
    pose proof (take_drop_middle L i x Hx) as EM. pose proof (zo_num _ _ H) as Hn. pose proof (zo_sorted _ _ H) as Hs. rewrite <- EM in Hn, Hs.
    pose proof (below_here (sc, o) _ _ _ Hsc Hn Hs Hk Ho) as Eb. rewrite EM in Eb. change (below p L = take i L ++ [x]) in Eb.
    pose proof (zo_objs _ _ H) as Hnd. rewrite EL, map_app in Hnd. apply NoDup_app in Hnd as [Hnd _].
    pose proof (get_rank_some z (below p L) (above p L) sc o Hr HP (zsl_level z) [] (below p L) (take i L) x Eb Ho Hnd ltac:(lia) eq_refl ltac:(done)) as Hg.
    etransitivity; [exact Hg|]. apply lookup_lt_Some in Hx. rewrite Eb, length_app, length_take. cbn. do 2 f_equal. lia.
  - apply list_find_None in Ef. apply (get_rank_none z (below p L) (above p L) sc o Hr HP (zsl_level z) [] (below p L)); [|lia|done|done].
    intros Hin. rewrite map_obj, (map_filter_elt p) in Hin. apply list_elem_of_fmap in Hin as (a & -> & Ha). apply list_elem_of_In, filter_In in Ha as [Ha _].
    rewrite Forall_forall in Ef. apply (Ef a); [by apply list_elem_of_In|done].
Qed.

(** The node of a rank: rank 0 is the header. *)
Lemma by_rank_ok z L rank : zsl_ok z L -> 0 <= rank ->
  zslGetElementByRank rank z = Done (if Z.of_nat (length L) <? rank then None else Some (here (zsl_header z) (take (Z.to_nat rank) L)), z).
Proof.
  intros H Hrank. set (A := take (Z.to_nat rank) L). pose proof (zo_rep _ _ H) as Hr. rewrite <- (take_drop (Z.to_nat rank) L) in Hr. fold A in Hr.
  assert (HP : forall X c Y n, A ++ drop (Z.to_nat rank) L = X ++ c :: Y -> zsl_nodes z !! c_addr c = Some n ->
    (Z.of_nat (S (length X)) <=? rank) = bool_decide (length X < length A)%nat).
  { intros X c Y n EX _. unfold A in *. rewrite take_drop in EX. apply eq_true_iff_eq. rewrite bool_decide_eq_true, length_take, Z.leb_le, EX, length_app. cbn. lia. }
  assert (Hloop : forall k A0 M, (1 <= k <= zsl_level z)%nat -> A = A0 ++ M -> (forall i, (i < k)%nat -> tall i A0) ->
    get_by_rank rank k (here (zsl_header z) A0) (Z.of_nat (length A0)) z =
      Done (if Z.of_nat (length L) <? rank then None else Some (here (zsl_header z) A), z)).
  { induction k as [|k IH]; intros A0 M Hk EA HT; [lia|]. cbn [get_by_rank]. run.
    rewrite (prog_bind_step _ _ _ _ _ (walk_step z A _ (fun t _ => t <=? rank) k A0 M Hr HP ltac:(lia) EA HT)). cbn [fst snd].
    destruct (upto_split k A) as (R & ER & _). pose proof (f_equal length ER) as Hlen. rewrite length_app in Hlen. unfold A in Hlen at 1. rewrite length_take in Hlen.
    destruct (Z.eqb_spec (Z.of_nat (length (upto k A))) rank) as [E|E].
    - destruct (Z.ltb_spec (Z.of_nat (length L)) rank) as [Hlt|Hge]; [lia|]. assert (R = []) as -> by (apply nil_length_inv; lia).
      rewrite app_nil_r in ER. by rewrite <- ER.
    - destruct k as [|k]; [|apply (IH _ R); [lia|done|apply upto_next]]. destruct (rep_heights_app _ _ _ Hr) as [HA _]. rewrite (upto_0 _ _ HA) in *.
      unfold A in E. rewrite length_take in E. cbn. destruct (Z.ltb_spec (Z.of_nat (length L)) rank); [done|lia]. }
  unfold zslGetElementByRank. run. pose proof (rp_level _ _ Hr). apply (Hloop _ [] A); [lia|done|done].
Qed.

(** ** Queries by range *)
Section Query.
Context (gte lte : zskiplistNode -> bool) (g l : elt -> bool) (z : zskiplist) (L : list cell).
Hypothesis Hok : zsl_ok z L.
Hypothesis Hg : down_on (map elt_of L) (fun a => negb (g a)).
Hypothesis Hl : down_on (map elt_of L) l.
Hypothesis Hgte : forall n c, of_cell c n -> gte n = g (elt_of c).
Hypothesis Hlte : forall n c, of_cell c n -> lte n = l (elt_of c).
Abbreviation inside := (List.filter (fun c => g (elt_of c) && l (elt_of c)) L) (only parsing).

Lemma ends_ok : ends_in_range gte lte z =
  Done (match last L with Some x => g (elt_of x) | None => false end && match head L with Some x => l (elt_of x) | None => false end, z).
Proof using Hok Hg Hl Hgte Hlte.
  pose proof (zo_rep _ _ Hok) as Hr. unfold ends_in_range. run. rewrite (rp_tail _ _ Hr).
  destruct L as [|x L' _] eqn:EL using rev_ind; [done|]. rewrite last_snoc, back_app. cbn [back].
  destruct (rep_node _ _ _ _ Hr) as (n & Hn & _). rewrite (bind_node _ _ _ _ Hn), (Hgte n x) by (by eapply rep_cell).
  destruct (g (elt_of x)); [|done]. cbn [negb andb]. destruct (entry_read _ _ _ _ (entry_0 z [] _ Hr)) as (h & Hh & Hlv). cbn in Hh.
  rewrite (prog_bind_step _ _ _ _ _ Hh), Hlv, bind_lift, (lv_0 _ _ (rp_heights _ _ Hr)).
  destruct (L' ++ [x]) as [|y L''] eqn:E; [by destruct L'|]. cbn [head fmap option_fmap option_map].
  destruct (rep_node _ [] _ _ Hr) as (m & Hm & _). rewrite (bind_node _ _ _ _ Hm), (Hlte m y); [done|]. by apply (rep_cell z [] y L'').
Qed.

Lemma outside_none : (match last L with Some x => g (elt_of x) | None => false end && match head L with Some x => l (elt_of x) | None => false end) = false -> inside = [].
Proof using Hok Hg Hl.
  intros Hb. apply filter_none_c. intros c Hc. apply andb_false_iff. pose proof (zo_sorted _ _ Hok) as Hs. apply andb_false_iff in Hb as [Hb|Hb].
  - left. destruct L as [|x L' _] eqn:EL using rev_ind; [by apply elem_of_nil in Hc|]. rewrite last_snoc in Hb.
    apply elem_of_app in Hc as [Hc|Hc]; [|apply list_elem_of_singleton in Hc as ->; done]. apply negb_true_iff. apply (Hg (elt_of c) (elt_of x)).
    + apply list_elem_of_fmap_2, elem_of_app. by left.
    + apply list_elem_of_fmap_2, elem_of_app. right. by left.
    + rewrite map_app in Hs. apply sorted_app in Hs as (_ & _ & Hs). apply Hs; [by apply list_elem_of_fmap_2|by left].
    + by rewrite Hb.
  - right. destruct L as [|x L']; [by apply elem_of_nil in Hc|]. cbn in Hb. apply elem_of_cons in Hc as [->|Hc]; [done|]. apply not_true_iff_false. intros Hlc.
    rewrite (Hl (elt_of x) (elt_of c)) in Hb; [done|by left|right; by apply list_elem_of_fmap_2| |done].
    apply StronglySorted_inv in Hs as [_ Hs]. rewrite Forall_forall in Hs. by apply Hs, list_elem_of_fmap_2.
Qed.

Lemma first_from_ok : match last L with Some x => g (elt_of x) | None => false end = true -> first_from gte lte z = Done (c_addr <$> head inside, z).
Proof using Hok Hg Hl Hgte Hlte.
  intros Hlast. destruct (zsl_cut z L _ (fun _ n => negb (gte n)) Hok Hg) as [Hr HP]; [intros t n c Ho Hs; by rewrite (Hgte n c)|].
  pose proof (zsl_split z L _ Hok Hg) as EL. pose proof (rp_level _ _ Hr) as Hlv. pose proof (zo_sorted _ _ Hok) as Hs.
  assert (Ei : inside = List.filter (fun c => l (elt_of c)) (above (fun a => negb (g a)) L)).
  { rewrite filter_filter_c. apply filter_ext_c. intros c _. by rewrite negb_involutive. }
  rewrite Ei. unfold first_from. run. rewrite (prog_bind_step _ _ _ _ _ (zsl_search_ok z _ _ 64 _ Hr ltac:(lia) HP)).
  rewrite (prog_bind_step _ _ _ _ _ (first_of_ok z (zsl_level z) _ _ Hr ltac:(lia))).
  destruct (above (fun a => negb (g a)) L) as [|y V] eqn:EV.
  { exfalso. destruct (last L) as [x|] eqn:Ex; [|done]. apply last_in in Ex. rewrite EL, app_nil_r in Ex. apply list_elem_of_In, filter_In in Ex as [_ Ex].
    by rewrite Hlast in Ex. }
  cbn [head fmap option_fmap option_map expect]. rewrite bind_lift. destruct (rep_node _ _ _ _ Hr) as (n & Hn & _).
  rewrite (bind_node _ _ _ _ Hn), (Hlte n y) by (by eapply rep_cell). cbn [List.filter]. destruct (l (elt_of y)) eqn:Ey; [done|].
  rewrite filter_none_c; [done|]. intros c Hc. apply not_true_iff_false. intros Hc'. rewrite EL, map_app in Hs. apply sorted_app in Hs as (_ & Hs & _).
  apply StronglySorted_inv in Hs as [_ Hs]. rewrite Forall_forall in Hs. rewrite (Hl (elt_of y) (elt_of c)) in Ey; [done| | | |done].
  - rewrite EL. apply list_elem_of_fmap_2, elem_of_app. right. by left.
  - rewrite EL. apply list_elem_of_fmap_2, elem_of_app. right. by right.
  - by apply Hs, list_elem_of_fmap_2.
Qed.

Lemma last_upto_ok : match head L with Some x => l (elt_of x) | None => false end = true -> last_upto gte lte z = Done (c_addr <$> last inside, z).
Proof using Hok Hg Hl Hgte Hlte.
  intros Hhead. destruct (zsl_cut z L _ (fun _ n => lte n) Hok Hl) as [Hr HP]; [intros t n c Ho Hs; by apply Hlte|].
  pose proof (zsl_split z L _ Hok Hl) as EL. pose proof (rp_level _ _ Hr) as Hlv. pose proof (zo_sorted _ _ Hok) as Hs.
  assert (Ei : inside = List.filter (fun c => g (elt_of c)) (below l L)).
  { rewrite filter_filter_c. apply filter_ext_c. intros c _. apply andb_comm. }
  rewrite Ei. unfold last_upto. run. rewrite (prog_bind_step _ _ _ _ _ (zsl_search_ok z _ _ 64 _ Hr ltac:(lia) HP)).
  rewrite update_of_at, bind_lift by lia. cbn [fst]. destruct (rep_heights_app _ _ _ Hr) as [HA _]. rewrite (upto_0 _ _ HA).
  destruct (below l L) as [|x U _] eqn:EU using rev_ind.
  { exfalso. destruct L as [|y L']; [done|]. cbn in Hhead, EU. by rewrite Hhead in EU. }
  rewrite here_snoc. rewrite <- app_assoc in Hr. destruct (rep_node _ _ _ _ Hr) as (n & Hn & _).
  rewrite (bind_node _ _ _ _ Hn), (Hgte n x) by (by eapply rep_cell). rewrite List.filter_app. cbn [List.filter].
  destruct (g (elt_of x)) eqn:Ex; [by rewrite last_snoc|]. rewrite app_nil_r, filter_none_c; [done|]. intros c Hc. apply negb_true_iff.
  rewrite EL, !map_app in Hs. apply sorted_app in Hs as (Hs & _). apply sorted_app in Hs as (_ & _ & Hs). apply (Hg _ (elt_of x)).
  - rewrite EL. apply list_elem_of_fmap_2, elem_of_app. left. apply elem_of_app. by left.
  - rewrite EL. apply list_elem_of_fmap_2, elem_of_app. left. apply elem_of_app. right. by left.
  - apply Hs; [by apply list_elem_of_fmap_2|by left].
  - by rewrite Ex.
Qed.

(** The two queries, behind the test that a part of the list is in the range. *)
Lemma query_ok : (b ← ends_in_range gte lte; if negb b then mret None else first_from gte lte) z = Done (c_addr <$> head inside, z) /\
  (b ← ends_in_range gte lte; if negb b then mret None else last_upto gte lte) z = Done (c_addr <$> last inside, z).
Proof using Hok Hg Hl Hgte Hlte.
  rewrite !(prog_bind_step _ _ _ _ _ ends_ok). destruct (_ && _) eqn:E; cbn [negb].
  - apply andb_true_iff in E as [E1 E2]. by rewrite first_from_ok, last_upto_ok.
  - by rewrite (outside_none E).
Qed.
End Query.

Lemma range_empty_none r a : isnan (r_min r) = false -> isnan (r_max r) = false -> num a -> range_empty r = true -> in_range r a = false.
Proof.
  intros Hmin Hmax Ha He. apply not_true_iff_false. unfold in_range, zslValueGteMin, zslValueLteMax. intros [H1 H2]%andb_true_iff.
  unfold range_empty in He. apply orb_true_iff in He.
  assert (H3 : ~ key_lt (key (fst a)) (key (r_min r)) /\ (r_minex r = true -> key_lt (key (r_min r)) (key (fst a)))).
  { destruct (r_minex r); [|by apply SFleb_key in H1]. apply SFltb_key in H1; [|done|done]. split; [|done]. intros H. apply (key_lt_irrefl (key (fst a))). by eapply key_lt_trans. }
  assert (H4 : ~ key_lt (key (r_max r)) (key (fst a)) /\ (r_maxex r = true -> key_lt (key (fst a)) (key (r_max r)))).
  { destruct (r_maxex r); [|by apply SFleb_key in H2]. apply SFltb_key in H2; [|done|done]. split; [|done]. intros H. apply (key_lt_irrefl (key (fst a))). by eapply key_lt_trans. }
  destruct H3 as [H3 H5], H4 as [H4 H6], He as [He|[He Hx]%andb_true_iff].
  - apply SFltb_key in He; [|done|done]. destruct (key_lt_total (key (fst a)) (key (r_min r))) as [H|[H|H]]; [done|rewrite H in H4; done|].
    apply H4. by eapply key_lt_trans.
  - apply SFeqb_key in He; [|done|done]. rewrite He in *. apply orb_true_iff in Hx as [Hx|Hx]; auto.
Qed.

Lemma score_queries z L r : zsl_ok z L -> isnan (r_min r) = false -> isnan (r_max r) = false ->
  zslFirstInRange r z = Done (c_addr <$> head (List.filter (fun c => in_range r (elt_of c)) L), z) /\
  zslLastInRange r z = Done (c_addr <$> last (List.filter (fun c => in_range r (elt_of c)) L), z).
Proof.
  intros H Hmin Hmax. unfold zslFirstInRange, zslLastInRange, zslIsInRange. destruct (range_empty r) eqn:Er.
  - rewrite filter_none_c; [done|]. intros c Hc. apply range_empty_none; [done|done| |done]. pose proof (zo_num _ _ H) as Hn. rewrite Forall_forall in Hn.
    by apply Hn, list_elem_of_fmap_2.
  - apply (query_ok (fun n => zslValueGteMin (n_score n) r) (fun n => zslValueLteMax (n_score n) r) (fun a => zslValueGteMin (fst a) r) (fun a => zslValueLteMax (fst a) r)); [done| | | |].
    + apply (zsl_down _ _ _ H). intros a b Ha Hb. rewrite <- !below_min_gte by done. by apply down_below_min.
    + apply (zsl_down _ _ _ H), down_lte, Hmax.
    + intros n c [_ ->]. done.
    + intros n c [_ ->]. done.
Qed.

(** *** By member *)
(** Lexicographic ranges are for elements of one score. *)
Definition one_score (l : list elt) : Prop := forall a b, a ∈ l -> b ∈ l -> SFeqb (fst a) (fst b) = true.
Definition in_lex (r : zlexrangespec) (a : elt) : bool := zslLexValueGteMin (snd a) r && zslLexValueLteMax (snd a) r.

Lemma one_score_lt l a b : Forall num l -> one_score l -> a ∈ l -> b ∈ l -> elt_lt a b = true -> cmp_obj (snd a) (snd b) < 0.
Proof.
  intros Hn H1 Ha Hb. rewrite Forall_forall in Hn. pose proof (H1 a b Ha Hb) as E. apply SFeqb_key in E; [|by apply Hn|by apply Hn].
  rewrite elt_lt_key by (by apply Hn). rewrite E. intros [H|[_ H]]; [by apply key_lt_irrefl in H|done].
Qed.

Lemma lex_mono v w b : cmp_obj v w < 0 ->
  let cv := compareStringObjectsForLexRange (LexObj v) b in let cw := compareStringObjectsForLexRange (LexObj w) b in
  (cw < 0 -> cv < 0) /\ (cw <= 0 -> cv <= 0).
Proof.
  intros H. destruct b as [| |x]; cbn; [lia|lia|]. assert (Hlt : cmp_obj w x <= 0 -> cmp_obj v x < 0); [|lia].
  intros Hw. destruct (Z.eq_dec (cmp_obj w x) 0) as [E|E]; [apply cmp_obj_eq in E; by subst|]. apply (cmp_obj_trans v w x); lia.
Qed.

Lemma lex_down_on L r : Forall num L -> one_score L ->
  down_on L (fun a => negb (zslLexValueGteMin (snd a) r)) /\ down_on L (fun a => zslLexValueLteMax (snd a) r).
Proof.
  intros Hn H1. split; intros a b Ha Hb Hlt.
  - pose proof (lex_mono _ _ (l_min r) (one_score_lt _ a b Hn H1 Ha Hb Hlt)) as Hm. cbn in Hm. unfold zslLexValueGteMin.
    destruct (l_minex r); rewrite !negb_true_iff, ?Z.ltb_ge, ?Z.leb_gt; tauto.
  - pose proof (lex_mono _ _ (l_max r) (one_score_lt _ a b Hn H1 Ha Hb Hlt)) as Hm. cbn in Hm. unfold zslLexValueLteMax.
    destruct (l_maxex r); rewrite ?Z.ltb_lt, ?Z.leb_le; tauto.
Qed.

Lemma lex_down z L r : zsl_ok z L -> one_score (map elt_of L) ->
  down_on (map elt_of L) (fun a => negb (zslLexValueGteMin (snd a) r)) /\ down_on (map elt_of L) (fun a => zslLexValueLteMax (snd a) r).
Proof. intros H. apply lex_down_on, (zo_num _ _ H). Qed.

Lemma lex_node r n c : of_cell c n -> lex_gte r n = zslLexValueGteMin (c_obj c) r /\ lex_lte r n = zslLexValueLteMax (c_obj c) r.
Proof. intros [Ho _]. unfold lex_gte, lex_lte. by rewrite Ho. Qed.

(** The bytes of the shared objects minstring and maxstring as a member. *)
Definition no_clash (r : zlexrangespec) : bool :=
  match l_min r, l_max r with
  | LexMin, LexObj x => negb (bool_decide (x = str "minstring")) | LexObj x, LexMax => negb (bool_decide (x = str "maxstring")) | _, _ => true
  end.

Lemma lex_empty_none r a : no_clash r = true -> lex_empty r = true -> in_lex r a = false.
Proof.
  intros Hc He. apply not_true_iff_false. unfold in_lex, zslLexValueGteMin, zslLexValueLteMax. intros [H1 H2]%andb_true_iff.
  unfold lex_empty in He. apply orb_true_iff in He. rewrite andb_true_iff, Z.eqb_eq, Z.ltb_lt, cmp_obj_eq in He.
  destruct r as [mn mx minex maxex]. cbn in *. destruct mn as [| |x], mx as [| |y]; cbn in *; try (destruct He as [?|[? ?]]; [lia|done]);
    try (destruct minex, maxex; done).
  - destruct He as [?|[<- _]]; [lia|]. done.
  - destruct He as [?|[-> _]]; [lia|]. done.
  - assert (H3 : 0 <= cmp_obj (snd a) x /\ (minex = true -> 0 < cmp_obj (snd a) x)) by (destruct minex; [apply Z.ltb_lt in H1|apply Z.leb_le in H1]; (split; [lia|done])).
    assert (H4 : cmp_obj (snd a) y <= 0 /\ (maxex = true -> cmp_obj (snd a) y < 0)) by (destruct maxex; [apply Z.ltb_lt in H2|apply Z.leb_le in H2]; (split; [lia|done])).
    destruct He as [He|[-> [->| ->]%orb_true_iff]]; [|lia|lia].
    assert (cmp_obj (snd a) x < 0); [|lia]. destruct (Z.eq_dec (cmp_obj (snd a) y) 0) as [E|E].
    + apply cmp_obj_eq in E. rewrite E, cmp_obj_flip. lia.
    + apply (cmp_obj_trans _ y); [lia|]. rewrite cmp_obj_flip. lia.
Qed.

Lemma lex_queries z L r : zsl_ok z L -> one_score (map elt_of L) -> no_clash r = true ->
  zslFirstInLexRange r z = Done (c_addr <$> head (List.filter (fun c => in_lex r (elt_of c)) L), z) /\
  zslLastInLexRange r z = Done (c_addr <$> last (List.filter (fun c => in_lex r (elt_of c)) L), z).
Proof.
  intros H H1 Hc. unfold zslFirstInLexRange, zslLastInLexRange, zslIsInLexRange. destruct (lex_empty r) eqn:Er.
  - rewrite filter_none_c; [done|]. intros c _. by apply lex_empty_none.
  - destruct (lex_down z L r H H1) as [Hd1 Hd2].
    apply (query_ok (lex_gte r) (lex_lte r) (fun a => zslLexValueGteMin (snd a) r) (fun a => zslLexValueLteMax (snd a) r)); try done; intros n c Hn; by apply lex_node.
Qed.

Lemma range_by_lex_ok z L r : zsl_ok z L -> one_score (map elt_of L) ->
  exists z' L', zslDeleteRangeByLex r z = Done (map snd (List.filter (in_lex r) (map elt_of L)), z') /\ zsl_ok z' L' /\
    map elt_of L' = List.filter (fun a => negb (in_lex r a)) (map elt_of L) /\ L' ⊆ L.
Proof.
  intros H H1. destruct (lex_down z L r H H1) as [Hd1 Hd2].
  apply (between_ok _ _ (fun a => zslLexValueGteMin (snd a) r) (fun a => zslLexValueLteMax (snd a) r)); try done; intros t n c Ho Hs;
    destruct (lex_node r n c (conj Ho Hs)) as [E1 E2]; cbn; by rewrite ?E1, ?E2.
Qed.

(** ** Release *)
(** The nodes [L] are what is left, linked at level 0. *)
Definition chain (z : zskiplist) (L : list cell) : Prop :=
  (forall A c B, L = A ++ c :: B -> exists l, entry z (c_addr c) 0 = Some l /\ forward l = c_addr <$> head B) /\
  NoDup (addrs L) /\ (forall a, is_Some (zsl_nodes z !! a) -> a ∈ addrs L).

Lemma free_nodes_ok L : forall z fuel, chain z L -> (length L <= fuel)%nat ->
  exists z', free_nodes fuel (c_addr <$> head L) z = Done (tt, z') /\ zsl_nodes z' = ∅.
Proof.
  induction L as [|c L IH]; intros z fuel (Hl & Hnd & Hd) Hf.
  - exists z. split; [by destruct fuel|]. apply map_empty. intros a. apply eq_None_not_Some. intros Ha. by apply Hd, elem_of_nil in Ha.
  - destruct fuel as [|fuel]; [cbn in Hf; lia|]. cbn [head fmap option_fmap option_map free_nodes]. apply NoDup_cons in Hnd as [Hc Hnd]. change (c_addr c ∉ addrs L) in Hc.
    destruct (Hl [] c L eq_refl) as (l & He & Hfw). destruct (entry_read _ _ _ _ He) as (n & Hn & Hlv). rewrite (prog_bind_step _ _ _ _ _ Hn), Hlv, bind_lift, Hfw.
    assert (Hn' : zsl_nodes z !! c_addr c = Some n) by (unfold node in Hn; destruct (zsl_nodes z !! c_addr c); [by injection Hn as ->|done]).
    rewrite (prog_bind_step (zslFreeNode (c_addr c)) _ z tt (set_zsl_nodes (delete (c_addr c) (zsl_nodes z)) z)) by (unfold zslFreeNode; by rewrite Hn').
    apply IH; [|cbn in Hf; lia]. split; [|split; [done|]].
    + intros A d B E. destruct (Hl (c :: A) d B) as (l' & He' & Hf'); [by rewrite E|]. exists l'. split; [|done]. unfold entry in *. cbn.
      rewrite lookup_delete_ne; [done|]. intros Eq. apply Hc. rewrite Eq, E, map_app. apply elem_of_app. right. by left.
    + intros a Ha. cbn in Ha. apply lookup_delete_is_Some in Ha as [Hne Ha]. apply Hd, elem_of_cons in Ha as [->|Ha]; done.
Qed.

(** zslFree leaves no node behind. *)
Lemma zslFree_ok z L : zsl_ok z L -> exists z', zslFree z = Done (tt, z') /\ zsl_nodes z' = ∅.
Proof.
  intros H. pose proof (zo_rep _ _ H) as Hr. pose proof (rp_heights _ _ Hr) as Hh. pose proof (rp_nodup _ _ Hr) as [Hhd Hnd]%NoDup_cons. unfold zslFree. run.
  pose proof (entry_0 z [] L Hr) as He. cbn in He. destruct (entry_read _ _ _ _ He) as (n & Hn & Hlv).
  rewrite (prog_bind_step _ _ _ _ _ Hn), Hlv, bind_lift, (lv_0 _ _ Hh).
  destruct (meta_node _ _ _ (rp_head _ _ Hr)) as (h & Hh' & _).
  rewrite (prog_bind_step (zslFreeNode (zsl_header z)) _ z tt (set_zsl_nodes (delete (zsl_header z) (zsl_nodes z)) z)) by (unfold zslFreeNode; by rewrite Hh').
  apply free_nodes_ok; [|unfold steps; rewrite (rp_len _ _ Hr); lia]. split; [|split; [done|]].
  - intros A c B E. exists (lv 0 B). rewrite E in Hr, Hh, Hhd. apply Forall_app in Hh as [_ Hh]. apply Forall_cons in Hh as [_ Hh]. split; [|by eapply lv_0].
    pose proof (entry_0 z (A ++ [c]) B) as He'. rewrite <- app_assoc, here_snoc in He'. specialize (He' Hr). unfold entry in *. cbn.
    rewrite lookup_delete_ne; [done|]. intros Eq. apply Hhd. rewrite Eq, map_app. apply elem_of_app. right. by left.
  - intros a Ha. cbn in Ha. apply lookup_delete_is_Some in Ha as [Hne Ha]. apply (zo_exact _ _ H) in Ha. apply elem_of_cons in Ha as [->|Ha]; done.
Qed.

(** ** Refinement *)
Inductive zs_op :=
| ZInsert (sc : spec_float) (o : sds) (rs : list Z)
| ZDelete (sc : spec_float) (o : sds)
| ZRemByScore (r : zrangespec)
| ZRemByRank (start stop : Z)
| ZRank (sc : spec_float) (o : sds)
| ZAt (rank : Z)
| ZFirst (r : zrangespec)
| ZLast (r : zrangespec).
Inductive zs_out := OUnit | OBool (b : bool) | OObjs (l : list sds) | ORank (n : Z) | OElt (e : option elt).

(** The element of the node that a query answers. *)
Definition read_elt (a : option positive) : prog zskiplist zs_out :=
  match a with
  | None => mret (OElt None)
  | Some a => n ← node a; o ← lift (expect NullDeref (n_obj n)); mret (OElt (Some (n_score n, o)))
  end.

Definition zs_step (junk : zskiplistLevel) (op : zs_op) : prog zskiplist zs_out :=
  match op with
  | ZInsert sc o rs => _ ← zslInsert junk sc o rs; mret OUnit
  | ZDelete sc o => b ← zslDelete sc o; mret (OBool b)
  | ZRemByScore r => l ← zslDeleteRangeByScore r; mret (OObjs l)
  | ZRemByRank start stop => l ← zslDeleteRangeByRank start stop; mret (OObjs l)
  | ZRank sc o => n ← zslGetRank sc o; mret (ORank n)
  | ZAt rank => a ← zslGetElementByRank rank; read_elt a
  | ZFirst r => a ← zslFirstInRange r; read_elt a
  | ZLast r => a ← zslLastInRange r; read_elt a
  end.
Fixpoint zs_run (junk : zskiplistLevel) (ops : list zs_op) : prog zskiplist (list zs_out) :=
  match ops with [] => mret [] | op :: ops' => r ← zs_step junk op; rs ← zs_run junk ops'; mret (r :: rs) end.

(** The sorted list. *)
Definition zs_spec (op : zs_op) (l : list elt) : zs_out * list elt :=
  match op with
  | ZInsert sc o _ => (OUnit, spec_insert (sc, o) l)
  | ZDelete sc o => (OBool (spec_member sc o l), spec_delete sc o l)
  | ZRemByScore r => (OObjs (map snd (List.filter (in_range r) l)), List.filter (fun a => negb (in_range r a)) l)
  | ZRemByRank start stop =>
    (OObjs (map snd (take (rank_count start stop) (drop (rank_from start) l))), take (rank_from start) l ++ drop (rank_count start stop) (drop (rank_from start) l))
  | ZRank _ o => (ORank (spec_rank o l), l)
  | ZAt rank => (OElt (l !! Z.to_nat (rank - 1)), l)
  | ZFirst r => (OElt (head (List.filter (in_range r) l)), l)
  | ZLast r => (OElt (last (List.filter (in_range r) l)), l)
  end.
Fixpoint zs_spec_run (ops : list zs_op) (l : list elt) : list zs_out * list elt :=
  match ops with
  | [] => ([], l)
  | op :: ops' => let (r, l1) := zs_spec op l in let (rs, l2) := zs_spec_run ops' l1 in (r :: rs, l2)
  end.

(** What the callers see to: no score and no end of a range is a NaN; a member that
    is inserted is new; a rank is asked with the score that the member has. *)
Definition op_ok (op : zs_op) (l : list elt) : bool :=
  let range r := negb (isnan (r_min r)) && negb (isnan (r_max r)) in
  match op with
  | ZInsert sc o rs => negb (isnan sc) && negb (bool_decide (o ∈ map snd l)) && match zslRandomLevel rs with Done _ => true | _ => false end &&
      (Z.of_nat (length l) + 1 <? 2 ^ 32)
  | ZDelete sc o => negb (isnan sc)
  | ZRemByScore r | ZFirst r | ZLast r => range r
  | ZRemByRank start stop => (0 <=? start) && (0 <=? stop)
  | ZRank sc o => negb (isnan sc) && forallb (fun a => negb (bool_decide (snd a = o)) || SFeqb (fst a) sc) l
  | ZAt rank => 1 <=? rank
  end.
Fixpoint ops_ok (ops : list zs_op) (l : list elt) : bool :=
  match ops with [] => true | op :: ops' => op_ok op l && ops_ok ops' (snd (zs_spec op l)) end.

Lemma create_ok : zsl_ok zslCreate [].
Proof.
  split; [|intros a [n Hn]; cbn in Hn; apply lookup_singleton_Some in Hn as [<- _]; by left|constructor|constructor|constructor].
  split; try done.
  - intros i Hi X Y E HT. assert (i = 0%nat) as -> by (cbn in Hi; lia). symmetry in E. apply app_nil in E as [-> ->]. done.
  - intros i Hi. cbn in Hi. unfold entry. cbn -[ZSKIPLIST_MAXLEVEL]. rewrite lookup_singleton_eq. cbn -[ZSKIPLIST_MAXLEVEL].
    by rewrite lookup_replicate_2 by lia.
  - apply NoDup_singleton.
  - intros a Ha. cbn in *. rewrite lookup_singleton_ne; [done|]. lia.
  - cbn. unfold ZSKIPLIST_MAXLEVEL. lia.
Qed.

Lemma read_cell z L c : zsl_ok z L -> c ∈ L -> read_elt (Some (c_addr c)) z = Done (OElt (Some (elt_of c)), z).
Proof.
  intros H Hc. apply list_elem_of_split in Hc as (A & B & ->). pose proof (zo_rep _ _ H) as Hr. destruct (rep_node _ _ _ _ Hr) as (n & Hn & _).
  destruct (rep_cell _ _ _ _ _ Hr Hn) as [Ho Hs]. cbn [read_elt]. rewrite (bind_node _ _ _ _ Hn), Ho. cbn [expect]. rewrite bind_lift, Hs. done.
Qed.

Lemma read_filtered z L f x : zsl_ok z L -> (x = head (List.filter f L) \/ x = last (List.filter f L)) ->
  read_elt (c_addr <$> x) z = Done (OElt (elt_of <$> x), z).
Proof.
  intros H Hx. destruct x as [c|]; [|done]. apply (read_cell z L c H). assert (Hc : c ∈ List.filter f L).
  { destruct Hx as [Hx|Hx]; [destruct (List.filter f L); [done|]; injection Hx as ->; by left|by apply last_in]. }
  by apply list_elem_of_In, filter_In in Hc as [Hc%list_elem_of_In _].
Qed.

Lemma head_map {X Y} (f : X -> Y) l : head (map f l) = f <$> head l.
Proof. by destruct l. Qed.
Lemma last_map {X Y} (f : X -> Y) l : last (map f l) = f <$> last l.
Proof. induction l as [|a l IH] using rev_ind; [done|]. rewrite map_app. cbn. rewrite !last_snoc. done. Qed.

Lemma zs_step_refines junk op z L : zsl_ok z L -> op_ok op (map elt_of L) = true ->
  exists z' L', zs_step junk op z = Done (fst (zs_spec op (map elt_of L)), z') /\ zsl_ok z' L' /\ map elt_of L' = snd (zs_spec op (map elt_of L)).
Proof.
  intros H Hop. destruct op as [sc o rs|sc o|r|start stop|sc o|rank|r|r]; cbn in Hop; cbn [zs_step zs_spec fst snd].
  - apply andb_true_iff in Hop as [Hop H4%Z.ltb_lt]. apply andb_true_iff in Hop as [Hop H3]. apply andb_true_iff in Hop as [H1%negb_true_iff H2%negb_true_iff].
    apply bool_decide_eq_false in H2. rewrite length_map in H4. destruct (zslRandomLevel rs) as [level|] eqn:Ers; [|done].
    destruct (insert_ok junk z L sc o rs level H H1 ltac:(by rewrite map_obj) Ers H4) as (z' & L' & E & Hz & El & _).
    exists z', L'. by rewrite (prog_bind_step _ _ _ _ _ E).
  - apply negb_true_iff in Hop. destruct (delete_ok z L sc o H Hop) as (z' & L' & E & Hz & El & _). exists z', L'. by rewrite (prog_bind_step _ _ _ _ _ E).
  - apply andb_true_iff in Hop as [H1%negb_true_iff H2%negb_true_iff]. destruct (range_by_score_ok z L r H H1 H2) as (z' & L' & E & Hz & El & _).
    exists z', L'. by rewrite (prog_bind_step _ _ _ _ _ E).
  - apply andb_true_iff in Hop as [H1%Z.leb_le H2%Z.leb_le]. destruct (range_by_rank_ok z L start stop H H1 H2) as (z' & L' & E & Hz & El & _).
    exists z', L'. by rewrite (prog_bind_step _ _ _ _ _ E).
  - apply andb_true_iff in Hop as [H1%negb_true_iff H2]. exists z, L.
    assert (Hm : forall c, c ∈ L -> c_obj c = o -> SFeqb (c_score c) sc = true).
    { intros c Hc Ho. rewrite forallb_forall in H2. specialize (H2 (elt_of c) (proj1 (list_elem_of_In _ _) (list_elem_of_fmap_2 elt_of _ _ Hc))).
      cbn in H2. by rewrite bool_decide_eq_true_2 in H2 by done. }
    by rewrite (prog_bind_step _ _ _ _ _ (rank_ok z L sc o H H1 Hm)).
  - apply Z.leb_le in Hop. exists z, L. split; [|done]. rewrite (prog_bind_step _ _ _ _ _ (by_rank_ok z L rank H ltac:(lia))).
    destruct (Z.ltb_spec (Z.of_nat (length L)) rank) as [Hlt|Hge]; [by rewrite lookup_ge_None_2 by (rewrite length_map; lia)|].
    destruct (lookup_lt_is_Some_2 L (Z.to_nat (rank - 1))) as [c Hc]; [lia|]. replace (Z.to_nat rank) with (S (Z.to_nat (rank - 1))) by lia.
    rewrite (take_S_r _ _ _ Hc), here_snoc, list_lookup_fmap, Hc. apply read_cell with L; [done|by eapply list_elem_of_lookup_2].
  - apply andb_true_iff in Hop as [H1%negb_true_iff H2%negb_true_iff]. exists z, L. split; [|done].
    rewrite (prog_bind_step _ _ _ _ _ (proj1 (score_queries z L r H H1 H2))). rewrite <- (map_filter_elt (in_range r)), head_map. eapply read_filtered; [done|by left].
  - apply andb_true_iff in Hop as [H1%negb_true_iff H2%negb_true_iff]. exists z, L. split; [|done].
    rewrite (prog_bind_step _ _ _ _ _ (proj2 (score_queries z L r H H1 H2))). rewrite <- (map_filter_elt (in_range r)), last_map. eapply read_filtered; [done|by right].
Qed.

Lemma zs_run_refines junk ops : forall z L, zsl_ok z L -> ops_ok ops (map elt_of L) = true ->
  exists z' L', zs_run junk ops z = Done (fst (zs_spec_run ops (map elt_of L)), z') /\ zsl_ok z' L' /\ map elt_of L' = snd (zs_spec_run ops (map elt_of L)).
Proof.
  induction ops as [|op ops IH]; intros z L H Hok; [by exists z, L|]. cbn in Hok. apply andb_true_iff in Hok as [Hop Hok].
  destruct (zs_step_refines junk op z L H Hop) as (z1 & L1 & E1 & H1 & El1). cbn [zs_run zs_spec_run]. rewrite (prog_bind_step _ _ _ _ _ E1).
  rewrite <- El1 in Hok. destruct (IH z1 L1 H1 Hok) as (z2 & L2 & E2 & H2 & El2). rewrite (prog_bind_step _ _ _ _ _ E2). exists z2, L2.
  destruct (zs_spec op (map elt_of L)) as [r l1]. cbn in El1 |- *. subst l1. by destruct (zs_spec_run ops (map elt_of L1)) as [rs l2].
Qed.

(** C17: every sequence of skip-list operations on a new sorted set (insertions with any
    random levels, deletions by element, by score range and by rank range, rank queries
    and range queries) runs without a fault, answers what the sorted list of elements
    answers, and ends in a heap that is the skip list of that list: every forward
    pointer, span and backward pointer is right, and no other node is allocated. *)
Theorem zsl_refines (junk : zskiplistLevel) (ops : list zs_op) : ops_ok ops [] = true ->
  exists z' L', zs_run junk ops zslCreate = Done (fst (zs_spec_run ops []), z') /\ zsl_ok z' L' /\ map elt_of L' = snd (zs_spec_run ops []).
Proof. apply (zs_run_refines junk ops zslCreate []), create_ok. Qed.

Definition demo_score (n : positive) : spec_float := S754_finite false n 0.
(** Levels 1, 3 and 2. *)
Definition demo_ops : list zs_op :=
  [ZInsert (demo_score 5) (str "b") [65535]; ZInsert (demo_score 5) (str "a") [0; 1; 65535]; ZInsert (S754_zero true) (str "z") [0; 65535];
   ZRank (demo_score 5) (str "b"); ZAt 2; ZFirst (mkRange (S754_zero false) (S754_infinity false) true false);
   ZRemByRank 2 2; ZDelete (demo_score 5) (str "b"); ZLast (mkRange (S754_zero false) (demo_score 9) false false)].

Lemma zsl_refines_witness : ops_ok demo_ops [] = true /\
  exists z', zs_run (mkLevel None 7) demo_ops zslCreate =
    Done ([OUnit; OUnit; OUnit; ORank 3; OElt (Some (demo_score 5, str "a")); OElt (Some (demo_score 5, str "a")); OObjs [str "a"]; OBool true; OElt (Some (S754_zero true, str "z"))], z').
Proof.
  split; [vm_compute; reflexivity|].
  destruct (zsl_refines (mkLevel None 7) demo_ops) as (z' & L' & E & _); [vm_compute; reflexivity|]. exists z'. exact E.
Defined.

(** With the range from - to (minstring, ZRANGEBYLEX finds nothing whatever the set
    holds, because the text of the shared object for the least string is compared with the
    bytes that the client sent; a member such as abc lies in that range. *)
Theorem minstring_range_is_empty (r : zlexrangespec) (z : zskiplist) :
  zslParseLexRange (Some (str "-")) (Some (str "(minstring")) = Some r ->
  zslFirstInLexRange r z = Done (None, z) /\ zslLastInLexRange r z = Done (None, z) /\ in_lex r (S754_zero false, str "abc") = true.
Proof. intros [= <-]. done. Qed.

Lemma minstring_range_is_empty_witness :
  zslFirstInLexRange (mkLex LexMin (LexObj (str "minstring")) false true) zslCreate = Done (None, zslCreate).
Proof. apply (minstring_range_is_empty _ zslCreate). reflexivity. Defined.
End ZSkipSpec.
