(* ===== verification/ZZip.v ===== *)
(** * Sorted sets: the ziplist encoding of t_zset.c

    The ziplist holds the members and the text of their scores in turn, in the order
    of the sorted set.  As in TList.v a ziplist is the list of its entries and a pointer
    into it an index; the length is the end marker, [None] is NULL.  The functions
    implement the sorted list that the skip list implements (ZSkipSpec.v). *)
From S2P Require Import Prelude CStr Util Server Object Double TList ZSkip ZSkipInv ZSkipSpec.
From Stdlib Require Import Sorting.Sorted.
Import ZSkip ZSkipInv ZSkipSpec.

Module ZZip.

Abbreviation ziplist := (list sds) (only parsing).

(** ** The ziplist *)
Definition ziplistIndex (zl : ziplist) (index : Z) : option nat := TList.list_index (length zl) index.
Definition ziplistNext (zl : ziplist) (p : nat) : option nat := TList.step_pos TList.REDIS_TAIL (length zl) p.
Definition ziplistPrev (zl : ziplist) (p : nat) : option nat := TList.step_pos TList.REDIS_HEAD (length zl) p.
(** [redisAssert(ziplistGet(p,...))] *)
Definition ziplistGet (zl : ziplist) (p : nat) : outcome sds := expect AssertFail (zl !! p).
(** The pointer is to the entry behind the deleted one. *)
Definition ziplistDelete (zl : ziplist) (p : nat) : outcome ziplist :=
  if (p <? length zl)%nat then Done (delete p zl) else Fault OutOfBounds.
Definition ziplistInsert (zl : ziplist) (p : nat) (x : sds) : outcome ziplist :=
  if (p <=? length zl)%nat then Done (take p zl ++ x :: drop p zl) else Fault OutOfBounds.
Definition ziplistDeleteRange (zl : ziplist) (index num : Z) : ziplist :=
  match ziplistIndex zl (to_s 32 index) with
  | Some p => take p zl ++ drop (p + Z.to_nat num) zl
  | None => zl
  end.

(** ** Elements *)
(** An entry that is an integer is kept as one; other text is copied into a buffer of
    128 bytes and read by strtod. *)
Definition zzlGetScore (zl : ziplist) (sptr : nat) : outcome Double.double :=
  e ← ziplistGet zl sptr;
  match Util.string2ll e with
  | Some vlong => Done (Double.of_Z vlong)
  | None => if 128 <=? sdslen e then Fault OutOfBounds else Done (Double.strtod_val e)
  end.

Definition zzlCompareElements (zl : ziplist) (eptr : nat) (c : sds) : outcome Z :=
  e ← ziplistGet zl eptr; Done (cmp_obj e c).

Definition zzlLength (zl : ziplist) : Z := Z.of_nat (length zl) / 2.

(** The element and its score that follow, or precede, those at [eptr] and [sptr]. *)
Definition zzlNext (zl : ziplist) (eptr sptr : nat) : outcome (option (nat * nat)) :=
  match ziplistNext zl sptr with
  | Some e => s ← expect AssertFail (ziplistNext zl e); Done (Some (e, s))
  | None => Done None
  end.
Definition zzlPrev (zl : ziplist) (eptr sptr : nat) : outcome (option (nat * nat)) :=
  match ziplistPrev zl eptr with
  | Some s => e ← expect AssertFail (ziplistPrev zl s); Done (Some (e, s))
  | None => Done None
  end.

(** ** Ranges *)
(** The score of the element at [eptr]. *)
Definition score_at (zl : ziplist) (eptr : nat) : outcome Double.double :=
  sptr ← expect AssertFail (ziplistNext zl eptr); zzlGetScore zl sptr.
Definition gte_score (r : zrangespec) (zl : ziplist) (eptr : nat) : outcome bool :=
  s ← score_at zl eptr; Done (zslValueGteMin s r).
Definition lte_score (r : zrangespec) (zl : ziplist) (eptr : nat) : outcome bool :=
  s ← score_at zl eptr; Done (zslValueLteMax s r).
Definition zzlLexValueGteMin (r : zlexrangespec) (zl : ziplist) (p : nat) : outcome bool :=
  e ← ziplistGet zl p; Done (zslLexValueGteMin e r).
Definition zzlLexValueLteMax (r : zlexrangespec) (zl : ziplist) (p : nat) : outcome bool :=
  e ← ziplistGet zl p; Done (zslLexValueLteMax e r).

Definition zzlIsInRange (zl : ziplist) (r : zrangespec) : outcome bool :=
  if range_empty r then Done false
  else match ziplistIndex zl (-1) with
  | None => Done false
  | Some p =>
    s ← zzlGetScore zl p;
    if negb (zslValueGteMin s r) then Done false
    else
      p ← expect AssertFail (ziplistIndex zl 1);
      s ← zzlGetScore zl p;
      Done (zslValueLteMax s r)
  end.
Definition zzlIsInLexRange (zl : ziplist) (r : zlexrangespec) : outcome bool :=
  if lex_empty r then Done false
  else match ziplistIndex zl (-2) with
  | None => Done false
  | Some p =>
    b ← zzlLexValueGteMin r zl p;
    if negb b then Done false
    else p ← expect AssertFail (ziplistIndex zl 0); zzlLexValueLteMax r zl p
  end.

(** The loops of the four queries: [gte] and [lte] test the element at a position
    against the ends of the range. *)
Section Tests.
Context (gte lte : ziplist -> nat -> outcome bool).

Fixpoint first_loop (zl : ziplist) (fuel : nat) (eptr : option nat) : outcome (option nat) :=
  match eptr, fuel with
  | None, _ => Done None
  | Some _, O => Fault OutOfFuel
  | Some p, S fuel' =>
    g ← gte zl p;
    if g : bool then l ← lte zl p; Done (if l : bool then Some p else None)
    else sptr ← expect AssertFail (ziplistNext zl p); first_loop zl fuel' (ziplistNext zl sptr)
  end.
Fixpoint last_loop (zl : ziplist) (fuel : nat) (eptr : option nat) : outcome (option nat) :=
  match eptr, fuel with
  | None, _ => Done None
  | Some _, O => Fault OutOfFuel
  | Some p, S fuel' =>
    l ← lte zl p;
    if l : bool then g ← gte zl p; Done (if g : bool then Some p else None)
    else match ziplistPrev zl p with
         | Some sptr => e ← expect AssertFail (ziplistPrev zl sptr); last_loop zl fuel' (Some e)
         | None => last_loop zl fuel' None
         end
  end.
(** [while ((sptr = ziplistNext(zl,eptr)) != NULL)]: an element in the range goes, with
    its score; [num] of them so far. *)
Fixpoint delete_loop (fuel : nat) (zl : ziplist) (eptr : nat) (num : Z) : outcome (ziplist * Z) :=
  match ziplistNext zl eptr, fuel with
  | None, _ => Done (zl, num)
  | Some _, O => Fault OutOfFuel
  | Some _, S fuel' =>
    l ← lte zl eptr;
    if l : bool then
      zl ← ziplistDelete zl eptr;
      zl ← ziplistDelete zl eptr;
      delete_loop fuel' zl eptr (num + 1)
    else Done (zl, num)
  end.
End Tests.

Definition zzlFirstInRange (zl : ziplist) (r : zrangespec) : outcome (option nat) :=
  b ← zzlIsInRange zl r;
  if negb b then Done None else first_loop (gte_score r) (lte_score r) zl (S (length zl)) (ziplistIndex zl 0).
Definition zzlLastInRange (zl : ziplist) (r : zrangespec) : outcome (option nat) :=
  b ← zzlIsInRange zl r;
  if negb b then Done None else last_loop (gte_score r) (lte_score r) zl (S (length zl)) (ziplistIndex zl (-2)).
Definition zzlFirstInLexRange (zl : ziplist) (r : zlexrangespec) : outcome (option nat) :=
  b ← zzlIsInLexRange zl r;
  if negb b then Done None else first_loop (zzlLexValueGteMin r) (zzlLexValueLteMax r) zl (S (length zl)) (ziplistIndex zl 0).
Definition zzlLastInLexRange (zl : ziplist) (r : zlexrangespec) : outcome (option nat) :=
  b ← zzlIsInLexRange zl r;
  if negb b then Done None else last_loop (zzlLexValueGteMin r) (zzlLexValueLteMax r) zl (S (length zl)) (ziplistIndex zl (-2)).

(** ** Search, deletion and insertion *)
Fixpoint find_loop (zl : ziplist) (ele : sds) (fuel : nat) (eptr : option nat) : outcome (option nat) :=
  match eptr, fuel with
  | None, _ => Done None
  | Some _, O => Fault OutOfFuel
  | Some p, S fuel' =>
    sptr ← expect AssertFail (ziplistNext zl p);
    x ← ziplistGet zl p;
    if bool_decide (x = ele) then Done (Some p) else find_loop zl ele fuel' (ziplistNext zl sptr)
  end.
(** The score is read for the callers that ask for it. *)
Definition zzlFind (zl : ziplist) (ele : sds) : outcome (option nat) := find_loop zl ele (S (length zl)) (ziplistIndex zl 0).
Definition zzlFind_score (zl : ziplist) (ele : sds) : outcome (option (nat * Double.double)) :=
  p ← zzlFind zl ele;
  match p with Some p => s ← score_at zl p; Done (Some (p, s)) | None => Done None end.

Definition zzlDelete (zl : ziplist) (eptr : nat) : outcome ziplist :=
  zl ← ziplistDelete zl eptr; ziplistDelete zl eptr.

(** The text of the score fits the buffer of 128 bytes ([Double.d2string_length]). *)
Definition zzlInsertAt (zl : ziplist) (eptr : option nat) (ele : sds) (sc : Double.double) : outcome ziplist :=
  let scorebuf := Double.d2string sc in
  match eptr with
  | None => Done ((zl ++ [ele]) ++ [scorebuf])
  | Some p =>
    zl ← ziplistInsert zl p ele;
    sptr ← expect AssertFail (ziplistNext zl p);
    ziplistInsert zl sptr scorebuf
  end.

Fixpoint insert_loop (zl : ziplist) (ele : sds) (sc : Double.double) (fuel : nat) (eptr : option nat) : outcome ziplist :=
  match eptr, fuel with
  | None, _ => zzlInsertAt zl None ele sc
  | Some _, O => Fault OutOfFuel
  | Some p, S fuel' =>
    sptr ← expect AssertFail (ziplistNext zl p);
    s ← zzlGetScore zl sptr;
    if SFltb sc s then zzlInsertAt zl (Some p) ele sc
    else
      c ← (if SFeqb s sc then zzlCompareElements zl p ele else Done 0);
      if 0 <? c then zzlInsertAt zl (Some p) ele sc
      else insert_loop zl ele sc fuel' (ziplistNext zl sptr)
  end.
Definition zzlInsert (zl : ziplist) (ele : sds) (sc : Double.double) : outcome ziplist :=
  insert_loop zl ele sc (S (length zl)) (ziplistIndex zl 0).

Definition zzlDeleteRangeByScore (zl : ziplist) (r : zrangespec) : outcome (ziplist * Z) :=
  p ← zzlFirstInRange zl r;
  match p with Some p => delete_loop (lte_score r) (S (length zl)) zl p 0 | None => Done (zl, 0) end.
Definition zzlDeleteRangeByLex (zl : ziplist) (r : zlexrangespec) : outcome (ziplist * Z) :=
  p ← zzlFirstInLexRange zl r;
  match p with Some p => delete_loop (zzlLexValueLteMax r) (S (length zl)) zl p 0 | None => Done (zl, 0) end.
(** [start] and [end] are unsigned ints, counted from 1. *)
Definition zzlDeleteRangeByRank (zl : ziplist) (start end_ : Z) : ziplist * Z :=
  let num := to_u 32 (to_u 32 (end_ - start) + 1) in
  (ziplistDeleteRange zl (to_u 32 (2 * to_u 32 (start - 1))) (to_u 32 (2 * num)), num).

(** * The sorted list of a ziplist *)
Definition pairs (l : list elt) : ziplist := concat (map (fun a => [snd a; Double.d2string (fst a)]) l).
(** The pointer to the first element of [B] behind the elements [A]. *)
Definition ptr (A B : list elt) : option nat := match B with [] => None | _ => Some (2 * length A)%nat end.
(** Scores in memory. *)
Definition good (a : elt) : Prop := Double.valid (fst a) = true /\ num a.

Lemma pairs_app A B : pairs (A ++ B) = pairs A ++ pairs B.
Proof. unfold pairs. by rewrite map_app, concat_app. Qed.
Lemma pairs_cons a B : pairs (a :: B) = snd a :: Double.d2string (fst a) :: pairs B.
Proof. done. Qed.
Lemma pairs_length l : length (pairs l) = (2 * length l)%nat.
Proof. induction l as [|a l IH]; [done|]. rewrite pairs_cons. cbn. lia. Qed.

Lemma get_member A a B : ziplistGet (pairs (A ++ a :: B)) (2 * length A) = Done (snd a).
Proof. unfold ziplistGet. rewrite pairs_app, lookup_app_r, pairs_length, Nat.sub_diag by (rewrite pairs_length; lia). done. Qed.

Lemma get_score A a B : good a -> zzlGetScore (pairs (A ++ a :: B)) (S (2 * length A)) = Done (fst a).
Proof.
  intros [Hv Hn]. unfold zzlGetScore, ziplistGet. rewrite pairs_app, lookup_app_r by (rewrite pairs_length; lia).
  rewrite pairs_length, pairs_cons. replace (S (2 * length A) - 2 * length A)%nat with 1%nat by lia. cbn [lookup list_lookup expect mbind]. rewrite bind_Done.
  pose proof (Double.read_back (fst a) Hv Hn) as Hr. pose proof (Double.d2string_length (fst a) Hv) as Hl. destruct (Util.string2ll _) as [n|] eqn:Es.
  - rewrite (Double.strtod_integer _ _ Es) in Hr. by injection Hr as ->.
  - rewrite (proj2 (Z.leb_gt 128 _)) by auto. unfold Double.strtod_val. by rewrite Hr.
Qed.

Lemma next_elt A a B : ziplistNext (pairs (A ++ a :: B)) (2 * length A) = Some (S (2 * length A)).
Proof.
  unfold ziplistNext, TList.step_pos. rewrite pairs_length, length_app. cbn [length]. by rewrite (proj2 (Nat.ltb_lt _ _)) by lia.
Qed.
Lemma next_score A a B : ziplistNext (pairs (A ++ a :: B)) (S (2 * length A)) = ptr (A ++ [a]) B.
Proof.
  unfold ziplistNext, TList.step_pos, ptr. rewrite pairs_length, !length_app. cbn [length]. destruct B as [|b B]; cbn [length].
  - by rewrite (proj2 (Nat.ltb_ge _ _)) by lia.
  - rewrite (proj2 (Nat.ltb_lt _ _)) by lia. f_equal. lia.
Qed.
Lemma score_at_ok A a B : good a -> score_at (pairs (A ++ a :: B)) (2 * length A) = Done (fst a).
Proof. intros Ha. unfold score_at. rewrite next_elt. cbn [expect]. rewrite bind_Done. by apply get_score. Qed.

Lemma index_0 l : ziplistIndex (pairs l) 0 = ptr [] l.
Proof. unfold ziplistIndex, TList.list_index. rewrite pairs_length. destruct l as [|a l]; [done|]. cbn -[Z.of_nat]. rewrite (proj2 (Z.ltb_lt _ _)) by lia. done. Qed.
Lemma index_last A a : ziplistIndex (pairs (A ++ [a])) (-2) = Some (2 * length A)%nat /\ ziplistIndex (pairs (A ++ [a])) (-1) = Some (S (2 * length A)).
Proof.
  unfold ziplistIndex, TList.list_index. rewrite pairs_length, length_app. cbn [length].
  split; cbn -[Z.of_nat]; rewrite (proj2 (Z.leb_le _ _)), (proj2 (Z.ltb_lt _ _)) by lia; cbn -[Z.of_nat]; f_equal; lia.
Qed.

(** ** Search *)
Lemma zzl_find_loop_ok ele B : forall A fuel, (length B < fuel)%nat -> find_loop (pairs (A ++ B)) ele fuel (ptr A B) =
  Done ((fun p => 2 * (length A + fst p))%nat <$> list_find (fun a => snd a = ele) B).
Proof.
  induction B as [|b B IH]; intros A fuel Hf; [by destruct fuel|]. destruct fuel as [|fuel]; [cbn in Hf; lia|]. cbn [ptr find_loop].
  rewrite next_elt. cbn [expect]. rewrite bind_Done, get_member, bind_Done. cbn [list_find]. case_bool_decide as E.
  - rewrite decide_True by done. cbn. do 2 f_equal. lia.
  - rewrite decide_False by done. rewrite next_score. change (A ++ b :: B) with (A ++ [b] ++ B). rewrite app_assoc. rewrite (IH (A ++ [b])) by (cbn in Hf; lia).
    rewrite length_app. cbn [length]. destruct (list_find _ B) as [[i x]|]; cbn; [|done]. do 2 f_equal. lia.
Qed.

Lemma zzlFind_ok l ele : zzlFind (pairs l) ele = Done ((fun p => 2 * fst p)%nat <$> list_find (fun a => snd a = ele) l).
Proof. unfold zzlFind. rewrite index_0. apply (zzl_find_loop_ok ele l []). rewrite pairs_length. lia. Qed.

Lemma find_split l ele : match list_find (fun a : elt => snd a = ele) l with
  | Some (i, a) => exists A B, l = A ++ a :: B /\ length A = i /\ snd a = ele /\ ele ∉ map snd A
  | None => ele ∉ map snd l end.
Proof.
  destruct (list_find _ l) as [[i a]|] eqn:E.
  - apply list_find_Some in E as (Hi & Ha & Hb). exists (take i l), (drop (S i) l). split; [symmetry; by apply take_drop_middle|].
    split; [apply length_take_le; apply lookup_lt_Some in Hi; lia|]. split; [done|]. intros (b & Eb & Hin)%list_elem_of_fmap.
    apply list_elem_of_lookup in Hin as [j Hj]. apply lookup_take_Some in Hj as [Hj Hlt]. eapply Hb; [exact Hj|done|done].
  - apply list_find_None in E. intros (b & -> & Hin)%list_elem_of_fmap. rewrite Forall_forall in E. by apply (E b).
Qed.

Lemma zzlDelete_ok A a B : zzlDelete (pairs (A ++ a :: B)) (2 * length A) = Done (pairs (A ++ B)).
Proof.
  unfold zzlDelete, ziplistDelete. rewrite !pairs_app, pairs_cons, length_app, pairs_length. cbn [length]. rewrite (proj2 (Nat.ltb_lt _ _)) by lia. rewrite bind_Done.
  assert (E : forall x Y, delete (2 * length A)%nat (pairs A ++ x :: Y) = pairs A ++ Y) by (intros x Y; rewrite <- pairs_length; apply delete_middle).
  rewrite E, length_app, pairs_length. cbn [length]. rewrite (proj2 (Nat.ltb_lt _ _)) by lia. by rewrite E.
Qed.

(** ** Insertion *)
Lemma insertAt_ok A B ele sc : zzlInsertAt (pairs (A ++ B)) (ptr A B) ele sc = Done (pairs (A ++ (sc, ele) :: B)).
Proof.
  destruct B as [|b B]; cbn [ptr zzlInsertAt].
  - by rewrite app_nil_r, pairs_app, <- app_assoc.
  - set (R := b :: B). assert (HR : (0 < length (pairs R))%nat) by (subst R; rewrite pairs_length; cbn; lia). clearbody R. unfold ziplistInsert.
    rewrite pairs_app, length_app, pairs_length, (proj2 (Nat.leb_le _ _)) by lia. rewrite bind_Done.
    rewrite <- (pairs_length A), take_app_length, drop_app_length. unfold ziplistNext, TList.step_pos. rewrite length_app. cbn [length].
    rewrite (proj2 (Nat.ltb_lt _ _)) by lia. cbn [expect]. rewrite bind_Done, (proj2 (Nat.leb_le _ _)) by lia. change (ele :: pairs R) with ([ele] ++ pairs R). rewrite app_assoc.
    replace (S (length (pairs A))) with (length (pairs A ++ [ele])) by (rewrite length_app; cbn; lia). rewrite take_app_length, drop_app_length.
    rewrite pairs_app, pairs_cons, <- app_assoc. done.
Qed.

Lemma SFeqb_sym a b : SFeqb a b = SFeqb b a.
Proof.
  unfold SFeqb. destruct a as [sa|sa| |sa ma ea], b as [sb|sb| |sb mb eb]; try done; cbn; [by destruct sa, sb..|].
  rewrite (Z.compare_antisym ea eb). change (Pos.compare_cont Eq mb ma) with (Pos.compare mb ma). change (Pos.compare_cont Eq ma mb) with (Pos.compare ma mb).
  rewrite (Pos.compare_antisym ma mb). destruct sa, sb, (ea ?= eb), (Pos.compare ma mb); done.
Qed.

(** The elements before the place are not behind the new one, the next is. *)
Lemma insert_loop_ok ele sc B C : forall A fuel, (length (B ++ C) < fuel)%nat -> Forall good (B ++ C) ->
  Forall (fun a => elt_lt (sc, ele) a = false) B -> (forall c, head C = Some c -> elt_lt (sc, ele) c = true) ->
  insert_loop (pairs (A ++ B ++ C)) ele sc fuel (ptr A (B ++ C)) = Done (pairs (A ++ B ++ (sc, ele) :: C)).
Proof.
  assert (Htest : forall a, (if SFltb sc (fst a) then true else if SFeqb (fst a) sc then 0 <? cmp_obj (snd a) ele else false) = elt_lt (sc, ele) a).
  { intros a. unfold elt_lt. cbn [fst snd]. rewrite SFeqb_sym, (cmp_obj_flip (snd a)). destruct (SFltb sc (fst a)); [done|]. cbn [orb]. destruct (SFeqb sc (fst a)); [|done].
    apply eq_true_iff_eq. cbn. rewrite !Z.ltb_lt. lia. }
  induction B as [|b B IH]; intros A fuel Hf Hg HB HC.
  - destruct C as [|c C]; cbn [app] in *; [destruct fuel; [cbn in Hf; lia|]; apply (insertAt_ok A [])|]. destruct fuel as [|fuel]; [cbn in Hf; lia|]. cbn [ptr insert_loop].
    apply Forall_cons in Hg as [Hc _]. rewrite next_elt. cbn [expect]. rewrite bind_Done, get_score, bind_Done by done. specialize (HC c eq_refl). rewrite <- Htest in HC.
    destruct (SFltb sc (fst c)); [apply (insertAt_ok A (c :: C))|]. destruct (SFeqb (fst c) sc); [|done]. unfold zzlCompareElements. rewrite get_member, bind_Done, bind_Done, HC.
    apply (insertAt_ok A (c :: C)).
  - destruct fuel as [|fuel]; [cbn in Hf; lia|]. cbn [app ptr insert_loop]. cbn [app] in Hg. apply Forall_cons in Hg as [Hb Hg]. apply Forall_cons in HB as [Hlt HB].
    rewrite next_elt. cbn [expect]. rewrite bind_Done, get_score, bind_Done by done. rewrite <- Htest in Hlt.
    destruct (SFltb sc (fst b)); [done|]. replace (c ← if SFeqb (fst b) sc then zzlCompareElements (pairs (A ++ b :: B ++ C)) (2 * length A) ele else Done 0;
      if 0 <? c then zzlInsertAt (pairs (A ++ b :: B ++ C)) (Some (2 * length A)%nat) ele sc else insert_loop (pairs (A ++ b :: B ++ C)) ele sc fuel (ziplistNext (pairs (A ++ b :: B ++ C)) (S (2 * length A))))
      with (insert_loop (pairs (A ++ b :: B ++ C)) ele sc fuel (ziplistNext (pairs (A ++ b :: B ++ C)) (S (2 * length A)))).
    + rewrite next_score. pose proof (IH (A ++ [b]) fuel ltac:(cbn in Hf; lia) Hg HB HC) as H. by rewrite <- !app_assoc in H.
    + destruct (SFeqb (fst b) sc); [|done]. unfold zzlCompareElements. by rewrite get_member, bind_Done, bind_Done, Hlt.
Qed.

Lemma good_num l : Forall good l -> Forall num l.
Proof. intros H. eapply Forall_impl; [exact H|]. by intros a [_ Ha]. Qed.

(** A sorted list, cut where a test that is closed downwards fails. *)
Lemma sorted_cut p l : down_on l p -> sorted l -> l = List.filter p l ++ List.filter (fun a => negb (p a)) l.
Proof.
  intros Hd Hs. pose (mk := fun a : elt => mkCell 1 (fst a) (snd a) 0). assert (E : map elt_of (map mk l) = l).
  { rewrite map_map. erewrite map_ext; [apply map_id|]. by intros []. }
  pose proof (sorted_split p (map mk l)) as H. rewrite E in H. specialize (H Hd Hs). apply (f_equal (map elt_of)) in H.
  by rewrite map_app, (map_filter_elt p), (map_filter_elt (fun a => negb (p a))), E in H.
Qed.

Lemma zzlInsert_ok l ele sc : Forall good l -> sorted l -> good (sc, ele) -> ele ∉ map snd l -> zzlInsert (pairs l) ele sc = Done (pairs (spec_insert (sc, ele) l)).
Proof.
  intros Hg Hs [_ Hn] Hne. pose proof (good_num l Hg) as Hnl. pose proof (down_down_on l _ Hnl (down_lt (sc, ele) Hn)) as Hd.
  pose proof (sorted_cut _ l Hd Hs) as E. unfold zzlInsert, spec_insert. rewrite index_0, pairs_length.
  set (B := List.filter (fun a => elt_lt a (sc, ele)) l) in *. set (C := List.filter (fun a => negb (elt_lt a (sc, ele))) l) in *.
  assert (HB : Forall (fun a => elt_lt (sc, ele) a = false) B).
  { apply Forall_forall. intros a Ha. apply list_elem_of_In, filter_In in Ha as [Ha Hlt]. apply not_true_iff_false. intros Hgt. apply list_elem_of_In in Ha.
    rewrite Forall_forall in Hnl. pose proof (elt_lt_trans a (sc, ele) a (Hnl a Ha) Hn (Hnl a Ha) Hlt Hgt) as H. rewrite elt_lt_key in H by auto.
    destruct H as [H|[_ H]]; [by apply key_lt_irrefl in H|]. rewrite cmp_obj_refl in H. lia. }
  assert (HC : forall c, head C = Some c -> elt_lt (sc, ele) c = true).
  { intros c Hc. assert (Hin : c ∈ C) by (destruct C; [done|]; injection Hc as ->; by left). apply list_elem_of_In, filter_In in Hin as [Hin Hge%negb_true_iff].
    apply list_elem_of_In in Hin. apply elt_total; [by rewrite Forall_forall in Hnl; apply Hnl|done| |done]. cbn. intros Eq. apply Hne. rewrite <- Eq. by apply list_elem_of_fmap_2. }
  rewrite E at 1 3. rewrite E in Hg. apply (insert_loop_ok ele sc B C []); [rewrite <- E; lia|done|done|done].
Qed.

(** ** Ranges *)
(** A list cut at the two ends of a range: [D] is inside. *)
Record cut3 (g l : elt -> bool) (A D E : list elt) : Prop := {
  c3_low : Forall (fun a => g a = false) A;
  c3_in : Forall (fun a => g a = true /\ l a = true) D;
  c3_high : Forall (fun a => g a = true /\ l a = false) E;
  c3_lte : D <> [] -> Forall (fun a => l a = true) A
}.

Lemma cut3_of (g l : elt -> bool) L : sorted L -> down_on L (fun a => negb (g a)) -> down_on L l -> exists A D E, L = A ++ D ++ E /\ cut3 g l A D E /\
  D = List.filter (fun a => g a && l a) L /\ A ++ E = List.filter (fun a => negb (g a && l a)) L.
Proof.
  intros Hs Hg Hl. pose proof (sorted_cut _ L Hg Hs) as E1. set (A := List.filter (fun a => negb (g a)) L) in *. set (R := List.filter (fun a => negb (negb (g a))) L) in *.
  assert (HA : Forall (fun a => g a = false) A) by (apply Forall_forall; intros a Ha; apply list_elem_of_In, filter_In in Ha as [_ Ha]; by apply negb_true_iff).
  assert (HR : Forall (fun a => g a = true) R) by (apply Forall_forall; intros a Ha; apply list_elem_of_In, filter_In in Ha as [_ Ha]; by rewrite negb_involutive in Ha).
  assert (Hsub : forall a, a ∈ A \/ a ∈ R -> a ∈ L) by (intros a Ha; rewrite E1; by apply elem_of_app).
  assert (HsR : sorted R) by (rewrite E1 in Hs; by apply sorted_app in Hs as (_ & Hs & _)). assert (HlR : down_on R l) by (intros a b Ha Hb; apply Hl; auto).
  assert (Hcross : forall a b, a ∈ A -> b ∈ R -> elt_lt a b = true) by (rewrite E1 in Hs; by apply sorted_app in Hs as (_ & _ & Hs)).
  pose proof (sorted_cut _ R HlR HsR) as E2. set (D := List.filter l R) in *. set (E := List.filter (fun a => negb (l a)) R) in *. clearbody A R.
  exists A, D, E. rewrite Forall_forall in HA, HR.
  assert (HD : Forall (fun a => g a = true /\ l a = true) D) by (apply Forall_forall; intros a Ha; apply list_elem_of_In, filter_In in Ha as [Ha Ha']; split; [apply HR; by apply list_elem_of_In|done]).
  assert (HE : Forall (fun a => g a = true /\ l a = false) E) by (apply Forall_forall; intros a Ha; apply list_elem_of_In, filter_In in Ha as [Ha Ha']; split; [apply HR; by apply list_elem_of_In|by apply negb_true_iff]).
  split; [by rewrite <- E2|]. split; [|split].
  - split; [by apply Forall_forall|done|done|]. intros Hne. apply Forall_forall. intros a Ha. destruct D as [|d D']; [done|].
    assert (Hd : d ∈ R) by (rewrite E2; by left). apply (Hl a d); [auto|auto|auto|]. by apply Forall_cons in HD as [[_ Hd'] _].
  - rewrite E1, E2, !List.filter_app. rewrite (filter_none_c _ A), (filter_id_c _ D), (filter_none_c _ E); [by rewrite app_nil_r|..]; intros a Ha;
      [rewrite Forall_forall in HE; by destruct (HE a Ha) as [-> ->]|rewrite Forall_forall in HD; by destruct (HD a Ha) as [-> ->]|by rewrite (HA a Ha)].
  - rewrite E1, E2, !List.filter_app. rewrite (filter_id_c _ A), (filter_none_c _ D), (filter_id_c _ E); [done|..]; intros a Ha;
      [rewrite Forall_forall in HE; by destruct (HE a Ha) as [-> ->]|rewrite Forall_forall in HD; by destruct (HD a Ha) as [-> ->]|by rewrite (HA a Ha)].
Qed.

Section Loops.
Context (gte lte : ziplist -> nat -> outcome bool) (g l : elt -> bool).
Hypothesis Hgte : forall A a B, good a -> gte (pairs (A ++ a :: B)) (2 * length A) = Done (g a).
Hypothesis Hlte : forall A a B, good a -> lte (pairs (A ++ a :: B)) (2 * length A) = Done (l a).

Lemma first_loop_ok B : forall A D E fuel, (length (B ++ D ++ E) < fuel)%nat -> Forall good (B ++ D ++ E) -> cut3 g l B D E ->
  first_loop gte lte (pairs (A ++ B ++ D ++ E)) fuel (ptr A (B ++ D ++ E)) = Done (ptr (A ++ B) D).
Proof using Hgte Hlte.
  induction B as [|b B IH]; intros A D E fuel Hf Hg [HA HD HE HL].
  - cbn [app] in *. rewrite app_nil_r. destruct D as [|d D].
    + cbn [app] in *. destruct E as [|e E]; [by destruct fuel|]. destruct fuel as [|fuel]; [cbn in Hf; lia|]. cbn [ptr first_loop].
      apply Forall_cons in Hg as [Hge _]. apply Forall_cons in HE as [[H1 H2] _]. by rewrite Hgte, bind_Done, H1, Hlte, bind_Done, H2 by done.
    + destruct fuel as [|fuel]; [cbn in Hf; lia|]. cbn [app ptr first_loop]. apply Forall_cons in Hg as [Hgd _]. apply Forall_cons in HD as [[H1 H2] _].
      by rewrite Hgte, bind_Done, H1, Hlte, bind_Done, H2 by done.
  - destruct fuel as [|fuel]; [cbn in Hf; lia|]. cbn [app ptr first_loop] in *. apply Forall_cons in Hg as [Hgb Hg]. apply Forall_cons in HA as [H1 HA].
    rewrite Hgte, bind_Done, H1, next_elt by done. cbn [expect]. rewrite bind_Done, next_score. pose proof (IH (A ++ [b]) D E fuel ltac:(cbn in Hf; lia) Hg) as H.
    rewrite <- !app_assoc in H. apply H. split; [done|done|done|]. intros Hne. by apply HL, Forall_cons in Hne as [_ ?].
Qed.

(** The pointer to the last of the elements [A]. *)
Definition endptr (A : list elt) : option nat := match A with [] => None | _ => Some (2 * length A - 2)%nat end.

Lemma endptr_snoc A a : endptr (A ++ [a]) = Some (2 * length A)%nat.
Proof. unfold endptr. destruct (A ++ [a]) eqn:E; [by destruct A|]. rewrite <- E, length_app. cbn [length]. f_equal. lia. Qed.

Lemma prev_step A a B {X} (k : option nat -> outcome X) :
  match ziplistPrev (pairs (A ++ a :: B)) (2 * length A) with
  | Some sptr => e ← expect AssertFail (ziplistPrev (pairs (A ++ a :: B)) sptr); k (Some e) | None => k None end = k (endptr A).
Proof.
  destruct A as [|b A _] using rev_ind; [done|]. rewrite endptr_snoc, length_app. cbn [length]. replace (2 * (length A + 1))%nat with (S (S (2 * length A))) by lia. done.
Qed.

Lemma last_skip X E : forall Y fuel, Forall good E -> Forall (fun a => l a = false) E -> (length E <= fuel)%nat ->
  last_loop gte lte (pairs (X ++ E ++ Y)) fuel (endptr (X ++ E)) = last_loop gte lte (pairs (X ++ E ++ Y)) (fuel - length E) (endptr X).
Proof using Hlte.
  induction E as [|e E IH] using rev_ind; intros Y fuel Hg Hl Hf; [by rewrite app_nil_r, Nat.sub_0_r|]. rewrite length_app in *. cbn [length] in *.
  destruct fuel as [|fuel]; [lia|]. apply Forall_app in Hg as [Hg Hge%Forall_inv]. apply Forall_app in Hl as [Hl Hle%Forall_inv].
  rewrite (app_assoc X E [e]), endptr_snoc. replace (X ++ (E ++ [e]) ++ Y) with ((X ++ E) ++ e :: Y) by (by rewrite <- !app_assoc). cbn [last_loop].
  rewrite Hlte, bind_Done, Hle by done. rewrite (prev_step (X ++ E) e Y (last_loop gte lte (pairs ((X ++ E) ++ e :: Y)) fuel)).
  rewrite <- app_assoc. rewrite IH by (done || lia). f_equal. lia.
Qed.

Lemma last_low A : forall Y fuel, Forall good A -> Forall (fun a => g a = false) A -> (length A <= fuel)%nat -> last_loop gte lte (pairs (A ++ Y)) fuel (endptr A) = Done None.
Proof using Hgte Hlte.
  induction A as [|a A IH] using rev_ind; intros Y fuel Hg Hl Hf; [by destruct fuel|]. rewrite length_app in Hf. cbn in Hf. destruct fuel as [|fuel]; [lia|].
  apply Forall_app in Hg as [Hg Hga%Forall_inv]. apply Forall_app in Hl as [Hl Hla%Forall_inv]. rewrite endptr_snoc, <- app_assoc. cbn [app last_loop].
  rewrite Hlte, bind_Done by done. destruct (l a); [by rewrite Hgte, bind_Done, Hla by done|].
  rewrite (prev_step A a Y (last_loop gte lte (pairs (A ++ a :: Y)) fuel)). apply IH; [done|done|lia].
Qed.

Definition last_ptr (A D : list elt) : option nat := match D with [] => None | _ => endptr (A ++ D) end.

Lemma last_loop_ok A D E fuel : (length (A ++ D ++ E) < fuel)%nat -> Forall good (A ++ D ++ E) -> cut3 g l A D E ->
  last_loop gte lte (pairs (A ++ D ++ E)) fuel (endptr (A ++ D ++ E)) = Done (last_ptr A D).
Proof using Hgte Hlte.
  intros Hf Hg [HA HD HE _]. rewrite app_assoc, Forall_app in Hg. destruct Hg as [Hg HgE]. rewrite !length_app in Hf.
  assert (HlE : Forall (fun a => l a = false) E) by (eapply Forall_impl; [exact HE|]; by intros a [_ ?]).
  pose proof (last_skip (A ++ D) E [] fuel HgE HlE ltac:(lia)) as H. rewrite app_nil_r, <- app_assoc in H. rewrite H. apply Forall_app in Hg as [HgA HgD].
  destruct D as [|d D _] using rev_ind; [cbn [app]; rewrite app_nil_r; apply last_low; [done|done|lia]|].
  rewrite length_app in Hf. cbn in Hf. destruct (fuel - length E)%nat as [|fuel'] eqn:Ef; [lia|]. apply Forall_app in HD as [_ [H1 H2]%Forall_inv]. apply Forall_app in HgD as [_ Hgd%Forall_inv].
  unfold last_ptr. destruct (D ++ [d]) as [|x X] eqn:Ed; [by destruct D|]. rewrite <- Ed. rewrite (app_assoc A D [d]), endptr_snoc. replace (A ++ (D ++ [d]) ++ E) with ((A ++ D) ++ d :: E) by (by rewrite <- !app_assoc).
  cbn [last_loop]. by rewrite Hlte, bind_Done, H2, Hgte, bind_Done, H1 by done.
Qed.

Lemma zzl_delete_loop_ok A D : forall E fuel num, (length D < fuel)%nat -> Forall good (D ++ E) -> Forall (fun a => l a = true) D -> (forall e, head E = Some e -> l e = false) ->
  delete_loop lte fuel (pairs (A ++ D ++ E)) (2 * length A) num = Done (pairs (A ++ E), num + Z.of_nat (length D)).
Proof using Hlte.
  induction D as [|d D IH]; intros E fuel num Hf Hg HD HE; (destruct fuel as [|fuel]; [lia|]).
  - cbn [app length Z.of_nat delete_loop]. rewrite Z.add_0_r. destruct E as [|e E].
    + unfold ziplistNext, TList.step_pos. rewrite pairs_length, length_app. cbn [length]. by rewrite (proj2 (Nat.ltb_ge _ _)) by lia.
    + apply Forall_cons in Hg as [Hge _]. by rewrite next_elt, Hlte, bind_Done, (HE e) by done.
  - cbn [app delete_loop]. cbn [app] in Hg. apply Forall_cons in Hg as [Hgd Hg]. apply Forall_cons in HD as [Hd HD]. rewrite next_elt, Hlte, bind_Done, Hd by done.
    pose proof (zzlDelete_ok A d (D ++ E)) as Hdel. apply bind_Done_inv in Hdel as (zl1 & H1 & H2). rewrite H1, bind_Done, H2, bind_Done, IH; [|cbn in Hf; lia|done|done|done]. do 2 f_equal. cbn [length]. lia.
Qed.
End Loops.

(** ** The range functions *)
Lemma gte_score_ok r A a B : good a -> gte_score r (pairs (A ++ a :: B)) (2 * length A) = Done (zslValueGteMin (fst a) r).
Proof. intros Ha. unfold gte_score. by rewrite score_at_ok, bind_Done by done. Qed.
Lemma lte_score_ok r A a B : good a -> lte_score r (pairs (A ++ a :: B)) (2 * length A) = Done (zslValueLteMax (fst a) r).
Proof. intros Ha. unfold lte_score. by rewrite score_at_ok, bind_Done by done. Qed.
Lemma gte_lex_ok r A a B : good a -> zzlLexValueGteMin r (pairs (A ++ a :: B)) (2 * length A) = Done (zslLexValueGteMin (snd a) r).
Proof. intros _. unfold zzlLexValueGteMin. by rewrite get_member, bind_Done. Qed.
Lemma lte_lex_ok r A a B : good a -> zzlLexValueLteMax r (pairs (A ++ a :: B)) (2 * length A) = Done (zslLexValueLteMax (snd a) r).
Proof. intros _. unfold zzlLexValueLteMax. by rewrite get_member, bind_Done. Qed.

(** What the tests at the two ends of the list say. *)
Definition ends (g l : elt -> bool) (L : list elt) : bool :=
  match last L with Some x => g x | None => false end && match head L with Some x => l x | None => false end.

Lemma ends_none g l A D E : cut3 g l A D E -> ends g l (A ++ D ++ E) = false -> D = [].
Proof.
  intros [HA HD HE HL] H. destruct D as [|d D]; [done|]. exfalso. revert H. apply not_false_iff_true. unfold ends. apply andb_true_iff. split.
  - rewrite app_assoc. destruct E as [|e E _] using rev_ind.
    + rewrite app_nil_r. destruct (d :: D) as [|x X _] eqn:Ex using rev_ind; [done|]. rewrite app_assoc, last_snoc. rewrite Forall_app in HD. by destruct HD as [_ [? _]%Forall_inv].
    + rewrite app_assoc, last_snoc. rewrite Forall_app in HE. by destruct HE as [_ [? _]%Forall_inv].
  - destruct A as [|a A]; cbn; [by apply Forall_inv in HD as [_ ?]|]. specialize (HL ltac:(done)). by apply Forall_inv in HL.
Qed.

Lemma isInRange_ok L r : Forall good L -> zzlIsInRange (pairs L) r =
  Done (if range_empty r then false else ends (fun a => zslValueGteMin (fst a) r) (fun a => zslValueLteMax (fst a) r) L).
Proof.
  intros Hg. unfold zzlIsInRange. destruct (range_empty r); [done|]. destruct L as [|x L _] using rev_ind; [done|].
  rewrite (proj2 (index_last L x)). apply Forall_app in Hg as [Hg Hx%Forall_inv].
  rewrite get_score, bind_Done by done. unfold ends. rewrite last_snoc. destruct (zslValueGteMin (fst x) r); [|done]. cbn [negb andb].
  destruct (L ++ [x]) as [|y Y] eqn:E; [by destruct L|]. assert (Hy : good y) by (destruct L as [|z L]; [by injection E as <- _|injection E as <- _; by apply Forall_inv in Hg]).
  assert (Ei : ziplistIndex (pairs (y :: Y)) 1 = Some 1%nat) by (unfold ziplistIndex, TList.list_index; rewrite pairs_length; cbn -[Z.of_nat]; by rewrite (proj2 (Z.ltb_lt _ _)) by lia).
  rewrite Ei. cbn [expect]. rewrite bind_Done. pose proof (get_score [] y Y Hy) as Hs. cbn [app length Nat.mul Nat.add] in Hs. by rewrite Hs, bind_Done.
Qed.

Lemma isInLexRange_ok L r : Forall good L -> zzlIsInLexRange (pairs L) r =
  Done (if lex_empty r then false else ends (fun a => zslLexValueGteMin (snd a) r) (fun a => zslLexValueLteMax (snd a) r) L).
Proof.
  intros Hg. unfold zzlIsInLexRange. destruct (lex_empty r); [done|]. destruct L as [|x L _] using rev_ind; [done|].
  rewrite (proj1 (index_last L x)). apply Forall_app in Hg as [Hg Hx%Forall_inv].
  rewrite gte_lex_ok, bind_Done by done. unfold ends. rewrite last_snoc. destruct (zslLexValueGteMin (snd x) r); [|done]. cbn [negb andb].
  rewrite index_0. destruct (L ++ [x]) as [|y Y] eqn:E; [by destruct L|]. cbn [ptr expect]. rewrite bind_Done.
  assert (Hy : good y) by (destruct L as [|z L]; [by injection E as <- _|injection E as <- _; by apply Forall_inv in Hg]). exact (lte_lex_ok r [] y Y Hy).
Qed.

Lemma index_end L : ziplistIndex (pairs L) (-2) = endptr L.
Proof. destruct L as [|x L _] using rev_ind; [done|]. by rewrite endptr_snoc, (proj1 (index_last L x)). Qed.

(** The three functions of a range, whatever tests it has. *)
Section Range.
Context (gte lte : ziplist -> nat -> outcome bool) (g l : elt -> bool) (L : list elt) (isin : bool).
Hypothesis Hgte : forall A a B, good a -> gte (pairs (A ++ a :: B)) (2 * length A) = Done (g a).
Hypothesis Hlte : forall A a B, good a -> lte (pairs (A ++ a :: B)) (2 * length A) = Done (l a).
Hypothesis HG : Forall good L.
Hypothesis HS : sorted L.
Hypothesis Hg : down_on L (fun a => negb (g a)).
Hypothesis Hl : down_on L l.
Hypothesis Hin : isin = false -> ends g l L = false \/ List.filter (fun a => g a && l a) L = [].

Record ranged (first last : outcome (option nat)) (del : outcome (ziplist * Z)) (A D E : list elt) : Prop := {
  rg_split : L = A ++ D ++ E;
  rg_cut : cut3 g l A D E;
  rg_in : D = List.filter (fun a => g a && l a) L;
  rg_out : A ++ E = List.filter (fun a => negb (g a && l a)) L;
  rg_first : first = Done (ptr A D);
  rg_last : last = Done (last_ptr A D);
  rg_del : del = Done (pairs (A ++ E), Z.of_nat (length D))
}.

Lemma range_fns_ok :
  let first := if negb isin then Done None else first_loop gte lte (pairs L) (S (length (pairs L))) (ziplistIndex (pairs L) 0) in
  let last := if negb isin then Done None else last_loop gte lte (pairs L) (S (length (pairs L))) (ziplistIndex (pairs L) (-2)) in
  let del := p ← first; match p with Some p => delete_loop lte (S (length (pairs L))) (pairs L) p 0 | None => Done (pairs L, 0) end in
  exists A D E, ranged first last del A D E.
Proof using Hgte Hlte HG HS Hg Hl Hin.
  intros first last_ del. destruct (cut3_of g l L HS Hg Hl) as (A & D & E & EL & HC & HD & HE). exists A, D, E.
  assert (Hfirst : first = Done (ptr A D) /\ last_ = Done (last_ptr A D)).
  { unfold first, last_. destruct isin; cbn [negb].
    - rewrite index_0, index_end, pairs_length. rewrite EL in HG |- *. split; [apply (first_loop_ok gte lte g l Hgte Hlte A [])|apply (last_loop_ok gte lte g l Hgte Hlte)]; (lia || done).
    - assert (D = []) as ->; [|done]. destruct (Hin eq_refl) as [H|H]; [|by rewrite HD]. rewrite EL in H. by eapply ends_none. }
  destruct Hfirst as [Hf Hl']. split; try done. unfold del. rewrite Hf, bind_Done. destruct D as [|d D]; cbn [ptr].
  - rewrite EL. done.
  - set (D' := d :: D) in *. destruct HC as [_ HC1 HC2 _]. pose proof HG as HG'. rewrite EL, Forall_app in HG'. destruct HG' as [_ HG'].
    pose proof (zzl_delete_loop_ok lte l Hlte A D' E (S (length (pairs L))) 0) as Hd. rewrite <- EL in Hd. rewrite Hd; [done| |done| |].
    + rewrite EL, pairs_length, !length_app. lia.
    + eapply Forall_impl; [exact HC1|]. by intros a [_ ?].
    + intros e He. destruct E as [|e' E]; [done|]. injection He as ->. by apply Forall_inv in HC2 as [_ ?].
Qed.
End Range.

Lemma score_range_ok L r : Forall good L -> sorted L -> isnan (r_min r) = false -> isnan (r_max r) = false ->
  exists A D E, ranged (fun a => zslValueGteMin (fst a) r) (fun a => zslValueLteMax (fst a) r) L
    (zzlFirstInRange (pairs L) r) (zzlLastInRange (pairs L) r) (zzlDeleteRangeByScore (pairs L) r) A D E.
Proof.
  intros HG HS Hmin Hmax. pose proof (good_num L HG) as Hn. unfold zzlDeleteRangeByScore, zzlFirstInRange, zzlLastInRange. rewrite (isInRange_ok L r HG), !bind_Done.
  apply range_fns_ok; [apply gte_score_ok|apply lte_score_ok|done|done| | |].
  - apply down_down_on; [done|]. intros a b Ha Hb. rewrite <- !below_min_gte by done. by apply down_below_min.
  - by apply down_down_on, down_lte.
  - destruct (range_empty r) eqn:Er; [|by left]. intros _. right. apply filter_none_c. intros a Ha. apply range_empty_none; try done. rewrite Forall_forall in Hn. by apply Hn.
Qed.

Lemma lex_range_ok L r : Forall good L -> sorted L -> one_score L -> no_clash r = true ->
  exists A D E, ranged (fun a => zslLexValueGteMin (snd a) r) (fun a => zslLexValueLteMax (snd a) r) L
    (zzlFirstInLexRange (pairs L) r) (zzlLastInLexRange (pairs L) r) (zzlDeleteRangeByLex (pairs L) r) A D E.
Proof.
  intros HG HS H1 Hc. pose proof (good_num L HG) as Hn. destruct (lex_down_on L r Hn H1) as [D1 D2].
  unfold zzlDeleteRangeByLex, zzlFirstInLexRange, zzlLastInLexRange. rewrite (isInLexRange_ok L r HG), !bind_Done.
  apply range_fns_ok; [apply gte_lex_ok|apply lte_lex_ok|done|done|done|done|].
  destruct (lex_empty r) eqn:Er; [|by left]. intros _. right. apply filter_none_c. intros a _. by apply lex_empty_none.
Qed.

(** Ranks of a list that an int can count. *)
Lemma rank_range_ok L start stop : 1 <= start <= stop -> stop <= Z.of_nat (length L) -> 2 * Z.of_nat (length L) < 2 ^ 31 ->
  zzlDeleteRangeByRank (pairs L) start stop = (pairs (take (rank_from start) L ++ drop (rank_count start stop) (drop (rank_from start) L)), stop - start + 1).
Proof.
  intros H1 H2 H3. unfold zzlDeleteRangeByRank. rewrite (to_u_small 32 (stop - start)), (to_u_small 32 (stop - start + 1)), (to_u_small 32 (start - 1)), !(to_u_small 32 (2 * _)) by (unfold in_u; lia).
  f_equal. unfold ziplistDeleteRange, ziplistIndex, TList.list_index. rewrite pairs_length, to_s_small by (unfold in_s; lia).
  rewrite (proj2 (Z.ltb_ge _ 0)), (proj2 (Z.leb_le 0 _)), (proj2 (Z.ltb_lt _ _)) by lia. cbn [andb]. unfold rank_count, rank_from.
  set (a := Z.to_nat (start - 1)). set (b := Z.to_nat (stop - Z.of_nat a)). replace (Z.to_nat (2 * (start - 1))) with (2 * a)%nat by lia.
  replace (2 * a + Z.to_nat (2 * (stop - start + 1)))%nat with (2 * a + 2 * b)%nat by lia.
  assert (Ht : forall k l, take (2 * k) (pairs l) = pairs (take k l) /\ drop (2 * k) (pairs l) = pairs (drop k l)).
  { intros k l. revert k. induction l as [|x l IH]; intros [|k]; [done|done|done|]. rewrite pairs_cons. replace (2 * S k)%nat with (S (S (2 * k))) by lia.
    cbn [take drop]. destruct (IH k) as [-> ->]. done. }
  rewrite (proj1 (Ht a L)), <- Nat.mul_add_distr_l, (proj2 (Ht (a + b)%nat L)), <- pairs_app, drop_drop. done.
Qed.
End ZZip.
