(* ===== verification/ZSet.v ===== *)
(** * Sorted sets: the operations of t_zset.c on the value of a key

    A sorted set is a ziplist (ZZip.v), or a dict from its members to the nodes of a
    skip list (ZSkip.v).  The definitions are the parts of the commands that work on the
    value: one branch for each encoding, as in the code; TZset.v has the commands around
    them.  The state is the value and the numbers that random() is to return. *)
From S2P Require Import Prelude CStr Util Server Object Double TList ZSkip ZSkipInv ZSkipSpec ZZip.
Import ZSkip ZSkipInv ZSkipSpec ZZip.

Module ZSet.

Abbreviation score := spec_float (only parsing).

Inductive zval := ZZl (zl : list sds) | ZSk (zs : zset).
Abbreviation ZP := (prog (zval * list Z)).

Definition value : ZP zval := gets fst.
Definition put_value (v : zval) : ZP unit := modify (fun st => (v, snd st)).

(** The values of random() up to the one that ends the loop of zslRandomLevel. *)
Fixpoint take_level (rs : list Z) : outcome (list Z * list Z) :=
  match rs with
  | [] => Fault OutOfFuel
  | r :: rs' => if Z.land r 65535 <? 16384 then p ← take_level rs'; Done (r :: fst p, snd p) else Done ([r], rs')
  end.
Definition draws : ZP (list Z) := fun st => p ← take_level (snd st); Done (fst p, (fst st, snd p)).

(** What zmalloc leaves in a new node; zslInsert overwrites it all (ZSkipSpec.v, for
    every content). *)
Definition junk : zskiplistLevel := mkLevel None 0.

(** A skip-list operation on the skip list of the set. *)
Definition on_zsl {A} (m : prog zskiplist A) (zs : zset) : outcome (A * zset) :=
  r ← m (zs_zsl zs); Done (fst r, mkZset (zs_dict zs) (snd r)).
(** [*(double* )dictGetVal(de)] *)
Definition node_score (zs : zset) (a : positive) : outcome score :=
  n ← expect Dangling (zsl_nodes (zs_zsl zs) !! a); Done (n_score n).

(** zslInsert and dictAdd. *)
Definition zs_insert (sc : score) (ele : sds) (zs : zset) : ZP zset :=
  rs ← draws;
  p ← lift (on_zsl (zslInsert junk sc ele rs) zs);
  let '(a, zs) := p in
  _ ← lift (require_b AssertFail (bool_decide (zs_dict zs !! ele = None)));
  mret (mkZset (<[ele := a]> (zs_dict zs)) (zs_zsl zs)).

(** ** zsetLength and zsetConvert *)
Definition zsetLength (v : zval) : Z :=
  match v with
  | ZZl zl => to_u 32 (to_s 32 (zzlLength zl))
  | ZSk zs => to_u 32 (to_s 32 (zsl_length (zs_zsl zs)))
  end.

Fixpoint convert_loop (zl : list sds) (fuel : nat) (p : option (nat * nat)) (zs : zset) : ZP zset :=
  match p, fuel with
  | None, _ => mret zs
  | Some _, O => throw OutOfFuel
  | Some (eptr, sptr), S fuel' =>
    sc ← lift (zzlGetScore zl sptr);
    ele ← lift (ziplistGet zl eptr);
    zs ← zs_insert sc ele zs;
    p ← lift (zzlNext zl eptr sptr);
    convert_loop zl fuel' p zs
  end.
Definition convert_skiplist : ZP unit :=
  v ← value;
  match v with
  | ZSk _ => mret tt
  | ZZl zl =>
    eptr ← lift (expect AssertFail (ziplistIndex zl 0));
    sptr ← lift (expect AssertFail (ziplistNext zl eptr));
    zs ← convert_loop zl (S (length zl)) (Some (eptr, sptr)) (mkZset ∅ zslCreate);
    put_value (ZSk zs)
  end.

(** The nodes are freed on the way. *)
Fixpoint to_ziplist_loop (fuel : nat) (x : option positive) (zl : list sds) : prog zskiplist (list sds) :=
  match x, fuel with
  | None, _ => mret zl
  | Some _, O => throw OutOfFuel
  | Some x, S fuel' =>
    n ← node x;
    ele ← lift (expect NullDeref (n_obj n));
    zl ← lift (zzlInsertAt zl None ele (n_score n));
    l ← lift (level_at n 0);
    _ ← zslFreeNode x;
    to_ziplist_loop fuel' (forward l) zl
  end.
Definition to_ziplist : prog zskiplist (list sds) :=
  z ← get_st;
  h ← node (zsl_header z);
  l ← lift (level_at h 0);
  _ ← zslFreeNode (zsl_header z);
  to_ziplist_loop (steps z) (forward l) [].
Definition convert_ziplist : ZP unit :=
  v ← value;
  match v with
  | ZZl _ => mret tt
  | ZSk zs => r ← lift (to_ziplist (zs_zsl zs)); put_value (ZZl (fst r))
  end.
Definition zsetConvert (encoding : oenc) : ZP unit :=
  match encoding with ENC_SKIPLIST => convert_skiplist | ENC_ZIPLIST => convert_ziplist | _ => throw Panic end.

(** ** Members *)
(** dictFind, with the score of the node. *)
Definition zs_find (zs : zset) (ele : sds) : outcome (option (positive * score)) :=
  match zs_dict zs !! ele with
  | Some a => s ← node_score zs a; Done (Some (a, s))
  | None => Done None
  end.

(** The score that ZSCORE answers. *)
Definition zset_score (ele : sds) : ZP (option score) :=
  v ← value;
  match v with
  | ZZl zl => f ← lift (zzlFind_score zl ele); mret (snd <$> f)
  | ZSk zs => f ← lift (zs_find zs ele); mret (snd <$> f)
  end.

Inductive zadd_result := NanErr | Same | Updated | Added.

(** The new score of a member that is there: [None] when it is not a number. *)
Definition new_score (incr : bool) (sc cur : score) : option score :=
  if incr then let s := Double.plus sc cur in if isnan s then None else Some s else Some sc.

(** The turn of the loop of zaddGenericCommand for one member. *)
Definition zadd_elem (max_entries max_value : Z) (incr : bool) (ele : sds) (sc : score) : ZP (zadd_result * score) :=
  v ← value;
  match v with
  | ZZl zl =>
    f ← lift (zzlFind_score zl ele);
    match f with
    | Some (eptr, cur) =>
      match new_score incr sc cur with
      | None => mret (NanErr, sc)
      | Some sc =>
        if SFeqb sc cur then mret (Same, sc)
        else
          zl ← lift (zzlDelete zl eptr);
          zl ← lift (zzlInsert zl ele sc);
          _ ← put_value (ZZl zl);
          mret (Updated, sc)
      end
    | None =>
      zl ← lift (zzlInsert zl ele sc);
      _ ← put_value (ZZl zl);
      _ ← when (zzlLength zl >? max_entries) (zsetConvert ENC_SKIPLIST);
      _ ← when (sdslen ele >? max_value) (zsetConvert ENC_SKIPLIST);
      mret (Added, sc)
    end
  | ZSk zs =>
    f ← lift (zs_find zs ele);
    match f with
    | Some (_, cur) =>
      match new_score incr sc cur with
      | None => mret (NanErr, sc)
      | Some sc =>
        if SFeqb sc cur then mret (Same, sc)
        else
          p ← lift (on_zsl (zslDelete cur ele) zs);
          _ ← lift (require_b AssertFail (fst p));
          rs ← draws;
          q ← lift (on_zsl (zslInsert junk sc ele rs) (snd p));
          _ ← put_value (ZSk (mkZset (<[ele := fst q]> (zs_dict (snd q))) (zs_zsl (snd q))));
          mret (Updated, sc)
      end
    | None =>
      zs ← zs_insert sc ele zs;
      _ ← put_value (ZSk zs);
      mret (Added, sc)
    end
  end.

(** The turn of the loop of zremCommand for one member: whether it was there, and
    whether the set is empty now. *)
Definition zrem_elem (ele : sds) : ZP (bool * bool) :=
  v ← value;
  match v with
  | ZZl zl =>
    f ← lift (zzlFind zl ele);
    match f with
    | Some eptr =>
      zl ← lift (zzlDelete zl eptr);
      _ ← put_value (ZZl zl);
      mret (true, zzlLength zl =? 0)
    | None => mret (false, false)
    end
  | ZSk zs =>
    f ← lift (zs_find zs ele);
    match f with
    | Some (_, cur) =>
      p ← lift (on_zsl (zslDelete cur ele) zs);
      _ ← lift (require_b AssertFail (fst p));
      let zs := mkZset (delete ele (zs_dict (snd p))) (zs_zsl (snd p)) in
      _ ← put_value (ZSk zs);
      mret (true, bool_decide (zs_dict zs = ∅))
    | None => mret (false, false)
    end
  end.

(** ** Ranges to delete *)
Inductive zrange_type := ZRANGE_RANK (start end_ : Z) | ZRANGE_SCORE (r : zrangespec) | ZRANGE_LEX (r : zlexrangespec).

(** Step 3 of zremrangeGenericCommand: the number of members deleted, and whether the
    set is empty now.  The members that the skip list deletes go from the dict. *)
Definition zremrange (t : zrange_type) : ZP (Z * bool) :=
  v ← value;
  match v with
  | ZZl zl =>
    p ← lift (match t with
              | ZRANGE_RANK start end_ => Done (zzlDeleteRangeByRank zl (start + 1) (end_ + 1))
              | ZRANGE_SCORE r => zzlDeleteRangeByScore zl r
              | ZRANGE_LEX r => zzlDeleteRangeByLex zl r
              end);
    _ ← put_value (ZZl (fst p));
    mret (snd p, zzlLength (fst p) =? 0)
  | ZSk zs =>
    p ← lift (on_zsl (match t with
                      | ZRANGE_RANK start end_ => zslDeleteRangeByRank (start + 1) (end_ + 1)
                      | ZRANGE_SCORE r => zslDeleteRangeByScore r
                      | ZRANGE_LEX r => zslDeleteRangeByLex r
                      end) zs);
    let zs := mkZset (foldr delete (zs_dict (snd p)) (fst p)) (zs_zsl (snd p)) in
    _ ← put_value (ZSk zs);
    mret (Z.of_nat (length (fst p)), bool_decide (zs_dict zs = ∅))
  end.

(** ** Queries *)
(** The loops over the elements from a cursor on: a pair of pointers into the ziplist,
    or a node.  [next] is the element behind or before it. *)
Section Cursor.
Context {K X : Type} (next : K -> outcome (option K)) (read : K -> outcome X).

(** [while (rangelen--)] *)
Fixpoint list_n (n : nat) (k : option K) : outcome (list X) :=
  match n with
  | O => Done []
  | S n' =>
    k ← expect AssertFail k;
    e ← read k;
    k' ← next k;
    r ← list_n n' k';
    Done (e :: r)
  end.
(** [while (eptr && offset--)] *)
Fixpoint skip_n (fuel : nat) (k : option K) (offset : Z) : outcome (option K) :=
  match k, fuel with
  | None, _ => Done None
  | Some k, O => if offset =? 0 then Done (Some k) else Fault OutOfFuel
  | Some k, S fuel' => if offset =? 0 then Done (Some k) else k' ← next k; skip_n fuel' k' (offset - 1)
  end.
(** [while (eptr && limit--)], up to the first element out of the range. *)
Fixpoint list_while (ok : X -> bool) (fuel : nat) (k : option K) (limit : Z) : outcome (list X) :=
  match k, fuel with
  | None, _ => Done []
  | Some _, O => Fault OutOfFuel
  | Some k, S fuel' =>
    if limit =? 0 then Done []
    else
      e ← read k;
      if ok e then k' ← next k; r ← list_while ok fuel' k' (limit - 1); Done (e :: r) else Done []
  end.
End Cursor.

Definition zl_next (reverse : bool) (zl : list sds) (k : nat * nat) : outcome (option (nat * nat)) :=
  if reverse then zzlPrev zl (fst k) (snd k) else zzlNext zl (fst k) (snd k).
Definition zl_read (zl : list sds) (k : nat * nat) : outcome (score * sds) :=
  ele ← ziplistGet zl (fst k); sc ← zzlGetScore zl (snd k); Done (sc, ele).
(** [sptr = ziplistNext(zl,eptr)] *)
Definition zl_cursor (zl : list sds) (eptr : nat) : outcome (nat * nat) :=
  sptr ← expect AssertFail (ziplistNext zl eptr); Done (eptr, sptr).

Definition zn_next (reverse : bool) (z : zskiplist) (a : positive) : outcome (option positive) :=
  n ← expect Dangling (zsl_nodes z !! a);
  if reverse then Done (n_backward n) else l ← level_at n 0; Done (forward l).
Definition zn_read (z : zskiplist) (a : positive) : outcome (score * sds) :=
  n ← expect Dangling (zsl_nodes z !! a);
  ele ← expect NullDeref (n_obj n);
  Done (n_score n, ele).

(** The end of zrangeGenericCommand: the elements of the ranks from [start] on. *)
Definition zrange_list (reverse : bool) (start rangelen : Z) (v : zval) : outcome (list (score * sds)) :=
  match v with
  | ZZl zl =>
    eptr ← expect AssertFail (ziplistIndex zl (to_s 32 (if reverse then -2 - 2 * start else 2 * start)));
    k ← zl_cursor zl eptr;
    list_n (zl_next reverse zl) (zl_read zl) (Z.to_nat rangelen) (Some k)
  | ZSk zs =>
    let z := zs_zsl zs in
    h ← expect Dangling (zsl_nodes z !! zsl_header z);
    l ← level_at h 0;
    p ← (if start >? 0 then zslGetElementByRank (if reverse then zsetLength v - start else start + 1) z
         else Done (if reverse then zsl_tail z else forward l, z));
    list_n (zn_next reverse z) (zn_read z) (Z.to_nat rangelen) (fst p)
  end.

(** genericZrangebyscoreCommand; [None]: there is no element in the range. *)
Definition zrangebyscore_list (reverse : bool) (r : zrangespec) (offset limit : Z) (v : zval) : outcome (option (list (score * sds))) :=
  let ok (e : score * sds) := if reverse then zslValueGteMin (fst e) r else zslValueLteMax (fst e) r in
  match v with
  | ZZl zl =>
    eptr ← (if reverse then zzlLastInRange zl r else zzlFirstInRange zl r);
    match eptr with
    | None => Done None
    | Some eptr =>
      k ← zl_cursor zl eptr;
      k ← skip_n (zl_next reverse zl) (S (length zl)) (Some k) offset;
      l ← list_while (zl_next reverse zl) (zl_read zl) ok (S (length zl)) k limit;
      Done (Some l)
    end
  | ZSk zs =>
    let z := zs_zsl zs in
    p ← (if reverse then zslLastInRange r z else zslFirstInRange r z);
    match fst p with
    | None => Done None
    | Some a =>
      k ← skip_n (zn_next reverse z) (S (steps z)) (Some a) offset;
      l ← list_while (zn_next reverse z) (zn_read z) ok (S (steps z)) k limit;
      Done (Some l)
    end
  end.

(** genericZrangebylexCommand: the members. *)
Definition zl_member (zl : list sds) (k : nat * nat) : outcome sds := ziplistGet zl (fst k).
Definition zn_member (z : zskiplist) (a : positive) : outcome sds := e ← zn_read z a; Done (snd e).
Definition zrangebylex_list (reverse : bool) (r : zlexrangespec) (offset limit : Z) (v : zval) : outcome (option (list sds)) :=
  let ok (x : sds) := if reverse then zslLexValueGteMin x r else zslLexValueLteMax x r in
  match v with
  | ZZl zl =>
    eptr ← (if reverse then zzlLastInLexRange zl r else zzlFirstInLexRange zl r);
    match eptr with
    | None => Done None
    | Some eptr =>
      k ← zl_cursor zl eptr;
      k ← skip_n (zl_next reverse zl) (S (length zl)) (Some k) offset;
      l ← list_while (zl_next reverse zl) (zl_member zl) ok (S (length zl)) k limit;
      Done (Some l)
    end
  | ZSk zs =>
    let z := zs_zsl zs in
    p ← (if reverse then zslLastInLexRange r z else zslFirstInLexRange r z);
    match fst p with
    | None => Done None
    | Some a =>
      k ← skip_n (zn_next reverse z) (S (steps z)) (Some a) offset;
      l ← list_while (zn_next reverse z) (zn_member z) ok (S (steps z)) k limit;
      Done (Some l)
    end
  end.

(** The elements from the first in range on, counted; ranks in the skip list. *)
Definition count_nodes (z : zskiplist) (first last : prog zskiplist (option positive)) : outcome Z :=
  p ← first z;
  match fst p with
  | None => Done 0
  | Some a =>
    e ← zn_read z a;
    rank ← zslGetRank (fst e) (snd e) z;
    let count := to_s 32 (to_u 64 (zsl_length z - to_u 64 (fst rank - 1))) in
    p ← last z;
    match fst p with
    | None => Done count
    | Some a =>
      e ← zn_read z a;
      rank ← zslGetRank (fst e) (snd e) z;
      Done (to_s 32 (to_u 64 (count - to_u 64 (zsl_length z - fst rank))))
    end
  end.
Definition count_entries {X} (zl : list sds) (first : outcome (option nat)) (read : nat * nat -> outcome X) (ok : X -> bool) : outcome Z :=
  eptr ← first;
  match eptr with
  | None => Done 0
  | Some eptr =>
    k ← zl_cursor zl eptr;
    e ← read k;
    _ ← require_b AssertFail (ok e);
    l ← list_while (zl_next false zl) read ok (S (length zl)) (Some k) (-1);
    Done (Z.of_nat (length l))
  end.

Definition zcount (r : zrangespec) (v : zval) : outcome Z :=
  match v with
  | ZZl zl => count_entries zl (zzlFirstInRange zl r) (fun k => zzlGetScore zl (snd k)) (fun sc => zslValueLteMax sc r)
  | ZSk zs => count_nodes (zs_zsl zs) (zslFirstInRange r) (zslLastInRange r)
  end.
Definition zlexcount (r : zlexrangespec) (v : zval) : outcome Z :=
  match v with
  | ZZl zl => count_entries zl (zzlFirstInLexRange zl r) (zl_member zl) (fun x => zslLexValueLteMax x r)
  | ZSk zs => count_nodes (zs_zsl zs) (zslFirstInLexRange r) (zslLastInLexRange r)
  end.

(** The loop of zrankGenericCommand over a ziplist. *)
Fixpoint rank_loop (zl : list sds) (ele : sds) (fuel : nat) (k : option (nat * nat)) (rank : Z) : outcome (option Z) :=
  match k, fuel with
  | None, _ => Done None
  | Some _, O => Fault OutOfFuel
  | Some k, S fuel' =>
    x ← ziplistGet zl (fst k);
    if bool_decide (x = ele) then Done (Some rank) else k' ← zzlNext zl (fst k) (snd k); rank_loop zl ele fuel' k' (rank + 1)
  end.
(** The rank of a member, from 1. *)
Definition rank_of (ele : sds) (v : zval) : outcome (option Z) :=
  match v with
  | ZZl zl =>
    eptr ← expect AssertFail (ziplistIndex zl 0);
    k ← zl_cursor zl eptr;
    rank_loop zl ele (S (length zl)) (Some k) 1
  | ZSk zs =>
    f ← zs_find zs ele;
    match f with
    | Some (_, sc) =>
      rank ← zslGetRank sc ele (zs_zsl zs);
      _ ← require_b AssertFail (negb (fst rank =? 0));
      Done (Some (fst rank))
    | None => Done None
    end
  end.
(** What ZRANK and ZREVRANK answer. *)
Definition zrank (reverse : bool) (ele : sds) (v : zval) : outcome (option Z) :=
  let llen := zsetLength v in
  rank ← rank_of ele v;
  Done (option_map (fun rank => if reverse then to_s 64 (llen - rank) else rank - 1) rank).
End ZSet.
