(* ===== verification/ZSetSpec.v ===== *)
(** * Sorted sets: both encodings refine a sorted list

    The operations of ZSet.v answer what the sorted list of (score, member) pairs
    answers, whichever encoding the set is in, and the conversions between the encodings
    keep the list. *)
From S2P Require Import Prelude CStr Util Server Object Double TList ZSkip ZSkipInv ZSkipSpec ZZip ZSet.
Import ZSkip ZSkipInv ZSkipSpec ZZip ZSet.

Module ZSetSpec.

(** ** Values and the lists they stand for *)
Definition dict_of (L : list cell) : gmap sds positive := list_to_map (slots L).

Inductive zrep : zval -> list elt -> Prop :=
| rep_zl l : zrep (ZZl (pairs l)) l
| rep_sk zs L : zsl_ok (zs_zsl zs) L -> zs_dict zs = dict_of L -> zrep (ZSk zs) (map elt_of L).

(** A set that an int can count. *)
Record set_ok (l : list elt) : Prop := {
  so_good : Forall good l;
  so_sorted : sorted l;
  so_nodup : NoDup (map snd l);
  so_small : 2 * Z.of_nat (length l) < 2 ^ 31
}.

Lemma slots_fst L : (slots L).*1 = map c_obj L.
Proof. unfold slots. induction L as [|c L IH]; [done|]. cbn. by f_equal. Qed.

Lemma dict_in L c : NoDup (map c_obj L) -> c ∈ L -> dict_of L !! c_obj c = Some (c_addr c).
Proof.
  intros Hn Hc. apply elem_of_list_to_map_1; [by rewrite slots_fst|]. unfold slots. by apply (list_elem_of_fmap_2 (fun c => (c_obj c, c_addr c))).
Qed.
Lemma dict_none L o : o ∉ map c_obj L -> dict_of L !! o = None.
Proof. intros H. apply not_elem_of_list_to_map_1. by rewrite slots_fst. Qed.
Lemma dict_inv L o a : dict_of L !! o = Some a -> exists c, c ∈ L /\ c_obj c = o /\ c_addr c = a.
Proof. intros H%elem_of_list_to_map_2. unfold slots in H. apply list_elem_of_fmap in H as (c & [= -> ->] & Hc). eauto. Qed.

Lemma dict_insert L L' o a : slots L' ≡ₚ (o, a) :: slots L -> NoDup (map c_obj L') -> dict_of L' = <[o := a]> (dict_of L).
Proof. intros HP Hn. unfold dict_of. rewrite (list_to_map_proper (slots L') ((o, a) :: slots L)); [done|by rewrite slots_fst|done]. Qed.

Lemma foldr_delete_lookup (m : gmap sds positive) D o : foldr delete m D !! o = if bool_decide (o ∈ D) then None else m !! o.
Proof.
  induction D as [|d D IH]; [done|]. cbn. destruct (decide (o = d)) as [->|Hne].
  - by rewrite lookup_delete_eq, bool_decide_eq_true_2 by (by left).
  - rewrite lookup_delete_ne, IH by done. rewrite (bool_decide_ext (o ∈ d :: D) (o ∈ D)); [done|]. rewrite elem_of_cons. tauto.
Qed.

(** Some cells go: their members go from the dict. *)
Lemma dict_delete L L' D : NoDup (map c_obj L) -> NoDup (map c_obj L') -> L' ⊆ L -> (forall o, o ∈ map c_obj L' <-> o ∈ map c_obj L /\ o ∉ D) ->
  dict_of L' = foldr delete (dict_of L) D.
Proof.
  intros HN HN' Hsub HD. apply map_eq. intros o. rewrite foldr_delete_lookup. case_bool_decide as Ho.
  - apply dict_none. rewrite HD. tauto.
  - destruct (dict_of L !! o) as [a|] eqn:E.
    + apply dict_inv in E as (c & Hc & <- & <-). assert (Hin : c_obj c ∈ map c_obj L') by (rewrite HD; split; [by apply list_elem_of_fmap_2|done]).
      apply list_elem_of_fmap in Hin as (c' & Ec & Hc'). rewrite Ec, (dict_in L' c' HN' Hc'). 
      pose proof (dict_in L c HN Hc) as E1. pose proof (dict_in L c' HN (Hsub _ Hc')) as E2. rewrite Ec in E1. congruence.
    + apply dict_none. rewrite HD. intros [Hin _]. apply list_elem_of_fmap in Hin as (c & -> & Hc). by rewrite (dict_in L c HN Hc) in E.
Qed.

(** The score of a member. *)
Definition member_score (ele : sds) (l : list elt) : option spec_float := (fun p => fst (snd p)) <$> list_find (fun a => snd a = ele) l.

Lemma member_none ele l : member_score ele l = None <-> ele ∉ map snd l.
Proof.
  unfold member_score. pose proof (find_split l ele) as H. destruct (list_find _ l) as [[i a]|]; [|done]. cbn. split; [done|]. intros Hn. exfalso. apply Hn.
  destruct H as (A & B & -> & _ & <- & _). rewrite map_app. apply elem_of_app. right. by left.
Qed.
Lemma member_some ele l sc : member_score ele l = Some sc -> (sc, ele) ∈ l.
Proof.
  unfold member_score. pose proof (find_split l ele) as H. destruct (list_find _ l) as [[i [s a]]|]; [|done]. cbn. intros [= ->].
  destruct H as (A & B & -> & _ & <- & _). apply elem_of_app. right. by left.
Qed.
Lemma member_in sc ele l : NoDup (map snd l) -> (sc, ele) ∈ l -> member_score ele l = Some sc.
Proof.
  intros Hn Hin. destruct (member_score ele l) as [s|] eqn:E.
  - apply member_some in E. f_equal. apply list_elem_of_lookup in Hin as [i Hi], E as [j Hj].
    assert (i = j) as ->; [|congruence]. apply (NoDup_lookup (map snd l) i j ele Hn); by rewrite list_lookup_fmap, ?Hi, ?Hj.
  - apply member_none in E. exfalso. apply E. by apply (list_elem_of_fmap_2 snd) in Hin.
Qed.

Lemma find_score_ok l ele : Forall good l -> zzlFind_score (pairs l) ele =
  Done (match list_find (fun a => snd a = ele) l with Some (i, a) => Some (2 * i, fst a)%nat | None => None end).
Proof.
  intros Hg. unfold zzlFind_score. rewrite zzlFind_ok, bind_Done. pose proof (find_split l ele) as H. destruct (list_find _ l) as [[i a]|]; [|done]. cbn [fmap option_fmap option_map fst].
  destruct H as (A & B & -> & <- & _). rewrite score_at_ok; [done|]. apply Forall_app in Hg as [_ Hg]. by apply Forall_inv in Hg.
Qed.

Lemma cell_elt L sc ele : (sc, ele) ∈ map elt_of L -> exists c, c ∈ L /\ c_score c = sc /\ c_obj c = ele.
Proof. intros (c & [= -> ->] & Hc)%list_elem_of_fmap. eauto. Qed.

Lemma node_of_cell z L c : zsl_ok z L -> c ∈ L -> exists n, zsl_nodes z !! c_addr c = Some n /\ n_obj n = Some (c_obj c) /\ n_score n = c_score c.
Proof.
  intros H Hc. apply list_elem_of_split in Hc as (A & B & ->). pose proof (zo_rep _ _ H) as Hr. destruct (rep_node _ _ _ _ Hr) as (n & Hn & _). exists n.
  split; [done|]. by apply (rep_cell _ _ _ _ _ Hr Hn).
Qed.

Lemma zs_find_ok zs L ele : zsl_ok (zs_zsl zs) L -> zs_dict zs = dict_of L ->
  exists f, zs_find zs ele = Done f /\ snd <$> f = member_score ele (map elt_of L).
Proof.
  intros Hz Hd. unfold zs_find. rewrite Hd. pose proof (zo_objs _ _ Hz) as Hn. destruct (dict_of L !! ele) as [a|] eqn:E.
  - apply dict_inv in E as (c & Hc & <- & <-). destruct (node_of_cell _ _ _ Hz Hc) as (n & En & _ & Es). unfold node_score. rewrite En. cbn [expect]. rewrite !bind_Done.
    eexists. split; [done|]. cbn. rewrite Es. symmetry. apply member_in; [by rewrite <- map_obj|]. by apply (list_elem_of_fmap_2 elt_of).
  - exists None. split; [done|]. symmetry. apply member_none. rewrite <- map_obj. intros Hin. apply list_elem_of_fmap in Hin as (c & -> & Hc). by rewrite (dict_in L c Hn Hc) in E.
Qed.

Lemma zset_score_ok v l ele rs : zrep v l -> set_ok l -> zset_score ele (v, rs) = Done (member_score ele l, (v, rs)).
Proof.
  intros Hr Hs. unfold zset_score, value. rewrite bind_gets. cbn [fst]. destruct Hr as [l|zs L Hz Hd].
  - rewrite (find_score_ok l ele (so_good _ Hs)), bind_lift. unfold member_score. by destruct (list_find _ l) as [[i a]|].
  - destruct (zs_find_ok zs L ele Hz Hd) as (f & Ef & Em). by rewrite Ef, bind_lift, Em.
Qed.

(** ** Random numbers *)
(** How many levels the numbers are enough for. *)
Definition levels (rs : list Z) : nat := length (List.filter (fun r => negb (Z.land r 65535 <? 16384)) rs).

Lemma take_level_ok rs : (0 < levels rs)%nat -> exists a b level, take_level rs = Done (a, b) /\ zslRandomLevel a = Done level /\ levels rs = S (levels b).
Proof.
  intros H. assert (Hk : exists a b, take_level rs = Done (a, b) /\ levels rs = S (levels b) /\ forall k, exists n, random_level a k = Done n).
  { induction rs as [|r rs IH]; [cbn in H; lia|]. unfold levels in *. cbn [take_level List.filter] in *. destruct (_ <? _) eqn:E; cbn [negb] in *.
    - destruct (IH H) as (a & b & -> & Hb & Hk). rewrite bind_Done. exists (r :: a), b. split; [done|]. split; [done|]. intros k. cbn [random_level]. rewrite E. apply Hk.
    - exists [r], rs. split; [done|]. split; [done|]. intros k. exists k. cbn [random_level]. by rewrite E. }
  destruct Hk as (a & b & E & Hb & Hk). destruct (Hk 1%nat) as (n & Hn). exists a, b. unfold zslRandomLevel. rewrite Hn, bind_Done. eauto.
Qed.

Lemma draws_ok v rs : (0 < levels rs)%nat -> exists a rs' level, draws (v, rs) = Done (a, (v, rs')) /\ zslRandomLevel a = Done level /\ levels rs = S (levels rs').
Proof.
  intros H. destruct (take_level_ok rs H) as (a & b & level & E & Hl & Hb). exists a, b, level. unfold draws. cbn [fst snd]. by rewrite E, bind_Done.
Qed.

(** ** Insertion into the skip list and the dict *)
Lemma zs_insert_ok zs L sc ele v rs : zsl_ok (zs_zsl zs) L -> zs_dict zs = dict_of L -> isnan sc = false -> ele ∉ map c_obj L ->
  Z.of_nat (length L) + 1 < 2 ^ 32 -> (0 < levels rs)%nat ->
  exists zs' L' rs', zs_insert sc ele zs (v, rs) = Done (zs', (v, rs')) /\ zsl_ok (zs_zsl zs') L' /\ zs_dict zs' = dict_of L' /\
    map elt_of L' = spec_insert (sc, ele) (map elt_of L) /\ levels rs = S (levels rs').
Proof.
  intros Hz Hd Hsc He Hlen Hrs. destruct (draws_ok v rs Hrs) as (a & rs' & level & Ed & Hl & Hb).
  destruct (insert_ok junk (zs_zsl zs) L sc ele a level Hz Hsc He Hl Hlen) as (z' & L' & Ei & Hz' & El & HP).
  unfold zs_insert. rewrite (prog_bind_step _ _ _ _ _ Ed). unfold on_zsl. rewrite Ei, bind_Done, bind_lift. cbn [fst snd zs_dict zs_zsl].
  rewrite (bool_decide_eq_true_2 (zs_dict zs !! ele = None)) by (rewrite Hd; by apply dict_none). cbn [require_b]. rewrite bind_lift.
  eexists _, L', rs'. split; [done|]. split; [done|]. split; [|done]. cbn [zs_dict]. rewrite Hd. symmetry. apply dict_insert; [done|]. apply (zo_objs _ _ Hz').
Qed.

Lemma spec_insert_last A b : Forall num (A ++ [b]) -> sorted (A ++ [b]) -> spec_insert b A = A ++ [b].
Proof.
  intros Hn Hs. apply sorted_app in Hs as (_ & _ & Hs). unfold spec_insert. rewrite filter_id_c, filter_none_c; [done| |].
  - intros a Ha. by rewrite Hs by (done || by left).
  - intros a Ha. apply Hs; [done|by left].
Qed.

Lemma zzlNext_ok A a B : zzlNext (pairs (A ++ a :: B)) (2 * length A) (S (2 * length A)) =
  Done (match B with [] => None | _ => Some (2 * length (A ++ [a]), S (2 * length (A ++ [a]))) end)%nat.
Proof.
  unfold zzlNext. rewrite next_score. destruct B as [|b B]; [done|]. cbn [ptr]. replace (A ++ a :: b :: B) with ((A ++ [a]) ++ b :: B) by (by rewrite <- app_assoc).
  rewrite next_elt. done.
Qed.

(** ** zsetConvert *)
Abbreviation cursor A B := (match B with [] => None | _ => Some (2 * length A, S (2 * length A))%nat end) (only parsing).

Lemma zconvert_loop_ok v B : forall A zs L rs fuel, set_ok (A ++ B) -> zsl_ok (zs_zsl zs) L -> zs_dict zs = dict_of L -> map elt_of L = A ->
  (length B <= levels rs)%nat -> (length B < fuel)%nat ->
  exists zs' L' rs', convert_loop (pairs (A ++ B)) fuel (cursor A B) zs (v, rs) = Done (zs', (v, rs')) /\ zsl_ok (zs_zsl zs') L' /\ zs_dict zs' = dict_of L' /\
    map elt_of L' = A ++ B /\ levels rs = (length B + levels rs')%nat.
Proof.
  induction B as [|b B IH]; intros A zs L rs fuel HS Hz Hd El Hrs Hf; (destruct fuel as [|fuel]; [lia|]).
  { exists zs, L, rs. by rewrite app_nil_r. }
  cbn [convert_loop]. pose proof (so_good _ HS) as Hg. pose proof (proj1 (Forall_app _ _ _) Hg) as [HgA HgB]. apply Forall_cons in HgB as [Hgb _].
  rewrite (get_score A b B Hgb), bind_lift, get_member, bind_lift. pose proof (so_sorted _ HS) as Hso. pose proof (so_nodup _ HS) as Hnd. pose proof (so_small _ HS) as Hsm.
  assert (Hlen : length L = length A) by (by rewrite <- El, length_map).
  destruct (zs_insert_ok zs L (fst b) (snd b) v rs Hz Hd (proj2 Hgb)) as (zs1 & L1 & rs1 & E1 & Hz1 & Hd1 & El1 & Hl1); [| |cbn in Hrs; lia|].
  - rewrite map_obj, El. rewrite map_app in Hnd. cbn in Hnd. apply NoDup_app in Hnd as (_ & Hnd & _). intros Hin. apply (Hnd _ Hin). by left.
  - rewrite length_app in Hsm. cbn in Hsm. lia.
  - rewrite (prog_bind_step _ _ _ _ _ E1), zzlNext_ok, bind_lift.
    assert (E2 : map elt_of L1 = A ++ [b]).
    { rewrite El1, El. destruct b as [sb xb]. replace (A ++ (sb, xb) :: B) with ((A ++ [(sb, xb)]) ++ B) in * by (by rewrite <- app_assoc).
      apply spec_insert_last; [by apply good_num, Forall_app in Hg as [? _]|by apply sorted_app in Hso as [? _]]. }
    replace (A ++ b :: B) with ((A ++ [b]) ++ B) in * by (by rewrite <- app_assoc).
    destruct (IH (A ++ [b]) zs1 L1 rs1 fuel HS Hz1 Hd1 E2) as (zs2 & L2 & rs2 & E3 & Hz2 & Hd2 & El2 & Hl2); [cbn in Hrs; lia|cbn in Hf; lia|].
    exists zs2, L2, rs2. split; [exact E3|]. split; [done|]. split; [done|]. split; [done|]. cbn. lia.
Qed.

Lemma convert_skiplist_ok l rs : set_ok l -> l <> [] -> (length l <= levels rs)%nat ->
  exists zs rs', zsetConvert ENC_SKIPLIST (ZZl (pairs l), rs) = Done (tt, (ZSk zs, rs')) /\ zrep (ZSk zs) l /\ levels rs = (length l + levels rs')%nat.
Proof.
  intros HS Hne Hrs. cbn [zsetConvert]. unfold convert_skiplist, value. rewrite bind_gets. cbn [fst]. rewrite index_0. destruct l as [|a l]; [done|]. cbn [ptr expect]. rewrite bind_lift.
  pose proof (next_elt [] a l) as En. cbn [app] in En. rewrite En. cbn [expect]. rewrite bind_lift.
  destruct (zconvert_loop_ok (ZZl (pairs (a :: l))) (a :: l) [] (mkZset ∅ zslCreate) [] rs (S (length (pairs (a :: l)))) HS create_ok eq_refl eq_refl Hrs) as (zs & L & rs' & E & Hz & Hd & El & Hl).
  { rewrite pairs_length. lia. }
  exists zs, rs'. rewrite (prog_bind_step _ _ _ _ _ E). split; [done|]. split; [|done]. pose proof (rep_sk zs L Hz Hd) as Hrep. by rewrite El in Hrep.
Qed.

(** The nodes from a place on, with what is read of each. *)
Definition nodes_of (z : zskiplist) (L : list cell) : Prop := forall A c B, L = A ++ c :: B ->
  exists n l, zsl_nodes z !! c_addr c = Some n /\ n_obj n = Some (c_obj c) /\ n_score n = c_score c /\ level_at n 0 = Done l /\ forward l = c_addr <$> head B.

Lemma nodes_of_rep z L : zsl_ok z L -> nodes_of z L.
Proof.
  intros H A c B ->. pose proof (zo_rep _ _ H) as Hr. pose proof (rp_heights _ _ Hr) as Hh. apply Forall_app in Hh as [_ Hh]. apply Forall_cons in Hh as [_ Hh].
  destruct (rep_node _ _ _ _ Hr) as (n & Hn & _). destruct (rep_cell _ _ _ _ _ Hr Hn) as [Ho Hs]. exists n, (lv 0 B). split; [done|]. split; [done|]. split; [done|].
  replace (A ++ c :: B) with ((A ++ [c]) ++ B) in Hr by (by rewrite <- app_assoc). pose proof (entry_0 z _ B Hr) as He. rewrite here_snoc in He.
  split; [|by eapply lv_0]. unfold entry in He. rewrite Hn in He. cbn in He. unfold level_at. by rewrite He.
Qed.

Lemma to_ziplist_loop_ok L : forall z fuel A, nodes_of z L -> NoDup (map c_addr L) -> (length L <= fuel)%nat ->
  exists z', to_ziplist_loop fuel (c_addr <$> head L) (pairs A) z = Done (pairs (A ++ map elt_of L), z').
Proof.
  induction L as [|c L IH]; intros z fuel A Hn Hnd Hf; [exists z; rewrite app_nil_r; by destruct fuel|]. destruct fuel as [|fuel]; [cbn in Hf; lia|].
  destruct (Hn [] c L eq_refl) as (n & l & E & Ho & Hs & Hl & Hfw). cbn [head fmap option_fmap option_map to_ziplist_loop]. rewrite (bind_node _ _ _ _ E), Ho. cbn [expect].
  rewrite bind_lift. pose proof (insertAt_ok A [] (c_obj c) (n_score n)) as Hi. rewrite app_nil_r in Hi. cbn [ptr] in Hi. rewrite Hi, bind_lift, Hl, bind_lift.
  rewrite (prog_bind_step (zslFreeNode (c_addr c)) _ z tt (set_zsl_nodes (delete (c_addr c) (zsl_nodes z)) z)) by (unfold zslFreeNode; by rewrite E).
  cbn [map] in Hnd. apply NoDup_cons in Hnd as [Hc Hnd].
  destruct (IH (set_zsl_nodes (delete (c_addr c) (zsl_nodes z)) z) fuel (A ++ [(n_score n, c_obj c)])) as (z' & E'); [|done|cbn in Hf; lia|].
  - intros X d Y EX. destruct (Hn (c :: X) d Y) as (m & k & Hm); [by rewrite EX|]. exists m, k. cbn. rewrite lookup_delete_ne; [done|]. intros Eq. apply Hc.
    rewrite Eq, EX, map_app. apply elem_of_app. right. by left.
  - exists z'. rewrite Hfw. etransitivity; [exact E'|]. rewrite <- app_assoc, Hs. done.
Qed.

Lemma convert_ziplist_ok zs l rs : zrep (ZSk zs) l -> zsetConvert ENC_ZIPLIST (ZSk zs, rs) = Done (tt, (ZZl (pairs l), rs)).
Proof.
  inversion 1 as [|? L Hz Hd]; subst. cbn [zsetConvert]. unfold convert_ziplist, value. rewrite bind_gets. cbn [fst]. set (z := zs_zsl zs) in *.
  pose proof (zo_rep _ _ Hz) as Hr. pose proof (rp_heights _ _ Hr) as Hh. pose proof (rp_nodup _ _ Hr) as [Hhd Hnd]%NoDup_cons.
  assert (E : exists z', to_ziplist z = Done (pairs (map elt_of L), z')).
  { unfold to_ziplist. run. pose proof (entry_0 z [] L Hr) as He. cbn in He. destruct (entry_read _ _ _ _ He) as (n & Hn & Hlv).
    rewrite (prog_bind_step _ _ _ _ _ Hn), Hlv, bind_lift, (lv_0 _ _ Hh). destruct (meta_node _ _ _ (rp_head _ _ Hr)) as (h & Hh' & _).
    rewrite (prog_bind_step (zslFreeNode (zsl_header z)) _ z tt (set_zsl_nodes (delete (zsl_header z) (zsl_nodes z)) z)) by (unfold zslFreeNode; by rewrite Hh').
    apply (to_ziplist_loop_ok L _ _ []); [|done|unfold steps; rewrite (rp_len _ _ Hr); lia].
    intros A c B EL. destruct (nodes_of_rep z L Hz A c B EL) as (m & k & Hm). exists m, k. cbn. rewrite lookup_delete_ne; [done|]. intros Eq. apply Hhd.
    rewrite Eq, EL, map_app. apply elem_of_app. right. by left. }
  destruct E as (z' & ->). rewrite bind_lift. done.
Qed.

(** ** Lists of a set *)
Definition s_remove (ele : sds) (l : list elt) : list elt := List.filter (fun a => negb (bool_decide (snd a = ele))) l.

Lemma filter_sub (f : elt -> bool) l a : a ∈ List.filter f l <-> a ∈ l /\ f a = true.
Proof. by rewrite !list_elem_of_In, filter_In. Qed.

Lemma set_ok_filter (f : elt -> bool) l : set_ok l -> set_ok (List.filter f l).
Proof.
  intros [Hg Hs Hn Hm]. split.
  - apply Forall_forall. intros a [Ha _]%filter_sub. rewrite Forall_forall in Hg. by apply Hg.
  - clear Hm. induction l as [|a l IH]; [done|]. apply StronglySorted_inv in Hs as [Hs Ha]. apply Forall_cons in Hg as [_ Hg]. cbn in Hn. apply NoDup_cons in Hn as [_ Hn].
    cbn. destruct (f a); [|by apply IH]. constructor; [by apply IH|]. apply Forall_forall. intros b [Hb _]%filter_sub. rewrite Forall_forall in Ha. by apply Ha.
  - clear - Hn. induction l as [|a l IH]; [constructor|]. cbn in *. apply NoDup_cons in Hn as [Ha Hn]. destruct (f a); [|by apply IH]. cbn. constructor; [|by apply IH].
    intros (b & E & [Hb _]%filter_sub)%list_elem_of_fmap. apply Ha. rewrite E. by apply list_elem_of_fmap_2.
  - pose proof (filter_length_le f l). lia.
Qed.

Lemma spec_insert_perm e l : spec_insert e l ≡ₚ e :: l.
Proof.
  unfold spec_insert. rewrite <- Permutation_middle. constructor. induction l as [|a l IH]; [done|]. cbn. destruct (elt_lt a e); cbn [negb app]; [by constructor|].
  rewrite <- Permutation_middle. by constructor.
Qed.

Lemma set_ok_insert e l : set_ok l -> good e -> snd e ∉ map snd l -> 2 * Z.of_nat (length l) + 2 < 2 ^ 31 -> set_ok (spec_insert e l).
Proof.
  intros [Hg Hs Hn Hm] He Hne Hlen. pose proof (spec_insert_perm e l) as HP. split.
  - rewrite HP. by constructor.
  - apply sorted_insert; [by destruct He|by apply good_num|done|done].
  - rewrite HP. cbn. by constructor.
  - rewrite HP. cbn. lia.
Qed.

Lemma remove_not_in ele l : ele ∉ map snd (s_remove ele l).
Proof. intros (a & -> & [_ Ha]%filter_sub)%list_elem_of_fmap. by rewrite bool_decide_eq_true_2 in Ha. Qed.
Lemma remove_in ele l x : x ∈ map snd (s_remove ele l) <-> x ∈ map snd l /\ x <> ele.
Proof.
  split.
  - intros (a & -> & [Ha Hne]%filter_sub)%list_elem_of_fmap. split; [by apply list_elem_of_fmap_2|]. intros E. by rewrite bool_decide_eq_true_2 in Hne.
  - intros [(a & -> & Ha)%list_elem_of_fmap Hne]. apply list_elem_of_fmap_2, filter_sub. split; [done|]. by rewrite bool_decide_eq_false_2.
Qed.

Lemma SFeqb_refl a : isnan a = false -> SFeqb a a = true.
Proof. intros H. by apply SFeqb_key. Qed.

Lemma delete_member cur ele l : Forall good l -> NoDup (map snd l) -> (cur, ele) ∈ l -> spec_member cur ele l = true /\ spec_delete cur ele l = s_remove ele l.
Proof.
  intros Hg Hn Hin. assert (Hcur : isnan cur = false) by (rewrite Forall_forall in Hg; by apply (Hg _ Hin)). split.
  - apply existsb_exists. exists (cur, ele). split; [by apply list_elem_of_In|]. cbn. by rewrite SFeqb_refl, bool_decide_eq_true_2.
  - apply filter_ext_in. intros [sc x] Ha%list_elem_of_In. cbn. case_bool_decide as E; [|by rewrite andb_false_r]. subst x.
    pose proof (member_in _ _ _ Hn Hin) as E1. pose proof (member_in _ _ _ Hn Ha) as E2. rewrite E1 in E2. injection E2 as <-. by rewrite SFeqb_refl.
Qed.

(** zslDelete of a member with its score. *)
Lemma zs_delete_ok zs L cur ele : zsl_ok (zs_zsl zs) L -> zs_dict zs = dict_of L -> set_ok (map elt_of L) -> member_score ele (map elt_of L) = Some cur ->
  exists z' L', on_zsl (zslDelete cur ele) zs = Done (true, mkZset (zs_dict zs) z') /\ zsl_ok z' L' /\ map elt_of L' = s_remove ele (map elt_of L) /\
    delete ele (zs_dict zs) = dict_of L'.
Proof.
  intros Hz Hd HS Hm. apply member_some in Hm. destruct (delete_member cur ele (map elt_of L) (so_good _ HS) (so_nodup _ HS) Hm) as [H1 H2].
  assert (Hcur : isnan cur = false) by (pose proof (so_good _ HS) as Hg; rewrite Forall_forall in Hg; by apply (Hg _ Hm)).
  destruct (delete_ok (zs_zsl zs) L cur ele Hz Hcur) as (z' & L' & E & Hz' & El & Hsub). exists z', L'. unfold on_zsl. rewrite E, bind_Done. cbn [fst snd].
  rewrite H1. split; [done|]. split; [done|]. split; [congruence|]. rewrite Hd. symmetry. apply (dict_delete L L' [ele]); [apply (zo_objs _ _ Hz)|apply (zo_objs _ _ Hz')|done|].
  intros o. rewrite !map_obj, El, H2, remove_in. by rewrite list_elem_of_singleton.
Qed.

(** ** ZADD and ZINCRBY *)
Definition spec_add (incr : bool) (ele : sds) (sc : spec_float) (l : list elt) : (zadd_result * spec_float) * list elt :=
  match member_score ele l with
  | None => ((Added, sc), spec_insert (sc, ele) l)
  | Some cur =>
    match new_score incr sc cur with
    | None => ((NanErr, sc), l)
    | Some sc => if SFeqb sc cur then ((Same, sc), l) else ((Updated, sc), spec_insert (sc, ele) (s_remove ele l))
    end
  end.

Lemma new_score_good incr sc cur s ele : good (sc, ele) -> good (cur, ele) -> new_score incr sc cur = Some s -> good (s, ele).
Proof.
  unfold new_score. destruct incr; [|by intros Hs _ [= <-]]. intros [Hs _] [Hc _]. destruct (isnan (Double.plus sc cur)) eqn:E; [done|]. intros [= <-].
  split; [by apply Double.plus_valid|done].
Qed.

Lemma remove_length ele l : (length (s_remove ele l) <= length l)%nat.
Proof. apply filter_length_le. Qed.

Lemma set_ok_member l sc ele : set_ok l -> member_score ele l = Some sc -> good (sc, ele).
Proof. intros HS Hm%member_some. pose proof (so_good _ HS) as Hg. rewrite Forall_forall in Hg. by apply Hg. Qed.

Lemma insert_size ele l : member_score ele l <> None -> (S (length (s_remove ele l)) <= length l)%nat.
Proof.
  intros Hm. unfold member_score in Hm. pose proof (find_split l ele) as H. destruct (list_find _ l) as [[i a]|]; [|done]. destruct H as (A & B & -> & _ & <- & _).
  unfold s_remove. rewrite List.filter_app, !length_app. cbn. rewrite bool_decide_eq_true_2 by done. cbn.
  pose proof (filter_length_le (fun b => negb (bool_decide (snd b = snd a))) A). pose proof (filter_length_le (fun b => negb (bool_decide (snd b = snd a))) B). lia.
Qed.

Lemma spec_add_ok incr ele sc l : set_ok l -> good (sc, ele) -> 2 * Z.of_nat (length l) + 2 < 2 ^ 31 -> set_ok (snd (spec_add incr ele sc l)).
Proof.
  intros HS Hg Hlen. unfold spec_add. destruct (member_score ele l) as [cur|] eqn:Em; [|apply set_ok_insert; [done|done|by apply member_none|done]].
  destruct (new_score incr sc cur) as [s|] eqn:En; [|done]. destruct (SFeqb s cur); [done|]. cbn [snd].
  pose proof (remove_length ele l). apply set_ok_insert; [by apply set_ok_filter| |apply remove_not_in|lia].
  eapply new_score_good; [exact Hg| |exact En]. by eapply set_ok_member.
Qed.

Lemma spec_insert_length e l : length (spec_insert e l) = S (length l).
Proof. by rewrite (Permutation_length (spec_insert_perm e l)). Qed.

(** A new member in a ziplist, with the conversions that follow. *)
Lemma zl_added_ok me mv l ele rs : set_ok l -> l <> [] -> (length l <= levels rs)%nat ->
  exists v' rs', (_ ← when (zzlLength (pairs l) >? me) (zsetConvert ENC_SKIPLIST); when (sdslen ele >? mv) (zsetConvert ENC_SKIPLIST)) (ZZl (pairs l), rs) = Done (tt, (v', rs')) /\
    zrep v' l /\ (levels rs <= levels rs' + length l)%nat.
Proof.
  intros HS Hne Hrs. destruct (convert_skiplist_ok l rs HS Hne Hrs) as (zs & rs' & Ec & Hrep & Hl). destruct (_ >? me) eqn:E1; cbn [when].
  - rewrite (prog_bind_step _ _ _ _ _ Ec). exists (ZSk zs), rs'. split; [|split; [done|lia]]. by destruct (_ >? mv).
  - rewrite bind_mret. destruct (_ >? mv) eqn:E2; cbn [when].
    + exists (ZSk zs), rs'. split; [done|]. split; [done|lia].
    + exists (ZZl (pairs l)), rs. split; [done|]. split; [constructor|lia].
Qed.

Lemma zl_delete_ok l ele i a : NoDup (map snd l) -> list_find (fun a => snd a = ele) l = Some (i, a) ->
  zzlDelete (pairs l) (2 * i) = Done (pairs (s_remove ele l)) /\ snd a = ele /\ a ∈ l.
Proof.
  intros Hn Ef. pose proof (find_split l ele) as Hf. rewrite Ef in Hf. destruct Hf as (A & B & -> & <- & Ea & _). rewrite map_app in Hn. cbn in Hn. rewrite Ea in Hn.
  apply NoDup_app in Hn as (_ & Hn1 & Hn2). apply NoDup_cons in Hn2 as [Hn2 _]. rewrite zzlDelete_ok. split; [|split; [done|apply elem_of_app; right; by left]].
  unfold s_remove. rewrite List.filter_app. cbn. rewrite bool_decide_eq_true_2 by done. cbn. do 3 f_equal; symmetry; apply filter_id_c; intros b Hb; apply negb_true_iff, bool_decide_eq_false_2; intros <-.
  - apply (Hn1 (snd b)); [by apply list_elem_of_fmap_2|by left].
  - apply Hn2. by apply list_elem_of_fmap_2.
Qed.

(** [zadd_elem] on a value that stands for [l]. *)
Definition adds (me mv : Z) (incr : bool) (ele : sds) (sc : spec_float) (v : zval) (l : list elt) (rs : list Z) : Prop :=
  exists v' rs', zadd_elem me mv incr ele sc (v, rs) = Done (fst (spec_add incr ele sc l), (v', rs')) /\ zrep v' (snd (spec_add incr ele sc l)) /\
    (levels rs <= levels rs' + S (length l))%nat.

Lemma zadd_zl_ok me mv incr ele sc l rs : set_ok l -> good (sc, ele) -> 2 * Z.of_nat (length l) + 2 < 2 ^ 31 -> (S (length l) <= levels rs)%nat ->
  adds me mv incr ele sc (ZZl (pairs l)) l rs.
Proof.
  intros HS Hg Hlen Hrs. pose proof (spec_add_ok incr ele sc l HS Hg Hlen) as HS'. unfold adds, zadd_elem, value. rewrite bind_gets. cbn [fst].
  rewrite (find_score_ok l ele (so_good _ HS)), bind_lift. unfold spec_add in *. pose proof (find_split l ele) as Hf. unfold member_score in *.
  destruct (list_find _ l) as [[i a]|] eqn:Ef; cbn [fmap option_fmap option_map fst snd] in *.
  - destruct (zl_delete_ok l ele i a (so_nodup _ HS) Ef) as (Hdel & Ea & Hin).
    destruct (new_score incr sc (fst a)) as [s|] eqn:En; [|exists (ZZl (pairs l)), rs; split; [done|]; split; [constructor|lia]].
    destruct (SFeqb s (fst a)); [exists (ZZl (pairs l)), rs; split; [done|]; split; [constructor|lia]|]. cbn [fst snd] in *.
    rewrite Hdel, bind_lift, zzlInsert_ok, bind_lift; [|apply set_ok_filter, HS|apply set_ok_filter, HS| |apply remove_not_in].
    + eexists _, rs. split; [done|]. split; [constructor|lia].
    + eapply new_score_good; [exact Hg| |exact En]. rewrite <- Ea, <- surjective_pairing. pose proof (so_good _ HS) as Hgl. rewrite Forall_forall in Hgl. by apply Hgl.
  - rewrite zzlInsert_ok, bind_lift by (done || apply HS). cbn [fst snd] in *. unfold put_value. rewrite bind_modify. cbn [fst snd].
    destruct (zl_added_ok me mv (spec_insert (sc, ele) l) ele rs HS') as (v' & rs' & E & Hrep & Hl); [|rewrite spec_insert_length; lia|].
    { intros E. apply (f_equal length) in E. by rewrite spec_insert_length in E. }
    exists v', rs'. rewrite spec_insert_length in Hl. split; [|split; [done|lia]]. rewrite <- bind_assoc. by rewrite (prog_bind_step _ _ _ _ _ E).
Qed.

Lemma zadd_sk_ok me mv incr ele sc zs L rs : zsl_ok (zs_zsl zs) L -> zs_dict zs = dict_of L -> set_ok (map elt_of L) -> good (sc, ele) ->
  2 * Z.of_nat (length L) + 2 < 2 ^ 31 -> (0 < levels rs)%nat -> adds me mv incr ele sc (ZSk zs) (map elt_of L) rs.
Proof.
  intros Hz Hd HS Hg Hlen Hrs. unfold adds, zadd_elem, value. rewrite bind_gets. cbn [fst].
  destruct (zs_find_ok zs L ele Hz Hd) as (f & Ef & Em). rewrite Ef, bind_lift. unfold spec_add in *. rewrite <- Em in *. rewrite length_map. destruct f as [[a cur]|]; cbn [fmap option_fmap option_map snd] in *.
  - pose proof (rep_sk zs L Hz Hd) as Hrep. destruct (new_score incr sc cur) as [s|] eqn:En; [|exists (ZSk zs), rs; split; [done|]; split; [done|lia]].
    destruct (SFeqb s cur); [exists (ZSk zs), rs; split; [done|]; split; [done|lia]|]. cbn [fst snd] in *.
    destruct (zs_delete_ok zs L cur ele Hz Hd HS (eq_sym Em)) as (z1 & L1 & E1 & Hz1 & El1 & Hd1). rewrite E1, bind_lift. cbn [fst snd require_b]. rewrite bind_lift.
    destruct (draws_ok (ZSk zs) rs Hrs) as (rr & rs' & level & E2 & Hlv & Hl2). rewrite (prog_bind_step _ _ _ _ _ E2).
    assert (Hne : ele ∉ map c_obj L1) by (rewrite map_obj, El1; apply remove_not_in).
    assert (Hs : isnan s = false) by (eapply (new_score_good incr sc cur s ele); [exact Hg|eapply set_ok_member; [exact HS|by rewrite <- Em]|exact En]).
    pose proof (insert_size ele (map elt_of L) ltac:(by rewrite <- Em)) as Hsz. rewrite <- El1, !length_map in Hsz.
    destruct (insert_ok junk z1 L1 s ele rr level Hz1 Hs Hne Hlv ltac:(lia)) as (z2 & L2 & E3 & Hz2 & El2 & HP). unfold on_zsl. cbn [zs_zsl zs_dict]. rewrite E3, bind_Done, bind_lift.
    cbn [fst snd zs_dict zs_zsl]. eexists _, rs'. split; [done|]. split; [|lia]. rewrite <- El1, <- El2. constructor; [done|]. cbn [zs_dict]. rewrite (dict_insert L1 L2 ele _ HP (zo_objs _ _ Hz2)), <- Hd1.
    by rewrite insert_delete_eq.
  - destruct (zs_insert_ok zs L sc ele (ZSk zs) rs Hz Hd (proj2 Hg)) as (zs' & L' & rs' & E & Hz' & Hd' & El & Hl); [rewrite map_obj; by apply member_none|lia|lia|].
    rewrite (prog_bind_step _ _ _ _ _ E). cbn [fst snd]. eexists _, rs'. split; [done|]. split; [|lia]. rewrite <- El. by constructor.
Qed.

Lemma zadd_elem_ok me mv incr ele sc v l rs : zrep v l -> set_ok l -> good (sc, ele) -> 2 * Z.of_nat (length l) + 2 < 2 ^ 31 -> (S (length l) <= levels rs)%nat ->
  adds me mv incr ele sc v l rs.
Proof.
  intros [l'|zs L Hz Hd] HS Hg Hlen Hrs; [by apply zadd_zl_ok|]. rewrite length_map in *. apply zadd_sk_ok; (done || lia).
Qed.

(** *** A ziplist that stays one *)
Lemma zzlLength_ok l : zzlLength (pairs l) = Z.of_nat (length l).
Proof. unfold zzlLength. rewrite pairs_length, Nat2Z.inj_mul, Z.mul_comm. by apply Z.div_mul. Qed.

Lemma zadd_zl_stays me mv ele sc l rs : set_ok l -> good (sc, ele) -> 2 * Z.of_nat (length l) + 2 < 2 ^ 31 ->
  Z.of_nat (length l) < me -> sdslen ele <= mv ->
  zadd_elem me mv false ele sc (ZZl (pairs l), rs) = Done (fst (spec_add false ele sc l), (ZZl (pairs (snd (spec_add false ele sc l))), rs)).
Proof.
  intros HS Hg Hlen Hme Hmv. unfold zadd_elem, value. rewrite bind_gets. cbn [fst]. rewrite (find_score_ok l ele (so_good _ HS)), bind_lift.
  unfold spec_add, member_score, new_score. destruct (list_find _ l) as [[i a]|] eqn:Ef; cbn [fmap option_fmap option_map fst snd].
  - destruct (SFeqb sc (fst a)); [done|]. destruct (zl_delete_ok l ele i a (so_nodup _ HS) Ef) as (Hdel & _ & _).
    rewrite Hdel, bind_lift, zzlInsert_ok, bind_lift by (try apply set_ok_filter; try apply HS; try apply remove_not_in; done). done.
  - assert (Hn : ele ∉ map snd l) by (apply member_none; unfold member_score; by rewrite Ef).
    rewrite zzlInsert_ok, bind_lift by (try apply HS; done). unfold put_value. rewrite bind_modify, zzlLength_ok, spec_insert_length. cbn [fst snd].
    rewrite !Z.gtb_ltb, !(proj2 (Z.ltb_ge _ _)) by lia. cbn [when]. by rewrite bind_mret, bind_mret.
Qed.

(** ** ZREM *)
Definition is_nil {X} (l : list X) : bool := match l with [] => true | _ => false end.

Lemma zl_empty_ok l : (zzlLength (pairs l) =? 0) = is_nil l.
Proof. rewrite zzlLength_ok. by destruct l. Qed.
Lemma dict_empty_ok L : bool_decide (dict_of L = ∅) = is_nil (map elt_of L).
Proof.
  destruct L as [|c L]; [by rewrite bool_decide_eq_true_2|]. apply bool_decide_eq_false_2. intros E. apply (f_equal (fun m : gmap sds positive => m !! c_obj c)) in E.
  unfold dict_of in E. cbn in E. by rewrite lookup_insert_eq in E.
Qed.

Definition spec_rem (ele : sds) (l : list elt) : (bool * bool) * list elt :=
  match member_score ele l with
  | Some _ => ((true, is_nil (s_remove ele l)), s_remove ele l)
  | None => ((false, false), l)
  end.

Lemma zrem_zl_ok ele l rs : set_ok l -> zrem_elem ele (ZZl (pairs l), rs) = Done (fst (spec_rem ele l), (ZZl (pairs (snd (spec_rem ele l))), rs)).
Proof.
  intros HS. unfold zrem_elem, value, spec_rem. rewrite bind_gets. cbn [fst]. rewrite zzlFind_ok, bind_lift. unfold member_score.
  destruct (list_find _ l) as [[i a]|] eqn:Ef; cbn [fmap option_fmap option_map fst snd]; [|done].
  destruct (zl_delete_ok l ele i a (so_nodup _ HS) Ef) as (Hdel & _ & _). rewrite Hdel, bind_lift. cbn. by rewrite zl_empty_ok.
Qed.

Lemma zrem_elem_ok ele v l rs : zrep v l -> set_ok l ->
  exists v', zrem_elem ele (v, rs) = Done (fst (spec_rem ele l), (v', rs)) /\ zrep v' (snd (spec_rem ele l)).
Proof.
  intros Hr HS. destruct Hr as [l|zs L Hz Hd]; [eexists; split; [by apply zrem_zl_ok|constructor]|]. unfold zrem_elem, value, spec_rem. rewrite bind_gets. cbn [fst].
  destruct (zs_find_ok zs L ele Hz Hd) as (f & Ef & Em). rewrite Ef, bind_lift, <- Em. destruct f as [[a cur]|]; cbn [fmap option_fmap option_map snd].
  - destruct (zs_delete_ok zs L cur ele Hz Hd HS (eq_sym Em)) as (z1 & L1 & E1 & Hz1 & El1 & Hd1). rewrite E1, bind_lift. cbn [fst snd require_b zs_dict zs_zsl]. rewrite bind_lift.
    eexists. unfold put_value. rewrite bind_modify. cbn [fst snd zs_dict]. rewrite Hd1, dict_empty_ok, El1. split; [done|]. rewrite <- El1. by constructor.
  - eexists. split; [done|by constructor].
Qed.

(** ** ZREMRANGEBYRANK, ZREMRANGEBYSCORE, ZREMRANGEBYLEX *)
Definition spec_inside (t : zrange_type) (l : list elt) : list elt :=
  match t with
  | ZRANGE_RANK start end_ => take (Z.to_nat (end_ - start + 1)) (drop (Z.to_nat start) l)
  | ZRANGE_SCORE r => List.filter (in_range r) l
  | ZRANGE_LEX r => List.filter (in_lex r) l
  end.
Definition spec_outside (t : zrange_type) (l : list elt) : list elt :=
  match t with
  | ZRANGE_RANK start end_ => take (Z.to_nat start) l ++ drop (Z.to_nat (end_ + 1)) l
  | ZRANGE_SCORE r => List.filter (fun a => negb (in_range r a)) l
  | ZRANGE_LEX r => List.filter (fun a => negb (in_lex r a)) l
  end.
(** What the commands see to: ranks inside the set, ends that are numbers; lexicographic
    ranges are for sets of one score. *)
Definition range_ok (t : zrange_type) (l : list elt) : Prop :=
  match t with
  | ZRANGE_RANK start end_ => 0 <= start <= end_ /\ end_ < Z.of_nat (length l)
  | ZRANGE_SCORE r => isnan (r_min r) = false /\ isnan (r_max r) = false
  | ZRANGE_LEX r => one_score l /\ no_clash r = true
  end.

Lemma rank_outside start end_ (l : list elt) : 0 <= start <= end_ ->
  take (rank_from (start + 1)) l ++ drop (rank_count (start + 1) (end_ + 1)) (drop (rank_from (start + 1)) l) = take (Z.to_nat start) l ++ drop (Z.to_nat (end_ + 1)) l /\
  take (rank_count (start + 1) (end_ + 1)) (drop (rank_from (start + 1)) l) = take (Z.to_nat (end_ - start + 1)) (drop (Z.to_nat start) l).
Proof.
  intros H. unfold rank_count, rank_from. rewrite drop_drop. replace (Z.to_nat (start + 1 - 1)) with (Z.to_nat start) by lia.
  split; [do 2 f_equal; lia|]. f_equal. lia.
Qed.

Lemma outside_in t l : NoDup (map snd l) -> range_ok t l -> forall x, x ∈ map snd (spec_outside t l) <-> x ∈ map snd l /\ x ∉ map snd (spec_inside t l).
Proof.
  intros Hn Ht x. assert (Hf : forall f : elt -> bool, x ∈ map snd (List.filter (fun a => negb (f a)) l) <-> x ∈ map snd l /\ x ∉ map snd (List.filter f l)).
  { intros f. split.
    - intros (a & -> & [Ha Hf]%filter_sub)%list_elem_of_fmap. split; [by apply list_elem_of_fmap_2|]. intros (b & E & [Hb Hfb]%filter_sub)%list_elem_of_fmap.
      destruct a as [s1 x1], b as [s2 x2]. cbn in E. subst x2. pose proof (member_in _ _ _ Hn Ha) as E1. pose proof (member_in _ _ _ Hn Hb) as E2. rewrite E1 in E2.
      injection E2 as <-. by rewrite Hfb in Hf.
    - intros [(a & -> & Ha)%list_elem_of_fmap Hni]. apply list_elem_of_fmap_2, filter_sub. split; [done|]. apply negb_true_iff, not_true_is_false. intros Hfa. apply Hni.
      by apply list_elem_of_fmap_2, filter_sub. }
  destruct t as [start end_|r|r]; [|apply Hf|apply Hf]. destruct Ht as [Ht Hlen]. cbn [spec_inside spec_outside]. set (a := Z.to_nat start).
  replace (Z.to_nat (end_ + 1)) with (a + Z.to_nat (end_ - start + 1))%nat by lia. set (b := Z.to_nat (end_ - start + 1)). rewrite <- drop_drop.
  assert (El : l = take a l ++ take b (drop a l) ++ drop b (drop a l)) by (by rewrite (take_drop b), take_drop).
  set (A := take a l) in *. set (D := take b (drop a l)) in *. set (E := drop b (drop a l)) in *. clearbody A D E. subst l. rewrite !map_app in *. rewrite !elem_of_app.
  apply NoDup_app in Hn as (_ & Hn1 & Hn2). apply NoDup_app in Hn2 as (_ & Hn2 & _). specialize (Hn1 x). specialize (Hn2 x). rewrite elem_of_app in Hn1. tauto.
Qed.

(** The members that a skip-list deletion answers go from the dict. *)
Lemma zremrange_sk zs L rs t m : zsl_ok (zs_zsl zs) L -> zs_dict zs = dict_of L -> set_ok (map elt_of L) -> range_ok t (map elt_of L) ->
  (exists z' L', m (zs_zsl zs) = Done (map snd (spec_inside t (map elt_of L)), z') /\ zsl_ok z' L' /\ map elt_of L' = spec_outside t (map elt_of L) /\ L' ⊆ L) ->
  exists v', (p ← lift (on_zsl m zs);
    let zs := mkZset (foldr delete (zs_dict (snd p)) (fst p)) (zs_zsl (snd p)) in
    _ ← put_value (ZSk zs);
    mret (Z.of_nat (length (fst p)), bool_decide (zs_dict zs = ∅))) (ZSk zs, rs) =
    Done ((Z.of_nat (length (spec_inside t (map elt_of L))), is_nil (spec_outside t (map elt_of L))), (v', rs)) /\ zrep v' (spec_outside t (map elt_of L)).
Proof.
  intros Hz Hd HS Ht (z' & L' & E & Hz' & El & Hsub). unfold on_zsl. rewrite E, bind_Done, bind_lift. cbn [fst snd zs_dict zs_zsl]. unfold put_value. rewrite bind_modify. cbn [fst snd].
  assert (Ed : foldr delete (zs_dict zs) (map snd (spec_inside t (map elt_of L))) = dict_of L').
  { rewrite Hd. symmetry. apply dict_delete; [apply (zo_objs _ _ Hz)|apply (zo_objs _ _ Hz')|done|]. intros o. rewrite !map_obj, El. apply outside_in; [apply (so_nodup _ HS)|done]. }
  rewrite Ed, dict_empty_ok, El, length_map. eexists. split; [done|]. rewrite <- El. by constructor.
Qed.

Lemma zremrange_ok t v l rs : zrep v l -> set_ok l -> range_ok t l ->
  exists v', zremrange t (v, rs) = Done ((Z.of_nat (length (spec_inside t l)), is_nil (spec_outside t l)), (v', rs)) /\ zrep v' (spec_outside t l).
Proof.
  intros Hr HS Ht. unfold zremrange, value. rewrite bind_gets. cbn [fst]. destruct Hr as [l|zs L Hz Hd].
  - assert (E : (match t with ZRANGE_RANK start end_ => Done (zzlDeleteRangeByRank (pairs l) (start + 1) (end_ + 1)) | ZRANGE_SCORE r => zzlDeleteRangeByScore (pairs l) r
      | ZRANGE_LEX r => zzlDeleteRangeByLex (pairs l) r end) = Done (pairs (spec_outside t l), Z.of_nat (length (spec_inside t l)))).
    { destruct HS as [Hg Hs Hn Hm], t as [start end_|r|r]; cbn [spec_inside spec_outside] in *.
      - destruct Ht as [Ht Hlen]. rewrite rank_range_ok by lia. rewrite (proj1 (rank_outside start end_ l Ht)). rewrite length_take, length_drop. do 2 f_equal. lia.
      - destruct (score_range_ok l r Hg Hs (proj1 Ht) (proj2 Ht)) as (A & D & E & [_ _ Hin Hout _ _ Hdel]). rewrite Hdel, Hin, Hout. done.
      - destruct (lex_range_ok l r Hg Hs (proj1 Ht) (proj2 Ht)) as (A & D & E & [_ _ Hin Hout _ _ Hdel]). rewrite Hdel, Hin, Hout. done. }
    rewrite E, bind_lift. cbn [fst snd]. eexists. split; [|constructor]. unfold put_value. rewrite bind_modify. cbn [fst snd]. by rewrite zl_empty_ok.
  - apply zremrange_sk; try done. destruct t as [start end_|r|r]; cbn [spec_inside spec_outside].
    + destruct Ht as [Ht Hlen]. destruct (rank_outside start end_ (map elt_of L) Ht) as [<- <-]. apply range_by_rank_ok; [done|lia|lia].
    + destruct Ht. by apply range_by_score_ok.
    + apply range_by_lex_ok; [done|apply Ht].
Qed.

(** ** Cursors *)
(** [R k l]: the elements from the cursor [k] on are [l]. *)
Section Sim.
Context {K X : Type} (next : K -> outcome (option K)) (read : K -> outcome X) (f : elt -> X) (R : option K -> list elt -> Prop).
Hypothesis R_nil : forall k, R k [] -> k = None.
Hypothesis R_cons : forall k a l, R k (a :: l) -> exists i k', k = Some i /\ read i = Done (f a) /\ next i = Done k' /\ R k' l.

Lemma list_n_ok n : forall k l, R k l -> (n <= length l)%nat -> list_n next read n k = Done (map f (take n l)).
Proof using R_cons.
  induction n as [|n IH]; intros k l Hk Hn; [done|]. destruct l as [|a l]; [cbn in Hn; lia|]. destruct (R_cons k a l Hk) as (i & k' & -> & Hr & Hx & Hk').
  cbn [list_n expect]. rewrite bind_Done, Hr, bind_Done, Hx, bind_Done, (IH k' l Hk') by (cbn in Hn; lia). done.
Qed.

(** A negative offset skips them all. *)
Definition skipped (offset : Z) (l : list elt) : list elt := if offset <? 0 then [] else drop (Z.to_nat offset) l.

Lemma skipped_cons offset a l : offset <> 0 -> skipped offset (a :: l) = skipped (offset - 1) l.
Proof.
  intros H. unfold skipped. destruct (Z.ltb_spec offset 0), (Z.ltb_spec (offset - 1) 0); [done|lia|lia|]. replace (Z.to_nat offset) with (S (Z.to_nat (offset - 1))) by lia. done.
Qed.

Lemma skip_n_ok l : forall fuel k offset, R k l -> (length l < fuel)%nat -> exists k', skip_n next fuel k offset = Done k' /\ R k' (skipped offset l).
Proof using R_nil R_cons.
  induction l as [|a l IH]; intros fuel k offset Hk Hf; (destruct fuel as [|fuel]; [lia|]).
  - pose proof (R_nil _ Hk). subst k. exists None. split; [done|]. unfold skipped. destruct (_ <? _); [done|]. by rewrite drop_nil.
  - destruct (R_cons k a l Hk) as (i & k' & -> & Hr & Hx & Hk'). cbn [skip_n]. destruct (Z.eqb_spec offset 0) as [->|Hne]; [by eexists|].
    rewrite Hx, bind_Done, skipped_cons by done. apply IH; [done|cbn in Hf; lia].
Qed.

(** A negative limit is none. *)
Fixpoint upto_limit (ok : X -> bool) (l : list elt) (limit : Z) : list X :=
  match l with
  | [] => []
  | a :: l' => if limit =? 0 then [] else if ok (f a) then f a :: upto_limit ok l' (limit - 1) else []
  end.

Lemma list_while_ok ok l : forall fuel k limit, R k l -> (length l < fuel)%nat -> list_while next read ok fuel k limit = Done (upto_limit ok l limit).
Proof using R_nil R_cons.
  induction l as [|a l IH]; intros fuel k limit Hk Hf; (destruct fuel as [|fuel]; [lia|]).
  - pose proof (R_nil _ Hk). by subst k.
  - destruct (R_cons k a l Hk) as (i & k' & -> & Hr & Hx & Hk'). cbn [list_while upto_limit]. destruct (_ =? 0); [done|]. rewrite Hr, bind_Done. destruct (ok (f a)); [|done].
    rewrite Hx, bind_Done, (IH fuel k' (limit - 1) Hk') by (cbn in Hf; lia). done.
Qed.

(** The page of the elements [D] that are in the range, when those behind are not. *)
Definition page (offset limit : Z) (D : list elt) : list elt := let D' := skipped offset D in if limit <? 0 then D' else take (Z.to_nat limit) D'.

Lemma upto_limit_page ok D E : forall limit, Forall (fun a => ok (f a) = true) D -> (forall e, head E = Some e -> ok (f e) = false) ->
  upto_limit ok (D ++ E) limit = map f (if limit <? 0 then D else take (Z.to_nat limit) D).
Proof.
  induction D as [|d D IH]; intros limit HD HE.
  - cbn [app]. rewrite take_nil. destruct E as [|e E]; [by destruct (_ <? _)|]. cbn. rewrite (HE e eq_refl). by destruct (_ =? 0), (_ <? _).
  - apply Forall_cons in HD as [Hd HD]. cbn [app upto_limit]. destruct (Z.eqb_spec limit 0) as [->|Hne]; [done|]. rewrite Hd, IH by done.
    destruct (Z.ltb_spec limit 0), (Z.ltb_spec (limit - 1) 0); [done|lia|lia|]. replace (Z.to_nat limit) with (S (Z.to_nat (limit - 1))) by lia. done.
Qed.

Lemma page_ok ok D E offset limit : Forall (fun a => ok (f a) = true) D -> Forall (fun a => ok (f a) = false) E ->
  upto_limit ok (skipped offset (D ++ E)) limit = map f (page offset limit D).
Proof.
  intros HD HE. unfold page, skipped. destruct (offset <? 0); [by rewrite take_nil; destruct (_ <? _)|]. rewrite drop_app. apply upto_limit_page.
  - by apply Forall_drop.
  - intros e He. apply (Forall_drop _ (Z.to_nat offset - length D)) in HE. destruct (drop _ E); [done|]. injection He as ->. by apply Forall_inv in HE.
Qed.
End Sim.

(** What the queries by range answer of the elements [D] in the range. *)
Definition spec_page {X} (f : elt -> X) (reverse : bool) (offset limit : Z) (D : list elt) : option (list X) :=
  match D with [] => None | _ => Some (map f (page offset limit (if reverse then rev D else D))) end.

(** *** In a ziplist *)
Definition zl_fwd (l : list elt) (k : option (nat * nat)) (X : list elt) : Prop := exists A, l = A ++ X /\ k = cursor A X.
Definition zl_bwd (l : list elt) (k : option (nat * nat)) (X : list elt) : Prop := exists A B, l = A ++ B /\ X = rev A /\ k = (fun p => (p, S p)) <$> endptr A.
Definition zl_at (reverse : bool) := if reverse then zl_bwd else zl_fwd.

(** What is read at a cursor. *)
Definition reads_at {X} (l : list elt) (read : nat * nat -> outcome X) (f : elt -> X) : Prop :=
  forall A a B, l = A ++ a :: B -> read (2 * length A, S (2 * length A))%nat = Done (f a).

Lemma zl_read_at l : Forall good l -> reads_at l (zl_read (pairs l)) id.
Proof.
  intros Hg A a B ->. apply Forall_app in Hg as [_ Hg]. apply Forall_inv in Hg. unfold zl_read. cbn [fst snd]. rewrite get_member, bind_Done, get_score, bind_Done by done. by destruct a.
Qed.
Lemma zl_member_at l : reads_at l (zl_member (pairs l)) snd.
Proof. intros A a B ->. apply get_member. Qed.
Lemma zl_score_at l : Forall good l -> reads_at l (fun k => zzlGetScore (pairs l) (snd k)) fst.
Proof. intros Hg A a B ->. apply Forall_app in Hg as [_ Hg]. apply Forall_inv in Hg. by apply get_score. Qed.

Lemma zl_at_nil reverse l k : zl_at reverse l k [] -> k = None.
Proof.
  destruct reverse; [intros (A & B & _ & E & ->)|by intros (A & _ & ->)]. destruct A as [|a A]; [done|]. apply (f_equal length) in E. rewrite length_rev in E. done.
Qed.

Lemma zl_at_cons {X} reverse l read (f : elt -> X) : reads_at l read f -> forall k a R, zl_at reverse l k (a :: R) ->
  exists i k', k = Some i /\ read i = Done (f a) /\ zl_next reverse (pairs l) i = Done k' /\ zl_at reverse l k' R.
Proof.
  intros Hread k a R Hk. destruct reverse; cbn [zl_at] in *.
  - destruct Hk as (A & B & -> & E & ->). assert (EA : A = rev R ++ [a]) by (by rewrite <- (rev_involutive A), <- E). subst A. assert (ER : R = rev (rev R)) by (by rewrite rev_involutive). set (A := rev R) in *. clearbody A. rewrite endptr_snoc. eexists _, ((fun p => (p, S p)) <$> endptr A).
    split; [done|]. rewrite <- app_assoc in *. cbn [app] in *. split; [by apply (Hread A a B)|]. unfold zl_next, zzlPrev. cbn [fst snd].
    split; [|by exists A, (a :: B)].
    destruct A as [|b A' _] using rev_ind; [done|]. rewrite endptr_snoc, length_app. cbn [length]. replace (2 * (length A' + 1))%nat with (S (S (2 * length A'))) by lia. done.
  - destruct Hk as (A & -> & ->). eexists _, _. split; [done|]. split; [by apply (Hread A a R)|]. unfold zl_next. cbn [fst snd]. rewrite zzlNext_ok. split; [done|].
    exists (A ++ [a]). by rewrite <- app_assoc.
Qed.

(** The cursors that the queries start from. *)
Lemma zl_start (reverse : bool) (A D E : list elt) : D <> [] -> exists eptr, (if reverse then last_ptr A D else ptr A D) = Some eptr /\
  exists k, zl_cursor (pairs (A ++ D ++ E)) eptr = Done k /\ zl_at reverse (A ++ D ++ E) (Some k) (if reverse then rev D ++ rev A else D ++ E).
Proof.
  intros Hne. destruct reverse.
  - destruct D as [|d D _] using rev_ind; [done|]. unfold last_ptr. destruct (D ++ [d]) as [|x X] eqn:Ed; [by destruct D|]. rewrite <- Ed. rewrite (app_assoc A D [d]), endptr_snoc. eexists. split; [done|].
    replace (A ++ (D ++ [d]) ++ E) with ((A ++ D) ++ d :: E) by (by rewrite <- !app_assoc). unfold zl_cursor. rewrite next_elt. cbn [expect]. rewrite bind_Done. eexists. split; [done|].
    exists (A ++ D ++ [d]), E. rewrite !rev_app_distr, <- !app_assoc. split; [done|]. split; [done|]. by rewrite (app_assoc A D [d]), endptr_snoc.
  - destruct D as [|d D]; [done|]. cbn [ptr app]. eexists. split; [done|]. unfold zl_cursor. rewrite next_elt. cbn [expect]. rewrite bind_Done. eexists. split; [done|]. by exists A.
Qed.

Lemma zl_listing {X} (reverse : bool) (g l : elt -> bool) (read : nat * nat -> outcome X) (f : elt -> X) (ok : X -> bool) L A D E first last offset limit :
  reads_at L read f -> (forall a, ok (f a) = if reverse then g a else l a) -> L = A ++ D ++ E -> cut3 g l A D E -> first = Done (ptr A D) -> last = Done (last_ptr A D) ->
  (eptr ← (if reverse then last else first);
   match eptr with
   | None => Done None
   | Some eptr =>
     k ← zl_cursor (pairs L) eptr;
     k ← skip_n (zl_next reverse (pairs L)) (S (length (pairs L))) (Some k) offset;
     r ← list_while (zl_next reverse (pairs L)) read ok (S (length (pairs L))) k limit;
     Done (Some r)
   end) = Done (spec_page f reverse offset limit D).
Proof.
  intros Hread Hok EL [HA HD HE _] Hf Hl. destruct D as [|d D]; [rewrite Hf, Hl; by destruct reverse|]. set (D' := d :: D) in *.
  destruct (zl_start reverse A D' E ltac:(done)) as (eptr & Ep & k & Ek & Hk). replace (if reverse then last else first) with (Done (Some eptr)) by (rewrite <- Ep; by destruct reverse).
  rewrite bind_Done. rewrite <- EL in Ek, Hk. rewrite Ek, bind_Done.
  destruct (skip_n_ok _ read f (zl_at reverse L) (zl_at_nil reverse L) (zl_at_cons reverse L read f Hread) _ (S (length (pairs L))) _ offset Hk) as (k' & Es & Hk').
  { rewrite pairs_length, EL. destruct reverse; rewrite !length_app, ?length_rev; lia. }
  rewrite Es, bind_Done. rewrite (list_while_ok _ read f (zl_at reverse L) (zl_at_nil reverse L) (zl_at_cons reverse L read f Hread) ok _ _ _ limit Hk'), bind_Done.
  - unfold spec_page, D'. fold D'. do 2 f_equal. destruct reverse; apply page_ok.
    + apply Forall_rev. eapply Forall_impl; [exact HD|]. intros a [Ha _]. by rewrite Hok.
    + apply Forall_rev. eapply Forall_impl; [exact HA|]. intros a Ha. by rewrite Hok.
    + eapply Forall_impl; [exact HD|]. intros a [_ Ha]. by rewrite Hok.
    + eapply Forall_impl; [exact HE|]. intros a [_ Ha]. by rewrite Hok.
  - unfold skipped. rewrite pairs_length, EL. destruct (_ <? _); [cbn; lia|]. rewrite length_drop. destruct reverse; rewrite !length_app, ?length_rev; lia.
Qed.

(** *** In a skip list *)
Definition zn_fwd (L : list cell) (k : option positive) (X : list elt) : Prop := exists A B, L = A ++ B /\ X = map elt_of B /\ k = c_addr <$> head B.
Definition zn_bwd (L : list cell) (k : option positive) (X : list elt) : Prop := exists A B, L = A ++ B /\ X = rev (map elt_of A) /\ k = c_addr <$> last A.
Definition zn_at (reverse : bool) := if reverse then zn_bwd else zn_fwd.

Definition node_reads {X} (z : zskiplist) (L : list cell) (read : positive -> outcome X) (f : elt -> X) : Prop := forall c, c ∈ L -> read (c_addr c) = Done (f (elt_of c)).

Lemma zn_read_at z L : zsl_ok z L -> node_reads z L (zn_read z) id.
Proof. intros H c Hc. destruct (node_of_cell z L c H Hc) as (n & En & Ho & Hs). unfold zn_read. rewrite En. cbn [expect]. rewrite bind_Done, Ho. cbn [expect]. by rewrite bind_Done, Hs. Qed.
Lemma zn_member_at z L : zsl_ok z L -> node_reads z L (zn_member z) snd.
Proof. intros H c Hc. unfold zn_member. by rewrite (zn_read_at z L H c Hc), bind_Done. Qed.

Lemma zn_at_nil reverse L k : zn_at reverse L k [] -> k = None.
Proof.
  destruct reverse; intros (A & B & _ & E & ->).
  - destruct A as [|c A]; [done|]. apply (f_equal length) in E. rewrite length_rev in E. done.
  - by destruct B.
Qed.

Lemma back_last b A : back b A = match last A with Some c => Some (c_addr c) | None => b end.
Proof. destruct A as [|c A _] using rev_ind; [done|]. by rewrite back_app, last_snoc. Qed.

Lemma zn_at_cons {X} reverse z L read (f : elt -> X) : zsl_ok z L -> node_reads z L read f -> forall k a R, zn_at reverse L k (a :: R) ->
  exists i k', k = Some i /\ read i = Done (f a) /\ zn_next reverse z i = Done k' /\ zn_at reverse L k' R.
Proof.
  intros Hz Hread k a R Hk. pose proof (zo_rep _ _ Hz) as Hr. destruct reverse; cbn [zn_at] in *; destruct Hk as (A & B & EL & E & ->).
  - destruct A as [|c A _] using rev_ind; [done|]. rewrite map_app, rev_app_distr in E. injection E as -> ->. rewrite last_snoc, <- app_assoc in *. cbn [app] in EL. eexists _, (c_addr <$> last A). split; [done|].
    split; [apply Hread; rewrite EL; apply elem_of_app; right; by left|]. rewrite EL in Hr. destruct (rep_node _ _ _ _ Hr) as (n & Hn & Em). unfold zn_next. rewrite Hn. cbn [expect]. rewrite bind_Done.
    split; [|by exists A, (c :: B)]. injection Em as _ _ -> _. rewrite back_last. by destruct (last A).
  - destruct B as [|c B]; [done|]. injection E as -> ->. destruct (nodes_of_rep z L Hz A c B EL) as (n & l & Hn & _ & _ & Hl & Hf). eexists _, _. split; [done|].
    split; [apply Hread; rewrite EL; apply elem_of_app; right; by left|]. unfold zn_next. rewrite Hn. cbn [expect]. rewrite bind_Done, Hl, bind_Done. split; [done|].
    exists (A ++ [c]), B. by rewrite <- app_assoc, Hf.
Qed.

(** The cells of a range. *)
Lemma cells_cut (g l : elt -> bool) L : sorted (map elt_of L) -> down_on (map elt_of L) (fun a => negb (g a)) -> down_on (map elt_of L) l ->
  exists A D E, L = A ++ D ++ E /\ cut3 g l (map elt_of A) (map elt_of D) (map elt_of E) /\ List.filter (fun c => g (elt_of c) && l (elt_of c)) L = D.
Proof.
  intros Hs Hg Hl. destruct (cut3_of g l (map elt_of L) Hs Hg Hl) as (A' & D' & E' & EL & HC & _). apply map_eq_app in EL as (A & R & -> & <- & EL). apply map_eq_app in EL as (D & E & -> & <- & <-).
  exists A, D, E. split; [done|]. split; [done|]. destruct HC as [HA HD HE _]. rewrite Forall_fmap in HA, HD, HE. rewrite Forall_forall in HA, HD, HE.
  rewrite !List.filter_app, (filter_none_c _ A), (filter_id_c _ D), (filter_none_c _ E); [by rewrite app_nil_r|..]; intros c Hc.
  - by destruct (HE c Hc) as [_ ->]; rewrite andb_false_r.
  - by destruct (HD c Hc) as [-> ->].
  - by rewrite (HA c Hc).
Qed.

Lemma zn_start (reverse : bool) (A D E : list cell) : D <> [] -> exists a, (c_addr <$> (if reverse then last D else head D)) = Some a /\
  zn_at reverse (A ++ D ++ E) (Some a) (if reverse then rev (map elt_of D) ++ rev (map elt_of A) else map elt_of (D ++ E)).
Proof.
  intros Hne. destruct reverse.
  - destruct D as [|d D _] using rev_ind; [done|]. rewrite last_snoc. eexists. split; [done|]. exists (A ++ D ++ [d]), E. rewrite <- !app_assoc. split; [done|].
    split; [by rewrite !map_app, !rev_app_distr|]. by rewrite app_assoc, last_snoc.
  - destruct D as [|d D]; [done|]. eexists. split; [done|]. by exists A, ((d :: D) ++ E).
Qed.

Lemma zn_listing {X} (reverse : bool) (g l : elt -> bool) (read : positive -> outcome X) (f : elt -> X) (ok : X -> bool) z L first last_ offset limit :
  zsl_ok z L -> node_reads z L read f -> (forall a, ok (f a) = if reverse then g a else l a) ->
  down_on (map elt_of L) (fun a => negb (g a)) -> down_on (map elt_of L) l ->
  first z = Done (c_addr <$> head (List.filter (fun c => g (elt_of c) && l (elt_of c)) L), z) ->
  last_ z = Done (c_addr <$> last (List.filter (fun c => g (elt_of c) && l (elt_of c)) L), z) ->
  (p ← (if reverse then last_ z else first z);
   match fst p with
   | None => Done None
   | Some a =>
     k ← skip_n (zn_next reverse z) (S (steps z)) (Some a) offset;
     r ← list_while (zn_next reverse z) read ok (S (steps z)) k limit;
     Done (Some r)
   end) = Done (spec_page f reverse offset limit (List.filter (fun a => g a && l a) (map elt_of L))).
Proof.
  intros Hz Hread Hok Hg Hl Hfirst Hlast. destruct (cells_cut g l L (zo_sorted _ _ Hz) Hg Hl) as (A & D & E & EL & [HA HD HE _] & Hin). rewrite Hin in *.
  rewrite <- (map_filter_elt (fun a => g a && l a)), Hin. replace (if reverse then last_ z else first z) with (Done (c_addr <$> (if reverse then last D else head D), z)) by (rewrite Hfirst, Hlast; by destruct reverse).
  rewrite bind_Done. cbn [fst]. destruct D as [|d D]; [by destruct reverse|]. set (D' := d :: D) in *. destruct (zn_start reverse A D' E ltac:(done)) as (a & Ea & Hk). rewrite Ea. rewrite <- EL in Hk.
  pose proof (rp_len _ _ (zo_rep _ _ Hz)) as Hlen. assert (Hst : steps z = S (length L)) by (unfold steps; lia). rewrite Hst.
  destruct (skip_n_ok _ read f (zn_at reverse L) (zn_at_nil reverse L) (zn_at_cons reverse z L read f Hz Hread) _ (S (S (length L))) _ offset Hk) as (k' & Es & Hk').
  { rewrite EL. destruct reverse; rewrite !length_app, ?length_rev, !length_map, ?length_app; lia. }
  rewrite Es, bind_Done. rewrite (list_while_ok _ read f (zn_at reverse L) (zn_at_nil reverse L) (zn_at_cons reverse z L read f Hz Hread) ok _ _ _ limit Hk'), bind_Done.
  - unfold spec_page, D'. cbn [map]. change (elt_of d :: map elt_of D) with (map elt_of D'). do 2 f_equal. destruct reverse; [|rewrite map_app]; apply page_ok.
    + apply Forall_rev. eapply Forall_impl; [exact HD|]. intros b [Hb _]. by rewrite Hok.
    + apply Forall_rev. eapply Forall_impl; [exact HA|]. intros b Hb. by rewrite Hok.
    + eapply Forall_impl; [exact HD|]. intros b [_ Hb]. by rewrite Hok.
    + eapply Forall_impl; [exact HE|]. intros b [_ Hb]. by rewrite Hok.
  - unfold skipped. destruct (_ <? _); [cbn; lia|]. rewrite length_drop, EL. destruct reverse; rewrite !length_app, ?length_rev, !length_map, ?length_app; lia.
Qed.

(** ** The queries *)
Lemma zrangebyscore_ok reverse r offset limit v l : zrep v l -> set_ok l -> isnan (r_min r) = false -> isnan (r_max r) = false ->
  zrangebyscore_list reverse r offset limit v = Done (spec_page id reverse offset limit (List.filter (in_range r) l)).
Proof.
  intros Hrep HS Hmin Hmax. destruct Hrep as [l|zs L Hz Hd]; cbn [zrangebyscore_list].
  - destruct (score_range_ok l r (so_good _ HS) (so_sorted _ HS) Hmin Hmax) as (A & D & E & [EL HC Hin _ Hf Hl _]). fold (in_range r) in Hin.
    change (fun a => zslValueGteMin (fst a) r && zslValueLteMax (fst a) r) with (in_range r) in Hin. rewrite <- Hin.
    apply (zl_listing reverse (fun a => zslValueGteMin (fst a) r) (fun a => zslValueLteMax (fst a) r) _ id _ l A D E); try done. apply zl_read_at, HS.
  - destruct (score_queries _ L r Hz Hmin Hmax) as [Hf Hl]. pose proof (zo_num _ _ Hz) as Hn.
    apply (zn_listing reverse (fun a => zslValueGteMin (fst a) r) (fun a => zslValueLteMax (fst a) r) (zn_read (zs_zsl zs)) id
      (fun e => if reverse then zslValueGteMin (fst e) r else zslValueLteMax (fst e) r) (zs_zsl zs) L (zslFirstInRange r) (zslLastInRange r)); try done.
    + by apply zn_read_at.
    + apply down_down_on; [done|]. intros a b Ha Hb. rewrite <- !below_min_gte by done. by apply down_below_min.
    + by apply down_down_on, down_lte.
Qed.

Lemma zrangebylex_ok reverse r offset limit v l : zrep v l -> set_ok l -> one_score l -> no_clash r = true ->
  zrangebylex_list reverse r offset limit v = Done (spec_page snd reverse offset limit (List.filter (in_lex r) l)).
Proof.
  intros Hrep HS H1 Hc. destruct Hrep as [l|zs L Hz Hd]; cbn [zrangebylex_list].
  - destruct (lex_range_ok l r (so_good _ HS) (so_sorted _ HS) H1 Hc) as (A & D & E & [EL HC Hin _ Hf Hl _]).
    change (fun a => zslLexValueGteMin (snd a) r && zslLexValueLteMax (snd a) r) with (in_lex r) in Hin. rewrite <- Hin.
    apply (zl_listing reverse (fun a => zslLexValueGteMin (snd a) r) (fun a => zslLexValueLteMax (snd a) r) _ snd _ l A D E); try done. apply zl_member_at.
  - destruct (lex_queries _ L r Hz H1 Hc) as [Hf Hl]. destruct (lex_down_on (map elt_of L) r (zo_num _ _ Hz) H1) as [D1 D2].
    apply (zn_listing reverse (fun a => zslLexValueGteMin (snd a) r) (fun a => zslLexValueLteMax (snd a) r) (zn_member (zs_zsl zs)) snd
      (fun x => if reverse then zslLexValueGteMin x r else zslLexValueLteMax x r) (zs_zsl zs) L (zslFirstInLexRange r) (zslLastInLexRange r)); try done. by apply zn_member_at.
Qed.

(** *** Counting *)
Lemma count_entries_ok {X} (g l : elt -> bool) (read : nat * nat -> outcome X) (f : elt -> X) (ok : X -> bool) L A D E first :
  reads_at L read f -> (forall a, ok (f a) = l a) -> L = A ++ D ++ E -> cut3 g l A D E -> first = Done (ptr A D) ->
  count_entries (pairs L) first read ok = Done (Z.of_nat (length D)).
Proof.
  intros Hread Hok EL [HA HD HE _] ->. unfold count_entries. rewrite bind_Done. destruct D as [|d D]; [done|]. cbn [ptr]. set (D' := d :: D) in *.
  destruct (zl_start false A D' E ltac:(done)) as (eptr & Ep & k & Ek & Hk). rewrite <- EL in Ek, Hk. apply (inj Some) in Ep. rewrite Ep, Ek, bind_Done.
  destruct (zl_at_cons false L read f Hread (Some k) d (D ++ E) Hk) as (i & k' & [= <-] & Hr & _). rewrite Hr, bind_Done, Hok.
  rewrite Forall_forall in HD. rewrite (proj2 (HD d ltac:(by left))). cbn [require_b]. rewrite bind_Done.
  rewrite (list_while_ok _ read f (zl_at false L) (zl_at_nil false L) (zl_at_cons false L read f Hread) ok _ _ _ (-1) Hk), bind_Done by (rewrite pairs_length, EL, !length_app; lia).
  rewrite (upto_limit_page f ok D' E (-1)); [cbn [Z.ltb Z.compare]; by rewrite length_map| |].
  - apply Forall_forall. intros a Ha. rewrite Hok. by apply HD.
  - intros e He. rewrite Hok. destruct E as [|e' E]; [done|]. injection He as ->. by apply Forall_inv in HE as [_ ?].
Qed.

Lemma spec_rank_at A a B : snd a ∉ map snd A -> spec_rank (snd a) (A ++ a :: B) = Z.of_nat (length A) + 1.
Proof.
  intros Hn. unfold spec_rank. rewrite list_find_app_r by (apply list_find_None, Forall_forall; intros b Hb E; apply Hn; rewrite <- E; by apply list_elem_of_fmap_2).
  cbn [list_find]. rewrite decide_True by done. cbn. lia.
Qed.

Lemma cell_rank z A c B : zsl_ok z (A ++ c :: B) -> zslGetRank (c_score c) (c_obj c) z = Done (Z.of_nat (length A) + 1, z).
Proof.
  intros Hz. pose proof (zo_objs _ _ Hz) as Hn. pose proof (zo_num _ _ Hz) as Hnum. rewrite Forall_forall in Hnum. rewrite (rank_ok z _ (c_score c) (c_obj c) Hz).
  - rewrite map_app. cbn [map]. change (c_obj c) with (snd (elt_of c)). rewrite spec_rank_at, length_map; [done|]. rewrite <- map_obj. rewrite map_app in Hn. apply NoDup_app in Hn as (_ & Hn & _).
    intros Hin. apply (Hn _ Hin). by left.
  - apply (Hnum (elt_of c)). apply list_elem_of_fmap_2, elem_of_app. right. by left.
  - intros d Hd Ho. assert (d = c) as ->.
    { apply list_elem_of_lookup in Hd as [i Hi]. assert (Hc : (A ++ c :: B) !! length A = Some c) by (by apply list_lookup_middle).
      assert (i = length A) as ->; [|congruence]. apply (NoDup_lookup (map c_obj (A ++ c :: B)) i (length A) (c_obj c) Hn); by rewrite list_lookup_fmap, ?Hi, ?Hc; cbn; rewrite ?Ho. }
    apply SFeqb_refl, (Hnum (elt_of c)), list_elem_of_fmap_2, elem_of_app. right. by left.
Qed.

Lemma count_nodes_ok z L A D E first last_ : zsl_ok z L -> Z.of_nat (length L) < 2 ^ 31 -> L = A ++ D ++ E -> first z = Done (c_addr <$> head D, z) -> last_ z = Done (c_addr <$> last D, z) ->
  count_nodes z first last_ = Done (Z.of_nat (length D)).
Proof.
  intros Hz Hsm EL Hf Hl. unfold count_nodes. rewrite Hf, bind_Done. cbn [fst]. destruct D as [|d D]; [done|]. cbn [head fmap option_fmap option_map].
  pose proof (rp_len _ _ (zo_rep _ _ Hz)) as Hlen. rewrite (zn_read_at z L Hz d) by (rewrite EL; apply elem_of_app; right; by left). rewrite bind_Done. cbn [id fst snd elt_of].
  pose proof Hz as Hz1. rewrite EL in Hz1. cbn [app] in Hz1. rewrite (cell_rank z A d (D ++ E) Hz1), bind_Done. cbn [fst]. rewrite Hl, bind_Done. cbn [fst].
  destruct (d :: D) as [|x X _] eqn:Ed using rev_ind; [done|]. rewrite last_snoc. cbn [fmap option_fmap option_map]. rewrite (zn_read_at z L Hz x) by (rewrite EL; apply elem_of_app; right; apply elem_of_app; left; apply elem_of_app; right; by left).
  rewrite bind_Done. cbn [id fst snd elt_of]. pose proof Hz as Hz2. rewrite EL in Hz2. replace (A ++ (X ++ [x]) ++ E) with ((A ++ X) ++ x :: E) in Hz2 by (by rewrite <- !app_assoc).
  rewrite (cell_rank z (A ++ X) x E Hz2), bind_Done. cbn [fst]. apply (f_equal length) in Ed. rewrite EL in *. rewrite !length_app in *. cbn [length] in *. rewrite Hlen.
  rewrite (to_u_small 64 (_ - 1)) by (unfold in_u; lia). rewrite (to_u_small 64 (_ - (Z.of_nat (length A + length X) + 1))) by (unfold in_u; lia).
  rewrite (to_u_small 64 (_ - (_ + 1 - 1))) by (unfold in_u; lia). rewrite (to_s_small 32 (_ - (_ + 1 - 1))) by (unfold in_s; lia). rewrite to_u_small by (unfold in_u; lia). rewrite to_s_small by (unfold in_s; lia). f_equal. lia.
Qed.

Lemma zcount_ok r v l : zrep v l -> set_ok l -> isnan (r_min r) = false -> isnan (r_max r) = false -> zcount r v = Done (Z.of_nat (length (List.filter (in_range r) l))).
Proof.
  intros Hrep HS Hmin Hmax. destruct Hrep as [l|zs L Hz Hd]; cbn [zcount].
  - destruct (score_range_ok l r (so_good _ HS) (so_sorted _ HS) Hmin Hmax) as (A & D & E & [EL HC Hin _ Hf Hl _]).
    change (fun a => zslValueGteMin (fst a) r && zslValueLteMax (fst a) r) with (in_range r) in Hin. rewrite <- Hin. eapply count_entries_ok; [apply zl_score_at, HS|done|exact EL|exact HC|exact Hf].
  - destruct (score_queries _ L r Hz Hmin Hmax) as [Hf Hl]. pose proof (zo_num _ _ Hz) as Hn.
    destruct (cells_cut (fun a => zslValueGteMin (fst a) r) (fun a => zslValueLteMax (fst a) r) L (zo_sorted _ _ Hz)) as (A & D & E & EL & _ & Hin).
    + apply down_down_on; [done|]. intros a b Ha Hb. rewrite <- !below_min_gte by done. by apply down_below_min.
    + by apply down_down_on, down_lte.
    + rewrite <- (map_filter_elt (in_range r)), length_map. change (List.filter (fun c => in_range r (elt_of c)) L = D) in Hin. rewrite Hin in *.
      pose proof (so_small _ HS) as Hsm. rewrite length_map in Hsm. apply (count_nodes_ok _ L A D E); try done. lia.
Qed.

Lemma zlexcount_ok r v l : zrep v l -> set_ok l -> one_score l -> no_clash r = true -> zlexcount r v = Done (Z.of_nat (length (List.filter (in_lex r) l))).
Proof.
  intros Hrep HS H1 Hc. destruct Hrep as [l|zs L Hz Hd]; cbn [zlexcount].
  - destruct (lex_range_ok l r (so_good _ HS) (so_sorted _ HS) H1 Hc) as (A & D & E & [EL HC Hin _ Hf Hl _]).
    change (fun a => zslLexValueGteMin (snd a) r && zslLexValueLteMax (snd a) r) with (in_lex r) in Hin. rewrite <- Hin. eapply count_entries_ok; [apply zl_member_at|done|exact EL|exact HC|exact Hf].
  - destruct (lex_queries _ L r Hz H1 Hc) as [Hf Hl]. destruct (lex_down_on (map elt_of L) r (zo_num _ _ Hz) H1) as [D1 D2].
    destruct (cells_cut (fun a => zslLexValueGteMin (snd a) r) (fun a => zslLexValueLteMax (snd a) r) L (zo_sorted _ _ Hz) D1 D2) as (A & D & E & EL & _ & Hin).
    rewrite <- (map_filter_elt (in_lex r)), length_map. change (List.filter (fun c => in_lex r (elt_of c)) L = D) in Hin. rewrite Hin in *.
    pose proof (so_small _ HS) as Hsm. rewrite length_map in Hsm. apply (count_nodes_ok _ L A D E); try done. lia.
Qed.

(** *** Ranks *)
Lemma zsetLength_ok v l : zrep v l -> set_ok l -> zsetLength v = Z.of_nat (length l).
Proof.
  intros Hrep HS. pose proof (so_small _ HS) as Hsm. destruct Hrep as [l|zs L Hz Hd]; cbn [zsetLength].
  - rewrite zzlLength_ok, to_s_small, to_u_small by (unfold in_s, in_u; lia). done.
  - rewrite length_map in *. rewrite (rp_len _ _ (zo_rep _ _ Hz)), to_s_small, to_u_small by (unfold in_s, in_u; lia). done.
Qed.

Definition spec_rank_of (ele : sds) (l : list elt) : option Z := (fun p => Z.of_nat (fst p) + 1) <$> list_find (fun a => snd a = ele) l.

Lemma rank_loop_ok ele B : forall A fuel, (length B < fuel)%nat ->
  rank_loop (pairs (A ++ B)) ele fuel (cursor A B) (Z.of_nat (length A) + 1) = Done ((fun p => Z.of_nat (length A + fst p) + 1) <$> list_find (fun a => snd a = ele) B).
Proof.
  induction B as [|b B IH]; intros A fuel Hf; (destruct fuel as [|fuel]; [lia|]); [done|]. cbn [rank_loop fst snd]. rewrite get_member, bind_Done. cbn [list_find]. case_bool_decide as E.
  - rewrite decide_True by done. cbn. do 2 f_equal. lia.
  - rewrite decide_False by done. rewrite zzlNext_ok, bind_Done. pose proof (IH (A ++ [b]) fuel ltac:(cbn in Hf; lia)) as H. rewrite <- app_assoc in H. cbn [app] in H.
    replace (Z.of_nat (length A) + 1 + 1) with (Z.of_nat (length (A ++ [b])) + 1) by (rewrite length_app; cbn; lia). rewrite H, length_app. cbn [length].
    destruct (list_find _ B) as [[i x]|]; cbn; [|done]. do 2 f_equal. lia.
Qed.

Lemma rank_of_ok ele v l : zrep v l -> set_ok l -> l <> [] -> rank_of ele v = Done (spec_rank_of ele l).
Proof.
  intros Hrep HS Hne. destruct Hrep as [l|zs L Hz Hd]; cbn [rank_of].
  - rewrite index_0. destruct l as [|a l]; [done|]. cbn [ptr expect]. rewrite bind_Done. unfold zl_cursor. pose proof (next_elt [] a l) as En. cbn [app] in En. rewrite En. cbn [expect]. rewrite !bind_Done.
    apply (rank_loop_ok ele (a :: l) []). rewrite pairs_length. lia.
  - destruct (zs_find_ok zs L ele Hz Hd) as (f & Ef & Em). rewrite Ef, bind_Done. unfold spec_rank_of. pose proof (find_split (map elt_of L) ele) as Hf. unfold member_score in Em.
    destruct (list_find _ (map elt_of L)) as [[i a]|]; destruct f as [[p sc]|]; try done. cbn in Em. injection Em as ->. destruct Hf as (A & B & EL & <- & <- & _).
    apply map_eq_app in EL as (A' & R & -> & <- & EL). destruct R as [|c B']; [done|]. cbn in EL. injection EL as <- <-. cbn [elt_of fst snd] in *.
    rewrite (cell_rank _ A' c B' Hz), bind_Done. cbn [fst]. rewrite (proj2 (Z.eqb_neq _ 0)) by lia. cbn [negb require_b]. rewrite bind_Done. cbn. by rewrite length_map.
Qed.

Lemma zrank_ok reverse ele v l : zrep v l -> set_ok l -> l <> [] ->
  zrank reverse ele v = Done (option_map (fun rank => if reverse then Z.of_nat (length l) - rank else rank - 1) (spec_rank_of ele l)).
Proof.
  intros Hrep HS Hne. unfold zrank. rewrite (rank_of_ok ele v l Hrep HS Hne), bind_Done, (zsetLength_ok v l Hrep HS). f_equal. pose proof (so_small _ HS) as Hsm.
  unfold spec_rank_of. destruct (list_find _ l) as [[i a]|] eqn:E; cbn; [|done]. f_equal. destruct reverse; [|done]. apply list_find_Some in E as (Hi & _). apply lookup_lt_Some in Hi.
  rewrite to_s_small by (unfold in_s; lia). done.
Qed.

(** *** By rank *)
Lemma index_at A a B : 2 * Z.of_nat (length (A ++ a :: B)) < 2 ^ 31 ->
  ziplistIndex (pairs (A ++ a :: B)) (to_s 32 (2 * Z.of_nat (length A))) = Some (2 * length A)%nat /\
  ziplistIndex (pairs (A ++ a :: B)) (to_s 32 (-2 - 2 * Z.of_nat (length B))) = Some (2 * length A)%nat.
Proof.
  rewrite length_app. cbn [length]. intros H. rewrite !to_s_small by (unfold in_s; lia). unfold ziplistIndex, TList.list_index. rewrite pairs_length, length_app. cbn [length].
  rewrite (proj2 (Z.ltb_ge (2 * _) 0)), (proj2 (Z.ltb_lt (-2 - _) 0)) by lia. rewrite !(proj2 (Z.leb_le 0 _)), !(proj2 (Z.ltb_lt _ _)) by lia. cbn [andb]. split; f_equal; lia.
Qed.

Definition spec_range (reverse : bool) (start rangelen : Z) (l : list elt) : list elt := take (Z.to_nat rangelen) (drop (Z.to_nat start) (if reverse then rev l else l)).

(** The element of a rank, counted from either end. *)
Lemma split_rank {X} (reverse : bool) start (l : list X) : 0 <= start < Z.of_nat (length l) ->
  exists A a B, l = A ++ a :: B /\ start = Z.of_nat (length (if reverse then B else A)) /\ drop (Z.to_nat start) (if reverse then rev l else l) = if reverse then a :: rev A else a :: B.
Proof.
  intros H. destruct (lookup_lt_is_Some_2 l (if reverse then length l - 1 - Z.to_nat start else Z.to_nat start)%nat) as [a Ha]; [destruct reverse; lia|].
  apply list_elem_of_split_length in Ha as (A & B & -> & HA). exists A, a, B. split; [done|]. rewrite length_app in *. cbn [length] in *. destruct reverse.
  - split; [lia|]. rewrite rev_app_distr. cbn. rewrite <- app_assoc. cbn. replace (Z.to_nat start) with (length (rev B)) by (rewrite length_rev; lia). by rewrite drop_app_length.
  - split; [lia|]. rewrite HA. by rewrite drop_app_length.
Qed.

Lemma zrange_zl_ok reverse start rangelen l : set_ok l -> 0 <= start -> start < Z.of_nat (length l) -> 0 <= rangelen -> start + rangelen <= Z.of_nat (length l) ->
  zrange_list reverse start rangelen (ZZl (pairs l)) = Done (spec_range reverse start rangelen l).
Proof.
  intros HS H0 Hs Hr0 Hlen. pose proof (so_small _ HS) as Hsm. cbn [zrange_list].
  destruct (split_rank reverse start l ltac:(lia)) as (A & a & B & EL & Es & Ed). unfold spec_range. rewrite Ed. rewrite EL in Hsm. destruct (index_at A a B Hsm) as [I1 I2].
  replace (ziplistIndex (pairs l) (to_s 32 (if reverse then -2 - 2 * start else 2 * start))) with (Some (2 * length A)%nat) by (rewrite EL, Es; destruct reverse; [by rewrite I2|by rewrite I1]).
  cbn [expect]. rewrite bind_Done. unfold zl_cursor. rewrite EL, next_elt, <- EL. cbn [expect]. rewrite !bind_Done.
  rewrite (list_n_ok _ (zl_read (pairs l)) id (zl_at reverse l) (zl_at_cons reverse l _ id (zl_read_at l (so_good _ HS))) (Z.to_nat rangelen) _ (if reverse then a :: rev A else a :: B)); [by rewrite map_id| |].
  - destruct reverse; cbn [zl_at].
    + exists (A ++ [a]), B. rewrite <- app_assoc, rev_app_distr, endptr_snoc. done.
    + by exists A.
  - rewrite EL, length_app in Hlen. cbn in Hlen. destruct reverse; cbn [length]; rewrite ?length_rev; lia.
Qed.

(** The node that ZRANGE starts from. *)
Lemma zrange_start (reverse : bool) start zs L A c B : zsl_ok (zs_zsl zs) L -> zs_dict zs = dict_of L -> set_ok (map elt_of L) -> 0 <= start -> L = A ++ c :: B ->
  start = Z.of_nat (length (if reverse then B else A)) ->
  (if start >? 0 then zslGetElementByRank (if reverse then zsetLength (ZSk zs) - start else start + 1) (zs_zsl zs)
   else Done (if reverse then zsl_tail (zs_zsl zs) else c_addr <$> head L, zs_zsl zs)) = Done (Some (c_addr c), zs_zsl zs).
Proof.
  intros Hz Hd HS H0 EL Es. rewrite (zsetLength_ok _ _ (rep_sk zs L Hz Hd) HS), length_map. pose proof (zo_rep _ _ Hz) as Hr. destruct (Z.gtb_spec start 0) as [Hgt|Hle].
  - assert (Hrk : (if reverse then Z.of_nat (length L) - start else start + 1) = Z.of_nat (S (length A))).
    { rewrite EL, length_app in *. cbn [length] in *. destruct reverse; lia. }
    rewrite Hrk, (by_rank_ok _ L _ Hz) by lia. rewrite (proj2 (Z.ltb_ge _ _)) by (rewrite EL, length_app; cbn; lia). rewrite Nat2Z.id. do 3 f_equal.
    rewrite EL. replace (S (length A)) with (length (A ++ [c])) by (rewrite length_app; cbn; lia). replace (A ++ c :: B) with ((A ++ [c]) ++ B) by (by rewrite <- app_assoc).
    by rewrite take_app_length, here_snoc.
  - assert (Es0 : length (if reverse then B else A) = 0%nat) by lia. apply nil_length_inv in Es0. do 2 f_equal. destruct reverse; subst; [|done].
    by rewrite (rp_tail _ _ Hr), back_last, last_snoc.
Qed.

Lemma zrange_sk_ok reverse start rangelen zs L : zsl_ok (zs_zsl zs) L -> zs_dict zs = dict_of L -> set_ok (map elt_of L) -> 0 <= start -> start < Z.of_nat (length L) -> 0 <= rangelen ->
  start + rangelen <= Z.of_nat (length L) -> zrange_list reverse start rangelen (ZSk zs) = Done (spec_range reverse start rangelen (map elt_of L)).
Proof.
  intros Hz Hd HS H0 Hs Hr0 Hlen. cbn [zrange_list]. destruct (split_rank reverse start L ltac:(lia)) as (A & c & B & EL & Es & Ed). pose proof (zo_rep _ _ Hz) as Hr.
  pose proof (zrange_start reverse start zs L A c B Hz Hd HS H0 EL Es) as Hst. set (z := zs_zsl zs) in *.
  destruct (meta_node _ _ _ (rp_head _ _ Hr)) as (h & Hh & _). rewrite Hh. cbn [expect]. rewrite bind_Done. pose proof (entry_0 z [] L Hr) as He. cbn in He. unfold entry in He. rewrite Hh in He. cbn in He.
  unfold level_at at 1. rewrite He. cbn [expect]. rewrite bind_Done, (lv_0 _ _ (rp_heights _ _ Hr)), Hst, bind_Done. cbn [fst].
  assert (Ed' : drop (Z.to_nat start) (if reverse then rev (map elt_of L) else map elt_of L) = map elt_of (if reverse then c :: rev A else c :: B)).
  { replace (if reverse then rev (map elt_of L) else map elt_of L) with (map elt_of (if reverse then rev L else L)) by (destruct reverse; [by rewrite map_rev|done]).
    change (drop (Z.to_nat start) (elt_of <$> (if reverse then rev L else L)) = map elt_of (if reverse then c :: rev A else c :: B)). rewrite <- fmap_drop, Ed. by destruct reverse. }
  unfold spec_range. rewrite Ed'. rewrite (list_n_ok _ (zn_read z) id (zn_at reverse L) (zn_at_cons reverse z L _ id Hz (zn_read_at z L Hz)) (Z.to_nat rangelen) _ (map elt_of (if reverse then c :: rev A else c :: B))); [by rewrite map_id| |].
  - destruct reverse; cbn [zn_at].
    + exists (A ++ [c]), B. rewrite <- app_assoc, last_snoc, map_app, rev_app_distr, map_cons, map_rev. done.
    + by exists A, (c :: B).
  - rewrite length_map, EL, length_app in *. cbn in Hlen. destruct reverse; cbn [length]; rewrite ?length_rev; lia.
Qed.

Lemma zrange_ok reverse start rangelen v l : zrep v l -> set_ok l -> 0 <= start -> start < Z.of_nat (length l) -> 0 <= rangelen -> start + rangelen <= Z.of_nat (length l) ->
  zrange_list reverse start rangelen v = Done (spec_range reverse start rangelen l).
Proof. intros [l'|zs L Hz Hd] HS H0 Hs Hr0 Hlen; [by apply zrange_zl_ok|]. rewrite length_map in *. by apply zrange_sk_ok. Qed.

(** ** Refinement *)
Inductive zset_op :=
| OpAdd (incr : bool) (ele : sds) (sc : spec_float)
| OpRem (ele : sds)
| OpRemRange (t : zrange_type)
| OpConvert (encoding : oenc)
| OpScore (ele : sds)
| OpLength
| OpRank (reverse : bool) (ele : sds)
| OpCount (r : zrangespec)
| OpLexCount (r : zlexrangespec)
| OpRange (reverse : bool) (start rangelen : Z)
| OpByScore (reverse : bool) (r : zrangespec) (offset limit : Z)
| OpByLex (reverse : bool) (r : zlexrangespec) (offset limit : Z).
Inductive zset_out :=
| RAdd (r : zadd_result * spec_float) | RRem (r : bool * bool) | RRemRange (r : Z * bool) | RUnit | RScore (r : option spec_float) | RNum (n : Z) | RRank (r : option Z)
| RElts (l : list elt) | RPage (l : option (list elt)) | RMembers (l : option (list sds)).

(** A query of the value. *)
Definition ask {A} (f : zval -> outcome A) : ZP A := v ← value; lift (f v).

Definition zset_step (me mv : Z) (op : zset_op) : ZP zset_out :=
  match op with
  | OpAdd incr ele sc => r ← zadd_elem me mv incr ele sc; mret (RAdd r)
  | OpRem ele => r ← zrem_elem ele; mret (RRem r)
  | OpRemRange t => r ← zremrange t; mret (RRemRange r)
  | OpConvert encoding => _ ← zsetConvert encoding; mret RUnit
  | OpScore ele => r ← zset_score ele; mret (RScore r)
  | OpLength => n ← ask (fun v => Done (zsetLength v)); mret (RNum n)
  | OpRank reverse ele => r ← ask (zrank reverse ele); mret (RRank r)
  | OpCount r => n ← ask (zcount r); mret (RNum n)
  | OpLexCount r => n ← ask (zlexcount r); mret (RNum n)
  | OpRange reverse start rangelen => l ← ask (zrange_list reverse start rangelen); mret (RElts l)
  | OpByScore reverse r offset limit => l ← ask (zrangebyscore_list reverse r offset limit); mret (RPage l)
  | OpByLex reverse r offset limit => l ← ask (zrangebylex_list reverse r offset limit); mret (RMembers l)
  end.
Fixpoint zset_run (me mv : Z) (ops : list zset_op) : ZP (list zset_out) :=
  match ops with [] => mret [] | op :: ops' => r ← zset_step me mv op; rs ← zset_run me mv ops'; mret (r :: rs) end.

(** The sorted list. *)
Definition zset_spec (op : zset_op) (l : list elt) : zset_out * list elt :=
  match op with
  | OpAdd incr ele sc => (RAdd (fst (spec_add incr ele sc l)), snd (spec_add incr ele sc l))
  | OpRem ele => (RRem (fst (spec_rem ele l)), snd (spec_rem ele l))
  | OpRemRange t => (RRemRange (Z.of_nat (length (spec_inside t l)), is_nil (spec_outside t l)), spec_outside t l)
  | OpConvert _ => (RUnit, l)
  | OpScore ele => (RScore (member_score ele l), l)
  | OpLength => (RNum (Z.of_nat (length l)), l)
  | OpRank reverse ele => (RRank (option_map (fun rank => if reverse then Z.of_nat (length l) - rank else rank - 1) (spec_rank_of ele l)), l)
  | OpCount r => (RNum (Z.of_nat (length (List.filter (in_range r) l))), l)
  | OpLexCount r => (RNum (Z.of_nat (length (List.filter (in_lex r) l))), l)
  | OpRange reverse start rangelen => (RElts (spec_range reverse start rangelen l), l)
  | OpByScore reverse r offset limit => (RPage (spec_page id reverse offset limit (List.filter (in_range r) l)), l)
  | OpByLex reverse r offset limit => (RMembers (spec_page snd reverse offset limit (List.filter (in_lex r) l)), l)
  end.
Fixpoint zset_spec_run (ops : list zset_op) (l : list elt) : list zset_out * list elt :=
  match ops with
  | [] => ([], l)
  | op :: ops' => let (r, l1) := zset_spec op l in let (rs, l2) := zset_spec_run ops' l1 in (r :: rs, l2)
  end.

(** What the commands see to. *)
Definition one_score_b (l : list elt) : bool := forallb (fun a => forallb (fun b => SFeqb (fst a) (fst b)) l) l.
Definition numbers (r : zrangespec) : bool := negb (isnan (r_min r)) && negb (isnan (r_max r)).
Definition lex_ok (r : zlexrangespec) (l : list elt) : bool := one_score_b l && no_clash r.
Definition op_ok (op : zset_op) (l : list elt) : bool :=
  let n := Z.of_nat (length l) in
  match op with
  | OpAdd _ _ sc => Double.valid sc && negb (isnan sc) && (2 * n + 2 <? 2 ^ 31)
  | OpRemRange (ZRANGE_RANK start end_) => (0 <=? start) && (start <=? end_) && (end_ <? n)
  | OpRemRange (ZRANGE_SCORE r) | OpCount r | OpByScore _ r _ _ => numbers r
  | OpRemRange (ZRANGE_LEX r) | OpLexCount r | OpByLex _ r _ _ => lex_ok r l
  | OpConvert encoding => match encoding with ENC_SKIPLIST => negb (is_nil l) | ENC_ZIPLIST => true | _ => false end
  | OpRank _ _ => negb (is_nil l)
  | OpRange _ start rangelen => (0 <=? start) && (start <? n) && (0 <=? rangelen) && (start + rangelen <=? n)
  | OpRem _ | OpScore _ | OpLength => true
  end.
(** How many random levels an operation may draw. *)
Definition op_cost (op : zset_op) (l : list elt) : nat := match op with OpAdd _ _ _ => S (length l) | OpConvert _ => length l | _ => 0 end.
Fixpoint ops_ok (ops : list zset_op) (l : list elt) : bool :=
  match ops with [] => true | op :: ops' => op_ok op l && ops_ok ops' (snd (zset_spec op l)) end.
Fixpoint ops_cost (ops : list zset_op) (l : list elt) : nat :=
  match ops with [] => 0 | op :: ops' => op_cost op l + ops_cost ops' (snd (zset_spec op l)) end.

Lemma one_score_ok l : one_score_b l = true -> one_score l.
Proof. intros H a b Ha Hb. unfold one_score_b in H. rewrite forallb_forall in H. apply list_elem_of_In in Ha, Hb. specialize (H a Ha). rewrite forallb_forall in H. by apply H. Qed.
Lemma lex_ok_props r l : lex_ok r l = true -> one_score l /\ no_clash r = true.
Proof. intros [H1 H2]%andb_true_iff. split; [by apply one_score_ok|done]. Qed.
Lemma numbers_props r : numbers r = true -> isnan (r_min r) = false /\ isnan (r_max r) = false.
Proof. intros [H1%negb_true_iff H2%negb_true_iff]%andb_true_iff. done. Qed.
Lemma not_nil {X} (l : list X) : negb (is_nil l) = true -> l <> [].
Proof. by intros H ->. Qed.

Lemma range_ok_props t l : op_ok (OpRemRange t) l = true -> range_ok t l.
Proof.
  destruct t as [start end_|r|r]; cbn [op_ok range_ok]; intros H; [|by apply numbers_props|by apply lex_ok_props].
  apply andb_true_iff in H as [H H3%Z.ltb_lt]. apply andb_true_iff in H as [H1%Z.leb_le H2%Z.leb_le]. lia.
Qed.

Lemma set_ok_outside t l : set_ok l -> range_ok t l -> set_ok (spec_outside t l).
Proof.
  intros HS Ht. destruct t as [start end_|r|r]; cbn [spec_outside]; [|by apply set_ok_filter|by apply set_ok_filter]. destruct Ht as [Ht _].
  replace (Z.to_nat (end_ + 1)) with (Z.to_nat start + Z.to_nat (end_ + 1 - start))%nat by lia. rewrite <- drop_drop. set (a := Z.to_nat start). set (b := Z.to_nat (end_ + 1 - start)).
  destruct HS as [Hg Hs Hn Hm]. assert (El : l = take a l ++ take b (drop a l) ++ drop b (drop a l)) by (by rewrite (take_drop b), take_drop).
  set (A := take a l) in *. set (D := take b (drop a l)) in *. set (E := drop b (drop a l)) in *. clearbody A D E. subst l. rewrite !map_app, !Forall_app, !length_app in *. split.
  - apply Forall_app. tauto.
  - apply sorted_app in Hs as (H1 & H2 & H3). apply sorted_app in H2 as (_ & H4 & _). apply sorted_app. split; [done|]. split; [done|]. intros x y Hx Hy. apply H3; [done|]. apply elem_of_app. by right.
  - rewrite map_app. apply NoDup_app in Hn as (H1 & H2 & H3). apply NoDup_app in H3 as (_ & _ & H4). apply NoDup_app. split; [done|]. split; [|done]. intros x Hx Hy. apply (H2 x Hx), elem_of_app. by right.
  - rewrite length_app. lia.
Qed.

Lemma spec_keeps_ok op l : set_ok l -> op_ok op l = true -> set_ok (snd (zset_spec op l)).
Proof.
  intros HS Hop. destruct op as [incr ele sc|ele|t|enc|ele| |reverse ele|r|r|reverse start rangelen|reverse r offset limit|reverse r offset limit]; cbn [zset_spec snd]; try done.
  - cbn in Hop. apply andb_true_iff in Hop as [Hop H3%Z.ltb_lt]. apply andb_true_iff in Hop as [H1 H2%negb_true_iff]. by apply spec_add_ok.
  - unfold spec_rem. destruct (member_score ele l); [by apply set_ok_filter|done].
  - apply set_ok_outside; [done|by apply range_ok_props].
Qed.

(** A query leaves the value alone. *)
Lemma ask_ok {A} (f : zval -> outcome A) v rs a : f v = Done a -> ask f (v, rs) = Done (a, (v, rs)).
Proof. intros E. unfold ask, value. rewrite bind_gets. cbn [fst]. by rewrite E. Qed.

Lemma convert_ok enc v l rs : zrep v l -> set_ok l -> op_ok (OpConvert enc) l = true -> (length l <= levels rs)%nat ->
  exists v' rs', zsetConvert enc (v, rs) = Done (tt, (v', rs')) /\ zrep v' l /\ (levels rs <= levels rs' + length l)%nat.
Proof.
  intros Hr HS Hop Hrs. destruct enc; try done; cbn in Hop.
  - destruct Hr as [l|zs L Hz Hd]; [exists (ZZl (pairs l)), rs; split; [done|]; split; [constructor|lia]|].
    rewrite (convert_ziplist_ok zs _ rs (rep_sk zs L Hz Hd)). eexists _, rs. split; [done|]. split; [constructor|lia].
  - destruct Hr as [l|zs L Hz Hd]; [|exists (ZSk zs), rs; split; [done|]; split; [by constructor|lia]].
    destruct (convert_skiplist_ok l rs HS (not_nil _ Hop) Hrs) as (zs & rs' & E & Hrep & Hl). exists (ZSk zs), rs'. split; [done|]. split; [done|lia].
Qed.

Lemma zset_step_refines me mv op v l rs : zrep v l -> set_ok l -> op_ok op l = true -> (op_cost op l <= levels rs)%nat ->
  exists v' rs', zset_step me mv op (v, rs) = Done (fst (zset_spec op l), (v', rs')) /\ zrep v' (snd (zset_spec op l)) /\ (levels rs <= levels rs' + op_cost op l)%nat.
Proof.
  intros Hr HS Hop Hrs. destruct op as [incr ele sc|ele|t|enc|ele| |reverse ele|r|r|reverse start rangelen|reverse r offset limit|reverse r offset limit];
    cbn [zset_step zset_spec fst snd op_cost] in *.
  - cbn in Hop. apply andb_true_iff in Hop as [Hop H3%Z.ltb_lt]. apply andb_true_iff in Hop as [H1 H2%negb_true_iff].
    destruct (zadd_elem_ok me mv incr ele sc v l rs Hr HS (conj H1 H2) H3 Hrs) as (v' & rs' & E & Hrep & Hl). exists v', rs'. by rewrite (prog_bind_step _ _ _ _ _ E).
  - destruct (zrem_elem_ok ele v l rs Hr HS) as (v' & E & Hrep). exists v', rs. rewrite (prog_bind_step _ _ _ _ _ E). split; [done|]. split; [done|lia].
  - destruct (zremrange_ok t v l rs Hr HS (range_ok_props _ _ Hop)) as (v' & E & Hrep). exists v', rs. rewrite (prog_bind_step _ _ _ _ _ E). split; [done|]. split; [done|lia].
  - destruct (convert_ok enc v l rs Hr HS Hop Hrs) as (v' & rs' & E & Hrep & Hl). exists v', rs'. by rewrite (prog_bind_step _ _ _ _ _ E).
  - exists v, rs. rewrite (prog_bind_step _ _ _ _ _ (zset_score_ok v l ele rs Hr HS)). split; [done|]. split; [done|lia].
  - exists v, rs. rewrite (prog_bind_step _ _ _ _ _ (ask_ok (fun v => Done (zsetLength v)) v rs _ eq_refl)), (zsetLength_ok v l Hr HS). split; [done|]. split; [done|lia].
  - exists v, rs. rewrite (prog_bind_step _ _ _ _ _ (ask_ok _ v rs _ (zrank_ok reverse ele v l Hr HS (not_nil _ Hop)))). split; [done|]. split; [done|lia].
  - destruct (numbers_props r Hop). exists v, rs. rewrite (prog_bind_step _ _ _ _ _ (ask_ok _ v rs _ (zcount_ok r v l Hr HS ltac:(done) ltac:(done)))). split; [done|]. split; [done|lia].
  - destruct (lex_ok_props r l Hop). exists v, rs. rewrite (prog_bind_step _ _ _ _ _ (ask_ok _ v rs _ (zlexcount_ok r v l Hr HS ltac:(done) ltac:(done)))). split; [done|]. split; [done|lia].
  - cbn in Hop. apply andb_true_iff in Hop as [Hop H4%Z.leb_le]. apply andb_true_iff in Hop as [Hop H3%Z.leb_le]. apply andb_true_iff in Hop as [H1%Z.leb_le H2%Z.ltb_lt].
    exists v, rs. rewrite (prog_bind_step _ _ _ _ _ (ask_ok _ v rs _ (zrange_ok reverse start rangelen v l Hr HS H1 H2 H3 H4))). split; [done|]. split; [done|lia].
  - destruct (numbers_props r Hop). exists v, rs. rewrite (prog_bind_step _ _ _ _ _ (ask_ok _ v rs _ (zrangebyscore_ok reverse r offset limit v l Hr HS ltac:(done) ltac:(done)))). split; [done|]. split; [done|lia].
  - destruct (lex_ok_props r l Hop). exists v, rs. rewrite (prog_bind_step _ _ _ _ _ (ask_ok _ v rs _ (zrangebylex_ok reverse r offset limit v l Hr HS ltac:(done) ltac:(done)))). split; [done|]. split; [done|lia].
Qed.

Lemma zset_run_refines me mv ops : forall v l rs, zrep v l -> set_ok l -> ops_ok ops l = true -> (ops_cost ops l <= levels rs)%nat ->
  exists v' rs', zset_run me mv ops (v, rs) = Done (fst (zset_spec_run ops l), (v', rs')) /\ zrep v' (snd (zset_spec_run ops l)) /\ set_ok (snd (zset_spec_run ops l)).
Proof.
  induction ops as [|op ops IH]; intros v l rs Hr HS Hok Hrs; [by exists v, rs|]. cbn in Hok, Hrs. apply andb_true_iff in Hok as [Hop Hok].
  destruct (zset_step_refines me mv op v l rs Hr HS Hop ltac:(lia)) as (v1 & rs1 & E1 & Hr1 & Hl1). cbn [zset_run zset_spec_run]. rewrite (prog_bind_step _ _ _ _ _ E1).
  destruct (IH v1 _ rs1 Hr1 (spec_keeps_ok op l HS Hop) Hok ltac:(lia)) as (v2 & rs2 & E2 & Hr2 & HS2). rewrite (prog_bind_step _ _ _ _ _ E2). exists v2, rs2.
  destruct (zset_spec op l) as [r l1]. cbn [fst snd] in *. by destruct (zset_spec_run ops l1) as [rr l2].
Qed.

(** C18: the sorted-set type of t_zset.c refines a sorted list in both of its encodings.
    Whatever value stands for a sorted list [l], and with any ziplist limits and random
    levels, every sequence of operations (ZADD and ZINCRBY with the conversion of a
    ziplist that grows too large, ZREM, the three range deletions, zsetConvert in both
    directions, and the queries by member, rank, score range and lexicographic range,
    forwards and backwards, with offset and limit) runs without a fault, answers what the
    list answers, and ends in a value that stands for the resulting list.  So the encoding
    is not observable by these operations, under the conditions [ops_ok] on each operation
    where it is run: scores and the bounds of score ranges are no NaN; the set has fewer
    than 2^30 - 1 members; ranks are within the set, as the commands make them, and an
    operation on ranks or a conversion to a skiplist meets a set that is not empty; and a
    lexicographic operation meets a set whose scores are all equal, with no bound that is
    written like the sentinels minstring and maxstring (for such a bound the answer is
    wrong, t_zset.c:1041: minstring_range_is_empty). *)
Theorem zset_refines (me mv : Z) (ops : list zset_op) (v : zval) (l : list elt) (rs : list Z) :
  zrep v l -> set_ok l -> ops_ok ops l = true -> (ops_cost ops l <= levels rs)%nat ->
  exists v' rs', zset_run me mv ops (v, rs) = Done (fst (zset_spec_run ops l), (v', rs')) /\ zrep v' (snd (zset_spec_run ops l)) /\ set_ok (snd (zset_spec_run ops l)).
Proof. apply zset_run_refines. Qed.

Definition half : spec_float := S754_finite false 4503599627370496 (-53).
Definition one : spec_float := S754_finite false 4503599627370496 (-52).
Definition demo_ops : list zset_op :=
  [OpAdd false (str "b") one; OpAdd false (str "a") half; OpAdd true (str "a") half; OpAdd false (str "c") (S754_infinity true); OpRange true 0 3;
   OpRank true (str "a"); OpByScore false (mkRange half (S754_infinity false) true false) 1 (-1); OpConvert ENC_ZIPLIST; OpScore (str "c");
   OpRemRange (ZRANGE_SCORE (mkRange half one true false)); OpRem (str "c"); OpLength].

Lemma empty_ok : set_ok [].
Proof. split; [constructor|constructor|constructor|cbn; lia]. Qed.

(** With at most two entries in a ziplist the third ZADD converts. *)
Lemma zset_refines_witness : ops_ok demo_ops [] = true /\ exists v' rs', zset_run 2 64 demo_ops (ZZl [], repeat 65535 20) =
  Done ([RAdd (Added, one); RAdd (Added, half); RAdd (Updated, one); RAdd (Added, S754_infinity true); RElts [(one, str "b"); (one, str "a"); (S754_infinity true, str "c")];
    RRank (Some 1); RPage (Some [(one, str "b")]); RUnit; RScore (Some (S754_infinity true)); RRemRange (2, false); RRem (true, true); RNum 0], (v', rs')).
Proof.
  split; [vm_compute; reflexivity|]. destruct (zset_refines 2 64 demo_ops (ZZl []) [] (repeat 65535 20)) as (v' & rs' & E & _).
  - exact (rep_zl []).
  - exact empty_ok.
  - vm_compute. reflexivity.
  - vm_compute. lia.
  - exists v', rs'. rewrite E. vm_compute. reflexivity.
Defined.
End ZSetSpec.
