(* ===== verification/TZset.v ===== *)
(** * t_zset.c: the commands on sorted sets

    The commands look up the key, parse their arguments and reply; what they do to the
    value is in ZSet.v.  ZUNIONSTORE, ZINTERSTORE and ZSCAN are left out.  A score set
    with ZADD comes back from ZSCORE: [zadd_zscore]. *)
From S2P Require Import Prelude CStr Intset Util Double ZSkip Server Object Db TString TList ZSkipSpec ZZip ZSet ZSetSpec.
Import Object Db TString TList ZSkip ZSkipSpec ZZip ZSet ZSetSpec.

Module TZset.

(** ** Values *)
Definition zval_of (o : robj) : outcome zval :=
  match o_encoding o, o_ptr o with
  | ENC_ZIPLIST, PZiplist zl => Done (ZZl zl)
  | ENC_SKIPLIST, PZset zs => Done (ZSk zs)
  | _, _ => Fault Panic
  end.
Definition put_zval (v : zval) (o : robj) : robj :=
  match v with
  | ZZl zl => set_o_ptr (PZiplist zl) (set_o_encoding ENC_ZIPLIST o)
  | ZSk zs => set_o_ptr (PZset zs) (set_o_encoding ENC_SKIPLIST o)
  end.
(** An operation on the value of an object. *)
Definition on_zobj {A} (a : addr) (m : ZP A) : M A := fun s =>
  match heap s !! a with
  | None => Fault Dangling
  | Some o =>
    v ← zval_of o;
    r ← m (v, rnd s);
    Done (fst r, set_rnd (snd (snd r)) (set_heap (<[a := put_zval (fst (snd r)) o]> (heap s)) s))
  end.
Definition ask_zobj {A} (a : addr) (f : zval -> outcome A) : M A :=
  o ← deref a; lift (v ← zval_of o; f v).

(** ** Arguments and replies *)
(** The format %.17g of a double that is finite. *)
Definition fmt_double (d : Double.double) : sds :=
  match d with
  | S754_finite s m e => Double.fmt_g17 s m e
  | S754_zero s => if s then str "-0" else str "0"
  | S754_infinity s => if s then str "-inf" else str "inf"
  | S754_nan => str "nan"
  end.
Definition addReplyDouble (c : client) (d : Double.double) : client := add_reply (RBulk (fmt_double d)) c.

(** [None] is REDIS_ERR; glibc's strtod does not set EINVAL. *)
Definition getDoubleFromObject (o : robj) : outcome (option Double.double) :=
  if bool_decide (o_type o = REDIS_STRING) then
    match o_encoding o, o_ptr o with
    | ENC_RAW, PSds s =>
      let '(value, eptr, erange) := Double.strtod s in
      let huge := match value with S754_infinity _ | S754_zero _ => true | _ => false end in
      Done (if match s with c :: _ => is_space c | [] => false end || negb (bool_decide (eptr = [])) || (erange && huge) || Double.isnan value
            then None else Some value)
    | ENC_INT, PLong v => Done (Some (Double.of_Z v))
    | _, _ => Fault Panic
    end
  else Fault AssertFail.
Definition getDoubleFromObjectOrReply (c : client) (o : robj) : outcome (client * option Double.double) :=
  r ← getDoubleFromObject o;
  Done (match r with Some v => (c, Some v) | None => (add_reply (RErr "value is not a valid float") c, None) end).

(** An end of a range of scores, and whether it is exclusive; [None] is REDIS_ERR. *)
Definition parse_end (o : robj) : outcome (option (Double.double * bool)) :=
  match o_encoding o, o_ptr o with
  | ENC_INT, PLong v => Done (Some (Double.of_Z v, false))
  | _, PSds s =>
    let (ex, text) := match s with "("%char :: r => (true, r) | _ => (false, s) end in
    let '(value, eptr, _) := Double.strtod text in
    Done (if negb (bool_decide (eptr = [])) || Double.isnan value then None else Some (value, ex))
  | _, _ => Fault Panic
  end.
Definition zslParseRange (min max : robj) : outcome (option zrangespec) :=
  a ← parse_end min;
  match a with
  | None => Done None
  | Some (mn, minex) =>
    b ← parse_end max;
    Done (match b with None => None | Some (mx, maxex) => Some (mkRange mn mx minex maxex) end)
  end.

Definition range_args (c : client) (minidx maxidx : nat) : M (client * option zrangespec) :=
  a ← lift (argv c minidx);
  b ← lift (argv c maxidx);
  oa ← deref a;
  ob ← deref b;
  r ← lift (zslParseRange oa ob);
  mret (match r with Some r => (c, Some r) | None => (add_reply (RErr "min or max is not a float") c, None) end).

(** The bytes of an argument that is not integer encoded. *)
Definition raw_text (o : robj) : option sds := match o_encoding o, o_ptr o with ENC_RAW, PSds s => Some s | _, _ => None end.
Definition lex_args (c : client) (minidx maxidx : nat) : M (client * option zlexrangespec) :=
  a ← lift (argv c minidx);
  b ← lift (argv c maxidx);
  oa ← deref a;
  ob ← deref b;
  mret (match zslParseLexRange (raw_text oa) (raw_text ob) with
        | Some r => (c, Some r)
        | None => (add_reply (RErr "min or max not valid string range item") c, None)
        end).

(** ** ZADD, ZINCRBY *)
Fixpoint zadd_scores (c : client) (js : list nat) : M (client * option (list Double.double)) :=
  match js with
  | [] => mret (c, Some [])
  | j :: r =>
    a ← lift (argv c (2 + j * 2));
    o ← deref a;
    p ← lift (getDoubleFromObjectOrReply c o);
    match p with
    | (c, None) => mret (c, None)
    | (c, Some sc) =>
      q ← zadd_scores c r;
      mret (match q with (c, Some l) => (c, Some (sc :: l)) | (c, None) => (c, None) end)
    end
  end.

(** The sorted set of the key, created when there is none; [None] when the key has
    another type. *)
Definition zadd_object (c : client) (key : sds) : M (client * option addr) :=
  r ← lookupKeyWrite (cl_db c) key;
  match r with
  | None =>
    cf ← gets conf;
    first ← arg_str c 3;
    a ← (if (zset_max_ziplist_entries cf =? 0) || (zset_max_ziplist_value cf <? sdslen first) then createZsetObject else createZsetZiplistObject);
    _ ← dbAdd (cl_db c) key a;
    mret (c, Some a)
  | Some a =>
    o ← deref a;
    mret (if bool_decide (o_type o = REDIS_ZSET) then (c, Some a) else (add_reply wrongtypeerr c, None))
  end.

(** The member [argv[3+j*2]]: tried in its integer encoding for a skip list. *)
Definition zadd_member (c : client) (zobj : addr) (i : nat) : M (client * sds) :=
  o ← deref zobj;
  match o_encoding o with
  | ENC_ZIPLIST => x ← arg_str c i; mret (c, x)
  | ENC_SKIPLIST =>
    p ← encode_arg c i;
    e ← deref (snd p);
    x ← lift (string_bytes e);
    mret (fst p, x)
  | _ => throw Panic
  end.

(** How many members were added and updated, the last score, and whether the loop was
    left for an error. *)
Record zadd_state := mkZadd { za_added : Z; za_updated : Z; za_score : Double.double; za_nan : bool }.

Fixpoint zadd_loop (c : client) (incr : bool) (zobj : addr) (j : nat) (scores : list Double.double) (st : zadd_state) : M (client * zadd_state) :=
  match scores with
  | [] => mret (c, st)
  | sc :: r =>
    p ← zadd_member c zobj (3 + j * 2);
    let '(c, ele) := p in
    cf ← gets conf;
    q ← on_zobj zobj (zadd_elem (zset_max_ziplist_entries cf) (zset_max_ziplist_value cf) incr ele sc);
    let '(res, sc) := q in
    match res with
    | NanErr => mret (add_reply (RErr "resulting score is not a number (NaN)") c, mkZadd (za_added st) (za_updated st) sc true)
    | Same => zadd_loop c incr zobj (S j) r (mkZadd (za_added st) (za_updated st) sc false)
    | Updated => _ ← incr_dirty 1; zadd_loop c incr zobj (S j) r (mkZadd (za_added st) (za_updated st + 1) sc false)
    | Added => _ ← incr_dirty 1; zadd_loop c incr zobj (S j) r (mkZadd (za_added st + 1) (za_updated st) sc false)
    end
  end.

Definition zaddGenericCommand (c : client) (incr : bool) : M client :=
  key ← arg_str c 1;
  if negb (Z.rem (cl_argc c) 2 =? 0) then mret (add_reply (RErr "syntax error") c)
  else
    let elements := Z.to_nat (Z.quot (cl_argc c - 2) 2) in
    p ← zadd_scores c (seq 0 elements);
    match p with
    | (c, None) => mret c
    | (c, Some scores) =>
      q ← zadd_object c key;
      match q with
      | (c, None) => mret c
      | (c, Some zobj) =>
        r ← zadd_loop c incr zobj 0 scores (mkZadd 0 0 (S754_zero false) false);
        let '(c, st) := r in
        let c := if za_nan st then c else if incr then addReplyDouble c (za_score st) else add_reply (RInt (za_added st)) c in
        _ ← when (negb (za_added st =? 0) || negb (za_updated st =? 0))
              (_ ← signalModifiedKey (cl_db c) key;
               log_event (Notify (if incr then "zincr" else "zadd") key (cl_db c)));
        mret c
      end
    end.
Definition zaddCommand (c : client) : M client := zaddGenericCommand c false.
Definition zincrbyCommand (c : client) : M client := zaddGenericCommand c true.

(** ** ZREM *)
Definition arg_bytes (c : client) (j : nat) : M sds := a ← lift (argv c j); o ← deref a; lift (string_bytes o).

(** zslDelete compares the argument [e] with the members: compareStringObjects asserts
    that both are strings. *)
Definition zrem_assert (z e : robj) (ele : sds) : outcome unit :=
  match o_ptr z with
  | PZset zs => require_b AssertFail (bool_decide (zs_dict zs !! ele = None) || bool_decide (o_type e = REDIS_STRING))
  | _ => Done tt
  end.
(** The number of members deleted, and whether the key went too. *)
Fixpoint zrem_loop (c : client) (key : sds) (zobj : addr) (js : list nat) (deleted : Z) : M (Z * bool) :=
  match js with
  | [] => mret (deleted, false)
  | j :: r =>
    a ← lift (argv c j);
    e ← deref a;
    ele ← lift (string_bytes e);
    z ← deref zobj;
    _ ← lift (zrem_assert z e ele);
    q ← on_zobj zobj (zrem_elem ele);
    match q with
    | (true, true) => _ ← dbDelete (cl_db c) key; mret (deleted + 1, true)
    | (true, false) => zrem_loop c key zobj r (deleted + 1)
    | (false, _) => zrem_loop c key zobj r deleted
    end
  end.

Definition zremCommand (c : client) : M client :=
  key ← arg_str c 1;
  p ← typed_or_reply lookupKeyWriteOrReply c key (RInt 0) REDIS_ZSET;
  match p with
  | (c, None) => mret c
  | (c, Some zobj) =>
    q ← zrem_loop c key zobj (seq 2 (Z.to_nat (cl_argc c - 2))) 0;
    let '(deleted, keyremoved) := q in
    _ ← when (negb (deleted =? 0))
          (_ ← log_event (Notify "zrem" key (cl_db c));
           _ ← when keyremoved (log_event (Notify "del" key (cl_db c)));
           _ ← signalModifiedKey (cl_db c) key;
           incr_dirty deleted);
    mret (add_reply (RInt deleted) c)
  end.

(** ** ZREMRANGEBYRANK, ZREMRANGEBYSCORE, ZREMRANGEBYLEX *)
Inductive rangetype := BY_RANK | BY_SCORE | BY_LEX.

(** Step 1: the range of the arguments. *)
Definition remrange_args (c : client) (t : rangetype) : M (client * option zrange_type) :=
  match t with
  | BY_RANK =>
    q ← get_long c 2;
    match q with
    | (c, None) => mret (c, None)
    | (c, Some start) =>
      q ← get_long c 3;
      mret (match q with (c, None) => (c, None) | (c, Some end_) => (c, Some (ZRANGE_RANK start end_)) end)
    end
  | BY_SCORE => q ← range_args c 2 3; mret (match q with (c, r) => (c, ZRANGE_SCORE <$> r) end)
  | BY_LEX => q ← lex_args c 2 3; mret (match q with (c, r) => (c, ZRANGE_LEX <$> r) end)
  end.
(** Step 2: the ranks inside the set; [None] when the range is empty. *)
Definition remrange_clip (llen : Z) (r : zrange_type) : option zrange_type :=
  match r with
  | ZRANGE_RANK start end_ => match clip_range llen start end_ with Some (start, end_) => Some (ZRANGE_RANK start end_) | None => None end
  | _ => Some r
  end.
Definition remrange_event (t : rangetype) : string :=
  match t with BY_RANK => "zremrangebyrank" | BY_SCORE => "zremrangebyscore" | BY_LEX => "zremrangebylex" end.

Definition zremrangeGenericCommand (c : client) (t : rangetype) : M client :=
  key ← arg_str c 1;
  q ← remrange_args c t;
  match q with
  | (c, None) => mret c
  | (c, Some r) =>
    p ← typed_or_reply lookupKeyWriteOrReply c key (RInt 0) REDIS_ZSET;
    match p with
    | (c, None) => mret c
    | (c, Some zobj) =>
      llen ← ask_zobj zobj (fun v => Done (zsetLength v));
      match remrange_clip llen r with
      | None => mret (add_reply (RInt 0) c)
      | Some r =>
        q ← on_zobj zobj (zremrange r);
        let '(deleted, keyremoved) := q in
        _ ← when keyremoved (_ ← dbDelete (cl_db c) key; mret tt);
        _ ← when (negb (deleted =? 0))
              (_ ← signalModifiedKey (cl_db c) key;
               _ ← log_event (Notify (remrange_event t) key (cl_db c));
               when keyremoved (log_event (Notify "del" key (cl_db c))));
        _ ← incr_dirty deleted;
        mret (add_reply (RInt deleted) c)
      end
    end
  end.
Definition zremrangebyrankCommand (c : client) : M client := zremrangeGenericCommand c BY_RANK.
Definition zremrangebyscoreCommand (c : client) : M client := zremrangeGenericCommand c BY_SCORE.
Definition zremrangebylexCommand (c : client) : M client := zremrangeGenericCommand c BY_LEX.

(** ** The queries *)
(** The replies for the elements. *)
Definition reply_elts (withscores : bool) (l : list (Double.double * sds)) (c : client) : client :=
  foldl (fun c e => let c := add_reply (RBulk (snd e)) c in if withscores then addReplyDouble c (fst e) else c) c l.

Definition zrange_reply (c : client) (reverse withscores : bool) (zobj : addr) (start end_ : Z) : M client :=
  llen ← ask_zobj zobj (fun v => Done (zsetLength v));
  match clip_range llen start end_ with
  | None => mret (add_reply (RMultiLen 0) c)
  | Some (start, end_) =>
    let rangelen := end_ - start + 1 in
    l ← ask_zobj zobj (zrange_list reverse start rangelen);
    mret (reply_elts withscores l (add_reply (RMultiLen (if withscores then rangelen * 2 else rangelen)) c))
  end.
Definition zrangeGenericCommand (c : client) (reverse : bool) : M client :=
  key ← arg_str c 1;
  q ← get_long c 2;
  match q with
  | (c, None) => mret c
  | (c, Some start) =>
    q ← get_long c 3;
    match q with
    | (c, None) => mret c
    | (c, Some end_) =>
      opt ← (if cl_argc c =? 5 then x ← arg_str c 4; mret (strcasecmp_eq x (str "withscores")) else mret false);
      if negb (opt : bool) && (cl_argc c >=? 5) then mret (add_reply (RErr "syntax error") c)
      else
        p ← typed_or_reply lookupKeyReadOrReply c key (RMultiLen 0) REDIS_ZSET;
        match p with
        | (c, None) => mret c
        | (c, Some zobj) => zrange_reply c reverse opt zobj start end_
        end
    end
  end.
Definition zrangeCommand (c : client) : M client := zrangeGenericCommand c false.
Definition zrevrangeCommand (c : client) : M client := zrangeGenericCommand c true.

Record page_opts := mkPage { pg_withscores : bool; pg_offset : Z; pg_limit : Z }.
(** The loop over the options; [scores]: WITHSCORES is one of them. *)
Fixpoint page_args (fuel : nat) (scores : bool) (c : client) (pos remaining : Z) (o : page_opts) : M (client * option page_opts) :=
  if remaining =? 0 then mret (c, Some o)
  else match fuel with
  | O => throw OutOfFuel
  | S fuel' =>
    x ← arg_str c (Z.to_nat pos);
    if scores && (1 <=? remaining) && strcasecmp_eq x (str "withscores")
    then page_args fuel' scores c (pos + 1) (remaining - 1) (mkPage true (pg_offset o) (pg_limit o))
    else if (3 <=? remaining) && strcasecmp_eq x (str "limit") then
      q ← get_long c (Z.to_nat (pos + 1));
      match q with
      | (c, None) => mret (c, None)
      | (c, Some offset) =>
        q ← get_long c (Z.to_nat (pos + 2));
        match q with
        | (c, None) => mret (c, None)
        | (c, Some limit) => page_args fuel' scores c (pos + 3) (remaining - 3) (mkPage (pg_withscores o) offset limit)
        end
      end
    else mret (add_reply (RErr "syntax error") c, None)
  end.
Definition page_options (scores : bool) (c : client) : M (client * option page_opts) :=
  let n := Z.max 0 (cl_argc c - 4) in page_args (S (Z.to_nat n)) scores c 4 n (mkPage false 0 (-1)).

Definition genericZrangebyscoreCommand (c : client) (reverse : bool) : M client :=
  key ← arg_str c 1;
  q ← (if reverse then range_args c 3 2 else range_args c 2 3);
  match q with
  | (c, None) => mret c
  | (c, Some range) =>
    q ← page_options true c;
    match q with
    | (c, None) => mret c
    | (c, Some o) =>
      p ← typed_or_reply lookupKeyReadOrReply c key (RMultiLen 0) REDIS_ZSET;
      match p with
      | (c, None) => mret c
      | (c, Some zobj) =>
        r ← ask_zobj zobj (zrangebyscore_list reverse range (pg_offset o) (pg_limit o));
        match r with
        | None => mret (add_reply (RMultiLen 0) c)
        | Some l =>
          let rangelen := Z.of_nat (length l) in
          mret (reply_elts (pg_withscores o) l (add_reply (RMultiLen (if pg_withscores o then rangelen * 2 else rangelen)) c))
        end
      end
    end
  end.
Definition zrangebyscoreCommand (c : client) : M client := genericZrangebyscoreCommand c false.
Definition zrevrangebyscoreCommand (c : client) : M client := genericZrangebyscoreCommand c true.

Definition genericZrangebylexCommand (c : client) (reverse : bool) : M client :=
  key ← arg_str c 1;
  q ← (if reverse then lex_args c 3 2 else lex_args c 2 3);
  match q with
  | (c, None) => mret c
  | (c, Some range) =>
    q ← page_options false c;
    match q with
    | (c, None) => mret c
    | (c, Some o) =>
      p ← typed_or_reply lookupKeyReadOrReply c key (RMultiLen 0) REDIS_ZSET;
      match p with
      | (c, None) => mret c
      | (c, Some zobj) =>
        r ← ask_zobj zobj (zrangebylex_list reverse range (pg_offset o) (pg_limit o));
        mret (match r with
              | None => add_reply (RMultiLen 0) c
              | Some l => foldl (fun c x => add_reply (RBulk x) c) (add_reply (RMultiLen (Z.of_nat (length l))) c) l
              end)
      end
    end
  end.
Definition zrangebylexCommand (c : client) : M client := genericZrangebylexCommand c false.
Definition zrevrangebylexCommand (c : client) : M client := genericZrangebylexCommand c true.

(** Commands that look a sorted set up and answer a number of it. *)
Definition answer (c : client) (zobj : addr) (f : zval -> outcome Z) : M client := n ← ask_zobj zobj f; mret (add_reply (RInt n) c).

Definition zcountCommand (c : client) : M client :=
  key ← arg_str c 1;
  q ← range_args c 2 3;
  match q with
  | (c, None) => mret c
  | (c, Some range) =>
    p ← typed_or_reply lookupKeyReadOrReply c key (RInt 0) REDIS_ZSET;
    match p with (c, None) => mret c | (c, Some zobj) => answer c zobj (zcount range) end
  end.
Definition zlexcountCommand (c : client) : M client :=
  key ← arg_str c 1;
  q ← lex_args c 2 3;
  match q with
  | (c, None) => mret c
  | (c, Some range) =>
    p ← typed_or_reply lookupKeyReadOrReply c key (RInt 0) REDIS_ZSET;
    match p with (c, None) => mret c | (c, Some zobj) => answer c zobj (zlexcount range) end
  end.
Definition zcardCommand (c : client) : M client :=
  key ← arg_str c 1;
  p ← typed_or_reply lookupKeyReadOrReply c key (RInt 0) REDIS_ZSET;
  match p with (c, None) => mret c | (c, Some zobj) => answer c zobj (fun v => Done (zsetLength v)) end.

(** The member [argv[2]]: tried in its integer encoding for a skip list. *)
Definition query_member (c : client) (zobj : addr) : M (client * sds) :=
  o ← deref zobj;
  match o_encoding o with
  | ENC_ZIPLIST => x ← arg_bytes c 2; mret (c, x)
  | ENC_SKIPLIST =>
    p ← encode_arg c 2;
    e ← deref (snd p);
    x ← lift (string_bytes e);
    mret (fst p, x)
  | _ => throw Panic
  end.

Definition zscoreCommand (c : client) : M client :=
  key ← arg_str c 1;
  p ← typed_or_reply lookupKeyReadOrReply c key RNull REDIS_ZSET;
  match p with
  | (c, None) => mret c
  | (c, Some zobj) =>
    q ← query_member c zobj;
    let '(c, ele) := q in
    r ← on_zobj zobj (zset_score ele);
    mret (match r with Some score => addReplyDouble c score | None => add_reply RNull c end)
  end.

Definition zrankGenericCommand (c : client) (reverse : bool) : M client :=
  key ← arg_str c 1;
  p ← typed_or_reply lookupKeyReadOrReply c key RNull REDIS_ZSET;
  match p with
  | (c, None) => mret c
  | (c, Some zobj) =>
    a ← lift (argv c 2);
    o ← deref a;
    _ ← lift (require_b AssertFail (bool_decide (o_encoding o = ENC_RAW)));
    q ← query_member c zobj;
    let '(c, ele) := q in
    r ← ask_zobj zobj (zrank reverse ele);
    mret (match r with Some rank => add_reply (RInt rank) c | None => add_reply RNull c end)
  end.
Definition zrankCommand (c : client) : M client := zrankGenericCommand c false.
Definition zrevrankCommand (c : client) : M client := zrankGenericCommand c true.
(** ** ZADD and ZSCORE *)
(** The key holds a sorted set that stands for [l], in either encoding. *)
Definition zset_at (s : server) (i : nat) (key : sds) (a : addr) (l : list elt) : Prop :=
  live s i key /\ lookupKey s i key = Some a /\
  exists o v, heap s !! a = Some o /\ o_type o = REDIS_ZSET /\ zval_of o = Done v /\ zrep v l /\ set_ok l.

Lemma put_zval_same o v : zval_of o = Done v -> put_zval v o = o.
Proof. unfold zval_of. destruct o as [t e rc vs p]. cbn. destruct e, p; try done; by intros [= <-]. Qed.
Lemma zval_put v o : zval_of (put_zval v o) = Done v.
Proof. by destruct v. Qed.
Lemma put_zval_type v o : o_type (put_zval v o) = o_type o.
Proof. by destruct v. Qed.

Lemma zset_at_same s s' i key a l : same_store s s' -> zset_at s i key a l -> zset_at s' i key a l.
Proof.
  intros [H1 H2 H3 H4 H5] (HL & Hl & o & v & Ho & Hv). assert (Hg : get_db s' i = get_db s i) by (unfold get_db; by rewrite H3).
  split; [by apply (live_ext s)|]. split; [by rewrite (lookupKey_ext s)|]. exists o, v. by rewrite H1.
Qed.

(** The texts that addReplyDouble sends are read back by strtod. *)
Lemma fmt_double_read d : Double.valid d = true -> isnan d = false -> Double.strtod (fmt_double d) = (d, [], false).
Proof. intros Hv Hn. destruct d as [[]|[]| |s m e]; try done. by apply Double.g17_read. Qed.

Lemma score_arg_good o d ele : getDoubleFromObject o = Done (Some d) -> good (d, ele).
Proof.
  unfold getDoubleFromObject. destruct (bool_decide _); [|done]. destruct (o_encoding o), (o_ptr o) as [t|v| | | | | |]; try done.
  - pose proof (Double.strtod_valid t) as Hv. unfold Double.strtod_val in Hv. destruct (Double.strtod t) as [[x r] e]. cbn [fst] in Hv. intros [= H]. destruct (_ || Double.isnan x) eqn:E in H; [done|].
    injection H as <-. apply orb_false_iff in E as [_ E]. by split.
  - intros [= <-]. split; [apply Double.of_Z_valid|apply Double.of_Z_num].
Qed.

(** An operation on the value of the object at [a]. *)
Lemma on_zobj_ok {A} a o v v' rs' (m : ZP A) r s : heap s !! a = Some o -> zval_of o = Done v -> m (v, rnd s) = Done (r, (v', rs')) ->
  on_zobj a m s = Done (r, set_rnd rs' (set_heap (<[a := put_zval v' o]> (heap s)) s)).
Proof. intros Ho Hv Hm. unfold on_zobj. by rewrite Ho, Hv, bind_Done, Hm, bind_Done. Qed.

(** The client but for its arguments. *)
Definition same_client (c c' : client) : Prop := exists av, c' = set_cl_argv av c.

Lemma same_client_refl c : same_client c c.
Proof. exists (cl_argv c). by destruct c. Qed.

(** The member argument, whichever the encoding. *)
Lemma encoded_member s c a o v i b ob x (m : M (client * sds)) : heap s !! a = Some o -> zval_of o = Done v -> bytes_arg s c i b ob x ->
  m s = Done ((c, x), s) ->
  exists c' s1, match o_encoding o with
    | ENC_ZIPLIST => m
    | ENC_SKIPLIST => p ← encode_arg c i; e ← deref (snd p); x ← lift (string_bytes e); mret (fst p, x)
    | _ => throw Panic
    end s = Done ((c', x), s1) /\ encoded b s s1 /\ same_client c c'.
Proof.
  intros Ho Hv Hx Hm. assert (He : o_encoding o = ENC_ZIPLIST \/ o_encoding o = ENC_SKIPLIST) by (unfold zval_of in Hv; destruct (o_encoding o), (o_ptr o); auto; done).
  destruct He as [->| ->]; [exists c, s; split; [done|]; split; [apply encoded_refl|apply same_client_refl]|].
  destruct (encode_bytes_arg s c i b ob x Hx) as (a' & s1 & e & E & Ha & Hb & HE). rewrite (prog_bind_step _ _ _ _ _ E). cbn [fst snd].
  rewrite (bind_deref _ _ _ _ Ha), Hb, bind_lift. eexists _, s1. split; [reflexivity|]. split; [done|by eexists].
Qed.
Lemma zadd_member_ok s c a o v i b ob x : heap s !! a = Some o -> zval_of o = Done v -> bytes_arg s c i b ob x ->
  exists c' s1, zadd_member c a i s = Done ((c', x), s1) /\ encoded b s s1 /\ same_client c c'.
Proof.
  intros Ho Hv Hx. unfold zadd_member. rewrite (bind_deref _ _ _ _ Ho). eapply encoded_member; [done..|].
  rewrite (bind_arg_str _ _ x); [done|]. exists b, ob. destruct Hx. done.
Qed.
Lemma query_member_ok s c a o v b ob x : heap s !! a = Some o -> zval_of o = Done v -> bytes_arg s c 2 b ob x ->
  exists c' s1, query_member c a s = Done ((c', x), s1) /\ encoded b s s1 /\ same_client c c'.
Proof.
  intros Ho Hv Hx. unfold query_member. rewrite (bind_deref _ _ _ _ Ho). eapply encoded_member; [done..|].
  unfold arg_bytes. rewrite bind_assoc, (argv_Done _ _ _ (ba_argv _ _ _ _ _ _ Hx)), bind_lift, bind_assoc, (bind_deref _ _ _ _ (ba_heap _ _ _ _ _ _ Hx)).
  unfold string_bytes. by rewrite (ba_ptr _ _ _ _ _ _ Hx), bind_lift.
Qed.
Lemma zset_at_encoded s s' i key a l b : encoded b s s' -> zset_at s i key a l -> zset_at s' i key a l.
Proof.
  intros [H1 _ H3 _] (HL & Hl & o & v & Ho & Ht & Hv). rewrite H1. split; [done|]. split; [done|]. exists o, v. cbn. split; [|done]. apply H3; congruence.
Qed.

Lemma spec_add_score x d l : set_ok l -> good (d, x) -> exists d', member_score x (snd (spec_add false x d l)) = Some d' /\ SFeqb d d' = true /\ good (d', x).
Proof.
  intros HS Hg. unfold spec_add, new_score. destruct (member_score x l) as [cur|] eqn:Em.
  - destruct (SFeqb d cur) eqn:Eq; cbn [snd]; [exists cur; split; [done|]; split; [done|by eapply set_ok_member]|]. exists d. split; [|split; [apply SFeqb_refl, Hg|done]].
    apply member_in; [|rewrite spec_insert_perm; by left]. rewrite spec_insert_perm. cbn. apply NoDup_cons. split; [apply remove_not_in|apply set_ok_filter, HS].
  - exists d. cbn [snd]. split; [|split; [apply SFeqb_refl, Hg|done]]. apply member_in; [|rewrite spec_insert_perm; by left]. rewrite spec_insert_perm. cbn. apply NoDup_cons.
    split; [by apply member_none|apply HS].
Qed.

(** The arguments of ZADD key score member. *)
Record zadd_args (s : server) (c : client) (key x : sds) (d : Double.double) : Prop := {
  zg_argc : cl_argc c = 4;
  zg_key : str_arg s c 1 key;
  zg_score : exists b ob, cl_argv c !! 2%nat = Some (Some b) /\ heap s !! b = Some ob /\ getDoubleFromObject ob = Done (Some d);
  zg_member : exists b ob, bytes_arg s c 3 b ob x
}.

(** ZADD of one member to an existing sorted set rewrites the set, and nothing else. *)
Lemma zadd_exec s c c' s0 key a o v x d so sb res sc v' rs' : cl_argc c = 4 -> str_arg s c 1 key -> cl_argv c !! 2%nat = Some (Some sb) -> heap s !! sb = Some so ->
  getDoubleFromObject so = Done (Some d) -> zadd_member c a 3 s = Done ((c', x), s0) -> heap s0 !! a = Some o -> conf s0 = conf s -> same_client c c' -> live s (cl_db c) key -> lookupKey s (cl_db c) key = Some a ->
  heap s !! a = Some o -> o_type o = REDIS_ZSET -> zval_of o = Done v -> res <> NanErr ->
  zadd_elem (zset_max_ziplist_entries (conf s)) (zset_max_ziplist_value (conf s)) false x d (v, rnd s0) = Done ((res, sc), (v', rs')) ->
  exists s', zaddCommand c s = Done (add_reply (RInt (match res with Added => 1 | _ => 0 end)) c', s') /\ rewrote a (put_zval v' o) s0 s'.
Proof.
  intros Hc Hk Hsa Hso Hd Hx Ho0 Hcf0 [av ->] HL Hl Ho Ht Hv Hres E. rewrite <- Hcf0 in E.
  unfold zaddCommand, zaddGenericCommand. rewrite (bind_arg_str _ _ _ _ _ Hk), Hc. change (Z.rem 4 2 =? 0) with true. change (Z.to_nat (Z.quot (4 - 2) 2)) with 1%nat. cbn [negb seq zadd_scores Nat.add Nat.mul].
  rewrite bind_assoc, (argv_Done _ _ _ Hsa), bind_lift, bind_assoc, (bind_deref _ _ _ _ Hso). unfold getDoubleFromObjectOrReply. rewrite Hd, bind_Done, bind_assoc, bind_lift. run.
  unfold zadd_object. rewrite bind_assoc, (prog_bind_step _ _ _ _ _ (lookupKeyWrite_live _ _ _ HL)), Hl, bind_assoc, (bind_deref _ _ _ _ Ho), bool_decide_eq_true_2, bind_mret by done.
  cbn [zadd_loop Nat.add Nat.mul]. rewrite bind_assoc, (prog_bind_step _ _ _ _ _ Hx), bind_assoc, bind_gets.
  rewrite bind_assoc, (prog_bind_step _ _ _ _ _ (on_zobj_ok a o v v' rs' _ _ s0 Ho0 Hv E)). set (s1 := set_rnd rs' _).
  assert (R1 : rewrote a (put_zval v' o) s0 s1) by (by split). clearbody s1.
  destruct res; [done| | |]; run; cbn [when za_nan za_added za_updated za_score Z.add Z.eqb negb orb]; [by exists s1| |].
  all: unfold incr_dirty; rewrite bind_modify, bind_mret; set (s2 := set_dirty _ s1); cbn [when za_nan za_added za_updated za_score Z.add Z.eqb negb orb cl_db add_reply set_cl_replies set_cl_argv]; change (0 + 1) with 1; cbn [when Z.eqb negb orb];
    destruct (signal_same (cl_db c) key s2) as (s3 & E3 & S3); rewrite bind_assoc, (prog_bind_step _ _ _ _ _ E3); unfold log_event; rewrite bind_modify; eexists; (split; [reflexivity|]);
    (eapply rewrote_after; [exact R1|]); destruct S3; by split.
Qed.

Lemma zset_at_rewrote s s' i key a o v l l' : zset_at s i key a l -> rewrote a (put_zval v o) s s' -> o_type o = REDIS_ZSET -> zrep v l' -> set_ok l' -> zset_at s' i key a l'.
Proof.
  intros (HL & Hl & _) [H1 H2 H3 H4 H5] Ht Hr HS. assert (Hg : get_db s' i = get_db s i) by (unfold get_db; by rewrite H3).
  split; [by apply (live_ext s)|]. split; [by rewrite (lookupKey_ext s)|]. exists (put_zval v o), v. rewrite H1, lookup_insert_eq, put_zval_type, zval_put. done.
Qed.

(** What ZADD leaves alone: every object but the set, the member argument and the
    reference counts of the shared integers. *)
Definition zadd_frame (c : client) (a : addr) (s s' : server) : Prop :=
  (forall b, b <> a -> cl_argv c !! 3%nat <> Some (Some b) -> REDIS_SHARED_INTEGERS < Z.pos b -> heap s' !! b = heap s !! b) /\
  (forall w, shared_int s w -> shared_int s' w).

Lemma zadd_ok s c key a x d l : zadd_args s c key x d -> zset_at s (cl_db c) key a l -> 2 * Z.of_nat (length l) + 2 < 2 ^ 31 -> (S (length l) <= levels (rnd s))%nat ->
  exists c' s', zaddCommand c s = Done (add_reply (RInt (if member_score x l then 0 else 1)) c', s') /\ same_client c c' /\
    zset_at s' (cl_db c) key a (snd (spec_add false x d l)) /\ zadd_frame c a s s'.
Proof.
  intros [Hc Hk (sb & so & Hsa & Hso & Hd) (b & ob & Hx)] Hz Hlen Hrs. pose proof Hz as (HL & Hl & o & v & Ho & Ht & Hv & Hr & HS). pose proof (score_arg_good so d x Hd) as Hg.
  destruct (zadd_member_ok s c a o v 3 b ob x Ho Hv Hx) as (c' & s1 & Em & HE & Hcc). pose proof HE as [H1 H2 H3 H4].
  assert (Hrnd : rnd s1 = rnd s) by (by rewrite H1). assert (Hcf : conf s1 = conf s) by (by rewrite H1). rewrite <- Hrnd in Hrs.
  destruct (zadd_elem_ok (zset_max_ziplist_entries (conf s)) (zset_max_ziplist_value (conf s)) false x d v l (rnd s1) Hr HS Hg Hlen Hrs) as (v' & rs' & E & Hr' & _).
  pose proof (spec_add_ok false x d l HS Hg Hlen) as HS'. assert (Hn : fst (fst (spec_add false x d l)) <> NanErr) by (unfold spec_add, new_score; destruct (member_score x l) as [cur|]; [by destruct (SFeqb d cur)|done]).
  rewrite (surjective_pairing (fst (spec_add false x d l))) in E. assert (Ho1 : heap s1 !! a = Some o) by (apply H3; congruence).
  destruct (zadd_exec s c c' s1 key a o v x d so sb _ _ v' rs' Hc Hk Hsa Hso Hd Em Ho1 Hcf Hcc HL Hl Ho Ht Hv Hn E) as (s' & E' & R). exists c', s'. split; [|split; [done|split]].
  - rewrite E'. unfold spec_add, new_score. destruct (member_score x l) as [cur|]; [by destruct (SFeqb d cur)|done].
  - eapply zset_at_rewrote; [by eapply zset_at_encoded|done..].
  - split; [intros b' Hb Hb3 Hbs; rewrite (rw_heap _ _ _ _ R), lookup_insert_ne by done; apply H2; [|done]; intros ->; apply Hb3, Hx|].
    intros w Hw Hrw. destruct (H4 w Hw Hrw) as (rc & vr & Hs). exists rc, vr. rewrite (rw_heap _ _ _ _ R), lookup_insert_ne; [done|]. intros ->. rewrite Ho1 in Hs. by injection Hs as ->.
Qed.
(** ZREM of one member that is not the last. *)
Lemma zrem_exec s c key a o v x e oe dl v' rs' : cl_argc c = 3 -> str_arg s c 1 key -> cl_argv c !! 2%nat = Some (Some e) -> heap s !! e = Some oe -> string_bytes oe = Done x ->
  live s (cl_db c) key -> lookupKey s (cl_db c) key = Some a -> heap s !! a = Some o -> o_type o = REDIS_ZSET -> zval_of o = Done v -> zrem_assert o oe x = Done tt ->
  zrem_elem x (v, rnd s) = Done ((dl, false), (v', rs')) ->
  exists s' r, zremCommand c s = Done (add_reply r c, s') /\ rewrote a (put_zval v' o) s s'.
Proof.
  intros Hc Hk Ha Hoe Hx HL Hl Ho Ht Hv Has E. unfold zremCommand. rewrite (bind_arg_str _ _ _ _ _ Hk).
  rewrite (prog_bind_step _ _ _ _ _ (typed_write c key (RInt 0) REDIS_ZSET a o s HL Hl Ho Ht)), Hc. change (seq 2 (Z.to_nat (3 - 2))) with [2%nat]. cbn [zrem_loop].
  rewrite bind_assoc, (argv_Done _ _ _ Ha), bind_lift, bind_assoc, (bind_deref _ _ _ _ Hoe), bind_assoc, Hx, bind_lift, bind_assoc, (bind_deref _ _ _ _ Ho), bind_assoc, Has, bind_lift.
  rewrite bind_assoc, (prog_bind_step _ _ _ _ _ (on_zobj_ok a o v v' rs' _ _ s Ho Hv E)). set (s1 := set_rnd rs' _). assert (R1 : rewrote a (put_zval v' o) s s1) by (by split). clearbody s1.
  destruct dl; cbn [zrem_loop]; rewrite bind_mret; cbn [when negb Z.eqb]; [|rewrite bind_mret; by eexists _, _].
  change (0 + 1) with 1. cbn [when negb Z.eqb]. unfold log_event at 1. rewrite bind_assoc, bind_modify, bind_assoc, bind_mret, bind_assoc. set (s2 := set_events _ s1).
  destruct (signal_same (cl_db c) key s2) as (s3 & E3 & S3). rewrite (prog_bind_step _ _ _ _ _ E3). unfold incr_dirty. rewrite bind_modify. eexists _, _. split; [reflexivity|].
  eapply rewrote_after; [exact R1|]. destruct S3. by split.
Qed.

Lemma zscore_ok s c key a b ob x l d : zset_at s (cl_db c) key a l -> str_arg s c 1 key -> bytes_arg s c 2 b ob x -> member_score x l = Some d ->
  exists c' s', zscoreCommand c s = Done (addReplyDouble c' d, s') /\ same_client c c' /\ zset_at s' (cl_db c) key a l.
Proof.
  intros Hz Hk Hx Hm. pose proof Hz as (HL & Hl & o & v & Ho & Ht & Hv & Hr & HS). unfold zscoreCommand. rewrite (bind_arg_str _ _ _ _ _ Hk).
  destruct (typed_read c key RNull REDIS_ZSET a o s HL Hl Ho Ht) as (s1 & E1 & S1). rewrite (prog_bind_step _ _ _ _ _ E1). pose proof (zset_at_same _ _ _ _ _ _ S1 Hz) as Hz1. pose proof S1 as [H1 _ _ _ _].
  assert (Ho1 : heap s1 !! a = Some o) by (by rewrite H1). assert (Hx1 : bytes_arg s1 c 2 b ob x) by (destruct Hx as [? ? ? ? ? ? Hi]; split; try done; [by rewrite H1|intros w Hw Hr'; rewrite H1; by apply Hi]).
  destruct (query_member_ok s1 c a o v b ob x Ho1 Hv Hx1) as (c' & s2 & E2 & HE & Hcc). rewrite (prog_bind_step _ _ _ _ _ E2). pose proof HE as [_ _ H3 _]. assert (Ho2 : heap s2 !! a = Some o) by (apply H3; congruence).
  rewrite (prog_bind_step _ _ _ _ _ (on_zobj_ok a o v v (rnd s2) _ _ s2 Ho2 Hv (zset_score_ok v l x (rnd s2) Hr HS))), Hm, (put_zval_same o v Hv). eexists c', _. split; [reflexivity|].
  split; [done|]. apply (zset_at_same s2); [|by eapply zset_at_encoded]. split; try done. cbn. by apply insert_id.
Qed.

(** C19: a score goes from ZADD to ZSCORE.  For a key that is not due to expire and holds
    a sorted set in either encoding, of fewer than 2^30 - 1 members, ZADD key score member
    (the score being any text or integer that getDoubleFromObject accepts, and the member
    any raw string, also one that reads as an integer, which the command then encodes)
    replies 1 for a new member and 0 for one that was there, stores the list with the member
    at its new score, and changes no other object but the member's argument and the reference
    counts of shared integers; ZSCORE by any client then replies a text that strtod reads
    back, to its last byte and without a range error, as a double equal to the score given,
    and leaves the set as it is. *)
Theorem zadd_zscore (s : server) (c : client) (key x : sds) (a : addr) (d : Double.double) (l : list elt) :
  zadd_args s c key x d -> zset_at s (cl_db c) key a l -> 2 * Z.of_nat (length l) + 2 < 2 ^ 31 -> (S (length l) <= levels (rnd s))%nat ->
  exists c' s', zaddCommand c s = Done (add_reply (RInt (if member_score x l then 0 else 1)) c', s') /\ same_client c c' /\
    zset_at s' (cl_db c) key a (snd (spec_add false x d l)) /\ zadd_frame c a s s' /\
    forall c2 b ob, cl_db c2 = cl_db c -> str_arg s' c2 1 key -> bytes_arg s' c2 2 b ob x ->
      exists c2' s'' text d', zscoreCommand c2 s' = Done (add_reply (RBulk text) c2', s'') /\ same_client c2 c2' /\
        zset_at s'' (cl_db c) key a (snd (spec_add false x d l)) /\ Double.strtod text = (d', [], false) /\ SFeqb d d' = true.
Proof.
  intros Hargs Hz Hlen Hrs. pose proof Hz as (_ & _ & _ & _ & _ & _ & _ & _ & HS). pose proof Hargs as [_ _ (sb & so & _ & _ & Hd) _]. pose proof (score_arg_good so d x Hd) as Hg.
  destruct (zadd_ok s c key a x d l Hargs Hz Hlen Hrs) as (c' & s' & E & Hcc & Hz' & Hh). exists c', s'. split; [done|]. split; [done|]. split; [done|]. split; [done|]. intros c2 b ob Hdb Hk Hx.
  destruct (spec_add_score x d l HS Hg) as (d' & Hm & Heq & Hg'). rewrite <- Hdb in Hz' |- *. destruct (zscore_ok s' c2 key a b ob x _ d' Hz' Hk Hx Hm) as (c2' & s'' & E2 & Hc2 & S2).
  exists c2', s'', (fmt_double d'), d'. split; [exact E2|]. split; [exact Hc2|]. split; [exact S2|]. split; [|exact Heq]. by apply fmt_double_read; apply Hg'.
Qed.
(** A sorted set with the member 42 at 0.5, and the arguments of ZADD z 0.1 42. *)
Definition zdemo : server :=
  set_rnd (repeat 65535 4) (put_key 0 "z" 10012 (put_obj 10012 (mkObj REDIS_ZSET ENC_ZIPLIST 1 0 (PZiplist [str "42"; str "0.5"]))
    (put_obj 43 (mkObj REDIS_STRING ENC_INT 1 0 (PLong 42)) (put_obj 10011 (str_obj "z" 0) (put_obj 10013 (str_obj "0.1" 0)
    (put_obj 10014 (str_obj "42" 0) (put_obj 10015 (str_obj "42" 0) server0))))))).
Definition zadd_client : client := client_of 0 [10010; 10011; 10013; 10014]%positive.
Definition zscore_client : client := client_of 0 [10010; 10011; 10015]%positive.

Lemma zdemo_at : zset_at zdemo 0 (str "z") 10012 [(half, str "42")].
Proof.
  split; [exact I|]. split; [reflexivity|]. eexists _, _. split; [reflexivity|]. split; [reflexivity|]. split; [reflexivity|].
  assert (E : [str "42"; str "0.5"] = pairs [(half, str "42")]) by (vm_compute; reflexivity). rewrite E. split; [constructor|].
  assert (Hg : good (half, str "42")) by (split; reflexivity). split; [by constructor|repeat constructor|apply NoDup_singleton|cbn; lia].
Qed.

Lemma reads_42 w : Util.string2l (str "42") = Some w -> w = 42.
Proof. assert (Util.string2l (str "42") = Some 42) as -> by (vm_compute; reflexivity). by intros [= ->]. Qed.

Lemma zadd_zscore_witness : exists d c' s', zaddCommand zadd_client zdemo = Done (add_reply (RInt 0) c', s') /\
  exists c2' s'' text d', zscoreCommand zscore_client s' = Done (add_reply (RBulk text) c2', s'') /\ Double.strtod text = (d', [], false) /\ SFeqb d d' = true.
Proof.
  pose (d := fst (fst (Double.strtod (str "0.1")))).
  destruct (zadd_zscore zdemo zadd_client (str "z") (str "42") 10012 d [(half, str "42")]) as (c' & s' & E & _ & _ & [Hh Hi] & Hz).
  - split; [reflexivity|exists 10011%positive, (str_obj "z" 0); by repeat split|exists 10013%positive, (str_obj "0.1" 0); split; [reflexivity|]; split; [reflexivity|vm_compute; reflexivity]|].
    exists 10014%positive, (str_obj "42" 0). split; try reflexivity. intros w Hw _. apply reads_42 in Hw as ->. by exists 1, 0.
  - exact zdemo_at.
  - cbn. lia.
  - vm_compute. lia.
  - exists d, c', s'. split; [exact E|]. destruct (Hz zscore_client 10015%positive (str_obj "42" 0)) as (c2' & s'' & text & d' & E2 & _ & _ & Hr & Hq).
    + reflexivity.
    + exists 10011%positive, (str_obj "z" 0). split; [reflexivity|]. split; [by rewrite Hh|reflexivity].
    + split; try reflexivity; [by rewrite Hh|]. intros w Hw. apply reads_42 in Hw as ->. apply Hi. intros _. by exists 1, 0.
    + by exists c2', s'', text, d'.
Defined.
End TZset.
