(* ===== verification/Multi.v ===== *)
(** * Commands and transactions: redis.c (the command table, processCommand,
    call) and multi.c

    A client is a [client] of Server.v with its transaction: the flags, the
    queue of commands and the keys it watches.  REDIS_DIRTY_CAS is the set
    [dirty_cas] of the server.  Commands that are not modelled are a parameter
    ([other]); what the command path looks at outside the modelled state (the
    password, memory, the state of persistence, replication, scripts and
    Pub/Sub) is the record [gates]. *)
From S2P Require Import Prelude CStr Util Server Object Db TString Heap TSet TSetAlg TList THash TZset.
Import Object Db.

Module Multi.

(** ** Data *)
Inductive proc :=
  | ProcBase (f : client -> M client)
  | ProcMulti
  | ProcExec
  | ProcDiscard
  | ProcWatch
  | ProcUnwatch.

Record redisCommand := mkCmd {
  cmd_name : string;
  cmd_proc : proc;
  cmd_arity : Z;
  cmd_sflags : string
}.

Record multiCmd := mkMulti {
  mc_argv : list (option addr);
  mc_argc : Z;
  mc_cmd : option redisCommand
}.

Record watchedKey := mkWatched { wk_key : addr; wk_db : nat }.

Record tclient := mkT {
  t_cl : client;
  t_multi : bool;
  t_dirty_exec : bool;
  t_close : bool;
  t_cmd : option redisCommand;
  t_commands : list multiCmd;
  t_watched : list watchedKey
}.

Definition set_t_cl (x : client) (t : tclient) : tclient :=
  mkT x (t_multi t) (t_dirty_exec t) (t_close t) (t_cmd t) (t_commands t) (t_watched t).
Definition set_t_multi (x : bool) (t : tclient) : tclient :=
  mkT (t_cl t) x (t_dirty_exec t) (t_close t) (t_cmd t) (t_commands t) (t_watched t).
Definition set_t_dirty_exec (x : bool) (t : tclient) : tclient :=
  mkT (t_cl t) (t_multi t) x (t_close t) (t_cmd t) (t_commands t) (t_watched t).
Definition set_t_close (x : bool) (t : tclient) : tclient :=
  mkT (t_cl t) (t_multi t) (t_dirty_exec t) x (t_cmd t) (t_commands t) (t_watched t).
Definition set_t_cmd (x : option redisCommand) (t : tclient) : tclient :=
  mkT (t_cl t) (t_multi t) (t_dirty_exec t) (t_close t) x (t_commands t) (t_watched t).
Definition set_t_commands (x : list multiCmd) (t : tclient) : tclient :=
  mkT (t_cl t) (t_multi t) (t_dirty_exec t) (t_close t) (t_cmd t) x (t_watched t).
Definition set_t_watched (x : list watchedKey) (t : tclient) : tclient :=
  mkT (t_cl t) (t_multi t) (t_dirty_exec t) (t_close t) (t_cmd t) (t_commands t) x.

Definition t_reply (r : reply) (t : tclient) : tclient := set_t_cl (add_reply r (t_cl t)) t.
Definition t_id (t : tclient) : Z := cl_id (t_cl t).

(** [argc] pointers from [argv] on. *)
Definition args_of (argv : list (option addr)) (argc : Z) : outcome (list addr) :=
  mapM (fun a => match a with Some a => Done a | None => Fault Dangling end) (take (Z.to_nat argc) argv) ≫= fun l =>
  _ ← require_b OutOfBounds (Z.of_nat (length l) =? argc); mret l.

Definition flag (f : ascii) (c : redisCommand) : bool := existsb (fun x => bool_decide (x = f)) (str (cmd_sflags c)).
Definition REDIS_CMD_WRITE (c : redisCommand) : bool := flag "w" c.
Definition REDIS_CMD_READONLY (c : redisCommand) : bool := flag "r" c.
Definition REDIS_CMD_DENYOOM (c : redisCommand) : bool := flag "m" c.
Definition REDIS_CMD_LOADING (c : redisCommand) : bool := flag "l" c.
Definition REDIS_CMD_STALE (c : redisCommand) : bool := flag "t" c.

(** Every procedure that processCommand compares with has one name in the table. *)
Definition named (ns : list string) (c : redisCommand) : bool := existsb (fun n => bool_decide (n = cmd_name c)) ns.

(** ** WATCH *)
(** [wk->db == c->db && equalStringObjects(key,wk->key)] for some [wk]. *)
Fixpoint already_watched (key : addr) (db : nat) (l : list watchedKey) : M bool :=
  match l with
  | [] => mret false
  | wk :: r =>
    if (wk_db wk =? db)%nat then
      ko ← deref key; wo ← deref (wk_key wk);
      b ← lift (equalStringObjects key (wk_key wk) ko wo);
      if (b : bool) then mret true else already_watched key db r
    else already_watched key db r
  end.

(** The bytes by which an object is a key of watched_keys. *)
Definition key_bytes (a : addr) : M sds := o ← deref a; lift (sds_of o).

Definition upd_watched (i : nat) (f : gmap sds (addr * list Z) -> gmap sds (addr * list Z)) : M unit :=
  upd_db i (fun d => set_db_watched (f (db_watched d)) d).

Definition watchForKey (t : tclient) (key : addr) : M tclient :=
  let db := cl_db (t_cl t) in
  w ← already_watched key db (t_watched t);
  if (w : bool) then mret t
  else
    k ← key_bytes key;
    clients ← gets (fun s => db_watched (get_db s db) !! k);
    _ ← (match clients with
         | None => _ ← upd_watched db (<[k := (key, [t_id t])]>); incrRefCount key
         | Some (ko, cs) => upd_watched db (<[k := (ko, cs ++ [t_id t])]>)
         end);
    _ ← incrRefCount key;
    mret (set_t_watched (t_watched t ++ [mkWatched key db]) t).

(** [listDelNode(clients,listSearchKey(clients,c))] *)
Fixpoint del_client (id : Z) (cs : list Z) : outcome (list Z) :=
  match cs with
  | [] => Fault NullDeref
  | x :: r => if x =? id then mret r else r ← del_client id r; mret (x :: r)
  end.

Definition unwatch_key (id : Z) (wk : watchedKey) : M unit :=
  k ← key_bytes (wk_key wk);
  e ← gets (fun s => db_watched (get_db s (wk_db wk)) !! k);
  e ← lift (expect AssertFail e);
  cs ← lift (del_client id (snd e));
  _ ← (match cs with
       | [] => _ ← upd_watched (wk_db wk) (delete k); decrRefCount (fst e)
       | _ => upd_watched (wk_db wk) (<[k := (fst e, cs)]>)
       end);
  decrRefCount (wk_key wk).

Definition unwatchAllKeys (t : tclient) : M tclient :=
  _ ← for_each (t_watched t) (unwatch_key (t_id t));
  mret (set_t_watched [] t).

(** ** The transaction *)
Definition decr_args (argv : list (option addr)) (argc : Z) : M unit :=
  l ← lift (args_of argv argc); for_each l decrRefCount.

Definition freeClientMultiState (t : tclient) : M unit :=
  for_each (t_commands t) (fun mc => decr_args (mc_argv mc) (mc_argc mc)).
Definition initClientMultiState (t : tclient) : tclient := set_t_commands [] t.

Definition queueMultiCommand (t : tclient) : M tclient :=
  let c := t_cl t in
  l ← lift (args_of (cl_argv c) (cl_argc c));
  _ ← for_each l incrRefCount;
  mret (set_t_commands (t_commands t ++ [mkMulti (map Some l) (cl_argc c) (t_cmd t)]) t).

Definition clear_dirty_cas (t : tclient) : M unit := modify (fun s => set_dirty_cas (dirty_cas s ∖ {[t_id t]}) s).

Definition discardTransaction (t : tclient) : M tclient :=
  _ ← freeClientMultiState t;
  let t := initClientMultiState t in
  _ ← clear_dirty_cas t;
  unwatchAllKeys (set_t_dirty_exec false (set_t_multi false t)).

Definition flagTransaction (t : tclient) : tclient := if t_multi t then set_t_dirty_exec true t else t.

Definition multiCommand (t : tclient) : M tclient :=
  mret (if t_multi t then t_reply (RErr "ERR MULTI calls can not be nested") t else t_reply ROk (set_t_multi true t)).

Definition discardCommand (t : tclient) : M tclient :=
  if negb (t_multi t) then mret (t_reply (RErr "ERR DISCARD without MULTI") t)
  else t ← discardTransaction t; mret (t_reply ROk t).

Fixpoint watch_loop (keys : list addr) (t : tclient) : M tclient :=
  match keys with
  | [] => mret t
  | k :: r => t ← watchForKey t k; watch_loop r t
  end.
Definition watchCommand (t : tclient) : M tclient :=
  if t_multi t then mret (t_reply (RErr "ERR WATCH inside MULTI is not allowed") t)
  else
    l ← lift (args_of (cl_argv (t_cl t)) (cl_argc (t_cl t)));
    t ← watch_loop (drop 1 l) t;
    mret (t_reply ROk t).

Definition unwatchCommand (t : tclient) : M tclient :=
  t ← unwatchAllKeys t;
  _ ← clear_dirty_cas t;
  mret (t_reply ROk t).

(** ** call *)
Definition propagate (cmd : redisCommand) (dbid : nat) (argv : list (option addr)) (argc : Z) : M unit :=
  l ← lift (args_of argv argc); log_event (Propagate (cmd_name cmd) dbid l).

Definition count_command : M unit := modify (fun s => set_stats (set_stat_numcommands (stat_numcommands (stats s) + 1) (stats s)) s).

(** [call(c,REDIS_CALL_FULL)]; [run] is the procedure of a command. *)
Definition call_with (run : proc -> tclient -> M tclient) (t : tclient) : M tclient :=
  cmd ← lift (expect NullDeref (t_cmd t));
  dirty0 ← gets dirty;
  t ← run (cmd_proc cmd) t;
  dirty1 ← gets dirty;
  cmd ← lift (expect NullDeref (t_cmd t));
  _ ← when (dirty1 - dirty0 >? 0) (propagate cmd (cl_db (t_cl t)) (cl_argv (t_cl t)) (cl_argc (t_cl t)));
  _ ← count_command;
  mret t.

(** Every procedure but EXEC, which processCommand never queues. *)
Definition run_queued (p : proc) (t : tclient) : M tclient :=
  match p with
  | ProcBase f => c ← f (t_cl t); mret (set_t_cl c t)
  | ProcMulti => multiCommand t
  | ProcDiscard => discardCommand t
  | ProcWatch => watchCommand t
  | ProcUnwatch => unwatchCommand t
  | ProcExec => throw Panic
  end.

Definition execCommandPropagateMulti (t : tclient) : M unit :=
  a ← createStringObject (str "MULTI");
  _ ← log_event (Propagate "multi" (cl_db (t_cl t)) [a]);
  decrRefCount a.

(** The loop over the queue: the commands still to run, those done, and
    [must_propagate]. *)
Fixpoint exec_loop (todo done : list multiCmd) (must_propagate : bool) (t : tclient) : M (tclient * list multiCmd * bool) :=
  match todo with
  | [] => mret (t, done, must_propagate)
  | mc :: r =>
    let t := set_t_cmd (mc_cmd mc) (set_t_cl (set_cl_argv (mc_argv mc) (set_cl_argc (mc_argc mc) (t_cl t))) t) in
    cmd ← lift (expect NullDeref (mc_cmd mc));
    let first := negb must_propagate && negb (REDIS_CMD_READONLY cmd) in
    _ ← when first (execCommandPropagateMulti t);
    t ← call_with run_queued t;
    exec_loop r (done ++ [mkMulti (cl_argv (t_cl t)) (cl_argc (t_cl t)) (t_cmd t)]) (must_propagate || first) t
  end.

Definition execCommand (t : tclient) : M tclient :=
  if negb (t_multi t) then mret (t_reply (RErr "ERR EXEC without MULTI") t)
  else
    cas ← gets (fun s => bool_decide (t_id t ∈ dirty_cas s));
    if cas || t_dirty_exec t then
      discardTransaction (t_reply (if t_dirty_exec t then RErr "EXECABORT Transaction discarded because of previous errors." else RNullMulti) t)
    else
      t ← unwatchAllKeys t;
      let orig := t in
      r ← exec_loop (t_commands t) [] false (t_reply (RMultiLen (Z.of_nat (length (t_commands t)))) t);
      let '(t, commands, must_propagate) := r in
      let t := set_t_cmd (t_cmd orig) (set_t_cl (set_cl_argv (cl_argv (t_cl orig)) (set_cl_argc (cl_argc (t_cl orig)) (t_cl t))) t) in
      t ← discardTransaction (set_t_commands commands t);
      _ ← when must_propagate (incr_dirty 1);
      mret t.

Definition run_proc (p : proc) (t : tclient) : M tclient :=
  match p with ProcExec => execCommand t | _ => run_queued p t end.
Definition call (t : tclient) : M tclient := call_with run_proc t.

(** ** The command table *)
Section Commands.
Context (other : string -> client -> M client).

Definition redisCommandTable : list redisCommand := [
  mkCmd "get" (ProcBase TString.getCommand) 2 "rF";
  mkCmd "set" (ProcBase TString.setCommand) (-3) "wm";
  mkCmd "setnx" (ProcBase TString.setnxCommand) 3 "wmF";
  mkCmd "setex" (ProcBase TString.setexCommand) 4 "wm";
  mkCmd "psetex" (ProcBase TString.psetexCommand) 4 "wm";
  mkCmd "append" (ProcBase TString.appendCommand) 3 "wm";
  mkCmd "strlen" (ProcBase TString.strlenCommand) 2 "rF";
  mkCmd "del" (ProcBase Db.delCommand) (-2) "w";
  mkCmd "exists" (ProcBase Db.existsCommand) 2 "rF";
  mkCmd "setbit" (ProcBase (other "setbitCommand")) 4 "wm";
  mkCmd "getbit" (ProcBase (other "getbitCommand")) 3 "rF";
  mkCmd "setrange" (ProcBase TString.setrangeCommand) 4 "wm";
  mkCmd "getrange" (ProcBase TString.getrangeCommand) 4 "r";
  mkCmd "substr" (ProcBase TString.getrangeCommand) 4 "r";
  mkCmd "incr" (ProcBase TString.incrCommand) 2 "wmF";
  mkCmd "decr" (ProcBase TString.decrCommand) 2 "wmF";
  mkCmd "mget" (ProcBase TString.mgetCommand) (-2) "r";
  mkCmd "rpush" (ProcBase TList.rpushCommand) (-3) "wmF";
  mkCmd "lpush" (ProcBase TList.lpushCommand) (-3) "wmF";
  mkCmd "rpushx" (ProcBase TList.rpushxCommand) 3 "wmF";
  mkCmd "lpushx" (ProcBase TList.lpushxCommand) 3 "wmF";
  mkCmd "linsert" (ProcBase TList.linsertCommand) 5 "wm";
  mkCmd "rpop" (ProcBase TList.rpopCommand) 2 "wF";
  mkCmd "lpop" (ProcBase TList.lpopCommand) 2 "wF";
  mkCmd "brpop" (ProcBase (other "brpopCommand")) (-3) "ws";
  mkCmd "brpoplpush" (ProcBase (other "brpoplpushCommand")) 4 "wms";
  mkCmd "blpop" (ProcBase (other "blpopCommand")) (-3) "ws";
  mkCmd "llen" (ProcBase TList.llenCommand) 2 "rF";
  mkCmd "lindex" (ProcBase TList.lindexCommand) 3 "r";
  mkCmd "lset" (ProcBase TList.lsetCommand) 4 "wm";
  mkCmd "lrange" (ProcBase TList.lrangeCommand) 4 "r";
  mkCmd "ltrim" (ProcBase TList.ltrimCommand) 4 "w";
  mkCmd "lrem" (ProcBase TList.lremCommand) 4 "w";
  mkCmd "rpoplpush" (ProcBase TList.rpoplpushCommand) 3 "wm";
  mkCmd "sadd" (ProcBase TSet.saddCommand) (-3) "wmF";
  mkCmd "srem" (ProcBase TSet.sremCommand) (-3) "wF";
  mkCmd "smove" (ProcBase TSet.smoveCommand) 4 "wF";
  mkCmd "sismember" (ProcBase TSet.sismemberCommand) 3 "rF";
  mkCmd "scard" (ProcBase TSet.scardCommand) 2 "rF";
  mkCmd "spop" (ProcBase TSet.spopCommand) 2 "wRsF";
  mkCmd "srandmember" (ProcBase TSetAlg.srandmemberCommand) (-2) "rR";
  mkCmd "sinter" (ProcBase TSetAlg.sinterCommand) (-2) "rS";
  mkCmd "sinterstore" (ProcBase TSetAlg.sinterstoreCommand) (-3) "wm";
  mkCmd "sunion" (ProcBase TSetAlg.sunionCommand) (-2) "rS";
  mkCmd "sunionstore" (ProcBase TSetAlg.sunionstoreCommand) (-3) "wm";
  mkCmd "sdiff" (ProcBase TSetAlg.sdiffCommand) (-2) "rS";
  mkCmd "sdiffstore" (ProcBase TSetAlg.sdiffstoreCommand) (-3) "wm";
  mkCmd "smembers" (ProcBase TSetAlg.sinterCommand) 2 "rS";
  mkCmd "sscan" (ProcBase (other "sscanCommand")) (-3) "rR";
  mkCmd "zadd" (ProcBase TZset.zaddCommand) (-4) "wmF";
  mkCmd "zincrby" (ProcBase TZset.zincrbyCommand) 4 "wmF";
  mkCmd "zrem" (ProcBase TZset.zremCommand) (-3) "wF";
  mkCmd "zremrangebyscore" (ProcBase TZset.zremrangebyscoreCommand) 4 "w";
  mkCmd "zremrangebyrank" (ProcBase TZset.zremrangebyrankCommand) 4 "w";
  mkCmd "zremrangebylex" (ProcBase TZset.zremrangebylexCommand) 4 "w";
  mkCmd "zunionstore" (ProcBase (other "zunionstoreCommand")) (-4) "wm";
  mkCmd "zinterstore" (ProcBase (other "zinterstoreCommand")) (-4) "wm";
  mkCmd "zrange" (ProcBase TZset.zrangeCommand) (-4) "r";
  mkCmd "zrangebyscore" (ProcBase TZset.zrangebyscoreCommand) (-4) "r";
  mkCmd "zrevrangebyscore" (ProcBase TZset.zrevrangebyscoreCommand) (-4) "r";
  mkCmd "zrangebylex" (ProcBase TZset.zrangebylexCommand) (-4) "r";
  mkCmd "zrevrangebylex" (ProcBase TZset.zrevrangebylexCommand) (-4) "r";
  mkCmd "zcount" (ProcBase TZset.zcountCommand) 4 "rF";
  mkCmd "zlexcount" (ProcBase TZset.zlexcountCommand) 4 "rF";
  mkCmd "zrevrange" (ProcBase TZset.zrevrangeCommand) (-4) "r";
  mkCmd "zcard" (ProcBase TZset.zcardCommand) 2 "rF";
  mkCmd "zscore" (ProcBase TZset.zscoreCommand) 3 "rF";
  mkCmd "zrank" (ProcBase TZset.zrankCommand) 3 "rF";
  mkCmd "zrevrank" (ProcBase TZset.zrevrankCommand) 3 "rF";
  mkCmd "zscan" (ProcBase (other "zscanCommand")) (-3) "rR";
  mkCmd "hset" (ProcBase THash.hsetCommand) 4 "wmF";
  mkCmd "hsetnx" (ProcBase THash.hsetnxCommand) 4 "wmF";
  mkCmd "hget" (ProcBase THash.hgetCommand) 3 "rF";
  mkCmd "hmset" (ProcBase THash.hmsetCommand) (-4) "wm";
  mkCmd "hmget" (ProcBase THash.hmgetCommand) (-3) "r";
  mkCmd "hincrby" (ProcBase THash.hincrbyCommand) 4 "wmF";
  mkCmd "hincrbyfloat" (ProcBase (other "hincrbyfloatCommand")) 4 "wmF";
  mkCmd "hdel" (ProcBase THash.hdelCommand) (-3) "wF";
  mkCmd "hlen" (ProcBase THash.hlenCommand) 2 "rF";
  mkCmd "hkeys" (ProcBase THash.hkeysCommand) 2 "rS";
  mkCmd "hvals" (ProcBase THash.hvalsCommand) 2 "rS";
  mkCmd "hgetall" (ProcBase THash.hgetallCommand) 2 "r";
  mkCmd "hexists" (ProcBase THash.hexistsCommand) 3 "rF";
  mkCmd "hscan" (ProcBase (other "hscanCommand")) (-3) "rR";
  mkCmd "incrby" (ProcBase TString.incrbyCommand) 3 "wmF";
  mkCmd "decrby" (ProcBase TString.decrbyCommand) 3 "wmF";
  mkCmd "incrbyfloat" (ProcBase (other "incrbyfloatCommand")) 3 "wmF";
  mkCmd "getset" (ProcBase TString.getsetCommand) 3 "wm";
  mkCmd "mset" (ProcBase TString.msetCommand) (-3) "wm";
  mkCmd "msetnx" (ProcBase TString.msetnxCommand) (-3) "wm";
  mkCmd "randomkey" (ProcBase (other "randomkeyCommand")) 1 "rR";
  mkCmd "select" (ProcBase Db.selectCommand) 2 "rlF";
  mkCmd "move" (ProcBase Db.moveCommand) 3 "wF";
  mkCmd "rename" (ProcBase Db.renameCommand) 3 "w";
  mkCmd "renamenx" (ProcBase Db.renamenxCommand) 3 "wF";
  mkCmd "expire" (ProcBase Db.expireCommand) 3 "wF";
  mkCmd "expireat" (ProcBase Db.expireatCommand) 3 "wF";
  mkCmd "pexpire" (ProcBase Db.pexpireCommand) 3 "wF";
  mkCmd "pexpireat" (ProcBase Db.pexpireatCommand) 3 "wF";
  mkCmd "keys" (ProcBase (other "keysCommand")) 2 "rS";
  mkCmd "scan" (ProcBase (other "scanCommand")) (-2) "rR";
  mkCmd "dbsize" (ProcBase Db.dbsizeCommand) 1 "rF";
  mkCmd "auth" (ProcBase (other "authCommand")) 2 "rsltF";
  mkCmd "ping" (ProcBase (other "pingCommand")) (-1) "rtF";
  mkCmd "echo" (ProcBase (other "echoCommand")) 2 "rF";
  mkCmd "save" (ProcBase (other "saveCommand")) 1 "ars";
  mkCmd "bgsave" (ProcBase (other "bgsaveCommand")) 1 "ar";
  mkCmd "bgrewriteaof" (ProcBase (other "bgrewriteaofCommand")) 1 "ar";
  mkCmd "shutdown" (ProcBase (other "shutdownCommand")) (-1) "arlt";
  mkCmd "lastsave" (ProcBase (other "lastsaveCommand")) 1 "rRF";
  mkCmd "type" (ProcBase Db.typeCommand) 2 "rF";
  mkCmd "multi" ProcMulti 1 "rsF";
  mkCmd "exec" ProcExec 1 "sM";
  mkCmd "discard" ProcDiscard 1 "rsF";
  mkCmd "sync" (ProcBase (other "syncCommand")) 1 "ars";
  mkCmd "psync" (ProcBase (other "syncCommand")) 3 "ars";
  mkCmd "replconf" (ProcBase (other "replconfCommand")) (-1) "arslt";
  mkCmd "flushdb" (ProcBase Db.flushdbCommand) 1 "w";
  mkCmd "flushall" (ProcBase (other "flushallCommand")) 1 "w";
  mkCmd "sort" (ProcBase (other "sortCommand")) (-2) "wm";
  mkCmd "info" (ProcBase (other "infoCommand")) (-1) "rlt";
  mkCmd "monitor" (ProcBase (other "monitorCommand")) 1 "ars";
  mkCmd "ttl" (ProcBase Db.ttlCommand) 2 "rF";
  mkCmd "pttl" (ProcBase Db.pttlCommand) 2 "rF";
  mkCmd "persist" (ProcBase Db.persistCommand) 2 "wF";
  mkCmd "slaveof" (ProcBase (other "slaveofCommand")) 3 "ast";
  mkCmd "role" (ProcBase (other "roleCommand")) 1 "last";
  mkCmd "debug" (ProcBase (other "debugCommand")) (-2) "as";
  mkCmd "config" (ProcBase (other "configCommand")) (-2) "art";
  mkCmd "subscribe" (ProcBase (other "subscribeCommand")) (-2) "rpslt";
  mkCmd "unsubscribe" (ProcBase (other "unsubscribeCommand")) (-1) "rpslt";
  mkCmd "psubscribe" (ProcBase (other "psubscribeCommand")) (-2) "rpslt";
  mkCmd "punsubscribe" (ProcBase (other "punsubscribeCommand")) (-1) "rpslt";
  mkCmd "publish" (ProcBase (other "publishCommand")) 3 "pltrF";
  mkCmd "pubsub" (ProcBase (other "pubsubCommand")) (-2) "pltrR";
  mkCmd "watch" ProcWatch (-2) "rsF";
  mkCmd "unwatch" ProcUnwatch 1 "rsF";
  mkCmd "restore" (ProcBase (other "restoreCommand")) 4 "awm";
  mkCmd "migrate" (ProcBase (other "migrateCommand")) 6 "aw";
  mkCmd "dump" (ProcBase (other "dumpCommand")) 2 "ar";
  mkCmd "object" (ProcBase (other "objectCommand")) 3 "r";
  mkCmd "client" (ProcBase (other "clientCommand")) (-2) "ars";
  mkCmd "eval" (ProcBase (other "evalCommand")) (-3) "s";
  mkCmd "evalsha" (ProcBase (other "evalShaCommand")) (-3) "s";
  mkCmd "slowlog" (ProcBase (other "slowlogCommand")) (-2) "r";
  mkCmd "script" (ProcBase (other "scriptCommand")) (-2) "ras";
  mkCmd "time" (ProcBase (other "timeCommand")) 1 "rRF";
  mkCmd "bitop" (ProcBase (other "bitopCommand")) (-4) "wm";
  mkCmd "bitcount" (ProcBase (other "bitcountCommand")) (-2) "r";
  mkCmd "bitpos" (ProcBase (other "bitposCommand")) (-3) "r";
  mkCmd "command" (ProcBase (other "commandCommand")) 0 "rlt";
  mkCmd "pfselftest" (ProcBase (other "pfselftestCommand")) 1 "r";
  mkCmd "pfadd" (ProcBase (other "pfaddCommand")) (-2) "wmF";
  mkCmd "pfcount" (ProcBase (other "pfcountCommand")) (-2) "w";
  mkCmd "pfmerge" (ProcBase (other "pfmergeCommand")) (-2) "wm";
  mkCmd "pfdebug" (ProcBase (other "pfdebugCommand")) (-3) "w"
].

(** The dict of commands compares names without case. *)
Definition lookupCommand (name : sds) : option redisCommand :=
  List.find (fun c => strcasecmp_eq (str (cmd_name c)) name) redisCommandTable.

(** ** processCommand *)
(** [g_disk_error]: the error to reply when the last save or the log failed. *)
Record gates := mkGates {
  g_requirepass : bool;
  g_authenticated : bool;
  g_disk_error : option string;
  g_few_slaves : bool;
  g_slave_ro : bool;
  g_from_master : bool;
  g_pubsub : bool;
  g_stale : bool;
  g_lua_timedout : bool
}.

Context (freeMemoryIfNeeded : M bool) (handleClientsBlockedOnLists : M unit) (g : gates).

(** The reply that refuses the command, and whether it is an error that fails
    the transaction. *)
Definition refused (cmd : redisCommand) (c : client) : M (option (reply * bool)) :=
  cf ← gets conf;
  if ((cmd_arity cmd >? 0) && negb (cmd_arity cmd =? cl_argc c)) || (cl_argc c <? - cmd_arity cmd) then
    mret (Some (RErr ("ERR wrong number of arguments for '" ++ cmd_name cmd ++ "' command"), true))
  else if g_requirepass g && negb (g_authenticated g) && negb (named ["auth"] cmd) then
    mret (Some (RErr "NOAUTH Authentication required.", true))
  else
    oom ← (if negb (maxmemory cf =? 0) then ok ← freeMemoryIfNeeded; mret (REDIS_CMD_DENYOOM cmd && negb ok) else mret false);
    if (oom : bool) then mret (Some (RErr "OOM command not allowed when used memory > 'maxmemory'.", true))
    else
      match (if negb (masterhost cf) && (REDIS_CMD_WRITE cmd || named ["ping"] cmd) then g_disk_error g else None) with
      | Some e => mret (Some (RErr e, true))
      | None =>
        if negb (masterhost cf) && REDIS_CMD_WRITE cmd && g_few_slaves g then
          mret (Some (RErr "NOREPLICAS Not enough good slaves to write.", true))
        else if masterhost cf && g_slave_ro g && negb (g_from_master g) && REDIS_CMD_WRITE cmd then
          mret (Some (RErr "READONLY You can't write against a read only slave.", false))
        else if g_pubsub g && negb (named ["ping"; "subscribe"; "unsubscribe"; "psubscribe"; "punsubscribe"] cmd) then
          mret (Some (RErr "ERR only (P)SUBSCRIBE / (P)UNSUBSCRIBE / QUIT allowed in this context", false))
        else if masterhost cf && g_stale g && negb (REDIS_CMD_STALE cmd) then
          mret (Some (RErr "MASTERDOWN Link with MASTER is down and slave-serve-stale-data is set to 'no'.", true))
        else if loading cf && negb (REDIS_CMD_LOADING cmd) then
          mret (Some (RErr "LOADING Redis is loading the dataset in memory", false))
        else if g_lua_timedout g && negb (named ["auth"; "replconf"] cmd) then
          ok ← (if cl_argc c =? 2 then
                  a ← arg_str c 1;
                  let i := default NUL (head a) in
                  mret ((named ["shutdown"] cmd && bool_decide (tolower i = "n"%char)) || (named ["script"] cmd && bool_decide (tolower i = "k"%char)))
                else mret false);
          mret (if (ok : bool) then None else Some (RErr "BUSY Redis is busy running a script. You can only call SCRIPT KILL or SHUTDOWN NOSAVE.", true))
        else mret None
      end.

(** addReplyErrorFormat keeps the reply on one line. *)
Definition no_newlines (x : sds) : sds := map (fun c => if (code c =? 13) || (code c =? 10) then " "%char else c) x.

Definition queues (p : proc) : bool := match p with ProcExec | ProcDiscard | ProcMulti | ProcWatch => false | _ => true end.

(** [true] is REDIS_OK. *)
Definition processCommand (t : tclient) : M (tclient * bool) :=
  name ← arg_str (t_cl t) 0;
  if strcasecmp_eq name (str "quit") then mret (set_t_close true (t_reply ROk t), false)
  else
    let t := set_t_cmd (lookupCommand name) t in
    match t_cmd t with
    | None => mret (t_reply (RErr ("ERR unknown command '" ++ Stdlib.Strings.String.string_of_list_ascii (no_newlines (cstr name)) ++ "'")) (flagTransaction t), true)
    | Some cmd =>
      r ← refused cmd (t_cl t);
      match r with
      | Some (e, fails) => mret (t_reply e (if (fails : bool) then flagTransaction t else t), true)
      | None =>
        if t_multi t && queues (cmd_proc cmd) then
          t ← queueMultiCommand t; mret (t_reply (RStatus (str "QUEUED")) t, true)
        else
          t ← call t;
          _ ← handleClientsBlockedOnLists;
          mret (t, true)
      end
    end.

Definition freeClientArgv (t : tclient) : M tclient :=
  _ ← decr_args (cl_argv (t_cl t)) (cl_argc (t_cl t));
  mret (set_t_cmd None (set_t_cl (set_cl_argc 0 (t_cl t)) t)).
Definition resetClient (t : tclient) : M tclient := freeClientArgv t.
End Commands.

(** * Queueing *)
Lemma for_each_cons {S X} x (l : list X) (b : X -> prog S unit) s s' :
  b x s = Done (tt, s') -> for_each (x :: l) b s = for_each l b s'.
Proof. intros E. cbn [for_each]. by rewrite (prog_bind_step _ _ _ _ _ E). Qed.

(** One more reference to the object [a], and to each object of [l]. *)
Definition one_more (o : robj) : robj := set_o_refcount (o_refcount o + 1) o.
Definition bump (l : list addr) (h : gmap addr robj) : gmap addr robj := fold_left (fun h a => alter one_more a h) l h.

Lemma alter_insert (f : robj -> robj) a o (h : gmap addr robj) : h !! a = Some o -> <[a := f o]> h = alter f a h.
Proof.
  intros Ho. apply map_eq. intros b. destruct (decide (a = b)) as [<-|Hne].
  - by rewrite lookup_insert_eq, lookup_alter_eq, Ho.
  - by rewrite lookup_insert_ne, lookup_alter_ne by done.
Qed.

Lemma bump_alter l a h : bump l (alter one_more a h) = alter one_more a (bump l h).
Proof.
  revert h. induction l as [|b l IH]; intros h; cbn; [done|]. rewrite <- IH. f_equal. destruct (decide (a = b)) as [->|Hne]; [done|].
  apply map_eq. intros c. destruct (decide (a = c)) as [->|Ha]; [|destruct (decide (b = c)) as [->|Hb]].
  - by rewrite (lookup_alter_ne _ _ b c), !lookup_alter_eq, lookup_alter_ne by done.
  - by rewrite lookup_alter_eq, !(lookup_alter_ne _ _ a c), lookup_alter_eq by done.
  - by rewrite !lookup_alter_ne by done.
Qed.

Definition in_use (h : gmap addr robj) (a : addr) : Prop := exists o, h !! a = Some o /\ 0 < o_refcount o.

Lemma in_use_alter h a b : in_use h a -> in_use (alter one_more b h) a.
Proof.
  intros (o & Ho & Hr). destruct (decide (b = a)) as [->|Hne].
  - exists (one_more o). rewrite lookup_alter_eq, Ho. split; [done|]. cbn. lia.
  - exists o. by rewrite lookup_alter_ne.
Qed.
Lemma in_use_bump h a l : in_use h a -> in_use (bump l h) a.
Proof. revert h. induction l as [|b l IH]; intros h Hh; cbn; [done|]. by apply IH, in_use_alter. Qed.

(** The references that are taken can be given back. *)
Lemma incr_all l s : Forall (in_use (heap s)) l -> for_each l incrRefCount s = Done (tt, set_heap (bump l (heap s)) s).
Proof.
  revert s. induction l as [|a l IH]; intros s Hl; [by destruct s|]. apply Forall_cons in Hl as [(o & Ho & Hr) Hl].
  erewrite for_each_cons; [|unfold incrRefCount; by rewrite (upd_obj_Done _ _ _ _ Ho)].
  change (set_o_refcount (o_refcount o + 1) o) with (one_more o). rewrite (alter_insert one_more _ _ _ Ho), IH; [done|].
  eapply Forall_impl; [exact Hl|]. intros b. apply in_use_alter.
Qed.

Lemma decr_all l s h : heap s = bump l h -> Forall (in_use h) l -> for_each l decrRefCount s = Done (tt, set_heap h s).
Proof.
  revert s. induction l as [|a l IH]; intros s Hs Hl; [cbn in *; subst h; by destruct s|]. apply Forall_cons in Hl as [Ha Hl].
  cbn [bump fold_left] in Hs. change (fold_left _ l ?x) with (bump l x) in Hs. rewrite bump_alter in Hs.
  destruct (in_use_bump h a l Ha) as (o & Ho & Hr). assert (Hso : heap s !! a = Some (one_more o)) by (by rewrite Hs, lookup_alter_eq, Ho).
  erewrite for_each_cons.
  2:{ unfold decrRefCount. cbn [decrRefCount_at]. rewrite (bind_deref _ _ _ _ Hso). cbn [one_more o_refcount set_o_refcount].
      rewrite (proj2 (Z.leb_gt (o_refcount o + 1) 0)), (proj2 (Z.eqb_neq (o_refcount o + 1) 1)) by lia. by rewrite (upd_obj_Done _ _ _ _ Hso). }
  rewrite (IH _); [done| |done]. cbn [heap set_heap]. rewrite Hs. apply map_eq. intros b. destruct (decide (a = b)) as [<-|Hne].
  - rewrite lookup_insert_eq, Ho. destruct o. cbn. by rewrite Z.add_simpl_r.
  - by rewrite lookup_insert_ne, lookup_alter_ne by done.
Qed.

Lemma args_of_Some l : args_of (map Some l) (Z.of_nat (length l)) = Done l.
Proof.
  unfold args_of. rewrite Nat2Z.id, take_ge by (by rewrite length_map).
  assert (mapM (fun a => match a with Some a => Done a | None => Fault Dangling end) (map Some l) = Done l) as ->.
  { induction l as [|a l IH]; [done|]. cbn. by rewrite IH. }
  cbn. by rewrite Z.eqb_refl.
Qed.

(** The arguments of a client, when it holds exactly those. *)
Definition holds (l : list addr) (t : tclient) : Prop := cl_argv (t_cl t) = map Some l /\ cl_argc (t_cl t) = Z.of_nat (length l).

Lemma queueMultiCommand_ok l t s : holds l t -> Forall (in_use (heap s)) l ->
  queueMultiCommand t s = Done (set_t_commands (t_commands t ++ [mkMulti (map Some l) (Z.of_nat (length l)) (t_cmd t)]) t, set_heap (bump l (heap s)) s).
Proof. intros [Hv Hc] Hl. unfold queueMultiCommand. rewrite Hv, Hc, args_of_Some, bind_lift. by rewrite (prog_bind_step _ _ _ _ _ (incr_all l s Hl)). Qed.

Lemma resetClient_ok l t s h : holds l t -> heap s = bump l h -> Forall (in_use h) l ->
  resetClient t s = Done (set_t_cmd None (set_t_cl (set_cl_argc 0 (t_cl t)) t), set_heap h s).
Proof.
  intros [Hv Hc] Hs Hl. unfold resetClient, freeClientArgv, decr_args. rewrite Hv, Hc, bind_assoc, args_of_Some, bind_lift.
  by rewrite (prog_bind_step _ _ _ _ _ (decr_all l s h Hs Hl)).
Qed.

Section Queue.
Context (other : string -> client -> M client) (freeMemoryIfNeeded : M bool) (handleClientsBlockedOnLists : M unit) (g : gates).

(** A command as networking.c has parsed it: its arguments are the client's
    only references to them. *)
Definition with_args (l : list addr) (t : tclient) : tclient :=
  set_t_cl (set_cl_argv (map Some l) (set_cl_argc (Z.of_nat (length l)) (t_cl t))) t.

(** A command that is queued, and its arguments that are given back. *)
Lemma queued_ok (t : tclient) (s : server) (l : list addr) (name : sds) (cmd : redisCommand) :
  t_multi t = true -> arg_str (t_cl (with_args l t)) 0 s = Done (name, s) -> strcasecmp_eq name (str "quit") = false ->
  lookupCommand other name = Some cmd -> queues (cmd_proc cmd) = true ->
  refused freeMemoryIfNeeded g cmd (t_cl (with_args l t)) s = Done (None, s) -> Forall (in_use (heap s)) l ->
  exists t1 s1 t', processCommand other freeMemoryIfNeeded handleClientsBlockedOnLists g (with_args l t) s = Done ((t1, true), s1) /\
    resetClient t1 s1 = Done (t', s) /\ t_commands t' = t_commands t ++ [mkMulti (map Some l) (Z.of_nat (length l)) (Some cmd)] /\
    cl_replies (t_cl t') = cl_replies (t_cl t) ++ [RStatus (str "QUEUED")] /\ t_multi t' = true /\ t_dirty_exec t' = t_dirty_exec t /\ t_watched t' = t_watched t.
Proof using Type.
  intros Hm Hn Hq Hl Hp Hr Hu. unfold processCommand. rewrite (prog_bind_step _ _ _ _ _ Hn), Hq, Hl. cbn [t_cmd set_t_cmd t_cl].
  change (t_cl (set_t_cmd (Some cmd) (with_args l t))) with (t_cl (with_args l t)). rewrite (prog_bind_step _ _ _ _ _ Hr).
  change (t_multi (set_t_cmd (Some cmd) (with_args l t))) with (t_multi t). rewrite Hm, Hp. cbn [andb].
  rewrite (prog_bind_step _ _ _ _ _ (queueMultiCommand_ok l (set_t_cmd (Some cmd) (with_args l t)) s (conj eq_refl eq_refl) Hu)).
  eexists _, _, _. split; [reflexivity|]. erewrite (resetClient_ok l _ _ (heap s)) by done. split; [by destruct s|]. cbn. by rewrite Hm.
Qed.
End Queue.

(** A server with nothing in the way of a command. *)
Definition open_gates : gates := mkGates false false None false false false false false false.
Definition no_other (n : string) (c : client) : M client := mret c.

End Multi.
