(* ===== verification/Watch.v ===== *)
(** * WATCH refines a table of who watches what

    Optimistic locking is spread over three places: the keys a client watches
    ([t_watched]), the clients that watch a key ([db_watched], one table per
    database) and the flag REDIS_DIRTY_CAS of each client ([dirty_cas]); the
    objects that name the keys are shared between them and counted.  Here the
    three are shown to implement one set of (client, database, key) and one set
    of aborted clients, through every operation of multi.c. *)
From S2P Require Import Prelude CStr Util Server Object Db Multi.
Import Object Db Multi.

Module Watch.

(** ** The specification *)
Record wspec := mkSpec { watching : gset (Z * nat * sds); aborted : gset Z }.

Definition spec_watch (id : Z) (j : nat) (k : sds) (a : wspec) : wspec := mkSpec ({[(id, j, k)]} ∪ watching a) (aborted a).
Definition spec_unwatch (id : Z) (a : wspec) : wspec := mkSpec (filter (fun w => fst (fst w) <> id) (watching a)) (aborted a ∖ {[id]}).
(** The watchers of a key that satisfies [P] are aborted. *)
Definition spec_touch (P : nat * sds -> bool) (a : wspec) : wspec :=
  mkSpec (watching a) (set_map (fun w => fst (fst w)) (filter (fun w => P (snd (fst w), snd w) = true) (watching a)) ∪ aborted a).

(** ** FLUSHDB and FLUSHALL *)
Definition flush_key (id : Z) (dbid : Z) (wk : watchedKey) : M unit :=
  if (dbid =? -1) || (Z.of_nat (wk_db wk) =? dbid) then
    k ← key_bytes (wk_key wk);
    found ← gets (fun s => bool_decide (is_Some (db_dict (get_db s (wk_db wk)) !! k)));
    when found (modify (fun s => set_dirty_cas ({[id]} ∪ dirty_cas s) s))
  else mret tt.

(** [ts] is server.clients; -1 stands for every database. *)
Definition touchWatchedKeysOnFlush (ts : list tclient) (dbid : Z) : M unit :=
  for_each ts (fun t => for_each (t_watched t) (flush_key (t_id t) dbid)).

(** ** The clients of a server *)
Inductive client_op := Watch | Unwatch | UnwatchAll | Begin | Queue | Discard | Reset.

Definition run_op (o : client_op) : tclient -> M tclient :=
  match o with
  | Watch => watchCommand
  | Unwatch => unwatchCommand
  | UnwatchAll => unwatchAllKeys
  | Begin => multiCommand
  | Queue => queueMultiCommand
  | Discard => discardCommand
  | Reset => resetClient
  end.

(** What a step means to the specification. *)
Inductive label :=
  | LWatch (id : Z) (j : nat) (ks : list sds)
  | LForget (id : Z)
  | LUnwatch (id : Z)
  | LTouch (P : nat * sds -> bool)
  | LNone.

(** [spec_unwatch] without the flag. *)
Definition spec_forget (id : Z) (a : wspec) : wspec := mkSpec (filter (fun w => fst (fst w) <> id) (watching a)) (aborted a).
Definition spec_watches (id : Z) (j : nat) (ks : list sds) (a : wspec) : wspec := fold_left (fun a k => spec_watch id j k a) ks a.
Definition spec_label (l : label) (a : wspec) : wspec :=
  match l with
  | LWatch id j ks => spec_watches id j ks a
  | LForget id => spec_forget id a
  | LUnwatch id => spec_unwatch id a
  | LTouch P => spec_touch P a
  | LNone => a
  end.
Definition spec_labels (ls : list label) (a : wspec) : wspec := fold_left (fun a l => spec_label l a) ls a.

(** ** Counted references *)
Definition count (a : addr) (l : list addr) : Z := Z.of_nat (length (filter (fun x => x = a) l)).

(** [h] has a string object for each address of [refs], counted at least as
    often as it is there. *)
Definition covers (refs : list addr) (h : gmap addr robj) : Prop :=
  forall a, a ∈ refs -> exists o, h !! a = Some o /\ o_type o = REDIS_STRING /\ o_encoding o = ENC_RAW /\ is_Some (match sds_of o with Done k => Some k | _ => None end)
    /\ count a refs <= o_refcount o.

Definition str_at (h : gmap addr robj) (a : addr) : option sds := o ← h !! a; match sds_of o with Done k => Some k | _ => None end.
Definition same_str (refs : list addr) (h h' : gmap addr robj) : Prop := forall a, a ∈ refs -> str_at h' a = str_at h a.

Lemma count_app a l l' : count a (l ++ l') = count a l + count a l'.
Proof. unfold count. rewrite filter_app, length_app. lia. Qed.
Lemma count_cons a x l : count a (x :: l) = (if decide (x = a) then 1 else 0) + count a l.
Proof. unfold count. rewrite filter_cons. destruct (decide (x = a)); cbn [length]; lia. Qed.
Lemma count_nonneg a l : 0 <= count a l.
Proof. unfold count. lia. Qed.
Lemma count_pos a l : a ∈ l <-> 0 < count a l.
Proof.
  induction l as [|x l IH]; [split; [by intros ?%not_elem_of_nil|by cbn]|]. rewrite elem_of_cons, IH, count_cons.
  pose proof (count_nonneg a l). destruct (decide (x = a)) as [->|Hne]; split; try lia; naive_solver lia.
Qed.
#[export] Instance count_perm a : Proper ((≡ₚ) ==> eq) (count a).
Proof. intros l l' Hl. unfold count. by rewrite Hl. Qed.

Lemma covers_sub l l' h : l ⊆+ l' -> covers l' h -> covers l h.
Proof.
  intros [r Hr]%submseteq_Permutation Hc a Ha. destruct (Hc a) as (o & Ho & Ht & He & Hs & Hn).
  { rewrite Hr. apply elem_of_app. by left. }
  exists o. repeat (split; [done|]). rewrite Hr, count_app in Hn. pose proof (count_nonneg a r). lia.
Qed.
Lemma covers_incr x l h : x ∈ l -> covers l h -> covers (x :: l) (alter one_more x h) /\ same_str l h (alter one_more x h).
Proof.
  intros Hx Hc. assert (Hx' : forall a, a ∈ x :: l -> a ∈ l) by (intros a [->|?]%elem_of_cons; done). split.
  - intros a Ha. destruct (Hc a (Hx' a Ha)) as (o & Ho & Ht & He & Hs & Hn). rewrite count_cons. destruct (decide (x = a)) as [->|Hne].
    + exists (one_more o). rewrite lookup_alter_eq, Ho. repeat (split; [done|]). cbn. lia.
    + exists o. rewrite lookup_alter_ne by done. repeat (split; [done|]). lia.
  - intros a Ha. unfold str_at. destruct (decide (x = a)) as [->|Hne]; [|by rewrite lookup_alter_ne]. rewrite lookup_alter_eq. by destruct (h !! a).
Qed.

Lemma incr_covers x l s : x ∈ l -> covers l (heap s) ->
  incrRefCount x s = Done (tt, set_heap (alter one_more x (heap s)) s).
Proof.
  intros Hx Hc. destruct (Hc x Hx) as (o & Ho & _). unfold incrRefCount. rewrite (upd_obj_Done _ _ _ _ Ho). do 3 f_equal. by rewrite <- (alter_insert one_more _ _ _ Ho).
Qed.

(** Releasing a reference frees the object or not; the references that stay
    are not affected. *)
Definition release (x : addr) (o : robj) (h : gmap addr robj) : gmap addr robj :=
  if o_refcount o =? 1 then delete x h else <[x := set_o_refcount (o_refcount o - 1) o]> h.

Lemma decr_covers x l s : covers (x :: l) (heap s) ->
  exists h, decrRefCount x s = Done (tt, set_heap h s) /\ covers l h /\ same_str l (heap s) h.
Proof.
  intros Hc. destruct (Hc x) as (o & Ho & Ht & He & Hs & Hn); [apply elem_of_cons; by left|]. rewrite count_cons, decide_True in Hn by done.
  pose proof (count_nonneg x l) as Hp. exists (release x o (heap s)). split; [|split].
  - unfold decrRefCount, release. cbn [decrRefCount_at]. rewrite (bind_deref _ _ _ _ Ho), (proj2 (Z.leb_gt (o_refcount o) 0)) by lia.
    destruct (o_refcount o =? 1) eqn:E; [|by rewrite (upd_obj_Done _ _ _ _ Ho)]. rewrite Ht. unfold freeStringObject. rewrite bind_lift. cbn [for_each]. rewrite bind_mret. unfold zfree. by rewrite Ho.
  - intros a Ha. destruct (Hc a) as (o' & Ho' & Ht' & He' & Hs' & Hn'); [apply elem_of_cons; by right|]. rewrite count_cons in Hn'.
    apply count_pos in Ha as Ha'. unfold release. destruct (decide (x = a)) as [->|Hne].
    + simplify_eq. rewrite (proj2 (Z.eqb_neq _ _)) by lia. eexists. rewrite lookup_insert_eq. repeat (split; [done|]). cbn. lia.
    + exists o'. destruct (o_refcount o =? 1); [rewrite lookup_delete_ne by done|rewrite lookup_insert_ne by done]; (repeat (split; [done|])); lia.
  - intros a Ha%count_pos. unfold str_at, release. destruct (decide (x = a)) as [->|Hne].
    + rewrite (proj2 (Z.eqb_neq _ _)) by lia. by rewrite lookup_insert_eq, Ho.
    + destruct (o_refcount o =? 1); [by rewrite lookup_delete_ne|by rewrite lookup_insert_ne].
Qed.
Lemma covers_string l h a : covers l h -> a ∈ l ->
  exists o k, h !! a = Some o /\ o_type o = REDIS_STRING /\ o_encoding o = ENC_RAW /\ o_ptr o = PSds k /\ str_at h a = Some k.
Proof.
  intros Hc Ha. destruct (Hc a Ha) as (o & Ho & Ht & He & [k Hk] & _). exists o, k. unfold str_at. rewrite Ho. cbn.
  unfold sds_of in *. destruct (o_ptr o); simplify_eq. done.
Qed.

Lemma memcmp_eq (x y : sds) : length x = length y -> memcmp x y = 0 <-> x = y.
Proof.
  revert y. induction x as [|b x IH]; intros [|c y] Hl; cbn in *; try done. destruct (Z.eqb_spec (code b) (code c)) as [E|E].
  - assert (b = c) as -> by (by rewrite <- (chr_code b), E, chr_code). rewrite IH by lia. split; congruence.
  - split; [lia|congruence].
Qed.

Lemma equal_raw a b oa ob x y : o_type oa = REDIS_STRING -> o_type ob = REDIS_STRING -> o_ptr oa = PSds x -> o_ptr ob = PSds y -> (a = b -> x = y) ->
  equalStringObjects a b oa ob = Done (bool_decide (x = y)).
Proof.
  intros Ha Hb Hx Hy Hab. unfold equalStringObjects, compareStringObjects, string_bytes. rewrite Ha, Hb, Hx, Hy, bool_decide_eq_true_2 by done.
  assert (E : (r ← (if decide (a = b) then Done 0 else mret (if memcmp x y =? 0 then sdslen x - sdslen y else memcmp x y));
               mret (r =? 0)) = Done (bool_decide (x = y))); [|by destruct (o_encoding oa)].
  destruct (decide (a = b)) as [He|Hne]; [by rewrite bool_decide_eq_true_2 by auto|]. cbn. f_equal. unfold sdslen.
  destruct (decide (length x = length y)) as [Hl|Hl].
  - pose proof (memcmp_eq x y Hl) as Hm. destruct (Z.eqb_spec (memcmp x y) 0) as [E|E]; [rewrite bool_decide_eq_true_2 by tauto|rewrite bool_decide_eq_false_2 by tauto]; lia.
  - rewrite bool_decide_eq_false_2 by congruence. destruct (Z.eqb_spec (memcmp x y) 0) as [E|E]; lia.
Qed.

Lemma already_watched_ok l s key db refs : covers refs (heap s) -> key ∈ refs -> Forall (fun wk => wk_key wk ∈ refs) l ->
  already_watched key db l s = Done (bool_decide ((db, str_at (heap s) key) ∈ map (fun wk => (wk_db wk, str_at (heap s) (wk_key wk))) l), s).
Proof.
  intros Hc Hk. destruct (covers_string _ _ _ Hc Hk) as (ko & k & Ho & Ht & He & Hp & Hs). induction l as [|wk l IH]; intros Hl; [done|].
  apply Forall_cons in Hl as [Hw Hl]. destruct (covers_string _ _ _ Hc Hw) as (wo & q & Ho' & Ht' & He' & Hp' & Hs'). cbn [already_watched map].
  rewrite Hs'. destruct (Nat.eqb_spec (wk_db wk) db) as [E|E].
  - rewrite (bind_deref _ _ _ _ Ho), (bind_deref _ _ _ _ Ho'), (equal_raw _ _ _ _ k q), bind_lift by congruence. destruct (bool_decide_reflect (k = q)) as [E'|E'].
    + rewrite bool_decide_eq_true_2; [done|]. rewrite Hs, E, E'. apply elem_of_cons. by left.
    + rewrite IH by done. do 2 f_equal. apply bool_decide_ext. rewrite elem_of_cons. split; [auto|]. intros [[= ]|?]; congruence.
  - rewrite IH by done. do 2 f_equal. apply bool_decide_ext. rewrite elem_of_cons. split; [auto|]. intros [[= ]|?]; congruence.
Qed.

Lemma args_of_length argv argc l : args_of argv argc = Done l -> argc = Z.of_nat (length l).
Proof. unfold args_of. intros (l' & _ & H)%bind_Done_inv. destruct (Z.eqb_spec (Z.of_nat (length l')) argc) as [E|E]; [|done]. by injection H as ->. Qed.

(** ** The refinement relation *)
Definition held (argv : list (option addr)) (argc : Z) : list addr := match args_of argv argc with Done l => l | Fault _ => [] end.
Definition mc_refs (mc : multiCmd) : list addr := held (mc_argv mc) (mc_argc mc).
Definition arg_refs (t : tclient) : list addr := held (cl_argv (t_cl t)) (cl_argc (t_cl t)).
Definition t_refs (t : tclient) : list addr := map wk_key (t_watched t) ++ concat (map mc_refs (t_commands t)) ++ arg_refs t.
Definition db_refs (d : redisDb) : list addr := map (fun kv => fst (snd kv)) (map_to_list (db_watched d)).
Definition tbl_refs (ds : list redisDb) : list addr := concat (map db_refs ds).

Definition watchers (s : server) (j : nat) (k : sds) : list Z := from_option snd [] (db_watched (get_db s j) !! k).
Definition wkeys (h : gmap addr robj) (t : tclient) : list (nat * option sds) := map (fun wk => (wk_db wk, str_at h (wk_key wk))) (t_watched t).

Definition client_ok (s : server) (t : tclient) : Prop :=
  Forall (fun wk => wk_db wk < length (dbs s))%nat (t_watched t) /\ args_of (cl_argv (t_cl t)) (cl_argc (t_cl t)) = Done (arg_refs t) /\
  Forall (fun mc => args_of (mc_argv mc) (mc_argc mc) = Done (mc_refs mc)) (t_commands t).

(** Server and clients implement [a]; the references in [ex] are held by the
    running code. *)
Record refines (ex : list addr) (s : server) (ts : list tclient) (a : wspec) : Prop := mkRefines {
  r_ids : NoDup (map t_id ts);
  r_refs : covers (ex ++ tbl_refs (dbs s) ++ concat (map t_refs ts)) (heap s);
  r_ok : Forall (client_ok s) ts;
  r_table : forall j k id, id ∈ watchers s j k <-> (id, j, k) ∈ watching a;
  r_entry : forall j k e, db_watched (get_db s j) !! k = Some e -> NoDup (snd e) /\ snd e <> [];
  r_client : forall t, t ∈ ts -> NoDup (wkeys (heap s) t) /\ forall j k, (j, Some k) ∈ wkeys (heap s) t <-> (t_id t, j, k) ∈ watching a;
  r_known : forall id j k, (id, j, k) ∈ watching a -> id ∈ map t_id ts;
  r_dirty : dirty_cas s = aborted a
}.

Lemma wkeys_same h h' t : same_str (map wk_key (t_watched t)) h h' -> wkeys h' t = wkeys h t.
Proof.
  intros Hs. unfold wkeys. apply list_fmap_ext. intros i wk Hi. f_equal. apply Hs. apply list_elem_of_fmap. exists wk. split; [done|]. by eapply list_elem_of_lookup_2.
Qed.

Lemma elem_t_refs x t ts : t ∈ ts -> x ∈ t_refs t -> x ∈ concat (map t_refs ts).
Proof. intros Ht Hx. apply list_elem_of_In, in_concat. exists (t_refs t). split; [by apply in_map, list_elem_of_In|by apply list_elem_of_In]. Qed.

Lemma refines_heap ex ex' s ts a h : refines ex s ts a -> covers (ex' ++ tbl_refs (dbs s) ++ concat (map t_refs ts)) h ->
  same_str (concat (map t_refs ts)) (heap s) h -> refines ex' (set_heap h s) ts a.
Proof.
  intros [] Hc Hs. split; try done. intros t Ht. cbn [heap set_heap]. rewrite (wkeys_same (heap s) h t); [by apply r_client0|].
  intros x Hx. apply Hs. apply (elem_t_refs x t ts Ht). apply elem_of_app. by left.
Qed.

Lemma step_incr x ex s ts a : refines ex s ts a -> x ∈ ex ++ concat (map t_refs ts) ->
  let h := alter one_more x (heap s) in
  incrRefCount x s = Done (tt, set_heap h s) /\ refines (x :: ex) (set_heap h s) ts a /\ same_str (ex ++ concat (map t_refs ts)) (heap s) h.
Proof.
  intros HR Hx. assert (Hx' : x ∈ ex ++ tbl_refs (dbs s) ++ concat (map t_refs ts)) by set_solver.
  pose proof (r_refs _ _ _ _ HR) as Hc. split; [by apply (incr_covers x _ _ Hx')|]. destruct (covers_incr _ _ _ Hx' Hc) as [Hc' Hs].
  split; [apply (refines_heap ex); [done|done|]|]; intros y Hy; apply Hs; rewrite !elem_of_app in *; tauto.
Qed.

Lemma step_decr x ex s ts a : refines (x :: ex) s ts a ->
  exists h, decrRefCount x s = Done (tt, set_heap h s) /\ refines ex (set_heap h s) ts a /\ same_str (ex ++ concat (map t_refs ts)) (heap s) h.
Proof.
  intros HR. destruct (decr_covers x _ s (r_refs _ _ _ _ HR)) as (h & E & Hc & Hs). exists h. split; [done|].
  split; [apply (refines_heap (x :: ex)); [done|done|]|]; intros y Hy; apply Hs; rewrite !elem_of_app in *; tauto.
Qed.

Lemma step_decr_list l ex s ts a : refines (l ++ ex) s ts a ->
  exists h, for_each l decrRefCount s = Done (tt, set_heap h s) /\ refines ex (set_heap h s) ts a /\ same_str (ex ++ concat (map t_refs ts)) (heap s) h.
Proof.
  revert s. induction l as [|x l IH]; intros s HR; [exists (heap s); destruct s; done|].
  destruct (step_decr x (l ++ ex) s ts a HR) as (h & E & HR' & Hs). destruct (IH _ HR') as (h' & E' & HR'' & Hs'). exists h'.
  rewrite (for_each_cons _ _ _ _ _ E), E'. split; [done|]. split; [done|]. intros y Hy. rewrite (Hs' y Hy). apply Hs. set_solver.
Qed.

Lemma step_incr_list l ex s ts a : refines ex s ts a -> Forall (fun x => x ∈ concat (map t_refs ts)) l ->
  exists h, for_each l incrRefCount s = Done (tt, set_heap h s) /\ refines (l ++ ex) (set_heap h s) ts a.
Proof.
  revert s ex. induction l as [|x l IH]; intros s ex HR Hl; [exists (heap s); destruct s; done|]. apply Forall_cons in Hl as [Hx Hl].
  destruct (step_incr x ex s ts a HR) as (E & HR' & _); [set_solver|]. destruct (IH _ _ HR' Hl) as (h' & E' & HR''). exists h'.
  rewrite (for_each_cons _ _ _ _ _ E), E'. split; [done|]. destruct HR''. split; try done. eapply covers_sub; [|done]. cbn. solve_submseteq.
Qed.
(** ** One client and one entry of the table at a time *)
Lemma refines_swap ex ex' s l1 t t' l2 a : refines ex s (l1 ++ t :: l2) a -> t_id t' = t_id t -> t_watched t' = t_watched t -> client_ok s t' ->
  ex' ++ t_refs t' ⊆+ ex ++ t_refs t -> refines ex' s (l1 ++ t' :: l2) a.
Proof.
  intros [] Hi Hw Hk Hsub. split; try done.
  - by rewrite map_app, map_cons, Hi, <- map_cons, <- map_app.
  - eapply covers_sub; [|done]. rewrite !map_app, !concat_app, !map_cons. cbn [concat].
    etrans; [|etrans; [apply (submseteq_app _ _ (tbl_refs (dbs s) ++ concat (map t_refs l1) ++ concat (map t_refs l2)) (tbl_refs (dbs s) ++ concat (map t_refs l1) ++ concat (map t_refs l2)) Hsub); done|]];
      solve_submseteq.
  - rewrite Forall_app, Forall_cons in *. tauto.
  - intros t0 Ht0. assert (t0 = t' \/ t0 ∈ l1 ++ t :: l2) as [->|Ht] by set_solver; [|by apply r_client0].
    unfold wkeys. rewrite Hw, Hi. apply r_client0. set_solver.
  - by rewrite map_app, map_cons, Hi, <- map_cons, <- map_app.
Qed.

Definition set_watched (j : nat) (m : gmap sds (addr * list Z)) (s : server) : server :=
  set_dbs (<[j := set_db_watched m (get_db s j)]> (dbs s)) s.
Definition set_entry (j : nat) (k : sds) (e : option (addr * list Z)) (s : server) : server :=
  set_watched j (partial_alter (fun _ => e) k (db_watched (get_db s j))) s.
Definition entry_refs (e : option (addr * list Z)) : list addr := from_option (fun e => [fst e]) [] e.

Lemma get_db_set_watched j m s i : (j < length (dbs s))%nat ->
  get_db (set_watched j m s) i = if decide (i = j) then set_db_watched m (get_db s j) else get_db s i.
Proof.
  intros Hj. unfold set_watched. unfold get_db at 1. cbn [dbs set_dbs]. destruct (decide (i = j)) as [->|Hne].
  - by rewrite list_lookup_insert_eq.
  - by rewrite list_lookup_insert_ne.
Qed.

Lemma delete_entry {A} (m : gmap sds A) k e : delete k (partial_alter (fun _ => e) k m) = delete k m.
Proof.
  apply map_eq. intros i. destruct (decide (i = k)) as [->|Hne]; [by rewrite !lookup_delete_eq|]. by rewrite !lookup_delete_ne, lookup_partial_alter_ne by done.
Qed.

Lemma db_refs_entry d k : db_refs d ≡ₚ entry_refs (db_watched d !! k) ++ map (fun kv => fst (snd kv)) (map_to_list (delete k (db_watched d))).
Proof.
  unfold db_refs. destruct (db_watched d !! k) as [e|] eqn:E; cbn [from_option entry_refs app].
  - by rewrite <- (map_to_list_delete _ _ _ E).
  - by rewrite delete_id.
Qed.

Lemma tbl_refs_entry s j k e : (j < length (dbs s))%nat -> exists r,
  tbl_refs (dbs s) ≡ₚ entry_refs (db_watched (get_db s j) !! k) ++ r /\ tbl_refs (dbs (set_entry j k e s)) ≡ₚ entry_refs e ++ r.
Proof.
  intros Hj. destruct (lookup_lt_is_Some_2 _ _ Hj) as [d Hd]. assert (Hg : get_db s j = d) by (unfold get_db; by rewrite Hd).
  pose proof (take_drop_middle _ _ _ Hd) as Hdb. set (d1 := take j (dbs s)) in *. set (d2 := drop (S j) (dbs s)) in *.
  assert (Hl : length d1 = j) by (unfold d1; rewrite length_take; lia).
  exists (map (fun kv => fst (snd kv)) (map_to_list (delete k (db_watched d))) ++ tbl_refs d1 ++ tbl_refs d2). rewrite Hg. split.
  - rewrite <- Hdb at 1. unfold tbl_refs. rewrite map_app, concat_app, map_cons. cbn [concat]. rewrite (db_refs_entry d k). solve_Permutation.
  - unfold set_entry, set_watched. cbn [dbs set_dbs]. rewrite Hg, <- Hdb at 1. replace j with (length d1 + 0)%nat by lia. rewrite insert_app_r. cbn [insert list_insert].
    unfold tbl_refs. rewrite map_app, concat_app, map_cons. cbn [concat]. rewrite (db_refs_entry _ k). cbn [db_watched set_db_watched].
    rewrite lookup_partial_alter_eq, delete_entry. solve_Permutation.
Qed.
Lemma other_ids l1 t l2 t0 : NoDup (map t_id (l1 ++ t :: l2)) -> t0 ∈ l1 ++ l2 -> t_id t0 <> t_id t.
Proof.
  rewrite map_app, map_cons, NoDup_app, NoDup_cons. intros (_ & Hx & Hy & _) [H0|H0]%elem_of_app E.
  - apply (Hx (t_id t0)); [by apply list_elem_of_fmap_2|]. rewrite E. apply elem_of_cons. by left.
  - apply Hy. rewrite <- E. by apply list_elem_of_fmap_2.
Qed.

(** The entry of the key [k] of database [j] becomes [e], and the client [t] that
    watches it [t']. *)
Lemma refines_entry ex ex' s l1 t t' l2 a a' j k e :
  refines ex s (l1 ++ t :: l2) a -> (j < length (dbs s))%nat -> t_id t' = t_id t -> client_ok s t' ->
  (forall w, w <> (t_id t, j, k) -> w ∈ watching a' <-> w ∈ watching a) -> aborted a' = aborted a ->
  (forall i, i ∈ from_option snd [] e <-> (i, j, k) ∈ watching a') -> (forall x, e = Some x -> NoDup (snd x) /\ snd x <> []) ->
  (NoDup (wkeys (heap s) t') /\ forall j' k', (j', Some k') ∈ wkeys (heap s) t' <-> (t_id t, j', k') ∈ watching a') ->
  ex' ++ entry_refs e ++ t_refs t' ⊆+ ex ++ entry_refs (db_watched (get_db s j) !! k) ++ t_refs t ->
  refines ex' (set_entry j k e s) (l1 ++ t' :: l2) a'.
Proof.
  intros [] Hj Hi Hk Hother Hab He Hnd Hcl Hsub.
  assert (Hids : map t_id (l1 ++ t' :: l2) = map t_id (l1 ++ t :: l2)) by (by rewrite !map_app, !map_cons, Hi).
  assert (Hlen : length (dbs (set_entry j k e s)) = length (dbs s)) by (cbn; by rewrite length_insert).
  assert (Hget : forall i q, db_watched (get_db (set_entry j k e s) i) !! q = if decide ((i, q) = (j, k)) then e else db_watched (get_db s i) !! q).
  { intros i q. unfold set_entry. rewrite get_db_set_watched by done. destruct (decide (i = j)) as [->|Hne]; [|by rewrite decide_False by congruence].
    cbn [db_watched set_db_watched]. destruct (decide (q = k)) as [->|Hne]; [by rewrite lookup_partial_alter_eq, decide_True|].
    by rewrite lookup_partial_alter_ne, decide_False by congruence. }
  split.
  - by rewrite Hids.
  - destruct (tbl_refs_entry s j k e Hj) as (r & Hr & Hr'). eapply covers_sub; [|done]. rewrite Hr, Hr'. rewrite !map_app, !concat_app, !map_cons. cbn [concat].
    set (l := r ++ concat (map t_refs l1) ++ concat (map t_refs l2)).
    etrans; [|etrans; [apply (submseteq_app _ _ l l Hsub); done|]]; unfold l; solve_submseteq.
  - rewrite Forall_app, Forall_cons in *. unfold client_ok in *. rewrite Hlen. tauto.
  - intros i q id. unfold watchers. rewrite Hget. destruct (decide ((i, q) = (j, k))) as [[= -> ->]|Hne]; [by apply He|].
    rewrite Hother by congruence. apply r_table0.
  - intros i q x. rewrite Hget. destruct (decide ((i, q) = (j, k))); [apply Hnd|apply r_entry0].
  - change (heap (set_entry j k e s)) with (heap s). intros t0 Ht0.
    assert (t0 = t' \/ t0 ∈ l1 ++ l2) as [->|Ht] by set_solver; [by rewrite Hi|].
    destruct (r_client0 t0) as [H1 H2]; [set_solver|]. split; [done|]. intros i q. rewrite H2, Hother; [done|].
    pose proof (other_ids _ _ _ _ r_ids0 Ht). congruence.
  - intros id i q H. rewrite Hids. destruct (decide ((id, i, q) = (t_id t, j, k))) as [[= -> -> ->]|Hne].
    + rewrite map_app, map_cons. set_solver.
    + apply (r_known0 id i q). by apply Hother.
  - by rewrite Hab.
Qed.
(** ** WATCH and UNWATCH *)
Lemma key_bytes_ok l s a : covers l (heap s) -> a ∈ l -> exists k, str_at (heap s) a = Some k /\ key_bytes a s = Done (k, s).
Proof.
  intros Hc Ha. destruct (covers_string _ _ _ Hc Ha) as (o & k & Ho & _ & _ & Hp & Hs). exists k. split; [done|].
  unfold key_bytes. rewrite (bind_deref _ _ _ _ Ho). unfold sds_of. by rewrite Hp.
Qed.

Lemma upd_watched_run j f s : upd_watched j f s = Done (tt, set_watched j (f (db_watched (get_db s j))) s).
Proof. done. Qed.

Lemma spec_watch_known id j k a : (id, j, k) ∈ watching a -> spec_watch id j k a = a.
Proof. intros H. destruct a as [w b]. unfold spec_watch. f_equal. cbn in *. set_solver. Qed.

Lemma NoDup_snoc {A} (x : A) l : NoDup l -> x ∉ l -> NoDup (l ++ [x]).
Proof. intros Hl Hx. apply NoDup_app. split; [done|split; [|apply NoDup_singleton]]. intros y Hy ->%list_elem_of_singleton. done. Qed.

(** The client [t] with one more watched key, for which it takes the references
    [key] and, for a new entry, [key]. *)
Lemma refines_watch ex s l1 t l2 a key k e :
  let j := cl_db (t_cl t) in
  let old := db_watched (get_db s j) !! k in
  refines (key :: (match old with None => [key] | _ => [] end) ++ ex) s (l1 ++ t :: l2) a -> str_at (heap s) key = Some k -> (j < length (dbs s))%nat ->
  (j, Some k) ∉ wkeys (heap s) t -> e = (match old with None => (key, [t_id t]) | Some (ko, cs) => (ko, cs ++ [t_id t]) end) ->
  refines ex (set_entry j k (Some e) s) (l1 ++ set_t_watched (t_watched t ++ [mkWatched key j]) t :: l2) (spec_watch (t_id t) j k a).
Proof.
  intros j old HR Hk Hj Hn He. destruct (r_client _ _ _ _ HR t) as [Hnd Hcl]; [set_solver|]. pose proof (r_table _ _ _ _ HR j k) as Htab. unfold watchers in Htab. fold old in Htab.
  assert (Hid : t_id t ∉ from_option snd [] old) by (by rewrite Htab, <- Hcl).
  assert (Hcs : snd e = from_option snd [] old ++ [t_id t]) by (subst e; by destruct old as [[]|]).
  assert (Hwk : wkeys (heap s) (set_t_watched (t_watched t ++ [mkWatched key j]) t) = wkeys (heap s) t ++ [(j, Some k)]) by (unfold wkeys; cbn; rewrite map_app; cbn; by rewrite Hk).
  eapply refines_entry; [exact HR|done|done|..].
  - pose proof (r_ok _ _ _ _ HR) as Hok. rewrite Forall_app, Forall_cons in Hok. destruct Hok as (_ & (H1 & H2 & H3) & _).
    split; [|done]. apply Forall_app. split; [done|]. by apply Forall_singleton.
  - intros w Hw. cbn [watching spec_watch]. rewrite elem_of_union, elem_of_singleton. tauto.
  - done.
  - intros i. cbn [from_option]. rewrite Hcs, elem_of_app, Htab, list_elem_of_singleton. cbn [watching spec_watch]. rewrite elem_of_union, elem_of_singleton. naive_solver.
  - intros x [= <-]. rewrite Hcs. split; [|by destruct (from_option snd [] old)]. apply NoDup_snoc; [|done].
    destruct old as [x|] eqn:E; [|apply NoDup_nil_2]. by destruct (r_entry _ _ _ _ HR j k x E).
  - rewrite Hwk. split; [by apply NoDup_snoc|].
    intros j' k'. rewrite elem_of_app, Hcl, list_elem_of_singleton. cbn [watching spec_watch]. rewrite elem_of_union, elem_of_singleton. naive_solver.
  - fold old. unfold t_refs. cbn [t_watched set_t_watched t_commands]. change (arg_refs (set_t_watched _ t)) with (arg_refs t). rewrite map_app. cbn [map wk_key].
    subst e. destruct old as [[ko cs]|]; cbn [entry_refs from_option fst app]; solve_submseteq.
Qed.
(** What an operation on watched keys leaves alone. *)
Definition same_keys (s s' : server) : Prop :=
  map (fun d => (db_dict d, db_expires d)) (dbs s') = map (fun d => (db_dict d, db_expires d)) (dbs s) /\ events s' = events s /\ dirty s' = dirty s /\ conf s' = conf s.

#[export] Instance same_keys_preorder : PreOrder same_keys.
Proof. split; [done|]. intros s1 s2 s3 (H1 & H2 & H3 & H4) (K1 & K2 & K3 & K4). unfold same_keys. repeat split; congruence. Qed.

Lemma same_keys_heap h s : same_keys s (set_heap h s).
Proof. done. Qed.
Lemma same_keys_entry j k e s : same_keys s (set_entry j k e s).
Proof.
  split; [|done]. cbn [dbs set_entry set_watched set_dbs]. apply list_eq. intros i. rewrite !list_lookup_fmap.
  destruct (decide (i = j)) as [->|Hne]; [|by rewrite list_lookup_insert_ne]. unfold get_db. destruct (dbs s !! j) as [d|] eqn:E.
  - by rewrite list_lookup_insert_eq by (by eapply lookup_lt_Some).
  - apply lookup_ge_None in E. by rewrite list_insert_ge, (lookup_ge_None_2 _ _ E).
Qed.
Lemma same_keys_length s s' : same_keys s s' -> length (dbs s') = length (dbs s).
Proof. intros [H _]. apply (f_equal length) in H. by rewrite !length_map in H. Qed.

Lemma wk_refs t l1 l2 : Forall (fun wk => wk_key wk ∈ concat (map t_refs (l1 ++ t :: l2))) (t_watched t).
Proof.
  apply Forall_forall. intros wk Hw. apply (elem_t_refs _ t); [set_solver|]. apply elem_of_app. left. by apply list_elem_of_fmap_2.
Qed.

Lemma watchForKey_ok s l1 t l2 a key k :
  refines [] s (l1 ++ t :: l2) a -> key ∈ concat (map t_refs (l1 ++ t :: l2)) -> str_at (heap s) key = Some k -> (cl_db (t_cl t) < length (dbs s))%nat ->
  exists w s', watchForKey t key s = Done (set_t_watched w t, s') /\ same_keys s s' /\ same_str (concat (map t_refs (l1 ++ t :: l2))) (heap s) (heap s') /\
    refines [] s' (l1 ++ set_t_watched w t :: l2) (spec_watch (t_id t) (cl_db (t_cl t)) k a).
Proof.
  intros HR Hkey Hk Hj. set (j := cl_db (t_cl t)) in *. pose proof (r_refs _ _ _ _ HR) as Hc. cbn [app] in Hc.
  assert (Hin : key ∈ tbl_refs (dbs s) ++ concat (map t_refs (l1 ++ t :: l2))) by (apply elem_of_app; by right).
  destruct (r_client _ _ _ _ HR t) as [Hnd Hcl]; [set_solver|]. unfold watchForKey. fold j.
  rewrite (prog_bind_step _ _ _ _ _ (already_watched_ok _ _ _ _ _ Hc Hin ltac:(eapply Forall_impl; [apply (wk_refs t l1 l2)|]; intros wk H; apply elem_of_app; by right))).
  change (map _ (t_watched t)) with (wkeys (heap s) t). rewrite Hk. destruct (bool_decide_reflect ((j, Some k) ∈ wkeys (heap s) t)) as [Hw|Hw].
  { exists (t_watched t), s. rewrite spec_watch_known by (by apply Hcl). by destruct t. }
  destruct (key_bytes_ok _ _ _ Hc Hin) as (k' & Hk' & E). rewrite Hk in Hk'. simplify_eq. rewrite (prog_bind_step _ _ _ _ _ E), bind_gets.
  destruct (step_incr key [] s _ a HR Hkey) as (E1 & HR1 & Hs1). cbn [app] in Hs1.
  destruct (step_incr key [key] _ _ a HR1) as (E2 & HR2 & Hs2); [apply elem_of_cons; by left|].
  set (h1 := alter one_more key (heap s)) in *. cbn [heap set_heap] in *. set (h2 := alter one_more key h1) in *.
  assert (Hs : same_str (concat (map t_refs (l1 ++ t :: l2))) (heap s) h2) by (intros x Hx; rewrite Hs2 by (apply elem_of_cons; by right); by apply Hs1).
  destruct (db_watched (get_db s j) !! k') as [[ko cs]|] eqn:Hold.
  - rewrite (prog_bind_step _ _ _ _ _ (upd_watched_run _ _ s)). set (s0 := set_entry j k' (Some (ko, cs ++ [t_id t])) s). change (set_watched _ _ s) with s0.
    rewrite (prog_bind_step _ _ s0 tt (set_heap h1 s0)) by (by apply (incr_covers key (tbl_refs (dbs s) ++ concat (map t_refs (l1 ++ t :: l2))) s0)).
    eexists _, _. split; [reflexivity|]. split; [etrans; [apply same_keys_entry|apply same_keys_heap]|]. split; [done|].
    apply (refines_watch [] (set_heap h1 s) l1 t l2 a key); fold j; change (get_db (set_heap h1 s) j) with (get_db s j); rewrite ?Hold; try done.
    { rewrite <- Hk. by apply Hs1. } by rewrite (wkeys_same (heap s)) by (intros x Hx; apply Hs1; apply list_elem_of_fmap in Hx as (wk & -> & Hwk); revert wk Hwk; apply Forall_forall, wk_refs).
  - rewrite bind_assoc, (prog_bind_step _ _ _ _ _ (upd_watched_run _ _ s)). set (s0 := set_entry j k' (Some (key, [t_id t])) s). change (set_watched _ _ s) with s0.
    rewrite (prog_bind_step _ _ s0 tt (set_heap h1 s0)) by (by apply (incr_covers key (tbl_refs (dbs s) ++ concat (map t_refs (l1 ++ t :: l2))) s0)).
    rewrite (prog_bind_step _ _ (set_heap h1 s0) tt (set_heap h2 s0)) by (by apply (incr_covers key _ (set_heap h1 s0)) with (2 := r_refs _ _ _ _ HR1); apply elem_of_cons; left).
    eexists _, _. split; [reflexivity|]. split; [etrans; [apply same_keys_entry|apply same_keys_heap]|]. split; [done|].
    apply (refines_watch [] (set_heap h2 s) l1 t l2 a key); fold j; change (get_db (set_heap h2 s) j) with (get_db s j); rewrite ?Hold; try done.
    { rewrite <- Hk. by apply Hs. } by rewrite (wkeys_same (heap s)) by (intros x Hx; apply Hs; apply list_elem_of_fmap in Hx as (wk & -> & Hwk); revert wk Hwk; apply Forall_forall, wk_refs).
Qed.
Definition spec_drop (id : Z) (j : nat) (k : sds) (a : wspec) : wspec := mkSpec (watching a ∖ {[(id, j, k)]}) (aborted a).

Lemma del_client_ok id cs : NoDup cs -> id ∈ cs -> exists cs', del_client id cs = Done cs' /\ NoDup cs' /\ forall i, i ∈ cs' <-> i ∈ cs /\ i <> id.
Proof.
  induction cs as [|x cs IH]; intros Hn Hid; [by apply not_elem_of_nil in Hid|]. apply NoDup_cons in Hn as [Hx Hn]. cbn [del_client].
  destruct (Z.eqb_spec x id) as [->|Hne].
  - exists cs. split; [done|]. split; [done|]. intros i. rewrite elem_of_cons. split; [|naive_solver]. intros Hi. split; [by right|]. by intros ->.
  - destruct IH as (cs' & E & Hn' & Hi); [done|set_solver|]. rewrite E. exists (x :: cs'). split; [done|]. split.
    + apply NoDup_cons. rewrite Hi. tauto.
    + intros i. rewrite !elem_of_cons, Hi. naive_solver.
Qed.

Definition entry_of (ko : addr) (cs : list Z) : option (addr * list Z) := match cs with [] => None | _ => Some (ko, cs) end.

(** The client [t] with its first watched key dropped: the running code has the
    references of the client and, when the entry goes, of the table. *)
Lemma refines_unwatch s l1 t l2 a wk w k ko cs cs' :
  let j := wk_db wk in
  refines [] s (l1 ++ t :: l2) a -> t_watched t = wk :: w -> str_at (heap s) (wk_key wk) = Some k ->
  db_watched (get_db s j) !! k = Some (ko, cs) -> NoDup cs' -> (forall i, i ∈ cs' <-> i ∈ cs /\ i <> t_id t) ->
  refines ((match cs' with [] => [ko] | _ => [] end) ++ [wk_key wk]) (set_entry j k (entry_of ko cs') s) (l1 ++ set_t_watched w t :: l2) (spec_drop (t_id t) j k a).
Proof.
  intros j HR Ht Hk Hold Hn Hi. destruct (r_client _ _ _ _ HR t) as [Hnd Hcl]; [set_solver|]. pose proof (r_table _ _ _ _ HR j k) as Htab. unfold watchers in Htab. rewrite Hold in Htab.
  assert (Hwk : wkeys (heap s) t = (j, Some k) :: wkeys (heap s) (set_t_watched w t)) by (unfold wkeys; rewrite Ht; cbn; by rewrite Hk). rewrite Hwk in *. apply NoDup_cons in Hnd as [Hnk Hnd].
  assert (He : from_option snd [] (entry_of ko cs') = cs') by (by destruct cs').
  pose proof (r_ok _ _ _ _ HR) as Hok. rewrite Forall_app, Forall_cons in Hok. destruct Hok as (_ & (H1 & H2 & H3) & _). rewrite Ht in H1. apply Forall_cons in H1 as [Hj H1].
  eapply refines_entry; [exact HR|done|done|done|..].
  - intros x Hx. cbn [watching spec_drop]. rewrite elem_of_difference, elem_of_singleton. tauto.
  - done.
  - intros i. rewrite He, Hi. cbn [watching spec_drop]. rewrite elem_of_difference, elem_of_singleton, <- Htab. cbn. naive_solver.
  - intros x Hx. destruct cs' as [|c r]; [done|]. by injection Hx as <-.
  - split; [done|]. intros j' k'. cbn [watching spec_drop]. rewrite elem_of_difference, elem_of_singleton, <- Hcl, elem_of_cons. split; [|naive_solver].
    intros H. split; [by right|]. by intros [= -> ->].
  - rewrite Hold. unfold t_refs. cbn [t_watched set_t_watched t_commands]. change (arg_refs (set_t_watched _ t)) with (arg_refs t). rewrite Ht. cbn [map wk_key].
    destruct cs'; cbn [entry_refs entry_of from_option fst app]; solve_submseteq.
Qed.

Lemma unwatch_key_ok s l1 t l2 a wk w :
  refines [] s (l1 ++ t :: l2) a -> t_watched t = wk :: w ->
  exists k s', str_at (heap s) (wk_key wk) = Some k /\ unwatch_key (t_id t) wk s = Done (tt, s') /\ same_keys s s' /\
    refines [] s' (l1 ++ set_t_watched w t :: l2) (spec_drop (t_id t) (wk_db wk) k a) /\ same_str (concat (map t_refs (l1 ++ set_t_watched w t :: l2))) (heap s) (heap s').
Proof.
  intros HR Ht. pose proof (wk_refs t l1 l2) as Hin. rewrite Ht in Hin. apply Forall_inv in Hin.
  destruct (key_bytes_ok _ s (wk_key wk) (r_refs _ _ _ _ HR)) as (k & Hk & E); [cbn [app]; apply elem_of_app; by right|]. exists k.
  unfold unwatch_key. rewrite (prog_bind_step _ _ _ _ _ E), bind_gets. set (j := wk_db wk).
  assert (Hid : t_id t ∈ watchers s j k).
  { apply (r_table _ _ _ _ HR). apply (r_client _ _ _ _ HR t); [set_solver|]. unfold wkeys. rewrite Ht. cbn. rewrite Hk. apply elem_of_cons. by left. }
  unfold watchers in Hid. destruct (db_watched (get_db s j) !! k) as [[ko cs]|] eqn:Hold; [|by apply not_elem_of_nil in Hid]. cbn in Hid.
  destruct (r_entry _ _ _ _ HR _ _ _ Hold) as [Hnd _]. cbn [snd] in Hnd. destruct (del_client_ok _ _ Hnd Hid) as (cs' & Ed & Hnd' & Hi). cbn [expect snd fst]. rewrite bind_lift. cbn [snd fst]. rewrite Ed, bind_lift.
  pose proof (refines_unwatch s l1 t l2 a wk w k ko cs cs' HR Ht Hk Hold Hnd' Hi) as HR'. fold j in HR'. destruct cs' as [|c cs'].
  - rewrite bind_assoc, (prog_bind_step _ _ _ _ _ (upd_watched_run _ _ s)). change (set_watched _ _ s) with (set_entry j k (entry_of ko []) s).
    destruct (step_decr ko [wk_key wk] _ _ _ HR') as (h1 & E1 & HR1 & Hs1). rewrite (prog_bind_step _ _ _ _ _ E1).
    destruct (step_decr (wk_key wk) [] _ _ _ HR1) as (h2 & E2 & HR2 & Hs2). eexists. split; [done|]. split; [exact E2|].
    split; [etrans; [apply (same_keys_entry j k)|done]|]. split; [done|]. intros x Hx. cbn [heap set_heap] in *. rewrite Hs2 by done. apply Hs1. apply elem_of_cons. by right.
  - rewrite (prog_bind_step _ _ _ _ _ (upd_watched_run _ _ s)). change (set_watched _ _ s) with (set_entry j k (entry_of ko (c :: cs')) s).
    destruct (step_decr (wk_key wk) [] _ _ _ HR') as (h2 & E2 & HR2 & Hs2). eexists. split; [done|]. split; [exact E2|].
    split; [etrans; [apply (same_keys_entry j k)|done]|]. by split.
Qed.
Lemma spec_forget_drop id j k a : spec_forget id (spec_drop id j k a) = spec_forget id a.
Proof.
  unfold spec_forget, spec_drop. cbn [watching aborted]. f_equal. apply set_eq. intros w. rewrite !elem_of_filter, elem_of_difference, elem_of_singleton. naive_solver.
Qed.
Lemma spec_forget_id id a : (forall j k, (id, j, k) ∉ watching a) -> spec_forget id a = a.
Proof.
  intros H. destruct a as [w b]. unfold spec_forget. cbn in *. f_equal. apply set_eq. intros [[i j] k]. rewrite elem_of_filter. cbn. naive_solver.
Qed.

Lemma refs_swap l1 t t' l2 : (forall x, x ∈ t_refs t -> x ∈ t_refs t') ->
  forall x, x ∈ concat (map t_refs (l1 ++ t :: l2)) -> x ∈ concat (map t_refs (l1 ++ t' :: l2)).
Proof. intros H x. rewrite !map_app, !concat_app, !map_cons. cbn [concat]. rewrite !elem_of_app. naive_solver. Qed.

Lemma unwatchAllKeys_ok s l1 t l2 a : refines [] s (l1 ++ t :: l2) a ->
  exists s', unwatchAllKeys t s = Done (set_t_watched [] t, s') /\ same_keys s s' /\ refines [] s' (l1 ++ set_t_watched [] t :: l2) (spec_forget (t_id t) a) /\
    same_str (concat (map t_refs (l1 ++ set_t_watched [] t :: l2))) (heap s) (heap s').
Proof.
  intros HR. enough (exists s', for_each (t_watched t) (unwatch_key (t_id t)) s = Done (tt, s') /\ same_keys s s' /\
    refines [] s' (l1 ++ set_t_watched [] t :: l2) (spec_forget (t_id t) a) /\ same_str (concat (map t_refs (l1 ++ set_t_watched [] t :: l2))) (heap s) (heap s')) as (s' & E & H).
  { exists s'. unfold unwatchAllKeys. rewrite (prog_bind_step _ _ _ _ _ E). by split. }
  remember (t_watched t) as w eqn:Hw. symmetry in Hw. revert s t a HR Hw. induction w as [|wk w IH]; intros s t a HR Hw.
  - exists s. assert (set_t_watched [] t = t) as -> by (destruct t; cbn in *; by subst). rewrite spec_forget_id; [done|].
    intros j k Hin. apply (r_client _ _ _ _ HR t) in Hin; [|set_solver]. unfold wkeys in Hin. rewrite Hw in Hin. by apply not_elem_of_nil in Hin.
  - destruct (unwatch_key_ok s l1 t l2 a wk w HR Hw) as (k & s1 & Hk & E & Hsk & HR1 & Hs1).
    destruct (IH s1 (set_t_watched w t) _ HR1 eq_refl) as (s2 & E2 & Hsk2 & HR2 & Hs2). change (t_id (set_t_watched w t)) with (t_id t) in *.
    exists s2. rewrite (for_each_cons _ _ _ _ _ E), E2. split; [done|]. split; [by etrans|]. split; [by rewrite spec_forget_drop in HR2|].
    intros x Hx. change (set_t_watched [] (set_t_watched w t)) with (set_t_watched [] t) in *. rewrite (Hs2 x Hx). apply Hs1. revert x Hx. apply refs_swap.
    intros x Hx. apply elem_of_app. right. exact Hx.
Qed.

Lemma refines_dirty s ts a d : refines [] s ts a -> refines [] (set_dirty_cas d s) ts (mkSpec (watching a) d).
Proof. intros []. by split. Qed.

(** ** Touching keys *)
Lemma signalModifiedKey_ok s ts a j k : refines [] s ts a ->
  exists s', signalModifiedKey j k s = Done (tt, s') /\ same_keys s s' /\ refines [] s' ts (spec_touch (fun q => bool_decide (q = (j, k))) a).
Proof.
  intros HR. pose proof (r_table _ _ _ _ HR j k) as Htab. unfold watchers in Htab. pose proof (r_dirty _ _ _ _ HR) as Hd.
  assert (Hset : forall cs, (forall i, i ∈ cs <-> (i, j, k) ∈ watching a) -> aborted (spec_touch (fun q => bool_decide (q = (j, k))) a) = list_to_set cs ∪ dirty_cas s).
  { intros cs Hcs. cbn [aborted spec_touch]. rewrite Hd. f_equal. apply set_eq. intros i. rewrite elem_of_map, elem_of_list_to_set, Hcs. split.
    - intros ([[i' j'] k'] & -> & [H1 H2]%elem_of_filter). cbn in *. by apply bool_decide_eq_true in H1 as [= -> ->].
    - intros H. exists (i, j, k). split; [done|]. apply elem_of_filter. split; [|done]. by apply bool_decide_eq_true. }
  exists (set_dirty_cas (list_to_set (from_option snd [] (db_watched (get_db s j) !! k)) ∪ dirty_cas s) s). unfold signalModifiedKey, touchWatchedKey, modify.
  split; [|split; [done|]].
  - destruct (db_watched (get_db s j) !! k) as [[ko cs]|]; [done|]. cbn. do 2 f_equal. destruct s. cbn. unfold set_dirty_cas. cbn. f_equal. set_solver.
  - erewrite <- (Hset _ Htab). by apply refines_dirty.
Qed.
(** The keys that a flush of [dbid] deletes. *)
Definition flushed (ds : list redisDb) (dbid : Z) (q : nat * sds) : bool :=
  ((dbid =? -1) || (Z.of_nat (fst q) =? dbid)) && bool_decide (is_Some (db_dict (default empty_db (ds !! fst q)) !! snd q)).

Lemma set_dirty_cas_same s : set_dirty_cas (dirty_cas s) s = s.
Proof. by destruct s. Qed.

Lemma flush_keys_ok refs id dbid w s : covers refs (heap s) -> Forall (fun wk => wk_key wk ∈ refs) w ->
  exists d, for_each w (flush_key id dbid) s = Done (tt, set_dirty_cas d s) /\
    forall i, i ∈ d <-> i ∈ dirty_cas s \/ (i = id /\ exists j k, (j, Some k) ∈ map (fun wk => (wk_db wk, str_at (heap s) (wk_key wk))) w /\ flushed (dbs s) dbid (j, k) = true).
Proof.
  intros Hc. revert s Hc. induction w as [|wk w IH]; intros s Hc Hw.
  { exists (dirty_cas s). split; [by rewrite set_dirty_cas_same|]. intros i. split; [auto|]. intros [?|(_ & j & k & H & _)]; [done|]. by apply not_elem_of_nil in H. }
  apply Forall_cons in Hw as [Hk Hw]. destruct (key_bytes_ok _ _ _ Hc Hk) as (k & Hs & E).
  assert (exists b, flush_key id dbid wk s = Done (tt, set_dirty_cas (if (b : bool) then {[id]} ∪ dirty_cas s else dirty_cas s) s) /\ b = flushed (dbs s) dbid (wk_db wk, k)) as (b & Ek & Hb).
  { eexists. split; [|reflexivity]. unfold flush_key, flushed. cbn [fst snd]. destruct (_ || _); cbn [andb]; [|by rewrite set_dirty_cas_same]. rewrite (prog_bind_step _ _ _ _ _ E), bind_gets.
    unfold get_db. destruct (bool_decide _); [done|]. by rewrite set_dirty_cas_same. }
  rewrite (for_each_cons _ _ _ _ _ Ek). destruct (IH (set_dirty_cas (if b then {[id]} ∪ dirty_cas s else dirty_cas s) s)) as (d & Ed & Hd); [done|done|].
  exists d. split; [done|]. intros i. rewrite Hd. cbn [heap dbs dirty_cas set_dirty_cas map]. rewrite Hs. setoid_rewrite elem_of_cons. clear -Hb. split.
  - intros [H|(-> & j & q & H)]; [|right; naive_solver]. destruct b; [|by left]. apply elem_of_union in H as [->%elem_of_singleton|H]; [|by left]. right. eauto 6.
  - intros [H|(-> & j & q & [[= -> ->]|H] & Hf)]; [left; destruct b; [apply elem_of_union; by right|done]| |right; eauto].
    left. assert (b = true) as -> by congruence. apply elem_of_union. left. by apply elem_of_singleton.
Qed.

Lemma flush_clients_ok refs dbid ts s : covers refs (heap s) -> Forall (fun t => Forall (fun wk => wk_key wk ∈ refs) (t_watched t)) ts ->
  exists d, touchWatchedKeysOnFlush ts dbid s = Done (tt, set_dirty_cas d s) /\
    forall i, i ∈ d <-> i ∈ dirty_cas s \/ exists t, t ∈ ts /\ i = t_id t /\ exists j k, (j, Some k) ∈ wkeys (heap s) t /\ flushed (dbs s) dbid (j, k) = true.
Proof.
  intros Hc. revert s Hc. unfold touchWatchedKeysOnFlush. induction ts as [|t ts IH]; intros s Hc Hw.
  { exists (dirty_cas s). split; [by rewrite set_dirty_cas_same|]. intros i. split; [auto|]. intros [?|(t & H & _)]; [done|]. by apply not_elem_of_nil in H. }
  apply Forall_cons in Hw as [Ht Hw]. destruct (flush_keys_ok refs (t_id t) dbid _ s Hc Ht) as (d1 & E1 & H1).
  rewrite (for_each_cons t ts (fun t => for_each (t_watched t) (flush_key (t_id t) dbid)) s _ E1).
  destruct (IH (set_dirty_cas d1 s)) as (d & E & H); [done|done|]. exists d. split; [done|]. intros i. rewrite H. cbn [dirty_cas set_dirty_cas heap dbs]. rewrite H1.
  setoid_rewrite elem_of_cons. unfold wkeys. split; [intros [[?|(-> & H2)]|(t0 & H2 & H3)]|intros [?|(t0 & [->|H2] & -> & H3)]]; eauto 8.
Qed.

Lemma touchWatchedKeysOnFlush_ok s ts a dbid : refines [] s ts a ->
  exists s', touchWatchedKeysOnFlush ts dbid s = Done (tt, s') /\ same_keys s s' /\ refines [] s' ts (spec_touch (flushed (dbs s) dbid) a).
Proof.
  intros HR. destruct (flush_clients_ok _ dbid ts s (r_refs _ _ _ _ HR)) as (d & E & Hd).
  { apply Forall_forall. intros t Ht. apply Forall_forall. intros wk Hw. rewrite !elem_of_app. do 2 right. apply (elem_t_refs _ t); [done|].
    apply elem_of_app. left. by apply list_elem_of_fmap_2. }
  exists (set_dirty_cas d s). split; [done|]. split; [done|]. assert (d = aborted (spec_touch (flushed (dbs s) dbid) a)) as ->; [|by apply refines_dirty].
  apply set_eq. intros i. rewrite Hd. cbn [aborted spec_touch]. rewrite elem_of_union, elem_of_map, (r_dirty _ _ _ _ HR). split.
  - intros [?|(t & Ht & -> & j & k & H & Hf)]; [by right|]. left. exists (t_id t, j, k). split; [done|]. apply elem_of_filter. split; [done|]. by apply (r_client _ _ _ _ HR t).
  - intros [([[i' j] k] & -> & [Hf H]%elem_of_filter)|?]; [|by left]. right. pose proof (r_known _ _ _ _ HR _ _ _ H) as (t & -> & Ht)%list_elem_of_fmap.
    exists t. split; [done|]. split; [done|]. exists j, k. split; [|done]. by apply (r_client _ _ _ _ HR t).
Qed.

(** FLUSHDB of Db.v reads the clients off the table: it is the same. *)
Lemma flushdb_touch_ok s ts a j : refines [] s ts a -> flushdb_touch j s = touchWatchedKeysOnFlush ts (Z.of_nat j) s.
Proof.
  intros HR. destruct (touchWatchedKeysOnFlush_ok s ts a (Z.of_nat j) HR) as (s' & E & _ & HR').
  destruct (flush_clients_ok _ (Z.of_nat j) ts s (r_refs _ _ _ _ HR)) as (d & E' & _).
  { apply Forall_forall. intros t Ht. apply Forall_forall. intros wk Hw. rewrite !elem_of_app. do 2 right. apply (elem_t_refs _ t); [done|].
    apply elem_of_app. left. by apply list_elem_of_fmap_2. }
  rewrite E' in E. injection E as <-. pose proof (r_dirty _ _ _ _ HR') as Hd. cbn [dirty_cas set_dirty_cas] in Hd. rewrite E'. unfold flushdb_touch, modify. do 3 f_equal. rewrite Hd.
  cbn [aborted spec_touch]. rewrite (r_dirty _ _ _ _ HR). f_equal. apply set_eq. intros i. rewrite elem_of_list_to_set, elem_of_map. split.
  - intros H. apply list_elem_of_In, in_concat in H as (cs & Hcs & Hi). apply list_elem_of_In in Hcs, Hi. apply list_elem_of_fmap in Hcs as ([k [ko cs']] & -> & H).
    apply elem_of_map_to_list, map_lookup_filter_Some in H as [Hw Hk]. exists (i, j, k). split; [done|]. apply elem_of_filter. split.
    + unfold flushed. cbn [fst snd]. by rewrite Z.eqb_refl, orb_true_r, bool_decide_eq_true_2.
    + apply (r_table _ _ _ _ HR). unfold watchers. by rewrite Hw.
  - intros ([[i' j'] k] & -> & [Hf H]%elem_of_filter). cbn [fst snd] in *. apply (r_table _ _ _ _ HR) in H. unfold watchers in H.
    unfold flushed in Hf. cbn [fst snd] in Hf. apply andb_true_iff in Hf as [Hj Hk%bool_decide_eq_true]. assert (j' = j) as -> by lia.
    destruct (db_watched (get_db s j) !! k) as [[ko cs]|] eqn:Hw; [|by apply not_elem_of_nil in H]. apply list_elem_of_In, in_concat. exists cs. split; [|by apply list_elem_of_In].
    apply list_elem_of_In, list_elem_of_fmap. exists (k, (ko, cs)). split; [done|]. apply elem_of_map_to_list, map_lookup_filter_Some. by split.
Qed.
(** ** The commands of a client *)
Lemma refines_client_ok ex s l1 t l2 a : refines ex s (l1 ++ t :: l2) a -> client_ok s t.
Proof. intros HR. pose proof (r_ok _ _ _ _ HR) as H. rewrite Forall_app, Forall_cons in H. tauto. Qed.

Lemma arg_in_refs l1 t l2 x : x ∈ arg_refs t -> x ∈ concat (map t_refs (l1 ++ t :: l2)).
Proof. intros Hx. apply (elem_t_refs _ t); [set_solver|]. unfold t_refs. rewrite !elem_of_app. auto. Qed.

(** The same client up to its flags and its replies. *)
Definition only_flags (t t' : tclient) : Prop :=
  t_watched t' = t_watched t /\ t_commands t' = t_commands t /\ cl_argv (t_cl t') = cl_argv (t_cl t) /\ cl_argc (t_cl t') = cl_argc (t_cl t) /\ t_id t' = t_id t.

Lemma refines_flags ex s l1 t t' l2 a : only_flags t t' -> refines ex s (l1 ++ t :: l2) a -> refines ex s (l1 ++ t' :: l2) a.
Proof.
  intros (Hw & Hc & Hv & Hn & Hi) HR. pose proof (refines_client_ok _ _ _ _ _ _ HR) as Hok. eapply refines_swap; [exact HR|done|done|..].
  - unfold client_ok, arg_refs in *. by rewrite Hw, Hc, Hv, Hn.
  - unfold t_refs, arg_refs. by rewrite Hw, Hc, Hv, Hn.
Qed.

Lemma watch_loop_ok keys ks s l1 t l2 a : refines [] s (l1 ++ t :: l2) a -> (cl_db (t_cl t) < length (dbs s))%nat ->
  Forall2 (fun x k => x ∈ arg_refs t /\ str_at (heap s) x = Some k) keys ks ->
  exists w s', watch_loop keys t s = Done (set_t_watched w t, s') /\ same_keys s s' /\ refines [] s' (l1 ++ set_t_watched w t :: l2) (spec_watches (t_id t) (cl_db (t_cl t)) ks a).
Proof.
  intros HR Hj Hk. revert s t a HR Hj Hk. revert ks. induction keys as [|x keys IH]; intros ks s t a HR Hj Hk.
  { apply Forall2_nil_inv_l in Hk as ->. exists (t_watched t), s. by destruct t. }
  apply Forall2_cons_inv_l in Hk as (k & ks' & [Hx Hs] & Hk & ->). cbn [watch_loop].
  destruct (watchForKey_ok s l1 t l2 a x k HR (arg_in_refs l1 t l2 x Hx) Hs Hj) as (w & s1 & E & Hsk & Hst & HR1). rewrite (prog_bind_step _ _ _ _ _ E).
  destruct (IH ks' s1 (set_t_watched w t) _ HR1) as (w' & s2 & E2 & Hsk2 & HR2).
  - by rewrite (same_keys_length _ _ Hsk).
  - eapply Forall2_impl; [exact Hk|]. intros y q [Hy Hq]. split; [done|]. rewrite Hst; [done|]. by apply arg_in_refs.
  - exists w', s2. split; [done|]. split; [by etrans|done].
Qed.

Lemma args_strings ex s l1 t l2 a l : refines ex s (l1 ++ t :: l2) a -> Forall (fun x => x ∈ arg_refs t) l ->
  Forall2 (fun x k => x ∈ arg_refs t /\ str_at (heap s) x = Some k) l (omap (str_at (heap s)) l).
Proof.
  intros HR. induction l as [|x l IH]; intros Hl; [constructor|]. apply Forall_cons in Hl as [Hx Hl].
  destruct (covers_string _ _ x (r_refs _ _ _ _ HR)) as (o & k & _ & _ & _ & _ & Hk).
  { rewrite !elem_of_app. do 2 right. by apply arg_in_refs. }
  cbn. rewrite Hk. constructor; [done|]. by apply IH.
Qed.

Lemma watchCommand_ok s l1 t l2 a : refines [] s (l1 ++ t :: l2) a -> (cl_db (t_cl t) < length (dbs s))%nat ->
  let ks := if t_multi t then [] else omap (str_at (heap s)) (drop 1 (arg_refs t)) in
  exists t' s', watchCommand t s = Done (t', s') /\ t_id t' = t_id t /\ same_keys s s' /\ refines [] s' (l1 ++ t' :: l2) (spec_watches (t_id t) (cl_db (t_cl t)) ks a).
Proof.
  intros HR Hj ks. destruct (refines_client_ok _ _ _ _ _ _ HR) as (_ & Ha & _). unfold watchCommand. subst ks. destruct (t_multi t).
  { eexists _, s. split; [done|]. split; [done|]. split; [done|]. by apply (refines_flags _ _ _ t). }
  rewrite Ha, bind_lift. destruct (watch_loop_ok _ _ s l1 t l2 a HR Hj (args_strings _ _ _ _ _ _ (drop 1 (arg_refs t)) HR (Forall_drop _ 1 _ (proj2 (Forall_forall _ _) (fun x Hx => Hx)))))
    as (w & s1 & E & Hsk & HR1).
  rewrite (prog_bind_step _ _ _ _ _ E). eexists _, s1. split; [done|]. split; [done|]. split; [done|]. by apply (refines_flags _ _ _ (set_t_watched w t)).
Qed.
Lemma forget_unwatch id a : mkSpec (watching (spec_forget id a)) (aborted a ∖ {[id]}) = spec_unwatch id a.
Proof. done. Qed.

Lemma clear_dirty_cas_ok s l1 t l2 a : refines [] s (l1 ++ t :: l2) a ->
  exists s', clear_dirty_cas t s = Done (tt, s') /\ same_keys s s' /\ refines [] s' (l1 ++ t :: l2) (mkSpec (watching a) (aborted a ∖ {[t_id t]})).
Proof.
  intros HR. eexists. split; [done|]. split; [done|]. rewrite <- (r_dirty _ _ _ _ HR). by apply refines_dirty.
Qed.

Lemma unwatchCommand_ok s l1 t l2 a : refines [] s (l1 ++ t :: l2) a ->
  exists t' s', unwatchCommand t s = Done (t', s') /\ t_id t' = t_id t /\ same_keys s s' /\ refines [] s' (l1 ++ t' :: l2) (spec_unwatch (t_id t) a).
Proof.
  intros HR. destruct (unwatchAllKeys_ok _ _ _ _ _ HR) as (s1 & E1 & Hk1 & HR1 & _). destruct (clear_dirty_cas_ok _ _ _ _ _ HR1) as (s2 & E2 & Hk2 & HR2).
  unfold unwatchCommand. rewrite (prog_bind_step _ _ _ _ _ E1), (prog_bind_step _ _ _ _ _ E2). eexists _, s2. split; [done|]. split; [done|]. split; [by etrans|].
  by apply (refines_flags _ _ _ (set_t_watched [] t)).
Qed.

Lemma for_each_concat {S X Y} (l : list X) (f : X -> list Y) (b : X -> prog S unit) (c : Y -> prog S unit) s :
  Forall (fun x => forall s, b x s = for_each (f x) c s) l -> for_each l b s = for_each (concat (map f l)) c s.
Proof.
  revert s. induction l as [|x l IH]; intros s Hl; [done|]. apply Forall_cons in Hl as [Hx Hl]. cbn [map concat]. rewrite for_each_app. cbn [for_each].
  unfold mbind, prog_bind. rewrite Hx. destruct (for_each (f x) c s) as [[[] s']|]; [|done]. by apply IH.
Qed.

Lemma freeClientMultiState_ok s l1 t l2 a : refines [] s (l1 ++ t :: l2) a ->
  exists s', freeClientMultiState t s = Done (tt, s') /\ same_keys s s' /\ refines [] s' (l1 ++ initClientMultiState t :: l2) a.
Proof.
  intros HR. destruct (refines_client_ok _ _ _ _ _ _ HR) as (H1 & H2 & H3).
  assert (HR1 : refines (concat (map mc_refs (t_commands t)) ++ []) s (l1 ++ initClientMultiState t :: l2) a).
  { eapply refines_swap; [exact HR|done|done|done|]. unfold t_refs. cbn. change (arg_refs (initClientMultiState t)) with (arg_refs t). solve_submseteq. }
  destruct (step_decr_list _ _ _ _ _ HR1) as (h & E & HR2 & _). exists (set_heap h s). split; [|by split]. unfold freeClientMultiState.
  rewrite (for_each_concat _ mc_refs _ decrRefCount); [done|]. eapply Forall_impl; [exact H3|]. intros mc Hmc s0. unfold decr_args. by rewrite Hmc, bind_lift.
Qed.

Lemma discardTransaction_ok s l1 t l2 a : refines [] s (l1 ++ t :: l2) a ->
  exists t' s', discardTransaction t s = Done (t', s') /\ same_keys s s' /\ refines [] s' (l1 ++ t' :: l2) (spec_unwatch (t_id t) a) /\
    t' = set_t_watched [] (set_t_dirty_exec false (set_t_multi false (set_t_commands [] t))).
Proof.
  intros HR. destruct (freeClientMultiState_ok _ _ _ _ _ HR) as (s1 & E1 & Hk1 & HR1). destruct (clear_dirty_cas_ok _ _ _ _ _ HR1) as (s2 & E2 & Hk2 & HR2).
  unfold discardTransaction. rewrite (prog_bind_step _ _ _ _ _ E1), (prog_bind_step _ _ _ _ _ E2).
  apply (refines_flags _ _ _ _ (set_t_dirty_exec false (set_t_multi false (initClientMultiState t)))) in HR2; [|done].
  destruct (unwatchAllKeys_ok _ _ _ _ _ HR2) as (s3 & E3 & Hk3 & HR3 & _). eexists _, s3. split; [exact E3|]. split; [by do 2 etrans|]. by split.
Qed.

Lemma queueMultiCommand_refines s l1 t l2 a : refines [] s (l1 ++ t :: l2) a ->
  exists t' s', queueMultiCommand t s = Done (t', s') /\ t_id t' = t_id t /\ same_keys s s' /\ refines [] s' (l1 ++ t' :: l2) a.
Proof.
  intros HR. destruct (refines_client_ok _ _ _ _ _ _ HR) as (H1 & H2 & H3).
  destruct (step_incr_list (arg_refs t) [] s _ a HR) as (h & E & HR1); [apply Forall_forall; intros x Hx; by apply arg_in_refs|].
  unfold queueMultiCommand. rewrite H2, bind_lift, (prog_bind_step _ _ _ _ _ E). eexists _, _. split; [done|]. split; [done|]. split; [done|].
  assert (Hm : args_of (map Some (arg_refs t)) (cl_argc (t_cl t)) = Done (arg_refs t)).
  { assert (cl_argc (t_cl t) = Z.of_nat (length (arg_refs t))) as -> by (by apply args_of_length in H2). apply args_of_Some. }
  eapply refines_swap; [exact HR1|done|done|..].
  - split; [done|]. split; [done|]. apply Forall_app. split; [done|]. apply Forall_singleton. unfold mc_refs, held. cbn [mc_argv mc_argc]. by rewrite Hm.
  - unfold t_refs. cbn [t_watched set_t_commands t_commands]. rewrite map_app, concat_app. cbn [map concat]. unfold mc_refs at 2, held. cbn [mc_argv mc_argc]. rewrite Hm.
    change (arg_refs (set_t_commands _ t)) with (arg_refs t). solve_submseteq.
Qed.

Lemma resetClient_refines s l1 t l2 a : refines [] s (l1 ++ t :: l2) a ->
  exists t' s', resetClient t s = Done (t', s') /\ t_id t' = t_id t /\ same_keys s s' /\ refines [] s' (l1 ++ t' :: l2) a.
Proof.
  intros HR. destruct (refines_client_ok _ _ _ _ _ _ HR) as (H1 & H2 & H3). set (t' := set_t_cmd None (set_t_cl (set_cl_argc 0 (t_cl t)) t)).
  assert (HR1 : refines (arg_refs t ++ []) s (l1 ++ t' :: l2) a).
  { eapply refines_swap; [exact HR|done|done|done|]. unfold t_refs. change (arg_refs t') with (@nil addr). cbn [t_watched t_commands t' set_t_cmd set_t_cl]. solve_submseteq. }
  destruct (step_decr_list _ _ _ _ _ HR1) as (h & E & HR2 & _). exists t', (set_heap h s). split; [|by split]. unfold resetClient, freeClientArgv, decr_args.
  rewrite H2, bind_assoc, bind_lift. by rewrite (prog_bind_step _ _ _ _ _ E).
Qed.
(** ** Runs of the server *)
Definition arg_keys (t : tclient) (s : server) : list sds := if t_multi t then [] else omap (str_at (heap s)) (drop 1 (arg_refs t)).
Definition label_of (o : client_op) (t : tclient) (s : server) : label :=
  match o with
  | Watch => LWatch (t_id t) (cl_db (t_cl t)) (arg_keys t s)
  | Unwatch => LUnwatch (t_id t)
  | UnwatchAll => LForget (t_id t)
  | Discard => if t_multi t then LUnwatch (t_id t) else LNone
  | _ => LNone
  end.

(** What the rest of the server may do between two steps: anything, as long as
    it counts its own references. *)
Definition other_work (s s' : server) (ts : list tclient) : Prop :=
  map db_watched (dbs s') = map db_watched (dbs s) /\ dirty_cas s' = dirty_cas s /\
  covers (tbl_refs (dbs s) ++ concat (map t_refs ts)) (heap s') /\ same_str (concat (map t_refs ts)) (heap s) (heap s').

Definition idle (t : tclient) : Prop := t_watched t = [] /\ t_commands t = [] /\ cl_argc (t_cl t) = 0.

Inductive step : server -> list tclient -> label -> server -> list tclient -> Prop :=
  | StClient o s l1 t l2 t' s' : (cl_db (t_cl t) < length (dbs s))%nat -> run_op o t s = Done (t', s') ->
      step s (l1 ++ t :: l2) (label_of o t s) s' (l1 ++ t' :: l2)
  | StTouch s ts j k s' : signalModifiedKey j k s = Done (tt, s') -> step s ts (LTouch (fun q => bool_decide (q = (j, k)))) s' ts
  | StFlush s ts dbid s' : touchWatchedKeysOnFlush ts dbid s = Done (tt, s') -> step s ts (LTouch (flushed (dbs s) dbid)) s' ts
  | StArgs s l1 t l2 l : cl_argc (t_cl t) = 0 -> covers (l ++ tbl_refs (dbs s) ++ concat (map t_refs (l1 ++ t :: l2))) (heap s) ->
      step s (l1 ++ t :: l2) LNone s (l1 ++ with_args l t :: l2)
  | StOther s ts s' : other_work s s' ts -> step s ts LNone s' ts
  | StConnect s ts t : t_id t ∉ map t_id ts -> idle t -> step s ts LNone s (t :: ts)
  | StClose s l1 t l2 : idle t -> step s (l1 ++ t :: l2) LNone s (l1 ++ l2).

Inductive runs : server -> list tclient -> list label -> server -> list tclient -> Prop :=
  | runs_nil s ts : runs s ts [] s ts
  | runs_cons s ts l s1 ts1 ls s2 ts2 : step s ts l s1 ts1 -> runs s1 ts1 ls s2 ts2 -> runs s ts (l :: ls) s2 ts2.

Lemma refines_init s : Forall (fun d => db_watched d = ∅) (dbs s) -> dirty_cas s = ∅ -> refines [] s [] (mkSpec ∅ ∅).
Proof.
  intros Hw Hd. assert (Hg : forall j, db_watched (get_db s j) = ∅).
  { intros j. unfold get_db. destruct (dbs s !! j) as [d|] eqn:E; [|done]. by apply (Forall_lookup_1 _ _ _ _ Hw E). }
  split; try done; cbn.
  - constructor.
  - assert (tbl_refs (dbs s) = []) as ->; [|by intros x ?%not_elem_of_nil]. unfold tbl_refs. clear Hg. induction Hw as [|d ds E _ IH]; [done|]. cbn. rewrite IH. unfold db_refs. by rewrite E, map_to_list_empty.
  - intros j k id. unfold watchers. rewrite Hg, lookup_empty. cbn. set_solver.
  - intros j k e. by rewrite Hg, lookup_empty.
  - by intros t ?%not_elem_of_nil.
Qed.
(** Every operation of a client completes, and does what its label says. *)
Lemma run_op_ok o s l1 t l2 a : refines [] s (l1 ++ t :: l2) a -> (cl_db (t_cl t) < length (dbs s))%nat ->
  exists t' s', run_op o t s = Done (t', s') /\ t_id t' = t_id t /\ same_keys s s' /\ refines [] s' (l1 ++ t' :: l2) (spec_label (label_of o t s) a).
Proof.
  intros HR Hj. destruct o; cbn [run_op label_of spec_label].
  - by apply watchCommand_ok.
  - by apply unwatchCommand_ok.
  - destruct (unwatchAllKeys_ok _ _ _ _ _ HR) as (s' & E & Hk & HR' & _). eauto 6.
  - unfold multiCommand. eexists _, s. split; [done|]. destruct (t_multi t); (split; [done|]; split; [done|]); by apply (refines_flags _ _ _ t).
  - by apply queueMultiCommand_refines.
  - unfold discardCommand. destruct (t_multi t); cbn [negb].
    + destruct (discardTransaction_ok _ _ _ _ _ HR) as (t' & s' & E & Hk & HR' & ->). rewrite (prog_bind_step _ _ _ _ _ E). eexists _, s'. split; [done|]. split; [done|]. split; [done|].
      by eapply refines_flags; [|exact HR'].
    + eexists _, s. split; [done|]. split; [done|]. split; [done|]. by apply (refines_flags _ _ _ t).
  - by apply resetClient_refines.
Qed.

Lemma t_refs_idle t : idle t -> t_refs t = [].
Proof. intros (Hw & Hc & Ha). unfold t_refs, arg_refs, held. rewrite Hw, Hc, Ha. done. Qed.
Lemma idle_ok s t : idle t -> client_ok s t.
Proof. intros (Hw & Hc & Ha). unfold client_ok, arg_refs, held. rewrite Hw, Hc, Ha. done. Qed.

Lemma refines_args s l1 t l2 a l : refines [] s (l1 ++ t :: l2) a -> cl_argc (t_cl t) = 0 ->
  covers (l ++ tbl_refs (dbs s) ++ concat (map t_refs (l1 ++ t :: l2))) (heap s) -> refines [] s (l1 ++ with_args l t :: l2) a.
Proof.
  intros HR Ha Hc. assert (HR' : refines l s (l1 ++ t :: l2) a) by (by destruct HR). destruct (refines_client_ok _ _ _ _ _ _ HR) as (H1 & H2 & H3).
  assert (Hl : arg_refs (with_args l t) = l) by (unfold arg_refs, held; cbn; by rewrite args_of_Some).
  eapply refines_swap; [exact HR'|done|done|..].
  - split; [done|]. rewrite Hl. split; [apply args_of_Some|done].
  - unfold t_refs. rewrite Hl. cbn [t_watched t_commands with_args set_t_cl]. assert (arg_refs t = []) as -> by (unfold arg_refs, held; by rewrite Ha). solve_submseteq.
Qed.

Lemma refines_other s ts a s' : refines [] s ts a -> other_work s s' ts -> refines [] s' ts a.
Proof.
  intros [] (Hw & Hd & Hc & Hs). assert (Hg : forall j, db_watched (get_db s' j) = db_watched (get_db s j)).
  { intros j. apply (f_equal (fun l => l !! j)) in Hw. rewrite !list_lookup_fmap in Hw. unfold get_db. destruct (dbs s' !! j), (dbs s !! j); cbn in *; congruence. }
  assert (Ht : tbl_refs (dbs s') = tbl_refs (dbs s)).
  { assert (E : forall ds, tbl_refs ds = concat (map (fun m => map (fun kv => fst (snd kv)) (map_to_list m)) (map db_watched ds))) by (intros ds; by rewrite map_map). by rewrite !E, Hw. }
  assert (Hl : length (dbs s') = length (dbs s)) by (apply (f_equal length) in Hw; by rewrite !length_map in Hw).
  split; try done.
  - by rewrite Ht.
  - unfold client_ok in *. by rewrite Hl.
  - intros j k id. unfold watchers. rewrite Hg. apply r_table0.
  - intros j k. rewrite Hg. apply r_entry0.
  - intros t Hin. rewrite (wkeys_same (heap s)); [by apply r_client0|]. intros x Hx. apply Hs. apply (elem_t_refs _ t); [done|]. apply elem_of_app. by left.
  - by rewrite Hd.
Qed.

Lemma refines_connect s ts a t : refines [] s ts a -> t_id t ∉ map t_id ts -> idle t -> refines [] s (t :: ts) a.
Proof.
  intros [] Hn Hi. split; try done; cbn [map].
  - by apply NoDup_cons.
  - cbn [concat]. by rewrite (t_refs_idle t Hi).
  - apply Forall_cons. split; [by apply idle_ok|done].
  - intros t0 [->|Ht]%elem_of_cons; [|by apply r_client0]. destruct Hi as (Hw & _). unfold wkeys. rewrite Hw. split; [constructor|]. intros j k. split; [by intros ?%not_elem_of_nil|].
    intros H%r_known0. done.
  - intros id j k H. apply elem_of_cons. right. by eapply r_known0.
Qed.

Lemma refines_close s l1 t l2 a : refines [] s (l1 ++ t :: l2) a -> idle t -> refines [] s (l1 ++ l2) a.
Proof.
  intros [] Hi. split; try done.
  - rewrite map_app, map_cons in r_ids0. rewrite map_app. revert r_ids0. rewrite !NoDup_app, NoDup_cons. intros (? & Hx & ? & ?). split; [done|]. split; [|done]. intros x Hin. specialize (Hx x Hin). set_solver.
  - rewrite map_app, map_cons, concat_app in r_refs0. cbn [concat] in r_refs0. rewrite (t_refs_idle t Hi) in r_refs0. by rewrite map_app, concat_app.
  - rewrite Forall_app, Forall_cons in *. tauto.
  - intros t0 Ht. apply r_client0. set_solver.
  - intros id j k H. pose proof (r_known0 id j k H) as Hin. rewrite map_app, map_cons, elem_of_app, elem_of_cons in Hin. rewrite map_app, elem_of_app.
    destruct Hin as [?|[->|?]]; [by left| |by right]. exfalso. apply (r_client0 t) in H; [|set_solver]. unfold wkeys in H. destruct Hi as (Hw & _). rewrite Hw in H. by apply not_elem_of_nil in H.
Qed.

Lemma step_refines s ts l s' ts' a : step s ts l s' ts' -> refines [] s ts a -> refines [] s' ts' (spec_label l a).
Proof.
  intros [o s0 l1 t l2 t' s1 Hj E|s0 ts0 j k s1 E|s0 ts0 dbid s1 E|s0 l1 t l2 l0 Ha Hc|s0 ts0 s1 Ho|s0 ts0 t Hn Hi|s0 l1 t l2 Hi] HR; cbn [spec_label].
  - destruct (run_op_ok o s0 l1 t l2 a HR Hj) as (t2 & s2 & E' & _ & _ & HR'). rewrite E in E'. by simplify_eq.
  - destruct (signalModifiedKey_ok s0 ts0 a j k HR) as (s2 & E' & _ & HR'). rewrite E in E'. by simplify_eq.
  - destruct (touchWatchedKeysOnFlush_ok s0 ts0 a dbid HR) as (s2 & E' & _ & HR'). rewrite E in E'. by simplify_eq.
  - by apply refines_args.
  - by eapply refines_other.
  - by apply refines_connect.
  - by eapply refines_close.
Qed.

Lemma runs_refines s ts ls s' ts' a : runs s ts ls s' ts' -> refines [] s ts a -> refines [] s' ts' (spec_labels ls a).
Proof. intros H. revert a. induction H as [|s ts l s1 ts1 ls s2 ts2 Hs _ IH]; intros a HR; [done|]. cbn. apply IH. by eapply step_refines. Qed.
(** ** The transaction that a change aborts *)
Lemma exec_aborts s l1 t l2 a : refines [] s (l1 ++ t :: l2) a -> t_multi t = true -> t_id t ∈ aborted a ->
  exists t' s', execCommand t s = Done (t', s') /\ same_keys s s' /\ refines [] s' (l1 ++ t' :: l2) (spec_unwatch (t_id t) a) /\
    cl_replies (t_cl t') = cl_replies (t_cl t) ++ [if t_dirty_exec t then RErr "EXECABORT Transaction discarded because of previous errors." else RNullMulti] /\
    t_multi t' = false /\ t_commands t' = [] /\ t_watched t' = [] /\ t_dirty_exec t' = false.
Proof.
  intros HR Hm Hid. unfold execCommand. rewrite Hm. cbn [negb]. rewrite bind_gets, (r_dirty _ _ _ _ HR), bool_decide_eq_true_2 by done. cbn [orb].
  set (r := if t_dirty_exec t then _ else _). destruct (discardTransaction_ok s l1 (t_reply r t) l2 a) as (t' & s' & E & Hk & HR' & ->).
  { by apply (refines_flags _ _ _ t). }
  eexists _, s'. split; [exact E|]. by split.
Qed.

(** The client [id] neither unwatches nor ends its transaction. *)
Definition keeps (id : Z) (l : label) : bool := match l with LForget i | LUnwatch i => negb (i =? id) | _ => true end.

Lemma spec_watches_watching id j ks a w : w ∈ watching (spec_watches id j ks a) <-> w ∈ watching a \/ exists k, k ∈ ks /\ w = (id, j, k).
Proof.
  unfold spec_watches. revert a. induction ks as [|k ks IH]; intros a; cbn [fold_left].
  - split; [auto|]. intros [?|(k & H & _)]; [done|]. by apply not_elem_of_nil in H.
  - rewrite IH. cbn [watching spec_watch]. rewrite elem_of_union, elem_of_singleton. setoid_rewrite elem_of_cons. naive_solver.
Qed.
Lemma spec_watches_aborted id j ks a : aborted (spec_watches id j ks a) = aborted a.
Proof. unfold spec_watches. revert a. induction ks as [|k ks IH]; intros a; [done|]. cbn [fold_left]. by rewrite IH. Qed.

Lemma keeps_watching id j k l a : keeps id l = true -> (id, j, k) ∈ watching a -> (id, j, k) ∈ watching (spec_label l a).
Proof.
  intros Hl H. destruct l as [i j' ks|i|i|P|]; cbn [spec_label watching spec_forget spec_unwatch spec_touch keeps] in *; try done.
  - apply spec_watches_watching. by left.
  - apply elem_of_filter. split; [|done]. cbn. lia.
  - apply elem_of_filter. split; [|done]. cbn. lia.
Qed.
Lemma keeps_aborted id l a : keeps id l = true -> id ∈ aborted a -> id ∈ aborted (spec_label l a).
Proof.
  intros Hl H. destruct l as [i j' ks|i|i|P|]; cbn [spec_label aborted spec_forget spec_unwatch spec_touch keeps] in *; try done.
  - by rewrite spec_watches_aborted.
  - apply elem_of_difference. split; [done|]. rewrite elem_of_singleton. lia.
  - apply elem_of_union. by right.
Qed.
Lemma keeps_labels (Q : wspec -> Prop) id ls a : (forall l a, keeps id l = true -> Q a -> Q (spec_label l a)) -> forallb (keeps id) ls = true -> Q a -> Q (spec_labels ls a).
Proof.
  intros HQ. unfold spec_labels. revert a. induction ls as [|l ls IH]; intros a Hl Ha; [done|]. cbn [forallb] in Hl. apply andb_true_iff in Hl as [Hl Hls].
  cbn [fold_left]. apply IH; [done|]. by apply HQ.
Qed.

Lemma touch_aborts id j k P a : (id, j, k) ∈ watching a -> P (j, k) = true -> id ∈ aborted (spec_touch P a).
Proof. intros Hw HP. cbn [aborted spec_touch]. apply elem_of_union. left. apply elem_of_map. exists (id, j, k). split; [done|]. by apply elem_of_filter. Qed.

(** C20: The three places that hold the state of optimistic locking (the keys a
    client watches, the clients that watch a key, the dirty flags), with the
    counted objects that name the keys, implement one set of watches and one set
    of aborted clients: any run of clients that connect, send commands, WATCH,
    UNWATCH, MULTI, queue, DISCARD and disconnect, with keys touched and
    databases flushed in between, stays in the relation, every operation of a
    client completes (no freed key object is read, no assertion fails), and none
    of them changes a key. *)
Theorem watch_refines (s s' : server) (ts ts' : list tclient) (ls : list label) (a : wspec) :
  refines [] s ts a -> runs s ts ls s' ts' ->
  refines [] s' ts' (spec_labels ls a) /\
  forall o l1 t l2, ts' = l1 ++ t :: l2 -> (cl_db (t_cl t) < length (dbs s'))%nat ->
    exists t' s'', run_op o t s' = Done (t', s'') /\ same_keys s' s''.
Proof.
  intros HR Hr. pose proof (runs_refines _ _ _ _ _ _ Hr HR) as HR'. split; [done|]. intros o l1 t l2 -> Hj.
  destruct (run_op_ok o s' l1 t l2 _ HR' Hj) as (t' & s'' & E & _ & Hk & _). eauto.
Qed.

(** C21: A transaction sees a change of a key it watches: whatever happens after
    the WATCH, if the key is touched (by a write, or a flush that deletes it)
    before EXEC and the client has not unwatched, EXEC runs nothing: one reply
    (null, or the error of an earlier failed command), the keys, the log of
    events and the change counter are as before, and the client is out of the
    transaction with its queue and watches released. *)
Theorem changed_key_aborts (s s' : server) (ts l1 l2 : list tclient) (t : tclient) (ls1 ls2 : list label) (a : wspec) (j : nat) (ks : list sds) (k : sds) (P : nat * sds -> bool) :
  refines [] s ts a -> runs s ts (LWatch (t_id t) j ks :: ls1 ++ LTouch P :: ls2) s' (l1 ++ t :: l2) -> k ∈ ks -> P (j, k) = true ->
  forallb (keeps (t_id t)) (ls1 ++ ls2) = true -> t_multi t = true ->
  exists t' s'', execCommand t s' = Done (t', s'') /\ same_keys s' s'' /\
    cl_replies (t_cl t') = cl_replies (t_cl t) ++ [if t_dirty_exec t then RErr "EXECABORT Transaction discarded because of previous errors." else RNullMulti] /\
    t_multi t' = false /\ t_commands t' = [] /\ t_watched t' = [].
Proof.
  intros HR Hr Hk HP Hkeep Hm. apply (runs_refines _ _ _ _ _ _ Hr) in HR. rewrite forallb_app in Hkeep. apply andb_true_iff in Hkeep as [H1 H2].
  destruct (exec_aborts _ _ _ _ _ HR Hm) as (t' & s'' & E & Hsk & _ & Hrep & Hm' & Hc & Hw & _); [|eauto 10].
  change (LWatch ?i j ks :: ?r) with ([LWatch i j ks] ++ r). unfold spec_labels. rewrite fold_left_app, fold_left_app. cbn [fold_left spec_label].
  apply (keeps_labels (fun a => t_id t ∈ aborted a) (t_id t) ls2); [intros; by apply keeps_aborted|done|]. apply (touch_aborts _ j k); [|done].
  apply (keeps_labels (fun a => (t_id t, j, k) ∈ watching a) (t_id t) ls1); [intros; by apply keeps_watching|done|]. apply spec_watches_watching. eauto.
Qed.
(** ** A run: WATCH x, MULTI, then x changes *)
Definition demo_server : server := put_obj 11 (str_obj "x" 0) (put_obj 10 (str_obj "watch" 0) server0).
Definition demo_client : tclient := mkT (client_of 0 []) false false false None [] [].
Definition after (o : client_op) (st : tclient * server) : tclient * server := match run_op o (fst st) (snd st) with Done r => r | Fault _ => st end.
Definition demo0 : tclient * server := (with_args [10; 11]%positive demo_client, demo_server).
Definition demo1 : tclient * server := after Watch demo0.
Definition demo2 : tclient * server := after Begin (after Reset demo1).
Definition demo3 : server := match signalModifiedKey 0 (str "x") (snd demo2) with Done (_, s) => s | Fault _ => snd demo2 end.

Lemma demo_refines : refines [] demo_server [fst demo0] (mkSpec ∅ ∅).
Proof.
  apply (refines_args _ [] demo_client []); [|done|].
  - apply refines_connect; [by apply refines_init; [repeat constructor|]|apply not_elem_of_nil|done].
  - intros a Ha. assert (a = 10 \/ a = 11)%positive as [-> | ->] by (cbn in Ha; set_solver); eexists; (split; [reflexivity|]); repeat (split; [by eauto|]); vm_compute; discriminate.
Qed.

Lemma demo_runs : runs demo_server [fst demo0] [LWatch 7 0 [str "x"]; LNone; LNone; LTouch (fun q => bool_decide (q = (0%nat, str "x")))] demo3 [fst demo2].
Proof.
  eapply runs_cons; [apply (StClient Watch demo_server [] (fst demo0) [] (fst demo1) (snd demo1)); [cbn; lia|vm_compute; reflexivity]|].
  eapply runs_cons; [apply (StClient Reset (snd demo1) [] (fst demo1) [] (fst (after Reset demo1)) (snd (after Reset demo1))); [vm_compute; lia|vm_compute; reflexivity]|].
  eapply runs_cons; [apply (StClient Begin (snd (after Reset demo1)) [] (fst (after Reset demo1)) [] (fst demo2) (snd demo2)); [vm_compute; lia|vm_compute; reflexivity]|].
  eapply runs_cons; [apply (StTouch (snd demo2) _ 0%nat (str "x")); vm_compute; reflexivity|]. apply runs_nil.
Qed.

Lemma changed_key_aborts_witness : exists t' s'', execCommand (fst demo2) demo3 = Done (t', s'') /\ cl_replies (t_cl t') = [ROk; ROk; RNullMulti] /\ t_watched t' = [].
Proof.
  destruct (changed_key_aborts demo_server demo3 [fst demo0] [] [] (fst demo2) [LNone; LNone] [] (mkSpec ∅ ∅) 0%nat [str "x"] (str "x") (fun q => bool_decide (q = (0%nat, str "x"))) demo_refines demo_runs)
    as (t' & s'' & E & _ & Hr & _ & _ & Hw); [by apply elem_of_cons; left|by apply bool_decide_eq_true|reflexivity|vm_compute; reflexivity|].
  exists t', s''. split; [exact E|]. split; [|exact Hw]. rewrite Hr. vm_compute. reflexivity.
Defined.

Lemma watch_refines_witness : refines [] demo3 [fst demo2] (spec_labels [LWatch 7 0 [str "x"]; LNone; LNone; LTouch (fun q => bool_decide (q = (0%nat, str "x")))] (mkSpec ∅ ∅)).
Proof. apply (watch_refines _ _ _ _ _ _ demo_refines demo_runs). Defined.
End Watch.
