(* ===== verification/Proto.v ===== *)
(** * The request protocol: networking.c, from the socket to a command

    [parser] is the part of a redisClient that reading uses.  The objects of
    [argv] are kept as their bytes here: each is a new string object of its
    own.  What becomes of a complete command is a parameter ([command]):
    KvolveServer.v instantiates it with the hook and processCommand. *)
From S2P Require Import Prelude CStr Util Server SdsText.
Import Util SdsText.

Module Proto.

Definition REDIS_IOBUF_LEN : nat := Z.to_nat (1024 * 16).
Definition REDIS_INLINE_MAX_SIZE : nat := Z.to_nat (1024 * 64).
Definition REDIS_MBULK_BIG_ARG : nat := Z.to_nat (1024 * 32).
Lemma size_limits : Z.of_nat REDIS_IOBUF_LEN = 16384 /\ Z.of_nat REDIS_INLINE_MAX_SIZE = 65536 /\ Z.of_nat REDIS_MBULK_BIG_ARG = 32768.
Proof. unfold REDIS_IOBUF_LEN, REDIS_INLINE_MAX_SIZE, REDIS_MBULK_BIG_ARG. rewrite !Z2Nat.id by lia. done. Qed.
#[global] Opaque REDIS_IOBUF_LEN REDIS_INLINE_MAX_SIZE REDIS_MBULK_BIG_ARG.

Definition CR : ascii := "013"%char.
Definition LF : ascii := "010"%char.

(** [reqtype] when it is known. *)
Inductive req := REDIS_REQ_INLINE | REDIS_REQ_MULTIBULK.
#[export] Instance req_eq_dec : EqDecision req.
Proof. solve_decision. Defined.

(** [bulklen = None] is -1; [p_stop]: REDIS_BLOCKED or REDIS_CLOSE_AFTER_REPLY is set. *)
Record parser := mkP {
  querybuf : sds;
  reqtype : option req;
  multibulklen : nat;
  bulklen : option nat;
  p_args : list sds;
  p_stop : bool;
  p_replies : list reply
}.

Definition set_querybuf (x : sds) (p : parser) : parser := mkP x (reqtype p) (multibulklen p) (bulklen p) (p_args p) (p_stop p) (p_replies p).
Definition set_reqtype (x : option req) (p : parser) : parser := mkP (querybuf p) x (multibulklen p) (bulklen p) (p_args p) (p_stop p) (p_replies p).
Definition set_multibulklen (x : nat) (p : parser) : parser := mkP (querybuf p) (reqtype p) x (bulklen p) (p_args p) (p_stop p) (p_replies p).
Definition set_bulklen (x : option nat) (p : parser) : parser := mkP (querybuf p) (reqtype p) (multibulklen p) x (p_args p) (p_stop p) (p_replies p).
Definition set_p_args (x : list sds) (p : parser) : parser := mkP (querybuf p) (reqtype p) (multibulklen p) (bulklen p) x (p_stop p) (p_replies p).
Definition set_p_stop (x : bool) (p : parser) : parser := mkP (querybuf p) (reqtype p) (multibulklen p) (bulklen p) (p_args p) x (p_replies p).
Definition set_p_replies (x : list reply) (p : parser) : parser := mkP (querybuf p) (reqtype p) (multibulklen p) (bulklen p) (p_args p) (p_stop p) x.

Definition new_parser : parser := mkP [] None 0 None [] false [].

(** [strchr]: the offset of [c] before the first zero byte. *)
Fixpoint find_char (c : ascii) (s : sds) : option nat :=
  match s with
  | [] => None
  | x :: r => if bool_decide (x = c) then Some O else if bool_decide (x = NUL) then None else S <$> find_char c r
  end.

(** [sdsrange(c->querybuf,pos,-1)] *)
Definition trim_to (pos : nat) (p : parser) : parser := set_querybuf (drop pos (querybuf p)) p.

Definition setProtocolError (pos : nat) (p : parser) : parser := trim_to pos (set_p_stop true p).
Definition protocol_error (msg : string) (pos : nat) (p : parser) : parser :=
  setProtocolError pos (set_p_replies (p_replies p ++ [RErr ("ERR Protocol error: " ++ msg)]) p).

Definition too_big (p : parser) : bool := (REDIS_INLINE_MAX_SIZE <? length (querybuf p))%nat.

(** ** Requests on one line; [true] is REDIS_OK *)
Definition processInlineBuffer (p : parser) : outcome (parser * bool) :=
  match find_char LF (querybuf p) with
  | None => Done (if too_big p then protocol_error "too big inline request" 0 p else p, false)
  | Some newline =>
    let newline := if negb (newline =? 0)%nat && bool_decide (querybuf p !! (newline - 1)%nat = Some CR) then (newline - 1)%nat else newline in
    argv ← sdssplitargs (take newline (querybuf p));
    match argv with
    | None => Done (protocol_error "unbalanced quotes in request" 0 p, false)
    | Some argv => Done (set_p_args (filter (fun a => a <> []) argv) (trim_to (newline + 2) p), true)
    end
  end.

(** ** Requests of counted strings *)
(** The line that starts at [pos]: [None] when its end is not in the buffer, else
    its length without the line end. *)
Definition line_at (pos : nat) (p : parser) : option nat := find_char CR (drop pos (querybuf p)).
Definition whole_line (pos newline : nat) (p : parser) : bool := (pos + newline + 2 <=? length (querybuf p))%nat.
Definition number_at (pos newline : nat) (p : parser) : option Z := string2ll (take (newline - 1) (drop (pos + 1) (querybuf p))).

(** The character in the message, as addReplyErrorFormat prints it: a line end as a
    space, and a zero byte ends the text. *)
Definition got_char (c : ascii) : string :=
  "expected '$', got '" ++ (if bool_decide (c = NUL) then "" else String (if bool_decide (c = CR) || bool_decide (c = LF) then " " else c)%char "'").

(** The argument at [pos], of [len] bytes, when it is all there; [next] is the
    rest of the loop. *)
Definition read_arg (next : nat -> parser -> parser * nat * bool) (pos : nat) (p : parser) (len : nat) : parser * nat * bool :=
  if (length (querybuf p) - pos <? len + 2)%nat then (p, pos, false)
  else
    let p' := set_multibulklen (multibulklen p - 1) (set_bulklen None p) in
    if (pos =? 0)%nat && (REDIS_MBULK_BIG_ARG <=? len)%nat && (length (querybuf p) =? len + 2)%nat then
      next 0%nat (set_querybuf [] (set_p_args (p_args p ++ [take len (querybuf p)]) p'))
    else next (pos + len + 2)%nat (set_p_args (p_args p ++ [take len (drop pos (querybuf p))]) p').

(** The loop over the arguments, [n] of them to come: the parser with [pos] where
    the loop was left, and [true] when it returned an error. *)
Fixpoint bulk_loop (n : nat) (pos : nat) (p : parser) : parser * nat * bool :=
  match n with
  | O => (p, pos, false)
  | S n' =>
    match bulklen p with
    | Some len => read_arg (bulk_loop n') pos p len
    | None =>
      match line_at pos p with
      | None => if too_big p then (protocol_error "too big bulk count string" 0 p, 0%nat, true) else (p, pos, false)
      | Some newline =>
        if negb (whole_line pos newline p) then (p, pos, false)
        else
          match querybuf p !! pos with
          | Some c =>
            if negb (bool_decide (c = "$"%char)) then (protocol_error (got_char c) pos p, 0%nat, true)
            else
              match number_at pos newline p with
              | Some ll =>
                if (ll <? 0) || (ll >? 512 * 1024 * 1024) then (protocol_error "invalid bulk length" pos p, 0%nat, true)
                else
                  let pos := (pos + newline + 2)%nat in
                  let len := Z.to_nat ll in
                  if (REDIS_MBULK_BIG_ARG <=? len)%nat then read_arg (bulk_loop n') 0 (set_bulklen (Some len) (trim_to pos p)) len
                  else read_arg (bulk_loop n') pos (set_bulklen (Some len) p) len
              | None => (protocol_error "invalid bulk length" pos p, 0%nat, true)
              end
          | None => (p, pos, false)
          end
      end
    end
  end.

Definition read_args (pos : nat) (p : parser) : outcome (parser * bool) :=
  _ ← require_b AssertFail (negb (multibulklen p =? 0)%nat);
  let '(p, pos, err) := bulk_loop (multibulklen p) pos p in
  if (err : bool) then Done (p, false)
  else
    let p := if (pos =? 0)%nat then p else trim_to pos p in
    Done (p, (multibulklen p =? 0)%nat).

Definition processMultibulkBuffer (p : parser) : outcome (parser * bool) :=
  if (multibulklen p =? 0)%nat then
    _ ← require_b AssertFail (bool_decide (p_args p = []));
    match line_at 0 p with
    | None => Done (if too_big p then protocol_error "too big mbulk count string" 0 p else p, false)
    | Some newline =>
      if negb (whole_line 0 newline p) then Done (p, false)
      else
        _ ← require_b AssertFail (bool_decide (head (querybuf p) = Some "*"%char));
        match number_at 0 newline p with
        | Some ll =>
          if ll >? 1024 * 1024 then Done (protocol_error "invalid multibulk length" 0 p, false)
          else if ll <=? 0 then Done (trim_to (newline + 2) p, true)
          else read_args (newline + 2) (set_multibulklen (Z.to_nat ll) p)
        | None => Done (protocol_error "invalid multibulk length" 0 p, false)
        end
    end
  else read_args 0 p.

(** ** The loop over the buffer *)
Definition resetClient (p : parser) : parser := set_p_args [] (set_reqtype None (set_multibulklen 0 (set_bulklen None p))).

Definition request_type (p : parser) : req :=
  match reqtype p with
  | Some r => r
  | None => if bool_decide (head (querybuf p) = Some "*"%char) then REDIS_REQ_MULTIBULK else REDIS_REQ_INLINE
  end.
Definition parse (p : parser) : outcome (parser * bool) :=
  let p := set_reqtype (Some (request_type p)) p in
  match request_type p with REDIS_REQ_INLINE => processInlineBuffer p | REDIS_REQ_MULTIBULK => processMultibulkBuffer p end.

Section Input.
(** A complete command: [fst] is processCommand's REDIS_OK, [snd] whether the
    client is blocked or to be closed after it. *)
Context {S : Type} (command : list sds -> prog S (bool * bool)).

Fixpoint input_loop (fuel : nat) (p : parser) : prog S parser :=
  match fuel with
  | O => throw OutOfFuel
  | Datatypes.S fuel' =>
    if bool_decide (querybuf p = []) || p_stop p then mret p
    else
      r ← lift (parse p);
      let '(p, ok) := r in
      if negb ok then mret p
      else if bool_decide (p_args p = []) then input_loop fuel' (resetClient p)
      else
        r ← command (p_args p);
        let p := if (fst r : bool) then resetClient p else p in
        input_loop fuel' (set_p_stop (p_stop p || snd r) p)
  end.
(** Every complete request takes at least one byte of the buffer. *)
Definition processInputBuffer (p : parser) : prog S parser := input_loop (Datatypes.S (length (querybuf p))) p.

(** ** Reading from the socket *)
Definition readlen (p : parser) : nat :=
  match reqtype p, bulklen p with
  | Some REDIS_REQ_MULTIBULK, Some len =>
    if negb (multibulklen p =? 0)%nat && (REDIS_MBULK_BIG_ARG <=? len)%nat then Nat.min REDIS_IOBUF_LEN (len + 2 - length (querybuf p)) else REDIS_IOBUF_LEN
  | _, _ => REDIS_IOBUF_LEN
  end.

(** The kernel delivers [chunk]; [None]: the client is freed. *)
Definition readQueryFromClient (client_max_querybuf_len : nat) (p : parser) (chunk : sds) : prog S (option parser) :=
  let p := set_querybuf (querybuf p ++ chunk) p in
  if (client_max_querybuf_len <? length (querybuf p))%nat then mret None
  else p ← processInputBuffer p; mret (Some p).

(** A connection: the bytes still to come, and how many of them each read is
    given (at least one, at most what the code asks for). *)
Fixpoint connection (max : nat) (ns : list nat) (p : parser) (stream : sds) : prog S (option parser * sds) :=
  match ns, stream with
  | n :: ns', _ :: _ =>
    let k := Nat.min (Nat.max 1 n) (readlen p) in
    p ← readQueryFromClient max p (take k stream);
    match p with
    | Some p => connection max ns' p (drop k stream)
    | None => mret (None, drop k stream)
    end
  | _, _ => mret (Some p, stream)
  end.
End Input.
(** ** Any bytes *)
(** What a client that is still served looks like between two reads. *)
Definition between (p : parser) : Prop :=
  match reqtype p with
  | Some REDIS_REQ_MULTIBULK => multibulklen p = 0%nat -> bulklen p = None /\ p_args p = [] /\ head (querybuf p) = Some "*"%char
  | _ => multibulklen p = 0%nat /\ bulklen p = None /\ p_args p = []
  end.
Definition served (p : parser) : Prop := p_stop p = false -> between p.

Definition left_of (p : parser) (pos : nat) : nat := length (querybuf p) - pos.

(** The loop over arguments stops with an error or moves forward. *)
Definition forward (p : parser) (pos : nat) (r : parser * nat * bool) : Prop :=
  let '(p', pos', err) := r in
  if (err : bool) then p_stop p' = true
  else p_stop p' = p_stop p /\ reqtype p' = reqtype p /\ (pos' <= length (querybuf p'))%nat /\ (left_of p' pos' <= left_of p pos)%nat /\
    (multibulklen p' <= multibulklen p)%nat /\ (multibulklen p' = multibulklen p \/ left_of p' pos' < left_of p pos)%nat.

Lemma forward_refl p pos : (pos <= length (querybuf p))%nat -> forward p pos (p, pos, false).
Proof. intros H. cbn. auto 8. Qed.
Lemma forward_trans p pos p1 pos1 r : forward p pos (p1, pos1, false) -> forward p1 pos1 r -> forward p pos r.
Proof. destruct r as [[p2 pos2] []]; cbn; [done|]. intros (? & ? & ? & ? & ? & ?) (? & ? & ? & ? & ? & ?). repeat split; try congruence; lia. Qed.

Lemma read_arg_forward next pos p len : (pos <= length (querybuf p))%nat -> (0 < multibulklen p)%nat ->
  (forall pos' p', (pos' <= length (querybuf p'))%nat -> multibulklen p' = (multibulklen p - 1)%nat -> forward p' pos' (next pos' p')) ->
  forward p pos (read_arg next pos p len).
Proof.
  intros Hp Hm Hn. unfold read_arg. destruct (Nat.ltb_spec (length (querybuf p) - pos) (len + 2)) as [Hl|Hl]; [by apply forward_refl|].
  destruct (_ && _) eqn:E; (eapply forward_trans; [|apply Hn; cbn; [|done]]).
  - cbn. unfold left_of. cbn. rewrite !andb_true_iff, !Nat.eqb_eq in E. destruct E as [[-> _] E]. repeat split; lia.
  - lia.
  - cbn. unfold left_of. cbn. repeat split; lia.
  - lia.
Qed.

Lemma bulk_loop_forward n : forall pos p, multibulklen p = n -> (pos <= length (querybuf p))%nat -> forward p pos (bulk_loop n pos p).
Proof.
  induction n as [|n IH]; intros pos p Hn Hp; cbn [bulk_loop]; [by apply forward_refl|].
  assert (Hread : forall pos p len, multibulklen p = S n -> (pos <= length (querybuf p))%nat -> forward p pos (read_arg (bulk_loop n) pos p len)).
  { intros pos0 p0 len Hm0 Hp0. apply read_arg_forward; [done|lia|]. intros pos' p' Hp' Hm'. apply IH; [lia|done]. }
  destruct (bulklen p) as [len|]; [by apply Hread|]. destruct (line_at pos p) as [newline|]; [|destruct (too_big p); [done|by apply forward_refl]].
  destruct (negb (whole_line pos newline p)) eqn:Hw; [by apply forward_refl|]. apply negb_false_iff, Nat.leb_le in Hw.
  destruct (querybuf p !! pos) as [c|]; [|by apply forward_refl]. destruct (negb _); [done|]. destruct (number_at pos newline p) as [ll|]; [|done]. destruct (_ || _); [done|].
  cbv zeta. destruct (REDIS_MBULK_BIG_ARG <=? Z.to_nat ll)%nat; (eapply forward_trans; [|apply Hread; [done|]]); cbn; unfold left_of; cbn; rewrite ?length_drop; repeat split; lia.
Qed.
Lemma served_stop p : p_stop p = true -> served p.
Proof. intros H H'. congruence. Qed.

(** The outcome of parsing a request. *)
Definition parsed (p : parser) (r : outcome (parser * bool)) : Prop :=
  exists p' ok, r = Done (p', ok) /\ if (ok : bool) then p_stop p' = false /\ (length (querybuf p') < length (querybuf p))%nat else served p'.

Lemma inline_parsed p : reqtype p = Some REDIS_REQ_INLINE -> p_stop p = false -> querybuf p <> [] -> between p -> parsed p (processInlineBuffer p).
Proof.
  intros Hr Hs Hq Hb. unfold processInlineBuffer, parsed. destruct (find_char LF (querybuf p)) as [nl|].
  - set (n := if _ : bool then _ else _). destruct (sdssplitargs_total (take n (querybuf p))) as (r & ->). rewrite bind_Done. destruct r as [argv|].
    + eexists _, true. split; [done|]. cbn. split; [done|]. rewrite length_drop. destruct (querybuf p); cbn [length] in *; [done|lia].
    + eexists _, false. split; [done|]. by apply served_stop.
  - eexists _, false. split; [done|]. destruct (too_big p); [by apply served_stop|by intros _].
Qed.

Lemma read_args_parsed p pos : reqtype p = Some REDIS_REQ_MULTIBULK -> p_stop p = false -> multibulklen p <> 0%nat -> (pos <= length (querybuf p))%nat ->
  parsed p (read_args pos p).
Proof.
  intros Hr Hs Hm Hp. unfold read_args, parsed. rewrite (proj2 (Nat.eqb_neq _ _) Hm). cbn [negb require_b]. rewrite bind_Done. pose proof (bulk_loop_forward _ pos p eq_refl Hp) as Hf.
  destruct (bulk_loop (multibulklen p) pos p) as [[p' pos'] err]. cbn [forward] in Hf. destruct err.
  { eexists _, false. split; [done|]. by apply served_stop. }
  destruct Hf as (Hs' & Hr' & Hp' & Hle & _ & Hor). set (p'' := if _ : bool then p' else _).
  assert (H : p_stop p'' = p_stop p' /\ reqtype p'' = reqtype p' /\ multibulklen p'' = multibulklen p' /\ length (querybuf p'') = left_of p' pos').
  { unfold p'', left_of. destruct (Nat.eqb_spec pos' 0) as [->|]; [|cbn; by rewrite length_drop]. rewrite Nat.sub_0_r. done. }
  destruct H as (H1 & H2 & H3 & H4). exists p'', (multibulklen p'' =? 0)%nat. split; [done|]. destruct (Nat.eqb_spec (multibulklen p'') 0) as [E|E].
  - split; [congruence|]. rewrite H4. unfold left_of in *. lia.
  - intros _. unfold between. rewrite H2, Hr', Hr. done.
Qed.

Lemma multibulk_parsed p : reqtype p = Some REDIS_REQ_MULTIBULK -> p_stop p = false -> querybuf p <> [] -> between p -> parsed p (processMultibulkBuffer p).
Proof.
  intros Hr Hs Hq Hb. unfold processMultibulkBuffer. unfold between in Hb. rewrite Hr in Hb. destruct (Nat.eqb_spec (multibulklen p) 0) as [E|E]; [|apply read_args_parsed; (done || lia)].
  destruct (Hb E) as (Hl & Ha & Hh). rewrite (bool_decide_eq_true_2 (p_args p = [])) by done. cbn [require_b]. rewrite bind_Done. unfold parsed. destruct (line_at 0 p) as [nl|].
  2:{ eexists _, false. split; [done|]. destruct (too_big p); [by apply served_stop|]. intros _. unfold between. by rewrite Hr. }
  destruct (negb _) eqn:Hw. { eexists _, false. split; [done|]. intros _. unfold between. by rewrite Hr. }
  rewrite bool_decide_eq_true_2 by done. cbn [require_b]. rewrite bind_Done. apply negb_false_iff, Nat.leb_le in Hw.
  destruct (number_at 0 nl p) as [ll|]; [|eexists _, false; split; [done|]; by apply served_stop]. destruct (ll >? _) eqn:E1; [eexists _, false; split; [done|]; by apply served_stop|].
  destruct (Z.leb_spec ll 0) as [E2|E2].
  - eexists _, true. split; [done|]. cbn. split; [done|]. rewrite length_drop. lia.
  - apply (read_args_parsed (set_multibulklen (Z.to_nat ll) p)); cbn; [done|done|lia|lia].
Qed.

Lemma parse_parsed p : p_stop p = false -> querybuf p <> [] -> between p -> parsed p (parse p).
Proof.
  intros Hs Hq Hb. unfold parse. set (p1 := set_reqtype _ p). assert (H1 : between p1).
  { unfold between, p1, request_type in *. cbn. destruct (reqtype p) as [[]|]; try done. destruct (bool_decide_reflect (head (querybuf p) = Some "*"%char)) as [E|E]; [|done].
    intros _. destruct Hb as (_ & ? & ?). done. }
  assert (Hr : request_type p1 = request_type p) by done. assert (Hr' : reqtype p1 = Some (request_type p)) by done. rewrite Hr.
  destruct (request_type p); [exact (inline_parsed p1 Hr' Hs Hq H1)|exact (multibulk_parsed p1 Hr' Hs Hq H1)].
Qed.

Section AnyBytes.
Context {S : Type} (command : list sds -> prog S (bool * bool)).
(** processCommand returns REDIS_ERR only for QUIT, which closes the client. *)
Hypothesis err_stops : forall args s stop s', command args s = Done ((false, stop), s') -> stop = true.

(** The reading code has no fault of its own. *)
Definition blameless {A} (ok : A -> Prop) (r : outcome (A * S)) : Prop :=
  match r with Done (a, _) => ok a | Fault e => exists args s, command args s = Fault e end.

Lemma input_loop_served fuel : forall p s, (length (querybuf p) < fuel)%nat -> served p -> blameless served (input_loop command fuel p s).
Proof using err_stops.
  induction fuel as [|fuel IH]; intros p s Hf Hp; [lia|]. cbn [input_loop]. destruct (bool_decide_reflect (querybuf p = [])) as [|Hq]; [done|]. destruct (p_stop p) eqn:Hs; [done|]. cbn [orb].
  destruct (parse_parsed p Hs Hq (Hp Hs)) as (p' & ok & -> & H). rewrite bind_lift. destruct ok; cbn [negb]; [|done]. destruct H as [Hs' Hlt].
  destruct (bool_decide (p_args p' = [])); [apply IH; [cbn; lia|done]|].
  destruct (command (p_args p') s) as [[[ok stop] s1]|e] eqn:E; [|unfold mbind, prog_bind; rewrite E; cbn; eauto].
  rewrite (prog_bind_step _ _ _ _ _ E). cbn [fst snd]. apply IH; destruct ok; try (cbn; lia); try done. apply served_stop. cbn. rewrite (err_stops _ _ _ _ E). apply orb_true_r.
Qed.

Lemma served_more p chunk : served p -> served (set_querybuf (querybuf p ++ chunk) p).
Proof.
  intros Hp Hs. specialize (Hp Hs). unfold between in *. cbn. destruct (reqtype p) as [[]|]; try done. intros E. destruct (Hp E) as (? & ? & Hh). split; [done|]. split; [done|]. by destruct (querybuf p).
Qed.

(** C23: The code that reads requests survives any input: whatever bytes arrive,
    in whatever pieces, none of its assertions fails, its loops end, and a client that is not being closed is in a
    state from which reading can go on; a fault can only come from running a
    complete command. *)
Theorem any_bytes_are_read (max : nat) (ns : list nat) (stream : sds) (s : S) :
  blameless (fun r => match fst r with Some p => served p | None => True end) (connection command max ns new_parser stream s).
Proof using err_stops.
  assert (H : served new_parser) by done. revert H. generalize new_parser as p. intros p. revert p stream s. induction ns as [|n ns IH]; intros p stream s Hp; [done|]. cbn [connection].
  destruct stream as [|c stream]; [done|]. set (k := Nat.min _ _). unfold readQueryFromClient. set (p1 := set_querybuf _ p). destruct (max <? length (querybuf p1))%nat; [done|].
  unfold mbind, prog_bind. pose proof (input_loop_served (Datatypes.S (length (querybuf p1))) p1 s ltac:(lia) (served_more p _ Hp)) as Hi. unfold processInputBuffer.
  destruct (input_loop command _ p1 s) as [[p2 s2]|e]; [|done]. cbn. by apply IH.
Qed.
End AnyBytes.
(** ** The requests that a client library sends *)
Definition enc_num (c : ascii) (n : nat) : sds := c :: ll2string_text (Z.of_nat n).
Definition enc_bulk (a : sds) : sds := enc_num "$" (length a) ++ [CR; LF] ++ a ++ [CR; LF].
Definition enc_args (l : list sds) : sds := concat (map enc_bulk l).
Definition enc_cmd (args : list sds) : sds := enc_num "*" (length args) ++ [CR; LF] ++ enc_args args.
Definition enc_all (cmds : list (list sds)) : sds := concat (map enc_cmd cmds).

Definition ok_arg (a : sds) : Prop := Z.of_nat (length a) <= 512 * 1024 * 1024.
Definition ok_cmd (args : list sds) : Prop := args <> [] /\ Z.of_nat (length args) <= 1024 * 1024 /\ Forall ok_arg args.

Lemma text_plain n : in_s 64 n -> CR ∉ ll2string_text n /\ NUL ∉ ll2string_text n /\ (length (ll2string_text n) <= 32)%nat.
Proof.
  intros H. unfold ll2string_text. destruct (ll2string_ok (replicate 32 NUL) n H ltac:(done)) as (t & rest & -> & (neg & c & ds & Ht & Hd & _) & Hl).
  unfold CStr.sdslen. rewrite Nat2Z.id, take_app_length.
  assert (Hno : forall x, x <> "-"%char -> is_digit x = false -> x ∉ t).
  { intros x Hm Hx Hin. assert (Hi : x ∈ c :: ds) by (rewrite Ht in Hin; destruct neg; [|done]; by apply elem_of_cons in Hin as [?|?]). rewrite Forall_forall in Hd. specialize (Hd x Hi). congruence. }
  split; [by apply Hno|]. split; [by apply Hno|]. rewrite length_app, length_replicate in Hl. lia.
Qed.

(** The end of a line that has no zero byte before it. *)
Lemma find_char_line hdr : forall b stream r, CR ∉ hdr -> NUL ∉ hdr -> b ++ stream = hdr ++ CR :: r ->
  find_char CR b = if (length hdr <? length b)%nat then Some (length hdr) else None.
Proof.
  induction hdr as [|x hdr IH]; intros [|y b] stream r Hc Hn E; cbn [app length find_char] in *; try done.
  - injection E as -> _. done.
  - injection E as -> E. apply not_elem_of_cons in Hc as [Hc1 Hc], Hn as [Hn1 Hn]. rewrite !bool_decide_eq_false_2 by congruence. rewrite (IH b stream r Hc Hn E).
    destruct (Nat.ltb_spec (length hdr) (length b)), (Nat.ltb_spec (S (length hdr)) (S (length b))); (done || lia).
Qed.

(** A numbered line at [pos]: found when all of it is there, and not before. *)
Lemma line_found c n p pos stream r : c <> CR -> c <> NUL -> Z.of_nat n < 2 ^ 62 -> drop pos (querybuf p) ++ stream = enc_num c n ++ [CR; LF] ++ r ->
  let h := length (enc_num c n) in
  (h <= 33)%nat /\
  if (h + 2 <=? length (drop pos (querybuf p)))%nat then
    line_at pos p = Some h /\ whole_line pos h p = true /\ querybuf p !! pos = Some c /\ number_at pos h p = Some (Z.of_nat n) /\ drop (pos + h + 2) (querybuf p) ++ stream = r
  else line_at pos p = None \/ exists nl, line_at pos p = Some nl /\ whole_line pos nl p = false.
Proof.
  intros Hc1 Hc2 Hn E h. assert (Hin : in_s 64 (Z.of_nat n)) by (unfold in_s; lia). destruct (text_plain _ Hin) as (H1 & H2 & H3). set (t := ll2string_text (Z.of_nat n)) in *.
  assert (Hh : h = Datatypes.S (length t)) by done. split; [lia|]. set (b := drop pos (querybuf p)) in *. assert (Hb : length b = (length (querybuf p) - pos)%nat) by apply length_drop.
  assert (Hf : line_at pos p = if (h <? length b)%nat then Some h else None).
  { apply (find_char_line (enc_num c n) b stream (LF :: r)); [apply not_elem_of_cons; by split|apply not_elem_of_cons; by split|done]. }
  destruct (Nat.leb_spec (h + 2) (length b)) as [Hle|Hlt].
  - rewrite Hf, (proj2 (Nat.ltb_lt _ _)) by lia. split; [done|]. split; [apply Nat.leb_le; lia|].
    assert (Hb' : b = enc_num c n ++ [CR; LF] ++ drop (h + 2) b /\ drop (h + 2) b ++ stream = r).
    { assert (Et : take (h + 2) (b ++ stream) = enc_num c n ++ [CR; LF]) by (rewrite E, app_assoc; apply take_app_length'; rewrite length_app; done).
      rewrite take_app_le in Et by lia. rewrite <- (take_drop (h + 2) b) at 1. rewrite Et, <- app_assoc. split; [done|].
      assert (Ed : drop (h + 2) (b ++ stream) = r) by (rewrite E, app_assoc; apply drop_app_length'; rewrite length_app; done). by rewrite drop_app_le in Ed by lia. }
    destruct Hb' as [Hb1 Hb2]. split; [|split].
    + rewrite <- (Nat.add_0_r pos), <- lookup_drop. fold b. by rewrite Hb1.
    + unfold number_at. rewrite <- drop_drop. fold b. rewrite Hb1, Hh. cbn [enc_num app drop]. replace (Datatypes.S (length t) - 1)%nat with (length t) by lia. fold t.
      rewrite drop_0, take_app_length. by apply string2ll_text.
    + by rewrite <- Nat.add_assoc, <- drop_drop.
  - rewrite Hf. destruct (Nat.ltb_spec h (length b)); [|by left]. right. exists h. split; [done|]. apply Nat.leb_gt. lia.
Qed.
(** ** Where the parser is in the requests *)
(** The bytes that the arguments to come still owe. *)
Definition owes (len : option nat) (rest : list sds) (cmds : list (list sds)) (bytes : sds) : Prop :=
  match len with
  | None => bytes = enc_args rest ++ enc_all cmds
  | Some n => exists a r, rest = a :: r /\ n = length a /\ bytes = a ++ [CR; LF] ++ enc_args r ++ enc_all cmds
  end.
(** The next piece is not all in the [n] bytes at hand. *)
Definition short (len : option nat) (rest : list sds) (n : nat) : Prop :=
  match len, rest with
  | None, a :: _ => (n < length (enc_num "$" (length a)) + 2)%nat
  | Some k, _ => (n < k + 2)%nat
  | None, [] => False
  end.

Definition quiet (p : parser) : Prop := p_stop p = false /\ p_replies p = [].

(** In the middle of the request [args], [rest] of it to come. *)
Definition in_request (p : parser) (pos : nat) (args rest : list sds) : Prop :=
  quiet p /\ reqtype p = Some REDIS_REQ_MULTIBULK /\ p_args p ++ rest = args /\ multibulklen p = length rest /\ (pos <= length (querybuf p))%nat.

(** The buffer is not so long that a missing line end would be an error. *)
Definition fine (p : parser) (pos : nat) : Prop :=
  (length (querybuf p) <= REDIS_INLINE_MAX_SIZE)%nat \/
  exists n, pos = 0%nat /\ bulklen p = Some n /\ (REDIS_MBULK_BIG_ARG <= n)%nat /\ (length (querybuf p) <= n + 2)%nat.

(** How the loop over the arguments ends. *)
Definition loop_end (args : list sds) (cmds : list (list sds)) (stream : sds) (r : parser * nat * bool) : Prop :=
  exists p pos rest, r = (p, pos, false) /\ in_request p pos args rest /\ owes (bulklen p) rest cmds (drop pos (querybuf p) ++ stream) /\
    (if decide (rest = []) then bulklen p = None else short (bulklen p) rest (length (drop pos (querybuf p)))).

Lemma read_arg_end next p pos args a rest cmds stream :
  in_request p pos args (a :: rest) -> bulklen p = Some (length a) -> drop pos (querybuf p) ++ stream = a ++ [CR; LF] ++ enc_args rest ++ enc_all cmds -> fine p pos ->
  (forall p' pos', in_request p' pos' args rest -> bulklen p' = None -> owes None rest cmds (drop pos' (querybuf p') ++ stream) -> fine p' pos' -> loop_end args cmds stream (next pos' p')) ->
  loop_end args cmds stream (read_arg next pos p (length a)).
Proof.
  intros (Hq & Hr & Ha & Hm & Hp) Hl E Hf Hn. unfold read_arg. rewrite <- length_drop. set (b := drop pos (querybuf p)) in *. destruct (Nat.ltb_spec (length b) (length a + 2)) as [Hs|Hs].
  - exists p, pos, (a :: rest). split; [done|]. split; [done|]. rewrite Hl. split; [|by rewrite decide_False]. cbn. eauto.
  - assert (Hb : b = a ++ [CR; LF] ++ drop (length a + 2) b /\ drop (length a + 2) b ++ stream = enc_args rest ++ enc_all cmds).
    { rewrite (app_assoc a) in E. assert (Et : take (length a + 2) (b ++ stream) = a ++ [CR; LF]) by (rewrite E; apply take_app_length'; rewrite length_app; done).
      rewrite take_app_le in Et by lia. rewrite <- (take_drop (length a + 2) b) at 1. rewrite Et, <- app_assoc. split; [done|].
      assert (Ed : drop (length a + 2) (b ++ stream) = enc_args rest ++ enc_all cmds) by (rewrite E; apply drop_app_length'; rewrite length_app; done). by rewrite drop_app_le in Ed by lia. }
    destruct Hb as [Hb1 Hb2]. assert (Ht : take (length a) b = a) by (rewrite Hb1; apply take_app_length). cbn [length] in Hm.
    assert (Hlen : length b = (length (querybuf p) - pos)%nat) by apply length_drop. destruct (_ && _) eqn:Eo.
    + rewrite !andb_true_iff, !Nat.eqb_eq in Eo. destruct Eo as [[-> _] El]. apply Hn.
      * unfold in_request, quiet. cbn. change (querybuf p) with b. rewrite Ht, <- app_assoc. cbn. repeat split; try done; [apply Hq|apply Hq|lia].
      * done.
      * cbn. assert (drop (length a + 2) b = []) as E0 by (apply drop_ge; lia). by rewrite E0 in Hb2.
      * left. cbn. lia.
    + apply Hn.
      * unfold in_request, quiet. cbn. fold b. rewrite Ht, <- app_assoc. cbn. repeat split; try done; [apply Hq|apply Hq|lia|lia].
      * done.
      * cbn. rewrite <- Nat.add_assoc, <- drop_drop. done.
      * destruct Hf as [Hf|(n & -> & Hn' & Hbig & Hle)]; [by left|]. exfalso. rewrite Hl in Hn'. injection Hn' as <-. apply andb_false_iff in Eo as [Eo|Eo].
        -- rewrite (proj2 (Nat.leb_le _ _)) in Eo by done. done.
        -- apply Nat.eqb_neq in Eo. lia.
Qed.
Lemma enc_args_cons a rest : enc_args (a :: rest) = enc_num "$" (length a) ++ [CR; LF] ++ a ++ [CR; LF] ++ enc_args rest.
Proof. unfold enc_args. cbn [map concat]. unfold enc_bulk. by rewrite <- !app_assoc. Qed.

Lemma not_too_big p pos : fine p pos -> bulklen p = None -> too_big p = false.
Proof. intros [H|(n & _ & E & _)] E'; [by apply Nat.ltb_ge|congruence]. Qed.

Lemma fine_set p pos pos' n : fine p pos -> bulklen p = None -> fine (set_bulklen (Some n) p) pos'.
Proof. intros [H|(k & _ & E & _)] E'; [by left|congruence]. Qed.

Lemma bulk_loop_end args cmds stream rest : forall p pos, Forall ok_arg rest -> in_request p pos args rest -> owes (bulklen p) rest cmds (drop pos (querybuf p) ++ stream) -> fine p pos ->
  loop_end args cmds stream (bulk_loop (length rest) pos p).
Proof.
  induction rest as [|a rest IH]; intros p pos Hv Hi Ho Hf.
  { cbn [bulk_loop length]. exists p, pos, []. split; [done|]. split; [done|]. split; [done|]. rewrite decide_True by done. destruct (bulklen p); [|done]. cbn in Ho. by destruct Ho as (? & ? & ? & _). }
  apply Forall_cons in Hv as [Ha Hv]. cbn [length bulk_loop].
  assert (Hread : forall p pos, in_request p pos args (a :: rest) -> bulklen p = Some (length a) -> drop pos (querybuf p) ++ stream = a ++ [CR; LF] ++ enc_args rest ++ enc_all cmds -> fine p pos ->
    loop_end args cmds stream (read_arg (bulk_loop (length rest)) pos p (length a))).
  { intros p0 pos0 Hi0 Hl0 E0 Hf0. eapply read_arg_end; try done. intros p' pos' Hi' Hl' Ho' Hf'. apply IH; [done|done|by rewrite Hl'|done]. }
  destruct (bulklen p) as [n|] eqn:Hl.
  { destruct Ho as (a' & r' & [= <- <-] & -> & E). by apply Hread. }
  cbn [owes] in Ho. rewrite enc_args_cons, <- !app_assoc in Ho. unfold ok_arg in Ha.
  destruct (line_found "$" (length a) p pos stream _ ltac:(done) ltac:(done) ltac:(lia) Ho) as [_ H]. set (h := length (enc_num "$" (length a))) in *. destruct (Nat.leb_spec (h + 2) (length (drop pos (querybuf p)))) as [Hle|Hlt].
  - destruct H as (-> & -> & -> & -> & E). clearbody h. cbn [negb]. rewrite bool_decide_eq_true_2 by done. cbn [negb]. rewrite (proj2 (Z.ltb_ge _ _)), Z.gtb_ltb, (proj2 (Z.ltb_ge _ _)) by lia. cbn [orb]. cbv zeta.
    rewrite Nat2Z.id. destruct Hi as (Hq & Hr & Hpa & Hm & Hp). rewrite length_drop in Hle. destruct (REDIS_MBULK_BIG_ARG <=? length a)%nat.
    + apply Hread; [|done|exact E|].
      * unfold in_request, quiet. cbn. repeat split; try done; [apply Hq|apply Hq|lia].
      * left. cbn. rewrite length_drop. destruct Hf as [?|(? & _ & ? & _)]; [lia|congruence].
    + apply Hread; [|done|done|by apply (fine_set p pos)]. unfold in_request, quiet. cbn. repeat split; try done; [apply Hq|apply Hq|lia].
  - assert (Hend : loop_end args cmds stream (p, pos, false)).
    { exists p, pos, (a :: rest). split; [done|]. split; [done|]. rewrite Hl, decide_False by done. split; [|done]. cbn [owes]. rewrite enc_args_cons, <- !app_assoc. done. }
    destruct H as [->|(nl & -> & ->)]; [|done]. by rewrite (not_too_big p pos).
Qed.

(** ** Between requests *)
(** Where the parser is when [cmds] are still to be run; [stuck]: it cannot move
    without more bytes. *)
Definition at_requests (stuck : bool) (p : parser) (stream : sds) (cmds : list (list sds)) : Prop :=
  quiet p /\
  ((multibulklen p = 0%nat /\ bulklen p = None /\ p_args p = [] /\ querybuf p ++ stream = enc_all cmds /\
    (reqtype p = None \/ (reqtype p = Some REDIS_REQ_MULTIBULK /\ querybuf p <> [])) /\
    (stuck = true -> querybuf p = [] \/ exists c cmds', cmds = c :: cmds' /\ (length (querybuf p) < length (enc_num "*" (length c)) + 2)%nat))
   \/ exists args rest cmds', cmds = args :: cmds' /\ rest <> [] /\ in_request p 0 args rest /\ owes (bulklen p) rest cmds' (querybuf p ++ stream) /\
        (stuck = true -> short (bulklen p) rest (length (querybuf p)))).

Lemma read_args_end p pos args rest cmds stream : in_request p pos args rest -> rest <> [] -> Forall ok_arg args -> owes (bulklen p) rest cmds (drop pos (querybuf p) ++ stream) -> fine p pos ->
  exists p' ok, read_args pos p = Done (p', ok) /\
    if (ok : bool) then quiet p' /\ p_args p' = args /\ querybuf p' ++ stream = enc_all cmds /\ (length (querybuf p') <= length (querybuf p))%nat
    else at_requests true p' stream (args :: cmds).
Proof.
  intros Hi Hr Hv Ho Hf. pose proof Hi as (Hq & _ & Ha & Hm & Hp). assert (Hvr : Forall ok_arg rest) by (rewrite <- Ha in Hv; by apply Forall_app in Hv as [_ ?]). unfold read_args. rewrite Hm. destruct (Nat.eqb_spec (length rest) 0) as [E|E]; [by destruct rest|]. cbn [negb require_b]. rewrite bind_Done.
  pose proof (bulk_loop_forward (length rest) pos p Hm Hp) as Hfw.
  destruct (bulk_loop_end args cmds stream rest p pos Hvr Hi Ho Hf) as (p' & pos' & rest' & Eb & (Hq' & Hr' & Ha' & Hm' & Hp') & Ho' & He). rewrite Eb in *. cbn [forward] in Hfw. destruct Hfw as (_ & _ & _ & Hle & _).
  set (p'' := if _ : bool then p' else _). assert (Hp'' : p'' = set_querybuf (drop pos' (querybuf p')) p').
  { unfold p''. destruct (Nat.eqb_spec pos' 0) as [->|]; [|done]. rewrite drop_0. by destruct p'. }
  clearbody p''. subst p''. eexists _, _. split; [done|]. cbn [multibulklen set_querybuf]. rewrite Hm'. destruct rest' as [|a rest'].
  - cbn [length Nat.eqb]. rewrite decide_True in He by done. rewrite He in Ho'. rewrite app_nil_r in Ha'. split; [done|]. split; [done|]. split; [done|]. cbn. rewrite length_drop. unfold left_of in Hle. lia.
  - cbn [length Nat.eqb]. split; [done|]. right. exists args, (a :: rest'), cmds. split; [done|]. split; [done|].
    split; [repeat split; try done; [apply Hq'|apply Hq'|cbn; lia]|]. split; [done|]. intros _. by rewrite decide_False in He by done.
Qed.
Lemma enc_all_cons c cmds : enc_all (c :: cmds) = enc_num "*" (length c) ++ [CR; LF] ++ enc_args c ++ enc_all cmds.
Proof. unfold enc_all. cbn [map concat]. unfold enc_cmd. by rewrite <- !app_assoc. Qed.

(** How parsing one request ends. *)
Definition parse_end (stream : sds) (cmds : list (list sds)) (r : outcome (parser * bool)) : Prop :=
  exists p ok, r = Done (p, ok) /\
    if (ok : bool) then exists args cmds', cmds = args :: cmds' /\ quiet p /\ p_args p = args /\ querybuf p ++ stream = enc_all cmds'
    else at_requests true p stream cmds.

Lemma read_args_parse_end p pos args rest cmds stream : in_request p pos args rest -> rest <> [] -> Forall ok_arg args -> owes (bulklen p) rest cmds (drop pos (querybuf p) ++ stream) -> fine p pos ->
  parse_end stream (args :: cmds) (read_args pos p).
Proof.
  intros Hi Hr Hv Ho Hf. destruct (read_args_end p pos args rest cmds stream Hi Hr Hv Ho Hf) as (p' & ok & E & H). exists p', ok. split; [done|]. destruct ok; [|done].
  destruct H as (? & ? & ? & _). eauto 8.
Qed.

Lemma multibulk_end p stream c cmds : quiet p -> multibulklen p = 0%nat -> bulklen p = None -> p_args p = [] -> reqtype p = Some REDIS_REQ_MULTIBULK -> querybuf p <> [] ->
  querybuf p ++ stream = enc_all (c :: cmds) -> ok_cmd c -> fine p 0 -> parse_end stream (c :: cmds) (processMultibulkBuffer p).
Proof.
  intros Hq Hm Hl Ha Hr Hne E (Hc & Hn & Hv) Hf. unfold processMultibulkBuffer. rewrite Hm. cbn [Nat.eqb]. rewrite (bool_decide_eq_true_2 (p_args p = [])) by done. cbn [require_b]. rewrite bind_Done.
  rewrite enc_all_cons in E. destruct (line_found "*" (length c) p 0 stream _ ltac:(done) ltac:(done) ltac:(lia) E) as [_ H]. set (h := length (enc_num "*" (length c))) in *. rewrite drop_0 in H.
  assert (Hhead : head (querybuf p) = Some "*"%char) by (destruct (querybuf p); [done|]; cbn in E; by injection E as -> _). destruct (Nat.leb_spec (h + 2) (length (querybuf p))) as [Hle|Hlt].
  - destruct H as (-> & -> & _ & -> & E'). clearbody h. cbn [negb]. rewrite bool_decide_eq_true_2 by done. cbn [require_b]. rewrite bind_Done, Z.gtb_ltb, (proj2 (Z.ltb_ge _ _)) by lia.
    rewrite (proj2 (Z.leb_gt _ _)), Nat2Z.id by (destruct c; [done|cbn [length]; lia]). apply read_args_parse_end with c; [|done|done|by cbn; rewrite Hl|].
    + unfold in_request, quiet. cbn. rewrite Ha. repeat split; try done; [apply Hq|apply Hq].
    + left. cbn. destruct Hf as [?|(? & _ & ? & _)]; [done|congruence].
  - assert (Hend : parse_end stream (c :: cmds) (Done (p, false))).
    { exists p, false. split; [done|]. split; [done|]. left. rewrite enc_all_cons. repeat split; try done; [by right|]. intros _. right. eauto. }
    destruct H as [->|(nl & -> & ->)]; [|done]. by rewrite (not_too_big p 0).
Qed.

Lemma at_requests_more b p stream cmds : at_requests b p stream cmds -> at_requests false p stream cmds.
Proof. intros (Hq & [(? & ? & ? & ? & ? & _)|(args & rest & cmds' & ? & ? & ? & ? & _)]); (split; [done|]); [left|right; exists args, rest, cmds']; repeat (split; [done|]); done. Qed.

Lemma parse_requests b p stream cmds : at_requests b p stream cmds -> Forall ok_cmd cmds -> querybuf p <> [] -> fine p 0 -> parse_end stream cmds (parse p).
Proof.
  intros (Hq & H) Hv Hne Hf. unfold parse. assert (Hrt : request_type p = REDIS_REQ_MULTIBULK).
  { unfold request_type. destruct H as [(_ & _ & _ & E & [->|[-> _]] & _)|(args & rest & cmds' & _ & _ & (_ & -> & _) & _)]; try done. rewrite bool_decide_eq_true_2; [done|].
    destruct cmds as [|c cmds]; [by apply app_nil in E as [? _]|]. rewrite enc_all_cons in E. destruct (querybuf p); [done|]. cbn in E. by injection E as -> _. }
  assert (Hrt' : request_type (set_reqtype (Some REDIS_REQ_MULTIBULK) p) = REDIS_REQ_MULTIBULK) by done. rewrite Hrt, Hrt'. destruct H as [(Hm & Hl & Ha & E & _ & _)|(args & rest & cmds' & -> & Hr & Hi & Ho & _)].
  - destruct cmds as [|c cmds]; [by apply app_nil in E as [? _]|]. apply Forall_cons in Hv as [Hc _]. by apply multibulk_end.
  - apply Forall_cons in Hv as [(_ & _ & Hv) _]. unfold processMultibulkBuffer. destruct Hi as (_ & Hr' & Ha & Hm & Hp). cbn [multibulklen set_reqtype]. rewrite Hm.
    destruct (Nat.eqb_spec (length rest) 0) as [E|E]; [by destruct rest|]. apply (read_args_parse_end _ 0 args rest); [|done|done|done|done]. unfold in_request. cbn. repeat split; try done; apply Hq.
Qed.

Lemma at_requests_between b p stream cmds : at_requests b p stream cmds -> querybuf p <> [] -> between p.
Proof.
  intros (_ & [(Hm & Hl & Ha & E & Hr & _)|(args & rest & cmds' & _ & Hr & (_ & Hr' & _ & Hm & _) & _)]) Hne; unfold between.
  - destruct Hr as [->|[-> _]]; [done|]. intros _. split; [done|]. split; [done|]. destruct cmds as [|c cmds]; [by apply app_nil in E as [? _]|].
    rewrite enc_all_cons in E. destruct (querybuf p); [done|]. cbn in E. by injection E as -> _.
  - rewrite Hr', Hm. by destruct rest.
Qed.

(** When the request is complete the buffer is short. *)
Lemma fine_after b p p1 stream args cmds : at_requests b p stream (args :: cmds) -> fine p 0 -> querybuf p1 ++ stream = enc_all cmds -> (length (querybuf p1) < length (querybuf p))%nat ->
  (length (querybuf p1) <= REDIS_INLINE_MAX_SIZE)%nat.
Proof.
  intros (_ & H) [Hf|(n & _ & Hl & _ & Hle)] E1 Hlt; [lia|]. destruct H as [(_ & Hl' & _)|(args' & rest & cmds' & [= <- <-] & _ & _ & Ho & _)]; [congruence|].
  rewrite Hl in Ho. destruct Ho as (a & r & _ & -> & E). apply (f_equal length) in E, E1. rewrite !length_app in *. cbn [length] in E. lia.
Qed.

Section Requests.
Context {S : Type} (command : list sds -> prog S (bool * bool)).
(** A command that returns an error closes the client. *)
Hypothesis err_stops : forall args s stop s', command args s = Done ((false, stop), s') -> stop = true.

(** The commands, in order, up to the first that blocks or closes the client:
    whether there is one. *)
Fixpoint serve_cmds (cmds : list (list sds)) : prog S bool :=
  match cmds with
  | [] => mret false
  | args :: r => q ← command args; if (snd q : bool) then mret true else serve_cmds r
  end.

(** The commands of the prefix [cmds1] were run; or one of them stopped the
    client, or failed. *)
Definition ran (cmds : list (list sds)) (stream : sds) (s : S) (r : outcome (parser * S)) : Prop :=
  match r with
  | Fault e => serve_cmds cmds s = Fault e
  | Done (p, s') =>
    (p_stop p = true /\ serve_cmds cmds s = Done (true, s')) \/
    (exists cmds1 cmds2, cmds = cmds1 ++ cmds2 /\ serve_cmds cmds1 s = Done (false, s') /\ at_requests true p stream cmds2)
  end.

Lemma serve_cmds_app cmds1 cmds2 : forall s s', serve_cmds cmds1 s = Done (false, s') -> serve_cmds (cmds1 ++ cmds2) s = serve_cmds cmds2 s'.
Proof using Type.
  induction cmds1 as [|args r IH]; intros s s' H; cbn [serve_cmds app] in *; [by injection H as <-|].
  apply prog_bind_inv in H as ([ok stop] & s1 & E & H). rewrite (prog_bind_step _ _ _ _ _ E). cbn [snd] in *. destruct stop; [done|]. by apply IH.
Qed.

(** A client that is stopped runs nothing. *)
Lemma input_loop_stopped fuel p s : (0 < fuel)%nat -> p_stop p = true -> input_loop command fuel p s = Done (p, s).
Proof using Type. intros Hf Hp. destruct fuel as [|fuel]; [lia|]. cbn [input_loop]. by rewrite Hp, orb_true_r. Qed.

Definition not_served (r : option parser * sds) : Prop := match fst r with Some p => p_stop p = true | None => True end.

Lemma connection_stopped max ns : forall p stream s, p_stop p = true -> exists r, connection command max ns p stream s = Done (r, s) /\ not_served r.
Proof using Type.
  induction ns as [|n ns IH]; intros p stream s Hp; [by eexists|]. destruct stream as [|c stream]; [by eexists|].
  cbn [connection]. unfold readQueryFromClient, processInputBuffer. destruct (_ <? _)%nat; [rewrite bind_mret; by eexists|].
  rewrite bind_assoc. set (p1 := set_querybuf _ p). assert (Hp1 : p_stop p1 = true) by done.
  rewrite (prog_bind_step _ _ _ _ _ (input_loop_stopped _ p1 s (Nat.lt_0_succ _) Hp1)), bind_mret. by apply IH.
Qed.

Lemma input_loop_requests fuel stream : forall p cmds s, (length (querybuf p) < fuel)%nat -> at_requests false p stream cmds -> Forall ok_cmd cmds -> fine p 0 ->
  ran cmds stream s (input_loop command fuel p s).
Proof using err_stops.
  induction fuel as [|fuel IH]; intros p cmds s Hlt Hp Hv Hf; [lia|]. cbn [input_loop]. destruct (bool_decide_reflect (querybuf p = [])) as [E|Hne].
  { right. exists [], cmds. split; [done|]. split; [done|]. destruct Hp as (Hq & [(? & ? & ? & ? & ? & _)|(args & rest & cmds' & -> & Hr & Hi & Ho & _)]); (split; [done|]).
    - left. repeat (split; [done|]). auto.
    - right. exists args, rest, cmds'. repeat (split; [done|]). intros _. rewrite E. cbn. unfold short. destruct (bulklen p); [lia|]. destruct rest; [done|]. lia. }
  pose proof Hp as ((Hs & _) & _). rewrite Hs. cbn [orb]. destruct (parse_requests _ p stream cmds Hp Hv Hne Hf) as (p1 & ok & E & H). rewrite E, bind_lift. destruct ok; cbn [negb].
  2:{ right. exists [], cmds. done. }
  destruct H as (args & cmds' & -> & Hq1 & Ha & E1). apply Forall_cons in Hv as [(Hne' & _) Hv]. rewrite Ha, bool_decide_eq_false_2 by done.
  assert (Hlen : (length (querybuf p1) < length (querybuf p))%nat).
  { destruct (parse_parsed p Hs Hne (at_requests_between _ _ _ _ Hp Hne)) as (p1' & ok' & E' & H'). rewrite E in E'. injection E' as <- <-. apply H'. }
  pose proof (fine_after _ p p1 stream args cmds' Hp Hf E1 Hlen) as Hsmall. unfold ran. cbn [serve_cmds].
  destruct (command args s) as [[[ok stop] s1]|e] eqn:Ec; [|unfold mbind, prog_bind; by rewrite Ec]. rewrite !(prog_bind_step _ _ _ _ _ Ec). cbn [fst snd].
  destruct Hq1 as [Hs1 Hrep]. destruct stop.
  { rewrite orb_true_r, input_loop_stopped; [by left|lia|done]. }
  destruct ok; [|by specialize (err_stops _ _ _ _ Ec)].
  cbn [resetClient p_stop set_p_args set_reqtype set_multibulklen set_bulklen]. rewrite Hs1. cbn [orb].
  assert (Hi : ran cmds' stream s1 (input_loop command fuel (set_p_stop false (resetClient p1)) s1)).
  { apply IH; [cbn; lia| |done|by left]. split; [done|]. left. repeat (split; [done|]). split; [by left|done]. }
  destruct (input_loop _ _ _ _) as [[p' s']|e]; [|done]. destruct Hi as [?|(cmds1 & cmds2 & -> & Hr & Hp')]; [by left|right].
  exists (args :: cmds1), cmds2. split; [done|]. split; [|done]. cbn [serve_cmds]. by rewrite (prog_bind_step _ _ _ _ _ Ec).
Qed.

(** ** Reads *)
(** Between two reads the buffer leaves room for the next one. *)
Lemma fine_read p stream cmds k : at_requests true p stream cmds -> Forall ok_cmd cmds -> (k <= readlen p)%nat -> fine (set_querybuf (querybuf p ++ take k stream) p) 0.
Proof.
  intros (_ & H) Hv Hk. unfold fine. cbn [querybuf set_querybuf bulklen]. rewrite length_app. assert (Ht : (length (take k stream) <= k)%nat) by (rewrite length_take; lia). destruct size_limits as (Hio & Hmax & Hbig).
  assert (Hh : forall c n, Z.of_nat n < 2 ^ 62 -> (length (enc_num c n) <= 33)%nat) by (intros c n Hn; cbn; destruct (text_plain (Z.of_nat n)) as (_ & _ & ?); [unfold in_s; lia|lia]).
  destruct H as [(Hm & Hl & _ & _ & Hr & Hst)|(args & rest & cmds' & -> & Hr & (_ & Hrt & Ha & Hm & _) & Ho & Hst)].
  - left. unfold readlen in Hk. rewrite Hl in Hk. assert (k <= REDIS_IOBUF_LEN)%nat by (by destruct (reqtype p) as [[]|]). destruct (Hst eq_refl) as [->|(c & cmds' & -> & Hlt)]; [cbn [length]; lia|].
    apply Forall_cons in Hv as [(_ & Hn & _) _]. pose proof (Hh "*"%char (length c) ltac:(lia)). lia.
  - specialize (Hst eq_refl). unfold readlen in Hk. rewrite Hrt in Hk. destruct (bulklen p) as [n|] eqn:Hl; cbn [short] in Hst.
    + destruct (negb _ && _) eqn:Eb.
      * right. exists n. apply andb_true_iff in Eb as [_ Eb%Nat.leb_le]. split; [done|]. split; [done|]. split; [done|]. lia.
      * left. rewrite Hm in Eb. destruct rest as [|a rest]; [exfalso; by apply Hr|]. cbn [length Nat.eqb negb andb] in Eb. apply Nat.leb_gt in Eb. lia.
    + left. destruct rest as [|a rest]; [exfalso; by apply Hr|]. apply Forall_cons in Hv as [(_ & _ & Hv) _]. rewrite <- Ha in Hv. apply Forall_app in Hv as [_ Hv]. apply Forall_inv in Hv. unfold ok_arg in Hv.
      pose proof (Hh "$"%char (length a) ltac:(lia)). lia.
Qed.
Lemma at_requests_read p stream cmds k : at_requests true p stream cmds -> at_requests false (set_querybuf (querybuf p ++ take k stream) p) (drop k stream) cmds.
Proof.
  assert (E : (querybuf p ++ take k stream) ++ drop k stream = querybuf p ++ stream) by (by rewrite <- app_assoc, take_drop).
  intros (Hq & [(? & ? & ? & ? & Hr & _)|(args & rest & cmds' & ? & ? & (? & ? & ? & ? & ?) & ? & _)]); (split; [done|]).
  - left. cbn [querybuf set_querybuf multibulklen bulklen p_args reqtype]. rewrite E. repeat (split; [done|]). split; [|done]. destruct Hr as [?|[? Hne]]; [by left|]. right. split; [done|]. by destruct (querybuf p).
  - right. exists args, rest, cmds'. cbn [querybuf set_querybuf bulklen]. rewrite E. repeat (split; [done|]). split; [|done]. repeat (split; [done|]). cbn. lia.
Qed.

(** With no byte left to come, nothing is left to run. *)
Lemma at_requests_end p cmds : at_requests true p [] cmds -> cmds = [] /\ p = new_parser.
Proof.
  intros ((Hs & Hrep) & [(Hm & Hl & Ha & E & Hr & Hst)|(args & rest & cmds' & -> & Hr & _ & Ho & Hst)]); rewrite app_nil_r in *.
  - assert (querybuf p = []) as Eb.
    { destruct (Hst eq_refl) as [|(c & cmds' & -> & Hlt)]; [done|]. rewrite E, enc_all_cons, !length_app in Hlt. cbn [length] in Hlt. lia. }
    rewrite Eb in *. destruct Hr as [Hr|[_ ?]]; [|done]. split; [destruct cmds as [|c cmds]; [done|]; by rewrite enc_all_cons in E|]. destruct p; cbn in *; by subst.
  - exfalso. specialize (Hst eq_refl). destruct (bulklen p) as [n|]; cbn [owes short] in *.
    + destruct Ho as (a & r & _ & -> & E). rewrite E, !length_app in Hst. cbn [length] in Hst. lia.
    + destruct rest as [|a rest]; [done|]. rewrite Ho, enc_args_cons, !length_app in Hst. cbn [length] in Hst. lia.
Qed.

Lemma at_requests_fits p stream cmds k : at_requests true p stream cmds -> Forall ok_cmd cmds -> (k <= readlen p)%nat ->
  Z.of_nat (length (querybuf p ++ take k stream)) <= 512 * 1024 * 1024 + 2.
Proof.
  intros Hp Hv Hk. destruct (fine_read p stream cmds k Hp Hv Hk) as [H|(n & _ & Hl & _ & Hle)]; cbn [querybuf set_querybuf bulklen] in *; [pose proof size_limits; lia|].
  destruct Hp as (_ & [(_ & Hl' & _)|(args & rest & cmds' & -> & _ & (_ & _ & Ha & _) & Ho & _)]); [congruence|]. rewrite Hl in Ho. destruct Ho as (a & r & -> & -> & _).
  apply Forall_cons in Hv as [(_ & _ & Hv) _]. rewrite <- Ha in Hv. apply Forall_app in Hv as [_ Hv]. apply Forall_inv in Hv. unfold ok_arg in Hv. lia.
Qed.

Lemma readlen_pos p stream cmds : at_requests true p stream cmds -> (0 < readlen p)%nat.
Proof.
  intros (_ & H). unfold readlen. assert (Hio : (0 < REDIS_IOBUF_LEN)%nat) by (pose proof size_limits; lia). destruct (reqtype p) as [[]|]; try done. destruct (bulklen p) as [n|] eqn:Hl; [|done]. destruct (_ && _); [|done].
  destruct H as [(_ & Hl' & _)|(args & rest & cmds' & _ & _ & _ & _ & Hst)]; [congruence|]. specialize (Hst eq_refl). cbn [short] in Hst. lia.
Qed.

(** What the connection makes of the commands: it is ready for the next request,
    or stopped. *)
Definition delivered (cmds : list (list sds)) (s : S) (r : outcome ((option parser * sds) * S)) : Prop :=
  match serve_cmds cmds s with
  | Fault e => r = Fault e
  | Done (false, s') => r = Done ((Some new_parser, []), s')
  | Done (true, s') => exists x, r = Done (x, s') /\ not_served x
  end.

Lemma connection_requests max ns : forall p stream cmds s, 512 * 1024 * 1024 + 2 <= Z.of_nat max -> at_requests true p stream cmds -> Forall ok_cmd cmds -> (length stream <= length ns)%nat ->
  delivered cmds s (connection command max ns p stream s).
Proof using err_stops.
  induction ns as [|n ns IH]; intros p stream cmds s Hmax Hp Hv Hn.
  { destruct stream; [|cbn in Hn; lia]. by destruct (at_requests_end p cmds Hp) as [-> ->]. }
  destruct stream as [|c stream]. { by destruct (at_requests_end p cmds Hp) as [-> ->]. }
  cbn [connection]. pose proof (readlen_pos _ _ _ Hp) as Hpos. set (k := Nat.min _ _). assert (Hk : (0 < k <= readlen p)%nat) by lia. clearbody k.
  unfold readQueryFromClient. cbn [querybuf set_querybuf]. rewrite (proj2 (Nat.ltb_ge _ _)) by (pose proof (at_requests_fits p (c :: stream) cmds k Hp Hv ltac:(lia)); lia).
  pose proof (input_loop_requests _ (drop k (c :: stream)) _ cmds s (Nat.lt_succ_diag_r _) (at_requests_read p (c :: stream) cmds k Hp) Hv (fine_read p _ cmds k Hp Hv ltac:(lia))) as Hi.
  unfold processInputBuffer. rewrite bind_assoc. unfold ran in Hi. unfold delivered. destruct (input_loop command _ _ s) as [[p' s']|e] eqn:Ei; [|unfold mbind, prog_bind; by rewrite Ei, Hi].
  rewrite (prog_bind_step _ _ _ _ _ Ei), bind_mret. destruct Hi as [[Hst ->]|(cmds1 & cmds2 & -> & Hr & Hp')]; [by apply connection_stopped|].
  rewrite (serve_cmds_app _ cmds2 _ _ Hr). apply Forall_app in Hv as [_ Hv].
  apply (IH p' _ cmds2 s'); [done|done|done|rewrite length_drop; cbn [length] in *; lia].
Qed.

(** C22: How the network cuts the stream does not matter: the requests of any
    commands (up to a million arguments of up to 512 MB each, any bytes in them),
    one after the other, delivered to readQueryFromClient in reads of any sizes,
    run exactly those commands in that order, reply no protocol error and leave
    the client ready for the next request; unless one of the commands blocks or
    closes the client, as QUIT does: then exactly the commands up to this one are
    run, and none of the later ones.  The client's buffer limit is above 512 MB,
    and a command that returns an error closes the client, as processCommand
    does. *)
Theorem chunks_do_not_matter (max : nat) (ns : list nat) (cmds : list (list sds)) (s : S) :
  512 * 1024 * 1024 + 2 <= Z.of_nat max -> Forall ok_cmd cmds -> (length (enc_all cmds) <= length ns)%nat ->
  delivered cmds s (connection command max ns new_parser (enc_all cmds) s).
Proof using err_stops.
  intros Hmax Hv Hn. apply connection_requests; [done| |done|done]. split; [done|]. left. repeat (split; [done|]). split; [by left|]. intros _. by left.
Qed.
End Requests.
(** ** Runs: the commands are written down *)
Definition note (args : list sds) : prog (list (list sds)) (bool * bool) := _ ← modify (fun l => l ++ [args]); mret (negb (bool_decide (args = [str "QUIT"])), bool_decide (args = [str "QUIT"])).
Definition record (args : list sds) : prog (list (list sds)) (bool * bool) := _ ← modify (fun l => l ++ [args]); mret (true, false).
Definition nl : string := String CR (String LF "").

Lemma any_bytes_are_read_witness :
  blameless note (fun r => match fst r with Some p => served p | None => True end) (connection note 1000 [3; 1; 40]%nat new_parser (str ("*1" ++ nl ++ "$4" ++ nl ++ "QUIT" ++ nl ++ "*x")) []).
Proof.
  apply any_bytes_are_read. intros args s stop s' H. unfold note in H. rewrite bind_modify in H. injection H as H1 <- _. by apply negb_false_iff in H1.
Defined.

Lemma chunks_do_not_matter_witness :
  delivered note [[str "GET"; str "b:x"]; [str "QUIT"]; [str "PING"]] []
    (connection note (Z.to_nat (2 ^ 30)) (repeat 3%nat 60) new_parser (enc_all [[str "GET"; str "b:x"]; [str "QUIT"]; [str "PING"]]) []) /\
  serve_cmds note [[str "GET"; str "b:x"]; [str "QUIT"]; [str "PING"]] [] = Done (true, [[str "GET"; str "b:x"]; [str "QUIT"]]).
Proof.
  split; [|vm_compute; reflexivity]. apply chunks_do_not_matter.
  - intros args s stop s' H. unfold note in H. rewrite bind_modify in H. injection H as H1 <- _. by apply negb_false_iff in H1.
  - rewrite Z2Nat.id by lia. vm_compute. discriminate.
  - repeat constructor; try discriminate; vm_compute; discriminate.
  - vm_compute. lia.
Defined.

(** A line that ends in a line feed alone takes the first byte of the next one
    with it: PING and PING are read as PING and ING. *)
Lemma bare_newline_eats_a_byte :
  processInputBuffer record (set_querybuf (str ("PING" ++ String LF "PING" ++ nl)) new_parser) [] = Done (new_parser, [[str "PING"]; [str "ING"]]).
Proof. vm_compute. reflexivity. Qed.
End Proto.
