(* ===== verification/RdbStr.v ===== *)
(** * rdb.c, the lower half: lengths, integers and strings in dump files

    A function that saves writes to a stream, or only counts when it is given
    none (NULL); [None] is its result -1.  A function that loads reads from a
    stream and creates objects in the server; [None] is NULL.  The byte counts
    are not wrapped: they are ints in the code, and stay below 2^31 for values
    that fit in memory. *)
From S2P Require Import Prelude Mem CStr Lzf Crc64 Rio Intset Util Server Object Db TString Heap Ziplist.
Import Mem Lzf Rio Object Heap.

Module RdbStr.

Definition REDIS_RDB_6BITLEN : Z := 0.
Definition REDIS_RDB_14BITLEN : Z := 1.
Definition REDIS_RDB_32BITLEN : Z := 2.
Definition REDIS_RDB_ENCVAL : Z := 3.
Definition REDIS_RDB_LENERR : Z := 4294967295.
Definition REDIS_RDB_ENC_INT8 : Z := 0.
Definition REDIS_RDB_ENC_INT16 : Z := 1.
Definition REDIS_RDB_ENC_INT32 : Z := 2.
Definition REDIS_RDB_ENC_LZF : Z := 3.

(** [if ((x = m) == -1) return -1; k], and the same with NULL. *)
Definition or_fail {S A B} (m : prog S (option A)) (k : A -> prog S (option B)) : prog S (option B) :=
  r ← m; match r with None => mret None | Some a => k a end.
Notation "x <-- m ;; k" := (or_fail m (fun x => k)) (at level 100, m at level 90, k at level 200, right associativity) : rdb_scope.
Delimit Scope rdb_scope with rdb.
#[local] Open Scope rdb_scope.

(** ** Saving *)
Abbreviation sav := (prog (option rio) (option Z)).

Definition rdbWriteRaw (p : list Z) : sav := fun rdb =>
  match rdb with
  | None => Done (Some (size p), None)
  | Some r => q ← rioWrite p r; Done (if (fst q : bool) then Some (size p) else None, Some (snd q))
  end.

Definition rdbSaveType (type : Z) : sav := rdbWriteRaw [to_u 8 type].

Definition rdbSaveMillisecondTime (t : Z) : sav := rdbWriteRaw (le_bytes 8 t).

(** The argument is a uint32_t. *)
Definition rdbSaveLen (len : Z) : sav :=
  let len := to_u 32 len in
  if len <? 64 then
    _ <-- rdbWriteRaw [Z.lor (Z.land len 255) (Z.shiftl REDIS_RDB_6BITLEN 6)];; mret (Some 1)
  else if len <? 16384 then
    _ <-- rdbWriteRaw [Z.lor (Z.land (Z.shiftr len 8) 255) (Z.shiftl REDIS_RDB_14BITLEN 6); Z.land len 255];; mret (Some 2)
  else
    _ <-- rdbWriteRaw [Z.shiftl REDIS_RDB_32BITLEN 6];;
    _ <-- rdbWriteRaw (rev (le_bytes 4 len));; mret (Some 5).

(** The bytes written to [enc]; none for the result 0. *)
Definition rdbEncodeInteger (value : Z) : list Z :=
  if (-128 <=? value) && (value <=? 127) then
    [Z.lor (Z.shiftl REDIS_RDB_ENCVAL 6) REDIS_RDB_ENC_INT8; Z.land value 255]
  else if (-32768 <=? value) && (value <=? 32767) then
    [Z.lor (Z.shiftl REDIS_RDB_ENCVAL 6) REDIS_RDB_ENC_INT16; Z.land value 255; Z.land (Z.shiftr value 8) 255]
  else if (-2147483648 <=? value) && (value <=? 2147483647) then
    [Z.lor (Z.shiftl REDIS_RDB_ENCVAL 6) REDIS_RDB_ENC_INT32; Z.land value 255; Z.land (Z.shiftr value 8) 255;
     Z.land (Z.shiftr value 16) 255; Z.land (Z.shiftr value 24) 255]
  else [].

(** [s] is the memory from the first byte of the string on, [len] the length of
    the string. *)
Definition rdbTryIntegerEncoding (s : sds) (len : Z) : list Z :=
  let '(value, endptr, _) := strtoll s in
  if negb (bool_decide (endptr = [])) then []
  else
    let buf := Util.ll2string_text value in
    if negb (sdslen buf =? len) || negb (bool_decide (take (Z.to_nat len) s = buf)) then []
    else rdbEncodeInteger value.

Section Save.
(** What the compressor's hash table and its output buffer hold at first. *)
Context (htab : option rio -> Z -> Z) (uninit : nat -> Z) (rdb_compression : bool).

(** 0 when the string cannot be compressed. *)
Definition rdbSaveLzfStringObject (s : list Z) : sav :=
  let len := size s in
  if len <=? 4 then mret (Some 0)
  else
    let outlen := len - 4 in
    rdb ← get_st;
    c ← lift (lzf_compress (htab rdb) s outlen (map uninit (seq 0 (Z.to_nat (outlen + 1)))));
    let '(comprlen, out) := c in
    if comprlen =? 0 then mret (Some 0)
    else
      n1 <-- rdbWriteRaw [Z.lor (Z.shiftl REDIS_RDB_ENCVAL 6) REDIS_RDB_ENC_LZF];;
      n2 <-- rdbSaveLen comprlen;;
      n3 <-- rdbSaveLen len;;
      n4 <-- rdbWriteRaw (take (Z.to_nat comprlen) out);;
      mret (Some (n1 + n2 + n3 + n4)).

Definition rdbSaveRawString (s : sds) (len : Z) : sav :=
  let enc := if len <=? 11 then rdbTryIntegerEncoding s len else [] in
  if size enc >? 0 then rdbWriteRaw enc
  else
    let data := map code (take (Z.to_nat len) s) in
    n <-- (if rdb_compression && (len >? 20) then rdbSaveLzfStringObject data else mret (Some 0));;
    if n >? 0 then mret (Some n)
    else
      n <-- rdbSaveLen len;;
      if len >? 0 then (_ <-- rdbWriteRaw data;; mret (Some (n + len))) else mret (Some n).

Definition rdbSaveLongLongAsStringObject (value : Z) : sav :=
  let enc := rdbEncodeInteger value in
  if size enc >? 0 then rdbWriteRaw enc
  else
    let buf := Util.ll2string_text value in
    let enclen := sdslen buf in
    _ ← lift (require_b AssertFail (enclen <? 32));
    n1 <-- rdbSaveLen enclen;;
    n2 <-- rdbWriteRaw (map code buf);;
    mret (Some (n1 + n2)).

(** An sds string is followed by a NUL. *)
Definition rdbSaveStringObject (obj : robj) : sav :=
  match o_encoding obj, o_ptr obj with
  | ENC_INT, PLong v => rdbSaveLongLongAsStringObject v
  | ENC_RAW, PSds x => rdbSaveRawString (x ++ [NUL]) (sdslen x)
  | _, _ => throw AssertFail
  end.
End Save.

(** ** Loading *)
Abbreviation ld := (prog (server * rio)).
Definition on_rio {A} (m : prog rio A) : ld A := fun s =>
  q ← m (snd s); Done (fst q, (fst s, snd q)).
Definition on_srv {A} (m : M A) : ld A := fun s =>
  q ← m (fst s); Done (fst q, (snd q, snd s)).

Definition rdbLoadType : prog rio (option Z) :=
  b <-- rioRead 1;; match b with [t] => mret (Some t) | _ => throw OutOfBounds end.
Definition rdbLoadTime : prog rio (option Z) :=
  b <-- rioRead 4;; mret (Some (to_s 32 (le_val b))).
Definition rdbLoadMillisecondTime : prog rio (option Z) :=
  b <-- rioRead 8;; mret (Some (to_s 64 (le_val b))).

(** The length, or REDIS_RDB_LENERR, and [isencoded]. *)
Definition rdbLoadLen : prog rio (Z * bool) :=
  r ← rioRead 1;
  match r with
  | None => mret (REDIS_RDB_LENERR, false)
  | Some b =>
    b0 ← lift (expect OutOfBounds (b !! 0%nat));
    let type := Z.shiftr (Z.land b0 192) 6 in
    if type =? REDIS_RDB_ENCVAL then mret (Z.land b0 63, true)
    else if type =? REDIS_RDB_6BITLEN then mret (Z.land b0 63, false)
    else if type =? REDIS_RDB_14BITLEN then
      r ← rioRead 1;
      match r with
      | None => mret (REDIS_RDB_LENERR, false)
      | Some b =>
        b1 ← lift (expect OutOfBounds (b !! 0%nat));
        mret (Z.lor (Z.shiftl (Z.land b0 63) 8) b1, false)
      end
    else
      r ← rioRead 4;
      match r with
      | None => mret (REDIS_RDB_LENERR, false)
      | Some b => mret (le_val (rev b), false)
      end
  end.

(** [rdbLoadLen(rdb,NULL)], and the test for REDIS_RDB_LENERR. *)
Definition load_len : prog rio (option Z) :=
  r ← rdbLoadLen; mret (if fst r =? REDIS_RDB_LENERR then None else Some (fst r)).

(** The integer is or-ed together from the bytes of [enc] and cast. *)
Definition rdbLoadIntegerObject (enctype : Z) (encode : bool) : ld (option addr) :=
  let w := if enctype =? REDIS_RDB_ENC_INT8 then 1
           else if enctype =? REDIS_RDB_ENC_INT16 then 2
           else if enctype =? REDIS_RDB_ENC_INT32 then 4 else 0 in
  if w =? 0 then throw Panic
  else
    enc <-- on_rio (rioRead w);;
    let val := to_s (8 * w) (le_val enc) in
    o ← on_srv (if encode then createStringObjectFromLongLong val
                else createObject REDIS_STRING (PSds (Util.ll2string_text val)));
    mret (Some o).

Definition rdbLoadLzfStringObject : ld (option addr) :=
  clen <-- on_rio load_len;;
  len <-- on_rio load_len;;
  c <-- on_rio (rioRead clen);;
  d ← lift (lzf_decompress c (replicate (Z.to_nat len) 0));
  if fst d =? 0 then mret None
  else o ← on_srv (createObject REDIS_STRING (PSds (map chr (snd d)))); mret (Some o).

Definition rdbGenericLoadStringObject (encode : bool) : ld (option addr) :=
  r ← on_rio rdbLoadLen;
  let '(len, isencoded) := r in
  if (isencoded : bool) then
    if (len =? REDIS_RDB_ENC_INT8) || (len =? REDIS_RDB_ENC_INT16) || (len =? REDIS_RDB_ENC_INT32)
    then rdbLoadIntegerObject len encode
    else if len =? REDIS_RDB_ENC_LZF then rdbLoadLzfStringObject
    else throw Panic
  else if len =? REDIS_RDB_LENERR then mret None
  else
    val <-- on_rio (rioRead len);;
    o ← on_srv (createObject REDIS_STRING (PSds (map chr val)));
    mret (Some o).

Definition rdbLoadStringObject : ld (option addr) := rdbGenericLoadStringObject false.
Definition rdbLoadEncodedStringObject : ld (option addr) := rdbGenericLoadStringObject true.

(** * What a program writes
    [writes m P]: given any stream, [m] writes some bytes [bs] and returns some
    [n] with [P bs n], or fails when there is no room for [bs]. *)
Definition usable (rdb : option rio) : Prop := match rdb with Some r => rio_ok r | None => True end.

Definition writes (m : sav) (P : list Z -> Z -> Prop) : Prop :=
  forall rdb, usable rdb -> exists bs n, P bs n /\
    match rdb with
    | None => m None = Done (Some n, None)
    | Some r => if decide (size bs <= io_room r) then m (Some r) = Done (Some n, Some (wrote bs r))
                else exists r', m (Some r) = Done (None, Some r')
    end.

(** The result is [k] plus the number of bytes. *)
Definition emits (k : Z) (m : sav) (P : list Z -> Prop) : Prop := writes m (fun bs n => P bs /\ n = k + size bs).

Lemma writes_weaken m (P Q : list Z -> Z -> Prop) : (forall bs n, P bs n -> Q bs n) -> writes m P -> writes m Q.
Proof. intros H E rdb Hr. destruct (E rdb Hr) as (bs & n & Hb & R). exists bs, n. split; [by apply H|done]. Qed.

Lemma emits_weaken k m (P Q : list Z -> Prop) : (forall bs, P bs -> Q bs) -> emits k m P -> emits k m Q.
Proof. intros H. apply writes_weaken. intros bs n [Hb Hn]. split; [by apply H|done]. Qed.

(** The program may look at its stream first. *)
Lemma writes_at m (P : list Z -> Z -> Prop) : (forall rdb, usable rdb -> exists m', m rdb = m' rdb /\ writes m' P) -> writes m P.
Proof.
  intros H rdb Hr. destruct (H rdb Hr) as (m' & E & Hm). destruct (Hm rdb Hr) as (bs & n & Hb & R). exists bs, n. split; [done|].
  by destruct rdb; rewrite E.
Qed.

Lemma writes_ret n (P : list Z -> Z -> Prop) : P [] n -> writes (mret (Some n)) P.
Proof.
  intros HP [r|] Hr; exists [], n; split; try done. rewrite wrote_nil, size_nil. case_decide; [done|]. destruct Hr. lia.
Qed.
Lemma emits_ret k n (P : list Z -> Prop) : n = k -> P [] -> emits k (mret (Some n)) P.
Proof. intros -> HP. apply writes_ret. split; [done|]. rewrite size_nil. lia. Qed.

Lemma emits_raw p : emits 0 (rdbWriteRaw p) (eq p).
Proof.
  intros [r|] Hr; exists p, (0 + size p); split; try done. unfold rdbWriteRaw. case_decide as Hp.
  - by destruct (rioWrite_ok p r Hr Hp) as [-> _].
  - destruct (rioWrite_full p r Hr) as [r' ->]; [lia|]. by eexists.
Qed.

Lemma or_fail_Some {S A B} (m : prog S (option A)) (f : A -> prog S (option B)) s a s' :
  m s = Done (Some a, s') -> or_fail m f s = f a s'.
Proof. intros E. unfold or_fail. by rewrite (prog_bind_step _ _ _ _ _ E). Qed.
Lemma or_fail_None {S A B} (m : prog S (option A)) (f : A -> prog S (option B)) s s' :
  m s = Done (None, s') -> or_fail m f s = Done (None, s').
Proof. intros E. unfold or_fail. by rewrite (prog_bind_step _ _ _ _ _ E). Qed.

Lemma writes_bind m (P : list Z -> Z -> Prop) f (R : list Z -> Z -> Prop) : writes m P ->
  (forall b1 n1, P b1 n1 -> writes (f n1) (fun b2 n2 => R (b1 ++ b2) n2)) -> writes (or_fail m f) R.
Proof.
  intros Hm Hf [r|] Hr; destruct (Hm _ Hr) as (b1 & n1 & H1 & E1).
  - case_decide as Hroom.
    + destruct (rioWrite_ok b1 r Hr Hroom) as [_ Hr1]. destruct (Hf b1 n1 H1 (Some (wrote b1 r)) Hr1) as (b2 & n2 & H2 & E2).
      exists (b1 ++ b2), n2. split; [done|]. rewrite (or_fail_Some _ _ _ _ _ E1), size_app, wrote_app. cbn [wrote io_room] in E2.
      case_decide as Hd; case_decide; try lia; done.
    + destruct (Hf b1 n1 H1 None I) as (b2 & n2 & H2 & _). exists (b1 ++ b2), n2. split; [done|]. pose proof (size_nonneg b2).
      rewrite decide_False by sz. destruct E1 as [r' E1]. exists r'. by apply or_fail_None.
  - destruct (Hf b1 n1 H1 None I) as (b2 & n2 & H2 & E2). exists (b1 ++ b2), n2. split; [done|].
    by rewrite (or_fail_Some _ _ _ _ _ E1).
Qed.

Lemma emits_bind k m (P : list Z -> Prop) f (R : list Z -> Prop) : emits 0 m P ->
  (forall b1, P b1 -> emits (k + size b1) (f (size b1)) (fun b2 => R (b1 ++ b2))) -> emits k (or_fail m f) R.
Proof.
  intros Hm Hf. eapply writes_bind; [exact Hm|]. intros b1 n1 [H1 ->]. cbn [Z.add]. eapply writes_weaken; [|by apply Hf].
  intros b2 n2 [H2 ->]. split; [done|]. rewrite size_app. lia.
Qed.

Lemma emits_raw_bind k p f (R : list Z -> Prop) :
  emits (k + size p) (f (size p)) (fun b => R (p ++ b)) -> emits k (or_fail (rdbWriteRaw p) f) R.
Proof. intros H. eapply emits_bind; [apply emits_raw|]. by intros b1 <-. Qed.

(** ** The formats *)
Definition enc_len (n : Z) : list Z :=
  if n <? 64 then [n] else if n <? 16384 then [64 + n / 256; n mod 256] else 128 :: rev (le_bytes 4 n).

Inductive StrEnc (x : sds) : list Z -> Prop :=
| se_int v : in_s 32 v -> x = Util.ll2string_text v -> StrEnc x (rdbEncodeInteger v)
| se_lzf c : c <> [] -> size c < REDIS_RDB_LENERR -> sdslen x < REDIS_RDB_LENERR -> 2 <= sdslen x -> Decodes c (map code x) ->
    StrEnc x ([195] ++ enc_len (size c) ++ enc_len (sdslen x) ++ c)
| se_raw : sdslen x < REDIS_RDB_LENERR -> StrEnc x (enc_len (sdslen x) ++ map code x).

Lemma saveLen_emits n : 0 <= n < 2 ^ 32 -> emits 0 (rdbSaveLen n) (eq (enc_len n)).
Proof.
  intros Hn. unfold rdbSaveLen, enc_len. rewrite to_u_small by exact Hn. cbv zeta.
  change (Z.shiftl REDIS_RDB_6BITLEN 6) with 0. change (Z.shiftl REDIS_RDB_14BITLEN 6) with 64. change (Z.shiftl REDIS_RDB_32BITLEN 6) with 128.
  rewrite Z.lor_0_r, !land_255, Z.shiftr_div_pow2 by lia. change (2 ^ 8) with 256.
  case_if; [|case_if].
  - apply emits_raw_bind, emits_ret; [done|]. by rewrite Z.mod_small by lia.
  - apply emits_raw_bind, emits_ret; [done|]. assert (0 <= n / 256 < 64) by (split; [apply Z.div_pos|apply Z.div_lt_upper_bound]; lia).
    rewrite (Z.mod_small (n / 256)), Z.lor_comm by lia. assert (E : Z.lor 64 (n / 256) = 64 + n / 256) by exact (lor_add 1 (n / 256) 6 ltac:(lia) ltac:(lia)).
    by rewrite E.
  - apply emits_raw_bind, emits_raw_bind, emits_ret; [by rewrite !size_cons|]. done.
Qed.

Lemma encodeInteger_ok v : in_s 32 v ->
  exists k w, rdbEncodeInteger v = (192 + k) :: le_bytes w v /\ in_s (8 * Z.of_nat w) v /\
    ((k = 0 /\ w = 1%nat) \/ (k = 1 /\ w = 2%nat) \/ (k = 2 /\ w = 4%nat)).
Proof.
  intros Hv. unfold rdbEncodeInteger. rewrite !land_255, !Z.shiftr_div_pow2 by lia.
  change (2 ^ 8) with 256. change (2 ^ 16) with (256 * 256). change (2 ^ 24) with (256 * 256 * 256). rewrite <- !Z.div_div by lia.
  unfold in_s in *. cbn [Z.sub Z.pow] in Hv. change (2 ^ (32 - 1)) with 2147483648 in Hv.
  case_if; [|case_if; [|case_if]].
  - exists 0, 1%nat. split; [done|]. split; [|by left]. cbn. lia.
  - exists 1, 2%nat. split; [done|]. split; [|by right; left]. cbn. lia.
  - exists 2, 4%nat. split; [done|]. split; [|by right; right]. cbn. lia.
  - exfalso. repeat match goal with H : _ && _ = false |- _ => apply andb_false_iff in H as [H|H]; zify_bool end; lia.
Qed.

Lemma encodeInteger_range v : rdbEncodeInteger v <> [] -> in_s 32 v.
Proof.
  unfold rdbEncodeInteger, in_s. change (2 ^ (32 - 1)) with 2147483648. case_if; [lia|]. case_if; [lia|]. case_if; [lia|done].
Qed.

Lemma enc_len_nonempty n : enc_len n <> [].
Proof. unfold enc_len. case_if; [done|]. by case_if. Qed.

Lemma size_pos_nonempty (l : list Z) : (size l >? 0) = true <-> l <> [].
Proof.
  rewrite Z.gtb_lt. destruct l; [done|]. pose proof (size_nonneg l). split; [done|]. intros _. rewrite size_cons. lia.
Qed.

Lemma tryInteger_ok s len : rdbTryIntegerEncoding s len <> [] ->
  exists v, in_s 32 v /\ take (Z.to_nat len) s = Util.ll2string_text v /\ rdbTryIntegerEncoding s len = rdbEncodeInteger v.
Proof.
  unfold rdbTryIntegerEncoding. destruct (strtoll s) as [[v e] b]. case_bool_decide; cbn [negb]; [|done].
  destruct (_ || _) eqn:E; [done|]. intros Hne. apply orb_false_iff in E as [_ E]. apply negb_false_iff, bool_decide_eq_true in E.
  exists v. split; [by apply encodeInteger_range|]. done.
Qed.

Lemma StrEnc_nonempty x bs : StrEnc x bs -> bs <> [].
Proof.
  destruct 1 as [v Hv _|c _ _ _ _ _|_]; [|done|by intros [?%enc_len_nonempty _]%app_eq_nil].
  destruct (encodeInteger_ok v Hv) as (k & w & -> & _). done.
Qed.

Section SaveSpec.
Context (htab : option rio -> Z -> Z) (uninit : nat -> Z) (rdb_compression : bool).
Hypothesis htab_range : forall rdb h, in_s 64 (htab rdb h).

Lemma saveLzf_emits x : 20 < sdslen x < REDIS_RDB_LENERR ->
  emits 0 (rdbSaveLzfStringObject htab uninit (map code x)) (fun bs => bs = [] \/ StrEnc x bs).
Proof using htab_range.
  intros Hx. apply writes_at. intros rdb Hrdb. assert (Hsz : size (map code x) = sdslen x) by apply Ziplist.size_map_code.
  unfold REDIS_RDB_LENERR in Hx. unfold rdbSaveLzfStringObject. cbv zeta. rewrite Hsz, (proj2 (Z.leb_gt _ _)), bind_get_st by lia.
  destruct (compress_spec (htab rdb) (map code x) (sdslen x - 4) (htab_range rdb) ltac:(rewrite Hsz; lia)
              (map uninit (seq 0 (Z.to_nat (sdslen x - 4 + 1))))) as (n & out & -> & Hn & Hout & Hd).
  { lia. } { unfold size. rewrite length_map, length_seq. lia. }
  rewrite bind_lift. destruct (Z.eqb_spec n 0) as [E|E]; eexists; (split; [reflexivity|]); [by apply emits_ret; [|left]|].
  specialize (Hd E). assert (Hc : size (take (Z.to_nat n) out) = n) by (unfold size in *; rewrite length_take; lia).
  apply emits_raw_bind. eapply emits_bind; [apply saveLen_emits; lia|]. intros b <-.
  eapply emits_bind; [apply saveLen_emits; lia|]. intros b <-. apply emits_raw_bind, emits_ret; [sz|].
  right. rewrite app_nil_r. rewrite <- Hc at 1. apply se_lzf; unfold REDIS_RDB_LENERR; try lia; [|done].
  intros E0. rewrite E0, size_nil in Hc. lia.
Qed.

Lemma saveRaw_emits s len x : 0 <= len -> take (Z.to_nat len) s = x -> sdslen x = len -> len < REDIS_RDB_LENERR ->
  emits 0 (rdbSaveRawString htab uninit rdb_compression s len) (StrEnc x).
Proof using htab_range.
  intros Hl Hx Hlen Hmax. unfold rdbSaveRawString. cbv zeta. rewrite Hx.
  set (enc := if len <=? 11 then rdbTryIntegerEncoding s len else []). destruct (size enc >? 0) eqn:E.
  - apply size_pos_nonempty in E. unfold enc in *. destruct (len <=? 11); [|done].
    destruct (tryInteger_ok s len E) as (v & Hv & Hs & ->). eapply emits_weaken; [|apply emits_raw].
    intros bs <-. apply se_int; [done|congruence].
  - eapply (emits_bind 0 _ (fun bs => bs = [] \/ StrEnc x bs)).
    + destruct (rdb_compression && _) eqn:Ec; [|by apply emits_ret; [|left]]. apply saveLzf_emits.
      apply andb_true_iff in Ec as [_ Ec]. apply Z.gtb_lt in Ec. lia.
    + intros b [->|Hb].
      * cbn [size length Z.of_nat Z.gtb Z.compare Z.add]. eapply emits_bind; [apply saveLen_emits; unfold REDIS_RDB_LENERR in *; lia|].
        intros b <-. rewrite Z.gtb_ltb. assert (Hsz : size (map code x) = len) by (by rewrite Ziplist.size_map_code).
        destruct (Z.ltb_spec 0 len).
        -- apply emits_raw_bind, emits_ret; [rewrite size_nil; lia|]. cbn [app]. rewrite app_nil_r, <- Hlen. apply se_raw. lia.
        -- apply emits_ret; [rewrite size_nil; lia|]. cbn [app]. rewrite app_nil_r, <- Hlen. replace (enc_len (sdslen x)) with (enc_len (sdslen x) ++ map code x); [apply se_raw; lia|].
           destruct x; [apply app_nil_r|]. unfold sdslen in Hlen. cbn in Hlen. lia.
      * assert (Hn : size b >? 0 = true).
        { apply size_pos_nonempty. by eapply StrEnc_nonempty. }
        rewrite Hn. apply emits_ret; [lia|]. by rewrite app_nil_r.
Qed.

Lemma saveString_emits o x : str_obj_ok o x -> sdslen x < REDIS_RDB_LENERR ->
  emits 0 (rdbSaveStringObject htab uninit rdb_compression o) (StrEnc x).
Proof using htab_range.
  intros (_ & _ & [[He Hp]|(He & n & Hn & Hp & ->)]) Hl; unfold rdbSaveStringObject; rewrite He, Hp.
  - apply saveRaw_emits; unfold sdslen in *; [lia|by rewrite Nat2Z.id, take_app_length|done|done].
  - unfold rdbSaveLongLongAsStringObject. cbv zeta. destruct (size (rdbEncodeInteger n) >? 0) eqn:E.
    + eapply emits_weaken; [|apply emits_raw]. intros bs <-. apply size_pos_nonempty in E. apply se_int; [by apply encodeInteger_range|done].
    + destruct (Ziplist.string2ll_short _ _ (Util.string2ll_text n Hn)) as [[Hs1 Hs2] _]. rewrite (proj2 (Z.ltb_lt _ _)) by done. cbn [require_b].
      apply writes_at. intros rdb Hr. rewrite bind_lift. eexists. split; [reflexivity|].
      eapply emits_bind; [apply saveLen_emits; lia|]. intros b <-. apply emits_raw_bind, emits_ret; [lia|]. rewrite app_nil_r. by apply se_raw.
Qed.
End SaveSpec.

(** * What a program reads *)
Lemma bind_rioRead {B} n a b (f : option (list Z) -> prog rio B) r : ahead r (a ++ b) -> n = size a ->
  (rioRead n ≫= f) r = f (Some a) (passed a r).
Proof. intros Ha Hn. apply prog_bind_step. by apply (rioRead_ok a b). Qed.

Lemma on_rio_Done {A} (m : prog rio A) s r a r' : m r = Done (a, r') -> on_rio m (s, r) = Done (a, (s, r')).
Proof. intros E. unfold on_rio. cbn. by rewrite E. Qed.
Lemma on_srv_Done {A} (m : M A) s r a s' : m s = Done (a, s') -> on_srv m (s, r) = Done (a, (s', r)).
Proof. intros E. unfold on_srv. cbn. by rewrite E. Qed.
Lemma bind_on_srv {A B} (m : M A) (f : A -> ld B) s r a s' : m s = Done (a, s') -> (on_srv m ≫= f) (s, r) = f a (s', r).
Proof. intros E. apply prog_bind_step. by apply on_srv_Done. Qed.
Lemma bind_on_rio {A B} (m : prog rio A) (f : A -> ld B) s r a r' : m r = Done (a, r') -> (on_rio m ≫= f) (s, r) = f a (s, r').
Proof. intros E. apply prog_bind_step. by apply on_rio_Done. Qed.

Lemma land_192_type b : 0 <= b < 256 -> Z.shiftr (Z.land b 192) 6 = b / 64.
Proof.
  intros Hb. rewrite Ziplist.land_192 by done. rewrite Z.shiftr_div_pow2 by lia. change (2 ^ 6) with 64.
  rewrite Z.mul_comm. by apply Z.div_mul.
Qed.

Lemma loadLen_ok n rest r : 0 <= n < 2 ^ 32 -> ahead r (enc_len n ++ rest) ->
  rdbLoadLen r = Done ((n, false), passed (enc_len n) r).
Proof.
  intros Hn Ha. unfold rdbLoadLen, enc_len in *. case_if; [|case_if].
  - rewrite (bind_rioRead 1 [n] rest) by done. cbn [lookup list_lookup expect]. rewrite bind_lift. cbv zeta.
    rewrite land_192_type, land_63 by lia. rewrite Z.div_small, Z.mod_small by lia. done.
  - set (b0 := 64 + n / 256) in *. assert (0 <= n / 256 < 64) by (split; [apply Z.div_pos|apply Z.div_lt_upper_bound]; lia).
    rewrite (bind_rioRead 1 [b0] (n mod 256 :: rest)) by done. cbn [lookup list_lookup expect]. rewrite bind_lift. cbv zeta.
    assert (Hd : b0 / 64 = 1) by (unfold b0; symmetry; apply (Z.div_unique _ _ _ (n / 256)); lia).
    assert (Hm : b0 mod 64 = n / 256) by (unfold b0; symmetry; apply (Z.mod_unique _ _ 1); lia).
    rewrite land_192_type, land_63, Hd, Hm by lia. cbn [Z.eqb Pos.eqb REDIS_RDB_ENCVAL REDIS_RDB_6BITLEN REDIS_RDB_14BITLEN].
    pose proof (ahead_passed r [b0] (n mod 256 :: rest) Ha) as Ha1.
    rewrite (bind_rioRead 1 [n mod 256] rest) by done. cbn [lookup list_lookup expect]. rewrite bind_lift, <- passed_app.
    pose proof (Z.mod_pos_bound n 256 ltac:(lia)). rewrite Z.shiftl_mul_pow2, lor_add by lia. change (2 ^ 8) with 256.
    rewrite Z.mul_comm, <- Z.div_mod by lia. done.
  - rewrite (bind_rioRead 1 [128] (rev (le_bytes 4 n) ++ rest)) by done. cbn [lookup list_lookup expect]. rewrite bind_lift. cbv zeta.
    rewrite land_192_type by lia. change (128 / 64) with 2. cbn [Z.eqb Pos.eqb REDIS_RDB_ENCVAL REDIS_RDB_6BITLEN REDIS_RDB_14BITLEN].
    pose proof (ahead_passed r [128] (rev (le_bytes 4 n) ++ rest) Ha) as Ha1.
    rewrite (bind_rioRead 4 (rev (le_bytes 4 n)) rest) by done. rewrite rev_involutive, le_val_small, <- passed_app by done. done.
Qed.

Lemma loadLen_encoded k rest r : 0 <= k < 64 -> ahead r ((192 + k) :: rest) ->
  rdbLoadLen r = Done ((k, true), passed [192 + k] r).
Proof.
  intros Hk Ha. unfold rdbLoadLen. rewrite (bind_rioRead 1 [192 + k] rest) by done. cbn [lookup list_lookup expect]. rewrite bind_lift. cbv zeta.
  assert (Hd : (192 + k) / 64 = 3) by (symmetry; apply (Z.div_unique _ _ _ k); lia).
  assert (Hm : (192 + k) mod 64 = k) by (symmetry; apply (Z.mod_unique _ _ 3); lia).
  by rewrite land_192_type, land_63, Hd, Hm by lia.
Qed.

Lemma load_len_ok n rest r : 0 <= n < REDIS_RDB_LENERR -> ahead r (enc_len n ++ rest) ->
  load_len r = Done (Some n, passed (enc_len n) r).
Proof.
  unfold REDIS_RDB_LENERR. intros Hn Ha. unfold load_len. rewrite (prog_bind_step _ _ _ _ _ (loadLen_ok n rest r ltac:(lia) Ha)). cbn [fst].
  unfold REDIS_RDB_LENERR. by rewrite (proj2 (Z.eqb_neq _ _)) by lia.
Qed.

(** A new address, or that of a shared integer. *)
Definition fresh_or_shared (s : server) (a : addr) : Prop := heap s !! a = None \/ Z.pos a <= REDIS_SHARED_INTEGERS.

Lemma createFromLongLong_addr w s b s' : heap_fresh s -> createStringObjectFromLongLong w s = Done (b, s') -> fresh_or_shared s b.
Proof.
  intros Hf. unfold createStringObjectFromLongLong. destruct ((0 <=? w) && _) eqn:E.
  - intros H. apply prog_bind_inv in H as (u & s1 & _ & H). unfold mret, prog_ret in H. injection H as <- _. right. zify_bool.
    unfold shared_integers, REDIS_SHARED_INTEGERS in *. lia.
  - unfold createObject, alloc. destruct ((INT64_MIN <=? w) && (w <=? INT64_MAX)); intros [= <- _]; left; apply Hf; lia.
Qed.

(** A string comes back as an object with the same bytes: raw when [encode] is
    false. *)
Definition loaded (encode : bool) (l : list addr) (x : sds) (s : server) (a : addr) (s' : server) : Prop :=
  owns s' (a :: l) /\ holds s' a x /\ (forall l0, own_step l0 None s s') /\
  fresh_or_shared s a /\
  (encode = false -> exists o, heap s' !! a = Some o /\ o_encoding o = ENC_RAW /\ o_ptr o = PSds x).

Lemma create_loaded encode l x s : owns s l ->
  exists a s', createObject REDIS_STRING (PSds x) s = Done (a, s') /\ loaded encode l x s a s'.
Proof.
  intros HO. destruct (own_createString s l x HO) as (a & s' & E & HO' & Hh & HS & _). exists a, s'. split; [exact E|].
  unfold createStringObject, createObject, alloc in E. injection E as <- <-.
  split; [done|]. split; [done|]. split; [done|]. split; [left; apply (ow_fresh _ _ HO); lia|]. intros _.
  eexists. cbn. rewrite lookup_insert_eq. done.
Qed.

Lemma loadInteger_ok encode l v k w rest s r : owns s l -> in_s (8 * Z.of_nat w) v -> ahead r (le_bytes w v ++ rest) ->
  (k = 0 /\ w = 1%nat) \/ (k = 1 /\ w = 2%nat) \/ (k = 2 /\ w = 4%nat) ->
  exists a s', rdbLoadIntegerObject k encode (s, r) = Done (Some a, (s', passed (le_bytes w v) r)) /\
    loaded encode l (Util.ll2string_text v) s a s'.
Proof.
  intros HO Hv Ha Hkw. unfold rdbLoadIntegerObject. cbv zeta. set (wz := if k =? REDIS_RDB_ENC_INT8 then _ else _).
  assert (Hw : wz = Z.of_nat w) by (unfold wz; destruct Hkw as [[-> ->]|[[-> ->]|[-> ->]]]; done).
  assert (Hp : 0 < Z.of_nat w) by lia. rewrite Hw, (proj2 (Z.eqb_neq _ _)) by lia.
  erewrite or_fail_Some; [|apply on_rio_Done, (rioRead_ok (le_bytes w v) rest); [done|by rewrite size_le_bytes]]. cbv zeta.
  assert (Hval : to_s (8 * Z.of_nat w) (le_val (le_bytes w v)) = v).
  { rewrite le_val_bytes. replace (256 ^ Z.of_nat w) with (2 ^ (8 * Z.of_nat w)) by (rewrite Z.pow_mul_r by lia; done).
    rewrite to_s_mod by lia. apply to_s_small; [lia|done]. }
  rewrite Hval. assert (Hv64 : in_s 64 v) by (destruct Hkw as [[_ ->]|[[_ ->]|[_ ->]]]; unfold in_s in *; cbn in *; lia).
  destruct encode.
  - destruct (own_createFromLongLong s l v HO Hv64) as (a & s' & E & HO' & Hh & HS). exists a, s'.
    rewrite (bind_on_srv _ _ _ _ _ _ E). split; [done|]. split; [done|]. split; [done|]. split; [done|].
    split; [by eapply createFromLongLong_addr; [apply HO|]|done].
  - destruct (create_loaded false l (Util.ll2string_text v) s HO) as (a & s' & E & HL). exists a, s'.
    by rewrite (bind_on_srv _ _ _ _ _ _ E).
Qed.

Lemma loadLzf_ok encode l x c rest s r : owns s l -> c <> [] -> size c < REDIS_RDB_LENERR -> 2 <= sdslen x < REDIS_RDB_LENERR ->
  Decodes c (map code x) -> ahead r ((enc_len (size c) ++ enc_len (sdslen x) ++ c) ++ rest) ->
  exists a s', rdbLoadLzfStringObject (s, r) = Done (Some a, (s', passed (enc_len (size c) ++ enc_len (sdslen x) ++ c) r)) /\
    loaded encode l x s a s'.
Proof.
  intros HO Hc Hcl Hx Hd Ha. rewrite <- !app_assoc in Ha. pose proof (size_nonneg c). unfold rdbLoadLzfStringObject.
  pose proof (ahead_passed _ _ _ Ha) as Ha1. pose proof (ahead_passed _ _ _ Ha1) as Ha2.
  erewrite or_fail_Some; [|eapply on_rio_Done, (load_len_ok (size c)); [lia|done]].
  erewrite or_fail_Some; [|eapply on_rio_Done, (load_len_ok (sdslen x)); [lia|done]].
  erewrite or_fail_Some; [|by eapply on_rio_Done, (rioRead_ok c rest)].
  rewrite (decompress_decodes c (map code x)); [|done|done|].
  2:{ unfold size. rewrite length_replicate, length_map. unfold sdslen. lia. }
  rewrite bind_lift. cbn [fst snd]. rewrite Ziplist.size_map_code, (proj2 (Z.eqb_neq _ _)), Ziplist.chr_codes by lia.
  destruct (create_loaded encode l x s HO) as (a & s' & E & HL). exists a, s'.
  rewrite (bind_on_srv _ _ _ _ _ _ E), !passed_app. done.
Qed.

Lemma loadString_ok encode l x bs rest s r : owns s l -> StrEnc x bs -> ahead r (bs ++ rest) ->
  exists a s', rdbGenericLoadStringObject encode (s, r) = Done (Some a, (s', passed bs r)) /\ loaded encode l x s a s'.
Proof.
  intros HO Hx Ha. unfold rdbGenericLoadStringObject. destruct Hx as [v Hv ->|c Hc Hcl Hxl Hx2 Hd|Hl].
  - destruct (encodeInteger_ok v Hv) as (k & w & Ek & Hr & Hkw). rewrite Ek in *.
    assert (0 <= k < 64) as Hk by (destruct Hkw as [[-> _]|[[-> _]|[-> _]]]; lia).
    rewrite (bind_on_rio _ _ _ _ _ _ (loadLen_encoded k (le_bytes w v ++ rest) r Hk Ha)). cbv iota beta.
    assert (Hc : (k =? REDIS_RDB_ENC_INT8) || (k =? REDIS_RDB_ENC_INT16) || (k =? REDIS_RDB_ENC_INT32) = true)
      by (destruct Hkw as [[-> _]|[[-> _]|[-> _]]]; done).
    rewrite Hc. destruct (loadInteger_ok encode l v k w rest s (passed [192 + k] r)) as (a & s' & E & HL); [done|done| |done|].
    + by apply (ahead_passed r [192 + k]).
    + exists a, s'. rewrite E, <- passed_app. done.
  - rewrite (bind_on_rio _ _ _ _ _ _ (loadLen_encoded 3 _ r ltac:(lia) Ha)). cbv iota beta. cbn [Z.eqb orb REDIS_RDB_ENC_INT8 REDIS_RDB_ENC_INT16 REDIS_RDB_ENC_INT32 REDIS_RDB_ENC_LZF Pos.eqb].
    destruct (loadLzf_ok encode l x c rest s (passed [195] r)) as (a & s' & E & HL); [done..| |].
    + by apply (ahead_passed r [195]).
    + exists a, s'. change (192 + 3) with 195. rewrite E, (passed_app [195]). done.
  - rewrite <- app_assoc in Ha. rewrite (bind_on_rio _ _ _ _ _ _ (loadLen_ok (sdslen x) _ r ltac:(unfold sdslen, REDIS_RDB_LENERR in *; lia) Ha)).
    cbv iota beta. rewrite (proj2 (Z.eqb_neq _ _)) by lia.
    erewrite or_fail_Some; [|eapply on_rio_Done, (rioRead_ok (map code x) rest); [by apply ahead_passed|by rewrite Ziplist.size_map_code]].
    rewrite Ziplist.chr_codes. destruct (create_loaded encode l x s HO) as (a & s' & E & HL). exists a, s'.
    rewrite (bind_on_srv _ _ _ _ _ _ E), passed_app. done.
Qed.

End RdbStr.
