(* ===== verification/Rdb.v ===== *)
(** * rdb.c, the upper half: objects, key-value pairs and whole dump files

    A ziplist object of the model holds the list of strings that its block
    stands for (Ziplist.v).  The block that is written is a parameter ([blob]),
    as it depends on the operations that made it; the block that is read is
    turned into its list by the ziplist's own iteration.  Sorted sets are
    parameters ([save_zset], [load_other], which also reads zipmaps). *)
From S2P Require Import Prelude Mem CStr Lzf Crc64 Rio Intset Util Server Object Db TString Heap TSet TList THash Ziplist RdbStr.
Import Mem Rio Intset Object Db Heap TList RdbStr.

Module Rdb.
#[local] Open Scope rdb_scope.

Definition REDIS_RDB_VERSION : Z := 6.
Definition REDIS_RDB_TYPE_STRING : Z := 0.
Definition REDIS_RDB_TYPE_LIST : Z := 1.
Definition REDIS_RDB_TYPE_SET : Z := 2.
Definition REDIS_RDB_TYPE_ZSET : Z := 3.
Definition REDIS_RDB_TYPE_HASH : Z := 4.
Definition REDIS_RDB_TYPE_HASH_ZIPMAP : Z := 9.
Definition REDIS_RDB_TYPE_LIST_ZIPLIST : Z := 10.
Definition REDIS_RDB_TYPE_SET_INTSET : Z := 11.
Definition REDIS_RDB_TYPE_ZSET_ZIPLIST : Z := 12.
Definition REDIS_RDB_TYPE_HASH_ZIPLIST : Z := 13.
Definition REDIS_RDB_OPCODE_EXPIRETIME_MS : Z := 252.
Definition REDIS_RDB_OPCODE_EXPIRETIME : Z := 253.
Definition REDIS_RDB_OPCODE_SELECTDB : Z := 254.
Definition REDIS_RDB_OPCODE_EOF : Z := 255.

Definition rdbIsObjectType (t : Z) : bool := ((0 <=? t) && (t <=? 4)) || ((9 <=? t) && (t <=? 13)).

(** ** Saving *)
Definition object_type (o : robj) : outcome Z :=
  match o_type o, o_encoding o with
  | REDIS_STRING, _ => Done REDIS_RDB_TYPE_STRING
  | REDIS_LIST, ENC_ZIPLIST => Done REDIS_RDB_TYPE_LIST_ZIPLIST
  | REDIS_LIST, ENC_LINKEDLIST => Done REDIS_RDB_TYPE_LIST
  | REDIS_SET, ENC_INTSET => Done REDIS_RDB_TYPE_SET_INTSET
  | REDIS_SET, ENC_HT => Done REDIS_RDB_TYPE_SET
  | REDIS_ZSET, ENC_ZIPLIST => Done REDIS_RDB_TYPE_ZSET_ZIPLIST
  | REDIS_ZSET, ENC_SKIPLIST => Done REDIS_RDB_TYPE_ZSET
  | REDIS_HASH, ENC_ZIPLIST => Done REDIS_RDB_TYPE_HASH_ZIPLIST
  | REDIS_HASH, ENC_HT => Done REDIS_RDB_TYPE_HASH
  | _, _ => Fault Panic
  end.
Definition rdbSaveObjectType (o : robj) : sav := t ← lift (object_type o); rdbSaveType t.

(** The bytes of an intset block: its header and its contents. *)
Definition intset_blob (i : intset) : list Z := le_bytes 4 (encoding i) ++ le_bytes 4 (length_ i) ++ contents i.

Definition obj (s : server) (a : addr) : outcome robj := expect Dangling (heap s !! a).

Section Save.
Context (htab : option rio -> Z -> Z) (uninit : nat -> Z) (rdb_compression rdb_checksum : bool).
(** The block of a ziplist, the bytes behind a block, the order in which the
    iterator visits a keyspace, and sorted sets. *)
Context (blob : addr -> list sds -> list Z) (after : sds) (dict_order : gmap sds addr -> list (sds * addr)) (save_zset : robj -> sav).

Abbreviation save_str := (rdbSaveStringObject htab uninit rdb_compression).
Abbreviation save_raw := (rdbSaveRawString htab uninit rdb_compression).

(** The loops over the elements of a list, a set or a hash. *)
Fixpoint save_elements (s : server) (l : list addr) (nwritten : Z) : sav :=
  match l with
  | [] => mret (Some nwritten)
  | a :: r => o ← lift (obj s a); n <-- save_str o;; save_elements s r (nwritten + n)
  end.

Fixpoint save_pairs (s : server) (l : list (addr * addr)) (nwritten : Z) : sav :=
  match l with
  | [] => mret (Some nwritten)
  | (key, val) :: r =>
    k ← lift (obj s key); v ← lift (obj s val);
    n1 <-- save_str k;;
    n2 <-- save_str v;;
    save_pairs s r (nwritten + n1 + n2)
  end.

(** [l = ziplistBlobLen(o->ptr)] and the block as a string. *)
Definition save_ziplist (a : addr) (l : list sds) : sav :=
  len ← lift (Ziplist.ziplistBlobLen (blob a l)); save_raw (map chr (blob a l) ++ after) len.

Definition rdbSaveObject (s : server) (a : addr) : sav :=
  o ← lift (obj s a);
  match o_type o with
  | REDIS_STRING => save_str o
  | REDIS_LIST =>
    match o_encoding o, o_ptr o with
    | ENC_ZIPLIST, PZiplist l => save_ziplist a l
    | ENC_LINKEDLIST, PLinked l => n <-- rdbSaveLen (Z.of_nat (length l));; save_elements s l n
    | _, _ => throw Panic
    end
  | REDIS_SET =>
    match o_encoding o, o_ptr o with
    | ENC_HT, PSetDict l => n <-- rdbSaveLen (Z.of_nat (length l));; save_elements s l n
    | ENC_INTSET, PIntset i => save_raw (map chr (intset_blob i) ++ after) (intsetBlobLen i)
    | _, _ => throw Panic
    end
  | REDIS_ZSET => save_zset o
  | REDIS_HASH =>
    match o_encoding o, o_ptr o with
    | ENC_ZIPLIST, PZiplist l => save_ziplist a l
    | ENC_HT, PHashDict l => n <-- rdbSaveLen (Z.of_nat (length l));; save_pairs s l n
    | _, _ => throw Panic
    end
  end.

(** [rdbSaveObject(NULL,o)] *)
Definition rdbSavedObjectLen (s : server) (a : addr) : outcome Z :=
  r ← rdbSaveObject s a None; expect AssertFail (fst r).

(** 1: saved; 0: the key has expired. *)
Definition rdbSaveKeyValuePair (s : server) (key : sds) (val : addr) (expiretime now : Z) : sav :=
  if negb (expiretime =? -1) && (expiretime <? now) then mret (Some 0)
  else
    _ <-- (if negb (expiretime =? -1) then
             (_ <-- rdbSaveType REDIS_RDB_OPCODE_EXPIRETIME_MS;; rdbSaveMillisecondTime expiretime)
           else mret (Some 0));;
    o ← lift (obj s val);
    _ <-- rdbSaveObjectType o;;
    _ <-- rdbSaveType (o_vers o);;
    _ <-- save_str (mkObj REDIS_STRING ENC_RAW 1 0 (PSds key));;
    _ <-- rdbSaveObject s val;;
    mret (Some 1).

(** The loop over the entries of database [j]. *)
Fixpoint save_entries (s : server) (j : nat) (now : Z) (es : list (sds * addr)) : sav :=
  match es with
  | [] => mret (Some 0)
  | (keystr, o) :: r =>
    expire ← lift (getExpire j keystr s);
    _ <-- rdbSaveKeyValuePair s keystr o (fst expire) now;;
    save_entries s j now r
  end.

Fixpoint save_dbs (s : server) (now : Z) (js : list nat) : sav :=
  match js with
  | [] => mret (Some 0)
  | j :: r =>
    let d := db_dict (get_db s j) in
    if (base.size d =? 0)%nat then save_dbs s now r
    else
      _ <-- rdbSaveType REDIS_RDB_OPCODE_SELECTDB;;
      _ <-- rdbSaveLen (Z.of_nat j);;
      _ <-- save_entries s j now (dict_order d);;
      save_dbs s now r
  end.

Definition magic : list Z := map code (str "REDIS0006").

(** The checksum, little endian. *)
Definition save_cksum : sav :=
  rdb ← get_st;
  match rdb with
  | Some r => _ <-- rdbWriteRaw (le_bytes 8 (io_cksum r));; mret (Some 0)
  | None => throw Dangling
  end.

Definition rdb_contents (s : server) : sav :=
  _ <-- rdbWriteRaw magic;;
  _ <-- save_dbs s (mstime (conf s)) (seq 0 (length (dbs s)));;
  _ <-- rdbSaveType REDIS_RDB_OPCODE_EOF;;
  save_cksum.

(** The file system: whether the temporary file can be opened, the room for
    it, whether the final flush, fsync and close succeed, whether the rename
    does, and the dump file. *)
Record disk := mkDisk {
  dk_fopen : bool;
  dk_room : Z;
  dk_sync : bool;
  dk_rename : bool;
  dk_dump : option (list Z)
}.

(** REDIS_OK is [true]. *)
Definition rdbSave (dk : disk) (s : server) : outcome (bool * disk * server) :=
  if negb (dk_fopen dk) then mret (false, dk, s)
  else
    r ← rdb_contents s (Some (rioInit [] (dk_room dk) rdb_checksum 0));
    match r with
    | (Some _, Some rdb) =>
      if negb (dk_sync dk) then mret (false, dk, s)
      else if negb (dk_rename dk) then mret (false, dk, s)
      else mret (true, mkDisk true (dk_room dk) true true (Some (io_data rdb)), set_dirty 0 s)
    | _ => mret (false, dk, s)
    end.
End Save.

(** ** Loading *)
Definition rdbLoadObjectType : prog rio (option Z) :=
  type <-- rdbLoadType;; mret (if rdbIsObjectType type then Some type else None).

(** The strings of a ziplist block, by ziplistNext and ziplistGet. *)
Definition zl_text (v : Ziplist.zval) : sds :=
  match v with Ziplist.ZStr x => x | Ziplist.ZInt n => Util.ll2string_text n end.
Fixpoint zl_entries (fuel : nat) (zl : list Z) (p : option Z) : outcome (list sds) :=
  match fuel, p with
  | O, _ => Fault OutOfFuel
  | _, None => mret []
  | S fuel', Some q =>
    v ← Ziplist.ziplistGet zl (Some q);
    v ← expect Panic v;
    p ← Ziplist.ziplistNext zl q;
    r ← zl_entries fuel' zl p;
    mret (zl_text v :: r)
  end.
Definition ziplist_of (zl : list Z) : outcome (list sds) :=
  p ← Ziplist.ziplistIndex zl 0; zl_entries (S (length zl)) zl p.

Definition intset_of (b : list Z) : outcome intset :=
  e ← mem_get b 0 4; n ← mem_get b 4 4; mret (mkIntset (le_val e) (le_val n) (drop 8 b)).

(** A pointer of the loop: the object is read again after it was changed. *)
Definition ldref (a : addr) : ld robj := on_srv (deref a).
Definition lconf : ld server_conf := on_srv (gets conf).

(** *** The bodies of the loops of rdbLoadObject, once the strings are read *)

(** A list: to the ziplist, which is converted first when the element is too
    long, or to the linked list. *)
Definition list_append (o ele : addr) : M unit :=
  lo ← deref o; eo ← deref ele; cf ← gets conf;
  _ ← when (bool_decide (o_encoding lo = ENC_ZIPLIST) && bool_decide (o_encoding eo = ENC_RAW) &&
            match o_ptr eo with PSds x => sdslen x >? list_max_ziplist_value cf | _ => false end)
           (listTypeConvert o);
  lo ← deref o;
  if bool_decide (o_encoding lo = ENC_ZIPLIST) then
    l ← lift (zl_of lo);
    x ← decoded_bytes ele;
    _ ← upd_obj o (set_o_ptr (PZiplist (l ++ [x])));
    decrRefCount ele
  else
    ele ← tryObjectEncoding ele;
    l ← lift (ll_of lo);
    upd_obj o (set_o_ptr (PLinked (l ++ [ele]))).

(** A set; dictExpand changes the size of the table only, and the result of
    dictAdd is not looked at. *)
Definition set_append (o ele : addr) : M unit :=
  ele ← tryObjectEncoding ele;
  so ← deref o;
  _ ← (if bool_decide (o_encoding so = ENC_INTSET) then
         eo ← deref ele;
         r ← lift (isObjectRepresentableAsLongLong eo);
         match r with
         | Some llval =>
           i ← lift (TSet.set_intset so);
           x ← lift (intsetAdd fresh i llval);
           upd_obj o (set_o_ptr (PIntset (fst x)))
         | None => TSet.setTypeConvert o
         end
       else mret tt);
  so ← deref o;
  if bool_decide (o_encoding so = ENC_HT) then _ ← TSet.dictAdd o ele; mret tt
  else decrRefCount ele.

(** A hash kept as a ziplist; [true] when it has been converted. *)
Definition hash_append_zl (o field value : addr) : M bool :=
  fo ← deref field;
  _ ← lift (require_b AssertFail (bool_decide (o_encoding fo = ENC_RAW)));
  vo ← deref value;
  f ← lift (sds_of fo); v ← lift (sds_of vo);
  ho ← deref o;
  l ← lift (zl_of ho);
  _ ← upd_obj o (set_o_ptr (PZiplist (l ++ [f; v])));
  cf ← gets conf;
  _ ← decrRefCount field;
  _ ← decrRefCount value;
  if (sdslen f >? hash_max_ziplist_value cf) || (sdslen v >? hash_max_ziplist_value cf) then
    _ ← THash.hashTypeConvert o; mret true
  else mret false.

(** A hash kept as a table. *)
Definition hash_append_ht (o field value : addr) : M unit :=
  field ← tryObjectEncoding field;
  value ← tryObjectEncoding value;
  ho ← deref o;
  d ← lift (THash.dict_of ho);
  b ← THash.field_bytes field;
  f ← THash.dict_field d b;
  _ ← lift (require_b AssertFail (bool_decide (f = None)));
  upd_obj o (set_o_ptr (PHashDict (d ++ [(field, value)]))).

Section Load.
Context (load_other : Z -> ld (option addr)).

(** [while(len--)] *)
Fixpoint load_elements (append : addr -> addr -> M unit) (n : nat) (o : addr) : ld (option unit) :=
  match n with
  | O => mret (Some tt)
  | S n' =>
    ele <-- rdbLoadEncodedStringObject;;
    _ ← on_srv (append o ele);
    load_elements append n' o
  end.

(** The two loops of a hash: into the ziplist until it is converted (the
    result is how many entries are left then), and into the table. *)
Fixpoint load_hash_zl (len : nat) (o : addr) : ld (option nat) :=
  match len with
  | O => mret (Some 0%nat)
  | S len' =>
    field <-- rdbLoadStringObject;;
    fo ← ldref field;
    _ ← lift (require_b AssertFail (bool_decide (o_encoding fo = ENC_RAW)));
    value <-- rdbLoadStringObject;;
    converted ← on_srv (hash_append_zl o field value);
    if (converted : bool) then mret (Some len') else load_hash_zl len' o
  end.

Fixpoint load_hash_ht (len : nat) (o : addr) : ld (option unit) :=
  match len with
  | O => mret (Some tt)
  | S len' =>
    field <-- rdbLoadEncodedStringObject;;
    value <-- rdbLoadEncodedStringObject;;
    _ ← on_srv (hash_append_ht o field value);
    load_hash_ht len' o
  end.

(** The placeholder object with its type, encoding and data set. *)
Definition block_object (t : otype) (e : oenc) (p : optr) : M addr := alloc (mkObj t e 1 0 p).

(** An encoded block, read as a string. *)
Definition load_block : ld (option (list Z)) :=
  aux <-- rdbLoadStringObject;;
  ao ← ldref aux;
  x ← lift (sds_of ao);
  _ ← on_srv (decrRefCount aux);
  mret (Some (map code x)).

Definition rdbLoadObject (rdbtype : Z) : ld (option addr) :=
  if rdbtype =? REDIS_RDB_TYPE_STRING then
    o <-- rdbLoadEncodedStringObject;;
    o ← on_srv (tryObjectEncoding o);
    mret (Some o)
  else if rdbtype =? REDIS_RDB_TYPE_LIST then
    len <-- on_rio load_len;;
    cf ← lconf;
    o ← on_srv (if len >? list_max_ziplist_entries cf then createListObject else createZiplistObject);
    _ <-- load_elements list_append (Z.to_nat len) o;;
    mret (Some o)
  else if rdbtype =? REDIS_RDB_TYPE_SET then
    len <-- on_rio load_len;;
    cf ← lconf;
    o ← on_srv (if len >? set_max_intset_entries cf then createSetObject else createIntsetObject);
    _ <-- load_elements set_append (Z.to_nat len) o;;
    mret (Some o)
  else if rdbtype =? REDIS_RDB_TYPE_HASH then
    len <-- on_rio load_len;;
    o ← on_srv createHashObject;
    cf ← lconf;
    let toomany := len >? hash_max_ziplist_entries cf in
    _ ← on_srv (when toomany (THash.hashTypeConvert o));
    len <-- (if toomany then mret (Some (Z.to_nat len)) else load_hash_zl (Z.to_nat len) o);;
    ho ← ldref o;
    _ <-- (if bool_decide (o_encoding ho = ENC_HT) then load_hash_ht len o
           else _ ← lift (require_b AssertFail (len =? 0)%nat); mret (Some tt));;
    mret (Some o)
  else if rdbtype =? REDIS_RDB_TYPE_LIST_ZIPLIST then
    b <-- load_block;;
    l ← lift (ziplist_of b);
    o ← on_srv (block_object REDIS_LIST ENC_ZIPLIST (PZiplist l));
    cf ← lconf;
    _ ← on_srv (when (Z.of_nat (length l) >? list_max_ziplist_entries cf) (listTypeConvert o));
    mret (Some o)
  else if rdbtype =? REDIS_RDB_TYPE_SET_INTSET then
    b <-- load_block;;
    i ← lift (intset_of b);
    o ← on_srv (block_object REDIS_SET ENC_INTSET (PIntset i));
    cf ← lconf;
    _ ← on_srv (when (intsetLen i >? set_max_intset_entries cf) (TSet.setTypeConvert o));
    mret (Some o)
  else if rdbtype =? REDIS_RDB_TYPE_HASH_ZIPLIST then
    b <-- load_block;;
    l ← lift (ziplist_of b);
    o ← on_srv (block_object REDIS_HASH ENC_ZIPLIST (PZiplist l));
    cf ← lconf;
    ho ← ldref o;
    n ← lift (THash.hashTypeLength ho);
    _ ← on_srv (when (n >? hash_max_ziplist_entries cf) (THash.hashTypeConvert o));
    mret (Some o)
  else if (rdbtype =? REDIS_RDB_TYPE_ZSET) || (rdbtype =? REDIS_RDB_TYPE_HASH_ZIPMAP) || (rdbtype =? REDIS_RDB_TYPE_ZSET_ZIPLIST)
  then load_other rdbtype
  else throw Panic.

(** The type of the next entry and its expire time, -1 for none; [None] is
    [goto eoferr]. *)
Definition load_type : prog rio (option (Z * Z)) :=
  type <-- rdbLoadType;;
  if type =? REDIS_RDB_OPCODE_EXPIRETIME then
    t <-- rdbLoadTime;;
    if t =? -1 then mret None else (type <-- rdbLoadType;; mret (Some (type, t * 1000)))
  else if type =? REDIS_RDB_OPCODE_EXPIRETIME_MS then
    t <-- rdbLoadMillisecondTime;;
    if t =? -1 then mret None else (type <-- rdbLoadType;; mret (Some (type, t)))
  else mret (Some (type, -1)).

(** An entry of database [db]. *)
Definition load_entry (db : nat) (now type expiretime : Z) : ld (option unit) :=
  vers <-- on_rio rdbLoadType;;
  key <-- rdbLoadStringObject;;
  val <-- rdbLoadObject type;;
  cf ← lconf;
  if negb (masterhost cf) && negb (expiretime =? -1) && (expiretime <? now) then
    _ ← on_srv (decrRefCount key);
    _ ← on_srv (decrRefCount val);
    mret (Some tt)
  else
    _ ← on_srv (upd_obj val (set_o_vers vers));
    ko ← ldref key;
    k ← lift (sds_of ko);
    _ ← on_srv (dbAdd db k val);
    _ ← on_srv (when (negb (expiretime =? -1)) (setExpire db k expiretime));
    _ ← on_srv (decrRefCount key);
    mret (Some tt).

(** [while(1)]; [None] is exit(1).  Every turn reads at least one byte. *)
Fixpoint load_loop (fuel : nat) (db : nat) (now : Z) : ld (option unit) :=
  match fuel with
  | O => throw OutOfFuel
  | S fuel' =>
    te <-- on_rio load_type;;
    let '(type, expiretime) := te in
    if type =? REDIS_RDB_OPCODE_EOF then mret (Some tt)
    else if type =? REDIS_RDB_OPCODE_SELECTDB then
      dbid <-- on_rio load_len;;
      n ← on_srv (gets (fun s => Z.of_nat (length (dbs s))));
      if dbid >=? n then mret None else load_loop fuel' (Z.to_nat dbid) now
    else
      _ <-- load_entry db now type expiretime;;
      load_loop fuel' db now
  end.

Inductive load_result := LoadOk | LoadErr | LoadExit.

(** The version in the header is read with atoi. *)
Definition rdbLoad (rdb_checksum : bool) (interval : Z) (file : option (list Z)) : M load_result := fun s =>
  match file with
  | None => mret (LoadErr, s)
  | Some data =>
    h ← rioRead 9 (rioInit data 0 rdb_checksum interval);
    match h with
    | (None, _) => mret (LoadExit, s)
    | (Some buf, rdb) =>
      if negb (bool_decide (map chr (take 5 buf) = str "REDIS")) then mret (LoadErr, s)
      else
        let rdbver := atoi (map chr (drop 5 buf)) in
        if (rdbver <? 1) || (rdbver >? REDIS_RDB_VERSION) then mret (LoadErr, s)
        else
          q ← load_loop (S (length data)) 0 (mstime (conf s)) (s, rdb);
          let '(ok, (s, rdb)) := q in
          match ok with
          | None => mret (LoadExit, s)
          | Some _ =>
            if (rdbver >=? 5) && rdb_checksum then
              let expected := io_cksum rdb in
              c ← rioRead 8 rdb;
              match fst c with
              | None => mret (LoadExit, s)
              | Some b =>
                let cksum := le_val b in
                if negb (cksum =? 0) && negb (cksum =? expected) then mret (LoadExit, s) else mret (LoadOk, s)
              end
            else mret (LoadOk, s)
          end
    end
  end.
End Load.

End Rdb.
