(* ===== verification/RdbSave.v ===== *)
(** * What rdb.c writes for a value

    [value] is what an object stands for; [val_rep] relates an object of the
    heap, in any encoding, to its value, with the references to strings that it
    holds.  [ObjEnc] is the format of the dump file: which bytes, after which
    type, stand for which value.  This file shows that saving writes the format;
    RdbLoad.v that loading reads it. *)
From S2P Require Import Prelude Mem CStr Lzf Crc64 Rio Intset Util Server Object Db TString Heap TSet TSetSpec TList THash Ziplist RdbStr Rdb.
Import Mem Rio Object Db Heap TSetSpec RdbStr Rdb.

Module RdbSave.

Inductive value :=
  | VStr (x : sds)
  | VList (xs : list sds)
  | VSet (X : gset sds)
  | VHash (m : gmap sds sds).

(** The object [a] stands for [v] and holds the references [rs]; a string
    object is one reference, its own. *)
Definition list_obj (s : server) (o : robj) (xs : list sds) (rs : list addr) : Prop :=
  o_type o = REDIS_LIST /\
  ((o_encoding o = ENC_ZIPLIST /\ o_ptr o = PZiplist xs /\ rs = []) \/
   (o_encoding o = ENC_LINKEDLIST /\ o_ptr o = PLinked rs /\ Forall2 (holds s) rs xs)).

Definition hash_obj (s : server) (o : robj) (m : gmap sds sds) (rs : list addr) : Prop :=
  o_type o = REDIS_HASH /\ exists ps, NoDup (map fst ps) /\ m = THash.hmap ps /\
  ((o_encoding o = ENC_ZIPLIST /\ o_ptr o = PZiplist (THash.unpair ps) /\ rs = []) \/
   (o_encoding o = ENC_HT /\ exists d, o_ptr o = PHashDict d /\ rs = THash.unpair d /\ Forall2 (holds s) rs (THash.unpair ps))).

Definition val_rep (s : server) (a : addr) (v : value) (rs : list addr) : Prop :=
  exists o, heap s !! a = Some o /\
    match v with
    | VStr x => str_obj_ok o x /\ rs = [a]
    | VList xs => list_obj s o xs rs
    | VSet X => set_obj s o X rs
    | VHash m => hash_obj s o m rs
    end.

(** ** The format of values *)
Definition StrsEnc (xs : list sds) (bs : list Z) : Prop := exists bss, Forall2 StrEnc xs bss /\ bs = concat bss.

Definition is_block (zl : list Z) (l : list sds) : Prop := Ziplist.stands false zl l /\ Forall (in_u 8) zl.

Inductive ObjEnc : Z -> value -> list Z -> Prop :=
| oe_str x bs : StrEnc x bs -> ObjEnc REDIS_RDB_TYPE_STRING (VStr x) bs
| oe_list xs bs : StrsEnc xs bs -> Z.of_nat (length xs) < REDIS_RDB_LENERR ->
    ObjEnc REDIS_RDB_TYPE_LIST (VList xs) (enc_len (Z.of_nat (length xs)) ++ bs)
| oe_list_zl xs zl bs : is_block zl xs -> StrEnc (map chr zl) bs -> ObjEnc REDIS_RDB_TYPE_LIST_ZIPLIST (VList xs) bs
| oe_set xs bs : StrsEnc xs bs -> NoDup xs -> (Z.of_nat (length xs) + 1) * 8 < 2 ^ 32 ->
    ObjEnc REDIS_RDB_TYPE_SET (VSet (list_to_set xs)) (enc_len (Z.of_nat (length xs)) ++ bs)
| oe_intset i zs bs : Intset.repr i zs -> Intset.length_ i * 8 < 2 ^ 32 -> StrEnc (map chr (intset_blob i)) bs ->
    ObjEnc REDIS_RDB_TYPE_SET_INTSET (VSet (list_to_set (map text zs))) bs
| oe_hash ps bs : StrsEnc (THash.unpair ps) bs -> NoDup (map fst ps) -> Z.of_nat (length ps) < REDIS_RDB_LENERR ->
    ObjEnc REDIS_RDB_TYPE_HASH (VHash (THash.hmap ps)) (enc_len (Z.of_nat (length ps)) ++ bs)
| oe_hash_zl ps zl bs : is_block zl (THash.unpair ps) -> NoDup (map fst ps) -> StrEnc (map chr zl) bs ->
    ObjEnc REDIS_RDB_TYPE_HASH_ZIPLIST (VHash (THash.hmap ps)) bs.

(** ** Blocks are bytes *)
Lemma codes_chr (zl : list Z) : Forall (in_u 8) zl -> map code (map chr zl) = zl.
Proof. induction 1 as [|b zl Hb _ IH]; cbn; [done|]. rewrite IH, code_chr by exact Hb. done. Qed.

Lemma le_bytes_range n z : Forall (in_u 8) (le_bytes n z).
Proof. revert z. induction n; intros z; cbn; constructor; [|done]. exact (Z.mod_pos_bound z 256 ltac:(lia)). Qed.

Lemma code_bytes (x : sds) : Forall (in_u 8) (map code x).
Proof. apply Forall_map, Forall_true. intros c. apply code_range. Qed.

Lemma land_255_range z : in_u 8 (Z.land z 255).
Proof. rewrite land_255. exact (Z.mod_pos_bound z 256 ltac:(lia)). Qed.

Lemma head_range x : Forall (in_u 8) (Ziplist.head x).
Proof.
  destruct (Util.string2ll x) as [v|] eqn:E.
  - rewrite (proj1 (Ziplist.head_int x v E)). repeat constructor; unfold in_u; pose proof (Ziplist.int_enc_not_str v); lia.
  - rewrite (proj1 (Ziplist.head_str x E)). unfold Ziplist.zipEncodeLength. cbn [Ziplist.ZIP_IS_STR]. change (Ziplist.ZIP_IS_STR 0) with true. cbv iota.
    case_if; [|case_if].
    + repeat constructor; unfold in_u, Ziplist.ZIP_STR_06B, sdslen in *; rewrite Z.lor_0_l; lia.
    + constructor; [|constructor; [apply land_255_range|constructor]]. unfold Ziplist.ZIP_STR_14B. rewrite land_63.
      pose proof (Z.mod_pos_bound (Z.shiftr (sdslen x) 8) 64 ltac:(lia)) as Hm.
      assert (Z.lor 64 (Z.shiftr (sdslen x) 8 mod 64) = 64 + Z.shiftr (sdslen x) 8 mod 64) as -> by exact (lor_add 1 _ 6 ltac:(lia) Hm).
      unfold in_u. lia.
    + constructor; [done|]. repeat (constructor; [apply land_255_range|]). constructor.
Qed.

Lemma payload_range x : Forall (in_u 8) (Ziplist.payload x).
Proof.
  destruct (Util.string2ll x) as [v|] eqn:E.
  - rewrite (proj2 (Ziplist.head_int x v E)). unfold Ziplist.int_bytes, Ziplist.zipSaveInteger.
    repeat case_if; unfold mret, outcome_ret; try apply le_bytes_range; try apply Forall_drop, le_bytes_range; constructor.
  - rewrite (proj2 (Ziplist.head_str x E)). apply code_bytes.
Qed.

Lemma lay_range m es : 0 <= m -> Ziplist.fits m es -> Forall (in_u 8) (Ziplist.lay m es).
Proof.
  revert m. induction es as [|[L x] es IH]; intros m Hm; cbn [Ziplist.lay Ziplist.fits]; [constructor|]. intros [Hf Hes].
  apply Forall_app. split; [|apply Forall_app; split].
  - unfold Ziplist.pfield. cbn [fst] in *. destruct L.
    + constructor; [done|apply le_bytes_range].
    + repeat constructor; unfold in_u; [lia|specialize (Hf eq_refl); lia].
  - unfold Ziplist.body. apply Forall_app. split; [apply head_range|apply payload_range].
  - apply IH; [|done]. pose proof (Ziplist.rawlen_ge (L, x)). lia.
Qed.

Lemma stands_block c zl l : Ziplist.stands c zl l -> is_block zl l.
Proof.
  intros (es & h & HR & Hl & _). split; [by exists es, h|]. destruct HR as [-> Hf _ _ _]. unfold Ziplist.hdr.
  repeat (apply Forall_app; split); try apply le_bytes_range; [by apply lay_range|by repeat constructor].
Qed.

Lemma block_len zl l : is_block zl l -> Ziplist.ziplistBlobLen zl = Done (size zl) /\ size zl <= 11 + Ziplist.weight l.
Proof.
  intros [(es & h & [-> Hf Hs Hc Hh] & <- & _) _]. unfold Ziplist.ziplistBlobLen. pose proof (Ziplist.total_nonneg es). split.
  - rewrite Ziplist.bytes_hdr by lia. f_equal. rewrite !size_app, Ziplist.size_hdr, Ziplist.size_lay. rewrite size_cons, size_nil. lia.
  - rewrite !size_app, Ziplist.size_hdr, Ziplist.size_lay, size_cons, size_nil. pose proof (Ziplist.total_weight es). lia.
Qed.

(** ** Values that can be saved: below 4 GB in all *)
Definition strings (v : value) : list sds :=
  match v with
  | VStr x => [x]
  | VList xs => xs
  | VSet X => elements X
  | VHash m => THash.unpair (map_to_list m)
  end.
Definition storable (v : value) : Prop := 32 + Ziplist.weight (strings v) < 2 ^ 32.

Lemma weight_perm l k : l ≡ₚ k -> Ziplist.weight l = Ziplist.weight k.
Proof. induction 1; cbn [Ziplist.weight]; lia. Qed.

Lemma weight_elem x l : x ∈ l -> 18 + sdslen x <= Ziplist.weight l.
Proof.
  induction l as [|y l IH]; intros Hx; [by apply not_elem_of_nil in Hx|]. cbn [Ziplist.weight]. pose proof (Ziplist.weight_nonneg l).
  apply elem_of_cons in Hx as [->|Hx]; [lia|]. specialize (IH Hx). unfold sdslen at 2. lia.
Qed.

Lemma weight_length l : 18 * Z.of_nat (length l) <= Ziplist.weight l.
Proof. induction l as [|x l IH]; cbn [Ziplist.weight length]; [lia|]. unfold sdslen. lia. Qed.

Lemma unpair_perm {A} (l k : list (A * A)) : l ≡ₚ k -> THash.unpair l ≡ₚ THash.unpair k.
Proof.
  induction 1 as [|[a b] l k _ IH|[a b] [c d] l|l k m _ IH1 _ IH2]; cbn [THash.unpair].
  - done.
  - by rewrite IH.
  - solve_Permutation.
  - by rewrite IH1.
Qed.

Lemma strings_set xs : NoDup xs -> strings (VSet (list_to_set xs)) ≡ₚ xs.
Proof. intros H. cbn. by apply elements_list_to_set. Qed.
Lemma strings_hash ps : NoDup (map fst ps) -> strings (VHash (THash.hmap ps)) ≡ₚ THash.unpair ps.
Proof. intros H. cbn. apply unpair_perm. by apply map_to_list_to_map. Qed.

Lemma intset_blob_ok i zs : Intset.repr i zs -> Intset.length_ i * 8 < 2 ^ 32 ->
  size (intset_blob i) = Intset.intsetBlobLen i /\ Forall (in_u 8) (intset_blob i).
Proof.
  intros [He Hl Hb _ _] Hm. unfold intset_blob, Intset.intsetBlobLen. split.
  - rewrite !size_app, !size_le_bytes, Hb. unfold size. rewrite Intset.length_enc. rewrite to_u_small; [destruct He as [-> |[-> | ->]]; lia|].
    unfold in_u. destruct He as [-> |[-> | ->]]; lia.
  - repeat (apply Forall_app; split); try apply le_bytes_range. rewrite Hb. unfold Intset.enc_elems. apply Forall_concat, Forall_map, Forall_true.
    intros z. apply le_bytes_range.
Qed.

Section SaveSpec.
Context (htab : option rio -> Z -> Z) (uninit : nat -> Z) (rdb_compression rdb_checksum : bool).
Context (blob : addr -> list sds -> list Z) (after : sds) (dict_order : gmap sds addr -> list (sds * addr)) (save_zset : robj -> sav).
Hypothesis htab_range : forall rdb h, in_s 64 (htab rdb h).
(** The block of a list is one that ziplist.c keeps for it. *)
Hypothesis blob_stands : forall a l, 32 + Ziplist.weight l < 2 ^ 32 -> Ziplist.stands false (blob a l) l.

Abbreviation saveObject := (rdbSaveObject htab uninit rdb_compression blob after save_zset).

Lemma save_elements_emits s l xs : Forall2 (holds s) l xs -> Forall (fun x => sdslen x < REDIS_RDB_LENERR) xs -> forall k n, n = k ->
  emits k (save_elements htab uninit rdb_compression s l n) (StrsEnc xs).
Proof using htab_range.
  induction 1 as [|a x l xs (o & Ho & Hx) Hl IH]; intros Hs k n ->; cbn [save_elements].
  - apply emits_ret; [done|]. exists []. by split; [constructor|].
  - apply Forall_cons in Hs as [Hs1 Hs]. apply writes_at. intros rdb Hr. unfold obj. rewrite Ho. cbn [expect]. rewrite bind_lift. eexists. split; [reflexivity|].
    eapply emits_bind; [by apply (saveString_emits _ _ _ htab_range o x)|]. intros b Hb.
    eapply emits_weaken; [|by apply IH]. intros bs (bss & Hbss & ->). exists (b :: bss). by split; [constructor|].
Qed.

Lemma save_pairs_emits s d : forall ps, Forall2 (holds s) (THash.unpair d) (THash.unpair ps) ->
  Forall (fun x => sdslen x < REDIS_RDB_LENERR) (THash.unpair ps) -> forall k n, n = k ->
  emits k (save_pairs htab uninit rdb_compression s d n) (StrsEnc (THash.unpair ps)).
Proof using htab_range.
  induction d as [|[ka va] d IH]; intros [|[x y] ps] HF Hs k n ->; cbn [THash.unpair save_pairs] in *; try by inversion HF.
  - apply emits_ret; [done|]. exists []. by split; [constructor|].
  - apply Forall2_cons in HF as [(ko & Hko & Hk) HF]. apply Forall2_cons in HF as [(vo & Hvo & Hv) HF].
    apply Forall_cons in Hs as [Hs1 Hs]. apply Forall_cons in Hs as [Hs2 Hs].
    apply writes_at. intros rdb Hr. unfold obj. rewrite Hko, Hvo. cbn [expect]. rewrite !bind_lift. eexists. split; [reflexivity|].
    eapply emits_bind; [by apply (saveString_emits _ _ _ htab_range ko x)|]. intros b1 Hb1.
    eapply emits_bind; [by apply (saveString_emits _ _ _ htab_range vo y)|]. intros b2 Hb2.
    eapply emits_weaken; [|by apply IH]. intros bs (bss & Hbss & ->). exists (b1 :: b2 :: bss). by split; [repeat constructor|].
Qed.

(** A block is written as a string. *)
Lemma save_block_emits zl len : len = size zl -> len < REDIS_RDB_LENERR ->
  emits 0 (rdbSaveRawString htab uninit rdb_compression (map chr zl ++ after) len) (StrEnc (map chr zl)).
Proof using htab_range.
  intros -> Hl. pose proof (size_nonneg zl). apply saveRaw_emits; [done|lia| | |done].
  - unfold size. rewrite Nat2Z.id. rewrite <- (length_map chr zl) at 1. apply take_app_length.
  - unfold sdslen, size. by rewrite length_map.
Qed.

Lemma save_ziplist_emits a l : 32 + Ziplist.weight l < 2 ^ 32 ->
  emits 0 (save_ziplist htab uninit rdb_compression blob after a l) (fun bs => exists zl, is_block zl l /\ StrEnc (map chr zl) bs).
Proof using htab_range blob_stands.
  intros Hw. pose proof (stands_block _ _ _ (blob_stands a l Hw)) as HB. destruct (block_len _ _ HB) as [E Hl].
  unfold save_ziplist. apply writes_at. intros rdb Hr. rewrite E, bind_lift. eexists. split; [reflexivity|].
  eapply emits_weaken; [|apply save_block_emits; [done|unfold REDIS_RDB_LENERR; lia]]. intros bs Hb. by exists (blob a l).
Qed.

Lemma short_strings l : 32 + Ziplist.weight l < 2 ^ 32 ->
  Forall (fun x => sdslen x < REDIS_RDB_LENERR) l /\ Z.of_nat (length l) < REDIS_RDB_LENERR.
Proof using Type.
  intros Hw. pose proof (weight_length l). unfold REDIS_RDB_LENERR. split; [|lia]. apply Forall_forall. intros x Hx.
  apply weight_elem in Hx. lia.
Qed.

Lemma save_seq_emits s l xs : Forall2 (holds s) l xs -> 32 + Ziplist.weight xs < 2 ^ 32 ->
  emits 0 (or_fail (rdbSaveLen (Z.of_nat (length l))) (fun n => save_elements htab uninit rdb_compression s l n))
    (fun bs => exists bs', StrsEnc xs bs' /\ Z.of_nat (length xs) < REDIS_RDB_LENERR /\ bs = enc_len (Z.of_nat (length xs)) ++ bs').
Proof using htab_range.
  intros HF Hw. destruct (short_strings xs Hw) as [Hs Hn]. rewrite (Forall2_length _ _ _ HF).
  eapply emits_bind; [apply saveLen_emits; unfold REDIS_RDB_LENERR in *; lia|]. intros b <-.
  eapply emits_weaken; [|by apply save_elements_emits]. intros bs Hbs. by exists bs.
Qed.

(** The object is written in the format of its type and encoding. *)
Definition saves (s : server) (a : addr) (o : robj) (v : value) : Prop :=
  exists t, object_type o = Done t /\ emits 0 (saveObject s a) (ObjEnc t v).

Lemma saves_run s a o m t v : heap s !! a = Some o -> object_type o = Done t ->
  (forall rdb, saveObject s a rdb = m rdb) -> emits 0 m (ObjEnc t v) -> saves s a o v.
Proof using Type. intros Ho Ht E Hm. exists t. split; [done|]. apply writes_at. intros rdb _. by exists m. Qed.

Lemma save_list_ok s a o xs rs : heap s !! a = Some o -> list_obj s o xs rs -> storable (VList xs) -> saves s a o (VList xs).
Proof using htab_range blob_stands.
  intros Ho (Ht & HE) Hst. unfold storable in Hst. cbn [strings] in Hst.
  assert (Erun : forall rdb, saveObject s a rdb = match o_encoding o, o_ptr o with
      | ENC_ZIPLIST, PZiplist l => save_ziplist htab uninit rdb_compression blob after a l
      | ENC_LINKEDLIST, PLinked l => or_fail (rdbSaveLen (Z.of_nat (length l))) (fun n => save_elements htab uninit rdb_compression s l n)
      | _, _ => throw Panic end rdb) by (intros rdb; unfold rdbSaveObject, obj; rewrite Ho; cbn [expect]; by rewrite bind_lift, Ht).
  destruct HE as [(He & Hp & _)|(He & Hp & HF)]; rewrite He, Hp in Erun; (eapply saves_run; [exact Ho|unfold object_type; rewrite Ht, He; reflexivity|exact Erun|]).
  - eapply emits_weaken; [|by apply save_ziplist_emits]. intros bs (zl & HB & Hs). by eapply oe_list_zl.
  - eapply emits_weaken; [|by apply save_seq_emits]. intros bs (bs' & Hbs & Hn & ->). by apply oe_list.
Qed.

Lemma save_set_ok s a o X rs : heap s !! a = Some o -> set_obj s o X rs -> storable (VSet X) -> saves s a o (VSet X).
Proof using htab_range.
  intros Ho (Ht & HE) Hst. unfold storable in Hst.
  assert (Erun : forall rdb, saveObject s a rdb = match o_encoding o, o_ptr o with
      | ENC_HT, PSetDict l => or_fail (rdbSaveLen (Z.of_nat (length l))) (fun n => save_elements htab uninit rdb_compression s l n)
      | ENC_INTSET, PIntset i => rdbSaveRawString htab uninit rdb_compression (map chr (intset_blob i) ++ after) (Intset.intsetBlobLen i)
      | _, _ => throw Panic end rdb) by (intros rdb; unfold rdbSaveObject, obj; rewrite Ho; cbn [expect]; by rewrite bind_lift, Ht).
  destruct HE as [(He & _ & i & zs & Hp & HR & ->)|(He & Hp & xs & HF & HN & ->)]; rewrite He, Hp in Erun;
    (eapply saves_run; [exact Ho|unfold object_type; rewrite Ht, He; reflexivity|exact Erun|]).
  - rewrite (weight_perm _ (map text zs)) in Hst by (apply strings_set, sorted_text; [exact (intset_range _ _ HR)|exact (Intset.repr_sorted _ _ HR)]).
    pose proof (weight_length (map text zs)) as Hwl. rewrite length_map in Hwl. pose proof (Intset.repr_len _ _ HR) as Hl. pose proof (Intset.repr_enc _ _ HR) as He'.
    destruct (intset_blob_ok i zs HR) as [Hsz Hby]; [lia|].
    eapply emits_weaken; [|apply save_block_emits; [done|]].
    + intros bs Hs. by apply (oe_intset i zs); [|lia|].
    + unfold Intset.intsetBlobLen, REDIS_RDB_LENERR. rewrite to_u_small; unfold in_u; destruct He' as [-> |[-> | ->]]; lia.
  - rewrite (weight_perm _ xs) in Hst by (by apply strings_set).
    eapply emits_weaken; [|by apply save_seq_emits]. intros bs (bs' & Hbs & _ & ->). apply oe_set; [done|done|]. pose proof (weight_length xs). lia.
Qed.

Lemma save_hash_ok s a o m rs : heap s !! a = Some o -> hash_obj s o m rs -> storable (VHash m) -> saves s a o (VHash m).
Proof using htab_range blob_stands.
  intros Ho (Ht & ps & HN & -> & HE) Hst. unfold storable in Hst. rewrite (weight_perm _ (THash.unpair ps)) in Hst by (by apply strings_hash).
  assert (Erun : forall rdb, saveObject s a rdb = match o_encoding o, o_ptr o with
      | ENC_ZIPLIST, PZiplist l => save_ziplist htab uninit rdb_compression blob after a l
      | ENC_HT, PHashDict l => or_fail (rdbSaveLen (Z.of_nat (length l))) (fun n => save_pairs htab uninit rdb_compression s l n)
      | _, _ => throw Panic end rdb) by (intros rdb; unfold rdbSaveObject, obj; rewrite Ho; cbn [expect]; by rewrite bind_lift, Ht).
  destruct HE as [(He & Hp & _)|(He & d & Hp & -> & HF)]; rewrite He, Hp in Erun; (eapply saves_run; [exact Ho|unfold object_type; rewrite Ht, He; reflexivity|exact Erun|]).
  - eapply emits_weaken; [|by apply save_ziplist_emits]. intros bs (zl & HB & Hs). by eapply oe_hash_zl.
  - destruct (short_strings _ Hst) as [Hs Hn]. assert (Hlen : length d = length ps).
    { apply Forall2_length in HF. rewrite !THash.unpair_length in HF. lia. }
    rewrite THash.unpair_length in Hn. rewrite Hlen. eapply emits_bind; [apply saveLen_emits; unfold REDIS_RDB_LENERR in *; lia|]. intros b <-.
    eapply emits_weaken; [|by apply save_pairs_emits]. intros bs Hbs. apply oe_hash; [done|done|lia].
Qed.

Lemma saveObject_ok s a o v rs : heap s !! a = Some o -> val_rep s a v rs -> storable v -> saves s a o v.
Proof using htab_range blob_stands.
  intros Ho (o' & Ho' & HV) Hst. assert (o' = o) as -> by congruence. destruct v as [x|xs|X|m].
  - destruct HV as [Hx _]. eapply (saves_run _ _ _ (rdbSaveStringObject htab uninit rdb_compression o) REDIS_RDB_TYPE_STRING); [done| | |].
    + unfold object_type. by rewrite (proj1 Hx).
    + intros rdb. unfold rdbSaveObject, obj. rewrite Ho. cbn [expect]. by rewrite bind_lift, (proj1 Hx).
    + eapply emits_weaken; [|apply saveString_emits; [done|done|]]; [intros bs; apply oe_str|].
      unfold storable in Hst. cbn [strings Ziplist.weight] in Hst. unfold REDIS_RDB_LENERR. lia.
  - by eapply save_list_ok.
  - by eapply save_set_ok.
  - by eapply save_hash_ok.
Qed.
End SaveSpec.

End RdbSave.
