(* ===== verification/RdbLoad.v ===== *)
(** * What rdb.c reads back

    Loading a value that was saved creates an object that stands for it, and
    takes nothing away from the objects that exist. *)
From S2P Require Import Prelude Mem CStr Lzf Crc64 Rio Intset Util Server Object Db TString Heap TSet TSetSpec TList THash Ziplist RdbStr Rdb RdbSave.
Import Mem Rio Object Db Heap TSetSpec TList RdbStr Rdb RdbSave.

Module RdbLoad.

Lemma tryEncoding_addr b s b' s' : tryObjectEncoding b s = Done (b', s') -> b' = b \/ Z.pos b' <= REDIS_SHARED_INTEGERS.
Proof.
  unfold tryObjectEncoding. intros H. apply prog_bind_inv in H as (o & s1 & _ & H).
  case_match; [unfold mret, prog_ret in H; injection H as <- _; by left|].
  case_match; [unfold mret, prog_ret in H; injection H as <- _; by left|].
  apply prog_bind_inv in H as (u2 & s2 & _ & H). apply prog_bind_inv in H as (x3 & s3 & _ & H).
  case_match; [|unfold mret, prog_ret in H; injection H as <- _; by left]. apply prog_bind_inv in H as (cf & s4 & _ & H).
  destruct (_ && _) eqn:E.
  - apply prog_bind_inv in H as (u5 & s5 & _ & H). apply prog_bind_inv in H as (u6 & s6 & _ & H). unfold mret, prog_ret in H. injection H as <- _.
    right. zify_bool. unfold shared_integers, REDIS_SHARED_INTEGERS in *. lia.
  - apply prog_bind_inv in H as (u5 & s5 & _ & H). unfold mret, prog_ret in H. injection H as <- _. by left.
Qed.

Lemma loadEncoded_step {B} l x bs rest s r (f : addr -> ld (option B)) : owns s l -> StrEnc x bs -> ahead r (bs ++ rest) ->
  exists a s', or_fail rdbLoadEncodedStringObject f (s, r) = f a (s', passed bs r) /\ loaded true l x s a s'.
Proof.
  intros HO Hx Ha. destruct (loadString_ok true l x bs rest s r HO Hx Ha) as (a & s' & E & HL). exists a, s'. split; [|done].
  by apply or_fail_Some.
Qed.

Lemma bind_ldref {B} a o (f : robj -> ld B) s r : heap s !! a = Some o -> (ldref a ≫= f) (s, r) = f o (s, r).
Proof. intros Ho. apply bind_on_srv. unfold deref. by rewrite Ho. Qed.
Lemma bind_lconf {B} (f : server_conf -> ld B) s r : (lconf ≫= f) (s, r) = f (conf s) (s, r).
Proof. done. Qed.

(** ** Lists *)
Lemma own_convert_loop ext : forall xs l l0 s, owns s (l ++ ext) -> Forall2 (holds s) l l0 ->
  exists s' l', listTypeConvert_loop xs l s = Done (l', s') /\ Forall2 (holds s') l' (l0 ++ xs) /\ owns s' (l' ++ ext) /\ own_step ext None s s'.
Proof.
  induction xs as [|x xs IH]; intros l l0 s HO Hl; cbn [listTypeConvert_loop].
  - exists s, l. rewrite app_nil_r. repeat (split; [done|]). apply own_step_refl.
  - destruct (THash.own_zl_object s (l ++ ext) x HO) as (b & s1 & E1 & HO1 & Hb & HS1). rewrite (prog_bind_step _ _ _ _ _ E1).
    destruct (IH (l ++ [b]) (l0 ++ [x]) s1) as (s2 & l' & E2 & Hl' & HO2 & HS2).
    + eapply owns_perm; [|exact HO1]. rewrite <- app_assoc. cbn. solve_Permutation.
    + apply Forall2_app; [|by repeat constructor]. eapply own_step_holds; [apply (HS1 l)|done|done].
    + exists s2, l'. rewrite <- app_assoc in Hl'. repeat (split; [done|]). eapply own_step_trans; [apply HS1|done].
Qed.

Lemma own_listConvert ext a o xs s : heap s !! a = Some o -> list_obj s o xs [] -> o_encoding o = ENC_ZIPLIST -> owns s ext ->
  exists s' o' rs, listTypeConvert a s = Done (tt, s') /\ heap s' !! a = Some o' /\ list_obj s' o' xs rs /\ o_encoding o' = ENC_LINKEDLIST /\
    owns s' (rs ++ ext) /\ own_step ext (Some a) s s'.
Proof.
  intros Ha (Ht & HE) He HO. destruct HE as [(_ & Hp & _)|(He' & _)]; [|congruence].
  unfold listTypeConvert. rewrite (bind_deref _ _ _ _ Ha), Ht, bool_decide_true by done. cbn [require_b].
  rewrite bind_lift. unfold zl_of. rewrite Hp, bind_lift.
  destruct (own_convert_loop ext xs [] [] s HO ltac:(constructor)) as (s1 & rs & E1 & Hx & HO1 & HS1).
  rewrite (prog_bind_step _ _ _ _ _ E1). assert (Hns : o_type o <> REDIS_STRING) by congruence.
  pose proof (step_obj _ _ _ _ _ HS1 Ha Hns) as Ha1. rewrite (upd_obj_Done _ _ _ _ Ha1).
  destruct (own_container s1 _ a o (fun o => set_o_ptr (PLinked rs) (set_o_encoding ENC_LINKEDLIST o)) HO1 Ha1 Hns eq_refl) as [HO2 HS2].
  eexists _, _, rs. split; [reflexivity|]. cbn [heap set_heap]. rewrite lookup_insert_eq. split; [reflexivity|].
  split; [|split; [done|split; [done|eapply own_step_trans; [by apply own_step_at|apply HS2]]]].
  split; [done|]. right. split; [done|]. split; [done|]. eapply own_step_holds; [apply (HS2 rs)|done|done].
Qed.

Lemma list_obj_step s s' o xs rs l : own_step l None s s' -> rs ⊆ l -> list_obj s o xs rs -> list_obj s' o xs rs.
Proof.
  intros HS Hl (Ht & HE). split; [done|]. destruct HE as [HE|(He & Hp & HF)]; [by left|right]. split; [done|]. split; [done|].
  by eapply own_step_holds.
Qed.

(** The loop over the elements, for any kind of container: [rep] says what the
    object stands for, [append] adds one element. *)
Section Elements.
Context {X : Type} (rep : server -> robj -> X -> list addr -> Prop) (add : X -> sds -> X) (ok : X -> sds -> Prop) (append : addr -> addr -> M unit).
Hypothesis rep_type : forall s o c rs, rep s o c rs -> o_type o <> REDIS_STRING.
Hypothesis rep_step : forall s s' o c rs l, own_step l None s s' -> rs ⊆ l -> rep s o c rs -> rep s' o c rs.
Hypothesis append_ok : forall s a o c rs l ele x, heap s !! a = Some o -> rep s o c rs -> owns s (ele :: rs ++ l) -> holds s ele x -> ok c x ->
  exists s' o' rs', append a ele s = Done (tt, s') /\ heap s' !! a = Some o' /\ rep s' o' (add c x) rs' /\ owns s' (rs' ++ l) /\ own_step l (Some a) s s'.

Fixpoint all_ok (c : X) (xs : list sds) : Prop :=
  match xs with [] => True | x :: r => ok c x /\ all_ok (add c x) r end.

Lemma load_elements_ok l rest a : forall xs bss s r o c rs, Forall2 StrEnc xs bss -> ahead r (concat bss ++ rest) ->
  heap s !! a = Some o -> rep s o c rs -> owns s (rs ++ l) -> all_ok c xs ->
  exists s' o' rs', load_elements append (length xs) a (s, r) = Done (Some tt, (s', passed (concat bss) r)) /\
    heap s' !! a = Some o' /\ rep s' o' (fold_left add xs c) rs' /\ owns s' (rs' ++ l) /\ own_step l (Some a) s s'.
Proof using rep_type rep_step append_ok.
  intros xs bss s r o c rs HF. revert s r o c rs. induction HF as [|x b xs bss Hx HF IH]; intros s r o c rs Ha Ho HR HO Hok; cbn [concat length load_elements fold_left] in *.
  - exists s, o, rs. rewrite passed_nil. repeat (split; [done|]). apply own_step_refl.
  - rewrite <- app_assoc in Ha. destruct (loadString_ok true (rs ++ l) x b (concat bss ++ rest) s r HO Hx Ha) as (ele & s1 & E1 & HO1 & Hh & HS1 & _).
    unfold rdbLoadEncodedStringObject. rewrite (or_fail_Some _ _ _ _ _ E1). destruct Hok as [Hok1 Hok].
    pose proof (step_obj [] s s1 a o (HS1 []) Ho (rep_type _ _ _ _ HR)) as Ho1. pose proof (rep_step _ _ _ _ _ _ (HS1 rs) ltac:(done) HR) as HR1.
    destruct (append_ok s1 a o c rs l ele x Ho1 HR1 HO1 Hh Hok1) as (s2 & o2 & rs2 & E2 & Ho2 & HR2 & HO2 & HS2).
    rewrite (bind_on_srv _ _ _ _ _ _ E2).
    destruct (IH s2 (passed b r) o2 (add c x) rs2 (ahead_passed _ _ _ Ha) Ho2 HR2 HO2 Hok) as (s3 & o3 & rs3 & E3 & Ho3 & HR3 & HO3 & HS3).
    exists s3, o3, rs3. rewrite E3, <- passed_app. repeat (split; [done|]).
    eapply own_step_trans; [apply own_step_at, HS1|]. by eapply own_step_trans.
Qed.
End Elements.

Lemma list_append_zl s a o xs l ele x : heap s !! a = Some o -> list_obj s o xs [] -> o_encoding o = ENC_ZIPLIST ->
  owns s (ele :: l) -> holds s ele x ->
  exists s' o' rs', (l ← lift (zl_of o); x ← decoded_bytes ele; _ ← upd_obj a (set_o_ptr (PZiplist (l ++ [x]))); decrRefCount ele) s = Done (tt, s') /\
    heap s' !! a = Some o' /\ list_obj s' o' (xs ++ [x]) rs' /\ owns s' (rs' ++ l) /\ own_step l (Some a) s s'.
Proof.
  intros Ha (Ht & HE) He HO Hx. destruct HE as [(_ & Hp & _)|(He' & _)]; [|congruence]. unfold zl_of. rewrite Hp, bind_lift.
  destruct (THash.own_decoded_bytes s (ele :: l) ele x HO Hx) as (s1 & E1 & HO1 & HS1). rewrite (prog_bind_step _ _ _ _ _ E1).
  assert (Hns : o_type o <> REDIS_STRING) by congruence. pose proof (step_obj _ _ _ _ _ HS1 Ha Hns) as Ha1.
  rewrite (bind_upd_obj _ _ _ _ _ Ha1).
  destruct (own_container s1 _ a o (set_o_ptr (PZiplist (xs ++ [x]))) HO1 Ha1 Hns eq_refl) as [HO2 HS2].
  destruct (own_decr _ _ _ HO2) as (s3 & E3 & HO3 & HS3). eexists s3, _, []. split; [exact E3|].
  split; [eapply (step_obj _ _ _ _ _ HS3); [cbn; by rewrite lookup_insert_eq|done]|].
  split; [split; [done|]; left; done|]. split; [done|].
  eapply own_step_trans; [apply own_step_at; eapply own_step_mono; [exact HS1|set_solver]|].
  eapply own_step_trans; [apply HS2|by apply own_step_at].
Qed.

Lemma list_append_ll s a o xs rs l ele x : heap s !! a = Some o -> list_obj s o xs rs -> o_encoding o = ENC_LINKEDLIST ->
  owns s (ele :: rs ++ l) -> holds s ele x ->
  exists s' o' rs', (ele ← tryObjectEncoding ele; l ← lift (ll_of o); upd_obj a (set_o_ptr (PLinked (l ++ [ele])))) s = Done (tt, s') /\
    heap s' !! a = Some o' /\ list_obj s' o' (xs ++ [x]) rs' /\ owns s' (rs' ++ l) /\ own_step l (Some a) s s'.
Proof.
  intros Ha HR He HO Hx. destruct (own_tryEncoding s _ ele x HO Hx) as (e & s1 & E1 & HO1 & He1 & HS1). rewrite (prog_bind_step _ _ _ _ _ E1).
  destruct (list_obj_step s s1 o xs rs (rs ++ l) HS1 ltac:(set_solver) HR) as (Ht & [(He' & _)|(_ & Hp & HF)]); [congruence|].
  assert (Hns : o_type o <> REDIS_STRING) by congruence. pose proof (step_obj _ _ _ _ _ HS1 Ha Hns) as Ha1.
  unfold ll_of. rewrite Hp, bind_lift, (upd_obj_Done _ _ _ _ Ha1).
  destruct (own_container s1 _ a o (set_o_ptr (PLinked (rs ++ [e]))) HO1 Ha1 Hns eq_refl) as [HO2 HS2].
  eexists _, _, (rs ++ [e]). split; [reflexivity|]. cbn [heap set_heap]. rewrite lookup_insert_eq. split; [reflexivity|].
  split; [|split; [eapply owns_perm; [|exact HO2]; rewrite <- app_assoc; cbn; solve_Permutation|]].
  - split; [done|]. right. split; [done|]. split; [done|]. apply Forall2_app.
    + eapply own_step_holds; [apply (HS2 rs)|done|done].
    + constructor; [|constructor]. apply (os_strings _ _ _ _ (HS2 [e])); [by left|done].
  - eapply own_step_trans; [apply own_step_at; eapply own_step_mono; [exact HS1|set_solver]|apply HS2].
Qed.

Lemma list_append_ok s a o xs rs l ele x : heap s !! a = Some o -> list_obj s o xs rs -> owns s (ele :: rs ++ l) -> holds s ele x ->
  exists s' o' rs', list_append a ele s = Done (tt, s') /\ heap s' !! a = Some o' /\ list_obj s' o' (xs ++ [x]) rs' /\
    owns s' (rs' ++ l) /\ own_step l (Some a) s s'.
Proof.
  intros Ha HR HO Hx. unfold list_append. rewrite (bind_deref _ _ _ _ Ha). pose proof Hx as (oe & Hoe & _).
  rewrite (bind_deref _ _ _ _ Hoe), bind_gets. set (b := _ && _). destruct b eqn:Hb; cbn [when].
  - assert (He : o_encoding o = ENC_ZIPLIST) by (unfold b in Hb; apply andb_true_iff in Hb as [Hb _]; by apply andb_true_iff in Hb as [Hb%bool_decide_eq_true _]).
    assert (rs = []) as -> by (destruct HR as (_ & [(_ & _ & ?)|(? & _)]); [done|congruence]).
    destruct (own_listConvert (ele :: l) a o xs s Ha HR He HO) as (s1 & o1 & rs1 & E1 & Ha1 & HR1 & He1 & HO1 & HS1).
    rewrite (prog_bind_step _ _ _ _ _ E1), (bind_deref _ _ _ _ Ha1), He1. rewrite bool_decide_false by done.
    destruct (list_append_ll s1 a o1 xs rs1 l ele x Ha1 HR1 He1) as (s2 & o2 & rs2 & E2 & Ho2 & HR2 & HO2 & HS2).
    + eapply owns_perm; [|exact HO1]. solve_Permutation.
    + apply (os_strings _ _ _ _ HS1); [by left|done].
    + exists s2, o2, rs2. repeat (split; [done|]). eapply own_step_trans; [eapply own_step_mono; [exact HS1|set_solver]|done].
  - rewrite bind_mret, (bind_deref _ _ _ _ Ha). destruct HR as (Ht & HE) eqn:HReq. clear HReq. case_bool_decide as He.
    + assert (rs = []) as -> by (destruct HE as [(_ & _ & ?)|(? & _)]; [done|congruence]). by apply (list_append_zl s a o xs l ele x).
    + apply (list_append_ll s a o xs rs l ele x); try done. destruct HE as [(? & _)|(? & _)]; [congruence|done].
Qed.

(** ** Sets *)

Lemma set_append_ok s a o X rs l ele x : heap s !! a = Some o -> set_obj s o X rs -> owns s (ele :: rs ++ l) -> holds s ele x -> set_ok X x ->
  exists s' o' rs', set_append a ele s = Done (tt, s') /\ heap s' !! a = Some o' /\ set_obj s' o' (X ∪ {[x]}) rs' /\
    owns s' (rs' ++ l) /\ own_step l (Some a) s s'.
Proof.
  intros Ha HR HO Hx Hok. unfold set_append.
  destruct (own_tryEncoding s _ ele x HO Hx) as (e & s1 & E1 & HO1 & He1 & HS1). rewrite (prog_bind_step _ _ _ _ _ E1).
  assert (Hns : o_type o <> REDIS_STRING) by (destruct HR as [Ht _]; congruence). pose proof (step_obj _ _ _ _ _ HS1 Ha Hns) as Ha1.
  rewrite (bind_deref _ _ _ _ Ha1). pose proof (set_obj_step s s1 o X rs (rs ++ l) HS1 ltac:(set_solver) HR) as HR1.
  assert (HS0 : own_step l (Some a) s s1) by (apply own_step_at; eapply own_step_mono; [exact HS1|set_solver]). case_bool_decide as Henc.
  - pose proof He1 as (oe & Hoe & Hox). rewrite (bind_assoc (deref e)), (bind_deref _ _ _ _ Hoe), (representable_ok _ _ Hox), bind_assoc, bind_lift.
    pose proof HR1 as (Ht & [(_ & -> & i & zs & Hp & HI & HX)|(He' & _)]); [|congruence]. destruct (Util.string2ll x) as [v|] eqn:Hv.
    + destruct (set_add_int s1 a o X _ i zs x v Ha1 Ht Henc Hp HI HX (proj2 Hok) Hv HO1) as (j & Ej & _ & HR2 & HO2 & HS2).
      unfold TSet.set_intset. rewrite Hp, bind_assoc, bind_lift, Ej, bind_assoc, bind_lift, (bind_upd_obj _ _ _ _ _ Ha1).
      erewrite bind_deref by (cbn; by rewrite lookup_insert_eq). cbn [set_o_ptr o_encoding]. rewrite Henc, bool_decide_false by done.
      destruct (own_decr _ _ _ HO2) as (s3 & E3 & HO3 & HS3). eexists s3, _, []. split; [exact E3|].
      split; [eapply (step_obj _ _ _ _ _ HS3); [cbn; by rewrite lookup_insert_eq|done]|].
      split; [eapply set_obj_step; [exact HS3|set_solver|exact HR2]|]. split; [done|].
      eapply own_step_trans; [exact HS0|]. eapply own_step_trans; [apply HS2|by apply own_step_at].
    + destruct Hok as [Hok1 Hok2]. unfold small in Hok2. destruct (own_setConvert (e :: l) a o X s1 Ha1 HR1 Henc ltac:(lia) HO1) as (s2 & o2 & rs2 & E2 & Ha2 & HR2 & He2 & _ & HO2 & HS2).
      rewrite (prog_bind_step _ _ _ _ _ E2), (bind_deref _ _ _ _ Ha2), He2, bool_decide_true by done.
      destruct (set_add_ht s2 a o2 X rs2 l e x Ha2 HR2 He2) as (s3 & o3 & rs3 & E3 & Ho3 & HR3 & HO3 & HS3); [| |done|].
      * eapply owns_perm; [|exact HO2]. solve_Permutation.
      * apply (os_strings _ _ _ _ HS2); [by left|done].
      * exists s3, o3, rs3. repeat (split; [done|]). eapply own_step_trans; [exact HS0|].
        eapply own_step_trans; [eapply own_step_mono; [exact HS2|set_solver]|done].
  - rewrite bind_mret, (bind_deref _ _ _ _ Ha1). pose proof HR1 as (Ht & [(He' & _)|(He' & _)]); [congruence|]. rewrite He', bool_decide_true by done.
    destruct (set_add_ht s1 a o X rs l e x Ha1 HR1 He' HO1 He1 (proj1 Hok)) as (s3 & o3 & rs3 & E3 & Ho3 & HR3 & HO3 & HS3).
    exists s3, o3, rs3. repeat (split; [done|]). by eapply own_step_trans.
Qed.

(** ** Hashes *)
Lemma hash_rep_of s a l ps : THash.hash_state s a l ps ->
  exists o rs, heap s !! a = Some o /\ hash_obj s o (THash.hmap ps) rs /\ owns s (rs ++ l).
Proof.
  intros (o & Ho & Ht & HN & HE). exists o. destruct HE as [(He & Hp & HO)|(He & d & Hp & HO & HF)].
  - exists []. split; [done|]. split; [|done]. split; [done|]. exists ps. split; [done|]. split; [done|]. by left.
  - exists (THash.unpair d). split; [done|]. split; [|done]. split; [done|]. exists ps. split; [done|]. split; [done|]. right. split; [done|]. by exists d.
Qed.

(** A hash that is still a ziplist. *)
Lemma hash_state_enc s a l ps : THash.hash_state s a l ps -> THash.encoding_of s a = Some ENC_ZIPLIST ->
  exists o, heap s !! a = Some o /\ o_type o = REDIS_HASH /\ o_encoding o = ENC_ZIPLIST /\ o_ptr o = PZiplist (THash.unpair ps) /\ owns s l.
Proof.
  intros (o & Ho & Ht & HN & HE) Henc. exists o. unfold THash.encoding_of in Henc. rewrite Ho in Henc. injection Henc as He.
  destruct HE as [(_ & Hp & HO)|(He' & _)]; [done|congruence].
Qed.
Lemma hash_state_table s a l ps : THash.hash_state s a l ps -> THash.encoding_of s a = Some ENC_HT ->
  exists o d, heap s !! a = Some o /\ o_type o = REDIS_HASH /\ o_encoding o = ENC_HT /\ o_ptr o = PHashDict d /\
    Forall2 (holds s) (THash.unpair d) (THash.unpair ps) /\ owns s (THash.unpair d ++ l).
Proof.
  intros (o & Ho & Ht & HN & HE) Henc. exists o. unfold THash.encoding_of in Henc. rewrite Ho in Henc. injection Henc as He.
  destruct HE as [(He' & _)|(_ & d & Hp & HO & HF)]; [congruence|]. by exists d.
Qed.

(** A raw string object, as rdbLoadStringObject makes them. *)
Definition raw_str (s : server) (a : addr) (x : sds) : Prop :=
  exists o, heap s !! a = Some o /\ o_encoding o = ENC_RAW /\ o_ptr o = PSds x.

Lemma raw_str_step s s' a x l : own_step l None s s' -> a ∈ l -> holds s a x -> raw_str s a x -> raw_str s' a x.
Proof.
  intros HS Ha (o & Ho & Ht & _) (o' & Ho' & He & Hp). assert (o' = o) as -> by congruence.
  destruct (os_objs _ _ _ _ HS a o Ha Ho Ht) as (n & Hn). by exists (set_o_refcount n o).
Qed.

Lemma hash_append_zl_ok s a o ps l fa va f v : heap s !! a = Some o -> o_type o = REDIS_HASH -> o_encoding o = ENC_ZIPLIST ->
  o_ptr o = PZiplist (THash.unpair ps) -> NoDup (map fst (ps ++ [(f, v)])) -> owns s (va :: fa :: l) -> raw_str s fa f -> raw_str s va v ->
  exists b s', hash_append_zl a fa va s = Done (b, s') /\ THash.hash_state s' a l (ps ++ [(f, v)]) /\ own_step l (Some a) s s' /\
    THash.encoding_of s' a = Some (if b then ENC_HT else ENC_ZIPLIST).
Proof.
  intros Ha Ht He Hp HN HO (fo & Hfo & Hfe & Hfp) (vo & Hvo & _ & Hvp). unfold hash_append_zl.
  rewrite (bind_deref _ _ _ _ Hfo), Hfe, bool_decide_true by done. cbn [require_b]. rewrite bind_lift, (bind_deref _ _ _ _ Hvo).
  unfold sds_of. rewrite Hfp, Hvp, !bind_lift, (bind_deref _ _ _ _ Ha). unfold zl_of. rewrite Hp, bind_lift, (bind_upd_obj _ _ _ _ _ Ha), bind_gets.
  assert (Hns : o_type o <> REDIS_STRING) by congruence.
  destruct (own_container s _ a o (set_o_ptr (PZiplist (THash.unpair ps ++ [f; v]))) HO Ha Hns eq_refl) as [HO1 HS1].
  destruct (own_decr _ _ fa (owns_perm _ _ _ (perm_swap fa va l) HO1)) as (s2 & E2 & HO2 & HS2). rewrite (prog_bind_step _ _ _ _ _ E2).
  destruct (own_decr _ _ va HO2) as (s3 & E3 & HO3 & HS3). rewrite (prog_bind_step _ _ _ _ _ E3).
  set (o1 := set_o_ptr (PZiplist (THash.unpair ps ++ [f; v])) o). assert (Hp1 : o_ptr o1 = PZiplist (THash.unpair (ps ++ [(f, v)]))) by (unfold o1; by rewrite THash.unpair_app).
  assert (Ha3 : heap s3 !! a = Some o1).
  { apply (step_obj _ _ _ _ _ HS3); [|done]. apply (step_obj _ _ _ _ _ HS2); [|done]. cbn. by rewrite lookup_insert_eq. }
  assert (HS : own_step l (Some a) s s3).
  { eapply own_step_trans; [apply HS1|]. apply own_step_at. eapply own_step_trans; [eapply own_step_mono; [exact HS2|set_solver]|done]. }
  case_match.
  - destruct (THash.hashTypeConvert_ok a o1 l (ps ++ [(f, v)]) s3 Ha3) as (s4 & E4 & HH & HS4 & Henc); try done. rewrite (prog_bind_step _ _ _ _ _ E4).
    exists true, s4. split; [done|]. split; [done|]. split; [|done]. by eapply own_step_trans.
  - exists false, s3. split; [done|]. split; [by eapply THash.hash_state_zl|]. split; [done|]. unfold THash.encoding_of. rewrite Ha3. cbn. by rewrite He.
Qed.

Lemma hash_append_ht_ok s a o ps d l fa va f v : heap s !! a = Some o -> o_type o = REDIS_HASH -> o_encoding o = ENC_HT ->
  o_ptr o = PHashDict d -> Forall2 (holds s) (THash.unpair d) (THash.unpair ps) -> NoDup (map fst (ps ++ [(f, v)])) ->
  owns s (va :: fa :: THash.unpair d ++ l) -> holds s fa f -> holds s va v ->
  exists s' d' o', hash_append_ht a fa va s = Done (tt, s') /\ heap s' !! a = Some o' /\ o_type o' = REDIS_HASH /\ o_encoding o' = ENC_HT /\
    o_ptr o' = PHashDict d' /\ Forall2 (holds s') (THash.unpair d') (THash.unpair (ps ++ [(f, v)])) /\
    owns s' (THash.unpair d' ++ l) /\ own_step l (Some a) s s'.
Proof.
  intros Ha Ht He Hp HF HN HO Hf Hv. unfold hash_append_ht.
  destruct (own_tryEncoding s (va :: THash.unpair d ++ l) fa f) as (fb & s1 & E1 & HO1 & Hfb & HS1);
    [by eapply owns_perm; [|exact HO]; solve_Permutation|done|]. rewrite (prog_bind_step _ _ _ _ _ E1).
  destruct (own_tryEncoding s1 (fb :: THash.unpair d ++ l) va v) as (vb & s2 & E2 & HO2 & Hvb & HS2);
    [by eapply owns_perm; [|exact HO1]; solve_Permutation|apply (os_strings _ _ _ _ HS1); [by left|done]|]. rewrite (prog_bind_step _ _ _ _ _ E2).
  assert (Hns : o_type o <> REDIS_STRING) by congruence. pose proof (step_obj _ _ _ _ _ HS2 (step_obj _ _ _ _ _ HS1 Ha Hns) Hns) as Ha2.
  rewrite (bind_deref _ _ _ _ Ha2). unfold THash.dict_of. rewrite Hp, bind_lift. apply (os_strings _ _ _ _ HS2) in Hfb; [|by left].
  rewrite (prog_bind_step _ _ _ _ _ (THash.field_bytes_ok fb f s2 Hfb)).
  assert (HF2 : Forall2 (holds s2) (THash.unpair d) (THash.unpair ps)).
  { eapply own_step_holds; [exact HS2|set_solver|]. eapply own_step_holds; [exact HS1|set_solver|done]. }
  assert (Hfn : f ∉ map fst ps) by (rewrite map_app in HN; apply NoDup_app in HN as (_ & HN & _); cbn in HN; set_solver).
  rewrite (prog_bind_step _ _ _ _ _ (THash.dict_field_absent f s2 ps d HF2 Hfn)), bool_decide_true by done. cbn [require_b]. rewrite bind_lift.
  rewrite (upd_obj_Done _ _ _ _ Ha2).
  destruct (own_container s2 _ a o (set_o_ptr (PHashDict (d ++ [(fb, vb)]))) HO2 Ha2 Hns eq_refl) as [HO3 HS3].
  eexists _, (d ++ [(fb, vb)]), _. split; [reflexivity|]. cbn [heap set_heap]. rewrite lookup_insert_eq. split; [reflexivity|]. repeat (split; [done|]).
  rewrite !THash.unpair_app. cbn [THash.unpair]. split; [|split].
  - apply Forall2_app; [eapply own_step_holds; [apply (HS3 (THash.unpair d))|done|done]|].
    constructor; [|constructor; [|constructor]]; apply (os_strings _ _ _ _ (HS3 [fb; vb])); set_solver.
  - eapply owns_perm; [|exact HO3]. rewrite <- app_assoc. cbn. solve_Permutation.
  - eapply own_step_trans; [|apply HS3]. apply own_step_at.
    eapply own_step_trans; [eapply own_step_mono; [exact HS1|set_solver]|eapply own_step_mono; [exact HS2|set_solver]].
Qed.

(** The strings of a field and its value. *)
Lemma pair_bytes f v ps bss rest r : Forall2 StrEnc (THash.unpair ((f, v) :: ps)) bss -> ahead r (concat bss ++ rest) ->
  exists b1 b2 bss', bss = b1 :: b2 :: bss' /\ StrEnc f b1 /\ StrEnc v b2 /\ Forall2 StrEnc (THash.unpair ps) bss' /\
    ahead r (b1 ++ b2 ++ concat bss' ++ rest) /\ passed (concat bss) r = passed (concat bss') (passed b2 (passed b1 r)).
Proof.
  cbn [THash.unpair]. intros HF Ha. destruct bss as [|b1 bss]; [by inversion HF|]. apply Forall2_cons in HF as [H1 HF].
  destruct bss as [|b2 bss]; [by inversion HF|]. apply Forall2_cons in HF as [H2 HF]. exists b1, b2, bss. cbn [concat] in *.
  rewrite <- !app_assoc in Ha. rewrite !passed_app. done.
Qed.

Lemma load_hash_zl_ok l rest a : forall todo bss dn s r o, Forall2 StrEnc (THash.unpair todo) bss -> ahead r (concat bss ++ rest) ->
  heap s !! a = Some o -> o_type o = REDIS_HASH -> o_encoding o = ENC_ZIPLIST -> o_ptr o = PZiplist (THash.unpair dn) ->
  NoDup (map fst (dn ++ todo)) -> owns s l ->
  exists s' r' dn' todo' bss', load_hash_zl (length todo) a (s, r) = Done (Some (length todo'), (s', r')) /\ dn ++ todo = dn' ++ todo' /\
    THash.hash_state s' a l dn' /\ own_step l (Some a) s s' /\ (THash.encoding_of s' a = Some ENC_HT \/ (todo' = [] /\ THash.encoding_of s' a = Some ENC_ZIPLIST)) /\
    Forall2 StrEnc (THash.unpair todo') bss' /\ ahead r' (concat bss' ++ rest) /\ passed (concat bss') r' = passed (concat bss) r.
Proof.
  induction todo as [|[f v] todo IH]; intros bss dn s r o HF Ha Ho Ht He Hp HN HO; cbn [length load_hash_zl].
  - exists s, r, dn, [], bss. split; [done|]. split; [done|]. rewrite app_nil_r in HN. split; [by eapply THash.hash_state_zl|]. split; [apply own_step_refl|].
    split; [|done]. right. split; [done|]. unfold THash.encoding_of. rewrite Ho. cbn. by rewrite He.
  - destruct (pair_bytes f v todo bss rest r HF Ha) as (b1 & b2 & bss1 & -> & Hb1 & Hb2 & HF1 & Ha1 & ->). unfold rdbLoadStringObject.
    destruct (loadString_ok false l f b1 _ s r HO Hb1 Ha1) as (fa & s1 & E1 & HO1 & Hhf & HS1 & _ & Hraw1). rewrite (or_fail_Some _ _ _ _ _ E1).
    pose proof (Hraw1 eq_refl) as Hf1. destruct (Hraw1 eq_refl) as (fo & Hfo & Hfe & Hfp). rewrite (bind_ldref _ _ _ _ _ Hfo), Hfe, bool_decide_true by done. cbn [require_b]. rewrite bind_lift.
    destruct (loadString_ok false (fa :: l) v b2 _ s1 (passed b1 r) HO1 Hb2 (ahead_passed _ _ _ Ha1)) as (va & s2 & E2 & HO2 & Hhv & HS2 & Hfs & Hraw2).
    rewrite (or_fail_Some _ _ _ _ _ E2). assert (Hns : o_type o <> REDIS_STRING) by congruence.
    pose proof (step_obj _ _ _ _ _ (HS2 []) (step_obj _ _ _ _ _ (HS1 []) Ho Hns) Hns) as Ho2.
    pose proof (raw_str_step s1 s2 fa f [fa] (HS2 _) ltac:(by left) Hhf Hf1) as Hf2.
    assert (Hcut : dn ++ (f, v) :: todo = (dn ++ [(f, v)]) ++ todo) by (by rewrite <- app_assoc).
    assert (HN1 : NoDup (map fst (dn ++ [(f, v)]))) by (rewrite Hcut, map_app in HN; by apply NoDup_app in HN as [HN _]).
    destruct (hash_append_zl_ok s2 a o dn l fa va f v Ho2 Ht He Hp HN1 HO2 Hf2 (Hraw2 eq_refl)) as (b & s3 & E3 & HH & HS3 & Henc).
    rewrite (bind_on_srv _ _ _ _ _ _ E3). assert (HS : own_step l (Some a) s s3).
    { eapply own_step_trans; [apply own_step_at, HS1|]. eapply own_step_trans; [apply own_step_at, HS2|done]. }
    pose proof (ahead_passed _ _ _ (ahead_passed _ _ _ Ha1)) as Ha2. rewrite Hcut. destruct b.
    + exists s3, (passed b2 (passed b1 r)), (dn ++ [(f, v)]), todo, bss1. repeat (split; [done|]). split; [by left|]. done.
    + destruct (hash_state_enc _ _ _ _ HH Henc) as (o3 & Ho3 & Ht3 & He3 & Hp3 & HO3).
      destruct (IH bss1 (dn ++ [(f, v)]) s3 (passed b2 (passed b1 r)) o3) as (s4 & r4 & dn' & todo' & bss' & E4 & Hdn & HH4 & HS4 & Hrest); try done.
      { by rewrite <- Hcut. }
      exists s4, r4, dn', todo', bss'. split; [done|]. split; [done|]. split; [done|]. split; [|done]. by eapply own_step_trans.
Qed.

Lemma load_hash_ht_ok l rest a : forall todo bss dn d s r o, Forall2 StrEnc (THash.unpair todo) bss -> ahead r (concat bss ++ rest) ->
  heap s !! a = Some o -> o_type o = REDIS_HASH -> o_encoding o = ENC_HT -> o_ptr o = PHashDict d ->
  Forall2 (holds s) (THash.unpair d) (THash.unpair dn) -> NoDup (map fst (dn ++ todo)) -> owns s (THash.unpair d ++ l) ->
  exists s' o' rs, load_hash_ht (length todo) a (s, r) = Done (Some tt, (s', passed (concat bss) r)) /\ heap s' !! a = Some o' /\
    hash_obj s' o' (THash.hmap (dn ++ todo)) rs /\ owns s' (rs ++ l) /\ own_step l (Some a) s s'.
Proof.
  induction todo as [|[f v] todo IH]; intros bss dn d s r o HF Ha Ho Ht He Hp HD HN HO; cbn [length load_hash_ht].
  - inversion HF; subst. exists s, o, (THash.unpair d). rewrite passed_nil. split; [done|]. split; [done|]. rewrite app_nil_r in *.
    split; [|split; [done|apply own_step_refl]]. split; [done|]. exists dn. split; [done|]. split; [done|]. right. split; [done|]. by exists d.
  - destruct (pair_bytes f v todo bss rest r HF Ha) as (b1 & b2 & bss1 & -> & Hb1 & Hb2 & HF1 & Ha1 & ->).
    destruct (loadEncoded_step (THash.unpair d ++ l) f b1 _ s r
      (fun field => or_fail rdbLoadEncodedStringObject (fun value => _ ← on_srv (hash_append_ht a field value); load_hash_ht (length todo) a)) HO Hb1 Ha1)
      as (fa & s1 & -> & HO1 & Hhf & HS1 & _).
    destruct (loadEncoded_step (fa :: THash.unpair d ++ l) v b2 _ s1 (passed b1 r)
      (fun value => _ ← on_srv (hash_append_ht a fa value); load_hash_ht (length todo) a) HO1 Hb2 (ahead_passed _ _ _ Ha1))
      as (va & s2 & -> & HO2 & Hhv & HS2 & _).
    assert (Hns : o_type o <> REDIS_STRING) by congruence.
    pose proof (step_obj _ _ _ _ _ (HS2 []) (step_obj _ _ _ _ _ (HS1 []) Ho Hns) Hns) as Ho2.
    assert (Hcut : dn ++ (f, v) :: todo = (dn ++ [(f, v)]) ++ todo) by (by rewrite <- app_assoc).
    assert (HN1 : NoDup (map fst (dn ++ [(f, v)]))) by (rewrite Hcut, map_app in HN; by apply NoDup_app in HN as [HN _]).
    destruct (hash_append_ht_ok s2 a o dn d l fa va f v Ho2 Ht He Hp) as (s3 & d3 & o3 & E3 & Ho3 & Ht3 & He3 & Hp3 & HD3 & HO3 & HS3); [|done|done| |done|].
    { eapply own_step_holds; [apply (HS2 (THash.unpair d))|done|]. eapply own_step_holds; [apply (HS1 (THash.unpair d))|done|done]. }
    { apply (os_strings _ _ _ _ (HS2 [fa])); [by left|done]. }
    rewrite (bind_on_srv _ _ _ _ _ _ E3), Hcut.
    destruct (IH bss1 (dn ++ [(f, v)]) d3 s3 (passed b2 (passed b1 r)) o3 HF1 (ahead_passed _ _ _ (ahead_passed _ _ _ Ha1)) Ho3 Ht3 He3 Hp3 HD3)
      as (s4 & o4 & rs & E4 & Ho4 & HH4 & HO4 & HS4); [by rewrite <- Hcut|done|].
    exists s4, o4, rs. repeat (split; [done|]). eapply own_step_trans; [apply own_step_at, HS1|].
    eapply own_step_trans; [apply own_step_at, HS2|]. by eapply own_step_trans.
Qed.

(** ** Blocks *)
Lemma text_zget x : zl_text (Ziplist.zget x) = x.
Proof. unfold Ziplist.zget. destruct (Util.string2ll x) as [v|] eqn:E; [|done]. cbn. by apply Util.text_string2ll. Qed.

Lemma zl_entries_ok zl es h : Ziplist.repr zl es h -> forall fuel j, (length es - j < fuel)%nat -> (j < length es)%nat ->
  zl_entries fuel zl (Some (Ziplist.pos es j)) = Done (map snd (drop j es)).
Proof.
  intros HR. induction fuel as [|fuel IH]; intros j Hf Hj; [lia|]. cbn [zl_entries]. destruct (lookup_lt_is_Some_2 es j Hj) as [e He].
  rewrite (Ziplist.get_pos _ _ _ _ _ HR He), bind_Done. cbn [expect]. rewrite bind_Done, (Ziplist.next_pos _ _ _ _ _ HR He), bind_Done, (drop_S _ _ _ He), text_zget.
  destruct (decide (S j < length es)%nat) as [Hn|Hn].
  - rewrite IH, bind_Done by lia. done.
  - rewrite (drop_ge es (S j)) by lia. destruct fuel; [lia|done].
Qed.

Lemma ziplist_of_ok zl l : is_block zl l -> ziplist_of zl = Done l.
Proof.
  intros [(es & h & HR & <- & _) _]. unfold ziplist_of. rewrite (Ziplist.index_ok _ _ _ 0 HR) by lia. rewrite bind_Done, Ziplist.list_index_0.
  destruct es as [|e es]; [done|]. cbn [length fmap option_fmap option_map]. pose proof (Ziplist.repr_length _ _ _ HR) as Hl. cbn [length] in Hl.
  by rewrite (zl_entries_ok _ _ _ HR) by (cbn [length]; lia).
Qed.

Lemma intset_of_ok i zs : Intset.repr i zs -> Intset.length_ i * 8 < 2 ^ 32 -> intset_of (intset_blob i) = Done i.
Proof.
  intros [He Hl _ _ _] Hm. destruct i as [e n c]. cbn in He, Hl, Hm. unfold intset_of, intset_blob. cbn [Intset.encoding Intset.length_ Intset.contents].
  rewrite (mem_get_at _ 0 4 [] (le_bytes 4 e) (le_bytes 4 n ++ c)), bind_Done by done.
  rewrite (mem_get_at _ 4 4 (le_bytes 4 e) (le_bytes 4 n) c), bind_Done by done.
  rewrite !le_val_small by (destruct He as [-> |[-> | ->]]; lia).
  assert (drop 8 (le_bytes 4 e ++ le_bytes 4 n ++ c) = c) as -> by (rewrite app_assoc; apply (drop_app_length' _ _ 8); done). done.
Qed.

Lemma load_block_ok l zl bs rest s r : owns s l -> Forall (in_u 8) zl -> StrEnc (map chr zl) bs -> ahead r (bs ++ rest) ->
  exists s', owns s' l /\ own_step l None s s' /\ forall B (f : list Z -> ld (option B)), or_fail load_block f (s, r) = f zl (s', passed bs r).
Proof.
  intros HO Hz Hs Ha. unfold load_block, rdbLoadStringObject.
  destruct (loadString_ok false l _ bs rest s r HO Hs Ha) as (a & s1 & E1 & HO1 & Hh & HS1 & _ & Hraw). destruct (Hraw eq_refl) as (o & Ho & _ & Hp).
  destruct (own_decr _ _ _ HO1) as (s2 & E2 & HO2 & HS2). exists s2. split; [done|]. split; [eapply own_step_trans; [apply HS1|done]|].
  intros B f. apply or_fail_Some. rewrite (or_fail_Some _ _ _ _ _ E1), (bind_ldref _ _ _ _ _ Ho). unfold sds_of. rewrite Hp, bind_lift, (bind_on_srv _ _ _ _ _ _ E2).
  by rewrite codes_chr.
Qed.

(** ** Objects *)
(** Nothing that is in use is at [a]. *)
Definition unused (l : list addr) (s : server) (a : addr) : Prop := forall o, heap s !! a = Some o -> o_type o = REDIS_STRING /\ a ∉ l.

Lemma unused_step l s s' a : own_step l None s s' -> heap s' !! a = None -> unused l s a.
Proof.
  intros HS Ha o Ho. destruct (decide (o_type o = REDIS_STRING)) as [Ht|Ht].
  - split; [done|]. intros Hin. destruct (os_objs _ _ _ _ HS a o Hin Ho Ht) as (n & Hn). congruence.
  - rewrite (os_others _ _ _ _ HS a o) in Ha; done.
Qed.

(** The object [a] is new, or a shared integer, and stands for [v]. *)
Definition got (l : list addr) (v : value) (s : server) (a : addr) (s' : server) (rs : list addr) : Prop :=
  val_rep s' a v rs /\ owns s' (rs ++ l) /\ own_step l None s s' /\ (unused l s a \/ Z.pos a <= REDIS_SHARED_INTEGERS).

(** The store with one more object. *)
Definition with_obj (o : robj) (s : server) : server := set_next_addr (Pos.succ (next_addr s)) (set_heap (<[next_addr s := o]> (heap s)) s).

Lemma bind_new {B} o (f : addr -> ld B) s r : (on_srv (alloc o) ≫= f) (s, r) = f (next_addr s) (with_obj o s, r).
Proof. done. Qed.

Lemma with_obj_at o s : heap (with_obj o s) !! next_addr s = Some o.
Proof. cbn. by rewrite lookup_insert_eq. Qed.

(** A container is made in [s0], filled in [s1] and read in [s']. *)
Lemma got_container l v s s0 o s' o' rs : owns s0 l -> own_step l None s s0 -> o_type o <> REDIS_STRING ->
  own_step l (Some (next_addr s0)) (with_obj o s0) s' -> heap s' !! next_addr s0 = Some o' ->
  match v with VStr _ => False | VList xs => list_obj s' o' xs rs | VSet X => set_obj s' o' X rs | VHash m => hash_obj s' o' m rs end ->
  owns s' (rs ++ l) -> got l v s (next_addr s0) s' rs.
Proof.
  intros HO0 HS0 Ht HS' Ho' HV HO'. destruct (own_alloc_container s0 l o HO0 Ht) as (_ & HS1 & Hn0).
  split; [exists o'; split; [done|by destruct v]|]. split; [done|]. split; [|left; by eapply unused_step].
  eapply own_step_trans; [exact HS0|]. eapply (step_new l (next_addr s0)); [done|apply HS1|exact HS'].
Qed.

Section Objects.
Context (load_other : Z -> ld (option addr)).
Definition loads (t : Z) (v : value) (bs : list Z) : Prop := forall l rest s r, owns s l -> ahead r (bs ++ rest) ->
  exists a s' rs, rdbLoadObject load_other t (s, r) = Done (Some a, (s', passed bs r)) /\ got l v s a s' rs.

Lemma load_str_ok x bs : StrEnc x bs -> loads REDIS_RDB_TYPE_STRING (VStr x) bs.
Proof.
  intros Hx l rest s r HO Ha. unfold rdbLoadObject. cbn [Z.eqb REDIS_RDB_TYPE_STRING].
  destruct (loadString_ok true l x bs rest s r HO Hx Ha) as (a & s1 & E1 & HO1 & Hh & HS1 & Hfs & _).
  unfold rdbLoadEncodedStringObject. rewrite (or_fail_Some _ _ _ _ _ E1).
  destruct (own_tryEncoding s1 l a x HO1 Hh) as (b & s2 & E2 & HO2 & Hb & HS2). rewrite (bind_on_srv _ _ _ _ _ _ E2).
  exists b, s2, [b]. split; [done|]. destruct Hb as (o & Ho & Hx'). split; [by exists o|]. split; [done|].
  split; [eapply own_step_trans; [apply HS1|done]|]. destruct (tryEncoding_addr _ _ _ _ E2) as [->|Hb]; [|by right].
  destruct Hfs as [Hfs|Hfs]; [left; intros o'; congruence|by right].
Qed.

Lemma all_ok_True {X} (add : X -> sds -> X) xs : forall c, all_ok add (fun _ _ => True) c xs.
Proof. induction xs as [|x xs IH]; intros c; cbn; [done|]. split; [done|apply IH]. Qed.
Lemma fold_append xs : forall c : list sds, fold_left (fun c x => c ++ [x]) xs c = c ++ xs.
Proof. induction xs as [|x xs IH]; intros c; cbn; [by rewrite app_nil_r|]. rewrite IH, <- app_assoc. done. Qed.

Lemma load_list_ok xs bs : StrsEnc xs bs -> Z.of_nat (length xs) < REDIS_RDB_LENERR ->
  loads REDIS_RDB_TYPE_LIST (VList xs) (enc_len (Z.of_nat (length xs)) ++ bs).
Proof.
  intros (bss & HF & ->) Hn l rest s r HO Ha. rewrite <- app_assoc in Ha. unfold rdbLoadObject. cbn [Z.eqb Pos.eqb REDIS_RDB_TYPE_STRING REDIS_RDB_TYPE_LIST].
  erewrite or_fail_Some; [|eapply on_rio_Done, (load_len_ok (Z.of_nat (length xs))); [lia|done]]. rewrite bind_lconf.
  set (o := mkObj REDIS_LIST (if Z.of_nat (length xs) >? list_max_ziplist_entries (conf s) then ENC_LINKEDLIST else ENC_ZIPLIST) 1 0
              (if Z.of_nat (length xs) >? list_max_ziplist_entries (conf s) then PLinked [] else PZiplist [])).
  assert (E : (if Z.of_nat (length xs) >? list_max_ziplist_entries (conf s) then createListObject else createZiplistObject) = alloc o) by (unfold o; by case_if).
  rewrite E, bind_new, Nat2Z.id. assert (Ht : o_type o <> REDIS_STRING) by done. destruct (own_alloc_container s l o HO Ht) as (HO1 & HS1 & Hnew).
  assert (HR : list_obj (with_obj o s) o [] []) by (split; [done|]; unfold o; case_if; [right|left]; repeat (split; [done|]); [constructor|done]).
  destruct (load_elements_ok list_obj (fun c x => c ++ [x]) (fun _ _ => True) list_append) with (l := l) (rest := rest) (a := next_addr s) (xs := xs) (bss := bss)
    (s := with_obj o s) (r := passed (enc_len (Z.of_nat (length xs))) r) (o := o) (c := @nil sds) (rs := @nil addr) as (s' & o' & rs & E' & Ho' & HR' & HO' & HS'); try done.
  - intros s0 o0 c rs [? _]. congruence.
  - intros. by eapply list_obj_step.
  - intros s0 a0 o0 c rs l0 ele x H1 H2 H3 H4 _. by apply (list_append_ok s0 a0 o0 c rs l0 ele x).
  - by apply ahead_passed.
  - apply with_obj_at.
  - apply all_ok_True.
  - exists (next_addr s), s', rs. erewrite or_fail_Some; [|exact E']. rewrite passed_app. split; [done|].
    eapply (got_container l _ s s o s' o' rs); try done; [apply own_step_refl|].
    by rewrite fold_append in HR'.
Qed.

Lemma fold_union xs : forall X : gset sds, fold_left (fun X x => X ∪ {[x]}) xs X = X ∪ list_to_set xs.
Proof. induction xs as [|x xs IH]; intros X; cbn; [set_solver|]. rewrite IH. set_solver. Qed.
Lemma all_ok_set xs : forall X, NoDup xs -> (forall x, x ∈ xs -> x ∉ X) -> (Z.of_nat (base.size X + length xs) + 1) * 8 < 2 ^ 32 ->
  all_ok (fun X x => X ∪ {[x]}) set_ok X xs.
Proof.
  induction xs as [|x xs IH]; intros X HN HX Hs; cbn [all_ok]; [done|]. apply NoDup_cons in HN as [Hx HN]. cbn [length] in Hs.
  split; [split; [apply HX; by left|unfold small; lia]|]. apply IH; [done| |].
  - intros y Hy. rewrite elem_of_union, elem_of_singleton. intros [Hy'| ->]; [|done]. by apply (HX y); [right|].
  - rewrite size_union_alt. assert (base.size (({[x]} : gset sds) ∖ X) <= 1)%nat by (rewrite <- (size_singleton (C := gset sds) x); apply subseteq_size; set_solver). lia.
Qed.

Lemma load_set_ok xs bs : StrsEnc xs bs -> NoDup xs -> (Z.of_nat (length xs) + 1) * 8 < 2 ^ 32 ->
  loads REDIS_RDB_TYPE_SET (VSet (list_to_set xs)) (enc_len (Z.of_nat (length xs)) ++ bs).
Proof.
  intros (bss & HF & ->) HN Hn l rest s r HO Ha. rewrite <- app_assoc in Ha. unfold rdbLoadObject.
  cbn [Z.eqb Pos.eqb REDIS_RDB_TYPE_STRING REDIS_RDB_TYPE_LIST REDIS_RDB_TYPE_SET].
  erewrite or_fail_Some; [|eapply on_rio_Done, (load_len_ok (Z.of_nat (length xs))); [unfold REDIS_RDB_LENERR; lia|done]]. rewrite bind_lconf.
  set (b := Z.of_nat (length xs) >? set_max_intset_entries (conf s)).
  set (o := mkObj REDIS_SET (if b then ENC_HT else ENC_INTSET) 1 0 (if b then PSetDict [] else PIntset Intset.intsetNew)).
  assert (E : (if b then createSetObject else createIntsetObject) = alloc o) by (unfold o; by case_if).
  rewrite E, bind_new, Nat2Z.id. assert (Ht : o_type o <> REDIS_STRING) by done. destruct (own_alloc_container s l o HO Ht) as (HO1 & HS1 & Hnew).
  assert (HR : set_obj (with_obj o s) o ∅ []).
  { split; [done|]. unfold o. destruct b; [right|left]; (split; [done|]); (split; [done|]).
    - exists []. split; [constructor|]. split; [constructor|done].
    - exists Intset.intsetNew, []. split; [done|]. split; [apply Intset.new_repr|done]. }
  destruct (load_elements_ok set_obj (fun X x => X ∪ {[x]}) set_ok set_append) with (l := l) (rest := rest) (a := next_addr s) (xs := xs) (bss := bss)
    (s := with_obj o s) (r := passed (enc_len (Z.of_nat (length xs))) r) (o := o) (c := ∅ : gset sds) (rs := @nil addr) as (s' & o' & rs & E' & Ho' & HR' & HO' & HS'); try done.
  - intros s0 o0 c rs [? _]. congruence.
  - intros. by eapply set_obj_step.
  - intros s0 a0 o0 c rs l0 ele x H1 H2 H3 H4 H5. by apply (set_append_ok s0 a0 o0 c rs l0 ele x).
  - by apply ahead_passed.
  - apply with_obj_at.
  - apply all_ok_set; [done|set_solver|rewrite size_empty; lia].
  - exists (next_addr s), s', rs. erewrite or_fail_Some; [|exact E']. rewrite passed_app. split; [done|].
    eapply (got_container l _ s s o s' o' rs); try done; [apply own_step_refl|].
    rewrite fold_union in HR'. by replace (∅ ∪ list_to_set xs : gset sds) with (list_to_set xs : gset sds) in HR' by set_solver.
Qed.

(** The second loop of a hash, which only runs for a table. *)
Definition hash_rest (len : nat) (a : addr) : ld (option addr) :=
  ho ← ldref a;
  or_fail (if bool_decide (o_encoding ho = ENC_HT) then load_hash_ht len a
           else _ ← lift (require_b AssertFail (len =? 0)%nat); mret (Some tt)) (fun _ => mret (Some a)).

Lemma hash_rest_ok l rest a todo bss dn s r : Forall2 StrEnc (THash.unpair todo) bss -> ahead r (concat bss ++ rest) ->
  THash.hash_state s a l dn -> NoDup (map fst (dn ++ todo)) ->
  (THash.encoding_of s a = Some ENC_HT \/ (todo = [] /\ THash.encoding_of s a = Some ENC_ZIPLIST)) ->
  exists s' o' rs, hash_rest (length todo) a (s, r) = Done (Some a, (s', passed (concat bss) r)) /\ heap s' !! a = Some o' /\
    hash_obj s' o' (THash.hmap (dn ++ todo)) rs /\ owns s' (rs ++ l) /\ own_step l (Some a) s s'.
Proof using Type.
  intros HF Ha HH HN [Henc|[-> Henc]]; unfold hash_rest.
  - destruct (hash_state_table _ _ _ _ HH Henc) as (o & d & Ho & Ht & He & Hp & HD & HO).
    rewrite (bind_ldref _ _ _ _ _ Ho), He, bool_decide_true by done.
    destruct (load_hash_ht_ok l rest a todo bss dn d s r o HF Ha Ho Ht He Hp HD HN HO) as (s' & o' & rs & E & Ho' & HR & HO' & HS).
    exists s', o', rs. erewrite or_fail_Some; [|exact E]. done.
  - destruct (hash_state_enc _ _ _ _ HH Henc) as (o & Ho & Ht & He & Hp & HO). cbn [THash.unpair] in HF. inversion HF; subst.
    rewrite (bind_ldref _ _ _ _ _ Ho), He, bool_decide_false by done. exists s, o, []. rewrite passed_nil, app_nil_r in *. split; [done|]. split; [done|].
    split; [|split; [done|apply own_step_refl]]. split; [done|]. exists dn. split; [done|]. split; [done|]. by left.
Qed.

Lemma load_hash_ok ps bs : StrsEnc (THash.unpair ps) bs -> NoDup (map fst ps) -> Z.of_nat (length ps) < REDIS_RDB_LENERR ->
  loads REDIS_RDB_TYPE_HASH (VHash (THash.hmap ps)) (enc_len (Z.of_nat (length ps)) ++ bs).
Proof.
  intros (bss & HF & ->) HN Hn l rest s r HO Ha. rewrite <- app_assoc in Ha. unfold rdbLoadObject.
  cbn [Z.eqb Pos.eqb REDIS_RDB_TYPE_STRING REDIS_RDB_TYPE_LIST REDIS_RDB_TYPE_SET REDIS_RDB_TYPE_HASH].
  erewrite or_fail_Some; [|eapply on_rio_Done, (load_len_ok (Z.of_nat (length ps))); [lia|done]]. unfold createHashObject. rewrite bind_new, bind_lconf.
  set (o := mkObj REDIS_HASH ENC_ZIPLIST 1 0 (PZiplist [])). set (a := next_addr s). set (s1 := with_obj o s). set (r1 := passed _ r).
  assert (Ht : o_type o <> REDIS_STRING) by done. destruct (own_alloc_container s l o HO Ht) as (HO1 & HS1 & Hnew).
  pose proof (with_obj_at o s) as Ho1. fold a s1 in Ho1, HO1, HS1, Hnew. pose proof (ahead_passed _ _ _ Ha) as Ha1. fold r1 in Ha1.
  assert (Hall : exists s' o' rs, hash_obj s' o' (THash.hmap ps) rs /\ heap s' !! a = Some o' /\ owns s' (rs ++ l) /\ own_step l (Some a) s1 s' /\
    (_ ← on_srv (when (Z.of_nat (length ps) >? hash_max_ziplist_entries (conf s1)) (THash.hashTypeConvert a));
     or_fail (if Z.of_nat (length ps) >? hash_max_ziplist_entries (conf s1) then mret (Some (Z.to_nat (Z.of_nat (length ps)))) else load_hash_zl (Z.to_nat (Z.of_nat (length ps))) a)
       (fun len => hash_rest len a)) (s1, r1) = Done (Some a, (s', passed (concat bss) r1))).
  { destruct (_ >? _); cbn [when]; rewrite Nat2Z.id.
    - destruct (THash.hashTypeConvert_ok a o l [] s1 Ho1 eq_refl (NoDup_nil_2 : NoDup (map fst ([] : list (sds * sds)))) eq_refl eq_refl HO1) as (s2 & E2 & HH & HS2 & Henc).
      destruct (hash_rest_ok l rest a ps bss [] s2 r1 HF Ha1 HH HN (or_introl Henc)) as (s' & o' & rs & E & Ho' & HR & HO' & HS').
      exists s', o', rs. repeat (split; [done|]). split; [by eapply own_step_trans|]. rewrite (bind_on_srv _ _ _ _ _ _ E2). exact E.
    - destruct (load_hash_zl_ok l rest a ps bss [] s1 r1 o HF Ha1 Ho1 eq_refl eq_refl eq_refl HN HO1)
        as (s2 & r2 & dn & todo & bss2 & E2 & Hps & HH & HS2 & Henc & HF2 & Ha2 & Hpass). cbn [app] in Hps. subst ps.
      destruct (hash_rest_ok l rest a todo bss2 dn s2 r2 HF2 Ha2 HH HN Henc) as (s' & o' & rs & E & Ho' & HR & HO' & HS').
      exists s', o', rs. repeat (split; [done|]). split; [by eapply own_step_trans|]. rewrite bind_on_srv with (a := tt) (s' := s1) by done.
      erewrite or_fail_Some; [|exact E2]. by rewrite E, Hpass. }
  destruct Hall as (s' & o' & rs & HR & Ho' & HO' & HS' & E). exists a, s', rs. split.
  - rewrite passed_app. exact E.
  - eapply (got_container l _ s s o s' o' rs); try done. apply own_step_refl.
Qed.

(** A block becomes a container, which is converted when it is too long. *)
Lemma block_list_ok xs zl bs : is_block zl xs -> StrEnc (map chr zl) bs -> loads REDIS_RDB_TYPE_LIST_ZIPLIST (VList xs) bs.
Proof.
  intros HB Hs l rest s r HO Ha. unfold rdbLoadObject.
  cbn [Z.eqb Pos.eqb REDIS_RDB_TYPE_STRING REDIS_RDB_TYPE_LIST REDIS_RDB_TYPE_SET REDIS_RDB_TYPE_HASH REDIS_RDB_TYPE_LIST_ZIPLIST].
  destruct (load_block_ok l zl bs rest s r HO (proj2 HB) Hs Ha) as (s1 & HO1 & HS1 & E). rewrite E. clear E.
  rewrite (ziplist_of_ok _ _ HB), bind_lift. unfold block_object. rewrite bind_new, bind_lconf.
  set (o := mkObj REDIS_LIST ENC_ZIPLIST 1 0 (PZiplist xs)). assert (Ht : o_type o <> REDIS_STRING) by done.
  destruct (own_alloc_container s1 l o HO1 Ht) as (HO2 & HS2 & Hnew). pose proof (with_obj_at o s1) as Ho.
  assert (HR : list_obj (with_obj o s1) o xs []) by (split; [done|by left]). destruct (_ >? _); cbn [when].
  - destruct (own_listConvert l (next_addr s1) o xs (with_obj o s1) Ho HR eq_refl HO2) as (s' & o' & rs & E & Ho' & HR' & _ & HO' & HS').
    exists (next_addr s1), s', rs. rewrite (bind_on_srv _ _ _ _ _ _ E). split; [done|]. by eapply (got_container l _ s s1 o s' o' rs).
  - exists (next_addr s1), (with_obj o s1), []. rewrite bind_on_srv with (a := tt) (s' := with_obj o s1) by done. split; [done|].
    eapply (got_container l _ s s1 o _ o []); try done. apply own_step_refl.
Qed.

Lemma block_intset_ok i zs bs : Intset.repr i zs -> Intset.length_ i * 8 < 2 ^ 32 -> StrEnc (map chr (intset_blob i)) bs ->
  loads REDIS_RDB_TYPE_SET_INTSET (VSet (list_to_set (map text zs))) bs.
Proof.
  intros HI Hm Hs l rest s r HO Ha. unfold rdbLoadObject.
  cbn [Z.eqb Pos.eqb REDIS_RDB_TYPE_STRING REDIS_RDB_TYPE_LIST REDIS_RDB_TYPE_SET REDIS_RDB_TYPE_HASH REDIS_RDB_TYPE_LIST_ZIPLIST REDIS_RDB_TYPE_SET_INTSET].
  destruct (load_block_ok l _ bs rest s r HO (proj2 (intset_blob_ok i zs HI Hm)) Hs Ha) as (s1 & HO1 & HS1 & E). rewrite E. clear E.
  rewrite (intset_of_ok i zs HI Hm), bind_lift. unfold block_object. rewrite bind_new, bind_lconf.
  set (o := mkObj REDIS_SET ENC_INTSET 1 0 (PIntset i)). assert (Ht : o_type o <> REDIS_STRING) by done.
  destruct (own_alloc_container s1 l o HO1 Ht) as (HO2 & HS2 & Hnew). pose proof (with_obj_at o s1) as Ho.
  assert (HR : set_obj (with_obj o s1) o (list_to_set (map text zs)) []).
  { split; [done|]. left. split; [done|]. split; [done|]. by exists i, zs. }
  destruct (_ >? _); cbn [when].
  - destruct (own_setConvert l (next_addr s1) o (list_to_set (map text zs)) (with_obj o s1) Ho HR eq_refl) as (s' & o' & rs & E & Ho' & HR' & _ & _ & HO' & HS'); [|done|].
    + rewrite size_list_to_set by (apply sorted_text; [exact (intset_range _ _ HI)|exact (Intset.repr_sorted _ _ HI)]). rewrite length_map.
      pose proof (Intset.repr_len _ _ HI). lia.
    + exists (next_addr s1), s', rs. rewrite (bind_on_srv _ _ _ _ _ _ E). split; [done|]. by eapply (got_container l _ s s1 o s' o' rs).
  - exists (next_addr s1), (with_obj o s1), []. rewrite bind_on_srv with (a := tt) (s' := with_obj o s1) by done. split; [done|].
    eapply (got_container l _ s s1 o _ o []); try done. apply own_step_refl.
Qed.

Lemma block_hash_ok ps zl bs : is_block zl (THash.unpair ps) -> NoDup (map fst ps) -> StrEnc (map chr zl) bs ->
  loads REDIS_RDB_TYPE_HASH_ZIPLIST (VHash (THash.hmap ps)) bs.
Proof.
  intros HB HN Hs l rest s r HO Ha. unfold rdbLoadObject.
  cbn [Z.eqb Pos.eqb REDIS_RDB_TYPE_STRING REDIS_RDB_TYPE_LIST REDIS_RDB_TYPE_SET REDIS_RDB_TYPE_HASH REDIS_RDB_TYPE_LIST_ZIPLIST REDIS_RDB_TYPE_SET_INTSET REDIS_RDB_TYPE_HASH_ZIPLIST].
  destruct (load_block_ok l zl bs rest s r HO (proj2 HB) Hs Ha) as (s1 & HO1 & HS1 & E). rewrite E. clear E.
  rewrite (ziplist_of_ok _ _ HB), bind_lift. unfold block_object. rewrite bind_new, bind_lconf.
  set (o := mkObj REDIS_HASH ENC_ZIPLIST 1 0 (PZiplist (THash.unpair ps))). assert (Ht : o_type o <> REDIS_STRING) by done.
  destruct (own_alloc_container s1 l o HO1 Ht) as (HO2 & HS2 & Hnew). pose proof (with_obj_at o s1) as Ho.
  rewrite (bind_ldref _ _ _ _ _ Ho). unfold THash.hashTypeLength, zl_of. cbn [o_encoding o_ptr o]. rewrite bind_Done, bind_lift.
  destruct (_ >? _); cbn [when].
  - destruct (THash.hashTypeConvert_ok (next_addr s1) o l ps (with_obj o s1) Ho eq_refl HN eq_refl eq_refl HO2) as (s' & E & HH & HS' & _).
    destruct (hash_rep_of _ _ _ _ HH) as (o' & rs & Ho' & HR' & HO'). exists (next_addr s1), s', rs. rewrite (bind_on_srv _ _ _ _ _ _ E).
    split; [done|]. by eapply (got_container l _ s s1 o s' o' rs).
  - exists (next_addr s1), (with_obj o s1), []. rewrite bind_on_srv with (a := tt) (s' := with_obj o s1) by done. split; [done|].
    eapply (got_container l _ s s1 o _ o []); try done; [apply own_step_refl|]. split; [done|]. exists ps. split; [done|]. split; [done|]. by left.
Qed.

(** What is read back is what was written. *)
Lemma loadObject_ok t v bs : ObjEnc t v bs -> loads t v bs.
Proof.
  destruct 1; [by apply load_str_ok|by apply load_list_ok|by eapply block_list_ok|by apply load_set_ok|by eapply block_intset_ok|by apply load_hash_ok|by eapply block_hash_ok].
Qed.
End Objects.

End RdbLoad.
