(* ===== verification/RdbFile.v ===== *)
(** * Whole dump files: what rdbSave writes, rdbLoad reads back

    [FileEnc] is the format of a dump file.  [rdbSave] writes it for the keys of
    the server that have not expired; [rdbLoad] makes a server that holds the
    same keys, with the same values and expire times and with the versions
    modulo 256. *)
From S2P Require Import Prelude Mem CStr Lzf Crc64 Rio Intset Util Server Object Db TString Heap TSet TSetSpec TList THash Ziplist RdbStr Rdb RdbSave RdbLoad.
Import Mem Crc64 Rio Object Db Heap TSetSpec RdbStr Rdb RdbSave RdbLoad.

Module RdbFile.

(** A key with its value, expire time and version. *)
Record item := mkItem { i_key : sds; i_val : value; i_expire : option Z; i_vers : Z }.

(** ** The format *)
Definition exp_bytes (e : option Z) : list Z := match e with Some t => 252 :: le_bytes 8 t | None => [] end.
Definition expire_ok (e : option Z) : Prop := match e with Some t => in_s 64 t /\ t <> -1 | None => True end.
Definition short (x : sds) : Prop := sdslen x < REDIS_RDB_LENERR.

Definition EntryEnc (it : item) (bs : list Z) : Prop :=
  expire_ok (i_expire it) /\
  exists t kb vb, StrEnc (i_key it) kb /\ ObjEnc t (i_val it) vb /\ bs = exp_bytes (i_expire it) ++ [t] ++ [to_u 8 (i_vers it)] ++ kb ++ vb.
Definition DbEnc (d : nat * list item) (bs : list Z) : Prop :=
  Z.of_nat d.1 < REDIS_RDB_LENERR /\
  exists bss, Forall2 EntryEnc d.2 bss /\ bs = [254] ++ enc_len (Z.of_nat d.1) ++ concat bss.
Definition FileEnc (ds : list (nat * list item)) (bs : list Z) : Prop :=
  exists bss, Forall2 DbEnc ds bss /\ bs = magic ++ concat bss ++ [255].

(** ** Saving *)
(** The key [k] of database [j], an object [a], is [it]. *)
Definition item_of (s : server) (j : nat) (k : sds) (a : addr) (it : item) : Prop :=
  i_key it = k /\ i_expire it = db_expires (get_db s j) !! k /\
  exists o rs, heap s !! a = Some o /\ val_rep s a (i_val it) rs /\ i_vers it = o_vers o.

(** Not expired at [now]. *)
Definition live (now : Z) (e : option Z) : bool := match e with Some t => now <=? t | None => true end.

(** Everything can be written: the values stand for something that fits. *)
Record savable (s : server) : Prop := {
  sv_dbs : Z.of_nat (length (dbs s)) < REDIS_RDB_LENERR;
  sv_vals : forall j k a, db_dict (get_db s j) !! k = Some a -> short k /\ exists v rs, val_rep s a v rs /\ storable v;
  sv_expires : forall j k t, db_expires (get_db s j) !! k = Some t -> in_s 64 t /\ t <> -1 /\ is_Some (db_dict (get_db s j) !! k)
}.

(** What is written for the entries [es] of database [j]. *)
Inductive Kept (s : server) (j : nat) (now : Z) : list (sds * addr) -> list item -> Prop :=
| kept_nil : Kept s j now [] []
| kept_skip k a es its : live now (db_expires (get_db s j) !! k) = false -> Kept s j now es its -> Kept s j now ((k, a) :: es) its
| kept_take k a it es its : live now (db_expires (get_db s j) !! k) = true -> item_of s j k a it -> Kept s j now es its ->
    Kept s j now ((k, a) :: es) (it :: its).

Section SaveFile.
Context (htab : option rio -> Z -> Z) (uninit : nat -> Z) (rdb_compression rdb_checksum : bool).
Context (blob : addr -> list sds -> list Z) (after : sds) (dict_order : gmap sds addr -> list (sds * addr)) (save_zset : robj -> sav).
Hypothesis htab_range : forall rdb h, in_s 64 (htab rdb h).
Hypothesis blob_stands : forall a l, 32 + Ziplist.weight l < 2 ^ 32 -> Ziplist.stands false (blob a l) l.

(** A program that writes bytes with the property [P], whatever it returns. *)
Definition writes_some (m : sav) (P : list Z -> Prop) : Prop := writes m (fun bs _ => P bs).

Lemma some_ret n (P : list Z -> Prop) : P [] -> writes_some (mret (Some n)) P.
Proof using Type. intros H. by apply (writes_ret n (fun bs _ => P bs)). Qed.
Lemma some_emits k m P : emits k m P -> writes_some m P.
Proof using Type. apply writes_weaken. by intros bs n [? _]. Qed.
Lemma some_bind m (P : list Z -> Prop) f (R : list Z -> Prop) : writes_some m P ->
  (forall b1 n, P b1 -> writes_some (f n) (fun b2 => R (b1 ++ b2))) -> writes_some (or_fail m f) R.
Proof using Type. intros Hm Hf. eapply writes_bind; [exact Hm|]. intros b1 n1 H1. by apply Hf. Qed.
Lemma some_weaken m (P Q : list Z -> Prop) : (forall bs, P bs -> Q bs) -> writes_some m P -> writes_some m Q.
Proof using Type. intros H. apply writes_weaken. auto. Qed.
Lemma some_raw p f (R : list Z -> Prop) : (forall n, writes_some (f n) (fun b => R (p ++ b))) -> writes_some (or_fail (rdbWriteRaw p) f) R.
Proof using Type. intros H. eapply some_bind; [eapply some_emits, emits_raw|]. by intros b1 n <-. Qed.

Lemma object_type_range o t : object_type o = Done t -> in_u 8 t.
Proof using Type. unfold object_type. repeat case_match; intros [= <-]; done. Qed.

Lemma save_pair_ok s j k a it now : savable s -> db_dict (get_db s j) !! k = Some a -> item_of s j k a it ->
  live now (i_expire it) = true -> storable (i_val it) ->
  writes_some (rdbSaveKeyValuePair htab uninit rdb_compression blob after save_zset s k a (default (-1) (i_expire it)) now) (EntryEnc it).
Proof using htab_range blob_stands.
  intros HS Hk (Hik & Hie & o & rs & Ho & HV & Hvers) Hlive Hst. destruct (sv_vals _ HS j k a Hk) as [Hshort _].
  destruct (saveObject_ok htab uninit rdb_compression blob after save_zset htab_range blob_stands s a o (i_val it) rs Ho HV Hst) as (t & Ht & Hobj).
  assert (Hok : expire_ok (i_expire it)).
  { rewrite Hie. destruct (db_expires _ !! k) as [e|] eqn:E; [|done]. destruct (sv_expires _ HS j k e E) as (? & ? & _). done. }
  unfold rdbSaveKeyValuePair. assert (negb (default (-1) (i_expire it) =? -1) && (default (-1) (i_expire it) <? now) = false) as ->.
  { destruct (i_expire it) as [e|]; [|done]. cbn [default from_option id live] in *. apply andb_false_iff. right. zify_bool. lia. }
  eapply (some_bind _ (eq (exp_bytes (i_expire it)))).
  - destruct (i_expire it) as [e|]; cbn [default from_option id exp_bytes]; [|by apply some_ret].
    destruct Hok as [_ Hne]. rewrite (proj2 (Z.eqb_neq _ _)) by done. cbn [negb]. apply some_raw. intros n. eapply some_weaken; [|eapply some_emits, emits_raw].
    by intros bs <-.
  - intros b1 n <-. apply writes_at. intros rdb Hr. unfold obj. rewrite Ho. cbn [expect]. rewrite bind_lift. eexists. split; [reflexivity|].
    eapply (some_bind _ (eq [t])).
    + unfold rdbSaveObjectType. rewrite Ht. apply writes_at. intros rdb' _. rewrite bind_lift. eexists. split; [reflexivity|].
      eapply some_weaken; [|eapply some_emits, emits_raw]. intros bs <-. rewrite to_u_small; [done|]. by eapply object_type_range.
    + intros b2 n2 <-. apply some_raw. intros n3. eapply some_bind; [eapply some_emits, (saveString_emits _ _ _ htab_range _ k); [by repeat split; auto|done]|].
      intros kb n4 Hkb. eapply some_bind; [by eapply some_emits|]. intros vb n5 Hvb. apply some_ret. rewrite app_nil_r, <- Hik, <- Hvers in *.
      split; [done|]. by exists t, kb, vb.
Qed.

Lemma getExpire_ok s j k : savable s -> exists q, getExpire j k s = Done q /\ fst q = default (-1) (db_expires (get_db s j) !! k).
Proof using Type.
  intros HS. unfold getExpire. rewrite bind_get_st. destruct (db_expires _ !! k) as [t|] eqn:E; [|by eexists].
  destruct (sv_expires _ HS j k t E) as (_ & _ & Hk). rewrite dbExists_lookup, bool_decide_true by done. by eexists.
Qed.

Lemma save_pair_skip s k a e now : live now e = false -> expire_ok e ->
  writes_some (rdbSaveKeyValuePair htab uninit rdb_compression blob after save_zset s k a (default (-1) e) now) (eq []).
Proof using Type.
  intros Hl He. unfold rdbSaveKeyValuePair. destruct e as [t|]; [|done]. destruct He as [_ Hne]. cbn [live default from_option id] in *.
  rewrite (proj2 (Z.eqb_neq _ _)), (proj2 (Z.ltb_lt _ _)) by (zify_bool; lia). by apply some_ret.
Qed.

Lemma save_entries_ok s j now : savable s -> forall es, (forall k a, (k, a) ∈ es -> db_dict (get_db s j) !! k = Some a) ->
  exists its, Kept s j now es its /\
  writes_some (save_entries htab uninit rdb_compression blob after save_zset s j now es) (fun bs => exists bss, Forall2 EntryEnc its bss /\ bs = concat bss).
Proof using htab_range blob_stands.
  intros HS. induction es as [|[k a] es IH]; intros Hin.
  - exists []. split; [constructor|]. apply some_ret. by exists [].
  - destruct (IH ltac:(intros; apply Hin; by right)) as (its & HK & Hw). pose proof (Hin k a ltac:(by left)) as Hk.
    destruct (getExpire_ok s j k HS) as ([e' s'] & Eg & He'). cbn in He'. subst e'. destruct (sv_vals _ HS j k a Hk) as (_ & v & rs & HV & Hst).
    assert (Hrun : forall rdb, save_entries htab uninit rdb_compression blob after save_zset s j now ((k, a) :: es) rdb =
      or_fail (rdbSaveKeyValuePair htab uninit rdb_compression blob after save_zset s k a (default (-1) (db_expires (get_db s j) !! k)) now)
        (fun _ => save_entries htab uninit rdb_compression blob after save_zset s j now es) rdb).
    { intros rdb. cbn [save_entries]. by rewrite Eg, bind_lift. }
    destruct (live now (db_expires (get_db s j) !! k)) eqn:Hl.
    + pose proof HV as (o & Ho & _). set (it := mkItem k v (db_expires (get_db s j) !! k) (o_vers o)).
      assert (Hit : item_of s j k a it) by (split; [done|]; split; [done|]; by exists o, rs).
      exists (it :: its). split; [by apply kept_take|]. apply writes_at. intros rdb _. eexists. split; [apply Hrun|].
      eapply some_bind; [by apply (save_pair_ok s j k a it now)|]. intros b1 n Hb1. eapply some_weaken; [|exact Hw].
      intros bs (bss & HF & ->). exists (b1 :: bss). by split; [constructor|].
    + exists its. split; [by apply kept_skip|]. apply writes_at. intros rdb _. eexists. split; [apply Hrun|].
      eapply some_bind; [apply (save_pair_skip s k a _ now Hl)|].
      * destruct (db_expires _ !! k) as [t|] eqn:E; [|done]. by destruct (sv_expires _ HS j k t E) as (? & ? & _).
      * intros b1 n <-. exact Hw.
Qed.

(** The iterator visits every key once. *)
Hypothesis order_all : forall d, dict_order d ≡ₚ map_to_list d.

(** The databases [js] as they are written. *)
Inductive Blocks (s : server) (now : Z) : list nat -> list (nat * list item) -> Prop :=
| bl_nil : Blocks s now [] []
| bl_empty j js ds : db_dict (get_db s j) = ∅ -> Blocks s now js ds -> Blocks s now (j :: js) ds
| bl_db j its js ds : Kept s j now (dict_order (db_dict (get_db s j))) its -> Blocks s now js ds -> Blocks s now (j :: js) ((j, its) :: ds).

Lemma save_dbs_ok s now : savable s -> forall js, Forall (fun j => Z.of_nat j < REDIS_RDB_LENERR) js ->
  exists ds, Blocks s now js ds /\
    writes_some (save_dbs htab uninit rdb_compression blob after dict_order save_zset s now js) (fun bs => exists bss, Forall2 DbEnc ds bss /\ bs = concat bss).
Proof using htab_range blob_stands order_all.
  intros HS. induction js as [|j js IH]; intros Hj; cbn [save_dbs].
  - exists []. split; [constructor|]. apply some_ret. by exists [].
  - apply Forall_cons in Hj as [Hj Hjs]. destruct (IH Hjs) as (ds & HB & Hw).
    destruct (Nat.eqb_spec (base.size (db_dict (get_db s j))) 0) as [E|E].
    + exists ds. split; [|done]. apply bl_empty; [|done]. by apply map_size_empty_iff.
    + destruct (save_entries_ok s j now HS (dict_order (db_dict (get_db s j)))) as (its & HK & He).
      { intros k a Hka. rewrite order_all in Hka. by apply elem_of_map_to_list. }
      exists ((j, its) :: ds). split; [by apply bl_db|]. apply some_raw. intros n1.
      eapply some_bind; [eapply some_emits, saveLen_emits; unfold REDIS_RDB_LENERR in *; lia|]. intros b1 n2 <-.
      eapply some_bind; [exact He|]. intros b2 n3 (bss & HF & ->). eapply some_weaken; [|exact Hw]. intros bs (bss' & HF' & ->).
      exists (([254] ++ enc_len (Z.of_nat j) ++ concat bss) :: bss'). split; [|cbn; by rewrite <- app_assoc].
      constructor; [|done]. split; [done|]. by exists bss.
Qed.

Lemma or_fail_assoc {S A B C} (m : prog S (option A)) (f : A -> prog S (option B)) (g : B -> prog S (option C)) s :
  or_fail (or_fail m f) g s = or_fail m (fun a => or_fail (f a) g) s.
Proof using Type. unfold or_fail. rewrite bind_assoc. unfold mbind, prog_bind. by destruct (m s) as [[[a|] s']|]. Qed.

(** The checksum that ends the file. *)
Definition cksum_of (bs : list Z) : list Z := le_bytes 8 (if rdb_checksum then crc64 0 bs else 0).

Lemma rdbSave_ok dk s : savable s -> 0 <= dk_room dk ->
  exists ds bs, Blocks s (mstime (conf s)) (seq 0 (length (dbs s))) ds /\ FileEnc ds bs /\
    rdbSave htab uninit rdb_compression rdb_checksum blob after dict_order save_zset dk s =
      Done (if dk_fopen dk && (size bs + 8 <=? dk_room dk) && dk_sync dk && dk_rename dk
            then (true, mkDisk true (dk_room dk) true true (Some (bs ++ cksum_of bs)), set_dirty 0 s) else (false, dk, s)).
Proof using htab_range blob_stands order_all.
  intros HS Hroom. destruct (save_dbs_ok s (mstime (conf s)) HS (seq 0 (length (dbs s)))) as (ds & HB & Hw).
  { apply Forall_forall. intros j Hj%elem_of_seq. pose proof (sv_dbs _ HS). lia. }
  set (body := or_fail (rdbWriteRaw magic) (fun _ => or_fail (save_dbs htab uninit rdb_compression blob after dict_order save_zset s (mstime (conf s)) (seq 0 (length (dbs s))))
                 (fun _ => rdbSaveType REDIS_RDB_OPCODE_EOF))).
  assert (Hbody : writes_some body (FileEnc ds)).
  { apply some_raw. intros n. eapply some_bind; [exact Hw|]. intros b1 n1 (bss & HF & ->).
    eapply some_weaken; [|eapply some_emits, emits_raw]. intros b <-. by exists bss. }
  set (r0 := rioInit [] (dk_room dk) rdb_checksum 0). destruct (Hbody (Some r0)) as (bs & n & HE & Hrun); [by split|]. cbn [io_room r0 rioInit] in Hrun.
  exists ds, bs. split; [done|]. split; [done|]. unfold rdbSave. destruct (dk_fopen dk) eqn:Hf; cbn [negb andb]; [|done].
  assert (Hc : rdb_contents htab uninit rdb_compression blob after dict_order save_zset s (Some r0) = or_fail body (fun _ => save_cksum) (Some r0)).
  { unfold rdb_contents, body. rewrite or_fail_assoc. unfold or_fail, mbind, prog_bind. destruct (rdbWriteRaw magic (Some r0)) as [[[q|] r]|]; [|done|done].
    destruct (save_dbs _ _ _ _ _ _ _ _ _ _ r) as [[[q'|] r']|]; done. }
  fold r0. rewrite Hc. pose proof (size_nonneg bs). case_decide as Hd.
  - rewrite (or_fail_Some _ _ _ _ _ Hrun). unfold save_cksum. rewrite bind_get_st.
    assert (Hck : io_cksum (wrote bs r0) = if rdb_checksum then crc64 0 bs else 0) by (unfold r0; by destruct rdb_checksum).
    rewrite Hck. fold (cksum_of bs). destruct (emits_raw (cksum_of bs) (Some (wrote bs r0))) as (b & n' & [<- _] & Hw').
    { unfold r0. split; cbn; lia. }
    assert (Hsz : size (cksum_of bs) = 8) by (unfold cksum_of; by rewrite size_le_bytes). rewrite Hsz in Hw'. cbn [wrote io_room r0 rioInit] in Hw'.
    case_decide as Hd2.
    + rewrite (or_fail_Some _ _ _ _ _ Hw'), (proj2 (Z.leb_le _ _)) by lia. unfold mret, prog_ret. rewrite bind_Done. cbn [andb].
      by destruct (dk_sync dk), (dk_rename dk).
    + destruct Hw' as [r' Hw']. rewrite (or_fail_None _ _ _ _ Hw'), (proj2 (Z.leb_gt _ _)) by lia. done.
  - destruct Hrun as [r' Hrun]. rewrite (or_fail_None _ _ _ _ Hrun), (proj2 (Z.leb_gt _ _)) by lia. done.
Qed.
End SaveFile.


(** ** Loading *)
(** The version of an object changes nothing else. *)
Definition with_vers (a : addr) (o : robj) (n : Z) (s : server) : server := set_heap (<[a := set_o_vers n o]> (heap s)) s.

Lemma holds_vers a o n s b x : heap s !! a = Some o -> holds s b x -> holds (with_vers a o n s) b x.
Proof.
  intros Ha (ob & Hb & Hx). destruct (decide (a = b)) as [<-|Hne].
  - assert (ob = o) as -> by congruence. exists (set_o_vers n o). cbn. rewrite lookup_insert_eq. by destruct o.
  - exists ob. cbn. by rewrite lookup_insert_ne.
Qed.

Lemma val_rep_vers a o n s b v rs : heap s !! a = Some o -> val_rep s b v rs -> val_rep (with_vers a o n s) b v rs.
Proof.
  intros Ha (ob & Hb & HV). assert (Hh : forall ls xs, Forall2 (holds s) ls xs -> Forall2 (holds (with_vers a o n s)) ls xs).
  { intros ls xs HF. eapply Forall2_impl; [exact HF|]. intros c x. by apply holds_vers. }
  assert (exists ob', heap (with_vers a o n s) !! b = Some ob' /\ o_type ob' = o_type ob /\ o_encoding ob' = o_encoding ob /\ o_ptr ob' = o_ptr ob /\ o_refcount ob' = o_refcount ob)
    as (ob' & Hb' & Et & Ee & Ep & Er).
  { cbn. destruct (decide (a = b)) as [<-|Hne]; [|exists ob; by rewrite lookup_insert_ne].
    assert (ob = o) as -> by congruence. exists (set_o_vers n o). rewrite lookup_insert_eq. by destruct o. }
  exists ob'. split; [done|]. destruct v as [x|xs|X|m].
  - destruct HV as [HV ->]. split; [|done]. unfold str_obj_ok in *. by rewrite Et, Ee, Ep, Er.
  - destruct HV as [HV1 HV2]. unfold list_obj. rewrite Et, Ee, Ep. split; [done|]. destruct HV2 as [?|(? & ? & ?)]; [by left|right]. auto.
  - destruct HV as [HV1 HV2]. unfold set_obj. rewrite Et, Ee, Ep. split; [done|]. destruct HV2 as [?|(? & ? & ys & ? & ?)]; [by left|right].
    split; [done|]. split; [done|]. exists ys. auto.
  - destruct HV as (HV1 & ps & HN & -> & HV2). unfold hash_obj. rewrite Et, Ee, Ep. split; [done|]. exists ps. split; [done|]. split; [done|].
    destruct HV2 as [?|(? & d & ? & ? & ?)]; [by left|right]. split; [done|]. exists d. auto.
Qed.

Lemma owns_vers a o n s l : heap s !! a = Some o -> owns s l -> owns (with_vers a o n s) l.
Proof.
  intros Ha HO. split.
  - intros b Hb. cbn. destruct (decide (a = b)) as [<-|Hne].
    + rewrite (ow_fresh _ _ HO) in Ha; done.
    + rewrite lookup_insert_ne by done. by apply (ow_fresh _ _ HO).
  - intros w Hw. destruct (ow_ints _ _ HO w Hw) as (rc & vr & E). cbn. destruct (decide (a = shared_integers w)) as [->|Hne].
    + rewrite lookup_insert_eq. exists rc, n. assert (o = mkObj REDIS_STRING ENC_INT rc vr (PLong w)) as -> by congruence. done.
    + rewrite lookup_insert_ne by done. by exists rc, vr.
  - intros b ob Hb Ht. cbn in Hb. destruct (decide (a = b)) as [<-|Hne].
    + rewrite lookup_insert_eq in Hb. injection Hb as <-. exact (ow_count _ _ HO a o Ha Ht).
    + rewrite lookup_insert_ne in Hb by done. by apply (ow_count _ _ HO b ob).
  - intros b Hb. destruct (ow_in _ _ HO b Hb) as [x Hx]. exists x. by apply holds_vers.
Qed.

(** A value stays what it is through a step that keeps its references. *)
Lemma val_rep_step s s' a v rs l : own_step l None s s' -> rs ⊆ l -> val_rep s a v rs -> val_rep s' a v rs.
Proof.
  intros HS Hl (o & Ho & HV). destruct v as [x|xs|X|m].
  - destruct HV as [HV ->]. destruct (os_strings _ _ _ _ HS a x ltac:(set_solver)) as (o' & Ho' & HV'); [by exists o|]. by exists o'.
  - exists o. split; [apply (os_others _ _ _ _ HS); try done; destruct HV; congruence|]. by eapply list_obj_step.
  - exists o. split; [apply (os_others _ _ _ _ HS); try done; destruct HV; congruence|]. by eapply set_obj_step.
  - exists o. split; [apply (os_others _ _ _ _ HS); try done; destruct HV; congruence|].
    destruct HV as (Ht & ps & HN & -> & HE). split; [done|]. exists ps. split; [done|]. split; [done|].
    destruct HE as [?|(? & d & ? & -> & HF)]; [by left|right]. split; [done|]. exists d. split; [done|]. split; [done|]. by eapply own_step_holds.
Qed.

Definition vers_of (s : server) (a : addr) : option Z := o_vers <$> heap s !! a.

Lemma vers_step s s' a v rs l : own_step l None s s' -> rs ⊆ l -> val_rep s a v rs -> vers_of s' a = vers_of s a.
Proof.
  intros HS Hl (o & Ho & HV). unfold vers_of. rewrite Ho. destruct (decide (o_type o = REDIS_STRING)) as [Ht|Ht].
  - assert (Ha : a ∈ l). { destruct v; [destruct HV as [_ ->]; set_solver|..]; destruct HV; congruence. }
    destruct (os_objs _ _ _ _ HS a o Ha Ho Ht) as (n & ->). done.
  - by rewrite (os_others _ _ _ _ HS a o).
Qed.

(** ** The keys loaded so far *)
Definition held (s : server) (q : nat * item) (p : addr * list addr) : Prop :=
  db_dict (get_db s q.1) !! i_key q.2 = Some p.1 /\ db_expires (get_db s q.1) !! i_key q.2 = i_expire q.2 /\
  val_rep s p.1 (i_val q.2) p.2 /\ (REDIS_SHARED_INTEGERS < Z.pos p.1 -> vers_of s p.1 = Some (to_u 8 (i_vers q.2))).

Definition holding (s : server) (L : list (nat * item)) (ps : list (addr * list addr)) : Prop :=
  Forall2 (held s) L ps /\
  (forall j k, is_Some (db_dict (get_db s j) !! k) -> (j, k) ∈ map (fun q => (q.1, i_key q.2)) L) /\
  (forall j k, db_dict (get_db s j) !! k = None -> db_expires (get_db s j) !! k = None).

Abbreviation refs_of ps := (concat (map snd ps)).

Lemma holding_step s s' L ps l : own_step l None s s' -> refs_of ps ⊆ l -> holding s L ps -> holding s' L ps.
Proof.
  intros HS Hl (HF & HL & HE). assert (Hdb : forall j, get_db s' j = get_db s j) by (intros j; unfold get_db; by rewrite (os_dbs _ _ _ _ HS)).
  split; [|split; intros j k; rewrite Hdb; auto]. clear HL HE. induction HF as [|q p L ps (H1 & H2 & H3 & H4) HF IH]; [constructor|].
  cbn [map concat] in Hl. constructor; [|apply IH; set_solver]. unfold held. rewrite Hdb. repeat (split; [done|]).
  split; [eapply val_rep_step; [exact HS|set_solver|done]|]. intros Hp. rewrite (vers_step s s' p.1 (i_val q.2) p.2 l HS ltac:(set_solver) H3). auto.
Qed.

Lemma unused_other l s a b v rs : unused l s a -> rs ⊆ l -> val_rep s b v rs -> b <> a.
Proof.
  intros Hu Hl (o & Ho & HV) ->. destruct (Hu o Ho) as [Ht Hn]. destruct v; [destruct HV as [_ ->]; set_solver|..]; destruct HV; congruence.
Qed.

Lemma holding_vers s L ps a o n : holding s L ps -> heap s !! a = Some o -> (forall p, p ∈ ps -> p.1 <> a) \/ Z.pos a <= REDIS_SHARED_INTEGERS ->
  holding (with_vers a o n s) L ps.
Proof.
  intros (HF & HL & HE) Ha Hd. split; [|split; [exact HL|exact HE]]. clear HL HE. induction HF as [|q p L ps (H1 & H2 & H3 & H4) HF IH]; [constructor|].
  constructor; [|apply IH; destruct Hd as [Hd|Hd]; [left; intros; apply Hd; by right|by right]].
  split; [done|]. split; [done|]. split; [by apply val_rep_vers|]. intros Hp. rewrite <- (H4 Hp). unfold vers_of. cbn.
  rewrite lookup_insert_ne; [done|]. destruct Hd as [Hd|Hd]; [|intros ->; lia]. intros E. symmetry in E. revert E. apply Hd. by left.
Qed.

(** The key goes into its database. *)
Definition add_item (j : nat) (it : item) (a : addr) (s : server) : server :=
  put_db j (match i_expire it with Some t => put_expire (i_key it) t | None => id end (add_key (i_key it) a (get_db s j))) s.

Lemma add_item_db j it a s j' : valid_db s j ->
  get_db (add_item j it a s) j' = if decide (j = j') then match i_expire it with Some t => put_expire (i_key it) t | None => id end (add_key (i_key it) a (get_db s j)) else get_db s j'.
Proof. intros Hv. unfold add_item. by rewrite get_db_put. Qed.

Lemma add_item_lookup j it a s j' k : valid_db s j ->
  db_dict (get_db (add_item j it a s) j') !! k = (if decide (j = j' /\ i_key it = k) then Some a else db_dict (get_db s j') !! k) /\
  db_expires (get_db (add_item j it a s) j') !! k =
    (if decide (j = j' /\ i_key it = k) then match i_expire it with Some t => Some t | None => db_expires (get_db s j') !! k end else db_expires (get_db s j') !! k).
Proof.
  intros Hv. rewrite add_item_db by done. destruct (decide (j = j')) as [<-|Hj]; [|by rewrite !decide_False by tauto].
  destruct (decide (i_key it = k)) as [<-|Hk].
  - rewrite !decide_True by done. destruct (i_expire it); cbn; by rewrite ?lookup_insert_eq.
  - rewrite !decide_False by tauto. destruct (i_expire it); cbn; by rewrite ?lookup_insert_ne.
Qed.

Lemma val_rep_heap s s' a v rs : heap s' = heap s -> val_rep s a v rs -> val_rep s' a v rs.
Proof.
  intros Hh (o & Ho & HV). exists o. split; [by rewrite Hh|]. assert (Hf : forall ls xs, Forall2 (holds s) ls xs -> Forall2 (holds s') ls xs).
  { intros ls xs HF. eapply Forall2_impl; [exact HF|]. intros c x (oc & Hc & Hx). exists oc. by rewrite Hh. }
  destruct v as [x|xs|X|m]; [done|..].
  - destruct HV as [? [?|(? & ? & ?)]]; (split; [done|]); [by left|right]. auto.
  - destruct HV as [? [?|(? & ? & ys & ? & ?)]]; (split; [done|]); [by left|right]. split; [done|]. split; [done|]. exists ys. auto.
  - destruct HV as (? & ps & ? & -> & [?|(? & d & ? & ? & ?)]); (split; [done|]); exists ps; (split; [done|]); (split; [done|]); [by left|right].
    split; [done|]. exists d. auto.
Qed.

Lemma holding_add s L ps j it a rs : holding s L ps -> valid_db s j -> db_dict (get_db s j) !! i_key it = None ->
  val_rep s a (i_val it) rs -> (REDIS_SHARED_INTEGERS < Z.pos a -> vers_of s a = Some (to_u 8 (i_vers it))) ->
  holding (add_item j it a s) (L ++ [(j, it)]) (ps ++ [(a, rs)]).
Proof.
  intros (HF & HL & HE) Hv Hk HV Hvers. split; [|split].
  - apply Forall2_app; [|constructor; [|constructor]].
    + eapply Forall2_impl; [exact HF|]. intros q p (H1 & H2 & H3 & H4). destruct (add_item_lookup j it a s q.1 (i_key q.2) Hv) as [E1 E2].
      unfold held. rewrite E1, E2. assert (~ (j = q.1 /\ i_key it = i_key q.2)) by (intros [-> Ek]; congruence). rewrite !decide_False by done.
      split; [done|]. split; [done|]. split; [by eapply val_rep_heap; [|exact H3]|exact H4].
    + destruct (add_item_lookup j it a s j (i_key it) Hv) as [E1 E2]. unfold held. cbn [fst snd]. rewrite E1, E2, !decide_True by done.
      split; [done|]. split; [destruct (i_expire it); [done|by apply HE]|]. split; [|exact Hvers]. by eapply val_rep_heap; [|exact HV].
  - intros j' k. rewrite (proj1 (add_item_lookup j it a s j' k Hv)), map_app. case_decide as E; intros Hs; apply elem_of_app.
    + right. destruct E as [-> <-]. by left.
    + left. by apply HL.
  - intros j' k. destruct (add_item_lookup j it a s j' k Hv) as [-> ->]. case_decide; [done|]. apply HE.
Qed.

Section LoadFile.
Context (load_other : Z -> ld (option addr)).

Lemma loadType_ok t rest r : ahead r (t :: rest) -> rdbLoadType r = Done (Some t, passed [t] r).
Proof using Type.
  intros Ha. unfold rdbLoadType. erewrite or_fail_Some; [|by eapply (rioRead_ok [t] rest)]. done.
Qed.

Lemma load_type_ok e t rest r : expire_ok e -> 0 <= t <= 251 \/ 254 <= t -> ahead r (exp_bytes e ++ [t] ++ rest) ->
  load_type r = Done (Some (t, default (-1) e), passed (exp_bytes e ++ [t]) r).
Proof using Type.
  intros He Ht Ha. unfold load_type. destruct e as [x|]; cbn [exp_bytes default from_option id] in *.
  - destruct He as [Hx Hne]. erewrite or_fail_Some; [|by eapply (loadType_ok 252)]. cbn [Z.eqb Pos.eqb REDIS_RDB_OPCODE_EXPIRETIME REDIS_RDB_OPCODE_EXPIRETIME_MS].
    assert (Ha1 : ahead (passed [252] r) (le_bytes 8 x ++ [t] ++ rest)) by exact (ahead_passed r [252] _ Ha). erewrite or_fail_Some.
    2:{ unfold rdbLoadMillisecondTime. erewrite or_fail_Some; [|by eapply (rioRead_ok (le_bytes 8 x) (t :: rest))]. reflexivity. }
    assert (to_s 64 (le_val (le_bytes 8 x)) = x) as ->.
    { rewrite le_val_bytes. change (256 ^ Z.of_nat 8) with (2 ^ 64). rewrite to_s_mod by lia. by apply to_s_small. }
    rewrite (proj2 (Z.eqb_neq _ _)) by done. pose proof (ahead_passed _ _ _ Ha1) as Ha2. erewrite or_fail_Some; [|by eapply (loadType_ok t)].
    rewrite (passed_app (252 :: le_bytes 8 x)), (passed_app [252] (le_bytes 8 x)). done.
  - erewrite or_fail_Some; [|by eapply (loadType_ok t)]. unfold REDIS_RDB_OPCODE_EXPIRETIME, REDIS_RDB_OPCODE_EXPIRETIME_MS.
    by rewrite !(proj2 (Z.eqb_neq _ _)) by lia.
Qed.

(** The key is added once it has its object. *)
Lemma add_loaded s j it a : valid_db s j -> db_dict (get_db s j) !! i_key it = None -> expire_ok (i_expire it) ->
  (_ ← dbAdd j (i_key it) a; when (negb (default (-1) (i_expire it) =? -1)) (setExpire j (i_key it) (default (-1) (i_expire it)))) s = Done (tt, add_item j it a s).
Proof using Type.
  intros Hv Hk He. rewrite (prog_bind_step _ _ _ _ _ (dbAdd_Done s j (i_key it) a Hk)). unfold add_item.
  destruct (i_expire it) as [t|]; cbn [default from_option id]; [|done]. destruct He as [_ Hne]. rewrite (proj2 (Z.eqb_neq _ _)) by done. cbn [negb when].
  rewrite setExpire_Done; [by rewrite get_db_put_eq, put_db_twice by done|]. unfold lookupKey. rewrite get_db_put_eq by done. cbn. rewrite lookup_insert_eq. by eexists.
Qed.

(** The state after some of the keys: which ones, and nothing else has changed.
    The references are those of their values, and some that were held before. *)
Definition progress (s0 s : server) (L : list (nat * item)) : Prop :=
  exists ps l0, holding s L ps /\ owns s (refs_of ps ++ l0) /\ length (dbs s) = length (dbs s0) /\ conf s = conf s0.

Definition stays (s0 : server) (now : Z) (e : option Z) : Prop := masterhost (conf s0) = true \/ live now e = true.

Lemma not_expired s0 now e : stays s0 now e -> negb (masterhost (conf s0)) && negb (default (-1) e =? -1) && (default (-1) e <? now) = false.
Proof using Type.
  intros [-> | Hl]; [done|]. destruct e as [t|]; [|by rewrite andb_false_r]. cbn [live default from_option id] in *.
  rewrite (proj2 (Z.ltb_ge _ _)) by (zify_bool; lia). by rewrite andb_false_r.
Qed.

Lemma ps_distinct s L ps l a : holding s L ps -> refs_of ps ⊆ l -> unused l s a -> forall p, p ∈ ps -> p.1 <> a.
Proof using Type.
  intros (HF & _) Hl Hu p Hp. apply list_elem_of_lookup in Hp as [n Hn]. destruct (Forall2_lookup_r _ _ _ _ _ HF Hn) as (q & _ & (_ & _ & Hq & _)).
  eapply unused_other; [exact Hu| |exact Hq]. apply list_elem_of_lookup_2 in Hn. intros c Hc. apply Hl, list_elem_of_In, in_concat.
  exists p.2. split; apply list_elem_of_In; [|done]. apply list_elem_of_fmap. by exists p.
Qed.

Lemma raw_str_vers s a o n b x : heap s !! a = Some o -> raw_str s b x -> raw_str (with_vers a o n s) b x.
Proof using Type.
  intros Ha (ob & Hb & He & Hp). destruct (decide (a = b)) as [<-|Hne].
  - assert (ob = o) as -> by congruence. exists (set_o_vers n o). cbn. rewrite lookup_insert_eq. by destruct o.
  - exists ob. cbn. by rewrite lookup_insert_ne.
Qed.

(** The key and the value are read, and the value gets its version. *)
Lemma load_value_ok s0 s L ps l0 r it t kb vb rest : holding s L ps -> owns s (refs_of ps ++ l0) -> length (dbs s) = length (dbs s0) -> conf s = conf s0 ->
  StrEnc (i_key it) kb -> ObjEnc t (i_val it) vb -> ahead r (kb ++ vb ++ rest) ->
  exists ka a s1 s2 o rs, rdbLoadStringObject (s, r) = Done (Some ka, (s1, passed kb r)) /\
    rdbLoadObject load_other t (s1, passed kb r) = Done (Some a, (s2, passed (kb ++ vb) r)) /\ conf s2 = conf s0 /\ heap s2 !! a = Some o /\
    let s3 := with_vers a o (to_u 8 (i_vers it)) s2 in
    holding s3 L ps /\ val_rep s3 a (i_val it) rs /\ owns s3 (ka :: (refs_of ps ++ rs) ++ l0) /\ raw_str s3 ka (i_key it) /\
    vers_of s3 a = Some (to_u 8 (i_vers it)) /\ length (dbs s3) = length (dbs s0) /\ dbs s3 = dbs s.
Proof using Type.
  intros HH HO Hdbs Hcf Hkb Hvb Ha. pose proof (ahead_passed _ _ _ Ha) as Ha1.
  destruct (loadString_ok false (refs_of ps ++ l0) (i_key it) kb _ s _ HO Hkb Ha) as (ka & s1 & E1 & HO1 & Hh1 & HS1 & _ & Hraw).
  destruct (loadObject_ok load_other t (i_val it) vb Hvb (ka :: refs_of ps ++ l0) rest s1 _ HO1 Ha1) as (a & s2 & rs & E2 & HV & HO2 & HS2 & Hu).
  pose proof (holding_step _ _ _ _ _ (HS1 (refs_of ps)) ltac:(done) HH) as HH1. assert (HH2 : holding s2 L ps) by (eapply holding_step; [exact HS2|set_solver|exact HH1]).
  pose proof HV as (o & Ho & _). exists ka, a, s1, s2, o, rs. split; [exact E1|]. rewrite passed_app. split; [exact E2|].
  split; [by rewrite (os_conf _ _ _ _ HS2), (os_conf _ _ _ _ (HS1 []))|]. split; [done|]. cbv zeta. split; [|split; [|split; [|split; [|split]]]].
  - apply holding_vers; [done|done|]. destruct Hu as [Hu|Hu]; [left|by right]. eapply ps_distinct; [exact HH1| |exact Hu]. set_solver.
  - by apply val_rep_vers.
  - apply owns_vers; [done|]. eapply owns_perm; [|exact HO2]. solve_Permutation.
  - apply raw_str_vers; [done|]. apply (raw_str_step s1 s2 ka _ (ka :: refs_of ps ++ l0)); [done|by left|done|by apply Hraw].
  - unfold vers_of. cbn. by rewrite lookup_insert_eq.
  - cbn. rewrite (os_dbs _ _ _ _ HS2), (os_dbs _ _ _ _ (HS1 [])). done.
Qed.

Lemma load_entry_ok s0 s L r j it t kb vb rest now : progress s0 s L -> (j < length (dbs s0))%nat -> (j, i_key it) ∉ map (fun q => (q.1, i_key q.2)) L ->
  expire_ok (i_expire it) -> stays s0 now (i_expire it) -> StrEnc (i_key it) kb -> ObjEnc t (i_val it) vb ->
  ahead r ([to_u 8 (i_vers it)] ++ kb ++ vb ++ rest) ->
  exists s', load_entry load_other j now t (default (-1) (i_expire it)) (s, r) = Done (Some tt, (s', passed ([to_u 8 (i_vers it)] ++ kb ++ vb) r)) /\
    progress s0 s' (L ++ [(j, it)]).
Proof using Type.
  intros (ps & l0 & HH & HO & Hdbs & Hcf) Hv Hnew He Hst Hkb Hvb Ha. unfold load_entry. pose proof (ahead_passed _ _ _ Ha) as Ha1.
  erewrite or_fail_Some; [|eapply on_rio_Done, loadType_ok; exact Ha].
  destruct (load_value_ok s0 s L ps l0 _ it t kb vb rest HH HO Hdbs Hcf Hkb Hvb Ha1) as (ka & a & s1 & s2 & o & rs & E1 & E2 & Hcf2 & Ho & HH3 & HV3 & HO3 & (ko & Hko & _ & Hkp) & Hv3 & Hdb3 & Hdbs3).
  set (s3 := with_vers a o (to_u 8 (i_vers it)) s2) in *.
  rewrite (or_fail_Some _ _ _ _ _ E1), (or_fail_Some _ _ _ _ _ E2), bind_lconf, Hcf2, (not_expired _ _ _ Hst).
  rewrite (bind_on_srv _ _ _ _ _ _ (upd_obj_Done _ _ (set_o_vers (to_u 8 (i_vers it))) _ Ho)). fold (with_vers a o (to_u 8 (i_vers it)) s2). fold s3.
  rewrite (bind_ldref _ _ _ _ _ Hko). unfold sds_of. rewrite Hkp, bind_lift.
  assert (Hvd : valid_db s3 j) by (unfold valid_db; lia).
  assert (Hk : db_dict (get_db s3 j) !! i_key it = None).
  { destruct (db_dict (get_db s3 j) !! i_key it) eqn:E; [|done]. exfalso. apply Hnew. destruct HH3 as (_ & HL & _). apply HL. by eexists. }
  pose proof (add_loaded s3 j it a Hvd Hk He) as Eadd. apply prog_bind_inv in Eadd as ([] & s4 & E4 & E5).
  rewrite (bind_on_srv _ _ _ _ _ _ E4), (bind_on_srv _ _ _ _ _ _ E5).
  pose proof (holding_add s3 L ps j it a rs HH3 Hvd Hk HV3 (fun _ => Hv3)) as HH5.
  assert (HO5 : owns (add_item j it a s3) (ka :: refs_of (ps ++ [(a, rs)]) ++ l0)).
  { eapply owns_perm; [|eapply owns_heap; [| |exact HO3]; done]. rewrite map_app, concat_app. cbn. by rewrite app_nil_r. }
  destruct (own_decr _ _ _ HO5) as (s6 & E6 & HO6 & HS6). rewrite (bind_on_srv _ _ _ _ _ _ E6). exists s6.
  rewrite !passed_app. split; [done|]. exists (ps ++ [(a, rs)]), l0. split; [eapply holding_step; [exact HS6|intros c Hc; apply elem_of_app; by left|done]|]. split; [done|].
  rewrite (os_dbs _ _ _ _ HS6), (os_conf _ _ _ _ HS6). cbn. rewrite length_insert. done.
Qed.

Definition keys_of (L : list (nat * item)) : list (nat * sds) := map (fun q => (q.1, i_key q.2)) L.
Definition of_db (d : nat * list item) : list (nat * item) := map (pair d.1) d.2.

Lemma ObjEnc_type t v bs : ObjEnc t v bs -> 0 <= t <= 13.
Proof using Type. destruct 1; done. Qed.

Lemma load_items_ok s0 now j fuel rest : (j < length (dbs s0))%nat -> forall its bss s L r, Forall2 EntryEnc its bss -> ahead r (concat bss ++ rest) ->
  progress s0 s L -> NoDup (keys_of (L ++ map (pair j) its)) -> Forall (fun it => stays s0 now (i_expire it)) its ->
  exists s', load_loop load_other (length its + fuel) j now (s, r) = load_loop load_other fuel j now (s', passed (concat bss) r) /\
    progress s0 s' (L ++ map (pair j) its).
Proof using Type.
  intros Hj its bss s L r HF. revert s L r. induction HF as [|it b its bss (He & t & kb & vb & Hkb & Hvb & ->) HF IH]; intros s L r Ha HP HN Hst; cbn [length Nat.add concat map].
  - exists s. rewrite passed_nil, app_nil_r. done.
  - apply Forall_cons in Hst as [Hst1 Hst]. cbn [concat] in Ha. rewrite <- !app_assoc in Ha. cbn [load_loop].
    pose proof (ObjEnc_type _ _ _ Hvb) as Ht. rewrite app_assoc in Ha. pose proof (ahead_passed _ _ _ Ha) as Ha1. rewrite <- app_assoc in Ha.
    erewrite or_fail_Some; [|eapply on_rio_Done, (load_type_ok (i_expire it) t); [done|lia|exact Ha]].
    unfold REDIS_RDB_OPCODE_EOF, REDIS_RDB_OPCODE_SELECTDB. rewrite !(proj2 (Z.eqb_neq _ _)) by lia.
    assert (Hnew : (j, i_key it) ∉ keys_of L).
    { unfold keys_of in *. rewrite map_app in HN. apply NoDup_app in HN as (_ & HN & _). intros Hin. apply (HN _ Hin). by left. }
    destruct (load_entry_ok s0 s L _ j it t kb vb (concat bss ++ rest) now HP Hj Hnew He Hst1 Hkb Hvb Ha1) as (s1 & E1 & HP1).
    rewrite (or_fail_Some _ _ _ _ _ E1).
    assert (HN1 : NoDup (keys_of ((L ++ [(j, it)]) ++ map (pair j) its))) by (by rewrite <- app_assoc).
    destruct (IH s1 (L ++ [(j, it)]) (passed ([to_u 8 (i_vers it)] ++ kb ++ vb) (passed (exp_bytes (i_expire it) ++ [t]) r))) as (s' & E' & HP'); [|done|done|done|].
    + rewrite (passed_app [to_u 8 (i_vers it)]), (passed_app kb). exact (ahead_passed _ _ _ (ahead_passed _ _ _ (ahead_passed _ _ _ Ha1))).
    + exists s'. rewrite E'. rewrite <- app_assoc in HP'. rewrite !passed_app. done.
Qed.

Fixpoint turns (ds : list (nat * list item)) : nat := match ds with [] => 0 | d :: r => S (length d.2) + turns r end.

Lemma load_dbs_ok s0 now fuel rest : forall ds bss s L r j, Forall2 DbEnc ds bss -> ahead r (concat bss ++ rest) -> progress s0 s L ->
  Forall (fun d => d.1 < length (dbs s0))%nat ds -> NoDup (keys_of (L ++ concat (map of_db ds))) ->
  Forall (fun d => Forall (fun it => stays s0 now (i_expire it)) d.2) ds ->
  exists s' j', load_loop load_other (turns ds + fuel) j now (s, r) = load_loop load_other fuel j' now (s', passed (concat bss) r) /\
    progress s0 s' (L ++ concat (map of_db ds)).
Proof using Type.
  intros ds bss s L r j HF. revert s L r j. induction HF as [|[k its] b ds bss (Hk & ebs & He & ->) HF IH]; intros s L r j Ha HP Hj HN Hst; cbn [turns map concat].
  - exists s, j. rewrite passed_nil, app_nil_r. done.
  - apply Forall_cons in Hj as [Hj1 Hj], Hst as [Hst1 Hst]. cbn [concat fst snd] in *. rewrite <- !app_assoc in Ha.
    cbn [Nat.add load_loop]. pose proof (ahead_passed _ _ _ Ha) as Ha1. pose proof (ahead_passed _ _ _ Ha1) as Ha2.
    erewrite or_fail_Some; [|eapply on_rio_Done, (load_type_ok None 254); [done|lia|exact Ha]]. cbn [Z.eqb Pos.eqb REDIS_RDB_OPCODE_EOF REDIS_RDB_OPCODE_SELECTDB exp_bytes app].
    erewrite or_fail_Some; [|eapply on_rio_Done, load_len_ok; [|exact Ha1]; lia]. destruct HP as (ps & HP1 & HP2 & Hlen & HP4) eqn:HPeq.
    rewrite (prog_bind_step _ _ _ (Z.of_nat (length (dbs s))) (s, passed (enc_len (Z.of_nat k)) (passed [254] r))) by done.
    rewrite Z.geb_leb, (proj2 (Z.leb_gt _ _)) by lia. rewrite Nat2Z.id. clear HPeq. rewrite <- Nat.add_assoc.
    cbn [map concat of_db fst snd] in HN. change (of_db (k, its)) with (map (pair k) its) in *. rewrite app_assoc in HN.
    destruct (load_items_ok s0 now k (turns ds + fuel) (concat bss ++ rest) Hj1 its ebs s L _ He Ha2 HP) as (s1 & E1 & HPr); [|done|].
    { unfold keys_of in *. rewrite map_app in HN. by apply NoDup_app in HN as [HN _]. }
    rewrite E1. destruct (IH s1 (L ++ map (pair k) its) _ k (ahead_passed _ _ _ Ha2) HPr Hj HN Hst) as (s2 & j2 & E2 & HP2').
    exists s2, j2. split; [|by rewrite <- app_assoc in HP2']. rewrite E2. do 2 f_equal.
    assert (Hp : passed (([254] ++ enc_len (Z.of_nat k) ++ concat ebs) ++ concat bss) r = passed (concat bss) (passed (concat ebs) (passed (enc_len (Z.of_nat k)) (passed [254] r)))) by (by rewrite !passed_app).
    symmetry. exact Hp.
Qed.

Lemma entry_bytes it b : EntryEnc it b -> 1 <= size b.
Proof using Type. intros (_ & t & kb & vb & _ & _ & ->). rewrite !size_app. pose proof (size_nonneg (exp_bytes (i_expire it))). pose proof (size_nonneg kb). pose proof (size_nonneg vb). rewrite !size_cons, size_nil. lia. Qed.

Lemma concat_bytes {A} (P : A -> list Z -> Prop) (f : A -> nat) : (forall x b, P x b -> Z.of_nat (f x) <= size b) ->
  forall xs bss, Forall2 P xs bss -> Z.of_nat (sum_list_with f xs) <= size (concat bss).
Proof using Type.
  intros H xs bss HF. induction HF as [|x b xs bss Hx HF IH]; cbn [sum_list_with concat]; [rewrite size_nil; lia|]. rewrite size_app. specialize (H _ _ Hx). lia.
Qed.

Lemma turns_bytes ds bss : Forall2 DbEnc ds bss -> Z.of_nat (turns ds) <= size (concat bss).
Proof using Type.
  intros HF. assert (turns ds = sum_list_with (fun d => S (length d.2)) ds) as -> by (clear HF; induction ds as [|d ds IH]; cbn; [done|by rewrite IH]).
  apply (concat_bytes DbEnc); [|done]. intros [j its] b (_ & ebs & He & ->). cbn [fst snd] in *. rewrite !size_app, size_cons, size_nil. pose proof (size_nonneg (enc_len (Z.of_nat j))).
  pose proof (concat_bytes EntryEnc (fun _ => 1%nat) ltac:(intros it b Hb; apply entry_bytes in Hb; exact Hb) its ebs He) as Hs.
  assert (sum_list_with (fun _ : item => 1%nat) its = length its) as E by (clear; induction its; cbn; lia). lia.
Qed.

Lemma rdbLoad_ok ds bs c s0 checksum interval : FileEnc ds bs -> 0 <= interval -> c = 0 \/ c = crc64 0 bs -> in_u 64 c ->
  progress s0 s0 [] -> Forall (fun d => d.1 < length (dbs s0))%nat ds -> NoDup (keys_of (concat (map of_db ds))) ->
  Forall (fun d => Forall (fun it => stays s0 (mstime (conf s0)) (i_expire it)) d.2) ds ->
  exists s', rdbLoad load_other checksum interval (Some (bs ++ le_bytes 8 c)) s0 = Done (LoadOk, s') /\ progress s0 s' (concat (map of_db ds)).
Proof using Type.
  intros (bss & HF & ->) Hi Hc Hc64 HP Hj HN Hst. unfold rdbLoad. set (data := (magic ++ concat bss ++ [255]) ++ le_bytes 8 c).
  set (r0 := rioInit data 0 checksum interval). assert (Ha : ahead r0 (magic ++ concat bss ++ [255] ++ le_bytes 8 c)).
  { split; [done|]. exists []. split; [|done]. cbn. unfold data. by rewrite <- !app_assoc. }
  rewrite (rioRead_ok magic (concat bss ++ [255] ++ le_bytes 8 c) r0 9 Ha eq_refl), bind_Done. pose proof (ahead_passed _ _ _ Ha) as Ha1.
  change (map chr (take 5 magic)) with (str "REDIS"). rewrite bool_decide_true by done. cbn [negb].
  change (atoi (map chr (drop 5 magic))) with 6. cbn [Z.ltb Z.gtb Z.compare orb REDIS_RDB_VERSION Pos.compare Pos.compare_cont].
  pose proof (turns_bytes ds bss HF) as Ht. assert (Hlen : (S (turns ds) <= length data)%nat).
  { unfold data. assert (Z.of_nat (length ((magic ++ concat bss ++ [255]) ++ le_bytes 8 c)) = 18 + size (concat bss)) by (fold (size ((magic ++ concat bss ++ [255]) ++ le_bytes 8 c)); rewrite !size_app, size_le_bytes; change (size magic) with 9; change (size [255]) with 1; lia). lia. }
  destruct (load_dbs_ok s0 (mstime (conf s0)) (S (length data) - turns ds) ([255] ++ le_bytes 8 c) ds bss s0 [] _ 0%nat HF Ha1 HP Hj HN Hst) as (s1 & j & E & HP1).
  replace (turns ds + (S (length data) - turns ds))%nat with (S (length data)) in E by lia. rewrite E.
  destruct (S (length data) - turns ds)%nat as [|fuel] eqn:Hfuel; [lia|]. pose proof (ahead_passed _ _ _ Ha1) as Ha2. pose proof (ahead_passed _ _ _ Ha2) as Ha3.
  assert (Eend : load_loop load_other (S fuel) j (mstime (conf s0)) (s1, passed (concat bss) (passed magic r0)) = Done (Some tt, (s1, passed [255] (passed (concat bss) (passed magic r0))))).
  { cbn [load_loop]. erewrite or_fail_Some; [|eapply on_rio_Done, (load_type_ok None 255); [done|lia|exact Ha2]]. done. }
  rewrite Eend, bind_Done. exists s1. split; [|done]. change (6 >=? 5) with true. cbn [andb]. destruct checksum eqn:Hck; [|done].
  rewrite (rioRead_ok (le_bytes 8 c) [] _ 8) by (rewrite ?app_nil_r; done). rewrite bind_Done. cbn [fst].
  rewrite le_val_small by done. rewrite <- !passed_app. assert (io_cksum (passed (magic ++ concat bss ++ [255]) r0) = crc64 0 (magic ++ concat bss ++ [255])) as -> by done.
  destruct Hc as [-> | ->]; [done|]. rewrite Z.eqb_refl. cbn [negb]. by rewrite andb_false_r.
Qed.
End LoadFile.


Lemma crc64_in_u c bs : Crc64.word c -> Crc64.word (crc64 c bs).
Proof.
  revert c. induction bs as [|b bs IH]; intros c Hc; cbn; [done|]. apply IH. unfold Crc64.crc64_step. apply Crc64.lxor_word.
  - assert (H : Forall (in_u 64) (0 :: Crc64.crc64_tab)) by (apply (bool_decide_unpack _); vm_compute; exact I).
    rewrite Forall_forall in H. apply H. destruct (nth_in_or_default (Z.to_nat (Z.lxor (to_u 8 c) b)) Crc64.crc64_tab 0) as [Hin|Hin].
    + right. by apply list_elem_of_In.
    + rewrite Hin. by left.
  - unfold Crc64.word, in_u in *. rewrite Z.shiftr_div_pow2 by lia. split; [apply Z.div_pos; lia|]. apply Z.div_lt_upper_bound; lia.
Qed.

(** ** Which keys are written *)
Lemma Kept_in s j now es its : Kept s j now es its -> forall it, it ∈ its ->
  exists a, (i_key it, a) ∈ es /\ live now (db_expires (get_db s j) !! i_key it) = true /\ item_of s j (i_key it) a it.
Proof.
  induction 1 as [|k a es its Hl HK IH|k a it' es its Hl Hi HK IH]; intros it Hin; [by apply not_elem_of_nil in Hin|..].
  - destruct (IH it Hin) as (a' & H1 & H2). exists a'. split; [by right|done].
  - apply elem_of_cons in Hin as [->|Hin].
    + exists a. assert (i_key it' = k) as -> by apply Hi. split; [by left|done].
    + destruct (IH it Hin) as (a' & H1 & H2). exists a'. split; [by right|done].
Qed.

Lemma Kept_all s j now es its : Kept s j now es its -> forall k a, (k, a) ∈ es -> live now (db_expires (get_db s j) !! k) = true ->
  exists it, it ∈ its /\ item_of s j k a it.
Proof.
  induction 1 as [|k' a' es its Hl HK IH|k' a' it' es its Hl Hi HK IH]; intros k a Hin Hk; [by apply not_elem_of_nil in Hin|..].
  - apply elem_of_cons in Hin as [[= -> ->]|Hin]; [congruence|]. by apply IH.
  - apply elem_of_cons in Hin as [[= -> ->]|Hin].
    + exists it'. split; [by left|done].
    + destruct (IH k a Hin Hk) as (it & H1 & H2). exists it. split; [by right|done].
Qed.

Lemma Kept_NoDup s j now es its : Kept s j now es its -> NoDup (map fst es) -> NoDup (map i_key its).
Proof.
  induction 1 as [|k a es its Hl HK IH|k a it es its Hl Hi HK IH]; cbn [map fst]; intros HN; [constructor|..]; apply NoDup_cons in HN as [Hn HN]; [by apply IH|].
  constructor; [|by apply IH]. destruct Hi as [-> _]. intros Hin. apply Hn. apply list_elem_of_fmap in Hin as (it' & -> & Hin).
  destruct (Kept_in _ _ _ _ _ HK it' Hin) as (a' & Ha' & _). apply list_elem_of_fmap. by exists (i_key it', a').
Qed.

Section Keys.
Context (dict_order : gmap sds addr -> list (sds * addr)).
Hypothesis order_all : forall d, dict_order d ≡ₚ map_to_list d.

Lemma Blocks_in s now js ds : Blocks dict_order s now js ds -> forall j it, (j, it) ∈ concat (map of_db ds) ->
  j ∈ js /\ exists a, db_dict (get_db s j) !! i_key it = Some a /\ live now (db_expires (get_db s j) !! i_key it) = true /\ item_of s j (i_key it) a it.
Proof using order_all.
  induction 1 as [|j' js ds Hd HB IH|j' its js ds HK HB IH]; intros j it Hin; [by apply not_elem_of_nil in Hin|..].
  - destruct (IH j it Hin) as [H1 H2]. split; [by right|done].
  - cbn [map concat] in Hin. apply elem_of_app in Hin as [Hin|Hin].
    + unfold of_db in Hin. cbn [fst snd] in Hin. apply list_elem_of_fmap in Hin as (it' & [= -> ->] & Hin). split; [by left|].
      destruct (Kept_in _ _ _ _ _ HK it' Hin) as (a & Ha & H2). exists a. split; [|done]. rewrite order_all in Ha. by apply elem_of_map_to_list.
    + destruct (IH j it Hin) as [H1 H2]. split; [by right|done].
Qed.

Lemma Blocks_lt s now n ds : forall js, Blocks dict_order s now js ds -> (forall j, j ∈ js -> (j < n)%nat) -> forall j its, (j, its) ∈ ds -> (j < n)%nat.
Proof using Type.
  induction 1 as [|j' js ds Hd HB IH|j' its' js ds HK HB IH]; intros Hn j its Hin; [by apply not_elem_of_nil in Hin|..].
  - apply (IH ltac:(intros; apply Hn; by right) j its Hin).
  - apply elem_of_cons in Hin as [[= -> ->]|Hin]; [apply Hn; by left|]. apply (IH ltac:(intros; apply Hn; by right) j its Hin).
Qed.

Lemma in_of_db (ds : list (nat * list item)) j its it : (j, its) ∈ ds -> it ∈ its -> (j, it) ∈ concat (map of_db ds).
Proof using Type.
  intros Hd Hi. apply list_elem_of_In, in_concat. exists (of_db (j, its)). split; apply list_elem_of_In; apply list_elem_of_fmap; [by exists (j, its)|by exists it].
Qed.

Lemma Blocks_all s now js ds : Blocks dict_order s now js ds -> forall j k a, j ∈ js -> db_dict (get_db s j) !! k = Some a ->
  live now (db_expires (get_db s j) !! k) = true -> exists it, (j, it) ∈ concat (map of_db ds) /\ item_of s j k a it.
Proof using order_all.
  induction 1 as [|j' js ds Hd HB IH|j' its js ds HK HB IH]; intros j k a Hj Hk Hl; [by apply not_elem_of_nil in Hj|..].
  - apply elem_of_cons in Hj as [->|Hj]; [by rewrite Hd in Hk|]. by apply IH.
  - cbn [map concat]. apply elem_of_cons in Hj as [->|Hj].
    + destruct (Kept_all _ _ _ _ _ HK k a) as (it & Hin & Hit); [by rewrite order_all; apply elem_of_map_to_list|done|]. exists it. split; [|done].
      apply elem_of_app. left. apply list_elem_of_fmap. by exists it.
    + destruct (IH j k a Hj Hk Hl) as (it & Hin & Hit). exists it. split; [|done]. apply elem_of_app. by right.
Qed.

Lemma Blocks_NoDup s now js ds : Blocks dict_order s now js ds -> NoDup js -> NoDup (keys_of (concat (map of_db ds))).
Proof using order_all.
  induction 1 as [|j js ds Hd HB IH|j its js ds HK HB IH]; intros HN; [constructor|..]; apply NoDup_cons in HN as [Hn HN]; [by apply IH|].
  cbn [map concat]. unfold keys_of, of_db in *. rewrite map_app. cbn [fst snd]. rewrite map_map. cbn [fst snd]. apply NoDup_app. split; [|split; [|by apply IH]].
  - rewrite <- (map_map i_key (pair j)). apply NoDup_fmap_2; [by intros ? ? [= ->]|]. eapply Kept_NoDup; [exact HK|].
    assert (Hp : map fst (dict_order (db_dict (get_db s j))) ≡ₚ map fst (map_to_list (db_dict (get_db s j)))) by apply fmap_Permutation, order_all.
    rewrite Hp. apply NoDup_fst_map_to_list.
  - intros [j' k] Hin Hin2. apply list_elem_of_fmap in Hin as (it & [= -> ->] & _).
    apply list_elem_of_fmap in Hin2 as ([j'' it2] & [= -> _] & Hin2). by destruct (Blocks_in _ _ _ _ HB _ _ Hin2) as [? _].
Qed.
End Keys.


(** ** Saving and loading *)
(** The strings that tryObjectEncoding shares. *)
Definition shared_int (v : value) : bool :=
  match v with
  | VStr x => match Util.string2ll x with Some w => (0 <=? w) && (w <? REDIS_SHARED_INTEGERS) | None => false end
  | _ => false
  end.

(** Key [k] of database [j] of [s], if it is live at [now], is there in [s']
    with the same value and expire time and with its version modulo 256, unless
    the value is a shared integer; an expired or missing key is not there. *)
Definition same_key (now : Z) (s s' : server) (j : nat) (k : sds) : Prop :=
  match db_dict (get_db s j) !! k with
  | Some a =>
    if live now (db_expires (get_db s j) !! k) then
      exists a' v rs rs', db_dict (get_db s' j) !! k = Some a' /\ val_rep s a v rs /\ val_rep s' a' v rs' /\
        db_expires (get_db s' j) !! k = db_expires (get_db s j) !! k /\
        (shared_int v = false -> vers_of s' a' = to_u 8 <$> vers_of s a)
    else db_dict (get_db s' j) !! k = None
  | None => db_dict (get_db s' j) !! k = None
  end.

(** A server before it loads its dump: reference counts in order, no keys; and it is a replica, or no key
    of [s] that is live at [now] has expired in the meantime. *)
Record starting (now : Z) (s s1 : server) : Prop := {
  sg_owns : exists l, owns s1 l;
  sg_dbs : length (dbs s1) = length (dbs s);
  sg_empty : forall j k, db_dict (get_db s1 j) !! k = None /\ db_expires (get_db s1 j) !! k = None;
  sg_live : forall j k, live now (db_expires (get_db s j) !! k) = true -> stays s1 (mstime (conf s1)) (db_expires (get_db s j) !! k)
}.

Lemma starting_progress now s s1 : starting now s s1 -> progress s1 s1 [].
Proof.
  intros [[l H1] _ H3 _]. exists [], l. split; [|done]. split; [constructor|]. split; intros j k; [|intros _; apply H3]. rewrite (proj1 (H3 j k)). by intros [? ?].
Qed.

Lemma not_shared s l a v rs : owns s l -> val_rep s a v rs -> shared_int v = false -> REDIS_SHARED_INTEGERS < Z.pos a.
Proof.
  intros HO (o & Ho & HV) Hv. destruct (Z.lt_ge_cases REDIS_SHARED_INTEGERS (Z.pos a)) as [H|H]; [done|exfalso].
  destruct (ow_ints _ _ HO (Z.pos a - 1)) as (rc & vr & E); [lia|]. replace (shared_integers (Z.pos a - 1)) with a in E.
  2:{ unfold shared_integers. by replace (Z.pos a - 1 + 1) with (Z.pos a) by lia. }
  rewrite Ho in E. injection E as ->. destruct v as [x|xs|X|m]; [|by destruct HV..].
  destruct HV as [(_ & _ & [[He _]|(_ & n & Hn & [= <-] & ->)]) _]; [done|]. cbn in Hv. rewrite Util.string2ll_text in Hv by done. zify_bool. lia.
Qed.

Lemma blocks_same_key dict_order (order_all : forall d, dict_order d ≡ₚ map_to_list d) now s s1 s2 ds :
  Blocks dict_order s now (seq 0 (length (dbs s))) ds -> progress s1 s2 (concat (map of_db ds)) -> forall j k, same_key now s s2 j k.
Proof.
  intros HB (ps & l0 & (HF & HL & _) & HO & _) j k. unfold same_key.
  assert (Hnone : (forall it, (j, it) ∈ concat (map of_db ds) -> i_key it <> k) -> db_dict (get_db s2 j) !! k = None).
  { intros H. destruct (db_dict (get_db s2 j) !! k) eqn:E; [|done]. exfalso. specialize (HL j k ltac:(by eexists)).
    apply list_elem_of_fmap in HL as ([j' it] & [= -> ->] & Hin). by apply (H it Hin). }
  destruct (db_dict (get_db s j) !! k) as [a|] eqn:Hk.
  - destruct (live now (db_expires (get_db s j) !! k)) eqn:Hl.
    + assert (Hj : j ∈ seq 0 (length (dbs s))).
      { apply elem_of_seq. split; [lia|]. cbn. destruct (decide (j < length (dbs s))%nat); [done|]. exfalso. unfold get_db in Hk. rewrite lookup_ge_None_2 in Hk by lia. done. }
      destruct (Blocks_all dict_order order_all _ _ _ _ HB j k a Hj Hk Hl) as (it & Hin & (<- & He & o & rs & Ho & HV & Hv)).
      apply list_elem_of_lookup in Hin as [n Hn]. destruct (Forall2_lookup_l _ _ _ _ _ HF Hn) as ([a' rs'] & _ & (H1 & H2 & H3 & H4)). cbn [fst snd] in *.
      exists a', (i_val it), rs, rs'. rewrite H2, He. repeat (split; [done|]). intros Hs. rewrite H4 by (by eapply not_shared).
      unfold vers_of. rewrite Ho. cbn. by rewrite Hv.
    + apply Hnone. intros it Hin <-. destruct (Blocks_in dict_order order_all _ _ _ _ HB _ _ Hin) as (_ & a' & _ & Hl' & _). congruence.
  - apply Hnone. intros it Hin <-. destruct (Blocks_in dict_order order_all _ _ _ _ HB _ _ Hin) as (_ & a' & Ha' & _). congruence.
Qed.


(** *** An evaluation *)
(** The block that pushes at the tail make. *)
Definition block_of (l : list sds) : list Z :=
  match Ziplist.zrun fresh (map (Ziplist.ZPush false) l) Ziplist.ziplistNew with Done (_, zl) => zl | Fault _ => [] end.

Lemma pushes_spec l : forall k, snd (Ziplist.zspec_run (map (Ziplist.ZPush false) l) k) = k ++ l /\
  Ziplist.weight (concat (map Ziplist.added (map (Ziplist.ZPush false) l))) = Ziplist.weight l /\
  concat (map Ziplist.placed (map (Ziplist.ZPush false) l)) = [] /\ Forall Ziplist.good_args (map (Ziplist.ZPush false) l).
Proof.
  induction l as [|x l IH]; intros k; cbn [map Ziplist.zspec_run concat Ziplist.added Ziplist.placed app]; [by rewrite app_nil_r|].
  destruct (IH (k ++ [x])) as (E1 & E2 & E3 & E4). cbn [Ziplist.zspec]. destruct (Ziplist.zspec_run _ (k ++ [x])) as [xs l'] eqn:E. cbn [snd] in *. rewrite <- app_assoc in E1.
  split; [done|]. cbn [Ziplist.weight]. rewrite E2. split; [done|]. split; [done|]. by constructor.
Qed.

Lemma block_of_stands l : 32 + Ziplist.weight l < 2 ^ 32 -> Ziplist.stands false (block_of l) l.
Proof.
  intros Hw. destruct (pushes_spec l []) as (E1 & E2 & E3 & E4). pose proof (Ziplist.weight_nonneg l).
  destruct (Ziplist.zrun_ok fresh false (map (Ziplist.ZPush false) l) Ziplist.ziplistNew [] (Ziplist.stands_new false)) as (zl & E & HZ).
  - rewrite E2. cbn [Ziplist.weight]. lia.
  - done.
  - rewrite E3. constructor.
  - unfold block_of. rewrite E. rewrite E1 in HZ. exact HZ.
Qed.

(** A string at version 300, a list with an expire time, and two strings that
    share the object of the integer 7 after they are loaded. *)
Definition saved_heap : gmap addr robj :=
  <[10012%positive := str_obj "hello" 300]> (<[10013%positive := mkObj REDIS_LIST ENC_ZIPLIST 1 2 (PZiplist [str "a"; str "12"])]>
    (<[10014%positive := str_obj "7" 1]> (<[10015%positive := str_obj "7" 2]> ∅))).
Definition saved_dbs : list redisDb :=
  [mkDb (<[str "k" := 10012%positive]> (<[str "a" := 10014%positive]> (<[str "b" := 10015%positive]> ∅))) ∅ ∅;
   mkDb (<[str "l" := 10013%positive]> ∅) (<[str "l" := 5000]> ∅) ∅].
Definition saved_server : server := store_of saved_heap (set_dbs saved_dbs server0).
Definition saved_disk : disk := mkDisk true 1000 true true None.
Definition save_demo : outcome (bool * disk * server) :=
  rdbSave (fun _ _ => 0) (fun _ => 0) true true (fun _ => block_of) [] map_to_list (fun _ => throw Panic) saved_disk saved_server.
Definition started_server : server := store_of ∅ server0.

Lemma saved_db j : get_db saved_server j = default empty_db (saved_dbs !! j).
Proof. reflexivity. Qed.
Lemma started_db j : get_db started_server j = empty_db.
Proof. by destruct j as [|[|j]]. Qed.

Lemma saved_savable : savable saved_server.
Proof.
  split; [reflexivity| |].
  - intros j k a. rewrite saved_db. destruct j as [|[|j]]; cbn [saved_dbs lookup list_lookup default from_option id db_dict].
    + rewrite !lookup_insert_Some. intros [[<- <-]|[_ [[<- <-]|[_ [[<- <-]|[_ Hb]]]]]]; [..|by rewrite lookup_empty in Hb]; (split; [done|]);
        eexists (VStr _), _; (split; [eexists; (split; [apply store_of_lookup; reflexivity|]); split; [by repeat split; auto|reflexivity]|reflexivity]).
    + rewrite lookup_insert_Some. intros [[<- <-]|[_ Hb]]; [|by rewrite lookup_empty in Hb]. split; [done|]. exists (VList [str "a"; str "12"]), [].
      split; [|reflexivity]. eexists. split; [apply store_of_lookup; reflexivity|]. split; [done|]. by left.
    + by intros Hb.
  - intros j k t. rewrite saved_db. destruct j as [|[|j]]; cbn [saved_dbs lookup list_lookup default from_option id db_dict db_expires]; rewrite ?lookup_empty; try done.
    rewrite lookup_insert_Some. intros [[<- <-]|[_ Hb]]; [|by rewrite lookup_empty in Hb]. split; [done|]. split; [done|]. by eexists.
Qed.

Lemma started_starting : starting 1000 saved_server started_server.
Proof.
  split; [|reflexivity| |].
  - exists []. apply store_of_owns; [reflexivity| |constructor|constructor]. intros b o Hb. by rewrite lookup_empty in Hb.
  - intros j k. rewrite started_db. done.
  - intros j k _. right. rewrite saved_db. destruct j as [|[|j]]; cbn [saved_dbs lookup list_lookup default from_option id db_expires]; try done.
    destruct (decide (k = str "l")) as [->|Hk]; [reflexivity|]. by rewrite lookup_insert_ne.
Qed.

Lemma save_demo_ok : match save_demo with Done (b, _, _) => b | Fault _ => false end = true.
Proof. vm_compute. reflexivity. Qed.


(** The versions of the keys of database 0 before a save and after a load. *)
Definition versions_of (s : server) (ks : list string) : list (option Z) :=
  map (fun k => db_dict (get_db s 0) !! str k ≫= vers_of s) ks.
Definition reloaded (o : outcome (bool * disk * server)) : list (option Z) :=
  match o with
  | Done (_, d, _) =>
    match rdbLoad (fun _ => throw Panic) true 0 (dk_dump d) started_server with
    | Done (LoadOk, s) => versions_of s ["k"; "a"; "b"]
    | _ => []
    end
  | Fault _ => []
  end.

(** A restart changes versions.  A value at version 300 comes back at version
    44, as one byte is written; two strings "7" at versions 1 and 2 come back as
    the one shared object of the integer 7, to which rdbLoad writes the version
    of each in turn, so that both have the version of the key loaded last. *)
Example reload_changes_versions :
  versions_of saved_server ["k"; "a"; "b"] = [Some 300; Some 1; Some 2] /\
  reloaded save_demo = [Some 44; Some 1; Some 1].
Proof. split; vm_compute; reflexivity. Qed.

End RdbFile.
