(* ===== verification/KvolveNs.v ===== *)
(** * kvolve_internal.c, part 1: namespaces and their versions

    [vers_list] is a uthash table from namespace names to [version_hash]
    records: the list holds its entries in insertion order.  A pointer to an
    entry is the namespace name it is stored under.  The update files that
    kvolve_load_update loads with dlopen() are not part of the sources: the
    parameter [dlopen] gives, for a path, the calls to kvolve_upd_spec that
    the file's constructor makes. *)
From S2P Require Import Prelude CStr Intset Util Server Object Db.
Import Intset Object Db.

Module KvolveNs.

Definition KV_INIT_SZ : nat := 20.

Definition COLON : ascii := ":".

Definition HASH_FIND (l : list version_hash) (ns : sds) : option version_hash :=
  snd <$> list_find (fun v => vh_ns v = ns) l.

Definition upd_vh (ns : sds) (f : version_hash -> version_hash) (l : list version_hash) :
    list version_hash :=
  match list_find (fun v => vh_ns v = ns) l with
  | Some (i, v) => <[i := f v]> l
  | None => l
  end.

(** Reads and writes of the KV_INIT_SZ arrays. *)
Definition arr_get {A} (l : list A) (i : Z) : outcome A :=
  if i <? 0 then Fault OutOfBounds else expect OutOfBounds (l !! Z.to_nat i).
Definition arr_set {A} (l : list A) (i : Z) (x : A) : outcome (list A) :=
  if (i <? 0) || (Z.of_nat (length l) <=? i) then Fault OutOfBounds
  else Done (<[Z.to_nat i := x]> l).

(** [v->versions[v->num_versions-1]] *)
Definition cur_vers (v : version_hash) : outcome Z := arr_get (versions v) (num_versions v - 1).

(** [for(i=0; i<n; i++) dst[i] = src[i]] *)
Fixpoint copy_loop {A} (n i : nat) (src dst : list A) : outcome (list A) :=
  match n with
  | O => mret dst
  | S n' =>
    x ← arr_get src (Z.of_nat i);
    dst' ← arr_set dst (Z.of_nat i) x;
    copy_loop n' (S i) src dst'
  end.

(** The entry that kvolve_create_ns builds; [id] is the client added to it. *)
Definition kvolve_new_ns (l : list version_hash) (ns_lookup : sds) (prev : option sds)
    (v0 : Z) (list_ : option kvolve_upd_info) (id : option Z) : outcome version_hash :=
  arrays ← (match prev with
    | Some p =>
      tmp ← expect NullDeref (HASH_FIND l p);
      let n := Z.to_nat (num_versions tmp) in
      vs ← copy_loop n 0 (versions tmp) (replicate KV_INIT_SZ 0);
      inf ← copy_loop n 0 (info tmp) (replicate KV_INIT_SZ None);
      vs' ← arr_set vs (num_versions tmp) v0;
      inf' ← arr_set inf (num_versions tmp) list_;
      mret (1 + num_versions tmp, vs', inf')
    | None =>
      vs ← arr_set (replicate KV_INIT_SZ 0) 0 v0;
      inf ← arr_set (replicate KV_INIT_SZ None) 0 None;
      mret (1, vs, inf)
    end);
  let '(n, vs, inf) := arrays in
  ids' ← (match id with
          | Some k => r ← intsetAdd fresh intsetNew k; mret (fst r)
          | None => mret intsetNew
          end);
  mret (mkVh ns_lookup prev None vs inf n ids').

(** [c] is the id of the client, when there is one. *)
Definition kvolve_create_ns (c : option Z) (ns_lookup : sds) (prev : option sds) (v0 : Z)
    (list_ : option kvolve_upd_info) : M version_hash :=
  s ← get_st;
  let l := vers_list (kv s) in
  let id := match c with
            | Some k => Some k
            | None => if loading_id (kv s) =? 0 then None else Some (loading_id (kv s))
            end in
  v ← lift (kvolve_new_ns l ns_lookup prev v0 list_ id);
  let l' := match prev with
            | Some p => upd_vh p (set_next_ns (Some ns_lookup)) l
            | None => l
            end in
  _ ← upd_kv (set_vers_list (l' ++ [v]));
  mret v.

Definition kvolve_construct_prev_name (orig_key old_ns : sds) : outcome sds :=
  name ← expect NullDeref (strrchr orig_key COLON);
  mret (cstr old_ns ++ name).

(** The search for the longest prefix: [lookup] is cut at its last ':' until
    the rest is a declared namespace.  Every turn makes [lookup] shorter: its
    length plus one is fuel enough. *)
Fixpoint version_hash_lookup_at (fuel : nat) (l : list version_hash) (lookup : sds)
    : option version_hash :=
  match fuel with
  | O => None
  | S fuel' =>
    match rsplit COLON lookup with
    | None => HASH_FIND l (str "*")
    | Some (prefix, _) =>
      match HASH_FIND l prefix with
      | Some v => Some v
      | None => match rsplit COLON prefix with
                | Some _ => version_hash_lookup_at fuel' l prefix
                | None => None
                end
      end
    end
  end.

Definition kvolve_version_hash_lookup (l : list version_hash) (lookup : sds)
    : option version_hash :=
  match l with
  | [] => None
  | _ => version_hash_lookup_at (S (length (cstr lookup))) l (cstr lookup)
  end.

(** The loop of kvolve_checkdel_old and kvolve_get_db_val over the previous
    namespaces: the first old name under which the database has a value, and
    the value.  [tmp] may come back to a namespace that was visited; the C
    loop then does not end, and neither does any amount of fuel suffice. *)
Fixpoint prev_loop (fuel : nat) (s : server) (i : nat) (key : sds) (tmp : option version_hash)
    : outcome (option (sds * addr)) :=
  match fuel with
  | O => Fault OutOfFuel
  | S fuel' =>
    match tmp with
    | None => mret None
    | Some t =>
      match prev_ns t with
      | None => mret None
      | Some p =>
        old ← kvolve_construct_prev_name key p;
        match lookupKey s i old with
        | Some val => mret (Some (old, val))
        | None => prev_loop fuel' s i key (kvolve_version_hash_lookup (vers_list (kv s)) p)
        end
      end
    end
  end.

(** More turns than namespaces. *)
Definition prev_fuel (s : server) : nat := S (S (length (vers_list (kv s)))).

(** [key] is read uninitialised when the loop is not entered. *)
Definition kvolve_checkdel_old (c : client) (v : option version_hash) : M unit :=
  match v with
  | None => mret tt
  | Some t =>
    match prev_ns t with
    | None => throw Dangling
    | Some _ =>
      key ← arg_str c 1;
      s ← get_st;
      r ← lift (prev_loop (prev_fuel s) s (cl_db c) key v);
      match r with
      | Some (old, _) => _ ← dbDelete (cl_db c) old; mret tt
      | None => mret tt
      end
    end
  end.

Definition kvolve_get_db_val (c : client) (v : option version_hash) : M (option addr) :=
  match v with
  | None => mret None
  | Some _ =>
    key ← arg_str c 1;
    s ← get_st;
    match lookupKey s (cl_db c) key with
    | Some val => mret (Some val)
    | None =>
      r ← lift (prev_loop (prev_fuel s) s (cl_db c) key v);
      mret (snd <$> r)
    end
  end.

(** ** Connecting *)

(** [c->argv[0]->ptr = sdsnew("quit")] *)
Definition force_quit (c : client) : M unit :=
  a ← lift (argv c 0);
  upd_obj a (set_o_ptr (PSds (str "quit"))).

(** One namespace@version item: [false] when the connection is refused. *)
Definition check_version_item (c : client) (ns_lookup : sds) (vers_i : Z) : M bool :=
  l ← gets (fun s => vers_list (kv s));
  match HASH_FIND l ns_lookup with
  | None => _ ← kvolve_create_ns (Some (cl_id c)) ns_lookup None vers_i None; mret true
  | Some v =>
    cur ← lift (cur_vers v);
    if negb (cur =? vers_i) then _ ← force_quit c; mret false
    else match next_ns v with
         | Some _ => _ ← force_quit c; mret false
         | None =>
           r ← lift (intsetAdd fresh (ids v) (cl_id c));
           _ ← upd_kv (fun k => set_vers_list (upd_vh ns_lookup (set_ids (fst r)) (vers_list k)) k);
           mret true
         end
  end.

(** The strtok loop: [rest] is where strtok resumes.  The last version is the
    one that runs to the end of the string. *)
Definition at_end (d : ascii) (rest tok : sds) : bool :=
  Nat.eqb (length (skip_delim d rest)) (length tok).

Fixpoint check_version_loop (fuel : nat) (c : client) (rest : sds) : M unit :=
  match fuel with
  | O => throw OutOfFuel
  | S fuel' =>
    t1 ← lift (expect NullDeref (strtok "@" rest));
    let '(ns_lookup, rest1) := t1 in
    t2 ← lift (expect NullDeref (strtok "," rest1));
    let '(vers, rest2) := t2 in
    ok ← check_version_item c ns_lookup (atoi vers);
    if negb ok then mret tt
    else if at_end "," rest1 vers then mret tt
    else check_version_loop fuel' c rest2
  end.

Definition kvolve_check_version (c : client) : M unit :=
  vers_str ← arg_str c 2;
  match strrchr vers_str "@" with
  | None => mret tt
  | Some _ => check_version_loop (S (length (cstr vers_str))) c (cstr vers_str)
  end.

(** ** SET flags *)
Definition REDIS_SET_NO_FLAGS : Z := 0.
Definition REDIS_SET_NX : Z := 1.
Definition REDIS_SET_XX : Z := 2.

(** [a[i]] of a C string, which ends in a NUL. *)
Definition ch (a : sds) (i : nat) : ascii := default NUL (a !! i).
Definition is_ch (c lo up : ascii) : bool := bool_decide (c = lo \/ c = up).

Fixpoint get_flags_loop (c : client) (js : list nat) (flags : Z) : M Z :=
  match js with
  | [] => mret flags
  | j :: r =>
    a ← arg_str c j;
    if is_ch (ch a 0) "n" "N" && is_ch (ch a 1) "x" "X" && bool_decide (ch a 2 = NUL)
    then get_flags_loop c r (Z.lor flags REDIS_SET_NX)
    else if is_ch (ch a 0) "x" "X" && is_ch (ch a 1) "x" "X" && bool_decide (ch a 2 = NUL)
    then get_flags_loop c r (Z.lor flags REDIS_SET_XX)
    else get_flags_loop c r flags
  end.

Definition kvolve_get_flags (c : client) : M Z :=
  get_flags_loop c (seq 3 (Z.to_nat (cl_argc c - 3))) REDIS_SET_NO_FLAGS.

(** ** Versions of containers that the next command creates *)

(** HASH_ITER with deletion of the entries whose key now exists. *)
Fixpoint prevcall_loop (ts : list tmp_vers_store_hash) : M (list tmp_vers_store_hash) :=
  match ts with
  | [] => mret []
  | t :: r =>
    s ← get_st;
    match lookupKey s (tv_prev_db t) (tv_key t) with
    | None => keep ← prevcall_loop r; mret (t :: keep)
    | Some a => _ ← upd_obj a (set_o_vers (tv_vers t)); prevcall_loop r
    end
  end.

Definition kvolve_prevcall_check : M unit :=
  ts ← gets (fun s => tmp_store (kv s));
  match ts with
  | [] => mret tt
  | _ => keep ← prevcall_loop ts; upd_kv (set_tmp_store keep)
  end.

Definition upd_tmp (key : sds) (t' : tmp_vers_store_hash) (l : list tmp_vers_store_hash) :
    option (list tmp_vers_store_hash) :=
  match list_find (fun t => tv_key t = key) l with
  | Some (i, _) => Some (<[i := t']> l)
  | None => None
  end.

Definition kvolve_new_version (c : client) (v : version_hash) : M unit :=
  key ← arg_str c 1;
  cur ← lift (cur_vers v);
  let t := mkTmp (cstr key) cur (cl_db c) in
  upd_kv (fun k => match upd_tmp (cstr key) t (tmp_store k) with
                   | Some l => set_tmp_store l k
                   | None => set_tmp_store (tmp_store k ++ [t]) k
                   end).

(** ** Loading an update *)

(** kvolve_upd_redis_call("client kill id <k>\r\n"): the command is written
    to a buffer of 24 bytes, which holds ids of up to six digits; kvolve sees
    the command first, which has no key of a kvolve command. *)
Definition kill_call (k : Z) : M unit :=
  _ ← lift (require_b OutOfBounds (Nat.leb (15 + length (Util.ll2string_text k) + 2 + 1) 24));
  _ ← createClient 4;
  _ ← kvolve_prevcall_check;
  _ ← log_event (KillClient k);
  modify (fun s => set_stats (set_stat_numcommands (stat_numcommands (stats s) + 1) (stats s)) s).

(** Kills the clients of the entry [ns] until one is left; every turn draws a
    random member, and a draw of the caller is not used. *)
Fixpoint kill_loop (fuel : nat) (ns : sds) : M unit :=
  match fuel with
  | O => throw OutOfFuel
  | S fuel' =>
    l ← gets (fun s => vers_list (kv s));
    tmp ← lift (expect NullDeref (HASH_FIND l ns));
    if length_ (ids tmp) >? 1 then
      r ← draw;
      k ← lift (intsetRandom (ids tmp) r);
      caller ← gets (fun s => loading_id (kv s));
      if k =? caller then kill_loop fuel' ns
      else
        x ← lift (intsetRemove fresh (ids tmp) k);
        _ ← upd_kv (fun st => set_vers_list (upd_vh ns (set_ids (fst x)) (vers_list st)) st);
        _ ← kill_call k;
        kill_loop fuel' ns
    else mret tt
  end.

Fixpoint kill_chain (fuel : nat) (tmp : option sds) : M unit :=
  match fuel with
  | O => throw OutOfFuel
  | S fuel' =>
    match tmp with
    | None => mret tt
    | Some ns =>
      _ ← (s ← get_st; kill_loop (S (length (rnd s))) ns);
      l ← gets (fun s => vers_list (kv s));
      t ← lift (expect NullDeref (HASH_FIND l ns));
      match prev_ns t with
      | Some p => kill_chain fuel' (vh_ns <$> HASH_FIND l p)
      | None => mret tt
      end
    end
  end.

(** The checks of kvolve_upd_spec before anything changes: [None] when the
    update is refused, else the entry to extend ([None]: a new namespace). *)
Definition upd_spec_check (l : list version_hash) (from to : sds) (from_v to_v : Z)
    : outcome (option (option version_hash)) :=
  match HASH_FIND l from with
  | None => mret None
  | Some v =>
    if negb (bool_decide (from = to)) then
      match HASH_FIND l to with
      | Some _ => mret None
      | None => mret (Some None)
      end
    else
      if existsb (Z.eqb to_v) (take (Z.to_nat (num_versions v)) (versions v)) then mret None
      else
        cur ← cur_vers v;
        if bool_decide (prev_ns v = None) && negb (cur =? from_v) then mret None
        else mret (Some (Some v))
  end.

Definition kvolve_upd_spec (from to : sds) (from_v to_v : Z) (fs : list fptr) : M unit :=
  l ← gets (fun s => vers_list (kv s));
  chk ← lift (upd_spec_check l from to from_v to_v);
  match chk with
  | None => mret tt
  | Some vopt =>
    let inf := mkInfo from to from_v to_v fs (Z.of_nat (length fs)) in
    v ← (match vopt with
         | None => kvolve_create_ns None to (Some from) to_v (Some inf)
         | Some v => mret v
         end);
    _ ← (s ← get_st; kill_chain (S (length (vers_list (kv s)))) (Some (vh_ns v)));
    match vopt with
    | None => mret tt
    | Some _ =>
      s ← get_st;
      v ← lift (expect NullDeref (HASH_FIND (vers_list (kv s)) to));
      r ← lift (intsetAdd fresh (ids v) (loading_id (kv s)));
      _ ← upd_kv (fun k => set_vers_list (upd_vh to (set_ids (fst r)) (vers_list k)) k);
      if num_versions v >? Z.of_nat KV_INIT_SZ then mret tt
      else
        vs ← lift (arr_set (versions v) (num_versions v) to_v);
        ifs ← lift (arr_set (info v) (num_versions v) (Some inf));
        upd_kv (fun k => set_vers_list (upd_vh to (fun v =>
          set_num_versions (num_versions v + 1) (set_info ifs (set_versions vs v)))
          (vers_list k)) k)
    end
  end.

(** One call of kvolve_upd_spec in an update file. *)
Record upd_call := mkCall {
  uc_from : sds; uc_to : sds; uc_from_vers : Z; uc_to_vers : Z; uc_funs : list fptr
}.

Section Load.
(** [None]: stat() or dlopen() fails. *)
Context (dlopen : server -> sds -> option (list upd_call)).

Definition kvolve_load_update (c : client) (upd_code : sds) : M unit :=
  _ ← upd_kv (set_loading_id (cl_id c));
  s ← get_st;
  _ ← (match dlopen s upd_code with
       | None => mret tt
       | Some calls =>
         for_each calls (fun u =>
           kvolve_upd_spec (uc_from u) (uc_to u) (uc_from_vers u) (uc_to_vers u) (uc_funs u))
       end);
  upd_kv (set_loading_id 0).
End Load.

(** ** Lookup of the namespace of a key *)

(** [ns] is a prefix of [key] that ends at a colon. *)
Definition ns_of (ns key : sds) : Prop := exists rest, key = ns ++ COLON :: rest.

Lemma HASH_FIND_ns l ns v : HASH_FIND l ns = Some v -> vh_ns v = ns /\ v ∈ l.
Proof.
  unfold HASH_FIND. destruct (list_find _ l) as [[i w]|] eqn:H; simpl; [|done].
  intros [= ->]. apply list_find_Some in H as (H1 & H2 & _).
  split; [done|]. by eapply list_elem_of_lookup_2.
Qed.

Lemma ns_of_split key p q : rsplit COLON key = Some (p, q) -> ns_of p key.
Proof. intros H. apply rsplit_Some in H as (t & -> & -> & _). by exists t. Qed.

(** A proper prefix is the longest one, or a prefix of it. *)
Lemma ns_of_shorter ns key p q :
  rsplit COLON key = Some (p, q) -> ns_of ns key -> ns = p \/ ns_of ns p.
Proof.
  intros H [r Hr]. apply rsplit_Some in H as (t & -> & -> & Ht).
  apply app_eq_inv in Hr as [(k & -> & Hk)|(k & -> & Hk)].
  - destruct k as [|x k]; simpl in Hk; [left; by rewrite app_nil_r|].
    injection Hk as <- Hk. right. by exists k.
  - destruct k as [|x k]; simpl in Hk; [left; by rewrite app_nil_r|].
    injection Hk as <- Hk. exfalso. apply Ht. rewrite Hk. set_solver.
Qed.

Lemma ns_of_elem ns key : ns_of ns key -> COLON ∈ key.
Proof. intros [r ->]. set_solver. Qed.

Lemma lookup_at_longest l fuel : forall key, (length key < fuel)%nat -> COLON ∈ key ->
  match version_hash_lookup_at fuel l key with
  | Some v => HASH_FIND l (vh_ns v) = Some v /\ ns_of (vh_ns v) key /\
              (forall ns w, HASH_FIND l ns = Some w -> ns_of ns key ->
                (length ns <= length (vh_ns v))%nat)
  | None => forall ns, ns_of ns key -> HASH_FIND l ns = None
  end.
Proof.
  induction fuel as [|fuel IH]; intros key Hl Hc; [lia|]. cbn [version_hash_lookup_at].
  destruct (rsplit COLON key) as [[p q]|] eqn:Hk; [|by apply rsplit_None in Hk].
  pose proof (ns_of_split _ _ _ Hk) as Hp. pose proof Hp as [t Ht].
  destruct (HASH_FIND l p) as [v|] eqn:Hf.
  - destruct (HASH_FIND_ns _ _ _ Hf) as [<- _]. split; [done|]. split; [done|].
    intros ns w _ Hn. destruct (ns_of_shorter _ _ _ _ Hk Hn) as [->|[r ->]]; [done|].
    rewrite length_app. lia.
  - assert (Hrec : forall ns, ns_of ns key -> ns = p \/ ns_of ns p)
      by (intros ns; by apply ns_of_shorter with q).
    destruct (rsplit COLON p) as [[p' q']|] eqn:Hp'.
    + assert (length p < length key)%nat by (rewrite Ht, length_app; simpl; lia).
      specialize (IH p ltac:(lia) (ns_of_elem _ _ (ns_of_split _ _ _ Hp'))).
      destruct (version_hash_lookup_at fuel l p) as [v|].
      * destruct IH as (H1 & (r & Hr) & H3). split; [done|]. split.
        { exists (r ++ COLON :: t). rewrite Ht, Hr at 1. rewrite <- app_assoc. done. }
        intros ns w Hw Hn. destruct (Hrec ns Hn) as [->|?]; [congruence|eauto].
      * intros ns Hn. destruct (Hrec ns Hn) as [->|?]; eauto.
    + intros ns Hn. destruct (Hrec ns Hn) as [->|Hc']; [done|].
      apply ns_of_elem in Hc'. by apply rsplit_None in Hp'.
Qed.

Lemma ns_of_same_length a b key :
  ns_of a key -> ns_of b key -> length a = length b -> a = b.
Proof. intros [r Hr] [r' Hr'] Hl. rewrite Hr in Hr'. by apply app_inj_1 in Hr' as [? _]. Qed.

Lemma lookup_unfold l key : l <> [] ->
  kvolve_version_hash_lookup l key = version_hash_lookup_at (S (length (cstr key))) l (cstr key).
Proof. by destruct l. Qed.

Lemma lookup_no_colon l key : COLON ∉ cstr key ->
  kvolve_version_hash_lookup l key = HASH_FIND l (str "*").
Proof.
  intros Hc. destruct l as [|v l]; [done|]. rewrite lookup_unfold by done. cbn [version_hash_lookup_at].
  by rewrite (proj2 (rsplit_None _ _) Hc).
Qed.

Lemma HASH_FIND_nil ns : HASH_FIND [] ns = None.
Proof. done. Qed.

(** C3: kvolve_version_hash_lookup returns, for a key with a namespace, the
    entry of the longest declared namespace that is a prefix of the key up to
    a colon, and nothing else: the answer is a declared entry exactly when it
    has that property. *)
Theorem version_hash_lookup_longest (l : list version_hash) (key : sds) (v : version_hash) :
  COLON ∈ cstr key ->
  kvolve_version_hash_lookup l key = Some v <->
  HASH_FIND l (vh_ns v) = Some v /\ ns_of (vh_ns v) (cstr key) /\
  (forall ns w, HASH_FIND l ns = Some w -> ns_of ns (cstr key) ->
    (length ns <= length (vh_ns v))%nat).
Proof.
  intros Hc. destruct l as [|v0 l0] eqn:El; [split; [done|by intros (? & _)]|].
  rewrite <- El. rewrite lookup_unfold by (by rewrite El).
  pose proof (lookup_at_longest l (S (length (cstr key))) (cstr key) ltac:(lia) Hc) as H.
  destruct (version_hash_lookup_at _ l _) as [w|]; split.
  - by intros [= ->].
  - destruct H as (H1 & H2 & H3). intros (K1 & K2 & K3).
    pose proof (H3 _ _ K1 K2). pose proof (K3 _ _ H1 H2).
    assert (vh_ns v = vh_ns w) as E by (eapply ns_of_same_length; eauto; lia).
    rewrite E in K1. congruence.
  - done.
  - intros (K1 & K2 & _). by rewrite (H _ K2) in K1.
Qed.

Definition demo_vh (ns : string) (prev : option string) (vs : list Z) : version_hash :=
  mkVh (str ns) (str <$> prev) None (vs ++ replicate (KV_INIT_SZ - length vs) 0)
    (replicate KV_INIT_SZ None) (Z.of_nat (length vs)) intsetNew.

Lemma version_hash_lookup_longest_witness :
  kvolve_version_hash_lookup [demo_vh "a" None [1]; demo_vh "a:b" None [2]] (str "a:b:c:d")
    = Some (demo_vh "a:b" None [2]).
Proof.
  apply version_hash_lookup_longest.
  - vm_compute. right; left.
  - split; [reflexivity|]. split; [exists (str "c:d"); reflexivity|].
    intros ns w Hf Hn. apply HASH_FIND_ns in Hf as [<- Hf].
    apply elem_of_cons in Hf as [->|Hf]; [vm_compute; lia|].
    apply elem_of_cons in Hf as [->|Hf]; [vm_compute; lia|].
    apply not_elem_of_nil in Hf. destruct Hf.
Defined.

(** ** Names in the previous namespace *)

Lemma strrchr_colon ns name :
  NUL ∉ ns -> NUL ∉ name -> COLON ∉ name ->
  strrchr (ns ++ COLON :: name) COLON = Some (COLON :: name).
Proof.
  intros H1 H2 H3. unfold strrchr. rewrite cstr_id by (rewrite elem_of_app, elem_of_cons; intros [?|[?|?]]; done).
  rewrite (proj2 (rsplit_Some COLON _ ns (COLON :: name))); [done|]. eauto.
Qed.

Lemma construct_prev_name_ok ns name old :
  NUL ∉ ns -> NUL ∉ name -> COLON ∉ name -> NUL ∉ old ->
  kvolve_construct_prev_name (ns ++ COLON :: name) old = Done (old ++ COLON :: name).
Proof.
  intros. unfold kvolve_construct_prev_name. rewrite strrchr_colon by done. simpl. by rewrite cstr_id.
Qed.

(** The value under the old name, when the search ends after one step. *)
Lemma prev_loop_one s i key v p old fuel :
  prev_ns v = Some p -> kvolve_construct_prev_name key p = Done old ->
  kvolve_version_hash_lookup (vers_list (kv s)) p = None ->
  prev_loop (S (S fuel)) s i key (Some v) =
  Done (match lookupKey s i old with Some a => Some (old, a) | None => None end).
Proof.
  intros Hp Ho Hl. cbn [prev_loop]. rewrite Hp, Ho, bind_Done, Hl. by destruct (lookupKey s i old).
Qed.

Lemma get_db_val_Done s c v p key old :
  str_arg s c 1 key -> prev_ns v = Some p -> kvolve_construct_prev_name key p = Done old ->
  kvolve_version_hash_lookup (vers_list (kv s)) p = None ->
  kvolve_get_db_val c (Some v) s =
  Done (match lookupKey s (cl_db c) key with Some a => Some a | None => lookupKey s (cl_db c) old end, s).
Proof.
  intros Ha Hp Ho Hl. unfold kvolve_get_db_val. rewrite (bind_arg_str _ _ _ _ _ Ha). run.
  destruct (lookupKey s (cl_db c) key); [done|].
  unfold prev_fuel. rewrite (prev_loop_one _ _ _ _ _ _ _ Hp Ho Hl). run.
  by destruct (lookupKey s (cl_db c) old).
Qed.

(** The search stops at the first old name that has a value. *)
Lemma prev_loop_at_once s i key v p old a fuel :
  prev_ns v = Some p -> kvolve_construct_prev_name key p = Done old -> lookupKey s i old = Some a ->
  prev_loop (S fuel) s i key (Some v) = Done (Some (old, a)).
Proof. intros Hp Ho Hl. cbn [prev_loop]. by rewrite Hp, Ho, bind_Done, Hl. Qed.

Lemma get_db_val_old s c v p key old a :
  str_arg s c 1 key -> prev_ns v = Some p -> kvolve_construct_prev_name key p = Done old ->
  lookupKey s (cl_db c) key = None -> lookupKey s (cl_db c) old = Some a ->
  kvolve_get_db_val c (Some v) s = Done (Some a, s).
Proof.
  intros Ha Hp Ho Hl Hlo. unfold kvolve_get_db_val. rewrite (bind_arg_str _ _ _ _ _ Ha). run. rewrite Hl.
  unfold prev_fuel. by rewrite (prev_loop_at_once _ _ _ _ _ _ _ _ Hp Ho Hlo).
Qed.

(** The search reads the keys and the namespaces only, and what it finds is there. *)
Lemma prev_loop_ext s s' i key : (forall k, lookupKey s' i k = lookupKey s i k) -> vers_list (kv s') = vers_list (kv s) ->
  forall fuel t, prev_loop fuel s' i key t = prev_loop fuel s i key t.
Proof.
  intros Hl Hv. induction fuel as [|fuel IH]; intros [t|]; try done. cbn [prev_loop]. destruct (prev_ns t) as [p|]; [|done].
  destruct (kvolve_construct_prev_name key p) as [old|]; [|done]. rewrite !bind_Done, Hl, Hv. by destruct (lookupKey s i old).
Qed.

Lemma prev_loop_found s i key old a : forall fuel t,
  prev_loop fuel s i key t = Done (Some (old, a)) -> lookupKey s i old = Some a.
Proof.
  induction fuel as [|fuel IH]; intros [t|] H; try done. cbn [prev_loop] in H. destruct (prev_ns t) as [p|]; [|done].
  destruct (kvolve_construct_prev_name key p) as [o|]; [|done]. rewrite bind_Done in H.
  destruct (lookupKey s i o) as [a'|] eqn:E; [|by eapply IH]. by injection H as <- <-.
Qed.

Lemma get_db_val_present s c v key a :
  str_arg s c 1 key -> lookupKey s (cl_db c) key = Some a ->
  kvolve_get_db_val c (Some v) s = Done (Some a, s).
Proof.
  intros Ha Hl. unfold kvolve_get_db_val. rewrite (bind_arg_str _ _ _ _ _ Ha). run. by rewrite Hl.
Qed.

(** A namespace without a predecessor: only the key itself is looked at. *)
Lemma get_db_val_root s c v key :
  str_arg s c 1 key -> prev_ns v = None ->
  kvolve_get_db_val c (Some v) s = Done (lookupKey s (cl_db c) key, s).
Proof.
  intros Ha Hp. unfold kvolve_get_db_val. rewrite (bind_arg_str _ _ _ _ _ Ha). run.
  destruct (lookupKey s (cl_db c) key); [done|]. unfold prev_fuel. cbn [prev_loop]. by rewrite Hp.
Qed.

(** The search for a value in older namespaces.  When the namespace of
    the key replaced the namespace [p], and looking [p] itself up as a key
    finds nothing, kvolve_get_db_val returns the value under the key's name
    if there is one, else the value under its name in [p], else NULL, and it
    changes nothing.  Namespaces before [p] are not searched. *)
Theorem get_db_val_one_back (s : server) (c : client) (v : version_hash) (ns name p : sds) :
  str_arg s c 1 (ns ++ COLON :: name) -> NUL ∉ ns ++ name ++ p -> COLON ∉ name ->
  prev_ns v = Some p -> kvolve_version_hash_lookup (vers_list (kv s)) p = None ->
  kvolve_get_db_val c (Some v) s =
  Done (match lookupKey s (cl_db c) (ns ++ COLON :: name) with
        | Some a => Some a
        | None => lookupKey s (cl_db c) (p ++ COLON :: name)
        end, s).
Proof.
  intros Ha Hn Hc Hp Hl. rewrite !not_elem_of_app in Hn. destruct Hn as (? & ? & ?).
  apply get_db_val_Done with p; [done|done|by apply construct_prev_name_ok|done].
Qed.

(** C35: The search of kvolve_get_db_val and kvolve_checkdel_old does not
    terminate when looking up the previous namespace's name as a key leads
    back to the namespace itself (an update from "a:b" to "a" does this) and
    the key is under neither name: no number of turns is enough. *)
Theorem prev_loop_diverges (s : server) (i : nat) (key : sds) (v : version_hash) (p old : sds) :
  prev_ns v = Some p -> kvolve_construct_prev_name key p = Done old ->
  lookupKey s i old = None ->
  kvolve_version_hash_lookup (vers_list (kv s)) p = Some v ->
  forall fuel, prev_loop fuel s i key (Some v) = Fault OutOfFuel.
Proof.
  intros Hp Ho Hk Hl fuel. induction fuel as [|fuel IH]; [done|].
  cbn [prev_loop]. by rewrite Hp, Ho, bind_Done, Hk, Hl.
Qed.

Definition chain_server : server :=
  with_ns [demo_vh "a" None [1]; demo_vh "b" (Some "a") [1; 2]]
    (put_key 0 "a:x" 12 (put_obj 12 (str_obj "val" 1) (put_obj 11 (str_obj "b:x" 0) server0))).

Lemma get_db_val_one_back_witness :
  kvolve_get_db_val (client_of 0 [10; 11]%positive) (Some (demo_vh "b" (Some "a") [1; 2])) chain_server
    = Done (Some 12%positive, chain_server).
Proof.
  apply (get_db_val_one_back chain_server (client_of 0 [10; 11]%positive)
           (demo_vh "b" (Some "a") [1; 2]) (str "b") (str "x") (str "a")).
  - exists 11%positive, (str_obj "b:x" 0). vm_compute. repeat split.
  - apply (bool_decide_unpack _). vm_compute. exact I.
  - apply (bool_decide_unpack _). vm_compute. exact I.
  - reflexivity.
  - vm_compute. reflexivity.
Defined.

Definition loop_server : server :=
  with_ns [demo_vh "a:b" None [1]; demo_vh "a" (Some "a:b") [1; 2]] server0.

Lemma prev_loop_diverges_witness :
  prev_loop 1000 loop_server 0 (str "a:x") (Some (demo_vh "a" (Some "a:b") [1; 2])) = Fault OutOfFuel.
Proof.
  apply (prev_loop_diverges loop_server 0 (str "a:x") _ (str "a:b") (str "a:b:x")); vm_compute; reflexivity.
Defined.

(** ** The table of namespaces *)

Lemma HASH_FIND_cons v l ns :
  HASH_FIND (v :: l) ns = if decide (vh_ns v = ns) then Some v else HASH_FIND l ns.
Proof.
  unfold HASH_FIND. cbn [list_find]. destruct (decide (vh_ns v = ns)); [done|].
  by destruct (list_find _ l) as [[]|].
Qed.

Lemma HASH_FIND_app l1 l2 ns :
  HASH_FIND (l1 ++ l2) ns = match HASH_FIND l1 ns with Some v => Some v | None => HASH_FIND l2 ns end.
Proof.
  induction l1 as [|v l1 IH]; [done|]. cbn [app]. rewrite !HASH_FIND_cons.
  by destruct (decide (vh_ns v = ns)).
Qed.

Lemma upd_vh_cons v l ns f :
  upd_vh ns f (v :: l) = if decide (vh_ns v = ns) then f v :: l else v :: upd_vh ns f l.
Proof.
  unfold upd_vh. cbn [list_find]. destruct (decide (vh_ns v = ns)); [done|].
  by destruct (list_find _ l) as [[]|].
Qed.

Definition keeps_ns (f : version_hash -> version_hash) : Prop := forall v, vh_ns (f v) = vh_ns v.

Lemma HASH_FIND_upd ns f l ns' : keeps_ns f ->
  HASH_FIND (upd_vh ns f l) ns' =
  if decide (ns = ns') then f <$> HASH_FIND l ns else HASH_FIND l ns'.
Proof.
  intros Hf. induction l as [|v l IH].
  - by destruct (decide (ns = ns')).
  - rewrite upd_vh_cons. destruct (decide (vh_ns v = ns)) as [E|E]; rewrite !HASH_FIND_cons.
    + rewrite (Hf v). destruct (decide (ns = ns')) as [->|].
      * by rewrite !decide_True.
      * by rewrite !decide_False by congruence.
    + rewrite IH. destruct (decide (ns = ns')) as [->|]; [by rewrite !decide_False|done].
Qed.

Lemma upd_vh_twice ns f g l : keeps_ns f -> upd_vh ns g (upd_vh ns f l) = upd_vh ns (fun v => g (f v)) l.
Proof.
  intros Hf. induction l as [|v l IH]; [done|]. rewrite !(upd_vh_cons v).
  destruct (decide (vh_ns v = ns)) as [E|E]; rewrite !upd_vh_cons.
  - by rewrite decide_True by (by rewrite Hf).
  - by rewrite decide_False, IH.
Qed.

Lemma upd_vh_id ns f l v : HASH_FIND l ns = Some v -> f v = v -> upd_vh ns f l = l.
Proof.
  induction l as [|w l IH]; [done|]. rewrite HASH_FIND_cons, upd_vh_cons.
  destruct (decide (vh_ns w = ns)); [|by intros ? ?; rewrite IH].
  by intros [= ->] ->.
Qed.

Lemma upd_vh_ext ns f g l v : HASH_FIND l ns = Some v -> f v = g v -> upd_vh ns f l = upd_vh ns g l.
Proof.
  induction l as [|w l IH]; [done|]. rewrite HASH_FIND_cons, !upd_vh_cons.
  destruct (decide (vh_ns w = ns)); [|by intros ? ?; rewrite IH].
  by intros [= ->] ->.
Qed.

(** ** Well-formed entries *)

(** The clients of an entry: distinct ids, few enough for the intset. *)
Definition clients (v : version_hash) (el : list Z) : Prop :=
  repr (ids v) el /\ fits el.

Record wf_vh (v : version_hash) : Prop := {
  wf_versions : length (versions v) = KV_INIT_SZ;
  wf_info : length (info v) = KV_INIT_SZ;
  wf_num : 1 <= num_versions v <= Z.of_nat KV_INIT_SZ
}.

(** The declared versions, oldest first, and the update that led to each. *)
Definition active (v : version_hash) : list Z := take (Z.to_nat (num_versions v)) (versions v).
Definition active_info (v : version_hash) : list (option kvolve_upd_info) :=
  take (Z.to_nat (num_versions v)) (info v).

Lemma arr_get_ok {A} (l : list A) i x : 0 <= i -> l !! Z.to_nat i = Some x -> arr_get l i = Done x.
Proof. intros Hi H. unfold arr_get. rewrite (proj2 (Z.ltb_ge _ _)) by lia. by rewrite H. Qed.

Lemma arr_get_lt {A} (l : list A) i : 0 <= i < Z.of_nat (length l) -> exists x, arr_get l i = Done x.
Proof.
  intros [H1 H2]. destruct (lookup_lt_is_Some_2 l (Z.to_nat i)) as [x Hx]; [lia|].
  exists x. by apply arr_get_ok.
Qed.

Lemma arr_set_ok {A} (l : list A) i x :
  0 <= i < Z.of_nat (length l) -> arr_set l i x = Done (<[Z.to_nat i := x]> l).
Proof.
  intros [H1 H2]. unfold arr_set. rewrite (proj2 (Z.ltb_ge _ _)), (proj2 (Z.leb_gt _ _)) by lia. done.
Qed.

Lemma take_insert_next {A} (l : list A) n x : (n < length l)%nat ->
  take (S n) (<[n := x]> l) = take n l ++ [x].
Proof.
  intros H. rewrite take_S_r with (x := x) by (by apply list_lookup_insert_eq).
  by rewrite take_insert_ge.
Qed.

Lemma copy_loop_ok {A} (src : list A) n : forall i dst,
  (i + n <= length src)%nat -> (i + n <= length dst)%nat ->
  exists d, copy_loop n i src dst = Done d /\ length d = length dst /\
    take i d = take i dst /\ take n (drop i d) = take n (drop i src).
Proof.
  induction n as [|n IH]; intros i dst H1 H2; [by exists dst|].
  cbn [copy_loop]. destruct (lookup_lt_is_Some_2 src i) as [x Hx]; [lia|].
  rewrite (arr_get_ok src _ x) by (rewrite ?Nat2Z.id; (done || lia)). rewrite bind_Done.
  rewrite arr_set_ok, bind_Done, Nat2Z.id by lia.
  destruct (IH (S i) (<[i := x]> dst)) as (d & -> & Hl & Ht & Hd); [lia|rewrite length_insert; lia|].
  rewrite length_insert in Hl. exists d. split; [done|]. split; [done|].
  rewrite take_insert_next in Ht by lia.
  assert (Hdi : d !! i = Some x).
  { assert (take (S i) d !! i = Some x) as E.
    { rewrite Ht, lookup_app_r, length_take, Nat.min_l, Nat.sub_diag by (rewrite ?length_take; lia). done. }
    by rewrite lookup_take_lt in E by lia. }
  split.
  - apply (f_equal (take i)) in Ht. rewrite take_take, Nat.min_l in Ht by lia.
    rewrite Ht, take_app_le by (rewrite length_take; lia). rewrite take_take. f_equal. lia.
  - rewrite (drop_S d x i Hdi), (drop_S src x i Hx). cbn [take]. by rewrite Hd.
Qed.

(** ** Disconnecting the clients of an old version *)

(** What the kill loop may change: the ids of the entry, the log of killed
    clients, and counters. *)
Record killed (ns : sds) (ks : list Z) (i' : intset) (s s' : server) : Prop := {
  killed_kv : kv s' = set_vers_list (upd_vh ns (set_ids i') (vers_list (kv s))) (kv s);
  killed_events : events s' = events s ++ map KillClient ks;
  killed_heap : heap s' = heap s;
  killed_dbs : dbs s' = dbs s
}.

(** No announced key is in the database: the state that kvolve_prevcall_check
    leaves behind, and in which it does nothing. *)
Definition settled (s : server) : Prop :=
  Forall (fun t => lookupKey s (tv_prev_db t) (tv_key t) = None) (tmp_store (kv s)).

Lemma settled_ext s s' : dbs s' = dbs s -> tmp_store (kv s') = tmp_store (kv s) -> settled s -> settled s'.
Proof. unfold settled, lookupKey, get_db. by intros -> ->. Qed.

Lemma prevcall_loop_settled s ts :
  Forall (fun t => lookupKey s (tv_prev_db t) (tv_key t) = None) ts -> prevcall_loop ts s = Done (ts, s).
Proof.
  induction 1 as [|t ts Ht _ IH]; cbn [prevcall_loop]; [done|]. by rewrite bind_get_st, Ht, (prog_bind_step _ _ _ _ _ IH).
Qed.

Lemma prevcall_check_settled s : settled s -> kvolve_prevcall_check s = Done (tt, s).
Proof.
  intros H. unfold kvolve_prevcall_check. rewrite bind_gets. destruct (tmp_store (kv s)) as [|t ts] eqn:E; [done|].
  rewrite <- E, (prog_bind_step _ _ _ _ _ (prevcall_loop_settled _ _ H)). unfold upd_kv. cbn. do 2 f_equal. destruct s as [??????????[]]. done.
Qed.

Lemma kill_call_inv k s s' : settled s -> kill_call k s = Done (tt, s') ->
  kv s' = kv s /\ events s' = events s ++ [KillClient k] /\ heap s' = heap s /\ dbs s' = dbs s.
Proof.
  intros Ht H. unfold kill_call in H. apply prog_bind_inv in H as ([] & s1 & H1 & H).
  unfold lift, require_b in H1. destruct (Nat.leb _ _); [|done]. injection H1 as <-.
  unfold createClient in H. apply prog_bind_inv in H as (c & s1 & [= <- <-] & H).
  apply prog_bind_inv in H as ([] & s2 & H2 & H).
  rewrite prevcall_check_settled in H2 by done. injection H2 as <-.
  apply prog_bind_inv in H as ([] & s2 & [= <-] & [= <-]). done.
Qed.

Lemma set_ids_keeps i : keeps_ns (set_ids i).
Proof. done. Qed.

Lemma repr_NoDup s l : repr s l -> NoDup l.
Proof.
  intros [_ _ _ _ Hs]. induction Hs as [|x l Hs IH Hx]; constructor; [|done].
  intros Hin. pose proof (proj1 (Forall_forall _ _) Hx _ Hin). simpl in *. lia.
Qed.

(** Removal of a member, as a permutation. *)
Lemma remove_perm s el k : repr s el -> fits el -> k ∈ el -> in_s 64 k ->
  exists s' el', intsetRemove fresh s k = Done (s', true) /\ repr s' el' /\ el ≡ₚ k :: el'.
Proof.
  intros Hr Hf Hk H64. destruct (remove_ok fresh s el k Hr Hf H64) as (s' & el' & ok & -> & Hr' & Hok & Hel).
  rewrite (proj2 Hok Hk). exists s', el'. split; [done|]. split; [done|].
  apply NoDup_Permutation; [by eapply repr_NoDup| |].
  - constructor; [|by eapply repr_NoDup]. rewrite Hel. naive_solver.
  - intros x. rewrite elem_of_cons, Hel. destruct (decide (x = k)); naive_solver.
Qed.

Lemma perm_fits l l' k : l ≡ₚ k :: l' -> fits l -> fits l'.
Proof. intros H. unfold fits. rewrite H. simpl. lia. Qed.

Lemma repr_in_64 s el k : repr s el -> k ∈ el -> in_s 64 k.
Proof.
  intros [He _ _ Hr _] Hk. assert (0 < 8 * encoding s <= 64) by (destruct He as [E|[E|E]]; rewrite E; lia).
  apply (in_s_mono (8 * encoding s)); [lia|lia|]. by eapply (proj1 (Forall_forall _ _) Hr).
Qed.

Lemma kill_loop_inv fuel ns : forall s s' v el,
  HASH_FIND (vers_list (kv s)) ns = Some v -> clients v el -> settled s ->
  kill_loop fuel ns s = Done (tt, s') ->
  exists ks el' i', killed ns ks i' s s' /\ repr i' el' /\ el ≡ₚ ks ++ el' /\
    (length el' <= 1)%nat /\ (el = [] \/ el' <> []) /\ loading_id (kv s) ∉ ks.
Proof.
  induction fuel as [|fuel IH]; intros s s' v el Hf [Hr Hfit] Ht H; [done|].
  cbn [kill_loop] in H. rewrite bind_gets, Hf in H. cbn [expect] in H. rewrite bind_lift in H.
  pose proof (repr_len _ _ Hr) as Hlen. rewrite Z.gtb_ltb in H.
  destruct (Z.ltb_spec 1 (length_ (ids v))) as [Hl|Hl].
  2:{ injection H as <-. exists [], el, (ids v). split; [|split; [done|]; split; [done|]].
      - split; rewrite ?app_nil_r; try done. rewrite (upd_vh_id _ _ _ v); [by destruct (kv s)|done|by destruct v].
      - split; [lia|]. split; [destruct el; [by left|by right]|set_solver]. }
  apply prog_bind_inv in H as (r & s1 & H1 & H). unfold draw in H1.
  destruct (rnd s) as [|r0 rest] eqn:Hrnd; [done|]. injection H1 as <- <-.
  destruct (random_member (ids v) el r0 Hr) as (k & Hk & Hin); [destruct el; simpl in *; [lia|done]|].
  rewrite Hk in H. rewrite bind_lift, bind_gets in H. cbn [kv set_rnd] in H.
  destruct (Z.eqb_spec k (loading_id (kv s))) as [E|E].
  - destruct (IH (set_rnd rest s) s' v el Hf ltac:(done) Ht H) as (ks & el' & i' & [K1 K2 K3 K4] & Hrest).
    exists ks, el', i'. split; [by split|done].
  - destruct (remove_perm (ids v) el k Hr Hfit Hin (repr_in_64 _ _ _ Hr Hin)) as (i1 & el1 & Hrem & Hr1 & Hp).
    rewrite Hrem in H. rewrite bind_lift in H. unfold upd_kv in H. rewrite bind_modify in H.
    apply prog_bind_inv in H as ([] & s1 & H1 & H). apply kill_call_inv in H1 as (Hk1 & Hk2 & Hk3 & Hk4); [|done].
    cbn [fst kv set_kv set_rnd vers_list events heap dbs] in *.
    destruct (IH s1 s' (set_ids i1 v) el1) as (ks & el' & i' & [K1 K2 K3 K4] & Hr' & Hp' & Hlen' & Hne & Hc).
    { rewrite Hk1. cbn [vers_list set_vers_list]. rewrite HASH_FIND_upd by apply set_ids_keeps. by rewrite decide_True, Hf. }
    { split; [done|]. by eapply perm_fits. } { eapply settled_ext; [exact Hk4|by rewrite Hk1|done]. } { done. }
    rewrite Hk1 in K1, Hc. exists (k :: ks), el', i'. split; [|split; [done|]; split].
    + split; [|by rewrite K2, Hk2, <- app_assoc|by rewrite K3|by rewrite K4].
      rewrite K1. cbn [vers_list set_vers_list tmp_store upd_fun_running loading_id].
      by rewrite upd_vh_twice by apply set_ids_keeps.
    + rewrite Hp. cbn. by rewrite Hp'.
    + split; [done|]. split; [|set_solver]. destruct Hne as [->|]; [|by right].
      exfalso. apply Permutation_length in Hp. simpl in Hp. lia.
Qed.

Definition after_kill (k : Z) (s : server) : server :=
  let s := set_next_client_id (next_client_id s + 1) s in
  let s := set_events (events s ++ [KillClient k]) s in
  set_stats (set_stat_numcommands (stat_numcommands (stats s) + 1) (stats s)) s.

Lemma kill_call_Done k s : settled s -> (length (Util.ll2string_text k) <= 6)%nat ->
  kill_call k s = Done (tt, after_kill k s).
Proof.
  intros Ht Hk. unfold kill_call. rewrite (proj2 (Nat.leb_le _ _)) by lia.
  cbn [require_b]. run. erewrite prog_bind_step by reflexivity.
  erewrite prog_bind_step by (by apply prevcall_check_settled).
  erewrite prog_bind_step by reflexivity. reflexivity.
Qed.

Lemma get_index s el p k : repr s el -> el !! p = Some k -> intsetRandom s (Z.of_nat p) = Done k.
Proof.
  intros Hr Hp. pose proof (repr_len _ _ Hr). pose proof (lookup_lt_Some _ _ _ Hp). unfold intsetRandom.
  rewrite (proj2 (Z.eqb_neq _ _)) by lia. rewrite Z.mod_small by lia. by apply (get_lookup s el).
Qed.

Lemma other_member (el : list Z) (x : Z) : NoDup el -> (1 < length el)%nat ->
  exists p k, el !! p = Some k /\ k <> x.
Proof.
  intros Hnd Hl. destruct el as [|a [|b el]]; simpl in Hl; [lia|lia|].
  apply NoDup_cons in Hnd as [Hab _]. destruct (decide (a = x)) as [->|]; [|by exists 0%nat, a].
  exists 1%nat, b. split; [done|]. set_solver.
Qed.

(** The loop ends, for suitable random numbers. *)
Lemma kill_loop_ends ns n : forall s v el,
  length el = n -> HASH_FIND (vers_list (kv s)) ns = Some v -> clients v el -> settled s ->
  Forall (fun k => (length (Util.ll2string_text k) <= 6)%nat) el ->
  exists rs, forall rest fuel, (length rs < fuel)%nat ->
    exists s', kill_loop fuel ns (set_rnd (rs ++ rest) s) = Done (tt, s').
Proof.
  induction n as [n IH] using lt_wf_ind; intros s v el Hn Hf [Hr Hfit] Ht Hd.
  pose proof (repr_len _ _ Hr) as Hlen. destruct (decide (1 < n)%nat) as [Hgt|Hle].
  2:{ exists []. intros rest [|fuel] Hfu; [simpl in Hfu; lia|]. eexists. cbn [kill_loop]. rewrite bind_gets.
      cbn [kv set_rnd]. rewrite Hf. cbn [expect]. rewrite bind_lift, Z.gtb_ltb.
      rewrite (proj2 (Z.ltb_ge _ _)) by lia. reflexivity. }
  destruct (other_member el (loading_id (kv s))) as (p & k & Hp & Hk); [by eapply repr_NoDup|lia|].
  assert (Hin : k ∈ el) by (by eapply list_elem_of_lookup_2).
  destruct (remove_perm (ids v) el k Hr Hfit Hin (repr_in_64 _ _ _ Hr Hin)) as (i1 & el1 & Hrem & Hr1 & Hperm).
  set (s1 := after_kill k (set_kv (set_vers_list (upd_vh ns (set_ids i1) (vers_list (kv s))) (kv s)) s)).
  destruct (IH (length el1)) with (s := s1) (v := set_ids i1 v) (el := el1) as (rs & Hrs).
  { apply Permutation_length in Hperm. simpl in Hperm. lia. } { done. }
  { subst s1. cbn [kv after_kill set_kv set_next_client_id set_events set_stats vers_list set_vers_list].
    rewrite HASH_FIND_upd by apply set_ids_keeps. by rewrite decide_True, Hf. }
  { split; [done|]. by eapply perm_fits. } { done. }
  { rewrite Hperm in Hd. by apply Forall_cons in Hd as [_ ?]. }
  exists (Z.of_nat p :: rs). intros rest [|fuel] Hfu; [simpl in Hfu; lia|]. cbn [kill_loop]. rewrite bind_gets.
  cbn [kv set_rnd]. rewrite Hf. cbn [expect]. rewrite bind_lift, Z.gtb_ltb.
  rewrite (proj2 (Z.ltb_lt _ _)) by lia. erewrite prog_bind_step by reflexivity.
  rewrite (get_index _ _ _ _ Hr Hp), bind_lift, bind_gets. cbn [kv set_rnd app].
  rewrite (proj2 (Z.eqb_neq _ _)) by done. rewrite Hrem, bind_lift. unfold upd_kv. rewrite bind_modify.
  erewrite prog_bind_step; [|apply kill_call_Done; [done|]].
  - apply (Hrs rest fuel). simpl in Hfu. lia.
  - by apply (proj1 (Forall_forall _ _) Hd).
Qed.

(** C38: Loading an update disconnects every client that is connected at the
    old version of a namespace, except the one that loads the update, which is
    one of them: when the loop of kvolve_upd_spec ends, for whatever random
    choices, each of the other clients was killed exactly once, the loading
    client was not, and it is the only one left in the entry; and the loop can
    end.  Nothing stored is touched.  The ids have at most six digits (longer
    ones overflow the command buffer: see kill_call), and the announcements that
    are pending are of keys that do not exist, as the hook ensures
    (prevcall_check_settles). *)
Theorem kill_loop_correct (ns : sds) (s : server) (v : version_hash) (el : list Z) :
  HASH_FIND (vers_list (kv s)) ns = Some v -> clients v el -> loading_id (kv s) ∈ el ->
  settled s -> Forall (fun k => (length (Util.ll2string_text k) <= 6)%nat) el ->
  (exists rs s', kill_loop (S (length rs)) ns (set_rnd rs s) = Done (tt, s')) /\
  (forall fuel s', kill_loop fuel ns s = Done (tt, s') ->
    exists ks i', el ≡ₚ loading_id (kv s) :: ks /\ repr i' [loading_id (kv s)] /\
      events s' = events s ++ map KillClient ks /\
      vers_list (kv s') = upd_vh ns (set_ids i') (vers_list (kv s)) /\
      heap s' = heap s /\ dbs s' = dbs s).
Proof.
  intros Hf Hc Hin Ht Hd. split.
  - destruct (kill_loop_ends ns _ s v el eq_refl Hf Hc Ht Hd) as (rs & Hrs).
    destruct (Hrs [] (S (length rs))) as [s' Hs']; [lia|]. rewrite app_nil_r in Hs'. eauto.
  - intros fuel s' H.
    destruct (kill_loop_inv fuel ns s s' v el Hf Hc Ht H) as (ks & el' & i' & [K1 K2 K3 K4] & Hr & Hp & Hl & _ & Hk).
    assert (el' = [loading_id (kv s)]) as ->.
    { rewrite Hp in Hin. destruct el' as [|a [|]]; simpl in Hl; [set_solver| |lia]. set_solver. }
    exists ks, i'. rewrite Hp, K1. split; [|done]. by rewrite Permutation_app_comm.
Qed.

Definition three_clients : intset := mkIntset 2 3 (le_bytes 2 3 ++ le_bytes 2 7 ++ le_bytes 2 12).

Definition connected_server : server :=
  let s := with_ns [set_ids three_clients (demo_vh "a" None [1])] server0 in
  set_kv (set_loading_id 7 (kv s)) s.

Lemma kill_loop_correct_witness :
  exists rs s', kill_loop (S (length rs)) (str "a") (set_rnd rs connected_server) = Done (tt, s').
Proof.
  apply (kill_loop_correct (str "a") connected_server (set_ids three_clients (demo_vh "a" None [1])) [3; 7; 12]).
  - vm_compute. reflexivity.
  - split; [|vm_compute; reflexivity]. split.
    + left. reflexivity.
    + reflexivity.
    + reflexivity.
    + repeat constructor; vm_compute; intuition congruence.
    + repeat constructor; reflexivity.
  - vm_compute. right; left.
  - constructor.
  - repeat constructor; vm_compute; lia.
Defined.

(** ** Loading an update *)

(** Every entry is well-formed. *)
Definition kv_ok (l : list version_hash) : Prop :=
  Forall (fun v => wf_vh v /\ exists el, clients v el) l.

(** The tables differ only in that entries may have lost clients. *)
Definition fewer_clients (l l' : list version_hash) : Prop :=
  Forall2 (fun v v' => exists i, v' = set_ids i v /\ length_ i <= length_ (ids v)) l l'.

Lemma fewer_clients_refl l : fewer_clients l l.
Proof. apply Forall_Forall2_diag, Forall_true. intros v. exists (ids v). by destruct v. Qed.

Lemma fewer_clients_trans l1 l2 l3 : fewer_clients l1 l2 -> fewer_clients l2 l3 -> fewer_clients l1 l3.
Proof.
  intros H1. revert l3. induction H1 as [|v w l1 l2 [i [-> Hi]] _ IH]; intros l3 H2;
    inversion H2 as [|? x ? ? [j [Hj Hl]] ?]; subst; constructor; [|by apply IH].
  exists j. cbn [ids set_ids] in Hl. split; [done|lia].
Qed.

Lemma fewer_clients_upd ns i l v :
  HASH_FIND l ns = Some v -> length_ i <= length_ (ids v) -> fewer_clients l (upd_vh ns (set_ids i) l).
Proof.
  induction l as [|w l IH]; [done|]. rewrite HASH_FIND_cons, upd_vh_cons.
  destruct (decide (vh_ns w = ns)); intros Hf Hi; (constructor; [|first [by apply IH|apply fewer_clients_refl]]).
  - injection Hf as ->. by exists i.
  - exists (ids w). by destruct w.
Qed.

Lemma fewer_clients_find l l' ns :
  fewer_clients l l' ->
  match HASH_FIND l ns with
  | Some v => exists i, HASH_FIND l' ns = Some (set_ids i v) /\ length_ i <= length_ (ids v)
  | None => HASH_FIND l' ns = None
  end.
Proof.
  induction 1 as [|v v' l l' [i [-> Hi]] _ IH]; [done|]. rewrite !HASH_FIND_cons. cbn [vh_ns set_ids].
  destruct (decide (vh_ns v = ns)); [by exists i|done].
Qed.

Lemma kv_ok_find l ns v : kv_ok l -> HASH_FIND l ns = Some v -> wf_vh v /\ exists el, clients v el.
Proof. intros Hk Hf. apply HASH_FIND_ns in Hf as [_ Hin]. by apply (proj1 (Forall_forall _ _) Hk). Qed.

Lemma kv_ok_upd ns f l :
  kv_ok l -> (forall v, HASH_FIND l ns = Some v -> wf_vh (f v) /\ exists el, clients (f v) el) ->
  kv_ok (upd_vh ns f l).
Proof.
  intros Hk Hf. induction l as [|v l IH]; [done|]. rewrite upd_vh_cons. apply Forall_cons in Hk as [Hv Hk].
  pose proof (Hf v) as Hv'. rewrite HASH_FIND_cons in Hv'.
  destruct (decide (vh_ns v = ns)); (constructor; [auto|]); [done|]. apply IH; [done|].
  intros w Hw. apply Hf. by rewrite HASH_FIND_cons, decide_False.
Qed.

(** What the kill loops keep. *)
Record keeps (s s' : server) : Prop := {
  keeps_ok : kv_ok (vers_list (kv s'));
  keeps_fewer : fewer_clients (vers_list (kv s)) (vers_list (kv s'));
  keeps_tmp : tmp_store (kv s') = tmp_store (kv s);
  keeps_loading : loading_id (kv s') = loading_id (kv s);
  keeps_heap : heap s' = heap s;
  keeps_dbs : dbs s' = dbs s
}.

Lemma kept_trans s1 s2 s3 : keeps s1 s2 -> keeps s2 s3 -> keeps s1 s3.
Proof. intros [] []. split; try congruence. by eapply fewer_clients_trans. Qed.

Lemma kill_loop_keeps fuel ns s s' :
  kv_ok (vers_list (kv s)) -> settled s -> kill_loop fuel ns s = Done (tt, s') ->
  keeps s s' /\ exists v', HASH_FIND (vers_list (kv s')) ns = Some v' /\ length_ (ids v') <= 1.
Proof.
  intros Hk Ht H. destruct fuel as [|fuel]; [done|].
  destruct (HASH_FIND (vers_list (kv s)) ns) as [v|] eqn:Hf.
  2:{ cbn [kill_loop] in H. rewrite bind_gets, Hf in H. done. }
  destruct (kv_ok_find _ _ _ Hk Hf) as [Hw [el Hc]].
  destruct (kill_loop_inv (S fuel) ns s s' v el Hf Hc Ht H) as (ks & el' & i' & [K1 K2 K3 K4] & Hr & Hp & Hl & _).
  destruct Hc as [Hrv Hc]. pose proof (repr_len _ _ Hr). pose proof (repr_len _ _ Hrv).
  rewrite Hp, length_app in *.
  split; [split; try done; rewrite K1; try done; cbn [vers_list set_vers_list]|].
  - apply kv_ok_upd; [done|]. intros w Hw'. rewrite Hf in Hw'. injection Hw' as <-. split; [by destruct Hw|].
    exists el'. split; [done|]. unfold fits in *. rewrite Hp, length_app in Hc. lia.
  - eapply fewer_clients_upd; [done|]. lia.
  - rewrite K1. cbn [vers_list set_vers_list]. rewrite HASH_FIND_upd, decide_True, Hf by done.
    eexists. split; [reflexivity|]. cbn. lia.
Qed.

Lemma kill_chain_keeps fuel : forall tmp s s',
  kv_ok (vers_list (kv s)) -> settled s -> kill_chain fuel tmp s = Done (tt, s') ->
  keeps s s' /\ forall ns, tmp = Some ns ->
    exists v', HASH_FIND (vers_list (kv s')) ns = Some v' /\ length_ (ids v') <= 1.
Proof.
  induction fuel as [|fuel IH]; intros tmp s s' Hk Ht H; [done|]. cbn [kill_chain] in H.
  destruct tmp as [ns|]; [|injection H as <-; split; [by split; try done; apply fewer_clients_refl|done]].
  apply prog_bind_inv in H as ([] & s1 & H1 & H). rewrite bind_get_st in H1.
  apply kill_loop_keeps in H1 as (A & v1 & Hv1 & Hl1); [|done|done].
  rewrite bind_gets in H. apply prog_bind_inv in H as (t & s2 & H2 & H).
  unfold lift in H2. rewrite Hv1 in H2. injection H2 as <- <-. destruct (prev_ns v1) as [p|].
  - apply IH in H as [B _]; [|apply A|eapply settled_ext; [apply A|apply A|done]].
    split; [by eapply kept_trans|]. intros ? [= <-]. pose proof (fewer_clients_find _ _ ns (keeps_fewer _ _ B)) as Hfc.
    rewrite Hv1 in Hfc. destruct Hfc as (i & ? & ?). eexists. split; [done|]. cbn. lia.
  - injection H as <-. split; [done|]. intros ? [= <-]. eauto.
Qed.

Lemma arr_set_inv {A} (l l' : list A) i x :
  arr_set l i x = Done l' -> 0 <= i < Z.of_nat (length l) /\ l' = <[Z.to_nat i := x]> l.
Proof.
  unfold arr_set. destruct (Z.ltb_spec i 0); [done|]. destruct (Z.leb_spec (Z.of_nat (length l)) i); [done|].
  intros [= <-]. done.
Qed.

(** [extends v v' x inf]: [v'] has one more version than [v], the version
    [x], reached by [inf]. *)
Definition extends (v v' : version_hash) (x : Z) (inf : option kvolve_upd_info) : Prop :=
  active v' = active v ++ [x] /\ active_info v' = active_info v ++ [inf].

Lemma add_length s (el el' : list Z) k :
  repr s el' -> (forall x, x ∈ el' <-> x = k \/ x ∈ el) -> (length el' <= S (length el))%nat.
Proof.
  intros Hr Hel. change (S (length el)) with (length (k :: el)).
  apply submseteq_length, NoDup_submseteq; [by eapply repr_NoDup|]. intros x Hx. apply Hel in Hx. set_solver.
Qed.

Lemma new_client_ids id l : match id with Some k => in_s 64 k | None => True end ->
  (match id with
   | Some k => r ← intsetAdd fresh intsetNew k; mret (fst r)
   | None => mret intsetNew
   end) = Done l -> exists el, repr l el /\ fits el.
Proof.
  destruct id as [k|]; simpl.
  - intros Hk. destruct (add_ok fresh intsetNew [] k new_repr) as (i & el & ok & -> & Hr & _ & Hel); [done|done|].
    rewrite bind_Done. intros [= <-]. exists el. split; [done|].
    pose proof (add_length _ _ _ _ Hr Hel). unfold fits. simpl in *. lia.
  - intros _ [= <-]. exists []. split; [apply new_repr|done].
Qed.

Lemma new_ns_from l ns p v x inf id v' :
  HASH_FIND l p = Some v -> wf_vh v -> match id with Some k => in_s 64 k | None => True end ->
  kvolve_new_ns l ns (Some p) x inf id = Done v' ->
  wf_vh v' /\ (exists el, clients v' el) /\ extends v v' x inf /\
  vh_ns v' = ns /\ prev_ns v' = Some p /\ next_ns v' = None.
Proof.
  intros Hf [Hv Hi Hn] Hid H. unfold kvolve_new_ns in H.
  apply bind_Done_inv in H as ([[n vs] ifs] & Ha & H). rewrite Hf in Ha. cbn [expect] in Ha.
  rewrite bind_Done in Ha. apply bind_Done_inv in H as (i & Hids & [= <-]).
  set (m := Z.to_nat (num_versions v)) in *.
  destruct (copy_loop_ok (versions v) m 0 (replicate KV_INIT_SZ 0)) as (d1 & E1 & L1 & _ & D1);
    [unfold KV_INIT_SZ in *; rewrite ?length_replicate; lia..|].
  destruct (copy_loop_ok (info v) m 0 (replicate KV_INIT_SZ None)) as (d2 & E2 & L2 & _ & D2);
    [unfold KV_INIT_SZ in *; rewrite ?length_replicate; lia..|].
  rewrite E1, bind_Done, E2, bind_Done in Ha. rewrite length_replicate in L1. rewrite length_replicate in L2. rewrite !drop_0 in D1. rewrite !drop_0 in D2.
  apply bind_Done_inv in Ha as (v1 & S1 & Ha). apply bind_Done_inv in Ha as (v2 & S2 & [= <- <- <-]).
  apply arr_set_inv in S1 as [R1 ->]. apply arr_set_inv in S2 as [R2 ->].
  split; [split; cbn [versions info num_versions]; rewrite ?length_insert; unfold KV_INIT_SZ in *; lia|].
  split; [by apply new_client_ids with id|]. split; [|done].
  unfold extends, active, active_info. cbn [versions info num_versions].
  replace (Z.to_nat (1 + num_versions v)) with (S m) by lia. fold m.
  rewrite !take_insert_next by lia. by rewrite D1, D2.
Qed.

Lemma set_next_ns_keeps n : keeps_ns (set_next_ns n).
Proof. done. Qed.

Definition info_of (from to : sds) (from_v to_v : Z) (fs : list fptr) : kvolve_upd_info :=
  mkInfo from to from_v to_v fs (Z.of_nat (length fs)).

(** The entry of a namespace gets one more version, in place. *)
Lemma append_version v i vs ifs x inf el :
  wf_vh v -> repr i el -> fits el ->
  arr_set (versions v) (num_versions v) x = Done vs -> arr_set (info v) (num_versions v) inf = Done ifs ->
  let v' := set_num_versions (num_versions v + 1) (set_info ifs (set_versions vs (set_ids i v))) in
  (wf_vh v' /\ exists el', clients v' el') /\ extends v v' x inf.
Proof.
  intros [Hv Hi Hn] Hr Hf E1 E2 v'. apply arr_set_inv in E1 as [R1 ->]. apply arr_set_inv in E2 as [R2 ->].
  split; [split; [|by exists el]|].
  - split; cbn; rewrite ?length_insert; lia.
  - unfold extends, active, active_info. subst v'. cbn [versions info num_versions set_num_versions set_info set_versions set_ids].
    replace (Z.to_nat (num_versions v + 1)) with (S (Z.to_nat (num_versions v))) by lia.
    by rewrite !take_insert_next by lia.
Qed.

Lemma upd_spec_same_inv ns from_v to_v fs s s' v :
  kv_ok (vers_list (kv s)) -> settled s -> in_s 64 (loading_id (kv s)) ->
  HASH_FIND (vers_list (kv s)) ns = Some v ->
  upd_spec_check (vers_list (kv s)) ns ns from_v to_v = Done (Some (Some v)) ->
  kvolve_upd_spec ns ns from_v to_v fs s = Done (tt, s') ->
  kv_ok (vers_list (kv s')) /\ heap s' = heap s /\ dbs s' = dbs s /\
  exists v', HASH_FIND (vers_list (kv s')) ns = Some v' /\
    extends v v' to_v (Some (info_of ns ns from_v to_v fs)).
Proof.
  intros Hk Ht Hl Hf Hc H. unfold kvolve_upd_spec in H. rewrite bind_gets, Hc, bind_lift, bind_mret in H.
  apply prog_bind_inv in H as ([] & s1 & H1 & H). rewrite bind_get_st in H1.
  destruct (HASH_FIND_ns _ _ _ Hf) as [Hns _]. rewrite Hns in H1.
  apply kill_chain_keeps in H1 as ([A1 A2 A3 A4 A5 A6] & HL); [|done|done].
  destruct (HL ns eq_refl) as (v1 & Hv1 & Hl1). rewrite bind_get_st, Hv1 in H. cbn [expect] in H. rewrite bind_lift in H.
  pose proof (fewer_clients_find _ _ ns A2) as Hfc. rewrite Hf in Hfc. destruct Hfc as (i & Hi & _).
  rewrite Hv1 in Hi. injection Hi as ->.
  destruct (kv_ok_find _ _ _ A1 Hv1) as [Hw [el [Hr Hfit]]]. rewrite <- A4 in Hl.
  destruct (add_ok fresh _ el _ Hr Hfit Hl) as (i2 & el2 & ok & E & Hr2 & _ & Hel2).
  rewrite E, bind_lift in H. unfold upd_kv in H. rewrite bind_modify in H. pose proof (wf_num _ Hw).
  rewrite Z.gtb_ltb, (proj2 (Z.ltb_ge _ _)) in H by lia.
  apply prog_bind_inv in H as (vs & s2 & S1 & H). apply prog_bind_inv in H as (ifs & s3 & S2 & H).
  unfold lift in S1, S2. destruct (arr_set (versions _) _ _) as [vs'|] eqn:E1; [|done]. injection S1 as <- <-.
  destruct (arr_set (info _) _ _) as [ifs'|] eqn:E2; [|done]. injection S2 as <- <-. injection H as <-.
  cbn [heap dbs kv set_kv vers_list set_vers_list fst]. rewrite upd_vh_twice by done.
  pose proof (add_length _ _ _ _ Hr2 Hel2). pose proof (repr_len _ _ Hr).
  destruct (append_version _ i2 _ _ _ _ el2 Hw Hr2 ltac:(unfold fits; cbn in *; lia) E1 E2) as [Hok Hx].
  split; [|split; [done|]; split; [done|]].
  - apply kv_ok_upd; [done|]. intros w Hw'. rewrite Hv1 in Hw'. injection Hw' as <-. exact Hok.
  - rewrite HASH_FIND_upd, decide_True, Hv1 by done. eexists. split; [reflexivity|exact Hx].
Qed.

Lemma upd_spec_new_inv from to from_v to_v fs s s' v :
  kv_ok (vers_list (kv s)) -> settled s -> in_s 64 (loading_id (kv s)) ->
  HASH_FIND (vers_list (kv s)) from = Some v -> HASH_FIND (vers_list (kv s)) to = None -> from <> to ->
  upd_spec_check (vers_list (kv s)) from to from_v to_v = Done (Some None) ->
  kvolve_upd_spec from to from_v to_v fs s = Done (tt, s') ->
  kv_ok (vers_list (kv s')) /\ heap s' = heap s /\ dbs s' = dbs s /\
  exists v' w, HASH_FIND (vers_list (kv s')) to = Some v' /\
    extends v v' to_v (Some (info_of from to from_v to_v fs)) /\
    prev_ns v' = Some from /\ next_ns v' = None /\
    HASH_FIND (vers_list (kv s')) from = Some w /\ next_ns w = Some to.
Proof.
  intros Hk Ht Hl Hf Hto Hne Hc H. unfold kvolve_upd_spec in H. rewrite bind_gets, Hc, bind_lift in H.
  apply prog_bind_inv in H as (v' & s1 & Hcr & H). unfold kvolve_create_ns in Hcr. rewrite bind_get_st in Hcr.
  apply prog_bind_inv in Hcr as (v1 & s2 & Hn & Hcr). unfold lift in Hn.
  destruct (kvolve_new_ns _ _ _ _ _ _) as [v2|] eqn:Hnew; [|done]. injection Hn as <- <-.
  unfold upd_kv in Hcr. rewrite bind_modify in Hcr. injection Hcr as <- <-.
  destruct (kv_ok_find _ _ _ Hk Hf) as [Hw Hcl].
  assert (Hid : match (if loading_id (kv s) =? 0 then None else Some (loading_id (kv s)))
                with Some k => in_s 64 k | None => True end) by (by destruct (loading_id (kv s) =? 0)).
  destruct (new_ns_from _ _ _ _ _ _ _ _ Hf Hw Hid Hnew)
    as (Hw2 & Hcl2 & Hx & Hns & Hp & Hnx).
  apply prog_bind_inv in H as ([] & s3 & H1 & H). injection H as <-. rewrite bind_get_st in H1.
  apply kill_chain_keeps in H1 as ([A1 A2 A3 A4 A5 A6] & _); [|cbn [kv set_kv vers_list set_vers_list]|done].
  2:{ apply Forall_app. split; [|by constructor]. apply kv_ok_upd; [done|]. intros w Hw'. rewrite Hf in Hw'.
      injection Hw' as <-. destruct Hw. done. }
  split; [done|]. split; [done|]. split; [done|].
  pose proof (fewer_clients_find _ _ to A2) as F1. pose proof (fewer_clients_find _ _ from A2) as F2.
  cbn [kv set_kv vers_list set_vers_list] in F1, F2. rewrite !HASH_FIND_app, !HASH_FIND_upd in F1, F2 by done.
  rewrite decide_False, Hto, HASH_FIND_cons, decide_True in F1 by done.
  rewrite decide_True, Hf in F2 by done. destruct F1 as (i1 & F1 & _), F2 as (i2 & F2 & _).
  eexists _, _. split; [exact F1|]. split; [exact Hx|]. split; [exact Hp|]. split; [exact Hnx|]. split; [exact F2|done].
Qed.

Lemma wf_cur v : wf_vh v -> exists x, cur_vers v = Done x /\ last (active v) = Some x.
Proof.
  intros [Hv _ Hn]. destruct (lookup_lt_is_Some_2 (versions v) (Z.to_nat (num_versions v - 1))) as [x Hx];
    [unfold KV_INIT_SZ in *; lia|].
  exists x. split; [apply arr_get_ok; [lia|done]|]. unfold active.
  rewrite last_lookup, length_take, Hv, Nat.min_l by (unfold KV_INIT_SZ in *; lia).
  rewrite lookup_take_lt by lia. rewrite <- Hx. f_equal. lia.
Qed.

Lemma upd_spec_check_cases l from to from_v to_v v :
  HASH_FIND l from = Some v -> wf_vh v ->
  exists r, upd_spec_check l from to from_v to_v = Done r /\
    match r with
    | None => (from <> to /\ is_Some (HASH_FIND l to)) \/
              (from = to /\ (to_v ∈ active v \/ (prev_ns v = None /\ last (active v) <> Some from_v)))
    | Some None => from <> to /\ HASH_FIND l to = None
    | Some (Some w) => from = to /\ w = v /\ to_v ∉ active v /\
                       (prev_ns v = None -> last (active v) = Some from_v)
    end.
Proof.
  intros Hf Hw. unfold upd_spec_check. rewrite Hf. case_bool_decide as He; cbn [negb].
  2:{ destruct (HASH_FIND l to); eexists; (split; [reflexivity|]); [left; by eauto|done]. }
  subst to. destruct (wf_cur v Hw) as (x & Hcur & Hlast).
  fold (active v). destruct (existsb (Z.eqb to_v) (active v)) eqn:Hex.
  - exists None. split; [done|]. right. split; [done|]. left. apply existsb_exists in Hex as (y & Hy & E).
    apply Z.eqb_eq in E. subst y. by apply list_elem_of_In.
  - rewrite Hcur, bind_Done. assert (to_v ∉ active v) as Hni.
    { intros Hin. apply list_elem_of_In in Hin. assert (existsb (Z.eqb to_v) (active v) = true); [|congruence].
      apply existsb_exists. exists to_v. split; [done|]. by apply Z.eqb_eq. }
    case_bool_decide as Hp; cbn [andb]; [destruct (Z.eqb_spec x from_v) as [->|Hne]|]; cbn [negb];
      eexists; (split; [reflexivity|]).
    + done.
    + right. split; [done|]. right. split; [done|]. congruence.
    + done.
Qed.

(** C4: kvolve_upd_spec, for every outcome.  An update from an undeclared
    namespace, into a namespace that exists, to a version already loaded, or
    from a version that is not the current one of a namespace that replaced
    no other, changes nothing.  Every other update that returns gives the
    target namespace the versions and update functions of the source followed
    by the new version with its functions; a new namespace is linked to the
    one it replaces in both directions.  Entries stay well-formed, and no
    stored value or key changes.  The announcements that are pending are of keys
    that do not exist, as the hook ensures (prevcall_check_settles): else the
    CLIENT KILL calls of the update would stamp the objects of these keys. *)
Theorem upd_spec_correct (from to : sds) (from_v to_v : Z) (fs : list fptr) (s s' : server) :
  kv_ok (vers_list (kv s)) -> settled s -> in_s 64 (loading_id (kv s)) ->
  kvolve_upd_spec from to from_v to_v fs s = Done (tt, s') ->
  kv_ok (vers_list (kv s')) /\ heap s' = heap s /\ dbs s' = dbs s /\
  match HASH_FIND (vers_list (kv s)) from with
  | None => s' = s
  | Some v =>
    if decide (from = to) then
      if decide (to_v ∈ active v \/ (prev_ns v = None /\ last (active v) <> Some from_v))
      then s' = s
      else exists v', HASH_FIND (vers_list (kv s')) to = Some v' /\
             extends v v' to_v (Some (info_of from to from_v to_v fs))
    else
      if HASH_FIND (vers_list (kv s)) to then s' = s
      else exists v' w, HASH_FIND (vers_list (kv s')) to = Some v' /\
             extends v v' to_v (Some (info_of from to from_v to_v fs)) /\
             prev_ns v' = Some from /\ next_ns v' = None /\
             HASH_FIND (vers_list (kv s')) from = Some w /\ next_ns w = Some to
  end.
Proof.
  intros Hk Ht Hl H. destruct (HASH_FIND (vers_list (kv s)) from) as [v|] eqn:Hf.
  2:{ unfold kvolve_upd_spec, upd_spec_check in H. rewrite bind_gets, Hf in H. by injection H as <-. }
  destruct (upd_spec_check_cases _ _ to from_v to_v v Hf (proj1 (kv_ok_find _ _ _ Hk Hf))) as (r & Hr & Hcase).
  destruct r as [[w|]|].
  - destruct Hcase as (<- & -> & Hni & Hp). rewrite decide_True by done.
    destruct (upd_spec_same_inv _ _ _ _ _ _ _ Hk Ht Hl Hf Hr H) as (? & ? & ? & ?).
    split_and!; [done..|]. destruct (decide _) as [[?|[? Hla]]|]; [done|by destruct (Hla (Hp ltac:(done)))|done].
  - destruct Hcase as [Hne Hto]. rewrite decide_False, Hto by done.
    destruct (upd_spec_new_inv _ _ _ _ _ _ _ _ Hk Ht Hl Hf Hto Hne Hr H) as (? & ? & ? & ?). done.
  - unfold kvolve_upd_spec in H. rewrite bind_gets, Hr in H. injection H as <-. split_and!; [done..|].
    destruct Hcase as [[Hne [w Hw]]|[<- Hc]]; [by rewrite decide_False, Hw|]. by rewrite !decide_True.
Qed.

Definition upd_server : server :=
  set_rnd [0] (let s := with_ns [set_ids (mkIntset 2 2 (le_bytes 2 3 ++ le_bytes 2 7)) (demo_vh "a" None [1])] server0 in
  set_kv (set_loading_id 7 (kv s)) s).

Definition done_state {A} (s0 : server) (r : outcome (A * server)) : server :=
  match r with Done (_, s) => s | Fault _ => s0 end.

Definition upd_server' : server := done_state server0 (kvolve_upd_spec (str "a") (str "b") 1 2 [40] upd_server).

Lemma upd_spec_correct_witness :
  exists v', HASH_FIND (vers_list (kv upd_server')) (str "b") = Some v' /\ active v' = [1; 2].
Proof.
  assert (Hrun : kvolve_upd_spec (str "a") (str "b") 1 2 [40] upd_server = Done (tt, upd_server'))
    by (vm_compute; reflexivity).
  pose proof (upd_spec_correct (str "a") (str "b") 1 2 [40] upd_server upd_server') as H.
  destruct H as (_ & _ & _ & H).
  - constructor; [|constructor]. split.
    + split; vm_compute; intuition congruence.
    + exists [3; 7]. split; [|reflexivity]. split; [left; reflexivity|reflexivity|reflexivity| |].
      * repeat constructor; vm_compute; intuition congruence.
      * repeat constructor; reflexivity.
  - constructor.
  - vm_compute. intuition congruence.
  - exact Hrun.
  - vm_compute in H. destruct H as (v' & w & Hv & Hx & _). exists v'. split; [vm_compute; exact Hv|apply Hx].
Defined.

(** C29: kvolve_upd_spec returns: the update of a namespace that replaced no
    other, with room for one more version and client ids of at most six
    digits, comes to an end for some outcome of the random draws by which
    the clients to disconnect are picked.  The entries of all namespaces are
    well-formed, the loading client's id has 64 bits, and the announcements that
    are pending are of keys that do not exist, as the hook ensures
    (prevcall_check_settles). *)
Theorem upd_spec_returns (ns : sds) (from_v to_v : Z) (fs : list fptr) (s : server) (v : version_hash) (el : list Z) :
  kv_ok (vers_list (kv s)) -> settled s -> in_s 64 (loading_id (kv s)) ->
  HASH_FIND (vers_list (kv s)) ns = Some v -> prev_ns v = None -> num_versions v < 20 ->
  clients v el -> Forall (fun k => (length (Util.ll2string_text k) <= 6)%nat) el ->
  exists rs s', kvolve_upd_spec ns ns from_v to_v fs (set_rnd rs s) = Done (tt, s').
Proof.
  intros Hk Ht Hl Hf Hp Hn Hc Hd. destruct (kv_ok_find _ _ _ Hk Hf) as [Hw _].
  destruct (upd_spec_check_cases _ ns ns from_v to_v v Hf Hw) as (r & Hr & Hcase).
  destruct (kill_loop_ends ns _ s v el eq_refl Hf Hc Ht Hd) as (rs & Hrs).
  destruct (Hrs [] (S (length rs))) as [s1 H1]; [lia|]. rewrite app_nil_r in H1.
  exists rs. unfold kvolve_upd_spec. rewrite bind_gets. cbn [kv set_rnd]. rewrite Hr, bind_lift.
  destruct r as [[w|]|]; [|by destruct Hcase as [? _]|by eexists].
  destruct Hcase as (_ & -> & _ & _). rewrite bind_mret, bind_assoc, bind_get_st.
  destruct (HASH_FIND_ns _ _ _ Hf) as [-> _]. cbn [kill_chain]. rewrite !bind_assoc, bind_get_st.
  cbn [rnd set_rnd]. rewrite (prog_bind_step _ _ _ _ _ H1).
  apply kill_loop_keeps in H1 as ([A1 A2 A3 A4 A5 A6] & _); [|done|done].
  pose proof (fewer_clients_find _ _ ns A2) as Hfc. cbn [kv set_rnd] in Hfc. rewrite Hf in Hfc.
  destruct Hfc as (i & Hv1 & _). rewrite bind_assoc, bind_gets, Hv1. cbn [expect].
  rewrite bind_assoc, bind_lift. cbn [prev_ns set_ids]. rewrite Hp, bind_mret, bind_get_st, Hv1.
  cbn [expect]. rewrite bind_lift. destruct (kv_ok_find _ _ _ A1 Hv1) as [[W1 W2 W3] [el1 [Hr1 Hfit]]].
  cbn [kv set_rnd] in A4. rewrite <- A4 in Hl. cbn [versions info num_versions set_ids] in *.
  destruct (add_ok fresh _ el1 _ Hr1 Hfit Hl) as (i2 & el2 & ok & E & _). rewrite E, bind_lift.
  unfold upd_kv. rewrite bind_modify, Z.gtb_ltb, (proj2 (Z.ltb_ge _ _)) by (unfold KV_INIT_SZ; lia).
  rewrite !arr_set_ok, !bind_lift by (rewrite ?W1, ?W2; unfold KV_INIT_SZ in *; lia). by eexists.
Qed.

Lemma upd_spec_returns_witness :
  exists rs s', kvolve_upd_spec (str "a") (str "a") 1 2 [40] (set_rnd rs connected_server) = Done (tt, s').
Proof.
  apply (upd_spec_returns (str "a") 1 2 [40] connected_server (set_ids three_clients (demo_vh "a" None [1])) [3; 7; 12]).
  - constructor; [|constructor]. split.
    + split; vm_compute; intuition congruence.
    + exists [3; 7; 12]. split; [|vm_compute; reflexivity].
      split; [left; reflexivity|reflexivity|reflexivity| |].
      * repeat constructor; vm_compute; intuition congruence.
      * repeat constructor; reflexivity.
  - constructor.
  - vm_compute. intuition congruence.
  - vm_compute. reflexivity.
  - reflexivity.
  - reflexivity.
  - split; [|vm_compute; reflexivity]. split; [left; reflexivity|reflexivity|reflexivity| |].
    + repeat constructor; vm_compute; intuition congruence.
    + repeat constructor; reflexivity.
  - repeat constructor; vm_compute; lia.
Defined.


(** The version arrays have 20 slots and the bound of kvolve_upd_spec
    admits a 21st version: an update of a namespace that has 20 versions
    writes past the arrays instead of being refused. *)
Theorem upd_spec_overflow :
  kvolve_upd_spec (str "a") (str "a") 20 21 []
    (with_ns [demo_vh "a" None [1;2;3;4;5;6;7;8;9;10;11;12;13;14;15;16;17;18;19;20]] server0)
  = Fault OutOfBounds.
Proof. vm_compute. reflexivity. Qed.

(** ** The request of a connecting client *)

(** The text "ns@vers,ns@vers,..." of a list of items. *)
Fixpoint request (items : list (sds * sds)) : sds :=
  match items with
  | [] => []
  | [(ns, vers)] => ns ++ "@"%char :: vers
  | (ns, vers) :: r => ns ++ "@"%char :: vers ++ ","%char :: request r
  end.

Definition item_ok (it : sds * sds) : Prop :=
  it.1 <> [] /\ "@"%char ∉ it.1 /\ NUL ∉ it.1 /\ it.2 <> [] /\ ","%char ∉ it.2 /\ NUL ∉ it.2.

(** The items one after the other, up to the first that is refused. *)
Fixpoint run_items (c : client) (items : list (sds * sds)) : M unit :=
  match items with
  | [] => mret tt
  | (ns, vers) :: r =>
    ok ← check_version_item c ns (atoi vers);
    if (ok : bool) then run_items c r else mret tt
  end.

Lemma until_delim_app d t r : d ∉ t -> until_delim d (t ++ d :: r) = (t, r).
Proof.
  induction t as [|x t IH]; intros Hd; cbn [app until_delim]; [by rewrite decide_True|].
  rewrite decide_False by set_solver. rewrite IH by set_solver. done.
Qed.

Lemma until_delim_end d t : d ∉ t -> until_delim d t = (t, []).
Proof.
  induction t as [|x t IH]; intros Hd; cbn [until_delim]; [done|].
  rewrite decide_False by set_solver. rewrite IH by set_solver. done.
Qed.

Lemma skip_delim_id d t r : d ∉ t -> t <> [] -> skip_delim d (t ++ r) = t ++ r.
Proof. destruct t as [|x t]; [done|]. intros Hd _. cbn. by rewrite decide_False by set_solver. Qed.

Lemma skip_delim_all d t : d ∉ t -> skip_delim d t = t.
Proof. destruct t as [|x t]; [done|]. intros Hd. cbn. by rewrite decide_False by set_solver. Qed.

Lemma strtok_app d t r : d ∉ t -> t <> [] -> strtok d (t ++ d :: r) = Some (t, r).
Proof.
  intros Hd Ht. unfold strtok. rewrite skip_delim_id by done.
  destruct t as [|x t]; [done|]. by rewrite <- (until_delim_app d (x :: t) r).
Qed.

Lemma strtok_end d t : d ∉ t -> t <> [] -> strtok d t = Some (t, []).
Proof.
  intros Hd Ht. unfold strtok. rewrite skip_delim_all by done.
  destruct t as [|x t]; [done|]. by rewrite until_delim_end.
Qed.

Lemma request_cons ns vers it r :
  request ((ns, vers) :: it :: r) = ns ++ "@"%char :: vers ++ ","%char :: request (it :: r).
Proof. done. Qed.

Lemma check_version_loop_items c items : forall fuel s,
  items <> [] -> Forall item_ok items -> (length items <= fuel)%nat ->
  check_version_loop fuel c (request items) s = run_items c items s.
Proof.
  induction items as [|[ns vers] items IH]; intros fuel s Hne Hok Hf; [done|].
  apply Forall_cons in Hok as [(Hn & Ha & _ & Hv & Hc & _) Hok]. cbn [fst snd] in *.
  destruct fuel as [|fuel]; [simpl in Hf; lia|]. cbn [check_version_loop run_items].
  destruct items as [|it items].
  - cbn [request]. rewrite strtok_app by done. cbn [expect]. rewrite bind_lift.
    rewrite strtok_end by done. cbn [expect]. rewrite bind_lift.
    unfold at_end. rewrite skip_delim_all, Nat.eqb_refl by done.
    unfold mbind, prog_bind. destruct (check_version_item _ _ _ s) as [[[] s']|]; done.
  - rewrite request_cons, strtok_app by done. cbn [expect]. rewrite bind_lift.
    rewrite strtok_app by done. cbn [expect]. rewrite bind_lift.
    unfold at_end. rewrite skip_delim_id, length_app by done.
    rewrite (proj2 (Nat.eqb_neq _ _)) by (cbn; lia).
    unfold mbind, prog_bind. destruct (check_version_item _ _ _ s) as [[[] s']|]; [|done|done].
    cbn [negb]. apply IH; [done|done|simpl in *; lia].
Qed.

Lemma request_no_nul items : Forall item_ok items -> NUL ∉ request items.
Proof.
  induction items as [|[ns vers] items IH]; intros Hok; [set_solver|].
  apply Forall_cons in Hok as [(_ & _ & Hn & _ & _ & Hv) Hok]. specialize (IH Hok). cbn [fst snd] in *.
  destruct items as [|it items]; [cbn [request]|rewrite request_cons];
    rewrite ?elem_of_app, ?elem_of_cons, ?elem_of_app, ?elem_of_cons; intros H; destruct_or! H;
    (done || discriminate H).
Qed.

Lemma request_length items : Forall item_ok items -> (length items <= length (request items))%nat.
Proof.
  induction items as [|[ns vers] items IH]; intros Hok; [simpl; lia|].
  apply Forall_cons in Hok as [(Hn & _) Hok]. specialize (IH Hok).
  destruct items as [|it items]; [cbn [request]|rewrite request_cons];
    rewrite ?length_app; cbn [length]; rewrite ?length_app; cbn [length] in *; lia.
Qed.

(** kvolve_check_version parses what a client sends with CLIENT SETNAME:
    for the text "ns1@v1,ns2@v2,..." the strtok loop ends and handles the
    items ns1 with the number v1, ns2 with v2, ... in this order, up to the
    first that is refused. *)
Theorem check_version_parses (c : client) (items : list (sds * sds)) (s : server) :
  items <> [] -> Forall item_ok items -> str_arg s c 2 (request items) ->
  kvolve_check_version c s = run_items c items s.
Proof.
  intros Hne Hok Ha. unfold kvolve_check_version. rewrite (bind_arg_str _ _ _ _ _ Ha).
  unfold strrchr. rewrite cstr_id by (by apply request_no_nul).
  destruct (rsplit _ _) as [[p q]|] eqn:E; cbn [fmap option_fmap option_map snd].
  - rewrite (check_version_loop_items c items) by (try done; pose proof (request_length items Hok); lia). done.
  - apply rsplit_None in E. destruct E. destruct items as [|[ns vers] [|it items]]; [done|cbn|cbn];
      rewrite elem_of_app; right; left.
Qed.

Definition setname_client : client := client_of 0 [10; 11; 12]%positive.
Definition setname_server : server :=
  put_obj 12 (str_obj "order@3,user@4" 0) (put_obj 11 (str_obj "setname" 0)
    (put_obj 10 (str_obj "client" 0) server0)).

Lemma check_version_parses_witness :
  kvolve_check_version setname_client setname_server =
  run_items setname_client [(str "order", str "3"); (str "user", str "4")] setname_server.
Proof.
  apply check_version_parses.
  - discriminate.
  - apply (bool_decide_unpack _). vm_compute. exact I.
  - exists 12%positive, (str_obj "order@3,user@4" 0). vm_compute. repeat split.
Defined.

Lemma force_quit_Done c a o s : cl_argv c !! 0%nat = Some (Some a) -> heap s !! a = Some o ->
  force_quit c s = Done (tt, set_heap (<[a := set_o_ptr (PSds (str "quit")) o]> (heap s)) s).
Proof.
  intros Ha Ho. unfold force_quit. rewrite (argv_Done _ _ _ Ha), bind_lift. by apply upd_obj_Done.
Qed.

(** One item of a connection request.  An unknown namespace is declared
    at the requested version with the client as its only one; a namespace at
    another version, or one that was replaced, turns the command into QUIT
    and leaves the namespaces as they are; otherwise the client is added to
    the clients of the namespace. *)
Theorem check_version_item_correct (c : client) (ns : sds) (n : Z) (s : server) (a : positive) (o : robj) :
  kv_ok (vers_list (kv s)) -> in_s 64 (cl_id c) ->
  cl_argv c !! 0%nat = Some (Some a) -> heap s !! a = Some o ->
  exists ok s', check_version_item c ns n s = Done (ok, s') /\
  match HASH_FIND (vers_list (kv s)) ns with
  | None => ok = true /\ exists v el, vers_list (kv s') = vers_list (kv s) ++ [v] /\ wf_vh v /\
              vh_ns v = ns /\ active v = [n] /\ prev_ns v = None /\ repr (ids v) el /\ cl_id c ∈ el
  | Some v =>
    if decide (last (active v) = Some n /\ next_ns v = None) then
      ok = true /\ heap s' = heap s /\ exists i el,
        vers_list (kv s') = upd_vh ns (set_ids i) (vers_list (kv s)) /\ repr i el /\ cl_id c ∈ el
    else ok = false /\ kv s' = kv s /\ str_arg s' c 0 (str "quit")
  end.
Proof.
  intros Hk Hid Ha Ho. unfold check_version_item. rewrite bind_gets.
  destruct (HASH_FIND (vers_list (kv s)) ns) as [v|] eqn:Hf.
  - destruct (kv_ok_find _ _ _ Hk Hf) as [Hw [el [Hr Hfit]]]. destruct (wf_cur v Hw) as (x & Hx & Hla).
    rewrite Hx, bind_lift, Hla.
    assert (Hq : exists s', (force_quit c ≫= fun _ => mret false) s = Done (false, s') /\
                kv s' = kv s /\ str_arg s' c 0 (str "quit")).
    { rewrite (prog_bind_step _ _ _ _ _ (force_quit_Done c a o s Ha Ho)).
      eexists. split; [reflexivity|]. split; [done|]. eexists a, _. split; [done|].
      split; [apply lookup_insert_eq|done]. }
    destruct Hq as (sq & Eq & Hq). destruct (Z.eqb_spec x n) as [->|Hne]; cbn [negb].
    + destruct (next_ns v) as [nx|].
      * exists false, sq. split; [done|]. rewrite decide_False by naive_solver. done.
      * destruct (add_ok fresh _ el _ Hr Hfit Hid) as (i & el' & b & E & Hr' & _ & Hel).
        rewrite E, bind_lift. eexists true, _. split; [reflexivity|]. rewrite decide_True by done.
        split; [done|]. split; [done|]. exists i, el'. split; [done|]. split; [done|]. apply Hel. by left.
    + exists false, sq. split; [done|]. rewrite decide_False by naive_solver. done.
  - unfold kvolve_create_ns. rewrite bind_assoc, bind_get_st. unfold kvolve_new_ns. rewrite bind_assoc.
    destruct (add_ok fresh intsetNew [] (cl_id c) new_repr) as (i & el & b & E & Hr & _ & Hel); [done|done|].
    cbn -[intsetAdd intsetNew]. rewrite E. cbn. eexists true, _. split; [reflexivity|]. split; [done|].
    eexists _, el. split; [reflexivity|]. cbn. split; [by split|]. split_and!; try done. apply Hel. by left.
Qed.

Lemma check_version_item_correct_witness :
  exists s', check_version_item setname_client (str "order") 3 setname_server = Done (true, s').
Proof.
  destruct (check_version_item_correct setname_client (str "order") 3 setname_server 10%positive (str_obj "client" 0))
    as (ok & s' & H & Hok).
  - constructor.
  - vm_compute. intuition congruence.
  - reflexivity.
  - vm_compute. reflexivity.
  - exists s'. rewrite H. destruct Hok as [Hok _]. rewrite Hok. reflexivity.
Defined.

(** ** Versions of new containers *)

(** The version that the entries [ts] give to the object [a]. *)
Definition stamp (s : server) (a : addr) (v0 : Z) (ts : list tmp_vers_store_hash) : Z :=
  foldl (fun v t => if decide (lookupKey s (tv_prev_db t) (tv_key t) = Some a) then tv_vers t else v) v0 ts.

Definition absent (s : server) (t : tmp_vers_store_hash) : Prop := lookupKey s (tv_prev_db t) (tv_key t) = None.
#[global] Instance absent_dec s t : Decision (absent s t).
Proof. unfold absent. apply _. Defined.

Lemma stamp_hit s t ts a v0 : lookupKey s (tv_prev_db t) (tv_key t) = Some a ->
  stamp s a v0 (t :: ts) = stamp s a (tv_vers t) ts.
Proof. intros H. unfold stamp. cbn [foldl]. by rewrite decide_True. Qed.

Lemma stamp_miss s t ts a v0 : lookupKey s (tv_prev_db t) (tv_key t) <> Some a ->
  stamp s a v0 (t :: ts) = stamp s a v0 ts.
Proof. intros H. unfold stamp. cbn [foldl]. by rewrite decide_False. Qed.

Lemma prevcall_loop_ok ts : forall s,
  (forall t a, t ∈ ts -> lookupKey s (tv_prev_db t) (tv_key t) = Some a -> is_Some (heap s !! a)) ->
  exists h, prevcall_loop ts s = Done (filter (absent s) ts, set_heap h s) /\
    forall a, h !! a = (fun o => set_o_vers (stamp s a (o_vers o) ts) o) <$> heap s !! a.
Proof.
  induction ts as [|t ts IH]; intros s Hok; cbn [prevcall_loop].
  - exists (heap s). split; [by destruct s|]. intros a. destruct (heap s !! a) as [o|]; cbn; [by destruct o|done].
  - rewrite bind_get_st. destruct (lookupKey s (tv_prev_db t) (tv_key t)) as [b|] eqn:Hl.
    + destruct (Hok t b ltac:(left) Hl) as [o Ho]. rewrite (bind_upd_obj _ _ _ _ _ Ho).
      destruct (IH (set_heap (<[b := set_o_vers (tv_vers t) o]> (heap s)) s)) as (h & E & Hh).
      { intros t' a Ht Ha. cbn. destruct (decide (a = b)) as [->|]; [rewrite lookup_insert_eq; eauto|].
        rewrite lookup_insert_ne by done. eapply Hok; [by right|exact Ha]. }
      exists h. rewrite filter_cons_False by (unfold absent; by rewrite Hl). split; [exact E|].
      intros a. rewrite Hh. cbn [heap set_heap]. destruct (decide (a = b)) as [->|Hne].
      * rewrite lookup_insert_eq, Ho. cbn [fmap option_fmap option_map]. by rewrite (stamp_hit s t ts b).
      * rewrite lookup_insert_ne by done. destruct (heap s !! a) as [oa|]; cbn [fmap option_fmap option_map]; [|done].
        rewrite (stamp_miss s t ts a) by congruence. done.
    + destruct (IH s) as (h & E & Hh). { intros t' a Ht. apply Hok. by right. }
      rewrite (prog_bind_step _ _ _ _ _ E). exists h. rewrite filter_cons_True by done. split; [done|].
      intros a. rewrite Hh. destruct (heap s !! a) as [oa|]; cbn [fmap option_fmap option_map]; [|done].
      rewrite (stamp_miss s t ts a) by congruence. done.
Qed.

(** C6: kvolve_prevcall_check, which runs before every command: every object
    whose key was announced as new and now exists gets the announced version
    (the last one, if several entries name it), every other object keeps its
    version, the entries that were used are dropped, and those whose key does
    not exist yet are kept for later.  The keyspace does not change. *)
Theorem prevcall_check_correct (s : server) :
  (forall t a, t ∈ tmp_store (kv s) -> lookupKey s (tv_prev_db t) (tv_key t) = Some a -> is_Some (heap s !! a)) ->
  exists s', kvolve_prevcall_check s = Done (tt, s') /\
    (forall a, heap s' !! a = (fun o => set_o_vers (stamp s a (o_vers o) (tmp_store (kv s))) o) <$> heap s !! a) /\
    tmp_store (kv s') = filter (absent s) (tmp_store (kv s)) /\
    dbs s' = dbs s /\ vers_list (kv s') = vers_list (kv s).
Proof.
  intros Hok. destruct (prevcall_loop_ok (tmp_store (kv s)) s Hok) as (h & E & Hh).
  unfold kvolve_prevcall_check. rewrite bind_gets. destruct (tmp_store (kv s)) as [|t ts] eqn:Ets.
  - exists s. split; [done|]. split_and!; [|by rewrite Ets|done|done].
    intros a. destruct (heap s !! a) as [o|]; cbn; [by destruct o|done].
  - rewrite (prog_bind_step _ _ _ _ _ E). eexists. split; [reflexivity|]. done.
Qed.

(** The hook runs it first: no announced key exists afterwards. *)
Lemma prevcall_check_settles s s' :
  (forall t a, t ∈ tmp_store (kv s) -> lookupKey s (tv_prev_db t) (tv_key t) = Some a -> is_Some (heap s !! a)) ->
  kvolve_prevcall_check s = Done (tt, s') -> settled s'.
Proof.
  intros Hok H. destruct (prevcall_loop_ok (tmp_store (kv s)) s Hok) as (h & E & Hh).
  unfold kvolve_prevcall_check in H. rewrite bind_gets in H. destruct (tmp_store (kv s)) as [|t ts] eqn:Ets.
  - injection H as <-. unfold settled. by rewrite Ets.
  - rewrite (prog_bind_step _ _ _ _ _ E) in H. injection H as <-. apply Forall_forall. intros u Hu.
    cbn [kv set_kv tmp_store set_tmp_store] in Hu. apply list_elem_of_filter in Hu as [Hu _]. exact Hu.
Qed.

Definition announced_server : server :=
  let s := put_key 0 "s:new" 12 (put_obj 12 (str_obj "v" 0) server0) in
  set_kv (set_tmp_store [mkTmp (str "s:new") 5 0; mkTmp (str "s:later") 6 0] (kv s)) s.

Lemma prevcall_check_correct_witness :
  exists s', kvolve_prevcall_check announced_server = Done (tt, s') /\
    heap s' !! 12%positive = Some (str_obj "v" 5) /\ tmp_store (kv s') = [mkTmp (str "s:later") 6 0].
Proof.
  destruct (prevcall_check_correct announced_server) as (s' & H & Hh & Ht & _).
  - intros t a Ht Ha. apply elem_of_cons in Ht as [->|Ht].
    + vm_compute in Ha. injection Ha as <-. vm_compute. eexists. reflexivity.
    + apply elem_of_cons in Ht as [->|Ht]; [|by apply not_elem_of_nil in Ht]. vm_compute in Ha. discriminate Ha.
  - exists s'. split; [exact H|]. split; [rewrite (Hh 12%positive); vm_compute; reflexivity|].
    rewrite Ht. vm_compute. reflexivity.
Defined.

End KvolveNs.
