(* ===== verification/KvolveUpd.v ===== *)
(** * kvolve_internal.c, part 2: updating keys and values

    The update functions that the user writes are not part of the sources:
    the parameter [mu] runs one of them.  It is given what the C function can
    read through its arguments (the key, the value and its length) and, being
    a program on the server state, may itself call into Redis.  It returns
    which of the pointers it replaced.  String objects, members of sets,
    elements of lists, fields of hashes and members of sorted sets are modelled. *)
From S2P Require Import Prelude CStr Intset Util Double Server Object Db TString TSet Heap TList THash ZZip ZSet TZset KvolveNs.
Import Intset Object Db TString TSet KvolveNs.

Module KvolveUpd.

(** What the [value] argument of an update function points to: the value, a
    struct hash_subkeyval with the field and its value, or a struct
    zset_scoreval with the member and its score. *)
Inductive upd_value := VPtr (val : optr) | VHash (hashkey hashval : optr) | VZset (setelem : optr) (score : Double.double).

(** What an update function leaves in [*key], [*value] (for a hash, in
    [hashkey], for a sorted set, in [setelem]), [*val_len], [hashval] and
    [score]: [None] for a pointer it did not replace, else the bytes of the
    buffer before its terminating NUL, or the double.  The functions do not
    write through the pointers they were given. *)
Record mu_result := mkMu {
  mu_key : option sds;
  mu_val : option sds;
  mu_len : Z;
  mu_hashval : option sds;
  mu_score : option Double.double
}.

Definition upd_fun : Type := fptr -> sds -> upd_value -> Z -> M mu_result.

(** [sdsnewlen(buf,len)]: [len] bytes of a buffer that holds [buf] and a NUL. *)
Definition sdsnewlen (buf : sds) (len : Z) : outcome sds :=
  if (len <? 0) || (Z.of_nat (length buf) + 1 <? len) then Fault OutOfBounds
  else Done (take (Z.to_nat len) (buf ++ [NUL])).

(** c_fake is a client of its own: its database is 0, not that of [c]. *)
Definition kvolve_namespace_update (c : client) (v : version_hash) : M unit :=
  key ← arg_str c 1;
  s ← get_st;
  match lookupKey s (cl_db c) key with
  | Some _ => mret tt
  | None =>
    c_fake ← createClient 3;
    let c_fake := set_cl_argc 3 c_fake in
    p ← lift (expect NullDeref (prev_ns v));
    old ← lift (kvolve_construct_prev_name key p);
    src ← createStringObject old;
    dst ← lift (argv c 1);
    c_fake ← lift (put_argv 1 src c_fake);
    c_fake ← lift (put_argv 2 dst c_fake);
    _ ← renameCommand c_fake;
    zfree src
  end.

(** One turn of the loop of kvolve_check_rename, for the key [argv[i]]. *)
Definition check_rename_key (c c_fake : client) (v : version_hash) (i : nat) : M unit :=
  a ← lift (argv c i);
  c_fake ← lift (put_argv 1 a c_fake);
  r ← kvolve_get_db_val c_fake (Some v);
  match r with
  | None => mret tt
  | Some x =>
    o ← deref x;
    if bool_decide (o_type o = REDIS_STRING /\ o_encoding o = ENC_INT)
    then kvolve_namespace_update c_fake v
    else
      cur ← lift (cur_vers v);
      when (negb (o_vers o =? cur)) (kvolve_namespace_update c_fake v)
  end.

Definition kvolve_check_rename (c : client) (v : option version_hash) (nargs : Z) : M unit :=
  match v with
  | None => mret tt
  | Some v =>
    match prev_ns v with
    | None => mret tt
    | Some _ =>
      c_fake ← createClient 2;
      let c_fake := set_cl_argc 2 (set_cl_db (cl_db c) c_fake) in
      for_each (seq 1 (Z.to_nat (nargs - 1))) (check_rename_key c c_fake v)
    end
  end.

(** Adds the new member and removes the old one; the result is [*o]. *)
Definition kvolve_update_set_elem (c : client) (new_val : sds) (o : addr) : M addr :=
  c_fake ← createClient 3;
  let c_fake := set_cl_argc 3 (set_cl_db (cl_db c) c_fake) in
  key ← lift (argv c 1);
  c_fake ← lift (put_argv 1 key c_fake);
  new ← createStringObject (cstr new_val);
  c_fake ← lift (put_argv 2 new c_fake);
  c_fake ← saddCommand c_fake;
  c_fake ← lift (put_argv 2 o c_fake);
  _ ← sremCommand c_fake;
  mret new.

(** "add new": the new field and its value; returns the client and the new
    field object. *)
Definition hash_add_new (c : client) (new_skval new_fval : sds) : M (client * addr) :=
  c_fake ← createClient 4;
  let c_fake := set_cl_argc 4 (set_cl_db (cl_db c) c_fake) in
  key ← lift (argv c 1);
  c_fake ← lift (put_argv 1 key c_fake);
  new_skval_o ← createStringObject (cstr new_skval);
  c_fake ← lift (put_argv 2 new_skval_o c_fake);
  new_fval_o ← createStringObject (cstr new_fval);
  c_fake ← lift (put_argv 3 new_fval_o c_fake);
  c_fake ← THash.hsetCommand c_fake;
  mret (c_fake, new_skval_o).

(** "delete old": the field of [o] goes when its name differs from the new. *)
Definition hash_delete_old (c_fake : client) (o new_skval_o : addr) : M unit :=
  ob ← deref o;
  old ← lift (sds_of ob);
  nb ← deref new_skval_o;
  new ← lift (sds_of nb);
  when (negb (strcmp_eq old new))
    (c_fake ← lift (put_argv 2 o (set_cl_argc 3 c_fake));
     _ ← THash.hdelCommand c_fake;
     mret tt).

Definition kvolve_update_hash_elem (c : client) (new_skval new_fval : sds) (o : addr) : M addr :=
  p ← hash_add_new c new_skval new_fval;
  _ ← hash_delete_old (fst p) o (snd p);
  mret (snd p).

(** "add new": the new element goes before the first one that equals the old;
    returns the client and the new object. *)
Definition list_add_new (c : client) (new_val : sds) (o : addr) : M (client * addr) :=
  c_fake ← createClient 5;
  let c_fake := set_cl_argc 5 (set_cl_db (cl_db c) c_fake) in
  key ← lift (argv c 1);
  c_fake ← lift (put_argv 1 key c_fake);
  new ← createStringObject (cstr new_val);
  before ← createStringObject (str "BEFORE");
  c_fake ← lift (put_argv 2 before c_fake);
  c_fake ← lift (put_argv 3 o c_fake);
  c_fake ← lift (put_argv 4 new c_fake);
  c_fake ← TList.linsertCommand c_fake;
  _ ← zfree before;
  mret (c_fake, new).

(** "delete old": the first element that equals the old one goes. *)
Definition list_delete_old (c_fake : client) (o : addr) : M unit :=
  one ← createStringObjectFromLongLong 1;
  c_fake ← lift (put_argv 2 one (set_cl_argc 4 c_fake));
  c_fake ← lift (put_argv 3 o c_fake);
  _ ← TList.lremCommand c_fake;
  mret tt.

Definition kvolve_update_list_elem (c : client) (new_val : sds) (o : addr) : M addr :=
  p ← list_add_new c new_val o;
  _ ← list_delete_old (fst p) o;
  mret (snd p).

(** [snprintf(output,50,"%f",s)] *)
Definition score_text (s : Double.double) : sds := take 49 (Double.fmt_f s).

(** "add new": the member with its score; returns the client, the member object and the
    score object.  The argument vector was allocated for three pointers. *)
Definition zset_add_new (c : client) (new_val : sds) (s : Double.double) : M (client * addr * addr) :=
  n ← gets (fun st => three_pointers (conf st));
  c_fake ← createClient n;
  let c_fake := set_cl_argc 4 (set_cl_db (cl_db c) c_fake) in
  key ← lift (argv c 1);
  c_fake ← lift (put_argv 1 key c_fake);
  new ← createStringObject (cstr new_val);
  scoreobj ← createStringObject (score_text s);
  c_fake ← lift (put_argv 2 scoreobj c_fake);
  c_fake ← lift (put_argv 3 new c_fake);
  c_fake ← TZset.zaddCommand c_fake;
  mret (c_fake, new, scoreobj).

(** "delete old": the member of [o] goes when its name differs from the new. *)
Definition zset_delete_old (c_fake : client) (new_val : sds) (o : addr) : M unit :=
  ob ← deref o;
  old ← lift (sds_of ob);
  when (negb (strcmp_eq old new_val))
    (c_fake ← lift (put_argv 2 o c_fake);
     _ ← upd_obj o (set_o_encoding ENC_RAW);
     _ ← TZset.zremCommand (set_cl_argc 3 c_fake);
     mret tt).

Definition kvolve_update_zset_elem (c : client) (new_val : sds) (o : addr) (s : Double.double) : M addr :=
  p ← zset_add_new c new_val s;
  let '(c_fake, new, scoreobj) := p in
  _ ← zset_delete_old c_fake new_val o;
  _ ← zfree scoreobj;
  mret new.

(** Strings kept as a small integer: shared objects, which carry no version. *)
Definition is_small_int (o : robj) : bool :=
  match o_ptr o with
  | PLong p => bool_decide (o_encoding o = ENC_INT /\ o_type o = REDIS_STRING) &&
               (p <? REDIS_SHARED_INTEGERS)
  | _ => false
  end.

(** [key_vers]: the index of the version of the object, or -1. *)
Definition find_vers (v : version_hash) (vers : Z) : Z :=
  match list_find (eq vers) (take (Z.to_nat (num_versions v)) (versions v)) with
  | Some (i, _) => Z.of_nat i
  | None => -1
  end.

(** The arguments [type], [s] and [fval]: a whole string, a member of a set, an
    element of a list, a field of a hash with its value [fval], or a member of a
    sorted set with its score [s]; [KHashNull]: a hash with [fval] NULL. *)
Inductive upd_kind := KString | KSet | KList | KHash (fval : addr) | KHashNull | KZset (s : Double.double).

(** The sizes and addresses of the tables of a container's dict are not part of the
    server state; of them only [dictFingerprint] matters here, which a dict
    iterator takes at its first step and checks when it is released (Dict.v). *)
Class Tables := { set_fingerprint : server -> addr -> Z }.

Section Update.
Context `{Tab : Tables}.
Context (mu : upd_fun).

(** The new key, when the function replaced it. *)
Definition apply_key (c : client) (v : version_hash) (check_key : bool) (k : option sds) : M unit :=
  match k with
  | Some key =>
    when check_key
      (a ← lift (argv c 1);
       _ ← upd_obj a (set_o_ptr (PSds (cstr key)));
       kvolve_namespace_update c v)
  | None => mret tt
  end.

(** The new value of a string is written in place; the modification is
    signalled with the value object where a key is expected. *)
Definition apply_string (c : client) (o : addr) (val : sds) (len : Z) : M addr :=
  ob ← deref o;
  _ ← lift (sds_of ob);
  nv ← lift (sdsnewlen val len);
  _ ← upd_obj o (set_o_ptr (PSds nv));
  _ ← signalModifiedKey (cl_db c) nv;
  _ ← incr_dirty 1;
  mret o.

(** A [char *] of the struct that was not replaced is the [ptr] of [o]. *)
Definition or_ptr (x : option sds) (o : addr) : M sds :=
  match x with
  | Some y => mret y
  | None => ob ← deref o; lift (sds_of ob)
  end.

(** The new value, when the function replaced it. *)
Definition apply_val (c : client) (kind : upd_kind) (o : addr) (r : mu_result) : M addr :=
  match kind, mu_val r with
  | KHash fval, v =>
    match v, mu_hashval r with
    | None, None => mret o
    | v, h => hk ← or_ptr v o; hv ← or_ptr h fval; kvolve_update_hash_elem c hk hv o
    end
  | KHashNull, _ => throw NullDeref
  | KZset s, v =>
    match v, mu_score r with
    | None, None => mret o
    | v, sc => e ← or_ptr v o; kvolve_update_zset_elem c e o (default s sc)
    end
  | _, None => mret o
  | KString, Some val => apply_string c o val (mu_len r)
  | KSet, Some val => kvolve_update_set_elem c val o
  | KList, Some val => kvolve_update_list_elem c val o
  end.

(** One update function applied to the object [o]. *)
Definition run_fun (c : client) (v : version_hash) (check_key : bool) (kind : upd_kind)
    (f : fptr) (o : addr) : M addr :=
  key ← arg_str c 1;
  ob ← deref o;
  let len := match o_encoding ob, o_ptr ob with ENC_RAW, PSds x => sdslen x | _, _ => 0 end in
  arg ← (match kind with
         | KHash fval => fv ← deref fval; mret (VHash (o_ptr ob) (o_ptr fv))
         | KHashNull => throw NullDeref
         | KZset s => mret (VZset (o_ptr ob) s)
         | _ => mret (VPtr (o_ptr ob))
         end);
  r ← mu f key arg len;
  _ ← apply_key c v check_key (mu_key r);
  apply_val c kind o r.

Fixpoint run_funs (c : client) (v : version_hash) (check_key : bool) (kind : upd_kind)
    (fs : list fptr) (o : addr) : M addr :=
  match fs with
  | [] => mret o
  | f :: r => o' ← run_fun c v check_key kind f o; run_funs c v check_key kind r o'
  end.

(** The step from the version before index [j] to that at [j]. *)
Definition vers_step (c : client) (v : version_hash) (check_key : bool) (kind : upd_kind)
    (j : Z) (o : addr) : M addr :=
  inf ← lift (arr_get (info v) j);
  o' ← (match inf with
        | None => mret o
        | Some inf => run_funs c v check_key kind (take (Z.to_nat (num_funs inf)) (funs inf)) o
        end);
  vj ← lift (arr_get (versions v) j);
  _ ← upd_obj o' (set_o_vers vj);
  mret o'.

Fixpoint vers_loop (c : client) (v : version_hash) (check_key : bool) (kind : upd_kind)
    (js : list Z) (o : addr) : M addr :=
  match js with
  | [] => mret o
  | j :: r => o' ← vers_step c v check_key kind j o; vers_loop c v check_key kind r o'
  end.

(** Whether the step after [key_vers] came from another namespace. *)
Definition ns_changed (v : version_hash) (key_vers : Z) : outcome bool :=
  inf ← arr_get (info v) (key_vers + 1);
  mret (match inf with
        | Some i => negb (strcmp_eq (from_ns i) (vh_ns v))
        | None => false
        end).

(** The object [o] is out of date: bring it to the current version. *)
Definition do_update (c : client) (v : version_hash) (check_key : bool) (kind : upd_kind)
    (o : addr) (vers : Z) : M unit :=
  _ ← upd_kv (set_upd_fun_running 1);
  let key_vers := find_vers v vers in
  ren ← (if check_key then lift (ns_changed v key_vers) else mret false);
  _ ← when ren (kvolve_namespace_update c v);
  _ ← vers_loop c v check_key kind
        (seqZ (key_vers + 1) (num_versions v - 1 - key_vers)) o;
  upd_kv (set_upd_fun_running 0).

Definition kvolve_check_update_kv_pair (c : client) (v : option version_hash) (check_key : bool)
    (o : option addr) (kind : upd_kind) : M unit :=
  match v with
  | None => mret tt
  | Some vh =>
    running ← gets (fun s => upd_fun_running (kv s));
    if running =? 1 then mret tt
    else
      r ← (match o with Some a => mret (Some a) | None => kvolve_get_db_val c v end);
      match r with
      | None => mret tt
      | Some a =>
        ob ← deref a;
        if is_small_int ob then kvolve_check_rename c v 2
        else
          cur ← lift (cur_vers vh);
          if o_vers ob =? cur then mret tt
          else do_update c vh check_key kind a (o_vers ob)
      end
  end.

(** ** Sets *)

(** The elements of the set, each retained, in iteration order. *)
Fixpoint gather (fuel : nat) (si : setTypeIterator) : M (list addr) :=
  match fuel with
  | O => throw OutOfFuel
  | S fuel' =>
    r ← setTypeNextObject si;
    match r with
    | (None, _) => mret []
    | (Some e, si') => rest ← gather fuel' si'; mret (e :: rest)
    end
  end.

Fixpoint update_elems (c : client) (v : version_hash) (o : addr) (first : bool) (es : list addr)
    : M unit :=
  match es with
  | [] => mret tt
  | e :: r =>
    ob ← deref o;
    _ ← upd_obj e (set_o_vers (o_vers ob));
    _ ← kvolve_check_update_kv_pair c (Some v) first (Some e) KSet;
    update_elems c v o false r
  end.

(** The [dictReleaseIterator] of setTypeReleaseIterator: an unsafe iterator
    asserts that the dict's fingerprint is the one its first step took. *)
Definition setTypeReleaseIterator (si : setTypeIterator) (fingerprint : Z) : M unit :=
  match si_encoding si with
  | ENC_HT => s ← get_st; lift (require_b AssertFail (fingerprint =? set_fingerprint s (si_subject si)))
  | _ => mret tt
  end.

(** 1 when there is no such set, else 0. *)
Definition kvolve_update_all_set (c : client) (v : option version_hash) : M Z :=
  match v with
  | None => mret 0
  | Some vh =>
    r ← kvolve_get_db_val c v;
    match r with
    | None => mret 1
    | Some o =>
      ob ← deref o;
      cur ← lift (cur_vers vh);
      if o_vers ob =? cur then mret 0
      else
        si ← setTypeInitIterator o;
        fingerprint ← gets (fun s => set_fingerprint s o);
        set_len ← lift (setTypeSize ob);
        robj_array ← gather (S (Z.to_nat set_len)) si;
        _ ← update_elems c vh o true robj_array;
        _ ← setTypeReleaseIterator si fingerprint;
        _ ← upd_obj o (set_o_vers cur);
        mret 0
    end
  end.

(** ** Lists *)

(** The elements of the list, each retained or a new object, head first. *)
Fixpoint gather_list (fuel : nat) (li : TList.listTypeIterator) : M (list addr) :=
  match fuel with
  | O => throw OutOfFuel
  | S fuel' =>
    r ← TList.listTypeNext li;
    match r with
    | (None, _) => mret []
    | (Some entry, li) =>
      e ← TList.listTypeGet li entry;
      e ← lift (expect NullDeref e);
      rest ← gather_list fuel' li;
      mret (e :: rest)
    end
  end.

(** The elements are freed one by one, whatever their reference counts. *)
Fixpoint update_list_elems (c : client) (v : version_hash) (o : addr) (first : bool) (es : list addr)
    : M unit :=
  match es with
  | [] => mret tt
  | e :: r =>
    ob ← deref o;
    _ ← upd_obj e (set_o_vers (o_vers ob));
    _ ← kvolve_check_update_kv_pair c (Some v) first (Some e) KList;
    _ ← zfree e;
    update_list_elems c v o false r
  end.

(** 1 when there is no such list, else 0. *)
Definition kvolve_update_all_list (c : client) (v : option version_hash) : M Z :=
  match v with
  | None => mret 0
  | Some vh =>
    r ← kvolve_get_db_val c v;
    match r with
    | None => mret 1
    | Some o =>
      ob ← deref o;
      cur ← lift (cur_vers vh);
      if o_vers ob =? cur then mret 0
      else
        list_len ← lift (TList.listTypeLength ob);
        li ← TList.listTypeInitIterator o 0 TList.REDIS_TAIL;
        robj_array ← gather_list (S (Z.to_nat list_len)) li;
        _ ← update_list_elems c vh o true robj_array;
        _ ← upd_obj o (set_o_vers cur);
        mret 0
    end
  end.

(** ** Hashes *)

(** The fields and values of the hash, each retained or a new object. *)
Fixpoint gather_hash (fuel : nat) (hi : THash.hashTypeIterator) : M (list (addr * addr)) :=
  match fuel with
  | O => throw OutOfFuel
  | S fuel' =>
    r ← THash.hashTypeNext hi;
    match r with
    | None => mret []
    | Some hi =>
      f ← THash.hashTypeCurrentObject hi THash.REDIS_HASH_KEY;
      x ← THash.hashTypeCurrentObject hi THash.REDIS_HASH_VALUE;
      rest ← gather_hash fuel' hi;
      mret ((f, x) :: rest)
    end
  end.

Fixpoint update_hash_elems (c : client) (v : version_hash) (o : addr) (first : bool) (es : list (addr * addr))
    : M unit :=
  match es with
  | [] => mret tt
  | (f, x) :: r =>
    ob ← deref o;
    _ ← upd_obj f (set_o_vers (o_vers ob));
    _ ← kvolve_check_update_kv_pair c (Some v) first (Some f) (KHash x);
    _ ← zfree f;
    _ ← zfree x;
    update_hash_elems c v o false r
  end.

(** The [dictReleaseIterator] of hashTypeReleaseIterator. *)
Definition hashTypeReleaseIterator (hi : THash.hashTypeIterator) (fingerprint : Z) : M unit :=
  match THash.hi_encoding hi with
  | ENC_HT => s ← get_st; lift (require_b AssertFail (fingerprint =? set_fingerprint s (THash.hi_subject hi)))
  | _ => mret tt
  end.

(** 1 when there is no such hash, else 0. *)
Definition kvolve_update_all_hash (c : client) (v : option version_hash) : M Z :=
  match v with
  | None => mret 0
  | Some vh =>
    r ← kvolve_get_db_val c v;
    match r with
    | None => mret 1
    | Some o =>
      ob ← deref o;
      cur ← lift (cur_vers vh);
      if o_vers ob =? cur then mret 0
      else
        n ← lift (THash.hashTypeLength ob);
        hi ← THash.hashTypeInitIterator o;
        fingerprint ← gets (fun s => set_fingerprint s o);
        robj_array ← gather_hash (S (Z.to_nat n)) hi;
        _ ← update_hash_elems c vh o true robj_array;
        _ ← upd_obj o (set_o_vers cur);
        _ ← hashTypeReleaseIterator hi fingerprint;
        mret 0
    end
  end.

(** ** Sorted sets *)

(** The walk over the ziplist [zl] of the object [ob]: an object for each entry that is
    no integer, with the entry behind it as its score; an entry that is one is passed
    over. *)
Fixpoint gather_zset (fuel : nat) (ob : robj) (zl : list sds) (p : option nat) : M (list (addr * Double.double)) :=
  match p, fuel with
  | None, _ => mret []
  | Some _, O => throw OutOfFuel
  | Some i, S fuel' =>
    x ← lift (ZZip.ziplistGet zl i);
    match Util.string2ll x with
    | None =>
      elem ← createStringObject x;
      _ ← upd_obj elem (fun e => set_o_encoding (o_encoding ob) (set_o_type (o_type ob) (set_o_vers (o_vers ob) e)));
      j ← lift (expect AssertFail (ZZip.ziplistNext zl i));
      s ← lift (ZZip.zzlGetScore zl j);
      rest ← gather_zset fuel' ob zl (ZZip.ziplistNext zl j);
      mret ((elem, s) :: rest)
    | Some _ => gather_zset fuel' ob zl (ZZip.ziplistNext zl i)
    end
  end.

(** The arrays of [zset_len] objects and scores; calloc has cleared what is not filled. *)
Definition zset_arrays (zset_len : nat) (es : list (addr * Double.double)) : list (option addr * Double.double) :=
  map (fun e => (Some (fst e), snd e)) es ++ replicate (zset_len - length es) (None, S754_zero false).

Definition kind_of (t : otype) (s : Double.double) : upd_kind :=
  match t with
  | REDIS_STRING => KString
  | REDIS_LIST => KList
  | REDIS_SET => KSet
  | REDIS_ZSET => KZset s
  | REDIS_HASH => KHashNull
  end.

Fixpoint update_zset_elems (c : client) (v : version_hash) (o : addr) (first : bool) (es : list (option addr * Double.double))
    : M unit :=
  match es with
  | [] => mret tt
  | (e, s) :: r =>
    ob ← deref o;
    _ ← kvolve_check_update_kv_pair c (Some v) first e (kind_of (o_type ob) s);
    _ ← (match e with Some a => zfree a | None => mret tt end);
    update_zset_elems c v o false r
  end.

(** 1 when there is no such sorted set, else 0. *)
Definition kvolve_update_all_zset (c : client) (v : option version_hash) : M Z :=
  match v with
  | None => mret 0
  | Some vh =>
    r ← kvolve_get_db_val c v;
    match r with
    | None => mret 1
    | Some o =>
      ob ← deref o;
      cur ← lift (cur_vers vh);
      if o_vers ob =? cur then mret 0
      else
        match o_encoding ob, o_ptr ob with
        | ENC_ZIPLIST, PZiplist zl =>
          let zset_len := Z.to_nat (to_s 32 (ZSet.zsetLength (ZSet.ZZl zl))) in
          es ← gather_zset (S (length zl)) ob zl (ZZip.ziplistIndex zl 0);
          _ ← update_zset_elems c vh o true (zset_arrays zset_len es);
          _ ← upd_obj o (set_o_vers cur);
          mret 0
        | ENC_ZIPLIST, _ => throw Panic
        | _, _ => mret 0
        end
    end
  end.

End Update.

(** ** Renaming into the current namespace *)

(** What kvolve_namespace_update leaves after moving the value [a]. *)
Record ns_moved (old key : sds) (a : addr) (s s' : server) : Prop := {
  nm_heap : heap s' = heap s;
  nm_fresh : heap_fresh s';
  nm_dbs : dbs s' = <[0%nat := rename_db old key a (get_db s 0)]> (dbs s);
  nm_conf : conf s' = conf s;
  nm_kv : kv s' = kv s;
  nm_stats : stats s' = stats s
}.

Lemma namespace_update_present c v key a s :
  str_arg s c 1 key -> lookupKey s (cl_db c) key = Some a ->
  kvolve_namespace_update c v s = Done (tt, s).
Proof.
  intros Ha Hl. unfold kvolve_namespace_update. rewrite (bind_arg_str _ _ _ _ _ Ha), bind_get_st. by rewrite Hl.
Qed.

(** The key is under its name in the previous namespace, in database 0. *)
Record in_prev (s : server) (v : version_hash) (key old : sds) (a : addr) (o : robj) : Prop := {
  ip_prev : exists p, prev_ns v = Some p /\ kvolve_construct_prev_name key p = Done old;
  ip_ne : old <> key;
  ip_valid : valid_db s 0;
  ip_old : lookupKey s 0 old = Some a;
  ip_new : lookupKey s 0 key = None;
  ip_obj : heap s !! a = Some o;
  ip_refs : 1 <= o_refcount o;
  ip_live_old : live s 0 old;
  ip_live_new : live s 0 key;
  ip_fresh : heap_fresh s
}.

Lemma namespace_update_moves c v key old a o s :
  str_arg s c 1 key -> lookupKey s (cl_db c) key = None -> in_prev s v key old a o ->
  exists s', kvolve_namespace_update c v s = Done (tt, s') /\ ns_moved old key a s s'.
Proof.
  intros Harg Hl [(p & Hp & Hold) Hne Hv Ho Hn Ha Hr L1 L2 Hf]. unfold kvolve_namespace_update.
  rewrite (bind_arg_str _ _ _ _ _ Harg), bind_get_st, Hl. unfold createClient.
  erewrite prog_bind_step by reflexivity. rewrite Hp. cbn [expect]. rewrite bind_lift, Hold, bind_lift.
  unfold createStringObject, createObject. rewrite bind_alloc. destruct Harg as (b & ob & Hb & Hob & Hpt).
  rewrite (argv_Done _ _ _ Hb), bind_lift. rewrite put_argv_Done, bind_lift by (cbn; lia).
  rewrite put_argv_Done, bind_lift by (cbn; lia).
  set (s0 := set_next_client_id _ s). set (n := next_addr s0). set (s1 := set_next_addr _ _). set (cf := set_cl_argv _ _).
  assert (Hn1 : forall x y, heap s !! x = Some y -> heap s1 !! x = Some y).
  { intros x y Hx. subst s1 n. cbn. rewrite lookup_insert_ne; [done|]. intros <-.
    rewrite Hf in Hx by (cbn; lia). done. }
  destruct (rename_ok cf old key a o s1) as (s2 & E2 & [R1 R2 R3 R4 R5 R6]); try done.
  - exists n, (mkObj REDIS_STRING ENC_RAW 1 0 (PSds old)). subst s1. cbn. by rewrite lookup_insert_eq.
  - exists b, ob. split; [done|]. split; [by apply Hn1|done].
  - by apply Hn1.
  - rewrite (prog_bind_step _ _ _ _ _ E2). rewrite (zfree_Done n (mkObj REDIS_STRING ENC_RAW 1 0 (PSds old))).
    2:{ rewrite R1. subst s1. cbn. apply lookup_insert_eq. }
    eexists. split; [reflexivity|].
    assert (Hh : delete n (heap s2) = heap s).
    { rewrite R1. subst s1. cbn. rewrite delete_insert_id; [done|]. apply Hf. cbn. lia. }
    split; try done. intros x Hx. change (next_addr s2 <= x)%positive in Hx. change (delete n (heap s2) !! x = None).
    rewrite Hh. apply Hf. rewrite R2 in Hx. cbn in Hx. lia.
Qed.

(** ** Updating the value of a string *)

(** What the update functions compute, when they neither change keys nor call
    into Redis: [tr f x] is the new value, [None] when [f] keeps [x]. *)
Class PureUpdates (mu : upd_fun) (tr : fptr -> sds -> option sds) :=
  pure_mu : forall f key x len s,
    mu f key (VPtr (PSds x)) len s =
    Done (mkMu None (tr f x) (match tr f x with Some y => sdslen y | None => len end) None None, s).

Section Values.
Context (tr : fptr -> sds -> option sds).

Definition apply_funs (fs : list fptr) (x : sds) : sds :=
  foldl (fun x f => default x (tr f x)) x fs.

(** The value at the version of index [j], from that at the one before. *)
Definition step_val (v : version_hash) (x : sds) (j : Z) : sds :=
  match info v !! Z.to_nat j with
  | Some (Some inf) => apply_funs (take (Z.to_nat (num_funs inf)) (funs inf)) x
  | _ => x
  end.

(** The indices of the versions after [vers]. *)
Definition pending (v : version_hash) (vers : Z) : list Z :=
  seqZ (find_vers v vers + 1) (num_versions v - 1 - find_vers v vers).

(** The value [x] of version [vers] at the current version. *)
Definition migrate (v : version_hash) (vers : Z) (x : sds) : sds :=
  foldl (step_val v) x (pending v vers).
End Values.

Lemma sdsnewlen_all y : sdsnewlen y (sdslen y) = Done y.
Proof.
  unfold sdsnewlen, sdslen. rewrite (proj2 (Z.ltb_ge _ _)), (proj2 (Z.ltb_ge _ _)) by lia. cbn [orb].
  by rewrite Nat2Z.id, take_app_length.
Qed.

(** The object at [a] becomes [o]; the keyspace and kvolve's state stay. *)
Record wrote (a : addr) (o : robj) (s s' : server) : Prop := {
  wr_heap : heap s' = <[a := o]> (heap s);
  wr_next : next_addr s' = next_addr s;
  wr_dbs : dbs s' = dbs s;
  wr_conf : conf s' = conf s;
  wr_kv : kv s' = kv s;
  wr_stats : stats s' = stats s
}.

Lemma wrote_id a o s : heap s !! a = Some o -> wrote a o s s.
Proof. intros H. split; try done. by rewrite insert_id. Qed.

Lemma wrote_trans a o1 o2 s1 s2 s3 : wrote a o1 s1 s2 -> wrote a o2 s2 s3 -> wrote a o2 s1 s3.
Proof. intros [A1 A2 A3 A4 A5 A6] [B1 B2 B3 B4 B5 B6]. split; try congruence. by rewrite B1, A1, insert_insert_eq. Qed.

Lemma wrote_lookup a o s s' : wrote a o s s' -> heap s' !! a = Some o.
Proof. intros [H _ _ _ _ _]. rewrite H. apply lookup_insert_eq. Qed.

Lemma wrote_upd a o g s : heap s !! a = Some o -> exists s', upd_obj a g s = Done (tt, s') /\ wrote a (g o) s s'.
Proof. intros H. rewrite (upd_obj_Done _ _ _ _ H). eexists. split; [reflexivity|]. by split. Qed.

(** The key argument is an object of its own. *)
Definition key_arg (s : server) (c : client) (key : sds) (a : addr) : Prop :=
  exists b ob, cl_argv c !! 1%nat = Some (Some b) /\ heap s !! b = Some ob /\ o_ptr ob = PSds key /\ b <> a.

Lemma key_arg_str s c key a : key_arg s c key a -> str_arg s c 1 key.
Proof. intros (b & ob & H1 & H2 & H3 & _). by exists b, ob. Qed.

Lemma key_arg_wrote s s' c key a o : wrote a o s s' -> key_arg s c key a -> key_arg s' c key a.
Proof.
  intros [H _ _ _ _ _] (b & ob & H1 & H2 & H3 & Hne). exists b, ob. split; [done|].
  by rewrite H, lookup_insert_ne.
Qed.

Section Strings.
#[local] Set Default Proof Using "Type*".
Context (mu : upd_fun) (tr : fptr -> sds -> option sds).
Context {Hmu : PureUpdates mu tr}.
Context (c : client) (v : version_hash) (key : sds) (a : addr).

Definition with_val (x : sds) (o : robj) : robj := set_o_ptr (PSds x) o.

Lemma with_val_val x y o : with_val y (with_val x o) = with_val y o.
Proof. done. Qed.

Lemma with_val_id x o : o_ptr o = PSds x -> with_val x o = o.
Proof. destruct o; cbn. by intros ->. Qed.

Lemma run_fun_string ck f o x s :
  key_arg s c key a -> heap s !! a = Some o -> o_ptr o = PSds x ->
  exists s', run_fun mu c v ck KString f a s = Done (a, s') /\ wrote a (with_val (default x (tr f x)) o) s s'.
Proof.
  intros Hk Ha Hx. unfold run_fun. rewrite (bind_arg_str _ _ _ _ _ (key_arg_str _ _ _ _ Hk)).
  rewrite (bind_deref _ _ _ _ Ha), Hx, bind_mret. rewrite (prog_bind_step _ _ _ _ _ (pure_mu _ _ _ _ _)).
  cbn [mu_key apply_key]. rewrite bind_mret. unfold apply_val. cbn [mu_val mu_len].
  destruct (tr f x) as [y|]; cbn [from_option id]; [unfold apply_string|].
  - rewrite (bind_deref _ _ _ _ Ha). unfold sds_of. rewrite Hx, bind_lift, sdsnewlen_all, bind_lift.
    rewrite (bind_upd_obj _ _ _ _ _ Ha). unfold signalModifiedKey.
    set (s1 := set_heap _ s). destruct (touchWatchedKey_frame (cl_db c) y s1) as (s2 & E & B1 & B2 & B3 & B4 & B5 & B6 & _).
    rewrite (prog_bind_step _ _ _ _ _ E). unfold incr_dirty. rewrite bind_modify.
    eexists. split; [reflexivity|]. by split.
  - eexists. split; [reflexivity|]. apply wrote_id. by rewrite (with_val_id x).
Qed.

Lemma run_funs_string ck fs : forall o x s,
  key_arg s c key a -> heap s !! a = Some o -> o_ptr o = PSds x ->
  exists s', run_funs mu c v ck KString fs a s = Done (a, s') /\ wrote a (with_val (apply_funs tr fs x) o) s s'.
Proof.
  induction fs as [|f fs IH]; intros o x s Hk Ha Hx; cbn [run_funs].
  - eexists. split; [reflexivity|]. apply wrote_id. by rewrite (with_val_id x).
  - destruct (run_fun_string ck f o x s Hk Ha Hx) as (s1 & E1 & W1). rewrite (prog_bind_step _ _ _ _ _ E1).
    destruct (IH _ (default x (tr f x)) s1 (key_arg_wrote _ _ _ _ _ _ W1 Hk) (wrote_lookup _ _ _ _ W1) eq_refl)
      as (s2 & E2 & W2).
    exists s2. split; [done|]. eapply wrote_trans; [done|]. exact W2.
Qed.

Lemma vers_step_string ck j o x vj s :
  key_arg s c key a -> heap s !! a = Some o -> o_ptr o = PSds x ->
  0 <= j < Z.of_nat (length (info v)) -> arr_get (versions v) j = Done vj ->
  exists s', vers_step mu c v ck KString j a s = Done (a, s') /\
    wrote a (set_o_vers vj (with_val (step_val tr v x j) o)) s s'.
Proof.
  intros Hk Ha Hx Hj Hv. unfold vers_step, step_val. destruct (lookup_lt_is_Some_2 (info v) (Z.to_nat j)) as [inf Hinf]; [lia|].
  rewrite (arr_get_ok _ _ _ (proj1 Hj) Hinf), bind_lift, Hinf.
  assert (exists s1, (match inf with
        | None => mret a
        | Some inf => run_funs mu c v ck KString (take (Z.to_nat (num_funs inf)) (funs inf)) a
        end) s = Done (a, s1) /\ wrote a (with_val (match inf with Some inf => 
          apply_funs tr (take (Z.to_nat (num_funs inf)) (funs inf)) x | None => x end) o) s s1) as (s1 & E1 & W1).
  { destruct inf as [inf|]; [by apply run_funs_string|]. eexists. split; [reflexivity|]. apply wrote_id. by rewrite with_val_id. }
  rewrite (prog_bind_step _ _ _ _ _ E1), Hv, bind_lift.
  destruct (wrote_upd a _ (set_o_vers vj) s1 (wrote_lookup _ _ _ _ W1)) as (s2 & E2 & W2).
  rewrite (prog_bind_step _ _ _ _ _ E2). exists s2. split; [done|]. eapply wrote_trans; [exact W1|]. done.
Qed.
End Strings.

Lemma find_vers_range v vers cur : wf_vh v -> cur_vers v = Done cur -> vers <> cur ->
  -1 <= find_vers v vers < num_versions v - 1.
Proof.
  intros [Hv Hi Hn] Hc Hne. unfold find_vers. destruct (list_find _ _) as [[i x]|] eqn:E; [|lia].
  apply list_find_Some in E as (E & <- & _). pose proof (lookup_lt_Some _ _ _ E) as Hl.
  rewrite length_take in Hl. rewrite lookup_take_lt in E by lia.
  assert (Z.of_nat i <> num_versions v - 1); [|lia]. intros Hi'. apply Hne.
  unfold cur_vers in Hc. rewrite <- Hi', (arr_get_ok _ _ vers) in Hc by (rewrite ?Nat2Z.id; (done || lia)). congruence.
Qed.

Lemma pending_last v vers cur : wf_vh v -> cur_vers v = Done cur -> vers <> cur ->
  exists js, pending v vers = js ++ [num_versions v - 1] /\
    Forall (fun j => 0 <= j < num_versions v) (pending v vers).
Proof.
  intros Hw Hc Hne. pose proof (find_vers_range v vers cur Hw Hc Hne) as Hr. unfold pending.
  exists (seqZ (find_vers v vers + 1) (num_versions v - 2 - find_vers v vers)). split.
  - replace (num_versions v - 1 - find_vers v vers) with (num_versions v - 2 - find_vers v vers + 1) by lia.
    rewrite seqZ_app by lia. f_equal. rewrite seqZ_cons by lia. f_equal. lia.
  - apply Forall_forall. intros j Hj. apply elem_of_seqZ in Hj. lia.
Qed.

Section Strings2.
#[local] Set Default Proof Using "Type*".
Context (mu : upd_fun) (tr : fptr -> sds -> option sds).
Context {Hmu : PureUpdates mu tr}.
Context (c : client) (v : version_hash) (key : sds) (a : addr).
Context (Hw : wf_vh v).

Lemma vers_loop_string ck js : forall o x s jl vl,
  key_arg s c key a -> heap s !! a = Some o -> o_ptr o = PSds x ->
  Forall (fun j => 0 <= j < num_versions v) (js ++ [jl]) -> arr_get (versions v) jl = Done vl ->
  exists s', vers_loop mu c v ck KString (js ++ [jl]) a s = Done (a, s') /\
    wrote a (set_o_vers vl (with_val (foldl (step_val tr v) x (js ++ [jl])) o)) s s'.
Proof.
  destruct Hw as [Hv Hi Hn].
  induction js as [|j js IH]; intros o x s jl vl Hk Ha Hx Hr Hvl; cbn [app vers_loop foldl];
    apply Forall_cons in Hr as [Hj Hr].
  - destruct (vers_step_string mu tr c v key a ck jl o x vl s Hk Ha Hx) as (s1 & E1 & W1); [lia|done|].
    rewrite (prog_bind_step _ _ _ _ _ E1). exists s1. done.
  - destruct (arr_get_lt (versions v) j) as [vj Hvj]; [lia|].
    destruct (vers_step_string mu tr c v key a ck j o x vj s Hk Ha Hx) as (s1 & E1 & W1); [lia|done|].
    rewrite (prog_bind_step _ _ _ _ _ E1).
    destruct (IH _ (step_val tr v x j) s1 jl vl (key_arg_wrote _ _ _ _ _ _ W1 Hk) (wrote_lookup _ _ _ _ W1) eq_refl Hr Hvl)
      as (s2 & E2 & W2).
    exists s2. split; [done|]. eapply wrote_trans; [exact W1|exact W2].
Qed.

Lemma ns_changed_Done vers cur : cur_vers v = Done cur -> vers <> cur ->
  exists b, ns_changed v (find_vers v vers) = Done b.
Proof.
  intros Hc Hne. pose proof (find_vers_range v vers cur Hw Hc Hne). destruct Hw as [Hv Hi Hn]. unfold ns_changed.
  destruct (arr_get_lt (info v) (find_vers v vers + 1)) as [x ->]; [lia|]. rewrite bind_Done. eauto.
Qed.

(** The value is under its current name: no rename, whatever the update. *)
Lemma do_update_in_place o x cur s :
  key_arg s c key a -> heap s !! a = Some o -> o_ptr o = PSds x ->
  lookupKey s (cl_db c) key = Some a -> upd_fun_running (kv s) = 0 ->
  cur_vers v = Done cur -> o_vers o <> cur ->
  exists s', do_update mu c v true KString a (o_vers o) s = Done (tt, s') /\
    wrote a (set_o_vers cur (with_val (migrate tr v (o_vers o) x) o)) s s'.
Proof.
  intros Hk Ha Hx Hl Hrun Hc Hne. unfold do_update, upd_kv. rewrite bind_modify.
  destruct (ns_changed_Done _ _ Hc Hne) as [b Hb]. rewrite Hb, bind_lift.
  set (s1 := set_kv _ s). assert (Hk1 : key_arg s1 c key a) by done.
  assert (E : when b (kvolve_namespace_update c v) s1 = Done (tt, s1)).
  { destruct b; [|done]. cbn [when]. apply namespace_update_present with key a; [by eapply key_arg_str|done]. }
  rewrite (prog_bind_step _ _ _ _ _ E). fold (pending v (o_vers o)). unfold migrate.
  destruct (pending_last v (o_vers o) cur Hw Hc Hne) as (js & Hjs & Hr). rewrite Hjs in *.
  destruct (vers_loop_string true js o x s1 (num_versions v - 1) cur Hk1 Ha Hx Hr Hc) as (s2 & E2 & [W1 W2 W3 W4 W5 W6]).
  rewrite (prog_bind_step _ _ _ _ _ E2). eexists. split; [reflexivity|].
  split; try done. cbn. rewrite W5. subst s1. cbn. destruct (kv s); cbn in *. by subst.
Qed.

Lemma check_update_present o x cur s :
  key_arg s c key a -> heap s !! a = Some o -> o_ptr o = PSds x ->
  lookupKey s (cl_db c) key = Some a -> upd_fun_running (kv s) = 0 -> cur_vers v = Done cur ->
  exists s', kvolve_check_update_kv_pair mu c (Some v) true None KString s = Done (tt, s') /\
    wrote a (if o_vers o =? cur then o else set_o_vers cur (with_val (migrate tr v (o_vers o) x) o)) s s'.
Proof.
  intros Hk Ha Hx Hl Hrun Hc. unfold kvolve_check_update_kv_pair. rewrite bind_gets, Hrun. cbn [Z.eqb].
  rewrite (prog_bind_step _ _ _ _ _ (get_db_val_present _ _ v _ _ (key_arg_str _ _ _ _ Hk) Hl)).
  rewrite (bind_deref _ _ _ _ Ha). unfold is_small_int. rewrite Hx, Hc, bind_lift.
  destruct (Z.eqb_spec (o_vers o) cur) as [|Hne].
  - eexists. split; [reflexivity|]. by apply wrote_id.
  - by apply do_update_in_place.
Qed.
(** The value is still under its name in the previous namespace. *)
Lemma check_update_moved o x cur old s :
  cl_db c = 0%nat -> key_arg s c key a -> in_prev s v key old a o -> o_ptr o = PSds x ->
  upd_fun_running (kv s) = 0 -> cur_vers v = Done cur -> o_vers o <> cur ->
  ns_changed v (find_vers v (o_vers o)) = Done true ->
  exists s', kvolve_check_update_kv_pair mu c (Some v) true None KString s = Done (tt, s') /\
    heap s' = <[a := set_o_vers cur (with_val (migrate tr v (o_vers o) x) o)]> (heap s) /\
    dbs s' = <[0%nat := rename_db old key a (get_db s 0)]> (dbs s) /\
    kv s' = kv s /\ conf s' = conf s /\ stats s' = stats s.
Proof.
  intros Hdb Hk Hip Hx Hrun Hc Hne Hch. pose proof Hip as [(p & Hp & Hold) Hon Hv Hlo Hln Ha Hr _ _ _].
  pose proof (key_arg_str _ _ _ _ Hk) as Hs. unfold kvolve_check_update_kv_pair. rewrite bind_gets, Hrun. cbn [Z.eqb].
  rewrite <- Hdb in Hlo, Hln. rewrite (prog_bind_step _ _ _ _ _ (get_db_val_old _ _ _ _ _ _ _ Hs Hp Hold Hln Hlo)). rewrite Hdb in Hlo, Hln.
  rewrite (bind_deref _ _ _ _ Ha). unfold is_small_int. rewrite Hx, Hc, bind_lift.
  rewrite (proj2 (Z.eqb_neq _ _)) by done. unfold do_update, upd_kv. rewrite bind_modify, Hch, bind_lift. cbn [when].
  set (s1 := set_kv _ s).
  destruct (namespace_update_moves c v key old a o s1) as (s2 & E2 & [M1 M2 M3 M4 M5 M6]).
  { exact Hs. } { by rewrite Hdb. } { destruct Hip. by split. }
  rewrite (prog_bind_step _ _ _ _ _ E2). fold (pending v (o_vers o)). unfold migrate.
  destruct (pending_last v (o_vers o) cur Hw Hc Hne) as (js & Hjs & Hrg). rewrite Hjs in *.
  destruct (vers_loop_string true js o x s2 (num_versions v - 1) cur) as (s3 & E3 & [W1 W2 W3 W4 W5 W6]); try done.
  { destruct Hk as (b & ob & ? & ? & ? & ?). exists b, ob. rewrite M1. done. } { by rewrite M1. }
  rewrite (prog_bind_step _ _ _ _ _ E3). eexists. split; [reflexivity|]. cbn [heap dbs kv conf stats set_kv].
  rewrite W1, M1, W3, M3, W4, M4, W6, M6. split_and!; try done.
  rewrite W5, M5. subst s1. cbn. destruct (kv s); cbn in *. by subst.
Qed.
End Strings2.

(** ** Updating the members of a set *)

Section Sets.
#[local] Set Default Proof Using "Type*".
Context (c : client) (key : sds) (so ka : addr).
Context (Hka : cl_argv c !! 1%nat = Some (Some ka)).

(** The set [so] has the members [ps] and is under [key]; the object of the
    key argument is none of them. *)
Record set_state (s : server) (os : robj) (ps : list (addr * sds)) : Prop := {
  ss_set : ht_set s so os ps;
  ss_key : exists ok, heap s !! ka = Some ok /\ o_ptr ok = PSds key;
  ss_ka : ka ∉ map fst ps;
  ss_fresh : heap_fresh s;
  ss_live : live s (cl_db c) key;
  ss_lookup : lookupKey s (cl_db c) key = Some so
}.

Lemma set_state_ka s os ps : set_state s os ps -> ka <> so.
Proof. intros [[H1 _ _ H4 _ _ _] (ok & Hk & Hp) _ _ _ _] ->. rewrite H1 in Hk. injection Hk as <-. congruence. Qed.

Lemma set_state_arg s os ps c' : set_state s os ps -> cl_argv c' !! 1%nat = Some (Some ka) -> str_arg s c' 1 key.
Proof. intros [_ (ok & Hk & Hp) _ _ _ _] Hc. by exists ka, ok. Qed.

(** Adding: the new object [n], which was just allocated, joins the set. *)
Lemma set_state_added s s' os ps n y vr :
  set_state s os ps -> n = next_addr s -> y ∉ map snd ps ->
  heap s' = <[n := mkObj REDIS_STRING ENC_RAW 2 vr (PSds y)]>
              (<[so := set_o_ptr (PSetDict (map fst ps ++ [n])) os]> (heap s)) ->
  next_addr s' = Pos.succ n -> dbs s' = dbs s -> conf s' = conf s ->
  set_state s' (set_o_ptr (PSetDict (map fst ps ++ [n])) os) (ps ++ [(n, y)]).
Proof.
  intros HS -> Hy Hh Hn Hd Hc. pose proof (set_state_ka _ _ _ HS) as Hks. destruct HS as [HS (ok & Hk & Hp) Hkn Hf HL Hl].
  pose proof (heap_fresh_lt _ _ _ Hf Hk). pose proof (heap_fresh_lt _ _ _ Hf (hs_obj _ _ _ _ HS)).
  assert (Hnp : next_addr s ∉ map fst ps).
  { intros Hin. apply list_elem_of_fmap in Hin as (p & E & Hin). pose proof (proj1 (Forall_forall _ _) (hs_elems _ _ _ _ HS) _ Hin) as (? & ? & Hq & _).
    apply (heap_fresh_lt _ _ _ Hf) in Hq. lia. }
  split.
  - eapply ht_set_added; [exact HS|lia|done|done| |exact Hh]. lia.
  - exists ok. rewrite Hh, !lookup_insert_ne by (done || lia). done.
  - rewrite map_app, elem_of_app. cbn. rewrite list_elem_of_singleton. intros [?| ?]; [done|lia].
  - intros a Ha. rewrite Hn in Ha. rewrite Hh, !lookup_insert_ne by lia. apply Hf. lia.
  - eapply live_ext; [unfold get_db; by rewrite Hd|done|done].
  - rewrite <- Hl. apply lookupKey_ext. unfold get_db. by rewrite Hd.
Qed.

Lemma set_state_removed s s' os p1 e x p2 oe :
  set_state s os (p1 ++ (e, x) :: p2) -> is_Some (heap s !! e) ->
  heap s' = <[e := oe]> (<[so := set_o_ptr (PSetDict (map fst (p1 ++ p2))) os]> (heap s)) ->
  next_addr s' = next_addr s -> dbs s' = dbs s -> conf s' = conf s ->
  set_state s' (set_o_ptr (PSetDict (map fst (p1 ++ p2))) os) (p1 ++ p2).
Proof.
  intros HS [oe0 He] Hh Hn Hd Hc. pose proof (set_state_ka _ _ _ HS) as Hks. destruct HS as [HS (ok & Hk & Hp) Hkn Hf HL Hl].
  assert (Hse : so <> e) by (pose proof (hs_not _ _ _ _ HS) as H7; rewrite map_app in H7; set_solver).
  pose proof (heap_fresh_lt _ _ _ Hf He). pose proof (heap_fresh_lt _ _ _ Hf (hs_obj _ _ _ _ HS)).
  rewrite map_app in Hkn. cbn [map fst] in Hkn. split.
  - by eapply ht_set_removed.
  - exists ok. rewrite Hh, !lookup_insert_ne by set_solver. done.
  - rewrite map_app. set_solver.
  - intros a Ha. rewrite Hn in Ha. rewrite Hh, !lookup_insert_ne by lia. by apply Hf.
  - eapply live_ext; [unfold get_db; by rewrite Hd|done|done].
  - rewrite <- Hl. apply lookupKey_ext. unfold get_db. by rewrite Hd.
Qed.

(** kvolve_update_set_elem replaces the member [e] by the new value [y]. *)
Lemma update_set_elem_ok s os p1 e x p2 y :
  let n := next_addr s in
  set_state s os (p1 ++ (e, x) :: p2) -> elem s 2 (e, x) ->
  y ∉ map snd (p1 ++ (e, x) :: p2) -> NUL ∉ y -> not_integer y ->
  exists s', kvolve_update_set_elem c y e s = Done (n, s') /\
    set_state s' (set_o_ptr (PSetDict (map fst (p1 ++ p2 ++ [(n, y)]))) os) (p1 ++ p2 ++ [(n, y)]) /\
    elem s' 2 (n, y) /\ dbs s' = dbs s /\ conf s' = conf s /\ kv s' = kv s /\
    (forall a, a <> so -> a <> e -> a <> n -> heap s' !! a = heap s !! a).
Proof.
  intros n HS He Hy Hnul Hint. pose proof HS as [HT (ok & Hk1 & Hk2) Hkn Hf HL Hl].
  pose proof (heap_fresh_lt _ _ _ Hf (hs_obj _ _ _ _ HT)) as Hson. pose proof (heap_fresh_lt _ _ _ Hf Hk1) as Hkan.
  assert (Hen : e <> n) by (destruct He as (? & ? & He & _); apply (heap_fresh_lt _ _ _ Hf) in He; cbn in He; lia).
  unfold kvolve_update_set_elem, createClient. erewrite prog_bind_step by reflexivity.
  rewrite (argv_Done _ _ _ Hka), bind_lift, put_argv_Done, bind_lift by (cbn; lia).
  unfold createStringObject, createObject. rewrite bind_alloc, put_argv_Done, bind_lift by (cbn; lia).
  rewrite (cstr_id y Hnul). change (next_addr (set_next_client_id (next_client_id s + 1) s)) with n.
  set (cf := set_cl_argv _ (set_cl_argv _ _)).
  set (s1 := set_next_addr (Pos.succ n) _).
  assert (Hold : forall a o, heap s !! a = Some o -> heap s1 !! a = Some o).
  { intros a o Ha. cbn. rewrite lookup_insert_ne; [done|]. apply (heap_fresh_lt _ _ _ Hf) in Ha. cbn in Ha. lia. }
  destruct (sadd_one cf key so os (p1 ++ (e, x) :: p2) n (mkObj REDIS_STRING ENC_RAW 1 0 (PSds y)) y s1)
    as (s2 & E2 & [F1 F2 F3 F4 F5]); try done.
  { exists ka, ok. split; [done|]. split; [by apply Hold|done]. } { split; try done. cbn. apply lookup_insert_eq. }
  { by eapply ht_set_frame. } { lia. }
  rewrite (prog_bind_step _ _ _ _ _ E2), put_argv_Done, bind_lift by (cbn; lia). set (cf2 := set_cl_argv _ (add_reply _ _)).
  assert (F1' : heap s2 = <[n := mkObj REDIS_STRING ENC_RAW 2 0 (PSds y)]>
    (<[so := set_o_ptr (PSetDict (map fst (p1 ++ (e, x) :: p2) ++ [n])) os]> (heap s))).
  { rewrite F1. cbn. rewrite (insert_insert_ne _ so) by lia. by rewrite insert_insert_eq. }
  pose proof (set_state_added s s2 os _ n y 0 HS eq_refl Hy F1' F2 F3 F4) as HS2. rewrite <- app_assoc in HS2. cbn [app] in HS2.
  set (os2 := set_o_ptr _ os) in HS2.
  assert (He2 : elem s2 2 (e, x)).
  { eapply elem_frame; [|exact He]. cbn [fst]. rewrite F1', !lookup_insert_ne; [done| |done].
    pose proof (hs_not _ _ _ _ HT) as H7. rewrite map_app in H7. set_solver. }
  pose proof He2 as (rc & vr & He3 & Hrc). cbn [fst snd] in He3.
  destruct (srem_one cf2 key so os2 p1 e x (p2 ++ [(n, y)]) e (mkObj REDIS_STRING ENC_RAW rc vr (PSds x)) s2
    eq_refl (set_state_arg s2 os2 _ cf2 HS2 eq_refl) eq_refl He3 eq_refl (ss_live _ _ _ HS2) (ss_lookup _ _ _ HS2)
    (ss_set _ _ _ HS2) He2) as (s3 & oe & E3 & Hoe & [G1 G2 G3 G4 G5]); [destruct p1; [by destruct p2|done]|].
  rewrite (prog_bind_step _ _ _ _ _ E3). exists s3. split; [done|].
  pose proof (set_state_removed s2 s3 os2 p1 e x _ _ HS2 ltac:(eauto) G1 G2 G3 G4) as HS3. split; [exact HS3|].
  split; [exists 2, 0; cbn [fst snd]; rewrite G1, !lookup_insert_ne, F1', lookup_insert_eq by (done || lia); done|].
  split; [by rewrite G3, F3|]. split; [by rewrite G4, F4|]. split; [by rewrite G5, F5|].
  intros a Ha1 Ha2 Ha3. by rewrite G1, !lookup_insert_ne, F1', !lookup_insert_ne by done.
Qed.
End Sets.

Section Sets2.
#[local] Set Default Proof Using "Type*".
Context (mu : upd_fun) (tr : fptr -> sds -> option sds).
Context {Hmu : PureUpdates mu tr}.
Context (c : client) (v : version_hash) (key : sds) (so ka : addr).
Context (Hka : cl_argv c !! 1%nat = Some (Some ka)) (Hw : wf_vh v).

Local Abbreviation set_state := (set_state c key so ka).

(** A write to a member that keeps its bytes and its references, and any
    change of kvolve's state, keep the set. *)
Lemma set_state_touch s os ps e oe oe' :
  set_state s os ps -> e ∈ map fst ps -> heap s !! e = Some oe ->
  o_type oe' = o_type oe -> o_encoding oe' = o_encoding oe -> o_ptr oe' = o_ptr oe ->
  o_refcount oe <= o_refcount oe' ->
  let s' := set_heap (<[e := oe']> (heap s)) s in
  set_state s' os ps /\ (forall r p, elem s r p -> elem s' r p).
Proof.
  intros [HS (ok & Hk & Hp) Hkn Hf HL Hl] He Hoe Ht Hen Hpt Hrc s'.
  assert (Hel : forall r p, elem s r p -> elem s' r p).
  { intros r p (rc & vr & Hq & Hr). destruct (decide (p.1 = e)) as [E|E].
    - rewrite E, Hoe in Hq. injection Hq as ->. exists (o_refcount oe'), (o_vers oe'). subst s'. cbn. rewrite E, lookup_insert_eq.
      cbn in *. split; [destruct oe'; cbn in *; by subst|lia].
    - exists rc, vr. subst s'. cbn. by rewrite lookup_insert_ne. }
  split; [|done]. destruct HS as [H1 H2 H3 H4 H5 H6 H7]. split; try done.
  - split; try done; [subst s'; cbn; rewrite lookup_insert_ne by (intros ->; done); done|].
    eapply Forall_impl; [exact H5|]. apply Hel.
  - exists ok. subst s'. cbn. rewrite lookup_insert_ne by (intros ->; done). done.
  - intros a Ha. subst s'. cbn. rewrite lookup_insert_ne; [by apply Hf|]. intros <-. rewrite Hf in Hoe by done. done.
Qed.

Lemma set_state_stamp s os ps e oe w :
  set_state s os ps -> e ∈ map fst ps -> heap s !! e = Some oe ->
  let s' := set_heap (<[e := set_o_vers w oe]> (heap s)) s in
  set_state s' os ps /\ (forall r p, elem s r p -> elem s' r p).
Proof. intros HS He Hoe. by apply (set_state_touch s os ps e oe). Qed.

Lemma set_state_kv s os ps k : set_state s os ps -> set_state (set_kv k s) os ps.
Proof. intros [HS Hk Hkn Hf HL Hl]. split; try done. by destruct HS; split. Qed.

(** One update step with one function, as it applies to a member. *)
Record one_fun (vers cur : Z) (f : fptr) : Prop := {
  of_cur : cur_vers v = Done cur;
  of_old : vers <> cur;
  of_info : exists j inf, pending v vers = [j] /\ 0 <= j /\ info v !! Z.to_nat j = Some (Some inf) /\
              take (Z.to_nat (num_funs inf)) (funs inf) = [f]
}.

Lemma do_update_member first s os e x es ns y cur f :
  set_state s os ((e, x) :: es ++ ns) -> elem s 2 (e, x) -> upd_fun_running (kv s) = 0 ->
  one_fun (o_vers os) cur f -> tr f x = Some y -> y ∉ x :: map snd (es ++ ns) -> NUL ∉ y -> not_integer y ->
  exists s', do_update mu c v first KSet e (o_vers os) s = Done (tt, s') /\
    set_state s' (set_o_ptr (PSetDict (map fst (es ++ ns ++ [(next_addr s, y)]))) os) (es ++ ns ++ [(next_addr s, y)]) /\
    dbs s' = dbs s /\ kv s' = kv s /\
    (forall p, p ∈ es -> elem s 2 p -> elem s' 2 p).
Proof.
  intros HS He Hrun [Hc Hne (j & inf & Hj & Hj0 & Hi & Hfs)] Hy Hny Hnul Hint. unfold do_update, upd_kv. rewrite bind_modify.
  set (s1 := set_kv _ s). assert (HS1 : set_state s1 os ((e, x) :: es ++ ns)) by (by apply set_state_kv).
  destruct (ns_changed_Done v Hw _ _ Hc Hne) as [b Hb].
  assert (E1 : exists r, (if first then lift (ns_changed v (find_vers v (o_vers os))) else mret false) s1 = Done (r, s1))
    by (destruct first; [rewrite Hb; by exists b|by exists false]).
  destruct E1 as [r E1]. rewrite (prog_bind_step _ _ _ _ _ E1).
  assert (E2 : when r (kvolve_namespace_update c v) s1 = Done (tt, s1)).
  { destruct r; [|done]. cbn [when]. eapply namespace_update_present; [by eapply set_state_arg|apply HS1]. }
  rewrite (prog_bind_step _ _ _ _ _ E2). fold (pending v (o_vers os)). rewrite Hj. cbn [vers_loop].
  unfold vers_step. rewrite !bind_assoc, (arr_get_ok _ _ _ Hj0 Hi), bind_lift, Hfs, !bind_assoc. cbn [run_funs].
  rewrite !bind_assoc. unfold run_fun. rewrite !bind_assoc, (bind_arg_str c 1 key) by (by eapply set_state_arg).
  rewrite !bind_assoc. pose proof He as (rc & vr & Hoe & Hrc). cbn [fst snd] in Hoe.
  rewrite (bind_deref e (mkObj REDIS_STRING ENC_RAW rc vr (PSds x))) by done. cbn [o_ptr].
  rewrite !bind_assoc, bind_mret, !bind_assoc, (prog_bind_step _ _ _ _ _ (pure_mu _ _ _ _ _)), Hy. cbn [mu_key mu_val mu_len apply_key apply_val].
  rewrite bind_assoc, bind_mret.
  destruct (update_set_elem_ok c key so ka Hka s1 os [] e x (es ++ ns) y) as (s2 & E3 & HS2 & Hn2 & D2 & C2 & K2 & Hfr); try done.
  rewrite (prog_bind_step _ _ _ _ _ E3), bind_mret. change (next_addr s1) with (next_addr s) in *. cbn [app] in HS2.
  rewrite <- app_assoc in HS2. set (n := next_addr s) in *. set (os2 := set_o_ptr _ os) in *.
  assert (Hjr : 0 <= j < Z.of_nat (length (versions v))).
  { apply lookup_lt_Some in Hi. destruct Hw as [Hv Hif _]. rewrite Hv. rewrite Hif in Hi. lia. }
  destruct (arr_get_lt (versions v) j Hjr) as [vj Hvj]. rewrite Hvj, !bind_assoc, bind_lift, bind_assoc.
  pose proof Hn2 as (rn & vn & Hon & _). cbn [fst snd] in Hon. rewrite (bind_upd_obj _ _ _ _ _ Hon), !bind_mret.
  destruct (set_state_stamp s2 os2 _ n _ vj HS2 ltac:(rewrite !map_app; set_solver) Hon) as [HS3 Hel3].
  eexists. split; [reflexivity|]. split; [by apply set_state_kv|]. split; [exact D2|]. split.
  - cbn. rewrite K2. subst s1. cbn. destruct (kv s); cbn in *. by subst.
  - intros p Hp Hp2. apply (Hel3 2 p). destruct Hp2 as (rp & wp & Hop & Hrp). exists rp, wp. split; [|done].
    pose proof (ss_set _ _ _ _ _ _ _ HS) as HT. change ((e, x) :: es ++ ns) with ([] ++ (e, x) :: es ++ ns) in HT.
    rewrite Hfr; [exact Hop| |by eapply ht_set_addr_ne; [exact HT|set_solver]|].
    + intros E. apply (hs_not _ _ _ _ HT). rewrite <- E. apply list_elem_of_fmap_2. set_solver.
    + apply (heap_fresh_lt _ _ _ (ss_fresh _ _ _ _ _ _ _ HS)) in Hop. change (next_addr s1) with (next_addr s). lia.
Qed.
Lemma check_update_member first s os e x es ns y cur f :
  set_state s os ((e, x) :: es ++ ns) -> elem s 2 (e, x) -> upd_fun_running (kv s) = 0 ->
  one_fun (o_vers os) cur f -> tr f x = Some y -> y ∉ x :: map snd (es ++ ns) -> NUL ∉ y -> not_integer y ->
  exists s' n, (_ ← upd_obj e (set_o_vers (o_vers os)); kvolve_check_update_kv_pair mu c (Some v) first (Some e) KSet) s
      = Done (tt, s') /\
    set_state s' (set_o_ptr (PSetDict (map fst (es ++ ns ++ [(n, y)]))) os) (es ++ ns ++ [(n, y)]) /\
    dbs s' = dbs s /\ kv s' = kv s /\ (forall p, p ∈ es -> elem s 2 p -> elem s' 2 p).
Proof.
  intros HS He Hrun Hof Hy Hny Hnul Hint. pose proof He as (rc & vr & Hoe & Hrc). cbn [fst snd] in Hoe.
  rewrite (bind_upd_obj _ _ _ _ _ Hoe).
  destruct (set_state_stamp s os _ e _ (o_vers os) HS ltac:(by left) Hoe) as [HS1 Hel1]. set (s1 := set_heap _ s) in *.
  unfold kvolve_check_update_kv_pair. rewrite bind_gets. change (kv s1) with (kv s). rewrite Hrun. cbn [Z.eqb]. rewrite bind_mret.
  rewrite (bind_deref e (set_o_vers (o_vers os) (mkObj REDIS_STRING ENC_RAW rc vr (PSds x)))) by (cbn; apply lookup_insert_eq).
  cbn [is_small_int set_o_vers o_ptr o_vers]. rewrite (of_cur _ _ _ Hof), bind_lift.
  rewrite (proj2 (Z.eqb_neq _ _)) by (by apply Hof).
  destruct (do_update_member first s1 os e x es ns y cur f HS1 (Hel1 2 (e, x) He) Hrun Hof Hy Hny Hnul Hint)
    as (s2 & E2 & HS2 & D2 & K2 & Hel2).
  exists s2, (next_addr s1). split; [exact E2|]. split; [exact HS2|]. split; [exact D2|]. split; [exact K2|].
  intros p Hp Hp2. by apply Hel2, Hel1.
Qed.

Lemma update_elems_ok (g : sds -> sds) cur f : forall es ns first s os,
  set_state s os (es ++ ns) -> Forall (elem s 2) es -> upd_fun_running (kv s) = 0 -> one_fun (o_vers os) cur f ->
  (forall x, x ∈ map snd es -> tr f x = Some (g x) /\ NUL ∉ g x /\ not_integer (g x) /\ g x ∉ map snd (es ++ ns)) ->
  NoDup (map g (map snd es)) ->
  exists s' l' ns', update_elems mu c v so first (map fst es) s = Done (tt, s') /\
    set_state s' (set_o_ptr l' os) (ns ++ ns') /\ map snd ns' = map g (map snd es) /\
    dbs s' = dbs s /\ kv s' = kv s.
Proof.
  induction es as [|[e x] es IH]; intros ns first s os HS Hes Hrun Hof Hg Hnd; cbn [map fst update_elems].
  - exists s, (o_ptr os), []. split; [done|]. rewrite app_nil_r. split; [by destruct os|]. done.
  - apply Forall_cons in Hes as [He Hes]. cbn [map snd] in *. apply NoDup_cons in Hnd as [Hgx Hnd].
    rewrite (bind_deref so os) by apply HS. destruct (Hg x ltac:(left)) as (Hy & Hnul & Hint & Hny).
    destruct (check_update_member first s os e x es ns (g x) cur f HS He Hrun Hof Hy Hny Hnul Hint)
      as (s1 & n & E1 & HS1 & D1 & K1 & Hel1).
    rewrite <- bind_assoc, (prog_bind_step _ _ _ _ _ E1).
    destruct (IH (ns ++ [(n, g x)]) false s1 _ HS1) as (s2 & l' & ns' & E2 & HS2 & Hm2 & D2 & K2).
    + apply Forall_forall. intros p Hp. apply Hel1; [done|]. by apply (proj1 (Forall_forall _ _) Hes).
    + by rewrite K1.
    + exact Hof.
    + intros x' Hx'. destruct (Hg x' ltac:(by right)) as (A & B & C & D). split_and!; try done.
      rewrite app_assoc, map_app, elem_of_app. cbn. rewrite list_elem_of_singleton. intros [E|E]; [set_solver|].
      apply Hgx. rewrite <- E. by apply list_elem_of_fmap_2.
    + done.
    + exists s2, l', ((n, g x) :: ns'). split; [exact E2|]. rewrite <- app_assoc in HS2. split; [exact HS2|].
      split; [cbn; by rewrite Hm2|]. split; congruence.
Qed.

(** Retaining a member. *)
Lemma set_state_incr s os ps e x oe :
  set_state s os ps -> (e, x) ∈ ps -> heap s !! e = Some oe ->
  let s' := set_heap (<[e := set_o_refcount (o_refcount oe + 1) oe]> (heap s)) s in
  set_state s' os ps /\ (forall r p, elem s r p -> elem s' r p) /\ (forall r, elem s r (e, x) -> elem s' (r + 1) (e, x)).
Proof.
  intros HS He Hoe s'. assert (Hin : e ∈ map fst ps) by (by apply (list_elem_of_fmap_2 fst) in He).
  destruct (set_state_touch s os ps e oe (set_o_refcount (o_refcount oe + 1) oe) HS Hin Hoe) as [HS' Hel]; try done; [cbn; lia|].
  split; [done|]. split; [done|]. intros r (rc & vr & Hq & Hr). exists (rc + 1), vr. cbn [fst snd] in *. subst s'. cbn.
  rewrite lookup_insert_eq. rewrite Hoe in Hq. injection Hq as ->. split; [done|lia].
Qed.

Lemma gather_ok ps os : forall todo fuel s, (length todo < fuel)%nat -> set_state s os ps -> Forall (elem s 1) todo ->
  (forall p, p ∈ todo -> p ∈ ps) -> 
  exists s', gather fuel (mkSi so ENC_HT 0 (map fst todo)) s = Done (map fst todo, s') /\ set_state s' os ps /\
    Forall (elem s' 2) todo /\ (forall r p, elem s r p -> elem s' r p) /\ dbs s' = dbs s /\ kv s' = kv s.
Proof.
  induction todo as [|[e x] todo IH]; intros fuel s Hf HS Ht Hin; (destruct fuel as [|fuel]; [simpl in Hf; lia|]).
  - exists s. done.
  - apply Forall_cons in Ht as [He Ht]. pose proof He as (rc & vr & Hoe & _). cbn [fst] in Hoe. cbn [gather map fst].
    unfold setTypeNextObject, setTypeNext. cbn [si_encoding si_di si_subject]. rewrite bind_assoc, bind_mret, bind_assoc.
    unfold incrRefCount. rewrite (bind_upd_obj _ _ _ _ _ Hoe), bind_mret.
    destruct (set_state_incr s os ps e x _ HS (Hin _ ltac:(left)) Hoe) as (HS1 & Hel1 & Hinc). set (s1 := set_heap _ s) in *.
    destruct (IH fuel s1) as (s2 & E2 & HS2 & Ht2 & Hel2 & D2 & K2); [simpl in Hf; lia|done| |intros p Hp; apply Hin; by right|].
    { eapply Forall_impl; [exact Ht|]. apply Hel1. }
    rewrite (prog_bind_step _ _ _ _ _ E2). exists s2. split; [done|]. split; [done|]. split.
    + constructor; [|done]. apply Hel2. by apply (Hinc 1).
    + split; [|done]. intros r p Hp. by apply Hel2, Hel1.
Qed.

Lemma update_all_set_ok `{Tab : Tables} (g : sds -> sds) cur f s os ps :
  (forall s1 os1 ps1, set_state s1 os1 ps1 -> length ps1 = length ps ->
     set_fingerprint s1 so = set_fingerprint s so) ->
  set_state s os ps -> upd_fun_running (kv s) = 0 -> one_fun (o_vers os) cur f ->
  (forall x, x ∈ map snd ps -> tr f x = Some (g x) /\ NUL ∉ g x /\ not_integer (g x) /\ g x ∉ map snd ps) ->
  NoDup (map g (map snd ps)) ->
  exists s' os' ps', kvolve_update_all_set mu c (Some v) s = Done (0, s') /\ set_state s' os' ps' /\
    map snd ps' = map g (map snd ps) /\ o_vers os' = cur /\ dbs s' = dbs s /\ kv s' = kv s.
Proof.
  intros Hfp HS Hrun Hof Hg Hnd. unfold kvolve_update_all_set.
  rewrite (prog_bind_step _ _ _ _ _ (get_db_val_present s c v key so (set_state_arg c key so ka Hka _ _ _ _ HS Hka) (ss_lookup _ _ _ _ _ _ _ HS))).
  destruct (ss_set _ _ _ _ _ _ _ HS) as [H1 H2 H3 H4 H5 H6 H7]. rewrite (bind_deref _ _ _ _ H1), (of_cur _ _ _ Hof), bind_lift.
  rewrite (proj2 (Z.eqb_neq _ _)) by apply Hof. unfold setTypeInitIterator. rewrite bind_assoc, (bind_deref _ _ _ _ H1), H3.
  unfold set_dict. rewrite H4, bind_assoc, bind_lift, bind_mret, bind_gets. unfold setTypeSize, set_dict. rewrite H3, H4, bind_Done, bind_lift, length_map.
  destruct (gather_ok ps os ps (S (Z.to_nat (Z.of_nat (length ps)))) s ltac:(lia) HS H5 ltac:(done)) as (s1 & E1 & HS1 & Hr1 & _ & D1 & K1).
  rewrite (prog_bind_step _ _ _ _ _ E1).
  destruct (update_elems_ok g cur f ps [] true s1 os) as (s2 & l' & ns' & E2 & HS2 & Hm2 & D2 & K2); try done.
  { by rewrite app_nil_r. } { by rewrite K1. } { by rewrite app_nil_r. }
  rewrite (prog_bind_step _ _ _ _ _ E2). cbn [app] in HS2.
  unfold setTypeReleaseIterator. cbn [si_encoding si_subject].
  rewrite bind_assoc, bind_get_st, (Hfp _ _ _ HS2), Z.eqb_refl
    by (rewrite <- (length_map snd ns'), Hm2, !length_map; done).
  cbn [require_b]. rewrite bind_lift.
  pose proof (set_state_ka c key so ka Hka _ _ _ HS2) as Hks. destruct HS2 as [HT (ok & Hk & Hp) Hkn Hf HL Hl].
  destruct HT as [G1 G2 G3 G4 G5 G6 G7]. rewrite (bind_upd_obj _ _ _ _ _ G1).
  eexists _, (set_o_vers cur (set_o_ptr l' os)), ns'. split; [reflexivity|]. split; [|split; [done|]; split; [done|]; split; cbn; congruence].
  split; try done.
  - split; try done; [cbn; apply lookup_insert_eq|]. apply Forall_forall. intros p Hp'.
    eapply elem_frame; [|exact (proj1 (Forall_forall _ _) G5 p Hp')]. cbn. rewrite lookup_insert_ne; [done|].
    intros E. apply G7. rewrite E. by apply list_elem_of_fmap_2.
  - exists ok. cbn. by rewrite lookup_insert_ne.
  - intros a Ha. cbn. rewrite lookup_insert_ne; [by apply Hf|]. intros <-. rewrite Hf in G1 by done. done.
Qed.
End Sets2.

End KvolveUpd.
