(* ===== verification/Kvolve.v ===== *)
(** * kvolve.c: the command hook and the handlers

    kvolve_process_command runs before every command that Redis processes
    (networking.c).  It brings the keys and values that the command will use
    up to date, so that the command itself finds them where and as the
    connected program expects. *)
From S2P Require Import Prelude CStr Intset Util Server Object Db TString TSet Heap TList THash KvolveNs KvolveUpd.
Import Intset Object Db TString TSet KvolveNs KvolveUpd.

Module Kvolve.

(** ** The command table *)
Inductive kvolve_call :=
  | kvolve_set_ | kvolve_mset_ | kvolve_get_ | kvolve_mget_ | kvolve_getset_ | kvolve_getrange_
  | kvolve_incr_ | kvolve_incrby_ | kvolve_del_ | kvolve_hdel_ | kvolve_hget_ | kvolve_hgetall_
  | kvolve_hset_ | kvolve_hmset_ | kvolve_hmget_ | kvolve_lrange_ | kvolve_lpush_ | kvolve_lpop_
  | kvolve_llen_ | kvolve_lset_ | kvolve_rpush_ | kvolve_rpop_ | kvolve_setnx_ | kvolve_sadd_
  | kvolve_scard_ | kvolve_spop_ | kvolve_smembers_ | kvolve_sismember_ | kvolve_srem_
  | kvolve_zadd_ | kvolve_zcard_ | kvolve_zscore_ | kvolve_zrem_ | kvolve_zrange_
  | kvolve_zrevrange_ | kvolve_keys_.

#[global] Instance kvolve_call_eq_dec : EqDecision kvolve_call.
Proof. solve_decision. Defined.

Record kvolve_cmd_hash := mkCmd {
  cmd : sds;
  call : kvolve_call;
  min_args : Z
}.

Definition kvolveCommandTable : list kvolve_cmd_hash := [
  mkCmd (str "set") kvolve_set_ 3;
  mkCmd (str "mset") kvolve_mset_ 3;
  mkCmd (str "get") kvolve_get_ 2;
  mkCmd (str "mget") kvolve_mget_ 2;
  mkCmd (str "getset") kvolve_getset_ 3;
  mkCmd (str "getrange") kvolve_getrange_ 4;
  mkCmd (str "incr") kvolve_incr_ 2;
  mkCmd (str "incrby") kvolve_incrby_ 3;
  mkCmd (str "del") kvolve_del_ 2;
  mkCmd (str "hdel") kvolve_hdel_ 3;
  mkCmd (str "hget") kvolve_hget_ 3;
  mkCmd (str "hgetall") kvolve_hgetall_ 2;
  mkCmd (str "hset") kvolve_hset_ 4;
  mkCmd (str "hmset") kvolve_hmset_ 4;
  mkCmd (str "hmget") kvolve_hmget_ 3;
  mkCmd (str "lrange") kvolve_lrange_ 4;
  mkCmd (str "lpush") kvolve_lpush_ 3;
  mkCmd (str "lpop") kvolve_lpop_ 2;
  mkCmd (str "llen") kvolve_llen_ 2;
  mkCmd (str "lset") kvolve_lset_ 2;
  mkCmd (str "rpush") kvolve_rpush_ 3;
  mkCmd (str "rpop") kvolve_rpop_ 2;
  mkCmd (str "setnx") kvolve_setnx_ 3;
  mkCmd (str "sadd") kvolve_sadd_ 3;
  mkCmd (str "scard") kvolve_scard_ 3;
  mkCmd (str "spop") kvolve_spop_ 2;
  mkCmd (str "smembers") kvolve_smembers_ 2;
  mkCmd (str "sismember") kvolve_sismember_ 3;
  mkCmd (str "srem") kvolve_srem_ 3;
  mkCmd (str "zadd") kvolve_zadd_ 4;
  mkCmd (str "zcard") kvolve_zcard_ 2;
  mkCmd (str "zscore") kvolve_zscore_ 3;
  mkCmd (str "zrem") kvolve_zrem_ 3;
  mkCmd (str "zrange") kvolve_zrange_ 4;
  mkCmd (str "zrevrange") kvolve_zrevrange_ 4;
  mkCmd (str "keys") kvolve_keys_ 2
].

(** [after]: the bytes between the buffer calloc(strlen(cmd)) of an upper
    case name, which has no room for a NUL, and the next NUL in memory; empty
    when the byte after the buffer is zero. *)
Definition kvolve_populateCommandTable (after : sds) : list kvolve_cmd_hash :=
  concat (map (fun c => [c; mkCmd (map toupper (cmd c) ++ after) (call c) (min_args c)])
    kvolveCommandTable).

Definition kvolve_lookup_kv_command (after : sds) (name : sds) (argc : Z) : option kvolve_call :=
  match list_find (fun c => cmd c = cstr name) (kvolve_populateCommandTable after) with
  | None => None
  | Some (_, c_h) => if argc <? min_args c_h then None else Some (call c_h)
  end.

(** ** The handlers *)
Section Handlers.
Context (mu : upd_fun).
Context (dlopen : server -> sds -> option (list upd_call)).
Context `{Tab : Tables}.
(** kvolve_incr passes the key object itself to dictFind, which reads it as a
    string: whether that finds an entry is not determined. *)
Context (dictFind_robj : server -> addr -> bool).
(** The keys that a safe iterator over the keyspace visits, in order. *)
Context (visit : server -> nat -> list sds).
Context (after_ucase : sds).

Definition stamp_arg2 (c : client) (v : version_hash) : M unit :=
  a ← lift (argv c 2);
  cur ← lift (cur_vers v);
  upd_obj a (set_o_vers cur).

Definition kvolve_setnx (c : client) (v : version_hash) : M unit :=
  key ← arg_str c 1;
  s ← get_st;
  match lookupKey s (cl_db c) key with
  | Some _ => mret tt
  | None =>
    present ← kvolve_get_db_val c (Some v);
    match present with
    | None => mret tt
    | Some _ => kvolve_namespace_update c v
    end
  end.

Definition kvolve_setxx (c : client) (v : version_hash) : M unit :=
  _ ← kvolve_setnx c v;
  stamp_arg2 c v.

Definition kvolve_set (c : client) (v : version_hash) : M unit :=
  flags ← kvolve_get_flags c;
  if negb (Z.land flags REDIS_SET_XX =? 0) then kvolve_setxx c v
  else if negb (Z.land flags REDIS_SET_NX =? 0) then kvolve_setnx c v
  else
    _ ← stamp_arg2 c v;
    match prev_ns v with
    | None => mret tt
    | Some _ =>
      key ← arg_str c 1;
      s ← get_st;
      match lookupKey s (cl_db c) key with
      | Some _ => mret tt
      | None => kvolve_checkdel_old c (Some v)
      end
    end.

(** c_fake has the arguments of one key and value pair. *)
Definition kvolve_mset (c : client) (v : version_hash) : M unit :=
  c_fake ← createClient 3;
  let c_fake := set_cl_argc 3 (set_cl_db (cl_db c) c_fake) in
  _ ← lift (require_b AssertFail (cl_argc c mod 2 =? 1));
  for_each (mset_keys c) (fun i =>
    k ← lift (argv c i);
    x ← lift (argv c (S i));
    c_fake ← lift (put_argv 1 k c_fake);
    c_fake ← lift (put_argv 2 x c_fake);
    kvolve_set c_fake v).

Definition kvolve_get (c : client) (v : version_hash) : M unit :=
  kvolve_check_update_kv_pair mu c (Some v) true None KString.

Definition kvolve_del (c : client) (v : version_hash) : M unit :=
  kvolve_check_rename c (Some v) (cl_argc c).

Definition kvolve_getrange (c : client) (v : version_hash) : M unit := kvolve_get c v.
Definition kvolve_getset (c : client) (v : version_hash) : M unit := kvolve_get c v.

Definition ignore (m : M Z) : M unit := _ ← m; mret tt.

Definition kvolve_sismember (c : client) (v : version_hash) : M unit :=
  ignore (kvolve_update_all_set mu c (Some v)).
Definition kvolve_srem := kvolve_sismember.
Definition kvolve_scard := kvolve_sismember.
Definition kvolve_spop := kvolve_sismember.
Definition kvolve_smembers := kvolve_sismember.

Definition kvolve_zcard (c : client) (v : version_hash) : M unit :=
  ignore (kvolve_update_all_zset mu c (Some v)).
Definition kvolve_zrem := kvolve_zcard.
Definition kvolve_zscore := kvolve_zcard.
Definition kvolve_zrange := kvolve_zcard.
Definition kvolve_zrevrange := kvolve_zcard.

Definition kvolve_lrange (c : client) (v : version_hash) : M unit :=
  ignore (kvolve_update_all_list mu c (Some v)).
Definition kvolve_lpop := kvolve_lrange.
Definition kvolve_rpop := kvolve_lrange.
Definition kvolve_llen := kvolve_lrange.
Definition kvolve_lset := kvolve_lrange.

Definition kvolve_hmget (c : client) (v : version_hash) : M unit :=
  ignore (kvolve_update_all_hash mu c (Some v)).
Definition kvolve_hget := kvolve_hmget.
Definition kvolve_hdel := kvolve_hmget.
Definition kvolve_hgetall := kvolve_hmget.

(** The container is new: its version is set once it exists. *)
Definition or_new_version (m : M Z) (c : client) (v : version_hash) : M unit :=
  ret ← m;
  when (ret =? 1) (kvolve_new_version c v).

Definition kvolve_sadd (c : client) (v : version_hash) : M unit :=
  or_new_version (kvolve_update_all_set mu c (Some v)) c v.
Definition kvolve_zadd (c : client) (v : version_hash) : M unit :=
  or_new_version (kvolve_update_all_zset mu c (Some v)) c v.
Definition kvolve_lpush (c : client) (v : version_hash) : M unit :=
  or_new_version (kvolve_update_all_list mu c (Some v)) c v.
Definition kvolve_rpush (c : client) (v : version_hash) : M unit := kvolve_lpush c v.
Definition kvolve_hmset (c : client) (v : version_hash) : M unit :=
  or_new_version (kvolve_update_all_hash mu c (Some v)) c v.
Definition kvolve_hset (c : client) (v : version_hash) : M unit := kvolve_hmset c v.

Definition kvolve_incr (c : client) (v : version_hash) : M unit :=
  match prev_ns v with
  | None => mret tt
  | Some _ =>
    a ← lift (argv c 1);
    s ← get_st;
    if dictFind_robj s a then mret tt
    else
      r ← kvolve_get_db_val c (Some v);
      match r with
      | None => mret tt
      | Some _ => kvolve_namespace_update c v
      end
  end.
Definition kvolve_incrby (c : client) (v : version_hash) : M unit := kvolve_incr c v.

Definition kvolve_mget (c : client) (v : version_hash) : M unit :=
  c_fake ← createClient 2;
  let c_fake := set_cl_argc 2 (set_cl_db (cl_db c) c_fake) in
  for_each (seq 1 (Z.to_nat (cl_argc c - 1))) (fun i =>
    k ← lift (argv c i);
    c_fake ← lift (put_argv 1 k c_fake);
    kvolve_get c_fake v).

(** One key of the iteration of kvolve_keys: renamed when the name it has in
    the next namespace matches. *)
Definition keys_visit (c : client) (pattern key : sds) : M unit :=
  l ← gets (fun s => vers_list (kv s));
  match kvolve_version_hash_lookup l key with
  | None => mret tt
  | Some v =>
    match next_ns v with
    | None => mret tt
    | Some nx =>
      new ← lift (kvolve_construct_prev_name key nx);
      hit ← lift (Util.stringmatchlen pattern new false);
      when hit
        (a ← lift (argv c 1);
         _ ← upd_obj a (set_o_ptr (PSds new));
         v' ← lift (expect NullDeref (kvolve_version_hash_lookup l new));
         kvolve_namespace_update c v')
    end
  end.

Definition kvolve_keys (c : client) : M unit :=
  pattern ← arg_str c 1;
  a ← lift (argv c 1);
  if strcmp_eq (str "kvolve") pattern then upd_obj a (set_o_ptr (PSds (str "*")))
  else
    s ← get_st;
    _ ← for_each (visit s (cl_db c)) (keys_visit c pattern);
    upd_obj a (set_o_ptr (PSds pattern)).

(** The handler that an entry of the table points to. *)
Definition run_call (f : kvolve_call) (c : client) (v : version_hash) : M unit :=
  match f with
  | kvolve_set_ => kvolve_set c v
  | kvolve_mset_ => kvolve_mset c v
  | kvolve_get_ => kvolve_get c v
  | kvolve_mget_ => kvolve_mget c v
  | kvolve_getset_ => kvolve_getset c v
  | kvolve_getrange_ => kvolve_getrange c v
  | kvolve_incr_ => kvolve_incr c v
  | kvolve_incrby_ => kvolve_incrby c v
  | kvolve_del_ => kvolve_del c v
  | kvolve_hdel_ => kvolve_hdel c v
  | kvolve_hget_ => kvolve_hget c v
  | kvolve_hgetall_ => kvolve_hgetall c v
  | kvolve_hset_ => kvolve_hset c v
  | kvolve_hmset_ => kvolve_hmset c v
  | kvolve_hmget_ => kvolve_hmget c v
  | kvolve_lrange_ => kvolve_lrange c v
  | kvolve_lpush_ => kvolve_lpush c v
  | kvolve_lpop_ => kvolve_lpop c v
  | kvolve_llen_ => kvolve_llen c v
  | kvolve_lset_ => kvolve_lset c v
  | kvolve_rpush_ => kvolve_rpush c v
  | kvolve_rpop_ => kvolve_rpop c v
  | kvolve_setnx_ => kvolve_setnx c v
  | kvolve_sadd_ => kvolve_sadd c v
  | kvolve_scard_ => kvolve_scard c v
  | kvolve_spop_ => kvolve_spop c v
  | kvolve_smembers_ => kvolve_smembers c v
  | kvolve_sismember_ => kvolve_sismember c v
  | kvolve_srem_ => kvolve_srem c v
  | kvolve_zadd_ => kvolve_zadd c v
  | kvolve_zcard_ => kvolve_zcard c v
  | kvolve_zscore_ => kvolve_zscore c v
  | kvolve_zrem_ => kvolve_zrem c v
  | kvolve_zrange_ => kvolve_zrange c v
  | kvolve_zrevrange_ => kvolve_zrevrange c v
  | kvolve_keys_ => kvolve_keys c
  end.

(** ** The hook *)
Definition restore_stats (n h m : Z) : M unit :=
  modify (fun s => set_stats (set_stat_numcommands n
    (set_stat_keyspace_hits h (set_stat_keyspace_misses m (stats s)))) s).

(** Which of the branches of kvolve_process_command the command takes. *)
Definition is_setname (c : client) : M bool :=
  if cl_argc c =? 3 then
    a0 ← arg_str c 0;
    if strcasecmp_eq a0 (str "client") then
      a1 ← arg_str c 1; mret (strcasecmp_eq a1 (str "setname"))
    else mret false
  else mret false.

Definition is_keys (c : client) : M bool :=
  if cl_argc c =? 2 then a0 ← arg_str c 0; mret (strcasecmp_eq a0 (str "keys")) else mret false.

Definition dispatch (c : client) : M bool :=
  key ← arg_str c 1;
  l ← gets (fun s => vers_list (kv s));
  match kvolve_version_hash_lookup l key with
  | None => mret false
  | Some v =>
    a0 ← arg_str c 0;
    match kvolve_lookup_kv_command after_ucase a0 (cl_argc c) with
    | None => mret false
    | Some fun_ => _ ← run_call fun_ c v; mret true
    end
  end.

Definition kvolve_process_command (c : client) : M unit :=
  st ← gets stats;
  _ ← kvolve_prevcall_check;
  setname ← is_setname c;
  restore ←
    (if (setname : bool) then
       a2 ← arg_str c 2;
       _ ← (if strncasecmp_eq a2 (str "update") 6
            then kvolve_load_update dlopen c (drop 6 a2)
            else kvolve_check_version c);
       mret true
     else
       keys ← is_keys c;
       if (keys : bool) then _ ← kvolve_keys c; mret true
       else if cl_argc c >? 1 then dispatch c
       else mret true);
  when restore (restore_stats (stat_numcommands st) (stat_keyspace_hits st) (stat_keyspace_misses st)).

End Handlers.

(** ** Reads through kvolve

    The value that a program connected at the current version must see, and
    that the hook followed by GET returns. *)

Definition current (v : version_hash) (tr : fptr -> sds -> option sds) (cur : Z) (o : robj) (x : sds) : sds :=
  if o_vers o =? cur then x else migrate tr v (o_vers o) x.

(** C37: GET of a key that is stored under its current name, at any version: the
    value is a raw string object (no integer encoding), the key is not due to
    expire, no update function is running, the entry of the namespace is
    well-formed, and an update function gives a new value or none from the bytes
    alone and changes nothing else.  The reply is the stored bytes passed through every
    update function between the version of the value and the current one, in
    order; the object is left at the current version with that value, and no
    other object, no key and nothing in kvolve's state changes. *)
Theorem get_updates_value (mu : upd_fun) (tr : fptr -> sds -> option sds)
    (c : client) (v : version_hash) (key : sds) (a : positive) (o : robj) (x : sds) (cur : Z) (s : server) :
  PureUpdates mu tr -> wf_vh v -> cur_vers v = Done cur -> upd_fun_running (kv s) = 0 ->
  key_arg s c key a -> live s (cl_db c) key -> lookupKey s (cl_db c) key = Some a ->
  heap s !! a = Some o -> o_type o = REDIS_STRING -> o_ptr o = PSds x ->
  exists s', (_ ← kvolve_get mu c v; getCommand c) s = Done (add_reply (RBulk (current v tr cur o x)) c, s') /\
    heap s' = <[a := set_o_vers cur (set_o_ptr (PSds (current v tr cur o x)) o)]> (heap s) /\
    dbs s' = dbs s /\ kv s' = kv s.
Proof.
  intros Hmu Hw Hc Hrun Hk HL Hl Ha Ht Hx. unfold kvolve_get.
  destruct (check_update_present mu tr c v key a Hw o x cur s Hk Ha Hx Hl Hrun Hc) as (s1 & E1 & W1).
  rewrite (prog_bind_step _ _ _ _ _ E1). pose proof W1 as [H1 H2 H3 H4 H5 H6].
  set (o' := if o_vers o =? cur then o else _) in *.
  assert (Ho' : o' = set_o_vers cur (set_o_ptr (PSds (current v tr cur o x)) o)).
  { subst o'. unfold current. destruct (Z.eqb_spec (o_vers o) cur) as [<-|]; [|done]. destruct o; cbn in *. by subst. }
  destruct (getCommand_string c key a o' (current v tr cur o x) s1) as (s2 & E2 & [R1 R2 R3 R4]).
  - eapply key_arg_str, key_arg_wrote; [exact W1|exact Hk].
  - eapply live_ext; [|exact H4|exact HL]. unfold get_db. by rewrite H3.
  - rewrite <- Hl. apply lookupKey_ext. unfold get_db. by rewrite H3.
  - by apply wrote_lookup with s.
  - by rewrite Ho'.
  - by rewrite Ho'.
  - exists s2. split; [done|]. rewrite R1, H1, Ho', R2, H3, R3, H5. done.
Qed.

(** C1: GET, by a client on database 0, of a key that is still stored under its
    name in the previous namespace.  The stored value is a raw string object (no
    integer encoding) at an older version, the last one before the namespace
    changed, neither name is due to expire, and no update function is running;
    the entry of the namespace is well-formed, and an update function gives a new
    value or none from the bytes alone and changes nothing else (an expire time of -1, the code's mark for none, is not stored).
    The hook renames the stored key to its current name: the current name has the
    object itself and the expire time that the old name had, or none if that had
    none; the old name and its expire time are gone; no other key, expire time or
    database changes.  The value is passed through the update functions of all
    versions that it has missed, in order, and stamped with the current one; no
    other object changes; GET replies with the updated value. *)
Theorem get_moves_and_updates (mu : upd_fun) (tr : fptr -> sds -> option sds)
    (c : client) (v : version_hash) (key old : sds) (a : positive) (o : robj) (x : sds) (cur : Z) (s : server) :
  PureUpdates mu tr -> wf_vh v -> cur_vers v = Done cur -> upd_fun_running (kv s) = 0 ->
  cl_db c = 0%nat -> key_arg s c key a -> in_prev s v key old a o -> db_expires (get_db s 0) !! old <> Some (-1) ->
  o_type o = REDIS_STRING -> o_ptr o = PSds x -> o_vers o <> cur ->
  ns_changed v (find_vers v (o_vers o)) = Done true ->
  exists s', (_ ← kvolve_get mu c v; getCommand c) s
      = Done (add_reply (RBulk (migrate tr v (o_vers o) x)) c, s') /\
    heap s' = <[a := set_o_vers cur (set_o_ptr (PSds (migrate tr v (o_vers o) x)) o)]> (heap s) /\
    (forall k, lookupKey s' 0 k = if decide (k = key) then Some a else if decide (k = old) then None else lookupKey s 0 k) /\
    db_expires (get_db s' 0) !! key = db_expires (get_db s 0) !! old /\
    (forall k, k <> key -> db_expires (get_db s' 0) !! k = if decide (k = old) then None else db_expires (get_db s 0) !! k) /\
    (forall j, j <> 0%nat -> get_db s' j = get_db s j) /\ kv s' = kv s.
Proof.
  intros Hmu Hw Hc Hrun Hdb Hk Hip Hexp Ht Hx Hne Hch. unfold kvolve_get.
  destruct (check_update_moved mu tr c v key a Hw o x cur old s Hdb Hk Hip Hx Hrun Hc Hne Hch)
    as (s1 & E1 & H1 & H2 & H3 & H4 & H5).
  rewrite (prog_bind_step _ _ _ _ _ E1). destruct Hip as [_ Hon Hv Hlo Hln Ha Hr L1 L2 Hf].
  destruct (live_moved 0 old key a s s1 Hv Hon Hln L1 L2 H2 H4) as [HL Hl].
  set (o' := set_o_vers cur _) in H1.
  destruct (getCommand_string c key a o' (migrate tr v (o_vers o) x) s1) as (s2 & E2 & [R1 R2 R3 R4]).
  - destruct Hk as (b & ob & ? & ? & ? & ?). exists b, ob. split; [done|]. by rewrite H1, lookup_insert_ne.
  - by rewrite Hdb.
  - by rewrite Hdb.
  - rewrite H1. apply lookup_insert_eq.
  - done.
  - done.
  - exists s2. split; [done|]. rewrite R1, H1, R3, H3. split; [done|].
    assert (Hg : forall j, get_db s2 j = if decide (0%nat = j) then rename_db old key a (get_db s 0) else get_db s j).
    { intros j. unfold get_db at 1. rewrite R2, H2. by apply (get_db_put s 0 j). }
    split; [intros k; by apply (lookup_rename_db s s2 0)|]. rewrite (Hg 0%nat). cbn [decide decide_rel].
    split; [by apply rename_db_expire|]. split; [intros k Hkk; by apply rename_db_expires|].
    split; [|done]. intros j Hj. by rewrite Hg, decide_False.
Qed.

(** A concrete instance: namespace "b" replaced "a" when version 1 became 2,
    with one update function (number 40) that appends "UPDATED". *)
Definition demo_tr (f : fptr) (x : sds) : option sds :=
  if f =? 40 then Some (x ++ str "UPDATED") else None.
Definition demo_mu (f : fptr) (key : sds) (p : upd_value) (len : Z) : M mu_result :=
  match p with
  | VPtr (PSds x) => mret (mkMu None (demo_tr f x) (match demo_tr f x with Some y => sdslen y | None => len end) None None)
  | _ => throw NullDeref
  end.

#[global] Instance demo_pure : PureUpdates demo_mu demo_tr.
Proof. intros f key x len s. reflexivity. Defined.

Definition demo_info : kvolve_upd_info := mkInfo (str "a") (str "b") 1 2 [40] 1.
Definition demo_b : version_hash :=
  set_info (None :: Some demo_info :: replicate 18 None) (demo_vh "b" (Some "a") [1; 2]).
Definition get_client : client := client_of 0 [10; 11]%positive.
Definition demo_server (stored_as : string) : server :=
  with_ns [demo_vh "a" None [1]; demo_b]
    (put_key 0 stored_as 12 (put_obj 12 (str_obj "val" 1) (put_obj 11 (str_obj "b:x" 0) server0))).

Lemma demo_b_wf : wf_vh demo_b.
Proof. split; vm_compute; intuition congruence. Qed.

Lemma demo_key_arg k : key_arg (demo_server k) get_client (str "b:x") 12%positive.
Proof. exists 11%positive, (str_obj "b:x" 0). vm_compute. repeat split. discriminate. Qed.

Lemma get_updates_value_witness :
  exists s', (_ ← kvolve_get demo_mu get_client demo_b; getCommand get_client) (demo_server "b:x")
    = Done (add_reply (RBulk (str "valUPDATED")) get_client, s').
Proof.
  destruct (get_updates_value demo_mu demo_tr get_client demo_b (str "b:x") 12%positive (str_obj "val" 1) (str "val") 2
    (demo_server "b:x") demo_pure demo_b_wf) as (s' & H & _).
  - vm_compute. reflexivity.
  - reflexivity.
  - apply demo_key_arg.
  - vm_compute. exact I.
  - vm_compute. reflexivity.
  - vm_compute. reflexivity.
  - reflexivity.
  - reflexivity.
  - exists s'. exact H.
Defined.

Lemma fresh_server_heap (s : server) :
  (forall a, is_Some (heap s !! a) -> (a < next_addr s)%positive) -> heap_fresh s.
Proof.
  intros H a Ha. destruct (heap s !! a) eqn:E; [|done]. specialize (H a ltac:(eauto)). lia.
Qed.

Lemma demo_in_prev : in_prev (demo_server "a:x") demo_b (str "b:x") (str "a:x") 12%positive (str_obj "val" 1).
Proof.
  split; [exists (str "a"); split; vm_compute; reflexivity|discriminate| | | | | | | |].
  1-7: vm_compute; first [reflexivity | exact I | lia | discriminate].
  - apply fresh_server_heap. intros a [o Ho].
    change (heap (demo_server "a:x")) with (<[12%positive := str_obj "val" 1]> (<[11%positive := str_obj "b:x" 0]> (∅ : gmap positive robj))) in Ho.
    change (next_addr (demo_server "a:x")) with 20000%positive.
    destruct (decide (a = 12%positive)) as [->|]; [lia|]. rewrite lookup_insert_ne in Ho by done.
    destruct (decide (a = 11%positive)) as [->|]; [lia|]. by rewrite lookup_insert_ne in Ho by done.
Qed.

Lemma get_moves_and_updates_witness :
  exists s', (_ ← kvolve_get demo_mu get_client demo_b; getCommand get_client) (demo_server "a:x")
    = Done (add_reply (RBulk (str "valUPDATED")) get_client, s').
Proof.
  destruct (get_moves_and_updates demo_mu demo_tr get_client demo_b (str "b:x") (str "a:x") 12%positive
    (str_obj "val" 1) (str "val") 2 (demo_server "a:x") demo_pure demo_b_wf) as (s' & H & _).
  - vm_compute. reflexivity.
  - reflexivity.
  - reflexivity.
  - apply demo_key_arg.
  - apply demo_in_prev.
  - vm_compute. discriminate.
  - reflexivity.
  - reflexivity.
  - discriminate.
  - vm_compute. reflexivity.
  - exists s'. exact H.
Defined.

(** A value that is already at the current version is left alone, whatever
    its type: no update function runs, and the hook of GET changes nothing at
    all.  (So a second read never updates again.) *)
Theorem get_current_untouched (mu : upd_fun) (c : client) (v : version_hash)
    (key : sds) (a : positive) (o : robj) (s : server) :
  str_arg s c 1 key -> lookupKey s (cl_db c) key = Some a -> heap s !! a = Some o ->
  is_small_int o = false -> cur_vers v = Done (o_vers o) ->
  kvolve_get mu c v s = Done (tt, s).
Proof.
  intros Hk Hl Ha Hi Hc. unfold kvolve_get, kvolve_check_update_kv_pair. rewrite bind_gets.
  destruct (_ =? 1); [done|].
  rewrite (prog_bind_step _ _ _ _ _ (get_db_val_present _ _ v _ _ Hk Hl)), (bind_deref _ _ _ _ Ha), Hi, Hc, bind_lift.
  by rewrite Z.eqb_refl.
Qed.

Definition current_server : server :=
  with_ns [demo_b] (put_key 0 "b:x" 12 (put_obj 12 (str_obj "val" 2) (put_obj 11 (str_obj "b:x" 0) server0))).

Lemma get_current_untouched_witness :
  kvolve_get demo_mu get_client demo_b current_server = Done (tt, current_server).
Proof.
  apply (get_current_untouched demo_mu get_client demo_b (str "b:x") 12%positive (str_obj "val" 2)).
  - exists 11%positive, (str_obj "b:x" 0). vm_compute. repeat split.
  - vm_compute. reflexivity.
  - vm_compute. reflexivity.
  - reflexivity.
  - vm_compute. reflexivity.
Defined.

(** ** Writes through kvolve *)

Lemma get_flags_none c s : cl_argc c <= 3 -> kvolve_get_flags c s = Done (0, s).
Proof.
  intros H. unfold kvolve_get_flags. replace (Z.to_nat (cl_argc c - 3)) with 0%nat by lia. done.
Qed.

(** What the search through the previous namespaces finds for a key that is not
    in the database: an old name that has a value, if any. *)
Definition search_finds (s : server) (i : nat) (v : version_hash) (key : sds) (found : option (sds * addr)) : Prop :=
  lookupKey s i key = None -> prev_loop (prev_fuel s) s i key (Some v) = Done found.

(** [k] is the old name that was found. *)
Definition is_found (found : option (sds * addr)) (k : sds) : bool :=
  match found with Some (old, _) => bool_decide (k = old) | None => false end.

Lemma checkdel_old_ok s c v key found bs :
  str_arg s c 1 key -> prev_ns v <> None -> search_finds s (cl_db c) v key found ->
  valid_db s (cl_db c) -> (forall old a, found = Some (old, a) -> sole_string s (cl_db c) old bs) ->
  lookupKey s (cl_db c) key = None -> live s (cl_db c) key ->
  exists s', kvolve_checkdel_old c (Some v) s = Done (tt, s') /\
    (forall x, x ∈ bs -> heap s' !! x = heap s !! x) /\
    valid_db s' (cl_db c) /\ live s' (cl_db c) key /\ kv s' = kv s /\
    (forall k, lookupKey s' (cl_db c) k = if is_found found k then None else lookupKey s (cl_db c) k).
Proof.
  intros Hk Hp Hn Hv Hs Hl HL. unfold kvolve_checkdel_old. destruct (prev_ns v) as [p|] eqn:Ep; [|done].
  rewrite (bind_arg_str _ _ _ _ _ Hk), bind_get_st, (Hn Hl), bind_lift. specialize (Hn Hl).
  destruct found as [[old a]|]; [|exists s; by split_and!]. specialize (Hs old a eq_refl).
  pose proof (prev_loop_found _ _ _ _ _ _ _ Hn) as Hlo.
  destruct (dbDelete_sole s (cl_db c) old bs Hv Hs) as (r & s' & E & H1 & H2 & H3 & H4 & H5 & H6).
  rewrite (prog_bind_step _ _ _ _ _ E). exists s'. split; [done|].
  assert (Hg : get_db s' (cl_db c) = del_key old (get_db s (cl_db c))).
  { unfold get_db at 1. rewrite H3. by apply (get_db_put_eq s (cl_db c)). }
  assert (Hne : old <> key) by congruence. split_and!; try done.
  - unfold valid_db. by rewrite H3, length_insert.
  - unfold live, now in *. rewrite Hg, H4. cbn. by rewrite !lookup_delete_ne.
  - intros k. unfold lookupKey, is_found. rewrite Hg. cbn. case_bool_decide as E'; [subst; apply lookup_delete_eq|by rewrite lookup_delete_ne].
Qed.

Lemma kvolve_set_plain s c v key found b ob x cur ka :
  cl_argc c = 3 -> cur_vers v = Done cur -> cl_argv c !! 1%nat = Some (Some ka) -> ka <> b ->
  str_arg s c 1 key -> text_arg s c 2 b ob x -> search_finds s (cl_db c) v key found -> valid_db s (cl_db c) ->
  live s (cl_db c) key -> sole_string s (cl_db c) key [b; ka] ->
  (forall old a, found = Some (old, a) -> sole_string s (cl_db c) old [b; ka]) ->
  exists s', kvolve_set c v s = Done (tt, s') /\ str_arg s' c 1 key /\
    text_arg s' c 2 b (set_o_vers cur ob) x /\ valid_db s' (cl_db c) /\ live s' (cl_db c) key /\
    sole_string s' (cl_db c) key [b] /\ kv s' = kv s /\
    (forall k, lookupKey s' (cl_db c) k =
       if bool_decide (lookupKey s (cl_db c) key = None) && is_found found k then None else lookupKey s (cl_db c) k).
Proof.
  intros Hc Hcur Hka Hne Hk Hb Hn Hv HL Hs Hso. unfold kvolve_set.
  rewrite (prog_bind_step _ _ _ _ _ (get_flags_none c s ltac:(lia))). change (Z.land 0 REDIS_SET_XX) with 0. change (Z.land 0 REDIS_SET_NX) with 0. cbn [Z.eqb negb].
  unfold stamp_arg2. destruct Hb as [B1 B2 B3 B4 B5 B6 B7]. rewrite bind_assoc, (argv_Done _ _ _ B1), bind_lift, bind_assoc, Hcur, bind_lift.
  rewrite (bind_upd_obj _ _ _ _ _ B2). set (s1 := set_heap _ s).
  assert (Hk1 : str_arg s1 c 1 key).
  { destruct Hk as (k & ok & K1 & K2 & K3). exists k, ok. rewrite Hka in K1. injection K1 as <-.
    subst s1. cbn. by rewrite lookup_insert_ne. }
  assert (Hb1 : text_arg s1 c 2 b (set_o_vers cur ob) x) by (split; try done; apply lookup_insert_eq).
  assert (Hso1 : forall k, sole_string s (cl_db c) k [b; ka] -> sole_string s1 (cl_db c) k [b; ka]).
  { intros k Hk' a Ha. destruct (Hk' a Ha) as (o & O1 & O2 & O3 & O4). exists o. subst s1. cbn.
    rewrite lookup_insert_ne by set_solver. done. }
  assert (Hweak : forall st k, sole_string st (cl_db c) k [b; ka] -> sole_string st (cl_db c) k [b]).
  { intros st k Hk' a Ha. destruct (Hk' a Ha) as (o & O1 & O2 & O3 & O4). exists o. set_solver. }
  assert (Hn1 : search_finds s1 (cl_db c) v key found).
  { intros Hl. rewrite <- (Hn Hl). by apply prev_loop_ext. }
  destruct (prev_ns v) as [p|] eqn:Ep.
  2:{ exists s1. split; [done|]. split_and!; try done; [by apply Hweak, Hso1|]. intros k. case_bool_decide as Hl; [|done].
      specialize (Hn Hl). unfold prev_fuel in Hn. cbn [prev_loop] in Hn. rewrite Ep in Hn. by injection Hn as <-. }
  rewrite (bind_arg_str _ _ _ _ _ Hk1), bind_get_st. destruct (lookupKey s1 (cl_db c) key) as [a|] eqn:El.
  { change (lookupKey s (cl_db c) key = Some a) in El. exists s1. split; [done|]. split_and!; try done; [by apply Hweak, Hso1|].
    intros k. by rewrite El, bool_decide_false. }
  destruct (checkdel_old_ok s1 c v key found [b; ka]) as (s2 & E & H1 & H2 & H3 & H4 & H5); try done.
  { by rewrite Ep. } { intros old a Hf. by eapply Hso1, Hso. }
  change (lookupKey s (cl_db c) key = None) in El. exists s2. split; [exact E|]. rewrite El, bool_decide_true by done. split_and!; try done.
  - destruct Hk1 as (k & ok & K1 & K2 & K3). exists k, ok. rewrite Hka in K1. injection K1 as <-. by rewrite H1 by set_solver.
  - destruct Hb1. split; try done. by rewrite H1 by set_solver.
  - intros a Ha. rewrite H5 in Ha. change (lookupKey s1 (cl_db c) key) with (lookupKey s (cl_db c) key) in Ha. rewrite El in Ha. by destruct (is_found found key).
Qed.

Lemma stored_lookup i key b ob s s' k : stored i key b ob s s' -> valid_db s i ->
  lookupKey s' i k = (if decide (k = key) then Some b else lookupKey s i k).
Proof.
  intros [_ _ H _ _] Hv. unfold lookupKey, get_db at 1. rewrite H, list_lookup_insert_eq by done. cbn.
  destruct (decide (k = key)) as [->|]; [by rewrite lookup_insert_eq|by rewrite lookup_insert_ne].
Qed.

(** C2: SET key value, without further arguments, of a value that is no integer
    and that only the client's argument refers to; the key and the old name that
    the search finds, if they have values, have strings that nothing else refers
    to, and the key is not due to expire.  After the hook and the command the
    reply is OK and the key has the client's own value object, stamped with the
    current version of the namespace and with no expire time.  If the key was not
    there, the value under the old name that the search through the previous
    namespaces finds, however far back, is deleted, so that it cannot come back
    (the search must end: prev_loop_diverges); no other key is added or taken away, and kvolve's state is as before. *)
Theorem set_stamps_version (c : client) (v : version_hash) (key : sds) (found : option (sds * positive))
    (b ka : positive) (ob : robj) (x : sds) (cur : Z) (s : server) :
  cl_argc c = 3 -> cur_vers v = Done cur -> cl_argv c !! 1%nat = Some (Some ka) -> ka <> b ->
  str_arg s c 1 key -> text_arg s c 2 b ob x -> search_finds s (cl_db c) v key found -> valid_db s (cl_db c) ->
  live s (cl_db c) key -> sole_string s (cl_db c) key [b; ka] ->
  (forall old a, found = Some (old, a) -> sole_string s (cl_db c) old [b; ka]) ->
  exists s', (_ ← kvolve_set c v; setCommand c) s = Done (add_reply ROk c, s') /\
    heap s' !! b = Some (set_o_refcount 2 (set_o_vers cur ob)) /\
    db_expires (get_db s' (cl_db c)) !! key = None /\
    (forall k, lookupKey s' (cl_db c) k =
       if decide (k = key) then Some b
       else if bool_decide (lookupKey s (cl_db c) key = None) && is_found found k then None
       else lookupKey s (cl_db c) k) /\ kv s' = kv s.
Proof.
  intros Hc Hcur Hka Hne Hk Hb Hn Hv HL Hs Hso.
  destruct (kvolve_set_plain s c v key found b ob x cur ka Hc Hcur Hka Hne Hk Hb Hn Hv HL Hs Hso)
    as (s1 & E1 & K1 & K2 & K3 & K4 & K5 & K6 & K7).
  rewrite (prog_bind_step _ _ _ _ _ E1).
  destruct (setCommand_plain s1 c key b _ x Hc K1 K2 K3 K4 K5) as (s2 & E2 & H2).
  exists s2. split; [done|]. pose proof H2 as [V1 V2 V3 V4 V5]. split.
  { rewrite V1. cbn. by rewrite (ta_refs _ _ _ _ _ _ Hb). }
  split. { unfold get_db. rewrite V3, list_lookup_insert_eq by done. cbn. apply lookup_delete_eq. }
  split; [|congruence]. intros k. by rewrite (stored_lookup _ _ _ _ _ _ k H2 K3), K7.
Qed.

Definition set_client : client := client_of 0 [10; 11; 13]%positive.
Definition set_server : server := put_obj 13 (str_obj "new" 0) (demo_server "a:x").

Lemma set_stamps_version_witness :
  exists s', (_ ← kvolve_set set_client demo_b; setCommand set_client) set_server
    = Done (add_reply ROk set_client, s') /\ lookupKey s' 0 (str "a:x") = None.
Proof.
  destruct (set_stamps_version set_client demo_b (str "b:x") (Some (str "a:x", 12%positive)) 13%positive 11%positive
    (str_obj "new" 0) (str "new") 2 set_server) as (s' & H & _ & _ & G & _).
  - reflexivity.
  - vm_compute. reflexivity.
  - reflexivity.
  - discriminate.
  - exists 11%positive, (str_obj "b:x" 0). vm_compute. repeat split.
  - split; try (vm_compute; reflexivity). right. vm_compute. reflexivity.
  - intros _. vm_compute. reflexivity.
  - vm_compute. lia.
  - vm_compute. exact I.
  - intros a Ha. vm_compute in Ha. discriminate Ha.
  - intros o b [= <- <-] a Ha. vm_compute in Ha. injection Ha as <-. exists (str_obj "val" 1).
    split; [vm_compute; reflexivity|]. split; [reflexivity|]. split; [reflexivity|].
    apply (bool_decide_unpack _). vm_compute. exact I.
  - exists s'. split; [exact H|]. specialize (G (str "a:x")). vm_compute in G. exact G.
Defined.

(** ** The hook *)

Lemma upd_obj_inv a g s u s' : upd_obj a g s = Done (u, s') ->
  exists o, heap s !! a = Some o /\ s' = set_heap (<[a := g o]> (heap s)) s.
Proof. unfold upd_obj. destruct (heap s !! a) as [o|]; [|done]. intros [= <- <-]. eauto. Qed.

Lemma prevcall_loop_stats ts : forall s r s', prevcall_loop ts s = Done (r, s') -> stats s' = stats s.
Proof.
  induction ts as [|t ts IH]; intros s r s' H; cbn [prevcall_loop] in H; [by injection H as <- <-|].
  rewrite bind_get_st in H. destruct (lookupKey s (tv_prev_db t) (tv_key t)) as [a|].
  - apply prog_bind_inv in H as ([] & s1 & H1 & H). apply upd_obj_inv in H1 as (o & _ & ->).
    apply IH in H. exact H.
  - apply prog_bind_inv in H as (k & s1 & H1 & H). injection H as <- <-. by apply IH in H1.
Qed.

Lemma prevcall_check_stats s s' : kvolve_prevcall_check s = Done (tt, s') -> stats s' = stats s.
Proof.
  unfold kvolve_prevcall_check. rewrite bind_gets. destruct (tmp_store (kv s)) as [|t ts].
  - by intros [= <-].
  - intros H. apply prog_bind_inv in H as (k & s1 & H1 & [= <-]). by apply prevcall_loop_stats in H1.
Qed.

Lemma arg_str_inv c i s x s' : arg_str c i s = Done (x, s') -> s' = s.
Proof.
  unfold arg_str. intros H. apply prog_bind_inv in H as (a & s1 & H1 & H). unfold lift in H1.
  destruct (argv c i) as [b|]; [|done]. injection H1 as <- <-.
  apply prog_bind_inv in H as (o & s2 & H2 & H). unfold deref in H2. destruct (heap s !! b) as [ob|]; [|done].
  injection H2 as <- <-. unfold lift in H. destruct (sds_of ob); [|done]. by injection H as <- <-.
Qed.

Lemma is_setname_inv c s b s' : is_setname c s = Done (b, s') -> s' = s.
Proof.
  unfold is_setname. destruct (cl_argc c =? 3); [|by intros [= _ <-]].
  intros H. apply prog_bind_inv in H as (a0 & s1 & H1 & H). apply arg_str_inv in H1 as ->.
  destruct (strcasecmp_eq _ _); [|by injection H as _ <-].
  apply prog_bind_inv in H as (a1 & s2 & H1 & H). apply arg_str_inv in H1 as ->. by injection H as _ <-.
Qed.

Lemma is_keys_inv c s b s' : is_keys c s = Done (b, s') -> s' = s.
Proof.
  unfold is_keys. destruct (cl_argc c =? 2); [|by intros [= _ <-]].
  intros H. apply prog_bind_inv in H as (a0 & s1 & H1 & H). apply arg_str_inv in H1 as ->. by injection H as _ <-.
Qed.

Section Hook.
Context (mu : upd_fun) (dlopen : server -> sds -> option (list upd_call)).
Context `{Tab : Tables} (dictFind_robj : server -> addr -> bool) (visit : server -> nat -> list sds) (after : sds).

Lemma dispatch_false c s s' :
  dispatch mu dictFind_robj visit after c s = Done (false, s') -> s' = s.
Proof.
  unfold dispatch. intros H. apply prog_bind_inv in H as (key & s1 & H1 & H). apply arg_str_inv in H1 as ->.
  rewrite bind_gets in H. destruct (kvolve_version_hash_lookup _ _) as [v|]; [|by injection H as <-].
  apply prog_bind_inv in H as (a0 & s1 & H1 & H). apply arg_str_inv in H1 as ->.
  destruct (kvolve_lookup_kv_command _ _ _); [|by injection H as <-].
  by apply prog_bind_inv in H as ([] & s1 & H1 & [=]).
Qed.
End Hook.

(** Whatever the command and whatever the update functions and the
    loaded update do, the hook leaves the counters of processed commands, of
    keyspace hits and of keyspace misses as they were: clients cannot see
    kvolve's own lookups and calls in the statistics. *)
Theorem process_command_keeps_stats (mu : upd_fun)
    (dlopen : server -> sds -> option (list upd_call)) (Tab : Tables)
    (dictFind_robj : server -> positive -> bool) (visit : server -> nat -> list sds) (after : sds)
    (c : client) (s s' : server) :
  kvolve_process_command mu dlopen dictFind_robj visit after c s = Done (tt, s') ->
  stat_numcommands (stats s') = stat_numcommands (stats s) /\
  stat_keyspace_hits (stats s') = stat_keyspace_hits (stats s) /\
  stat_keyspace_misses (stats s') = stat_keyspace_misses (stats s).
Proof.
  unfold kvolve_process_command. rewrite bind_gets. intros H.
  apply prog_bind_inv in H as ([] & s1 & H1 & H). apply prevcall_check_stats in H1.
  apply prog_bind_inv in H as (sn & s2 & H2 & H). apply is_setname_inv in H2 as ->.
  apply prog_bind_inv in H as (restore & s3 & H3 & H). destruct restore; cbn [when] in H.
  { by injection H as <-. }
  injection H as <-. assert (s3 = s1) as ->; [|by rewrite H1].
  destruct sn; [by apply prog_bind_inv in H3 as (? & ? & _ & H3); apply prog_bind_inv in H3 as (? & ? & _ & [=])|].
  apply prog_bind_inv in H3 as (k & s4 & H4 & H3). apply is_keys_inv in H4 as ->.
  destruct k; [by apply prog_bind_inv in H3 as (? & ? & _ & [=])|].
  destruct (_ >? 1); [by apply dispatch_false in H3|done].
Qed.

(** No set of the examples below has four members, so none of their tables
    grows (Dict.v: unsafe_walk_of_four_asserts). *)
#[global] Instance steady_tables : Tables := {| set_fingerprint _ _ := 0 |}.

Definition hook_server : server := put_obj 10 (str_obj "get" 0) (demo_server "a:x").
Definition demo_hook (c : client) : M unit :=
  kvolve_process_command demo_mu (fun _ _ => None) (fun _ _ => false) (fun _ _ => []) [] c.
Definition hook_server' : server := done_state server0 (demo_hook get_client hook_server).

Lemma process_command_keeps_stats_witness :
  stat_keyspace_misses (stats hook_server') = stat_keyspace_misses (stats hook_server).
Proof.
  apply (process_command_keeps_stats demo_mu (fun _ _ => None) steady_tables (fun _ _ => false) (fun _ _ => []) []
    get_client hook_server hook_server').
  vm_compute. reflexivity.
Defined.

(** ** The command table *)

Lemma list_find_unique (l : list kvolve_cmd_hash) (name : sds) e :
  NoDup (map cmd l) -> e ∈ l -> cmd e = name -> exists i, list_find (fun c => cmd c = name) l = Some (i, e).
Proof.
  intros Hnd He Hn. apply list_elem_of_lookup in He as [i Hi]. exists i. apply list_find_Some. split; [done|].
  split; [done|]. intros j y Hj Hji Hy. assert (i = j); [|lia].
  eapply (NoDup_lookup (map cmd l)); [done| |]; rewrite list_lookup_fmap; [by rewrite Hi|].
  rewrite Hj. cbn. congruence.
Qed.

Lemma command_names_distinct : NoDup (map cmd (kvolve_populateCommandTable [])).
Proof. apply (bool_decide_unpack _). vm_compute. exact I. Qed.

Lemma populate_elem e :
  e ∈ kvolve_populateCommandTable [] <->
  exists e0, e0 ∈ kvolveCommandTable /\ (e = e0 \/ e = mkCmd (map toupper (cmd e0)) (call e0) (min_args e0)).
Proof.
  unfold kvolve_populateCommandTable. rewrite list_elem_of_In, in_concat. split.
  - intros (l & Hl & He). apply in_map_iff in Hl as (e0 & <- & H0). exists e0. rewrite list_elem_of_In. split; [done|].
    rewrite app_nil_r in He. destruct He as [->|[->|[]]]; auto.
  - intros (e0 & H0 & He). eexists. split; [apply in_map_iff; exists e0; split; [reflexivity|by apply list_elem_of_In]|].
    rewrite app_nil_r. destruct He as [->| ->]; cbn; auto.
Qed.

(** The dispatch: kvolve handles a command exactly when its name, in all
    lower or all upper case, is in the table and it has at least the number
    of arguments given there, and then by the handler of that entry.  (The
    byte after the buffer of an upper case name is taken to be zero.) *)
Theorem command_dispatch (name : sds) (argc : Z) (f : kvolve_call) :
  kvolve_lookup_kv_command [] name argc = Some f <->
  exists e, e ∈ kvolveCommandTable /\ call e = f /\ min_args e <= argc /\
    (cstr name = cmd e \/ cstr name = map toupper (cmd e)).
Proof.
  unfold kvolve_lookup_kv_command. split.
  - destruct (list_find _ _) as [[i e]|] eqn:E; [|done]. apply list_find_Some in E as (Hi & Hc & _).
    destruct (Z.ltb_spec argc (min_args e)) as [|Hm]; [done|]. intros [= <-].
    apply list_elem_of_lookup_2, populate_elem in Hi as (e0 & H0 & He). exists e0. split; [done|].
    destruct He as [->| ->]; cbn in *; auto.
  - intros (e & He & <- & Hm & Hn).
    assert (exists e', e' ∈ kvolve_populateCommandTable [] /\ cmd e' = cstr name /\ call e' = call e /\ min_args e' = min_args e)
      as (e' & H1 & H2 & <- & H4).
    { destruct Hn as [Hn|Hn]; [exists e|exists (mkCmd (map toupper (cmd e)) (call e) (min_args e))];
        (split; [apply populate_elem; eauto|done]). }
    destruct (list_find_unique _ _ e' command_names_distinct H1 H2) as [i ->].
    by rewrite (proj2 (Z.ltb_ge _ _)) by lia.
Qed.

(** What the dispatch misses: SCARD, which takes one argument (a vector
    of two), is listed with at least three and is never handled; a name in
    mixed case, which Redis accepts, is not handled either. *)
Theorem dispatch_gaps :
  kvolve_lookup_kv_command [] (str "scard") 2 = None /\
  kvolve_lookup_kv_command [] (str "smembers") 2 = Some kvolve_smembers_ /\
  kvolve_lookup_kv_command [] (str "Get") 2 = None /\
  kvolve_lookup_kv_command [] (str "GET") 2 = Some kvolve_get_.
Proof. vm_compute. auto. Qed.

(** ** SETNX and DEL of a key that is under its old name *)

(** SETNX of a key that exists under its name in the previous namespace
    does not set it: the hook moves the stored value to the current name and
    SETNX then replies 0.  The value and its version are as they were; they
    are updated when the key is read. *)
Theorem setnx_finds_old_name (c : client) (v : version_hash) (key old : sds) (a b : positive) (o ob : robj)
    (x : sds) (s : server) :
  cl_db c = 0%nat -> str_arg s c 1 key -> text_arg s c 2 b ob x -> in_prev s v key old a o ->
  exists s', (_ ← kvolve_setnx c v; setnxCommand c) s = Done (add_reply (RInt 0) c, s') /\
    lookupKey s' 0 key = Some a /\ lookupKey s' 0 old = None /\ heap s' = heap s /\ kv s' = kv s.
Proof.
  intros Hdb Hk Hb Hip. pose proof Hip as [(p & Hp & Hold) Hon Hv Hlo Hln Ha Hr L1 L2 Hf].
  unfold kvolve_setnx. rewrite bind_assoc, (bind_arg_str _ _ _ _ _ Hk), bind_assoc, bind_get_st, Hdb, Hln, bind_assoc.
  rewrite (prog_bind_step _ _ _ _ _ (get_db_val_old s c v p key old a Hk Hp Hold ltac:(by rewrite Hdb) ltac:(by rewrite Hdb))).
  destruct (namespace_update_moves c v key old a o s Hk ltac:(by rewrite Hdb) Hip) as (s1 & E1 & [M1 M2 M3 M4 M5 M6]).
  rewrite (prog_bind_step _ _ _ _ _ E1). destruct (live_moved 0 old key a s s1 Hv Hon Hln L1 L2 M3 M4) as [HL Hl].
  assert (Hb1 : text_arg s1 c 2 b ob x) by (destruct Hb; split; try done; by rewrite M1).
  assert (Hk1 : str_arg s1 c 1 key) by (destruct Hk as (? & ? & ? & ? & ?); eexists _, _; rewrite M1; eauto).
  unfold setnxCommand. rewrite (prog_bind_step _ _ _ _ _ (encode_text_arg _ _ _ _ _ _ Hb1)). cbn [fst snd].
  rewrite (bind_arg_str _ _ _ _ _ Hk1). unfold setGenericCommand. cbn [opt_expire opt_nx opt_xx].
  rewrite bind_mret, bind_assoc, Hdb, (prog_bind_step _ _ _ _ _ (lookupKeyWrite_live _ _ _ HL)), Hl, bind_mret.
  rewrite bool_decide_true by eauto. rewrite bind_mret. exists s1. split; [done|]. split; [done|]. split; [|done].
  unfold lookupKey, get_db. rewrite M3, list_lookup_insert_eq by done. cbn. unfold rename_db.
  destruct (_ =? -1); cbn; apply lookup_delete_eq.
Qed.

Lemma setnx_finds_old_name_witness :
  exists s', (_ ← kvolve_setnx set_client demo_b; setnxCommand set_client) set_server
    = Done (add_reply (RInt 0) set_client, s').
Proof.
  destruct (setnx_finds_old_name set_client demo_b (str "b:x") (str "a:x") 12%positive 13%positive (str_obj "val" 1)
    (str_obj "new" 0) (str "new") set_server) as (s' & H & _).
  - reflexivity.
  - exists 11%positive, (str_obj "b:x" 0). vm_compute. repeat split.
  - split; try (vm_compute; reflexivity). right. vm_compute. reflexivity.
  - destruct demo_in_prev as [P1 P2 P3 P4 P5 P6 P7 P8 P9 P10]. split; try assumption.
    intros a Ha. change (<[13%positive := str_obj "new" 0]> (heap (demo_server "a:x")) !! a = None).
    change (20000 <= a)%positive in Ha. rewrite lookup_insert_ne by lia. apply P10. exact Ha.
  - exists s'. exact H.
Defined.

(** The turn of kvolve_check_rename for a key under its old name. *)
Lemma check_rename_moves c v key old a o cur s :
  cl_db c = 0%nat -> cl_argc c = 2 -> str_arg s c 1 key -> in_prev s v key old a o ->
  cur_vers v = Done cur -> o_vers o <> cur \/ (o_type o = REDIS_STRING /\ o_encoding o = ENC_INT) ->
  exists s', kvolve_check_rename c (Some v) 2 s = Done (tt, s') /\ ns_moved old key a s s'.
Proof.
  intros Hdb Hc Hk Hip Hcur Hcase. pose proof Hip as [(p & Hp & Hold) Hon Hv Hlo Hln Ha Hr L1 L2 Hf].
  unfold kvolve_check_rename. rewrite Hp. unfold createClient. erewrite prog_bind_step by reflexivity.
  change (seq 1 (Z.to_nat (2 - 1))) with [1%nat]. cbn [for_each].
  destruct Hk as (k & ok & K1 & K2 & K3). unfold check_rename_key. rewrite bind_assoc, (argv_Done _ _ _ K1), bind_lift.
  rewrite bind_assoc, put_argv_Done, bind_lift by (cbn; lia). rewrite bind_assoc.
  set (s1 := set_next_client_id _ s). set (cf := set_cl_argv _ _). assert (Hkf : str_arg s1 cf 1 key) by (by exists k, ok).
  assert (Hcf : cl_db cf = 0%nat) by exact Hdb.
  rewrite (prog_bind_step _ _ _ _ _ (get_db_val_old s1 cf v p key old a Hkf Hp Hold ltac:(by rewrite Hcf) ltac:(by rewrite Hcf))).
  rewrite bind_assoc, (bind_deref a o _ s1 Ha).
  destruct (namespace_update_moves cf v key old a o s1) as (s2 & E2 & H2).
  { done. } { cbn. by rewrite Hdb. } { by destruct Hip; split. }
  assert (Hfin : ns_moved old key a s s2) by (by destruct H2; split).
  case_bool_decide as Hint.
  - rewrite (prog_bind_step _ _ _ _ _ E2). exists s2. done.
  - rewrite bind_assoc, Hcur, bind_lift. rewrite (proj2 (Z.eqb_neq _ _)) by (destruct Hcase; done). cbn [negb when].
    rewrite (prog_bind_step _ _ _ _ _ E2). exists s2. done.
Qed.

(** C39: DEL of one key, by a client on database 0, that is still under its name in
    the previous namespace deletes it: the hook moves it to the current name, DEL
    replies 1, and the value is then under neither name and its object is freed,
    every other object being as it was.  The value is a string at an older
    version that only the key refers to, and neither name is due to expire. *)
Theorem del_finds_old_name (c : client) (v : version_hash) (key old : sds) (a : positive) (o : robj)
    (cur : Z) (s : server) :
  cl_db c = 0%nat -> cl_argc c = 2 -> str_arg s c 1 key -> in_prev s v key old a o ->
  cur_vers v = Done cur -> o_vers o <> cur -> o_type o = REDIS_STRING -> o_refcount o = 1 ->
  exists s', (_ ← kvolve_del c v; delCommand c) s = Done (add_reply (RInt 1) c, s') /\
    lookupKey s' 0 key = None /\ lookupKey s' 0 old = None /\ heap s' = delete a (heap s).
Proof.
  intros Hdb Hc Hk Hip Hcur Hne Ht Hrc. unfold kvolve_del. rewrite Hc.
  destruct (check_rename_moves c v key old a o cur s Hdb Hc Hk Hip Hcur ltac:(by left)) as (s1 & E1 & [M1 M2 M3 M4 M5 M6]).
  rewrite (prog_bind_step _ _ _ _ _ E1). destruct Hip as [_ Hon Hv Hlo Hln Ha _ L1 L2 _].
  destruct (live_moved 0 old key a s s1 Hv Hon Hln L1 L2 M3 M4) as [HL Hl].
  assert (Hk1 : str_arg s1 c 1 key) by (destruct Hk as (? & ? & ? & ? & ?); eexists _, _; rewrite M1; eauto).
  unfold delCommand. rewrite Hc. change (seq 1 (Z.to_nat (2 - 1))) with [1%nat]. cbn [del_loop].
  rewrite bind_assoc, (bind_arg_str _ _ _ _ _ Hk1), bind_assoc, Hdb. destruct (expireIfNeeded_live _ _ _ HL) as [e He].
  rewrite (prog_bind_step _ _ _ _ _ He), bind_assoc.
  assert (Hv1 : valid_db s1 0) by (unfold valid_db; by rewrite M3, length_insert).
  pose proof (dbDelete_found _ _ _ _ Hv1 Hl) as Hd.
  rewrite (prog_bind_step _ _ _ _ _ (decrRefCount_last (put_db _ _ _) a o ltac:(cbn; by rewrite M1) Hrc Ht)) in Hd.
  rewrite (prog_bind_step _ _ _ _ _ Hd). unfold signalModifiedKey. rewrite bind_assoc.
  set (s2 := set_heap _ _). destruct (touchWatchedKey_frame 0 key s2) as (s3 & E3 & A1 & A2 & A3 & _).
  rewrite (prog_bind_step _ _ _ _ _ E3). unfold log_event, incr_dirty. run. eexists. split; [reflexivity|].
  assert (Hg : get_db s3 0 = del_key key (rename_db old key a (get_db s 0))).
  { unfold get_db at 1. rewrite A3. change (dbs s2) with (<[0%nat := del_key key (get_db s1 0)]> (dbs s1)).
    rewrite list_lookup_insert_eq by exact Hv1. cbn [from_option id]. f_equal. unfold get_db at 1.
    by rewrite M3, list_lookup_insert_eq by exact Hv. }
  unfold lookupKey. change (get_db _ 0) with (get_db s3 0). rewrite Hg. split; [apply lookup_delete_eq|].
  split; [|change (heap s3 = delete a (heap s)); rewrite A1; cbn; by rewrite M1].
  cbn [db_dict del_key set_db_dict]. rewrite lookup_delete_ne by done. unfold rename_db.
  destruct (_ =? -1); cbn; apply lookup_delete_eq.
Qed.

Lemma del_finds_old_name_witness :
  exists s', (_ ← kvolve_del get_client demo_b; delCommand get_client) (demo_server "a:x")
    = Done (add_reply (RInt 1) get_client, s').
Proof.
  destruct (del_finds_old_name get_client demo_b (str "b:x") (str "a:x") 12%positive (str_obj "val" 1) 2
    (demo_server "a:x")) as (s' & H & _).
  - reflexivity.
  - reflexivity.
  - exists 11%positive, (str_obj "b:x" 0). vm_compute. repeat split.
  - apply demo_in_prev.
  - vm_compute. reflexivity.
  - discriminate.
  - reflexivity.
  - reflexivity.
  - exists s'. exact H.
Defined.

(** ** Sets through kvolve *)

(** C7: Bringing a set up to date, for an update of one version with one
    update function that gives every member a new value.  The set is stored as a
    hash table under the current name of its key, its members are raw string
    objects that only the set refers to, the key is not due to expire, no update
    function is running, the entry of the namespace is well-formed, and the update
    function gives the new value from the bytes alone and changes nothing else.  (The code skips intsets, and members that are
    integers below 10000: for these nothing is claimed.)  Afterwards
    the members are exactly the new values, the set is at the current version
    under the same key, and nothing else in the keyspace or in kvolve's state
    changes.  The fingerprint of the set's dict must be the same whenever the
    set has as many members as at the start: the table must not have to grow
    (Dict.v: unsafe_walk_of_four_asserts).  The new values must have no NUL byte,
    be no integers and differ from each other and from the old members:
    set_update_loses_member shows why. *)
Theorem update_all_set_correct (Tab : Tables) (mu : upd_fun) (tr : fptr -> sds -> option sds)
    (c : client) (v : version_hash) (key : sds) (so ka : positive) (f : fptr) (g : sds -> sds) (cur : Z)
    (os : robj) (ps : list (positive * sds)) (s : server) :
  PureUpdates mu tr -> wf_vh v -> cl_argv c !! 1%nat = Some (Some ka) ->
  (forall s1 os1 ps1, set_state c key so ka s1 os1 ps1 -> length ps1 = length ps ->
     set_fingerprint s1 so = set_fingerprint s so) ->
  set_state c key so ka s os ps -> upd_fun_running (kv s) = 0 -> one_fun v (o_vers os) cur f ->
  (forall x, x ∈ map snd ps -> tr f x = Some (g x) /\ NUL ∉ g x /\ not_integer (g x) /\ g x ∉ map snd ps) ->
  NoDup (map g (map snd ps)) ->
  exists s' os' ps', kvolve_sismember mu c v s = Done (tt, s') /\ set_state c key so ka s' os' ps' /\
    map snd ps' = map g (map snd ps) /\ o_vers os' = cur /\ dbs s' = dbs s /\ kv s' = kv s.
Proof.
  intros Hmu Hw Hka Hfp HS Hrun Hof Hg Hnd.
  destruct (update_all_set_ok mu tr c v key so ka Hka Hw g cur f s os ps Hfp HS Hrun Hof Hg Hnd)
    as (s' & os' & ps' & E & H).
  exists s', os', ps'. unfold kvolve_sismember, ignore. rewrite (prog_bind_step _ _ _ _ _ E). done.
Qed.

Definition set_obj (l : list positive) (vers : Z) : robj := mkObj REDIS_SET ENC_HT 1 vers (PSetDict l).
Definition members_server (m1 m2 : string) : server :=
  with_ns [demo_vh "a" None [1]; demo_b]
    (put_key 0 "b:s" 12 (put_obj 12 (set_obj [14; 15]%positive 1) (put_obj 14 (str_obj m1 0) (put_obj 15 (str_obj m2 0)
      (put_obj 11 (str_obj "b:s" 0) server0))))).

Lemma members_server_fresh m1 m2 : heap_fresh (members_server m1 m2).
Proof.
  apply fresh_server_heap. intros a [o Ho]. change (next_addr (members_server m1 m2)) with 20000%positive.
  change (heap (members_server m1 m2)) with (<[12%positive := set_obj [14; 15]%positive 1]>
    (<[14%positive := str_obj m1 0]> (<[15%positive := str_obj m2 0]> (<[11%positive := str_obj "b:s" 0]> (∅ : gmap positive robj))))) in Ho.
  destruct (decide (a < 20000)%positive); [done|]. rewrite !lookup_insert_ne in Ho by lia. done.
Qed.

Lemma members_state : set_state get_client (str "b:s") 12%positive 11%positive (members_server "m1" "m2")
  (set_obj [14; 15]%positive 1) [(14%positive, str "m1"); (15%positive, str "m2")].
Proof.
  split.
  - split; try (vm_compute; reflexivity).
    + repeat constructor; [exists 1, 0|exists 1, 0]; (split; [vm_compute; reflexivity|lia]).
    + apply (bool_decide_unpack _). vm_compute. exact I.
    + apply (bool_decide_unpack _). vm_compute. exact I.
  - exists (str_obj "b:s" 0). vm_compute. auto.
  - apply (bool_decide_unpack _). vm_compute. exact I.
  - apply members_server_fresh.
  - vm_compute. exact I.
  - vm_compute. reflexivity.
Qed.

Lemma update_all_set_correct_witness :
  exists s' os' ps', kvolve_sismember demo_mu get_client demo_b (members_server "m1" "m2") = Done (tt, s') /\
    set_state get_client (str "b:s") 12%positive 11%positive s' os' ps' /\
    map snd ps' = [str "m1UPDATED"; str "m2UPDATED"].
Proof.
  destruct (update_all_set_correct steady_tables demo_mu demo_tr get_client demo_b (str "b:s") 12%positive 11%positive 40
    (fun x => x ++ str "UPDATED") 2 (set_obj [14; 15]%positive 1) [(14%positive, str "m1"); (15%positive, str "m2")]
    (members_server "m1" "m2") demo_pure demo_b_wf) as (s' & os' & ps' & H1 & H2 & H3 & _).
  - reflexivity.
  - reflexivity.
  - apply members_state.
  - reflexivity.
  - split; [vm_compute; reflexivity|discriminate|]. exists 1, demo_info. vm_compute. repeat split. discriminate.
  - intros x Hx. apply elem_of_cons in Hx as [->|Hx]; [|apply list_elem_of_singleton in Hx as ->];
      (split; [reflexivity|]); (split; [apply (bool_decide_unpack _); vm_compute; exact I|]);
      (split; [right; vm_compute; reflexivity|apply (bool_decide_unpack _); vm_compute; exact I]).
  - apply (bool_decide_unpack _). vm_compute. exact I.
  - exists s', os', ps'. split; [exact H1|]. split; [exact H2|]. rewrite H3. reflexivity.
Defined.

(** An update function that shifts letters: "a" to "b", "b" to "c". *)
Definition shift_mu (f : fptr) (key : sds) (p : upd_value) (len : Z) : M mu_result :=
  match p with
  | VPtr (PSds x) => mret (mkMu None (Some (map (fun ch => chr (code ch + 1)) x)) (sdslen x) None None)
  | _ => throw NullDeref
  end.

(** The bytes of the members of the set at address 12. *)
Definition members_of (r : outcome (unit * server)) : option (list sds) :=
  match r with
  | Done (_, s) =>
    match heap s !! 12%positive with
    | Some o => match o_ptr o with
                | PSetDict l => mapM (fun e => o ← heap s !! e; match o_ptr o with PSds x => Some x | _ => None end) l
                | _ => None
                end
    | None => None
    end
  | Fault _ => None
  end.

(** Updating a set loses a member when a new value equals a member that
    is not updated yet: from {"a","b"}, with "a" becoming "b" and "b"
    becoming "c", only {"c"} is left. *)
Theorem set_update_loses_member :
  members_of (kvolve_smembers shift_mu get_client demo_b (members_server "a" "b")) = Some [str "c"] /\
  members_of (kvolve_smembers shift_mu get_client demo_b (members_server "a" "x")) = Some [str "b"; str "y"].
Proof. vm_compute. auto. Qed.

(** Updating a member to a small integer uses freed memory: SADD replaces
    the new object by the shared integer and frees it, and the version is
    then written to the freed object. *)
Theorem set_update_small_int_dangles :
  kvolve_smembers (fun _ _ _ _ => mret (mkMu None (Some (str "5")) 1 None None)) get_client demo_b
    (put_obj 6 (mkObj REDIS_STRING ENC_INT 1 0 (PLong 5)) (members_server "a" "x")) = Fault Dangling.
Proof. vm_compute. reflexivity. Qed.

(** ** Where the hook falls short of its purpose *)

Definition reply_of (r : outcome (client * server)) : option (list reply) :=
  match r with Done (c, _) => Some (cl_replies c) | Fault _ => None end.
Definition final (r : outcome (client * server)) : server :=
  match r with Done (_, s) => s | Fault _ => server0 end.

(** Namespace "a" was replaced by "b", and "b" by "c". *)
Definition demo_c : version_hash :=
  set_info (None :: Some demo_info :: Some (mkInfo (str "b") (str "c") 2 3 [] 0) :: replicate 17 None)
    (demo_vh "c" (Some "b") [1; 2; 3]).
Definition chain3_server (stored_as : string) : server :=
  with_ns [demo_vh "a" None [1]; demo_b; demo_c]
    (put_key 0 stored_as 12 (put_obj 12 (str_obj "val" 1) (put_obj 11 (str_obj "c:x" 0) server0))).

Lemma lookup_plain l p : COLON ∉ cstr p -> HASH_FIND l (str "*") = None -> kvolve_version_hash_lookup l p = None.
Proof.
  intros Hc Hs. unfold kvolve_version_hash_lookup. destruct l as [|v l]; [done|]. cbn [version_hash_lookup_at].
  by rewrite (proj2 (rsplit_None COLON (cstr p)) Hc).
Qed.

(** C36: A key that was last used two namespaces ago is lost to its readers.  The
    search looks the name of the previous namespace up as if it were a key; when
    that name has no colon and no namespace "*" is declared, it therefore stops one
    namespace back.  GET of a key that is stored neither under its own name nor
    under its name in the previous namespace replies nil, and leaves every value and
    every key as it is, whatever is stored under its older names, as long as the
    key is not due to expire. *)
Theorem two_renames_lose_key (mu : upd_fun) (c : client) (v : version_hash) (key p old : sds) (s : server) :
  prev_ns v = Some p -> COLON ∉ cstr p -> HASH_FIND (vers_list (kv s)) (str "*") = None ->
  kvolve_construct_prev_name key p = Done old -> str_arg s c 1 key -> live s (cl_db c) key ->
  lookupKey s (cl_db c) key = None -> lookupKey s (cl_db c) old = None ->
  exists s', (_ ← kvolve_get mu c v; getCommand c) s = Done (add_reply RNull c, s') /\
    heap s' = heap s /\ dbs s' = dbs s /\ kv s' = kv s.
Proof.
  intros Hp Hc Hs Ho Hk HL Hl Hlo. unfold kvolve_get, kvolve_check_update_kv_pair.
  pose proof (get_db_val_Done _ _ _ _ _ _ Hk Hp Ho (lookup_plain _ _ Hc Hs)) as E. rewrite Hl, Hlo in E.
  destruct (getCommand_absent c key s Hk HL Hl) as (s' & E2 & [R1 R2 R3 R4]).
  rewrite bind_assoc, bind_gets. destruct (_ =? 1); [rewrite bind_mret|rewrite bind_assoc, (prog_bind_step _ _ _ _ _ E), bind_mret]; by exists s'.
Qed.

(** With "a" replaced by "b" and "b" by "c", the value under "a:x" is not found;
    under "b:x" it would be brought over. *)
Lemma two_renames_lose_key_witness :
  exists s', (_ ← kvolve_get demo_mu get_client demo_c; getCommand get_client) (chain3_server "a:x")
    = Done (add_reply RNull get_client, s') /\ lookupKey s' 0 (str "a:x") = Some 12%positive.
Proof.
  destruct (two_renames_lose_key demo_mu get_client demo_c (str "c:x") (str "b") (str "b:x") (chain3_server "a:x")) as (s' & H & _ & Hd & _).
  - reflexivity.
  - apply (bool_decide_unpack _). vm_compute. exact I.
  - vm_compute. reflexivity.
  - vm_compute. reflexivity.
  - exists 11%positive, (str_obj "c:x" 0). vm_compute. repeat split.
  - vm_compute. exact I.
  - vm_compute. reflexivity.
  - vm_compute. reflexivity.
  - exists s'. split; [exact H|]. unfold lookupKey, get_db. rewrite Hd. vm_compute. reflexivity.
Defined.

Example one_rename_keeps_key :
  reply_of ((_ ← kvolve_get demo_mu get_client demo_c; getCommand get_client) (chain3_server "b:x")) = Some [RBulk (str "valUPDATED")].
Proof. vm_compute. reflexivity. Qed.

Definition db1_client : client := client_of 1 [10; 11]%positive.
Definition db1_server : server :=
  with_ns [demo_vh "a" None [1]; demo_b]
    (put_key 1 "a:x" 12 (put_obj 12 (str_obj "val" 1) (put_obj 11 (str_obj "b:x" 0) server0))).

(** A client on a database other than 0 loses the key at a namespace
    change: the rename runs on database 0, GET replies nil, and the value,
    which is now marked as current, stays under its old name for good. *)
Theorem rename_in_wrong_db :
  let r := (_ ← kvolve_get demo_mu db1_client demo_b; getCommand db1_client) db1_server in
  reply_of r = Some [RNull] /\ lookupKey (final r) 1 (str "a:x") = Some 12%positive /\
  heap (final r) !! 12%positive = Some (str_obj "valUPDATED" 2).
Proof. vm_compute. auto. Qed.

(** An update function that replaces the key, as kvolve_upd.h allows. *)
Definition rekey_mu (new : string) (f : fptr) (key : sds) (p : upd_value) (len : Z) : M mu_result :=
  mret (mkMu (Some (str new)) None len None None).

(** A key that an update function sets is not used to store the value:
    the value stays under "b:x", and the command goes on with the new name
    "b:y", which does not exist; in a namespace that replaced no other, the
    server crashes. *)
Theorem custom_key_is_lost :
  let r := (_ ← kvolve_get (rekey_mu "b:y") get_client demo_b; getCommand get_client) (demo_server "b:x") in
  reply_of r = Some [RNull] /\ lookupKey (final r) 0 (str "b:x") = Some 12%positive /\
  lookupKey (final r) 0 (str "b:y") = None /\
  kvolve_get (rekey_mu "b:y") get_client (set_prev_ns None demo_b) (demo_server "b:x") = Fault NullDeref.
Proof. vm_compute. auto. Qed.

Definition watched_server : server :=
  let s := demo_server "b:x" in
  set_dbs [set_db_watched (<[str "b:x" := (11%positive, [7])]> ∅) (get_db s 0); empty_db] s.

(** The update of a value does not reach the clients that WATCH its key:
    the value object is passed where the key is expected, so the clients that
    are marked are those watching a key named like the new value. *)
Theorem watchers_not_notified :
  match kvolve_get demo_mu get_client demo_b watched_server with
  | Done (_, s) => dirty_cas s = ∅ /\ heap s !! 12%positive = Some (str_obj "valUPDATED" 2)
  | Fault _ => False
  end /\
  match kvolve_get demo_mu get_client demo_b
    (set_dbs [set_db_watched (<[str "valUPDATED" := (11%positive, [7])]> ∅) (get_db watched_server 0); empty_db] watched_server) with
  | Done (_, s) => dirty_cas s = {[7]}
  | Fault _ => False
  end.
Proof. vm_compute. auto. Qed.

(** A string kept as an integer of 10000 or more is handed to the update
    function as if the number were a pointer to its text: a function that
    reads its value crashes the server. *)
Example large_integer_is_not_text :
  kvolve_get demo_mu get_client demo_b
    (put_obj 12 (mkObj REDIS_STRING ENC_INT 1 1 (PLong 20000)) (demo_server "b:x")) = Fault NullDeref.
Proof. vm_compute. reflexivity. Qed.

End Kvolve.
