(* ===== verification/KvolveCont.v ===== *)
(** * kvolve_internal.c, part 3: updating the elements of lists and hashes

    What the loops of KvolveUpd.v over the elements of a ziplist encoded list
    and of a ziplist encoded hash compute, and where the code breaks the
    container: the theorems are about the definitions of KvolveUpd.v. *)
From S2P Require Import Prelude CStr Intset Util Server Object Db TString Heap TList THash KvolveNs KvolveUpd Kvolve.
Import Object Db TString Heap TList KvolveNs KvolveUpd Kvolve.

Module KvolveCont.

(** ** What the update functions do to one element *)
Section Logs.
Context (tr : fptr -> sds -> option sds).

(** The replacements that the functions [fs] make, starting from [x]. *)
Fixpoint funs_log (fs : list fptr) (x : sds) : list (sds * sds) :=
  match fs with
  | [] => []
  | f :: r => match tr f x with
              | Some y => (x, y) :: funs_log r y
              | None => funs_log r x
              end
  end.

Definition step_log (v : version_hash) (x : sds) (j : Z) : list (sds * sds) :=
  match info v !! Z.to_nat j with
  | Some (Some inf) => funs_log (take (Z.to_nat (num_funs inf)) (funs inf)) x
  | _ => []
  end.

Fixpoint steps_log (v : version_hash) (js : list Z) (x : sds) : list (sds * sds) :=
  match js with
  | [] => []
  | j :: r => step_log v x j ++ steps_log v r (step_val tr v x j)
  end.

(** The replacements from version [vers] to the current one. *)
Definition change_log (v : version_hash) (vers : Z) (x : sds) : list (sds * sds) :=
  steps_log v (pending v vers) x.
End Logs.

(** An element that a ziplist keeps as text. *)
Definition text (cf : server_conf) (y : sds) : Prop :=
  NUL ∉ y /\ Util.string2ll y = None /\ sdslen y <= list_max_ziplist_value cf.

Lemma text_not_integer y : Util.string2ll y = None -> not_integer y.
Proof. intros H. right. unfold Util.string2l. by rewrite H. Qed.

(** ** Lists *)
Section Lists.
#[local] Set Default Proof Using "Type*".
Context (c : client) (key : sds) (lo ka : addr) (ol : robj) (cf : server_conf).
Context (Hka : cl_argv c !! 1%nat = Some (Some ka)) (Ht : o_type ol = REDIS_LIST) (He : o_encoding ol = ENC_ZIPLIST).

(** The list under [key] has the entries [L]. *)
Record list_state (s : server) (L : list sds) : Prop := {
  ls_obj : heap s !! lo = Some (zl ol L);
  ls_key : exists ok, heap s !! ka = Some ok /\ o_ptr ok = PSds key;
  ls_store : store_ok s;
  ls_live : live s (cl_db c) key;
  ls_lookup : lookupKey s (cl_db c) key = Some lo;
  ls_conf : conf s = cf
}.

(** The object of one gathered element. *)
Definition elem_obj (vr : Z) (x : sds) : robj := mkObj REDIS_STRING ENC_RAW 1 vr (PSds x).
Definition elem (s : server) (e : addr) (x : sds) : Prop := e <> ka /\ exists vr, heap s !! e = Some (elem_obj vr x).

(** What updating the element [e] may change besides the list. *)
Record elem_step (e : addr) (s s' : server) : Prop := {
  es_keep : forall b o, b <> lo -> b <> shared_integers 1 -> b <> e -> heap s !! b = Some o -> heap s' !! b = Some o;
  es_some : forall b, is_Some (heap s !! b) -> is_Some (heap s' !! b);
  es_dbs : dbs s' = dbs s;
  es_kv : kv s' = kv s
}.

Lemma elem_step_refl e s : elem_step e s s.
Proof. by split. Qed.

Lemma elem_step_trans e e' s1 s2 s3 : elem_step e s1 s2 -> elem_step e' s2 s3 -> e' = e \/ heap s1 !! e' = None ->
  elem_step e s1 s3.
Proof.
  intros [A1 A2 A3 A4] [B1 B2 B3 B4] He'. split; try congruence; [|by eauto].
  intros b o Hl Hs Hb Ho. apply B1; try done; [|by apply A1]. intros ->. destruct He' as [->|E]; congruence.
Qed.

Lemma list_state_arg s L cl : list_state s L -> cl_argv cl !! 1%nat = Some (Some ka) -> str_arg s cl 1 key.
Proof. intros [_ (ok & Hk & Hp) _ _ _ _] Hc. by exists ka, ok. Qed.

Lemma elem_ne s L e x : list_state s L -> elem s e x -> e <> lo /\ e <> shared_integers 1.
Proof.
  intros HL [_ (vr & Hv)]. split; intros ->.
  - assert (E : o_type (zl ol L) = REDIS_STRING) by (rewrite (ls_obj _ _ HL) in Hv; apply (inj Some) in Hv; by rewrite Hv).
    cbn in E. congruence.
  - destruct (st_ints _ (ls_store _ _ HL) 1 ltac:(unfold REDIS_SHARED_INTEGERS; lia)) as (rc & vr' & _ & H). unfold elem_obj in Hv. congruence.
Qed.

(** The database is the same, and so are the objects in use. *)
Lemma list_state_db s s' L L' : list_state s L -> heap s' !! lo = Some (zl ol L') -> heap s' !! ka = heap s !! ka ->
  store_ok s' -> dbs s' = dbs s -> conf s' = conf s -> list_state s' L'.
Proof.
  intros [A1 A2 A3 A4 A5 A6] Hlo Hk HS Hd Hc. split; try done.
  - by rewrite Hk.
  - eapply live_ext; [|exact Hc|exact A4]. unfold get_db. by rewrite Hd.
  - unfold lookupKey, get_db in *. by rewrite Hd.
  - congruence.
Qed.

(** The client that kvolve_update_list_elem makes. *)
Definition list_client (cl : client) (e : addr) : Prop :=
  cl_db cl = cl_db c /\ length (cl_argv cl) = 5%nat /\ cl_argv cl !! 1%nat = Some (Some ka).

Lemma list_add_new_ok s L1 x L2 e vr y :
  list_state s (L1 ++ x :: L2) -> heap s !! e = Some (elem_obj vr x) -> x ∉ L1 -> text cf y ->
  Z.of_nat (length (L1 ++ x :: L2)) < list_max_ziplist_entries cf ->
  exists cl s', list_add_new c y e s = Done ((cl, next_addr s), s') /\ list_client cl e /\
    heap s' = <[lo := zl ol (L1 ++ y :: x :: L2)]> (<[next_addr s := elem_obj 0 y]> (heap s)) /\
    next_addr s' = Pos.succ (Pos.succ (next_addr s)) /\ dbs s' = dbs s /\ conf s' = conf s /\ kv s' = kv s.
Proof.
  intros HL Hoe Hx (Hnul & Hiy & Hly) Hlen. pose proof HL as [A1 (ok & Hk & Hkp) A3 A4 A5 A6]. pose proof (st_fresh _ A3) as HF.
  pose proof (heap_fresh_lt _ _ _ HF A1) as Hlo. unfold list_add_new, createClient. erewrite prog_bind_step by reflexivity.
  rewrite (argv_Done _ _ _ Hka), bind_lift, put_argv_Done, bind_lift by (cbn; lia). rewrite (cstr_id y Hnul).
  unfold createStringObject, createObject. rewrite !bind_alloc. set (s0 := set_next_client_id _ s). change (next_addr s0) with (next_addr s).
  set (n := next_addr s). set (s1 := set_next_addr _ (set_heap (<[n := _]> _) _)). change (next_addr s1) with (Pos.succ n).
  set (m := Pos.succ n). set (s2 := set_next_addr _ (set_heap (<[m := _]> _) _)).
  do 3 (rewrite put_argv_Done, bind_lift by (cbn; lia)). set (cl := set_cl_argv _ _).
  assert (Hup : forall b o, heap s !! b = Some o -> heap s2 !! b = Some o).
  { intros b o Hb. pose proof (heap_fresh_lt _ _ _ HF Hb). subst s2 s1. cbn. by rewrite !lookup_insert_ne by (subst m n; lia). }
  assert (Hn2 : heap s2 !! n = Some (elem_obj 0 y)) by (subst s2 s1; cbn; rewrite lookup_insert_ne by lia; apply lookup_insert_eq).
  assert (Hm2 : heap s2 !! m = Some (elem_obj 0 (str "BEFORE"))) by (subst s2; cbn; apply lookup_insert_eq).
  destruct (linsert_zl lo ol Ht He cl key REDIS_HEAD (str "BEFORE") L1 L2 e (elem_obj vr x) x n (elem_obj 0 y) y s2)
    as (s3 & r & E3 & [B1 B2 B3 B4 B5]); try done; try (by apply Hup); try (change (conf s2) with (conf s); by rewrite A6).
  { exists ka, ok. split; [done|]. split; [by apply Hup|done]. }
  { by exists m, (elem_obj 0 (str "BEFORE")). }
  { split; try done. by apply text_not_integer. }
  rewrite (prog_bind_step _ _ _ _ _ E3).
  erewrite prog_bind_step by (apply (zfree_Done m (elem_obj 0 (str "BEFORE"))); rewrite B1, lookup_insert_ne by (subst m n; lia); done).
  eexists _, _. split; [reflexivity|]. split; [done|]. cbn [heap set_heap next_addr dbs conf kv]. rewrite B2, B3, B4, B5.
  split; [|done]. rewrite B1, delete_insert_ne by (subst m n; lia). f_equal. subst s2 s1. cbn.
  rewrite delete_insert_id; [done|]. rewrite lookup_insert_ne by lia. apply HF. subst m n; lia.
Qed.

Lemma list_delete_old_ok s cl L1 x L2 e vr : list_client cl e -> list_state s (L1 ++ x :: L2) -> heap s !! e = Some (elem_obj vr x) ->
  Util.string2ll x = None -> x ∉ L1 -> L1 ++ L2 <> [] ->
  exists s' o1, list_delete_old cl e s = Done (tt, s') /\ heap s' = <[lo := zl ol (L1 ++ L2)]> (<[shared_integers 1 := o1]> (heap s)) /\
    (exists rc vr1, 0 < rc /\ o1 = mkObj REDIS_STRING ENC_INT rc vr1 (PLong 1)) /\
    next_addr s' = next_addr s /\ dbs s' = dbs s /\ conf s' = conf s /\ kv s' = kv s.
Proof.
  intros (Hdb & Hla & H1) HL Hoe Hix Hx Hne. pose proof HL as [A1 (ok & Hk & Hkp) A3 A4 A5 A6].
  destruct (st_ints _ A3 1 ltac:(unfold REDIS_SHARED_INTEGERS; lia)) as (rc & vr1 & Hrc & Hone).
  unfold list_delete_old, createStringObjectFromLongLong. change ((0 <=? 1) && (1 <? REDIS_SHARED_INTEGERS)) with true. unfold incrRefCount.
  rewrite bind_assoc, (bind_upd_obj _ _ _ _ _ Hone), bind_mret. set (s1 := set_heap _ s).
  rewrite put_argv_Done, bind_lift by (cbn; lia). rewrite put_argv_Done, bind_lift by (cbn; rewrite length_insert; lia). set (cl' := set_cl_argv _ _).
  assert (Hup : forall b o, b <> shared_integers 1 -> heap s !! b = Some o -> heap s1 !! b = Some o)
    by (intros b o Hb Ho; subst s1; cbn [heap set_heap]; by rewrite lookup_insert_ne).
  assert (Hsl : shared_integers 1 <> lo) by (intros E; rewrite E, A1 in Hone; apply (inj Some), (f_equal o_type) in Hone; cbn in Hone; congruence).
  assert (Hsk : shared_integers 1 <> ka) by (intros E; rewrite E, Hk in Hone; injection Hone as ->; done).
  assert (Hse : shared_integers 1 <> e) by (intros E; rewrite E, Hoe in Hone; done).
  destruct (lrem_zl lo ol Ht He cl' key L1 L2 (shared_integers 1) (rc + 1) vr1 e (elem_obj vr x) x s1) as (s2 & r & E2 & [B1 B2 B3 B4 B5]).
  - exists ka, ok. split; [cbn; by rewrite !list_lookup_insert_ne|]. split; [by apply Hup|done].
  - cbn. rewrite list_lookup_insert_ne by done. apply list_lookup_insert_eq. lia.
  - subst s1. cbn. apply lookup_insert_eq.
  - split; try done; [|by apply Hup|by apply text_not_integer]. cbn. apply list_lookup_insert_eq. rewrite length_insert. lia.
  - change (cl_db cl') with (cl_db cl). rewrite Hdb. exact A4.
  - change (cl_db cl') with (cl_db cl). rewrite Hdb. exact A5.
  - by apply Hup.
  - done.
  - done.
  - rewrite (prog_bind_step _ _ _ _ _ E2). eexists s2, _. split; [reflexivity|]. split; [exact B1|].
    split; [exists (rc + 1), vr1; split; [lia|done]|]. done.
Qed.

Lemma store_write_list s b o : store_ok s -> heap s !! b = Some o -> o_type o <> REDIS_STRING -> forall o', o_type o' = o_type o ->
  store_ok (set_heap (<[b := o']> (heap s)) s).
Proof. intros HS Hb Hns o' Ho'. apply (gr_store b s); [|done]. by apply (grows_container b o (fun _ => o')). Qed.

Lemma list_add_new_state s L1 x L2 e vr y :
  list_state s (L1 ++ x :: L2) -> e <> ka -> heap s !! e = Some (elem_obj vr x) -> x ∉ L1 -> text cf y ->
  Z.of_nat (length (L1 ++ x :: L2)) < list_max_ziplist_entries cf ->
  exists cl n s', list_add_new c y e s = Done ((cl, n), s') /\ list_client cl e /\ list_state s' (L1 ++ y :: x :: L2) /\
    elem s' n y /\ heap s' !! e = Some (elem_obj vr x) /\ elem_step e s s' /\ heap s !! n = None.
Proof.
  intros HL Heka Hoe Hx Hy Hlen. destruct (list_add_new_ok s L1 x L2 e vr y HL Hoe Hx Hy Hlen) as (cl & s1 & E1 & Hcl & B1 & B2 & B3 & B4 & B5).
  destruct (elem_ne _ _ _ _ HL ltac:(split; eauto)) as [Helo Hesh].
  pose proof HL as [A1 (ok & Hk & Hkp) A3 A4 A5 A6]. pose proof (st_fresh _ A3) as HF. set (n := next_addr s) in *.
  pose proof (heap_fresh_lt _ _ _ HF A1) as Hlo. pose proof (heap_fresh_lt _ _ _ HF Hk) as Hkn. pose proof (heap_fresh_lt _ _ _ HF Hoe) as Hen.
  assert (Hkl : ka <> lo) by (intros ->; rewrite A1 in Hk; injection Hk as <-; done).
  assert (HS1 : store_ok s1).
  { set (sa := set_next_addr (Pos.succ n) (set_heap (<[n := elem_obj 0 y]> (heap s)) s)).
    pose proof (keeps_store _ _ (alloc_keeps (elem_obj 0 y) s A3) A3) as HSa. fold n sa in HSa.
    assert (Hal : heap sa !! lo = Some (zl ol (L1 ++ x :: L2))) by (subst sa; cbn; by rewrite lookup_insert_ne by (subst n; lia)).
    pose proof (store_write_list sa lo _ HSa Hal ltac:(cbn; congruence) (zl ol (L1 ++ y :: x :: L2)) eq_refl) as [F I].
    split; [|intros w Hw; rewrite B1; by apply I]. intros b Hb. rewrite B1. apply F. rewrite B2 in Hb. cbn. lia. }
  exists cl, n, s1. split; [done|]. split; [done|].
  assert (Hup : forall b, b <> lo -> (b < n)%positive -> heap s1 !! b = heap s !! b)
    by (intros b Hb Hn; rewrite B1, !lookup_insert_ne by lia; done).
  split; [|split; [|split; [|split]]].
  - eapply list_state_db; [exact HL| | |done|done|done]; [rewrite B1; apply lookup_insert_eq|by apply Hup].
  - split; [lia|]. exists 0. rewrite B1, lookup_insert_ne by lia. apply lookup_insert_eq.
  - by rewrite Hup.
  - split; try done.
    + intros b o Hb _ _ Ho. rewrite Hup; [done|done|]. by eapply heap_fresh_lt.
    + intros b [o Ho]. destruct (decide (b = lo)) as [->|Hb]; [rewrite B1, lookup_insert_eq; eauto|].
      rewrite Hup; [eauto|done|]. by eapply heap_fresh_lt.
  - apply HF. subst n. lia.
Qed.

Lemma list_delete_old_state s cl L1 x L2 e vr : list_client cl e -> list_state s (L1 ++ x :: L2) -> heap s !! e = Some (elem_obj vr x) ->
  Util.string2ll x = None -> x ∉ L1 -> L1 ++ L2 <> [] ->
  exists s', list_delete_old cl e s = Done (tt, s') /\ list_state s' (L1 ++ L2) /\
    (forall b, b <> lo -> b <> shared_integers 1 -> heap s' !! b = heap s !! b) /\ elem_step e s s'.
Proof.
  intros Hcl HL Hoe Hix Hx Hne.
  destruct (list_delete_old_ok s cl L1 x L2 e vr Hcl HL Hoe Hix Hx Hne) as (s1 & o1 & E1 & C1 & (rc & vr1 & Hrc & ->) & C2 & C3 & C4 & C5).
  pose proof HL as [A1 (ok & Hk & Hkp) A3 A4 A5 A6].
  destruct (st_ints _ A3 1 ltac:(unfold REDIS_SHARED_INTEGERS; lia)) as (rc0 & vr0 & Hrc0 & Hone).
  assert (Hkl : ka <> lo) by (intros ->; rewrite A1 in Hk; injection Hk as <-; done).
  assert (Hsl : shared_integers 1 <> lo) by (intros E; rewrite E, A1 in Hone; apply (inj Some), (f_equal o_type) in Hone; cbn in Hone; congruence).
  assert (Hsk : shared_integers 1 <> ka) by (intros E; rewrite E, Hk in Hone; injection Hone as ->; done).
  set (o1 := mkObj REDIS_STRING ENC_INT rc vr1 (PLong 1)) in *.
  assert (Hok : forall r v, 0 < r -> str_obj_ok (mkObj REDIS_STRING ENC_INT r v (PLong 1)) (Util.ll2string_text 1)).
  { intros r v Hr. split; [done|]. split; [done|]. right. split; [done|]. by exists 1. }
  assert (HS1 : store_ok s1).
  { set (sa := set_heap (<[shared_integers 1 := o1]> (heap s)) s).
    assert (HSa : store_ok sa) by (eapply keeps_store; [|exact A3]; by eapply (keeps_touch _ _ o1); [exact Hone|apply Hok|apply Hok| |]).
    assert (Hal : heap sa !! lo = Some (zl ol (L1 ++ x :: L2))) by (cbn [sa heap set_heap]; by rewrite lookup_insert_ne).
    pose proof (store_write_list sa lo _ HSa Hal ltac:(cbn; congruence) (zl ol (L1 ++ L2)) eq_refl) as [F I].
    split; [|intros w Hw; rewrite C1; by apply I]. intros b Hb. rewrite C1. apply F. rewrite C2 in Hb. done. }
  assert (Hup : forall b, b <> lo -> b <> shared_integers 1 -> heap s1 !! b = heap s !! b) by (intros b H1 H2; by rewrite C1, !lookup_insert_ne).
  exists s1. split; [done|]. split; [|split; [done|split; try done]].
  - eapply list_state_db; [exact HL| | |done|done|done]; [rewrite C1; apply lookup_insert_eq|by apply Hup].
  - intros b o Hb1 Hb2 _ Ho. by rewrite Hup.
  - intros b Hb. rewrite C1. destruct (decide (b = lo)) as [->|H1]; [rewrite lookup_insert_eq; eauto|].
    rewrite lookup_insert_ne by done. destruct (decide (b = shared_integers 1)) as [->|H2]; [rewrite lookup_insert_eq; eauto|]. by rewrite lookup_insert_ne.
Qed.

Lemma update_list_elem_ok s L1 x L2 e y :
  list_state s (L1 ++ x :: L2) -> elem s e x -> Util.string2ll x = None -> x ∉ L1 -> text cf y ->
  Z.of_nat (length (L1 ++ x :: L2)) < list_max_ziplist_entries cf ->
  exists n s', kvolve_update_list_elem c y e s = Done (n, s') /\ list_state s' (L1 ++ y :: L2) /\ elem s' n y /\
    elem_step e s s' /\ heap s !! n = None.
Proof.
  intros HL Hel Hix Hx Hy Hlen. destruct Hel as [Heka (vr & Hoe)].
  destruct (list_add_new_state s L1 x L2 e vr y HL Heka Hoe Hx Hy Hlen) as (cl & n & s1 & E1 & Hcl & HL1 & Hn1 & Hoe1 & HS1 & Hfresh).
  unfold kvolve_update_list_elem. rewrite (prog_bind_step _ _ _ _ _ E1). cbn [fst snd].
  destruct (elem_ne _ _ _ _ HL1 Hn1) as [Hnlo Hnsh].
  assert (exists s2, list_delete_old cl e s1 = Done (tt, s2) /\ list_state s2 (L1 ++ y :: L2) /\
    (forall b, b <> lo -> b <> shared_integers 1 -> heap s2 !! b = heap s1 !! b) /\ elem_step e s1 s2) as (s2 & E2 & HL2 & Hup & HS2).
  { destruct (decide (y = x)) as [->|Hyx].
    - apply (list_delete_old_state s1 cl L1 x (x :: L2) e vr); try done. by destruct L1.
    - change (y :: x :: L2) with ([y] ++ x :: L2) in *. change (y :: L2) with ([y] ++ L2). rewrite app_assoc in *.
      apply (list_delete_old_state s1 cl (L1 ++ [y]) x L2 e vr); try done; [set_solver|by destruct L1]. }
  rewrite (prog_bind_step _ _ _ _ _ E2). exists n, s2. split; [done|]. split; [done|].
  split; [|split; [eapply elem_step_trans; [done|done|by left]|done]].
  destruct Hn1 as [Hnk (w & Hw)]. split; [done|]. exists w. by rewrite Hup.
Qed.

End Lists.

Section Lists2.
#[local] Set Default Proof Using "Type*".
Context (mu : upd_fun) (tr : fptr -> sds -> option sds) {Hmu : PureUpdates mu tr}.
Context (c : client) (v : version_hash) (key : sds) (lo ka : addr) (ol : robj) (cf : server_conf).
Context (Hka : cl_argv c !! 1%nat = Some (Some ka)) (Ht : o_type ol = REDIS_LIST) (He : o_encoding ol = ENC_ZIPLIST).
Context (Hw : wf_vh v).
Local Abbreviation list_state := (list_state c key lo ka ol cf).
Local Abbreviation elem := (elem ka).
Local Abbreviation elem_step := (elem_step lo).

(** The replacements of the log can be made at their place, after [L1]. *)
Definition log_ok (L1 : list sds) (log : list (sds * sds)) : Prop :=
  Forall (fun p => p.1 ∉ L1 /\ text cf p.2) log.

Definition short (L : list sds) : Prop := Z.of_nat (length L) < list_max_ziplist_entries cf.

(** The result of some of the updates of [e], whose value was [x]. *)
Definition elem_done (s : server) (e : addr) (L1 : list sds) (x' : sds) (L2 : list sds) (s' : server) (e' : addr) : Prop :=
  list_state s' (L1 ++ x' :: L2) /\ elem s' e' x' /\ Util.string2ll x' = None /\ elem_step e s s' /\ (e' = e \/ heap s !! e' = None).

Lemma elem_done_trans s e L1 x1 L2 s1 e1 x2 s2 e2 :
  elem_done s e L1 x1 L2 s1 e1 -> elem_done s1 e1 L1 x2 L2 s2 e2 -> elem_done s e L1 x2 L2 s2 e2.
Proof.
  intros (A1 & A2 & A3 & A4 & A5) (B1 & B2 & B3 & B4 & B5). split; [done|]. split; [done|]. split; [done|].
  split; [by eapply elem_step_trans|]. destruct B5 as [->|B5]; [done|]. right.
  destruct (heap s !! e2) eqn:E; [|done]. destruct (es_some _ _ _ _ A4 e2 ltac:(eauto)) as [? ?]. congruence.
Qed.

Lemma run_fun_list ck f s e L1 x L2 : list_state s (L1 ++ x :: L2) -> elem s e x -> Util.string2ll x = None ->
  log_ok L1 (match tr f x with Some y => [(x, y)] | None => [] end) -> short (L1 ++ x :: L2) ->
  exists e' s', run_fun mu c v ck KList f e s = Done (e', s') /\ elem_done s e L1 (default x (tr f x)) L2 s' e'.
Proof.
  intros HL Hel Hix Hlog Hsh. unfold run_fun. rewrite (bind_arg_str _ _ _ _ _ (list_state_arg c key lo ka ol cf Hka Ht He _ _ c HL Hka)).
  pose proof Hel as [_ (vr & Hoe)]. rewrite (bind_deref _ _ _ _ Hoe), bind_mret.
  change (o_ptr (elem_obj vr x)) with (PSds x). rewrite (prog_bind_step _ _ _ _ _ (pure_mu _ _ _ _ _)). cbn [mu_key apply_key]. rewrite bind_mret. unfold apply_val. cbn [mu_val].
  destruct (tr f x) as [y|]; cbn [from_option id].
  - apply Forall_singleton in Hlog as [Hx Hy].
    destruct (update_list_elem_ok c key lo ka ol cf Hka Ht He s L1 x L2 e y HL Hel Hix Hx Hy Hsh) as (n & s1 & E1 & HL1 & Hn1 & HS1 & Hf).
    exists n, s1. split; [done|]. split; [done|]. split; [done|]. split; [apply Hy|]. split; [done|by right].
  - exists e, s. split; [done|]. split; [done|]. split; [done|]. split; [done|]. split; [by apply elem_step_refl|by left].
Qed.

Lemma short_swap L1 x y L2 : short (L1 ++ x :: L2) -> short (L1 ++ y :: L2).
Proof. unfold short. by rewrite !length_app. Qed.

Lemma run_funs_list ck fs : forall s e L1 x L2, list_state s (L1 ++ x :: L2) -> elem s e x -> Util.string2ll x = None ->
  log_ok L1 (funs_log tr fs x) -> short (L1 ++ x :: L2) ->
  exists e' s', run_funs mu c v ck KList fs e s = Done (e', s') /\ elem_done s e L1 (apply_funs tr fs x) L2 s' e'.
Proof.
  induction fs as [|f fs IH]; intros s e L1 x L2 HL Hel Hix Hlog Hsh; cbn [run_funs].
  - exists e, s. split; [done|]. split; [done|]. split; [done|]. split; [done|]. split; [by apply elem_step_refl|by left].
  - cbn [funs_log] in Hlog. assert (Hl2 : log_ok L1 (match tr f x with Some y => [(x, y)] | None => [] end) /\
      log_ok L1 (funs_log tr fs (default x (tr f x)))).
    { destruct (tr f x); cbn; [apply Forall_cons in Hlog as [? ?]; split; [by apply Forall_singleton|done]|by split; [apply Forall_nil|]]. }
    destruct Hl2 as [Hl1 Hl2]. destruct (run_fun_list ck f s e L1 x L2 HL Hel Hix Hl1 Hsh) as (e1 & s1 & E1 & HD1).
    rewrite (prog_bind_step _ _ _ _ _ E1). pose proof HD1 as (HL1 & Hel1 & Hix1 & _ & _).
    destruct (IH s1 e1 L1 _ L2 HL1 Hel1 Hix1 Hl2 (short_swap _ _ _ _ Hsh)) as (e2 & s2 & E2 & HD2).
    exists e2, s2. split; [done|]. by eapply elem_done_trans.
Qed.

(** Writing the version of an element. *)
Lemma list_state_stamp s L e x w : list_state s L -> elem s e x ->
  exists s', upd_obj e (set_o_vers w) s = Done (tt, s') /\ list_state s' L /\ elem s' e x /\ elem_step e s s' /\
    heap s' !! e = Some (elem_obj w x).
Proof.
  intros HL Hel. destruct (elem_ne c key lo ka ol cf Hka Ht He _ _ _ _ HL Hel) as [Helo Hesh]. pose proof Hel as [Hek (vr & Hoe)].
  rewrite (upd_obj_Done _ _ _ _ Hoe). eexists. split; [reflexivity|]. cbn [set_o_vers elem_obj].
  assert (Hok : forall w, str_obj_ok (elem_obj w x) x) by (intros w'; split; [done|]; split; [done|]; by left).
  pose proof HL as [A1 A2 A3 A4 A5 A6]. split; [|split; [|split]].
  - eapply list_state_db; [done|done|done|exact HL| | | |done|done]; cbn [heap set_heap]; [by rewrite lookup_insert_ne|by rewrite lookup_insert_ne|].
    eapply keeps_store; [|exact A3]. eapply (keeps_touch e _ (elem_obj w x) x); [exact Hoe|apply Hok|apply Hok|done|done].
  - split; [done|]. exists w. cbn. apply lookup_insert_eq.
  - split; try done.
    + intros b o _ _ Hb Ho. cbn. by rewrite lookup_insert_ne.
    + intros b Hb. cbn. destruct (decide (e = b)) as [<-|Hne]; [rewrite lookup_insert_eq; eauto|by rewrite lookup_insert_ne].
  - cbn. apply lookup_insert_eq.
Qed.

Lemma vers_step_list ck j s e L1 x L2 : 0 <= j < num_versions v -> list_state s (L1 ++ x :: L2) -> elem s e x -> Util.string2ll x = None ->
  log_ok L1 (step_log tr v x j) -> short (L1 ++ x :: L2) ->
  exists e' s', vers_step mu c v ck KList j e s = Done (e', s') /\ elem_done s e L1 (step_val tr v x j) L2 s' e'.
Proof.
  intros Hj HL Hel Hix Hlog Hsh. destruct Hw as [Hv Hi Hn]. unfold vers_step.
  destruct (lookup_lt_is_Some_2 (info v) (Z.to_nat j)) as [inf Hinf]; [lia|]. rewrite (arr_get_ok _ _ _ (proj1 Hj) Hinf), bind_lift.
  assert (exists e1 s1, (match inf with None => mret e | Some inf => run_funs mu c v ck KList (take (Z.to_nat (num_funs inf)) (funs inf)) e end) s
    = Done (e1, s1) /\ elem_done s e L1 (step_val tr v x j) L2 s1 e1) as (e1 & s1 & E1 & HD1).
  { unfold step_val, step_log in *. rewrite Hinf in *. destruct inf as [inf|]; [by apply run_funs_list|].
    exists e, s. split; [done|]. split; [done|]. split; [done|]. split; [done|]. split; [by apply elem_step_refl|by left]. }
  rewrite (prog_bind_step _ _ _ _ _ E1). destruct (arr_get_lt (versions v) j) as [vj Hvj]; [lia|]. rewrite Hvj, bind_lift.
  pose proof HD1 as (HL1 & Hel1 & Hix1 & HS1 & Hor). destruct (list_state_stamp s1 _ e1 _ vj HL1 Hel1) as (s2 & E2 & HL2 & Hel2 & HS2 & _).
  rewrite (prog_bind_step _ _ _ _ _ E2). exists e1, s2. split; [done|]. eapply elem_done_trans; [exact HD1|].
  split; [done|]. split; [done|]. split; [done|]. split; [done|by left].
Qed.

Lemma vers_loop_list ck js : forall s e L1 x L2, Forall (fun j => 0 <= j < num_versions v) js ->
  list_state s (L1 ++ x :: L2) -> elem s e x -> Util.string2ll x = None -> log_ok L1 (steps_log tr v js x) -> short (L1 ++ x :: L2) ->
  exists e' s', vers_loop mu c v ck KList js e s = Done (e', s') /\ elem_done s e L1 (foldl (step_val tr v) x js) L2 s' e'.
Proof.
  induction js as [|j js IH]; intros s e L1 x L2 Hjs HL Hel Hix Hlog Hsh; cbn [vers_loop foldl].
  - exists e, s. split; [done|]. split; [done|]. split; [done|]. split; [done|]. split; [by apply elem_step_refl|by left].
  - apply Forall_cons in Hjs as [Hj Hjs]. cbn [steps_log] in Hlog. apply Forall_app in Hlog as [Hl1 Hl2].
    destruct (vers_step_list ck j s e L1 x L2 Hj HL Hel Hix Hl1 Hsh) as (e1 & s1 & E1 & HD1). rewrite (prog_bind_step _ _ _ _ _ E1).
    pose proof HD1 as (HL1 & Hel1 & Hix1 & _ & _).
    destruct (IH s1 e1 L1 _ L2 Hjs HL1 Hel1 Hix1 Hl2 (short_swap _ _ _ _ Hsh)) as (e2 & s2 & E2 & HD2).
    exists e2, s2. split; [done|]. by eapply elem_done_trans.
Qed.

Lemma store_ok_kv s k : store_ok s -> store_ok (set_kv k s).
Proof. by intros [F I]. Qed.

Lemma list_state_kv s L k : list_state s L -> list_state (set_kv k s) L.
Proof. intros [A1 A2 A3 A4 A5 A6]. split; try done. by apply store_ok_kv. Qed.

Lemma check_update_list first s e L1 x L2 cur : cur_vers v = Done cur -> o_vers ol <> cur -> upd_fun_running (kv s) = 0 ->
  list_state s (L1 ++ x :: L2) -> elem s e x -> Util.string2ll x = None ->
  log_ok L1 (change_log tr v (o_vers ol) x) -> short (L1 ++ x :: L2) ->
  exists s', (_ ← upd_obj e (set_o_vers (o_vers ol)); kvolve_check_update_kv_pair mu c (Some v) first (Some e) KList) s = Done (tt, s') /\
    list_state s' (L1 ++ migrate tr v (o_vers ol) x :: L2) /\ elem_step e s s'.
Proof.
  intros Hc Hne Hrun HL Hel Hix Hlog Hsh. destruct (list_state_stamp s _ e x (o_vers ol) HL Hel) as (s1 & E1 & HL1 & Hel1 & HS1 & Hoe1).
  rewrite (prog_bind_step _ _ _ _ _ E1). unfold kvolve_check_update_kv_pair. rewrite bind_gets, (es_kv _ _ _ _ HS1), Hrun. cbn [Z.eqb].
  rewrite bind_mret, (bind_deref _ _ _ _ Hoe1). cbn [is_small_int elem_obj o_ptr o_vers]. rewrite Hc, bind_lift.
  rewrite (proj2 (Z.eqb_neq _ _)) by done. unfold do_update, upd_kv. rewrite bind_modify. set (s2 := set_kv _ s1).
  pose proof (list_state_kv s1 _ (set_upd_fun_running 1 (kv s1)) HL1 : list_state s2 _) as HL2.
  destruct (ns_changed_Done v Hw _ _ Hc Hne) as [b Hb].
  assert (E2 : exists r, (if first then lift (ns_changed v (find_vers v (o_vers ol))) else mret false) s2 = Done (r, s2))
    by (destruct first; [rewrite Hb; by exists b|by exists false]).
  destruct E2 as [r E2]. rewrite (prog_bind_step _ _ _ _ _ E2).
  assert (E3 : when r (kvolve_namespace_update c v) s2 = Done (tt, s2)).
  { destruct r; [|done]. cbn [when]. eapply namespace_update_present;
      [by eapply (list_state_arg c key lo ka ol cf)|apply HL2]. }
  rewrite (prog_bind_step _ _ _ _ _ E3). destruct (pending_last v (o_vers ol) cur Hw Hc Hne) as (js & _ & Hr).
  destruct (vers_loop_list first (pending v (o_vers ol)) s2 e L1 x L2 Hr HL2 Hel1 Hix Hlog Hsh) as (e3 & s3 & E4 & (HL3 & _ & _ & HS3 & _)).
  fold (pending v (o_vers ol)). rewrite (prog_bind_step _ _ _ _ _ E4). eexists. split; [reflexivity|].
  split; [by apply list_state_kv|]. destruct HS1 as [B1 B2 B3 B4], HS3 as [D1 D2 D3 D4]. split; cbn [heap set_kv dbs kv].
  - intros a o Ha1 Ha2 Ha3 Ha. apply D1; try done. by apply B1.
  - intros a Ha. by apply D2, B2.
  - by rewrite D3.
  - rewrite D4. cbn. rewrite B4. destruct (kv s); cbn in *. by subst.
Qed.

(** An element that was updated is freed: it is none of the list's. *)
Lemma list_state_zfree s0 s L0 L e x : list_state s0 L0 -> elem s0 e x -> elem_step e s0 s -> list_state s L ->
  exists s', zfree e s = Done (tt, s') /\ list_state s' L /\ dbs s' = dbs s /\ kv s' = kv s /\
    (forall b, b <> e -> heap s' !! b = heap s !! b).
Proof.
  intros HL0 Hel HS HL. destruct (elem_ne c key lo ka ol cf Hka Ht He _ _ _ _ HL0 Hel) as [Helo _]. destruct Hel as [Hek (vr & Hoe)].
  destruct (es_some _ _ _ _ HS e ltac:(eauto)) as [oe Ho]. rewrite (zfree_Done _ _ _ Ho). eexists. split; [reflexivity|].
  assert (Hup : forall b, b <> e -> delete e (heap s) !! b = heap s !! b) by (intros b Hb; by rewrite lookup_delete_ne).
  split; [|done]. pose proof HL as [A1 A2 A3 A4 A5 A6].
  eapply list_state_db; [done|done|done|exact HL| | | |done|done]; cbn [heap set_heap]; [by rewrite Hup|by rewrite Hup by congruence|].
  destruct A3 as [F I]. split.
  - intros b Hb. cbn. destruct (decide (b = e)) as [->|Hne]; [apply lookup_delete_eq|]. rewrite Hup by done. by apply F.
  - intros w Hwr. cbn. rewrite Hup; [by apply I|]. intros E.
    destruct (st_ints _ (ls_store _ _ _ _ _ _ _ _ HL0) w Hwr) as (rc & vr' & _ & H). rewrite E, Hoe in H. done.
Qed.

(** What the logs of all the elements must satisfy, together. *)
Definition logs_ok (L1 L : list sds) : Prop := forall x, x ∈ L ->
  Util.string2ll x = None /\ log_ok (L1 ++ map (migrate tr v (o_vers ol)) L) (change_log tr v (o_vers ol) x).

Lemma log_ok_mono L1 L2 log : L2 ⊆ L1 -> log_ok L1 log -> log_ok L2 log.
Proof. intros Hs Hl. eapply Forall_impl; [exact Hl|]. intros p [H1 H2]. split; [intros H; by apply H1, Hs|done]. Qed.

Lemma update_list_elems_ok cur : cur_vers v = Done cur -> o_vers ol <> cur -> forall es L1 first s,
  list_state s (L1 ++ map snd es) -> Forall (fun p => elem s p.1 p.2) es -> NoDup (map fst es) -> upd_fun_running (kv s) = 0 ->
  logs_ok L1 (map snd es) -> short (L1 ++ map snd es) ->
  exists s', update_list_elems mu c v lo first (map fst es) s = Done (tt, s') /\
    list_state s' (L1 ++ map (migrate tr v (o_vers ol)) (map snd es)) /\ dbs s' = dbs s /\ kv s' = kv s.
Proof.
  intros Hc Hne. induction es as [|[e x] es IH]; intros L1 first s HL Hes HN Hrun Hlogs Hsh; cbn [map update_list_elems fst snd] in *.
  - by exists s.
  - apply Forall_cons in Hes as [Hel Hes]. cbn [fst snd] in Hel. apply NoDup_cons in HN as [Hne' HN].
    rewrite (bind_deref _ _ _ _ (ls_obj _ _ _ _ _ _ _ _ HL)). change (o_vers (zl ol (L1 ++ x :: map snd es))) with (o_vers ol).
    destruct (Hlogs x ltac:(left)) as [Hix Hlog].
    destruct (check_update_list first s e L1 x (map snd es) cur Hc Hne Hrun HL Hel Hix) as (s1 & E1 & HL1 & HS1);
      [eapply log_ok_mono; [|exact Hlog]; set_solver|done|].
    rewrite <- bind_assoc, (prog_bind_step _ _ _ _ _ E1).
    destruct (list_state_zfree s s1 _ _ e x HL Hel HS1 HL1) as (s2 & E2 & HL2 & D2 & K2 & Hup). rewrite (prog_bind_step _ _ _ _ _ E2).
    destruct (IH (L1 ++ [migrate tr v (o_vers ol) x]) false s2) as (s3 & E3 & HL3 & D3 & K3); try done.
    + by rewrite <- app_assoc.
    + apply Forall_forall. intros [e' x'] Hp. pose proof (proj1 (Forall_forall _ _) Hes _ Hp) as Hel'. cbn [fst snd] in *.
      destruct (elem_ne c key lo ka ol cf Hka Ht He _ _ _ _ HL Hel') as [Hl' Hs']. destruct Hel' as [Hk' (w & Hw')]. split; [done|]. exists w.
      assert (e' <> e) by (intros ->; apply Hne'; by apply (list_elem_of_fmap_2 fst) in Hp). rewrite Hup by done. by apply HS1.
    + rewrite K2. by rewrite (es_kv _ _ _ _ HS1).
    + intros x' Hx'. destruct (Hlogs x' ltac:(by right)) as [H1 H2]. split; [done|]. by rewrite <- app_assoc.
    + rewrite <- app_assoc. by eapply short_swap.
    + exists s3. split; [done|]. rewrite <- app_assoc in HL3. split; [done|]. rewrite D3, D2, K3, K2. by destruct HS1.
Qed.

(** A new object leaves the list alone. *)
Lemma list_state_alloc s L o : list_state s L ->
  list_state (set_next_addr (Pos.succ (next_addr s)) (set_heap (<[next_addr s := o]> (heap s)) s)) L.
Proof.
  intros HL. pose proof HL as [A1 (ok & Hk & Hp) A3 A4 A5 A6]. pose proof (heap_fresh_lt _ _ _ (st_fresh _ A3) A1).
  pose proof (heap_fresh_lt _ _ _ (st_fresh _ A3) Hk).
  eapply list_state_db; [done|done|done|exact HL| | | |done|done]; cbn [heap set_heap set_next_addr]; try (by rewrite lookup_insert_ne by lia).
  exact (keeps_store _ _ (alloc_keeps o s A3) A3).
Qed.

Lemma gather_list_ok L : forall todo done fuel s, L = done ++ todo -> (length todo < fuel)%nat -> list_state s L ->
  (forall x, x ∈ todo -> Util.string2ll x = None) ->
  exists es s', gather_list fuel (mkLi lo ENC_ZIPLIST REDIS_TAIL (match todo with [] => None | _ => Some (length done) end)) s = Done (map fst es, s') /\
    map snd es = todo /\ Forall (fun p => elem s' p.1 p.2) es /\ NoDup (map fst es) /\ Forall (fun e => next_addr s <= e)%positive (map fst es) /\
    list_state s' L /\ dbs s' = dbs s /\ kv s' = kv s /\ (forall b o, heap s !! b = Some o -> heap s' !! b = Some o).
Proof.
  induction todo as [|x todo IH]; intros done fuel s HLd Hf HL Hint; (destruct fuel as [|fuel]; [cbn in Hf; lia|]); cbn [gather_list].
  - unfold listTypeNext. cbn [li_subject li_encoding li_pos]. rewrite bind_assoc, (bind_deref _ _ _ _ (ls_obj _ _ _ _ _ _ _ _ HL)).
    cbn [zl set_o_ptr o_encoding]. rewrite He, bool_decide_true by done. cbn [require_b]. rewrite bind_assoc, bind_lift.
    exists [], s. repeat split; try constructor; try apply HL; done.
  - pose proof (ls_obj _ _ _ _ _ _ _ _ HL) as A1. rewrite (prog_bind_step _ _ _ _ _ (next_tail lo ol He L (length done) s A1)).
    unfold listTypeGet. cbn [li_subject li_encoding]. rewrite bind_assoc, (bind_deref _ _ _ _ A1). unfold zl_of. cbn [zl set_o_ptr o_ptr].
    assert (Hlk : L !! length done = Some x) by (rewrite HLd; by apply list_lookup_middle).
    rewrite bind_assoc, bind_lift, Hlk. unfold zl_object. rewrite (Hint x ltac:(left)).
    unfold createStringObject, createObject. rewrite bind_assoc, bind_alloc, bind_mret. cbn [expect]. rewrite bind_lift.
    set (n := next_addr s). set (s1 := set_next_addr _ _). pose proof (list_state_alloc s L (elem_obj 0 x) HL : list_state s1 L) as HL1.
    replace (if (S (length done) <? length L)%nat then Some (S (length done)) else None)
      with (match todo with [] => None | _ => Some (length (done ++ [x])) end).
    2:{ rewrite HLd, !length_app. destruct todo as [|z todo]; cbn [length]; [by rewrite (proj2 (Nat.ltb_ge _ _)) by lia|].
        rewrite (proj2 (Nat.ltb_lt _ _)) by lia. f_equal. lia. }
    destruct (IH (done ++ [x]) fuel s1) as (es & s2 & E2 & Hm & Hes & HN & Hge & HL2 & D2 & K2 & Hk2);
      [by rewrite <- app_assoc|cbn in Hf; lia|done|intros y Hy; apply Hint; by right|].
    rewrite (prog_bind_step _ _ _ _ _ E2). exists ((n, x) :: es), s2. split; [done|]. split; [cbn; by rewrite Hm|].
    pose proof (ls_key _ _ _ _ _ _ _ _ HL) as (ok & Hk & _). pose proof (heap_fresh_lt _ _ _ (st_fresh _ (ls_store _ _ _ _ _ _ _ _ HL)) Hk).
    split; [|split; [|split; [|split; [done|split; [done|split; [done|]]]]]].
    + constructor; [|done]. split; [subst n; cbn; lia|]. exists 0. apply Hk2. subst s1. cbn. apply lookup_insert_eq.
    + cbn. apply NoDup_cons. split; [|done]. intros Hin. apply (proj1 (Forall_forall _ _) Hge) in Hin. subst s1. cbn in Hin. subst n. lia.
    + cbn. constructor; [subst n; lia|]. eapply Forall_impl; [exact Hge|]. intros b Hb. subst s1. cbn in Hb. cbn. lia.
    + intros b o Hb. apply Hk2. subst s1. cbn. rewrite lookup_insert_ne; [done|]. intros <-.
      rewrite (st_fresh _ (ls_store _ _ _ _ _ _ _ _ HL)) in Hb by (subst n; lia). done.
Qed.

Lemma update_all_list_ok cur s L : list_state s L -> upd_fun_running (kv s) = 0 -> cur_vers v = Done cur -> o_vers ol <> cur ->
  logs_ok [] L -> short L ->
  exists s', kvolve_update_all_list mu c (Some v) s = Done (0, s') /\
    heap s' !! lo = Some (set_o_vers cur (zl ol (map (migrate tr v (o_vers ol)) L))) /\ dbs s' = dbs s /\ kv s' = kv s.
Proof.
  intros HL Hrun Hc Hne Hlogs Hsh. unfold kvolve_update_all_list. pose proof (ls_obj _ _ _ _ _ _ _ _ HL) as A1.
  rewrite (prog_bind_step _ _ _ _ _ (get_db_val_present s c v key lo (list_state_arg c key lo ka ol cf Hka Ht He _ _ c HL Hka)
    (ls_lookup _ _ _ _ _ _ _ _ HL))).
  rewrite (bind_deref _ _ _ _ A1), Hc, bind_lift. change (o_vers (zl ol L)) with (o_vers ol). rewrite (proj2 (Z.eqb_neq _ _)) by done.
  rewrite (zl_length ol He), bind_lift.
  assert (E1 : listTypeInitIterator lo 0 REDIS_TAIL s =
    Done (mkLi lo ENC_ZIPLIST REDIS_TAIL (match L with [] => None | _ => Some (length (@nil sds)) end), s)).
  { destruct L as [|x L]; [|by apply (init_head lo ol He (x :: L))]. unfold listTypeInitIterator. rewrite (bind_deref _ _ _ _ A1), (zl_length ol He), bind_lift.
    cbn [zl set_o_ptr o_encoding]. by rewrite He. }
  rewrite (prog_bind_step _ _ _ _ _ E1).
  destruct (gather_list_ok L L [] (S (Z.to_nat (Z.of_nat (length L)))) s eq_refl ltac:(lia) HL) as
    (es & s1 & E2 & Hm & Hes & HN & _ & HL1 & D1 & K1 & _); [intros x Hx; by apply Hlogs|].
  rewrite (prog_bind_step _ _ _ _ _ E2).
  destruct (update_list_elems_ok cur Hc Hne es [] true s1) as (s2 & E3 & HL2 & D2 & K2); rewrite ?Hm; try done; [by rewrite K1|].
  rewrite (prog_bind_step _ _ _ _ _ E3). pose proof (ls_obj _ _ _ _ _ _ _ _ HL2) as A2. rewrite (bind_upd_obj _ _ _ _ _ A2).
  eexists. split; [reflexivity|]. cbn [heap set_heap dbs kv]. rewrite lookup_insert_eq, Hm. split; [done|]. by rewrite D2, D1, K2, K1.
Qed.
End Lists2.



(** A list of version 1 under "b:x", where version 2 has one update function. *)
Definition list_heap (L : list sds) : gmap addr robj :=
  <[10011%positive := str_obj "b:x" 0]> (<[10012%positive := mkObj REDIS_LIST ENC_ZIPLIST 1 1 (PZiplist L)]> ∅).
Definition cont_client : client := client_of 0 [10010; 10011]%positive.
Definition cont_base : server := with_ns [demo_vh "a" None [1]; demo_b] (put_key 0 "b:x" 10012 server0).
Definition list_server (L : list sds) : server := store_of (list_heap L) cont_base.

Lemma list_server_state L : list_state cont_client (str "b:x") 10012 10011 (mkObj REDIS_LIST ENC_ZIPLIST 1 1 (PZiplist L))
  conf0 (list_server L) L.
Proof.
  split.
  - apply (store_of_lookup (list_heap L) cont_base). reflexivity.
  - exists (str_obj "b:x" 0). split; [apply (store_of_lookup (list_heap L) cont_base); reflexivity|reflexivity].
  - apply (store_of_ok (list_heap L) cont_base); [reflexivity|]. intros b o. unfold list_heap. rewrite !lookup_insert_Some.
    intros [[<- _]|[_ [[<- _]|[_ Hb]]]]; [lia|lia|]. by rewrite lookup_empty in Hb.
  - exact I.
  - reflexivity.
  - reflexivity.
Qed.


(** ** Hashes *)

(** What the functions do to a field [k]: the new name and the new value;
    [x] is the value that they are given, which is always the one the hash had
    before the update, whatever earlier functions stored. *)
Class PureHashUpdates (mu : upd_fun) (trh : fptr -> sds -> sds -> option sds * option sds) :=
  pure_muh : forall f key k x len s,
    mu f key (VHash (PSds k) (PSds x)) len s = Done (mkMu None (fst (trh f k x)) len (snd (trh f k x)) None, s).

Section HashLogs.
Context (trh : fptr -> sds -> sds -> option sds * option sds).

(** The pair [(k, w)] in the hash after the function [f]. *)
Definition hstep (x : sds) (p : sds * sds) (f : fptr) : sds * sds :=
  match trh f p.1 x with
  | (None, None) => p
  | (nk, nv) => (default p.1 nk, default x nv)
  end.

(** The writes that the functions [fs] cause: the old field, and the new pair. *)
Fixpoint hfuns_log (x : sds) (fs : list fptr) (p : sds * sds) : list (sds * (sds * sds)) :=
  match fs with
  | [] => []
  | f :: r =>
    match trh f p.1 x with
    | (None, None) => hfuns_log x r p
    | _ => (p.1, hstep x p f) :: hfuns_log x r (hstep x p f)
    end
  end.

Definition hfuns (v : version_hash) (j : Z) : list fptr :=
  match info v !! Z.to_nat j with
  | Some (Some inf) => take (Z.to_nat (num_funs inf)) (funs inf)
  | _ => []
  end.

Definition hstep_val (v : version_hash) (x : sds) (p : sds * sds) (j : Z) : sds * sds :=
  foldl (hstep x) p (hfuns v j).

Fixpoint hsteps_log (v : version_hash) (x : sds) (js : list Z) (p : sds * sds) : list (sds * (sds * sds)) :=
  match js with
  | [] => []
  | j :: r => hfuns_log x (hfuns v j) p ++ hsteps_log v x r (hstep_val v x p j)
  end.

(** A field and its value at the current version, and the writes on the way. *)
Definition hmigrate (v : version_hash) (vers : Z) (p : sds * sds) : sds * sds :=
  foldl (hstep_val v p.2) p (pending v vers).
Definition hchange_log (v : version_hash) (vers : Z) (p : sds * sds) : list (sds * (sds * sds)) :=
  hsteps_log v p.2 (pending v vers) p.
End HashLogs.

(** A field or a value that a ziplist can keep and a C string can carry. *)
Definition htext (cf : server_conf) (y : sds) : Prop := NUL ∉ y /\ sdslen y <= hash_max_ziplist_value cf.

Section Hashes.
#[local] Set Default Proof Using "Type*".
Context (c : client) (key : sds) (ho ka : addr) (oh : robj) (cf : server_conf).
Context (Hka : cl_argv c !! 1%nat = Some (Some ka)) (Ht : o_type oh = REDIS_HASH) (He : o_encoding oh = ENC_ZIPLIST).

(** The hash under [key] has the fields and values [ps]. *)
Record hash_st (s : server) (ps : list (sds * sds)) : Prop := {
  ht_obj : heap s !! ho = Some (THash.zh oh ps);
  ht_key : exists ok, heap s !! ka = Some ok /\ o_ptr ok = PSds key;
  ht_store : store_ok s;
  ht_live : live s (cl_db c) key;
  ht_lookup : lookupKey s (cl_db c) key = Some ho;
  ht_conf : conf s = cf;
  ht_nodup : NoDup (map fst ps)
}.

Lemma hash_st_db s s' ps ps' : hash_st s ps -> heap s' !! ho = Some (THash.zh oh ps') -> heap s' !! ka = heap s !! ka ->
  store_ok s' -> dbs s' = dbs s -> conf s' = conf s -> NoDup (map fst ps') -> hash_st s' ps'.
Proof.
  intros [A1 A2 A3 A4 A5 A6 A7] Hh Hk HS Hd Hc HN. split; try done.
  - by rewrite Hk.
  - eapply live_ext; [|exact Hc|exact A4]. unfold get_db. by rewrite Hd.
  - unfold lookupKey, get_db in *. by rewrite Hd.
  - congruence.
Qed.

Lemma hash_elem_ne s ps e x : hash_st s ps -> elem ka s e x -> e <> ho /\ e <> shared_integers 1.
Proof.
  intros HH [_ (vr & Hv)]. split; intros ->.
  - assert (E : o_type (THash.zh oh ps) = REDIS_STRING) by (rewrite (ht_obj _ _ HH) in Hv; apply (inj Some) in Hv; by rewrite Hv).
    cbn in E. congruence.
  - destruct (st_ints _ (ht_store _ _ HH) 1 ltac:(unfold REDIS_SHARED_INTEGERS; lia)) as (rc & vr' & _ & H). unfold elem_obj in Hv. congruence.
Qed.

Lemma elem_raw s e x : elem ka s e x -> THash.raw s e x.
Proof. intros [_ (vr & H)]. by exists (elem_obj vr x). Qed.

Lemma store_write_hash s ps o' : hash_st s ps -> o_type o' = REDIS_HASH -> store_ok (set_heap (<[ho := o']> (heap s)) s).
Proof.
  intros HH Ho'. apply (gr_store ho s); [|apply HH]. apply (grows_container ho _ (fun _ => o') s (ht_obj _ _ HH)). cbn. congruence.
Qed.

(** The hash rewritten, nothing else. *)
Lemma hash_st_rewrote s s' ps ps' : hash_st s ps -> rewrote ho (THash.zh oh ps') s s' -> NoDup (map fst ps') ->
  hash_st s' ps' /\ forall e, elem_step ho e s s'.
Proof.
  intros HH [B1 B2 B3 B4 B5] HN. pose proof (store_write_hash s ps (THash.zh oh ps') HH Ht) as [F I].
  pose proof HH as [A1 (ok & Hk & Hkp) A3 A4 A5 A6 A7].
  assert (Hkh : ka <> ho) by (intros ->; rewrite A1 in Hk; injection Hk as <-; done). split.
  - eapply hash_st_db; [exact HH| | | |done|done|done]; [rewrite B1; apply lookup_insert_eq|by rewrite B1, lookup_insert_ne|].
    split; [|intros w Hw; rewrite B1; by apply I]. intros b Hb. rewrite B1. apply F. by rewrite B2 in Hb.
  - intros e. split; try done.
    + intros b o Hb _ _ Ho. by rewrite B1, lookup_insert_ne.
    + intros b Hb. rewrite B1. destruct (decide (b = ho)) as [->|Hne]; [rewrite lookup_insert_eq; eauto|by rewrite lookup_insert_ne].
Qed.

Lemma hash_st_alloc s ps o : hash_st s ps ->
  hash_st (set_next_addr (Pos.succ (next_addr s)) (set_heap (<[next_addr s := o]> (heap s)) s)) ps.
Proof.
  intros HH. pose proof HH as [A1 (ok & Hk & Hp) A3 A4 A5 A6 A7]. pose proof (heap_fresh_lt _ _ _ (st_fresh _ A3) A1).
  pose proof (heap_fresh_lt _ _ _ (st_fresh _ A3) Hk).
  eapply hash_st_db; [exact HH| | | |done|done|done]; cbn [heap set_heap set_next_addr]; try (by rewrite lookup_insert_ne by lia).
  exact (keeps_store _ _ (alloc_keeps o s A3) A3).
Qed.

Lemma hmap_len ps ps' nk nv : NoDup (map fst ps) -> NoDup (map fst ps') -> THash.hmap ps' = <[nk := nv]> (THash.hmap ps) ->
  (length ps' <= S (length ps))%nat.
Proof.
  intros HN HN' Hm. rewrite <- (THash.hmap_size ps HN), <- (THash.hmap_size ps' HN'), Hm.
  rewrite map_size_insert. destruct (THash.hmap ps !! nk); cbn; lia.
Qed.

(** The client that kvolve_update_hash_elem makes. *)
Definition hash_client (cl : client) : Prop :=
  cl_db cl = cl_db c /\ length (cl_argv cl) = 4%nat /\ cl_argv cl !! 1%nat = Some (Some ka).

Lemma hash_add_new_ok s ps e k nk nv : hash_st s ps -> elem ka s e k -> htext cf nk -> htext cf nv ->
  Z.of_nat (length ps) < hash_max_ziplist_entries cf ->
  exists cl n s' ps', hash_add_new c nk nv s = Done ((cl, n), s') /\ hash_client cl /\ hash_st s' ps' /\ elem ka s' n nk /\
    elem ka s' e k /\ THash.hmap ps' = <[nk := nv]> (THash.hmap ps) /\ elem_step ho e s s' /\ heap s !! n = None.
Proof.
  intros HH Hel [Hn1 Hn2] [Hv1 Hv2] Hlen. destruct (hash_elem_ne _ _ _ _ HH Hel) as [Heho Hesh].
  unfold hash_add_new, createClient. erewrite prog_bind_step by reflexivity.
  rewrite (argv_Done _ _ _ Hka), bind_lift, put_argv_Done, bind_lift by (cbn; lia). rewrite (cstr_id nk Hn1), (cstr_id nv Hv1).
  unfold createStringObject, createObject. set (s0 := set_next_client_id _ s). assert (HH0 : hash_st s0 ps) by (by destruct HH as [? ? [? ?]]).
  rewrite bind_alloc. set (n := next_addr s0). set (s1 := set_next_addr _ _). pose proof (hash_st_alloc s0 ps _ HH0 : hash_st s1 ps) as HH1.
  rewrite put_argv_Done, bind_lift by (cbn; lia). rewrite bind_alloc. change (next_addr s1) with (Pos.succ n). set (m := Pos.succ n).
  set (s2 := set_next_addr _ (set_heap (<[m := _]> _) _)).
  pose proof (hash_st_alloc s1 ps _ HH1 : hash_st s2 ps) as HH2. rewrite put_argv_Done, bind_lift by (cbn; lia). set (cl := set_cl_argv _ _).
  pose proof (st_fresh _ (ht_store _ _ HH)) as HF. change (next_addr s0) with (next_addr s) in n.
  assert (Hup : forall b o, heap s !! b = Some o -> heap s2 !! b = Some o).
  { intros b o Hb. pose proof (heap_fresh_lt _ _ _ HF Hb). subst s2 s1. cbn. by rewrite !lookup_insert_ne by (subst m n; lia). }
  assert (Hn : heap s2 !! n = Some (elem_obj 0 nk)) by (subst s2 s1; cbn; rewrite lookup_insert_ne by lia; apply lookup_insert_eq).
  assert (Hm : heap s2 !! m = Some (elem_obj 0 nv)) by (subst s2; cbn; apply lookup_insert_eq).
  destruct (THash.zl_set_ok ps nk nv (ht_nodup _ _ HH)) as (ps1 & Hz & HN1 & Hm1 & _).
  pose proof (ht_key _ _ HH) as (ok & Hok & Hokp). pose proof (heap_fresh_lt _ _ _ HF Hok) as Hkn. pose proof (ht_conf _ _ HH2) as Hcf.
  destruct (THash.hset_zl ho oh Ht He cl key s2 ps ps1 (bool_decide (is_Some (THash.hmap ps !! nk))) n nk m nv) as (s3 & r & E3 & R3);
    rewrite ?Hcf; try done; try apply HH2; try (by eexists).
  { exists ka, ok. split; [done|]. split; [by apply Hup|done]. }
  { subst m. lia. }
  { pose proof (hmap_len ps ps1 nk nv (ht_nodup _ _ HH) HN1 Hm1). lia. }
  rewrite (prog_bind_step _ _ _ _ _ E3). destruct (hash_st_rewrote s2 s3 _ _ HH2 R3 HN1) as [HH3 HS3].
  destruct (hash_elem_ne s2 ps n nk HH2) as [Hnho Hnsh]; [split; [lia|eauto]|].
  pose proof Hel as [Hek (vr & Hoe)]. eexists _, n, s3, ps1. split; [reflexivity|]. split; [done|]. split; [done|].
  destruct R3 as [B1 B2 B3 B4 B5].
  split; [split; [lia|exists 0; by rewrite B1, lookup_insert_ne]|]. split; [split; [done|exists vr; rewrite B1, lookup_insert_ne by done; by apply Hup]|].
  split; [done|]. split; [|apply HF; subst n; lia]. split; [| |by rewrite B3|by rewrite B5].
  - intros b o Hb _ _ Ho. rewrite B1, lookup_insert_ne by done. by apply Hup.
  - intros b [o Ho]. rewrite B1. destruct (decide (b = ho)) as [->|Hb]; [rewrite lookup_insert_eq; eauto|].
    rewrite lookup_insert_ne by done. exists o. by apply Hup.
Qed.

(** The old field goes when its name differs. *)
Lemma hash_delete_old_ok s cl ps k e n m w nk nv : hash_st s ps -> hash_client cl -> elem ka s e k -> elem ka s n nk ->
  NUL ∉ k -> NUL ∉ nk -> THash.hmap ps = <[nk := nv]> m -> m !! k = Some w ->
  exists s' ps', hash_delete_old cl e n s = Done (tt, s') /\ hash_st s' ps' /\ THash.hmap ps' = <[nk := nv]> (delete k m) /\
    (forall b, b <> ho -> heap s' !! b = heap s !! b) /\ elem_step ho e s s'.
Proof.
  intros HH (Hdb & Hlen & H1) Hel Heln Hnul Hnul' Hm Hk. pose proof Hel as [Hek (vr & Hoe)]. pose proof Heln as [_ (vn & Hon)].
  unfold hash_delete_old. rewrite (bind_deref _ _ _ _ Hoe). cbn [sds_of elem_obj o_ptr]. rewrite bind_lift, (bind_deref _ _ _ _ Hon).
  cbn [sds_of elem_obj o_ptr]. rewrite bind_lift. unfold strcmp_eq. rewrite (cstr_id k Hnul), (cstr_id nk Hnul').
  destruct (decide (k = nk)) as [->|Hne].
  { rewrite bool_decide_true by done. cbn [negb when]. exists s, ps. split; [done|]. split; [done|]. rewrite insert_delete_eq. split; [done|].
    split; [done|]. by apply elem_step_refl. }
  rewrite bool_decide_false by done. cbn [negb when]. rewrite put_argv_Done, bind_lift by (cbn; lia). set (cl' := set_cl_argv _ _).
  pose proof HH as [A1 (ok & Hok & Hp) A3 A4 A5 A6 A7].
  destruct (THash.field_cases ps k) as [Hx|(p1 & u & p2 & -> & Hx)].
  { exfalso. apply THash.hmap_absent in Hx. rewrite Hm, lookup_insert_ne in Hx by done. congruence. }
  destruct (THash.hmap_middle _ _ _ _ A7) as (Hmm & Hx2 & HN2).
  assert (Hm2 : THash.hmap (p1 ++ p2) = <[nk := nv]> (delete k m)).
  { rewrite <- (delete_insert_id (THash.hmap (p1 ++ p2)) k u) by (by apply THash.hmap_absent). rewrite <- Hmm, Hm. by rewrite delete_insert_ne. }
  destruct (THash.hdel_zl ho oh Ht He cl' key s p1 k u p2 e) as (s1 & r & E1 & R1); try done.
  - exists ka, ok. split; [cbn; by rewrite list_lookup_insert_ne|done].
  - cbn. apply list_lookup_insert_eq. lia.
  - by apply elem_raw.
  - change (cl_db cl') with (cl_db cl). by rewrite Hdb.
  - change (cl_db cl') with (cl_db cl). by rewrite Hdb.
  - intros E. rewrite E in Hm2. apply (f_equal (lookup nk)) in Hm2. by rewrite lookup_insert_eq in Hm2.
  - rewrite (prog_bind_step _ _ _ _ _ E1). destruct (hash_st_rewrote s s1 _ _ HH R1 HN2) as [HH1 HS1]. exists s1, (p1 ++ p2).
    split; [done|]. split; [done|]. split; [done|]. split; [|done]. intros b Hb. by rewrite (rw_heap _ _ _ _ R1), lookup_insert_ne.
Qed.

Lemma update_hash_elem_ok s ps k w e nk nv : hash_st s ps -> elem ka s e k -> THash.hmap ps !! k = Some w -> NUL ∉ k ->
  htext cf nk -> htext cf nv -> Z.of_nat (length ps) < hash_max_ziplist_entries cf ->
  exists n s' ps', kvolve_update_hash_elem c nk nv e s = Done (n, s') /\ hash_st s' ps' /\ elem ka s' n nk /\
    THash.hmap ps' = <[nk := nv]> (delete k (THash.hmap ps)) /\ elem_step ho e s s' /\ heap s !! n = None.
Proof.
  intros HH Hel Hkw Hnk Hn Hv Hlen. unfold kvolve_update_hash_elem.
  destruct (hash_add_new_ok s ps e k nk nv HH Hel Hn Hv Hlen) as (cl & n & s1 & ps1 & E1 & Hcl & HH1 & Hel1 & Hele & Hm1 & HS1 & Hf).
  rewrite (prog_bind_step _ _ _ _ _ E1). cbn [fst snd].
  destruct (hash_delete_old_ok s1 cl ps1 k e n _ w nk nv HH1 Hcl Hele Hel1 Hnk (proj1 Hn) Hm1 Hkw) as (s2 & ps2 & E2 & HH2 & Hm2 & Hup & HS2).
  rewrite (prog_bind_step _ _ _ _ _ E2). exists n, s2, ps2. split; [done|]. split; [done|].
  destruct (hash_elem_ne _ _ _ _ HH1 Hel1) as [Hnho _]. destruct Hel1 as [Hnk1 (u & Hu)].
  split; [split; [done|exists u; by rewrite Hup]|]. split; [done|]. split; [|done]. eapply elem_step_trans; [done|done|by left].
Qed.

End Hashes.


Section Hashes2.
#[local] Set Default Proof Using "Type*".
Context (mu : upd_fun) (trh : fptr -> sds -> sds -> option sds * option sds) {Hmu : PureHashUpdates mu trh}.
Context (c : client) (v : version_hash) (key : sds) (ho ka : addr) (oh : robj) (cf : server_conf).
Context (Hka : cl_argv c !! 1%nat = Some (Some ka)) (Ht : o_type oh = REDIS_HASH) (He : o_encoding oh = ENC_ZIPLIST).
Context (Hw : wf_vh v).
Local Abbreviation hash_st := (hash_st c key ho ka oh cf).
Local Abbreviation elem := (elem ka).
Local Abbreviation elem_step := (elem_step ho).

(** The hash is the pair [p] and the map [rest]; [e] is the object of the field. *)
Definition hash_at (s : server) (e : addr) (p : sds * sds) (rest : gmap sds sds) : Prop :=
  exists ps, hash_st s ps /\ THash.hmap ps = <[p.1 := p.2]> rest /\ rest !! p.1 = None /\ elem s e p.1 /\ NUL ∉ p.1.

(** The writes of a log do not touch the other fields. *)
Definition hlog_ok (rest : gmap sds sds) (log : list (sds * (sds * sds))) : Prop :=
  Forall (fun q => rest !! q.2.1 = None /\ htext cf q.2.1 /\ htext cf q.2.2) log.

Definition hshort (rest : gmap sds sds) : Prop := Z.of_nat (S (base.size rest)) < hash_max_ziplist_entries cf.

Definition hdone (s : server) (e : addr) (p : sds * sds) (rest : gmap sds sds) (s' : server) (e' : addr) : Prop :=
  hash_at s' e' p rest /\ elem_step e s s' /\ (e' = e \/ heap s !! e' = None).

Lemma hdone_refl s e p rest : hash_at s e p rest -> hdone s e p rest s e.
Proof. intros H. split; [done|]. split; [by apply elem_step_refl|by left]. Qed.

Lemma hdone_trans s e p1 p2 rest s1 e1 s2 e2 : hdone s e p1 rest s1 e1 -> hdone s1 e1 p2 rest s2 e2 -> hdone s e p2 rest s2 e2.
Proof.
  intros (A1 & A2 & A3) (B1 & B2 & B3). split; [done|]. split; [by eapply elem_step_trans|].
  destruct B3 as [->|B3]; [done|]. right. destruct (heap s !! e2) eqn:E; [|done].
  destruct (es_some _ _ _ _ A2 e2 ltac:(eauto)) as [? ?]. congruence.
Qed.

(** The value object that the functions are given stays as it is. *)
Lemma value_kept s e p rest s' xa x : hash_at s e p rest -> elem s xa x -> xa <> e -> elem_step e s s' -> elem s' xa x.
Proof.
  intros (ps & HH & _) Hx Hne HS. destruct (hash_elem_ne c key ho ka oh cf Hka Ht He _ _ _ _ HH Hx) as [H1 H2].
  destruct Hx as [Hk (vr & Hv)]. split; [done|]. exists vr. by apply HS.
Qed.

Lemma at_length s ps p rest : hash_st s ps -> THash.hmap ps = <[p.1 := p.2]> rest -> rest !! p.1 = None -> length ps = S (base.size rest).
Proof.
  intros HH Hm Hr. rewrite <- (THash.hmap_size ps (ht_nodup _ _ _ _ _ _ _ _ HH)), Hm. by rewrite map_size_insert_None.
Qed.

Lemma run_fun_hash ck f s e p rest xa x : hash_at s e p rest -> elem s xa x -> xa <> e -> hshort rest ->
  hlog_ok rest (match trh f p.1 x with (None, None) => [] | _ => [(p.1, hstep trh x p f)] end) ->
  exists e' s', run_fun mu c v ck (KHash xa) f e s = Done (e', s') /\ hdone s e (hstep trh x p f) rest s' e'.
Proof.
  intros Hat Hx Hne Hsh Hlog. pose proof Hat as (ps & HH & Hm & Hr & Hel & Hnul). unfold run_fun.
  pose proof (ht_key _ _ _ _ _ _ _ _ HH) as (ok & Hok & Hokp).
  rewrite (bind_arg_str c 1 key) by (by exists ka, ok). pose proof Hel as [_ (vr & Hoe)]. pose proof Hx as [_ (vx & Hox)].
  rewrite (bind_deref _ _ _ _ Hoe), bind_assoc, (bind_deref _ _ _ _ Hox), bind_mret. cbn [elem_obj o_ptr o_encoding].
  rewrite (prog_bind_step _ _ _ _ _ (pure_muh _ _ _ _ _ _)). cbn [mu_key apply_key]. rewrite bind_mret.
  assert (Happ : forall r, (match fst (trh f p.1 x), snd (trh f p.1 x) with None, None => False | _, _ => True end) ->
    mu_val r = fst (trh f p.1 x) -> mu_hashval r = snd (trh f p.1 x) ->
    apply_val c (KHash xa) e r s = kvolve_update_hash_elem c (default p.1 (fst (trh f p.1 x))) (default x (snd (trh f p.1 x))) e s).
  { intros r Hsome H1 H2. unfold apply_val, or_ptr. rewrite H1, H2. destruct (trh f p.1 x) as [[nk|] [nv|]]; cbn in *; try done; run;
      rewrite ?(bind_deref _ _ _ _ Hoe), ?(bind_deref _ _ _ _ Hox); cbn [sds_of elem_obj o_ptr]; rewrite ?bind_lift; run;
      rewrite ?(bind_deref _ _ _ _ Hox); done. }
  unfold hstep in *. destruct (trh f p.1 x) as [nk nv] eqn:Etr. cbn [fst snd] in *.
  destruct (decide (nk = None /\ nv = None)) as [[-> ->]|Hsome].
  { exists e, s. split; [done|]. by apply hdone_refl. }
  rewrite Happ; [|by destruct nk, nv; naive_solver|done|done].
  replace (match nk, nv with None, None => p | _, _ => (default p.1 nk, default x nv) end) with (default p.1 nk, default x nv) in *
    by (destruct nk, nv; naive_solver).
  assert (Hl : hlog_ok rest [(p.1, (default p.1 nk, default x nv))]) by (destruct nk, nv; naive_solver). apply Forall_singleton in Hl as (Hl1 & Hl2 & Hl3).
  cbn [fst snd] in *. destruct (update_hash_elem_ok c key ho ka oh cf Hka Ht He s ps p.1 p.2 e (default p.1 nk) (default x nv))
    as (n & s1 & ps1 & E1 & HH1 & Hel1 & Hm1 & HS1 & Hf); try done.
  { by rewrite Hm, lookup_insert_eq. } { rewrite (at_length s ps p rest HH Hm Hr). done. }
  exists n, s1. split; [done|]. split; [|split; [done|by right]]. exists ps1. cbn [fst snd]. split; [done|].
  split; [rewrite Hm1, Hm; by rewrite delete_insert_id|]. split; [done|]. split; [done|apply Hl2].
Qed.

Lemma value_next s e p p' rest s1 e1 xa x : hash_at s e p rest -> elem s xa x -> xa <> e -> hdone s e p' rest s1 e1 ->
  elem s1 xa x /\ xa <> e1.
Proof.
  intros Hat Hx Hne Hd. pose proof Hd as (_ & HS & Hor). split; [by eapply value_kept|].
  intros ->. destruct Hor as [->|Hn]; [done|]. destruct Hx as [_ (vr & Hv)]. congruence.
Qed.

Lemma run_funs_hash ck x fs : forall s e p rest xa, hash_at s e p rest -> elem s xa x -> xa <> e -> hshort rest ->
  hlog_ok rest (hfuns_log trh x fs p) ->
  exists e' s', run_funs mu c v ck (KHash xa) fs e s = Done (e', s') /\ hdone s e (foldl (hstep trh x) p fs) rest s' e'.
Proof.
  induction fs as [|f fs IH]; intros s e p rest xa Hat Hx Hne Hsh Hlog; cbn [run_funs foldl].
  - exists e, s. split; [done|]. by apply hdone_refl.
  - cbn [hfuns_log] in Hlog. assert (Hl : hlog_ok rest (match trh f p.1 x with (None, None) => [] | _ => [(p.1, hstep trh x p f)] end) /\
      hlog_ok rest (hfuns_log trh x fs (hstep trh x p f))).
    { unfold hstep in *. destruct (trh f p.1 x) as [[nk|] [nv|]]; try (apply Forall_cons in Hlog as [? ?]; split; [by apply Forall_singleton|done]).
      split; [apply Forall_nil|done]. done. }
    destruct Hl as [Hl1 Hl2]. destruct (run_fun_hash ck f s e p rest xa x Hat Hx Hne Hsh Hl1) as (e1 & s1 & E1 & HD1).
    rewrite (prog_bind_step _ _ _ _ _ E1). destruct (value_next _ _ _ _ _ _ _ _ _ Hat Hx Hne HD1) as [Hx1 Hne1].
    destruct (IH s1 e1 _ rest xa (proj1 HD1) Hx1 Hne1 Hsh Hl2) as (e2 & s2 & E2 & HD2).
    exists e2, s2. split; [done|]. by eapply hdone_trans.
Qed.

(** Writing the version of a field object. *)
Lemma hash_at_stamp s e p rest w : hash_at s e p rest ->
  exists s', upd_obj e (set_o_vers w) s = Done (tt, s') /\ hash_at s' e p rest /\ elem_step e s s' /\ heap s' !! e = Some (elem_obj w p.1).
Proof.
  intros (ps & HH & Hm & Hr & Hel & Hnul). destruct (hash_elem_ne c key ho ka oh cf Hka Ht He _ _ _ _ HH Hel) as [Heho Hesh].
  pose proof Hel as [Hek (vr & Hoe)]. rewrite (upd_obj_Done _ _ _ _ Hoe). eexists. split; [reflexivity|]. cbn [set_o_vers elem_obj].
  assert (Hok : forall w, str_obj_ok (elem_obj w p.1) p.1) by (intros w'; split; [done|]; split; [done|]; by left).
  pose proof HH as [A1 A2 A3 A4 A5 A6 A7]. split; [|split].
  - exists ps. split; [|split; [done|split; [done|split; [|done]]]].
    + eapply hash_st_db; [done|done|done|exact HH| | | |done|done|done]; cbn [heap set_heap]; [by rewrite lookup_insert_ne|by rewrite lookup_insert_ne|].
      eapply keeps_store; [|exact A3]. eapply (keeps_touch e _ (elem_obj w p.1) p.1); [exact Hoe|apply Hok|apply Hok|done|done].
    + split; [done|]. exists w. cbn. apply lookup_insert_eq.
  - split; try done.
    + intros b o _ _ Hb Ho. cbn. by rewrite lookup_insert_ne.
    + intros b Hb. cbn. destruct (decide (e = b)) as [<-|Hne]; [rewrite lookup_insert_eq; eauto|by rewrite lookup_insert_ne].
  - cbn. apply lookup_insert_eq.
Qed.

Lemma vers_step_hash ck j x s e p rest xa : 0 <= j < num_versions v -> hash_at s e p rest -> elem s xa x -> xa <> e -> hshort rest ->
  hlog_ok rest (hfuns_log trh x (hfuns v j) p) ->
  exists e' s', vers_step mu c v ck (KHash xa) j e s = Done (e', s') /\ hdone s e (hstep_val trh v x p j) rest s' e'.
Proof.
  intros Hj Hat Hx Hne Hsh Hlog. destruct Hw as [Hv Hi Hn]. unfold vers_step.
  destruct (lookup_lt_is_Some_2 (info v) (Z.to_nat j)) as [inf Hinf]; [lia|]. rewrite (arr_get_ok _ _ _ (proj1 Hj) Hinf), bind_lift.
  assert (exists e1 s1, (match inf with None => mret e | Some inf => run_funs mu c v ck (KHash xa) (take (Z.to_nat (num_funs inf)) (funs inf)) e end) s
    = Done (e1, s1) /\ hdone s e (hstep_val trh v x p j) rest s1 e1) as (e1 & s1 & E1 & HD1).
  { unfold hstep_val, hfuns in *. rewrite Hinf in *. destruct inf as [inf|]; [by apply run_funs_hash|]. exists e, s. split; [done|]. by apply hdone_refl. }
  rewrite (prog_bind_step _ _ _ _ _ E1). destruct (arr_get_lt (versions v) j) as [vj Hvj]; [lia|]. rewrite Hvj, bind_lift.
  destruct (hash_at_stamp s1 e1 _ rest vj (proj1 HD1)) as (s2 & E2 & Hat2 & HS2 & _).
  rewrite (prog_bind_step _ _ _ _ _ E2). exists e1, s2. split; [done|]. eapply hdone_trans; [exact HD1|]. split; [done|]. split; [done|by left].
Qed.

Lemma vers_loop_hash ck x js : forall s e p rest xa, Forall (fun j => 0 <= j < num_versions v) js -> hash_at s e p rest -> elem s xa x ->
  xa <> e -> hshort rest -> hlog_ok rest (hsteps_log trh v x js p) ->
  exists e' s', vers_loop mu c v ck (KHash xa) js e s = Done (e', s') /\ hdone s e (foldl (hstep_val trh v x) p js) rest s' e'.
Proof.
  induction js as [|j js IH]; intros s e p rest xa Hjs Hat Hx Hne Hsh Hlog; cbn [vers_loop foldl].
  - exists e, s. split; [done|]. by apply hdone_refl.
  - apply Forall_cons in Hjs as [Hj Hjs]. cbn [hsteps_log] in Hlog. apply Forall_app in Hlog as [Hl1 Hl2].
    destruct (vers_step_hash ck j x s e p rest xa Hj Hat Hx Hne Hsh Hl1) as (e1 & s1 & E1 & HD1). rewrite (prog_bind_step _ _ _ _ _ E1).
    destruct (value_next _ _ _ _ _ _ _ _ _ Hat Hx Hne HD1) as [Hx1 Hne1].
    destruct (IH s1 e1 _ rest xa Hjs (proj1 HD1) Hx1 Hne1 Hsh Hl2) as (e2 & s2 & E2 & HD2).
    exists e2, s2. split; [done|]. by eapply hdone_trans.
Qed.

Lemma hash_at_kv s e p rest k : hash_at s e p rest -> hash_at (set_kv k s) e p rest.
Proof.
  intros (ps & [A1 A2 A3 A4 A5 A6 A7] & H). exists ps. split; [|done]. split; try done. by destruct A3.
Qed.

Lemma check_update_hash first s e p rest xa cur : cur_vers v = Done cur -> o_vers oh <> cur -> upd_fun_running (kv s) = 0 ->
  hash_at s e p rest -> elem s xa p.2 -> xa <> e -> hshort rest -> hlog_ok rest (hchange_log trh v (o_vers oh) p) ->
  exists e' s', (_ ← upd_obj e (set_o_vers (o_vers oh)); kvolve_check_update_kv_pair mu c (Some v) first (Some e) (KHash xa)) s = Done (tt, s') /\
    hash_at s' e' (hmigrate trh v (o_vers oh) p) rest /\ elem_step e s s'.
Proof.
  intros Hc Hne Hrun Hat Hx Hxe Hsh Hlog. destruct (hash_at_stamp s e p rest (o_vers oh) Hat) as (s1 & E1 & Hat1 & HS1 & Hoe1).
  pose proof (value_kept _ _ _ _ _ _ _ Hat Hx Hxe HS1) as Hx1.
  rewrite (prog_bind_step _ _ _ _ _ E1). unfold kvolve_check_update_kv_pair. rewrite bind_gets, (es_kv _ _ _ _ HS1), Hrun. cbn [Z.eqb].
  rewrite bind_mret, (bind_deref _ _ _ _ Hoe1). cbn [is_small_int elem_obj o_ptr o_vers]. rewrite Hc, bind_lift.
  rewrite (proj2 (Z.eqb_neq _ _)) by done. unfold do_update, upd_kv. rewrite bind_modify. set (s2 := set_kv _ s1).
  pose proof (hash_at_kv s1 e p rest (set_upd_fun_running 1 (kv s1)) Hat1 : hash_at s2 e p rest) as Hat2.
  destruct (ns_changed_Done v Hw _ _ Hc Hne) as [b Hb].
  assert (E2 : exists r, (if first then lift (ns_changed v (find_vers v (o_vers oh))) else mret false) s2 = Done (r, s2))
    by (destruct first; [rewrite Hb; by exists b|by exists false]).
  destruct E2 as [r E2]. rewrite (prog_bind_step _ _ _ _ _ E2). pose proof Hat2 as (ps2 & HH2 & _).
  pose proof (ht_key _ _ _ _ _ _ _ _ HH2) as (ok & Hok & Hokp).
  assert (E3 : when r (kvolve_namespace_update c v) s2 = Done (tt, s2)).
  { destruct r; [|done]. cbn [when]. eapply namespace_update_present; [by exists ka, ok|apply HH2]. }
  rewrite (prog_bind_step _ _ _ _ _ E3). destruct (pending_last v (o_vers oh) cur Hw Hc Hne) as (js & _ & Hr).
  destruct (vers_loop_hash first p.2 (pending v (o_vers oh)) s2 e p rest xa Hr Hat2 Hx1 Hxe Hsh Hlog) as (e3 & s3 & E4 & (Hat3 & HS3 & _)).
  fold (pending v (o_vers oh)). rewrite (prog_bind_step _ _ _ _ _ E4). eexists e3, _. split; [reflexivity|].
  split; [by apply hash_at_kv|]. destruct HS1 as [B1 B2 B3 B4], HS3 as [D1 D2 D3 D4]. split; cbn [heap set_kv dbs kv].
  - intros a o Ha1 Ha2 Ha3 Ha. apply D1; try done. by apply B1.
  - intros a Ha. by apply D2, B2.
  - by rewrite D3.
  - rewrite D4. cbn. rewrite B4. destruct (kv s); cbn in *. by subst.
Qed.

(** What the writes for all the fields must satisfy: they stay clear of the
    other fields, old and new. *)
Definition hlogs_ok (ps : list (sds * sds)) : Prop := forall p, p ∈ ps ->
  NUL ∉ p.1 /\ forall k nk nv, (k, (nk, nv)) ∈ hchange_log trh v (o_vers oh) p -> htext cf nk /\ htext cf nv /\
    forall q, q ∈ ps -> q <> p -> nk <> q.1 /\ nk <> (hmigrate trh v (o_vers oh) q).1.
Local Abbreviation hmig := (hmigrate trh v (o_vers oh)).

(** The field at the end is the old one or the last that was written. *)
Lemma hfuns_field x fs : forall p, (foldl (hstep trh x) p fs).1 = p.1 \/
  exists k nv, (k, ((foldl (hstep trh x) p fs).1, nv)) ∈ hfuns_log trh x fs p.
Proof.
  induction fs as [|f fs IH]; intros p; cbn [foldl hfuns_log]; [by left|].
  assert (Hcase : trh f p.1 x = (None, None) \/ hfuns_log trh x (f :: fs) p = (p.1, hstep trh x p f) :: hfuns_log trh x fs (hstep trh x p f)).
  { cbn. destruct (trh f p.1 x) as [[nk|] [nv|]]; auto. }
  cbn [hfuns_log] in Hcase. destruct Hcase as [E|E].
  - assert (hstep trh x p f = p) as -> by (unfold hstep; by rewrite E). rewrite E. apply IH.
  - rewrite E. right. destruct (IH (hstep trh x p f)) as [H|(k & nv & H)].
    + exists p.1, (hstep trh x p f).2. rewrite H, <- surjective_pairing. left.
    + exists k, nv. by right.
Qed.

Lemma hsteps_field x js : forall p, (foldl (hstep_val trh v x) p js).1 = p.1 \/
  exists k nv, (k, ((foldl (hstep_val trh v x) p js).1, nv)) ∈ hsteps_log trh v x js p.
Proof.
  induction js as [|j js IH]; intros p; cbn [foldl hsteps_log]; [by left|].
  destruct (IH (hstep_val trh v x p j)) as [H|(k & nv & H)].
  - destruct (hfuns_field x (hfuns v j) p) as [H'|(k & nv & H')]; fold (hstep_val trh v x p j) in H'.
    + left. congruence.
    + right. exists k, nv. rewrite H. apply elem_of_app. by left.
  - right. exists k, nv. apply elem_of_app. by right.
Qed.

Lemma hmigrate_field p : (hmig p).1 = p.1 \/ exists k nv, (k, ((hmig p).1, nv)) ∈ hchange_log trh v (o_vers oh) p.
Proof. apply hsteps_field. Qed.

Lemma field_apart ps p q : hlogs_ok ps -> p ∈ ps -> q ∈ ps -> p <> q -> p.1 <> q.1 -> (hmig p).1 <> q.1 /\ (hmig p).1 <> (hmig q).1.
Proof.
  intros Hl Hp Hq Hne Hf. destruct (Hl p Hp) as [_ Hlp], (Hl q Hq) as [_ Hlq].
  destruct (hmigrate_field p) as [Ep|(k & nv & Ep)].
  - rewrite Ep. split; [done|]. destruct (hmigrate_field q) as [Eq|(k & nv & Eq)]; [by rewrite Eq|].
    destruct (Hlq _ _ _ Eq) as (_ & _ & H). destruct (H p Hp Hne) as [H1 _]. congruence.
  - destruct (Hlp _ _ _ Ep) as (_ & _ & H). by destruct (H q Hq ltac:(congruence)).
Qed.

Lemma NoDup_fst_inj (ps : list (sds * sds)) p q : NoDup (map fst ps) -> p ∈ ps -> q ∈ ps -> p.1 = q.1 -> p = q.
Proof.
  intros HN Hp Hq E. destruct p as [k x], q as [k' y]. cbn in E. subst k'. f_equal.
  assert (H1 : THash.hmap ps !! k = Some x) by (by apply elem_of_list_to_map_1).
  assert (H2 : THash.hmap ps !! k = Some y) by (by apply elem_of_list_to_map_1). congruence.
Qed.

(** The fields of the hash when [done] are migrated and [todo] are not. *)
Lemma mixed_nodup ps don todo : hlogs_ok ps -> NoDup (map fst ps) -> ps = don ++ todo -> NoDup (map fst (map hmig don ++ todo)).
Proof.
  intros Hl HN Hps. assert (Hin : forall p, p ∈ don \/ p ∈ todo -> p ∈ ps) by (intros p; rewrite Hps, elem_of_app; done).
  assert (HNp : NoDup ps) by (by eapply (NoDup_fmap_1 fst)).
  rewrite map_app, map_map. pose proof HNp as HNs. rewrite Hps in HNs. apply NoDup_app in HNs as (Hd & Hdt & _). apply NoDup_app. split; [|split].
  - apply NoDup_fmap_2_strong; [|done]. intros p q Hp Hq E. destruct (decide (p = q)) as [->|Hne]; [done|]. exfalso.
    destruct (field_apart ps p q Hl (Hin p (or_introl Hp)) (Hin q (or_introl Hq)) Hne) as [_ H]; [|done].
    intros E1. apply Hne. by eapply (NoDup_fst_inj ps); auto.
  - intros f Hf Hf'. apply list_elem_of_fmap in Hf as (p & -> & Hp). apply list_elem_of_fmap in Hf' as (q & E & Hq).
    assert (Hne : p <> q) by (intros ->; by apply (Hdt q)).
    destruct (field_apart ps p q Hl (Hin p (or_introl Hp)) (Hin q (or_intror Hq)) Hne) as [H _]; [|done].
    intros E1. apply Hne. by eapply (NoDup_fst_inj ps); auto.
  - rewrite Hps, map_app in HN. by apply NoDup_app in HN as (_ & _ & ?).
Qed.

(** The next field to migrate, and the rest of the hash. *)
Lemma hash_split ps don p todo : hlogs_ok ps -> NoDup (map fst ps) -> ps = don ++ p :: todo ->
  let rest := THash.hmap (map hmig don ++ todo) in
  THash.hmap (map hmig don ++ p :: todo) = <[p.1 := p.2]> rest /\ rest !! p.1 = None /\
  hlog_ok rest (hchange_log trh v (o_vers oh) p) /\ base.size rest = (length ps - 1)%nat.
Proof.
  intros Hl HN Hps rest. pose proof (mixed_nodup ps don (p :: todo) Hl HN Hps) as HNm. destruct p as [k x].
  destruct (THash.hmap_middle _ _ _ _ HNm) as (Hm & Hk & HN2). split; [done|]. split; [by apply THash.hmap_absent|]. split.
  - assert (Hp : (k, x) ∈ ps) by (rewrite Hps; apply elem_of_app; right; left). destruct (Hl _ Hp) as [_ Hlp].
    apply Forall_forall. intros [k0 [nk nv]] Hq. destruct (Hlp _ _ _ Hq) as (H1 & H2 & H3). split; [|done]. cbn [fst snd].
    apply THash.hmap_absent. rewrite map_app, elem_of_app. assert (HNp : NoDup ps) by (by eapply (NoDup_fmap_1 fst)).
    rewrite Hps in HNp. apply NoDup_app in HNp as (_ & Hd & Ht'). apply NoDup_cons in Ht' as [Ht1 _].
    intros [Hin|Hin]; apply list_elem_of_fmap in Hin as (q & E & Hq').
    + apply list_elem_of_fmap in Hq' as (q' & -> & Hq'). destruct (H3 q') as [_ H]; [rewrite Hps; apply elem_of_app; by left| |done].
      intros ->. apply (Hd _ Hq'). left.
    + destruct (H3 q) as [H _]; [rewrite Hps; apply elem_of_app; right; by right|by intros ->|done].
  - unfold rest. rewrite THash.hmap_size by done. rewrite Hps, !length_app, length_map. cbn. lia.
Qed.

(** An object that was gathered and is in neither the hash nor the shared
    integers is freed. *)
Lemma hash_st_zfree s0 s ps0 ps e x : hash_st s0 ps0 -> elem s0 e x -> is_Some (heap s !! e) -> hash_st s ps ->
  exists s', zfree e s = Done (tt, s') /\ hash_st s' ps /\ dbs s' = dbs s /\ kv s' = kv s /\
    (forall b, b <> e -> heap s' !! b = heap s !! b).
Proof.
  intros HH0 Hel [oe Ho] HH. destruct (hash_elem_ne c key ho ka oh cf Hka Ht He _ _ _ _ HH0 Hel) as [Heho _]. destruct Hel as [Hek (vr & Hoe)].
  rewrite (zfree_Done _ _ _ Ho). eexists. split; [reflexivity|].
  assert (Hup : forall b, b <> e -> delete e (heap s) !! b = heap s !! b) by (intros b Hb; by rewrite lookup_delete_ne).
  split; [|done]. pose proof HH as [A1 A2 A3 A4 A5 A6 A7].
  eapply hash_st_db; [done|done|done|exact HH| | | |done|done|done]; cbn [heap set_heap]; [by rewrite Hup|by rewrite Hup by congruence|].
  destruct A3 as [F I]. split.
  - intros b Hb. cbn. destruct (decide (b = e)) as [->|Hne]; [apply lookup_delete_eq|]. rewrite Hup by done. by apply F.
  - intros w Hwr. cbn. rewrite Hup; [by apply I|]. intros E.
    destruct (st_ints _ (ht_store _ _ _ _ _ _ _ _ HH0) w Hwr) as (rc & vr' & _ & H). rewrite E, Hoe in H. done.
Qed.

(** A gathered field: the two objects and the pair. *)
Definition gathered (s : server) (g : (addr * addr) * (sds * sds)) : Prop := elem s g.1.1 g.2.1 /\ elem s g.1.2 g.2.2.
Definition objs (gs : list ((addr * addr) * (sds * sds))) : list addr := THash.unpair (map fst gs).

Lemma update_hash_elems_ok ps cur : hlogs_ok ps -> NoDup (map fst ps) -> Z.of_nat (length ps) < hash_max_ziplist_entries cf ->
  cur_vers v = Done cur -> o_vers oh <> cur -> forall gs don first s hs,
  ps = don ++ map snd gs -> hash_st s hs -> THash.hmap hs = THash.hmap (map hmig don ++ map snd gs) ->
  Forall (gathered s) gs -> NoDup (objs gs) -> upd_fun_running (kv s) = 0 ->
  exists s' hs', update_hash_elems mu c v ho first (map fst gs) s = Done (tt, s') /\ hash_st s' hs' /\
    THash.hmap hs' = THash.hmap (map hmig ps) /\ dbs s' = dbs s /\ kv s' = kv s.
Proof.
  intros Hl HN Hlen Hc Hne. induction gs as [|[[f x] p] gs IH]; intros don first s hs Hps HH Hm Hgs HNo Hrun; cbn [map update_hash_elems fst snd] in *.
  - exists s, hs. rewrite app_nil_r in *. subst don. done.
  - apply Forall_cons in Hgs as [[Hf Hx] Hgs]. cbn [fst snd] in Hf, Hx. unfold objs in HNo. cbn in HNo. apply NoDup_cons in HNo as [Hf1 HNo].
    apply NoDup_cons in HNo as [Hx1 HNo]. apply not_elem_of_cons in Hf1 as [Hfx Hf1].
    rewrite (bind_deref _ _ _ _ (ht_obj _ _ _ _ _ _ _ _ HH)). change (o_vers (THash.zh oh hs)) with (o_vers oh).
    destruct (hash_split ps don p (map snd gs) Hl HN Hps) as (Hm1 & Hr1 & Hlog & Hsz). set (rest := THash.hmap (map hmig don ++ map snd gs)) in *.
    assert (Hat : hash_at s f p rest).
    { exists hs. split; [done|]. split; [by rewrite Hm|]. split; [done|]. split; [done|]. apply (Hl p). rewrite Hps. apply elem_of_app. right. left. }
    assert (Hsh : hshort rest). { unfold hshort. rewrite Hsz, Hps, length_app in *. cbn in *. lia. }
    destruct (check_update_hash first s f p rest x cur Hc Hne Hrun Hat Hx ltac:(congruence) Hsh Hlog) as (f' & s1 & E1 & (hs1 & HH1 & Hm1' & Hr1' & _) & HS1).
    rewrite <- bind_assoc, (prog_bind_step _ _ _ _ _ E1). pose proof Hf as [_ (vf & Hvf)]. pose proof Hx as [_ (vx & Hvx)].
    destruct (hash_st_zfree s s1 hs hs1 f p.1 HH Hf (es_some _ _ _ _ HS1 f ltac:(eauto)) HH1) as (s2 & E2 & HH2 & D2 & K2 & Hup2).
    rewrite (prog_bind_step _ _ _ _ _ E2).
    destruct (hash_st_zfree s s2 hs hs1 x p.2 HH Hx) as (s3 & E3 & HH3 & D3 & K3 & Hup3);
      [rewrite Hup2 by congruence; apply (es_some _ _ _ _ HS1 x); eauto|done|]. rewrite (prog_bind_step _ _ _ _ _ E3).
    destruct (IH (don ++ [p]) false s3 hs1) as (s4 & hs4 & E4 & HH4 & Hm4 & D4 & K4); try done.
    + by rewrite <- app_assoc.
    + rewrite Hm1'. unfold rest. pose proof (mixed_nodup ps (don ++ [p]) (map snd gs) Hl HN ltac:(by rewrite <- app_assoc)) as HN3.
      rewrite (map_app hmig), <- app_assoc. rewrite (map_app hmig), <- app_assoc in HN3. cbn [map app] in *. destruct (hmig p) as [k' x'] eqn:Eh. by destruct (THash.hmap_middle _ _ _ _ HN3) as (-> & _).
    + apply Forall_forall. intros g Hg. assert (Hgo : g.1.1 ∈ objs gs /\ g.1.2 ∈ objs gs).
      { clear -Hg. unfold objs. induction gs as [|[[a b] q] gs IH]; [by apply not_elem_of_nil in Hg|]. cbn. rewrite !elem_of_cons.
        apply elem_of_cons in Hg as [->|Hg]; [cbn; auto|]. destruct (IH Hg). auto. }
      assert (Hk : forall b y, b ∈ objs gs -> elem s b y -> elem s3 b y).
      { intros b y Hb Hby. destruct (hash_elem_ne c key ho ka oh cf Hka Ht He _ _ _ _ HH Hby) as [B1 B2]. destruct Hby as [B3 (w & B4)].
        split; [done|]. exists w. unfold objs in Hb. rewrite Hup3, Hup2 by (intros ->; done). apply HS1; try done. by intros ->. }
      destruct (proj1 (Forall_forall _ _) Hgs g Hg) as [G1 G2]. split; apply Hk; tauto.
    + by rewrite K3, K2, (es_kv _ _ _ _ HS1).
    + exists s4, hs4. split; [done|]. split; [done|]. split; [done|]. rewrite D4, D3, D2, K4, K3, K2. by destruct HS1.
Qed.

(** The two objects of a field, read from the ziplist. *)
Lemma current_text hs s hi what i x : hash_st s hs -> THash.hi_subject hi = ho -> THash.hi_encoding hi = ENC_ZIPLIST ->
  THash.hi_fptr hi = Some i -> THash.unpair hs !! (if Z.testbit what 0 then i else S i) = Some x -> Util.string2ll x = None ->
  THash.hashTypeCurrentObject hi what s =
    Done (next_addr s, set_next_addr (Pos.succ (next_addr s)) (set_heap (<[next_addr s := elem_obj 0 x]> (heap s)) s)).
Proof.
  intros HH Hs Hen Hi Hx Hint. unfold THash.hashTypeCurrentObject, THash.hashTypeCurrentFromZiplist.
  rewrite Hen, Hs, bool_decide_true by done. cbn [require_b]. rewrite bind_assoc, bind_lift, bind_assoc, (bind_deref _ _ _ _ (ht_obj _ _ _ _ _ _ _ _ HH)).
  unfold zl_of. cbn [THash.zh set_o_ptr o_ptr]. rewrite bind_assoc, bind_lift, Hi. cbn [expect]. rewrite bind_assoc, bind_lift, Hx. cbn [expect].
  rewrite bind_lift. unfold zl_object. by rewrite Hint.
Qed.

Lemma gather_hash_ok hs : forall todo don fuel hi s, hs = don ++ todo -> (length todo < fuel)%nat -> hash_st s hs ->
  THash.hi_subject hi = ho -> THash.hi_encoding hi = ENC_ZIPLIST ->
  match THash.hi_fptr hi with None => 0%nat | Some i => S (S i) end = length (THash.unpair don) ->
  (forall p, p ∈ todo -> Util.string2ll p.1 = None /\ Util.string2ll p.2 = None) ->
  exists gs s', gather_hash fuel hi s = Done (map fst gs, s') /\ map snd gs = todo /\ Forall (gathered s') gs /\ NoDup (objs gs) /\
    Forall (fun e => next_addr s <= e)%positive (objs gs) /\ hash_st s' hs /\ dbs s' = dbs s /\ kv s' = kv s /\
    (forall b o, heap s !! b = Some o -> heap s' !! b = Some o).
Proof.
  induction todo as [|[k x] todo IH]; intros don fuel hi s Hhs Hf HH Hsu Hen Hi Hint; (destruct fuel as [|fuel]; [cbn in Hf; lia|]);
    cbn [gather_hash]; unfold THash.hashTypeNext at 1; rewrite Hen, Hsu, !bind_assoc, (bind_deref _ _ _ _ (ht_obj _ _ _ _ _ _ _ _ HH));
    unfold zl_of; cbn [THash.zh set_o_ptr o_ptr]; rewrite bind_assoc, bind_lift, Hi.
  - rewrite app_nil_r in Hhs. subst don. rewrite (proj2 (Nat.ltb_ge _ _)), bind_mret by lia.
    exists [], s. unfold objs. cbn. repeat split; try constructor; try apply HH; done.
  - assert (Hlen : length (THash.unpair hs) = (length (THash.unpair don) + S (S (length (THash.unpair todo))))%nat)
      by (rewrite Hhs, THash.unpair_app, length_app; cbn; lia).
    rewrite !(proj2 (Nat.ltb_lt _ _)) by lia. cbn [require_b]. rewrite bind_assoc, bind_lift, bind_mret. set (hi' := THash.mkHi _ _ _ _ _).
    assert (Hk : THash.unpair hs !! length (THash.unpair don) = Some k) by (rewrite Hhs, THash.unpair_app; cbn; by apply list_lookup_middle).
    assert (Hv : THash.unpair hs !! S (length (THash.unpair don)) = Some x).
    { rewrite Hhs, THash.unpair_app. cbn. rewrite cons_middle, app_assoc. apply list_lookup_middle. rewrite length_app. cbn. lia. }
    destruct (Hint (k, x) ltac:(left)) as [Hik Hix]. cbn [fst snd] in Hik, Hix.
    rewrite (prog_bind_step _ _ _ _ _ (current_text hs s hi' THash.REDIS_HASH_KEY _ k HH eq_refl eq_refl eq_refl Hk Hik)).
    set (n := next_addr s). set (s1 := set_next_addr _ _). pose proof (hash_st_alloc c key ho ka oh cf Hka Ht He s hs (elem_obj 0 k) HH : hash_st s1 hs) as HH1.
    rewrite (prog_bind_step _ _ _ _ _ (current_text hs s1 hi' THash.REDIS_HASH_VALUE _ x HH1 eq_refl eq_refl eq_refl Hv Hix)).
    change (next_addr s1) with (Pos.succ n). set (m := Pos.succ n). set (s2 := set_next_addr _ (set_heap (<[m := _]> _) _)).
    pose proof (hash_st_alloc c key ho ka oh cf Hka Ht He s1 hs (elem_obj 0 x) HH1 : hash_st s2 hs) as HH2.
    destruct (IH (don ++ [(k, x)]) fuel hi' s2) as (gs & s3 & E3 & Hm & Hg & HN & Hge & HH3 & D3 & K3 & Hk3);
      [by rewrite <- app_assoc|cbn in Hf; lia|done|done|done|rewrite THash.unpair_app, length_app; cbn; lia|intros p Hp; apply Hint; by right|].
    rewrite (prog_bind_step _ _ _ _ _ E3). exists (((n, m), (k, x)) :: gs), s3. split; [done|]. split; [cbn; by rewrite Hm|].
    pose proof (st_fresh _ (ht_store _ _ _ _ _ _ _ _ HH)) as HF. pose proof (ht_key _ _ _ _ _ _ _ _ HH) as (ok & Hok & _).
    pose proof (heap_fresh_lt _ _ _ HF Hok) as Hkn.
    assert (Hn3 : heap s3 !! n = Some (elem_obj 0 k)) by (apply Hk3; subst s2 s1; cbn; rewrite lookup_insert_ne by lia; apply lookup_insert_eq).
    assert (Hm3 : heap s3 !! m = Some (elem_obj 0 x)) by (apply Hk3; subst s2; cbn; apply lookup_insert_eq).
    assert (Hge' : forall b, b ∈ objs gs -> (Pos.succ m <= b)%positive) by (intros b; apply (proj1 (Forall_forall _ _) Hge)).
    split; [|split; [|split; [|split; [done|split; [done|split; [done|]]]]]].
    + constructor; [|done]. split; (split; [subst n m; cbn; lia|eauto]).
    + unfold objs. cbn. apply NoDup_cons. split; [|apply NoDup_cons; split; [|done]].
      * rewrite elem_of_cons. intros [E|Hin]; [subst m; lia|]. apply Hge' in Hin. subst m. lia.
      * intros Hin. apply Hge' in Hin. lia.
    + unfold objs. cbn. constructor; [subst n; lia|]. constructor; [subst m n; lia|]. apply Forall_forall. intros b Hb.
      apply Hge' in Hb. subst m n. lia.
    + intros b o Hb. apply Hk3. pose proof (heap_fresh_lt _ _ _ HF Hb). subst s2 s1. cbn. by rewrite !lookup_insert_ne by (subst m n; lia).
Qed.

Lemma update_all_hash_ok `{Tab : Tables} cur s hs : hash_st s hs -> upd_fun_running (kv s) = 0 -> cur_vers v = Done cur -> o_vers oh <> cur ->
  hlogs_ok hs -> (forall p, p ∈ hs -> Util.string2ll p.1 = None /\ Util.string2ll p.2 = None) -> Z.of_nat (length hs) < hash_max_ziplist_entries cf ->
  exists s' hs', kvolve_update_all_hash mu c (Some v) s = Done (0, s') /\ heap s' !! ho = Some (set_o_vers cur (THash.zh oh hs')) /\
    NoDup (map fst hs') /\ THash.hmap hs' = THash.hmap (map hmig hs) /\ dbs s' = dbs s /\ kv s' = kv s.
Proof.
  intros HH Hrun Hc Hne Hl Hint Hlen. unfold kvolve_update_all_hash. pose proof (ht_obj _ _ _ _ _ _ _ _ HH) as A1.
  pose proof (ht_key _ _ _ _ _ _ _ _ HH) as (ok & Hok & Hokp).
  rewrite (prog_bind_step _ _ _ _ _ (get_db_val_present s c v key ho ltac:(by exists ka, ok) (ht_lookup _ _ _ _ _ _ _ _ HH))).
  rewrite (bind_deref _ _ _ _ A1), Hc, bind_lift. change (o_vers (THash.zh oh hs)) with (o_vers oh). rewrite (proj2 (Z.eqb_neq _ _)) by done.
  rewrite (THash.zh_length oh Ht He), bind_lift. unfold THash.hashTypeInitIterator. rewrite bind_assoc, (bind_deref _ _ _ _ A1).
  cbn [THash.zh set_o_ptr o_encoding]. rewrite He, bind_mret, bind_gets.
  destruct (gather_hash_ok hs hs [] (S (Z.to_nat (Z.of_nat (length hs)))) (THash.mkHi ho ENC_ZIPLIST None [] None) s eq_refl ltac:(lia) HH eq_refl eq_refl eq_refl Hint)
    as (gs & s1 & E1 & Hm & Hg & HN & _ & HH1 & D1 & K1 & _). rewrite (prog_bind_step _ _ _ _ _ E1).
  destruct (update_hash_elems_ok hs cur Hl (ht_nodup _ _ _ _ _ _ _ _ HH) Hlen Hc Hne gs [] true s1 hs) as (s2 & hs2 & E2 & HH2 & Hm2 & D2 & K2);
    rewrite ?Hm; try done; [by rewrite K1|].
  rewrite (prog_bind_step _ _ _ _ _ E2), (bind_upd_obj _ _ _ _ _ (ht_obj _ _ _ _ _ _ _ _ HH2)). unfold hashTypeReleaseIterator. cbn [THash.hi_encoding].
  rewrite bind_mret. eexists _, hs2. split; [reflexivity|]. cbn [heap set_heap dbs kv]. rewrite lookup_insert_eq. split; [done|].
  split; [apply HH2|]. split; [done|]. by rewrite D2, D1, K2, K1.
Qed.

End Hashes2.



(** The field "name" becomes "fullname", and every value gets a mark. *)
Definition demo_trh (f : fptr) (k x : sds) : option sds * option sds :=
  if f =? 40 then (if bool_decide (k = str "name") then Some (str "fullname") else None, Some (x ++ str "!")) else (None, None).
Definition demo_muh : upd_fun := fun f key p len =>
  match p with
  | VHash (PSds k) (PSds x) => mret (mkMu None (fst (demo_trh f k x)) len (snd (demo_trh f k x)) None)
  | _ => throw NullDeref
  end.
#[global] Instance demo_pureh : PureHashUpdates demo_muh demo_trh.
Proof. intros f key k x len s. reflexivity. Defined.

Definition demo_pairs : list (sds * sds) := [(str "name", str "ann"); (str "city", str "rome")].
Definition hash_obj (ps : list (sds * sds)) : robj := mkObj REDIS_HASH ENC_ZIPLIST 1 1 (PZiplist (THash.unpair ps)).
Definition hash_heap (ps : list (sds * sds)) : gmap addr robj :=
  <[10011%positive := str_obj "b:x" 0]> (<[10012%positive := hash_obj ps]> ∅).
Definition hash_server (ps : list (sds * sds)) : server := store_of (hash_heap ps) cont_base.

Lemma hash_server_state ps : NoDup (map fst ps) ->
  hash_st cont_client (str "b:x") 10012 10011 (hash_obj ps) conf0 (hash_server ps) ps.
Proof.
  intros HN. split; [| | | | | |done].
  - apply (store_of_lookup (hash_heap ps) cont_base). reflexivity.
  - exists (str_obj "b:x" 0). split; [apply (store_of_lookup (hash_heap ps) cont_base); reflexivity|reflexivity].
  - apply (store_of_ok (hash_heap ps) cont_base); [reflexivity|]. intros b o. unfold hash_heap. rewrite !lookup_insert_Some.
    intros [[<- _]|[_ [[<- _]|[_ Hb]]]]; [lia|lia|]. by rewrite lookup_empty in Hb.
  - exact I.
  - reflexivity.
  - reflexivity.
Qed.



(** ** Where the updates of lists and hashes break *)

(** The object [o] of version 1 under "b:x", the shared integers 1 and 5, and
    the objects of [h]. *)
Definition small_server (o : robj) (h : gmap addr robj) : server :=
  set_heap (<[2%positive := int_obj 1]> (<[6%positive := int_obj 5]> (<[10011%positive := str_obj "b:x" 0]>
    (<[10012%positive := o]> h)))) cont_base.
Definition zlist (L : list string) : robj := mkObj REDIS_LIST ENC_ZIPLIST 1 1 (PZiplist (map str L)).

(** What is left of the object at [a]. *)
Definition obj_after (r : outcome (Z * server)) (a : addr) : outcome (option optr) :=
  match r with Done (_, s) => Done (o_ptr <$> heap s !! a) | Fault e => Fault e end.

(** Update functions that replace "a" only, and everything. *)
Definition only_a (f : fptr) (key : sds) (p : upd_value) (len : Z) : M mu_result :=
  match p with
  | VPtr (PSds x) => mret (mkMu None (if bool_decide (x = str "a") then Some (str "new") else None) 3 None None)
  | _ => throw NullDeref
  end.
Definition replace_all (f : fptr) (key : sds) (p : upd_value) (len : Z) : M mu_result :=
  mret (mkMu None (Some (str "new")) 3 None None).
Definition two_strings : gmap addr robj := <[10020%positive := str_obj "a" 0]> (<[10021%positive := str_obj "b" 0]> ∅).
Definition linked : robj := mkObj REDIS_LIST ENC_LINKEDLIST 1 1 (PLinked [10020; 10021]%positive).

(** Where the hypotheses of the list update fail, so does the update.
    When the functions map "a" to "b" and "b" to "c", the list [a; b] becomes
    [c; b]: the new "b" is taken for the old one, and the order is lost.  The
    shared object of an element that is an integer below 10000 is freed.  An element from 10000 on is an integer object, which trips the
    assertion of listTypeEqual when it is replaced.  In a linked list, an
    element that the functions leave alone is freed while the list still holds
    it. *)
Example list_update_breaks :
  obj_after (kvolve_update_all_list shift_mu cont_client (Some demo_b) (small_server (zlist ["a"; "b"]%string) ∅)) 10012
    = Done (Some (PZiplist [str "c"; str "b"])) /\
  (let r := kvolve_update_all_list only_a cont_client (Some demo_b) (small_server (zlist ["a"; "5"]%string) ∅) in
   obj_after r 10012 = Done (Some (PZiplist [str "new"; str "5"])) /\ obj_after r (shared_integers 5) = Done None) /\
  obj_after (kvolve_update_all_list replace_all cont_client (Some demo_b) (small_server (zlist ["10000"]%string) ∅)) 10012
    = Fault AssertFail /\
  (let r := kvolve_update_all_list only_a cont_client (Some demo_b) (small_server linked two_strings) in
   obj_after r 10012 = Done (Some (PLinked [20000; 10021]%positive)) /\ obj_after r 10021 = Done None).
Proof. vm_compute. auto. Qed.

(** Two functions, the first appending "1" to every value and the second "2". *)
Definition marks (f : fptr) (key : sds) (p : upd_value) (len : Z) : M mu_result :=
  match p with
  | VHash _ (PSds x) => mret (mkMu None None len (Some (x ++ (if f =? 40 then str "1" else str "2"))) None)
  | _ => mret (mkMu None None len None None)
  end.
Definition two_funs_b : version_hash :=
  set_info (None :: Some (mkInfo (str "a") (str "b") 1 2 [40; 41] 2) :: replicate 18 None) (demo_vh "b" (Some "a") [1; 2]).
Definition dict_hash : robj := mkObj REDIS_HASH ENC_HT 1 1 (PHashDict [(10020, 10021)]%positive).

(** Where the hypotheses of the hash update fail, so does the update, and
    functions in sequence do not compose.  The second function is given the
    value from before the update, so "v" becomes "v2" and what the first
    function wrote is lost.  In a hash kept as a dict, a field whose value
    changes keeps its name, and the field object is freed while the dict still
    holds it.  The shared object of a value that is a small integer is freed. *)
Theorem hash_update_breaks :
  obj_after (kvolve_update_all_hash marks cont_client (Some two_funs_b)
    (small_server (hash_obj [(str "f", str "v")]) ∅)) 10012 = Done (Some (PZiplist [str "f"; str "v2"])) /\
  (let r := kvolve_update_all_hash marks cont_client (Some demo_b) (small_server dict_hash two_strings) in
   obj_after r 10012 = Done (Some (PHashDict [(10020, 20001)]%positive)) /\ obj_after r 10020 = Done None) /\
  (let r := kvolve_update_all_hash marks cont_client (Some demo_b) (small_server (hash_obj [(str "f", str "5")]) ∅) in
   obj_after r (shared_integers 5) = Done None).
Proof. vm_compute. auto. Qed.


End KvolveCont.
