(* ===== verification/KvolveServer.v ===== *)
(** * The whole path: bytes, the hook, processCommand

    processInputBuffer with what it does to a complete request: the arguments
    become objects, kvolve_process_command sees the command first
    (networking.c:1111), then processCommand.  A queued command leaves the server
    as the hook has left it; runs of the whole path on small servers follow. *)
From S2P Require Import Prelude CStr Util Server Object Db TString Multi Proto KvolveNs Kvolve.
Import Object Db Multi KvolveNs Kvolve.

Module KvolveServer.

Section Serve.
Context (hook : client -> M unit) (other : string -> client -> M client) (freeMemoryIfNeeded : M bool) (handleClientsBlockedOnLists : M unit) (g : gates).

Fixpoint create_args (args : list sds) : M (list addr) :=
  match args with
  | [] => mret []
  | x :: r => a ← createStringObject x; l ← create_args r; mret (a :: l)
  end.

(** A complete request: [true] is REDIS_OK. *)
Definition request (args : list sds) (t : tclient) : M (tclient * bool) :=
  l ← create_args args;
  let t := with_args l t in
  _ ← hook (t_cl t);
  r ← processCommand other freeMemoryIfNeeded handleClientsBlockedOnLists g t;
  t ← (if (snd r : bool) then resetClient (fst r) else mret (fst r));
  mret (t, snd r).

Definition serve (args : list sds) : prog (server * tclient) (bool * bool) := fun st =>
  match request args (snd st) (fst st) with
  | Done ((t, ok), s) => Done ((ok, t_close t), (s, t))
  | Fault e => Fault e
  end.

(** C24: Inside MULTI a command is only queued.  A request is read, the hook sees
    it first, and then processCommand: for every command of the table but EXEC,
    DISCARD, MULTI and WATCH, that is not refused (by checks that change
    nothing), the server is afterwards exactly what the hook has left, to the
    reference counts, whatever the hook does; the client has the command and its
    arguments in the queue and one more reply, QUEUED.  (The hook itself may
    change keys: hook_acts_before_the_gate.) *)
Theorem queueing_changes_nothing (args : list sds) (t : tclient) (s s0 s1 : server) (l : list addr) (name : sds) (cmd : redisCommand) :
  create_args args s = Done (l, s0) -> hook (t_cl (with_args l t)) s0 = Done (tt, s1) ->
  t_multi t = true -> arg_str (t_cl (with_args l t)) 0 s1 = Done (name, s1) -> strcasecmp_eq name (str "quit") = false ->
  lookupCommand other name = Some cmd -> queues (cmd_proc cmd) = true ->
  refused freeMemoryIfNeeded g cmd (t_cl (with_args l t)) s1 = Done (None, s1) -> Forall (in_use (heap s1)) l ->
  exists t', request args t s = Done ((t', true), s1) /\ t_commands t' = t_commands t ++ [mkMulti (map Some l) (Z.of_nat (length l)) (Some cmd)] /\
    cl_replies (t_cl t') = cl_replies (t_cl t) ++ [RStatus (str "QUEUED")] /\ t_multi t' = true /\ t_dirty_exec t' = t_dirty_exec t /\ t_watched t' = t_watched t.
Proof using Type.
  intros Ea Eh Hm Hn Hq Hl Hp Hr Hu. unfold request. rewrite (prog_bind_step _ _ _ _ _ Ea), (prog_bind_step _ _ _ _ _ Eh).
  destruct (queued_ok other freeMemoryIfNeeded handleClientsBlockedOnLists g t s1 l name cmd Hm Hn Hq Hl Hp Hr Hu) as (t1 & s2 & t' & E1 & E2 & H).
  rewrite (prog_bind_step _ _ _ _ _ E1). cbn [fst snd]. rewrite (prog_bind_step _ _ _ _ _ E2). by exists t'.
Qed.

(** Only QUIT returns REDIS_ERR, and it closes the client: the commands of the
    server are what Proto.v expects of commands. *)
Lemma processCommand_quits t s t' s' :
  processCommand other freeMemoryIfNeeded handleClientsBlockedOnLists g t s = Done ((t', false), s') -> t_close t' = true.
Proof using Type.
  unfold processCommand. intros H. apply prog_bind_inv in H as (name & s1 & _ & H).
  destruct (strcasecmp_eq _ _); [by injection H as <- _|]. cbn [t_cmd set_t_cmd] in H. destruct (lookupCommand other name) as [cmd|]; [|done].
  apply prog_bind_inv in H as (r & s2 & _ & H). destruct r as [[e fails]|]; [done|]. destruct (_ && _).
  - by apply prog_bind_inv in H as (t1 & s3 & _ & H).
  - apply prog_bind_inv in H as (t1 & s3 & _ & H). by apply prog_bind_inv in H as (u & s4 & _ & H).
Qed.

Lemma serve_err_stops args st stop st' : serve args st = Done ((false, stop), st') -> stop = true.
Proof using Type.
  unfold serve. destruct (request args (snd st) (fst st)) as [[[t ok] s]|] eqn:E; [|done]. intros [= -> <- _].
  unfold request in E. apply prog_bind_inv in E as (l & s1 & _ & E). apply prog_bind_inv in E as ([] & s2 & _ & E).
  apply prog_bind_inv in E as ([t1 ok] & s3 & E1 & E). cbn [fst snd] in E. apply prog_bind_inv in E as (t2 & s4 & E2 & [= -> -> ->]).
  injection E2 as -> ->. by eapply processCommand_quits.
Qed.
End Serve.

(** A server with the namespaces a (version 1) and b (its successor, with an
    update), with a value of namespace a in database 0. *)
Definition srv : server := with_ns [demo_vh "a" None [1]; demo_b] (put_key 0 "a:x" 12 (put_obj 12 (str_obj "val" 1) server0)).
Definition cl0 : tclient := mkT (client_of 0 []) false false false None [] [].
Definition run_requests (g : gates) (cmds : list (list string)) : outcome (server * tclient) :=
  match Proto.processInputBuffer (serve demo_hook no_other (mret true) (mret tt) g) (Proto.set_querybuf (Proto.enc_all (map (map str) cmds)) Proto.new_parser) (srv, cl0) with
  | Done (_, st) => Done st
  | Fault e => Fault e
  end.
(** The keys of database 0 and the replies. *)
Definition seen (r : outcome (server * tclient)) : outcome (list (sds) * list reply) :=
  st ← r; Done (map fst (map_to_list (db_dict (get_db (fst st) 0))), cl_replies (t_cl (snd st))).

(** GET b:x inside MULTI: the hook moves the key to its new name and updates it,
    the command waits. *)
Definition multi_args : list addr := [20000; 20001]%positive.
Definition multi_client : tclient := mkT (client_of 0 []) true false false None [] [].
Definition left_by {A} (r : outcome (A * server)) : server := match r with Done (_, s) => s | Fault _ => srv end.
Definition multi_read : server := left_by (create_args [str "GET"; str "b:x"] srv).
Definition multi_hooked : server := left_by (demo_hook (t_cl (with_args multi_args multi_client)) multi_read).

Lemma queueing_changes_nothing_witness :
  exists t', request demo_hook no_other (mret true) (mret tt) open_gates [str "GET"; str "b:x"] multi_client srv = Done ((t', true), multi_hooked) /\
    cl_replies (t_cl t') = [RStatus (str "QUEUED")].
Proof.
  destruct (queueing_changes_nothing demo_hook no_other (mret true) (mret tt) open_gates [str "GET"; str "b:x"] multi_client srv multi_read multi_hooked
    multi_args (str "GET") (Multi.mkCmd "get" (ProcBase TString.getCommand) 2 "rF")) as (t' & E & _ & Hr & _).
  1-2: vm_compute; reflexivity.
  1: reflexivity.
  1-2: vm_compute; reflexivity.
  1-2: reflexivity.
  1: vm_compute; reflexivity.
  - repeat constructor; eexists; (split; [vm_compute; reflexivity|]); vm_compute; reflexivity.
  - exists t'. split; [exact E|exact Hr].
Defined.

(** Over the wire, a client of the new version reads the updated value of a
    key that is still stored under the old name and version: the bytes of GET b:x,
    through the parser, the hook and the command, are answered with the updated
    value, and the key has its new name. *)
Lemma get_over_the_wire : seen (run_requests open_gates [["GET"; "b:x"]]) = Done ([str "b:x"], [RBulk (str "valUPDATED")]).
Proof. vm_compute. reflexivity. Qed.

(** The hook acts when a command is read, before it is known whether the
    command will run.  A SET that is only queued, in a transaction that is then
    discarded, deletes the key under its old name, and nothing is stored under
    the new one; and so does a SET that is refused because the client has not
    given the password. *)
Example hook_acts_before_the_gate :
  seen (run_requests open_gates [["MULTI"]; ["SET"; "b:x"; "new"]; ["DISCARD"]; ["EXISTS"; "b:x"]; ["EXISTS"; "a:x"]]) =
    Done ([], [ROk; RStatus (str "QUEUED"); ROk; RInt 0; RInt 0]) /\
  seen (run_requests (mkGates true false None false false false false false false) [["SET"; "b:x"; "new"]]) =
    Done ([], [RErr "NOAUTH Authentication required."]).
Proof. split; vm_compute; reflexivity. Qed.
End KvolveServer.
