(* ===== verification/KvolveZset.v ===== *)
(** * The updates of sorted sets

    kvolve_update_all_zset (KvolveUpd.v) gathers the members of a sorted set that is kept
    as a ziplist, runs the update functions on each of them, and replaces what changed
    with ZADD and ZREM.  The file shows when this maps the functions over the set, and
    what happens otherwise. *)
From S2P Require Import Prelude CStr Intset Util Double ZSkip ZSkipSpec Server Object Db TString TSet Heap TList ZZip ZSet ZSetSpec TZset KvolveNs KvolveUpd Kvolve KvolveCont.
Import Object Db TString TList KvolveNs KvolveUpd ZSkipSpec ZZip ZSet ZSetSpec TZset.

Module KvolveZset.

(** ** A walk through the versions *)
(** The functions that bring a value from [vers] to the current version. *)
Definition pending_funs (v : version_hash) (vers : Z) : list fptr := concat (map (KvolveCont.hfuns v) (pending v vers)).

Section Walk.
#[local] Set Default Proof Using "Type*".
Context (mu : upd_fun) (c : client) (v : version_hash) (kind : upd_kind) (Hw : wf_vh v).
Context {X : Type} (step : X -> fptr -> X) (ok : X -> fptr -> Prop).
(** [P x s e]: in the state [s] the object [e] stands for [x]; [R]: what a step keeps. *)
Context (P : X -> server -> addr -> Prop) (R : server -> addr -> server -> addr -> Prop).
Context (R_refl : forall s e, R s e s e) (R_trans : forall s1 e1 s2 e2 s3 e3, R s1 e1 s2 e2 -> R s2 e2 s3 e3 -> R s1 e1 s3 e3).
Context (P_fun : forall ck f x s e, P x s e -> ok x f -> exists e' s', run_fun mu c v ck kind f e s = Done (e', s') /\ P (step x f) s' e' /\ R s e s' e').
Context (P_stamp : forall w x s e, P x s e -> exists s', upd_obj e (set_o_vers w) s = Done (tt, s') /\ P x s' e /\ R s e s' e).

(** The functions can be run one after the other. *)
Fixpoint all_ok (x : X) (fs : list fptr) : Prop := match fs with [] => True | f :: r => ok x f /\ all_ok (step x f) r end.

Lemma all_ok_app fs gs : forall x, all_ok x (fs ++ gs) <-> all_ok x fs /\ all_ok (foldl step x fs) gs.
Proof. induction fs as [|f fs IH]; intros x; cbn; [tauto|]. rewrite IH. tauto. Qed.

Lemma walk_funs ck fs : forall x s e, P x s e -> all_ok x fs ->
  exists e' s', run_funs mu c v ck kind fs e s = Done (e', s') /\ P (foldl step x fs) s' e' /\ R s e s' e'.
Proof.
  induction fs as [|f fs IH]; intros x s e HP Hok; [by exists e, s|]. destruct Hok as [H1 H2]. destruct (P_fun ck f x s e HP H1) as (e1 & s1 & E1 & HP1 & HR1).
  cbn [run_funs foldl]. rewrite (prog_bind_step _ _ _ _ _ E1). destruct (IH _ s1 e1 HP1 H2) as (e2 & s2 & E2 & HP2 & HR2). exists e2, s2. eauto.
Qed.

Lemma walk_version ck j x s e : 0 <= j < num_versions v -> P x s e -> all_ok x (KvolveCont.hfuns v j) ->
  exists e' s', vers_step mu c v ck kind j e s = Done (e', s') /\ P (foldl step x (KvolveCont.hfuns v j)) s' e' /\ R s e s' e'.
Proof.
  intros Hj HP Hok. destruct Hw as [Hv Hi Hn]. unfold vers_step. destruct (lookup_lt_is_Some_2 (info v) (Z.to_nat j)) as [inf Hinf]; [lia|].
  rewrite (arr_get_ok _ _ _ (proj1 Hj) Hinf), bind_lift. unfold KvolveCont.hfuns in *. rewrite Hinf in *.
  assert (exists e1 s1, (match inf with None => mret e | Some inf => run_funs mu c v ck kind (take (Z.to_nat (num_funs inf)) (funs inf)) e end) s = Done (e1, s1) /\
    P (foldl step x (match inf with Some inf => take (Z.to_nat (num_funs inf)) (funs inf) | None => [] end)) s1 e1 /\ R s e s1 e1) as (e1 & s1 & E1 & HP1 & HR1).
  { destruct inf as [inf|]; [by apply walk_funs|by exists e, s]. }
  rewrite (prog_bind_step _ _ _ _ _ E1). destruct (arr_get_lt (versions v) j) as [vj Hvj]; [lia|]. rewrite Hvj, bind_lift.
  destruct (P_stamp vj _ s1 e1 HP1) as (s2 & E2 & HP2 & HR2). rewrite (prog_bind_step _ _ _ _ _ E2). exists e1, s2. eauto.
Qed.

Lemma walk_loop ck js : forall x s e, Forall (fun j => 0 <= j < num_versions v) js -> P x s e -> all_ok x (concat (map (KvolveCont.hfuns v) js)) ->
  exists e' s', vers_loop mu c v ck kind js e s = Done (e', s') /\ P (foldl step x (concat (map (KvolveCont.hfuns v) js))) s' e' /\ R s e s' e'.
Proof.
  induction js as [|j js IH]; intros x s e Hjs HP Hok; [by exists e, s|]. apply Forall_cons in Hjs as [Hj Hjs]. cbn [map concat vers_loop] in *.
  apply all_ok_app in Hok as [H1 H2]. destruct (walk_version ck j x s e Hj HP H1) as (e1 & s1 & E1 & HP1 & HR1). rewrite (prog_bind_step _ _ _ _ _ E1), foldl_app.
  destruct (IH _ s1 e1 Hjs HP1 H2) as (e2 & s2 & E2 & HP2 & HR2). exists e2, s2. eauto.
Qed.
End Walk.

(** ** What the functions do *)
(** The new name and score that a function gives a member [x] with score [sc], [None] for
    what it keeps. *)
Class PureZsetUpdates (mu : upd_fun) (trz : fptr -> sds -> Double.double -> option sds * option Double.double) :=
  pure_muz : forall f key x sc len s, mu f key (VZset (PSds x) sc) len s = Done (mkMu None (fst (trz f x sc)) len None (snd (trz f x sc)), s).

(** The score that ZADD reads from the text of [sc]. *)
Definition stored (sc : Double.double) : option Double.double :=
  match getDoubleFromObject (mkObj REDIS_STRING ENC_RAW 1 0 (PSds (score_text sc))) with Done r => r | Fault _ => None end.

Section Functions.
Context (trz : fptr -> sds -> Double.double -> option sds * option Double.double).

(** The element [p] after the function [f], which is given the score [s0]: the score from
    before the update, whatever earlier functions made of it.  ZADD leaves a score that
    is equal as it is. *)
Definition renamed (p : elt) (y : sds) (d : Double.double) : elt := (if bool_decide (y = snd p) && SFeqb d (fst p) then fst p else d, y).
Definition zfun (s0 : Double.double) (p : elt) (f : fptr) : elt :=
  match trz f (snd p) s0 with
  | (None, None) => p
  | (n, sc) => renamed p (cstr (default (snd p) n)) (default S754_nan (stored (default s0 sc)))
  end.
(** The names and scores that the functions write. *)
Fixpoint zlog (s0 : Double.double) (fs : list fptr) (p : elt) : list (sds * Double.double) :=
  match fs with
  | [] => []
  | f :: r =>
    match trz f (snd p) s0 with
    | (None, None) => []
    | (n, sc) => [(cstr (default (snd p) n), default s0 sc)]
    end ++ zlog s0 r (zfun s0 p f)
  end.

Definition zmigrate (v : version_hash) (vers : Z) (p : elt) : elt := foldl (zfun (fst p)) p (pending_funs v vers).
Definition zchanges (v : version_hash) (vers : Z) (p : elt) : list (sds * Double.double) := zlog (fst p) (pending_funs v vers) p.
End Functions.

(** ** One member *)
(** The list after the element [(sc, x)] was replaced. *)
Lemma s_remove_perm x (a b : list elt) : a ≡ₚ b -> s_remove x a ≡ₚ s_remove x b.
Proof. intros Hab. induction Hab; cbn; repeat case_match; try done; [by constructor|by constructor|by etrans]. Qed.

Lemma s_remove_head p rest : snd p ∉ map snd rest -> s_remove (snd p) (p :: rest) = rest.
Proof.
  intros Hx. unfold s_remove. cbn. rewrite bool_decide_eq_true_2 by done. cbn. apply filter_id_c. intros a Ha. apply negb_true_iff, bool_decide_eq_false_2.
  intros E. apply Hx. rewrite <- E. by apply list_elem_of_fmap_2.
Qed.

Lemma replaced l p rest y d : set_ok l -> l ≡ₚ p :: rest -> y ∉ map snd rest ->
  (if bool_decide (snd p = y) then snd (spec_add false y d l) else s_remove (snd p) (snd (spec_add false y d l))) ≡ₚ renamed p y d :: rest.
Proof.
  intros HS HP Hy. pose proof (so_nodup _ HS) as Hn. assert (Hin : p ∈ l) by (rewrite HP; by left). rewrite HP in Hn. cbn in Hn. apply NoDup_cons in Hn as [Hx Hn].
  assert (Hrm : s_remove (snd p) l ≡ₚ rest) by (by rewrite (s_remove_perm (snd p) _ _ HP), s_remove_head).
  unfold renamed, spec_add, new_score. destruct p as [sc x]. cbn [fst snd] in *. case_bool_decide as Exy.
  - subst y. rewrite (member_in sc x l (so_nodup _ HS) Hin), bool_decide_eq_true_2 by done. cbn. destruct (SFeqb d sc); cbn [snd]; [done|]. by rewrite spec_insert_perm, Hrm.
  - rewrite (bool_decide_eq_false_2 (y = x)) by done. cbn.
    rewrite (proj2 (member_none y l)) by (rewrite HP; cbn; rewrite elem_of_cons; intros [->|?]; done). cbn [snd].
    rewrite (s_remove_perm x _ _ (spec_insert_perm (d, y) l)). unfold s_remove at 1. cbn. rewrite bool_decide_eq_false_2 by done. cbn. by rewrite Hrm.
Qed.
Section Zset.
#[local] Set Default Proof Using "Type*".
Context (c : client) (key : sds) (zo ka : addr) (oz : robj) (cf : server_conf).
Context (Hka : cl_argv c !! 1%nat = Some (Some ka)) (Ht : o_type oz = REDIS_ZSET) (He : o_encoding oz = ENC_ZIPLIST).

(** The object with the elements [l]. *)
Definition zobj (l : list elt) : robj := set_o_ptr (PZiplist (pairs l)) oz.

(** The sorted set under [key] is the list [l]. *)
Record zset_st (s : server) (l : list elt) : Prop := {
  zt_obj : heap s !! zo = Some (zobj l);
  zt_key : exists ok, heap s !! ka = Some ok /\ o_ptr ok = PSds key;
  zt_fresh : heap_fresh s;
  zt_live : live s (cl_db c) key;
  zt_lookup : lookupKey s (cl_db c) key = Some zo;
  zt_conf : conf s = cf;
  zt_set : set_ok l
}.

(** [e] is a text object of its own with the bytes [x]. *)
Definition text_obj (s : server) (e : addr) (x : sds) : Prop := e <> ka /\ exists o, heap s !! e = Some o /\ o_ptr o = PSds x.

(** What the steps on [e] leave: the other objects, the keyspace and kvolve's state. *)
Record kept (e : addr) (s s' : server) : Prop := {
  kp_heap : forall b o, b <> zo -> b <> e -> heap s !! b = Some o -> heap s' !! b = Some o;
  kp_some : forall b, is_Some (heap s !! b) -> is_Some (heap s' !! b);
  kp_dbs : dbs s' = dbs s;
  kp_kv : kv s' = kv s
}.

Lemma zkept_refl e s : kept e s s.
Proof. by split. Qed.
Lemma zkept_trans e s1 s2 s3 : kept e s1 s2 -> kept e s2 s3 -> kept e s1 s3.
Proof. intros [A1 A2 A3 A4] [B1 B2 B3 B4]. split; [eauto|eauto|congruence|congruence]. Qed.

Lemma text_ne s l e x : zset_st s l -> text_obj s e x -> e <> zo.
Proof. intros HZ [_ (o & Ho & Hp)] ->. rewrite (zt_obj _ _ HZ) in Ho. injection Ho as <-. done. Qed.
Lemma key_ne s l : zset_st s l -> ka <> zo.
Proof. intros HZ E. destruct (zt_key _ _ HZ) as (ok & Hk & Hp). rewrite E, (zt_obj _ _ HZ) in Hk. injection Hk as <-. done. Qed.
Lemma key_str s l cl : zset_st s l -> cl_argv cl !! 1%nat = Some (Some ka) -> str_arg s cl 1 key.
Proof. intros HZ H1. destruct (zt_key _ _ HZ) as (ok & Hk & Hp). by exists ka, ok. Qed.

Lemma zset_st_db s s' l l' : zset_st s l -> heap s' !! zo = Some (zobj l') -> heap s' !! ka = heap s !! ka -> heap_fresh s' ->
  dbs s' = dbs s -> conf s' = conf s -> set_ok l' -> zset_st s' l'.
Proof.
  intros [A1 A2 A3 A4 A5 A6 A7] Ho Hk Hf Hd Hc HS. assert (Hg : get_db s' (cl_db c) = get_db s (cl_db c)) by (unfold get_db; by rewrite Hd). split; try done.
  - by rewrite Hk.
  - by apply (live_ext s).
  - by rewrite (lookupKey_ext s).
  - congruence.
Qed.

Lemma zset_st_rewrote s s' l l' e : zset_st s l -> rewrote zo (zobj l') s s' -> set_ok l' -> zset_st s' l' /\ kept e s s'.
Proof.
  intros HZ [B1 B2 B3 B4 B5] HS. pose proof (key_ne _ _ HZ) as Hne. split.
  - eapply zset_st_db; [exact HZ| | | |done|done|done]; [rewrite B1; apply lookup_insert_eq|by rewrite B1, lookup_insert_ne|].
    intros b Hb. rewrite B2 in Hb. rewrite B1, lookup_insert_ne; [by apply (zt_fresh _ _ HZ)|]. intros <-. pose proof (heap_fresh_lt _ _ _ (zt_fresh _ _ HZ) (zt_obj _ _ HZ)). lia.
  - split; try done.
    + intros b o Hb _ Ho. by rewrite B1, lookup_insert_ne.
    + intros b Hb. rewrite B1. destruct (decide (b = zo)) as [->|Hbz]; [rewrite lookup_insert_eq; eauto|by rewrite lookup_insert_ne].
Qed.

Lemma zset_st_alloc s l o e : zset_st s l -> let s' := set_next_addr (Pos.succ (next_addr s)) (set_heap (<[next_addr s := o]> (heap s)) s) in zset_st s' l /\ kept e s s'.
Proof.
  intros HZ s'. pose proof HZ as [A1 (ok & Hk & Hp) A3 A4 A5 A6 A7]. pose proof (heap_fresh_lt _ _ _ A3 A1). pose proof (heap_fresh_lt _ _ _ A3 Hk). split.
  - eapply zset_st_db; [exact HZ| | | |done|done|done]; subst s'; cbn [heap set_heap set_next_addr]; try (by rewrite lookup_insert_ne by lia).
    intros b Hb. cbn in *. rewrite lookup_insert_ne by lia. apply A3. lia.
  - subst s'. split; try done; cbn.
    + intros b o' _ _ Hb. pose proof (heap_fresh_lt _ _ _ A3 Hb). by rewrite lookup_insert_ne by lia.
    + intros b [o' Hb]. pose proof (heap_fresh_lt _ _ _ A3 Hb). rewrite lookup_insert_ne by lia. eauto.
Qed.

(** The client that kvolve_update_zset_elem makes. *)
Definition zset_client (cl : client) : Prop := cl_db cl = cl_db c /\ (4 <= length (cl_argv cl))%nat /\ cl_argv cl !! 1%nat = Some (Some ka).

Definition room (l : list elt) : Prop := Z.of_nat (length l) < zset_max_ziplist_entries cf /\ 2 * Z.of_nat (length l) + 2 < 2 ^ 31.

Lemma stored_reads sc d : stored sc = Some d -> getDoubleFromObject (mkObj REDIS_STRING ENC_RAW 1 0 (PSds (score_text sc))) = Done (Some d).
Proof. unfold stored. destruct (getDoubleFromObject _) as [r|]; [by intros ->|done]. Qed.

Lemma spec_add_res x d l : fst (fst (spec_add false x d l)) <> NanErr.
Proof. unfold spec_add, new_score. destruct (member_score x l) as [cur|]; [by destruct (SFeqb d cur)|done]. Qed.

Lemma zval_zobj l : zval_of (zobj l) = Done (ZZl (pairs l)).
Proof. unfold zval_of. cbn [zobj set_o_ptr o_encoding o_ptr]. by rewrite He. Qed.
Lemma put_zobj l l' : put_zval (ZZl (pairs l')) (zobj l) = zobj l'.
Proof. unfold zobj. destruct oz. cbn in *. by subst. Qed.

Lemma zset_add_new_ok s l nv sc d : zset_st s l -> room l -> (4 <= three_pointers cf)%nat -> stored sc = Some d -> sdslen (cstr nv) <= zset_max_ziplist_value cf ->
  exists cl n m s', zset_add_new c nv sc s = Done ((cl, n, m), s') /\ zset_client cl /\ zset_st s' (snd (spec_add false (cstr nv) d l)) /\ text_obj s' n (cstr nv) /\
    is_Some (heap s' !! m) /\ n <> m /\ heap s !! n = None /\ heap s !! m = None /\ forall e, kept e s s'.
Proof.
  intros HZ [Hr1 Hr2] H4 Hst Hlen. unfold zset_add_new. rewrite bind_gets, (zt_conf _ _ HZ). set (k := three_pointers cf) in *. unfold createClient. erewrite prog_bind_step by reflexivity.
  rewrite (argv_Done _ _ _ Hka), bind_lift, put_argv_Done, bind_lift by (cbn; rewrite length_replicate; lia). unfold createStringObject, createObject.
  set (s0 := set_next_client_id _ s). assert (HZ0 : zset_st s0 l) by (by destruct HZ). assert (K0 : forall e, kept e s s0) by (by split). rewrite bind_alloc. set (n := next_addr s0). set (s1 := set_next_addr _ _).
  destruct (zset_st_alloc s0 l (mkObj REDIS_STRING ENC_RAW 1 0 (PSds (cstr nv))) zo HZ0) as [HZ1 _]. fold n in HZ1. change (zset_st s1 l) in HZ1.
  assert (K1 : forall e, kept e s0 s1) by (intros e; apply (zset_st_alloc s0 l _ e HZ0)). rewrite bind_alloc. change (next_addr s1) with (Pos.succ n). set (m := Pos.succ n). set (s2 := set_next_addr _ (set_heap (<[m := _]> _) _)).
  destruct (zset_st_alloc s1 l (mkObj REDIS_STRING ENC_RAW 1 0 (PSds (score_text sc))) zo HZ1) as [HZ2 _]. change (next_addr s1) with m in HZ2. change (zset_st s2 l) in HZ2.
  assert (K2 : forall e, kept e s1 s2) by (intros e; apply (zset_st_alloc s1 l _ e HZ1)).
  rewrite put_argv_Done, bind_lift by (cbn; rewrite length_insert, length_replicate; lia). rewrite put_argv_Done, bind_lift by (cbn; rewrite !length_insert, length_replicate; lia). set (cl := set_cl_argv _ _).
  pose proof (zt_fresh _ _ HZ) as HF. change (next_addr s0) with (next_addr s) in n.
  assert (Hn : heap s2 !! n = Some (mkObj REDIS_STRING ENC_RAW 1 0 (PSds (cstr nv)))) by (subst s2 s1; cbn; rewrite lookup_insert_ne by lia; apply lookup_insert_eq).
  assert (Hm : heap s2 !! m = Some (mkObj REDIS_STRING ENC_RAW 1 0 (PSds (score_text sc)))) by (subst s2; cbn; apply lookup_insert_eq).
  pose proof (score_arg_good _ _ (cstr nv) (stored_reads sc d Hst)) as Hg.
  assert (Hcl : length (cl_argv cl) = k /\ cl_argv cl !! 1%nat = Some (Some ka) /\ cl_argv cl !! 2%nat = Some (Some m) /\ cl_argv cl !! 3%nat = Some (Some n)).
  { subst cl. cbn. rewrite !length_insert, length_replicate. split; [done|]. split; [|split].
    - by rewrite !list_lookup_insert_ne, list_lookup_insert_eq by (rewrite ?length_replicate; lia).
    - by rewrite list_lookup_insert_ne, list_lookup_insert_eq by (rewrite ?length_insert, ?length_replicate; lia).
    - by rewrite list_lookup_insert_eq by (rewrite ?length_insert, ?length_replicate; lia). }
  destruct Hcl as (Hk & H1 & H2 & H3). pose proof (zadd_zl_stays (zset_max_ziplist_entries cf) (zset_max_ziplist_value cf) (cstr nv) d l (rnd s2) (zt_set _ _ HZ) Hg Hr2 Hr1 Hlen) as Hz.
  rewrite <- (zt_conf _ _ HZ2) in Hz. rewrite (surjective_pairing (fst (spec_add false (cstr nv) d l))) in Hz.
  assert (Hmem : zadd_member cl zo 3 s2 = Done ((cl, cstr nv), s2)).
  { unfold zadd_member. rewrite (bind_deref _ _ _ _ (zt_obj _ _ HZ2)). cbn [zobj set_o_ptr o_encoding]. rewrite He. rewrite (bind_arg_str _ _ (cstr nv)); [done|]. by eexists _, _. }
  destruct (zadd_exec s2 cl cl s2 key zo (zobj l) (ZZl (pairs l)) (cstr nv) d _ m _ _ _ _ eq_refl (key_str _ _ _ HZ2 H1) H2 Hm (stored_reads sc d Hst) Hmem (zt_obj _ _ HZ2) eq_refl (same_client_refl cl) (zt_live _ _ HZ2) (zt_lookup _ _ HZ2)
    (zt_obj _ _ HZ2) Ht (zval_zobj l) (spec_add_res _ _ _) Hz) as (s3 & E3 & R3).
  rewrite put_zobj in R3.
  destruct (zset_st_rewrote s2 s3 l _ zo HZ2 R3 (spec_add_ok false (cstr nv) d l (zt_set _ _ HZ) Hg Hr2)) as [HZ3 _].
  assert (K3 : forall e, kept e s2 s3) by (intros e; apply (zset_st_rewrote s2 s3 l _ e HZ2 R3 (zt_set _ _ HZ3))).
  pose proof (heap_fresh_lt _ _ _ HF (zt_obj _ _ HZ)) as Hzn. destruct (zt_key _ _ HZ) as (ok & Hok & _). pose proof (heap_fresh_lt _ _ _ HF Hok) as Hkn.
  assert (Hnz : n <> zo) by (subst n; lia). assert (Hnk : n <> ka) by (subst n; lia). pose proof (kp_heap _ _ _ (K3 zo) n _ Hnz Hnz Hn) as Hn3.
  rewrite (prog_bind_step _ _ _ _ _ E3). eexists _, n, m, s3. split; [reflexivity|]. split; [split; [done|]; split; [by rewrite <- Hk in H4|exact H1]|]. split; [done|].
  split; [split; [done|]; by eexists|].
  split; [apply (kp_some _ _ _ (K3 zo)); eauto|]. split; [subst m; lia|]. split; [apply HF; subst n; lia|]. split; [apply HF; subst m n; lia|].
  intros e. eapply zkept_trans; [apply K0|]. eapply zkept_trans; [apply K1|]. eapply zkept_trans; [apply K2|apply K3].
Qed.

Lemma zset_st_touch s l e o g : zset_st s l -> heap s !! e = Some o -> e <> zo -> e <> ka ->
  zset_st (set_heap (<[e := g]> (heap s)) s) l /\ kept e s (set_heap (<[e := g]> (heap s)) s).
Proof.
  intros HZ Ho H1 H2. pose proof HZ as [A1 A2 A3 A4 A5 A6 A7]. pose proof (heap_fresh_lt _ _ _ A3 Ho). split.
  - eapply zset_st_db; [exact HZ| | | |done|done|done]; cbn; [by rewrite lookup_insert_ne|by rewrite lookup_insert_ne|]. intros b Hb. cbn in *. rewrite lookup_insert_ne; [by apply A3|]. intros <-. lia.
  - split; try done; cbn; intros b; [intros o' _ Hb Ho'; by rewrite lookup_insert_ne|]. intros Hb. destruct (decide (b = e)) as [->|Hne]; [rewrite lookup_insert_eq; eauto|by rewrite lookup_insert_ne].
Qed.

Lemma zset_delete_old_ok s l cl nv e x : zset_st s l -> zset_client cl -> text_obj s e x -> NUL ∉ x -> cstr nv ∈ map snd l ->
  exists s', zset_delete_old cl nv e s = Done (tt, s') /\ zset_st s' (if bool_decide (x = cstr nv) then l else s_remove x l) /\ kept e s s'.
Proof.
  intros HZ (Hdb & Hlen & H1) Hx Hnul Hin. pose proof (text_ne _ _ _ _ HZ Hx) as Hez. destruct Hx as [Hek (o & Ho & Hp)]. unfold zset_delete_old. rewrite (bind_deref _ _ _ _ Ho). unfold sds_of. rewrite Hp, bind_lift.
  unfold strcmp_eq. rewrite (cstr_id x Hnul). case_bool_decide as Exy; cbn [negb when]; [exists s; split; [done|]; split; [done|apply zkept_refl]|].
  rewrite put_argv_Done, bind_lift, (bind_upd_obj _ _ _ _ _ Ho) by lia. set (cl' := set_cl_argv _ _). set (s1 := set_heap _ s).
  destruct (zset_st_touch s l e o (set_o_encoding ENC_RAW o) HZ Ho Hez Hek) as [HZ1 K1]. change (zset_st s1 l) in HZ1. change (kept e s s1) in K1.
  assert (Hne : s_remove x l <> []). { intros E. assert (Hy : cstr nv ∈ map snd (s_remove x l)) by (apply remove_in; split; [done|by intros ?]). by rewrite E in Hy; apply not_elem_of_nil in Hy. }
  pose proof (zrem_zl_ok x l (rnd s1) (zt_set _ _ HZ)) as Hz. set (l' := snd (spec_rem x l)) in *.
  assert (Hl' : l' = s_remove x l /\ snd (fst (spec_rem x l)) = false).
  { subst l'. unfold spec_rem. destruct (member_score x l) as [cur|] eqn:Em; cbn; [split; [done|]; by destruct (s_remove x l)|]. split; [|done]. symmetry. apply filter_id_c. intros a Ha.
    apply negb_true_iff, bool_decide_eq_false_2. intros E. apply member_none in Em. apply Em. rewrite <- E. by apply list_elem_of_fmap_2. }
  destruct Hl' as [Hl' Hf]. rewrite (surjective_pairing (fst (spec_rem x l))), Hf in Hz.
  assert (H1' : cl_argv cl' !! 1%nat = Some (Some ka)) by (cbn; by rewrite list_lookup_insert_ne). assert (H2' : cl_argv cl' !! 2%nat = Some (Some e)) by (cbn; rewrite list_lookup_insert_eq by lia; done).
  assert (HL : live s1 (cl_db cl') key) by (change (cl_db cl') with (cl_db cl); rewrite Hdb; apply HZ1). assert (Hl : lookupKey s1 (cl_db cl') key = Some zo) by (change (cl_db cl') with (cl_db cl); rewrite Hdb; apply HZ1).
  assert (Ho1 : heap s1 !! e = Some (set_o_encoding ENC_RAW o)) by apply lookup_insert_eq.
  assert (Hb : string_bytes (set_o_encoding ENC_RAW o) = Done x) by (unfold string_bytes; cbn; by rewrite Hp).
  destruct (zrem_exec s1 (set_cl_argc 3 cl') key zo (zobj l) (ZZl (pairs l)) x e _ _ _ _ eq_refl (key_str _ _ (set_cl_argc 3 cl') HZ1 H1') H2' Ho1 Hb HL Hl (zt_obj _ _ HZ1) Ht (zval_zobj l) eq_refl Hz) as (s2 & r & E2 & R2).
  rewrite put_zobj in R2. rewrite (prog_bind_step _ _ _ _ _ E2). destruct (zset_st_rewrote s1 s2 l l' e HZ1 R2) as [HZ2 K2]; [rewrite Hl'; apply set_ok_filter, HZ|].
  exists s2. split; [done|]. rewrite <- Hl'. split; [done|]. by eapply zkept_trans.
Qed.

Lemma update_zset_elem_ok s l p rest nv sc d e : zset_st s l -> room l -> (4 <= three_pointers cf)%nat -> l ≡ₚ p :: rest -> text_obj s e (snd p) -> NUL ∉ snd p ->
  stored sc = Some d -> sdslen (cstr nv) <= zset_max_ziplist_value cf -> cstr nv ∉ map snd rest ->
  exists n s' l', kvolve_update_zset_elem c nv e sc s = Done (n, s') /\ zset_st s' l' /\ l' ≡ₚ renamed p (cstr nv) d :: rest /\ text_obj s' n (cstr nv) /\ kept e s s' /\ heap s !! n = None.
Proof.
  intros HZ Hroom H4 HP Hx Hnul Hst Hlen Hy. destruct (zset_add_new_ok s l nv sc d HZ Hroom H4 Hst Hlen) as (cl & n & m & s1 & E1 & Hcl & HZ1 & Hn1 & Hm1 & Hnm & Hn & Hm & K1).
  unfold kvolve_update_zset_elem. rewrite (prog_bind_step _ _ _ _ _ E1). pose proof (text_ne _ _ _ _ HZ Hx) as Hez. pose proof (text_ne _ _ _ _ HZ1 Hn1) as Hnz. pose proof Hx as [Hek (o & Ho & Hp)].
  assert (Hx1 : text_obj s1 e (snd p)) by (split; [done|]; exists o; split; [by apply (kp_heap _ _ _ (K1 zo))|done]).
  pose proof (replaced l p rest (cstr nv) d (zt_set _ _ HZ) HP Hy) as Hrep. set (l1 := snd (spec_add false (cstr nv) d l)) in *.
  assert (Hin : cstr nv ∈ map snd l1).
  { pose proof (score_arg_good _ _ (cstr nv) (stored_reads sc d Hst)) as Hg. destruct (spec_add_score (cstr nv) d l (zt_set _ _ HZ) Hg) as (d' & Hd' & _). apply member_some in Hd'. by apply (list_elem_of_fmap_2 snd) in Hd'. }
  destruct (zset_delete_old_ok s1 l1 cl nv e (snd p) HZ1 Hcl Hx1 Hnul Hin) as (s2 & E2 & HZ2 & K2). rewrite (prog_bind_step _ _ _ _ _ E2).
  assert (Hme : m <> e /\ m <> ka /\ m <> zo /\ n <> e). { destruct (zt_key _ _ HZ) as (ok & Hok & _). pose proof (zt_obj _ _ HZ) as Hz. split; [by intros ->; congruence|]. split; [by intros ->; congruence|]. split; [by intros ->; congruence|]. by intros ->; congruence. }
  destruct Hme as (Hme & Hmk & Hmz & Hne). destruct (kp_some _ _ _ K2 m Hm1) as [om Hom]. erewrite prog_bind_step by (by apply (zfree_Done m om)).
  eexists n, _, _. split; [reflexivity|]. split; [|split; [exact Hrep|split; [|split; [|done]]]].
  - eapply zset_st_db; [exact HZ2| | | |done|done|apply HZ2]; cbn; [by rewrite lookup_delete_ne by done; apply HZ2|by rewrite lookup_delete_ne by done|].
    intros b Hb. cbn. destruct (decide (m = b)) as [->|Hbm]; [apply lookup_delete_eq|]. rewrite lookup_delete_ne by done. by apply HZ2.
  - destruct Hn1 as [Hnk (on & Hon & Hpn)]. split; [done|]. exists on. split; [|done]. cbn. rewrite lookup_delete_ne by done. by apply (kp_heap _ _ _ K2).
  - destruct (zkept_trans e _ _ _ (K1 e) K2) as [C1 C2 C3 C4]. split; try done; cbn.
    + intros b ob Hb1 Hb2 Hb. rewrite lookup_delete_ne by (intros <-; congruence). by apply C1.
    + intros b [ob Hb]. rewrite lookup_delete_ne by (intros <-; congruence). apply C2. eauto.
Qed.
End Zset.

Section Zset2.
#[local] Set Default Proof Using "Type*".
Context (mu : upd_fun) (trz : fptr -> sds -> Double.double -> option sds * option Double.double) {Hmu : PureZsetUpdates mu trz}.
Context (c : client) (v : version_hash) (key : sds) (zo ka : addr) (oz : robj) (cf : server_conf).
Context (Hka : cl_argv c !! 1%nat = Some (Some ka)) (Ht : o_type oz = REDIS_ZSET) (He : o_encoding oz = ENC_ZIPLIST).
Context (Hw : wf_vh v) (H4 : (4 <= three_pointers cf)%nat).
Local Abbreviation zset_st := (zset_st c key zo ka oz cf).
Local Abbreviation zobj := (zobj oz).
Local Abbreviation text_obj := (text_obj ka).
Local Abbreviation kept := (kept zo).

(** The set is the element [p] and the [rest]; [e] is the object of its member. *)
Definition zset_with (rest : list elt) (p : elt) (s : server) (e : addr) : Prop :=
  exists l, zset_st s l /\ l ≡ₚ p :: rest /\ text_obj s e (snd p) /\ NUL ∉ snd p.

(** A name and a score that can be written next to the elements of [rest]. *)
Definition writable (rest : list elt) (w : sds * Double.double) : Prop :=
  is_Some (stored (snd w)) /\ sdslen (fst w) <= zset_max_ziplist_value cf /\ fst w ∉ map snd rest.
Definition zfun_ok (rest : list elt) (s0 : Double.double) (p : elt) (f : fptr) : Prop := Forall (writable rest) (zlog trz s0 [f] p).

Definition moved (s : server) (e : addr) (s' : server) (e' : addr) : Prop := kept e s s' /\ (e' = e \/ heap s !! e' = None).
Lemma moved_refl s e : moved s e s e.
Proof. split; [apply zkept_refl|by left]. Qed.
Lemma moved_trans s1 e1 s2 e2 s3 e3 : moved s1 e1 s2 e2 -> moved s2 e2 s3 e3 -> moved s1 e1 s3 e3.
Proof.
  intros [A HA] [B HB]. pose proof A as [A1 A2 A3 A4]. pose proof B as [B1 B2 B3 B4]. split; [split|].
  - intros b o H1 H2 Hb. apply B1; [done| |by apply A1]. destruct HA as [->|HA]; [done|]. by intros ->; congruence.
  - eauto.
  - congruence.
  - congruence.
  - destruct HB as [->|HB]; [done|]. right. destruct (heap s1 !! e3) eqn:E; [|done]. destruct (A2 e3 ltac:(eauto)) as [? ?]. congruence.
Qed.

Lemma zset_room rest s l p : zset_st s l -> l ≡ₚ p :: rest -> room cf (p :: rest) -> room cf l.
Proof. intros HZ HP. unfold room. by rewrite (Permutation_length HP). Qed.

Lemma cstr_nul x : NUL ∉ cstr x.
Proof. apply cstr_no_nul. Qed.

Lemma run_fun_zset rest s0 ck f p s e : room cf (p :: rest) -> zset_with rest p s e -> zfun_ok rest s0 p f ->
  exists e' s', run_fun mu c v ck (KZset s0) f e s = Done (e', s') /\ zset_with rest (zfun trz s0 p f) s' e' /\ moved s e s' e'.
Proof.
  intros Hroom (l & HZ & HP & Hx & Hnul) Hok. unfold run_fun. destruct (zt_key _ _ _ _ _ _ _ _ HZ) as (ok & Hok1 & Hokp). rewrite (bind_arg_str c 1 key) by (by exists ka, ok).
  pose proof Hx as [Hek (o & Ho & Hp)]. rewrite (bind_deref _ _ _ _ Ho), Hp, bind_mret, (prog_bind_step _ _ _ _ _ (pure_muz _ _ _ _ _ _)). cbn [mu_key apply_key]. rewrite bind_mret.
  unfold zfun_ok, zfun in *. cbn [zlog] in Hok. rewrite app_nil_r in Hok. unfold apply_val. cbn [mu_val mu_score]. destruct (trz f (snd p) s0) as [n sc] eqn:Etr. cbn [fst snd] in *.
  destruct (decide (n = None /\ sc = None)) as [[-> ->]|Hsome]; [exists e, s; split; [done|]; split; [by exists l|apply moved_refl]|].
  assert (Hrun : (match n, sc with None, None => mret e | _, _ => x ← or_ptr n e; kvolve_update_zset_elem c x e (default s0 sc) end) s = kvolve_update_zset_elem c (default (snd p) n) e (default s0 sc) s).
  { destruct n as [n|], sc as [sc|]; cbn [or_ptr default from_option id]; try (by rewrite bind_mret); [|by destruct Hsome]. unfold or_ptr. rewrite bind_assoc, (bind_deref _ _ _ _ Ho). unfold sds_of. by rewrite Hp, bind_lift. }
  assert (Hw1 : Forall (writable rest) [(cstr (default (snd p) n), default s0 sc)]) by (destruct n, sc; try exact Hok; by destruct Hsome). apply Forall_singleton in Hw1 as ([d Hd] & Hlen & Hy). cbn [fst snd] in *.
  destruct (update_zset_elem_ok c key zo ka oz cf Hka Ht He s l p rest (default (snd p) n) (default s0 sc) d e HZ (zset_room rest s l p HZ HP Hroom) H4 HP Hx Hnul Hd Hlen Hy) as (n' & s' & l' & E' & HZ' & HP' & Hx' & K' & Hf').
  exists n', s'. split; [destruct n, sc; try (by destruct Hsome); by rewrite <- E', <- Hrun|]. split; [|split; [done|by right]].
  replace (match n, sc with None, None => p | _, _ => renamed p (cstr (default (snd p) n)) (default S754_nan (stored (default s0 sc))) end) with (renamed p (cstr (default (snd p) n)) d)
    by (rewrite Hd; destruct n, sc; try done; by destruct Hsome).
  exists l'. split; [done|]. split; [done|]. split; [exact Hx'|apply cstr_nul].
Qed.

Lemma zset_stamp rest w p s e : zset_with rest p s e -> exists s', upd_obj e (set_o_vers w) s = Done (tt, s') /\ zset_with rest p s' e /\ moved s e s' e.
Proof.
  intros (l & HZ & HP & Hx & Hnul). pose proof (text_ne c key zo ka oz cf Hka Ht He _ _ _ _ HZ Hx) as Hez. destruct Hx as [Hek (o & Ho & Hp)]. rewrite (upd_obj_Done _ _ _ _ Ho). eexists. split; [reflexivity|].
  destruct (zset_st_touch c key zo ka oz cf Hka Ht He s l e o (set_o_vers w o) HZ Ho Hez Hek) as [HZ' K']. split; [|split; [done|by left]]. exists l. split; [done|]. split; [done|]. split; [|done].
  split; [done|]. eexists. split; [apply lookup_insert_eq|done].
Qed.

Lemma log_all_ok rest s0 fs : forall p, Forall (writable rest) (zlog trz s0 fs p) -> all_ok (zfun trz s0) (zfun_ok rest s0) p fs.
Proof.
  induction fs as [|f fs IH]; intros p Hl; [done|]. cbn [all_ok]. cbn [zlog] in Hl. apply Forall_app in Hl as [H1 H2]. split; [|by apply IH]. unfold zfun_ok. cbn [zlog]. by rewrite app_nil_r.
Qed.

Lemma zset_with_kv rest p s e k : zset_with rest p s e -> zset_with rest p (set_kv k s) e.
Proof. intros (l & [A1 A2 A3 A4 A5 A6 A7] & H). exists l. split; [|done]. by split. Qed.

Lemma check_update_zset first rest p s e o cur : cur_vers v = Done cur -> o_vers oz <> cur -> upd_fun_running (kv s) = 0 -> room cf (p :: rest) ->
  zset_with rest p s e -> heap s !! e = Some o -> o_vers o = o_vers oz -> Forall (writable rest) (zchanges trz v (o_vers oz) p) ->
  exists s' l, kvolve_check_update_kv_pair mu c (Some v) first (Some e) (KZset (fst p)) s = Done (tt, s') /\ zset_st s' l /\ l ≡ₚ zmigrate trz v (o_vers oz) p :: rest /\ kept e s s'.
Proof.
  intros Hc Hne Hrun Hroom HP Ho Hov Hlog. unfold kvolve_check_update_kv_pair. rewrite bind_gets, Hrun. cbn [Z.eqb]. rewrite bind_mret, (bind_deref _ _ _ _ Ho).
  assert (Hsm : is_small_int o = false). { destruct HP as (l & _ & _ & [_ (o' & Ho' & Hp)] & _). unfold is_small_int. replace o with o' by congruence. by rewrite Hp. }
  rewrite Hsm, Hc, bind_lift, Hov, (proj2 (Z.eqb_neq _ _)) by done. unfold do_update, upd_kv. rewrite bind_modify. set (s1 := set_kv _ s).
  pose proof (zset_with_kv rest p s e (set_upd_fun_running 1 (kv s)) HP : zset_with rest p s1 e) as HP1. destruct (ns_changed_Done v Hw _ _ Hc Hne) as [b Hb].
  assert (E2 : exists r, (if first then lift (ns_changed v (find_vers v (o_vers oz))) else mret false) s1 = Done (r, s1)) by (destruct first; [rewrite Hb; by exists b|by exists false]).
  destruct E2 as [r E2]. rewrite (prog_bind_step _ _ _ _ _ E2). pose proof HP1 as (l1 & HZ1 & _). pose proof (key_str c key zo ka oz cf Hka Ht He s1 l1 c HZ1 Hka) as Hk.
  assert (E3 : when r (kvolve_namespace_update c v) s1 = Done (tt, s1)) by (destruct r; [|done]; cbn [when]; eapply namespace_update_present; [exact Hk|apply HZ1]).
  rewrite (prog_bind_step _ _ _ _ _ E3). destruct (pending_last v (o_vers oz) cur Hw Hc Hne) as (js & _ & Hr). fold (pending v (o_vers oz)).
  destruct (walk_loop mu c v (KZset (fst p)) Hw (zfun trz (fst p)) (zfun_ok rest (fst p)) (zset_with rest) moved moved_refl moved_trans
    (fun ck f x s e => run_fun_zset rest (fst p) ck f x s e Hroom) (zset_stamp rest) first (pending v (o_vers oz)) p s1 e Hr HP1 (log_all_ok rest (fst p) _ p Hlog)) as (e2 & s2 & E4 & (l2 & HZ2 & HP2 & _) & [K2 _]).
  rewrite (prog_bind_step _ _ _ _ _ E4). eexists _, l2. split; [reflexivity|]. split; [by destruct HZ2|]. split; [done|]. destruct K2 as [A1 A2 A3 A4]. split; try done. cbn [kv set_kv]. rewrite A4. cbn. destruct (kv s); cbn in *. by subst.
Qed.

(** *** All members *)
Local Abbreviation mig := (zmigrate trz v (o_vers oz)).

(** What is written for all the members stays clear of the other ones, old and new. *)
Definition zlogs_ok (l : list elt) : Prop := forall p, p ∈ l -> NUL ∉ snd p /\
  forall y sc, (y, sc) ∈ zchanges trz v (o_vers oz) p -> is_Some (stored sc) /\ sdslen y <= zset_max_ziplist_value cf /\
    forall q, q ∈ l -> q <> p -> y <> snd q /\ y <> snd (mig q).

(** A gathered member: its object and the element. *)
Definition gathered (s : server) (g : addr * elt) : Prop :=
  fst g <> ka /\ heap s !! fst g = Some (mkObj REDIS_ZSET ENC_ZIPLIST 1 (o_vers oz) (PSds (snd (snd g)))).

Lemma rest_clear l don p todo : zlogs_ok l -> NoDup l -> l = don ++ p :: todo -> Forall (writable (map mig don ++ todo)) (zchanges trz v (o_vers oz) p).
Proof.
  intros Hl HN El. rewrite El in HN. apply NoDup_app in HN as (_ & Hd & HN). apply NoDup_cons in HN as [Hp _]. destruct (Hl p ltac:(rewrite El; apply elem_of_app; right; by left)) as [_ Hlp].
  apply Forall_forall. intros [y sc] Hin. destruct (Hlp y sc Hin) as (H1 & H2 & H3). split; [done|]. split; [done|]. cbn [fst]. rewrite map_app, elem_of_app. intros [Hy|Hy]; apply list_elem_of_fmap in Hy as (q & Ey & Hq).
  - apply list_elem_of_fmap in Hq as (q' & -> & Hq'). destruct (H3 q') as [_ H]; [rewrite El; apply elem_of_app; by left|intros ->; apply (Hd _ Hq'); by left|done].
  - destruct (H3 q) as [H _]; [rewrite El; apply elem_of_app; right; by right|by intros ->|done].
Qed.

Lemma zset_st_zfree s l e o : zset_st s l -> heap s !! e = Some o -> e <> zo -> e <> ka ->
  exists s', zfree e s = Done (tt, s') /\ zset_st s' l /\ dbs s' = dbs s /\ kv s' = kv s /\ forall b, b <> e -> heap s' !! b = heap s !! b.
Proof.
  intros HZ Ho H1 H2. rewrite (zfree_Done _ _ _ Ho). eexists. split; [reflexivity|]. assert (Hup : forall b, b <> e -> delete e (heap s) !! b = heap s !! b) by (intros b Hb; by rewrite lookup_delete_ne).
  split; [|done]. eapply zset_st_db; [exact Hka|exact Ht|exact He|exact HZ| | | |done|done|apply HZ]; cbn [heap set_heap]; [by rewrite Hup; [apply HZ|]|by apply Hup|].
  intros b Hb. cbn. destruct (decide (b = e)) as [->|Hne]; [apply lookup_delete_eq|]. rewrite Hup by done. by apply HZ.
Qed.

Lemma update_zset_elems_ok l0 cur : zlogs_ok l0 -> NoDup l0 -> room cf l0 -> cur_vers v = Done cur -> o_vers oz <> cur -> forall gs don first s l,
  l0 = don ++ map snd gs -> zset_st s l -> l ≡ₚ map mig don ++ map snd gs -> Forall (gathered s) gs -> NoDup (map fst gs) -> upd_fun_running (kv s) = 0 ->
  exists s' l', update_zset_elems mu c v zo first (map (fun g => (Some (fst g), fst (snd g))) gs) s = Done (tt, s') /\ zset_st s' l' /\ l' ≡ₚ map mig l0 /\ dbs s' = dbs s /\ kv s' = kv s.
Proof.
  intros Hl HN Hroom Hc Hne. induction gs as [|[e p] gs IH]; intros don first s l El HZ HP Hgs HNg Hrun; cbn [map update_zset_elems fst snd] in *.
  - exists s, l. rewrite app_nil_r in *. by subst don.
  - apply Forall_cons in Hgs as [[Hek Ho] Hgs]. cbn [fst snd] in Hek, Ho. apply NoDup_cons in HNg as [Heg HNg]. rewrite (bind_deref _ _ _ _ (zt_obj _ _ _ _ _ _ _ _ HZ)).
    cbn [KvolveZset.zobj set_o_ptr o_type]. rewrite Ht. cbn [kind_of]. set (rest := map mig don ++ map snd gs).
    assert (HPr : l ≡ₚ p :: rest) by (rewrite HP; symmetry; apply Permutation_middle).
    assert (Hx : text_obj s e (snd p)) by (split; [done|]; by eexists). pose proof (text_ne c key zo ka oz cf Hka Ht He _ _ _ _ HZ Hx) as Hez.
    assert (Hr : room cf (p :: rest)). { unfold room in *. assert (length (p :: rest) = length l0) as -> by (subst rest; rewrite El; cbn; rewrite !length_app, length_map; cbn; lia). done. }
    assert (Hat : zset_with rest p s e) by (exists l; split; [done|]; split; [done|]; split; [done|]; apply (Hl p); rewrite El; apply elem_of_app; right; by left).
    destruct (check_update_zset first rest p s e _ cur Hc Hne Hrun Hr Hat Ho eq_refl (rest_clear l0 don p _ Hl HN El)) as (s1 & l1 & E1 & HZ1 & HP1 & K1). rewrite (prog_bind_step _ _ _ _ _ E1).
    destruct (kp_some _ _ _ _ K1 e ltac:(eauto)) as [o1 Ho1]. destruct (zset_st_zfree s1 l1 e o1 HZ1 Ho1 Hez Hek) as (s2 & E2 & HZ2 & D2 & V2 & Hup2). rewrite (prog_bind_step _ _ _ _ _ E2).
    destruct (IH (don ++ [p]) false s2 l1) as (s3 & l3 & E3 & HZ3 & HP3 & D3 & V3); try done.
    + by rewrite <- app_assoc.
    + rewrite HP1, map_app, <- app_assoc. apply Permutation_middle.
    + apply Forall_forall. intros [b q] Hg. destruct (proj1 (Forall_forall _ _) Hgs _ Hg) as [Hbk Hb]. cbn [fst snd] in *. assert (Hbe : b <> e) by (intros ->; apply Heg; by apply (list_elem_of_fmap_2 fst) in Hg).
      split; [done|]. cbn [fst snd]. rewrite Hup2 by done. apply (kp_heap _ _ _ _ K1); try done. intros ->. rewrite (zt_obj _ _ _ _ _ _ _ _ HZ) in Hb. by destruct oz.
    + by rewrite V2, (kp_kv _ _ _ _ K1).
    + exists s3, l3. split; [done|]. split; [done|]. split; [done|]. rewrite D3, D2, V3, V2. by destruct K1.
Qed.

Lemma gather_zset_ok l : Forall good l -> forall todo don fuel s, l = don ++ todo -> (length todo < fuel)%nat -> zset_st s l -> (forall p, p ∈ todo -> Util.string2ll (snd p) = None) ->
  exists gs s', gather_zset fuel (zobj l) (pairs l) (ptr don todo) s = Done (map (fun g => (fst g, fst (snd g))) gs, s') /\ map snd gs = todo /\ Forall (gathered s') gs /\ NoDup (map fst gs) /\
    Forall (fun g => next_addr s <= fst g)%positive gs /\ zset_st s' l /\ dbs s' = dbs s /\ kv s' = kv s /\ forall b o, heap s !! b = Some o -> heap s' !! b = Some o.
Proof.
  intros Hgood. induction todo as [|p todo IH]; intros don fuel s El Hf HZ Hint; (destruct fuel as [|fuel]; [cbn in Hf; lia|]).
  - exists [], s. cbn. repeat split; try constructor; try apply HZ; done.
  - cbn [ptr gather_zset]. rewrite El, get_member, bind_lift, (Hint p) by (by left). unfold createStringObject, createObject. rewrite bind_alloc. set (n := next_addr s).
    assert (Hn : heap (set_next_addr (Pos.succ n) (set_heap (<[n := mkObj REDIS_STRING ENC_RAW 1 0 (PSds (snd p))]> (heap s)) s)) !! n = Some (mkObj REDIS_STRING ENC_RAW 1 0 (PSds (snd p)))) by apply lookup_insert_eq.
    rewrite (bind_upd_obj _ _ _ _ _ Hn). cbn [heap set_heap set_next_addr KvolveZset.zobj set_o_ptr set_o_encoding set_o_type set_o_vers o_encoding o_type o_vers o_refcount o_ptr]. rewrite insert_insert_eq, Ht, He.
    set (s1 := set_heap _ _). rewrite next_elt. cbn [expect]. rewrite bind_lift, get_score by (rewrite El in Hgood; apply Forall_app in Hgood as [_ Hgood]; by apply Forall_inv in Hgood). rewrite bind_lift, next_score.
    destruct (zset_st_alloc c key zo ka oz cf Hka Ht He s l (mkObj REDIS_ZSET ENC_ZIPLIST 1 (o_vers oz) (PSds (snd p))) zo HZ) as [HZ1 _].
    assert (HZ1' : zset_st s1 l) by (destruct HZ1; by split). clear HZ1.
    destruct (IH (don ++ [p]) fuel s1) as (gs & s2 & E2 & Hm & Hg & HN & Hge & HZ2 & D2 & V2 & Hk2); [by rewrite <- app_assoc|cbn in Hf; lia|done|intros q Hq; apply Hint; by right|].
    rewrite <- El. unfold KvolveZset.zobj in E2 |- *. rewrite (prog_bind_step _ _ _ _ _ E2). exists ((n, p) :: gs), s2. split; [done|]. split; [cbn; by rewrite Hm|].
    pose proof (zt_fresh _ _ _ _ _ _ _ _ HZ) as HF. destruct (zt_key _ _ _ _ _ _ _ _ HZ) as (ok & Hok & _). pose proof (heap_fresh_lt _ _ _ HF Hok) as Hkn.
    assert (Hge' : forall g, g ∈ gs -> (Pos.succ n <= fst g)%positive) by (intros g; apply (proj1 (Forall_forall _ _) Hge)).
    split; [constructor; [split; [cbn; subst n; lia|]; apply Hk2; apply lookup_insert_eq|done]|]. split; [|split; [|split; [done|split; [done|split; [done|]]]]].
    + cbn. apply NoDup_cons. split; [|done]. intros Hin. apply list_elem_of_fmap in Hin as (g & Eg & Hin). apply Hge' in Hin. rewrite <- Eg in Hin. lia.
    + constructor; [cbn; subst n; lia|]. apply Forall_forall. intros g Hin. apply Hge' in Hin. subst n. lia.
    + intros b o Hb. apply Hk2. pose proof (heap_fresh_lt _ _ _ HF Hb). subst s1. cbn. by rewrite lookup_insert_ne by (subst n; lia).
Qed.

Lemma update_all_zset_ok cur s l : zset_st s l -> upd_fun_running (kv s) = 0 -> cur_vers v = Done cur -> o_vers oz <> cur -> zlogs_ok l ->
  (forall p, p ∈ l -> Util.string2ll (snd p) = None) -> room cf l ->
  exists s' l', kvolve_update_all_zset mu c (Some v) s = Done (0, s') /\ heap s' !! zo = Some (set_o_vers cur (zobj l')) /\ set_ok l' /\ l' ≡ₚ map mig l /\ dbs s' = dbs s /\ kv s' = kv s.
Proof.
  intros HZ Hrun Hc Hne Hl Hint Hroom. pose proof (zt_set _ _ _ _ _ _ _ _ HZ) as HS. pose proof (so_small _ HS) as Hsm. unfold kvolve_update_all_zset.
  rewrite (prog_bind_step _ _ _ _ _ (get_db_val_present s c v key zo (key_str c key zo ka oz cf Hka Ht He s l c HZ Hka) (zt_lookup _ _ _ _ _ _ _ _ HZ))).
  rewrite (bind_deref _ _ _ _ (zt_obj _ _ _ _ _ _ _ _ HZ)), Hc, bind_lift. change (o_vers (zobj l)) with (o_vers oz). rewrite (proj2 (Z.eqb_neq _ _)) by done.
  change (o_encoding (zobj l)) with (o_encoding oz). change (o_ptr (zobj l)) with (PZiplist (pairs l)). rewrite He, index_0.
  destruct (gather_zset_ok l (so_good _ HS) l [] (S (length (pairs l))) s eq_refl ltac:(rewrite pairs_length; lia) HZ Hint) as (gs & s1 & E1 & Hm & Hg & HN & _ & HZ1 & D1 & V1 & _).
  rewrite (prog_bind_step _ _ _ _ _ E1). rewrite (zsetLength_ok (ZZl (pairs l)) l (rep_zl l) HS), to_s_small, Nat2Z.id by (unfold in_s; lia).
  assert (Ea : zset_arrays (length l) (map (fun g => (fst g, fst (snd g))) gs) = map (fun g => (Some (fst g), fst (snd g))) gs).
  { unfold zset_arrays. rewrite length_map, <- Hm, length_map, Nat.sub_diag, app_nil_r, map_map. done. }
  rewrite Ea. destruct (update_zset_elems_ok l cur Hl (NoDup_fmap_1 snd _ (so_nodup _ HS)) Hroom Hc Hne gs [] true s1 l) as (s2 & l2 & E2 & HZ2 & HP2 & D2 & V2); rewrite ?Hm, ?V1; try done.
  rewrite (prog_bind_step _ _ _ _ _ E2), (bind_upd_obj _ _ _ _ _ (zt_obj _ _ _ _ _ _ _ _ HZ2)). eexists _, l2. split; [reflexivity|]. cbn [heap set_heap dbs kv]. rewrite lookup_insert_eq.
  split; [done|]. split; [apply HZ2|]. split; [done|]. by rewrite D2, D1, V2, V1.
Qed.
End Zset2.


(** The member "a" is renamed, and every score grows by a half. *)
Definition demo_trz (f : fptr) (x : sds) (sc : Double.double) : option sds * option Double.double :=
  if f =? 40 then (if bool_decide (x = str "a") then Some (str "alpha") else None, Some (Double.plus sc half)) else (None, None).
Definition demo_muz : upd_fun := fun f key p len =>
  match p with
  | VZset (PSds x) sc => mret (mkMu None (fst (demo_trz f x sc)) len None (snd (demo_trz f x sc)))
  | _ => mret (mkMu None None len None None)
  end.
#[global] Instance demo_pure_zset : PureZsetUpdates demo_muz demo_trz.
Proof. by intros f key x sc len s. Qed.

(** A sorted set of version 1 under "b:x", where version 2 has one update function. *)
Definition zset_heap (o : robj) : gmap addr robj := <[10011%positive := str_obj "b:x" 0]> (<[10012%positive := o]> ∅).
Definition zset_server (o : robj) : server := Heap.store_of (zset_heap o) KvolveCont.cont_base.
Definition zl_obj (L : list string) : robj := mkObj REDIS_ZSET ENC_ZIPLIST 1 1 (PZiplist (map str L)).
Definition one_and_half : Double.double := Double.plus one half.
Definition demo_set : list elt := [(half, str "a"); (one, str "b")].

Lemma zset_server_st : zset_st KvolveCont.cont_client (str "b:x") 10012 10011 (zl_obj ["a"; "0.5"; "b"; "1"]%string) conf0 (zset_server (zl_obj ["a"; "0.5"; "b"; "1"]%string)) demo_set.
Proof.
  assert (Hg : Forall good demo_set) by (repeat constructor). split.
  - apply (Heap.store_of_lookup (zset_heap (zl_obj ["a"; "0.5"; "b"; "1"]%string)) KvolveCont.cont_base). vm_compute. reflexivity.
  - exists (str_obj "b:x" 0). split; [apply (Heap.store_of_lookup (zset_heap (zl_obj ["a"; "0.5"; "b"; "1"]%string)) KvolveCont.cont_base)|]; reflexivity.
  - apply Heap.st_fresh. unfold zset_server. apply (Heap.store_of_ok (zset_heap (zl_obj ["a"; "0.5"; "b"; "1"]%string)) KvolveCont.cont_base); [reflexivity|]. intros b o. unfold zset_heap. rewrite !lookup_insert_Some. intros [[<- _]|[_ [[<- _]|[_ Hb]]]]; [lia|lia|]. by rewrite lookup_empty in Hb.
  - exact I.
  - reflexivity.
  - reflexivity.
  - split; [done|repeat constructor|apply (bool_decide_unpack _); vm_compute; exact I|cbn; lia].
Qed.


(** *** Where the hypotheses fail *)
(** The functions rename "a" and leave every score alone. *)
Definition rename_a : upd_fun := fun f key p len =>
  match p with
  | VZset (PSds x) _ => mret (mkMu None (if bool_decide (x = str "a") then Some (str "alpha") else None) len None None)
  | _ => mret (mkMu None None len None None)
  end.
Definition small_zset (o : robj) : server := set_heap (zset_heap o) KvolveCont.cont_base.
Definition with_limits (entries : Z) (three : nat) (s : server) : server :=
  set_conf (mkConf 1000 false false None 0 false 512 512 64 512 64 entries 64 three) (set_rnd (repeat 65535 8) s).
(** The version and the value of the set after the update. *)
Definition updated_zset (mu : upd_fun) (s : server) : outcome (option (Z * optr)) :=
  match kvolve_update_all_zset mu KvolveCont.cont_client (Some Kvolve.demo_b) s with
  | Done (_, s') => Done ((fun o => (o_vers o, o_ptr o)) <$> heap s' !! 10012%positive)
  | Fault e => Fault e
  end.
(** The skip list of the set {a: 1}. *)
Definition sk_set : zset :=
  match zsetConvert ENC_SKIPLIST (ZZl [str "a"; str "1"], repeat 65535 2) with
  | Done (_, (ZSk zs, _)) => zs
  | _ => mkZset ∅ ZSkip.zslCreate
  end.

(** Where the hypotheses of the update of a sorted set fail, so does the update.  A
    member whose score is not changed by the functions loses the digits that %f does not
    print, once it is renamed: 1e-07 becomes 0.  A member that is an integer is passed
    over, yet the set is stamped as current; when its score is no integer, the score is
    taken for a member, and the walk ends in an assertion.  A set at the limit of the
    ziplist becomes a skip list while the new member is added, and deleting the old one
    fails an assertion, because the object of the member was given the type of the set.
    A set kept as a skip list is neither updated nor stamped.  And when the block that
    zmalloc gives for three pointers has no room for a fourth, every change writes
    behind it. *)
Example zset_update_breaks :
  updated_zset rename_a (small_zset (zl_obj ["a"; "1e-07"]%string)) = Done (Some (2, PZiplist [str "alpha"; str "0"])) /\
  updated_zset demo_muz (small_zset (zl_obj ["7"; "0"; "b"; "0.5"]%string)) = Done (Some (2, PZiplist [str "7"; str "0"; str "b"; str "1"])) /\
  updated_zset demo_muz (small_zset (zl_obj ["7"; "0.5"]%string)) = Fault AssertFail /\
  updated_zset rename_a (with_limits 3 4 (small_zset (zl_obj ["a"; "0"; "b"; "1"]%string))) = Done (Some (2, PZiplist [str "alpha"; str "0"; str "b"; str "1"])) /\
  updated_zset rename_a (with_limits 2 4 (small_zset (zl_obj ["a"; "0"; "b"; "1"]%string))) = Fault AssertFail /\
  updated_zset rename_a (small_zset (mkObj REDIS_ZSET ENC_SKIPLIST 1 1 (PZset sk_set))) = Done (Some (1, PZset sk_set)) /\
  updated_zset rename_a (with_limits 128 3 (small_zset (zl_obj ["a"; "1"]%string))) = Fault OutOfBounds.
Proof. repeat split; vm_compute; reflexivity. Qed.
End KvolveZset.
